(* ===== verification/_CoqProject ===== *)
-Q . S2P
Prelude.v
Bytes.v
Storage.v
Crypto.v
Codec.v
CodecReader.v
CodecPayload.v
CodecPlain.v
CodecEncrypted.v
Namespace.v
Legacy.v
Contracts.v
Budget.v
Cache.v
CacheLru.v
CacheProofs.v
CacheSystem.v
Authorization.v
Config.v
Paths.v
PromptState.v
PromptProofs.v
PromptOps.v
PromptSystem.v
PromptTheorems.v
Protocol.v
Status.v
Ipc.v
IpcClient.v
Pam.v
PromptConnection.v
PromptServer.v
PromptServerProofs.v
Supervisor.v
Coordinator.v
CameraAdmission.v
ServerState.v
Dispatch.v
Handlers.v
Bmp.v
Disk.v
Backend.v
Plaintext.v
PlaintextStore.v
PlaintextProofs.v
CacheModels.v
BackendOps.v
BackendCalls.v
PlaintextCalls.v
BackendSystem.v
PlaintextSystem.v
Provision.v
ProvisionAtomic.v
Credential.v
CredentialLayout.v
ProvisionProofs.v
Cleanup.v
Journal.v
JournalChain.v
JournalProofs.v
JournalSystem.v
Fingerprint.v
ConfigPatch.v
Receipt.v
Mode1.v
Mode1Store.v
Mode1Proofs.v
Mode1Write.v
Mode1Scan.v
Mode1Health.v
Mode1Calls.v
Mode1Auth.v
Mode1System.v
Security.v
SecurityProvision.v
SecurityRecover.v
SecuritySafety.v
SecurityFlows.v
SecurityPresence.v
SecurityPackage.v
