(* ===== verification/Prelude.v ===== *)
(** * howy: a verification development for the howy face-authentication system

    howy authenticates Linux users by face. A privileged daemon owns the camera,
    the inference engine and the enrolled face embeddings; a PAM module and a
    command line talk to it over a Unix socket. This library models the parts of
    the daemon and of its common crate that decide who may do what, what is stored
    and how memory is bounded, and proves them correct. Sources are under
    [crates/]; a definition keeps the name of the Rust item it translates, with
    [Type_method] for a method.

    ** The parts and the files that model them

    - Language and machine: [Prelude] (results and the [?] operator as a monad,
      checked and saturating 64-bit arithmetic, sums over maps, tactics, hint
      databases) and [Bytes] (byte strings, little- and big-endian words, UTF-8,
      ASCII classes, [f32] by bit pattern, constant-time comparison).
    - Enrollment storage, [howy-common/src/storage]. [Storage] holds the records,
      identifiers, limits and errors of [mod.rs] and the username grammar of
      [paths.rs]; [Crypto] the AES-GCM wrapper and the nonce generator of
      [crypto.rs]; [Codec] the formats of [codec.rs] (the canonical payload,
      HOWYPLN1 and HOWYENC1), as a parser monad over the source's [Reader].
      [CodecReader] has the parsing rules the format proofs use, [CodecPayload]
      the payload, [CodecPlain] and [CodecEncrypted] the two formats. [Namespace]
      is [namespace.rs]; [Legacy] is [legacy.rs]; [Contracts] the estimates,
      models and requests of [contracts.rs].
    - Memory: [Budget] is the plaintext budget of [contracts.rs], its permits in a
      store; [Cache] the model cache and admission registry of
      [howy-daemon/src/storage/cache.rs] over the budget and a store of
      reference-counted models. [CacheLru] has the ownership invariant and
      the eviction order, [CacheProofs] one specification per
      operation, [CacheSystem] the step relation and the properties.
    - Policy: [Authorization] is [howy-daemon/src/authorization.rs], the request
      policy and the NSS resolver loop; [Config] is [howy-common/src/config.rs]
      (settings, validation, loading) and the part of [initialize_storage_backend]
      in [howy-daemon/src/main.rs] that turns settings into limits.
    - Prompt confirmation: [PromptState] is [howy-daemon/src/prompt_state.rs], the
      transaction manager with its guards and their [Drop] code, the shared
      cancellation controls, the poisoned and terminal states. [PromptProofs] shows
      what the digests bind and has the invariant, [PromptOps] its
      preservation by each operation, [PromptSystem] the step relation and
      [PromptTheorems] the properties.
    - Messages: [Paths] has the absolute paths the protocol carries, [Protocol] the
      messages of [proto/howy.proto] with the validation of
      [howy-common/src/protocol.rs], [Status] its status reports. [Ipc] is the framing
      of [howy-common/src/ipc.rs] over a socket whose every call has an outcome chosen
      by the system, with what its loops transfer; [IpcClient] is the prompt
      client connection with its [Drop] code, and its properties.
    - PAM: [Pam] is [howy-pam/src/lib.rs] from [authenticate_user_with] down, with
      Linux-PAM, the clock, entropy and the daemon as an environment, and its
      properties.
    - Request server, [howy-daemon/src/server.rs]: [PromptConnection] the connection
      machine, [PromptServer] issuing and redeeming prompts with other threads'
      interference at every poll ([PromptServerProofs]), [Supervisor] the supervision
      of a committed authentication, [Coordinator] the loop that drives a prompt
      connection, [CameraAdmission] the camera queue and its reaper, [ServerState]
      connection quotas and the camera profile, [Dispatch] the way from a request to
      its handler, [Handlers] the handlers over the storage interface, [Bmp] the image
      decoder of batch enrollment.
    - Plaintext storage, [howy-daemon/src/storage/plaintext.rs]: [Disk] a directory and
      its system calls, each of which may fail or be the last, and the rules of both;
      [Backend] what every backend is made of, over a directory, the cache and the budget
      ([BackendOps] its use of the cache, with [CacheModels]; [BackendCalls] the parts of
      its calls, against an interface to the records of a directory; [BackendSystem] the
      step relation with restarts, against an interface to a backend's calls);
      [Plaintext] reading and publishing records, [PlaintextStore] the backend's calls.
      [PlaintextProofs] shows what the directory holds, [PlaintextCalls] what each call
      does, [PlaintextSystem] the properties.
    - Provisioning, [howy-common/src/provisioning/mod.rs], the contracts of a transaction
      that gives a machine its storage key: [Provision] digests, names, unit states and
      file snapshots ([ProvisionProofs]); [ProvisionAtomic] atomic writes, staging paths,
      the guard, the security directories and the systemd units as the manager sees them;
      [Credential] the sealed-credential envelope and its base64,
      with its layout in [CredentialLayout]; [Cleanup] the provisioning
      states and the admission of a cleanup; [Journal] the phases and the
      mode-1, plaintext and supervisor journals, [JournalChain] what
      a chain of accepted transitions is for any of them, [JournalProofs] that the three
      are such machines, [JournalSystem] the properties; [Fingerprint] the namespace
      inventory and its digest; [ConfigPatch] the one-token patch
      that enables the service; [Receipt] verifier results and
      receipts.
    - Encrypted storage, [howy-daemon/src/storage/mode1.rs], over the same [Disk], [Backend]
      and interfaces as plaintext storage: [Mode1] inspecting, reading, replacing and
      clearing encrypted records, the rollbacks and the scan of the directory; [Mode1Store]
      the backend's calls. [Mode1Proofs] shows what reading yields, [Mode1Write] what the
      write and clear transactions leave, [Mode1Scan] what the scan makes of it, [Mode1Health]
      when the backend is poisoned, [Mode1Calls] what mutations do, [Mode1Auth] queries,
      authentication and startup, [Mode1System] the properties.
    - The security commands, [howy-cli/src/security/engine.rs] and [command.rs], as programs
      that make calls of the [SecurityRuntime] trait and may fail or unwind: [Security] the
      calls, the child commands, the derived configurations and receipts, journaled atomic
      writes, unit settling, the guard, supervision and failing closed; [SecurityProvision]
      the checks of a live system, provisioning and enabling; [SecurityRecover] recovery,
      cleanup and the commands [provision], [enable], [recover] and [cleanup_unadopted]. The
      methods the source repeats for each kind of journal are one definition over the class
      [EngineJournal]. [SecuritySafety] says what a runtime promises and what the engine owes
      it, for any world the engine acts on (the class [Machine]), and has the rules and the
      steps, [SecurityFlows] the transactions, the commands and the properties.
      [SecurityPresence] is the command that changes the presence policy ([set_presence]), with
      its sudoers override and its writes without a journal, and [SecurityPackage] the one a
      package manager runs ([package_reconcile]); both are proved over a world of files.

    The parts meet as in the program: the encrypted codec calls the AEAD wrapper;
    estimates are computed from codec headers; the cache reserves from the budget;
    a validated configuration yields the limits the cache and prompt theorems
    assume; a prompt snapshot hashes the configuration; the PAM module and the server
    exchange the same messages; dispatch asks [authorize]; both storage backends
    run the codec, the cache and the budget as they are modelled here, and the encrypted
    one classifies directory entries with the provisioning library's function; the
    security engine checks every journal, plan, unit set, envelope, patch and receipt with
    the provisioning library's definitions.

    ** What is assumed

    Code outside the repository is a parameter, most often a class with its laws
    in a second class: AES-256-GCM ([AesGcm], [AesGcmLaws]), SHA-256 ([Sha256],
    [Sha256Laws], only that digests have 32 bytes; a theorem that needs more
    offers an exhibited collision as the alternative), random sources
    ([RandomSource]), the bincode and JSON deserializers ([LegacyDecoders]),
    [getpwnam_r], the TOML parser, files and environment ([ConfigEnv]), memory
    allocation ([allocator], whose refusals are an outcome of the codecs), protobuf
    encoding ([Message], only that lengths agree), sockets, clocks and worker threads
    (outcome streams), the file system ([DiskOs], of which only that an injected error
    is not "not found" or "already exists"), serde and TOML printing ([SerdeJson],
    [TomlPretty], no law). The security engine runs against any runtime that keeps the promise
    [answers]: under the lock, journal and guard change by the engine's calls alone, a call that
    fails may have had its effect or not, time does not go back and a settle step takes some. For the
    commands without a journal the promise ([files_answers]) is about files: reads report them, a
    stage changes no other file, a commit that fails may have happened, and reconciling it settles
    and reports which. Each
    theorem with such a parameter has a witness at a concrete instance. Integers
    are [Z] with their width checked where the source checks it; [usize] is 64
    bits wide.

    ** What the theorems show

    - Storage: encoding is total on well-formed records and within the size bound,
      both formats round trip, what decodes is exactly what the encoder writes
      (hence bound to key, mode, epoch, user and model), inspection of a bounded
      prefix agrees with decoding, decoding never asks for more memory than the
      frozen bound, nonces never repeat, record paths are confined and collide for
      no two records, mode transitions select one namespace, legacy records decode
      to well-formed ones with unambiguous identifiers.
    - Memory: budget and cache accounts are exact in every reachable state, no
      accounting panic can happen, leases keep their bytes charged, eviction is in
      least-recently-used order and only when needed, a stale provisional load is
      never published, estimates are exact.
    - Policy: [authorize] implements the declarative rules in both directions;
      unprivileged peers are confined to themselves; confirmation cannot be
      skipped; name resolution terminates; validation accepts exactly the
      specified configurations, loading returns only such, startup accepts them.
    - Prompts: commit and promotion succeed only for the bound token, nonce, peer,
      target, service, origin and security snapshot, before the deadline; quotas
      hold; no capacity leaks; shutdown and poisoning are final; registered
      resources never miss a cancellation.
    - Messages and PAM: a sent frame is received whole or refused, within its deadline;
      [PAM_SUCCESS] means the daemon accepted this user on this connection after the
      user confirmed; every result code is accounted for.
    - Server: every request is served as authorized or refused; a commit is revalidated
      against identity, policy and storage; a verdict is delivered only if nothing
      ended the authentication first; supervision terminates; the camera has one owner
      and is granted in order; the BMP decoder accepts exactly canonical files.
    - Plaintext storage: whatever call fails and wherever the machine stops, a mutation
      leaves a user's record as it was or complete and new, and the others' untouched;
      clearing never uncovers an older record; cached models and leases are of the
      stored record in every reachable state; a reload reports exactly the records.
    - Provisioning: along any chain of accepted journal states the plan, snapshots and
      units stay fixed, writes only progress, no write record is lost, and the number of
      states is bounded by what was planned; the enabled configuration is live only once
      everything it needs is; activation, once begun, is never rolled back; an envelope is
      accepted exactly when it has the layout systemd writes; an artifact is cleaned up
      exactly when it is the recorded one and nothing refers to it; a fingerprint
      determines the inventory or exhibits a collision; the enabling patch changes one
      token and its receipt replays it; snapshots restore bytes and metadata exactly.
    - Encrypted storage: a mutation is a transaction: it succeeds with the complete new
      record stored and opening under the backend's key, or leaves the old one, or poisons
      the backend; leases are only of authenticated records of that user; a restart after a
      stop anywhere changes no record and starts only when no transaction is unfinished; a
      poisoned backend refuses every call; the artifact of a replacement is recognised by
      the scan, unless the username contains the marker it looks for.
    - Security commands: every run ends, and makes only calls that keep the system
      recoverable (a journal is replaced by its accepted successor, writes happen once they
      are durable in the journal, protected files change only under the guard with the units
      stopped, units start only without it); it ends complete, refused with nothing
      changed, or uncertain with units told to stop and the journal kept; failing closed
      reaches its end whatever fails; an edited configuration unwinds a provisioning. A change
      of the presence policy replaces configuration and receipt together or not at all, unless
      it reports that the outcome is uncertain, and writes them only with the units stopped and,
      if they ask for confirmation, with the override in place; reconciling a package keeps the credential, its policy, the patch
      and the state.

    ** Bounds and fuel

    Loops of the source with a static bound keep it ([ENTROPY_ATTEMPTS]).
    [loop_fuel] gives the eviction loops one step more than there are entries:
    each iteration removes one, and [reserve_loop] and [make_room] are proved never
    to run out. [copy_chunks] gets the number of entries. [resolve_loop] gets
    [k + 21] calls when no call after the first [k] is interrupted: twenty
    doublings reach the buffer cap. [generate_run] runs a chosen number of calls. The
    transfer loops of [Ipc] and [read_chunks] move at least one byte a turn and get as
    many turns as bytes; [supervise_loop] gets one turn per outcome until the deadline,
    [coordinate_loop] three turns, which is as many as a connection has. The loops that
    wait for a unit get [turns], more than 10000: their deadline is ten seconds away, the
    clock counts milliseconds and every turn that waits moves it.

    ** What is not modelled

    Readiness ([readiness.rs]), the walk that opens a storage directory, and the runtime of the
    security engine ([real.rs], system calls behind the trait) are not modelled. Camera, inference, child processes, key-file handling, the keyring cache and
    the configuration bridge are device, process or operator code. Zeroization and
    redacted formatting have no functional effect and are left out, as is blocking on
    locks and condition variables: a call that runs under its locks is one step. *)

From stdpp Require Export base tactics option list list_numbers numbers gmap sets fin_maps strings countable.
From Stdlib Require Export ZArith Lia.

#[global] Open Scope Z_scope.

(** ** Results

    Rust's [Result<A, E>], with stdpp's monad classes so that the [?] operator
    of the source is the bind [x ← c; k]. *)

Inductive result (E A : Type) : Type :=
| Ok (a : A)
| Err (e : E).
Arguments Ok {E A} a.
Arguments Err {E A} e.

#[export] Instance result_ret {E} : MRet (result E) := λ A a, Ok a.
#[export] Instance result_bind {E} : MBind (result E) := λ A B f m,
  match m with Ok a => f a | Err e => Err e end.
#[export] Instance result_fmap {E} : FMap (result E) := λ A B f m,
  match m with Ok a => Ok (f a) | Err e => Err e end.

#[export] Instance result_eq_dec {E A} `{EqDecision E, EqDecision A} :
  EqDecision (result E A).
Proof. solve_decision. Defined.

(** [Option::ok_or], [Result::map_err], [Result::is_ok], [Result::ok]. *)
Definition ok_or {E A} (o : option A) (e : E) : result E A :=
  match o with Some a => Ok a | None => Err e end.
Definition map_err {E F A} (f : E → F) (r : result E A) : result F A :=
  match r with Ok a => Ok a | Err e => Err (f e) end.
Definition is_ok {E A} (r : result E A) : bool :=
  match r with Ok _ => true | Err _ => false end.
Definition result_ok {E A} (r : result E A) : option A :=
  match r with Ok a => Some a | Err _ => None end.

Section result_lemmas.
  Context {E A B : Type}.
  Implicit Types (m : result E A) (f : A → result E B).

Lemma bind_Ok m f b : m ≫= f = Ok b ↔ ∃ a, m = Ok a ∧ f a = Ok b.
Proof. destruct m; naive_solver. Qed.

Lemma bind_Err m f e :
  m ≫= f = Err e ↔ m = Err e ∨ ∃ a, m = Ok a ∧ f a = Err e.
Proof. destruct m; naive_solver. Qed.

Lemma fmap_Ok (g : A → B) m b : g <$> m = Ok b ↔ ∃ a, m = Ok a ∧ g a = b.
Proof. destruct m; naive_solver. Qed.

Lemma ok_or_Ok (o : option A) (e : E) a : ok_or o e = Ok a ↔ o = Some a.
Proof. destruct o; naive_solver. Qed.

Lemma map_err_Ok {F} (g : E → F) m a : map_err g m = Ok a ↔ m = Ok a.
Proof. destruct m; naive_solver. Qed.

Lemma is_ok_true m : is_ok m = true ↔ ∃ a, m = Ok a.
Proof. destruct m; naive_solver. Qed.
End result_lemmas.

Lemma is_ok_unit {E} (r : result E ()) : is_ok r = true ↔ r = Ok ().
Proof. destruct r as [[]|]; naive_solver. Qed.

(** Inversion of successful computations: walks a chain of binds, guards and
    conversions that ended in [Ok]. *)
Ltac inv_ok_step :=
  match goal with
  | H : Ok _ = Ok _ |- _ => injection H as H
  | H : Some _ = Some _ |- _ => injection H as H
  | H : Err _ = Ok _ |- _ => discriminate H
  | H : Ok _ = Err _ |- _ => discriminate H
  | H : None = Some _ |- _ => discriminate H
  | H : mret _ = Ok _ |- _ => unfold mret, result_ret in H
  | H : mbind _ _ = Ok _ |- _ =>
      let a := fresh "a" in let Ha := fresh "Ha" in
      apply bind_Ok in H as (a & Ha & H)
  | H : mbind _ _ = Some _ |- _ =>
      let a := fresh "a" in let Ha := fresh "Ha" in
      apply bind_Some in H as (a & Ha & H)
  | H : ok_or _ _ = Ok _ |- _ => apply ok_or_Ok in H
  | H : map_err _ _ = Ok _ |- _ => apply map_err_Ok in H
  | H : fmap _ _ = Ok _ |- _ =>
      let a := fresh "a" in let Ha := fresh "Ha" in
      apply fmap_Ok in H as (a & Ha & H)
  | H : (if ?b then Err _ else _) = Ok _ |- _ =>
      let Hb := fresh "Hg" in destruct b eqn:Hb; [discriminate H|]
  | H : (if ?b then _ else Err _) = Ok _ |- _ =>
      let Hb := fresh "Hg" in destruct b eqn:Hb; [|discriminate H]
  end.
Ltac inv_ok := repeat inv_ok_step.

(** ** Machine integers

    Integers are [Z]; [usize] and [u64] are 64 bits wide (the supported
    targets are 64-bit Linux). *)

Definition U8_MAX : Z := 2 ^ 8 - 1.
Definition U16_MAX : Z := 2 ^ 16 - 1.
Definition U32_MAX : Z := 2 ^ 32 - 1.
Definition U64_MAX : Z := 2 ^ 64 - 1.
Definition USIZE_MAX : Z := U64_MAX.
Definition U128_MAX : Z := 2 ^ 128 - 1.

Definition in_u (max : Z) (z : Z) : Prop := 0 ≤ z ≤ max.

Definition checked_add (a b : Z) : option Z :=
  if a + b <=? U64_MAX then Some (a + b) else None.
Definition checked_mul (a b : Z) : option Z :=
  if a * b <=? U64_MAX then Some (a * b) else None.
Definition checked_sub (a b : Z) : option Z :=
  if b <=? a then Some (a - b) else None.
Definition saturating_add (a b : Z) : Z := Z.min (a + b) U64_MAX.
Definition saturating_sub (a b : Z) : Z := Z.max (a - b) 0.
(** [uN::try_from] of an unsigned value. *)
Definition try_from_u (max a : Z) : option Z := if a <=? max then Some a else None.

(** Inclusive range test [(lo..=hi).contains(&x)]. *)
Definition contains (lo hi x : Z) : bool := (lo <=? x) && (x <=? hi).

Lemma checked_add_Some a b c : checked_add a b = Some c ↔ c = a + b ∧ a + b ≤ U64_MAX.
Proof. unfold checked_add. destruct (Z.leb_spec (a + b) U64_MAX); naive_solver lia. Qed.
Lemma checked_mul_Some a b c : checked_mul a b = Some c ↔ c = a * b ∧ a * b ≤ U64_MAX.
Proof. unfold checked_mul. destruct (Z.leb_spec (a * b) U64_MAX); naive_solver lia. Qed.
Lemma checked_sub_Some a b c : checked_sub a b = Some c ↔ c = a - b ∧ b ≤ a.
Proof. unfold checked_sub. destruct (Z.leb_spec b a); naive_solver lia. Qed.
Lemma checked_add_eq a b : a + b ≤ U64_MAX → checked_add a b = Some (a + b).
Proof. intros. by apply checked_add_Some. Qed.
Lemma checked_mul_eq a b : a * b ≤ U64_MAX → checked_mul a b = Some (a * b).
Proof. intros. by apply checked_mul_Some. Qed.
Lemma checked_sub_eq a b : b ≤ a → checked_sub a b = Some (a - b).
Proof. intros. by apply checked_sub_Some. Qed.
Lemma try_from_u_Some m a b : try_from_u m a = Some b ↔ b = a ∧ a ≤ m.
Proof. unfold try_from_u. destruct (Z.leb_spec a m); naive_solver lia. Qed.
Lemma contains_true lo hi x : contains lo hi x = true ↔ lo ≤ x ≤ hi.
Proof. unfold contains. lia. Qed.
Lemma contains_false lo hi x : contains lo hi x = false ↔ ¬ (lo ≤ x ≤ hi).
Proof. unfold contains. lia. Qed.

(** Lengths as machine integers. *)
Definition len {A} (l : list A) : Z := Z.of_nat (length l).

#[global] Arguments len : simpl never.

Lemma len_app {A} (l k : list A) : len (l ++ k) = len l + len k.
Proof. unfold len. rewrite length_app. lia. Qed.
Lemma len_nil {A} : len ([] : list A) = 0.
Proof. done. Qed.
Lemma len_cons {A} (a : A) l : len (a :: l) = 1 + len l.
Proof. unfold len. simpl. lia. Qed.
Lemma len_nonneg {A} (l : list A) : 0 ≤ len l.
Proof. unfold len. lia. Qed.

Create HintDb howy discriminated.
#[export] Hint Resolve len_nonneg : howy.
Create Rewrite HintDb howy_len.
#[export] Hint Rewrite @len_app @len_nil @len_cons : howy_len.

Ltac unfold_max := unfold in_u, U8_MAX, U16_MAX, U32_MAX, USIZE_MAX, U64_MAX, U128_MAX in *.

(** Boolean guards to propositions. *)
Ltac breflect :=
  repeat match goal with
  | H : (_ && _) = true |- _ => apply andb_true_iff in H as [? ?]
  | H : (_ || _) = false |- _ => apply orb_false_iff in H as [? ?]
  | H : negb _ = true |- _ => apply negb_true_iff in H
  | H : negb _ = false |- _ => apply negb_false_iff in H
  | H : bool_decide _ = true |- _ => apply bool_decide_eq_true in H
  | H : bool_decide _ = false |- _ => apply bool_decide_eq_false in H
  | H : contains _ _ _ = true |- _ => apply contains_true in H
  | H : contains _ _ _ = false |- _ => apply contains_false in H
  | H : (_ =? _) = true |- _ => apply Z.eqb_eq in H
  | H : (_ =? _) = false |- _ => apply Z.eqb_neq in H
  | H : (_ <=? _) = true |- _ => apply Z.leb_le in H
  | H : (_ <=? _) = false |- _ => apply Z.leb_gt in H
  | H : (_ <? _) = true |- _ => apply Z.ltb_lt in H
  | H : (_ <? _) = false |- _ => apply Z.ltb_ge in H
  | H : checked_add _ _ = Some _ |- _ => apply checked_add_Some in H as [? ?]
  | H : checked_mul _ _ = Some _ |- _ => apply checked_mul_Some in H as [? ?]
  | H : checked_sub _ _ = Some _ |- _ => apply checked_sub_Some in H as [? ?]
  | H : try_from_u _ _ = Some _ |- _ => apply try_from_u_Some in H as [? ?]
  end.

(** ** Sums over finite maps *)

Section map_sum.
  Context {K V : Type} `{Countable K}.
  Implicit Types (m : gmap K V) (f : V → Z).

Definition map_sum f m : Z := map_fold (λ _ v acc, f v + acc) 0 m.

Lemma map_sum_empty f : map_sum f ∅ = 0.
Proof. unfold map_sum. by rewrite map_fold_empty. Qed.

Lemma map_sum_insert f m k v :
  m !! k = None → map_sum f (<[k:=v]> m) = f v + map_sum f m.
Proof.
  intros Hk. unfold map_sum. rewrite map_fold_insert_L; [done| |done].
  intros; lia.
Qed.

Lemma map_sum_delete f m k v :
  m !! k = Some v → map_sum f (delete k m) = map_sum f m - f v.
Proof.
  intros Hk. rewrite <- (insert_delete_id m k v Hk) at 2.
  rewrite map_sum_insert by apply lookup_delete_eq. lia.
Qed.

Lemma map_sum_update f m k v v' :
  m !! k = Some v → map_sum f (<[k:=v']> m) = map_sum f m - f v + f v'.
Proof.
  intros Hk. rewrite <- insert_delete_eq.
  rewrite map_sum_insert by apply lookup_delete_eq.
  rewrite (map_sum_delete _ _ _ v Hk). lia.
Qed.

Lemma map_sum_nonneg f m : (∀ k v, m !! k = Some v → 0 ≤ f v) → 0 ≤ map_sum f m.
Proof.
  induction m as [|k v m Hk IH] using map_ind; intros Hf.
  - by rewrite map_sum_empty.
  - rewrite map_sum_insert by done.
    assert (0 ≤ f v) by (eapply (Hf k); apply lookup_insert_eq).
    assert (0 ≤ map_sum f m); [|lia].
    apply IH. intros k' v' Hk'. eapply (Hf k').
    rewrite lookup_insert_ne by congruence. done.
Qed.

Lemma map_sum_zero f m : (∀ k v, m !! k = Some v → f v = 0) → map_sum f m = 0.
Proof.
  induction m as [|k v m Hk IH] using map_ind; intros Hf; [apply map_sum_empty|].
  rewrite map_sum_insert by done. rewrite (Hf k v) by apply lookup_insert_eq.
  rewrite IH; [done|]. intros k' v' Hk'. apply (Hf k').
  rewrite lookup_insert_ne by congruence. done.
Qed.

Lemma map_sum_lookup_le f m k v :
  (∀ k v, m !! k = Some v → 0 ≤ f v) → m !! k = Some v → f v ≤ map_sum f m.
Proof.
  intros Hf Hk. pose proof (map_sum_delete f m k v Hk).
  assert (0 ≤ map_sum f (delete k m)); [|lia].
  apply map_sum_nonneg. intros k' v' [_ Hk']%lookup_delete_Some. eauto.
Qed.
End map_sum.

Lemma map_sum_fmap_same {K V} `{Countable K} (m : gmap K V) (f : V → V) (g : V → Z) :
  (∀ v, g (f v) = g v) → map_sum g (f <$> m) = map_sum g m.
Proof.
  intros Hg. induction m as [|k v m Hk IH] using map_ind; [by rewrite fmap_empty|].
  rewrite fmap_insert, !map_sum_insert by (rewrite ?lookup_fmap, Hk; done).
  by rewrite Hg, IH.
Qed.
