(* ===== verification/Bytes.v ===== *)
(** * Bytes, strings and machine words as byte sequences

    What the codecs use of the Rust language and standard library: [u8] slices
    as [list byte], [to_le_bytes]/[from_le_bytes]/[to_be_bytes], the UTF-8
    check of [std::str::from_utf8], the ASCII classes of [u8], [f32] values by
    their bit pattern, and constant-time comparison. A Rust [str] is the list
    of its bytes. *)

From S2P Require Import Prelude.
From coqutil Require Export Byte Word.LittleEndianList.
From Stdlib Require Strings.Byte.
(* coqutil re-exports the Standard Library's lists: stdpp's names come last. *)
From stdpp Require Export base list.
#[global] Open Scope Z_scope.

Abbreviation bytes := (list byte).
Abbreviation bs s := (String.list_byte_of_string s).

#[export] Instance byte_eq_dec : EqDecision byte.
Proof. intros x y. apply Byte.byte_eq_dec. Defined.

#[export] Program Instance byte_countable : Countable byte :=
  inj_countable Byte.to_N Byte.of_N _.
Next Obligation. intros x. apply Byte.of_to_N. Qed.

Definition zero_bytes (n : nat) : bytes := replicate n Byte.x00.

(** ** Little-endian and big-endian words *)

Abbreviation le16 := (le_split 2).
Abbreviation le32 := (le_split 4).
Abbreviation le64 := (le_split 8).
#[global] Arguments byte.unsigned : simpl never.
#[global] Arguments byte.of_Z : simpl never.
Definition be32 (z : Z) : bytes := reverse (le_split 4 z).
Definition from_be (l : bytes) : Z := le_combine (reverse l).

Lemma le_combine_le_split_small n z :
  0 ≤ z < 2 ^ (Z.of_nat n * 8) → le_combine (le_split n z) = z.
Proof. intros. rewrite le_combine_split. by apply Z.mod_small. Qed.

Lemma le_combine_range n (l : bytes) :
  length l = n → 0 ≤ le_combine l < 2 ^ (Z.of_nat n * 8).
Proof. intros <-. pose proof (le_combine_bound l). by rewrite Z.mul_comm. Qed.

Lemma from_be_be32 z : 0 ≤ z ≤ U32_MAX → from_be (be32 z) = z.
Proof.
  intros. unfold from_be, be32. rewrite reverse_involutive.
  apply le_combine_le_split_small. unfold_max. simpl. lia.
Qed.

Lemma be32_from_be (l : bytes) : length l = 4%nat → be32 (from_be l) = l.
Proof.
  intros Hl. unfold from_be, be32.
  rewrite split_le_combine' by (by rewrite length_reverse).
  apply reverse_involutive.
Qed.

Lemma length_be32 z : length (be32 z) = 4%nat.
Proof. unfold be32. by rewrite length_reverse, length_le_split. Qed.

Lemma len_le_split n z : len (le_split n z) = Z.of_nat n.
Proof. unfold len. by rewrite length_le_split. Qed.
#[export] Hint Rewrite len_le_split : howy_len.

(** A fixed-width word at the head of a byte string is determined. *)
Lemma split_word n (z1 z2 : Z) (r1 r2 : bytes) :
  0 ≤ z1 < 2 ^ (Z.of_nat n * 8) → 0 ≤ z2 < 2 ^ (Z.of_nat n * 8) →
  le_split n z1 ++ r1 = le_split n z2 ++ r2 → z1 = z2 ∧ r1 = r2.
Proof.
  intros H1 H2 Heq. apply app_inj_1 in Heq as [Hw ->]; [|by rewrite !length_le_split].
  split; [|done]. apply (f_equal le_combine) in Hw.
  by rewrite !le_combine_le_split_small in Hw.
Qed.

(** ** ASCII classes *)

Definition byte_in (lo hi : Z) (b : byte) : bool := contains lo hi (byte.unsigned b).

Definition is_ascii (b : byte) : bool := byte_in 0 127 b.
Definition is_ascii_digit (b : byte) : bool := byte_in 48 57 b.
Definition is_ascii_alphanumeric (b : byte) : bool :=
  byte_in 48 57 b || byte_in 65 90 b || byte_in 97 122 b.
Definition is_ascii_hexdigit (b : byte) : bool :=
  byte_in 48 57 b || byte_in 65 70 b || byte_in 97 102 b.
Definition is_ascii_graphic (b : byte) : bool := byte_in 33 126 b.
(** [matches!(byte, b'.' | b'_' | b'-')] *)
Definition is_dot_underscore_dash (b : byte) : bool :=
  bool_decide (b = Byte.x2e) || bool_decide (b = Byte.x5f) || bool_decide (b = Byte.x2d).

(** The byte class shared by usernames, PAM services and credential names. *)
Definition is_name_byte (b : byte) : bool :=
  is_ascii_alphanumeric b || is_dot_underscore_dash b.

(** ** UTF-8: [core::str::validations::run_utf8_validation] *)

Definition is_continuation (b : byte) : bool := byte_in 128 191 b.

(** The second byte a three-byte lead admits. *)
Definition utf8_second3 (b0 b1 : byte) : bool :=
  let z := byte.unsigned b0 in
  if z =? 224 then byte_in 160 191 b1
  else if z =? 237 then byte_in 128 159 b1
  else is_continuation b1.

(** The second byte a four-byte lead admits. *)
Definition utf8_second4 (b0 b1 : byte) : bool :=
  let z := byte.unsigned b0 in
  if z =? 240 then byte_in 144 191 b1
  else if z =? 244 then byte_in 128 143 b1
  else is_continuation b1.

Fixpoint utf8_valid (l : bytes) : bool :=
  match l with
  | [] => true
  | b0 :: l0 =>
      if byte_in 0 127 b0 then utf8_valid l0
      else if byte_in 194 223 b0 then
        match l0 with
        | b1 :: l1 => is_continuation b1 && utf8_valid l1
        | _ => false
        end
      else if byte_in 224 239 b0 then
        match l0 with
        | b1 :: b2 :: l2 =>
            utf8_second3 b0 b1 && is_continuation b2 && utf8_valid l2
        | _ => false
        end
      else if byte_in 240 244 b0 then
        match l0 with
        | b1 :: b2 :: b3 :: l3 =>
            utf8_second4 b0 b1 && is_continuation b2 && is_continuation b3
            && utf8_valid l3
        | _ => false
        end
      else false
  end.

Lemma utf8_valid_ascii (l : bytes) : forallb is_ascii l = true → utf8_valid l = true.
Proof.
  induction l as [|b l IH]; simpl; [done|].
  intros [Hb Hl]%andb_true_iff. unfold is_ascii in Hb. rewrite Hb. auto.
Qed.

Lemma is_name_byte_ascii b : is_name_byte b = true → is_ascii b = true.
Proof.
  unfold is_name_byte, is_ascii_alphanumeric, is_dot_underscore_dash, is_ascii, byte_in,
    contains.
  destruct (decide (b = Byte.x2e)) as [->|]; [done|].
  destruct (decide (b = Byte.x5f)) as [->|]; [done|].
  destruct (decide (b = Byte.x2d)) as [->|]; [done|].
  rewrite !bool_decide_eq_false_2 by done. lia.
Qed.

Lemma forallb_impl {A} (p q : A → bool) l :
  (∀ a, p a = true → q a = true) → forallb p l = true → forallb q l = true.
Proof. intros Hpq. rewrite !forallb_forall. eauto. Qed.

(** ** [f32] by bit pattern

    An [f32] is its 32-bit pattern; [to_bits] and [from_le_bytes] do not change
    it. *)

Definition f32_exponent (bits : Z) : Z := Z.land (Z.shiftr bits 23) 255.
(** [f32::is_finite] *)
Definition f32_is_finite (bits : Z) : bool := negb (f32_exponent bits =? 255).
#[global] Opaque f32_exponent.
#[global] Arguments f32_is_finite : simpl never.
(** [(0.0..=1.0).contains(&x)]: positive patterns up to that of 1.0, and -0.0. *)
Definition f32_in_unit (bits : Z) : bool :=
  contains 0 1065353216 bits || (bits =? 2147483648).

(** ** Constant-time comparison

    [difference |= left ^ right] over the common length. *)

Definition ct_difference (l r : bytes) : Z :=
  foldl (λ d '(x, y), Z.lor d (Z.lxor (byte.unsigned x) (byte.unsigned y))) 0 (zip l r).

Lemma foldl_lor_zero (l r : bytes) d :
  length l = length r →
  foldl (λ d '(x, y), Z.lor d (Z.lxor (byte.unsigned x) (byte.unsigned y))) d (zip l r) = 0
    ↔ d = 0 ∧ l = r.
Proof.
  revert r d. induction l as [|x l IH]; intros [|y r] d Hlen; simplify_eq/=.
  - naive_solver.
  - rewrite IH by done. rewrite Z.lor_eq_0_iff, Z.lxor_eq_0_iff.
    split; [intros [[-> ?%byte.unsigned_inj] ->]; by subst|naive_solver].
Qed.

Lemma ct_difference_zero (l r : bytes) :
  length l = length r → ct_difference l r = 0 ↔ l = r.
Proof. intros. unfold ct_difference. rewrite foldl_lor_zero by done. naive_solver. Qed.
