(* ===== verification/Storage.v ===== *)
(** * Enrollment records

    [crates/howy-common/src/storage/mod.rs] (records, identifiers, limits,
    errors, storage modes) and the username grammar of
    [crates/howy-common/src/paths.rs]. Each constructor of the source that
    validates is a function to [result StorageError]; [entry_wf] and
    [record_wf] are what a constructed value satisfies, the invariants of the
    Rust types (widths, array lengths, UTF-8 of [str]) included. *)

From S2P Require Import Prelude Bytes.

(** ** Limits *)

Definition EMBEDDING_DIMENSION : Z := 512.
Definition MAX_ENTRIES : Z := 1000.
Definition MAX_LABEL_BYTES : Z := 256.
Definition MAX_PLAINTEXT_BYTES : Z := 2621440.
Definition AES_256_KEY_BYTES : Z := 32.
Definition GCM_NONCE_BYTES : Z := 12.
Definition GCM_TAG_BYTES : Z := 16.
Definition CANONICAL_PAYLOAD_FIXED_BYTES : Z := 8.
Definition CANONICAL_ENTRY_FIXED_BYTES : Z := 16 + 8 + 2 + 2 + EMBEDDING_DIMENSION * 4.

(** [size_of::<EnrollmentEntry>()] on a 64-bit target: a 16-byte identifier, a
    [u64], a fat pointer for the boxed label, 512 inline [f32]. *)
Definition SIZE_OF_ENROLLMENT_ENTRY : Z := 16 + 8 + 16 + 4 * EMBEDDING_DIMENSION.

(** ** Errors *)

Inductive StorageError :=
| InvalidUsername
| InvalidMagic (format : string)
| UnsupportedVersion (format : string) (version : Z)
| UnsupportedAlgorithm (algorithm : Z)
| UnsupportedMode (mode : Z)
| UnsupportedNamespaceMode (mode : Z)
| UnknownFlags (format : string) (flags : Z)
| InvalidReserved (format : string)
| InvalidLength (format : string)
| LimitExceeded (field : string)
| IntegerOverflow (what : string)
| AllocationFailed (what : string)
| InvalidGeneration
| InvalidEpoch
| InvalidEmbeddingDimension (dimension : Z)
| EntryCountMismatch
| ZeroEnrollmentId
| DuplicateEnrollmentId
| InvalidLabelUtf8
| NonFiniteEmbedding
| BindingMismatch (what : string)
| AuthenticationFailed
| RandomSourceFailed (message : string)
| DuplicateNonce
| InvalidNonceCeiling
| NonceWriteLimitExceeded
| GenerationOverflow
| InvalidLegacyRecord.

#[export] Instance StorageError_eq_dec : EqDecision StorageError.
Proof. solve_decision. Defined.

Abbreviation sresult := (result StorageError).

(** ** Canonical usernames *)

(** [paths::is_canonical_username] *)
Definition is_canonical_username (username : bytes) : bool :=
  contains 1 64 (len username) && forallb is_name_byte username.

Definition validate_username (username : bytes) : bool := is_canonical_username username.

Record CanonicalUsername := mkUsername { user_bytes : bytes }.
#[export] Instance CanonicalUsername_eq_dec : EqDecision CanonicalUsername.
Proof. solve_decision. Defined.
#[export] Program Instance CanonicalUsername_countable : Countable CanonicalUsername :=
  inj_countable' user_bytes mkUsername _.
Next Obligation. by intros []. Qed.

(** [CanonicalUsername::new] *)
Definition CanonicalUsername_new (username : bytes) : sresult CanonicalUsername :=
  if negb (is_canonical_username username) then Err InvalidUsername
  else Ok (mkUsername username).

Definition username_wf (u : CanonicalUsername) : Prop :=
  is_canonical_username (user_bytes u) = true.

(** ** Digests and identifiers *)

Record ModelDigest := mkDigest { digest_bytes : bytes }.
#[export] Instance ModelDigest_eq_dec : EqDecision ModelDigest.
Proof. solve_decision. Defined.

Record EnrollmentId := mkEnrollmentId { id_bytes : bytes }.
#[export] Instance EnrollmentId_eq_dec : EqDecision EnrollmentId.
Proof. solve_decision. Defined.
#[export] Program Instance EnrollmentId_countable : Countable EnrollmentId :=
  inj_countable' id_bytes mkEnrollmentId _.
Next Obligation. by intros []. Qed.

(** [EnrollmentId::new] *)
Definition EnrollmentId_new (b : bytes) : sresult EnrollmentId :=
  if bool_decide (b = zero_bytes 16) then Err ZeroEnrollmentId else Ok (mkEnrollmentId b).

(** ** Entries *)

Record EnrollmentEntry := mkEntry {
  enrollment_id : EnrollmentId;
  created_unix_seconds : Z;
  label : bytes;
  embedding : list Z;
}.
#[export] Instance EnrollmentEntry_eq_dec : EqDecision EnrollmentEntry.
Proof. solve_decision. Defined.

(** [EnrollmentEntry::new_zeroizing_fields], which [new] also calls once the
    fields are owned. *)
Definition EnrollmentEntry_new (id : EnrollmentId) (created : Z) (lbl : bytes)
    (emb : list Z) : sresult EnrollmentEntry :=
  let entry := mkEntry id created lbl emb in
  if MAX_LABEL_BYTES <? len (label entry) then Err (LimitExceeded "label")
  else if existsb (λ v, negb (f32_is_finite v)) (embedding entry) then Err NonFiniteEmbedding
  else Ok entry.

(** [EnrollmentEntry::try_from_embedding_vec] *)
Definition try_from_embedding_vec (id : EnrollmentId) (created : Z) (lbl : bytes)
    (emb : list Z) : sresult EnrollmentEntry :=
  let actual := len emb in
  if negb (actual =? EMBEDDING_DIMENSION)
  then Err (InvalidEmbeddingDimension (default U16_MAX (try_from_u U16_MAX actual)))
  else EnrollmentEntry_new id created lbl emb.

(** [EnrollmentEntry::plaintext_allocation_bytes] *)
Definition entry_plaintext_allocation_bytes (e : EnrollmentEntry) : Z :=
  SIZE_OF_ENROLLMENT_ENTRY + len (label e).

(** ** Records *)

Record EnrollmentRecord := mkRecord {
  generation : Z;
  recognizer_model_sha256 : ModelDigest;
  username : CanonicalUsername;
  entries : list EnrollmentEntry;
}.
#[export] Instance EnrollmentRecord_eq_dec : EqDecision EnrollmentRecord.
Proof. solve_decision. Defined.

(** The [any] over [entries[..index]] of the duplicate check. *)
Definition has_duplicate_ids (es : list EnrollmentEntry) : bool :=
  existsb
    (λ '(index, entry),
       existsb (λ prior, bool_decide (enrollment_id prior = enrollment_id entry))
         (take index es))
    (imap pair es).

(** [EnrollmentRecord::from_boxed_entries] *)
Definition from_boxed_entries (gen : Z) (model : ModelDigest) (user : CanonicalUsername)
    (es : list EnrollmentEntry) : sresult EnrollmentRecord :=
  if gen =? 0 then Err InvalidGeneration
  else if MAX_ENTRIES <? len es then Err (LimitExceeded "entry count")
  else if has_duplicate_ids es then Err DuplicateEnrollmentId
  else Ok (mkRecord gen model user es).

(** [EnrollmentRecord::new] *)
Definition EnrollmentRecord_new (gen : Z) (model : ModelDigest) (user : CanonicalUsername)
    (es : list EnrollmentEntry) : sresult EnrollmentRecord :=
  from_boxed_entries gen model user es.

(** [EnrollmentRecord::plaintext_allocation_bytes] *)
Definition record_plaintext_allocation_bytes (r : EnrollmentRecord) : Z :=
  foldl (λ total e, saturating_add total (entry_plaintext_allocation_bytes e)) 0 (entries r).

(** ** Modes *)

(** [config::EmbeddingSecurityMode] *)
Inductive EmbeddingSecurityMode := Plaintext | AeadCached | AeadEphemeral | ReservedFuture.
#[export] Instance EmbeddingSecurityMode_eq_dec : EqDecision EmbeddingSecurityMode.
Proof. solve_decision. Defined.

Definition security_mode_u8 (m : EmbeddingSecurityMode) : Z :=
  match m with Plaintext => 0 | AeadCached => 1 | AeadEphemeral => 2 | ReservedFuture => 3 end.

(** [StorageMode] *)
Inductive StorageMode := ModeAeadCached | ModeAeadEphemeral.
#[export] Instance StorageMode_eq_dec : EqDecision StorageMode.
Proof. solve_decision. Defined.

Definition storage_mode_identifier (m : StorageMode) : Z :=
  match m with ModeAeadCached => 1 | ModeAeadEphemeral => 2 end.

(** [TryFrom<u8> for StorageMode] *)
Definition storage_mode_try_from_u8 (value : Z) : sresult StorageMode :=
  if value =? 1 then Ok ModeAeadCached
  else if value =? 2 then Ok ModeAeadEphemeral
  else Err (UnsupportedMode value).

(** [TryFrom<EmbeddingSecurityMode> for StorageMode] *)
Definition storage_mode_try_from_security_mode (m : EmbeddingSecurityMode) : sresult StorageMode :=
  match m with
  | AeadCached => Ok ModeAeadCached
  | AeadEphemeral => Ok ModeAeadEphemeral
  | other => Err (UnsupportedMode (security_mode_u8 other))
  end.

(** ** Well-formedness *)

(** What the Rust types already guarantee of an entry's fields. *)
Definition entry_typed (e : EnrollmentEntry) : Prop :=
  length (id_bytes (enrollment_id e)) = 16%nat ∧
  id_bytes (enrollment_id e) ≠ zero_bytes 16 ∧
  in_u U64_MAX (created_unix_seconds e) ∧
  utf8_valid (label e) = true ∧
  len (embedding e) = EMBEDDING_DIMENSION ∧
  Forall (in_u U32_MAX) (embedding e).

Definition entry_wf (e : EnrollmentEntry) : Prop :=
  entry_typed e ∧ len (label e) ≤ MAX_LABEL_BYTES ∧
  Forall (λ v, f32_is_finite v = true) (embedding e).

Definition entry_ids (es : list EnrollmentEntry) : list EnrollmentId := enrollment_id <$> es.

Definition record_wf (r : EnrollmentRecord) : Prop :=
  1 ≤ generation r ≤ U64_MAX ∧
  length (digest_bytes (recognizer_model_sha256 r)) = 32%nat ∧
  username_wf (username r) ∧
  len (entries r) ≤ MAX_ENTRIES ∧
  NoDup (entry_ids (entries r)) ∧
  Forall entry_wf (entries r).

(** ** Lemmas *)

Lemma username_wf_ascii u : username_wf u → utf8_valid (user_bytes u) = true.
Proof.
  unfold username_wf, is_canonical_username. intros [_ Hall]%andb_true_iff.
  apply utf8_valid_ascii. eapply forallb_impl; [|done]. apply is_name_byte_ascii.
Qed.

Lemma username_wf_len u : username_wf u → 1 ≤ len (user_bytes u) ≤ 64.
Proof. unfold username_wf, is_canonical_username. intros ?. by breflect. Qed.

Lemma CanonicalUsername_new_Ok b u :
  CanonicalUsername_new b = Ok u ↔ u = mkUsername b ∧ username_wf u.
Proof.
  unfold CanonicalUsername_new, username_wf.
  destruct (is_canonical_username b) eqn:Hb; simpl; split; intros H; simplify_eq; try done.
  - by destruct H as [-> _].
  - destruct H as [-> H]. simpl in H. congruence.
Qed.

Lemma existsb_finite_false l :
  existsb (λ v, negb (f32_is_finite v)) l = false ↔ Forall (λ v, f32_is_finite v = true) l.
Proof.
  induction l as [|v l IH]; simpl; [split; [intros; apply Forall_nil_2|reflexivity]|].
  by rewrite orb_false_iff, negb_false_iff, IH, Forall_cons.
Qed.

Lemma EnrollmentEntry_new_Ok id t lbl emb e :
  EnrollmentEntry_new id t lbl emb = Ok e ↔
    e = mkEntry id t lbl emb ∧ len lbl ≤ MAX_LABEL_BYTES ∧
    Forall (λ v, f32_is_finite v = true) emb.
Proof.
  unfold EnrollmentEntry_new. simpl. rewrite <- existsb_finite_false.
  destruct (Z.ltb_spec MAX_LABEL_BYTES (len lbl));
    destruct (existsb _ emb); naive_solver lia.
Qed.

Lemma has_duplicate_ids_snoc es e :
  has_duplicate_ids (es ++ [e]) =
    has_duplicate_ids es ||
    existsb (λ prior, bool_decide (enrollment_id prior = enrollment_id e)) es.
Proof.
  unfold has_duplicate_ids. rewrite imap_app. simpl. rewrite existsb_app. simpl.
  rewrite Nat.add_0_r, take_app_length, orb_false_r. f_equal.
  apply eq_true_iff_eq. rewrite !existsb_exists.
  setoid_rewrite <- list_elem_of_In.
  split; intros ([i x] & (j & y & [=-> ->] & Hj)%elem_of_lookup_imap_1 & H);
    exists (j, y); (split; [by eapply elem_of_lookup_imap_2|]);
    pose proof (lookup_lt_Some _ _ _ Hj);
    by rewrite take_app_le in * by lia.
Qed.

Lemma existsb_same_id es e :
  existsb (λ prior, bool_decide (enrollment_id prior = enrollment_id e)) es = true ↔
    enrollment_id e ∈ entry_ids es.
Proof.
  rewrite existsb_exists. unfold entry_ids. rewrite list_elem_of_fmap.
  setoid_rewrite bool_decide_eq_true. setoid_rewrite list_elem_of_In. naive_solver.
Qed.

(** The quadratic duplicate scan decides distinctness of the identifiers. *)
Lemma has_duplicate_ids_NoDup es :
  has_duplicate_ids es = false ↔ NoDup (entry_ids es).
Proof.
  induction es as [|e es IH] using rev_ind; [split; [intros; apply NoDup_nil_2|reflexivity]|].
  rewrite has_duplicate_ids_snoc, orb_false_iff, IH.
  unfold entry_ids. rewrite fmap_app, NoDup_app. simpl.
  rewrite <- not_true_iff_false, existsb_same_id.
  split.
  - intros [Hnd Hni]. split_and!; [done| |apply NoDup_singleton].
    intros x Hx ->%list_elem_of_singleton. done.
  - intros (Hnd & Hdis & _). split; [done|].
    intros Hin. eapply Hdis; [exact Hin|]. by apply list_elem_of_singleton.
Qed.

Lemma EnrollmentRecord_new_Ok g m u es r :
  EnrollmentRecord_new g m u es = Ok r ↔
    r = mkRecord g m u es ∧ g ≠ 0 ∧ len es ≤ MAX_ENTRIES ∧ NoDup (entry_ids es).
Proof.
  unfold EnrollmentRecord_new, from_boxed_entries. rewrite <- has_duplicate_ids_NoDup.
  destruct (Z.eqb_spec g 0), (Z.ltb_spec MAX_ENTRIES (len es)), (has_duplicate_ids es);
    naive_solver lia.
Qed.

Lemma storage_mode_try_from_identifier m :
  storage_mode_try_from_u8 (storage_mode_identifier m) = Ok m.
Proof. by destruct m. Qed.

Lemma storage_mode_try_from_u8_Ok v m :
  storage_mode_try_from_u8 v = Ok m → v = storage_mode_identifier m.
Proof.
  unfold storage_mode_try_from_u8.
  destruct (Z.eqb_spec v 1), (Z.eqb_spec v 2); naive_solver.
Qed.
