(* ===== verification/Crypto.v ===== *)
(** * AES-256-GCM helpers and the nonce generator

    [crates/howy-common/src/storage/crypto.rs]. The AES-GCM crate and the random
    source are parameters: [AesGcm] holds the two in-place operations the
    source calls, [AesGcmLaws] the documented behaviour the codec relies on.
    Allocation is an oracle: [alloc what n] says whether the reservation of [n]
    elements made for [what] succeeds. *)

From S2P Require Import Prelude Bytes Storage.

Abbreviation allocator := (string → Z → bool).

(** An allocator that grants every request of at most [bound] elements. *)
Definition grants (bound : Z) (alloc : allocator) : Prop :=
  ∀ what n, n ≤ bound → alloc what n = true.

(** ** The AEAD *)

(** Key, nonce, associated data and buffer; [None] is the crate's opaque error.
    The encrypted buffer is the ciphertext followed by the tag. *)
Class AesGcm := {
  encrypt_in_place : bytes → bytes → bytes → bytes → option bytes;
  decrypt_in_place : bytes → bytes → bytes → bytes → option bytes;
}.

(** Maximum message and associated-data lengths of the crate. *)
Definition P_MAX : Z := 2 ^ 36 - 32.
Definition A_MAX : Z := 2 ^ 61 - 1.

Class AesGcmLaws `{AesGcm} : Prop := {
  encrypt_total k n aad m :
    len aad ≤ A_MAX → len m ≤ P_MAX →
    is_Some (encrypt_in_place k n aad m);
  encrypt_length k n aad m c :
    encrypt_in_place k n aad m = Some c → len c = len m + GCM_TAG_BYTES;
  decrypt_encrypt k n aad m c :
    encrypt_in_place k n aad m = Some c → decrypt_in_place k n aad c = Some m;
  encrypt_decrypt k n aad m c :
    decrypt_in_place k n aad c = Some m → encrypt_in_place k n aad m = Some c;
}.

Section aead.
  Context `{AesGcm} (alloc : allocator).

(** [Aes256Gcm::new_from_slice] *)
Definition key_is_valid (key : bytes) : bool := len key =? AES_256_KEY_BYTES.

(** [encrypt_aes_256_gcm] *)
Definition encrypt_aes_256_gcm (key nonce aad plaintext : bytes) : sresult (bytes * bytes) :=
  if negb (key_is_valid key) then Err AuthenticationFailed
  else
    combined_len ← ok_or (checked_add (len plaintext) GCM_TAG_BYTES)
                         (IntegerOverflow "AES-GCM output length");
    if negb (alloc "AES-GCM output" combined_len) then Err (AllocationFailed "AES-GCM output")
    else
      combined ← ok_or (encrypt_in_place key nonce aad plaintext) AuthenticationFailed;
      tag_offset ← ok_or (checked_sub (len combined) GCM_TAG_BYTES) (InvalidLength "AES-GCM");
      let tag_bytes := drop (Z.to_nat tag_offset) combined in
      if negb (len tag_bytes =? GCM_TAG_BYTES) then Err (InvalidLength "AES-GCM")
      else Ok (take (Z.to_nat tag_offset) combined, tag_bytes).

(** [decrypt_aes_256_gcm] *)
Definition decrypt_aes_256_gcm (key nonce aad ciphertext tag : bytes) : sresult bytes :=
  if negb (key_is_valid key) then Err AuthenticationFailed
  else
    combined_len ← ok_or (checked_add (len ciphertext) GCM_TAG_BYTES)
                         (IntegerOverflow "AES-GCM input length");
    if negb (alloc "AES-GCM input" combined_len) then Err (AllocationFailed "AES-GCM input")
    else ok_or (decrypt_in_place key nonce aad (ciphertext ++ tag)) AuthenticationFailed.

End aead.

(** ** Random sources and the nonce generator *)

(** [RandomSource::fill_bytes]: the new source state and the filled bytes, or
    the error message. *)
Class RandomSource (R : Type) := fill_bytes : R → nat → R * result string bytes.

Class RandomSourceLaws (R : Type) `{RandomSource R} : Prop :=
  fill_bytes_length r n r' b : fill_bytes r n = (r', Ok b) → length b = n.

Definition MAX_ENCRYPTIONS_PER_KEY_V1 : Z := 65536.
Definition MAX_NONCE_TRACKER_CAPACITY : Z := 2 * MAX_ENCRYPTIONS_PER_KEY_V1.

Record NonceGenerator (R : Type) := mkNonceGenerator {
  source : R;
  seen : gset bytes;
  accepted : Z;
  ceiling : Z;
  allocated_capacity : option Z;
}.
Arguments mkNonceGenerator {R} _ _ _ _ _.
Arguments source {R} _.
Arguments seen {R} _.
Arguments accepted {R} _.
Arguments ceiling {R} _.
Arguments allocated_capacity {R} _.

Section nonce.
  Context {R : Type} `{RandomSource R}.
  (** [HashSet::try_reserve] on the empty table: the resulting capacity. *)
  Context (try_reserve : Z → option Z).

(** [NonceGenerator::from_source] *)
Definition nonce_from_source (r : R) : NonceGenerator R :=
  mkNonceGenerator r ∅ 0 MAX_ENCRYPTIONS_PER_KEY_V1 None.

(** [NonceGenerator::from_source_with_ceiling] *)
Definition nonce_from_source_with_ceiling (r : R) (c : Z) : sresult (NonceGenerator R) :=
  if (c =? 0) || (MAX_ENCRYPTIONS_PER_KEY_V1 <? c) then Err InvalidNonceCeiling
  else Ok (mkNonceGenerator r ∅ 0 c None).

(** The one-time reservation of [generate]: the generator with its capacity, or
    the failure, after which an oversized table has been released. *)
Definition nonce_reserve (g : NonceGenerator R) : NonceGenerator R * sresult () :=
  match allocated_capacity g with
  | Some _ => (g, Ok ())
  | None =>
      let requested := ceiling g in
      match try_reserve requested with
      | None => (g, Err (AllocationFailed "nonce tracker"))
      | Some capacity =>
          if (capacity <? requested) || (MAX_NONCE_TRACKER_CAPACITY <? capacity)
          then (mkNonceGenerator (source g) ∅ (accepted g) (ceiling g) None,
                Err (AllocationFailed "nonce tracker"))
          else (mkNonceGenerator (source g) (seen g) (accepted g) (ceiling g) (Some capacity),
                Ok ())
      end
  end.

(** [NonceGenerator::generate] *)
Definition generate (g : NonceGenerator R) : NonceGenerator R * sresult bytes :=
  if ceiling g <=? accepted g then (g, Err NonceWriteLimitExceeded)
  else
    match nonce_reserve g with
    | (g1, Err e) => (g1, Err e)
    | (g1, Ok _) =>
        match fill_bytes (source g1) 12 with
        | (r, Err message) =>
            (mkNonceGenerator r (seen g1) (accepted g1) (ceiling g1) (allocated_capacity g1),
             Err (RandomSourceFailed message))
        | (r, Ok nonce) =>
            if bool_decide (nonce ∈ seen g1)
            then (mkNonceGenerator r (seen g1) (accepted g1) (ceiling g1) (allocated_capacity g1),
                  Err DuplicateNonce)
            else
              let seen' := {[nonce]} ∪ seen g1 in
              match checked_add (accepted g1) 1 with
              | None =>
                  (mkNonceGenerator r seen' (accepted g1) (ceiling g1) (allocated_capacity g1),
                   Err NonceWriteLimitExceeded)
              | Some n =>
                  (mkNonceGenerator r seen' n (ceiling g1) (allocated_capacity g1), Ok nonce)
              end
        end
    end.

(** A run of [n] calls and the nonces it handed out, oldest first. *)
Fixpoint generate_run (n : nat) (g : NonceGenerator R) : NonceGenerator R * list bytes :=
  match n with
  | O => (g, [])
  | S n' =>
      let '(g1, r) := generate g in
      let '(g2, ns) := generate_run n' g1 in
      (g2, match r with Ok nonce => nonce :: ns | Err _ => ns end)
  end.

(** ** Invariant *)

Definition nonce_inv (g : NonceGenerator R) : Prop :=
  0 ≤ accepted g ≤ ceiling g ∧ 1 ≤ ceiling g ≤ MAX_ENCRYPTIONS_PER_KEY_V1 ∧
  Z.of_nat (size (seen g)) = accepted g ∧
  (allocated_capacity g = None → seen g = ∅).

Lemma nonce_from_source_inv r : nonce_inv (nonce_from_source r).
Proof. unfold nonce_inv, nonce_from_source, MAX_ENCRYPTIONS_PER_KEY_V1; simpl. split_and!; done || lia. Qed.

Lemma nonce_from_source_with_ceiling_inv r c g :
  0 ≤ c → nonce_from_source_with_ceiling r c = Ok g → nonce_inv g.
Proof.
  unfold nonce_from_source_with_ceiling. intros Hc Hg. inv_ok. breflect. subst g.
  unfold nonce_inv; simpl. split_and!; done || lia.
Qed.

Lemma nonce_reserve_spec g g1 res :
  nonce_inv g → nonce_reserve g = (g1, res) →
  nonce_inv g1 ∧ seen g1 = seen g ∧ accepted g1 = accepted g ∧ ceiling g1 = ceiling g ∧
  (res = Ok () → is_Some (allocated_capacity g1)).
Proof.
  unfold nonce_reserve. intros Hinv Hr. pose proof Hinv as (Ha & Hc & Hs & He).
  destruct (allocated_capacity g) eqn:Hcap; simplify_eq/=.
  { split_and!; eauto. }
  destruct (try_reserve (ceiling g)) as [cap|]; simplify_eq/=; [|by split_and!].
  specialize (He eq_refl).
  destruct (_ || _); simplify_eq/=; rewrite ?He in *; unfold nonce_inv; simpl;
    split_and!; try done; try lia; eauto.
Qed.

(** One call: the invariant is kept; on success the nonce is new and recorded,
    on failure the recorded set is unchanged. *)
Lemma generate_spec g g' res :
  nonce_inv g → generate g = (g', res) →
  nonce_inv g' ∧ ceiling g' = ceiling g ∧
  match res with
  | Ok nonce => nonce ∉ seen g ∧ seen g' = {[nonce]} ∪ seen g ∧ accepted g' = accepted g + 1
  | Err _ => seen g' = seen g ∧ accepted g' = accepted g
  end.
Proof.
  unfold generate. intros Hinv Hg.
  destruct (Z.leb_spec (ceiling g) (accepted g)); simplify_eq/=; [by split_and!|].
  destruct (nonce_reserve g) as [g1 res1] eqn:Hr.
  destruct (nonce_reserve_spec _ _ _ Hinv Hr) as (Hinv1 & Hs & Ha & Hc & Hcap).
  destruct res1 as [[]|e]; simplify_eq/=; [|by split_and!].
  specialize (Hcap eq_refl) as [cap Hcap].
  destruct Hinv1 as (Ha1 & Hc1 & Hsz & He).
  destruct (fill_bytes (source g1) 12) as [r [nonce|e]] eqn:Hf; simplify_eq/=.
  2:{ unfold nonce_inv; simpl. split_and!; done || lia. }
  case_bool_decide as Hin; simplify_eq/=.
  { unfold nonce_inv; simpl. split_and!; done || lia. }
  destruct (checked_add (accepted g1) 1) as [n|] eqn:Hn; simplify_eq/=; breflect.
  - unfold nonce_inv; simpl. rewrite size_union, size_singleton by set_solver.
    rewrite Hcap, Hs in *. split_and!; try done; lia.
  - unfold checked_add, MAX_ENCRYPTIONS_PER_KEY_V1, U64_MAX in *.
    destruct (Z.leb_spec (accepted g1 + 1) (2 ^ 64 - 1)); simplify_eq; lia.
Qed.

Lemma generate_run_spec n g g' ns :
  nonce_inv g → generate_run n g = (g', ns) →
  nonce_inv g' ∧ NoDup ns ∧ (∀ x, x ∈ ns → x ∉ seen g) ∧
  accepted g' = accepted g + len ns ∧ ceiling g' = ceiling g ∧ seen g ⊆ seen g'.
Proof.
  revert g g' ns. induction n as [|n IH]; intros g g' ns Hinv Hrun; simplify_eq/=.
  { split_and!; try done; [constructor|set_solver|rewrite len_nil; lia]. }
  destruct (generate g) as [g1 res] eqn:Hg.
  destruct (generate_run n g1) as [g2 ns'] eqn:Hrun'. simplify_eq/=.
  destruct (generate_spec _ _ _ Hinv Hg) as (Hinv1 & Hc & Hres).
  destruct (IH _ _ _ Hinv1 Hrun') as (Hinv2 & Hnd & Hfresh & Hacc & Hc2 & Hsub).
  destruct res as [nonce|e]; destruct_and! Hres.
  - autorewrite with howy_len. split_and!; try done || congruence || lia.
    + constructor; [|done]. intros Hin. apply (Hfresh _ Hin). set_solver.
    + set_solver.
    + set_solver.
  - split_and!; try done || congruence || lia; set_solver.
Qed.

(** C35: No nonce is ever handed out twice under one key: in any run of calls on a
    generator built with ceiling [c], the nonces returned are pairwise distinct
    and at most [c] of them are returned, whatever the random source yields. *)
Theorem nonces_never_repeat r c g n g' ns :
  0 ≤ c → nonce_from_source_with_ceiling r c = Ok g → generate_run n g = (g', ns) →
  NoDup ns ∧ len ns ≤ c ∧ c ≤ MAX_ENCRYPTIONS_PER_KEY_V1.
Proof.
  intros Hc Hg Hrun.
  pose proof (nonce_from_source_with_ceiling_inv r c g Hc Hg) as Hinv.
  destruct (generate_run_spec _ _ _ _ Hinv Hrun) as ((Hacc' & _) & Hnd & _ & Hacc & Hceil & _).
  unfold nonce_from_source_with_ceiling in Hg. inv_ok. breflect. subst g. simpl in *.
  split_and!; [done|lia|done].
Qed.

End nonce.

(** A source that counts: the [n]-th draw is [n] in little-endian bytes. *)
#[export] Instance counter_source : RandomSource N :=
  λ r n, ((r + 1)%N, Ok (le_split n (Z.of_N r))).

Lemma nonces_never_repeat_witness :
  NoDup (generate_run Some 5 (mkNonceGenerator 0%N ∅ 0 3 None)).2 ∧
  len (generate_run Some 5 (mkNonceGenerator 0%N ∅ 0 3 None)).2 = 3.
Proof.
  split; [|vm_compute; reflexivity].
  refine (proj1 (nonces_never_repeat Some 0%N 3 (mkNonceGenerator 0%N ∅ 0 3 None) 5 _ _ _ _
    (surjective_pairing _))); [lia | reflexivity].
Defined.
