(* ===== verification/Codec.v ===== *)
(** * The HOWYPLN1 and HOWYENC1 record codecs: definitions

    [crates/howy-common/src/storage/codec.rs]. Decoders are written in a reader
    monad over [Reader], in the order the source reads and rejects; encoders
    are functions to bytes. The allocation oracle is an explicit argument, so
    that an encoder and a decoder may run under different ones. *)

From S2P Require Import Prelude Bytes Storage Crypto.

(** ** Constants *)

Definition HOWYENC1_MAGIC : bytes := bs "HOWYENC1".
Definition HOWYPLN1_MAGIC : bytes := bs "HOWYPLN1".
Definition FORMAT_VERSION : Z := 1.
Definition PAYLOAD_VERSION : Z := 1.
Definition AES_256_GCM_ALGORITHM : Z := 1.
Definition HOWYENC1_FIXED_HEADER : Z := 88.
Definition HOWYPLN1_FIXED_HEADER : Z := 54.
Definition HOWYPLN1_MAX_INSPECTION_BYTES : Z :=
  HOWYPLN1_FIXED_HEADER + 64 + CANONICAL_PAYLOAD_FIXED_BYTES.
Definition HOWYENC1_FIXED_INSPECTION_BYTES : Z := HOWYENC1_FIXED_HEADER.
Definition HOWYENC1_MAX_INSPECTION_BYTES : Z := HOWYENC1_FIXED_HEADER + 64.
Definition HOWYENC1_MAX_RECORD_BYTES : Z :=
  HOWYENC1_MAX_INSPECTION_BYTES + MAX_PLAINTEXT_BYTES + GCM_TAG_BYTES.

(** ** The reader *)

Record Reader := mkReader { rd_bytes : bytes; rd_offset : Z; rd_format : string }.

Definition parser (A : Type) : Type := Reader → sresult (A * Reader).
#[export] Instance parser_ret : MRet parser := λ A a r, Ok (a, r).
#[export] Instance parser_bind : MBind parser := λ A B f m r,
  match m r with Ok (a, r') => f a r' | Err e => Err e end.

(** [return Err(e)] and the [?] on a result inside a reading function. *)
Definition reject {A} (e : StorageError) : parser A := λ _, Err e.
Definition lift {A} (m : sresult A) : parser A := λ r,
  match m with Ok a => Ok (a, r) | Err e => Err e end.

Definition Reader_new (b : bytes) (format : string) : Reader := mkReader b 0 format.

(** [slice.get(lo..hi)] *)
Definition slice_get (b : bytes) (lo hi : Z) : option bytes :=
  if (lo <=? hi) && (hi <=? len b)
  then Some (take (Z.to_nat (hi - lo)) (drop (Z.to_nat lo) b)) else None.

(** [Reader::take] *)
Definition Reader_take (length : Z) : parser bytes := λ r,
  end_ ← ok_or (checked_add (rd_offset r) length) (IntegerOverflow "decoder offset");
  value ← ok_or (slice_get (rd_bytes r) (rd_offset r) end_) (InvalidLength (rd_format r));
  Ok (value, mkReader (rd_bytes r) end_ (rd_format r)).

(** [Reader::read_array]; the conversion from a slice of [n] bytes to an array
    of [n] bytes never fails. *)
Definition read_array (n : Z) : parser bytes := Reader_take n.

Definition read_u8 : parser Z := b ← read_array 1; mret (le_combine b).
Definition read_u16 : parser Z := b ← read_array 2; mret (le_combine b).
Definition read_u32 : parser Z := b ← read_array 4; mret (le_combine b).
Definition read_u64 : parser Z := b ← read_array 8; mret (le_combine b).

(** [Reader::remaining], [Reader::remainder], [Reader::finish] *)
Definition remaining : parser Z := λ r,
  Ok (saturating_sub (len (rd_bytes r)) (rd_offset r), r).
Definition remainder : parser bytes := λ r,
  Ok (drop (Z.to_nat (rd_offset r)) (rd_bytes r), r).
Definition finish : parser () := λ r,
  if rd_offset r =? len (rd_bytes r) then Ok ((), r) else Err (InvalidLength (rd_format r)).

(** Run a reading function on fresh input and drop the reader. *)
Definition run_reader {A} (p : parser A) (r : Reader) : sresult A :=
  '(a, _) ← p r; Ok a.

(** ** Canonical payload *)

(** The first loop of [encode_canonical_payload]: per-entry checks and the
    checked length accumulation. *)
Fixpoint payload_length_from (payload_length : Z) (es : list EnrollmentEntry) : sresult Z :=
  match es with
  | [] => Ok payload_length
  | entry :: rest =>
      if MAX_LABEL_BYTES <? len (label entry) then Err (LimitExceeded "label")
      else if existsb (λ v, negb (f32_is_finite v)) (embedding entry)
      then Err NonFiniteEmbedding
      else
        payload_length' ←
          ok_or (l ← checked_add payload_length CANONICAL_ENTRY_FIXED_BYTES;
                 checked_add l (len (label entry)))
                (IntegerOverflow "canonical payload length");
        payload_length_from payload_length' rest
  end.

(** The bytes one entry contributes. *)
Definition encode_entry (entry : EnrollmentEntry) : bytes :=
  id_bytes (enrollment_id entry)
  ++ le64 (created_unix_seconds entry)
  ++ le16 (len (label entry))
  ++ le16 0
  ++ label entry
  ++ concat (le32 <$> embedding entry).

(** [encode_canonical_payload] *)
Definition encode_canonical_payload (alloc : allocator) (record : EnrollmentRecord)
    : sresult bytes :=
  entry_count ← ok_or (try_from_u U32_MAX (len (entries record))) (LimitExceeded "entry count");
  payload_length ← payload_length_from CANONICAL_PAYLOAD_FIXED_BYTES (entries record);
  if MAX_PLAINTEXT_BYTES <? payload_length then Err (LimitExceeded "canonical plaintext")
  else if negb (alloc "canonical payload" payload_length)
  then Err (AllocationFailed "canonical payload")
  else
    Ok (le16 PAYLOAD_VERSION ++ le16 0 ++ le32 entry_count
        ++ concat (encode_entry <$> entries record)).

(** [chunks_exact(4)] *)
Fixpoint chunks_exact4 (b : bytes) : list bytes :=
  match b with
  | b0 :: b1 :: b2 :: b3 :: rest => [b0; b1; b2; b3] :: chunks_exact4 rest
  | _ => []
  end.

(** The embedding loop: [f32::from_le_bytes] of each four-byte chunk. *)
Definition decode_embedding (b : bytes) : list Z := le_combine <$> chunks_exact4 b.

(** The body of the entry loop, given the entries decoded so far. *)
Definition decode_entry (acc : list EnrollmentEntry) : parser EnrollmentEntry :=
  raw ← read_array 16;
  id ← lift (EnrollmentId_new raw);
  if existsb (λ entry, bool_decide (enrollment_id entry = id)) acc
  then reject DuplicateEnrollmentId
  else
    created ← read_u64;
    label_length ← read_u16;
    if MAX_LABEL_BYTES <? label_length then reject (LimitExceeded "label")
    else
      reserved ← read_u16;
      if negb (reserved =? 0) then reject (InvalidReserved "canonical payload entry")
      else
        label_bytes ← Reader_take label_length;
        if negb (utf8_valid label_bytes) then reject InvalidLabelUtf8
        else
          embedding_bytes ← Reader_take (EMBEDDING_DIMENSION * 4);
          lift (EnrollmentEntry_new id created label_bytes (decode_embedding embedding_bytes)).

(** [for _ in 0..entry_count_usize] *)
Fixpoint decode_entries (n : nat) (acc : list EnrollmentEntry)
    : parser (list EnrollmentEntry) :=
  match n with
  | O => mret acc
  | S n' => e ← decode_entry acc; decode_entries n' (acc ++ [e])
  end.

(** The reading part of [decode_payload_with_expected_count]. *)
Definition decode_payload_reader (alloc : allocator) (expected : option Z)
    : parser (list EnrollmentEntry) :=
  payload_version ← read_u16;
  if negb (payload_version =? PAYLOAD_VERSION)
  then reject (UnsupportedVersion "canonical payload" payload_version)
  else
    reserved ← read_u16;
    if negb (reserved =? 0) then reject (InvalidReserved "canonical payload")
    else
      entry_count ← read_u32;
      if match expected with Some e => negb (e =? entry_count) | None => false end
      then reject EntryCountMismatch
      else if MAX_ENTRIES <? entry_count then reject (LimitExceeded "entry count")
      else
        minimum ← lift (ok_or (checked_mul entry_count CANONICAL_ENTRY_FIXED_BYTES)
                              (IntegerOverflow "payload entry lengths"));
        left ← remaining;
        if left <? minimum then reject (InvalidLength "canonical payload")
        else if negb (alloc "payload entries" entry_count)
        then reject (AllocationFailed "payload entries")
        else
          es ← decode_entries (Z.to_nat entry_count) [];
          _ ← finish;
          mret es.

(** [decode_payload_with_expected_count] *)
Definition decode_payload_with_expected_count (alloc : allocator) (b : bytes)
    (expected : option Z) : sresult (list EnrollmentEntry) :=
  if MAX_PLAINTEXT_BYTES <? len b then Err (LimitExceeded "canonical plaintext")
  else run_reader (decode_payload_reader alloc expected) (Reader_new b "canonical payload").

(** [decode_canonical_payload] *)
Definition decode_canonical_payload (alloc : allocator) (b : bytes)
    : sresult (list EnrollmentEntry) :=
  decode_payload_with_expected_count alloc b None.

(** ** HOWYPLN1 *)

(** [encode_howypln1] *)
Definition encode_howypln1 (alloc : allocator) (record : EnrollmentRecord) : sresult bytes :=
  payload ← encode_canonical_payload alloc record;
  let username := user_bytes (username record) in
  total_length ← ok_or (l ← checked_add HOWYPLN1_FIXED_HEADER (len username);
                        checked_add l (len payload))
                       (IntegerOverflow "HOWYPLN1 length");
  if negb (alloc "HOWYPLN1 record" total_length) then Err (AllocationFailed "HOWYPLN1 record")
  else
    Ok (HOWYPLN1_MAGIC ++ le16 FORMAT_VERSION ++ le16 0 ++ le64 (generation record)
        ++ digest_bytes (recognizer_model_sha256 record)
        ++ le16 (len username) ++ username ++ payload).

(** The frozen HOWYPLN1 header: generation, model and username. *)
Definition read_howypln1_header (expected_username : CanonicalUsername)
    (expected_model : ModelDigest) : parser (Z * ModelDigest * CanonicalUsername) :=
  magic ← Reader_take 8;
  if negb (bool_decide (magic = HOWYPLN1_MAGIC)) then reject (InvalidMagic "HOWYPLN1")
  else
    version ← read_u16;
    if negb (version =? FORMAT_VERSION) then reject (UnsupportedVersion "HOWYPLN1" version)
    else
      flags ← read_u16;
      if negb (flags =? 0) then reject (UnknownFlags "HOWYPLN1" flags)
      else
        gen ← read_u64;
        if gen =? 0 then reject InvalidGeneration
        else
          model ← read_array 32;
          username_length ← read_u16;
          if negb (contains 1 64 username_length) then reject InvalidUsername
          else
            username_bytes ← Reader_take username_length;
            if negb (utf8_valid username_bytes) then reject InvalidUsername
            else
              user ← lift (CanonicalUsername_new username_bytes);
              if negb (bool_decide (user = expected_username))
              then reject (BindingMismatch "username")
              else if negb (bool_decide (mkDigest model = expected_model))
              then reject (BindingMismatch "recognizer model")
              else mret (gen, mkDigest model, user).

(** [decode_howypln1] *)
Definition decode_howypln1 (alloc : allocator) (b : bytes)
    (expected_username : CanonicalUsername) (expected_model : ModelDigest)
    : sresult EnrollmentRecord :=
  '(gen, model, user, rest) ←
    run_reader (h ← read_howypln1_header expected_username expected_model;
                rest ← remainder; mret (h, rest))
               (Reader_new b "HOWYPLN1");
  es ← decode_canonical_payload alloc rest;
  EnrollmentRecord_new gen model user es.

Record PlaintextHeaderInspection := mkInspection {
  inspected_generation : Z; inspected_entry_count : Z }.

(** [inspect_howypln1_metadata] *)
Definition inspect_howypln1_metadata (metadata_prefix : bytes) (exact_source_length : Z)
    (expected_username : CanonicalUsername) (expected_model : ModelDigest)
    (configured_max_entries : Z) : sresult PlaintextHeaderInspection :=
  if (configured_max_entries =? 0) || (MAX_ENTRIES <? configured_max_entries)
  then Err (LimitExceeded "entry count")
  else if HOWYPLN1_MAX_INSPECTION_BYTES <? len metadata_prefix
  then Err (InvalidLength "HOWYPLN1")
  else
    '(gen, entry_count) ←
      run_reader
        ('(gen, _, _) ← read_howypln1_header expected_username expected_model;
         payload_version ← read_u16;
         if negb (payload_version =? PAYLOAD_VERSION)
         then reject (UnsupportedVersion "canonical payload" payload_version)
         else
           reserved ← read_u16;
           if negb (reserved =? 0) then reject (InvalidReserved "canonical payload")
           else
             entry_count ← read_u32;
             _ ← finish;
             mret (gen, entry_count))
        (Reader_new metadata_prefix "HOWYPLN1 metadata");
    if (configured_max_entries <? entry_count) || (MAX_ENTRIES <? entry_count)
    then Err (LimitExceeded "entry count")
    else
      body ← ok_or (checked_mul entry_count CANONICAL_ENTRY_FIXED_BYTES)
                   (IntegerOverflow "HOWYPLN1 entry envelope");
      minimum_length ← ok_or (checked_add (len metadata_prefix) body)
                             (IntegerOverflow "HOWYPLN1 length envelope");
      labels ← ok_or (checked_mul entry_count MAX_LABEL_BYTES)
                     (IntegerOverflow "HOWYPLN1 label envelope");
      maximum_length ← ok_or (checked_add minimum_length labels)
                             (IntegerOverflow "HOWYPLN1 length envelope");
      if negb (contains minimum_length maximum_length exact_source_length)
      then Err (InvalidLength "HOWYPLN1")
      else Ok (mkInspection gen entry_count).

(** ** HOWYENC1 *)

Record EncryptedHeader := mkHeader {
  h_mode : StorageMode;
  h_key_epoch : Z;
  h_record_generation : Z;
  h_plaintext_length : Z;
  h_entry_count : Z;
  h_model : ModelDigest;
  h_nonce : bytes;
  h_username : CanonicalUsername;
  h_header_length : Z;
}.

(** The header bytes [encode_howyenc1_with_nonce] assembles. *)
Definition howyenc1_header_bytes (mode : StorageMode) (key_epoch gen plaintext_length
    entry_count header_length : Z) (model nonce username : bytes) : bytes :=
  HOWYENC1_MAGIC ++ le16 FORMAT_VERSION ++ le16 AES_256_GCM_ALGORITHM
  ++ le_split 1 (storage_mode_identifier mode) ++ le_split 1 0
  ++ le16 header_length ++ le64 key_epoch ++ le64 gen ++ le32 plaintext_length
  ++ le32 entry_count ++ le16 EMBEDDING_DIMENSION ++ le16 (len username)
  ++ model ++ nonce ++ username.

Section howyenc1.
  Context `{AesGcm}.

(** [encode_howyenc1_with_nonce] *)
Definition encode_howyenc1_with_nonce (alloc : allocator) (record : EnrollmentRecord)
    (mode : StorageMode) (key_epoch : Z) (key nonce : bytes) : sresult bytes :=
  if key_epoch =? 0 then Err InvalidEpoch
  else
    payload ← encode_canonical_payload alloc record;
    plaintext_length ← ok_or (try_from_u U32_MAX (len payload))
                             (LimitExceeded "canonical plaintext");
    entry_count ← ok_or (try_from_u U32_MAX (len (entries record)))
                        (LimitExceeded "entry count");
    let username := user_bytes (username record) in
    header_length ← ok_or (checked_add HOWYENC1_FIXED_HEADER (len username))
                          (IntegerOverflow "HOWYENC1 header length");
    encoded_header_length ← ok_or (try_from_u U16_MAX header_length)
                                  (IntegerOverflow "HOWYENC1 header length");
    if negb (alloc "HOWYENC1 header" header_length)
    then Err (AllocationFailed "HOWYENC1 header")
    else
      let header :=
        howyenc1_header_bytes mode key_epoch (generation record) plaintext_length entry_count
          encoded_header_length (digest_bytes (recognizer_model_sha256 record)) nonce username in
      '(ciphertext, tag) ← encrypt_aes_256_gcm alloc key nonce header payload;
      total_length ← ok_or (l ← checked_add header_length (len ciphertext);
                            checked_add l GCM_TAG_BYTES)
                           (IntegerOverflow "HOWYENC1 total length");
      if negb (alloc "HOWYENC1 record" total_length)
      then Err (AllocationFailed "HOWYENC1 record")
      else Ok (header ++ ciphertext ++ tag).

(** [encode_howyenc1] *)
Definition encode_howyenc1 {R} `{RandomSource R} (try_reserve : Z → option Z)
    (alloc : allocator) (record : EnrollmentRecord) (mode : StorageMode) (key_epoch : Z)
    (key : bytes) (g : NonceGenerator R) : NonceGenerator R * sresult bytes :=
  match generate try_reserve g with
  | (g', Err e) => (g', Err e)
  | (g', Ok nonce) => (g', encode_howyenc1_with_nonce alloc record mode key_epoch key nonce)
  end.

(** The reading part of [inspect_howyenc1_header_prefix]. *)
Definition read_howyenc1_header (exact_source_length : Z) : parser EncryptedHeader :=
  magic ← Reader_take 8;
  if negb (bool_decide (magic = HOWYENC1_MAGIC)) then reject (InvalidMagic "HOWYENC1") else
  version ← read_u16;
  if negb (version =? FORMAT_VERSION) then reject (UnsupportedVersion "HOWYENC1" version) else
  algorithm ← read_u16;
  if negb (algorithm =? AES_256_GCM_ALGORITHM) then reject (UnsupportedAlgorithm algorithm) else
  mode_byte ← read_u8;
  mode ← lift (storage_mode_try_from_u8 mode_byte);
  flags ← read_u8;
  if negb (flags =? 0) then reject (UnknownFlags "HOWYENC1" flags) else
  header_length ← read_u16;
  key_epoch ← read_u64;
  if key_epoch =? 0 then reject InvalidEpoch else
  record_generation ← read_u64;
  if record_generation =? 0 then reject InvalidGeneration else
  plaintext_length ← read_u32;
  if MAX_PLAINTEXT_BYTES <? plaintext_length
  then reject (LimitExceeded "HOWYENC1 plaintext") else
  entry_count ← read_u32;
  if MAX_ENTRIES <? entry_count then reject (LimitExceeded "entry count") else
  embedding_dimension ← read_u16;
  if negb (embedding_dimension =? EMBEDDING_DIMENSION)
  then reject (InvalidEmbeddingDimension embedding_dimension) else
  username_length ← read_u16;
  if negb (contains 1 64 username_length) then reject InvalidUsername else
  model ← read_array 32;
  nonce ← read_array 12;
  expected_header_length ← lift (ok_or (checked_add HOWYENC1_FIXED_HEADER username_length)
                                       (IntegerOverflow "HOWYENC1 header length"));
  if negb (header_length =? expected_header_length) then reject (InvalidLength "HOWYENC1") else
  total_length ← lift (ok_or (l ← checked_add header_length plaintext_length;
                              checked_add l GCM_TAG_BYTES)
                             (IntegerOverflow "HOWYENC1 total length"));
  if negb (exact_source_length =? total_length) then reject (InvalidLength "HOWYENC1") else
  entry_lengths ← lift (ok_or (checked_mul entry_count CANONICAL_ENTRY_FIXED_BYTES)
                              (IntegerOverflow "HOWYENC1 entry lengths"));
  minimum ← lift (ok_or (checked_add CANONICAL_PAYLOAD_FIXED_BYTES entry_lengths)
                        (IntegerOverflow "HOWYENC1 payload length"));
  if plaintext_length <? minimum then reject (InvalidLength "HOWYENC1") else
  username_bytes ← Reader_take username_length;
  if negb (utf8_valid username_bytes) then reject InvalidUsername else
  user ← lift (CanonicalUsername_new username_bytes);
  mret (mkHeader mode key_epoch record_generation plaintext_length entry_count
          (mkDigest model) nonce user header_length).

(** [inspect_howyenc1_header_prefix] *)
Definition inspect_howyenc1_header_prefix (b : bytes) (exact_source_length : Z)
    : sresult EncryptedHeader :=
  run_reader (read_howyenc1_header exact_source_length) (Reader_new b "HOWYENC1").

(** [inspect_howyenc1] *)
Definition inspect_howyenc1 (b : bytes) : sresult EncryptedHeader :=
  inspect_howyenc1_header_prefix b (len b).

(** The binding checks shared, in the same order, by [inspect_howyenc1_metadata]
    and [decode_howyenc1]. *)
Definition check_bindings (header : EncryptedHeader) (expected_mode : StorageMode)
    (expected_key_epoch : Z) (expected_username : CanonicalUsername)
    (expected_model : ModelDigest) : sresult () :=
  if negb (bool_decide (h_mode header = expected_mode)) then Err (BindingMismatch "storage mode")
  else if negb (h_key_epoch header =? expected_key_epoch) then Err (BindingMismatch "key epoch")
  else if negb (bool_decide (h_username header = expected_username))
  then Err (BindingMismatch "username")
  else if negb (bool_decide (h_model header = expected_model))
  then Err (BindingMismatch "recognizer model")
  else Ok ().

(** [inspect_howyenc1_metadata] *)
Definition inspect_howyenc1_metadata (header_prefix : bytes) (exact_source_length : Z)
    (expected_mode : StorageMode) (expected_key_epoch : Z)
    (expected_username : CanonicalUsername) (expected_model : ModelDigest)
    (configured_max_entries configured_max_plaintext_bytes : Z) : sresult EncryptedHeader :=
  if negb (contains HOWYENC1_FIXED_INSPECTION_BYTES HOWYENC1_MAX_INSPECTION_BYTES
             (len header_prefix))
  then Err (InvalidLength "HOWYENC1")
  else if (configured_max_entries =? 0) || (MAX_ENTRIES <? configured_max_entries)
  then Err (LimitExceeded "entry count")
  else if (configured_max_plaintext_bytes =? 0)
          || (MAX_PLAINTEXT_BYTES <? configured_max_plaintext_bytes)
  then Err (LimitExceeded "HOWYENC1 plaintext")
  else
    header ← inspect_howyenc1_header_prefix header_prefix exact_source_length;
    if negb (len header_prefix =? h_header_length header) then Err (InvalidLength "HOWYENC1")
    else if configured_max_entries <? h_entry_count header
    then Err (LimitExceeded "entry count")
    else if configured_max_plaintext_bytes <? h_plaintext_length header
    then Err (LimitExceeded "HOWYENC1 plaintext")
    else
      _ ← check_bindings header expected_mode expected_key_epoch expected_username
            expected_model;
      Ok header.

(** [decode_howyenc1] *)
Definition decode_howyenc1 (alloc : allocator) (b key : bytes) (expected_mode : StorageMode)
    (expected_key_epoch : Z) (expected_username : CanonicalUsername)
    (expected_model : ModelDigest) : sresult EnrollmentRecord :=
  header ← inspect_howyenc1 b;
  _ ← check_bindings header expected_mode expected_key_epoch expected_username expected_model;
  ciphertext_end ← ok_or (checked_add (h_header_length header) (h_plaintext_length header))
                         (IntegerOverflow "HOWYENC1 ciphertext end");
  ciphertext ← ok_or (slice_get b (h_header_length header) ciphertext_end)
                     (InvalidLength "HOWYENC1");
  tag ← ok_or (slice_get b ciphertext_end (len b)) (InvalidLength "HOWYENC1");
  if negb (len tag =? GCM_TAG_BYTES) then Err (InvalidLength "HOWYENC1")
  else
    aad ← ok_or (slice_get b 0 (h_header_length header)) (InvalidLength "HOWYENC1");
    payload ← decrypt_aes_256_gcm alloc key (h_nonce header) aad ciphertext tag;
    if negb (len payload =? h_plaintext_length header) then Err (InvalidLength "HOWYENC1")
    else
      es ← decode_payload_with_expected_count alloc payload (Some (h_entry_count header));
      EnrollmentRecord_new (h_record_generation header) (h_model header)
        (h_username header) es.

End howyenc1.
