(* ===== verification/CodecReader.v ===== *)
(** * A small logic for the codec's reading functions

    [parses p x a]: on any input that continues with [x], [p] returns [a] and
    stands just after [x]. [consumes p Q]: whenever [p] succeeds, what it read
    is some [x] with [Q a x]. Both compose along the reader's bind, so a
    decoder's correctness follows its text. *)

From S2P Require Import Prelude Bytes Storage Crypto Codec.

(** A reader standing between [pre] and [rest]. *)
Definition rd (pre rest : bytes) (f : string) : Reader := mkReader (pre ++ rest) (len pre) f.

Definition parses {A} (p : parser A) (x : bytes) (a : A) : Prop :=
  ∀ pre rest f, len pre + len x + len rest ≤ U64_MAX →
    p (rd pre (x ++ rest) f) = Ok (a, rd (pre ++ x) rest f).

Definition consumes {A} (p : parser A) (Q : A → bytes → Prop) : Prop :=
  ∀ pre rest f a r', p (rd pre rest f) = Ok (a, r') →
    ∃ x rest', rest = x ++ rest' ∧ r' = rd (pre ++ x) rest' f ∧ Q a x.

Lemma rd_assoc pre x rest f : rd (pre ++ x) rest f = mkReader (pre ++ x ++ rest) (len pre + len x) f.
Proof. unfold rd. by rewrite <- app_assoc, len_app. Qed.

Lemma slice_get_mid pre x rest :
  slice_get (pre ++ x ++ rest) (len pre) (len pre + len x) = Some x.
Proof.
  unfold slice_get. rewrite !len_app.
  pose proof (len_nonneg x). pose proof (len_nonneg rest).
  destruct ((_ <=? _) && _) eqn:E; [|lia]. f_equal.
  replace (len pre + len x - len pre) with (len x) by lia.
  unfold len. rewrite !Nat2Z.id, drop_app_length. apply take_app_length.
Qed.

Lemma slice_get_Some b lo hi x :
  slice_get b lo hi = Some x → 0 ≤ lo →
  lo ≤ hi ≤ len b ∧ x = take (Z.to_nat (hi - lo)) (drop (Z.to_nat lo) b) ∧ len x = hi - lo.
Proof.
  unfold slice_get. destruct (_ && _) eqn:E; [|done]. intros [= <-] Hlo. breflect.
  split_and!; try done.
  unfold len in *. rewrite length_take, length_drop. lia.
Qed.

(** ** Fields at offsets *)

(** [x] is the part of [b] at [off]. *)
Definition at_ (b : bytes) (off : Z) (x : bytes) : Prop :=
  ∃ pre rest, b = pre ++ x ++ rest ∧ len pre = off.

Lemma at_app b off x y : at_ b off (x ++ y) ↔ at_ b off x ∧ at_ b (off + len x) y.
Proof.
  split.
  - intros (pre & rest & -> & Hp). rewrite <- !app_assoc. split; [by exists pre, (y ++ rest)|].
    exists (pre ++ x), rest. rewrite <- !app_assoc, len_app. by rewrite Hp.
  - intros [(pre & rest & -> & Hp) (pre' & rest' & Heq & Hp')].
    rewrite <- Hp, <- len_app in Hp'. rewrite app_assoc in Heq.
    apply app_inj_1 in Heq as [<- ->]; [|unfold len in Hp'; lia].
    exists pre, rest'. by rewrite <- app_assoc.
Qed.

Lemma at_whole b x : b = x ↔ at_ b 0 x ∧ len b = len x.
Proof.
  split; [intros ->; split; [|done]; exists [], []; by rewrite app_nil_r|].
  intros [(pre & rest & -> & Hp) Hl]. rewrite !len_app in Hl.
  destruct pre; [|unfold len in Hp; simpl in Hp; lia]. destruct rest; [by rewrite app_nil_r|].
  unfold len in Hl. simpl in Hl. lia.
Qed.

Lemma at_nil b off : 0 ≤ off ≤ len b → at_ b off [].
Proof.
  intros Ho. exists (take (Z.to_nat off) b), (drop (Z.to_nat off) b). split; [simpl; by rewrite take_drop|].
  unfold len in *. rewrite length_take. lia.
Qed.

Lemma at_slice b off x hi :
  0 ≤ off → hi = off + len x → slice_get b off hi = Some x ↔ at_ b off x.
Proof.
  intros Ho ->. split.
  - intros (Hlen & -> & _)%slice_get_Some; [|done]. pose proof (len_nonneg x).
    replace (off + len x - off) with (len x) in * by lia.
    exists (take (Z.to_nat off) b), (drop (Z.to_nat (len x)) (drop (Z.to_nat off) b)).
    rewrite take_drop, take_drop. split; [done|]. unfold len in *. rewrite length_take. lia.
  - intros (pre & rest & -> & <-). apply slice_get_mid.
Qed.

Lemma at_exists b off n :
  0 ≤ off → off + Z.of_nat n ≤ len b → ∃ x, length x = n ∧ at_ b off x.
Proof.
  intros Ho Hn. exists (take n (drop (Z.to_nat off) b)). unfold len in Hn.
  assert (length (take n (drop (Z.to_nat off) b)) = n) as Hl
    by (rewrite length_take, length_drop; lia).
  split; [done|]. apply (at_slice _ _ _ (off + Z.of_nat n)); [done|unfold len; by rewrite Hl|].
  unfold slice_get, len. destruct (_ && _) eqn:E; [|lia].
  f_equal. f_equal. lia.
Qed.

Section rules.
  Context {A B : Type}.
  Implicit Types (p : parser A) (k : A → parser B).

Lemma parses_bind p k x y a b :
  parses p x a → parses (k a) y b → parses (p ≫= k) (x ++ y) b.
Proof.
  intros Hp Hk pre rest f Hlen. rewrite len_app in Hlen.
  unfold mbind, parser_bind. rewrite <- app_assoc.
  rewrite Hp by (rewrite len_app; lia). rewrite app_assoc.
  apply Hk. rewrite len_app. lia.
Qed.

(** Running one step of a bind on a reader whose input is known. *)
Lemma run_bind p k x a pre rest f :
  parses p x a → len pre + len x + len rest ≤ U64_MAX →
  (p ≫= k) (rd pre (x ++ rest) f) = k a (rd (pre ++ x) rest f).
Proof. intros Hp Hlen. unfold mbind, parser_bind. by rewrite Hp. Qed.

Lemma parses_ret (a : A) : parses (mret a) [] a.
Proof. intros pre rest f _. unfold mret, parser_ret. by rewrite app_nil_r. Qed.

Lemma parses_lift (m : sresult A) a : m = Ok a → parses (lift m) [] a.
Proof. intros -> pre rest f _. simpl. by rewrite app_nil_r. Qed.

Lemma parses_guard (b : bool) e p x a :
  b = false → parses p x a → parses (if b then reject e else p) x a.
Proof. by intros ->. Qed.

Lemma parses_bind_lift (m : sresult A) k y a b :
  m = Ok a → parses (k a) y b → parses (lift m ≫= k) y b.
Proof. intros Hm Hk. eapply (parses_bind _ _ []); [by apply parses_lift|done]. Qed.

Lemma parses_bind_last p k x a b :
  parses p x a → parses (k a) [] b → parses (p ≫= k) x b.
Proof. intros Hp Hk. rewrite <- (app_nil_r x). by eapply parses_bind. Qed.

Lemma consumes_bind p k (Q1 : A → bytes → Prop) (Q2 : A → B → bytes → Prop) :
  consumes p Q1 → (∀ a x, Q1 a x → consumes (k a) (Q2 a)) →
  consumes (p ≫= k) (λ b z, ∃ a x y, z = x ++ y ∧ Q1 a x ∧ Q2 a b y).
Proof.
  intros Hp Hk pre rest f b r' Hr. unfold mbind, parser_bind in Hr.
  destruct (p (rd pre rest f)) as [[a r1]|] eqn:Hpr; [|done].
  destruct (Hp _ _ _ _ _ Hpr) as (x & rest1 & -> & -> & HQ1).
  destruct (Hk a x HQ1 _ _ _ _ _ Hr) as (y & rest2 & -> & -> & HQ2).
  exists (x ++ y), rest2. rewrite <- !app_assoc. naive_solver.
Qed.

Lemma consumes_ret (a : A) : consumes (mret a) (λ a' x, a' = a ∧ x = []).
Proof.
  intros pre rest f a' r' [= <- <-]. exists [], rest. by rewrite app_nil_r.
Qed.

Lemma consumes_lift (m : sresult A) : consumes (lift m) (λ a x, m = Ok a ∧ x = []).
Proof.
  intros pre rest f a r' H. unfold lift in H. destruct m; simplify_eq.
  exists [], rest. by rewrite app_nil_r.
Qed.

Lemma consumes_guard (b : bool) e p Q :
  consumes p Q → consumes (if b then reject e else p) (λ a x, b = false ∧ Q a x).
Proof.
  intros Hp pre rest f a r' H. destruct b; [done|].
  destruct (Hp _ _ _ _ _ H) as (?&?&?&?&?). eauto 10.
Qed.

Lemma consumes_mono p (Q Q' : A → bytes → Prop) :
  consumes p Q → (∀ a x, Q a x → Q' a x) → consumes p Q'.
Proof. intros Hp HQ pre rest f a r' H. destruct (Hp _ _ _ _ _ H) as (?&?&?&?&?). eauto 10. Qed.
End rules.

Lemma parses_eq {A} (p : parser A) x x' a : parses p x a → x = x' → parses p x' a.
Proof. by intros ? <-. Qed.

Lemma parses_take x n : n = len x → parses (Reader_take n) x x.
Proof.
  intros -> pre rest f Hlen. pose proof (len_nonneg rest).
  unfold Reader_take, rd; simpl.
  unfold checked_add. destruct (Z.leb_spec (len pre + len x) U64_MAX); [|lia].
  simpl. rewrite slice_get_mid. simpl. by rewrite len_app, <- app_assoc.
Qed.

Lemma consumes_take n : 0 ≤ n → consumes (Reader_take n) (λ a x, a = x ∧ len x = n).
Proof.
  intros Hn pre rest f a r' H. unfold Reader_take, rd in H; simpl in H.
  inv_ok. breflect. simplify_eq.
  match goal with Hs : slice_get _ _ _ = Some _ |- _ =>
    apply slice_get_Some in Hs as (Hb & Hx & Hlx); [|apply len_nonneg] end.
  rewrite len_app in Hb.
  replace (len pre + n - len pre) with n in * by lia.
  unfold len in Hx. rewrite Nat2Z.id, drop_app_length in Hx.
  exists a, (drop (Z.to_nat n) rest). subst a.
  rewrite take_drop. split_and!; try done.
  rewrite rd_assoc, take_drop. by rewrite Hlx.
Qed.

(** The four integer readers share one rule each way. *)
Definition read_uint (n : nat) : parser Z := b ← read_array (Z.of_nat n); mret (le_combine b).

Lemma parses_uint n z :
  0 ≤ z < 2 ^ (Z.of_nat n * 8) → parses (read_uint n) (le_split n z) z.
Proof.
  intros Hz. eapply parses_eq; [|apply app_nil_r].
  eapply parses_bind; [apply parses_take; by rewrite len_le_split|].
  rewrite le_combine_le_split_small by done. apply parses_ret.
Qed.

Lemma consumes_uint n :
  consumes (read_uint n) (λ z x, x = le_split n z ∧ 0 ≤ z < 2 ^ (Z.of_nat n * 8)).
Proof.
  eapply consumes_mono.
  { eapply consumes_bind; [apply consumes_take; lia|]. intros. apply consumes_ret. }
  intros z x (b & y & y' & -> & [-> Hlen] & -> & ->). rewrite app_nil_r.
  assert (length y = n) by (unfold len in Hlen; lia).
  split; [by rewrite split_le_combine'|by apply le_combine_range].
Qed.

Lemma consumes_u8 : consumes read_u8 (λ z x, x = le_split 1 z ∧ 0 ≤ z ≤ U8_MAX).
Proof. eapply consumes_mono; [apply (consumes_uint 1)|]. unfold_max. intros ??[??]; split; [done|lia]. Qed.
Lemma consumes_u16 : consumes read_u16 (λ z x, x = le16 z ∧ 0 ≤ z ≤ U16_MAX).
Proof. eapply consumes_mono; [apply (consumes_uint 2)|]. unfold_max. intros ??[??]; split; [done|lia]. Qed.
Lemma consumes_u32 : consumes read_u32 (λ z x, x = le32 z ∧ 0 ≤ z ≤ U32_MAX).
Proof. eapply consumes_mono; [apply (consumes_uint 4)|]. unfold_max. intros ??[??]; split; [done|lia]. Qed.
Lemma consumes_u64 : consumes read_u64 (λ z x, x = le64 z ∧ 0 ≤ z ≤ U64_MAX).
Proof. eapply consumes_mono; [apply (consumes_uint 8)|]. unfold_max. intros ??[??]; split; [done|lia]. Qed.

Lemma parses_u8 z : 0 ≤ z ≤ U8_MAX → parses read_u8 (le_split 1 z) z.
Proof. intros. apply (parses_uint 1). unfold_max. lia. Qed.
Lemma parses_u16 z : 0 ≤ z ≤ U16_MAX → parses read_u16 (le16 z) z.
Proof. intros. apply (parses_uint 2). unfold_max. lia. Qed.
Lemma parses_u32 z : 0 ≤ z ≤ U32_MAX → parses read_u32 (le32 z) z.
Proof. intros. apply (parses_uint 4). unfold_max. lia. Qed.
Lemma parses_u64 z : 0 ≤ z ≤ U64_MAX → parses read_u64 (le64 z) z.
Proof. intros. apply (parses_uint 8). unfold_max. lia. Qed.

Lemma remaining_rd pre rest f : remaining (rd pre rest f) = Ok (len rest, rd pre rest f).
Proof.
  unfold remaining, rd; simpl. rewrite len_app. unfold saturating_sub.
  pose proof (len_nonneg rest). do 3 f_equal. lia.
Qed.

Lemma remainder_rd pre rest f : remainder (rd pre rest f) = Ok (rest, rd pre rest f).
Proof. unfold remainder, rd; simpl. unfold len. by rewrite Nat2Z.id, drop_app_length. Qed.

Lemma finish_rd pre rest f r :
  finish (rd pre rest f) = Ok ((), r) ↔ rest = [] ∧ r = rd pre rest f.
Proof.
  unfold finish, rd; simpl. rewrite len_app.
  destruct (Z.eqb_spec (len pre) (len pre + len rest)) as [E|E].
  - assert (rest = []) as -> by (destruct rest; [done|unfold len in E; simpl in E; lia]).
    naive_solver.
  - split; [done|]. intros [-> _]. rewrite len_nil in E. lia.
Qed.

(** ** Reading to the end of the input

    [parses_all p x a]: on an input that ends with [x], [p] returns [a].
    [consumes_all p Q]: whenever [p] succeeds, the rest of its input was some
    [x] with [Q a x]. *)

Definition parses_all {A} (p : parser A) (x : bytes) (a : A) : Prop :=
  ∀ pre f, len pre + len x ≤ U64_MAX → ∃ r, p (rd pre x f) = Ok (a, r).

Definition consumes_all {A} (p : parser A) (Q : A → bytes → Prop) : Prop :=
  ∀ pre rest f a r', p (rd pre rest f) = Ok (a, r') → Q a rest.

Lemma parses_all_bind {A B} (p : parser A) (k : A → parser B) x y a b :
  parses p x a → parses_all (k a) y b → parses_all (p ≫= k) (x ++ y) b.
Proof.
  intros Hp Hk pre f Hlen. rewrite len_app in Hlen.
  erewrite run_bind; [|done|lia]. apply Hk. rewrite len_app. lia.
Qed.

Lemma parses_all_lift {A B} (m : sresult A) (k : A → parser B) y a b :
  m = Ok a → parses_all (k a) y b → parses_all (lift m ≫= k) y b.
Proof. intros Hm Hk. eapply (parses_all_bind _ _ []); [by apply parses_lift|done]. Qed.

Lemma parses_all_guard {A} (b : bool) e (p : parser A) x a :
  b = false → parses_all p x a → parses_all (if b then reject e else p) x a.
Proof. by intros ->. Qed.

Lemma parses_all_remaining {A} (k : Z → parser A) x a :
  parses_all (k (len x)) x a → parses_all (remaining ≫= k) x a.
Proof. intros Hk pre f Hlen. unfold mbind, parser_bind. rewrite remaining_rd. by apply Hk. Qed.

Lemma parses_all_remainder {A} (k : bytes → parser A) x a :
  parses_all (k x) x a → parses_all (remainder ≫= k) x a.
Proof. intros Hk pre f Hlen. unfold mbind, parser_bind. rewrite remainder_rd. by apply Hk. Qed.

Lemma parses_all_ret {A} (a : A) x : parses_all (mret a) x a.
Proof. intros pre f Hlen. by eexists. Qed.

Lemma parses_all_finish {A} (p : parser A) a :
  parses_all p [] a → parses_all (finish ≫= λ _, p) [] a.
Proof.
  intros Hp pre f Hlen. unfold mbind, parser_bind.
  rewrite (proj2 (finish_rd _ _ _ _) (conj eq_refl eq_refl)). by apply Hp.
Qed.

Lemma run_parses_all {A} (p : parser A) b f a :
  parses_all p b a → len b ≤ U64_MAX → run_reader p (Reader_new b f) = Ok a.
Proof.
  intros Hp Hb. destruct (Hp [] f) as [r Hr]; [by rewrite len_nil|].
  unfold run_reader. change (Reader_new b f) with (rd [] b f). by rewrite Hr.
Qed.

Lemma consumes_all_bind {A B} (p : parser A) (k : A → parser B)
    (Q1 : A → bytes → Prop) (Q2 : A → B → bytes → Prop) :
  consumes p Q1 → (∀ a x, Q1 a x → consumes_all (k a) (Q2 a)) →
  consumes_all (p ≫= k) (λ b z, ∃ a x y, z = x ++ y ∧ Q1 a x ∧ Q2 a b y).
Proof.
  intros Hp Hk pre rest f b r' Hr. unfold mbind, parser_bind in Hr.
  destruct (p (rd pre rest f)) as [[a r1]|] eqn:Hpr; [|done].
  destruct (Hp _ _ _ _ _ Hpr) as (x & rest1 & -> & -> & HQ1).
  specialize (Hk a x HQ1 _ _ _ _ _ Hr). eauto 10.
Qed.

Lemma consumes_all_guard {A} (b : bool) e (p : parser A) Q :
  consumes_all p Q → consumes_all (if b then reject e else p) (λ a x, b = false ∧ Q a x).
Proof. intros Hp pre rest f a r' H. destruct b; [done|]. eauto. Qed.

Lemma consumes_all_mono {A} (p : parser A) (Q Q' : A → bytes → Prop) :
  consumes_all p Q → (∀ a x, Q a x → Q' a x) → consumes_all p Q'.
Proof. intros Hp HQ pre rest f a r' H. eauto. Qed.

Lemma consumes_all_finish {A} (a : A) :
  consumes_all (finish ≫= λ _, mret a) (λ a' x, a' = a ∧ x = []).
Proof.
  intros pre rest f a' r' H. unfold mbind, parser_bind in H.
  destruct (finish (rd pre rest f)) as [[[] r]|] eqn:Hf; [|done].
  apply finish_rd in Hf as [-> ->]. by injection H as <- <-.
Qed.

Lemma consumes_all_remainder {A} (g : bytes → A) :
  consumes_all (remainder ≫= λ x, mret (g x)) (λ a x, a = g x).
Proof.
  intros pre rest f a r' H. unfold mbind, parser_bind in H.
  rewrite remainder_rd in H. by injection H as <- <-.
Qed.

Lemma consumes_remaining : consumes remaining (λ _ x, x = []).
Proof.
  intros pre rest f a r' H. rewrite remaining_rd in H. injection H as <- <-.
  exists [], rest. by rewrite app_nil_r.
Qed.

Lemma run_consumes_all {A} (p : parser A) Q b f a :
  consumes_all p Q → run_reader p (Reader_new b f) = Ok a → Q a b.
Proof.
  intros Hp H. unfold run_reader in H. change (Reader_new b f) with (rd [] b f) in H.
  destruct (p (rd [] b f)) as [[a' r]|] eqn:E; [|done]. injection H as <-. by eapply Hp.
Qed.

(** ** Errors a reading function cannot return *)

Definition no_alloc_error {A} (m : sresult A) : Prop := ∀ w, m ≠ Err (AllocationFailed w).
Definition no_alloc {A} (p : parser A) : Prop := ∀ r, no_alloc_error (p r).

Lemma no_alloc_bind {A B} (p : parser A) (k : A → parser B) :
  no_alloc p → (∀ a, no_alloc (k a)) → no_alloc (p ≫= k).
Proof.
  intros Hp Hk r w. unfold mbind, parser_bind.
  destruct (p r) as [[a r']|e] eqn:E; [apply Hk|]. intros [= ->]. by eapply Hp.
Qed.
Lemma no_alloc_guard {A} (b : bool) e (p : parser A) :
  (∀ w, e ≠ AllocationFailed w) → no_alloc p → no_alloc (if b then reject e else p).
Proof. intros He Hp r w. destruct b; [|apply Hp]. intros [= ?]. by eapply He. Qed.
Lemma no_alloc_ret {A} (a : A) : no_alloc (mret a).
Proof. by intros r w. Qed.
Lemma no_alloc_lift {A} (m : sresult A) : no_alloc_error m → no_alloc (lift m).
Proof. intros Hm r w. unfold lift. destruct m; [done|]. intros [= ->]. by eapply Hm. Qed.
Lemma no_alloc_error_ok_or {A} (o : option A) e :
  (∀ w, e ≠ AllocationFailed w) → no_alloc_error (ok_or o e).
Proof. intros He w. destruct o; [done|]. intros [= ?]. by eapply He. Qed.
Lemma no_alloc_error_bind {A B} (m : sresult A) (k : A → sresult B) :
  no_alloc_error m → (∀ a, m = Ok a → no_alloc_error (k a)) → no_alloc_error (m ≫= k).
Proof. intros Hm Hk w. destruct m; simpl; [by apply Hk|]. intros [= ->]. by eapply Hm. Qed.
Lemma no_alloc_take n : no_alloc (Reader_take n).
Proof.
  intros r. unfold Reader_take.
  repeat (apply no_alloc_error_bind; [apply no_alloc_error_ok_or; done|intros]). done.
Qed.
Lemma no_alloc_uint (p : parser Z) n :
  p = (b ← read_array n; mret (le_combine b)) → no_alloc p.
Proof. intros ->. apply no_alloc_bind; [apply no_alloc_take|intros; apply no_alloc_ret]. Qed.
Lemma no_alloc_u8 : no_alloc read_u8. Proof. by eapply no_alloc_uint. Qed.
Lemma no_alloc_u16 : no_alloc read_u16. Proof. by eapply no_alloc_uint. Qed.
Lemma no_alloc_u32 : no_alloc read_u32. Proof. by eapply no_alloc_uint. Qed.
Lemma no_alloc_u64 : no_alloc read_u64. Proof. by eapply no_alloc_uint. Qed.
Lemma no_alloc_remaining : no_alloc remaining. Proof. by intros r w. Qed.
Lemma no_alloc_remainder : no_alloc remainder. Proof. by intros r w. Qed.
Lemma no_alloc_finish : no_alloc finish.
Proof. intros r w. unfold finish. by destruct (_ =? _). Qed.
Lemma no_alloc_run {A} (p : parser A) r : no_alloc p → no_alloc_error (run_reader p r).
Proof. intros Hp. apply no_alloc_error_bind; [apply Hp|]. by intros [] _ w. Qed.

#[export] Hint Resolve no_alloc_ret no_alloc_take no_alloc_u8 no_alloc_u16 no_alloc_u32
  no_alloc_u64 no_alloc_remaining no_alloc_remainder no_alloc_finish : howy.

(** Walks a reading function, leaving what is not structural. *)
Ltac no_alloc_steps :=
  repeat first
    [ solve [eauto with howy]
    | apply no_alloc_bind; [|intros ?]
    | apply no_alloc_guard; [done|]
    | apply no_alloc_lift; apply no_alloc_error_ok_or; done ].

(** Opens the description of what a decoder consumed. *)
Ltac consumed :=
  repeat match goal with
  | H : ∃ _, _ |- _ => destruct H as [? H]
  | H : _ ∧ _ |- _ => destruct H
  end; subst; breflect; subst.

(** Consumption of a decoder, backwards along its binds and guards. *)
Ltac consume_steps :=
  repeat first
    [ apply consumes_guard | apply consumes_all_guard
    | apply consumes_all_finish | apply consumes_all_remainder
    | first [ eapply consumes_bind | eapply consumes_all_bind ];
      [ first [ apply consumes_u8 | apply consumes_u16 | apply consumes_u32 | apply consumes_u64
              | apply consumes_remaining
              | apply consumes_lift | apply consumes_take; first [lia | consumed; lia] ]
      | let Hx := fresh "Hx" in intros ? ? Hx; cbn beta in Hx ]
    | apply consumes_lift | apply consumes_ret ].
