(* ===== verification/CodecPayload.v ===== *)
(** * The canonical payload: encoding and decoding are inverse *)

From S2P Require Import Prelude Bytes Storage Crypto Codec CodecReader.

(** ** Embeddings *)

Lemma le_split4_chunks z rest :
  chunks_exact4 (le32 z ++ rest) = le32 z :: chunks_exact4 rest.
Proof.
  assert (length (le32 z) = 4%nat) as Hl by apply length_le_split.
  destruct (le32 z) as [|b0 [|b1 [|b2 [|b3 [|]]]]]; done.
Qed.

Lemma decode_embedding_encode (emb : list Z) :
  Forall (in_u U32_MAX) emb → decode_embedding (concat (le32 <$> emb)) = emb.
Proof.
  unfold decode_embedding. induction 1 as [|z emb Hz _ IH]; [done|].
  cbn [fmap list_fmap concat]. rewrite le_split4_chunks. cbn [fmap list_fmap].
  f_equal; [|done]. apply le_combine_le_split_small. unfold_max. simpl. lia.
Qed.

Lemma encode_decode_embedding (n : nat) (b : bytes) :
  length b = (4 * n)%nat →
  concat (le32 <$> decode_embedding b) = b ∧ length (decode_embedding b) = n ∧
  Forall (in_u U32_MAX) (decode_embedding b).
Proof.
  unfold decode_embedding. revert b.
  induction n as [|n IH]; intros b Hb.
  { destruct b; [|done]. split_and!; [done|done|constructor]. }
  destruct b as [|b0 [|b1 [|b2 [|b3 b]]]]; simpl in Hb; try lia.
  destruct (IH b) as (IH1 & IH2 & IH3); [lia|].
  cbn [chunks_exact4 fmap list_fmap concat].
  rewrite split_le_combine' by done. split_and!.
  - by rewrite IH1.
  - simpl. by rewrite IH2.
  - constructor; [|done].
    pose proof (le_combine_range 4 [b0; b1; b2; b3] eq_refl). unfold_max. simpl in *. lia.
Qed.

Lemma len_concat_le32 (emb : list Z) : len (concat (le32 <$> emb)) = 4 * len emb.
Proof.
  induction emb as [|z emb IH]; [done|].
  cbn [fmap list_fmap concat]. autorewrite with howy_len. lia.
Qed.

(** ** One entry *)

Lemma entry_wf_validated e :
  entry_wf e →
  EnrollmentEntry_new (enrollment_id e) (created_unix_seconds e) (label e) (embedding e) = Ok e.
Proof.
  intros (_ & Hl & Hf). apply EnrollmentEntry_new_Ok. by destruct e.
Qed.

Lemma len_encode_entry e :
  entry_wf e → len (encode_entry e) = CANONICAL_ENTRY_FIXED_BYTES + len (label e).
Proof.
  intros ((Hid & _ & _ & _ & Hemb & _) & _ & _). unfold encode_entry.
  autorewrite with howy_len. rewrite len_concat_le32, Hemb.
  unfold CANONICAL_ENTRY_FIXED_BYTES, EMBEDDING_DIMENSION, len. rewrite Hid. lia.
Qed.

Lemma existsb_id_false (acc : list EnrollmentEntry) id :
  existsb (λ entry, bool_decide (enrollment_id entry = id)) acc = false ↔ id ∉ entry_ids acc.
Proof.
  rewrite <- (not_true_iff_false), existsb_exists. unfold entry_ids.
  setoid_rewrite bool_decide_eq_true. setoid_rewrite <- list_elem_of_In.
  rewrite list_elem_of_fmap. naive_solver.
Qed.

Lemma parses_decode_entry acc e :
  entry_wf e → enrollment_id e ∉ entry_ids acc → parses (decode_entry acc) (encode_entry e) e.
Proof.
  intros Hwf Hfresh. pose proof Hwf as ((Hid & Hnz & Ht & Hutf & Hemb & Hbits) & Hl & Hf).
  pose proof (len_nonneg (label e)).
  unfold decode_entry, encode_entry, MAX_LABEL_BYTES, EMBEDDING_DIMENSION in *.
  eapply parses_bind; [apply parses_take; unfold len; by rewrite Hid|].
  eapply parses_bind_lift.
  { unfold EnrollmentId_new. by rewrite bool_decide_eq_false_2. }
  apply parses_guard.
  { apply existsb_id_false. by destruct (enrollment_id e). }
  eapply parses_bind; [by apply parses_u64|].
  eapply parses_bind; [apply parses_u16; unfold_max; lia|].
  apply parses_guard; [lia|].
  eapply parses_bind; [apply (parses_u16 0); unfold_max; lia|].
  apply parses_guard; [done|].
  eapply parses_bind; [by apply parses_take|].
  apply parses_guard; [by rewrite Hutf|].
  eapply parses_bind_last; [apply parses_take; rewrite len_concat_le32; lia|].
  rewrite decode_embedding_encode by done. apply parses_lift.
  pose proof (entry_wf_validated e Hwf) as He. by destruct (enrollment_id e).
Qed.

Lemma consumes_decode_entry acc :
  consumes (decode_entry acc)
    (λ e x, x = encode_entry e ∧ entry_wf e ∧ enrollment_id e ∉ entry_ids acc).
Proof.
  eapply consumes_mono.
  { unfold decode_entry, read_array, EMBEDDING_DIMENSION. consume_steps. }
  intros e z H. simpl in H.
  consumed.
  rename select (EnrollmentEntry_new _ _ _ _ = Ok e) into He.
  rename select (EnrollmentId_new _ = _) into Hid.
  rename select (existsb _ _ = false) into Hex. apply existsb_id_false in Hex.
  rename select (len _ = 16) into Hl16. rename select (len _ = 512 * 4) into Hl.
  apply EnrollmentEntry_new_Ok in He as (-> & Hlab & Hfin).
  unfold EnrollmentId_new in Hid. case_bool_decide as Hz; [done|]. injection Hid as <-.
  match goal with Hx : len ?y = 512 * 4 |- _ =>
    destruct (encode_decode_embedding 512 y) as (Henc & Hlen & Hbits); [unfold len in Hx; lia|] end.
  unfold entry_wf. split_and!; simpl; try done.
  - unfold encode_entry; simpl. by rewrite Henc, app_nil_r.
  - unfold entry_typed; simpl. unfold len in *. split_and!; try done;
      unfold in_u, EMBEDDING_DIMENSION; lia.
Qed.

(** ** The entry loop *)

Lemma parses_decode_entries es acc :
  Forall entry_wf es → NoDup (entry_ids (acc ++ es)) →
  parses (decode_entries (length es) acc) (concat (encode_entry <$> es)) (acc ++ es).
Proof.
  intros Hwf. revert acc. induction Hwf as [|e es He _ IH]; intros acc Hnd.
  { rewrite app_nil_r. apply parses_ret. }
  cbn [length decode_entries fmap list_fmap concat].
  eapply parses_bind.
  - apply parses_decode_entry; [done|].
    unfold entry_ids in Hnd. rewrite fmap_app, NoDup_app in Hnd.
    destruct Hnd as (_ & Hdis & _). intros Hin. apply (Hdis _ Hin). left.
  - replace (acc ++ e :: es) with ((acc ++ [e]) ++ es) in * by (by rewrite <- app_assoc).
    by apply IH.
Qed.

Lemma consumes_decode_entries n acc :
  NoDup (entry_ids acc) →
  consumes (decode_entries n acc)
    (λ es x, ∃ new, es = acc ++ new ∧ length new = n ∧ x = concat (encode_entry <$> new) ∧
       Forall entry_wf new ∧ NoDup (entry_ids es)).
Proof.
  revert acc. induction n as [|n IH]; intros acc Hnd; cbn [decode_entries].
  { eapply consumes_mono; [apply consumes_ret|]. intros es x [-> ->].
    exists []. rewrite app_nil_r. split_and!; try done; constructor. }
  eapply consumes_mono.
  { eapply consumes_bind; [apply consumes_decode_entry|].
    intros e x (Hx & He & Hfresh). cbn beta. apply IH.
    unfold entry_ids in *. rewrite fmap_app. apply NoDup_app.
    split_and!; [done| |apply NoDup_singleton].
    intros i Hi ->%list_elem_of_singleton. done. }
  intros es x (e & x1 & x2 & -> & (-> & He & _) & new & -> & <- & -> & Hwf & Hnd').
  exists (e :: new). rewrite <- app_assoc in *. split_and!; try done. by constructor.
Qed.

(** ** Payload lengths *)

Definition labels_len (es : list EnrollmentEntry) : Z := foldr (λ e n, len (label e) + n) 0 es.

Definition payload_len (es : list EnrollmentEntry) : Z :=
  CANONICAL_PAYLOAD_FIXED_BYTES + len es * CANONICAL_ENTRY_FIXED_BYTES + labels_len es.

Lemma labels_len_bound es :
  Forall entry_wf es → 0 ≤ labels_len es ≤ len es * MAX_LABEL_BYTES.
Proof.
  induction 1 as [|e es (_ & He & _) _ IH]; [done|].
  unfold labels_len in *. simpl. rewrite len_cons. pose proof (len_nonneg (label e)). lia.
Qed.

Lemma len_encode_entries es :
  Forall entry_wf es →
  len (concat (encode_entry <$> es)) = len es * CANONICAL_ENTRY_FIXED_BYTES + labels_len es.
Proof.
  induction 1 as [|e es He _ IH]; [done|].
  cbn [fmap list_fmap concat]. rewrite len_app, len_encode_entry, IH by done.
  rewrite len_cons. unfold labels_len. simpl. lia.
Qed.

(** Every well-formed record fits the frozen plaintext limit. *)
Lemma payload_len_fits es :
  Forall entry_wf es → len es ≤ MAX_ENTRIES → 8 ≤ payload_len es ≤ MAX_PLAINTEXT_BYTES.
Proof.
  intros Hwf Hlen. pose proof (labels_len_bound es Hwf). pose proof (len_nonneg es).
  unfold payload_len, MAX_PLAINTEXT_BYTES, CANONICAL_PAYLOAD_FIXED_BYTES,
    CANONICAL_ENTRY_FIXED_BYTES, EMBEDDING_DIMENSION, MAX_ENTRIES, MAX_LABEL_BYTES in *. lia.
Qed.

Lemma payload_length_from_wf n es :
  Forall entry_wf es → 0 ≤ n →
  n + len es * (CANONICAL_ENTRY_FIXED_BYTES + MAX_LABEL_BYTES) ≤ U64_MAX →
  payload_length_from n es = Ok (n + len es * CANONICAL_ENTRY_FIXED_BYTES + labels_len es).
Proof.
  intros Hwf. revert n. induction Hwf as [|e es (Ht & Hl & Hf) Hes IH]; intros n Hn Hb.
  { simpl. f_equal. unfold labels_len, len; simpl. lia. }
  rewrite len_cons in *. pose proof (len_nonneg es). pose proof (len_nonneg (label e)).
  unfold CANONICAL_ENTRY_FIXED_BYTES, EMBEDDING_DIMENSION, MAX_LABEL_BYTES in *.
  cbn [payload_length_from]. unfold MAX_LABEL_BYTES, CANONICAL_ENTRY_FIXED_BYTES, EMBEDDING_DIMENSION.
  destruct (Z.ltb_spec 256 (len (label e))); [lia|].
  rewrite (proj2 (existsb_finite_false _) Hf).
  unfold checked_add. destruct (Z.leb_spec (n + (16 + 8 + 2 + 2 + 512 * 4)) U64_MAX); [|lia].
  cbn [mbind option_bind]. destruct (Z.leb_spec (n + (16 + 8 + 2 + 2 + 512 * 4) + len (label e)) U64_MAX); [|lia].
  simpl. rewrite IH by lia. unfold labels_len. simpl. f_equal. lia.
Qed.

Definition payload_bytes (es : list EnrollmentEntry) : bytes :=
  le16 PAYLOAD_VERSION ++ le16 0 ++ le32 (len es) ++ concat (encode_entry <$> es).

Lemma len_payload_bytes es : Forall entry_wf es → len (payload_bytes es) = payload_len es.
Proof.
  intros Hwf. unfold payload_bytes, payload_len. autorewrite with howy_len.
  rewrite len_encode_entries by done. unfold CANONICAL_PAYLOAD_FIXED_BYTES. lia.
Qed.

Lemma encode_canonical_payload_wf alloc r :
  record_wf r →
  encode_canonical_payload alloc r =
    if alloc "canonical payload"%string (payload_len (entries r))
    then Ok (payload_bytes (entries r)) else Err (AllocationFailed "canonical payload").
Proof.
  intros (_ & _ & _ & Hmax & _ & Hwf). unfold encode_canonical_payload.
  pose proof (payload_len_fits _ Hwf Hmax) as Hfit. pose proof (len_nonneg (entries r)).
  unfold try_from_u. destruct (Z.leb_spec (len (entries r)) U32_MAX);
    [|unfold_max; unfold MAX_ENTRIES in *; lia].
  simpl. rewrite payload_length_from_wf; [| done | done |].
  2:{ unfold_max. unfold CANONICAL_PAYLOAD_FIXED_BYTES, CANONICAL_ENTRY_FIXED_BYTES,
        EMBEDDING_DIMENSION, MAX_LABEL_BYTES, MAX_ENTRIES in *. lia. }
  simpl. fold (payload_len (entries r)).
  destruct (Z.ltb_spec MAX_PLAINTEXT_BYTES (payload_len (entries r))); [lia|].
  by destruct (alloc _ _).
Qed.

(** ** The whole payload *)

Lemma parses_decode_payload alloc es expected :
  Forall entry_wf es → NoDup (entry_ids es) → len es ≤ MAX_ENTRIES →
  alloc "payload entries"%string (len es) = true →
  (∀ e, expected = Some e → e = len es) →
  parses_all (decode_payload_reader alloc expected) (payload_bytes es) es.
Proof.
  intros Hwf Hnd Hmax Halloc Hexp. pose proof (len_nonneg es).
  pose proof (len_encode_entries es Hwf) as Hlen. pose proof (labels_len_bound es Hwf).
  unfold decode_payload_reader, payload_bytes, PAYLOAD_VERSION, MAX_ENTRIES in *.
  eapply parses_all_bind; [by apply parses_u16|]. apply parses_all_guard; [done|].
  eapply parses_all_bind; [by apply parses_u16|]. apply parses_all_guard; [done|].
  eapply parses_all_bind; [apply parses_u32; unfold_max; lia|].
  apply parses_all_guard.
  { destruct expected as [e|]; [|done]. by rewrite (Hexp e eq_refl), Z.eqb_refl. }
  apply parses_all_guard; [lia|].
  eapply parses_all_lift.
  { apply ok_or_Ok, checked_mul_Some. split; [done|].
    unfold_max. unfold CANONICAL_ENTRY_FIXED_BYTES, EMBEDDING_DIMENSION. lia. }
  apply parses_all_remaining. apply parses_all_guard; [lia|].
  apply parses_all_guard; [by rewrite Halloc|].
  rewrite <- (app_nil_r (concat _)). eapply parses_all_bind.
  { unfold len. rewrite Nat2Z.id. by apply (parses_decode_entries es []). }
  apply parses_all_finish, parses_all_ret.
Qed.

Lemma decode_payload_encode alloc es expected :
  Forall entry_wf es → NoDup (entry_ids es) → len es ≤ MAX_ENTRIES →
  alloc "payload entries"%string (len es) = true →
  (∀ e, expected = Some e → e = len es) →
  decode_payload_with_expected_count alloc (payload_bytes es) expected = Ok es.
Proof.
  intros Hwf Hnd Hmax Halloc Hexp.
  pose proof (payload_len_fits _ Hwf Hmax) as Hfit. pose proof (len_payload_bytes es Hwf) as Hlen.
  unfold decode_payload_with_expected_count. rewrite Hlen.
  destruct (Z.ltb_spec MAX_PLAINTEXT_BYTES (payload_len es)); [lia|].
  apply run_parses_all; [by apply parses_decode_payload|].
  rewrite Hlen. unfold_max. unfold MAX_PLAINTEXT_BYTES in *. lia.
Qed.

(** What a successful decode read is the encoding of what it returned. *)
Lemma decode_payload_canonical alloc b expected es :
  decode_payload_with_expected_count alloc b expected = Ok es →
  b = payload_bytes es ∧ Forall entry_wf es ∧ NoDup (entry_ids es) ∧ len es ≤ MAX_ENTRIES ∧
  (∀ e, expected = Some e → e = len es).
Proof.
  unfold decode_payload_with_expected_count. intros Hd. inv_ok. breflect.
  eapply run_consumes_all in Hd.
  2:{ eapply consumes_all_mono.
      - unfold decode_payload_reader. consume_steps.
        eapply consumes_all_bind; [apply consumes_decode_entries; constructor|].
        intros ? ? Hy. cbn beta in Hy. consume_steps.
      - intros es' x H. exact H. }
  cbn beta in Hd. consumed.
  rename select (length _ = Z.to_nat _) into Hn. simpl in *.
  repeat match goal with H : checked_mul _ _ = Some _ |- _ => clear H end.
  match goal with H : length ?l = Z.to_nat ?n |- _ =>
    assert (n = len l) as -> by (unfold len; lia) end.
  unfold payload_bytes. rewrite ?app_nil_r. split_and!; try done.
  intros e ->. by breflect.
Qed.
