(* ===== verification/CodecPlain.v ===== *)
(** * HOWYPLN1: round trip, canonicity, limits and metadata inspection *)

From S2P Require Import Prelude Bytes Storage Crypto Codec CodecReader CodecPayload.

(** ** The header *)

Definition pln1_header (gen : Z) (model : ModelDigest) (user : CanonicalUsername) : bytes :=
  HOWYPLN1_MAGIC ++ le16 FORMAT_VERSION ++ le16 0 ++ le64 gen
  ++ digest_bytes model ++ le16 (len (user_bytes user)) ++ user_bytes user.

Definition header_wf (gen : Z) (model : ModelDigest) (user : CanonicalUsername) : Prop :=
  1 ≤ gen ≤ U64_MAX ∧ length (digest_bytes model) = 32%nat ∧ username_wf user.

Lemma record_header_wf r :
  record_wf r → header_wf (generation r) (recognizer_model_sha256 r) (username r).
Proof. by intros (?&?&?&_). Qed.

Lemma len_pln1_header gen model user :
  header_wf gen model user →
  len (pln1_header gen model user) = HOWYPLN1_FIXED_HEADER + len (user_bytes user).
Proof.
  intros (_ & Hm & _). unfold pln1_header, HOWYPLN1_FIXED_HEADER.
  autorewrite with howy_len. assert (len (digest_bytes model) = 32) as -> by (unfold len; lia).
  change (len HOWYPLN1_MAGIC) with 8. lia.
Qed.

Lemma parses_username (u : CanonicalUsername) :
  username_wf u →
  contains 1 64 (len (user_bytes u)) = true ∧ 0 ≤ len (user_bytes u) ≤ U16_MAX ∧
  utf8_valid (user_bytes u) = true ∧ CanonicalUsername_new (user_bytes u) = Ok u.
Proof.
  intros Hu. pose proof (username_wf_len u Hu). split_and!.
  - by apply contains_true.
  - lia.
  - unfold_max. lia.
  - by apply username_wf_ascii.
  - apply CanonicalUsername_new_Ok. by destruct u.
Qed.

Lemma parses_pln1_header gen model user :
  header_wf gen model user →
  parses (read_howypln1_header user model) (pln1_header gen model user) (gen, model, user).
Proof.
  intros (Hg & Hm & Hu). destruct (parses_username _ Hu) as (Hc & Hr & Hutf & Hnew).
  unfold read_howypln1_header, pln1_header.
  eapply parses_bind; [by apply parses_take|]. apply parses_guard; [done|].
  eapply parses_bind; [by apply parses_u16|]. apply parses_guard; [done|].
  eapply parses_bind; [by apply parses_u16|]. apply parses_guard; [done|].
  eapply parses_bind; [apply parses_u64; lia|]. apply parses_guard; [lia|].
  eapply parses_bind; [apply parses_take; unfold len; by rewrite Hm|].
  eapply parses_bind; [by apply parses_u16|]. apply parses_guard; [by rewrite Hc|].
  eapply parses_bind_last; [by apply parses_take|]. apply parses_guard; [by rewrite Hutf|].
  eapply parses_bind_lift; [done|].
  apply parses_guard; [by rewrite bool_decide_eq_true_2|].
  apply parses_guard; [by rewrite bool_decide_eq_true_2 by (by destruct model)|].
  destruct model. apply parses_ret.
Qed.

Lemma consumes_pln1_header user model :
  consumes (read_howypln1_header user model)
    (λ h x, ∃ gen, h = (gen, model, user) ∧ x = pln1_header gen model user ∧
       header_wf gen model user).
Proof.
  eapply consumes_mono.
  { unfold read_howypln1_header, read_array. consume_steps. }
  intros h z H. cbn beta in H. consumed.
  rename select (CanonicalUsername_new _ = _) into Hu.
  apply CanonicalUsername_new_Ok in Hu as [-> Hu].
  rename select Z into gen. unfold pln1_header, header_wf; simpl. unfold len in *.
  eexists; split_and!; try done.
  all: try (by rewrite !app_nil_r); try lia.
Qed.

(** ** Encoding *)

Lemma encode_howypln1_wf alloc r :
  record_wf r →
  encode_howypln1 alloc r =
    if negb (alloc "canonical payload"%string (payload_len (entries r)))
    then Err (AllocationFailed "canonical payload")
    else if negb (alloc "HOWYPLN1 record"%string
           (HOWYPLN1_FIXED_HEADER + len (user_bytes (username r)) + payload_len (entries r)))
    then Err (AllocationFailed "HOWYPLN1 record")
    else Ok (pln1_header (generation r) (recognizer_model_sha256 r) (username r)
             ++ payload_bytes (entries r)).
Proof.
  intros Hwf. pose proof Hwf as (_ & _ & Hu & Hmax & _ & Hes).
  pose proof (payload_len_fits _ Hes Hmax). pose proof (username_wf_len _ Hu).
  unfold encode_howypln1. rewrite encode_canonical_payload_wf by done.
  destruct (alloc "canonical payload"%string _); [|done]. cbn [mbind result_bind negb].
  rewrite len_payload_bytes by done. unfold HOWYPLN1_FIXED_HEADER, MAX_PLAINTEXT_BYTES in *.
  unfold checked_add.
  destruct (Z.leb_spec (54 + len (user_bytes (username r))) U64_MAX); [|unfold_max; lia].
  cbn [mbind option_bind].
  destruct (Z.leb_spec (54 + len (user_bytes (username r)) + payload_len (entries r)) U64_MAX);
    [|unfold_max; lia].
  cbn [ok_or mbind result_bind]. destruct (alloc "HOWYPLN1 record"%string _); [|done].
  unfold pln1_header. by rewrite <- !app_assoc.
Qed.

Lemma encode_howypln1_Ok alloc r b :
  record_wf r → encode_howypln1 alloc r = Ok b →
  b = pln1_header (generation r) (recognizer_model_sha256 r) (username r)
      ++ payload_bytes (entries r).
Proof.
  intros Hwf. rewrite encode_howypln1_wf by done.
  destruct (alloc _ _); [|done]. cbn [negb]. destruct (alloc _ _); [|done]. by intros [= <-].
Qed.

Lemma len_howypln1 r :
  record_wf r →
  len (pln1_header (generation r) (recognizer_model_sha256 r) (username r)
       ++ payload_bytes (entries r))
  = HOWYPLN1_FIXED_HEADER + len (user_bytes (username r)) + payload_len (entries r).
Proof.
  intros Hwf. rewrite len_app, len_pln1_header by (by apply record_header_wf).
  rewrite len_payload_bytes; [done|]. by destruct Hwf as (_&_&_&_&_&?).
Qed.

(** Every well-formed record is encodable: under any allocator that grants
    requests up to the frozen record bound, [encode_howypln1] returns bytes, of
    at most that bound. No limit check, overflow check or label check of the
    encoder can reject a record the constructors accepted. *)
Theorem encode_howypln1_total alloc r :
  record_wf r →
  grants (HOWYPLN1_FIXED_HEADER + 64 + MAX_PLAINTEXT_BYTES) alloc →
  ∃ b, encode_howypln1 alloc r = Ok b ∧
       len b ≤ HOWYPLN1_FIXED_HEADER + 64 + MAX_PLAINTEXT_BYTES.
Proof.
  intros Hwf Hg. pose proof Hwf as (_ & _ & Hu & Hmax & _ & Hes).
  pose proof (payload_len_fits _ Hes Hmax). pose proof (username_wf_len _ Hu).
  rewrite encode_howypln1_wf by done.
  unfold HOWYPLN1_FIXED_HEADER, MAX_PLAINTEXT_BYTES in *.
  rewrite !Hg by lia. eexists; split; [done|]. rewrite len_howypln1 by done.
  unfold HOWYPLN1_FIXED_HEADER. lia.
Qed.

(** The bytes of a record decode to it. *)
Lemma decode_howypln1_bytes alloc r :
  record_wf r → alloc "payload entries"%string (len (entries r)) = true →
  decode_howypln1 alloc
    (pln1_header (generation r) (recognizer_model_sha256 r) (username r) ++ payload_bytes (entries r))
    (username r) (recognizer_model_sha256 r) = Ok r.
Proof.
  intros Hwf Hg. pose proof Hwf as (Hgen & Hm & Hu & Hmax & Hnd & Hes).
  pose proof (payload_len_fits _ Hes Hmax). pose proof (username_wf_len _ Hu).
  unfold decode_howypln1. erewrite run_parses_all; cycle 1.
  { eapply parses_all_bind; [by apply parses_pln1_header, record_header_wf|].
    apply parses_all_remainder, parses_all_ret. }
  { rewrite len_howypln1 by done. unfold_max. unfold HOWYPLN1_FIXED_HEADER, MAX_PLAINTEXT_BYTES in *. lia. }
  cbn [mbind result_bind]. unfold decode_canonical_payload.
  rewrite decode_payload_encode by done. cbn [mbind result_bind].
  apply EnrollmentRecord_new_Ok. split_and!; [by destruct r|lia|done|done].
Qed.


(** What the decoder accepted, before re-encoding. *)
Lemma howypln1_decoded alloc b user model r :
  decode_howypln1 alloc b user model = Ok r →
  record_wf r ∧ username r = user ∧ recognizer_model_sha256 r = model ∧
  b = pln1_header (generation r) (recognizer_model_sha256 r) (username r)
      ++ payload_bytes (entries r).
Proof.
  intros Hd. unfold decode_howypln1 in Hd. apply bind_Ok in Hd as ([[[gen m'] u'] rest] & Hh & Hd).
  eapply run_consumes_all in Hh.
  2:{ eapply consumes_all_bind; [apply consumes_pln1_header|].
      intros h x _. apply consumes_all_remainder. }
  destruct Hh as (h & x & y & -> & (gen' & -> & -> & Hwf) & [= -> -> -> ->]).
  inv_ok. rename select (decode_canonical_payload _ _ = _) into Hp.
  apply decode_payload_canonical in Hp as (-> & Hes & Hnd & Hmax & _).
  apply EnrollmentRecord_new_Ok in Hd as (-> & _ & _ & _).
  by destruct Hwf as (Hgen & Hm & Hu).
Qed.

(** The HOWYPLN1 decoder accepts exactly canonical encodings: bytes it
    accepts are the encoding of the record it returns, the record is well
    formed and bound to the expected username and model. No two byte strings
    decode to the same record, and nothing trails the payload. *)
Theorem howypln1_canonical alloc alloc' b user model r :
  decode_howypln1 alloc b user model = Ok r → grants (len b) alloc' →
  record_wf r ∧ username r = user ∧ recognizer_model_sha256 r = model ∧
  encode_howypln1 alloc' r = Ok b.
Proof.
  intros Hd Hg. apply howypln1_decoded in Hd as (Hr & <- & <- & ->).
  split_and!; [done..|]. rewrite encode_howypln1_wf by done.
  rewrite len_howypln1 in Hg by done. pose proof Hr as (_ & _ & Hu & _).
  pose proof (username_wf_len _ Hu). unfold HOWYPLN1_FIXED_HEADER in *.
  by rewrite !Hg by lia.
Qed.

(** ** Bounded allocation *)

Lemma no_alloc_decode_entries n acc : no_alloc (decode_entries n acc).
Proof.
  revert acc. induction n as [|n IH]; intros acc; cbn [decode_entries]; [apply no_alloc_ret|].
  apply no_alloc_bind; [|intros; apply IH]. unfold decode_entry, read_array. no_alloc_steps.
  all: apply no_alloc_lift; intros w.
  - unfold EnrollmentId_new. by case_bool_decide.
  - unfold EnrollmentEntry_new. by repeat (case_match; [done|]).
Qed.

(** The payload decoder asks for at most [MAX_ENTRIES] entries. *)
Lemma no_alloc_decode_payload alloc b expected :
  grants MAX_ENTRIES alloc →
  no_alloc_error (decode_payload_with_expected_count alloc b expected).
Proof.
  intros Hg w. unfold decode_payload_with_expected_count.
  destruct (_ <? _); [done|]. apply no_alloc_run. unfold decode_payload_reader.
  do 2 (apply no_alloc_bind; [by auto with howy|intros ?]; apply no_alloc_guard; [done|]).
  apply no_alloc_bind; [by auto with howy|intros n]. apply no_alloc_guard; [done|].
  destruct (Z.ltb_spec MAX_ENTRIES n) as [|Hn]; [by intros ??|].
  rewrite (Hg _ _ Hn). no_alloc_steps. apply no_alloc_decode_entries.
Qed.

(** Whatever bytes it is given, the HOWYPLN1 decoder requests no more than
    [MAX_ENTRIES] entries: an allocator that grants that much never makes it
    fail with an allocation error. *)
Theorem decode_howypln1_bounded_allocation alloc b user model w :
  grants MAX_ENTRIES alloc →
  decode_howypln1 alloc b user model ≠ Err (AllocationFailed w).
Proof.
  intros Hg. revert w. change (no_alloc_error (decode_howypln1 alloc b user model)).
  unfold decode_howypln1. apply no_alloc_error_bind.
  { apply no_alloc_run. unfold read_howypln1_header, read_array. no_alloc_steps.
    apply no_alloc_lift. intros w. unfold CanonicalUsername_new. by case_match. }
  intros [[[gen m] u] rest] _. apply no_alloc_error_bind; [by apply no_alloc_decode_payload|].
  intros es _ w. unfold EnrollmentRecord_new, from_boxed_entries.
  by repeat (case_match; [done|]).
Qed.

(** ** Metadata inspection *)

(** The prefix [inspect_howypln1_metadata] is given: the header and the fixed
    part of the payload. *)
Definition pln1_metadata_length (user : CanonicalUsername) : Z :=
  HOWYPLN1_FIXED_HEADER + len (user_bytes user) + CANONICAL_PAYLOAD_FIXED_BYTES.

Lemma take_howypln1 gen model user es :
  header_wf gen model user →
  take (Z.to_nat (pln1_metadata_length user)) (pln1_header gen model user ++ payload_bytes es)
  = pln1_header gen model user ++ le16 PAYLOAD_VERSION ++ le16 0 ++ le32 (len es).
Proof.
  intros Hwf. unfold payload_bytes. rewrite !(app_assoc _ _ (concat _)).
  apply take_app_length'. unfold pln1_metadata_length. rewrite <- (len_pln1_header gen model) by done.
  unfold CANONICAL_PAYLOAD_FIXED_BYTES. unfold len at 1.
  rewrite !length_app, !length_le_split. lia.
Qed.

(** Inspecting the metadata prefix of a record agrees with decoding the whole
    record: on any source the decoder accepts, for any configured entry limit in
    range, the inspection of the prefix and the source's exact length reports the
    record's generation and entry count, and rejects exactly when the record has
    more entries than configured. *)
Theorem inspect_howypln1_agrees alloc b user model r max :
  decode_howypln1 alloc b user model = Ok r → 1 ≤ max ≤ MAX_ENTRIES →
  inspect_howypln1_metadata (take (Z.to_nat (pln1_metadata_length user)) b) (len b)
    user model max =
  if max <? len (entries r) then Err (LimitExceeded "entry count")
  else Ok (mkInspection (generation r) (len (entries r))).
Proof.
  intros Hd Hmax.
  destruct (howypln1_decoded alloc b user model r Hd) as (Hwf & <- & <- & ->).
  pose proof Hwf as (_ & _ & Hu & Hme & _ & Hes). pose proof (record_header_wf _ Hwf) as Hh.
  rewrite take_howypln1 by done. rewrite len_howypln1 by done.
  pose proof (username_wf_len _ Hu). pose proof (len_nonneg (entries r)).
  pose proof (labels_len_bound _ Hes).
  set (x := pln1_header _ _ _ ++ _).
  assert (len x = pln1_metadata_length (username r)) as Hlx.
  { subst x. rewrite len_app, len_pln1_header by done. done. }
  unfold inspect_howypln1_metadata. rewrite Hlx.
  unfold pln1_metadata_length, HOWYPLN1_MAX_INSPECTION_BYTES, HOWYPLN1_FIXED_HEADER,
    CANONICAL_PAYLOAD_FIXED_BYTES, MAX_ENTRIES in *.
  destruct ((max =? 0) || _) eqn:E1; [lia|].
  destruct (Z.ltb_spec (54 + 64 + 8) (54 + len (user_bytes (username r)) + 8)); [lia|].
  erewrite run_parses_all; cycle 1.
  { subst x. eapply parses_all_bind; [by apply parses_pln1_header|]. cbn iota beta.
    eapply parses_all_bind; [by apply parses_u16|]. apply parses_all_guard; [done|].
    eapply parses_all_bind; [by apply parses_u16|]. apply parses_all_guard; [done|].
    rewrite <- (app_nil_r (le32 _)).
    eapply parses_all_bind; [apply parses_u32; unfold_max; lia|].
    apply parses_all_finish, parses_all_ret. }
  { rewrite Hlx. unfold_max. lia. }
  cbn [mbind result_bind]. destruct (Z.ltb_spec max (len (entries r))); [done|].
  destruct (Z.ltb_spec 1000 (len (entries r))); [lia|]. cbn [orb].
  unfold checked_mul, checked_add, payload_len, CANONICAL_PAYLOAD_FIXED_BYTES,
    CANONICAL_ENTRY_FIXED_BYTES, EMBEDDING_DIMENSION, MAX_LABEL_BYTES in *.
  assert (∀ z, z ≤ 3000000 → z <=? U64_MAX = true) as Hsmall by (unfold_max; lia).
  repeat (rewrite Hsmall by lia; cbn [ok_or mbind result_bind]).
  match goal with |- context [contains ?a ?b ?c] =>
    assert (contains a b c = true) as -> by (apply contains_true; lia) end. done.
Qed.

(** ** Concrete instances *)

Definition unlimited : allocator := λ _ _, true.

Lemma unlimited_grants n : grants n unlimited.
Proof. done. Qed.

Definition sample_id : EnrollmentId := mkEnrollmentId (Byte.x01 :: zero_bytes 15).
Definition sample_entry : EnrollmentEntry :=
  mkEntry sample_id 1700000000 (bs "Front") (replicate 512 1065353216).
Definition sample_record : EnrollmentRecord :=
  mkRecord 7 (mkDigest (replicate 32 Byte.xab)) (mkUsername (bs "alice")) [sample_entry].

Lemma sample_entry_wf : entry_wf sample_entry.
Proof.
  unfold entry_wf, entry_typed. split_and!; try reflexivity; try discriminate.
  - split; vm_compute; discriminate.
  - apply Forall_replicate. unfold_max. lia.
  - apply Forall_replicate. reflexivity.
Qed.

Lemma sample_record_wf : record_wf sample_record.
Proof.
  unfold record_wf; simpl. split_and!; try done.
  - apply NoDup_singleton.
  - constructor; [apply sample_entry_wf|constructor].
Qed.

Definition sample_bytes : bytes :=
  Eval vm_compute in
    match encode_howypln1 unlimited sample_record with Ok b => b | Err _ => [] end.

Lemma sample_encoded : encode_howypln1 unlimited sample_record = Ok sample_bytes.
Proof. vm_compute. reflexivity. Qed.

Lemma sample_decoded :
  decode_howypln1 unlimited sample_bytes (username sample_record)
    (recognizer_model_sha256 sample_record) = Ok sample_record.
Proof. vm_compute. reflexivity. Qed.

Lemma encode_howypln1_total_witness :
  ∃ b, encode_howypln1 unlimited sample_record = Ok b ∧
       len b ≤ HOWYPLN1_FIXED_HEADER + 64 + MAX_PLAINTEXT_BYTES.
Proof. exact (encode_howypln1_total unlimited sample_record sample_record_wf (unlimited_grants _)). Defined.


Lemma howypln1_canonical_witness : encode_howypln1 unlimited sample_record = Ok sample_bytes.
Proof.
  exact (proj2 (proj2 (proj2 (howypln1_canonical unlimited unlimited sample_bytes
    (username sample_record) (recognizer_model_sha256 sample_record) sample_record
    sample_decoded (unlimited_grants _))))).
Defined.

Lemma decode_howypln1_bounded_allocation_witness :
  decode_howypln1 unlimited (bs "HOWYPLN1") (username sample_record)
    (recognizer_model_sha256 sample_record) ≠ Err (AllocationFailed "payload entries").
Proof. apply decode_howypln1_bounded_allocation. apply unlimited_grants. Defined.

Lemma inspect_howypln1_agrees_witness :
  inspect_howypln1_metadata
    (take (Z.to_nat (pln1_metadata_length (username sample_record))) sample_bytes)
    (len sample_bytes) (username sample_record) (recognizer_model_sha256 sample_record) 4
  = Ok (mkInspection 7 1).
Proof.
  rewrite (inspect_howypln1_agrees unlimited sample_bytes (username sample_record)
    (recognizer_model_sha256 sample_record) sample_record 4 sample_decoded);
    [reflexivity | unfold MAX_ENTRIES; lia].
Defined.
