(* ===== verification/CodecEncrypted.v ===== *)
(** * HOWYENC1: round trip, binding, limits and header inspection

    Stated for any AEAD that satisfies [AesGcmLaws]. *)

From S2P Require Import Prelude Bytes Storage Crypto Codec CodecReader CodecPayload CodecPlain.

(** ** The header *)

Definition enc1_header (h : EncryptedHeader) : bytes :=
  howyenc1_header_bytes (h_mode h) (h_key_epoch h) (h_record_generation h)
    (h_plaintext_length h) (h_entry_count h) (h_header_length h)
    (digest_bytes (h_model h)) (h_nonce h) (user_bytes (h_username h)).

Definition enc1_header_wf (h : EncryptedHeader) : Prop :=
  1 ≤ h_key_epoch h ≤ U64_MAX ∧
  header_wf (h_record_generation h) (h_model h) (h_username h) ∧
  0 ≤ h_entry_count h ≤ MAX_ENTRIES ∧
  CANONICAL_PAYLOAD_FIXED_BYTES + h_entry_count h * CANONICAL_ENTRY_FIXED_BYTES
    ≤ h_plaintext_length h ≤ MAX_PLAINTEXT_BYTES ∧
  len (h_nonce h) = 12 ∧
  h_header_length h = HOWYENC1_FIXED_HEADER + len (user_bytes (h_username h)).

Lemma len_enc1_header h : enc1_header_wf h → len (enc1_header h) = h_header_length h.
Proof.
  intros (_ & (_ & Hm & _) & _ & _ & Hn & ->). unfold enc1_header, howyenc1_header_bytes.
  autorewrite with howy_len. rewrite Hn.
  assert (len (digest_bytes (h_model h)) = 32) as -> by (unfold len; lia).
  change (len HOWYENC1_MAGIC) with 8. unfold HOWYENC1_FIXED_HEADER. lia.
Qed.

Lemma enc1_header_length_bound h : enc1_header_wf h → 89 ≤ h_header_length h ≤ 152.
Proof.
  intros (_ & (_ & _ & Hu) & _ & _ & _ & ->). pose proof (username_wf_len _ Hu).
  unfold HOWYENC1_FIXED_HEADER. lia.
Qed.

Lemma small_le z : z ≤ 10000000 → z <=? U64_MAX = true.
Proof. unfold_max. lia. Qed.

Lemma parses_enc1_header h exact :
  enc1_header_wf h → exact = h_header_length h + h_plaintext_length h + GCM_TAG_BYTES →
  parses (read_howyenc1_header exact) (enc1_header h) h.
Proof.
  intros Hwf ->. pose proof (enc1_header_length_bound h Hwf) as Hhl.
  destruct Hwf as (He & (Hg & Hm & Hu) & Hc & Hp & Hn & Hhdr).
  destruct (parses_username _ Hu) as (Hcu & Hr & Hutf & Hnew).
  unfold CANONICAL_PAYLOAD_FIXED_BYTES, CANONICAL_ENTRY_FIXED_BYTES, EMBEDDING_DIMENSION,
    MAX_PLAINTEXT_BYTES, MAX_ENTRIES in *.
  assert (len (digest_bytes (h_model h)) = 32) as Hm' by (unfold len; lia).
  unfold read_howyenc1_header, enc1_header, howyenc1_header_bytes.
  eapply parses_bind; [by apply parses_take|]. apply parses_guard; [done|].
  eapply parses_bind; [by apply parses_u16|]. apply parses_guard; [done|].
  eapply parses_bind; [by apply parses_u16|]. apply parses_guard; [done|].
  eapply parses_bind; [apply parses_u8; destruct (h_mode h); by unfold_max|].
  eapply parses_bind_lift; [apply storage_mode_try_from_identifier|].
  eapply parses_bind; [by apply parses_u8|]. apply parses_guard; [done|].
  eapply parses_bind; [apply parses_u16; unfold_max; lia|].
  eapply parses_bind; [apply parses_u64; lia|]. apply parses_guard; [lia|].
  eapply parses_bind; [apply parses_u64; lia|]. apply parses_guard; [lia|].
  eapply parses_bind; [apply parses_u32; unfold_max; lia|].
  apply parses_guard; [unfold MAX_PLAINTEXT_BYTES; lia|].
  eapply parses_bind; [apply parses_u32; unfold_max; lia|].
  apply parses_guard; [unfold MAX_ENTRIES; lia|].
  eapply parses_bind; [by apply parses_u16|]. apply parses_guard; [done|].
  eapply parses_bind; [by apply parses_u16|]. apply parses_guard; [by rewrite Hcu|].
  eapply parses_bind; [by apply parses_take|].
  eapply parses_bind; [by apply parses_take|].
  unfold checked_add, checked_mul, GCM_TAG_BYTES, CANONICAL_PAYLOAD_FIXED_BYTES,
    CANONICAL_ENTRY_FIXED_BYTES, EMBEDDING_DIMENSION, HOWYENC1_FIXED_HEADER in *.
  eapply parses_bind_lift; [by rewrite small_le by lia|].
  apply parses_guard; [lia|].
  eapply parses_bind_lift; [rewrite small_le by lia; cbn [mbind option_bind];
    by rewrite small_le by lia|].
  apply parses_guard; [lia|].
  eapply parses_bind_lift; [by rewrite small_le by lia|].
  eapply parses_bind_lift; [by rewrite small_le by lia|].
  apply parses_guard; [lia|].
  eapply parses_bind_last; [by apply parses_take|]. apply parses_guard; [by rewrite Hutf|].
  eapply parses_bind_lift; [done|]. destruct h as [????? [] ???]. apply parses_ret.
Qed.

Lemma consumes_enc1_header exact :
  consumes (read_howyenc1_header exact)
    (λ h x, x = enc1_header h ∧ enc1_header_wf h ∧
       exact = h_header_length h + h_plaintext_length h + GCM_TAG_BYTES).
Proof.
  eapply consumes_mono.
  { unfold read_howyenc1_header, read_array. consume_steps. }
  intros h z H. cbn beta in H. consumed.
  rename select (storage_mode_try_from_u8 _ = _) into Hmode.
  apply storage_mode_try_from_u8_Ok in Hmode as ->.
  rename select (CanonicalUsername_new _ = _) into Hu.
  apply CanonicalUsername_new_Ok in Hu as [-> Hu].
  inv_ok. breflect. subst. simpl in *.
  unfold enc1_header, howyenc1_header_bytes, enc1_header_wf, header_wf; simpl.
  rewrite ?app_nil_r. unfold HOWYENC1_FIXED_HEADER, MAX_PLAINTEXT_BYTES in *.
  split_and!; try done; try lia.
  - unfold len in *. lia.
Qed.

(** ** Encoding *)

Section encrypted.
  Context `{AesGcmLaws}.

(** The header [encode_howyenc1_with_nonce] writes for a record. *)
Definition record_header (r : EnrollmentRecord) (mode : StorageMode) (epoch : Z) (nonce : bytes)
    : EncryptedHeader :=
  mkHeader mode epoch (generation r) (payload_len (entries r)) (len (entries r))
    (recognizer_model_sha256 r) nonce (username r)
    (HOWYENC1_FIXED_HEADER + len (user_bytes (username r))).

Lemma record_header_enc1_wf r mode epoch nonce :
  record_wf r → 1 ≤ epoch ≤ U64_MAX → len nonce = 12 →
  enc1_header_wf (record_header r mode epoch nonce).
Proof.
  intros Hwf He Hn. pose proof Hwf as (_ & _ & _ & Hmax & _ & Hes).
  pose proof (payload_len_fits _ Hes Hmax). pose proof (labels_len_bound _ Hes).
  pose proof (len_nonneg (entries r)).
  unfold enc1_header_wf, record_header; simpl.
  split_and!; try done; try lia; try by apply record_header_wf.
  unfold payload_len. lia.
Qed.

Lemma split_tag (c : bytes) n :
  len c = n + GCM_TAG_BYTES → 0 ≤ n →
  len (take (Z.to_nat n) c) = n ∧ len (drop (Z.to_nat n) c) = GCM_TAG_BYTES ∧
  c = take (Z.to_nat n) c ++ drop (Z.to_nat n) c.
Proof.
  unfold GCM_TAG_BYTES, len. intros Hc Hn.
  rewrite length_take, length_drop, take_drop. split_and!; [lia|lia|done].
Qed.

(** The encoder on a well-formed record: apart from the key check and the four
    reservations, it returns the header and the sealed payload. *)
Lemma encode_howyenc1_wf alloc r mode epoch key nonce :
  record_wf r → 1 ≤ epoch ≤ U64_MAX → len nonce = 12 → key_is_valid key = true →
  let h := record_header r mode epoch nonce in
  ∃ c, encrypt_in_place key nonce (enc1_header h) (payload_bytes (entries r)) = Some c ∧
    len c = payload_len (entries r) + GCM_TAG_BYTES ∧
    (grants (len (enc1_header h) + len c) alloc →
       encode_howyenc1_with_nonce alloc r mode epoch key nonce = Ok (enc1_header h ++ c)) ∧
    (∀ b, encode_howyenc1_with_nonce alloc r mode epoch key nonce = Ok b → b = enc1_header h ++ c).
Proof.
  intros Hwf He Hn Hk h. pose proof Hwf as (_ & _ & _ & Hmax & _ & Hes).
  pose proof (payload_len_fits _ Hes Hmax) as Hfit. pose proof (len_nonneg (entries r)).
  pose proof (record_header_enc1_wf r mode epoch nonce Hwf He Hn) as Hh.
  pose proof (len_enc1_header _ Hh) as Hlh. pose proof (enc1_header_length_bound _ Hh) as Hlb.
  fold h in Hh, Hlh, Hlb. unfold MAX_PLAINTEXT_BYTES, MAX_ENTRIES in *.
  destruct (encrypt_total key nonce (enc1_header h) (payload_bytes (entries r))) as [c Hc].
  { rewrite Hlh. unfold A_MAX. lia. }
  { rewrite len_payload_bytes by done. unfold P_MAX. lia. }
  pose proof (encrypt_length _ _ _ _ _ Hc) as Hlc. rewrite len_payload_bytes in Hlc by done.
  destruct (split_tag c _ Hlc) as (Htl & Hdl & Hsplit); [lia|].
  exists c. split_and!; [done|done|..].
  all: unfold encode_howyenc1_with_nonce, encrypt_aes_256_gcm, HOWYENC1_FIXED_HEADER;
    rewrite Hk; destruct (Z.eqb_spec epoch 0); [lia|]; rewrite encode_canonical_payload_wf by done.
  - intros Hg. rewrite Hlh, Hlc in Hg. unfold checked_add, checked_sub, GCM_TAG_BYTES in *.
    rewrite Hg by lia. cbn [mbind result_bind]. rewrite len_payload_bytes by done.
    unfold try_from_u.
    rewrite !(proj2 (Z.leb_le _ U32_MAX)) by (unfold_max; lia). cbn [ok_or mbind result_bind].
    change (h_header_length h) with (88 + len (user_bytes (username r))) in *.
    rewrite (small_le (88 + _)) by lia. cbn [ok_or mbind result_bind].
    rewrite (proj2 (Z.leb_le _ U16_MAX)) by (unfold_max; lia). cbn [ok_or mbind result_bind].
    rewrite Hg by lia. cbn [negb]. rewrite small_le by lia. cbn [ok_or mbind result_bind].
    rewrite Hg by lia. cbn [negb].
    change (howyenc1_header_bytes _ _ _ _ _ _ _ _ _) with (enc1_header h).
    rewrite Hc. cbn [ok_or mbind result_bind]. rewrite Hlc.
    rewrite (proj2 (Z.leb_le 16 _)) by lia. cbn [ok_or mbind result_bind].
    replace (payload_len (entries r) + 16 - 16) with (payload_len (entries r)) by lia.
    rewrite Hdl. cbn [negb Z.eqb Pos.eqb mbind result_bind]. rewrite Htl.
    rewrite small_le by lia. cbn [mbind option_bind]. rewrite small_le by lia.
    cbn [ok_or mbind result_bind]. rewrite Hg by lia. cbn [negb]. by rewrite take_drop.
  - intros b Hb. destruct (alloc _ _); [|done]. inv_ok. breflect. simplify_eq. rewrite len_payload_bytes in * by done.
    change (howyenc1_header_bytes _ _ _ _ _ _ _ _ _) with (enc1_header h) in *.
    inv_ok. simplify_eq. by rewrite take_drop.
Qed.

(** ** Decoding *)

Lemma slice_get_prefix (x y : bytes) : slice_get (x ++ y) 0 (len x) = Some x.
Proof. apply (slice_get_mid [] x y). Qed.

(** The two slices [decode_howyenc1] takes of what follows the header. *)
Lemma slice_get_sealed (x c : bytes) n :
  0 ≤ n ≤ len c →
  slice_get (x ++ c) (len x) (len x + n) = Some (take (Z.to_nat n) c) ∧
  slice_get (x ++ c) (len x + n) (len (x ++ c)) = Some (drop (Z.to_nat n) c).
Proof.
  intros Hn. pose proof (len_nonneg x). unfold slice_get. rewrite len_app.
  rewrite !(proj2 (Z.leb_le _ _)) by lia. cbn [andb].
  replace (len x + n - len x) with n by lia.
  replace (len x + len c - (len x + n)) with (len c - n) by lia.
  unfold len in *. rewrite Nat2Z.id, drop_app_length. split; [done|]. f_equal.
  replace (Z.to_nat (Z.of_nat (length x) + n)) with (length x + Z.to_nat n)%nat by lia.
  rewrite <- drop_drop, drop_app_length. apply take_ge. rewrite length_drop. lia.
Qed.

Lemma check_bindings_Ok h mode epoch user model u :
  check_bindings h mode epoch user model = Ok u ↔
    h_mode h = mode ∧ h_key_epoch h = epoch ∧ h_username h = user ∧ h_model h = model.
Proof.
  unfold check_bindings. destruct u.
  destruct (Z.eqb_spec (h_key_epoch h) epoch); repeat case_bool_decide; naive_solver.
Qed.

Lemma inspect_enc1 h rest :
  enc1_header_wf h → len rest = h_plaintext_length h + GCM_TAG_BYTES →
  inspect_howyenc1 (enc1_header h ++ rest) = Ok h.
Proof.
  intros Hwf Hr. pose proof (enc1_header_length_bound h Hwf) as Hb.
  pose proof (len_enc1_header h Hwf) as Hl. pose proof Hwf as (_ & _ & _ & Hp & _ & _).
  unfold MAX_PLAINTEXT_BYTES, GCM_TAG_BYTES in *.
  unfold inspect_howyenc1, inspect_howyenc1_header_prefix.
  assert (len (enc1_header h ++ rest) = h_header_length h + h_plaintext_length h + 16) as Hlen
    by (rewrite len_app; lia).
  unfold run_reader. change (Reader_new _ _) with (rd [] (enc1_header h ++ rest) "HOWYENC1").
  rewrite (parses_enc1_header h _ Hwf Hlen); [done|].
  rewrite len_nil. unfold_max. lia.
Qed.

Lemma inspect_enc1_Ok b exact h :
  inspect_howyenc1_header_prefix b exact = Ok h →
  ∃ rest, b = enc1_header h ++ rest ∧ enc1_header_wf h ∧
    exact = h_header_length h + h_plaintext_length h + GCM_TAG_BYTES.
Proof.
  unfold inspect_howyenc1_header_prefix, run_reader.
  change (Reader_new _ _) with (rd [] b "HOWYENC1"). intros Hi.
  apply bind_Ok in Hi as ([h' r] & Hp & [= ->]).
  apply consumes_enc1_header in Hp as (x & rest & -> & _ & -> & Hwf & Hlen). by exists rest.
Qed.

(** Decoding what was sealed under a well-formed header. *)
Lemma decode_sealed alloc key h es c :
  enc1_header_wf h → key_is_valid key = true →
  Forall entry_wf es → NoDup (entry_ids es) → len es ≤ MAX_ENTRIES →
  h_plaintext_length h = payload_len es → h_entry_count h = len es →
  encrypt_in_place key (h_nonce h) (enc1_header h) (payload_bytes es) = Some c →
  grants (MAX_PLAINTEXT_BYTES + GCM_TAG_BYTES) alloc →
  decode_howyenc1 alloc (enc1_header h ++ c) key (h_mode h) (h_key_epoch h) (h_username h)
    (h_model h) = Ok (mkRecord (h_record_generation h) (h_model h) (h_username h) es).
Proof.
  intros Hwf Hk Hes Hnd Hmax Hpl Hec Hc Hg.
  pose proof (enc1_header_length_bound h Hwf) as Hb. pose proof (len_enc1_header h Hwf) as Hl.
  pose proof (payload_len_fits _ Hes Hmax) as Hfit.
  pose proof (encrypt_length _ _ _ _ _ Hc) as Hlc. rewrite len_payload_bytes in Hlc by done.
  destruct (split_tag c _ Hlc) as (Htl & Hdl & Hsplit); [lia|].
  unfold MAX_PLAINTEXT_BYTES, MAX_ENTRIES, GCM_TAG_BYTES in *.
  unfold decode_howyenc1. rewrite inspect_enc1 by (done || unfold GCM_TAG_BYTES; lia).
  cbn [mbind result_bind]. rewrite (proj2 (check_bindings_Ok _ _ _ _ _ ()) ltac:(done)).
  cbn [mbind result_bind]. unfold checked_add. rewrite small_le by lia.
  cbn [ok_or mbind result_bind]. rewrite Hpl. rewrite <- Hl.
  destruct (slice_get_sealed (enc1_header h) c (payload_len es)) as [-> ->]; [lia|].
  cbn [ok_or mbind result_bind]. rewrite Hdl. cbn [negb Z.eqb Pos.eqb].
  rewrite slice_get_prefix. cbn [ok_or mbind result_bind].
  unfold decrypt_aes_256_gcm. rewrite Hk. cbn [negb]. rewrite Htl.
  unfold checked_add, GCM_TAG_BYTES. rewrite small_le by lia.
  cbn [ok_or mbind result_bind]. rewrite Hg by lia. cbn [negb].
  rewrite take_drop, (decrypt_encrypt _ _ _ _ _ Hc). cbn [ok_or mbind result_bind].
  rewrite len_payload_bytes, Z.eqb_refl by done. cbn [negb].
  rewrite decode_payload_encode; try done.
  - cbn [mbind result_bind]. apply EnrollmentRecord_new_Ok.
    destruct Hwf as (_ & (Hgen & _) & _). split_and!; try done. lia.
  - apply Hg. lia.
  - by intros e [= <-].
Qed.

Lemma decode_howyenc1_Ok alloc b key mode epoch user model r :
  decode_howyenc1 alloc b key mode epoch user model = Ok r →
  ∃ nonce c, len nonce = 12 ∧ key_is_valid key = true ∧ record_wf r ∧
    1 ≤ epoch ≤ U64_MAX ∧ username r = user ∧ recognizer_model_sha256 r = model ∧
    b = enc1_header (record_header r mode epoch nonce) ++ c ∧
    encrypt_in_place key nonce (enc1_header (record_header r mode epoch nonce))
      (payload_bytes (entries r)) = Some c.
Proof.
  unfold decode_howyenc1. intros Hd. apply bind_Ok in Hd as (h & Hi & Hd).
  apply inspect_enc1_Ok in Hi as (rest & -> & Hwf & Hlen).
  pose proof (len_enc1_header h Hwf) as Hl. pose proof (enc1_header_length_bound h Hwf) as Hb.
  apply bind_Ok in Hd as (u & (<- & <- & <- & <-)%check_bindings_Ok & Hd).
  pose proof Hwf as (He & (Hgen & Hm & Hu) & Hc & Hp & Hn & Hhl).
  rewrite len_app in Hlen. unfold CANONICAL_PAYLOAD_FIXED_BYTES, CANONICAL_ENTRY_FIXED_BYTES,
    EMBEDDING_DIMENSION, GCM_TAG_BYTES in *.
  inv_ok. breflect. subst. rewrite <- Hl in *.
  destruct (slice_get_sealed (enc1_header h) rest (h_plaintext_length h)) as [Hs1 Hs2]; [lia|].
  rewrite Hs1, Hs2, slice_get_prefix in *. inv_ok. subst.
  rename select (decrypt_aes_256_gcm _ _ _ _ _ _ = _) into Hdec.
  unfold decrypt_aes_256_gcm in Hdec. inv_ok. breflect. subst.
  rewrite take_drop in *. rename select (decrypt_in_place _ _ _ _ = _) into Hopen.
  apply encrypt_decrypt in Hopen.
  rename select (decode_payload_with_expected_count _ _ _ = _) into Hpay.
  apply decode_payload_canonical in Hpay as (-> & Hes & Hnd & Hmax & Hcount).
  specialize (Hcount _ eq_refl). rewrite len_payload_bytes in * by done.
  apply EnrollmentRecord_new_Ok in Hd as (-> & _ & _ & _).
  match type of Hopen with encrypt_in_place _ _ _ (payload_bytes ?es) = _ =>
    assert (record_header (mkRecord (h_record_generation h) (h_model h) (h_username h) es)
              (h_mode h) (h_key_epoch h) (h_nonce h) = h) as Hhead end.
  { unfold record_header; simpl. destruct h; simpl in *; congruence. }
  exists (h_nonce h), rest. rewrite Hhead. split_and!; done || lia.
Qed.

(** A HOWYENC1 record opens to what was sealed: decoding the encoder's bytes
    with the same key, mode, epoch, username and model returns the record. *)
Theorem howyenc1_roundtrip alloc_enc alloc_dec r mode epoch key nonce b :
  record_wf r → 1 ≤ epoch ≤ U64_MAX → len nonce = 12 → key_is_valid key = true →
  encode_howyenc1_with_nonce alloc_enc r mode epoch key nonce = Ok b →
  grants (MAX_PLAINTEXT_BYTES + GCM_TAG_BYTES) alloc_dec →
  decode_howyenc1 alloc_dec b key mode epoch (username r) (recognizer_model_sha256 r) = Ok r.
Proof.
  intros Hwf He Hn Hk Henc Hg. pose proof Hwf as (_ & _ & _ & Hmax & Hnd & Hes).
  destruct (encode_howyenc1_wf alloc_enc r mode epoch key nonce Hwf He Hn Hk)
    as (c & Hc & _ & _ & Hb). rewrite (Hb b Henc).
  pose proof (decode_sealed alloc_dec key (record_header r mode epoch nonce) (entries r) c
    (record_header_enc1_wf r mode epoch nonce Hwf He Hn) Hk Hes Hnd Hmax eq_refl eq_refl Hc Hg)
    as Hd. simpl in Hd. by destruct r.
Qed.

(** C4: The HOWYENC1 decoder accepts nothing but sealed records: if decoding under
    a key, mode, epoch, username and model succeeds, the bytes are exactly what
    the encoder writes for the returned (well-formed) record under that same key,
    mode and epoch with the nonce they carry. A record sealed for another user,
    model, mode or epoch, truncated, extended or otherwise altered is refused
    unless it is itself such an encoding. *)
Theorem howyenc1_authentic alloc alloc' b key mode epoch user model r :
  decode_howyenc1 alloc b key mode epoch user model = Ok r → grants (len b) alloc' →
  record_wf r ∧ username r = user ∧ recognizer_model_sha256 r = model ∧
  ∃ nonce, len nonce = 12 ∧ encode_howyenc1_with_nonce alloc' r mode epoch key nonce = Ok b.
Proof.
  intros Hd Hg. apply decode_howyenc1_Ok in Hd
    as (nonce & c & Hn & Hk & Hwf & He & Hu & Hm & -> & Hc).
  split_and!; [done..|]. exists nonce. split; [done|].
  destruct (encode_howyenc1_wf alloc' r mode epoch key nonce Hwf He Hn Hk)
    as (c' & Hc' & _ & Henc & _).
  rewrite Hc in Hc'. injection Hc' as <-. apply Henc. by rewrite len_app in Hg.
Qed.

(** Inspecting the header prefix of a sealed record agrees with opening it:
    the bounded metadata inspection of the header bytes and the exact source
    length returns the header the decoder used, and refuses exactly the records
    above the configured entry or plaintext limit. *)
Theorem inspect_howyenc1_agrees alloc b key mode epoch user model r max_entries max_plain :
  decode_howyenc1 alloc b key mode epoch user model = Ok r →
  1 ≤ max_entries ≤ MAX_ENTRIES → 1 ≤ max_plain ≤ MAX_PLAINTEXT_BYTES →
  ∃ header, inspect_howyenc1 b = Ok header ∧
    h_record_generation header = generation r ∧ h_entry_count header = len (entries r) ∧
    h_plaintext_length header = payload_len (entries r) ∧
    inspect_howyenc1_metadata (take (Z.to_nat (h_header_length header)) b) (len b) mode epoch
      user model max_entries max_plain =
    if max_entries <? len (entries r) then Err (LimitExceeded "entry count")
    else if max_plain <? payload_len (entries r) then Err (LimitExceeded "HOWYENC1 plaintext")
    else Ok header.
Proof.
  intros Hd Hme Hmp. apply decode_howyenc1_Ok in Hd
    as (nonce & c & Hn & Hk & Hwf & He & <- & <- & -> & Hc).
  pose proof (record_header_enc1_wf r mode epoch nonce Hwf He Hn) as Hh.
  set (h := record_header r mode epoch nonce) in *.
  pose proof (len_enc1_header h Hh) as Hl. pose proof (enc1_header_length_bound h Hh) as Hb.
  pose proof (encrypt_length _ _ _ _ _ Hc) as Hlc. pose proof Hwf as (_&_&_&_&_&Hes).
  rewrite len_payload_bytes in Hlc by done.
  exists h. split_and!; [by apply inspect_enc1|done..|].
  rewrite <- Hl. unfold len at 1. rewrite Nat2Z.id, take_app_length.
  unfold inspect_howyenc1_metadata.
  assert (contains HOWYENC1_FIXED_INSPECTION_BYTES HOWYENC1_MAX_INSPECTION_BYTES
    (len (enc1_header h)) = true) as ->.
  { apply contains_true. rewrite Hl. unfold HOWYENC1_FIXED_INSPECTION_BYTES,
      HOWYENC1_MAX_INSPECTION_BYTES, HOWYENC1_FIXED_HEADER. lia. }
  cbn [negb]. destruct ((max_entries =? 0) || _) eqn:E1; [lia|].
  destruct ((max_plain =? 0) || _) eqn:E2; [lia|].
  assert (inspect_howyenc1_header_prefix (enc1_header h) (len (enc1_header h ++ c)) = Ok h) as ->.
  { unfold inspect_howyenc1_header_prefix, run_reader.
    change (Reader_new _ _) with (rd [] (enc1_header h) "HOWYENC1").
    rewrite <- (app_nil_r (enc1_header h)) at 2.
    rewrite (parses_enc1_header h _ Hh); [done| |].
    - rewrite len_app, Hl, Hlc. change (h_plaintext_length h) with (payload_len (entries r)). lia.
    - rewrite !len_nil, Hl. unfold_max. lia. }
  cbn [mbind result_bind]. rewrite Hl, Z.eqb_refl. cbn [negb].
  change (h_entry_count h) with (len (entries r)).
  change (h_plaintext_length h) with (payload_len (entries r)).
  destruct (max_entries <? _); [done|]. destruct (max_plain <? _); [done|].
  by rewrite (proj2 (check_bindings_Ok h mode epoch (username r) (recognizer_model_sha256 r) ())).
Qed.

(** Whatever bytes and key it is given, the HOWYENC1 decoder requests at most
    the frozen plaintext bound plus a tag (and [MAX_ENTRIES] entries): under an
    allocator that grants that much it never fails with an allocation error. *)
Theorem decode_howyenc1_bounded_allocation alloc b key mode epoch user model w :
  grants (MAX_PLAINTEXT_BYTES + GCM_TAG_BYTES) alloc →
  decode_howyenc1 alloc b key mode epoch user model ≠ Err (AllocationFailed w).
Proof.
  intros Hg. revert w. change (no_alloc_error (decode_howyenc1 alloc b key mode epoch user model)).
  unfold decode_howyenc1. apply no_alloc_error_bind.
  { unfold inspect_howyenc1, inspect_howyenc1_header_prefix. apply no_alloc_run.
    unfold read_howyenc1_header, read_array. no_alloc_steps; apply no_alloc_lift; intros w.
    - unfold storage_mode_try_from_u8. by repeat case_match.
    - unfold CanonicalUsername_new. by case_match. }
  intros h Hi. apply inspect_enc1_Ok in Hi as (rest & -> & Hwf & _).
  apply no_alloc_error_bind.
  { intros w. unfold check_bindings. by repeat (case_match; [done|]). }
  intros _ _. apply no_alloc_error_bind; [by apply no_alloc_error_ok_or|].
  intros ce Hce. inv_ok. breflect. subst ce.
  apply no_alloc_error_bind; [by apply no_alloc_error_ok_or|]. intros ct Hct. inv_ok.
  pose proof (enc1_header_length_bound h Hwf). pose proof Hwf as (_ & _ & _ & Hp & _ & _).
  apply slice_get_Some in Hct as (_ & _ & Hct); [|lia].
  apply no_alloc_error_bind; [by apply no_alloc_error_ok_or|]. intros tag _.
  destruct (negb _); [done|].
  apply no_alloc_error_bind; [by apply no_alloc_error_ok_or|]. intros aad _.
  apply no_alloc_error_bind.
  { unfold decrypt_aes_256_gcm. destruct (negb _); [done|].
    apply no_alloc_error_bind; [by apply no_alloc_error_ok_or|]. intros n Hn. inv_ok. breflect.
    subst. rewrite Hg by lia. cbn [negb]. by apply no_alloc_error_ok_or. }
  intros payload _. destruct (negb _); [done|]. apply no_alloc_error_bind.
  { apply no_alloc_decode_payload. intros what n Hn. apply Hg.
    unfold MAX_ENTRIES, MAX_PLAINTEXT_BYTES, GCM_TAG_BYTES in *. lia. }
  intros es _ w. unfold EnrollmentRecord_new, from_boxed_entries. by repeat (case_match; [done|]).
Qed.

End encrypted.

(** ** Concrete instances

    An AEAD with the shape the codec relies on: the tag holds the head of the
    key and is checked on opening. *)

Definition toy_tag (key : bytes) : bytes := take 16 (key ++ zero_bytes 16).

Definition toy_aead : AesGcm := {|
  encrypt_in_place key nonce aad m :=
    if (len aad <=? A_MAX) && (len m <=? P_MAX) then Some (m ++ toy_tag key) else None;
  decrypt_in_place key nonce aad c :=
    let n := (length c - 16)%nat in
    if (len aad <=? A_MAX) && (len (take n c) <=? P_MAX) && bool_decide (drop n c = toy_tag key)
    then Some (take n c) else None;
|}.

Lemma len_toy_tag key : length (toy_tag key) = 16%nat.
Proof. unfold toy_tag, zero_bytes. rewrite length_take, length_app, length_replicate. lia. Qed.

Lemma toy_aead_laws : @AesGcmLaws toy_aead.
Proof.
  split; simpl.
  - intros k n aad m Ha Hm. rewrite !(proj2 (Z.leb_le _ _)) by done. by eexists.
  - intros k n aad m c Hc. case_match; simplify_eq. rewrite len_app. unfold GCM_TAG_BYTES.
    assert (len (toy_tag k) = 16) by (unfold len; by rewrite len_toy_tag). lia.
  - intros k n aad m c Hc. case_match eqn:E; simplify_eq.
    rewrite length_app, len_toy_tag, Nat.add_sub, take_app_length, drop_app_length.
    rewrite bool_decide_eq_true_2 by done. by rewrite andb_true_r, E.
  - intros k n aad m c Hc. case_match eqn:E; simplify_eq. breflect.
    rewrite !(proj2 (Z.leb_le _ _)) by done. simpl. f_equal.
    rename select (drop _ _ = _) into Hd. by rewrite <- Hd, take_drop.
Qed.

Definition sample_key : bytes := replicate 32 Byte.x42.
Definition sample_nonce : bytes := replicate 12 Byte.x07.

Definition sample_sealed : bytes :=
  Eval vm_compute in
    match @encode_howyenc1_with_nonce toy_aead unlimited sample_record ModeAeadCached 3
            sample_key sample_nonce with Ok b => b | Err _ => [] end.

Lemma sample_sealed_encoded :
  @encode_howyenc1_with_nonce toy_aead unlimited sample_record ModeAeadCached 3 sample_key
    sample_nonce = Ok sample_sealed.
Proof. vm_compute. reflexivity. Qed.

Lemma sample_opened :
  @decode_howyenc1 toy_aead unlimited sample_sealed sample_key ModeAeadCached 3
    (username sample_record) (recognizer_model_sha256 sample_record) = Ok sample_record.
Proof. vm_compute. reflexivity. Qed.

Lemma howyenc1_roundtrip_witness :
  @decode_howyenc1 toy_aead unlimited sample_sealed sample_key ModeAeadCached 3
    (username sample_record) (recognizer_model_sha256 sample_record) = Ok sample_record.
Proof.
  refine (@howyenc1_roundtrip toy_aead toy_aead_laws unlimited unlimited sample_record
    ModeAeadCached 3 sample_key sample_nonce sample_sealed sample_record_wf _ eq_refl eq_refl
    sample_sealed_encoded (unlimited_grants _)).
  unfold_max. lia.
Defined.

Lemma howyenc1_authentic_witness :
  ∃ nonce, len nonce = 12 ∧
    @encode_howyenc1_with_nonce toy_aead unlimited sample_record ModeAeadCached 3 sample_key
      nonce = Ok sample_sealed.
Proof.
  exact (proj2 (proj2 (proj2 (@howyenc1_authentic toy_aead toy_aead_laws unlimited unlimited
    sample_sealed sample_key ModeAeadCached 3 (username sample_record)
    (recognizer_model_sha256 sample_record) sample_record sample_opened (unlimited_grants _))))).
Defined.

Lemma inspect_howyenc1_agrees_witness :
  ∃ header, inspect_howyenc1 sample_sealed = Ok header ∧ h_entry_count header = 1.
Proof.
  destruct (@inspect_howyenc1_agrees toy_aead toy_aead_laws unlimited sample_sealed sample_key
    ModeAeadCached 3 (username sample_record) (recognizer_model_sha256 sample_record)
    sample_record 10 65536 sample_opened) as (h & Hi & _ & Hc & _);
    [unfold MAX_ENTRIES; lia | unfold MAX_PLAINTEXT_BYTES; lia |].
  exists h. split; [exact Hi | exact Hc].
Defined.

Lemma decode_howyenc1_bounded_allocation_witness :
  @decode_howyenc1 toy_aead unlimited (bs "HOWYENC1") sample_key ModeAeadCached 3
    (username sample_record) (recognizer_model_sha256 sample_record)
  ≠ Err (AllocationFailed "AES-GCM input").
Proof. apply decode_howyenc1_bounded_allocation. apply unlimited_grants. Defined.
