(* ===== verification/Namespace.v ===== *)
(** * Record namespaces, paths and mode transitions

    [crates/howy-common/src/storage/namespace.rs] and the path constants of
    [crates/howy-common/src/paths.rs]. A path is the list of its bytes. *)

From S2P Require Import Prelude Bytes Storage.

(** ** Paths *)

Definition MODELS_DIR : bytes := bs "/etc/howy/models".
Definition MODE1_MODELS_DIR : bytes := bs "/etc/howy/models/mode1".
Definition MODE2_MODELS_DIR : bytes := bs "/etc/howy/models/mode2".

Definition slash : byte := Byte.x2f.

(** [Path::join]: an absolute right-hand side replaces the left one; otherwise
    one separator is inserted where it is missing. *)
Definition path_join (dir rel : bytes) : bytes :=
  match rel with
  | b :: _ =>
      if bool_decide (b = slash) then rel
      else match last dir with
           | None => rel
           | Some e => if bool_decide (e = slash) then dir ++ rel else dir ++ slash :: rel
           end
  | [] =>
      match last dir with
      | None => []
      | Some e => if bool_decide (e = slash) then dir else dir ++ [slash]
      end
  end.

(** [user_model_path] and [user_model_path_legacy] *)
Definition user_model_path (username : bytes) : option bytes :=
  if validate_username username then Some (path_join MODELS_DIR (username ++ bs ".bin")) else None.
Definition user_model_path_legacy (username : bytes) : option bytes :=
  if validate_username username then Some (path_join MODELS_DIR (username ++ bs ".json")) else None.

(** ** Namespaces *)

Inductive RecordNamespace := NsPlaintext | NsAeadCached | NsAeadEphemeral.
#[export] Instance RecordNamespace_eq_dec : EqDecision RecordNamespace.
Proof. solve_decision. Defined.

Definition ALL_RECORD_NAMESPACES : list RecordNamespace :=
  [NsPlaintext; NsAeadCached; NsAeadEphemeral].

Definition namespace_identifier (n : RecordNamespace) : Z :=
  match n with NsPlaintext => 0 | NsAeadCached => 1 | NsAeadEphemeral => 2 end.

Definition namespace_security_mode (n : RecordNamespace) : EmbeddingSecurityMode :=
  match n with
  | NsPlaintext => Plaintext | NsAeadCached => AeadCached | NsAeadEphemeral => AeadEphemeral
  end.

Definition namespace_directory (n : RecordNamespace) : bytes :=
  match n with
  | NsPlaintext => MODELS_DIR
  | NsAeadCached => MODE1_MODELS_DIR
  | NsAeadEphemeral => MODE2_MODELS_DIR
  end.

(** [TryFrom<EmbeddingSecurityMode> for RecordNamespace] *)
Definition namespace_try_from (mode : EmbeddingSecurityMode) : sresult RecordNamespace :=
  match mode with
  | Plaintext => Ok NsPlaintext
  | AeadCached => Ok NsAeadCached
  | AeadEphemeral => Ok NsAeadEphemeral
  | ReservedFuture => Err (UnsupportedNamespaceMode (security_mode_u8 mode))
  end.

Inductive RecordPathKind := Authoritative | LegacyReadOnlyFallback.
#[export] Instance RecordPathKind_eq_dec : EqDecision RecordPathKind.
Proof. solve_decision. Defined.

Record RecordPath := mkRecordPath {
  rp_namespace : RecordNamespace;
  rp_kind : RecordPathKind;
  rp_path : bytes;
}.

(** [RecordPath::new] *)
Definition RecordPath_new (n : RecordNamespace) (kind : RecordPathKind)
    (user : CanonicalUsername) (extension : bytes) : RecordPath :=
  mkRecordPath n kind
    (path_join (namespace_directory n) (user_bytes user ++ bs "." ++ extension)).

Record NamespaceRecordPaths := mkRecordPaths {
  authoritative : RecordPath;
  legacy_fallback : option RecordPath;
}.

(** [RecordNamespace::record_paths] *)
Definition record_paths (n : RecordNamespace) (user : CanonicalUsername) : NamespaceRecordPaths :=
  let '(extension, legacy_extension) :=
    match n with
    | NsPlaintext => (bs "bin", Some (bs "json"))
    | NsAeadCached | NsAeadEphemeral => (bs "hye", None)
    end in
  mkRecordPaths
    (RecordPath_new n Authoritative user extension)
    ((λ ext, RecordPath_new n LegacyReadOnlyFallback user ext) <$> legacy_extension).

(** [NamespaceRecordPaths::iter] *)
Definition record_paths_iter (p : NamespaceRecordPaths) : list RecordPath :=
  authoritative p :: option_list (legacy_fallback p).

(** ** Selection, inventory, purge *)

Inductive NamespaceActivity := Active | InactiveDiagnosticOnly.
#[export] Instance NamespaceActivity_eq_dec : EqDecision NamespaceActivity.
Proof. solve_decision. Defined.

Record NamespaceSelection := mkSelection { selection_active : RecordNamespace }.

(** [NamespaceSelection::inactive] *)
Definition selection_inactive (s : NamespaceSelection) : list RecordNamespace :=
  match selection_active s with
  | NsPlaintext => [NsAeadCached; NsAeadEphemeral]
  | NsAeadCached => [NsPlaintext; NsAeadEphemeral]
  | NsAeadEphemeral => [NsPlaintext; NsAeadCached]
  end.

(** [NamespaceSelection::activity] *)
Definition selection_activity (s : NamespaceSelection) (n : RecordNamespace) : NamespaceActivity :=
  if namespace_identifier (selection_active s) =? namespace_identifier n
  then Active else InactiveDiagnosticOnly.

(** [TryFrom<EmbeddingSecurityMode> for NamespaceSelection] *)
Definition selection_try_from (mode : EmbeddingSecurityMode) : sresult NamespaceSelection :=
  mkSelection <$> namespace_try_from mode.

Inductive RecordIncompatibility := ModelMismatch | KeyMismatch | InvalidRecord.
Inductive RecordCondition := Absent | Compatible | Incompatible (reason : RecordIncompatibility).

Record RecordInventory := mkInventory {
  inv_record_path : RecordPath;
  inv_activity : NamespaceActivity;
  inv_condition : RecordCondition;
}.

(** [NamespaceSelection::classify_record] *)
Definition classify_record (s : NamespaceSelection) (p : RecordPath) (c : RecordCondition)
    : RecordInventory := mkInventory p (selection_activity s (rp_namespace p)) c.

(** [RecordInventory::is_authentication_candidate] *)
Definition is_authentication_candidate (i : RecordInventory) : bool :=
  match inv_activity i with Active => true | _ => false end
  && match inv_condition i with Compatible => true | _ => false end.

Inductive PurgeTarget := PurgeNamespace (n : RecordNamespace) | InactiveNamespaces.

(** [PurgeTarget::for_mode], [PurgeTarget::selects] *)
Definition purge_for_mode (mode : EmbeddingSecurityMode) : sresult PurgeTarget :=
  PurgeNamespace <$> namespace_try_from mode.
Definition purge_selects (t : PurgeTarget) (i : RecordInventory) : bool :=
  match t with
  | PurgeNamespace n =>
      namespace_identifier (rp_namespace (inv_record_path i)) =? namespace_identifier n
  | InactiveNamespaces =>
      match inv_activity i with InactiveDiagnosticOnly => true | _ => false end
  end.

(** ** Transitions *)

Inductive TransitionActivation :=
| RemainsSelected
| ActivatesEmptyNamespace
| ReactivatesCompatibleRecord
| ActivatesIncompatibleRecord (reason : RecordIncompatibility).

Record TransitionDecision := mkTransition {
  t_previous : RecordNamespace;
  t_selected : RecordNamespace;
  t_selected_condition : RecordCondition;
  t_activation : TransitionActivation;
}.

(** [TransitionDecision::resulting_selection] *)
Definition resulting_selection (d : TransitionDecision) : NamespaceSelection :=
  mkSelection (t_selected d).

(** [decide_namespace_transition] *)
Definition decide_namespace_transition (previous selected : EmbeddingSecurityMode)
    (selected_condition : RecordCondition) : sresult TransitionDecision :=
  previous ← namespace_try_from previous;
  selected ← namespace_try_from selected;
  let activation :=
    if bool_decide (previous = selected) then RemainsSelected
    else match selected_condition with
         | Absent => ActivatesEmptyNamespace
         | Compatible => ReactivatesCompatibleRecord
         | Incompatible reason => ActivatesIncompatibleRecord reason
         end in
  Ok (mkTransition previous selected selected_condition activation).

(** ** Properties *)

Lemma name_byte_not_slash b : is_name_byte b = true → b ≠ slash.
Proof. intros Hb ->. by vm_compute in Hb. Qed.

(** No byte of a canonical username is a separator. *)
Lemma username_no_slash u : username_wf u → slash ∉ user_bytes u.
Proof.
  unfold username_wf, is_canonical_username. intros [_ Hall]%andb_true_iff Hin.
  rewrite forallb_forall in Hall. apply list_elem_of_In, Hall in Hin. by vm_compute in Hin.
Qed.

Lemma path_join_relative dir e rel :
  last dir = Some e → e ≠ slash → slash ∉ rel → rel ≠ [] →
  path_join dir rel = dir ++ slash :: rel.
Proof.
  intros Hl He Hrel Hne. destruct rel as [|b rel]; [done|]. simpl.
  rewrite bool_decide_eq_false_2 by set_solver. rewrite Hl.
  by rewrite bool_decide_eq_false_2.
Qed.

Lemma namespace_directory_last n : ∃ e, last (namespace_directory n) = Some e ∧ e ≠ slash.
Proof. destruct n; eexists; (split; [reflexivity|done]). Qed.

Definition extension_of (n : RecordNamespace) (k : RecordPathKind) : bytes :=
  match n, k with
  | NsPlaintext, Authoritative => bs "bin"
  | NsPlaintext, LegacyReadOnlyFallback => bs "json"
  | _, _ => bs "hye"
  end.

Lemma file_name_no_slash u ext :
  username_wf u → slash ∉ ext → slash ∉ user_bytes u ++ bs "." ++ ext.
Proof.
  intros Hu Hext. pose proof (username_no_slash u Hu). rewrite !not_elem_of_app.
  split_and!; try done. change (bs ".") with [Byte.x2e]. by rewrite list_elem_of_singleton.
Qed.

(** The shape of a record path. *)
Lemma record_path_shape n k u ext :
  username_wf u → slash ∉ ext →
  rp_path (RecordPath_new n k u ext) =
    namespace_directory n ++ slash :: (user_bytes u ++ bs "." ++ ext).
Proof.
  intros Hu Hext. destruct (namespace_directory_last n) as (e & Hl & He). simpl.
  apply (path_join_relative _ e); try done.
  - by apply file_name_no_slash.
  - intros Hnil. apply app_nil in Hnil as [_ Hnil]. done.
Qed.

Lemma last_component_inj (d1 d2 r1 r2 : bytes) :
  slash ∉ r1 → slash ∉ r2 → d1 ++ slash :: r1 = d2 ++ slash :: r2 → d1 = d2 ∧ r1 = r2.
Proof.
  revert d2. induction d1 as [|b d1 IH]; intros [|b2 d2] H1 H2 Heq; cbn in Heq.
  - by injection Heq as ->.
  - injection Heq as <- ->. set_solver.
  - injection Heq as -> <-. set_solver.
  - injection Heq as -> Heq. destruct (IH d2 H1 H2 Heq) as [-> ->]. done.
Qed.

Lemma suffix_inj_len (u1 u2 x1 x2 : bytes) :
  length x1 = length x2 → u1 ++ x1 = u2 ++ x2 → u1 = u2 ∧ x1 = x2.
Proof. intros Hl Heq. by apply app_inj_2. Qed.

Lemma record_paths_iter_elem n u p :
  p ∈ record_paths_iter (record_paths n u) →
  ∃ k, p = RecordPath_new n k u (extension_of n k) ∧ (k = LegacyReadOnlyFallback → n = NsPlaintext).
Proof.
  unfold record_paths_iter, record_paths.
  destruct n; simpl; intros Hp;
    repeat (apply elem_of_cons in Hp as [->|Hp];
            [first [exists Authoritative; split; [reflexivity|congruence] | exists LegacyReadOnlyFallback; split; [reflexivity|congruence]]|]);
    by apply not_elem_of_nil in Hp.
Qed.

Lemma extension_no_slash n k : slash ∉ extension_of n k.
Proof.
  assert (bool_decide (slash ∈ extension_of n k) = false) as H by (by destruct n, k).
  by apply bool_decide_eq_false in H.
Qed.

Lemma namespace_directory_inj n1 n2 : namespace_directory n1 = namespace_directory n2 → n1 = n2.
Proof. destruct n1, n2; done. Qed.

Lemma extension_length_inj n k1 k2 u1 u2 :
  (k1 = LegacyReadOnlyFallback → n = NsPlaintext) →
  (k2 = LegacyReadOnlyFallback → n = NsPlaintext) →
  user_bytes u1 ++ bs "." ++ extension_of n k1 = user_bytes u2 ++ bs "." ++ extension_of n k2 →
  u1 = u2 ∧ k1 = k2.
Proof.
  intros H1 H2 Heq.
  destruct n, k1, k2; try (by specialize (H1 eq_refl)); try (by specialize (H2 eq_refl)).
  (* [.bin] against [.json]: the last two letters differ *)
  2: destruct (suffix_inj_len (user_bytes u1 ++ bs ".b") (user_bytes u2 ++ bs ".js")
       (bs "in") (bs "on")) as [_ ?]; [done|by rewrite <- !app_assoc|done].
  2: destruct (suffix_inj_len (user_bytes u1 ++ bs ".js") (user_bytes u2 ++ bs ".b")
       (bs "on") (bs "in")) as [_ ?]; [done|by rewrite <- !app_assoc|done].
  all: apply suffix_inj_len in Heq as [Heq _]; [|done]; destruct u1, u2; simpl in *; by subst.
Qed.

(** Record paths never collide: two paths listed for canonical usernames in
    any two namespaces are equal only if they are the same role of the same user
    in the same namespace. In particular no username reaches another user's
    record, or a record of another mode. *)
Theorem record_paths_injective n1 n2 u1 u2 p1 p2 :
  username_wf u1 → username_wf u2 →
  p1 ∈ record_paths_iter (record_paths n1 u1) →
  p2 ∈ record_paths_iter (record_paths n2 u2) →
  rp_path p1 = rp_path p2 → n1 = n2 ∧ u1 = u2 ∧ p1 = p2.
Proof.
  intros Hu1 Hu2 (k1 & -> & Hk1)%record_paths_iter_elem (k2 & -> & Hk2)%record_paths_iter_elem.
  rewrite !record_path_shape by (done || apply extension_no_slash).
  intros [Hd Hr]%last_component_inj.
  - apply namespace_directory_inj in Hd as ->.
    destruct (extension_length_inj _ _ _ _ _ Hk1 Hk2 Hr) as [-> ->]. done.
  - apply file_name_no_slash; [done|apply extension_no_slash].
  - apply file_name_no_slash; [done|apply extension_no_slash].
Qed.

(** A record path is confined: it is its namespace's directory, a separator,
    and one file name without separators that is neither [.] nor [..]. *)
Theorem record_path_confined n u p :
  username_wf u → p ∈ record_paths_iter (record_paths n u) →
  ∃ name, rp_path p = namespace_directory n ++ slash :: name ∧ slash ∉ name ∧
    name ≠ bs "." ∧ name ≠ bs "..".
Proof.
  intros Hu (k & -> & _)%record_paths_iter_elem.
  pose proof (username_no_slash u Hu). pose proof (extension_no_slash n k).
  pose proof (username_wf_len u Hu) as Hlen.
  exists (user_bytes u ++ bs "." ++ extension_of n k).
  rewrite record_path_shape by done.
  assert (len (extension_of n k) >= 3) by (by destruct n, k).
  split_and!; try done.
  - by apply file_name_no_slash.
  - intros Heq%(f_equal len). rewrite !len_app in Heq.
    change (len (bs ".")) with 1 in Heq. lia.
  - intros Heq%(f_equal len). rewrite !len_app in Heq.
    change (len (bs ".")) with 1 in Heq. change (len (bs "..")) with 2 in Heq. lia.
Qed.

Lemma selection_activity_spec s n :
  selection_activity s n = if decide (n = selection_active s) then Active else InactiveDiagnosticOnly.
Proof. by destruct s as [[]], n. Qed.

Lemma selection_inactive_spec s n : n ∈ selection_inactive s ↔ n ≠ selection_active s.
Proof.
  assert (bool_decide (n ∈ selection_inactive s) = bool_decide (n ≠ selection_active s)) as Heq
    by (by destruct s as [[]], n).
  rewrite <- (bool_decide_eq_true (n ∈ _)), Heq. by rewrite bool_decide_eq_true.
Qed.

Lemma namespace_try_from_Ok mode n :
  namespace_try_from mode = Ok n ↔ namespace_security_mode n = mode.
Proof. destruct mode, n; simpl; split; congruence. Qed.

(** Selecting a mode partitions the namespaces: exactly the selected one is
    active, so across a transition decided for supported modes only a compatible
    record of the newly selected namespace can authenticate, and a purge of the
    inactive namespaces never selects it. *)
Theorem transition_selects_one previous selected condition d p :
  decide_namespace_transition previous selected condition = Ok d →
  let s := resulting_selection d in
  namespace_security_mode (t_selected d) = selected ∧
  namespace_security_mode (t_previous d) = previous ∧
  t_selected_condition d = condition ∧
  (t_activation d = RemainsSelected ↔ previous = selected) ∧
  (∀ n, (n = selection_active s ∨ n ∈ selection_inactive s) ∧
        (n ∈ selection_inactive s ↔ selection_activity s n = InactiveDiagnosticOnly)) ∧
  (∀ c, is_authentication_candidate (classify_record s p c) = true ↔
        rp_namespace p = t_selected d ∧ c = Compatible) ∧
  (∀ c, purge_selects InactiveNamespaces (classify_record s p c) = true ↔
        rp_namespace p ≠ t_selected d).
Proof.
  unfold decide_namespace_transition. intros Hd. inv_ok. subst d. simpl.
  repeat match goal with H : namespace_try_from _ = _ |- _ =>
    apply namespace_try_from_Ok in H; subst end.
  split_and!; try done.
  - case_bool_decide as E; [by subst|].
    split; [by destruct condition|]. intros Heq. destruct E. by destruct a, a0.
  - intros n. rewrite selection_activity_spec, selection_inactive_spec. simpl.
    destruct (decide (n = a0)); naive_solver.
  - intros c. unfold is_authentication_candidate, classify_record. simpl.
    rewrite selection_activity_spec. simpl. destruct (decide _), c; naive_solver.
  - intros c. simpl. rewrite selection_activity_spec. simpl. destruct (decide _); naive_solver.
Qed.

(** ** Concrete instances *)

Definition alice : CanonicalUsername := mkUsername (bs "alice").
Definition bob : CanonicalUsername := mkUsername (bs "bob").

Lemma record_paths_injective_witness :
  rp_path (authoritative (record_paths NsPlaintext alice))
  ≠ rp_path (authoritative (record_paths NsAeadCached bob)).
Proof.
  intros Heq.
  pose proof (record_paths_injective NsPlaintext NsAeadCached alice bob _ _ eq_refl eq_refl
    (list_elem_of_here _ _) (list_elem_of_here _ _) Heq) as [Hn _]. discriminate Hn.
Defined.

Lemma record_path_confined_witness :
  ∃ name, rp_path (authoritative (record_paths NsPlaintext alice))
          = namespace_directory NsPlaintext ++ slash :: name ∧ slash ∉ name ∧
          name ≠ bs "." ∧ name ≠ bs "..".
Proof. exact (record_path_confined NsPlaintext alice _ eq_refl (list_elem_of_here _ _)). Defined.

Lemma transition_selects_one_witness :
  ∃ d, decide_namespace_transition Plaintext AeadCached Absent = Ok d ∧
       t_activation d = ActivatesEmptyNamespace ∧
       namespace_security_mode (t_selected d) = AeadCached.
Proof.
  eexists. split; [reflexivity|]. split; [reflexivity|].
  exact (proj1 (transition_selects_one Plaintext AeadCached Absent _
    (authoritative (record_paths NsPlaintext alice)) eq_refl)).
Defined.
