(* ===== verification/Legacy.v ===== *)
(** * Legacy plaintext records and the identifiers derived from them

    [crates/howy-common/src/storage/legacy.rs] and the legacy data types of
    [crates/howy-common/src/face.rs]. SHA-256 and the two serde deserializers
    are parameters; the bytes that are hashed are computed here. *)

From S2P Require Import Prelude Bytes Storage Crypto Codec CodecReader CodecPayload CodecPlain.

(** ** SHA-256 *)

Class Sha256 := sha256 : bytes → bytes.
Class Sha256Laws `{Sha256} : Prop := sha256_length b : length (sha256 b) = 32%nat.

(** A collision of the hash function, exhibited. *)
Definition collision `{Sha256} (x y : bytes) : Prop := x ≠ y ∧ sha256 x = sha256 y.

Lemma digest_eq `{Sha256} x y : sha256 x = sha256 y → x = y ∨ collision x y.
Proof. intros Hs. destruct (decide (x = y)); [by left|by right]. Qed.

(** ** Legacy data *)

Record FaceModel := mkFaceModel { fm_label : bytes; fm_created : Z; fm_embedding : list Z }.
Record UserModels := mkUserModels { um_username : bytes; um_models : list FaceModel }.

(** What the Rust types guarantee of deserialized models. *)
Definition face_model_typed (m : FaceModel) : Prop :=
  utf8_valid (fm_label m) = true ∧ in_u U64_MAX (fm_created m) ∧
  Forall (in_u U32_MAX) (fm_embedding m).

(** The deserializers: [bincode] with fixed integers and trailing bytes allowed,
    [serde_json::from_slice]. *)
Class LegacyDecoders := {
  bincode_deserialize : bytes → option UserModels;
  json_from_slice : bytes → option UserModels;
}.
Class LegacyDecodersLaws `{LegacyDecoders} : Prop := {
  bincode_typed b um : bincode_deserialize b = Some um → Forall face_model_typed (um_models um);
  json_typed b um : json_from_slice b = Some um → Forall face_model_typed (um_models um);
}.

Inductive LegacySourceEncoding := BincodeThenJson | JsonOnly.
Inductive PlaintextRecordFormat := HowyPln1 | LegacyFormat.

Record DecodedPlaintextRecord := mkDecoded {
  decoded_record : EnrollmentRecord;
  decoded_format : PlaintextRecordFormat;
}.

Definition LEGACY_ID_DOMAIN : bytes := bs "howy-legacy-id-v1" ++ [Byte.x00].
Definition LEGACY_GENERATION_DOMAIN : bytes := bs "howy-legacy-generation-v1" ++ [Byte.x00].

(** ** Generations *)

(** [chunks_exact(8)] *)
Fixpoint chunks_exact8 (b : bytes) : list bytes :=
  match b with
  | b0 :: b1 :: b2 :: b3 :: b4 :: b5 :: b6 :: b7 :: rest =>
      [b0; b1; b2; b3; b4; b5; b6; b7] :: chunks_exact8 rest
  | _ => []
  end.

(** [generation_from_digest]: the first chunk that is not zero, or one. *)
Definition generation_from_digest (digest : bytes) : Z :=
  default 1 (head (filter (λ c, c ≠ 0) (le_combine <$> chunks_exact8 digest))).

(** [LegacyGenerationHasher]: what the hasher absorbed and what is still due. *)
Record LegacyGenerationHasher := mkHasher { hasher_absorbed : bytes; hasher_remaining : Z }.

Definition hasher_new (exact maximum : Z) : sresult LegacyGenerationHasher :=
  if maximum <? exact then Err (InvalidLength "legacy source")
  else Ok (mkHasher (LEGACY_GENERATION_DOMAIN ++ le64 exact) exact).

Definition hasher_update (h : LegacyGenerationHasher) (b : bytes)
    : sresult LegacyGenerationHasher :=
  length ← ok_or (try_from_u U64_MAX (len b)) (IntegerOverflow "legacy source length");
  remaining ← ok_or (checked_sub (hasher_remaining h) length) (InvalidLength "legacy source");
  Ok (mkHasher (hasher_absorbed h ++ b) remaining).

Section legacy.
  Context `{Sha256}.

Definition hasher_finish (h : LegacyGenerationHasher) : sresult Z :=
  if negb (hasher_remaining h =? 0) then Err (InvalidLength "legacy source")
  else Ok (generation_from_digest (sha256 (hasher_absorbed h))).

(** [legacy_generation] *)
Definition legacy_generation (source : bytes) : sresult Z :=
  source_length ← ok_or (try_from_u U64_MAX (len source)) (IntegerOverflow "legacy source length");
  h ← hasher_new source_length source_length;
  h ← hasher_update h source;
  hasher_finish h.

(** Feeding a source in pieces, as the streaming reader does. *)
Fixpoint hasher_updates (h : LegacyGenerationHasher) (pieces : list bytes)
    : sresult LegacyGenerationHasher :=
  match pieces with
  | [] => Ok h
  | b :: rest => h' ← hasher_update h b; hasher_updates h' rest
  end.
Definition streamed_generation (exact maximum : Z) (pieces : list bytes) : sresult Z :=
  h ← hasher_new exact maximum; h ← hasher_updates h pieces; hasher_finish h.

(** [recognizer_model_digest] *)
Definition recognizer_model_digest (file : bytes) : ModelDigest := mkDigest (sha256 file).

(** [checked_next_generation] *)
Definition checked_next_generation (gen : Z) : sresult Z :=
  ok_or (checked_add gen 1) GenerationOverflow.

(** ** Identifiers *)

(** The bytes [legacy_enrollment_id] hashes. *)
Definition legacy_id_preimage (user : CanonicalUsername) (ordinal created : Z) (lbl : bytes)
    (emb : list Z) : bytes :=
  LEGACY_ID_DOMAIN ++ le16 (len (user_bytes user)) ++ user_bytes user ++ le32 ordinal
  ++ le64 created ++ le16 (len lbl) ++ lbl ++ le16 EMBEDDING_DIMENSION
  ++ concat (le32 <$> emb).

(** [legacy_id_from_digest_prefix] *)
Definition legacy_id_from_digest_prefix (id : bytes) : sresult EnrollmentId :=
  let id := if bool_decide (id = zero_bytes 16) then <[15%nat := Byte.x01]> id else id in
  EnrollmentId_new id.

(** [legacy_enrollment_id] *)
Definition legacy_enrollment_id (user : CanonicalUsername) (ordinal created : Z) (lbl : bytes)
    (emb : list Z) : sresult EnrollmentId :=
  if MAX_LABEL_BYTES <? len lbl then Err (LimitExceeded "label")
  else if negb (len emb =? EMBEDDING_DIMENSION)
  then Err (InvalidEmbeddingDimension (default U16_MAX (try_from_u U16_MAX (len emb))))
  else if existsb (λ v, negb (f32_is_finite v)) emb then Err NonFiniteEmbedding
  else legacy_id_from_digest_prefix
         (take 16 (sha256 (legacy_id_preimage user ordinal created lbl emb))).

(** [generate_enrollment_id] *)
Definition generate_enrollment_id {R} `{RandomSource R} (source : R)
    (existing : gset EnrollmentId) : R * sresult EnrollmentId :=
  match fill_bytes source 16 with
  | (r, Err message) => (r, Err (RandomSourceFailed message))
  | (r, Ok b) =>
      (r, id ← EnrollmentId_new b;
          if bool_decide (id ∈ existing) then Err DuplicateEnrollmentId else Ok id)
  end.

(** ** Decoding a mode-0 source *)

(** The entry loop of [decode_plaintext_record]. *)
Fixpoint legacy_entries (user : CanonicalUsername) (ordinal : Z) (models : list FaceModel)
    : sresult (list EnrollmentEntry) :=
  match models with
  | [] => Ok []
  | model :: rest =>
      ordinal32 ← ok_or (try_from_u U32_MAX ordinal) (IntegerOverflow "legacy entry ordinal");
      id ← legacy_enrollment_id user ordinal32 (fm_created model) (fm_label model)
             (fm_embedding model);
      entry ← try_from_embedding_vec id (fm_created model) (fm_label model) (fm_embedding model);
      es ← legacy_entries user (ordinal + 1) rest;
      Ok (entry :: es)
  end.

Context `{LegacyDecoders}.

(** [decode_plaintext_record] *)
Definition decode_plaintext_record (alloc : allocator) (source : bytes)
    (encoding : LegacySourceEncoding) (expected_username : CanonicalUsername)
    (expected_model : ModelDigest) (configured_max_entries : Z)
    : sresult DecodedPlaintextRecord :=
  if bool_decide (HOWYPLN1_MAGIC `prefix_of` source)
  then (λ r, mkDecoded r HowyPln1) <$> decode_howypln1 alloc source expected_username expected_model
  else if (configured_max_entries =? 0) || (MAX_ENTRIES <? configured_max_entries)
  then Err (LimitExceeded "entry count")
  else
    legacy ← match encoding with
             | BincodeThenJson =>
                 _ ← ok_or (try_from_u U64_MAX (len source))
                           (IntegerOverflow "legacy source length");
                 ok_or (match bincode_deserialize source with
                        | Some um => Some um | None => json_from_slice source end)
                       InvalidLegacyRecord
             | JsonOnly => ok_or (json_from_slice source) InvalidLegacyRecord
             end;
    if negb (bool_decide (um_username legacy = user_bytes expected_username))
    then Err (BindingMismatch "username")
    else if (configured_max_entries <? len (um_models legacy))
            || (MAX_ENTRIES <? len (um_models legacy))
    then Err (LimitExceeded "entry count")
    else
      gen ← legacy_generation source;
      if negb (alloc "legacy entries" (len (um_models legacy)))
      then Err (AllocationFailed "legacy entries")
      else
        es ← legacy_entries expected_username 0 (um_models legacy);
        record ← EnrollmentRecord_new gen expected_model expected_username es;
        Ok (mkDecoded record LegacyFormat).

(** ** Properties *)

Lemma hasher_update_Ok h b h' :
  hasher_update h b = Ok h' ↔
    len b ≤ U64_MAX ∧ len b ≤ hasher_remaining h ∧
    h' = mkHasher (hasher_absorbed h ++ b) (hasher_remaining h - len b).
Proof.
  unfold hasher_update. split.
  - intros Hu. inv_ok. breflect. by subst.
  - intros (H1 & H2 & ->). unfold try_from_u, checked_sub.
    rewrite (proj2 (Z.leb_le _ _) H1). simpl. by rewrite (proj2 (Z.leb_le _ _) H2).
Qed.

Lemma hasher_updates_Ok pieces h :
  hasher_remaining h ≤ U64_MAX → len (concat pieces) ≤ hasher_remaining h →
  hasher_updates h pieces =
    Ok (mkHasher (hasher_absorbed h ++ concat pieces) (hasher_remaining h - len (concat pieces))).
Proof.
  revert h. induction pieces as [|b pieces IH]; intros h Hh Hle; cbn [hasher_updates concat].
  { rewrite app_nil_r, len_nil, Z.sub_0_r. by destruct h. }
  cbn [concat] in Hle. rewrite len_app in *. pose proof (len_nonneg b).
  pose proof (len_nonneg (concat pieces)).
  rewrite (proj2 (hasher_update_Ok h b _) ltac:(split_and!; [lia|lia|reflexivity])).
  cbn [mbind result_bind]. rewrite IH by (simpl; lia). simpl.
  rewrite <- app_assoc. do 2 f_equal. lia.
Qed.

Lemma hasher_updates_too_long pieces h :
  hasher_remaining h ≤ U64_MAX → hasher_remaining h < len (concat pieces) → 0 ≤ hasher_remaining h →
  Forall (λ b, len b ≤ U64_MAX) pieces →
  hasher_updates h pieces = Err (InvalidLength "legacy source").
Proof.
  revert h. induction pieces as [|b pieces IH]; intros h Hh Hlt Hnn Hall; cbn [concat] in Hlt.
  { rewrite len_nil in Hlt. lia. }
  rewrite Forall_cons in Hall. destruct Hall as [Hb Hall]. rewrite len_app in Hlt.
  cbn [hasher_updates]. pose proof (len_nonneg b).
  destruct (decide (len b ≤ hasher_remaining h)) as [Hle|Hgt].
  - rewrite (proj2 (hasher_update_Ok h b _) ltac:(split_and!; [lia|lia|reflexivity])).
    cbn [mbind result_bind]. apply IH; simpl; try done; lia.
  - unfold hasher_update, try_from_u, checked_sub. rewrite (proj2 (Z.leb_le _ _) Hb).
    cbn [ok_or mbind result_bind]. by rewrite (proj2 (Z.leb_gt _ _)) by lia.
Qed.

(** The one-shot derivation in closed form. *)
Lemma legacy_generation_eq source :
  len source ≤ U64_MAX →
  legacy_generation source =
    Ok (generation_from_digest (sha256 (LEGACY_GENERATION_DOMAIN ++ le64 (len source) ++ source))).
Proof.
  intros Hl. unfold legacy_generation, hasher_new, try_from_u. rewrite (proj2 (Z.leb_le _ _) Hl).
  cbn [ok_or mbind result_bind]. rewrite Z.ltb_irrefl. cbn [mbind result_bind].
  erewrite (proj2 (hasher_update_Ok _ source _)); [|split_and!; [done| |reflexivity]; done].
  unfold hasher_finish. cbn [mbind result_bind hasher_absorbed hasher_remaining].
  rewrite Z.sub_diag, <- app_assoc. done.
Qed.

(** The bounded streaming hasher computes the one-shot derivation: for any
    split of a source into pieces and any maximum at least its length, feeding
    the pieces yields [legacy_generation] of their concatenation; a stream that
    is longer or shorter than announced is refused. *)
Theorem streamed_generation_spec exact maximum pieces :
  0 ≤ exact ≤ U64_MAX → Forall (λ b, len b ≤ U64_MAX) pieces →
  streamed_generation exact maximum pieces =
    if (maximum <? exact) || negb (exact =? len (concat pieces))
    then Err (InvalidLength "legacy source")
    else legacy_generation (concat pieces).
Proof.
  intros He Hall. unfold streamed_generation, hasher_new.
  destruct (Z.ltb_spec maximum exact); [done|]. cbn [mbind result_bind orb].
  destruct (decide (len (concat pieces) ≤ exact)) as [Hle|Hgt].
  - rewrite hasher_updates_Ok by (simpl; lia). cbn [mbind result_bind].
    unfold hasher_finish. cbn [hasher_absorbed hasher_remaining].
    destruct (Z.eqb_spec exact (len (concat pieces))) as [->|Hne]; cbn [negb].
    + rewrite Z.sub_diag, legacy_generation_eq, <- app_assoc by lia. done.
    + destruct (Z.eqb_spec (exact - len (concat pieces)) 0); [lia|done].
  - rewrite hasher_updates_too_long by (done || simpl; lia).
    destruct (Z.eqb_spec exact (len (concat pieces))); [lia|done].
Qed.

Lemma chunks_exact8_length n b :
  length b = (8 * n)%nat → Forall (λ c, length c = 8%nat) (chunks_exact8 b).
Proof.
  revert b. induction n as [|n IH]; intros b Hb.
  { destruct b; [constructor|done]. }
  do 8 (destruct b as [|? b]; [simpl in Hb; lia|]).
  simpl. constructor; [done|]. apply IH. simpl in Hb. lia.
Qed.

Lemma generation_from_digest_range digest :
  length digest = 32%nat → 1 ≤ generation_from_digest digest ≤ U64_MAX.
Proof.
  intros Hl. unfold generation_from_digest.
  pose proof (chunks_exact8_length 4 digest Hl) as Hall.
  destruct (head _) as [c|] eqn:Hh; simpl; [|unfold_max; lia].
  apply head_Some_elem_of in Hh. apply list_elem_of_filter in Hh as [Hnz Hin].
  apply list_elem_of_fmap in Hin as (b & -> & Hin).
  rewrite Forall_forall in Hall. specialize (Hall b Hin).
  pose proof (le_combine_range 8 b Hall). unfold_max. simpl in *. lia.
Qed.

Lemma legacy_generation_range `{!Sha256Laws} source gen :
  legacy_generation source = Ok gen → 1 ≤ gen ≤ U64_MAX.
Proof.
  intros Hg. destruct (decide (len source ≤ U64_MAX)) as [Hl|Hl].
  - rewrite legacy_generation_eq in Hg by done. injection Hg as <-.
    apply generation_from_digest_range, sha256_length.
  - unfold legacy_generation, try_from_u in Hg. inv_ok. by rewrite (proj2 (Z.leb_gt _ _)) in Ha by lia.
Qed.

(** The legacy identifier derivation is unambiguous: the hashed bytes are equal
    only for equal username, ordinal, creation time, label and embedding. *)
Theorem legacy_id_preimage_injective u1 u2 o1 o2 t1 t2 l1 l2 e1 e2 :
  username_wf u1 → username_wf u2 → in_u U32_MAX o1 → in_u U32_MAX o2 →
  in_u U64_MAX t1 → in_u U64_MAX t2 →
  len l1 ≤ MAX_LABEL_BYTES → len l2 ≤ MAX_LABEL_BYTES →
  Forall (in_u U32_MAX) e1 → Forall (in_u U32_MAX) e2 →
  legacy_id_preimage u1 o1 t1 l1 e1 = legacy_id_preimage u2 o2 t2 l2 e2 →
  u1 = u2 ∧ o1 = o2 ∧ t1 = t2 ∧ l1 = l2 ∧ e1 = e2.
Proof.
  intros Hu1 Hu2 Ho1 Ho2 Ht1 Ht2 Hl1 Hl2 He1 He2 Heq.
  pose proof (username_wf_len _ Hu1). pose proof (username_wf_len _ Hu2).
  pose proof (len_nonneg l1). pose proof (len_nonneg l2).
  unfold MAX_LABEL_BYTES, in_u in *. unfold legacy_id_preimage in Heq.
  apply app_inv_head in Heq.
  apply split_word in Heq as [Hlen Heq]; [|unfold_max; lia..].
  apply app_inj_1 in Heq as [Hu Heq]; [|unfold len in Hlen; lia].
  apply split_word in Heq as [-> Heq]; [|unfold_max; simpl; lia..].
  apply split_word in Heq as [-> Heq]; [|unfold_max; simpl; lia..].
  apply split_word in Heq as [Hlen2 Heq]; [|unfold_max; simpl; lia..].
  apply app_inj_1 in Heq as [-> Heq]; [|unfold len in Hlen2; lia].
  apply app_inv_head in Heq. apply (f_equal decode_embedding) in Heq.
  rewrite !decode_embedding_encode in Heq by done.
  destruct u1, u2; simpl in *; by subst.
Qed.

Lemma legacy_enrollment_id_Ok `{!Sha256Laws} u o t l e id :
  legacy_enrollment_id u o t l e = Ok id →
  length (id_bytes id) = 16%nat ∧ id_bytes id ≠ zero_bytes 16.
Proof.
  unfold legacy_enrollment_id, legacy_id_from_digest_prefix, EnrollmentId_new. intros Hid. inv_ok.
  assert (length (take 16 (sha256 (legacy_id_preimage u o t l e))) = 16%nat) as Hl
    by (rewrite length_take, sha256_length; done).
  case_bool_decide as Hz; inv_ok; subst id; breflect; simpl in *; split; try done.
  by rewrite length_insert.
Qed.

(** What an entry keeps of the model it was made from. *)
Definition entry_of_model (m : FaceModel) (e : EnrollmentEntry) : Prop :=
  label e = fm_label m ∧ created_unix_seconds e = fm_created m ∧ embedding e = fm_embedding m.

Lemma legacy_entries_Ok `{!Sha256Laws} u o ms es :
  Forall face_model_typed ms → legacy_entries u o ms = Ok es →
  Forall entry_wf es ∧ Forall2 entry_of_model ms es.
Proof.
  intros Hms. revert o es. induction Hms as [|m ms (Hutf & Ht & Hbits) _ IH]; intros o es Hes.
  { simpl in Hes. inv_ok. subst. split; constructor. }
  cbn [legacy_entries] in Hes. inv_ok. subst.
  rename select (legacy_enrollment_id _ _ _ _ _ = _) into Hid.
  apply legacy_enrollment_id_Ok in Hid as [Hlen Hnz].
  rename select (try_from_embedding_vec _ _ _ _ = _) into Hv. unfold try_from_embedding_vec in Hv.
  inv_ok. breflect. apply EnrollmentEntry_new_Ok in Hv as (-> & Hlab & Hfin).
  rename select (legacy_entries _ _ _ = _) into Hrec.
  destruct (IH _ _ Hrec) as [Hwf Hof].
  split; constructor; done.
Qed.

Lemma Forall2_len {A B} (P : A → B → Prop) l k : Forall2 P l k → len l = len k.
Proof. intros Hp. unfold len. by rewrite (Forall2_length _ _ _ Hp). Qed.

Lemma plaintext_record_decoded `{!Sha256Laws, !LegacyDecodersLaws}
    alloc source encoding user model max d :
  username_wf user → length (digest_bytes model) = 32%nat →
  decode_plaintext_record alloc source encoding user model max = Ok d →
  let r := decoded_record d in
  record_wf r ∧ username r = user ∧ recognizer_model_sha256 r = model ∧
  match decoded_format d with
  | HowyPln1 => decode_howypln1 alloc source user model = Ok r
  | LegacyFormat =>
      ¬ (HOWYPLN1_MAGIC `prefix_of` source) ∧ len (entries r) ≤ max ∧
      legacy_generation source = Ok (generation r) ∧
      ∃ um, (json_from_slice source = Some um ∨
             encoding = BincodeThenJson ∧ bincode_deserialize source = Some um) ∧
            um_username um = user_bytes user ∧
            Forall2 entry_of_model (um_models um) (entries r)
  end.
Proof.
  intros Hu Hm Hd. unfold decode_plaintext_record in Hd.
  case_bool_decide as Hmagic.
  { inv_ok. subst d. simpl. rename select (decode_howypln1 _ _ _ _ = _) into Hp.
    destruct (howypln1_decoded _ _ _ _ _ Hp) as (Hwf & Hu' & Hm' & _). done. }
  destruct ((max =? 0) || _) eqn:Hmax; [done|].
  apply bind_Ok in Hd as (um & Hum & Hd).
  assert (Forall face_model_typed (um_models um) ∧
    (json_from_slice source = Some um ∨
     encoding = BincodeThenJson ∧ bincode_deserialize source = Some um)) as [Htyped Hsrc].
  { destruct encoding; inv_ok.
    - destruct (bincode_deserialize source) as [um'|] eqn:Hb; simplify_eq.
      + split; [by eapply bincode_typed|by right].
      + split; [by eapply json_typed|by left].
    - split; [by eapply json_typed|by left]. }
  inv_ok. breflect. subst d.
  rename select (legacy_generation _ = _) into Hgen.
  rename select (legacy_entries _ _ _ = _) into Hes.
  rename select (EnrollmentRecord_new _ _ _ _ = _) into Hr.
  destruct (legacy_entries_Ok _ _ _ _ Htyped Hes) as [Hwf Hof].
  pose proof (Forall2_len _ _ _ Hof).
  pose proof (legacy_generation_range _ _ Hgen).
  apply EnrollmentRecord_new_Ok in Hr as (-> & Hg0 & Hlen & Hnd).
  unfold record_wf; simpl. split_and!; try done; try lia. by exists um.
Qed.

(** C40: A mode-0 source that decodes yields a well-formed record bound to the
    expected username and model. HOWYPLN1 bytes always go through the frozen
    decoder; any other source yields at most the configured number of entries,
    one per stored model in order, with a generation token that covers the whole
    unmodified source. *)
Theorem decode_plaintext_record_sound `{!Sha256Laws, !LegacyDecodersLaws}
    alloc source encoding user model max d :
  username_wf user → length (digest_bytes model) = 32%nat →
  decode_plaintext_record alloc source encoding user model max = Ok d →
  let r := decoded_record d in
  record_wf r ∧ username r = user ∧ recognizer_model_sha256 r = model ∧
  match decoded_format d with
  | HowyPln1 => decode_howypln1 alloc source user model = Ok r
  | LegacyFormat =>
      ¬ (HOWYPLN1_MAGIC `prefix_of` source) ∧ len (entries r) ≤ max ∧
      legacy_generation source = Ok (generation r) ∧
      ∃ um, (json_from_slice source = Some um ∨
             encoding = BincodeThenJson ∧ bincode_deserialize source = Some um) ∧
            um_username um = user_bytes user ∧
            Forall2 entry_of_model (um_models um) (entries r)
  end.
Proof. apply plaintext_record_decoded. Qed.

End legacy.

(** ** Concrete instances *)

Definition toy_sha256 : Sha256 := λ b, take 32 (b ++ zero_bytes 32).
Lemma toy_sha256_laws : @Sha256Laws toy_sha256.
Proof.
  intros b. unfold sha256, toy_sha256, zero_bytes.
  rewrite length_take, length_app, length_replicate. lia.
Qed.

(** A decoder that recognises one stored document. *)
Definition toy_models : UserModels :=
  mkUserModels (bs "alice") [mkFaceModel (bs "Front") 1700000000 (replicate 512 1065353216)].
Definition toy_decoders : LegacyDecoders := {|
  bincode_deserialize b := None;
  json_from_slice b := if bool_decide (b = bs "{}") then Some toy_models else None;
|}.
Lemma toy_decoders_laws : @LegacyDecodersLaws toy_decoders.
Proof.
  split; [done|]. intros b um Hb. simpl in Hb. case_bool_decide; simplify_eq.
  constructor; [|constructor]. split_and!; [done|by vm_compute..|].
  apply Forall_replicate. unfold_max. lia.
Qed.

Lemma streamed_generation_spec_witness :
  @streamed_generation toy_sha256 4 100 [bs "ab"; bs "cd"] =
  @legacy_generation toy_sha256 (bs "abcd").
Proof.
  refine (eq_trans (@streamed_generation_spec toy_sha256 4 100 [bs "ab"; bs "cd"] _ _) _).
  - unfold_max. lia.
  - repeat constructor; by vm_compute.
  - reflexivity.
Defined.

Lemma legacy_id_preimage_injective_witness :
  legacy_id_preimage (mkUsername (bs "alice")) 0 5 (bs "ab") [1; 2] ≠
  legacy_id_preimage (mkUsername (bs "alice")) 0 5 (bs "a") [1; 2].
Proof.
  intros Heq.
  pose proof (legacy_id_preimage_injective (mkUsername (bs "alice")) (mkUsername (bs "alice"))
    0 0 5 5 (bs "ab") (bs "a") [1; 2] [1; 2] eq_refl eq_refl) as Hinj.
  destruct Hinj as (_ & _ & _ & Hl & _);
    [by vm_compute.. | repeat constructor; by vm_compute
    | repeat constructor; by vm_compute | exact Heq | discriminate Hl].
Defined.

Definition toy_decoded : sresult DecodedPlaintextRecord :=
  @decode_plaintext_record toy_sha256 toy_decoders unlimited (bs "{}") JsonOnly
    (mkUsername (bs "alice")) (mkDigest (zero_bytes 32)) 5.

Lemma decode_plaintext_record_sound_witness :
  ∃ d, toy_decoded = Ok d ∧ record_wf (decoded_record d) ∧ len (entries (decoded_record d)) = 1.
Proof.
  destruct toy_decoded as [d|e] eqn:Hd; [|vm_compute in Hd; discriminate Hd].
  exists d. split; [reflexivity|]. split.
  - exact (proj1 (@decode_plaintext_record_sound toy_sha256 toy_decoders toy_sha256_laws
      toy_decoders_laws unlimited (bs "{}") JsonOnly (mkUsername (bs "alice"))
      (mkDigest (zero_bytes 32)) 5 d eq_refl eq_refl Hd)).
  - vm_compute in Hd. injection Hd as <-. reflexivity.
Defined.
