(* ===== verification/Contracts.v ===== *)
(** * Backend contracts: errors, allocation estimates, authentication models

    [crates/howy-common/src/storage/contracts.rs], without the plaintext budget
    (file Budget). Sizes of Rust types are those of a 64-bit target. *)

From S2P Require Import Prelude Bytes Storage Crypto Codec CodecReader CodecPayload CodecPlain CodecEncrypted.

(** ** Errors and classifications *)

Inductive IoOperation := IoInspect | IoOpen | IoRead | IoCreate | IoWrite | IoSync | IoRename | IoRemove.

(** [io::ErrorKind] is kept as an opaque code. *)
Record StorageIoError := mkIoError { io_operation : IoOperation; io_kind : Z }.

Inductive StorageBackendError :=
| BackendAbsent
| Conflict (current_generation : Z)
| ModeMismatch
| BackendKeyMismatch
| BackendModelMismatch
| Corrupt
| BackendAuthenticationFailed
| BackendGenerationOverflow
| Unavailable
| MemoryBudgetExceeded (requested available : Z)
| InvalidInput (what : string)
| Io (error : StorageIoError).

Abbreviation bresult := (result StorageBackendError).

Inductive BackendUnavailable := NotInitialized | KeyUnavailable | PermissionDenied | UnavailableIo | Integrity.
Inductive BackendHealth := Ready | HealthUnavailable (reason : BackendUnavailable).

#[export] Instance BackendUnavailable_eq_dec : EqDecision BackendUnavailable.
Proof. solve_decision. Defined.
#[export] Instance BackendHealth_eq_dec : EqDecision BackendHealth.
Proof. solve_decision. Defined.

Definition ABSENT_GENERATION : Z := 0.

Inductive CandidatePresence := NoCandidate | Candidate (generation : Z).

(** [CandidatePresence::generation] *)
Definition candidate_generation (c : CandidatePresence) : Z :=
  match c with NoCandidate => ABSENT_GENERATION | Candidate g => g end.

Inductive OuterRecordClassification :=
| OuterCandidate (generation : Z) | OuterModeMismatch | OuterKeyMismatch | OuterModelMismatch
| OuterCorrupt.

(** ** Allocation estimates *)

Definition SIZE_OF_F32 : Z := 4.
Definition SIZE_OF_ENROLLMENT_ID : Z := 16.
(** [Zeroizing<Box<str>>] is a fat pointer. *)
Definition SIZE_OF_LABEL_OWNER : Z := 16.

Record PlaintextAllocationEstimate := mkEstimate {
  encoded_payload_bytes : Z;
  aead_staging_bytes : Z;
  source_decoded_record_bytes : Z;
  decoded_record_bytes : Z;
  flat_auth_model_bytes : Z;
  cold_load_peak_bytes : Z;
  mutation_peak_bytes : Z;
  peak_bytes : Z;
}.

(** [auth_model_allocation_bytes] *)
Definition auth_model_allocation_bytes (entry_count label_bytes : Z) : bresult Z :=
  ok_or (values ← checked_mul entry_count EMBEDDING_DIMENSION;
         b ← checked_mul values SIZE_OF_F32;
         id_bytes ← checked_mul entry_count SIZE_OF_ENROLLMENT_ID;
         b ← checked_add b id_bytes;
         owner_bytes ← checked_mul entry_count SIZE_OF_LABEL_OWNER;
         b ← checked_add b owner_bytes;
         checked_add b label_bytes)
        (InvalidInput "model byte length").

(** [PlaintextAllocationEstimate::from_payload_shape] *)
Definition from_payload_shape (payload_bytes entry_count : Z)
    : bresult PlaintextAllocationEstimate :=
  if MAX_PLAINTEXT_BYTES <? payload_bytes then Err (InvalidInput "payload byte length")
  else if MAX_ENTRIES <? entry_count then Err (InvalidInput "entry count")
  else
    fixed_payload ← ok_or (b ← checked_mul entry_count CANONICAL_ENTRY_FIXED_BYTES;
                           checked_add b CANONICAL_PAYLOAD_FIXED_BYTES)
                          (InvalidInput "payload byte length");
    label_bytes ← ok_or (checked_sub payload_bytes fixed_payload)
                        (InvalidInput "payload byte length");
    decoded ← ok_or (b ← checked_mul entry_count SIZE_OF_ENROLLMENT_ENTRY;
                     checked_add b label_bytes)
                    (InvalidInput "record byte length");
    flat ← auth_model_allocation_bytes entry_count label_bytes;
    staging ← ok_or (checked_add payload_bytes GCM_TAG_BYTES)
                    (InvalidInput "AEAD staging byte length");
    decrypt_and_decode ← ok_or (checked_add staging decoded)
                               (InvalidInput "plaintext cold-load byte length");
    decode_and_flatten ← ok_or (checked_add decoded flat)
                               (InvalidInput "plaintext cold-load byte length");
    let cold := Z.max decrypt_and_decode decode_and_flatten in
    mutation ← ok_or (b ← checked_add decoded flat; b ← checked_add b payload_bytes;
                      checked_add b staging)
                     (InvalidInput "plaintext peak byte length");
    Ok (mkEstimate payload_bytes staging 0 decoded flat cold mutation mutation).

(** [PlaintextAllocationEstimate::for_plaintext_limits] *)
Definition for_plaintext_limits (max_payload_bytes configured_max_entries : Z)
    : bresult PlaintextAllocationEstimate :=
  if (MAX_PLAINTEXT_BYTES <? max_payload_bytes) || (MAX_ENTRIES <? configured_max_entries)
  then Err (InvalidInput "plaintext limits")
  else
    let possible := saturating_sub max_payload_bytes CANONICAL_PAYLOAD_FIXED_BYTES
                    / CANONICAL_ENTRY_FIXED_BYTES in
    entry_count ← ok_or (try_from_u U32_MAX (Z.min configured_max_entries possible))
                        (InvalidInput "entry count");
    from_payload_shape max_payload_bytes entry_count.

(** [PlaintextAllocationEstimate::for_encrypted_header] *)
Definition for_encrypted_header (h : EncryptedHeader) : bresult PlaintextAllocationEstimate :=
  from_payload_shape (h_plaintext_length h) (h_entry_count h).

(** The [try_fold] of label lengths. *)
Fixpoint checked_sum (total : Z) (ls : list Z) : option Z :=
  match ls with
  | [] => Some total
  | l :: rest => t ← checked_add total l; checked_sum t rest
  end.

(** [PlaintextAllocationEstimate::for_record] *)
Definition for_record (r : EnrollmentRecord) : bresult PlaintextAllocationEstimate :=
  entry_count ← ok_or (try_from_u U32_MAX (len (entries r))) (InvalidInput "entry count");
  labels ← ok_or (checked_sum 0 ((λ e, len (label e)) <$> entries r))
                 (InvalidInput "record byte length");
  fixed_entries ← ok_or (checked_mul (len (entries r)) CANONICAL_ENTRY_FIXED_BYTES)
                        (InvalidInput "record byte length");
  payload_bytes ← ok_or (b ← checked_add CANONICAL_PAYLOAD_FIXED_BYTES fixed_entries;
                         checked_add b labels)
                        (InvalidInput "record byte length");
  from_payload_shape payload_bytes entry_count.

(** [PlaintextAllocationEstimate::for_payload_shape] *)
Definition for_payload_shape (payload_bytes entry_count : Z)
    : bresult PlaintextAllocationEstimate :=
  entry_count ← ok_or (try_from_u U32_MAX entry_count) (InvalidInput "entry count");
  from_payload_shape payload_bytes entry_count.

(** The source record's owners, charged on top of a mutation. *)
Definition with_source (e : PlaintextAllocationEstimate) (source_decoded : Z)
    : bresult PlaintextAllocationEstimate :=
  mutation ← ok_or (checked_add (mutation_peak_bytes e) source_decoded)
                   (InvalidInput "plaintext mutation byte length");
  Ok (mkEstimate (encoded_payload_bytes e) (aead_staging_bytes e) source_decoded
        (decoded_record_bytes e) (flat_auth_model_bytes e) (cold_load_peak_bytes e)
        mutation mutation).

(** [PlaintextAllocationEstimate::for_append_shape] *)
Definition for_append_shape (current : option EncryptedHeader) (new_entries new_label_bytes : Z)
    : bresult PlaintextAllocationEstimate :=
  if (new_entries =? 0) || (MAX_ENTRIES <? new_entries)
  then Err (InvalidInput "append entry count")
  else
    maximum_labels ← ok_or (checked_mul new_entries MAX_LABEL_BYTES)
                           (InvalidInput "append label bytes");
    if maximum_labels <? new_label_bytes then Err (InvalidInput "append label bytes")
    else
      let current_entries := default 0 (h_entry_count <$> current) in
      entry_count ← ok_or (checked_add current_entries new_entries) (InvalidInput "entry count");
      if MAX_ENTRIES <? entry_count then Err (InvalidInput "entry count")
      else
        let current_payload :=
          default CANONICAL_PAYLOAD_FIXED_BYTES (h_plaintext_length <$> current) in
        payload_bytes ← ok_or (b ← checked_mul new_entries CANONICAL_ENTRY_FIXED_BYTES;
                               b ← checked_add b new_label_bytes;
                               checked_add b current_payload)
                              (InvalidInput "payload byte length");
        estimate ← for_payload_shape payload_bytes entry_count;
        match current with
        | Some h =>
            source ← for_encrypted_header h;
            with_source estimate (decoded_record_bytes source)
        | None => Ok estimate
        end.

(** [PlaintextAllocationEstimate::for_replacement_of_encrypted_header] *)
Definition for_replacement_of_encrypted_header (h : EncryptedHeader)
    : bresult PlaintextAllocationEstimate :=
  estimate ← for_encrypted_header h;
  with_source estimate (decoded_record_bytes estimate).

(** ** Metadata lists *)

Record EnrollmentMetadata := mkMetadata {
  meta_enrollment_id : EnrollmentId;
  meta_label : bytes;
  meta_created_unix_seconds : Z;
  meta_generation : Z;
}.
Record MetadataList := mkMetadataList {
  list_generation : Z; list_entries : list EnrollmentMetadata }.

(** [EnrollmentMetadata::from_entry] *)
Definition metadata_from_entry (gen : Z) (e : EnrollmentEntry) : EnrollmentMetadata :=
  mkMetadata (enrollment_id e) (label e) (created_unix_seconds e) gen.

(** [MetadataList::from_record] *)
Definition metadata_from_record (r : EnrollmentRecord) : MetadataList :=
  mkMetadataList (generation r) (metadata_from_entry (generation r) <$> entries r).

(** ** Authentication models *)

Record AuthModel := mkAuthModel {
  am_generation : Z;
  am_model_digest : ModelDigest;
  am_dimension : Z;
  am_enrollment_ids : list EnrollmentId;
  am_labels : list bytes;
  am_flat_embeddings : list Z;
  am_plaintext_bytes : Z;
}.

(** [enrollment_ids[..index].contains(id)] *)
Definition has_duplicates (ids : list EnrollmentId) : bool :=
  existsb (λ '(index, id), bool_decide (id ∈ take index ids)) (imap pair ids).

(** [AuthModel::new_exact], which [AuthModel::new] ends in. *)
Definition AuthModel_new (gen : Z) (digest : ModelDigest) (dimension : Z)
    (ids : list EnrollmentId) (labels : list bytes) (flat : list Z) : bresult AuthModel :=
  plaintext_bytes ←
    (if gen =? ABSENT_GENERATION then Err (InvalidInput "generation")
     else if negb (dimension =? EMBEDDING_DIMENSION) then Err (InvalidInput "embedding dimension")
     else if negb (len ids =? len labels) then Err (InvalidInput "model metadata count")
     else if MAX_ENTRIES <? len ids then Err (InvalidInput "entry count")
     else
       embedding_count ← ok_or (checked_mul (len ids) dimension) (InvalidInput "embedding count");
       if negb (len flat =? embedding_count) then Err (InvalidInput "flat embedding length")
       else if existsb (λ v, negb (f32_is_finite v)) flat
       then Err (InvalidInput "non-finite embedding")
       else if existsb (λ l, MAX_LABEL_BYTES <? len l) labels then Err (InvalidInput "label")
       else if has_duplicates ids then Err (InvalidInput "duplicate enrollment ID")
       else
         label_bytes ← ok_or (checked_sum 0 (len <$> labels)) (InvalidInput "model byte length");
         auth_model_allocation_bytes (len ids) label_bytes);
  Ok (mkAuthModel gen digest dimension ids labels flat plaintext_bytes).

(** [chunks_exact_mut(n).zip(entries)] copying each embedding into its chunk. *)
Fixpoint copy_chunks (fuel : nat) (n : nat) (flat : list Z) (es : list EnrollmentEntry) : list Z :=
  match fuel, es with
  | S fuel', e :: rest =>
      if (n <=? length flat)%nat
      then embedding e ++ copy_chunks fuel' n (drop n flat) rest
      else flat
  | _, _ => flat
  end.

(** [AuthModel::from_record] *)
Definition AuthModel_from_record (r : EnrollmentRecord) : bresult AuthModel :=
  let ids := enrollment_id <$> entries r in
  let labels := label <$> entries r in
  embedding_count ← ok_or (checked_mul (len (entries r)) EMBEDDING_DIMENSION)
                          (InvalidInput "embedding count");
  let embeddings := copy_chunks (length (entries r)) (Z.to_nat EMBEDDING_DIMENSION)
                      (replicate (Z.to_nat embedding_count) 0) (entries r) in
  AuthModel_new (generation r) (recognizer_model_sha256 r) EMBEDDING_DIMENSION ids labels
    embeddings.

(** [AuthModel::embedding] *)
Definition AuthModel_embedding (m : AuthModel) (index : Z) : option (list Z) :=
  start ← checked_mul index (am_dimension m);
  end_ ← checked_add start (am_dimension m);
  if (start <=? end_) && (end_ <=? len (am_flat_embeddings m))
  then Some (take (Z.to_nat (end_ - start)) (drop (Z.to_nat start) (am_flat_embeddings m)))
  else None.

(** ** Requests *)

Record AppendRequest := mkAppend {
  ap_username : CanonicalUsername; ap_expected_generation : Z; ap_entries : list EnrollmentEntry }.
Record RemoveRequest := mkRemove {
  rm_username : CanonicalUsername; rm_expected_generation : Z; rm_enrollment_id : EnrollmentId }.
Record ClearRequest := mkClear { cl_username : CanonicalUsername; cl_expected_generation : Z }.
Record AppendAdmissionShape := mkShape { max_new_entries : Z; max_new_label_bytes : Z }.

(** The four [new] constructors. *)
Definition AppendRequest_new (u : CanonicalUsername) (g : Z) (es : list EnrollmentEntry)
    : bresult AppendRequest :=
  match es with [] => Err (InvalidInput "empty append") | _ => Ok (mkAppend u g es) end.
Definition RemoveRequest_new (u : CanonicalUsername) (g : Z) (id : EnrollmentId)
    : bresult RemoveRequest :=
  if g =? ABSENT_GENERATION then Err (InvalidInput "remove generation") else Ok (mkRemove u g id).
Definition ClearRequest_new (u : CanonicalUsername) (g : Z) : bresult ClearRequest :=
  if g =? ABSENT_GENERATION then Err (InvalidInput "clear generation") else Ok (mkClear u g).
Definition AppendAdmissionShape_new (n l : Z) : bresult AppendAdmissionShape :=
  if (n =? 0) || (MAX_ENTRIES <? n) then Err (InvalidInput "admitted append entry count")
  else
    maximum ← ok_or (checked_mul n MAX_LABEL_BYTES) (InvalidInput "admitted append label bytes");
    if maximum <? l then Err (InvalidInput "admitted append label bytes") else Ok (mkShape n l).

(** ** Properties of the estimates *)

(** The estimate of a payload shape in closed form. *)
Definition shape_estimate (payload count : Z) : PlaintextAllocationEstimate :=
  let labels := payload - (CANONICAL_PAYLOAD_FIXED_BYTES + count * CANONICAL_ENTRY_FIXED_BYTES) in
  let decoded := count * SIZE_OF_ENROLLMENT_ENTRY + labels in
  let flat := count * (EMBEDDING_DIMENSION * SIZE_OF_F32 + SIZE_OF_ENROLLMENT_ID
                       + SIZE_OF_LABEL_OWNER) + labels in
  let staging := payload + GCM_TAG_BYTES in
  mkEstimate payload staging 0 decoded flat
    (Z.max (staging + decoded) (decoded + flat))
    (decoded + flat + payload + staging) (decoded + flat + payload + staging).

Ltac unfold_sizes :=
  unfold CANONICAL_PAYLOAD_FIXED_BYTES, CANONICAL_ENTRY_FIXED_BYTES,
    MAX_PLAINTEXT_BYTES, MAX_ENTRIES, MAX_LABEL_BYTES, SIZE_OF_F32, SIZE_OF_ENROLLMENT_ID,
    SIZE_OF_LABEL_OWNER, SIZE_OF_ENROLLMENT_ENTRY, GCM_TAG_BYTES, ABSENT_GENERATION,
    EMBEDDING_DIMENSION in *.

Lemma checked_add_small a b : a + b ≤ 100000000 → checked_add a b = Some (a + b).
Proof. intros. apply checked_add_eq. unfold_max. lia. Qed.
Lemma checked_mul_small a b : a * b ≤ 100000000 → checked_mul a b = Some (a * b).
Proof. intros. apply checked_mul_eq. unfold_max. lia. Qed.

(** Evaluates the checked arithmetic of an estimate within its bounds. *)
Ltac eval_checked :=
  repeat first
    [ progress cbn [ok_or mbind option_bind result_bind]
    | rewrite checked_mul_small by (unfold_sizes; lia)
    | rewrite checked_add_small by (unfold_sizes; lia)
    | rewrite checked_sub_eq by (unfold_sizes; lia) ].

Lemma auth_model_allocation_eq count labels :
  0 ≤ count ≤ MAX_ENTRIES → 0 ≤ labels ≤ MAX_PLAINTEXT_BYTES →
  auth_model_allocation_bytes count labels =
    Ok (count * (EMBEDDING_DIMENSION * SIZE_OF_F32 + SIZE_OF_ENROLLMENT_ID + SIZE_OF_LABEL_OWNER)
        + labels).
Proof.
  intros Hc Hl. unfold auth_model_allocation_bytes. eval_checked. f_equal. unfold_sizes. lia.
Qed.

Lemma from_payload_shape_eq payload count :
  0 ≤ count ≤ MAX_ENTRIES →
  CANONICAL_PAYLOAD_FIXED_BYTES + count * CANONICAL_ENTRY_FIXED_BYTES
    ≤ payload ≤ MAX_PLAINTEXT_BYTES →
  from_payload_shape payload count = Ok (shape_estimate payload count).
Proof.
  intros Hc Hp. unfold from_payload_shape.
  destruct (Z.ltb_spec MAX_PLAINTEXT_BYTES payload); [lia|].
  destruct (Z.ltb_spec MAX_ENTRIES count); [lia|].
  eval_checked. rewrite auth_model_allocation_eq by (unfold_sizes; lia). eval_checked.
  unfold shape_estimate. unfold_sizes. do 2 f_equal; lia.
Qed.

Lemma checked_sum_eq total ls :
  Forall (λ l, 0 ≤ l) ls → 0 ≤ total → total + foldr Z.add 0 ls ≤ 100000000 →
  checked_sum total ls = Some (total + foldr Z.add 0 ls).
Proof.
  intros Hls. revert total. induction Hls as [|l ls Hl Hls IH]; intros total Ht Hb; simpl in *.
  { f_equal. lia. }
  assert (0 ≤ foldr Z.add 0 ls) by (clear -Hls; induction Hls; simpl in *; lia).
  rewrite checked_add_small by lia. cbn [mbind option_bind]. rewrite IH by lia. f_equal. lia.
Qed.

Lemma labels_len_foldr es : foldr Z.add 0 ((λ e, len (label e)) <$> es) = labels_len es.
Proof. unfold labels_len. induction es as [|e es IH]; [done|]. cbn [fmap list_fmap foldr]. by rewrite IH. Qed.

Lemma checked_sum_labels es :
  Forall entry_wf es → len es ≤ MAX_ENTRIES →
  checked_sum 0 ((λ e, len (label e)) <$> es) = Some (labels_len es).
Proof.
  intros Hwf Hlen. pose proof (labels_len_bound es Hwf).
  rewrite checked_sum_eq; rewrite ?labels_len_foldr; [f_equal; lia| |done|unfold_sizes; lia].
  apply Forall_fmap, Forall_forall. intros e _. apply len_nonneg.
Qed.

Lemma for_record_eq r :
  record_wf r → for_record r = Ok (shape_estimate (payload_len (entries r)) (len (entries r))).
Proof.
  intros (_ & _ & _ & Hmax & _ & Hwf). pose proof (payload_len_fits _ Hwf Hmax).
  pose proof (labels_len_bound _ Hwf). pose proof (len_nonneg (entries r)).
  unfold for_record, try_from_u. rewrite (proj2 (Z.leb_le _ _)) by (unfold_max; unfold_sizes; lia).
  cbn [ok_or mbind result_bind]. rewrite checked_sum_labels by done.
  eval_checked. fold (payload_len (entries r)).
  apply from_payload_shape_eq; [lia|]. unfold payload_len in *. lia.
Qed.

(** ** Properties of authentication models *)

Lemma existsb_enumerate {A} (p : nat * A → bool) (l : list A) :
  existsb p (imap pair l) = true ↔ ∃ i x, l !! i = Some x ∧ p (i, x) = true.
Proof.
  rewrite existsb_exists. setoid_rewrite <- list_elem_of_In. split.
  - intros (? & (i & x & -> & Hi)%elem_of_lookup_imap_1 & Hp). eauto.
  - intros (i & x & Hi & Hp). exists (i, x). split; [|done]. by eapply elem_of_lookup_imap_2.
Qed.

Lemma has_duplicates_ids es : has_duplicates (entry_ids es) = has_duplicate_ids es.
Proof.
  unfold has_duplicates, has_duplicate_ids. apply eq_true_iff_eq. rewrite !existsb_enumerate.
  unfold entry_ids. setoid_rewrite list_lookup_fmap_Some. setoid_rewrite bool_decide_eq_true.
  setoid_rewrite existsb_same_id. unfold entry_ids. setoid_rewrite fmap_take. naive_solver.
Qed.

Lemma copy_chunks_concat n flat es :
  Forall (λ e, length (embedding e) = n) es → length flat = (length es * n)%nat →
  copy_chunks (length es) n flat es = concat (embedding <$> es).
Proof.
  intros Hes. revert flat. induction Hes as [|e es He Hes IH]; intros flat Hl; simpl in *.
  { by destruct flat. }
  destruct (Nat.leb_spec n (length flat)); [|lia]. f_equal. apply IH.
  rewrite length_drop. lia.
Qed.

Lemma len_concat_uniform {A} (ls : list (list A)) n :
  Forall (λ l, len l = n) ls → len (concat ls) = len ls * n.
Proof.
  induction 1 as [|l ls Hl _ IH]; [done|]. cbn [concat]. rewrite len_app, IH, len_cons. lia.
Qed.

Lemma concat_chunk {A} (ls : list (list A)) n i :
  Forall (λ l, length l = n) ls →
  take n (drop (i * n) (concat ls)) = default [] (ls !! i) ∧
  ((i < length ls)%nat → length (concat ls) ≥ i * n + n)%nat.
Proof.
  intros Hls. revert i. induction Hls as [|l ls Hl Hls IH]; intros i.
  { simpl. rewrite drop_nil, take_nil. split; [done|lia]. }
  destruct i as [|i]; cbn [concat].
  - split; [|rewrite length_app; simpl; lia]. rewrite drop_0, <- Hl. by rewrite take_app_length.
  - destruct (IH i) as [IH1 IH2]. split.
    + replace (S i * n)%nat with (length l + i * n)%nat by lia.
      rewrite <- drop_drop, drop_app_length. done.
    + simpl. rewrite length_app. lia.
Qed.

Lemma record_embeddings_len es : Forall entry_wf es → Forall (λ l, len l = EMBEDDING_DIMENSION) (embedding <$> es).
Proof.
  intros Hwf. apply Forall_fmap. eapply Forall_impl; [done|]. by intros e ((_&_&_&_&?&_)&_).
Qed.

Lemma existsb_finite_concat es :
  Forall entry_wf es → existsb (λ v, negb (f32_is_finite v)) (concat (embedding <$> es)) = false.
Proof.
  intros Hwf. apply existsb_finite_false, Forall_concat, Forall_fmap.
  eapply Forall_impl; [done|]. by intros e (_ & _ & ?).
Qed.

Lemma existsb_labels es :
  Forall entry_wf es → existsb (λ l, MAX_LABEL_BYTES <? len l) (label <$> es) = false.
Proof.
  induction 1 as [|e es (_ & Hl & _) _ IH]; [done|].
  cbn [fmap list_fmap existsb]. rewrite orb_false_iff. split; [lia|exact IH].
Qed.

(** The model of a well-formed record in closed form. *)
Definition record_model (r : EnrollmentRecord) : AuthModel :=
  mkAuthModel (generation r) (recognizer_model_sha256 r) EMBEDDING_DIMENSION
    (entry_ids (entries r)) (label <$> entries r) (concat (embedding <$> entries r))
    (flat_auth_model_bytes (shape_estimate (payload_len (entries r)) (len (entries r)))).

Lemma AuthModel_from_record_eq r :
  record_wf r → AuthModel_from_record r = Ok (record_model r).
Proof.
  intros (Hg & _ & _ & Hmax & Hnd & Hwf). pose proof (len_nonneg (entries r)).
  pose proof (labels_len_bound _ Hwf). pose proof (payload_len_fits _ Hwf Hmax).
  assert (∀ A (f : EnrollmentEntry → A), len (f <$> entries r) = len (entries r)) as Hfl
    by (intros; unfold len; by rewrite length_fmap).
  unfold AuthModel_from_record. eval_checked.
  rewrite copy_chunks_concat.
  2:{ eapply Forall_impl; [done|]. intros e ((_&_&_&_&He&_)&_). unfold len in He. lia. }
  2:{ rewrite length_replicate. unfold len, EMBEDDING_DIMENSION. lia. }
  unfold AuthModel_new. unfold_sizes. destruct (Z.eqb_spec (generation r) 0); [lia|].
  rewrite Z.eqb_refl. cbn [negb]. rewrite !Hfl, Z.eqb_refl. cbn [negb].
  destruct (Z.ltb_spec 1000 (len (entries r))); [lia|].
  eval_checked. rewrite (len_concat_uniform _ 512) by (by apply record_embeddings_len).
  rewrite Hfl, Z.eqb_refl. cbn [negb]. rewrite existsb_finite_concat by done.
  fold MAX_LABEL_BYTES. rewrite existsb_labels by done.
  fold (entry_ids (entries r)). rewrite has_duplicates_ids.
  rewrite (proj2 (has_duplicate_ids_NoDup _) Hnd).
  rewrite <- list_fmap_compose. unfold compose. rewrite checked_sum_labels by done.
  cbn [ok_or mbind result_bind]. rewrite auth_model_allocation_eq by (unfold_sizes; lia).
  cbn [mbind result_bind]. unfold record_model, shape_estimate. cbn [flat_auth_model_bytes].
  do 2 f_equal. unfold payload_len. unfold_sizes. lia.
Qed.

(** Flattening loses nothing and misplaces nothing: every well-formed record
    has an authentication model, whose identifiers and labels are the record's in
    order and whose [i]-th embedding slice is the [i]-th entry's embedding (and
    there is no further slice). *)
Theorem auth_model_of_record r :
  record_wf r →
  ∃ m, AuthModel_from_record r = Ok m ∧
    am_generation m = generation r ∧ am_model_digest m = recognizer_model_sha256 r ∧
    am_enrollment_ids m = enrollment_id <$> entries r ∧ am_labels m = label <$> entries r ∧
    ∀ i : nat, Z.of_nat i ≤ U32_MAX →
      AuthModel_embedding m (Z.of_nat i) = embedding <$> entries r !! i.
Proof.
  intros Hr. exists (record_model r). split; [by apply AuthModel_from_record_eq|].
  split_and!; try done. intros i Hi. destruct Hr as (_ & _ & _ & Hmax & _ & Hwf).
  pose proof (record_embeddings_len _ Hwf) as Hlen.
  unfold AuthModel_embedding, record_model; cbn [am_dimension am_flat_embeddings].
  unfold EMBEDDING_DIMENSION. rewrite checked_mul_eq by (unfold_max; lia).
  cbn [mbind option_bind]. rewrite checked_add_eq by (unfold_max; lia).
  cbn [mbind option_bind]. rewrite (len_concat_uniform _ 512) by done.
  assert (Forall (λ l, length l = 512%nat) (embedding <$> entries r)) as Hlen'.
  { eapply Forall_impl; [exact Hlen|]. intros l Hl. unfold len, EMBEDDING_DIMENSION in Hl. lia. }
  destruct (concat_chunk _ 512 i Hlen') as [Hchunk _].
  replace (Z.to_nat (Z.of_nat i * 512 + 512 - Z.of_nat i * 512)) with 512%nat by lia.
  replace (Z.to_nat (Z.of_nat i * 512)) with (i * 512)%nat by lia. rewrite Hchunk.
  rewrite list_lookup_fmap.
  destruct (entries r !! i) as [e|] eqn:He; simpl.
  - apply lookup_lt_Some in He. unfold len. rewrite length_fmap.
    rewrite !(proj2 (Z.leb_le _ _)) by lia. done.
  - apply lookup_ge_None in He. unfold len. rewrite length_fmap.
    rewrite andb_false_intro2; [done|]. apply Z.leb_gt. lia.
Qed.

Lemma plaintext_allocation_foldl total es :
  Forall entry_wf es → 0 ≤ total →
  total + len es * SIZE_OF_ENROLLMENT_ENTRY + labels_len es ≤ U64_MAX →
  foldl (λ total e, saturating_add total (entry_plaintext_allocation_bytes e)) total es
  = total + len es * SIZE_OF_ENROLLMENT_ENTRY + labels_len es.
Proof.
  intros Hwf. revert total. induction Hwf as [|e es He Hes IH]; intros total Ht Hb.
  { unfold labels_len. simpl. change (len []) with 0. lia. }
  pose proof (labels_len_bound _ Hes). pose proof (len_nonneg es). pose proof (len_nonneg (label e)).
  assert (labels_len (e :: es) = len (label e) + labels_len es) as Hll by done.
  rewrite len_cons, Hll in *. cbn [foldl]. unfold_sizes.
  assert (saturating_add total (entry_plaintext_allocation_bytes e)
          = total + (16 + 8 + 16 + 4 * 512) + len (label e)) as ->.
  { unfold saturating_add, entry_plaintext_allocation_bytes. unfold_sizes. lia. }
  rewrite IH by lia. lia.
Qed.

(** The reservation made before anything is decrypted is exactly right: for any
    bytes that open, the estimate from their outer header is the estimate of the
    record they hold, and it accounts for the canonical payload, the decoded
    record and the flat model to the byte. The cold-load peak covers both phases
    of a load and the mutation peak all simultaneous owners. *)
Theorem header_estimate_exact `{AesGcmLaws} alloc b key mode epoch user model r :
  decode_howyenc1 alloc b key mode epoch user model = Ok r →
  ∃ h e m payload,
    inspect_howyenc1 b = Ok h ∧ for_encrypted_header h = Ok e ∧ for_record r = Ok e ∧
    AuthModel_from_record r = Ok m ∧ encode_canonical_payload unlimited r = Ok payload ∧
    encoded_payload_bytes e = len payload ∧
    decoded_record_bytes e = record_plaintext_allocation_bytes r ∧
    flat_auth_model_bytes e = am_plaintext_bytes m ∧
    cold_load_peak_bytes e = Z.max (len payload + GCM_TAG_BYTES + decoded_record_bytes e)
                                   (decoded_record_bytes e + am_plaintext_bytes m) ∧
    mutation_peak_bytes e = decoded_record_bytes e + am_plaintext_bytes m + len payload
                            + (len payload + GCM_TAG_BYTES).
Proof.
  intros Hd. apply decode_howyenc1_Ok in Hd
    as (nonce & c & Hn & Hk & Hwf & He & <- & <- & -> & Hc).
  pose proof (record_header_enc1_wf r mode epoch nonce Hwf He Hn) as Hh.
  pose proof (encrypt_length _ _ _ _ _ Hc) as Hlc. pose proof Hwf as (_&_&_&Hmax&_&Hes).
  rewrite len_payload_bytes in Hlc by done.
  pose proof (payload_len_fits _ Hes Hmax). pose proof (labels_len_bound _ Hes).
  pose proof (len_nonneg (entries r)).
  exists (record_header r mode epoch nonce), (shape_estimate (payload_len (entries r)) (len (entries r))),
    (record_model r), (payload_bytes (entries r)).
  split_and!.
  - by apply inspect_enc1.
  - apply from_payload_shape_eq; simpl; [lia|]. unfold payload_len in *. lia.
  - by apply for_record_eq.
  - by apply AuthModel_from_record_eq.
  - by rewrite encode_canonical_payload_wf.
  - by rewrite len_payload_bytes.
  - unfold record_plaintext_allocation_bytes.
    rewrite plaintext_allocation_foldl by (done || unfold_max; unfold_sizes; lia).
    unfold shape_estimate, payload_len; cbn [decoded_record_bytes]. unfold_sizes. lia.
  - done.
  - by rewrite len_payload_bytes.
  - by rewrite len_payload_bytes.
Qed.

(** The header an append reads and the record it produces. *)
Definition appended (r : EnrollmentRecord) (gen : Z) (es : list EnrollmentEntry) : EnrollmentRecord :=
  mkRecord gen (recognizer_model_sha256 r) (username r) (entries r ++ es).

Lemma labels_len_app es1 es2 : labels_len (es1 ++ es2) = labels_len es1 + labels_len es2.
Proof.
  unfold labels_len. induction es1 as [|e es1 IH]; [done|]. simpl in *. lia.
Qed.

(** The append estimate predicts the appended record: computed from the current
    header and the number and label bytes of the new entries alone, it has the
    shape of the record the append produces, and its mutation peak adds the
    still-live source record. *)
Theorem append_estimate_exact r mode epoch nonce gen es :
  record_wf r → record_wf (appended r gen es) → es ≠ [] →
  ∃ e e' src,
    for_append_shape (Some (record_header r mode epoch nonce)) (len es) (labels_len es) = Ok e ∧
    for_record (appended r gen es) = Ok e' ∧ for_record r = Ok src ∧
    encoded_payload_bytes e = encoded_payload_bytes e' ∧
    decoded_record_bytes e = decoded_record_bytes e' ∧
    flat_auth_model_bytes e = flat_auth_model_bytes e' ∧
    source_decoded_record_bytes e = record_plaintext_allocation_bytes r ∧
    mutation_peak_bytes e = mutation_peak_bytes e' + record_plaintext_allocation_bytes r.
Proof.
  intros Hr Hr' Hne. pose proof Hr as (_&_&_&Hmax&_&Hes). pose proof Hr' as (_&_&_&Hmax'&_&Hes').
  simpl in Hmax', Hes'. apply Forall_app in Hes' as [_ Hnew]. rewrite len_app in Hmax'.
  assert (1 ≤ len es) by (destruct es; [done|]; rewrite len_cons; pose proof (len_nonneg es); lia).
  pose proof (len_nonneg (entries r)). pose proof (labels_len_bound _ Hes).
  pose proof (labels_len_bound _ Hnew).
  assert (record_plaintext_allocation_bytes r =
    len (entries r) * SIZE_OF_ENROLLMENT_ENTRY + labels_len (entries r)) as Hrp.
  { unfold record_plaintext_allocation_bytes.
    rewrite plaintext_allocation_foldl by (done || unfold_max; unfold_sizes; lia). lia. }
  unfold for_append_shape, for_encrypted_header, for_payload_shape, with_source.
  cbn [fmap option_fmap option_map default from_option id record_header h_entry_count
    h_plaintext_length]. unfold payload_len.
  destruct ((len es =? 0) || _) eqn:E; [unfold_sizes; lia|]. eval_checked.
  rewrite (proj2 (Z.ltb_ge _ _)) by lia. eval_checked.
  rewrite (proj2 (Z.ltb_ge _ _)) by lia. eval_checked.
  unfold try_from_u. rewrite (proj2 (Z.leb_le _ _)) by (unfold_max; unfold_sizes; lia).
  cbn [ok_or mbind result_bind].
  rewrite from_payload_shape_eq by (unfold_sizes; lia). cbn [mbind result_bind].
  rewrite from_payload_shape_eq by (unfold_sizes; lia). cbn [mbind result_bind].
  rewrite checked_add_small by (unfold shape_estimate; simpl; unfold_sizes; lia).
  eexists _, _, _. split; [reflexivity|]. rewrite !for_record_eq by done.
  split; [reflexivity|]. split; [reflexivity|]. rewrite Hrp.
  unfold shape_estimate, payload_len, appended; simpl. rewrite len_app, labels_len_app.
  unfold_sizes. split_and!; lia.
Qed.

(** ** Concrete instances *)

Lemma auth_model_of_record_witness :
  ∃ m, AuthModel_from_record sample_record = Ok m ∧
       AuthModel_embedding m 0 = Some (embedding sample_entry) ∧ AuthModel_embedding m 1 = None.
Proof.
  destruct (auth_model_of_record sample_record sample_record_wf) as (m & Hm & _ & _ & _ & _ & He).
  exists m. split; [exact Hm|]. split.
  - exact (He 0%nat ltac:(unfold_max; lia)).
  - exact (He 1%nat ltac:(unfold_max; lia)).
Defined.

Lemma header_estimate_exact_witness :
  ∃ h e, inspect_howyenc1 sample_sealed = Ok h ∧ for_encrypted_header h = Ok e ∧
         for_record sample_record = Ok e.
Proof.
  destruct (@header_estimate_exact toy_aead toy_aead_laws unlimited sample_sealed sample_key
    ModeAeadCached 3 (username sample_record) (recognizer_model_sha256 sample_record)
    sample_record sample_opened) as (h & e & m & p & Hi & Hh & Hr & _).
  exists h, e. split; [exact Hi|]. split; [exact Hh | exact Hr].
Defined.

Definition second_entry : EnrollmentEntry :=
  mkEntry (mkEnrollmentId (Byte.x02 :: zero_bytes 15)) 1700000001 (bs "Side") (embedding sample_entry).

Lemma second_entry_wf : entry_wf second_entry.
Proof.
  destruct sample_entry_wf as ((_&_&_&_&He&Hb)&_&Hf).
  unfold entry_wf, entry_typed. split_and!; try reflexivity; try discriminate; try done.
Qed.

Lemma appended_sample_wf : record_wf (appended sample_record 8 [second_entry]).
Proof.
  destruct sample_record_wf as (_ & Hm & Hu & _ & _ & Hes).
  unfold record_wf; simpl. split_and!; try done.
  - change (NoDup (entry_ids [sample_entry; second_entry])).
    apply has_duplicate_ids_NoDup. reflexivity.
  - constructor; [exact sample_entry_wf|]. constructor; [exact second_entry_wf|constructor].
Qed.

Lemma append_estimate_exact_witness :
  ∃ e, for_append_shape (Some (record_header sample_record ModeAeadCached 3 sample_nonce)) 1 4
       = Ok e ∧ source_decoded_record_bytes e = record_plaintext_allocation_bytes sample_record.
Proof.
  destruct (append_estimate_exact sample_record ModeAeadCached 3 sample_nonce 8 [second_entry]
    sample_record_wf appended_sample_wf) as (e & e' & src & Ha & _ & _ & _ & _ & _ & Hs & _);
    [discriminate|].
  exists e. split; [exact Ha | exact Hs].
Defined.
