(* ===== verification/Budget.v ===== *)
(** * The plaintext budget and its permits

    The accounting part of [crates/howy-common/src/storage/contracts.rs]:
    [PlaintextBudget], [BudgetPermit] and [EnrollmentAdmission]. A permit is an
    owned value, so the model names the live permits: [permits] maps the
    identity of every permit that has not been dropped to its bytes and its
    release guard. An operation whose [expect] fails is [None]. *)

From S2P Require Import Prelude Bytes Storage Contracts.

Section budget.
  (** What a release guard releases. *)
  Context {G : Type}.

Record BudgetPermit := mkPermit { permit_bytes : Z; permit_guard : option G }.

Record PlaintextBudget := mkBudget {
  limit : Z;
  used : Z;
  permits : gmap positive BudgetPermit;
}.

(** [PlaintextBudget::new] *)
Definition PlaintextBudget_new (l : Z) : bresult PlaintextBudget :=
  if l =? 0 then Err (InvalidInput "plaintext budget") else Ok (mkBudget l 0 ∅).

(** [PlaintextBudget::available] *)
Definition available (b : PlaintextBudget) : Z := saturating_sub (limit b) (used b).

(** [PlaintextBudget::reserve] *)
Definition reserve (b : PlaintextBudget) (n : Z) : PlaintextBudget * bresult positive :=
  if n =? 0 then (b, Err (InvalidInput "zero-byte reservation"))
  else
    match checked_add (used b) n with
    | None => (b, Err (MemoryBudgetExceeded n (available b)))
    | Some new_used =>
        if limit b <? new_used then (b, Err (MemoryBudgetExceeded n (available b)))
        else
          let id := fresh (dom (permits b)) in
          (mkBudget (limit b) new_used (<[id := mkPermit n None]> (permits b)), Ok id)
    end.

(** [Drop for BudgetPermit]: the bytes are given back, then the guard is dropped. *)
Definition drop_permit (b : PlaintextBudget) (id : positive)
    : option (PlaintextBudget * option G) :=
  p ← permits b !! id;
  u ← checked_sub (used b) (permit_bytes p);
  Some (mkBudget (limit b) u (delete id (permits b)), permit_guard p).

(** [BudgetPermit::shrink_to]; the consumed permit is dropped on rejection. *)
Definition shrink_to (b : PlaintextBudget) (id : positive) (n : Z)
    : option (PlaintextBudget * option G * bresult positive) :=
  p ← permits b !! id;
  if (n =? 0) || (permit_bytes p <? n)
  then '(b', g) ← drop_permit b id; Some (b', g, Err (InvalidInput "permit shrink size"))
  else
    let released := permit_bytes p - n in
    if released =? 0 then Some (b, None, Ok id)
    else
      u ← checked_sub (used b) released;
      Some (mkBudget (limit b) u (<[id := mkPermit n (permit_guard p)]> (permits b)), None, Ok id).

(** [BudgetPermit::split_off] *)
Definition split_off (b : PlaintextBudget) (id : positive) (n : Z)
    : option (PlaintextBudget * bresult positive) :=
  p ← permits b !! id;
  if (n =? 0) || (permit_bytes p <=? n)
  then Some (b, Err (InvalidInput "permit split size"))
  else
    let id' := fresh (dom (permits b)) in
    Some (mkBudget (limit b) (used b)
            (<[id' := mkPermit n None]>
              (<[id := mkPermit (permit_bytes p - n) (permit_guard p)]> (permits b))), Ok id').

Record EnrollmentAdmission := mkAdmission {
  adm_operation : positive;
  adm_input : positive;
  adm_guard : option G;
}.

(** [PlaintextBudget::reserve_enrollment] *)
Definition reserve_enrollment (b : PlaintextBudget) (operation_bytes input_bytes : Z)
    : option (PlaintextBudget * bresult EnrollmentAdmission) :=
  if (operation_bytes =? 0) || (input_bytes =? 0)
  then Some (b, Err (InvalidInput "enrollment reservation"))
  else
    match checked_add operation_bytes input_bytes with
    | None => Some (b, Err (MemoryBudgetExceeded USIZE_MAX (available b)))
    | Some total =>
        match reserve b total with
        | (b1, Err e) => Some (b1, Err e)
        | (b1, Ok combined) =>
            '(b2, r) ← split_off b1 combined input_bytes;
            match r with
            | Ok input => Some (b2, Ok (mkAdmission combined input None))
            | Err e => '(b3, _) ← drop_permit b2 combined; Some (b3, Err e)
            end
        end
    end.

(** [EnrollmentAdmission::with_release_guard] *)
Definition with_release_guard (a : EnrollmentAdmission) (g : G) : EnrollmentAdmission :=
  mkAdmission (adm_operation a) (adm_input a) (Some g).

(** [EnrollmentAdmission::into_parts]: the guard moves into the input permit. *)
Definition into_parts (b : PlaintextBudget) (a : EnrollmentAdmission)
    : option (PlaintextBudget * (positive * positive)) :=
  p ← permits b !! adm_input a;
  Some (mkBudget (limit b) (used b)
          (<[adm_input a := mkPermit (permit_bytes p) (adm_guard a)]> (permits b)),
        (adm_operation a, adm_input a)).

(** ** The accounting invariant *)

Definition budget_inv (b : PlaintextBudget) : Prop :=
  used b = map_sum permit_bytes (permits b) ∧ used b ≤ limit b ≤ U64_MAX ∧
  ∀ id p, permits b !! id = Some p → 1 ≤ permit_bytes p.

Lemma permits_nonneg b id p : budget_inv b → permits b !! id = Some p → 0 ≤ permit_bytes p.
Proof. intros (_ & _ & Hpos) Hp. specialize (Hpos _ _ Hp). lia. Qed.

Lemma used_nonneg b : budget_inv b → 0 ≤ used b.
Proof.
  intros Hinv. pose proof Hinv as (-> & _). apply map_sum_nonneg.
  intros id p Hp. by eapply permits_nonneg.
Qed.

Lemma permit_le_used b id p : budget_inv b → permits b !! id = Some p → permit_bytes p ≤ used b.
Proof.
  intros Hinv Hp. pose proof Hinv as (-> & _). eapply map_sum_lookup_le; [|done].
  intros id' p' Hp'. by eapply permits_nonneg.
Qed.

Lemma fresh_permit b : permits b !! fresh (dom (permits b)) = None.
Proof. apply not_elem_of_dom, is_fresh. Qed.

Lemma PlaintextBudget_new_inv l b :
  0 ≤ l ≤ U64_MAX → PlaintextBudget_new l = Ok b → budget_inv b ∧ limit b = l ∧ permits b = ∅.
Proof.
  unfold PlaintextBudget_new. intros Hl Hb. inv_ok. breflect. subst b.
  unfold budget_inv; simpl. rewrite map_sum_empty. split_and!; try done; try lia.
Qed.

(** Reservation on every branch. *)
Lemma reserve_spec b n b' r :
  budget_inv b → 0 ≤ n → reserve b n = (b', r) →
  budget_inv b' ∧ limit b' = limit b ∧
  match r with
  | Ok id => n ≠ 0 ∧ used b + n ≤ limit b ∧ permits b !! id = None ∧
             b' = mkBudget (limit b) (used b + n) (<[id := mkPermit n None]> (permits b))
  | Err e => b' = b ∧
             (n = 0 ∧ e = InvalidInput "zero-byte reservation" ∨
              n ≠ 0 ∧ limit b < used b + n ∧ e = MemoryBudgetExceeded n (limit b - used b))
  end.
Proof.
  intros Hinv Hn Hr. unfold reserve in Hr. pose proof (used_nonneg b Hinv).
  pose proof Hinv as (Hsum & Hle & Hpos).
  destruct (Z.eqb_spec n 0) as [->|Hn0].
  { simplify_eq. naive_solver. }
  assert (available b = limit b - used b) as Hav by (unfold available, saturating_sub; lia).
  unfold checked_add in Hr. destruct (Z.leb_spec (used b + n) U64_MAX).
  2:{ simplify_eq. split_and!; try done. right. split_and!; [done|lia|by rewrite Hav]. }
  destruct (Z.ltb_spec (limit b) (used b + n)); simplify_eq.
  { split_and!; try done. right. split_and!; [done|lia|by rewrite Hav]. }
  pose proof (fresh_permit b) as Hf. unfold budget_inv; simpl. split_and!; try done; try lia.
  - rewrite map_sum_insert by done. simpl. lia.
  - intros id' p'. rewrite lookup_insert_Some. intros [[<- <-]|[_ Hp]]; [simpl; lia|eauto].
Qed.

(** Dropping a live permit never underflows and returns exactly its bytes. *)
Lemma drop_permit_spec b id p :
  budget_inv b → permits b !! id = Some p →
  ∃ b', drop_permit b id = Some (b', permit_guard p) ∧ budget_inv b' ∧
    b' = mkBudget (limit b) (used b - permit_bytes p) (delete id (permits b)).
Proof.
  intros Hinv Hp. pose proof (permit_le_used _ _ _ Hinv Hp). pose proof Hinv as (Hsum & Hle & Hpos).
  unfold drop_permit. rewrite Hp. cbn [mbind option_bind]. rewrite checked_sub_eq by done.
  cbn [mbind option_bind]. eexists. split; [done|]. split; [|done].
  specialize (Hpos _ _ Hp) as Hp1. unfold budget_inv; simpl. split_and!; try lia.
  - rewrite (map_sum_delete _ _ _ _ Hp). lia.
  - intros id' p' [_ Hp']%lookup_delete_Some. eauto.
Qed.

Lemma budget_inv_update b id p p' u :
  budget_inv b → permits b !! id = Some p → 1 ≤ permit_bytes p' →
  u = used b - permit_bytes p + permit_bytes p' → u ≤ limit b →
  budget_inv (mkBudget (limit b) u (<[id := p']> (permits b))).
Proof.
  intros (Hsum & Hle & Hpos) Hp Hp' -> Hu. unfold budget_inv; simpl. split_and!; try lia.
  - rewrite (map_sum_update _ _ _ _ _ Hp). lia.
  - intros id' q. rewrite lookup_insert_Some. intros [[<- <-]|[_ Hq]]; [done|eauto].
Qed.

Lemma shrink_to_spec b id p n :
  budget_inv b → permits b !! id = Some p → 0 ≤ n →
  ∃ b' g r, shrink_to b id n = Some (b', g, r) ∧ budget_inv b' ∧
  match r with
  | Ok id' => id' = id ∧ g = None ∧ 1 ≤ n ≤ permit_bytes p ∧
      b' = mkBudget (limit b) (used b - permit_bytes p + n)
             (<[id := mkPermit n (permit_guard p)]> (permits b))
  | Err e => (n = 0 ∨ permit_bytes p < n) ∧ drop_permit b id = Some (b', g)
  end.
Proof.
  intros Hinv Hp Hn. pose proof Hinv as (Hsum & Hle & Hpos). specialize (Hpos _ _ Hp).
  pose proof (permit_le_used _ _ _ Hinv Hp). unfold shrink_to. rewrite Hp. cbn [mbind option_bind].
  destruct ((n =? 0) || (permit_bytes p <? n)) eqn:Hbad.
  { destruct (drop_permit_spec _ _ _ Hinv Hp) as (b' & Hd & Hinv' & _).
    rewrite Hd. cbn [mbind option_bind]. eexists _, _, _. split; [done|].
    split; [done|]. split; [lia|done]. }
  breflect. destruct (Z.eqb_spec (permit_bytes p - n) 0) as [E|E].
  - eexists _, _, _. split; [done|]. split; [done|].
    replace n with (permit_bytes p) by lia. split_and!; try done; try lia.
    rewrite insert_id by (rewrite Hp; by destruct p). destruct b; simpl. f_equal; lia.
  - rewrite checked_sub_eq by lia. cbn [mbind option_bind].
    eexists _, _, _. split; [done|]. split.
    + eapply budget_inv_update; simpl; eauto; lia.
    + split_and!; try done; try lia. f_equal. lia.
Qed.

Lemma split_off_spec b id p n :
  budget_inv b → permits b !! id = Some p → 1 ≤ n < permit_bytes p →
  ∃ b' id', split_off b id n = Some (b', Ok id') ∧ budget_inv b' ∧ permits b !! id' = None ∧
    b' = mkBudget (limit b) (used b)
           (<[id' := mkPermit n None]>
             (<[id := mkPermit (permit_bytes p - n) (permit_guard p)]> (permits b))).
Proof.
  intros Hinv Hp Hn. pose proof Hinv as (Hsum & Hle & Hpos). pose proof (fresh_permit b) as Hf.
  unfold split_off. rewrite Hp. cbn [mbind option_bind].
  destruct ((n =? 0) || _) eqn:Hbad; [lia|].
  eexists _, _. split; [done|]. split_and!; try done.
  assert (fresh (dom (permits b)) ≠ id) as Hne by congruence.
  unfold budget_inv; simpl. split_and!; try lia.
  - rewrite map_sum_insert by (by rewrite lookup_insert_ne).
    rewrite (map_sum_update _ _ _ _ _ Hp). simpl. lia.
  - intros i q. rewrite !lookup_insert_Some. intros [[<- <-]|[_ [[<- <-]|[_ Hq]]]]; simpl; eauto; lia.
Qed.

(** Enrollment admission on every branch. *)
Lemma reserve_enrollment_spec b o i :
  budget_inv b → 0 ≤ o ≤ U64_MAX → 0 ≤ i ≤ U64_MAX →
  ∃ b' r, reserve_enrollment b o i = Some (b', r) ∧ budget_inv b' ∧ limit b' = limit b ∧
  match r with
  | Ok a =>
      1 ≤ o ∧ 1 ≤ i ∧ used b + o + i ≤ limit b ∧ used b' = used b + o + i ∧
      adm_guard a = None ∧ adm_operation a ≠ adm_input a ∧
      permits b !! adm_operation a = None ∧ permits b !! adm_input a = None ∧
      permits b' = <[adm_input a := mkPermit i None]>
                     (<[adm_operation a := mkPermit o None]> (permits b))
  | Err (MemoryBudgetExceeded requested free) =>
      b' = b ∧ 1 ≤ o ∧ 1 ≤ i ∧ limit b < used b + o + i ∧ free = limit b - used b ∧
      requested = Z.min (o + i) U64_MAX
  | Err e => b' = b ∧ (o = 0 ∨ i = 0) ∧ e = InvalidInput "enrollment reservation"
  end.
Proof.
  intros Hinv Ho Hi. pose proof (used_nonneg b Hinv). pose proof Hinv as (_ & Hle & _).
  assert (available b = limit b - used b) as Hav by (unfold available, saturating_sub; lia).
  unfold reserve_enrollment. destruct ((o =? 0) || (i =? 0)) eqn:Hz.
  { eexists _, _. split; [done|]. split_and!; try done. lia. }
  breflect. unfold checked_add. destruct (Z.leb_spec (o + i) U64_MAX).
  2:{ eexists _, _. split; [done|]. rewrite Hav. unfold USIZE_MAX. split_and!; try done; lia. }
  destruct (reserve b (o + i)) as [b1 [id|e]] eqn:Hr;
    (apply reserve_spec in Hr as (Hinv1 & Hlim & Hr); [|done|lia]).
  2:{ destruct Hr as [-> [(?&_)|(_ & Hlt & ->)]]; [lia|].
      eexists _, _. split; [done|]. split_and!; try done; lia. }
  destruct Hr as (_ & Hfit & Hnone & Hb1).
  assert (permits b1 !! id = Some (mkPermit (o + i) None)) as Hid
    by (subst b1; simpl; apply lookup_insert_eq).
  destruct (split_off_spec b1 id _ i Hinv1 Hid) as (b2 & id' & Hs & Hinv2 & Hnone' & Hb2);
    [simpl; lia|].
  rewrite Hs. cbn [mbind option_bind]. eexists _, _. split; [done|].
  assert (id ≠ id' ∧ permits b !! id' = None) as [Hne Hnone2].
  { subst b1. simpl in Hnone'. apply lookup_insert_None in Hnone' as [? ?]. done. }
  subst b2 b1. simpl in *. split_and!; try done; try lia.
  rewrite insert_insert_eq. do 3 f_equal. lia.
Qed.

(** ** Sequences of operations *)

Inductive budget_step : PlaintextBudget → PlaintextBudget → Prop :=
| step_reserve b n b' r : 0 ≤ n ≤ U64_MAX → reserve b n = (b', r) → budget_step b b'
| step_enroll b o i b' r :
    0 ≤ o ≤ U64_MAX → 0 ≤ i ≤ U64_MAX → reserve_enrollment b o i = Some (b', r) → budget_step b b'
| step_into_parts b a b' ps : into_parts b a = Some (b', ps) → budget_step b b'
| step_shrink b id n b' g r : 0 ≤ n ≤ U64_MAX → shrink_to b id n = Some (b', g, r) → budget_step b b'
| step_drop b id b' g : drop_permit b id = Some (b', g) → budget_step b b'.

Lemma into_parts_inv b a b' ps : budget_inv b → into_parts b a = Some (b', ps) → budget_inv b' ∧ limit b' = limit b.
Proof.
  intros Hinv Hi. unfold into_parts in Hi. inv_ok. simplify_eq. split; [|done].
  pose proof Hinv as (_ & Hle & Hpos).
  eapply budget_inv_update; eauto; simpl; [by eapply Hpos|lia|lia].
Qed.

Lemma budget_step_inv b b' : budget_inv b → budget_step b b' → budget_inv b' ∧ limit b' = limit b.
Proof.
  intros Hinv Hstep. destruct Hstep as [b n b' r Hn Hr|b o i b' r Ho Hi He|b a b' ps Hi
    |b id n b' g r Hn Hs|b id b' g Hd].
  - apply reserve_spec in Hr as (?&?&_); [done|done|lia].
  - destruct (reserve_enrollment_spec b o i Hinv Ho Hi) as (? & ? & He' & ? & ? & _). simplify_eq. done.
  - by eapply into_parts_inv.
  - destruct (permits b !! id) as [p|] eqn:Hp; [|unfold shrink_to in Hs; by rewrite Hp in Hs].
    destruct (shrink_to_spec b id p n Hinv Hp) as (b1 & g1 & r1 & Hs' & Hinv' & Hr); [lia|].
    simplify_eq. split; [done|]. destruct r as [id'|e].
    + by destruct Hr as (_ & _ & _ & ->).
    + destruct Hr as [_ Hd]. destruct (drop_permit_spec b id p Hinv Hp) as (b2 & Hd' & _ & ->).
      by simplify_eq.
  - destruct (permits b !! id) as [p|] eqn:Hp; [|unfold drop_permit in Hd; by rewrite Hp in Hd].
    destruct (drop_permit_spec b id p Hinv Hp) as (b2 & Hd' & Hinv' & Hb2). simplify_eq. done.
Qed.

Lemma budget_steps_inv b b' : budget_inv b → rtc budget_step b b' → budget_inv b' ∧ limit b' = limit b.
Proof.
  intros Hinv Hsteps. induction Hsteps as [b|b b1 b' Hstep _ IH]; [done|].
  destruct (budget_step_inv _ _ Hinv Hstep) as [Hinv1 <-]. by apply IH.
Qed.

(** The budget never over-commits and never loses a byte: after any sequence of
    reservations, enrollment admissions, shrinks and drops, the charged bytes are
    exactly those of the live permits and at most the limit; every live permit can
    be dropped or shrunk without an accounting panic; and with no live permit
    nothing is charged. *)
Theorem budget_accounting_exact l b0 b :
  0 ≤ l ≤ U64_MAX → PlaintextBudget_new l = Ok b0 → rtc budget_step b0 b →
  used b = map_sum permit_bytes (permits b) ∧ used b ≤ l ∧
  (∀ id n, is_Some (permits b !! id) → 0 ≤ n →
     is_Some (drop_permit b id) ∧ is_Some (shrink_to b id n)) ∧
  (permits b = ∅ → used b = 0).
Proof.
  intros Hl Hnew Hsteps. destruct (PlaintextBudget_new_inv _ _ Hl Hnew) as (Hinv0 & Hlim & _).
  destruct (budget_steps_inv _ _ Hinv0 Hsteps) as [Hinv Hlim']. pose proof Hinv as (Hsum & Hle & _).
  split_and!; [done|lia| |].
  - intros id n [p Hp] Hn. destruct (drop_permit_spec _ _ _ Hinv Hp) as (? & -> & _).
    destruct (shrink_to_spec _ _ _ _ Hinv Hp Hn) as (? & ? & ? & -> & _). by split; eexists.
  - intros He. by rewrite Hsum, He, map_sum_empty.
Qed.

(** An enrollment admission is atomic: it either charges the operation and the
    input bytes together, as two separate live permits of exactly those sizes, or
    changes nothing; it is refused only for an empty part or when both do not fit,
    and the refusal reports what is available. It never leaves a half-made
    reservation and never fails to split. *)
Theorem enrollment_admission_atomic l b0 b o i :
  0 ≤ l ≤ U64_MAX → PlaintextBudget_new l = Ok b0 → rtc budget_step b0 b →
  0 ≤ o ≤ U64_MAX → 0 ≤ i ≤ U64_MAX →
  ∃ b' r, reserve_enrollment b o i = Some (b', r) ∧
  match r with
  | Ok a => 1 ≤ o ∧ 1 ≤ i ∧ used b' = used b + o + i ∧ used b' ≤ l ∧
      adm_operation a ≠ adm_input a ∧
      permits b' !! adm_operation a = Some (mkPermit o None) ∧
      permits b' !! adm_input a = Some (mkPermit i None) ∧
      (∀ id p, permits b !! id = Some p → permits b' !! id = Some p)
  | Err e => b' = b ∧ ((o = 0 ∨ i = 0) ∨ l < used b + o + i)
  end.
Proof.
  intros Hl Hnew Hsteps Ho Hi. destruct (PlaintextBudget_new_inv _ _ Hl Hnew) as (Hinv0 & Hlim & _).
  destruct (budget_steps_inv _ _ Hinv0 Hsteps) as [Hinv Hlim'].
  destruct (reserve_enrollment_spec b o i Hinv Ho Hi) as (b' & r & He & _ & _ & Hr).
  exists b', r. split; [done|]. destruct r as [a|e].
  - destruct Hr as (H1 & H2 & Hfit & Hu & _ & Hne & Hn1 & Hn2 & Hp).
    split_and!; try done; try lia.
    + rewrite Hp, lookup_insert_ne by done. apply lookup_insert_eq.
    + rewrite Hp. apply lookup_insert_eq.
    + intros id p Hid. rewrite Hp, !lookup_insert_ne by congruence. done.
  - destruct e; destruct Hr as (-> & Hr); (split; [done|]); first [by left; apply Hr | right; lia].
Qed.

End budget.
Arguments BudgetPermit : clear implicits.
Arguments PlaintextBudget : clear implicits.
Arguments EnrollmentAdmission : clear implicits.

(** ** Concrete instances *)

Definition small_budget : PlaintextBudget () := mkBudget 100 0 ∅.
Definition small_budget_used : PlaintextBudget () := (reserve small_budget 60).1.

Lemma budget_accounting_exact_witness :
  used small_budget_used = map_sum permit_bytes (permits small_budget_used) ∧
  used small_budget_used = 60.
Proof.
  split; [|reflexivity].
  refine (proj1 (budget_accounting_exact 100 small_budget small_budget_used _ eq_refl _)).
  - unfold_max. lia.
  - apply rtc_once, (step_reserve small_budget 60 _ (reserve small_budget 60).2);
      [unfold_max; lia | reflexivity].
Defined.

Lemma enrollment_admission_atomic_witness :
  ∃ b' r, reserve_enrollment small_budget_used 30 11 = Some (b', Err r) ∧ b' = small_budget_used.
Proof.
  destruct (enrollment_admission_atomic 100 small_budget small_budget_used 30 11)
    as (b' & r & He & Hr).
  - unfold_max. lia.
  - reflexivity.
  - apply rtc_once, (step_reserve small_budget 60 _ (reserve small_budget 60).2);
      [unfold_max; lia | reflexivity].
  - unfold_max. lia.
  - unfold_max. lia.
  - vm_compute in He. destruct r as [a|e]; [discriminate He|]. exists b', e.
    split; [|exact (proj1 Hr)]. rewrite (proj1 Hr). injection He as _ <-. reflexivity.
Defined.
