(* ===== verification/Cache.v ===== *)
(** * The model cache: definitions

    [crates/howy-daemon/src/storage/cache.rs] on top of the plaintext budget, and
    the lease types of [contracts.rs]. Reference-counted models are a store:
    [w_arcs] maps the identity of every live [Arc<BudgetedAuthModel>] to its model,
    the permit it owns and its strong count, so that an evicted entry gives its
    bytes back to the budget only when the last lease is gone. An operation whose
    [expect] fails is [None]. *)

From S2P Require Import Prelude Bytes Storage Contracts Budget.

(** ** Shared ownership *)

Record ArcModel := mkArc { arc_model : AuthModel; arc_permit : positive; arc_strong : Z }.

(** The budget, the live models and the admission registry
    ([UserAdmissionRegistry::active]). A permit's release guard is the
    [UserAdmissionGuard] of a user. *)
Record World := mkWorld {
  w_budget : PlaintextBudget CanonicalUsername;
  w_arcs : gmap positive ArcModel;
  w_active : gset CanonicalUsername;
}.

(** [Drop for UserAdmissionGuard] *)
Definition release_guard (active : gset CanonicalUsername) (g : option CanonicalUsername)
    : gset CanonicalUsername :=
  match g with Some u => active ∖ {[u]} | None => active end.

(** [UserAdmissionRegistry::try_acquire] *)
Definition try_acquire (w : World) (u : CanonicalUsername) : World * bresult CanonicalUsername :=
  if bool_decide (u ∈ w_active w) then (w, Err Unavailable)
  else (mkWorld (w_budget w) (w_arcs w) ({[u]} ∪ w_active w), Ok u).

(** Dropping a permit together with the guard it carries. *)
Definition world_drop_permit (w : World) (id : positive) : option World :=
  '(b, g) ← drop_permit (w_budget w) id;
  Some (mkWorld b (w_arcs w) (release_guard (w_active w) g)).

(** [CachedAuthModel::new] over [BudgetedAuthModel::new]: a permit that is too
    small is dropped with the model. *)
Definition CachedAuthModel_new (w : World) (model : AuthModel) (permit : positive)
    : option (World * bresult positive) :=
  p ← permits (w_budget w) !! permit;
  if permit_bytes p <? am_plaintext_bytes model
  then w' ← world_drop_permit w permit;
       Some (w', Err (InvalidInput "model reservation is too small"))
  else
    let a := fresh (dom (w_arcs w)) in
    Some (mkWorld (w_budget w) (<[a := mkArc model permit 1]> (w_arcs w)) (w_active w), Ok a).

(** [Arc::clone], as [CachedAuthModel::lease] uses it, and [Drop for Arc]. *)
Definition arc_clone (w : World) (a : positive) : option World :=
  arc ← w_arcs w !! a;
  Some (mkWorld (w_budget w)
          (<[a := mkArc (arc_model arc) (arc_permit arc) (arc_strong arc + 1)]> (w_arcs w))
          (w_active w)).

Definition arc_drop (w : World) (a : positive) : option World :=
  arc ← w_arcs w !! a;
  if arc_strong arc =? 1
  then world_drop_permit (mkWorld (w_budget w) (delete a (w_arcs w)) (w_active w)) (arc_permit arc)
  else Some (mkWorld (w_budget w)
          (<[a := mkArc (arc_model arc) (arc_permit arc) (arc_strong arc - 1)]> (w_arcs w))
          (w_active w)).

Definition arc_model_of (w : World) (a : positive) : option AuthModel := arc_model <$> w_arcs w !! a.

(** ** Cache state *)

Record ModelCacheLimits := mkLimits { max_users : Z; max_bytes : Z }.

(** [ModelCacheLimits::new] *)
Definition ModelCacheLimits_new (users bytes_ : Z) : bresult ModelCacheLimits :=
  users' ← ok_or (try_from_u USIZE_MAX users) (InvalidInput "cache user limit");
  bytes' ← ok_or (try_from_u USIZE_MAX bytes_) (InvalidInput "cache byte limit");
  if users' =? 0 then Err (InvalidInput "cache user limit")
  else if bytes' =? 0 then Err (InvalidInput "cache byte limit")
  else Ok (mkLimits users' bytes').

Record CacheEntry := mkCacheEntry { ce_model : positive; ce_bytes : Z; ce_last_used : Z }.

Record CacheState := mkCache {
  c_entries : gmap CanonicalUsername CacheEntry;
  c_bytes : Z;
  c_clock : Z;
  c_revision : Z;
  c_disabled : bool;
}.

(** [CacheState::default], as [ModelCache::new] builds it. *)
Definition cache_new : CacheState := mkCache ∅ 0 0 0 false.

(** [+= 1] on the [u128] revision (release builds wrap). *)
Definition bump (revision : Z) : Z := (revision + 1) mod 2 ^ 128.

(** [CacheState::next_clock] *)
Definition next_clock (c : CacheState) : CacheState * Z :=
  let c' :=
    if c_clock c =? U64_MAX
    then mkCache ((λ e, mkCacheEntry (ce_model e) (ce_bytes e) 0) <$> c_entries c)
           (c_bytes c) 0 (c_revision c) (c_disabled c)
    else c in
  let clock := c_clock c' + 1 in
  (mkCache (c_entries c') (c_bytes c') clock (c_revision c') (c_disabled c'), clock).

(** [CacheState::remove], the removed entry dropped: whether there was one. *)
Definition cache_remove (w : World) (c : CacheState) (u : CanonicalUsername)
    : option (World * CacheState * bool) :=
  match c_entries c !! u with
  | None => Some (w, c, false)
  | Some e =>
      b ← checked_sub (c_bytes c) (ce_bytes e);
      w' ← arc_drop w (ce_model e);
      Some (w', mkCache (delete u (c_entries c)) b (c_clock c) (bump (c_revision c))
                  (c_disabled c), true)
  end.

(** The order of [min_by]: last use, then the name's bytes. *)
Fixpoint bytes_leb (l r : bytes) : bool :=
  match l, r with
  | [], _ => true
  | _ :: _, [] => false
  | x :: l', y :: r' =>
      (byte.unsigned x <? byte.unsigned y)
      || ((byte.unsigned x =? byte.unsigned y) && bytes_leb l' r')
  end.
Definition lru_leb (l r : CanonicalUsername * CacheEntry) : bool :=
  (ce_last_used l.2 <? ce_last_used r.2)
  || ((ce_last_used l.2 =? ce_last_used r.2) && bytes_leb (user_bytes l.1) (user_bytes r.1)).

(** [iter().min_by(..)]: the first least element. *)
Definition min_by {A} (leb : A → A → bool) (l : list A) : option A :=
  match l with
  | [] => None
  | x :: rest => Some (foldl (λ best y, if leb best y then best else y) x rest)
  end.

Definition lru_candidate (c : CacheState) (protected : option CanonicalUsername)
    : option CanonicalUsername :=
  fst <$> min_by lru_leb (filter (λ p, protected ≠ Some p.1) (map_to_list (c_entries c))).

(** [CacheState::evict_lru_except], [CacheState::evict_lru] *)
Definition evict_lru_except (w : World) (c : CacheState) (protected : option CanonicalUsername)
    : option (World * CacheState * bool) :=
  match lru_candidate c protected with
  | None => Some (w, c, false)
  | Some u => cache_remove w c u
  end.
Definition evict_lru (w : World) (c : CacheState) : option (World * CacheState * bool) :=
  evict_lru_except w c None.

(** ** Lookups *)

(** [ModelCache::get]: a new lease on the cached model. *)
Definition cache_get (w : World) (c : CacheState) (u : CanonicalUsername)
    : option (World * CacheState * option positive) :=
  if c_disabled c then Some (w, c, None)
  else
    let '(c1, clock) := next_clock c in
    match c_entries c1 !! u with
    | None => Some (w, c1, None)
    | Some e =>
        w' ← arc_clone w (ce_model e);
        Some (w', mkCache (<[u := mkCacheEntry (ce_model e) (ce_bytes e) clock]> (c_entries c1))
                    (c_bytes c1) (c_clock c1) (c_revision c1) (c_disabled c1),
              Some (ce_model e))
    end.

(** [ModelCache::generation] *)
Definition cache_generation (w : World) (c : CacheState) (u : CanonicalUsername)
    : option (CacheState * option Z) :=
  if c_disabled c then Some (c, None)
  else
    let '(c1, clock) := next_clock c in
    match c_entries c1 !! u with
    | None => Some (c1, None)
    | Some e =>
        m ← arc_model_of w (ce_model e);
        Some (mkCache (<[u := mkCacheEntry (ce_model e) (ce_bytes e) clock]> (c_entries c1))
                (c_bytes c1) (c_clock c1) (c_revision c1) (c_disabled c1),
              Some (am_generation m))
    end.

(** ** Reservations *)

(** The [loop] of [reserve_operation_except] and [reserve_enrollment_except]: try,
    and evict until the budget admits the request. *)
Fixpoint reserve_loop {A} (attempt : PlaintextBudget CanonicalUsername →
      option (PlaintextBudget CanonicalUsername * bresult A))
    (fuel : nat) (w : World) (c : CacheState) (protected : option CanonicalUsername)
    : option (World * CacheState * bresult A) :=
  match fuel with
  | O => None
  | S fuel' =>
      '(b, r) ← attempt (w_budget w);
      let w1 := mkWorld b (w_arcs w) (w_active w) in
      match r with
      | Ok a => Some (w1, c, Ok a)
      | Err (MemoryBudgetExceeded requested free) =>
          '(w2, c2, evicted) ← evict_lru_except w1 c protected;
          if (evicted : bool) then reserve_loop attempt fuel' w2 c2 protected
          else Some (w2, c2, Err (MemoryBudgetExceeded requested free))
      | Err e => Some (w1, c, Err e)
      end
  end.

(** Every round but the last evicts an entry. *)
Definition loop_fuel (c : CacheState) : nat := S (size (c_entries c)).

(** [ModelCache::reserve_operation_except] *)
Definition reserve_operation_except (w : World) (c : CacheState) (n : Z)
    (protected : option CanonicalUsername) : option (World * CacheState * bresult positive) :=
  if c_disabled c then Some (w, c, Err Unavailable)
  else reserve_loop (λ b, Some (reserve b n)) (loop_fuel c) w c protected.
Definition reserve_operation (w : World) (c : CacheState) (n : Z) :=
  reserve_operation_except w c n None.
Definition reserve_operation_for_user (w : World) (c : CacheState) (n : Z) (u : CanonicalUsername) :=
  reserve_operation_except w c n (Some u).

(** [ModelCache::reserve_enrollment_except], [reserve_enrollment_for_user] *)
Definition reserve_enrollment_except (w : World) (c : CacheState) (o i : Z)
    (protected : option CanonicalUsername)
    : option (World * CacheState * bresult (EnrollmentAdmission CanonicalUsername)) :=
  if c_disabled c then Some (w, c, Err Unavailable)
  else reserve_loop (λ b, reserve_enrollment b o i) (loop_fuel c) w c protected.
Definition reserve_enrollment_for_user (w : World) (c : CacheState) (o i : Z)
    (u : CanonicalUsername) := reserve_enrollment_except w c o i (Some u).

(** ** Insertion *)

Definition needs_room (limits : ModelCacheLimits) (c : CacheState) (n : Z) : bool :=
  (max_users limits <=? Z.of_nat (size (c_entries c)))
  || (max_bytes limits <? saturating_add (c_bytes c) n).

(** The [while] of the two insertions: whether room was made. *)
Fixpoint make_room (limits : ModelCacheLimits) (n : Z) (fuel : nat) (w : World) (c : CacheState)
    : option (World * CacheState * bool) :=
  if needs_room limits c n
  then
    match fuel with
    | O => None
    | S fuel' =>
        '(w1, c1, evicted) ← evict_lru w c;
        if (evicted : bool) then make_room limits n fuel' w1 c1 else Some (w1, c1, false)
    end
  else Some (w, c, true).

(** The tail of the two insertions: the entry is published under the next tick. *)
Definition publish_entry (c : CacheState) (u : CanonicalUsername) (a : positive) (n : Z)
    : option CacheState :=
  let '(c1, clock) := next_clock c in
  total ← checked_add (c_bytes c1) n;
  Some (mkCache (<[u := mkCacheEntry a n clock]> (c_entries c1)) total (c_clock c1)
          (bump (c_revision c1)) (c_disabled c1)).

(** [ModelCache::insert_cached]; the handle [a] is consumed. *)
Definition insert_cached (limits : ModelCacheLimits) (w : World) (c : CacheState)
    (u : CanonicalUsername) (a : positive) : option (World * CacheState * bresult positive) :=
  m ← arc_model_of w a;
  let n := am_plaintext_bytes m in
  if max_bytes limits <? n
  then w' ← arc_drop w a; Some (w', c, Err (MemoryBudgetExceeded n (max_bytes limits)))
  else if c_disabled c then w' ← arc_drop w a; Some (w', c, Err Unavailable)
  else
    '(w1, c1, _) ← cache_remove w c u;
    '(w2, c2, room) ← make_room limits n (loop_fuel c1) w1 c1;
    if (room : bool)
    then
      w3 ← arc_clone w2 a;
      c3 ← publish_entry c2 u a n;
      Some (w3, c3, Ok a)
    else
      w3 ← arc_drop w2 a;
      Some (w3, c2, Err (MemoryBudgetExceeded n (saturating_sub (max_bytes limits) (c_bytes c2)))).

(** [ModelCache::insert] *)
Definition cache_insert (limits : ModelCacheLimits) (w : World) (c : CacheState)
    (u : CanonicalUsername) (model : AuthModel) (permit : positive)
    : option (World * CacheState * bresult positive) :=
  let n := am_plaintext_bytes model in
  if max_bytes limits <? n
  then w' ← world_drop_permit w permit;
       Some (w', c, Err (MemoryBudgetExceeded n (max_bytes limits)))
  else
    '(w1, r) ← CachedAuthModel_new w model permit;
    match r with
    | Err e => Some (w1, c, Err e)
    | Ok a => insert_cached limits w1 c u a
    end.

(** [ModelCache::insert_provisional_if_revision]: [publish] is what the predicate
    answers when it is asked; the last component says whether it was asked. *)
Definition insert_provisional_if_revision (limits : ModelCacheLimits) (w : World) (c : CacheState)
    (u : CanonicalUsername) (expected_revision expected_generation : Z) (a : positive)
    (publish : bool) : option (World * CacheState * bresult bool * bool) :=
  m ← arc_model_of w a;
  let n := am_plaintext_bytes m in
  let refuse r asked := w' ← arc_drop w a; Some (w', c, r, asked) in
  if negb (am_generation m =? expected_generation)
  then refuse (Err (InvalidInput "provisional cache generation")) false
  else if max_bytes limits <? n then refuse (Ok false) false
  else if c_disabled c then refuse (Err Unavailable) false
  else if negb (c_revision c =? expected_revision) || bool_decide (is_Some (c_entries c !! u))
  then refuse (Ok false) false
  else if negb publish then refuse (Ok false) true
  else
    '(w1, c1, room) ← make_room limits n (loop_fuel c) w c;
    if (room : bool)
    then c2 ← publish_entry c1 u a n; Some (w1, c2, Ok true, true)
    else w2 ← arc_drop w1 a; Some (w2, c1, Ok false, true).

(** ** Invalidation *)

(** [ModelCache::invalidate] *)
Definition cache_invalidate (w : World) (c : CacheState) (u : CanonicalUsername)
    : option (World * CacheState) :=
  '(w1, c1, removed) ← cache_remove w c u;
  if (removed : bool) then Some (w1, c1)
  else Some (w1, mkCache (c_entries c1) (c_bytes c1) (c_clock c1) (bump (c_revision c1))
                   (c_disabled c1)).

(** [HashMap::clear]: every cached handle is dropped. *)
Fixpoint drop_handles (w : World) (l : list positive) : option World :=
  match l with [] => Some w | a :: rest => w' ← arc_drop w a; drop_handles w' rest end.
Definition cached_handles (c : CacheState) : list positive :=
  (λ p, ce_model p.2) <$> map_to_list (c_entries c).

(** [ModelCache::clear] *)
Definition cache_clear (w : World) (c : CacheState) : option (World * CacheState) :=
  w' ← drop_handles w (cached_handles c);
  Some (w', mkCache ∅ 0 (c_clock c) (bump (c_revision c)) (c_disabled c)).

(** [ModelCache::poison] *)
Definition cache_poison (w : World) (c : CacheState) : option (World * CacheState) :=
  w' ← drop_handles w (cached_handles c);
  Some (w', mkCache ∅ 0 (c_clock c) (Z.min (c_revision c + 1) U128_MAX) true).
