(* ===== verification/CacheLru.v ===== *)
(** * Ownership of cached models

    [world_inv w own]: every live model has [own] owners, owns one permit of its
    own that covers its plaintext, and the budget accounts for it. Dropping an
    owner keeps this and never underflows. *)
From S2P Require Import Prelude Bytes Storage Contracts Budget Cache.

Abbreviation owners := (positive → Z).

Definition own_add (own : owners) (a : positive) (d : Z) : owners :=
  λ x, own x + (if decide (x = a) then d else 0).

Lemma own_add_eq own a d : own_add own a d a = own a + d.
Proof. unfold own_add. by rewrite decide_True. Qed.
Lemma own_add_ne own a d x : x ≠ a → own_add own a d x = own x.
Proof. intros. unfold own_add. rewrite decide_False by done. lia. Qed.

Definition arc_ok (w : World) (own : owners) (a : positive) (arc : ArcModel) : Prop :=
  arc_strong arc = own a ∧ 1 ≤ own a ∧ 0 ≤ am_plaintext_bytes (arc_model arc) ∧
  ∃ p, permits (w_budget w) !! arc_permit arc = Some p ∧
       am_plaintext_bytes (arc_model arc) ≤ permit_bytes p.

Definition world_inv (w : World) (own : owners) : Prop :=
  budget_inv (w_budget w) ∧
  (∀ a, match w_arcs w !! a with Some arc => arc_ok w own a arc | None => own a = 0 end) ∧
  (∀ a1 a2 arc1 arc2, w_arcs w !! a1 = Some arc1 → w_arcs w !! a2 = Some arc2 →
     arc_permit arc1 = arc_permit arc2 → a1 = a2).

Definition owned_by_arc (w : World) (id : positive) : Prop :=
  ∃ a arc, w_arcs w !! a = Some arc ∧ arc_permit arc = id.

(** What giving up owners may do to the rest of the world. *)
Record shrinks (w w' : World) : Prop := {
  shrinks_limit : limit (w_budget w') = limit (w_budget w);
  shrinks_used : used (w_budget w') ≤ used (w_budget w);
  shrinks_external id : ¬ owned_by_arc w id →
    permits (w_budget w') !! id = permits (w_budget w) !! id ∧ ¬ owned_by_arc w' id;
  shrinks_models a m : arc_model_of w' a = Some m → arc_model_of w a = Some m;
}.

Lemma shrinks_refl w : shrinks w w.
Proof. by split. Qed.
Lemma shrinks_trans w1 w2 w3 : shrinks w1 w2 → shrinks w2 w3 → shrinks w1 w3.
Proof.
  intros [L1 U1 E1 M1] [L2 U2 E2 M2]. split; [congruence|lia| |eauto].
  intros id Hid. destruct (E1 id Hid) as [<- Hid']. by apply E2.
Qed.

Lemma world_inv_ext w own own' : (∀ a, own a = own' a) → world_inv w own → world_inv w own'.
Proof.
  intros Heq (Hb & Ha & Hinj). split_and!; [done| |done].
  intros a. specialize (Ha a). unfold arc_ok in *. rewrite <- Heq. done.
Qed.

Lemma world_inv_lookup w own a :
  world_inv w own → 1 ≤ own a → ∃ arc, w_arcs w !! a = Some arc ∧ arc_ok w own a arc.
Proof.
  intros (_ & Ha & _) Hown. specialize (Ha a). destruct (w_arcs w !! a) as [arc|]; [eauto|lia].
Qed.

(** Changing only a strong count. *)
Lemma world_inv_count w own a arc d :
  world_inv w own → w_arcs w !! a = Some arc → 1 ≤ own a + d →
  world_inv (mkWorld (w_budget w)
    (<[a := mkArc (arc_model arc) (arc_permit arc) (arc_strong arc + d)]> (w_arcs w)) (w_active w))
    (own_add own a d).
Proof.
  intros (Hb & Ha & Hinj) Harc Hd. split_and!; simpl; [done| |].
  - intros x. destruct (decide (x = a)) as [->|Hne].
    + rewrite lookup_insert_eq. specialize (Ha a). rewrite Harc in Ha.
      destruct Ha as (Hs & Ho & Hn & Hp). unfold arc_ok; simpl. rewrite own_add_eq.
      split_and!; [lia|lia|done|done].
    + rewrite lookup_insert_ne by done. specialize (Ha x).
      destruct (w_arcs w !! x); unfold arc_ok in *; by rewrite own_add_ne.
  - intros a1 a2 arc1 arc2. rewrite !lookup_insert_Some. simpl.
    intros [[<- <-]|[? ?]] [[<- <-]|[? ?]] Hp; simpl in Hp; eauto.
Qed.

Lemma shrinks_count w a arc s :
  w_arcs w !! a = Some arc →
  shrinks w (mkWorld (w_budget w) (<[a := mkArc (arc_model arc) (arc_permit arc) s]> (w_arcs w))
               (w_active w)).
Proof.
  intros Harc. split; simpl; [done|done| |].
  - intros id Hid. split; [done|]. intros (x & arc' & Hx & <-). simpl in Hx.
    rewrite lookup_insert_Some in Hx. destruct Hx as [[<- <-]|[_ Hx]]; apply Hid; [by exists a, arc|by eexists _, _].
  - intros x m. unfold arc_model_of; simpl. destruct (decide (x = a)) as [->|Hne].
    + rewrite lookup_insert_eq, Harc. done.
    + by rewrite lookup_insert_ne.
Qed.

(** Dropping the last owner returns the permit to the budget. *)
Lemma arc_drop_last w own a arc :
  world_inv w own → w_arcs w !! a = Some arc → own a = 1 →
  ∃ w', arc_drop w a = Some w' ∧ world_inv w' (own_add own a (-1)) ∧ shrinks w w' ∧
    w_arcs w' = delete a (w_arcs w).
Proof.
  intros Hw Harc Hown. pose proof Hw as (Hb & Ha & Hinj). pose proof (Ha a) as Hoka.
  rewrite Harc in Hoka. destruct Hoka as (Hs & _ & _ & p & Hp & Hle).
  destruct (drop_permit_spec _ _ _ Hb Hp) as (b' & Hd & Hb' & Heq).
  pose proof (permits_nonneg _ _ _ Hb Hp).
  unfold arc_drop. rewrite Harc. cbn [mbind option_bind]. rewrite Hs, Hown, Z.eqb_refl.
  unfold world_drop_permit; simpl. rewrite Hd. cbn [mbind option_bind].
  eexists. split; [done|]. split; [|split; [|done]].
  - split_and!; simpl; [done| |].
    + intros x. destruct (decide (x = a)) as [->|Hne].
      * rewrite lookup_delete_eq, own_add_eq. lia.
      * rewrite lookup_delete_ne by done. pose proof (Ha x) as Hx.
        destruct (w_arcs w !! x) as [arcx|] eqn:Harcx; [|by rewrite own_add_ne].
        destruct Hx as (Hsx & Hox & Hnx & px & Hpx & Hlex).
        unfold arc_ok; simpl. rewrite own_add_ne by done. split_and!; [done|done|done|].
        exists px. split; [|done]. subst b'; simpl. rewrite lookup_delete_ne; [done|].
        intros Heqp. destruct Hne. by eapply Hinj.
    + intros a1 a2 arc1 arc2 [_ H1]%lookup_delete_Some [_ H2]%lookup_delete_Some. eauto.
  - subst b'. split; simpl; [done|lia| |].
    + intros id Hid. split.
      * rewrite lookup_delete_ne; [done|]. intros <-. apply Hid. by exists a, arc.
      * intros (x & arcx & Hx & <-). simpl in Hx. apply lookup_delete_Some in Hx as [_ Hx].
        apply Hid. by exists x, arcx.
    + intros x m. unfold arc_model_of; simpl. destruct (decide (x = a)) as [->|Hne].
      * by rewrite lookup_delete_eq.
      * by rewrite lookup_delete_ne.
Qed.

Lemma arc_drop_spec w own a :
  world_inv w own → 1 ≤ own a →
  ∃ w', arc_drop w a = Some w' ∧ world_inv w' (own_add own a (-1)) ∧ shrinks w w' ∧
    (∀ x, 1 ≤ own_add own a (-1) x → arc_model_of w' x = arc_model_of w x).
Proof.
  intros Hw Hown. destruct (world_inv_lookup _ _ _ Hw Hown) as (arc & Harc & Hs & _).
  destruct (decide (own a = 1)) as [H1|H1].
  - destruct (arc_drop_last _ _ _ _ Hw Harc H1) as (w' & Hd & Hinv & Hsh & Harcs).
    exists w'. split_and!; try done. intros x Hx. unfold arc_model_of. rewrite Harcs.
    destruct (decide (x = a)) as [->|Hne]; [rewrite own_add_eq in Hx; lia|].
    by rewrite lookup_delete_ne.
  - unfold arc_drop. rewrite Harc. cbn [mbind option_bind].
    destruct (Z.eqb_spec (arc_strong arc) 1); [lia|].
    eexists. split; [done|]. split_and!.
    + replace (arc_strong arc - 1) with (arc_strong arc + -1) by lia.
      apply world_inv_count; [done|done|lia].
    + by apply shrinks_count.
    + intros x _. unfold arc_model_of; simpl. destruct (decide (x = a)) as [->|Hne].
      * by rewrite lookup_insert_eq, Harc.
      * by rewrite lookup_insert_ne.
Qed.

Lemma arc_clone_spec w own a :
  world_inv w own → 1 ≤ own a →
  ∃ w', arc_clone w a = Some w' ∧ world_inv w' (own_add own a 1) ∧ shrinks w w' ∧
    (∀ x, arc_model_of w' x = arc_model_of w x) ∧ w_budget w' = w_budget w.
Proof.
  intros Hw Hown. destruct (world_inv_lookup _ _ _ Hw Hown) as (arc & Harc & _).
  unfold arc_clone. rewrite Harc. cbn [mbind option_bind]. eexists. split; [done|]. split_and!.
  - apply world_inv_count; [done|done|lia].
  - by apply shrinks_count.
  - intros x. unfold arc_model_of; simpl. destruct (decide (x = a)) as [->|Hne].
    + by rewrite lookup_insert_eq, Harc.
    + by rewrite lookup_insert_ne.
  - done.
Qed.

(** A new model takes over a permit no other model owns. *)
Lemma CachedAuthModel_new_spec w own model permit p :
  world_inv w own → permits (w_budget w) !! permit = Some p → ¬ owned_by_arc w permit →
  0 ≤ am_plaintext_bytes model →
  ∃ w' r, CachedAuthModel_new w model permit = Some (w', r) ∧
  match r with
  | Ok a => am_plaintext_bytes model ≤ permit_bytes p ∧ w_arcs w !! a = None ∧
      w_budget w' = w_budget w ∧ world_inv w' (own_add own a 1) ∧
      arc_model_of w' a = Some model ∧ (∀ x, x ≠ a → arc_model_of w' x = arc_model_of w x)
  | Err _ => permit_bytes p < am_plaintext_bytes model ∧ world_inv w' own ∧
      w_arcs w' = w_arcs w ∧ used (w_budget w') = used (w_budget w) - permit_bytes p
  end.
Proof.
  intros Hw Hp Hext Hn. pose proof Hw as (Hb & Ha & Hinj).
  unfold CachedAuthModel_new. rewrite Hp. cbn [mbind option_bind].
  destruct (Z.ltb_spec (permit_bytes p) (am_plaintext_bytes model)).
  - destruct (drop_permit_spec _ _ _ Hb Hp) as (b' & Hd & Hb' & ->).
    unfold world_drop_permit. rewrite Hd. cbn [mbind option_bind].
    eexists _, _. split; [done|]. split_and!; simpl; try done.
    split_and!; simpl; [done| |done]. intros a. specialize (Ha a).
    destruct (w_arcs w !! a) as [arc|] eqn:Harc; [|done].
    destruct Ha as (Hs & Ho & Hnn & q & Hq & Hle). unfold arc_ok; simpl. split_and!; try done.
    exists q. split; [|done]. rewrite lookup_delete_ne; [done|].
    intros Heq. apply Hext. by exists a, arc.
  - assert (w_arcs w !! fresh (dom (w_arcs w)) = None) as Hf by (apply not_elem_of_dom, is_fresh).
    eexists _, _. split; [done|]. set (a := fresh (dom (w_arcs w))) in *.
    assert (own a = 0) as Hown by (specialize (Ha a); by rewrite Hf in Ha).
    split_and!; try done.
    + split_and!; simpl; [done| |].
      * intros x. destruct (decide (x = a)) as [->|Hne].
        -- rewrite lookup_insert_eq. unfold arc_ok; simpl. rewrite own_add_eq.
           split_and!; [lia|lia|done|]. by exists p.
        -- rewrite lookup_insert_ne by done. specialize (Ha x).
           destruct (w_arcs w !! x); unfold arc_ok in *; by rewrite own_add_ne.
      * intros a1 a2 arc1 arc2. rewrite !lookup_insert_Some. simpl.
        intros [[<- <-]|[? H1]] [[<- <-]|[? H2]] Hq; simpl in Hq; eauto.
        -- destruct Hext. by eexists _, _.
        -- destruct Hext. by eexists _, _.
    + unfold arc_model_of; simpl. by rewrite lookup_insert_eq.
    + intros x Hx. unfold arc_model_of; simpl. by rewrite lookup_insert_ne.
Qed.

(** * The eviction order and the cache invariant *)

(** ** The order of eviction is total *)

Lemma bytes_leb_refl l : bytes_leb l l = true.
Proof. induction l as [|x l IH]; [done|]. simpl. rewrite IH, Z.eqb_refl. apply orb_true_r. Qed.

Lemma bytes_leb_total l r : bytes_leb l r = true ∨ bytes_leb r l = true.
Proof.
  revert r. induction l as [|x l IH]; intros [|y r]; simpl; auto.
  destruct (IH r) as [H|H]; rewrite H;
    destruct (Z.lt_total (byte.unsigned x) (byte.unsigned y)) as [|[|]]; lia.
Qed.

Lemma bytes_leb_trans l m r : bytes_leb l m = true → bytes_leb m r = true → bytes_leb l r = true.
Proof.
  revert m r. induction l as [|x l IH]; intros [|y m] [|z r]; simpl; try done.
  specialize (IH m r). intros H1 H2.
  apply orb_true_iff in H1 as [H1|[H1 H1']%andb_true_iff];
  apply orb_true_iff in H2 as [H2|[H2 H2']%andb_true_iff]; breflect.
  - apply orb_true_iff. left. lia.
  - apply orb_true_iff. left. lia.
  - apply orb_true_iff. left. lia.
  - rewrite (IH H1' H2'). apply orb_true_iff. right. lia.
Qed.

Lemma lru_leb_refl x : lru_leb x x = true.
Proof. unfold lru_leb. rewrite bytes_leb_refl. lia. Qed.

Lemma lru_leb_total x y : lru_leb x y = true ∨ lru_leb y x = true.
Proof.
  unfold lru_leb. destruct (bytes_leb_total (user_bytes x.1) (user_bytes y.1)) as [H|H]; rewrite H;
    destruct (Z.lt_total (ce_last_used x.2) (ce_last_used y.2)) as [|[|]]; lia.
Qed.

Lemma lru_leb_trans x y z : lru_leb x y = true → lru_leb y z = true → lru_leb x z = true.
Proof.
  unfold lru_leb. intros H1 H2.
  apply orb_true_iff in H1 as [H1|[H1 H1']%andb_true_iff];
  apply orb_true_iff in H2 as [H2|[H2 H2']%andb_true_iff]; breflect; apply orb_true_iff.
  - left. lia.
  - left. lia.
  - left. lia.
  - right. rewrite (bytes_leb_trans _ _ _ H1' H2'). lia.
Qed.

(** [min_by] returns a least element. *)
Lemma foldl_min_spec {A} (leb : A → A → bool) (x : A) (l : list A) :
  (∀ y, leb y y = true) → (∀ y z, leb y z = true ∨ leb z y = true) →
  (∀ y z t, leb y z = true → leb z t = true → leb y t = true) →
  let m := foldl (λ best y, if leb best y then best else y) x l in
  m ∈ x :: l ∧ ∀ y, y ∈ x :: l → leb m y = true.
Proof.
  intros Hrefl Htot Htrans. revert x. induction l as [|z l IH]; intros x; simpl.
  { split; [left|]. intros y Hy. apply list_elem_of_singleton in Hy as ->. apply Hrefl. }
  destruct (IH (if leb x z then x else z)) as [Hin Hmin]. clear IH. split.
  - apply elem_of_cons in Hin as [->|Hin]; [destruct (leb x z); set_solver|set_solver].
  - intros y Hy. apply elem_of_cons in Hy as [->|Hy].
    + destruct (leb x z) eqn:E; [apply Hmin; left|].
      destruct (Htot x z) as [|Hzx]; [congruence|]. eapply Htrans; [apply Hmin; left|done].
    + apply elem_of_cons in Hy as [->|Hy]; [|apply Hmin; by right].
      destruct (leb x z) eqn:E; [|apply Hmin; left]. eapply Htrans; [apply Hmin; left|done].
Qed.

Definition evictable (protected : option CanonicalUsername) (u : CanonicalUsername) : Prop :=
  protected ≠ Some u.

(** The eviction candidate is the least recently used evictable entry; there is
    none only if every entry is protected. *)
Lemma lru_candidate_spec c protected :
  match lru_candidate c protected with
  | Some u => ∃ e, c_entries c !! u = Some e ∧ evictable protected u ∧
      ∀ u' e', c_entries c !! u' = Some e' → evictable protected u' → lru_leb (u, e) (u', e') = true
  | None => ∀ u, is_Some (c_entries c !! u) → protected = Some u
  end.
Proof.
  unfold lru_candidate.
  set (l := filter _ _).
  assert (∀ u e, (u, e) ∈ l ↔ c_entries c !! u = Some e ∧ evictable protected u) as Hl.
  { intros u e. unfold l. rewrite list_elem_of_filter, elem_of_map_to_list. unfold evictable. naive_solver. }
  destruct l as [|x l'] eqn:El; cbn [min_by fmap option_fmap option_map].
  - intros u [e He]. destruct (decide (protected = Some u)) as [|Hne]; [done|].
    assert ((u, e) ∈ []) as Hin by (by apply Hl). by apply not_elem_of_nil in Hin.
  - destruct (foldl_min_spec lru_leb x l' lru_leb_refl lru_leb_total lru_leb_trans) as [Hin Hmin].
    destruct (foldl _ x l') as [u e]. simpl. exists e.
    destruct (proj1 (Hl u e) Hin) as [He Hev]. split_and!; try done.
    intros u' e' He' Hev'. apply Hmin. by apply Hl.
Qed.

(** ** The invariant *)

Definition points_to (a : positive) (e : CacheEntry) : Z := if decide (ce_model e = a) then 1 else 0.

(** How many cache entries own a model. *)
Definition refs (c : CacheState) (a : positive) : Z := map_sum (points_to a) (c_entries c).

(** Limits a validated configuration yields; [max_bytes] below [usize::MAX] keeps
    the saturating comparison of the insertion loops exact. *)
Definition limits_ok (l : ModelCacheLimits) : Prop := 1 ≤ max_users l ∧ 1 ≤ max_bytes l < U64_MAX.

Definition cache_inv (l : ModelCacheLimits) (c : CacheState) : Prop :=
  c_bytes c = map_sum ce_bytes (c_entries c) ∧ c_bytes c ≤ max_bytes l ∧
  Z.of_nat (size (c_entries c)) ≤ max_users l ∧
  0 ≤ c_clock c ≤ U64_MAX ∧ 0 ≤ c_revision c ≤ U128_MAX ∧
  (∀ u e, c_entries c !! u = Some e → 0 ≤ ce_bytes e ∧ 0 ≤ ce_last_used e ≤ c_clock c) ∧
  (c_disabled c = true → c_entries c = ∅).

Definition entries_backed (w : World) (c : CacheState) : Prop :=
  ∀ u e, c_entries c !! u = Some e →
    ∃ m, arc_model_of w (ce_model e) = Some m ∧ ce_bytes e = am_plaintext_bytes m.

(** [h a] is the number of handles on [a] outside the cache. *)
Definition sys_inv (l : ModelCacheLimits) (w : World) (c : CacheState) (h : owners) : Prop :=
  world_inv w (λ a, h a + refs c a) ∧ (∀ a, 0 ≤ h a) ∧ cache_inv l c ∧ entries_backed w c.

Lemma points_to_nonneg a e : 0 ≤ points_to a e.
Proof. unfold points_to. by destruct (decide _). Qed.

Lemma refs_nonneg c a : 0 ≤ refs c a.
Proof. apply map_sum_nonneg. intros. apply points_to_nonneg. Qed.

Lemma refs_lookup c u e : c_entries c !! u = Some e → 1 ≤ refs c (ce_model e).
Proof.
  intros He. assert (points_to (ce_model e) e = 1) as Hp by (unfold points_to; by rewrite decide_True).
  pose proof (map_sum_lookup_le (points_to (ce_model e)) (c_entries c) u e) as Hle.
  unfold refs. rewrite Hp in Hle. apply Hle; [|done]. intros. apply points_to_nonneg.
Qed.

Lemma entry_bytes_le l c u e : cache_inv l c → c_entries c !! u = Some e → ce_bytes e ≤ c_bytes c.
Proof.
  intros (Hsum & _ & _ & _ & _ & Hall & _) He. rewrite Hsum. eapply map_sum_lookup_le; [|done].
  intros u' e' He'. by apply Hall in He' as [? _].
Qed.

Lemma own_delete c u e (h : owners) m x :
  c_entries c !! u = Some e →
  own_add (λ a, h a + refs c a) (ce_model e) (-1) x
  = h x + map_sum (points_to x) (delete u (c_entries c)) + m - m.
Proof.
  intros He. rewrite (map_sum_delete _ _ _ _ He). unfold own_add, refs, points_to.
  destruct (decide (x = ce_model e)) as [->|Hne].
  - rewrite decide_True by done. lia.
  - rewrite decide_False by congruence. lia.
Qed.

Lemma bump_range r : 0 ≤ bump r ≤ U128_MAX.
Proof. unfold bump. unfold_max. pose proof (Z.mod_pos_bound (r + 1) (2 ^ 128)). lia. Qed.

Lemma bump_ne r : 0 ≤ r ≤ U128_MAX → bump r ≠ r.
Proof.
  intros Hr Heq. unfold bump in Heq. unfold_max.
  destruct (decide (r = 2 ^ 128 - 1)) as [->|Hne]; [by vm_compute in Heq|].
  rewrite Z.mod_small in Heq by lia. lia.
Qed.

(** [remove]: the entry's handle is given up, the accounts follow. *)
Lemma cache_remove_spec l w c h u :
  sys_inv l w c h →
  ∃ w' c' r, cache_remove w c u = Some (w', c', r) ∧ sys_inv l w' c' h ∧ shrinks w w' ∧
    r = bool_decide (is_Some (c_entries c !! u)) ∧ c_entries c' = delete u (c_entries c) ∧
    c_clock c' = c_clock c ∧ c_disabled c' = c_disabled c ∧
    c_revision c' = (if r then bump (c_revision c) else c_revision c) ∧
    (r = false → w' = w ∧ c' = c) ∧
    (∀ a, 1 ≤ h a + refs c' a → arc_model_of w' a = arc_model_of w a).
Proof.
  intros (Hw & Hh & Hc & Hbk). unfold cache_remove.
  destruct (c_entries c !! u) as [e|] eqn:He.
  2:{ eexists w, c, false. split; [done|]. split_and!; try done. by rewrite delete_id. }
  pose proof (entry_bytes_le _ _ _ _ Hc He) as Hle. rewrite checked_sub_eq by done.
  cbn [mbind option_bind]. pose proof (refs_lookup c u e He). pose proof (Hh (ce_model e)).
  destruct (arc_drop_spec w _ (ce_model e) Hw) as (w' & Hd & Hw' & Hsh & Hm); [simpl; lia|].
  rewrite Hd. cbn [mbind option_bind]. eexists _, _, true. split; [done|].
  assert (∀ x, own_add (λ a, h a + refs c a) (ce_model e) (-1) x
    = h x + map_sum (points_to x) (delete u (c_entries c))) as Hown.
  { intros x. rewrite (own_delete c u e h 0 x He). lia. }
  destruct Hc as (Hsum & Hmax & Hsz & Hclk & Hrev & Hall & Hdis).
  unfold sys_inv. split_and!; try done.
  - eapply world_inv_ext; [|done]. intros x. rewrite Hown. done.
  - unfold cache_inv; simpl. split_and!; try lia.
    + rewrite (map_sum_delete _ _ _ _ He). lia.
    + specialize (Hall _ _ He) as [? _]. lia.
    + rewrite (map_size_delete_Some u (c_entries c)) by eauto. lia.
    + apply bump_range.
    + apply bump_range.
    + intros u' e' [_ He']%lookup_delete_Some. eauto.
    + intros Hd'. rewrite Hdis in He by done. done.
  - intros u' e' He'. simpl in He'. pose proof He' as [_ He'']%lookup_delete_Some.
    destruct (Hbk _ _ He'') as (m & Hm' & Hb). exists m. split; [|done].
    rewrite Hm; [done|]. rewrite Hown. pose proof (Hh (ce_model e')).
    pose proof (refs_lookup (mkCache (delete u (c_entries c)) 0 0 0 false) u' e' He') as Hr.
    unfold refs in Hr; simpl in Hr. lia.
  - intros a Ha. apply Hm. rewrite Hown. done.
Qed.
