(* ===== verification/CacheProofs.v ===== *)
(** * Correctness of the model cache *)

From S2P Require Import Prelude Bytes Storage Contracts Budget Cache CacheLru.

Section cache.
  Context (l : ModelCacheLimits) (Hlim : limits_ok l).
  Implicit Types (w : World) (c : CacheState) (h : owners).

(** ** Eviction *)

(** [c'] is [c] after evicting least recently used entries, sparing [protected]. *)
Record evicted (protected : option CanonicalUsername) c c' : Prop := {
  evicted_sub : c_entries c' ⊆ c_entries c;
  evicted_spared u : protected = Some u → c_entries c' !! u = c_entries c !! u;
  evicted_lru u e u' e' : c_entries c !! u = Some e → c_entries c' !! u = None →
    c_entries c' !! u' = Some e' → evictable protected u' → lru_leb (u, e) (u', e') = true;
  evicted_clock : c_clock c' = c_clock c;
  evicted_disabled : c_disabled c' = c_disabled c;
}.

Lemma evicted_refl p c : evicted p c c.
Proof. split; try done. intros. congruence. Qed.

Lemma evicted_step p c c1 c2 u :
  lru_candidate c p = Some u → c_entries c1 = delete u (c_entries c) →
  c_clock c1 = c_clock c → c_disabled c1 = c_disabled c →
  evicted p c1 c2 → evicted p c c2.
Proof.
  intros Hu Hdel Hclk Hdis [Hsub Hsp Hlru Hclk' Hdis'].
  pose proof (lru_candidate_spec c p) as Hcand. rewrite Hu in Hcand.
  destruct Hcand as (e & He & Hev & Hmin). rewrite Hdel in *. split; try congruence.
  - etrans; [done|]. apply delete_subseteq.
  - intros u' Hp. rewrite (Hsp _ Hp). rewrite lookup_delete_ne; [done|]. intros ->. by apply Hev.
  - intros v ev u' e' Hv Hnone Hu' Hev'.
    assert (c_entries c !! u' = Some e') as Hu''.
    { eapply lookup_weaken in Hsub; [|exact Hu']. by apply lookup_delete_Some in Hsub as [_ ?]. }
    destruct (decide (v = u)) as [->|Hne].
    + rewrite He in Hv. injection Hv as <-. by apply Hmin.
    + eapply Hlru; try done. by rewrite lookup_delete_ne.
Qed.

Lemma evict_spec w c h p :
  sys_inv l w c h →
  ∃ w' c' r, evict_lru_except w c p = Some (w', c', r) ∧ sys_inv l w' c' h ∧ shrinks w w' ∧
    (∀ a, 1 ≤ h a → arc_model_of w' a = arc_model_of w a) ∧
    if (r : bool)
    then ∃ u, lru_candidate c p = Some u ∧ is_Some (c_entries c !! u) ∧
         c_entries c' = delete u (c_entries c) ∧ c_clock c' = c_clock c ∧
         c_disabled c' = c_disabled c
    else w' = w ∧ c' = c ∧ ∀ u, is_Some (c_entries c !! u) → p = Some u.
Proof.
  intros Hinv. unfold evict_lru_except. pose proof (lru_candidate_spec c p) as Hcand.
  destruct (lru_candidate c p) as [u|].
  - destruct Hcand as (e & He & _ & _).
    destruct (cache_remove_spec l w c h u Hinv)
      as (w' & c' & r & Hr & Hinv' & Hsh & Hreq & Hdel & Hclk & Hdis & _ & _ & Hm).
    exists w', c', r. split; [done|]. split_and!; try done.
    + intros a Ha. apply Hm. pose proof (refs_nonneg c' a). lia.
    + rewrite bool_decide_eq_true_2 in Hreq by eauto. subst r. by exists u.
  - exists w, c, false. split; [done|]. split_and!; try done.
Qed.

Lemma size_delete_lt (m : gmap CanonicalUsername CacheEntry) u :
  is_Some (m !! u) → (size (delete u m) < size m)%nat.
Proof.
  intros [e He]. rewrite (map_size_delete_Some u m) by eauto.
  assert (size m ≠ 0)%nat; [|lia]. apply map_size_non_empty_iff. intros ->. by rewrite lookup_empty in He.
Qed.

(** ** Reservation with eviction *)

(** What the loop needs of the reservation it retries. *)
Definition attempt_ok {A} (attempt : PlaintextBudget CanonicalUsername →
    option (PlaintextBudget CanonicalUsername * bresult A)) : Prop :=
  ∀ b, budget_inv b → ∃ b' r, attempt b = Some (b', r) ∧ budget_inv b' ∧ limit b' = limit b ∧
    (∀ id p, permits b !! id = Some p → permits b' !! id = Some p) ∧
    match r with Ok _ => True | Err _ => b' = b end.

Lemma sys_inv_budget w c h b :
  sys_inv l w c h → budget_inv b →
  (∀ id p, permits (w_budget w) !! id = Some p → permits b !! id = Some p) →
  sys_inv l (mkWorld b (w_arcs w) (w_active w)) c h.
Proof.
  intros ((_ & Ha & Hinj) & Hh & Hc & Hbk) Hb Hext. unfold sys_inv. split_and!; try done.
  split_and!; simpl; try done. intros a. specialize (Ha a).
  destruct (w_arcs w !! a) as [arc|]; [|done].
  destruct Ha as (Hs & Ho & Hn & p & Hp & Hle). unfold arc_ok; simpl. split_and!; eauto.
Qed.

(** The loop ends with one attempt, on the budget as eviction left it. *)
Lemma reserve_loop_spec {A} (attempt : PlaintextBudget CanonicalUsername →
    option (PlaintextBudget CanonicalUsername * bresult A)) fuel w c h p :
  attempt_ok attempt → sys_inv l w c h → (size (c_entries c) < fuel)%nat →
  ∃ w' c' r b, reserve_loop attempt fuel w c p = Some (w', c', r) ∧ sys_inv l w' c' h ∧
    evicted p c c' ∧ budget_inv b ∧ limit b = limit (w_budget w) ∧
    attempt b = Some (w_budget w', r) ∧
    ((∃ req free, r = Err (MemoryBudgetExceeded req free)) →
       ∀ u, is_Some (c_entries c' !! u) → p = Some u).
Proof.
  intros Hatt. revert w c. induction fuel as [|fuel IH]; intros w c Hinv Hfuel; [lia|].
  cbn [reserve_loop]. pose proof Hinv as ((Hb & _) & _).
  destruct (Hatt (w_budget w) Hb) as (b & r & Hr & Hbinv & Hlim' & Hext & Hcase).
  rewrite Hr. cbn [mbind option_bind].
  destruct r as [a|e].
  { eexists _, _, _, (w_budget w). split; [done|].
    split_and!; [by apply sys_inv_budget|apply evicted_refl|done|done|done|].
    intros (? & ? & ?). done. }
  subst b. assert (mkWorld (w_budget w) (w_arcs w) (w_active w) = w) as Hweq by (by destruct w).
  rewrite Hweq.
  destruct e as [ | | | | | | | | |req free| | ]; try
    by (eexists _, _, _, (w_budget w); split; [done|];
        split_and!; try done; [apply evicted_refl|intros (?&?&?)]).
  destruct (evict_spec w c h p Hinv) as (w1 & c1 & ev & Hev & Hinv1 & Hsh & _ & Hcase1).
  rewrite Hev. cbn [mbind option_bind]. destruct ev.
  - destruct Hcase1 as (u & Hcand & Hu & Hdel & Hclk & Hdis).
    pose proof (size_delete_lt _ _ Hu). rewrite <- Hdel in *.
    destruct (IH w1 c1 Hinv1) as (w2 & c2 & r2 & b2 & Hr2 & Hinv2 & Hev2 & Hb2 & Hl2 & Hat & Hcase2);
      [lia|].
    eexists _, _, _, _. split; [exact Hr2|]. split_and!; try done.
    + by eapply evicted_step.
    + rewrite Hl2. by apply shrinks_limit.
  - destruct Hcase1 as (-> & -> & Hall). eexists _, _, _, (w_budget w). split; [done|].
    split_and!; try done. apply evicted_refl.
Qed.

Lemma reserve_attempt_ok n : 0 ≤ n → attempt_ok (λ b, Some (reserve b n)).
Proof.
  intros Hn b Hb. destruct (reserve b n) as [b' r] eqn:Hr.
  exists b', r. split; [done|]. apply reserve_spec in Hr as (Hb' & Hl & Hr); [|done|done].
  split_and!; try done.
  - intros id p Hp. destruct r as [x|e]; [|destruct Hr as [-> _]; done].
    destruct Hr as (_ & _ & Hnone & ->). simpl. rewrite lookup_insert_ne; congruence.
  - destruct r; [done|]. by destruct Hr.
Qed.

Lemma reserve_enrollment_attempt_ok o i :
  0 ≤ o ≤ U64_MAX → 0 ≤ i ≤ U64_MAX → attempt_ok (λ b, reserve_enrollment b o i).
Proof.
  intros Ho Hi b Hb. destruct (reserve_enrollment_spec b o i Hb Ho Hi)
    as (b' & r & Hr & Hb' & Hl & Hcase).
  exists b', r. split_and!; try done.
  - intros id p Hp. destruct r as [a|e]; [|destruct e; destruct Hcase as (-> & _); done].
    destruct Hcase as (_ & _ & _ & _ & _ & _ & H1 & H2 & ->).
    rewrite !lookup_insert_ne by congruence. done.
  - destruct r as [a|e]; [done|]. destruct e; by destruct Hcase as (-> & _).
Qed.

(** ** Making room *)

Lemma make_room_spec n fuel w c h :
  sys_inv l w c h → 0 ≤ n ≤ max_bytes l → (size (c_entries c) < fuel)%nat →
  ∃ w' c', make_room l n fuel w c = Some (w', c', true) ∧ sys_inv l w' c' h ∧ evicted None c c' ∧
    shrinks w w' ∧ (∀ a, 1 ≤ h a → arc_model_of w' a = arc_model_of w a) ∧
    Z.of_nat (size (c_entries c')) < max_users l ∧ c_bytes c' + n ≤ max_bytes l.
Proof.
  intros Hinv Hn. revert w c Hinv. induction fuel as [|fuel IH]; intros w c Hinv Hfuel; [lia|].
  cbn [make_room]. destruct (needs_room l c n) eqn:Hneed.
  2:{ unfold needs_room, saturating_add in Hneed. breflect. destruct Hlim as [? ?].
      eexists _, _. split; [done|]. split_and!; try done; try lia. apply evicted_refl. }
  destruct (evict_spec w c h None Hinv) as (w1 & c1 & ev & Hev & Hinv1 & Hsh & Hm & Hcase).
  unfold evict_lru. rewrite Hev. cbn [mbind option_bind]. destruct ev.
  - destruct Hcase as (u & Hcand & Hu & Hdel & Hclk & Hdis).
    pose proof (size_delete_lt _ _ Hu). rewrite <- Hdel in *.
    destruct (IH w1 c1 Hinv1) as (w2 & c2 & Hr2 & Hinv2 & Hev2 & Hsh2 & Hm2 & Hfit); [lia|].
    eexists _, _. split; [exact Hr2|]. split_and!; try done; try apply Hfit.
    + by eapply evicted_step.
    + by eapply shrinks_trans.
    + intros a Ha. by rewrite Hm2, Hm.
  - destruct Hcase as (_ & _ & Hall). exfalso.
    assert (c_entries c = ∅) as Hemp.
    { apply map_empty. intros u. destruct (c_entries c !! u) eqn:Hu; [|done].
      by specialize (Hall u ltac:(eauto)). }
    destruct Hinv as (_ & _ & (Hsum & _) & _). unfold needs_room, saturating_add in Hneed.
    rewrite Hemp, map_sum_empty in Hsum. rewrite Hemp, map_size_empty, Hsum in Hneed.
    destruct Hlim as [? ?]. apply orb_true_iff in Hneed as [Hneed|Hneed]; breflect; lia.
Qed.

(** ** Publishing an entry *)

Lemma next_clock_spec w c h c1 clock :
  sys_inv l w c h → next_clock c = (c1, clock) →
  sys_inv l w c1 h ∧ clock = c_clock c1 ∧ c_bytes c1 = c_bytes c ∧ c_revision c1 = c_revision c ∧
  c_disabled c1 = c_disabled c ∧ dom (c_entries c1) = dom (c_entries c) ∧ 1 ≤ clock ∧
  (∀ u e, c_entries c1 !! u = Some e → ∃ e0, c_entries c !! u = Some e0 ∧
     ce_model e = ce_model e0 ∧ ce_bytes e = ce_bytes e0) ∧
  (∀ u e, c_entries c1 !! u = Some e → ce_last_used e < clock) ∧
  (∀ u e0, c_entries c !! u = Some e0 → ∃ e, c_entries c1 !! u = Some e ∧
     ce_model e = ce_model e0 ∧ ce_bytes e = ce_bytes e0).
Proof.
  intros (Hw & Hh & (Hsum & Hmax & Hsz & Hclk & Hrev & Hall & Hdis) & Hbk) Hn.
  unfold next_clock in Hn. destruct (Z.eqb_spec (c_clock c) U64_MAX) as [E|E]; simplify_eq/=.
  - set (f := λ e, mkCacheEntry (ce_model e) (ce_bytes e) 0).
    assert (∀ u e, (f <$> c_entries c) !! u = Some e → ∃ e0, c_entries c !! u = Some e0 ∧ e = f e0) as Hlk.
    { intros u e. rewrite lookup_fmap. intros (e0 & -> & ?)%fmap_Some. eauto. }
    unfold sys_inv, cache_inv; simpl. split_and!; try done; try lia.
    + eapply world_inv_ext; [|done]. intros a. unfold refs; simpl. by rewrite map_sum_fmap_same.
    + by rewrite map_sum_fmap_same.
    + by rewrite map_size_fmap.
    + intros u e (e0 & He0 & ->)%Hlk. apply Hall in He0 as [? ?]. unfold f; simpl. lia.
    + intros Hd. by rewrite (Hdis Hd), fmap_empty.
    + intros u e (e0 & He0 & ->)%Hlk. by apply Hbk in He0.
    + by rewrite dom_fmap_L.
    + intros u e (e0 & He0 & ->)%Hlk. by exists e0.
    + intros u e (e0 & He0 & ->)%Hlk. unfold f; simpl. lia.
    + intros u e0 He0. exists (f e0). by rewrite lookup_fmap, He0.
  - unfold sys_inv, cache_inv; simpl. split_and!; try done; try lia.
    + intros u e He. apply Hall in He as [? ?]. lia.
    + eauto.
    + intros u e He. apply Hall in He as [? ?]. lia.
    + eauto.
Qed.

(** Adding an entry for a user that has none moves a handle into the cache. *)
Lemma sys_inv_insert w c h u a n m t r :
  sys_inv l w c h → 1 ≤ h a → arc_model_of w a = Some m → n = am_plaintext_bytes m → 0 ≤ n →
  c_entries c !! u = None → c_disabled c = false →
  Z.of_nat (size (c_entries c)) < max_users l → c_bytes c + n ≤ max_bytes l →
  0 ≤ t ≤ c_clock c → 0 ≤ r ≤ U128_MAX →
  sys_inv l w (mkCache (<[u := mkCacheEntry a n t]> (c_entries c)) (c_bytes c + n) (c_clock c) r
                 (c_disabled c)) (own_add h a (-1)).
Proof.
  intros (Hw & Hh & (Hsum & Hmax & Hsz & Hclk & Hrev & Hall & Hdis) & Hbk) Ha Hm -> Hn Hu Hd Hs Hb Ht Hr.
  unfold sys_inv, cache_inv; simpl. split_and!; try done; try lia.
  - eapply world_inv_ext; [|exact Hw]. intros x. unfold refs, own_add; simpl.
    rewrite map_sum_insert by done. unfold points_to at 2; simpl.
    destruct (decide (x = a)) as [->|Hne]; [rewrite decide_True by done|rewrite decide_False by congruence]; lia.
  - intros x. specialize (Hh x). unfold own_add. destruct (decide (x = a)) as [->|]; lia.
  - rewrite map_sum_insert by done. simpl. lia.
  - rewrite map_size_insert_None by done. lia.
  - intros u' e'. rewrite lookup_insert_Some. intros [[<- <-]|[_ He']]; [simpl; lia|eauto].
  - congruence.
  - intros u' e'. simpl. rewrite lookup_insert_Some. intros [[<- <-]|[_ He']]; simpl; eauto.
Qed.

Lemma publish_spec w c h u a m n :
  sys_inv l w c h → 1 ≤ h a → arc_model_of w a = Some m → n = am_plaintext_bytes m → 0 ≤ n →
  c_entries c !! u = None → c_disabled c = false →
  Z.of_nat (size (c_entries c)) < max_users l → c_bytes c + n ≤ max_bytes l →
  ∃ c', publish_entry c u a n = Some c' ∧ sys_inv l w c' (own_add h a (-1)) ∧
    c_revision c' = bump (c_revision c) ∧ c_disabled c' = false ∧
    dom (c_entries c') = {[u]} ∪ dom (c_entries c) ∧
    (∃ e, c_entries c' !! u = Some e ∧ ce_model e = a ∧ ce_bytes e = n ∧
       ∀ u' e', u' ≠ u → c_entries c' !! u' = Some e' → ce_last_used e' < ce_last_used e) ∧
    (∀ u' e', u' ≠ u → c_entries c' !! u' = Some e' →
       ∃ e0, c_entries c !! u' = Some e0 ∧ ce_model e' = ce_model e0 ∧ ce_bytes e' = ce_bytes e0).
Proof.
  intros Hinv Ha Hm Hn Hn0 Hu Hd Hs Hb. unfold publish_entry.
  destruct (next_clock c) as [c1 clock] eqn:Hnc.
  destruct (next_clock_spec w c h c1 clock Hinv Hnc)
    as (Hinv1 & Hclk & Hby & Hrv & Hdi & Hdom & Hpos & Hfrom & Hlast & _).
  assert (c_entries c1 !! u = None) as Hu1.
  { apply not_elem_of_dom. rewrite Hdom. by apply not_elem_of_dom. }
  destruct Hlim as [_ ?]. rewrite checked_add_eq by lia. cbn [mbind option_bind].
  eexists. split; [done|]. split_and!; simpl.
  - apply (sys_inv_insert w c1 h u a n m clock); try done; try congruence; try lia.
    + by rewrite <- (size_dom (c_entries c1)), Hdom, size_dom.
    + apply bump_range.
  - by rewrite Hrv.
  - congruence.
  - by rewrite dom_insert_L, Hdom.
  - exists (mkCacheEntry a n clock). rewrite lookup_insert_eq. split_and!; try done.
    intros u' e' Hne. rewrite lookup_insert_ne by done. simpl. apply Hlast.
  - intros u' e' Hne. rewrite lookup_insert_ne by done. apply Hfrom.
Qed.

(** Refreshing the use time of an entry. *)
Lemma sys_inv_touch w c h u e t :
  sys_inv l w c h → c_entries c !! u = Some e → 0 ≤ t ≤ c_clock c →
  sys_inv l w (mkCache (<[u := mkCacheEntry (ce_model e) (ce_bytes e) t]> (c_entries c)) (c_bytes c)
                 (c_clock c) (c_revision c) (c_disabled c)) h.
Proof.
  intros (Hw & Hh & (Hsum & Hmax & Hsz & Hclk & Hrev & Hall & Hdis) & Hbk) He Ht.
  unfold sys_inv, cache_inv; simpl. split_and!; try done; try lia.
  - eapply world_inv_ext; [|exact Hw]. intros x. unfold refs; simpl.
    rewrite (map_sum_update _ _ _ _ _ He). unfold points_to at 3 4; simpl. lia.
  - rewrite (map_sum_update _ _ _ _ _ He). simpl. lia.
  - rewrite map_size_insert_Some by eauto. done.
  - intros u' e'. rewrite lookup_insert_Some.
    intros [[<- <-]|[_ He']]; [simpl; apply Hall in He; lia|eauto].
  - intros Hd. rewrite (Hdis Hd) in He. done.
  - intros u' e'. simpl. rewrite lookup_insert_Some. intros [[<- <-]|[_ He']]; simpl; eauto.
Qed.

(** ** Lookups *)

Lemma sys_inv_handle w c h a :
  sys_inv l w c h → 1 ≤ h a + refs c a →
  ∃ w', arc_clone w a = Some w' ∧ sys_inv l w' c (own_add h a 1) ∧
    (∀ x, arc_model_of w' x = arc_model_of w x) ∧ w_budget w' = w_budget w.
Proof.
  intros (Hw & Hh & Hc & Hbk) Ha.
  destruct (arc_clone_spec w _ a Hw Ha) as (w' & Hcl & Hw' & _ & Hm & Hb).
  exists w'. split; [done|]. split; [|done]. unfold sys_inv. split_and!; try done.
  - eapply world_inv_ext; [|exact Hw']. intros x. unfold own_add. lia.
  - intros x. specialize (Hh x). unfold own_add. destruct (decide _); lia.
  - intros u e He. rewrite Hm. by apply (Hbk u).
Qed.

Lemma cache_get_spec w c h u :
  sys_inv l w c h →
  ∃ w' c' r, cache_get w c u = Some (w', c', r) ∧ w_budget w' = w_budget w ∧
    c_revision c' = c_revision c ∧ dom (c_entries c') = dom (c_entries c) ∧
    match r with
    | Some a => sys_inv l w' c' (own_add h a 1) ∧
        ∃ e, c_entries c !! u = Some e ∧ ce_model e = a ∧
          ∃ e', c_entries c' !! u = Some e' ∧ ce_model e' = a ∧
            ∀ u' e'', u' ≠ u → c_entries c' !! u' = Some e'' → ce_last_used e'' < ce_last_used e'
    | None => sys_inv l w' c' h ∧ c_entries c !! u = None
    end.
Proof.
  intros Hinv. unfold cache_get. destruct (c_disabled c) eqn:Hd.
  { exists w, c, None. split; [done|]. split_and!; try done.
    destruct Hinv as (_ & _ & (_ & _ & _ & _ & _ & _ & Hdis) & _). by rewrite (Hdis Hd). }
  destruct (next_clock c) as [c1 clock] eqn:Hnc.
  destruct (next_clock_spec w c h c1 clock Hinv Hnc)
    as (Hinv1 & Hclk & Hby & Hrv & Hdi & Hdom & Hpos & Hfrom & Hlast & Hto).
  destruct (c_entries c1 !! u) as [e|] eqn:He.
  - assert (1 ≤ h (ce_model e) + refs c1 (ce_model e)) as Hown.
    { pose proof (refs_lookup c1 u e He). destruct Hinv1 as (_ & Hh & _).
      specialize (Hh (ce_model e)). lia. }
    destruct (sys_inv_handle w c1 h (ce_model e) Hinv1 Hown) as (w' & Hcl & Hinv' & Hm & Hb).
    rewrite Hcl. cbn [mbind option_bind]. eexists _, _, (Some (ce_model e)). split; [done|].
    split_and!; simpl; try done.
    + rewrite dom_insert_L, Hdom. assert (u ∈ dom (c_entries c)) by (rewrite <- Hdom; by eapply elem_of_dom_2). set_solver.
    + apply sys_inv_touch; [done|done|]. destruct Hinv1 as (_ & _ & (_ & _ & _ & ? & _) & _). lia.
    + destruct (Hfrom _ _ He) as (e0 & He0 & Hmo & _). exists e0. split_and!; try done.
      eexists. rewrite lookup_insert_eq. split_and!; try done.
      intros u' e'' Hne. rewrite lookup_insert_ne by done. simpl. apply Hlast.
  - exists w, c1, None. split; [done|]. split_and!; try done.
    apply not_elem_of_dom. rewrite <- Hdom. by apply not_elem_of_dom.
Qed.

(** ** Insertion *)

Lemma sys_inv_drop w c h a :
  sys_inv l w c h → 1 ≤ h a →
  ∃ w', arc_drop w a = Some w' ∧ sys_inv l w' c (own_add h a (-1)) ∧ shrinks w w'.
Proof.
  intros (Hw & Hh & Hc & Hbk) Ha. pose proof (refs_nonneg c a).
  destruct (arc_drop_spec w _ a Hw) as (w' & Hd & Hw' & Hsh & Hm); [simpl; lia|].
  exists w'. split; [done|]. split; [|done]. unfold sys_inv. split_and!; try done.
  - eapply world_inv_ext; [|exact Hw']. intros x. unfold own_add. lia.
  - intros x. specialize (Hh x). unfold own_add. destruct (decide (x = a)) as [->|]; lia.
  - intros u e He. destruct (Hbk u e He) as (m & Hmo & Hb). exists m. split; [|done].
    rewrite Hm; [done|]. pose proof (refs_lookup c u e He). specialize (Hh (ce_model e)).
    unfold own_add. destruct (decide (ce_model e = a)) as [E|]; [|lia].
    rewrite E in *. lia.
Qed.

(** The entries after an insertion: the new one is the most recent, every other was
    there before and what was displaced was least recently used. *)
Definition inserted c c' (u : CanonicalUsername) (a : positive) (n : Z) : Prop :=
  (∃ e, c_entries c' !! u = Some e ∧ ce_model e = a ∧ ce_bytes e = n ∧
     ∀ u' e', u' ≠ u → c_entries c' !! u' = Some e' → ce_last_used e' < ce_last_used e) ∧
  (∀ u' e', u' ≠ u → c_entries c' !! u' = Some e' →
     ∃ e0, c_entries c !! u' = Some e0 ∧ ce_model e' = ce_model e0 ∧ ce_bytes e' = ce_bytes e0) ∧
  (∀ u1 e1 u2 e2, u1 ≠ u → u2 ≠ u →
     c_entries c !! u1 = Some e1 → c_entries c' !! u1 = None →
     c_entries c !! u2 = Some e2 → is_Some (c_entries c' !! u2) → lru_leb (u1, e1) (u2, e2) = true).

Lemma inserted_from_room w c c1 c2 c3 h u a n :
  sys_inv l w c h → c_entries c1 = delete u (c_entries c) → evicted None c1 c2 →
  dom (c_entries c3) = {[u]} ∪ dom (c_entries c2) →
  (∃ e, c_entries c3 !! u = Some e ∧ ce_model e = a ∧ ce_bytes e = n ∧
     ∀ u' e', u' ≠ u → c_entries c3 !! u' = Some e' → ce_last_used e' < ce_last_used e) →
  (∀ u' e', u' ≠ u → c_entries c3 !! u' = Some e' →
     ∃ e0, c_entries c2 !! u' = Some e0 ∧ ce_model e' = ce_model e0 ∧ ce_bytes e' = ce_bytes e0) →
  inserted c c3 u a n.
Proof.
  intros Hinv Hdel [Hsub Hsp Hlru _ _] Hdom Hnew Hold. rewrite Hdel in *.
  assert (∀ u' e', c_entries c2 !! u' = Some e' → c_entries c !! u' = Some e') as Hc2.
  { intros u' e' He'. eapply lookup_weaken in Hsub; [|exact He'].
    by apply lookup_delete_Some in Hsub as [_ ?]. }
  split_and!; [done| |].
  - intros u' e' Hne He'. destruct (Hold _ _ Hne He') as (e0 & He0 & ?). eauto.
  - intros u1 e1 u2 e2 Hne1 Hne2 H1 H1' H2 H2'.
    assert (c_entries c2 !! u2 = Some e2) as H2''.
    { destruct H2' as [e' He']. destruct (Hold _ _ Hne2 He') as (e0 & He0 & _).
      rewrite (Hc2 _ _ He0) in H2. congruence. }
    assert (c_entries c2 !! u1 = None) as H1''.
    { apply not_elem_of_dom. intros Hin. apply not_elem_of_dom in H1'. apply H1'.
      rewrite Hdom. set_solver. }
    eapply Hlru; eauto; [|done]. by rewrite lookup_delete_ne.
Qed.

Lemma insert_cached_spec w c h u a m :
  sys_inv l w c h → 1 ≤ h a → arc_model_of w a = Some m → 0 ≤ am_plaintext_bytes m →
  ∃ w' c' r, insert_cached l w c u a = Some (w', c', r) ∧
  match r with
  | Ok a' => a' = a ∧ am_plaintext_bytes m ≤ max_bytes l ∧ c_disabled c = false ∧
      sys_inv l w' c' h ∧ inserted c c' u a (am_plaintext_bytes m)
  | Err e => sys_inv l w' c' (own_add h a (-1)) ∧ c' = c ∧
      (max_bytes l < am_plaintext_bytes m ∨ c_disabled c = true)
  end.
Proof.
  intros Hinv Ha Hm Hn. unfold insert_cached. rewrite Hm. cbn [mbind option_bind].
  destruct (Z.ltb_spec (max_bytes l) (am_plaintext_bytes m)).
  { destruct (sys_inv_drop w c h a Hinv Ha) as (w' & Hd & Hinv' & _). rewrite Hd.
    cbn [mbind option_bind]. eexists _, _, _. split; [done|]. split_and!; [done|done|by left]. }
  destruct (c_disabled c) eqn:Hdis.
  { destruct (sys_inv_drop w c h a Hinv Ha) as (w' & Hd & Hinv' & _). rewrite Hd.
    cbn [mbind option_bind]. eexists _, _, _. split; [done|]. split_and!; [done|done|by right]. }
  destruct (cache_remove_spec l w c h u Hinv)
    as (w1 & c1 & r1 & Hr1 & Hinv1 & _ & _ & Hdel & _ & Hdis1 & _ & _ & Hm1).
  rewrite Hr1. cbn [mbind option_bind].
  destruct (make_room_spec (am_plaintext_bytes m) (loop_fuel c1) w1 c1 h Hinv1)
    as (w2 & c2 & Hr2 & Hinv2 & Hev & _ & Hm2 & Hsz & Hby); [lia|unfold loop_fuel; lia|].
  rewrite Hr2. cbn [mbind option_bind].
  assert (arc_model_of w2 a = Some m) as Hmo.
  { rewrite Hm2 by done. rewrite Hm1; [done|]. pose proof (refs_nonneg c1 a). lia. }
  destruct (sys_inv_handle w2 c2 h a Hinv2) as (w3 & Hcl & Hinv3 & Hm3 & _).
  { pose proof (refs_nonneg c2 a). lia. }
  rewrite Hcl. cbn [mbind option_bind].
  assert (c_entries c2 !! u = None) as Hu2.
  { destruct (c_entries c2 !! u) as [e|] eqn:Hu2; [|done]. destruct Hev as [Hsub _ _ _ _].
    eapply lookup_weaken in Hsub; [|exact Hu2]. rewrite Hdel, lookup_delete_eq in Hsub. done. }
  destruct (publish_spec w3 c2 (own_add h a 1) u a m (am_plaintext_bytes m) Hinv3)
    as (c3 & Hp & Hinv4 & _ & _ & Hdom & Hnew & Hold); try done.
  { rewrite own_add_eq. lia. }
  { by rewrite Hm3. }
  { destruct Hev as [_ _ _ _ Hd]. congruence. }
  rewrite Hp. cbn [mbind option_bind]. eexists _, _, _. split; [done|]. split_and!; try done.
  - unfold sys_inv in *. destruct Hinv4 as (Hw4 & _ & Hc4 & Hb4). destruct Hinv as (_ & Hh & _).
    split_and!; try done. eapply world_inv_ext; [|exact Hw4]. intros x. unfold own_add.
    destruct (decide (x = a)); lia.
  - by eapply inserted_from_room.
Qed.

Lemma insert_provisional_spec w c h u rev gen a m publish :
  sys_inv l w c h → 1 ≤ h a → arc_model_of w a = Some m → 0 ≤ am_plaintext_bytes m →
  let coherent := am_generation m = gen ∧ am_plaintext_bytes m ≤ max_bytes l ∧
    c_disabled c = false ∧ c_revision c = rev ∧ c_entries c !! u = None in
  ∃ w' c' r asked, insert_provisional_if_revision l w c u rev gen a publish
                   = Some (w', c', r, asked) ∧ sys_inv l w' c' (own_add h a (-1)) ∧
    (asked = true ↔ coherent) ∧
    (r = Ok true ↔ coherent ∧ publish = true) ∧
    (r ≠ Ok true → c' = c) ∧
    (r = Ok true → inserted c c' u a (am_plaintext_bytes m)).
Proof.
  intros Hinv Ha Hm Hn coherent. unfold insert_provisional_if_revision. rewrite Hm.
  cbn [mbind option_bind].
  destruct (sys_inv_drop w c h a Hinv Ha) as (w' & Hd & Hinv' & _). rewrite Hd.
  cbn [mbind option_bind].
  destruct (Z.eqb_spec (am_generation m) gen) as [Hg|Hg]; cbn [negb].
  2:{ eexists _, _, _, _. split; [done|]. unfold coherent. split_and!; try done; naive_solver. }
  destruct (Z.ltb_spec (max_bytes l) (am_plaintext_bytes m)).
  { eexists _, _, _, _. split; [done|]. unfold coherent.
    split_and!; try done; (split; [done|]); intros; exfalso; destruct_and!; lia. }
  destruct (c_disabled c) eqn:Hdis.
  { eexists _, _, _, _. split; [done|]. unfold coherent. split_and!; try done; naive_solver. }
  destruct (negb (c_revision c =? rev) || bool_decide (is_Some (c_entries c !! u))) eqn:Hco.
  { eexists _, _, _, _. split; [done|]. unfold coherent.
    apply orb_true_iff in Hco as [Hco|Hco]; breflect.
    - split_and!; try done; naive_solver.
    - destruct Hco as [e Hco]. split_and!; try done; naive_solver. }
  breflect. destruct publish; cbn [negb].
  2:{ eexists _, _, _, _. split; [done|].
      assert (coherent) by (unfold coherent; split_and!; try done; by apply eq_None_not_Some).
      split_and!; try done; naive_solver. }
  assert (c_entries c !! u = None) as Hu by (by apply eq_None_not_Some).
  destruct (make_room_spec (am_plaintext_bytes m) (loop_fuel c) w c h Hinv)
    as (w2 & c2 & Hr2 & Hinv2 & Hev & _ & Hm2 & Hsz & Hby); [lia|unfold loop_fuel; lia|].
  rewrite Hr2. cbn [mbind option_bind].
  assert (c_entries c2 !! u = None) as Hu2.
  { destruct (c_entries c2 !! u) as [e|] eqn:Hu2; [|done]. destruct Hev as [Hsub _ _ _ _].
    eapply lookup_weaken in Hsub; [|exact Hu2]. congruence. }
  destruct (publish_spec w2 c2 h u a m (am_plaintext_bytes m) Hinv2)
    as (c3 & Hp & Hinv4 & _ & _ & Hdom & Hnew & Hold); try done.
  { by rewrite Hm2. }
  { destruct Hev as [_ _ _ _ Hd']. congruence. }
  rewrite Hp. cbn [mbind option_bind]. eexists _, _, _, _. split; [done|].
  assert coherent by (unfold coherent; by split_and!).
  split_and!; try done.
  intros _. eapply (inserted_from_room w c c c2 c3); try done. by rewrite delete_id.
Qed.

End cache.
