(* ===== verification/CacheSystem.v ===== *)
(** * The cache as a transition system

    Every operation of the model cache, with the leases and permits its callers
    hold, as a step relation; the properties of all reachable states. *)

From S2P Require Import Prelude Bytes Storage Contracts Budget Cache CacheLru CacheProofs.

(** ** Dropping every cached handle *)

Definition occurrences (ls : list positive) (x : positive) : Z :=
  foldr (λ a n, (if decide (a = x) then 1 else 0) + n) 0 ls.

Lemma occurrences_nonneg ls x : 0 ≤ occurrences ls x.
Proof. induction ls as [|a ls IH]; simpl; [lia|]. destruct (decide (a = x)); lia. Qed.

Lemma refs_occurrences c x : refs c x = occurrences (cached_handles c) x.
Proof.
  unfold refs, map_sum, cached_handles. rewrite map_fold_foldr.
  induction (map_to_list (c_entries c)) as [|[u e] ps IH]; [done|].
  cbn [foldr fmap list_fmap uncurry occurrences]. rewrite IH. done.
Qed.

Lemma drop_handles_spec ls w own :
  world_inv w own → (∀ x, occurrences ls x ≤ own x) →
  ∃ w', drop_handles w ls = Some w' ∧ world_inv w' (λ x, own x - occurrences ls x) ∧ shrinks w w'.
Proof.
  revert w own. induction ls as [|a ls IH]; intros w own Hw Hle; cbn [drop_handles].
  { exists w. split_and!; [done| |apply shrinks_refl].
    eapply world_inv_ext; [|done]. intros x. simpl. lia. }
  destruct (arc_drop_spec w own a Hw) as (w1 & Hd & Hw1 & Hsh1 & _).
  { specialize (Hle a). simpl in Hle. rewrite decide_True in Hle by done.
    pose proof (occurrences_nonneg ls a). lia. }
  rewrite Hd. cbn [mbind option_bind].
  destruct (IH w1 _ Hw1) as (w2 & Hd2 & Hw2 & Hsh2).
  { intros x. specialize (Hle x). unfold own_add. simpl in Hle.
    destruct (decide (a = x)), (decide (x = a)); try congruence; lia. }
  exists w2. split_and!; [done| |by eapply shrinks_trans].
  eapply world_inv_ext; [|exact Hw2]. intros x. unfold own_add. simpl.
  destruct (decide (a = x)), (decide (x = a)); try congruence; lia.
Qed.

Section system.
  Context (l : ModelCacheLimits) (Hlim : limits_ok l).

Lemma drop_all_spec w c h rev dis :
  sys_inv l w c h → 0 ≤ rev ≤ U128_MAX →
  ∃ w', drop_handles w (cached_handles c) = Some w' ∧
    sys_inv l w' (mkCache ∅ 0 (c_clock c) rev dis) h ∧ shrinks w w'.
Proof.
  intros (Hw & Hh & (_ & _ & _ & Hclk & _) & _) Hrev.
  destruct (drop_handles_spec (cached_handles c) w _ Hw) as (w' & Hd & Hw' & Hsh).
  { intros x. simpl. rewrite refs_occurrences. specialize (Hh x). lia. }
  exists w'. split_and!; try done. destruct Hlim as [? ?].
  unfold sys_inv, cache_inv, entries_backed; simpl. rewrite map_sum_empty, map_size_empty.
  split_and!; try done; try lia.
  eapply world_inv_ext; [|exact Hw']. intros x. simpl. rewrite refs_occurrences.
  unfold refs; simpl. rewrite map_sum_empty. lia.
Qed.

Lemma cache_clear_spec w c h :
  sys_inv l w c h →
  ∃ w' c', cache_clear w c = Some (w', c') ∧ sys_inv l w' c' h ∧ c_entries c' = ∅ ∧
    c_revision c' = bump (c_revision c) ∧ c_disabled c' = c_disabled c.
Proof.
  intros Hinv. destruct (drop_all_spec w c h (bump (c_revision c)) (c_disabled c) Hinv)
    as (w' & Hd & Hinv' & _); [apply bump_range|].
  unfold cache_clear. rewrite Hd. cbn [mbind option_bind]. by eexists _, _.
Qed.

Lemma cache_poison_spec w c h :
  sys_inv l w c h →
  ∃ w' c', cache_poison w c = Some (w', c') ∧ sys_inv l w' c' h ∧ c_entries c' = ∅ ∧
    c_disabled c' = true.
Proof.
  intros Hinv. pose proof Hinv as (_ & _ & (_ & _ & _ & _ & Hr & _) & _).
  destruct (drop_all_spec w c h (Z.min (c_revision c + 1) U128_MAX) true Hinv)
    as (w' & Hd & Hinv' & _); [lia|].
  unfold cache_poison. rewrite Hd. cbn [mbind option_bind]. by eexists _, _.
Qed.

Lemma cache_invalidate_spec w c h u :
  sys_inv l w c h →
  ∃ w' c', cache_invalidate w c u = Some (w', c') ∧ sys_inv l w' c' h ∧
    c_entries c' = delete u (c_entries c) ∧ c_revision c' = bump (c_revision c) ∧
    c_disabled c' = c_disabled c ∧ shrinks w w'.
Proof.
  intros Hinv. unfold cache_invalidate.
  destruct (cache_remove_spec l w c h u Hinv)
    as (w1 & c1 & r & Hr & Hinv1 & Hsh & _ & Hdel & _ & Hdis & Hrev & Hno & _).
  rewrite Hr. cbn [mbind option_bind]. destruct r.
  - by eexists _, _.
  - destruct (Hno eq_refl) as [-> ->]. eexists _, _. split; [done|]. split_and!; try done.
    destruct Hinv1 as (Hw & Hh & (?&?&?&?&_&?&?) & Hbk).
    pose proof (bump_range (c_revision c)). unfold sys_inv, cache_inv; simpl. split_and!; done || lia.
Qed.

Lemma world_drop_permit_spec w c h id p :
  sys_inv l w c h → permits (w_budget w) !! id = Some p → ¬ owned_by_arc w id →
  ∃ w', world_drop_permit w id = Some w' ∧ sys_inv l w' c h ∧
    used (w_budget w') = used (w_budget w) - permit_bytes p.
Proof.
  intros ((Hb & Ha & Hinj) & Hh & Hc & Hbk) Hp Hext.
  destruct (drop_permit_spec _ _ _ Hb Hp) as (b' & Hd & Hb' & ->).
  unfold world_drop_permit. rewrite Hd. cbn [mbind option_bind].
  eexists _. split; [done|]. split; [|done].
  unfold sys_inv. split_and!; try done. split_and!; simpl; try done. intros a. specialize (Ha a).
  destruct (w_arcs w !! a) as [arc|] eqn:Harc; [|done].
  destruct Ha as (? & ? & ? & q & Hq & ?). unfold arc_ok; simpl. split_and!; try done.
  exists q. split; [|done]. rewrite lookup_delete_ne; [done|]. intros Heq. apply Hext. by exists a, arc.
Qed.

(** A freshly built model adds a handle and leaves the cache alone. *)
Lemma new_handle_spec w c h model permit p :
  sys_inv l w c h → permits (w_budget w) !! permit = Some p → ¬ owned_by_arc w permit →
  0 ≤ am_plaintext_bytes model →
  ∃ w' r, CachedAuthModel_new w model permit = Some (w', r) ∧
  match r with
  | Ok a => am_plaintext_bytes model ≤ permit_bytes p ∧ sys_inv l w' c (own_add h a 1) ∧
      arc_model_of w' a = Some model
  | Err _ => permit_bytes p < am_plaintext_bytes model ∧ sys_inv l w' c h
  end.
Proof.
  intros (Hw & Hh & Hc & Hbk) Hp Hext Hn.
  destruct (CachedAuthModel_new_spec w _ model permit p Hw Hp Hext Hn) as (w1 & r & Hr & Hcase).
  exists w1, r. split; [done|]. destruct r as [a|e].
  - destruct Hcase as (Hle & Hnone & _ & Hw1 & Hm & Hm'). split_and!; try done.
    unfold sys_inv. split_and!; try done.
    + eapply world_inv_ext; [|exact Hw1]. intros x. unfold own_add. lia.
    + intros x. specialize (Hh x). unfold own_add. destruct (decide _); lia.
    + intros u' e' He'. destruct (Hbk _ _ He') as (m & Hmo & Hb). exists m. split; [|done].
      rewrite Hm'; [done|]. intros Heq. unfold arc_model_of in Hmo. rewrite Heq, Hnone in Hmo. done.
  - destruct Hcase as (Hlt & Hw1 & Harcs & _). split; [done|]. unfold sys_inv. split_and!; try done.
    intros u' e' He'. unfold arc_model_of. rewrite Harcs. by apply (Hbk u').
Qed.

Lemma cache_insert_spec w c h u model permit p :
  sys_inv l w c h → permits (w_budget w) !! permit = Some p → ¬ owned_by_arc w permit →
  0 ≤ am_plaintext_bytes model →
  ∃ w' c' r, cache_insert l w c u model permit = Some (w', c', r) ∧
  match r with
  | Ok a => am_plaintext_bytes model ≤ Z.min (max_bytes l) (permit_bytes p) ∧
      c_disabled c = false ∧ sys_inv l w' c' (own_add h a 1) ∧
      inserted c c' u a (am_plaintext_bytes model)
  | Err _ => sys_inv l w' c h ∧ c' = c ∧
      (Z.min (max_bytes l) (permit_bytes p) < am_plaintext_bytes model ∨ c_disabled c = true)
  end.
Proof.
  intros Hinv Hp Hext Hn. pose proof Hinv as (_ & Hh & _). unfold cache_insert.
  destruct (Z.ltb_spec (max_bytes l) (am_plaintext_bytes model)).
  { destruct (world_drop_permit_spec w c h permit p Hinv Hp Hext) as (w' & Hd & Hinv' & _).
    rewrite Hd. cbn [mbind option_bind]. eexists _, _, _. split; [done|].
    split_and!; [done|done|lia]. }
  destruct (new_handle_spec w c h model permit p Hinv Hp Hext Hn) as (w1 & r & Hr & Hcase).
  rewrite Hr. cbn [mbind option_bind]. destruct r as [a|e].
  - destruct Hcase as (Hle & Hinv1 & Hm).
    destruct (insert_cached_spec l Hlim w1 c (own_add h a 1) u a model Hinv1)
      as (w2 & c2 & r2 & Hr2 & Hcase2); try done.
    { rewrite own_add_eq. specialize (Hh a). lia. }
    exists w2, c2, r2. split; [done|]. destruct r2 as [a'|e].
    + destruct Hcase2 as (-> & ? & ? & ? & ?). split_and!; try done. lia.
    + destruct Hcase2 as (Hinv2 & -> & Hor). split_and!; try done.
      * destruct Hinv2 as (Hw2 & _ & Hc2 & Hb2). unfold sys_inv. split_and!; try done.
        eapply world_inv_ext; [|exact Hw2]. intros x. unfold own_add. destruct (decide _); lia.
      * destruct Hor; [left; lia|by right].
  - destruct Hcase as (Hlt & Hinv1). eexists _, _, _. split; [done|].
    split_and!; [done|done|left; lia].
Qed.

(** ** Steps *)

(** The daemon's view: the budget, the models and the registry; the cache; and how
    many leases and provisional handles callers hold on each model. *)
Record CacheSys := mkSys { s_world : World; s_cache : CacheState; s_handles : owners }.

Inductive cache_step : CacheSys → CacheSys → Prop :=
| step_get w c h u w' c' r :
    cache_get w c u = Some (w', c', r) →
    cache_step (mkSys w c h)
      (mkSys w' c' (match r with Some a => own_add h a 1 | None => h end))
| step_generation w c h u c' g :
    cache_generation w c u = Some (c', g) → cache_step (mkSys w c h) (mkSys w c' h)
| step_new_handle w c h model permit p w' a :
    permits (w_budget w) !! permit = Some p → ¬ owned_by_arc w permit →
    0 ≤ am_plaintext_bytes model → CachedAuthModel_new w model permit = Some (w', Ok a) →
    cache_step (mkSys w c h) (mkSys w' c (own_add h a 1))
| step_drop_handle w c h a w' :
    1 ≤ h a → arc_drop w a = Some w' → cache_step (mkSys w c h) (mkSys w' c (own_add h a (-1)))
| step_reserve_operation w c h n protected w' c' r :
    0 ≤ n ≤ U64_MAX → reserve_operation_except w c n protected = Some (w', c', r) →
    cache_step (mkSys w c h) (mkSys w' c' h)
| step_reserve_enrollment w c h o i protected w' c' r :
    0 ≤ o ≤ U64_MAX → 0 ≤ i ≤ U64_MAX →
    reserve_enrollment_except w c o i protected = Some (w', c', r) →
    cache_step (mkSys w c h) (mkSys w' c' h)
| step_drop_permit w c h id w' :
    ¬ owned_by_arc w id → world_drop_permit w id = Some w' →
    cache_step (mkSys w c h) (mkSys w' c h)
| step_insert w c h u model permit p w' c' r :
    permits (w_budget w) !! permit = Some p → ¬ owned_by_arc w permit →
    0 ≤ am_plaintext_bytes model → cache_insert l w c u model permit = Some (w', c', r) →
    cache_step (mkSys w c h)
      (mkSys w' c' (match r with Ok a => own_add h a 1 | Err _ => h end))
| step_provisional w c h u rev gen a publish w' c' r asked :
    1 ≤ h a → insert_provisional_if_revision l w c u rev gen a publish = Some (w', c', r, asked) →
    cache_step (mkSys w c h) (mkSys w' c' (own_add h a (-1)))
| step_invalidate w c h u w' c' :
    cache_invalidate w c u = Some (w', c') → cache_step (mkSys w c h) (mkSys w' c' h)
| step_clear w c h w' c' :
    cache_clear w c = Some (w', c') → cache_step (mkSys w c h) (mkSys w' c' h)
| step_poison w c h w' c' :
    cache_poison w c = Some (w', c') → cache_step (mkSys w c h) (mkSys w' c' h).

Definition cache_init (b : PlaintextBudget CanonicalUsername) : CacheSys :=
  mkSys (mkWorld b ∅ ∅) cache_new (λ _, 0).

Definition inv (s : CacheSys) : Prop := sys_inv l (s_world s) (s_cache s) (s_handles s).

Lemma cache_init_inv b : budget_inv b → inv (cache_init b).
Proof.
  intros Hb. destruct Hlim as [? ?]. unfold inv, sys_inv, cache_inv, world_inv, entries_backed; simpl.
  rewrite map_sum_empty, map_size_empty. split_and!; try done; try lia.
Qed.

Lemma sys_inv_nonneg_model w c h a m :
  sys_inv l w c h → arc_model_of w a = Some m → 0 ≤ am_plaintext_bytes m.
Proof.
  intros ((_ & Ha & _) & _) Hm. specialize (Ha a). unfold arc_model_of in Hm.
  destruct (w_arcs w !! a) as [arc|]; simplify_eq/=. by destruct Ha as (_ & _ & ? & _).
Qed.

Lemma sys_inv_model w c h a :
  sys_inv l w c h → 1 ≤ h a → ∃ m, arc_model_of w a = Some m ∧ 0 ≤ am_plaintext_bytes m.
Proof.
  intros Hinv Ha. pose proof Hinv as (Hw & _). pose proof (refs_nonneg c a).
  destruct (world_inv_lookup w _ a Hw) as (arc & Harc & _ & _ & Hn & _); [simpl; lia|].
  exists (arc_model arc). unfold arc_model_of. by rewrite Harc.
Qed.

Lemma cache_generation_spec w c h u :
  sys_inv l w c h →
  ∃ c' g, cache_generation w c u = Some (c', g) ∧ sys_inv l w c' h ∧
    c_revision c' = c_revision c ∧ dom (c_entries c') = dom (c_entries c).
Proof.
  intros Hinv. unfold cache_generation. destruct (c_disabled c); [by eexists _, _|].
  destruct (next_clock c) as [c1 clock] eqn:Hnc.
  destruct (next_clock_spec l w c h c1 clock Hinv Hnc)
    as (Hinv1 & Hclk & Hby & Hrv & Hdi & Hdom & Hpos & _).
  destruct (c_entries c1 !! u) as [e|] eqn:He; [|by eexists _, _].
  pose proof Hinv1 as (_ & _ & (_ & _ & _ & ? & _) & Hbk).
  destruct (Hbk _ _ He) as (m & Hm & _). rewrite Hm. cbn [mbind option_bind].
  eexists _, _. split; [done|]. split_and!; simpl; try done.
  - apply sys_inv_touch; [done|done|lia].
  - rewrite dom_insert_L, Hdom.
    assert (u ∈ dom (c_entries c)) by (rewrite <- Hdom; by eapply elem_of_dom_2). set_solver.
Qed.

Lemma cache_step_inv s s' : inv s → cache_step s s' → inv s'.
Proof.
  intros Hinv Hstep. destruct Hstep as
    [w c h u w' c' r Hop|w c h u c' g Hop|w c h model permit p w' a Hp Hext Hn Hop|w c h a w' Ha Hop
    |w c h n pr w' c' r Hn Hop|w c h o i pr w' c' r Ho Hi Hop|w c h id w' Hext Hop
    |w c h u model permit p w' c' r Hp Hext Hn Hop|w c h u rev gen a pub w' c' r asked Ha Hop
    |w c h u w' c' Hop|w c h w' c' Hop|w c h w' c' Hop]; unfold inv in *; simpl in *.
  - destruct (cache_get_spec l Hlim w c h u Hinv) as (?&?&r0&Hop'&_&_&_&Hr). simplify_eq.
    destruct r; by destruct Hr.
  - destruct (cache_generation_spec w c h u Hinv) as (?&?&Hop'&?&_). by simplify_eq.
  - destruct (new_handle_spec w c h model permit p Hinv Hp Hext Hn) as (?&r0&Hop'&Hr).
    simplify_eq. by destruct Hr as (_ & ? & _).
  - destruct (sys_inv_drop l w c h a Hinv Ha) as (?&Hop'&?&_). by simplify_eq.
  - unfold reserve_operation_except in Hop. destruct (c_disabled c); [by simplify_eq|].
    destruct (reserve_loop_spec l _ (loop_fuel c) w c h pr (reserve_attempt_ok n ltac:(lia)) Hinv)
      as (?&?&?&?&Hop'&?&_); [unfold loop_fuel; lia|]. by simplify_eq.
  - unfold reserve_enrollment_except in Hop. destruct (c_disabled c); [by simplify_eq|].
    destruct (reserve_loop_spec l _ (loop_fuel c) w c h pr (reserve_enrollment_attempt_ok o i Ho Hi) Hinv)
      as (?&?&?&?&Hop'&?&_); [unfold loop_fuel; lia|]. by simplify_eq.
  - destruct (permits (w_budget w) !! id) as [p|] eqn:Hp;
      [|unfold world_drop_permit, drop_permit in Hop; by rewrite Hp in Hop].
    destruct (world_drop_permit_spec w c h id p Hinv Hp Hext) as (?&Hop'&?&_). by simplify_eq.
  - destruct (cache_insert_spec w c h u model permit p Hinv Hp Hext Hn) as (?&?&r0&Hop'&Hr).
    simplify_eq. destruct r; [by destruct Hr as (_&_&?&_)|by destruct Hr as (?&->&_)].
  - destruct (sys_inv_model w c h a Hinv Ha) as (m & Hm & Hn).
    destruct (insert_provisional_spec l Hlim w c h u rev gen a m pub Hinv Ha Hm Hn)
      as (?&?&?&?&Hop'&?&_). by simplify_eq.
  - destruct (cache_invalidate_spec w c h u Hinv) as (?&?&Hop'&?&_). by simplify_eq.
  - destruct (cache_clear_spec w c h Hinv) as (?&?&Hop'&?&_). by simplify_eq.
  - destruct (cache_poison_spec w c h Hinv) as (?&?&Hop'&?&_). by simplify_eq.
Qed.

Lemma cache_steps_inv s s' : inv s → rtc cache_step s s' → inv s'.
Proof. intros Hinv Hs. induction Hs; eauto using cache_step_inv. Qed.

End system.

(** ** The limit never moves *)

Abbreviation lim w := (limit (w_budget w)).

Lemma drop_permit_limit (b b' : PlaintextBudget CanonicalUsername) id g :
  drop_permit b id = Some (b', g) → limit b' = limit b.
Proof. unfold drop_permit. intros H. inv_ok. by simplify_eq. Qed.

Lemma world_drop_permit_limit w id w' : world_drop_permit w id = Some w' → lim w' = lim w.
Proof.
  unfold world_drop_permit. intros H. inv_ok.
  match goal with x : _ * _ |- _ => destruct x end. simplify_eq/=. by eapply drop_permit_limit.
Qed.

Lemma arc_drop_limit w a w' : arc_drop w a = Some w' → lim w' = lim w.
Proof.
  unfold arc_drop. intros H. inv_ok. case_match; simplify_eq/=; [|done].
  by apply world_drop_permit_limit in H.
Qed.

Lemma arc_clone_limit w a w' : arc_clone w a = Some w' → lim w' = lim w.
Proof. unfold arc_clone. intros H. inv_ok. by simplify_eq. Qed.

Lemma new_handle_limit w m p w' r : CachedAuthModel_new w m p = Some (w', r) → lim w' = lim w.
Proof.
  unfold CachedAuthModel_new. intros H. inv_ok. case_match; inv_ok; simplify_eq/=; [|done].
  by eapply world_drop_permit_limit.
Qed.

Lemma cache_remove_limit w c u w' c' r : cache_remove w c u = Some (w', c', r) → lim w' = lim w.
Proof.
  unfold cache_remove. intros H. case_match; inv_ok; simplify_eq; [|done]. by eapply arc_drop_limit.
Qed.

Lemma evict_limit w c p w' c' r : evict_lru_except w c p = Some (w', c', r) → lim w' = lim w.
Proof.
  unfold evict_lru_except. intros H. case_match; simplify_eq; [|done]. by eapply cache_remove_limit.
Qed.

Lemma make_room_limit l n fuel w c w' c' r :
  make_room l n fuel w c = Some (w', c', r) → lim w' = lim w.
Proof.
  revert w c. induction fuel as [|fuel IH]; intros w c H; cbn [make_room] in H;
    case_match; simplify_eq; try done.
  apply bind_Some in H as ([[w1 c1] ev] & He & H). apply evict_limit in He.
  destruct ev; simplify_eq; [|done]. rewrite <- He. by eapply IH.
Qed.

Lemma reserve_limit (b : PlaintextBudget CanonicalUsername) n b' r :
  reserve b n = (b', r) → limit b' = limit b.
Proof. unfold reserve. intros H. by repeat case_match; simplify_eq. Qed.

Lemma reserve_enrollment_limit (b : PlaintextBudget CanonicalUsername) o i b' r :
  reserve_enrollment b o i = Some (b', r) → limit b' = limit b.
Proof.
  unfold reserve_enrollment, split_off. intros H.
  repeat (case_match; simplify_eq; try done).
  all: match goal with Hr : reserve _ _ = _ |- _ => apply reserve_limit in Hr end.
  all: inv_ok; try done.
  match goal with x : _ * _ |- _ => destruct x as [b2 r2] end. inv_ok.
  case_match; simplify_eq; repeat (case_match; simplify_eq/=); try done.
  inv_ok. match goal with x : _ * _ |- _ => destruct x as [b3 g] end. simplify_eq.
  match goal with Hd : drop_permit _ _ = _ |- _ => apply drop_permit_limit in Hd end. congruence.
Qed.

Lemma reserve_loop_limit {A} attempt fuel w c p w' c' (r : bresult A) :
  (∀ b b' r', attempt b = Some (b', r') → limit b' = limit b) →
  reserve_loop attempt fuel w c p = Some (w', c', r) → lim w' = lim w.
Proof.
  intros Hat. revert w c. induction fuel as [|fuel IH]; intros w c H; [done|].
  cbn [reserve_loop] in H. apply bind_Some in H as ([b1 r1] & Ha & H). apply Hat in Ha.
  destruct r1 as [a|e]; [by simplify_eq|]. destruct e; simplify_eq; try done.
  apply bind_Some in H as ([[w1 c1] ev] & He & H). apply evict_limit in He. simpl in He.
  destruct ev; simplify_eq; [|congruence]. rewrite <- Ha, <- He. by eapply IH.
Qed.

Lemma drop_handles_limit ls w w' : drop_handles w ls = Some w' → lim w' = lim w.
Proof.
  revert w. induction ls as [|a ls IH]; intros w H; cbn [drop_handles] in H; [by simplify_eq|].
  inv_ok. match goal with Hd : arc_drop _ _ = _ |- _ => apply arc_drop_limit in Hd end.
  rewrite (IH _ H). done.
Qed.

Create HintDb cache_limit discriminated.
#[local] Hint Resolve world_drop_permit_limit arc_drop_limit arc_clone_limit new_handle_limit
  cache_remove_limit make_room_limit drop_handles_limit : cache_limit.

Lemma insert_cached_limit l w c u a w' c' r :
  insert_cached l w c u a = Some (w', c', r) → lim w' = lim w.
Proof.
  unfold insert_cached. intros H. apply bind_Some in H as (m & _ & H).
  case_match; [inv_ok; simplify_eq; eauto with cache_limit|].
  case_match; [inv_ok; simplify_eq; eauto with cache_limit|].
  apply bind_Some in H as ([[w1 c1] r1] & Hrm & H). apply cache_remove_limit in Hrm.
  apply bind_Some in H as ([[w2 c2] r2] & Hmr & H). apply make_room_limit in Hmr.
  rewrite <- Hrm, <- Hmr. destruct r2; inv_ok; simplify_eq; eauto with cache_limit.
Qed.

Lemma cache_step_limit l s s' : cache_step l s s' → lim (s_world s') = lim (s_world s).
Proof.
  intros Hstep. destruct Hstep as
    [w c h u w' c' r Hop|w c h u c' g Hop|w c h model permit p w' a Hp Hext Hn Hop|w c h a w' Ha Hop
    |w c h n pr w' c' r Hn Hop|w c h o i pr w' c' r Ho Hi Hop|w c h id w' Hext Hop
    |w c h u model permit p w' c' r Hp Hext Hn Hop|w c h u rev gen a pub w' c' r asked Ha Hop
    |w c h u w' c' Hop|w c h w' c' Hop|w c h w' c' Hop]; simpl; eauto with cache_limit.
  - unfold cache_get in Hop. repeat (case_match; simplify_eq; try done).
    inv_ok. simplify_eq. eauto with cache_limit.
  - unfold reserve_operation_except in Hop. case_match; simplify_eq; [done|].
    eapply reserve_loop_limit; [|done]. intros ??? [= Hr]. by eapply reserve_limit.
  - unfold reserve_enrollment_except in Hop. case_match; simplify_eq; [done|].
    eapply reserve_loop_limit; [|done]. intros ???. by apply reserve_enrollment_limit.
  - unfold cache_insert in Hop. case_match; [inv_ok; simplify_eq; eauto with cache_limit|].
    apply bind_Some in Hop as ([w1 r1] & H1 & Hop). apply new_handle_limit in H1.
    destruct r1; simplify_eq; [|done]. rewrite <- H1. by eapply insert_cached_limit.
  - unfold insert_provisional_if_revision in Hop. apply bind_Some in Hop as (m & _ & Hop).
    repeat (case_match; [inv_ok; simplify_eq; by eauto with cache_limit|]).
    apply bind_Some in Hop as ([[w2 c2] r2] & Hmr & Hop). apply make_room_limit in Hmr.
    rewrite <- Hmr. destruct r2; inv_ok; simplify_eq; eauto with cache_limit.
  - unfold cache_invalidate in Hop. apply bind_Some in Hop as ([[w1 c1] r1] & Hrm & Hop).
    apply cache_remove_limit in Hrm. destruct r1; by simplify_eq.
  - unfold cache_clear in Hop. inv_ok. simplify_eq. eauto with cache_limit.
  - unfold cache_poison in Hop. inv_ok. simplify_eq. eauto with cache_limit.
Qed.

(** ** Properties of reachable states *)

Section reachable.
  Context (l : ModelCacheLimits) (budget_limit : Z) (b : PlaintextBudget CanonicalUsername).

(** A state the daemon can be in: well-formed limits, a fresh budget, any history. *)
Definition reachable (s : CacheSys) : Prop :=
  limits_ok l ∧ 0 ≤ budget_limit ≤ U64_MAX ∧ PlaintextBudget_new budget_limit = Ok b ∧
  rtc (cache_step l) (cache_init b) s.

Lemma reachable_limit s : reachable s → lim (s_world s) = budget_limit.
Proof.
  intros (_ & Hn & Hb & Hsteps). destruct (PlaintextBudget_new_inv _ _ Hn Hb) as (_ & Hl & _).
  assert (lim (s_world s) = lim (s_world (cache_init b))) as ->; [|done]. clear Hb Hl.
  induction Hsteps as [s|s1 s2 s3 Hstep _ IH]; [done|].
  rewrite IH. by eapply cache_step_limit.
Qed.

Lemma reachable_inv s : reachable s → inv l s.
Proof.
  intros (Hlim & Hn & Hb & Hsteps). eapply cache_steps_inv; [done| |done].
  apply cache_init_inv; [done|]. by destruct (PlaintextBudget_new_inv _ _ Hn Hb).
Qed.


(** A lease keeps its plaintext charged: as long as any caller holds a lease on a
    model, its permit is live and covers the model's bytes, even after the cache
    evicted, replaced or cleared the entry; and a model nobody owns is gone. *)
Theorem lease_keeps_budget s a :
  reachable s →
  (1 ≤ s_handles s a →
   ∃ arc p, w_arcs (s_world s) !! a = Some arc ∧
     permits (w_budget (s_world s)) !! arc_permit arc = Some p ∧
     am_plaintext_bytes (arc_model arc) ≤ permit_bytes p) ∧
  (s_handles s a = 0 → (∀ u e, c_entries (s_cache s) !! u = Some e → ce_model e ≠ a) →
   w_arcs (s_world s) !! a = None).
Proof.
  intros Hr. pose proof (reachable_inv s Hr) as (Hw & Hh & Hc & Hbk). split.
  - intros Ha. pose proof (refs_nonneg (s_cache s) a).
    destruct (world_inv_lookup _ _ a Hw) as (arc & Harc & _ & _ & _ & p & Hp & Hle); [simpl; lia|].
    by exists arc, p.
  - intros Ha Hno. destruct Hw as (_ & Hall & _). specialize (Hall a).
    destruct (w_arcs (s_world s) !! a) as [arc|] eqn:Harc; [|done].
    destruct Hall as (_ & Hown & _). rewrite Ha in Hown.
    assert (refs (s_cache s) a = 0); [|lia]. unfold refs. apply map_sum_zero.
    intros u e He. unfold points_to. rewrite decide_False; [done|]. by eapply Hno.
Qed.

(** Reserving memory for a user evicts only what it must, in order: it never
    touches that user's own entry, every evicted entry was used no later than
    every other surviving one, a granted permit is live within the budget, and a
    refusal means every other entry is already gone and the request still does
    not fit. *)
Theorem reserve_for_user_evicts_lru s n u :
  reachable s → 0 ≤ n ≤ U64_MAX → c_disabled (s_cache s) = false →
  ∃ w' c' r, reserve_operation_for_user (s_world s) (s_cache s) n u = Some (w', c', r) ∧
    c_entries c' ⊆ c_entries (s_cache s) ∧
    c_entries c' !! u = c_entries (s_cache s) !! u ∧
    (∀ u1 e1 u2 e2, c_entries (s_cache s) !! u1 = Some e1 → c_entries c' !! u1 = None →
       c_entries c' !! u2 = Some e2 → u2 ≠ u → lru_leb (u1, e1) (u2, e2) = true) ∧
    match r with
    | Ok id => 1 ≤ n ∧ permits (w_budget w') !! id = Some (mkPermit n None) ∧
               used (w_budget w') ≤ budget_limit
    | Err (MemoryBudgetExceeded requested free) =>
        requested = n ∧ free = budget_limit - used (w_budget w') ∧ free < n ∧
        ∀ u', is_Some (c_entries c' !! u') → u' = u
    | Err e => n = 0 ∧ e = InvalidInput "zero-byte reservation"
    end.
Proof.
  intros Hr Hn Hd. pose proof (reachable_inv s Hr) as Hinv. pose proof (reachable_limit s Hr) as Hll.
  destruct Hr as (Hlim & _). unfold reserve_operation_for_user, reserve_operation_except. rewrite Hd.
  pose proof Hinv as ((Hb & _) & _).
  destruct (reserve_loop_spec l _ (loop_fuel (s_cache s)) (s_world s) (s_cache s) (s_handles s)
    (Some u) (reserve_attempt_ok n ltac:(lia)) Hinv)
    as (w' & c' & r & b0 & Hrun & Hinv' & [Hsub Hsp Hlru _ _] & Hb0 & Hl0 & Hat & Hcase);
    [unfold loop_fuel; lia|].
  exists w', c', r. split; [done|]. split_and!; [done|by apply Hsp| |].
  - intros u1 e1 u2 e2 H1 H1' H2 Hne. eapply Hlru; try done. unfold evictable. congruence.
  - injection Hat as Hres. apply reserve_spec in Hres as (Hbi & Hle & Hspec); [|done|lia].
    destruct r as [id|e].
    + destruct Hspec as (Hn0 & Hfit & _ & Heq). rewrite Heq. simpl.
      rewrite lookup_insert_eq. split_and!; [lia|done|]. rewrite <- Hll, <- Hl0. lia.
    + destruct Hspec as [Heq [[-> ->]|(_ & Hlt & ->)]]; [done|]. split_and!; [done| | |].
      * rewrite Heq. congruence.
      * lia.
      * intros u' Hu'. specialize (Hcase ltac:(eauto) u' Hu'). congruence.
Qed.

(** A model that fits is always admitted: inserting a model under a sufficient
    permit into a live cache succeeds, whatever the cache holds; the user's entry
    is then exactly that model and the most recently used one, the displaced
    entries are the least recently used, and the caller's lease is counted. An
    insertion fails only for a model above a limit or a poisoned cache, and then
    leaves the cache unchanged. *)
Theorem insert_admits_fitting_model s u model permit p :
  reachable s → permits (w_budget (s_world s)) !! permit = Some p →
  ¬ owned_by_arc (s_world s) permit → 0 ≤ am_plaintext_bytes model →
  ∃ w' c' r, cache_insert l (s_world s) (s_cache s) u model permit = Some (w', c', r) ∧
  match r with
  | Ok a => am_plaintext_bytes model ≤ Z.min (max_bytes l) (permit_bytes p) ∧
      inserted (s_cache s) c' u a (am_plaintext_bytes model) ∧
      reachable (mkSys w' c' (own_add (s_handles s) a 1))
  | Err _ => c' = s_cache s ∧
      (Z.min (max_bytes l) (permit_bytes p) < am_plaintext_bytes model ∨
       c_disabled (s_cache s) = true)
  end.
Proof.
  intros Hr Hp Hext Hn. pose proof (reachable_inv s Hr) as Hinv.
  pose proof Hr as (Hlim & Hbl & Hb & Hsteps).
  destruct (cache_insert_spec l Hlim _ _ _ u model permit p Hinv Hp Hext Hn)
    as (w' & c' & r & Hrun & Hcase).
  exists w', c', r. split; [done|]. destruct r as [a|e].
  - destruct Hcase as (Hle & _ & _ & Hins). split_and!; try done.
    unfold reachable. split_and!; try done; try lia.
    eapply rtc_r; [done|]. destruct s as [w c h]. simpl in *.
    exact (step_insert l w c h u model permit p w' c' (Ok a) Hp Hext Hn Hrun).
  - by destruct Hcase as (_ & -> & Hor).
Qed.

(** A provisional model is published exactly when nothing changed: the
    publication predicate is consulted only after the generation, size, liveness,
    revision and absence checks all pass; the entry is published if and only if it
    then answers yes; in every other case the cache is untouched. *)
Theorem provisional_publication s u rev gen a m publish :
  reachable s → 1 ≤ s_handles s a → arc_model_of (s_world s) a = Some m →
  ∃ w' c' r asked,
    insert_provisional_if_revision l (s_world s) (s_cache s) u rev gen a publish
      = Some (w', c', r, asked) ∧
    (asked = true ↔ am_generation m = gen ∧ am_plaintext_bytes m ≤ max_bytes l ∧
       c_disabled (s_cache s) = false ∧ c_revision (s_cache s) = rev ∧
       c_entries (s_cache s) !! u = None) ∧
    (r = Ok true ↔ asked = true ∧ publish = true) ∧
    (r ≠ Ok true → c' = s_cache s) ∧
    (r = Ok true → inserted (s_cache s) c' u a (am_plaintext_bytes m)).
Proof.
  intros Hr Ha Hm. pose proof (reachable_inv s Hr) as Hinv. pose proof Hr as (Hlim & _).
  pose proof (sys_inv_nonneg_model l _ _ _ _ _ Hinv Hm) as Hn.
  destruct (insert_provisional_spec l Hlim _ _ _ u rev gen a m publish Hinv Ha Hm Hn)
    as (w' & c' & r & asked & Hrun & _ & Hasked & Hres & Hno & Hyes).
  exists w', c', r, asked. split; [done|]. split_and!; try done. rewrite Hasked. done.
Qed.

(** A stale cold load cannot resurrect: once the cache has been invalidated for
    any user, cleared or poisoned, a provisional publication bound to the earlier
    revision is refused and leaves the cache as it is. *)
Theorem stale_publication_refused s u rev gen a w1 c1 v publish w2 c2 r asked :
  reachable s → 1 ≤ s_handles s a → rev = c_revision (s_cache s) →
  cache_invalidate (s_world s) (s_cache s) v = Some (w1, c1) ∨
  cache_clear (s_world s) (s_cache s) = Some (w1, c1) ∨
  cache_poison (s_world s) (s_cache s) = Some (w1, c1) →
  insert_provisional_if_revision l w1 c1 u rev gen a publish = Some (w2, c2, r, asked) →
  r ≠ Ok true ∧ c2 = c1 ∧ asked = false.
Proof.
  intros Hr Ha -> Hchg Hrun. pose proof (reachable_inv s Hr) as Hinv. pose proof Hr as (Hlim & _).
  assert (sys_inv l w1 c1 (s_handles s) ∧
    (c_revision c1 ≠ c_revision (s_cache s) ∨ c_disabled c1 = true)) as [Hinv1 Hne].
  { pose proof Hinv as (_ & _ & (_ & _ & _ & _ & Hrange & _) & _). pose proof (bump_ne _ Hrange).
    destruct Hchg as [Hc|[Hc|Hc]].
    - destruct (cache_invalidate_spec l _ _ _ v Hinv) as (?&?&Hc'&?&_&Hrev&_). simplify_eq.
      split; [done|]. left. by rewrite Hrev.
    - destruct (cache_clear_spec l Hlim _ _ _ Hinv) as (?&?&Hc'&?&_&Hrev&_). simplify_eq.
      split; [done|]. left. by rewrite Hrev.
    - destruct (cache_poison_spec l Hlim _ _ _ Hinv) as (?&?&Hc'&?&_&Hd). simplify_eq. by auto. }
  destruct (sys_inv_model l _ _ _ a Hinv1 Ha) as (m & Hm & Hn).
  destruct (insert_provisional_spec l Hlim _ _ _ u (c_revision (s_cache s)) gen a m publish
    Hinv1 Ha Hm Hn) as (?&?&?&?&Hrun'&_&Hasked&Hres&Hno&_). simplify_eq.
  assert (asked ≠ true) as Hna.
  { rewrite Hasked. intros (_ & _ & Hd & Hrev & _). destruct Hne; congruence. }
  assert (r ≠ Ok true) as Hr' by (rewrite Hres, <- Hasked; intros [? _]; done).
  split_and!; [done|by apply Hno|]. by apply not_true_iff_false.
Qed.

End reachable.

(** ** Concrete instances *)

Definition tiny_limits : ModelCacheLimits := mkLimits 2 100.
Definition tiny_budget : PlaintextBudget CanonicalUsername := mkBudget 1000 0 ∅.
Definition tiny_model (gen n : Z) : AuthModel := mkAuthModel gen (mkDigest []) 512 [] [] [] n.
Definition user_a : CanonicalUsername := mkUsername (bs "a").
Definition user_b : CanonicalUsername := mkUsername (bs "b").

(** A permit of 40 bytes has been reserved, and a 40-byte model built on it. *)
Definition tiny_world1 : World := mkWorld (reserve tiny_budget 40).1 ∅ ∅.
Definition tiny_permit : positive := fresh (dom (permits tiny_budget)).
Definition tiny_world2 : World :=
  mkWorld (w_budget tiny_world1)
    (<[fresh (dom (w_arcs tiny_world1)) := mkArc (tiny_model 1 40) tiny_permit 1]> ∅) ∅.
Definition tiny_arc : positive := fresh (dom (w_arcs tiny_world1)).
Definition tiny_sys0 : CacheSys := cache_init tiny_budget.
Definition tiny_sys1 : CacheSys := mkSys tiny_world1 cache_new (λ _, 0).
Definition tiny_sys2 : CacheSys := mkSys tiny_world2 cache_new (own_add (λ _, 0) tiny_arc 1).

Lemma tiny_limits_ok : limits_ok tiny_limits.
Proof. unfold limits_ok, tiny_limits; simpl. unfold_max. lia. Qed.

Lemma tiny_reachable1 : reachable tiny_limits 1000 tiny_budget tiny_sys1.
Proof.
  split; [apply tiny_limits_ok|]. split; [unfold_max; lia|]. split; [reflexivity|].
  apply rtc_once.
  apply (step_reserve_operation tiny_limits _ _ _ 40 None tiny_world1 cache_new
    (Ok tiny_permit)); [unfold_max; lia|]. vm_compute. reflexivity.
Qed.

Lemma tiny_not_owned : ¬ owned_by_arc tiny_world1 tiny_permit.
Proof. intros (a & arc & Ha & _). simpl in Ha. by rewrite lookup_empty in Ha. Qed.

Lemma tiny_reachable2 : reachable tiny_limits 1000 tiny_budget tiny_sys2.
Proof.
  pose proof tiny_reachable1 as (Hl & Hb & Hn & Hs).
  split; [done|]. split; [done|]. split; [done|]. eapply rtc_r; [exact Hs|].
  apply (step_new_handle tiny_limits tiny_world1 cache_new _ (tiny_model 1 40) tiny_permit
    (mkPermit 40 None)); [vm_compute; reflexivity|apply tiny_not_owned|simpl; lia|].
  vm_compute. reflexivity.
Qed.


Lemma lease_keeps_budget_witness :
  ∃ arc p, w_arcs (s_world tiny_sys2) !! tiny_arc = Some arc ∧
    permits (w_budget (s_world tiny_sys2)) !! arc_permit arc = Some p ∧
    am_plaintext_bytes (arc_model arc) ≤ permit_bytes p.
Proof.
  apply (lease_keeps_budget tiny_limits 1000 tiny_budget tiny_sys2 tiny_arc tiny_reachable2).
  vm_compute. discriminate.
Defined.

Lemma reserve_for_user_evicts_lru_witness :
  ∃ w' c' id, reserve_operation_for_user tiny_world2 cache_new 500 user_a = Some (w', c', Ok id) ∧
    permits (w_budget w') !! id = Some (mkPermit 500 None).
Proof.
  destruct (reserve_for_user_evicts_lru tiny_limits 1000 tiny_budget tiny_sys2 500 user_a
    tiny_reachable2) as (w' & c' & r & Hr & _ & _ & _ & Hres);
    [unfold_max; lia | reflexivity |].
  destruct r as [id|e]; [|vm_compute in Hr; discriminate Hr].
  exists w', c', id. split; [exact Hr | exact (proj1 (proj2 Hres))].
Defined.

Lemma insert_admits_fitting_model_witness :
  ∃ w' c' a, cache_insert tiny_limits tiny_world1 cache_new user_a (tiny_model 1 40) tiny_permit
             = Some (w', c', Ok a) ∧ inserted cache_new c' user_a a 40.
Proof.
  destruct (insert_admits_fitting_model tiny_limits 1000 tiny_budget tiny_sys1 user_a
    (tiny_model 1 40) tiny_permit (mkPermit 40 None) tiny_reachable1)
    as (w' & c' & r & Hr & Hres);
    [vm_compute; reflexivity | apply tiny_not_owned | simpl; lia |].
  destruct r as [a|e]; [|vm_compute in Hr; discriminate Hr].
  exists w', c', a. split; [exact Hr | exact (proj1 (proj2 Hres))].
Defined.

Lemma provisional_publication_witness :
  ∃ w' c' asked, insert_provisional_if_revision tiny_limits tiny_world2 cache_new user_b 0 1
                   tiny_arc true = Some (w', c', Ok true, asked) ∧ asked = true.
Proof.
  destruct (provisional_publication tiny_limits 1000 tiny_budget tiny_sys2 user_b 0 1 tiny_arc
    (tiny_model 1 40) true tiny_reachable2) as (w' & c' & r & asked & Hr & Ha & Hres & _);
    [vm_compute; discriminate | vm_compute; reflexivity |].
  assert (asked = true) as Hasked.
  { apply Ha. split; [reflexivity|]. split; [vm_compute; discriminate|]. done. }
  assert (r = Ok true) as -> by (apply Hres; split; [exact Hasked | reflexivity]).
  exists w', c', asked. split; [exact Hr | exact Hasked].
Defined.

Lemma stale_publication_refused_witness :
  ∃ w1 c1 w2 c2 r asked, cache_clear tiny_world2 cache_new = Some (w1, c1) ∧
    insert_provisional_if_revision tiny_limits w1 c1 user_b 0 1 tiny_arc true
      = Some (w2, c2, r, asked) ∧ r ≠ Ok true.
Proof.
  destruct (cache_clear tiny_world2 cache_new) as [[w1 c1]|] eqn:Hc;
    [|vm_compute in Hc; discriminate Hc].
  destruct (insert_provisional_if_revision tiny_limits w1 c1 user_b 0 1 tiny_arc true)
    as [[[[w2 c2] r] asked]|] eqn:Hp;
    [|vm_compute in Hc; injection Hc as <- <-; vm_compute in Hp; discriminate Hp].
  exists w1, c1, w2, c2, r, asked. split; [reflexivity|]. split; [exact Hp|].
  refine (proj1 (stale_publication_refused tiny_limits 1000 tiny_budget tiny_sys2 user_b 0 1
    tiny_arc w1 c1 user_a true w2 c2 r asked tiny_reachable2 _ eq_refl (or_intror (or_introl Hc)) Hp)).
  vm_compute. discriminate.
Defined.
