(* ===== verification/Authorization.v ===== *)
(** * Request authorization and NSS identity resolution

    [crates/howy-daemon/src/authorization.rs]. The resolver is an interface, as in
    the source; the production resolver is modelled over the C library's
    [getpwnam_r], which is a parameter. [permitted] states the policy as rules;
    [authorize] implements it. *)

From S2P Require Import Prelude Bytes Storage.

(** ** Identities *)

Record CanonicalIdentity := mkIdentity { identity_username : bytes; identity_uid : Z }.
#[export] Instance CanonicalIdentity_eq_dec : EqDecision CanonicalIdentity.
Proof. solve_decision. Defined.

Inductive IdentityLookupError := SystemError (status : Z) | InvalidNssRecord | BufferLimit.

(** The trait [IdentityResolver]. *)
Class IdentityResolver :=
  resolve : bytes → result IdentityLookupError (option CanonicalIdentity).

(** ** The production resolver *)

Definition DEFAULT_NSS_BUFFER_SIZE : Z := 16 * 1024.
Definition MAX_NSS_BUFFER_SIZE : Z := 1024 * 1024.
Definition EINTR : Z := 4.
Definition ERANGE : Z := 34.

(** What one call of [getpwnam_r] leaves: its status, whether [result] is null, the
    buffer's address and contents, the address in [pw_name] and the uid. *)
Record PwCall := mkPwCall {
  pw_status : Z;
  pw_result_null : bool;
  pw_buffer_start : Z;
  pw_buffer : bytes;
  pw_name : Z;
  pw_uid : Z;
}.

(** [iter().position(|byte| *byte == 0)] *)
Fixpoint position_nul (b : bytes) : option nat :=
  match b with
  | [] => None
  | x :: rest => if bool_decide (x = Byte.x00) then Some 0%nat else S <$> position_nul rest
  end.

Section resolver.
  (** The [n]-th call, on a name, with a buffer of the given size. *)
  Context (getpwnam_r : nat → bytes → Z → PwCall).
  (** [sysconf(_SC_GETPW_R_SIZE_MAX)] *)
  Context (suggested : Z).

Definition initial_buffer_size : Z :=
  if 0 <? suggested then Z.max 1 (Z.min suggested MAX_NSS_BUFFER_SIZE)
  else DEFAULT_NSS_BUFFER_SIZE.

(** The canonical name, bounded by the buffer. *)
Definition read_entry (call : PwCall) : result IdentityLookupError (option CanonicalIdentity) :=
  let buffer_end := saturating_add (pw_buffer_start call) (len (pw_buffer call)) in
  if (pw_name call <? pw_buffer_start call) || (buffer_end <=? pw_name call)
  then Err InvalidNssRecord
  else
    let bounded_name := drop (Z.to_nat (pw_name call - pw_buffer_start call)) (pw_buffer call) in
    name_length ← ok_or (position_nul bounded_name) InvalidNssRecord;
    let canonical := take name_length bounded_name in
    if utf8_valid canonical then Ok (Some (mkIdentity canonical (pw_uid call)))
    else Err InvalidNssRecord.

(** The [loop] of [SystemIdentityResolver::resolve]; [None] when out of fuel. *)
Fixpoint resolve_loop (fuel calls : nat) (requested : bytes) (buffer_size : Z)
    : option (result IdentityLookupError (option CanonicalIdentity)) :=
  match fuel with
  | O => None
  | S fuel' =>
      let call := getpwnam_r calls requested buffer_size in
      if pw_status call =? EINTR then resolve_loop fuel' (S calls) requested buffer_size
      else if pw_status call =? ERANGE then
        if buffer_size =? MAX_NSS_BUFFER_SIZE then Some (Err BufferLimit)
        else resolve_loop fuel' (S calls) requested
               (Z.min (Z.min (buffer_size * 2) USIZE_MAX) MAX_NSS_BUFFER_SIZE)
      else if negb (pw_status call =? 0) then Some (Err (SystemError (pw_status call)))
      else if pw_result_null call then Some (Ok None)
      else Some (read_entry call)
  end.

(** [SystemIdentityResolver::resolve]; [CString::new] refuses an interior NUL. *)
Definition system_resolve (fuel : nat) (requested : bytes)
    : option (result IdentityLookupError (option CanonicalIdentity)) :=
  if bool_decide (Byte.x00 ∈ requested) then Some (Err InvalidNssRecord)
  else resolve_loop fuel 0 requested initial_buffer_size.

(** ** Termination and soundness of the lookup *)

Lemma position_nul_Some b n : position_nul b = Some n → Byte.x00 ∉ take n b.
Proof.
  revert n. induction b as [|x b IH]; intros n Hn; simplify_eq/=.
  case_bool_decide as Hx; simplify_eq/=; [apply not_elem_of_nil|].
  apply fmap_Some in Hn as (m & Hm & ->). cbn [take]. apply not_elem_of_cons.
  split; [congruence|by apply IH].
Qed.

Lemma resolve_loop_some k d fuel calls requested size :
  (∀ n s, (k ≤ n)%nat → pw_status (getpwnam_r n requested s) ≠ EINTR) →
  1 ≤ size ≤ MAX_NSS_BUFFER_SIZE → MAX_NSS_BUFFER_SIZE ≤ size * 2 ^ Z.of_nat d →
  (k - calls + d < fuel)%nat →
  is_Some (resolve_loop fuel calls requested size).
Proof.
  intros Hk. revert d calls size. induction fuel as [|fuel IH]; intros d calls size Hs Hd Hf; [lia|].
  cbn [resolve_loop]. destruct (Z.eqb_spec (pw_status (getpwnam_r calls requested size)) EINTR) as [E|_].
  { apply (IH d); [done|done|]. destruct (decide (k ≤ calls)%nat) as [Hle|]; [|lia].
    destruct (Hk calls size Hle E). }
  destruct (Z.eqb_spec (pw_status (getpwnam_r calls requested size)) ERANGE);
    [|by repeat case_match; eauto].
  destruct (Z.eqb_spec size MAX_NSS_BUFFER_SIZE); [eauto|].
  destruct d as [|d]; [simpl in Hd; lia|].
  rewrite Nat2Z.inj_succ, Z.pow_succ_r in Hd by lia.
  assert (1 ≤ 2 ^ Z.of_nat d) by (pose proof (Z.pow_pos_nonneg 2 (Z.of_nat d)); lia).
  assert (0 < MAX_NSS_BUFFER_SIZE < U64_MAX) by (unfold MAX_NSS_BUFFER_SIZE; unfold_max; lia).
  unfold USIZE_MAX. apply (IH d); [lia| |lia].
  destruct (Z.min_spec (Z.min (size * 2) U64_MAX) MAX_NSS_BUFFER_SIZE) as [[? ->]|[? ->]]; nia.
Qed.

Lemma resolve_loop_sound fuel calls requested size i :
  resolve_loop fuel calls requested size = Some (Ok (Some i)) →
  utf8_valid (identity_username i) = true ∧ Byte.x00 ∉ identity_username i.
Proof.
  revert calls size. induction fuel as [|fuel IH]; intros calls size Hr; [done|].
  cbn [resolve_loop] in Hr. repeat (case_match; try done; eauto).
  injection Hr as Hr. unfold read_entry in Hr. inv_ok. subst i. simpl. split; [done|]. by eapply position_nul_Some.
Qed.

Lemma initial_buffer_size_range : 1 ≤ initial_buffer_size ≤ MAX_NSS_BUFFER_SIZE.
Proof.
  unfold initial_buffer_size, MAX_NSS_BUFFER_SIZE, DEFAULT_NSS_BUFFER_SIZE.
  destruct (Z.ltb_spec 0 suggested); lia.
Qed.

(** The NSS lookup always returns: whatever buffer size the system suggests and
    whatever the C library answers, if no call after the first [k] is interrupted
    the lookup makes at most [k + 21] calls, since each refusal doubles the buffer
    up to its cap; and an identity it returns has a NUL-free UTF-8 name. *)
Theorem system_resolve_terminates k requested fuel :
  (∀ n s, (k ≤ n)%nat → pw_status (getpwnam_r n requested s) ≠ EINTR) →
  (k + 21 ≤ fuel)%nat →
  ∃ r, system_resolve fuel requested = Some r ∧
    ∀ i, r = Ok (Some i) → utf8_valid (identity_username i) = true ∧ Byte.x00 ∉ identity_username i.
Proof.
  intros Hk Hf. unfold system_resolve. case_bool_decide.
  { by eexists. }
  pose proof initial_buffer_size_range as Hi.
  destruct (resolve_loop_some k 20 fuel 0 requested initial_buffer_size Hk Hi) as [r Hr].
  { change (2 ^ Z.of_nat 20) with 1048576. unfold MAX_NSS_BUFFER_SIZE in *. lia. }
  { lia. }
  exists r. split; [done|]. intros i ->. by eapply resolve_loop_sound.
Qed.

End resolver.

(** ** Policy data *)

Inductive ConnectionPhase :=
| PhaseInitial
| PendingAuth (peer_uid : Z) (target : CanonicalIdentity)
| PhaseFinished.

Record AuthorizationContext := mkContext {
  peer_uid : Z;
  confirmation_required : bool;
  connection_phase : ConnectionPhase;
}.

Inductive Operation :=
| Ping | PublicInfo
| Authenticate (target : bytes)
| BeginAuth (target : bytes)
| CommitAuth | CancelAuth
| EnrollmentPresence (target : bytes)
| CheckCredential (target : bytes)
| RevokeCredential (target : bytes)
| Enroll (target : bytes)
| EnrollBatch (target : bytes)
| Detect
| ListEnrollments (target : bytes)
| RemoveEnrollment (target : bytes)
| ClearEnrollments (target : bytes)
| SecurityInfo | Reload | Shutdown | UnknownOp | WrongPhaseOp.

(** [Operation::target] *)
Definition operation_target (op : Operation) : option bytes :=
  match op with
  | Authenticate t | BeginAuth t | EnrollmentPresence t | CheckCredential t | RevokeCredential t
  | Enroll t | EnrollBatch t | ListEnrollments t | RemoveEnrollment t | ClearEnrollments t => Some t
  | Ping | PublicInfo | CommitAuth | CancelAuth | Detect | SecurityInfo | Reload | Shutdown
  | UnknownOp | WrongPhaseOp => None
  end.

Inductive DenialReason :=
| InvalidTarget | UnknownTarget | NonCanonicalTarget | IdentityLookupFailed | DeniedPermission
| ConfirmationRequired | DeniedWrongPhase | UnknownOperation.

Inductive Decision_ := Allow (canonical_target : option CanonicalIdentity) | Deny (reason : DenialReason).

(** [peer_may_target], [connection_is_bound] *)
Definition peer_may_target (peer : Z) (target : CanonicalIdentity) : bool :=
  (peer =? 0) || (peer =? identity_uid target).
Definition connection_is_bound (ctx : AuthorizationContext) (target : CanonicalIdentity) : bool :=
  match connection_phase ctx with
  | PendingAuth p t => (p =? peer_uid ctx) && bool_decide (t = target)
  | _ => false
  end.

Section authorize.
  Context `{IdentityResolver}.

(** [resolve_canonical_target] *)
Definition resolve_canonical_target (requested : bytes) : result DenialReason CanonicalIdentity :=
  if negb (validate_username requested) then Err InvalidTarget
  else
    found ← map_err (λ _, IdentityLookupFailed) (resolve requested);
    resolved ← ok_or found UnknownTarget;
    if negb (validate_username (identity_username resolved))
       || negb (bool_decide (requested = identity_username resolved))
    then Err NonCanonicalTarget
    else Ok resolved.

(** [target.is_some_and(..)] *)
Definition is_some_and {A} (o : option A) (p : A → bool) : bool :=
  match o with Some a => p a | None => false end.

(** The policy part of [authorize]: a denial of its own, or whether to allow. *)
Definition authorize_policy (op : Operation) (ctx : AuthorizationContext)
    (target : option CanonicalIdentity) : result DenialReason bool :=
  match op with
  | Ping | PublicInfo => Ok true
  | Authenticate _ =>
      if confirmation_required ctx then Err ConfirmationRequired
      else Ok (is_some_and target (peer_may_target (peer_uid ctx)))
  | BeginAuth _ =>
      if negb (confirmation_required ctx) then Err DeniedWrongPhase
      else Ok (is_some_and target (peer_may_target (peer_uid ctx)))
  | EnrollmentPresence _ | CheckCredential _ | RevokeCredential _ =>
      Ok (is_some_and target (peer_may_target (peer_uid ctx)))
  | CommitAuth | CancelAuth =>
      if negb (confirmation_required ctx) then Err DeniedWrongPhase
      else Ok (is_some_and target (λ t, peer_may_target (peer_uid ctx) t && connection_is_bound ctx t))
  | Enroll _ | EnrollBatch _ | ListEnrollments _ | RemoveEnrollment _ | ClearEnrollments _ =>
      Ok ((peer_uid ctx =? 0) && bool_decide (is_Some target))
  | Detect | SecurityInfo | Reload | Shutdown => Ok (peer_uid ctx =? 0)
  | UnknownOp | WrongPhaseOp => Ok false
  end.

(** The name [authorize] resolves: that of the pending transaction for a commit or
    a cancel, the request's own otherwise. *)
Definition requested_target (op : Operation) (ctx : AuthorizationContext)
    : result DenialReason (option bytes) :=
  match op with
  | CommitAuth | CancelAuth =>
      match connection_phase ctx with
      | PendingAuth _ target => Ok (Some (identity_username target))
      | PhaseInitial | PhaseFinished => Err DeniedWrongPhase
      end
  | _ => Ok (operation_target op)
  end.

Definition canonicalize (requested : option bytes) : result DenialReason (option CanonicalIdentity) :=
  match requested with Some t => Some <$> resolve_canonical_target t | None => Ok None end.

(** [authorize] *)
Definition authorize (op : Operation) (ctx : AuthorizationContext) : Decision_ :=
  match op with
  | UnknownOp => Deny UnknownOperation
  | WrongPhaseOp => Deny DeniedWrongPhase
  | _ =>
      match requested ← requested_target op ctx;
            target ← canonicalize requested;
            allowed ← authorize_policy op ctx target;
            Ok (allowed, target)
      with
      | Err reason => Deny reason
      | Ok (true, target) => Allow target
      | Ok (false, _) =>
          match op with
          | CommitAuth | CancelAuth => Deny DeniedWrongPhase
          | _ => Deny DeniedPermission
          end
      end
  end.

(** [authorize_and_then] *)
Definition authorize_and_then {T} (op : Operation) (ctx : AuthorizationContext)
    (run : option CanonicalIdentity → T) : result DenialReason T :=
  match authorize op ctx with Allow t => Ok (run t) | Deny reason => Err reason end.

(** ** The policy as rules *)

(** [t] is the canonical identity of a requested name. *)
Definition names (requested : bytes) (t : CanonicalIdentity) : Prop :=
  is_canonical_username requested = true ∧ resolve requested = Ok (Some t) ∧
  identity_username t = requested.

(** A peer may act on an identity if it is root or that identity itself. *)
Definition acts_for (peer : Z) (t : CanonicalIdentity) : Prop := peer = 0 ∨ peer = identity_uid t.

Inductive permitted (ctx : AuthorizationContext) : Operation → option CanonicalIdentity → Prop :=
| permit_public op : op = Ping ∨ op = PublicInfo → permitted ctx op None
| permit_direct u t :
    confirmation_required ctx = false → names u t → acts_for (peer_uid ctx) t →
    permitted ctx (Authenticate u) (Some t)
| permit_begin u t :
    confirmation_required ctx = true → names u t → acts_for (peer_uid ctx) t →
    permitted ctx (BeginAuth u) (Some t)
| permit_bound op t :
    op = CommitAuth ∨ op = CancelAuth → confirmation_required ctx = true →
    connection_phase ctx = PendingAuth (peer_uid ctx) t →
    names (identity_username t) t → acts_for (peer_uid ctx) t → permitted ctx op (Some t)
| permit_self op u t :
    op = EnrollmentPresence u ∨ op = CheckCredential u ∨ op = RevokeCredential u →
    names u t → acts_for (peer_uid ctx) t → permitted ctx op (Some t)
| permit_admin op u t :
    op = Enroll u ∨ op = EnrollBatch u ∨ op = ListEnrollments u ∨ op = RemoveEnrollment u ∨
    op = ClearEnrollments u →
    peer_uid ctx = 0 → names u t → permitted ctx op (Some t)
| permit_root op :
    op = Detect ∨ op = SecurityInfo ∨ op = Reload ∨ op = Shutdown →
    peer_uid ctx = 0 → permitted ctx op None.

Lemma resolve_canonical_target_Ok u t : resolve_canonical_target u = Ok t ↔ names u t.
Proof.
  unfold resolve_canonical_target, names, validate_username. split.
  - intros Hr. inv_ok. subst. apply negb_false_iff in Hg. apply orb_false_iff in Hg0 as [_ Hg0].
    breflect. split_and!; congruence.
  - intros (Hv & Hr & <-). rewrite Hv, Hr. simpl. rewrite Hv. by rewrite bool_decide_eq_true_2.
Qed.

Lemma peer_may_target_true p t : peer_may_target p t = true ↔ acts_for p t.
Proof. unfold peer_may_target, acts_for. lia. Qed.

Lemma connection_is_bound_true ctx t :
  connection_is_bound ctx t = true ↔ connection_phase ctx = PendingAuth (peer_uid ctx) t.
Proof.
  unfold connection_is_bound. destruct (connection_phase ctx) as [|p t'|]; try done.
  rewrite andb_true_iff, bool_decide_eq_true, Z.eqb_eq. naive_solver.
Qed.

Lemma canonicalize_Ok (r : option bytes) (c : option CanonicalIdentity) :
  canonicalize r = Ok c ↔
  match r, c with Some u, Some t => names u t | None, None => True | _, _ => False end.
Proof.
  unfold canonicalize. destruct r as [u|], c as [t|]; try done.
  - rewrite fmap_Ok. rewrite <- resolve_canonical_target_Ok. naive_solver.
  - rewrite fmap_Ok. naive_solver.
Qed.

Lemma authorize_Allow op ctx t :
  authorize op ctx = Allow t ↔
  op ≠ UnknownOp ∧ op ≠ WrongPhaseOp ∧
  ∃ requested, requested_target op ctx = Ok requested ∧ canonicalize requested = Ok t ∧
    authorize_policy op ctx t = Ok true.
Proof.
  unfold authorize.
  set (run := requested_target op ctx ≫= _).
  assert (run = Ok (true, t) ↔ ∃ requested, requested_target op ctx = Ok requested ∧
    canonicalize requested = Ok t ∧ authorize_policy op ctx t = Ok true) as Hrun.
  { subst run. split.
    - intros Hr. inv_ok. simplify_eq. eauto.
    - intros (r & -> & Hc & Hp). simpl. rewrite Hc. simpl. by rewrite Hp. }
  rewrite <- Hrun. clear Hrun. destruct run as [[[] t']|e]; destruct op; naive_solver.
Qed.

Lemma policy_permitted op ctx r t :
  requested_target op ctx = Ok r →
  match r, t with Some u, Some t => names u t | None, None => True | _, _ => False end →
  authorize_policy op ctx t = Ok true → permitted ctx op t.
Proof.
  intros Hr Hn Hp.
  assert (∀ p : CanonicalIdentity → bool, Ok (is_some_and t p) = Ok true :> result DenialReason bool →
    ∃ i, t = Some i ∧ p i = true) as Hsome by (destruct t; naive_solver).
  destruct op; simpl in Hr, Hp; try done.
  5,6: destruct (confirmation_required ctx) eqn:Hconf; [|done];
       apply Hsome in Hp as (i & -> & [Ha Hb]%andb_true_iff);
       apply peer_may_target_true in Ha; apply connection_is_bound_true in Hb;
       rewrite Hb in Hr; injection Hr as <-; apply permit_bound; auto.
  all: injection Hr as <-.
  all: try (destruct t; done).
  1,2: destruct t; [done|]; apply permit_public; auto.
  1,2: destruct (confirmation_required ctx) eqn:Hconf; try done;
       apply Hsome in Hp as (i & -> & Ha%peer_may_target_true); by constructor.
  1,2,3: apply Hsome in Hp as (i & -> & Ha%peer_may_target_true); eapply permit_self; eauto.
  all: destruct t as [i|]; try done; injection Hp as Hp; breflect.
  all: first [by eapply permit_root; eauto | eapply permit_admin; eauto 10].
Qed.

Lemma permitted_policy op ctx t :
  permitted ctx op t →
  ∃ r, requested_target op ctx = Ok r ∧ canonicalize r = Ok t ∧ authorize_policy op ctx t = Ok true.
Proof.
  intros Hperm. destruct Hperm as [op Hop|u t Hc Hn Ha|u t Hc Hn Ha|op t Hop Hc Hph Hn Ha
    |op u t Hop Hn Ha|op u t Hop Hz Hn|op Hop Hz].
  - exists None. destruct Hop as [->| ->]; done.
  - exists (Some u). rewrite canonicalize_Ok. simpl. rewrite Hc.
    by rewrite (proj2 (peer_may_target_true _ _) Ha).
  - exists (Some u). rewrite canonicalize_Ok. simpl. rewrite Hc.
    by rewrite (proj2 (peer_may_target_true _ _) Ha).
  - exists (Some (identity_username t)). rewrite canonicalize_Ok.
    destruct Hop as [->| ->]; simpl; rewrite Hph, Hc; simpl;
      rewrite (proj2 (peer_may_target_true _ _) Ha), (proj2 (connection_is_bound_true _ _) Hph); done.
  - exists (Some u). rewrite canonicalize_Ok.
    destruct Hop as [->|[->| ->]]; simpl; by rewrite (proj2 (peer_may_target_true _ _) Ha).
  - exists (Some u). rewrite canonicalize_Ok.
    destruct Hop as [->|[->|[->|[->| ->]]]]; simpl; by rewrite Hz.
  - exists None. destruct Hop as [->|[->|[->| ->]]]; simpl; by rewrite Hz.
Qed.

Lemma authorize_permitted op ctx t : authorize op ctx = Allow t → permitted ctx op t.
Proof.
  intros (_ & _ & r & Hr & Hc & Hp)%authorize_Allow. apply canonicalize_Ok in Hc.
  by eapply policy_permitted.
Qed.

(** C2: The daemon authorizes exactly what its policy rules permit: for every
    operation, peer, connection phase and resolver, a request is allowed with a
    given canonical target if and only if one of the rules of [permitted] derives
    it; in particular no operation falls through. *)
Theorem authorize_iff_permitted op ctx t :
  authorize op ctx = Allow t ↔ permitted ctx op t.
Proof.
  rewrite authorize_Allow. split.
  - intros (_ & _ & r & Hr & Hc & Hp). apply canonicalize_Ok in Hc. by eapply policy_permitted.
  - intros Hperm. split_and!; [by intros -> ; inversion Hperm; naive_solver
      |by intros ->; inversion Hperm; naive_solver|].
    by apply permitted_policy.
Qed.

(** An unprivileged peer reaches only itself: a non-root peer is allowed nothing
    but the two public operations and operations whose canonical target, freshly
    resolved, has the peer's own uid; administrative operations are refused. *)
Theorem unprivileged_peer_confined op ctx t :
  peer_uid ctx ≠ 0 → authorize op ctx = Allow t →
  (op = Ping ∨ op = PublicInfo) ∧ t = None ∨
  ∃ i, t = Some i ∧ identity_uid i = peer_uid ctx ∧
    names (identity_username i) i ∧
    ∃ u, op = Authenticate u ∨ op = BeginAuth u ∨ op = CommitAuth ∨ op = CancelAuth ∨
      op = EnrollmentPresence u ∨ op = CheckCredential u ∨ op = RevokeCredential u.
Proof.
  rewrite authorize_Allow. intros Hp (_ & _ & r & Hr & Hc & Hpol). apply canonicalize_Ok in Hc.
  pose proof (policy_permitted op ctx r t Hr Hc Hpol) as Hperm.
  assert (∀ u i, names u i → names (identity_username i) i) as Hname
    by (intros u i (?&?&Heq); by rewrite Heq).
  destruct Hperm as [op Hop|u i Hcf Hn Ha|u i Hcf Hn Ha|op i Hop Hcf Hph Hn Ha
    |op u i Hop Hn Ha|op u i Hop Hz Hn|op Hop Hz]; try done.
  - by left.
  - right. destruct Ha; [done|]. exists i. split_and!; eauto 10.
  - right. destruct Ha; [done|]. exists i. split_and!; eauto 10.
  - right. destruct Ha; [done|]. exists i. split_and!; eauto. exists []. tauto.
  - right. destruct Ha; [done|]. exists i. split_and!; eauto. exists u. tauto.
Qed.

(** Confirmation cannot be skipped: where confirmation is required a direct
    authentication is always refused, and a commit is allowed only on a connection
    pending for this same peer, for the identity that the pending username still
    resolves to. *)
Theorem confirmation_binding ctx t u :
  confirmation_required ctx = true →
  authorize (Authenticate u) ctx ≠ Allow t ∧
  (authorize CommitAuth ctx = Allow t →
   ∃ i, t = Some i ∧ connection_phase ctx = PendingAuth (peer_uid ctx) i ∧
     resolve (identity_username i) = Ok (Some i) ∧ acts_for (peer_uid ctx) i).
Proof.
  intros Hc. split.
  - rewrite authorize_Allow. intros (_ & _ & r & _ & _ & Hp). simpl in Hp. by rewrite Hc in Hp.
  - rewrite authorize_Allow. intros (_ & _ & r & Hr & Hcan & Hp). apply canonicalize_Ok in Hcan.
    pose proof (policy_permitted CommitAuth ctx r t Hr Hcan Hp) as Hperm.
    inversion Hperm as [op Hop| | |op i Hop Hcf Hph (_ & Hn & _) Ha|op u' i Hop|op u' i Hop|op Hop];
      simplify_eq; naive_solver.
Qed.

End authorize.

(** ** Concrete instances *)

Definition toy_resolver : IdentityResolver := λ name,
  if bool_decide (name = bs "alice") then Ok (Some (mkIdentity (bs "alice") 1000)) else Ok None.

Lemma unprivileged_peer_confined_witness :
  @authorize toy_resolver (Authenticate (bs "alice")) (mkContext 1000 false PhaseInitial)
  = Allow (Some (mkIdentity (bs "alice") 1000)) ∧
  @authorize toy_resolver Shutdown (mkContext 1000 false PhaseInitial) ≠ Allow None.
Proof.
  split; [reflexivity|]. intros Ha.
  destruct (@unprivileged_peer_confined toy_resolver Shutdown (mkContext 1000 false PhaseInitial) None
    ltac:(simpl; lia) Ha) as [[[Hop|Hop] _]|(i & Hi & _)]; discriminate.
Defined.

Lemma confirmation_binding_witness :
  @authorize toy_resolver (Authenticate (bs "alice")) (mkContext 1000 true PhaseInitial)
  ≠ Allow (Some (mkIdentity (bs "alice") 1000)).
Proof.
  exact (proj1 (@confirmation_binding toy_resolver (mkContext 1000 true PhaseInitial)
    (Some (mkIdentity (bs "alice") 1000)) (bs "alice") eq_refl)).
Defined.

(** A C library that asks for 100,000 bytes and then finds nobody. *)
Definition toy_getpwnam_r (n : nat) (name : bytes) (size : Z) : PwCall :=
  mkPwCall (if size <? 100000 then ERANGE else 0) true 0 [] 0 0.

Lemma system_resolve_terminates_witness :
  ∃ r, system_resolve toy_getpwnam_r 1024 21 (bs "alice") = Some r ∧ r = Ok None.
Proof.
  destruct (system_resolve_terminates toy_getpwnam_r 1024 0 (bs "alice") 21) as (r & Hr & _).
  - intros n s _. unfold toy_getpwnam_r, EINTR, ERANGE. simpl. destruct (s <? 100000); lia.
  - lia.
  - exists r. split; [exact Hr|]. vm_compute in Hr. injection Hr as <-. reflexivity.
Defined.
