(* ===== verification/Config.v ===== *)
(** * Configuration

    [crates/howy-common/src/config.rs]: the configuration records with their
    defaults, [HowyConfig::validate], and loading. The file system, the
    environment and the TOML parser are parameters; a Rust [String] is the list
    of its bytes, an [f32] its bit pattern. *)

From S2P Require Import Prelude Bytes Storage Namespace Contracts Budget Cache CacheLru.

(** ** Settings *)

Record CoreConfig := mkCore {
  detection_notice : bool; timeout_notice : bool; no_confirmation : bool;
  suppress_unknown : bool; abort_if_ssh : bool; abort_if_lid_closed : bool;
  disabled : bool }.

Definition CoreConfig_default : CoreConfig := mkCore false true false false true true false.

Record MlConfig := mkMl {
  provider : bytes; prefer_npu : bool; det_threshold : Z; recognition_threshold : Z;
  detector_model : bytes; recognizer_model : bytes; det_width : Z; det_height : Z;
  threads : Z }.

(** The thresholds are the bit patterns of 0.6 and 0.5. *)
Definition MlConfig_default : MlConfig :=
  mkMl (bs "auto") false 1058642330 1056964608 [] [] 640 640 0.

Record VideoConfig := mkVideo {
  timeout : Z; device_path : bytes; max_height : Z; dark_threshold : Z;
  max_dark_frames : Z; frame_width : Z; frame_height : Z; rotate : Z; device_fps : Z;
  exposure : Z }.

(** The dark-frame threshold is the bit pattern of 60.0. *)
Definition VideoConfig_default : VideoConfig :=
  mkVideo 4 [] 320 1114636288 15 (-1) (-1) 0 (-1) (-1).

Record SnapshotConfig := mkSnapshot { save_failed : bool; save_successful : bool }.
Definition SnapshotConfig_default : SnapshotConfig := mkSnapshot false false.

Record CredentialConfig := mkCredential {
  enable_cache : bool; cache_ttl_secs : Z; keyring_prefix : bytes; use_systemd_creds : bool }.
Definition CredentialConfig_default : CredentialConfig :=
  mkCredential false 300 (bs "howy:auth") false.

Record CachedSecurityConfig := mkCached {
  credential_name : bytes; max_cached_users : Z; max_cache_bytes : Z; require_mlock : bool }.
Definition CachedSecurityConfig_default : CachedSecurityConfig :=
  mkCached (bs "howy.storage.mode1.epoch1") 64 134217728 true.

Record EphemeralSecurityConfig := mkEphemeral {
  sealed_key_blob : bytes; key_description : bytes; tpm_parent_handle : bytes }.
Definition EphemeralSecurityConfig_default : EphemeralSecurityConfig :=
  mkEphemeral (bs "/var/lib/howy/keys/mode2-epoch1.blob") (bs "howy:storage:mode2:epoch1")
    (bs "0x81000001").

Record SecurityConfig := mkSecurity {
  embedding_mode : EmbeddingSecurityMode; cfg_key_epoch : Z; max_embeddings_per_user : Z;
  max_record_bytes : Z; max_plaintext_bytes : Z; cached : CachedSecurityConfig;
  ephemeral : EphemeralSecurityConfig }.
Definition SecurityConfig_default : SecurityConfig :=
  mkSecurity Plaintext 1 1000 2621440 134217728 CachedSecurityConfig_default
    EphemeralSecurityConfig_default.

Inductive PresenceMode := Off | Confirm.
#[export] Instance PresenceMode_eq_dec : EqDecision PresenceMode.
Proof. solve_decision. Defined.

Record PresenceConfig := mkPresence {
  presence_mode : PresenceMode; local_only : bool; allowed_pam_services : list bytes;
  prompt_timeout_ms : Z; commit_to_camera_ms : Z; scan_timeout_ms : Z;
  max_pending_per_uid : Z; max_pending_global : Z }.
Definition PresenceConfig_default : PresenceConfig :=
  mkPresence Off true [bs "sudo"] 30000 1000 2000 2 32.

Record DebugConfig := mkDebug { end_report : bool; log_level : bytes }.
Definition DebugConfig_default : DebugConfig := mkDebug false (bs "info").

Record HowyConfig := mkConfig {
  core : CoreConfig; ml : MlConfig; video : VideoConfig; snapshots : SnapshotConfig;
  credentials : CredentialConfig; security : SecurityConfig; presence : PresenceConfig;
  debug : DebugConfig }.

(** [HowyConfig::legacy_defaults], [secure_bootstrap_template], [fresh_template] *)
Definition legacy_defaults : HowyConfig :=
  mkConfig CoreConfig_default MlConfig_default VideoConfig_default SnapshotConfig_default
    CredentialConfig_default SecurityConfig_default PresenceConfig_default DebugConfig_default.

Definition secure_bootstrap_template : HowyConfig :=
  let c := legacy_defaults in
  let k := core c in let s := security c in let p := presence c in
  mkConfig
    (mkCore (detection_notice k) (timeout_notice k) (no_confirmation k) (suppress_unknown k)
       (abort_if_ssh k) (abort_if_lid_closed k) true)
    (ml c) (video c) (snapshots c) (credentials c)
    (mkSecurity AeadCached (cfg_key_epoch s) (max_embeddings_per_user s) (max_record_bytes s)
       (max_plaintext_bytes s) (cached s) (ephemeral s))
    (mkPresence Confirm (local_only p) (allowed_pam_services p) (prompt_timeout_ms p)
       (commit_to_camera_ms p) (scan_timeout_ms p) (max_pending_per_uid p)
       (max_pending_global p))
    (debug c).

Definition fresh_template : HowyConfig := legacy_defaults.

(** [Deserialize for EmbeddingSecurityMode], from the parsed [i64]. *)
Definition security_mode_deserialize (value : Z) : result Z EmbeddingSecurityMode :=
  match value with
  | 0 => Ok Plaintext
  | 1 => Ok AeadCached
  | 2 => Ok AeadEphemeral
  | 3 => Ok ReservedFuture
  | _ => Err value
  end.

(** ** Validation *)

(** [is_safe_ascii_name] *)
Definition is_safe_ascii_name (value : bytes) (max_len : Z) : bool :=
  negb (len value =? 0) && (len value <=? max_len) && forallb is_name_byte value.

(** [u32::from_str_radix(_, 16)] on digits: an optional plus sign, at least one
    digit, overflow refused. *)
Definition hex_digit (b : byte) : option Z :=
  let z := byte.unsigned b in
  if contains 48 57 z then Some (z - 48)
  else if contains 65 70 z then Some (z - 55)
  else if contains 97 102 z then Some (z - 87)
  else None.

Fixpoint from_hex_digits (acc : Z) (digits : bytes) : option Z :=
  match digits with
  | [] => Some acc
  | b :: rest =>
      d ← hex_digit b;
      if acc * 16 + d <=? U32_MAX then from_hex_digits (acc * 16 + d) rest else None
  end.

Definition from_str_radix16 (s : bytes) : option Z :=
  match s with
  | [] => None
  | b :: rest =>
      if bool_decide (b = Byte.x2b)
      then match rest with [] => None | _ => from_hex_digits 0 rest end
      else from_hex_digits 0 s
  end.

(** [validate_tpm_parent_handle] *)
Definition validate_tpm_parent_handle (value : bytes) : bool :=
  (len value =? 10) && bool_decide (take 2 value = bs "0x")
  && forallb is_ascii_hexdigit (drop 2 value)
  && match from_str_radix16 (drop 2 value) with
     | Some handle => negb (handle =? 0)
     | None => false
     end.

(** [Path::is_absolute] *)
Definition is_absolute (p : bytes) : bool :=
  match p with b :: _ => bool_decide (b = slash) | [] => false end.

Abbreviation cresult := (result string).

(** An early return guarded by a condition. *)
Definition reject_if (c : bool) (message : string) : cresult unit :=
  if c then Err message else Ok ().

(** The loop over [presence.allowed_pam_services]. *)
Fixpoint check_services (allowed : gset bytes) (services : list bytes) : cresult unit :=
  match services with
  | [] => Ok ()
  | service :: rest =>
      _ ← reject_if (negb (is_safe_ascii_name service 64))
        "presence.allowed_pam_services entries must be 1..=64 ASCII bytes using only A-Z, a-z, 0-9, '.', '_', or '-'";
      _ ← reject_if (bool_decide (service ∈ allowed))
        "presence.allowed_pam_services entries must be unique";
      check_services ({[service]} ∪ allowed) rest
  end.

(** The [match self.security.embedding_mode] of [validate]. *)
Definition validate_mode_settings (s : SecurityConfig) : cresult unit :=
  match embedding_mode s with
  | AeadCached =>
      _ ← reject_if (negb (contains 1 4096 (max_cached_users (cached s))))
        "security.cached.max_cached_users must be in 1..=4096";
      _ ← reject_if ((max_cache_bytes (cached s) <? max_record_bytes s)
                     || (max_plaintext_bytes s <? max_cache_bytes (cached s)))
        "security.cached.max_cache_bytes must be at least max_record_bytes and no greater than max_plaintext_bytes";
      reject_if (negb (is_safe_ascii_name (credential_name (cached s)) 128))
        "security.cached.credential_name must be 1..=128 ASCII bytes using only A-Z, a-z, 0-9, '.', '_', or '-'"
  | AeadEphemeral =>
      _ ← reject_if (negb (is_absolute (sealed_key_blob (ephemeral s))))
        "security.ephemeral.sealed_key_blob must be an absolute path";
      let description := key_description (ephemeral s) in
      _ ← reject_if ((len description =? 0) || (128 <? len description)
                     || negb (forallb (byte_in 32 126) description))
        "security.ephemeral.key_description must be 1..=128 printable ASCII bytes without NUL or newline";
      reject_if (negb (validate_tpm_parent_handle (tpm_parent_handle (ephemeral s))))
        "security.ephemeral.tpm_parent_handle must be nonzero and formatted as 0x followed by eight hex digits"
  | Plaintext | ReservedFuture => Ok ()
  end.

Definition LOG_LEVELS : list bytes :=
  [bs "error"; bs "warn"; bs "info"; bs "debug"; bs "trace"].

(** [HowyConfig::validate] *)
Definition validate (c : HowyConfig) : cresult unit :=
  let s := security c in
  let p := presence c in
  _ ← reject_if (negb (f32_in_unit (det_threshold (ml c))))
    "ml.det_threshold must be in 0.0..=1.0";
  _ ← reject_if (negb (f32_in_unit (recognition_threshold (ml c))))
    "ml.recognition_threshold must be in 0.0..=1.0";
  _ ← reject_if (det_width (ml c) =? 0) "ml.det_width must be > 0";
  _ ← reject_if (det_height (ml c) =? 0) "ml.det_height must be > 0";
  _ ← reject_if (enable_cache (credentials c) && (cache_ttl_secs (credentials c) =? 0))
    "credentials.cache_ttl_secs must be > 0 when caching is enabled";
  _ ← reject_if (timeout (video c) =? 0) "video.timeout must be > 0";
  _ ← reject_if (bool_decide (embedding_mode s = ReservedFuture))
    "security.embedding_mode 3 is reserved and unsupported in this release";
  _ ← reject_if (bool_decide (embedding_mode s = AeadCached ∨ embedding_mode s = AeadEphemeral)
                 && (cfg_key_epoch s =? 0))
    "security.key_epoch must be > 0 for encrypted modes";
  _ ← reject_if (negb (contains 1 1000 (max_embeddings_per_user s)))
    "security.max_embeddings_per_user must be in 1..=1000";
  _ ← reject_if (negb (contains 4096 2621440 (max_record_bytes s)))
    "security.max_record_bytes must be in 4096..=2621440";
  _ ← reject_if ((max_plaintext_bytes s <? max_record_bytes s)
                 || (1073741824 <? max_plaintext_bytes s))
    "security.max_plaintext_bytes must be at least max_record_bytes and no greater than 1073741824";
  _ ← validate_mode_settings s;
  _ ← check_services ∅ (allowed_pam_services p);
  _ ← reject_if (bool_decide (presence_mode p = Confirm)
                 && bool_decide (allowed_pam_services p = []))
    "presence.allowed_pam_services must not be empty when presence.mode is confirm";
  _ ← reject_if (negb (contains 1000 300000 (prompt_timeout_ms p)))
    "presence.prompt_timeout_ms must be in 1000..=300000";
  _ ← reject_if (negb (contains 100 10000 (commit_to_camera_ms p)))
    "presence.commit_to_camera_ms must be in 100..=10000";
  _ ← reject_if (negb (contains 100 30000 (scan_timeout_ms p)))
    "presence.scan_timeout_ms must be in 100..=30000";
  _ ← reject_if (negb (contains 1 16 (max_pending_per_uid p)))
    "presence.max_pending_per_uid must be in 1..=16";
  _ ← reject_if ((max_pending_global p <? max_pending_per_uid p)
                 || (1024 <? max_pending_global p))
    "presence.max_pending_global must be at least max_pending_per_uid and no greater than 1024";
  if bool_decide (log_level (debug c) ∈ LOG_LEVELS) then Ok ()
  else Err "debug.log_level must be one of: error, warn, info, debug, trace".

(** ** Loading *)

(** [toml::Value]; a table in its iteration order. *)
Inductive TomlValue :=
| TomlString (s : bytes)
| TomlInteger (z : Z)
| TomlFloat (bits : Z)
| TomlBoolean (b : bool)
| TomlDatetime (d : bytes)
| TomlArray (vs : list TomlValue)
| TomlTable (entries : list (bytes * TomlValue)).

(** [collect_explicit_fields], adding to the set. *)
Fixpoint collect_explicit_fields (value : TomlValue) (prefix : bytes) (fields : gset bytes)
    {struct value} : gset bytes :=
  match value with
  | TomlTable entries =>
      (fix go es fields :=
         match es with
         | [] => fields
         | (name, v) :: rest =>
             let path := if len prefix =? 0 then name else prefix ++ bs "." ++ name in
             go rest (collect_explicit_fields v path fields)
         end) entries fields
  | _ => if negb (len prefix =? 0) then {[prefix]} ∪ fields else fields
  end.

Inductive ConfigSource := FileSource (path : bytes) | SystemdCredential (path : bytes).
Inductive ConfigValueSource := Explicit | Defaulted.

Record ConfigProvenance := mkProvenance { cp_source : ConfigSource; explicit_fields : gset bytes }.

(** [ConfigProvenance::value_source] *)
Definition value_source (p : ConfigProvenance) (path : bytes) : ConfigValueSource :=
  if bool_decide (path ∈ explicit_fields p) then Explicit else Defaulted.

Record LoadedConfig := mkLoaded { lc_config : HowyConfig; lc_provenance : ConfigProvenance }.

Inductive IoErrorKind := NotFound | InvalidData | OtherKind (code : Z).
#[export] Instance IoErrorKind_eq_dec : EqDecision IoErrorKind.
Proof. solve_decision. Defined.
Record IoError := mkIoError { io_kind : IoErrorKind; io_message : bytes }.

Definition CONFIG_FILE : bytes := bs "/etc/howy/config.toml".

(** The process environment: files, the variable [CREDENTIALS_DIRECTORY] (when it
    is set to UTF-8) and the TOML parser at its two types. *)
Class ConfigEnv := {
  read_to_string : bytes → result IoError bytes;
  path_exists : bytes → bool;
  credentials_directory : option bytes;
  toml_config : bytes → result bytes HowyConfig;
  toml_value : bytes → result bytes TomlValue;
}.

Section loading.
  Context `{ConfigEnv}.

Definition not_found_message (path : bytes) : bytes :=
  bs "configuration file not found at " ++ path
  ++ bs "; generate one with `sudo howy config` or select an explicit configuration".

(** [HowyConfig::load_from_source] *)
Definition load_from_source (path : bytes) (source : ConfigSource)
    : result IoError LoadedConfig :=
  contents ← map_err (λ error,
      if bool_decide (io_kind error = NotFound)
      then mkIoError NotFound (not_found_message path)
      else error) (read_to_string path);
  config ← map_err (mkIoError InvalidData) (toml_config contents);
  _ ← map_err (λ error, mkIoError InvalidData (bs error)) (validate config);
  document ← map_err (mkIoError InvalidData) (toml_value contents);
  Ok (mkLoaded config (mkProvenance source (collect_explicit_fields document [] ∅))).

(** [HowyConfig::load_with_provenance], [load] *)
Definition load_with_provenance (path : bytes) : result IoError LoadedConfig :=
  load_from_source path (FileSource path).
Definition load (path : bytes) : result IoError HowyConfig :=
  lc_config <$> load_with_provenance path.

(** [HowyConfig::load_with_systemd_creds_and_provenance] *)
Definition load_with_systemd_creds_and_provenance : result IoError LoadedConfig :=
  match credentials_directory with
  | Some creds_dir =>
      let cred_path := path_join creds_dir (bs "howy.config") in
      if path_exists cred_path
      then load_from_source cred_path (SystemdCredential cred_path)
      else load_with_provenance CONFIG_FILE
  | None => load_with_provenance CONFIG_FILE
  end.
Definition load_with_systemd_creds : result IoError HowyConfig :=
  lc_config <$> load_with_systemd_creds_and_provenance.

End loading.

(** ** Startup limits *)

(** [PlaintextStorageLimits::new] and [Mode1StorageLimits::new], which agree. *)
Record StorageLimits := mkStorageLimits { sl_max_entries : Z; sl_max_bytes : Z }.

Definition StorageLimits_new (max_entries max_bytes : Z) : bresult StorageLimits :=
  max_entries ← ok_or (try_from_u USIZE_MAX max_entries) (InvalidInput "entry count limit");
  max_bytes ← ok_or (try_from_u USIZE_MAX max_bytes) (InvalidInput "record byte limit");
  if (max_entries =? 0) || (MAX_ENTRIES <? max_entries) then Err (InvalidInput "entry count limit")
  else if (max_bytes =? 0) || (MAX_PLAINTEXT_BYTES <? max_bytes)
  then Err (InvalidInput "record byte limit")
  else Ok (mkStorageLimits max_entries max_bytes).

(** [mode1_key::StartupKeyContext]; the key itself stays opaque. *)
Inductive StartupKeyContext := KeyMode0 | KeyMode1 (mode1_key : bytes).

(** What [initialize_storage_backend] passes to the backend's [production]
    constructor; the key and the key epoch in mode 1 only. *)
Record BackendArguments := mkBackendArguments {
  ba_key : option (bytes * Z);
  ba_digest : ModelDigest;
  ba_limits : StorageLimits;
  ba_budget : PlaintextBudget CanonicalUsername;
  ba_cache : ModelCacheLimits }.

(** The limits built in either arm, with the context each failure carries. *)
Definition backend_limits (limits_error size_error budget_error cache_error : string)
    (s : SecurityConfig)
    : cresult (StorageLimits * PlaintextBudget CanonicalUsername * ModelCacheLimits) :=
  limits ← map_err (λ _, limits_error)
    (StorageLimits_new (max_embeddings_per_user s) (max_record_bytes s));
  budget_bytes ← ok_or (try_from_u USIZE_MAX (max_plaintext_bytes s)) size_error;
  budget ← map_err (λ _, budget_error) (PlaintextBudget_new budget_bytes);
  cache_limits ← map_err (λ _, cache_error)
    (ModelCacheLimits_new (max_cached_users (cached s)) (max_cache_bytes (cached s)));
  Ok (limits, budget, cache_limits).

(** [initialize_storage_backend], up to the call of the backend's constructor. The
    recognizer model, when there is one, by the outcome of digesting it. *)
Definition initialize_storage_backend (c : HowyConfig)
    (recognizer : option (cresult ModelDigest)) (key_context : StartupKeyContext)
    : cresult BackendArguments :=
  match embedding_mode (security c), key_context with
  | Plaintext, KeyMode0 =>
      digesting ← ok_or recognizer "plaintext storage requires a pinned recognizer model";
      digest ← digesting;
      '(limits, budget, cache_limits) ←
        backend_limits "invalid plaintext storage limits"
          "plaintext storage budget does not fit this platform"
          "invalid plaintext storage memory budget" "invalid shared storage cache limits"
          (security c);
      Ok (mkBackendArguments None digest limits budget cache_limits)
  | AeadCached, KeyMode1 mode1_key =>
      digesting ← ok_or recognizer "mode 1 storage requires a pinned recognizer model";
      digest ← digesting;
      '(limits, budget, cache_limits) ←
        backend_limits "invalid mode 1 storage limits"
          "mode 1 plaintext budget does not fit this platform"
          "invalid mode 1 plaintext memory budget" "invalid mode 1 cache limits" (security c);
      Ok (mkBackendArguments (Some (mode1_key, cfg_key_epoch (security c))) digest limits budget
            cache_limits)
  | AeadEphemeral, _ => Err "embedding storage mode 2 is not implemented in this daemon build"
  | ReservedFuture, _ => Err "embedding storage mode 3 is reserved and unavailable"
  | _, _ => Err "storage startup key context does not match the configured mode"
  end.

(** ** What a valid configuration is *)

Definition safe_name (max_len : Z) (v : bytes) : Prop :=
  1 ≤ len v ≤ max_len ∧ Forall (λ b, is_name_byte b = true) v.

(** A nonzero handle: [0x], eight hexadecimal digits, one of them not zero. *)
Definition handle_ok (v : bytes) : Prop :=
  ∃ d, v = bs "0x" ++ d ∧ length d = 8%nat ∧ Forall (λ b, is_ascii_hexdigit b = true) d ∧
    ∃ b, b ∈ d ∧ b ≠ Byte.x30.

Definition cached_ok (s : SecurityConfig) : Prop :=
  1 ≤ max_cached_users (cached s) ≤ 4096 ∧
  max_record_bytes s ≤ max_cache_bytes (cached s) ≤ max_plaintext_bytes s ∧
  safe_name 128 (credential_name (cached s)).

Definition ephemeral_ok (s : SecurityConfig) : Prop :=
  (∃ rest, sealed_key_blob (ephemeral s) = slash :: rest) ∧
  1 ≤ len (key_description (ephemeral s)) ≤ 128 ∧
  Forall (λ b, 32 ≤ byte.unsigned b ≤ 126) (key_description (ephemeral s)) ∧
  handle_ok (tpm_parent_handle (ephemeral s)).

Definition mode_ok (s : SecurityConfig) : Prop :=
  match embedding_mode s with
  | Plaintext => True
  | AeadCached => cfg_key_epoch s ≠ 0 ∧ cached_ok s
  | AeadEphemeral => cfg_key_epoch s ≠ 0 ∧ ephemeral_ok s
  | ReservedFuture => False
  end.

Definition security_ok (s : SecurityConfig) : Prop :=
  1 ≤ max_embeddings_per_user s ≤ 1000 ∧ 4096 ≤ max_record_bytes s ≤ 2621440 ∧
  max_record_bytes s ≤ max_plaintext_bytes s ≤ 1073741824 ∧ mode_ok s.

Definition presence_ok (p : PresenceConfig) : Prop :=
  Forall (safe_name 64) (allowed_pam_services p) ∧ NoDup (allowed_pam_services p) ∧
  (presence_mode p = Confirm → allowed_pam_services p ≠ []) ∧
  1000 ≤ prompt_timeout_ms p ≤ 300000 ∧ 100 ≤ commit_to_camera_ms p ≤ 10000 ∧
  100 ≤ scan_timeout_ms p ≤ 30000 ∧ 1 ≤ max_pending_per_uid p ≤ 16 ∧
  max_pending_per_uid p ≤ max_pending_global p ≤ 1024.

Definition config_valid (c : HowyConfig) : Prop :=
  f32_in_unit (det_threshold (ml c)) = true ∧
  f32_in_unit (recognition_threshold (ml c)) = true ∧
  det_width (ml c) ≠ 0 ∧ det_height (ml c) ≠ 0 ∧
  (enable_cache (credentials c) = true → cache_ttl_secs (credentials c) ≠ 0) ∧
  timeout (video c) ≠ 0 ∧ security_ok (security c) ∧ presence_ok (presence c) ∧
  log_level (debug c) ∈ LOG_LEVELS.

(** The field paths a document sets: its leaves, by dotted path. *)
Inductive explicit_path : TomlValue → bytes → bytes → Prop :=
| explicit_leaf v prefix :
    (∀ es, v ≠ TomlTable es) → prefix ≠ [] → explicit_path v prefix prefix
| explicit_entry es name v prefix path :
    (name, v) ∈ es →
    explicit_path v (if len prefix =? 0 then name else prefix ++ bs "." ++ name) path →
    explicit_path (TomlTable es) prefix path.

(** ** Validation lemmas *)

Lemma reject_if_Ok b m u : reject_if b m = Ok u ↔ b = false.
Proof. unfold reject_if. destruct b, u; naive_solver. Qed.

Lemma forallb_Forall_true {A} (p : A → bool) l :
  forallb p l = true ↔ Forall (λ a, p a = true) l.
Proof. rewrite forallb_forall, Forall_forall. setoid_rewrite <- list_elem_of_In. done. Qed.

Lemma is_safe_ascii_name_spec v n : is_safe_ascii_name v n = true ↔ safe_name n v.
Proof.
  unfold is_safe_ascii_name, safe_name. rewrite !andb_true_iff, forallb_Forall_true.
  rewrite negb_true_iff, Z.eqb_neq, Z.leb_le. pose proof (len_nonneg v).
  intuition lia.
Qed.

Lemma hex_digit_spec b :
  is_ascii_hexdigit b = true →
  ∃ d, hex_digit b = Some d ∧ 0 ≤ d < 16 ∧ (d = 0 ↔ b = Byte.x30).
Proof.
  destruct b; try (intros [=]; fail); intros _; eexists;
    (split; [vm_compute; reflexivity|]); (split; [lia|]); split; intros; (lia || congruence).
Qed.

Lemma from_hex_digits_spec ds acc :
  Forall (λ b, is_ascii_hexdigit b = true) ds → 0 ≤ acc →
  (acc + 1) * 16 ^ Z.of_nat (length ds) ≤ U32_MAX + 1 →
  ∃ v, from_hex_digits acc ds = Some v ∧ (v = 0 ↔ acc = 0 ∧ Forall (λ b, b = Byte.x30) ds).
Proof.
  intros Hds. revert acc. induction Hds as [|b ds Hb Hds IH]; intros acc Hacc Hle.
  { exists acc. split; [done|]. split; [intros ->; by split|by intros [-> _]]. }
  destruct (hex_digit_spec b Hb) as (d & Hd & Hr & Hz). cbn [from_hex_digits]. rewrite Hd.
  cbn [mbind option_bind length] in *. rewrite Nat2Z.inj_succ, Z.pow_succ_r in Hle by lia.
  assert (0 < 16 ^ Z.of_nat (length ds)) by (apply Z.pow_pos_nonneg; lia).
  replace (acc * 16 + d <=? U32_MAX) with true by (symmetry; apply Z.leb_le; nia).
  destruct (IH (acc * 16 + d)) as (v & Hv & Hvz); [lia|nia|]. exists v. split; [done|].
  rewrite Hvz, Forall_cons, <- Hz. assert (acc * 16 + d = 0 ↔ acc = 0 ∧ d = 0) as -> by lia. tauto.
Qed.

Lemma not_all_zero (d : bytes) : ¬ Forall (λ b, b = Byte.x30) d ↔ ∃ b, b ∈ d ∧ b ≠ Byte.x30.
Proof.
  rewrite Forall_forall. split.
  - intros Hn. destruct (decide (Exists (λ b, b ≠ Byte.x30) d)) as [He|He].
    + by apply list.Exists_exists in He.
    + destruct Hn. intros x Hx. destruct (decide (x = Byte.x30)) as [|Hne]; [done|].
      destruct He. apply list.Exists_exists. eauto.
  - intros (b & Hb & Hne) Hall. by apply Hne, Hall.
Qed.

Lemma handle_digits d :
  length d = 8%nat → Forall (λ b, is_ascii_hexdigit b = true) d →
  ∃ v, from_str_radix16 d = Some v ∧ (v = 0 ↔ Forall (λ b, b = Byte.x30) d).
Proof.
  intros Hl Hd. destruct (from_hex_digits_spec d 0 Hd) as (v & Hv & Hz); [done|by rewrite Hl|].
  exists v. split; [|rewrite Hz; tauto].
  destruct d as [|b d]; [done|]. apply Forall_cons in Hd as [Hb _].
  unfold from_str_radix16. rewrite bool_decide_eq_false_2; [done|]. by intros ->.
Qed.

Lemma validate_tpm_parent_handle_spec v : validate_tpm_parent_handle v = true ↔ handle_ok v.
Proof.
  unfold validate_tpm_parent_handle, handle_ok.
  rewrite !andb_true_iff, Z.eqb_eq, bool_decide_eq_true, forallb_Forall_true. split.
  - intros [[[Hl Ht] Hf] Hm]. exists (drop 2 v).
    assert (length (drop 2 v) = 8%nat) as Hl8 by (rewrite length_drop; unfold len in Hl; lia).
    destruct (handle_digits _ Hl8 Hf) as (w & Hw & Hz). rewrite Hw in Hm.
    split_and!; try done; [by rewrite <- Ht, take_drop|].
    apply not_all_zero. rewrite <- Hz. by apply negb_true_iff, Z.eqb_neq in Hm.
  - intros (d & -> & Hl & Hf & Hne). cbn [take drop app].
    change (drop 2 (bs "0x" ++ d)) with d. change (take 2 (bs "0x" ++ d)) with (bs "0x").
    destruct (handle_digits d Hl Hf) as (w & Hw & Hz). rewrite Hw.
    split_and!; [|done|done|].
    + unfold len. rewrite length_app, Hl. done.
    + apply negb_true_iff, Z.eqb_neq. rewrite Hz. by apply not_all_zero.
Qed.

Lemma check_services_spec ss allowed u :
  check_services allowed ss = Ok u ↔
  Forall (safe_name 64) ss ∧ NoDup ss ∧ (∀ s, s ∈ ss → s ∉ allowed).
Proof.
  revert allowed. induction ss as [|s ss IH]; intros allowed; cbn [check_services].
  { destruct u. rewrite Forall_nil, NoDup_nil. split; [intros _|done]. split_and!; try done.
    by intros s ?%elem_of_nil. }
  rewrite Forall_cons, NoDup_cons. setoid_rewrite elem_of_cons.
  split.
  - intros Ho. apply bind_Ok in Ho as (u1 & H1 & Ho). apply bind_Ok in Ho as (u2 & H2 & Ho).
    apply reject_if_Ok, negb_false_iff, is_safe_ascii_name_spec in H1.
    apply reject_if_Ok, bool_decide_eq_false in H2. apply IH in Ho as (Hf & Hn & Hd).
    split_and!; try done; [|].
    + intros Hs. apply (Hd s Hs). set_solver.
    + intros x [->|Hx]; [done|]. specialize (Hd x Hx). set_solver.
  - intros ((H1 & Hf) & (Hs & Hn) & Hd).
    apply is_safe_ascii_name_spec in H1. rewrite H1, bool_decide_eq_false_2 by auto.
    cbn [negb reject_if mbind result_bind]. apply IH. split_and!; try done.
    intros x Hx. rewrite elem_of_union, elem_of_singleton. intros [->|Hin]; [done|].
    eapply Hd; eauto.
Qed.

Lemma is_absolute_spec p : is_absolute p = true ↔ ∃ rest, p = slash :: rest.
Proof.
  destruct p as [|b p]; cbn [is_absolute]; [naive_solver|].
  rewrite bool_decide_eq_true. naive_solver.
Qed.

(** Successful binds of unit checks split into conjunctions. *)
Lemma bind_unit_Ok {A} (m : cresult unit) (k : cresult A) a :
  (_ ← m; k) = Ok a ↔ m = Ok () ∧ k = Ok a.
Proof. destruct m as [[]|]; naive_solver. Qed.

Lemma validate_mode_settings_spec s u :
  validate_mode_settings s = Ok u ↔
  match embedding_mode s with
  | AeadCached => cached_ok s
  | AeadEphemeral => ephemeral_ok s
  | Plaintext | ReservedFuture => True
  end.
Proof.
  unfold validate_mode_settings, cached_ok, ephemeral_ok. destruct u.
  destruct (embedding_mode s); [tauto| | |tauto];
    rewrite !bind_unit_Ok, !reject_if_Ok, ?orb_false_iff, ?negb_false_iff.
  - rewrite contains_true, is_safe_ascii_name_spec, !Z.ltb_ge. tauto.
  - rewrite is_absolute_spec, validate_tpm_parent_handle_spec, forallb_Forall_true.
    unfold byte_in. setoid_rewrite contains_true. rewrite Z.eqb_neq, Z.ltb_ge.
    pose proof (len_nonneg (key_description (ephemeral s))).
    assert (len (key_description (ephemeral s)) ≠ 0 ↔ 1 ≤ len (key_description (ephemeral s)))
      as -> by lia. tauto.
Qed.

Lemma andb_eqb_false b (n : Z) : b && (n =? 0) = false ↔ (b = true → n ≠ 0).
Proof. destruct b; simpl; [rewrite Z.eqb_neq; tauto|naive_solver]. Qed.

Lemma epoch_check s :
  embedding_mode s ≠ ReservedFuture →
  (bool_decide (embedding_mode s = AeadCached ∨ embedding_mode s = AeadEphemeral)
     && (cfg_key_epoch s =? 0) = false ∧
   match embedding_mode s with
   | AeadCached => cached_ok s
   | AeadEphemeral => ephemeral_ok s
   | Plaintext | ReservedFuture => True
   end) ↔ mode_ok s.
Proof.
  intros Hm. unfold mode_ok. rewrite andb_eqb_false, bool_decide_eq_true.
  destruct (embedding_mode s); [| | |done];
    (split; [intros [He ?]|intros H]); naive_solver.
Qed.

Lemma mode_ok_not_reserved s : mode_ok s → embedding_mode s ≠ ReservedFuture.
Proof. unfold mode_ok. by destruct (embedding_mode s). Qed.

Lemma validate_valid c : validate c = Ok () ↔ config_valid c.
Proof.
  unfold validate. rewrite !bind_unit_Ok, !reject_if_Ok, !negb_false_iff, !orb_false_iff.
  rewrite !contains_true, !Z.eqb_neq, !Z.ltb_ge, bool_decide_eq_false.
  rewrite validate_mode_settings_spec, check_services_spec, (andb_eqb_false (enable_cache _)).
  rewrite (andb_false_iff (bool_decide (presence_mode _ = _))), !bool_decide_eq_false.
  assert ((if bool_decide (log_level (debug c) ∈ LOG_LEVELS) then Ok ()
     else Err "debug.log_level must be one of: error, warn, info, debug, trace") = Ok ()
     ↔ log_level (debug c) ∈ LOG_LEVELS) as -> by (case_bool_decide; naive_solver).
  pose proof (epoch_check (security c)) as He. pose proof (mode_ok_not_reserved (security c)) as Hr.
  unfold config_valid, security_ok, presence_ok.
  assert (∀ s : bytes, s ∈ allowed_pam_services (presence c) → s ∉ (∅ : gset bytes)) as Hs
    by (intros; apply not_elem_of_empty).
  assert (presence_mode (presence c) ≠ Confirm ∨ allowed_pam_services (presence c) ≠ []
    ↔ (presence_mode (presence c) = Confirm → allowed_pam_services (presence c) ≠ [])) as ->.
  { destruct (presence_mode (presence c)); naive_solver. }
  destruct (decide (embedding_mode (security c) = ReservedFuture)) as [Hm|Hm].
  - split; [tauto|]. intros Hv. exfalso. apply Hr; [tauto|done].
  - specialize (He Hm). tauto.
Qed.

(** ** Provenance *)

(** Nested induction on documents. *)
Section toml_induction.
  Context (P : TomlValue → Prop).
  Context (Hleaf : ∀ v, (∀ es, v ≠ TomlTable es) → P v).
  Context (Htable : ∀ es, Forall (λ e, P e.2) es → P (TomlTable es)).

Fixpoint toml_nested_ind (v : TomlValue) : P v :=
  match v with
  | TomlTable es =>
      Htable es ((fix go es : Forall (λ e, P e.2) es :=
                    match es with
                    | [] => Forall_nil_2 _
                    | e :: es => Forall_cons_2 _ _ _ (toml_nested_ind e.2) (go es)
                    end) es)
  | TomlString s => Hleaf (TomlString s) (λ es H, ltac:(discriminate H))
  | TomlInteger z => Hleaf (TomlInteger z) (λ es H, ltac:(discriminate H))
  | TomlFloat b => Hleaf (TomlFloat b) (λ es H, ltac:(discriminate H))
  | TomlBoolean b => Hleaf (TomlBoolean b) (λ es H, ltac:(discriminate H))
  | TomlDatetime d => Hleaf (TomlDatetime d) (λ es H, ltac:(discriminate H))
  | TomlArray vs => Hleaf (TomlArray vs) (λ es H, ltac:(discriminate H))
  end.
End toml_induction.

Lemma collect_explicit_fields_spec v prefix fields path :
  path ∈ collect_explicit_fields v prefix fields ↔ path ∈ fields ∨ explicit_path v prefix path.
Proof.
  revert prefix fields. induction v as [v Hv|es IH] using toml_nested_ind; intros prefix fields.
  - assert (collect_explicit_fields v prefix fields
            = if negb (len prefix =? 0) then {[prefix]} ∪ fields else fields) as ->
      by (destruct v; try done; by destruct (Hv entries)).
    assert (explicit_path v prefix path ↔ path = prefix ∧ prefix ≠ []) as ->.
    { split; [|intros [-> ?]; by constructor].
      intros He. destruct He as [v p ? ?|es ? ? ? ? ? ?]; [done|]. by destruct (Hv es). }
    destruct (decide (prefix = [])) as [->|Hp].
    { rewrite len_nil. split; [by left|]. by intros [?|[_ []]]. }
    destruct (Z.eqb_spec (len prefix) 0) as [H0|H0].
    { destruct Hp. unfold len in H0. apply nil_length_inv. lia. }
    cbn [negb]. rewrite elem_of_union, elem_of_singleton. tauto.
  - cbn [collect_explicit_fields]. transitivity (path ∈ fields ∨ ∃ name v, (name, v) ∈ es ∧
        explicit_path v (if len prefix =? 0 then name else prefix ++ bs "." ++ name) path).
    2: { split; (intros [?|H]; [by left|right]).
         - destruct H as (name & v & ? & ?). by econstructor.
         - inversion H as [? ? Hn|? ? ? ? ? ? ?]; subst; [by destruct (Hn es)|]. eauto. }
    revert fields. induction IH as [|[name v] es Hv _ IHes]; intros fields.
    { setoid_rewrite elem_of_nil. naive_solver. }
    rewrite IHes, (Hv _ fields). setoid_rewrite elem_of_cons. split.
    + intros [[?|?]|(?&?&?&?)]; [by left| |]; right; eexists _, _; (split; [|done]); auto.
    + intros [?|(?&?&[[= -> ->]|?]&?)]; auto. right. eauto.
Qed.

Section loading_proofs.
  Context `{ConfigEnv}.

Lemma load_from_source_spec path source lc :
  load_from_source path source = Ok lc ↔
  ∃ contents document,
    read_to_string path = Ok contents ∧ toml_config contents = Ok (lc_config lc) ∧
    toml_value contents = Ok document ∧ config_valid (lc_config lc) ∧
    lc_provenance lc = mkProvenance source (collect_explicit_fields document [] ∅).
Proof.
  unfold load_from_source. split.
  - intros Hl. inv_ok. subst lc. destruct a1. apply validate_valid in Ha1. by eexists _, _.
  - intros (contents & document & Hr & Hc & Hv & Hok%validate_valid & Hp).
    rewrite Hr. cbn [map_err mbind result_bind]. rewrite Hc. cbn [map_err mbind result_bind].
    rewrite Hok. cbn [map_err mbind result_bind]. rewrite Hv. cbn [map_err mbind result_bind].
    destruct lc as [c p]. simpl in *. by subst p.
Qed.

End loading_proofs.

(** ** Startup *)

(** What the Rust types guarantee of the fields the startup limits read. *)
Definition security_typed (s : SecurityConfig) : Prop :=
  in_u U32_MAX (max_cached_users (cached s)) ∧ in_u U64_MAX (max_cache_bytes (cached s)).

Lemma backend_limits_spec e1 e2 e3 e4 s :
  security_ok s → security_typed s →
  backend_limits e1 e2 e3 e4 s =
  if (max_cached_users (cached s) =? 0) || (max_cache_bytes (cached s) =? 0) then Err e4
  else Ok (mkStorageLimits (max_embeddings_per_user s) (max_record_bytes s),
           mkBudget (max_plaintext_bytes s) 0 ∅,
           mkLimits (max_cached_users (cached s)) (max_cache_bytes (cached s))).
Proof.
  intros (He & Hr & Hp & _) (Hu & Hb). unfold backend_limits, StorageLimits_new,
    PlaintextBudget_new, ModelCacheLimits_new, try_from_u, MAX_ENTRIES, MAX_PLAINTEXT_BYTES.
  unfold_max. change (2 ^ 64 - 1) with 18446744073709551615 in *.
  change (2 ^ 32 - 1) with 4294967295 in *.
  repeat match goal with
  | |- context [?a <=? ?b] => replace (a <=? b) with true by (symmetry; apply Z.leb_le; lia);
      cbn [ok_or mbind result_bind]
  | |- context [?a <? ?b] => replace (a <? b) with false by (symmetry; apply Z.ltb_ge; lia)
  end.
  replace (max_embeddings_per_user s =? 0) with false by lia.
  replace (max_record_bytes s =? 0) with false by lia.
  replace (max_plaintext_bytes s =? 0) with false by lia.
  cbn [orb map_err mbind result_bind].
  destruct (max_cached_users (cached s) =? 0), (max_cache_bytes (cached s) =? 0); done.
Qed.

Lemma cached_limits_nonzero s :
  security_ok s → embedding_mode s = AeadCached →
  limits_ok (mkLimits (max_cached_users (cached s)) (max_cache_bytes (cached s))) ∧
  (max_cached_users (cached s) =? 0) || (max_cache_bytes (cached s) =? 0) = false.
Proof.
  unfold security_ok, mode_ok, cached_ok, limits_ok. intros (_ & ? & ? & Hm) He.
  rewrite He in Hm. simpl. unfold_max. lia.
Qed.

(** ** Properties *)

(** C37: [HowyConfig::validate] accepts exactly the configurations that satisfy the
    declarative specification [config_valid] (ranges, cross-field bounds, per-mode
    requirements, unique and safe PAM service names, a well-formed nonzero TPM
    handle, a known log level); the fresh template and the disabled secure
    bootstrap template are accepted, the latter disabled, in mode 1 and with
    confirmation required. *)
Theorem validate_iff_valid :
  (∀ c, validate c = Ok () ↔ config_valid c) ∧
  validate fresh_template = Ok () ∧ validate secure_bootstrap_template = Ok () ∧
  disabled (core secure_bootstrap_template) = true ∧
  embedding_mode (security secure_bootstrap_template) = AeadCached ∧
  presence_mode (presence secure_bootstrap_template) = Confirm.
Proof. split_and!; [apply validate_valid|vm_compute; done..]. Qed.

(** The file a load reads and the source it records. *)
Definition load_target `{ConfigEnv} : bytes * ConfigSource :=
  match credentials_directory with
  | Some dir =>
      if path_exists (path_join dir (bs "howy.config"))
      then (path_join dir (bs "howy.config"),
            SystemdCredential (path_join dir (bs "howy.config")))
      else (CONFIG_FILE, FileSource CONFIG_FILE)
  | None => (CONFIG_FILE, FileSource CONFIG_FILE)
  end.

Lemma load_systemd_eq `{ConfigEnv} :
  load_with_systemd_creds_and_provenance = load_from_source load_target.1 load_target.2.
Proof.
  unfold load_with_systemd_creds_and_provenance, load_target, load_with_provenance.
  destruct credentials_directory as [dir|]; [|done].
  by destruct (path_exists _).
Qed.

(** Loading reads the systemd credential when it exists and the system file
    otherwise; it succeeds only with the parse of that file, validated, and a
    provenance that reports a setting as explicit exactly when the document has a
    leaf at that dotted path; a missing file is a [NotFound] error, never the
    built-in defaults. *)
Theorem load_returns_validated `{ConfigEnv} :
  (∀ lc, load_with_systemd_creds_and_provenance = Ok lc →
     config_valid (lc_config lc) ∧ cp_source (lc_provenance lc) = load_target.2 ∧
     ∃ contents document,
       read_to_string load_target.1 = Ok contents ∧
       toml_config contents = Ok (lc_config lc) ∧ toml_value contents = Ok document ∧
       ∀ field, value_source (lc_provenance lc) field = Explicit ↔
                explicit_path document [] field) ∧
  (∀ e, read_to_string load_target.1 = Err e → io_kind e = NotFound →
     load_with_systemd_creds = Err (mkIoError NotFound (not_found_message load_target.1))).
Proof.
  unfold load_with_systemd_creds. rewrite load_systemd_eq. split.
  - intros lc (contents & document & Hr & Hc & Hd & Hv & Hp)%load_from_source_spec.
    rewrite Hp. split_and!; try done. exists contents, document. split_and!; try done.
    intros field. unfold value_source. cbn [explicit_fields].
    case_bool_decide as Hf; rewrite collect_explicit_fields_spec in Hf; [|naive_solver].
    destruct Hf as [[]%not_elem_of_empty|]; done.
  - intros e Hr He. unfold load_from_source. rewrite Hr. cbn. by rewrite bool_decide_eq_true_2.
Qed.

(** A machine whose credential directory holds no configuration and whose system
    file sets one field. *)
Definition sample_config_env : ConfigEnv := {|
  read_to_string p :=
    if bool_decide (p = CONFIG_FILE) then Ok (bs "[core] disabled = false")
    else Err (mkIoError NotFound []);
  path_exists _ := false;
  credentials_directory := Some (bs "/run/credentials/howy");
  toml_config _ := Ok legacy_defaults;
  toml_value _ := Ok (TomlTable [(bs "core", TomlTable [(bs "disabled", TomlBoolean false)])]);
|}.
(** The same machine without the file. *)
Definition missing_config_env : ConfigEnv := {|
  read_to_string _ := Err (mkIoError NotFound []);
  path_exists _ := false;
  credentials_directory := None;
  toml_config _ := Ok legacy_defaults;
  toml_value _ := Ok (TomlTable []);
|}.

Lemma load_returns_validated_witness :
  (∃ document, toml_value (ConfigEnv := sample_config_env) (bs "[core] disabled = false")
                 = Ok document ∧ explicit_path document [] (bs "core.disabled")) ∧
  load_with_systemd_creds (H := missing_config_env)
    = Err (mkIoError NotFound (not_found_message CONFIG_FILE)).
Proof.
  split.
  - destruct (@load_returns_validated sample_config_env) as [Hok _].
    destruct (Hok _ eq_refl) as (_ & _ & contents & document & Hr & _ & Hd & Hx).
    exists document. split; [exact Hd|]. apply Hx. vm_compute. reflexivity.
  - destruct (@load_returns_validated missing_config_env) as [_ Hmiss].
    apply (Hmiss (mkIoError NotFound [])); reflexivity.
Defined.

(** With the recognizer model digested and a key context, daemon startup builds
    its backend arguments from any validated mode-1 configuration and a mode-1 key,
    and the cache limits it gets satisfy [limits_ok], the hypothesis of the cache's
    theorems; a key context of the other mode, and modes 2 and 3, are refused. In
    plaintext mode the cache limits come from the mode-1 settings, which validation
    leaves unchecked there: startup succeeds exactly when neither of them is zero. *)
Theorem validated_startup (c : HowyConfig) (digest : ModelDigest) (k : StartupKeyContext) :
  validate c = Ok () → security_typed (security c) →
  match embedding_mode (security c), k with
  | AeadCached, KeyMode1 key =>
      ∃ a, initialize_storage_backend c (Some (Ok digest)) k = Ok a ∧ limits_ok (ba_cache a) ∧
        limit (ba_budget a) = max_plaintext_bytes (security c) ∧
        ba_key a = Some (key, cfg_key_epoch (security c)) ∧ ba_digest a = digest
  | Plaintext, KeyMode0 =>
      is_ok (initialize_storage_backend c (Some (Ok digest)) k) = true ↔
      max_cached_users (cached (security c)) ≠ 0 ∧ max_cache_bytes (cached (security c)) ≠ 0
  | _, _ => is_ok (initialize_storage_backend c (Some (Ok digest)) k) = false
  end.
Proof.
  intros (_ & _ & _ & _ & _ & _ & Hs & _ & _)%validate_valid Ht. unfold initialize_storage_backend.
  destruct (embedding_mode (security c)) eqn:Hm; destruct k as [|key]; try done;
    cbn [ok_or mbind result_bind]; rewrite backend_limits_spec by done.
  - destruct (Z.eqb_spec (max_cached_users (cached (security c))) 0),
      (Z.eqb_spec (max_cache_bytes (cached (security c))) 0); simpl; naive_solver.
  - destruct (cached_limits_nonzero _ Hs Hm) as [Hl ->]. eexists. by split_and!.
Qed.

(** The default configuration with an empty user cache: valid, refused at startup. *)
Definition no_cache_config : HowyConfig :=
  let s := security legacy_defaults in
  mkConfig CoreConfig_default MlConfig_default VideoConfig_default SnapshotConfig_default
    CredentialConfig_default
    (mkSecurity (embedding_mode s) (cfg_key_epoch s) (max_embeddings_per_user s)
       (max_record_bytes s) (max_plaintext_bytes s)
       (mkCached (credential_name (cached s)) 0 (max_cache_bytes (cached s)) true) (ephemeral s))
    PresenceConfig_default DebugConfig_default.

Lemma validated_startup_witness :
  (∃ a, initialize_storage_backend secure_bootstrap_template (Some (Ok (mkDigest [])))
          (KeyMode1 []) = Ok a ∧ limits_ok (ba_cache a)) ∧
  validate no_cache_config = Ok () ∧
  is_ok (initialize_storage_backend no_cache_config (Some (Ok (mkDigest []))) KeyMode0) = false.
Proof.
  split.
  - destruct (validated_startup secure_bootstrap_template (mkDigest []) (KeyMode1 []))
      as (a & Ha & Hl & _).
    + vm_compute. reflexivity.
    + split; split; vm_compute; discriminate.
    + exists a. split; [exact Ha|exact Hl].
  - split; vm_compute; reflexivity.
Defined.
