(* ===== verification/Paths.v ===== *)
(** * Absolute paths and the mode-1 credential source

    What the sources use of [std::path] on Unix: [Path::components], from which
    [parent], [file_name] and path equality are derived; and from
    [crates/howy-common/src/provisioning/mod.rs] the path checks and
    [ConfiguredMode1CredentialSource::parse]. *)

From S2P Require Import Prelude Bytes Namespace Config.

(** ** [std::path] *)

Inductive Component := RootDir | CurDir | ParentDir | Normal (name : bytes).
#[export] Instance Component_eq_dec : EqDecision Component.
Proof. solve_decision. Defined.

(** The pieces between separators. *)
Fixpoint split_slash (p : bytes) : list bytes :=
  match p with
  | [] => [[]]
  | b :: rest =>
      if bool_decide (b = slash) then [] :: split_slash rest
      else match split_slash rest with
           | piece :: pieces => (b :: piece) :: pieces
           | [] => [[b]]
           end
  end.

Definition dot : bytes := bs ".".
Definition dot_dot : bytes := bs "..".

(** A piece as a component: empty pieces and [.] disappear. *)
Definition piece_component (piece : bytes) : option Component :=
  if bool_decide (piece = []) then None
  else if bool_decide (piece = dot) then None
  else if bool_decide (piece = dot_dot) then Some ParentDir
  else Some (Normal piece).

(** [Path::components]: a leading [.] of a relative path is kept. *)
Definition components (p : bytes) : list Component :=
  let pieces := split_slash p in
  (if is_absolute p then [RootDir]
   else match pieces with
        | first :: _ => if bool_decide (first = dot) then [CurDir] else []
        | [] => []
        end) ++ omap piece_component pieces.

(** [Path::parent], as the components of the parent. *)
Definition parent_components (p : bytes) : option (list Component) :=
  match last (components p) with
  | Some (Normal _) | Some CurDir | Some ParentDir => Some (removelast (components p))
  | Some RootDir | None => None
  end.

(** [Path::file_name] *)
Definition file_name (p : bytes) : option bytes :=
  match last (components p) with Some (Normal name) => Some name | _ => None end.

(** [str::contains("//")] and [str::ends_with('/')] *)
Fixpoint contains_double_slash (p : bytes) : bool :=
  match p with
  | a :: (b :: _) as rest =>
      (bool_decide (a = slash) && bool_decide (b = slash)) || contains_double_slash rest
  | _ => false
  end.
Definition ends_with_slash (p : bytes) : bool :=
  match last p with Some b => bool_decide (b = slash) | None => false end.

(** ** Path checks of the provisioning library *)

Definition MAX_PATH_BYTES : Z := 4096.
Definition MAX_BUILD_ID_BYTES : Z := 256.
Definition MAX_DAEMON_VERSION_BYTES : Z := 128.
Definition MAX_NAMESPACE_NAME_BYTES : Z := 255.
Definition MAX_MODE1_CREDENTIAL_SOURCE_BYTES : Z := MAX_PATH_BYTES.
Definition MODE1_CREDENTIAL_NAME : bytes := bs "howy.storage.mode1.epoch1".
Definition MODE1_CREDENTIAL_PATH : bytes :=
  bs "/etc/credstore.encrypted/howy.storage.mode1.epoch1".
Definition MODE1_CREDENTIAL_DIRECTORY : bytes := bs "/etc/credstore.encrypted".

Inductive ProvisioningContractError :=
| LimitExceeded (what : string)
| InvalidJson
| InvalidSchema (what : string)
| InvalidTransition
| InvalidToml
| MissingDisabledLiteral
| AmbiguousDisabledLiteral
| InvalidConfigEncoding
| InvalidCredentialEnvelope
| CredentialPolicyRejected
| InvalidNamespaceInventory.
#[export] Instance ProvisioningContractError_eq_dec : EqDecision ProvisioningContractError.
Proof. solve_decision. Defined.
Abbreviation pcresult := (result ProvisioningContractError).

(** [validate_absolute_path] *)
Definition validate_absolute_path (value : bytes) (field : string) : pcresult unit :=
  if bool_decide (value = []) || (MAX_PATH_BYTES <? len value)
     || bool_decide (Byte.x00 ∈ value)
  then Err (InvalidSchema field)
  else if negb (is_absolute value)
          || existsb (λ c, bool_decide (c = CurDir) || bool_decide (c = ParentDir))
               (components value)
          || contains_double_slash value
  then Err (InvalidSchema field)
  else Ok ().

Inductive Mode1CredentialSourcePolicy := Production | ReadinessCandidate.
#[export] Instance Mode1CredentialSourcePolicy_eq_dec : EqDecision Mode1CredentialSourcePolicy.
Proof. solve_decision. Defined.

(** [validate_mode1_credential_source_path] *)
Definition validate_mode1_credential_source_path (source : bytes)
    (policy : Mode1CredentialSourcePolicy) : pcresult unit :=
  if ends_with_slash source then Err (InvalidSchema "mode 1 credential source")
  else
    _ ← validate_absolute_path source "mode 1 credential source";
    if negb (bool_decide
               (parent_components source = Some (components MODE1_CREDENTIAL_DIRECTORY)))
    then Err (InvalidSchema "mode 1 credential source directory")
    else
      name ← ok_or (file_name source) (InvalidSchema "mode 1 credential source name");
      if bool_decide (name = []) || (MAX_NAMESPACE_NAME_BYTES <? len name)
         || negb (forallb is_name_byte name)
      then Err (InvalidSchema "mode 1 credential source name")
      else if bool_decide (policy = Production)
              && negb (bool_decide (source = MODE1_CREDENTIAL_PATH))
      then Err (InvalidSchema "production mode 1 credential source")
      else Ok ().

(** [ConfiguredMode1CredentialSource::parse] *)
Definition parse_credential_source (b : bytes) (policy : Mode1CredentialSourcePolicy)
    : pcresult bytes :=
  if bool_decide (b = []) || (MAX_MODE1_CREDENTIAL_SOURCE_BYTES <? len b)
     || negb (forallb is_ascii b)
  then Err (InvalidSchema "mode 1 credential source companion")
  else if negb (utf8_valid b)
  then Err (InvalidSchema "mode 1 credential source companion")
  else
    _ ← validate_mode1_credential_source_path b policy;
    Ok b.

(** ** What the checks mean *)

Fixpoint join_slash (pieces : list bytes) : bytes :=
  match pieces with
  | [] => []
  | [piece] => piece
  | piece :: rest => piece ++ slash :: join_slash rest
  end.

Lemma split_slash_nonnil p : split_slash p ≠ [].
Proof. destruct p as [|b p]; simpl; [done|]. case_bool_decide; [done|]. by case_match. Qed.

Lemma join_split_slash p : join_slash (split_slash p) = p.
Proof.
  induction p as [|b p IH]; [done|]. simpl.
  pose proof (split_slash_nonnil p). destruct (split_slash p) as [|piece pieces] eqn:E; [done|].
  case_bool_decide as Hb; [subst b; simpl; by rewrite <- IH|].
  destruct pieces; simpl in *; by rewrite IH.
Qed.

Lemma split_slash_no_slash p : Forall (λ piece, slash ∉ piece) (split_slash p).
Proof.
  induction p as [|b p IH]; simpl; [repeat constructor; apply not_elem_of_nil|].
  case_bool_decide as Hb; [constructor; [apply not_elem_of_nil|done]|].
  destruct (split_slash p) as [|piece pieces]; inversion_clear IH;
    constructor; try done; apply not_elem_of_cons; split; try done; apply not_elem_of_nil.
Qed.

(** The production policy admits one source only. *)
Lemma parse_production_source b r :
  parse_credential_source b Production = Ok r → b = MODE1_CREDENTIAL_PATH ∧ r = b.
Proof.
  unfold parse_credential_source, validate_mode1_credential_source_path. intros Hp. inv_ok.
  subst r. split; [|done].
  destruct (decide (b = MODE1_CREDENTIAL_PATH)) as [|Hne]; [done|].
  by rewrite (bool_decide_eq_false_2 _ Hne) in *.
Qed.

Lemma parse_production_path :
  parse_credential_source MODE1_CREDENTIAL_PATH Production = Ok MODE1_CREDENTIAL_PATH.
Proof. vm_compute. reflexivity. Qed.
