(* ===== verification/PromptState.v ===== *)
(** * Prompt confirmation transactions: definitions

    [crates/howy-daemon/src/prompt_state.rs]: the prompt transaction manager, its
    guards ([BeginReservation], [PendingIssue], [CommitClaim], [ActiveLease]) with
    their [Drop] code, and the shared cancellation controls. A control is an
    [Arc<ActiveControl>] shared by the manager, a guard and any number of
    cancellation handles, so controls live in a store ([mw_controls]) and the other
    parts refer to them by identity; [mw_signalled] and [mw_shut] record the
    resources whose [cancel_resource] ran and the streams that were shut down.
    Instants and durations are nanoseconds; the clock's reading is an argument.
    The entropy source and SHA-256 are parameters. *)

From S2P Require Import Prelude Bytes Storage Crypto Legacy Contracts Authorization Config.

(** ** Data *)

Definition ENTROPY_ATTEMPTS : nat := 16.
Definition SECRET_BYTES : nat := 32.

(** [Instant]: 64-bit signed seconds and nanoseconds. *)
Definition INSTANT_MAX : Z := (2 ^ 63 - 1) * 1000000000 + 999999999.
Definition instant_checked_add (now d : Z) : option Z :=
  if now + d <=? INSTANT_MAX then Some (now + d) else None.
(** [Duration::from_millis] *)
Definition from_millis (ms : Z) : Z := ms * 1000000.

Inductive PromptStateError := PromptUnavailable | PromptInvalid.
#[export] Instance PromptStateError_eq_dec : EqDecision PromptStateError.
Proof. solve_decision. Defined.
Abbreviation presult := (result PromptStateError).

Inductive PromptOriginV1 := OriginUnspecified | OriginLocal | OriginRemote.
#[export] Instance PromptOriginV1_eq_dec : EqDecision PromptOriginV1.
Proof. solve_decision. Defined.
#[export] Instance CandidatePresence_eq_dec : EqDecision CandidatePresence.
Proof. solve_decision. Defined.

(** [PromptStorageSnapshot] of [contracts.rs]; opaque identities by their bytes. *)
Record PromptStorageSnapshot := mkStorageSnapshot {
  ss_health : BackendHealth;
  ss_candidate : CandidatePresence;
  ss_backend_identity : bytes;
  ss_policy_generation : bytes }.

Record SecuritySnapshot := mkSecuritySnapshot {
  sn_policy_generation : bytes;
  sn_storage : PromptStorageSnapshot }.

(** [constant_time_eq] *)
Definition constant_time_eq (left right : bytes) : bool := ct_difference left right =? 0.

(** [SecuritySnapshot::constant_time_eq] *)
Definition snapshot_constant_time_eq (a b : SecuritySnapshot) : bool :=
  constant_time_eq (sn_policy_generation a) (sn_policy_generation b)
  && bool_decide (ss_health (sn_storage a) = ss_health (sn_storage b))
  && bool_decide (ss_candidate (sn_storage a) = ss_candidate (sn_storage b))
  && constant_time_eq (ss_backend_identity (sn_storage a)) (ss_backend_identity (sn_storage b))
  && constant_time_eq (ss_policy_generation (sn_storage a)) (ss_policy_generation (sn_storage b)).

Record PendingBinding := mkPendingBinding {
  pb_connection : Z;
  pb_peer_uid : Z;
  pb_target : CanonicalIdentity;
  pb_client_nonce : bytes;
  pb_pam_service : bytes;
  pb_origin : PromptOriginV1;
  pb_snapshot : SecuritySnapshot }.

Record CommitBinding := mkCommitBinding {
  cb_connection : Z;
  cb_peer_uid : Z;
  cb_target : CanonicalIdentity;
  cb_pam_service : bytes;
  cb_origin : PromptOriginV1;
  cb_snapshot : SecuritySnapshot }.

Record ProvisionalRecord := mkProvisional { pv_peer_uid : Z; pv_target : CanonicalIdentity }.

Record PendingRecord := mkPending {
  pr_connection_binding : bytes;
  pr_peer_uid : Z;
  pr_target : CanonicalIdentity;
  pr_nonce_binding : bytes;
  pr_pam_service : bytes;
  pr_origin : PromptOriginV1;
  pr_snapshot : SecuritySnapshot;
  pr_expires_at : option Z;
  pr_shutdown_waker : option positive }.

(** [ActiveRecord]: a claim or an active session. *)
Inductive ActivePhase := PhaseClaim | PhaseActive.
#[export] Instance ActivePhase_eq_dec : EqDecision ActivePhase.
Proof. solve_decision. Defined.
Record ActiveRecord := mkActive {
  ar_phase : ActivePhase;
  ar_control : positive;
  ar_token_lookup : bytes }.

Record ActiveControl := mkControl {
  ac_cancelled : bool;
  ac_deadline : Z;
  ac_camera_ready_deadline : Z;
  ac_resources : list positive }.

Record ManagerState (E : Type) := mkState {
  st_entropy : E;
  instance_secret : bytes;
  next_connection : Z;
  issuance_counter : Z;
  next_active : Z;
  provisional : gmap bytes ProvisionalRecord;
  pending : gmap bytes PendingRecord;
  pending_by_connection : gmap bytes bytes;
  active : gmap Z ActiveRecord;
  terminal : bool }.
Arguments mkState {E} _ _ _ _ _ _ _ _ _ _.
Arguments st_entropy {E} _.
Arguments instance_secret {E} _.
Arguments next_connection {E} _.
Arguments issuance_counter {E} _.
Arguments next_active {E} _.
Arguments provisional {E} _.
Arguments pending {E} _.
Arguments pending_by_connection {E} _.
Arguments active {E} _.
Arguments terminal {E} _.

(** The limits of [ManagerInner]. *)
Record ManagerLimits := mkManagerLimits {
  ml_prompt_timeout : Z;
  ml_active_timeout : Z;
  ml_commit_to_camera_timeout : Z;
  ml_max_pending_per_uid : Z;
  ml_max_pending_global : Z;
  ml_max_active : Z }.

(** The manager with the mutex's poison flag and everything it shares. *)
Record ManagerWorld (E : Type) := mkManagerWorld {
  mw_state : ManagerState E;
  mw_poisoned : bool;
  mw_controls : gmap positive ActiveControl;
  mw_signalled : gset positive;
  mw_shut : gset positive }.
Arguments mkManagerWorld {E} _ _ _ _ _.
Arguments mw_state {E} _.
Arguments mw_poisoned {E} _.
Arguments mw_controls {E} _.
Arguments mw_signalled {E} _.
Arguments mw_shut {E} _.

(** Guards. The manager handle they carry is the world they are used in. *)
Record BeginReservation := mkBegin { br_connection_binding : bytes; br_armed : bool }.
Record PendingIssue := mkIssue {
  pi_connection_binding : bytes; pi_lookup : option bytes; pi_token : bytes }.
Record CommitClaim := mkClaim {
  cc_active_id : option Z;
  cc_control : positive;
  cc_peer_uid : Z;
  cc_target : CanonicalIdentity;
  cc_pam_service : bytes;
  cc_origin : PromptOriginV1;
  cc_snapshot : SecuritySnapshot }.
Record ActiveLease := mkLease { al_active_id : option Z; al_control : positive }.

(** ** Digests *)

(** [hash_field] and [hash_u64]: what is fed to the hasher. *)
Definition hash_field (field : bytes) : bytes :=
  le64 (default U64_MAX (try_from_u U64_MAX (len field))) ++ field.
Definition hash_u64 (value : Z) : bytes := hash_field (le64 value).

Definition byte_of_bool (b : bool) : bytes := [if b then Byte.x01 else Byte.x00].
Definition presence_mode_byte (m : PresenceMode) : bytes :=
  [match m with Off => Byte.x00 | Confirm => Byte.x01 end].

(** The bytes [SecuritySnapshot::capture] hashes. *)
Definition policy_preimage (config : HowyConfig) : bytes :=
  let p := presence config in
  let s := security config in
  hash_field (bs "howy-prompt-policy-v2")
  ++ hash_field (presence_mode_byte (presence_mode p))
  ++ hash_field (byte_of_bool (local_only p))
  ++ hash_u64 (prompt_timeout_ms p)
  ++ hash_u64 (commit_to_camera_ms p)
  ++ hash_u64 (scan_timeout_ms p)
  ++ hash_u64 (max_pending_per_uid p)
  ++ hash_u64 (max_pending_global p)
  ++ hash_u64 (default U64_MAX (try_from_u U64_MAX (len (allowed_pam_services p))))
  ++ concat (hash_field <$> allowed_pam_services p)
  ++ hash_field [byte.of_Z (security_mode_u8 (embedding_mode s))]
  ++ hash_u64 (cfg_key_epoch s)
  ++ hash_u64 (max_embeddings_per_user s)
  ++ hash_u64 (max_record_bytes s)
  ++ hash_u64 (max_plaintext_bytes s)
  ++ hash_field (credential_name (cached s))
  ++ hash_u64 (max_cached_users (cached s))
  ++ hash_u64 (max_cache_bytes (cached s))
  ++ hash_field (byte_of_bool (require_mlock (cached s)))
  ++ hash_field (sealed_key_blob (ephemeral s))
  ++ hash_field (key_description (ephemeral s))
  ++ hash_field (tpm_parent_handle (ephemeral s)).

Definition keyed_preimage (secret domain value : bytes) : bytes :=
  hash_field (bs "howy-prompt-keyed-v2") ++ hash_field secret ++ hash_field domain
  ++ hash_field value.

Definition token_preimage (secret : bytes) (counter : Z) (random : bytes) : bytes :=
  hash_field (bs "howy-prompt-token-v2") ++ hash_field secret ++ hash_field (le64 counter)
  ++ hash_field random.

Section manager.
  Context `{Sha256} {E : Type} `{RandomSource E}.

(** [SecuritySnapshot::capture] *)
Definition SecuritySnapshot_capture (config : HowyConfig) (storage : PromptStorageSnapshot)
    : SecuritySnapshot :=
  mkSecuritySnapshot (sha256 (policy_preimage config)) storage.

(** [derive_token], [keyed_digest], [connection_binding] *)
Definition derive_token (secret : bytes) (counter : Z) (random : bytes) : bytes :=
  sha256 (token_preimage secret counter random).
Definition keyed_digest (secret domain value : bytes) : bytes :=
  sha256 (keyed_preimage secret domain value).
Definition connection_binding (secret : bytes) (connection : Z) : bytes :=
  keyed_digest secret (bs "connection-binding-v2") (le64 connection).

(** ** Entropy *)

(** [generate_nonzero] *)
Fixpoint generate_nonzero_loop (attempts : nat) (entropy : E) : E * result string bytes :=
  match attempts with
  | O => (entropy, Err "OS random source repeatedly returned invalid output")
  | S attempts' =>
      match fill_bytes entropy SECRET_BYTES with
      | (entropy, Err _) => (entropy, Err "OS random source failed")
      | (entropy, Ok b) =>
          if existsb (λ byte, negb (bool_decide (byte = Byte.x00))) b then (entropy, Ok b)
          else generate_nonzero_loop attempts' entropy
      end
  end.
Definition generate_nonzero (entropy : E) : E * result string bytes :=
  generate_nonzero_loop ENTROPY_ATTEMPTS entropy.

(** Field updates. *)
Definition with_draw (entropy : E) (counter : Z) (st : ManagerState E) : ManagerState E :=
  mkState entropy (instance_secret st) (next_connection st) counter (next_active st)
    (provisional st) (pending st) (pending_by_connection st) (active st) (terminal st).
Definition with_connection (n : Z) (st : ManagerState E) : ManagerState E :=
  mkState (st_entropy st) (instance_secret st) n (issuance_counter st) (next_active st)
    (provisional st) (pending st) (pending_by_connection st) (active st) (terminal st).
Definition with_provisional (m : gmap bytes ProvisionalRecord) (st : ManagerState E)
    : ManagerState E :=
  mkState (st_entropy st) (instance_secret st) (next_connection st) (issuance_counter st)
    (next_active st) m (pending st) (pending_by_connection st) (active st) (terminal st).
Definition with_pending (m : gmap bytes PendingRecord) (by_connection : gmap bytes bytes)
    (st : ManagerState E) : ManagerState E :=
  mkState (st_entropy st) (instance_secret st) (next_connection st) (issuance_counter st)
    (next_active st) (provisional st) m by_connection (active st) (terminal st).
Definition with_active (next : Z) (m : gmap Z ActiveRecord) (st : ManagerState E)
    : ManagerState E :=
  mkState (st_entropy st) (instance_secret st) (next_connection st) (issuance_counter st)
    next (provisional st) (pending st) (pending_by_connection st) m (terminal st).

(** Whether some session already uses a lookup key. *)
Definition lookup_in_use (st : ManagerState E) (lookup : bytes) : bool :=
  bool_decide (is_Some (pending st !! lookup))
  || existsb (λ r, constant_time_eq (ar_token_lookup r) lookup) (snd <$> map_to_list (active st)).

(** [generate_token] *)
Fixpoint generate_token_loop (attempts : nat) (st : ManagerState E)
    : ManagerState E * presult (bytes * bytes) :=
  match attempts with
  | O => (st, Err PromptUnavailable)
  | S attempts' =>
      match checked_add (issuance_counter st) 1 with
      | None => (st, Err PromptUnavailable)
      | Some counter =>
          match generate_nonzero (st_entropy st) with
          | (entropy, Err _) => (with_draw entropy counter st, Err PromptUnavailable)
          | (entropy, Ok random) =>
              let st := with_draw entropy counter st in
              let token := derive_token (instance_secret st) counter random in
              if forallb (λ byte, bool_decide (byte = Byte.x00)) token
              then generate_token_loop attempts' st
              else
                let lookup := keyed_digest (instance_secret st) (bs "token-lookup-v2") token in
                if negb (lookup_in_use st lookup) then (st, Ok (token, lookup))
                else generate_token_loop attempts' st
          end
      end
  end.
Definition generate_token (st : ManagerState E) : ManagerState E * presult (bytes * bytes) :=
  generate_token_loop ENTROPY_ATTEMPTS st.

(** ** Controls *)

Definition with_control (c : positive) (control : ActiveControl) (w : ManagerWorld E)
    : ManagerWorld E :=
  mkManagerWorld (mw_state w) (mw_poisoned w) (<[c := control]> (mw_controls w))
    (mw_signalled w) (mw_shut w).

(** [ActiveControl::cancel] *)
Definition control_cancel (w : ManagerWorld E) (c : positive) : ManagerWorld E * bool :=
  match mw_controls w !! c with
  | None => (w, false)
  | Some control =>
      (mkManagerWorld (mw_state w) (mw_poisoned w)
         (<[c := mkControl true (ac_deadline control) (ac_camera_ready_deadline control)
                   (ac_resources control)]> (mw_controls w))
         (mw_signalled w ∪ list_to_set (ac_resources control)) (mw_shut w),
       negb (ac_cancelled control))
  end.

(** [ActiveControl::register_resource] *)
Definition register_resource (w : ManagerWorld E) (c resource : positive) : ManagerWorld E :=
  match mw_controls w !! c with
  | None => w
  | Some control =>
      if ac_cancelled control
      then mkManagerWorld (mw_state w) (mw_poisoned w) (mw_controls w)
             ({[resource]} ∪ mw_signalled w) (mw_shut w)
      else with_control c
             (mkControl false (ac_deadline control) (ac_camera_ready_deadline control)
                (ac_resources control ++ [resource])) w
  end.

Definition control_is_cancelled (w : ManagerWorld E) (c : positive) : bool :=
  match mw_controls w !! c with Some control => ac_cancelled control | None => false end.

(** [ActiveCancellation::is_cancelled] and [ActiveLease::check_deadline]: cancel once
    the deadline has passed, then read the flag. *)
Definition check_deadline (w : ManagerWorld E) (c : positive) (now : Z)
    : ManagerWorld E * bool :=
  match mw_controls w !! c with
  | None => (w, false)
  | Some control =>
      let w := if ac_deadline control <=? now then (control_cancel w c).1 else w in
      (w, control_is_cancelled w c)
  end.

(** ** The state lock *)

Definition with_state (st : ManagerState E) (w : ManagerWorld E) : ManagerWorld E :=
  mkManagerWorld st (mw_poisoned w) (mw_controls w) (mw_signalled w) (mw_shut w).

Definition cancel_all (w : ManagerWorld E) (cs : list positive) : ManagerWorld E :=
  foldl (λ w c, (control_cancel w c).1) w cs.

(** [fail_closed_locked] and then [run_cleanup]. *)
Definition fail_closed (w : ManagerWorld E) : ManagerWorld E :=
  let st := mw_state w in
  let shutdown_wakers := omap (λ r, pr_shutdown_waker r) (snd <$> map_to_list (pending st)) in
  let controls := (λ r, ar_control r) <$> (snd <$> map_to_list (active st)) in
  let st' := mkState (st_entropy st) (instance_secret st) (next_connection st)
               (issuance_counter st) (next_active st) ∅ ∅ ∅ ∅ true in
  cancel_all
    (mkManagerWorld st' (mw_poisoned w) (mw_controls w) (mw_signalled w)
       (mw_shut w ∪ list_to_set shutdown_wakers))
    controls.

(** [shutdown], on either outcome of [lock]. *)
Definition shutdown (w : ManagerWorld E) : ManagerWorld E := fail_closed w.

(** A section of code that starts with [self.lock_state()?]. *)
Definition locked {A} (w : ManagerWorld E) (body : ManagerWorld E → ManagerWorld E * presult A)
    : ManagerWorld E * presult A :=
  if mw_poisoned w then (fail_closed w, Err PromptUnavailable)
  else if terminal (mw_state w) then (w, Err PromptUnavailable)
  else body w.

(** A section that starts with [if let Ok(mut state) = self.lock_state()]. *)
Definition locked_unit (w : ManagerWorld E) (body : ManagerState E → ManagerState E)
    : ManagerWorld E :=
  (locked w (λ w, (with_state (body (mw_state w)) w, Ok ()))).1.

(** [is_terminated] *)
Definition is_terminated (w : ManagerWorld E) : ManagerWorld E * bool :=
  match locked w (λ w, (w, Ok ())) with (w, r) => (w, negb (is_ok r)) end.

(** ** Construction *)

(** [PromptTransactionManager::new] *)
Definition manager_new (entropy : E) (l : ManagerLimits) (counter : Z)
    : result string (ManagerWorld E) :=
  if (ml_prompt_timeout l =? 0) || (ml_active_timeout l =? 0)
     || (ml_commit_to_camera_timeout l =? 0) || (ml_max_pending_per_uid l =? 0)
     || (ml_max_pending_global l <? ml_max_pending_per_uid l) || (ml_max_active l =? 0)
  then Err "invalid prompt transaction manager limits"
  else
    let '(entropy, drawn) := generate_nonzero entropy in
    secret ← drawn;
    Ok (mkManagerWorld (mkState entropy secret 1 counter 1 ∅ ∅ ∅ ∅ false) false ∅ ∅ ∅).

(** The limits [production] derives from a configuration. *)
Definition production_limits (config : HowyConfig) (active_timeout max_active : Z)
    : result string ManagerLimits :=
  let p := presence config in
  per_uid ← ok_or (try_from_u USIZE_MAX (max_pending_per_uid p))
    "prompt per-UID limit does not fit this platform";
  global ← ok_or (try_from_u USIZE_MAX (max_pending_global p))
    "prompt global limit does not fit this platform";
  Ok (mkManagerLimits (from_millis (prompt_timeout_ms p)) active_timeout
        (from_millis (commit_to_camera_ms p)) per_uid global max_active).

(** [PromptTransactionManager::production] *)
Definition production (entropy : E) (config : HowyConfig) (active_timeout max_active : Z)
    : result string (ManagerLimits * ManagerWorld E) :=
  l ← production_limits config active_timeout max_active;
  w ← map_err (λ _, "failed to initialize prompt transaction manager") (manager_new entropy l 0);
  Ok (l, w).

(** ** Manager operations *)

(** [new_connection] *)
Definition new_connection (w : ManagerWorld E) : ManagerWorld E * presult Z :=
  locked w (λ w,
    let value := next_connection (mw_state w) in
    match checked_add value 1 with
    | None => (w, Err PromptUnavailable)
    | Some next => (with_state (with_connection next (mw_state w)) w, Ok value)
    end).

(** [pending_total], [pending_for_uid] *)
Definition pending_total (st : ManagerState E) : Z :=
  saturating_add (Z.of_nat (size (provisional st))) (Z.of_nat (size (pending st))).
Definition pending_for_uid (st : ManagerState E) (uid : Z) : Z :=
  saturating_add
    (Z.of_nat (size (filter (λ kv, pv_peer_uid kv.2 = uid) (provisional st))))
    (Z.of_nat (size (filter (λ kv, pr_peer_uid kv.2 = uid) (pending st)))).

(** [reserve_begin] *)
Definition reserve_begin (l : ManagerLimits) (w : ManagerWorld E) (connection peer_uid : Z)
    (target : CanonicalIdentity) : ManagerWorld E * presult BeginReservation :=
  locked w (λ w,
    let st := mw_state w in
    let binding := connection_binding (instance_secret st) connection in
    if bool_decide (is_Some (provisional st !! binding))
       || bool_decide (is_Some (pending_by_connection st !! binding))
       || (ml_max_pending_global l <=? pending_total st)
       || (ml_max_pending_per_uid l <=? pending_for_uid st peer_uid)
    then (w, Err PromptUnavailable)
    else
      (with_state
         (with_provisional (<[binding := mkProvisional peer_uid target]> (provisional st)) st) w,
       Ok (mkBegin binding true))).

(** [remove_provisional], [remove_pending] *)
Definition remove_provisional (st : ManagerState E) (connection : bytes) : ManagerState E :=
  with_provisional (delete connection (provisional st)) st.
Definition remove_pending (st : ManagerState E) (connection lookup : bytes)
    : ManagerState E * option PendingRecord :=
  let by_connection :=
    if bool_decide (pending_by_connection st !! connection = Some lookup)
    then delete connection (pending_by_connection st) else pending_by_connection st in
  (with_pending (delete lookup (pending st)) by_connection st, pending st !! lookup).

(** [issue_reserved] *)
Definition issue_reserved (w : ManagerWorld E) (reserved_connection : bytes)
    (binding : PendingBinding) : ManagerWorld E * presult PendingIssue :=
  locked w (λ w,
    let st := mw_state w in
    let expected_connection := connection_binding (instance_secret st) (pb_connection binding) in
    if negb (constant_time_eq reserved_connection expected_connection)
    then (with_state (remove_provisional st reserved_connection) w, Err PromptInvalid)
    else
      match provisional st !! reserved_connection with
      | None => (w, Err PromptInvalid)
      | Some prov =>
          let st := remove_provisional st reserved_connection in
          if negb (pv_peer_uid prov =? pb_peer_uid binding)
             || negb (bool_decide (pv_target prov = pb_target binding))
          then (with_state st w, Err PromptInvalid)
          else
            match generate_token st with
            | (st, Err e) => (with_state st w, Err e)
            | (st, Ok (token, lookup)) =>
                let nonce_binding :=
                  keyed_digest (instance_secret st) (bs "nonce-v2") (pb_client_nonce binding) in
                let record :=
                  mkPending reserved_connection (pb_peer_uid binding) (pv_target prov)
                    nonce_binding (pb_pam_service binding) (pb_origin binding)
                    (pb_snapshot binding) None None in
                (with_state
                   (with_pending (<[lookup := record]> (pending st))
                      (<[reserved_connection := lookup]> (pending_by_connection st)) st) w,
                 Ok (mkIssue reserved_connection (Some lookup) token))
            end
      end).

(** [activate_pending]: the clock is read before the lock is taken. *)
Definition activate_pending (l : ManagerLimits) (w : ManagerWorld E)
    (connection lookup : bytes) (shutdown_waker : option positive) (now : Z)
    : ManagerWorld E * presult Z :=
  match instant_checked_add now (ml_prompt_timeout l) with
  | None => (w, Err PromptUnavailable)
  | Some deadline =>
      locked w (λ w,
        let st := mw_state w in
        if negb (bool_decide (pending_by_connection st !! connection = Some lookup))
        then (with_state (remove_pending st connection lookup).1 w, Err PromptInvalid)
        else
          match pending st !! lookup with
          | None =>
              (with_state
                 (with_pending (pending st) (delete connection (pending_by_connection st)) st) w,
               Err PromptInvalid)
          | Some r =>
              let activated waker :=
                mkPending (pr_connection_binding r) (pr_peer_uid r) (pr_target r)
                  (pr_nonce_binding r) (pr_pam_service r) (pr_origin r) (pr_snapshot r)
                  (Some deadline) waker in
              let put r := with_pending (<[lookup := r]> (pending st))
                             (pending_by_connection st) st in
              match pr_expires_at r with
              | Some _ => (with_state (put (activated (pr_shutdown_waker r))) w,
                           Err PromptInvalid)
              | None => (with_state (put (activated shutdown_waker)) w, Ok deadline)
              end
          end)
  end.

(** What [claim_commit] and [cancel_pending] do first: check the token against the
    connection's own transaction and take its record out, whatever the outcome. *)
Definition take_pending (st : ManagerState E) (connection expected_lookup token : bytes)
    : ManagerState E * presult PendingRecord :=
  let supplied_lookup := keyed_digest (instance_secret st) (bs "token-lookup-v2") token in
  let own_lookup := pending_by_connection st !! connection in
  if negb (bool_decide (own_lookup = Some expected_lookup))
     || negb (constant_time_eq supplied_lookup expected_lookup)
  then (match own_lookup with
        | Some own => (remove_pending st connection own).1
        | None => st
        end, Err PromptInvalid)
  else
    match remove_pending st connection expected_lookup with
    | (st, None) => (st, Err PromptInvalid)
    | (st, Some record) => (st, Ok record)
    end.

Definition unexpired (r : PendingRecord) (now : Z) : bool :=
  match pr_expires_at r with Some expiry => now <? expiry | None => false end.

(** The end of [claim_commit]: admission of an active session. *)
Definition admit_claim (l : ManagerLimits) (w : ManagerWorld E) (record : PendingRecord)
    (lookup : bytes) (now : Z) : ManagerWorld E * presult CommitClaim :=
  let st := mw_state w in
  if ml_max_active l <=? Z.of_nat (size (active st)) then (w, Err PromptUnavailable)
  else
    let active_id := next_active st in
    match checked_add active_id 1 with
    | None => (w, Err PromptUnavailable)
    | Some next =>
        let st := with_active next (active st) st in
        match instant_checked_add now (ml_active_timeout l) with
        | None => (with_state st w, Err PromptUnavailable)
        | Some deadline =>
            match instant_checked_add now (ml_commit_to_camera_timeout l) with
            | None => (with_state st w, Err PromptUnavailable)
            | Some ready =>
                let c := fresh (dom (mw_controls w)) in
                let control := mkControl false deadline (Z.min ready deadline) [] in
                let st := with_active next
                            (<[active_id := mkActive PhaseClaim c lookup]> (active st)) st in
                (with_control c control (with_state st w),
                 Ok (mkClaim (Some active_id) c (pr_peer_uid record) (pr_target record)
                       (pr_pam_service record) (pr_origin record) (pr_snapshot record)))
            end
        end
    end.

(** [claim_commit]: the clock is read under the lock. *)
Definition claim_commit (l : ManagerLimits) (w : ManagerWorld E)
    (connection expected_lookup token nonce : bytes) (peer_uid target_uid now : Z)
    : ManagerWorld E * presult CommitClaim :=
  locked w (λ w,
    match take_pending (mw_state w) connection expected_lookup token with
    | (st, Err e) => (with_state st w, Err e)
    | (st, Ok record) =>
        let w := with_state st w in
        let nonce_binding := keyed_digest (instance_secret st) (bs "nonce-v2") nonce in
        if negb (bool_decide (pr_connection_binding record = connection))
           || negb (pr_peer_uid record =? peer_uid)
           || negb (identity_uid (pr_target record) =? target_uid)
           || negb (constant_time_eq (pr_nonce_binding record) nonce_binding)
           || negb (unexpired record now)
        then (w, Err PromptInvalid)
        else admit_claim l w record expected_lookup now
    end).

(** [cancel_pending] *)
Definition cancel_pending (w : ManagerWorld E)
    (connection expected_lookup token nonce : bytes) (peer_uid target_uid now : Z)
    : ManagerWorld E * presult unit :=
  locked w (λ w,
    match take_pending (mw_state w) connection expected_lookup token with
    | (st, Err e) => (with_state st w, Err e)
    | (st, Ok record) =>
        let nonce_binding := keyed_digest (instance_secret st) (bs "nonce-v2") nonce in
        (with_state st w,
         if (pr_peer_uid record =? peer_uid) && (identity_uid (pr_target record) =? target_uid)
            && constant_time_eq (pr_nonce_binding record) nonce_binding
            && unexpired record now
         then Ok () else Err PromptInvalid)
    end).

(** Whether an active identifier names a claim that can still be promoted. *)
Definition live_claim (w : ManagerWorld E) (active_id now : Z) : bool :=
  match active (mw_state w) !! active_id with
  | Some r =>
      bool_decide (ar_phase r = PhaseClaim)
      && match mw_controls w !! ar_control r with
         | Some control => negb (ac_cancelled control) && (now <? ac_deadline control)
         | None => false
         end
  | None => false
  end.

Definition claim_matches (expected : CommitClaim) (binding : CommitBinding) : bool :=
  (cc_peer_uid expected =? cb_peer_uid binding)
  && bool_decide (cc_target expected = cb_target binding)
  && bool_decide (cc_pam_service expected = cb_pam_service binding)
  && bool_decide (cc_origin expected = cb_origin binding)
  && snapshot_constant_time_eq (cc_snapshot expected) (cb_snapshot binding).

(** [promote_claim] *)
Definition promote_claim (w : ManagerWorld E) (active_id : Z) (expected : CommitClaim)
    (binding : CommitBinding) (now : Z) : ManagerWorld E * presult unit :=
  locked w (λ w,
    let st := mw_state w in
    if negb (live_claim w active_id now && claim_matches expected binding)
    then
      match active st !! active_id with
      | Some r =>
          ((control_cancel
              (with_state (with_active (next_active st) (delete active_id (active st)) st) w)
              (ar_control r)).1, Err PromptInvalid)
      | None => (w, Err PromptInvalid)
      end
    else
      match active st !! active_id with
      | None => (w, Err PromptInvalid)
      | Some r =>
          match ar_phase r with
          | PhaseActive => (w, Err PromptInvalid)
          | PhaseClaim =>
              (with_state
                 (with_active (next_active st)
                    (<[active_id := mkActive PhaseActive (ar_control r) (ar_token_lookup r)]>
                       (active st)) st) w, Ok ())
          end
      end).

(** [release_provisional], [release_pending], [release_active] *)
Definition release_provisional (w : ManagerWorld E) (connection : bytes) : ManagerWorld E :=
  locked_unit w (λ st, remove_provisional st connection).
Definition release_pending (w : ManagerWorld E) (connection lookup : bytes) : ManagerWorld E :=
  locked_unit w (λ st, (remove_pending st connection lookup).1).
Definition release_active (w : ManagerWorld E) (active_id : Z) : ManagerWorld E :=
  locked_unit w (λ st, with_active (next_active st) (delete active_id (active st)) st).

(** ** Guards

    An operation that consumes its guard ends with the guard's [Drop] code, which
    has nothing left to do once the guard is disarmed. *)

(** [Drop for BeginReservation], [BeginReservation::issue] *)
Definition drop_begin (w : ManagerWorld E) (g : BeginReservation) : ManagerWorld E :=
  if br_armed g then release_provisional w (br_connection_binding g) else w.
Definition issue (w : ManagerWorld E) (g : BeginReservation) (binding : PendingBinding)
    : ManagerWorld E * presult PendingIssue :=
  let g := mkBegin (br_connection_binding g) false in
  let '(w, r) := issue_reserved w (br_connection_binding g) binding in
  (drop_begin w g, r).

(** [Drop for PendingIssue], [activate_with_waker], [claim_commit], [cancel] *)
Definition drop_issue (w : ManagerWorld E) (g : PendingIssue) : ManagerWorld E :=
  match pi_lookup g with
  | Some lookup => release_pending w (pi_connection_binding g) lookup
  | None => w
  end.
Definition activate_with_waker (l : ManagerLimits) (w : ManagerWorld E) (g : PendingIssue)
    (waker : option positive) (now : Z) : ManagerWorld E * presult Z :=
  match pi_lookup g with
  | None => (w, Err PromptInvalid)
  | Some lookup => activate_pending l w (pi_connection_binding g) lookup waker now
  end.
Definition issue_claim_commit (l : ManagerLimits) (w : ManagerWorld E) (g : PendingIssue)
    (token nonce : bytes) (peer_uid target_uid now : Z)
    : ManagerWorld E * presult CommitClaim :=
  match pi_lookup g with
  | None => (w, Err PromptInvalid)
  | Some lookup =>
      let g := mkIssue (pi_connection_binding g) None (pi_token g) in
      let '(w, r) := claim_commit l w (pi_connection_binding g) lookup token nonce
                       peer_uid target_uid now in
      (drop_issue w g, r)
  end.
Definition issue_cancel (w : ManagerWorld E) (g : PendingIssue)
    (token nonce : bytes) (peer_uid target_uid now : Z) : ManagerWorld E * presult unit :=
  match pi_lookup g with
  | None => (w, Err PromptInvalid)
  | Some lookup =>
      let g := mkIssue (pi_connection_binding g) None (pi_token g) in
      let '(w, r) := cancel_pending w (pi_connection_binding g) lookup token nonce
                       peer_uid target_uid now in
      (drop_issue w g, r)
  end.

(** [Drop for CommitClaim], [CommitClaim::promote] *)
Definition drop_claim (w : ManagerWorld E) (g : CommitClaim) : ManagerWorld E :=
  match cc_active_id g with
  | Some active_id => release_active (control_cancel w (cc_control g)).1 active_id
  | None => w
  end.
Definition promote (w : ManagerWorld E) (g : CommitClaim) (binding : CommitBinding) (now : Z)
    : ManagerWorld E * presult ActiveLease :=
  match cc_active_id g with
  | None => (drop_claim w g, Err PromptInvalid)
  | Some active_id =>
      match promote_claim w active_id g binding now with
      | (w, Err e) => (drop_claim w g, Err e)
      | (w, Ok _) =>
          let g := mkClaim None (cc_control g) (cc_peer_uid g) (cc_target g)
                     (cc_pam_service g) (cc_origin g) (cc_snapshot g) in
          (drop_claim w g, Ok (mkLease (Some active_id) (cc_control g)))
      end
  end.

(** [Drop for ActiveLease] *)
Definition drop_lease (w : ManagerWorld E) (g : ActiveLease) : ManagerWorld E :=
  let w := (control_cancel w (al_control g)).1 in
  match al_active_id g with
  | Some active_id => release_active w active_id
  | None => w
  end.

End manager.
