(* ===== verification/PromptProofs.v ===== *)
(** * Prompt transactions: what the digests bind

    The byte strings the prompt manager hashes are length-prefixed field by field;
    they determine their fields, so two equal digests of different fields are a
    collision of SHA-256. *)
From S2P Require Import Prelude Bytes Storage Crypto Legacy Contracts Authorization Config PromptState.

(** A byte string that fits a Rust slice. *)
Definition slice (b : bytes) : Prop := len b ≤ U64_MAX.

Lemma slice_short (b : bytes) : (length b ≤ 64)%nat → slice b.
Proof. unfold slice, len. unfold_max. lia. Qed.
Lemma slice_le64 z : slice (le64 z).
Proof. apply slice_short. rewrite length_le_split. lia. Qed.
#[export] Hint Resolve slice_le64 : howy.
#[export] Hint Extern 1 (slice _) => (apply slice_short; cbn; lia) : howy.

(** ** Fields *)

Lemma hash_field_inj f1 f2 r1 r2 :
  slice f1 → slice f2 → hash_field f1 ++ r1 = hash_field f2 ++ r2 → f1 = f2 ∧ r1 = r2.
Proof.
  unfold slice, hash_field. intros H1 H2. rewrite <- !app_assoc.
  replace (try_from_u U64_MAX (len f1)) with (Some (len f1))
    by (symmetry; by apply try_from_u_Some).
  replace (try_from_u U64_MAX (len f2)) with (Some (len f2))
    by (symmetry; by apply try_from_u_Some).
  cbn [default option_map from_option id]. intros Heq.
  pose proof (len_nonneg f1). pose proof (len_nonneg f2).
  apply split_word in Heq as [Hl Heq]; [|change (Z.of_nat 8 * 8) with 64; unfold_max; lia..].
  apply app_inj_1 in Heq; [done|]. unfold len in Hl. lia.
Qed.

Lemma hash_field_inj_end f1 f2 :
  slice f1 → slice f2 → hash_field f1 = hash_field f2 → f1 = f2.
Proof.
  intros H1 H2 Heq. apply (hash_field_inj f1 f2 [] []); [done..|]. by rewrite !app_nil_r.
Qed.

Lemma le64_inj z1 z2 : in_u U64_MAX z1 → in_u U64_MAX z2 → le64 z1 = le64 z2 → z1 = z2.
Proof.
  unfold_max. intros H1 H2 Heq. apply (split_word 8 z1 z2 [] []); [change (Z.of_nat 8 * 8) with 64; lia..|].
  by rewrite !app_nil_r.
Qed.

Lemma hash_u64_inj z1 z2 r1 r2 :
  in_u U64_MAX z1 → in_u U64_MAX z2 → hash_u64 z1 ++ r1 = hash_u64 z2 ++ r2 →
  z1 = z2 ∧ r1 = r2.
Proof.
  intros H1 H2 [Hz ->]%hash_field_inj; [|auto with howy..]. split; [|done].
  by apply le64_inj in Hz.
Qed.

Lemma hash_fields_inj l1 l2 r1 r2 :
  Forall slice l1 → Forall slice l2 → length l1 = length l2 →
  concat (hash_field <$> l1) ++ r1 = concat (hash_field <$> l2) ++ r2 → l1 = l2 ∧ r1 = r2.
Proof.
  intros H1. revert l2. induction H1 as [|f1 l1 Hf Hl IH]; intros [|f2 l2] H2 Hlen; try done.
  apply Forall_cons in H2 as [Hf2 H2]. cbn [fmap list_fmap concat]. rewrite <- !app_assoc.
  intros [-> Heq]%hash_field_inj; [|done..].
  destruct (IH l2) as [-> ->]; simpl in *; auto.
Qed.

(** ** Keyed digests *)

Lemma keyed_preimage_inj s1 d1 v1 s2 d2 v2 :
  slice s1 → slice d1 → slice v1 → slice s2 → slice d2 → slice v2 →
  keyed_preimage s1 d1 v1 = keyed_preimage s2 d2 v2 → s1 = s2 ∧ d1 = d2 ∧ v1 = v2.
Proof.
  unfold keyed_preimage. intros ? ? ? ? ? ? Heq.
  apply hash_field_inj in Heq as [_ Heq]; [|auto with howy..].
  apply hash_field_inj in Heq as [-> Heq]; [|done..].
  apply hash_field_inj in Heq as [-> Heq]; [|done..].
  by apply hash_field_inj_end in Heq as ->.
Qed.

(** Digests under one secret and domain agree only on equal values. *)
Lemma keyed_digest_binds `{Sha256} s d v1 v2 :
  slice s → slice d → slice v1 → slice v2 →
  keyed_digest s d v1 = keyed_digest s d v2 →
  v1 = v2 ∨ collision (keyed_preimage s d v1) (keyed_preimage s d v2).
Proof.
  unfold keyed_digest. intros ? ? ? ? [Heq|Hc]%digest_eq; [left|by right].
  by apply keyed_preimage_inj in Heq as (_ & _ & ->).
Qed.

Lemma constant_time_eq_true (a b : bytes) :
  length a = length b → constant_time_eq a b = true ↔ a = b.
Proof. intros. unfold constant_time_eq. by rewrite Z.eqb_eq, ct_difference_zero. Qed.

(** ** Policies *)

(** What the Rust types guarantee of the settings the policy digest covers. *)
Definition policy_typed (c : HowyConfig) : Prop :=
  let p := presence c in
  let s := security c in
  Forall (in_u U64_MAX)
    [prompt_timeout_ms p; commit_to_camera_ms p; scan_timeout_ms p; max_pending_per_uid p;
     max_pending_global p; cfg_key_epoch s; max_embeddings_per_user s; max_record_bytes s;
     max_plaintext_bytes s; max_cached_users (cached s); max_cache_bytes (cached s)] ∧
  Forall slice
    [credential_name (cached s); sealed_key_blob (ephemeral s);
     key_description (ephemeral s); tpm_parent_handle (ephemeral s)] ∧
  Forall slice (allowed_pam_services p) ∧ len (allowed_pam_services p) ≤ U64_MAX.

Lemma presence_mode_byte_inj m1 m2 : presence_mode_byte m1 = presence_mode_byte m2 → m1 = m2.
Proof. by destruct m1, m2. Qed.
Lemma byte_of_bool_inj b1 b2 : byte_of_bool b1 = byte_of_bool b2 → b1 = b2.
Proof. by destruct b1, b2. Qed.
Lemma security_mode_byte_inj m1 m2 :
  [byte.of_Z (security_mode_u8 m1)] = [byte.of_Z (security_mode_u8 m2)] → m1 = m2.
Proof. destruct m1, m2; try done; vm_compute; discriminate. Qed.

Lemma service_count_inj (l1 l2 : list bytes) r1 r2 :
  len l1 ≤ U64_MAX → len l2 ≤ U64_MAX →
  hash_u64 (default U64_MAX (try_from_u U64_MAX (len l1))) ++ r1
    = hash_u64 (default U64_MAX (try_from_u U64_MAX (len l2))) ++ r2 →
  length l1 = length l2 ∧ r1 = r2.
Proof.
  intros H1 H2.
  replace (try_from_u U64_MAX (len l1)) with (Some (len l1))
    by (symmetry; by apply try_from_u_Some).
  replace (try_from_u U64_MAX (len l2)) with (Some (len l2))
    by (symmetry; by apply try_from_u_Some).
  pose proof (len_nonneg l1). pose proof (len_nonneg l2).
  intros [Hl ->]%hash_u64_inj; [|by unfold in_u..]. split; [|done]. cbn [default from_option id] in Hl. unfold len in Hl. lia.
Qed.

(** Peels one length-prefixed field off both sides. *)
Ltac peel Heq :=
  lazymatch type of Heq with
  | hash_u64 (default _ _) ++ _ = _ => apply service_count_inj in Heq as [?Hx Heq]; [|assumption..]
  | hash_u64 _ ++ _ = _ => apply hash_u64_inj in Heq as [?Hx Heq]; [|assumption..]
  | hash_field _ ++ _ = _ =>
      apply hash_field_inj in Heq as [?Hx Heq]; [|first [assumption | solve [auto with howy]]..]
  | concat _ ++ _ = _ => apply hash_fields_inj in Heq as [?Hx Heq]; [|assumption..]
  | hash_field _ = hash_field _ => apply hash_field_inj_end in Heq; [|assumption..]
  end.

Lemma policy_preimage_inj c1 c2 :
  policy_typed c1 → policy_typed c2 → policy_preimage c1 = policy_preimage c2 →
  presence c1 = presence c2 ∧ security c1 = security c2.
Proof.
  unfold policy_typed, policy_preimage. cbv zeta.
  rewrite !Forall_cons. intros (Hu1 & Hs1 & Hl1 & Hn1) (Hu2 & Hs2 & Hl2 & Hn2) Heq.
  destruct Hu1 as (?&?&?&?&?&?&?&?&?&?&?&_), Hu2 as (?&?&?&?&?&?&?&?&?&?&?&_).
  destruct Hs1 as (?&?&?&?&_), Hs2 as (?&?&?&?&_).
  repeat peel Heq.
  repeat match goal with
  | H : presence_mode_byte _ = presence_mode_byte _ |- _ => apply presence_mode_byte_inj in H
  | H : byte_of_bool _ = byte_of_bool _ |- _ => apply byte_of_bool_inj in H
  | H : [byte.of_Z _] = [byte.of_Z _] |- _ => apply security_mode_byte_inj in H
  end.
  destruct (presence c1), (presence c2), (security c1) as [? ? ? ? ? [] []],
    (security c2) as [? ? ? ? ? [] []]. simpl in *. by subst.
Qed.

(** ** Snapshots *)

Definition storage_snapshot_typed (s : PromptStorageSnapshot) : Prop :=
  length (ss_backend_identity s) = 32%nat ∧ length (ss_policy_generation s) = 32%nat.

Definition snapshot_typed (s : SecuritySnapshot) : Prop :=
  length (sn_policy_generation s) = 32%nat ∧ storage_snapshot_typed (sn_storage s).

Lemma snapshot_constant_time_eq_true a b :
  snapshot_typed a → snapshot_typed b → snapshot_constant_time_eq a b = true ↔ a = b.
Proof.
  destruct a as [g1 [h1 k1 i1 p1]], b as [g2 [h2 k2 i2 p2]].
  unfold snapshot_typed, storage_snapshot_typed, snapshot_constant_time_eq; simpl.
  intros (?&?&?) (?&?&?). rewrite !andb_true_iff, !bool_decide_eq_true.
  rewrite !constant_time_eq_true by congruence. naive_solver.
Qed.

Lemma capture_typed `{Sha256Laws} c s :
  storage_snapshot_typed s → snapshot_typed (SecuritySnapshot_capture c s).
Proof. intros. split; [apply sha256_length|done]. Qed.

(** Two security snapshots compare equal only when they were captured from the
    same presence and security settings (every field of both sections) and the same
    storage snapshot, or else the two policy encodings are a SHA-256 collision. *)
Theorem snapshot_binds_policy `{Sha256Laws} (c1 c2 : HowyConfig)
    (s1 s2 : PromptStorageSnapshot) :
  policy_typed c1 → policy_typed c2 → storage_snapshot_typed s1 → storage_snapshot_typed s2 →
  snapshot_constant_time_eq (SecuritySnapshot_capture c1 s1) (SecuritySnapshot_capture c2 s2)
    = true →
  s1 = s2 ∧ ((presence c1 = presence c2 ∧ security c1 = security c2) ∨
             collision (policy_preimage c1) (policy_preimage c2)).
Proof.
  intros H1 H2 Hs1 Hs2 Heq.
  apply snapshot_constant_time_eq_true in Heq; [|by apply capture_typed..].
  injection Heq as Hd ->. split; [done|]. apply digest_eq in Hd as [Hd|Hd]; [left|by right].
  by apply policy_preimage_inj.
Qed.

Lemma template_policy_typed : policy_typed secure_bootstrap_template.
Proof.
  unfold policy_typed. cbn. rewrite !Forall_cons, !Forall_nil. unfold slice, len, in_u. unfold_max.
  split_and!; try done; cbn; lia.
Qed.

Definition sample_storage_snapshot : PromptStorageSnapshot :=
  mkStorageSnapshot Ready (Candidate 3) (zero_bytes 32) (zero_bytes 32).

Lemma snapshot_binds_policy_witness :
  snapshot_constant_time_eq
    (@SecuritySnapshot_capture toy_sha256 secure_bootstrap_template sample_storage_snapshot)
    (@SecuritySnapshot_capture toy_sha256 secure_bootstrap_template sample_storage_snapshot)
    = true ∧ sample_storage_snapshot = sample_storage_snapshot.
Proof.
  assert (snapshot_constant_time_eq
    (@SecuritySnapshot_capture toy_sha256 secure_bootstrap_template sample_storage_snapshot)
    (@SecuritySnapshot_capture toy_sha256 secure_bootstrap_template sample_storage_snapshot)
    = true) as Heq by (vm_compute; reflexivity).
  split; [exact Heq|].
  destruct (@snapshot_binds_policy toy_sha256 toy_sha256_laws secure_bootstrap_template
    secure_bootstrap_template sample_storage_snapshot sample_storage_snapshot) as [Hs _].
  - apply template_policy_typed.
  - apply template_policy_typed.
  - split; reflexivity.
  - split; reflexivity.
  - exact Heq.
  - exact Hs.
Defined.

(** * Prompt transactions: the invariant and its preservation

    Every guard a caller holds owns exactly one entry of the manager's maps
    ([ledger]); the quotas bound the entries; once the manager is terminal it is
    empty and every held control is cancelled. *)

(** ** Ledgers: guards in bijection with the entries of a map *)

Section ledger.
  Context {G K V X : Type} `{Countable K} (f : G → X) (h : K * V → X).

Definition ledger (gs : list G) (m : gmap K V) : Prop := f <$> gs ≡ₚ h <$> map_to_list m.

Lemma ledger_empty : ledger [] ∅.
Proof. unfold ledger. by rewrite map_to_list_empty. Qed.

Lemma ledger_insert gs m g k v :
  ledger gs m → m !! k = None → f g = h (k, v) → ledger (g :: gs) (<[k:=v]> m).
Proof.
  unfold ledger. intros Hl Hk Hg. rewrite map_to_list_insert by done. simpl. by rewrite Hg, Hl.
Qed.

Lemma ledger_delete gs m g k v :
  ledger (g :: gs) m → m !! k = Some v → f g = h (k, v) → ledger gs (delete k m).
Proof.
  unfold ledger. intros Hl Hk Hg. rewrite <- (map_to_list_delete m k v Hk) in Hl.
  simpl in Hl. rewrite Hg in Hl. by apply Permutation_cons_inv in Hl.
Qed.

Lemma ledger_update gs m k v v' :
  ledger gs m → m !! k = Some v → h (k, v') = h (k, v) → ledger gs (<[k:=v']> m).
Proof.
  unfold ledger. intros Hl Hk Hh. rewrite Hl, <- (map_to_list_delete m k v Hk).
  rewrite <- (insert_delete_eq m k v'), map_to_list_insert by apply lookup_delete_eq.
  simpl. by rewrite Hh.
Qed.

Lemma ledger_elem gs m g : ledger gs m → g ∈ gs → ∃ k v, m !! k = Some v ∧ f g = h (k, v).
Proof.
  unfold ledger. intros Hl Hg. apply (list_elem_of_fmap_2 f) in Hg. rewrite Hl in Hg.
  apply list_elem_of_fmap in Hg as ([k v] & Hg & Hkv). apply elem_of_map_to_list in Hkv. eauto.
Qed.

Lemma ledger_lookup gs m k v : ledger gs m → m !! k = Some v → ∃ g, g ∈ gs ∧ f g = h (k, v).
Proof.
  unfold ledger. intros Hl Hk. apply elem_of_map_to_list in Hk.
  apply (list_elem_of_fmap_2 h) in Hk. rewrite <- Hl in Hk.
  apply list_elem_of_fmap in Hk as (g & ? & ?). eauto.
Qed.

Lemma ledger_length gs m : ledger gs m → length gs = size m.
Proof.
  intros Hl%Permutation_length. rewrite !length_fmap in Hl.
  by rewrite Hl, length_map_to_list.
Qed.

#[export] Instance ledger_proper : Proper ((≡ₚ) ==> (=) ==> iff) ledger.
Proof. intros g1 g2 Hg m ? <-. unfold ledger. by rewrite Hg. Qed.
End ledger.

(** ** Guards held by callers

    A transaction is held together with the binding it was issued for. *)

Record Guards := mkGuards {
  g_begins : list BeginReservation;
  g_issues : list (PendingIssue * PendingBinding);
  g_claims : list CommitClaim;
  g_leases : list ActiveLease }.

(** The controls the held claims and leases refer to. *)
Definition held (g : Guards) : list positive :=
  (cc_control <$> g_claims g) ++ (al_control <$> g_leases g).

(** Claims and leases by identifier, phase and control. *)
Definition holders (g : Guards) : list (option Z * (ActivePhase * positive)) :=
  ((λ c, (cc_active_id c, (PhaseClaim, cc_control c))) <$> g_claims g)
  ++ ((λ c, (al_active_id c, (PhaseActive, al_control c))) <$> g_leases g).

Section invariant.
  Context `{Sha256} {E : Type} `{RandomSource E} (l : ManagerLimits).
  Implicit Types (st : ManagerState E) (w : ManagerWorld E).

Definition begins_owned (gs : list BeginReservation) (m : gmap bytes ProvisionalRecord) : Prop :=
  ledger (λ g, (br_connection_binding g, br_armed g)) (λ kv, (kv.1, true)) gs m.
(** What a pending record keeps of the binding it was issued for. *)
Definition binding_core (secret : bytes) (b : PendingBinding) :=
  (pb_peer_uid b, pb_target b, keyed_digest secret (bs "nonce-v2") (pb_client_nonce b),
   pb_pam_service b, pb_origin b, pb_snapshot b).
Definition record_core (r : PendingRecord) :=
  (pr_peer_uid r, pr_target r, pr_nonce_binding r, pr_pam_service r, pr_origin r, pr_snapshot r).

(** A transaction owns the record at the lookup key of its token, and the record
    is still the one of its binding. *)
Definition issue_key (secret : bytes) (x : PendingIssue * PendingBinding) :=
  (pi_connection_binding x.1, pi_lookup x.1,
   keyed_digest secret (bs "token-lookup-v2") (pi_token x.1), binding_core secret x.2).
Definition record_key (kv : bytes * PendingRecord) :=
  (pr_connection_binding kv.2, Some kv.1, kv.1, record_core kv.2).
Definition issues_owned (secret : bytes) (gs : list (PendingIssue * PendingBinding))
    (m : gmap bytes PendingRecord) : Prop := ledger (issue_key secret) record_key gs m.
Definition actives_owned (hs : list (option Z * (ActivePhase * positive)))
    (m : gmap Z ActiveRecord) : Prop :=
  ledger id (λ kv, (Some kv.1, (ar_phase kv.2, ar_control kv.2))) hs m.

(** The connection index is the inverse of the pending map. *)
Definition index_ok (m : gmap bytes PendingRecord) (by_connection : gmap bytes bytes) : Prop :=
  ∀ c k, by_connection !! c = Some k ↔ ∃ r, m !! k = Some r ∧ pr_connection_binding r = c.

Definition count_uid (st : ManagerState E) (uid : Z) : Z :=
  Z.of_nat (size (filter (λ kv, pv_peer_uid kv.2 = uid) (provisional st)))
  + Z.of_nat (size (filter (λ kv, pr_peer_uid kv.2 = uid) (pending st))).

Definition quotas_ok (st : ManagerState E) : Prop :=
  Z.of_nat (size (provisional st)) + Z.of_nat (size (pending st)) ≤ ml_max_pending_global l ∧
  (∀ uid, count_uid st uid ≤ ml_max_pending_per_uid l) ∧
  Z.of_nat (size (active st)) ≤ ml_max_active l.

Definition live_inv (w : ManagerWorld E) (g : Guards) : Prop :=
  let st := mw_state w in
  begins_owned (g_begins g) (provisional st) ∧
  issues_owned (instance_secret st) (g_issues g) (pending st) ∧
  index_ok (pending st) (pending_by_connection st) ∧
  (∀ c, is_Some (provisional st !! c) → pending_by_connection st !! c = None) ∧
  actives_owned (holders g) (active st) ∧
  (∀ id r, active st !! id = Some r → id < next_active st) ∧
  quotas_ok st.

Definition dead_inv (w : ManagerWorld E) (g : Guards) : Prop :=
  let st := mw_state w in
  provisional st = ∅ ∧ pending st = ∅ ∧ pending_by_connection st = ∅ ∧ active st = ∅ ∧
  Forall (λ c, control_is_cancelled w c = true) (held g).

(** A cancelled control has signalled every resource registered with it. *)
Definition controls_ok (w : ManagerWorld E) : Prop :=
  ∀ c k, mw_controls w !! c = Some k → ac_cancelled k = true →
    Forall (λ r, r ∈ mw_signalled w) (ac_resources k).

Definition prompt_inv (w : ManagerWorld E) (g : Guards) : Prop :=
  controls_ok w ∧ Forall (λ c, is_Some (mw_controls w !! c)) (held g) ∧
  (if terminal (mw_state w) then dead_inv w g else live_inv w g).

(** ** Cancelling controls *)

(** [w'] differs from [w] in controls only, and those only get more cancelled. *)
Definition more_cancelled (w w' : ManagerWorld E) : Prop :=
  mw_state w' = mw_state w ∧ mw_poisoned w' = mw_poisoned w ∧
  (∀ c, is_Some (mw_controls w !! c) → is_Some (mw_controls w' !! c)) ∧
  (∀ c, control_is_cancelled w c = true → control_is_cancelled w' c = true) ∧
  (controls_ok w → controls_ok w') ∧ mw_signalled w ⊆ mw_signalled w'.

#[export] Instance more_cancelled_preorder : PreOrder more_cancelled.
Proof.
  split.
  - intros w. split_and!; auto.
  - intros w1 w2 w3 (Hs1&Hp1&Hc1&Hk1&Ho1&Hg1) (Hs2&Hp2&Hc2&Hk2&Ho2&Hg2).
    split_and!; try congruence; auto. by etrans.
Qed.

Lemma control_cancel_spec w c :
  more_cancelled w (control_cancel w c).1 ∧
  (is_Some (mw_controls w !! c) → control_is_cancelled (control_cancel w c).1 c = true).
Proof.
  unfold control_cancel. destruct (mw_controls w !! c) as [k|] eqn:Hk; simpl.
  2: { split; [reflexivity|]. by intros []. }
  split.
  - split_and!; simpl; try done.
    + intros c' Hc'. destruct (decide (c' = c)) as [->|Hne].
      * rewrite lookup_insert_eq. by eexists.
      * by rewrite lookup_insert_ne.
    + intros c'. unfold control_is_cancelled; simpl. destruct (decide (c' = c)) as [->|Hne].
      * by rewrite lookup_insert_eq.
      * by rewrite lookup_insert_ne.
    + intros Hok c' k'. simpl. destruct (decide (c' = c)) as [->|Hne].
      * rewrite lookup_insert_eq. intros [= <-] _. simpl. apply Forall_forall. set_solver.
      * rewrite lookup_insert_ne by done. intros Hk' Hc'. specialize (Hok c' k' Hk' Hc').
        eapply Forall_impl; [exact Hok|]. set_solver.
    + set_solver.
  - intros _. unfold control_is_cancelled; simpl. by rewrite lookup_insert_eq.
Qed.

Lemma more_cancelled_inv w w' g : more_cancelled w w' → prompt_inv w g → prompt_inv w' g.
Proof.
  intros (Hs & Hp & Hc & Hk & Ho & _) (H1 & H2 & H3). unfold prompt_inv. rewrite Hs.
  split_and!; [auto|by eapply Forall_impl|].
  destruct (terminal (mw_state w)).
  - destruct H3 as (?&?&?&?&Hf). unfold dead_inv. rewrite Hs. split_and!; try done.
    by eapply Forall_impl.
  - unfold live_inv in *. by rewrite Hs.
Qed.

Lemma cancel_all_spec cs w :
  more_cancelled w (cancel_all w cs) ∧
  ∀ c, c ∈ cs → is_Some (mw_controls w !! c) → control_is_cancelled (cancel_all w cs) c = true.
Proof.
  unfold cancel_all. revert w. induction cs as [|c cs IH]; intros w; simpl.
  { split; [reflexivity|]. by intros c ?%elem_of_nil. }
  destruct (control_cancel_spec w c) as [Hm Hc]. destruct (IH (control_cancel w c).1) as [Hm' Hcs].
  split; [by etrans|]. intros c' [->|Hin]%elem_of_cons Hk.
  - destruct Hm' as (_ & _ & _ & Hmono & _). auto.
  - apply Hcs; [done|]. destruct Hm as (_ & _ & Hsome & _). auto.
Qed.

(** ** Terminal states *)

Lemma fail_closed_state w :
  let st := mw_state (fail_closed w) in
  terminal st = true ∧ provisional st = ∅ ∧ pending st = ∅ ∧ pending_by_connection st = ∅ ∧
  active st = ∅.
Proof.
  unfold fail_closed. match goal with |- context [cancel_all ?w ?cs] =>
    destruct (cancel_all_spec cs w) as [(Hs & _) _] end.
  cbv zeta. rewrite Hs. done.
Qed.

Lemma holders_held g c : c ∈ held g → ∃ i p, (i, (p, c)) ∈ holders g.
Proof.
  unfold held, holders. setoid_rewrite elem_of_app.
  setoid_rewrite list_elem_of_fmap.
  intros [(x & -> & Hx)|(x & -> & Hx)]; eexists _, _; [left|right]; by exists x.
Qed.

Lemma fail_closed_inv w g : prompt_inv w g → prompt_inv (fail_closed w) g.
Proof.
  intros (Hok & Hheld & Hinv).
  destruct (fail_closed_state w) as (Ht & Hp & Hq & Hi & Ha).
  unfold prompt_inv. rewrite Ht. unfold dead_inv. rewrite Hp, Hq, Hi, Ha.
  unfold fail_closed. match goal with |- context [cancel_all ?w ?cs] =>
    destruct (cancel_all_spec cs w) as [(_ & _ & Hsome & Hmono & Hk & _) Hall] end.
  simpl in Hsome, Hk, Hall. split_and!; try done.
  - by apply Hk.
  - eapply Forall_impl; [exact Hheld|]. auto.
  - apply Forall_forall. intros c Hc. rewrite Forall_forall in Hheld.
    specialize (Hheld c Hc). destruct (terminal (mw_state w)) eqn:Hterm.
    + destruct Hinv as (_ & _ & _ & _ & Hf). rewrite Forall_forall in Hf. apply Hmono.
      by apply Hf.
    + apply Hall; [|done]. destruct Hinv as (_ & _ & _ & _ & Hown & _).
      apply holders_held in Hc as (i & p & Hc).
      destruct (ledger_elem _ _ _ _ _ Hown Hc) as (k & r & Hr & [= _ _ ->]).
      apply list_elem_of_fmap. exists r. split; [done|]. apply list_elem_of_fmap.
      exists (k, r). split; [done|]. by apply elem_of_map_to_list.
Qed.

(** A terminal manager accepts any smaller set of guards. *)
Lemma dead_shrink w g g' :
  prompt_inv w g → terminal (mw_state w) = true → held g' ⊆ held g → prompt_inv w g'.
Proof.
  unfold prompt_inv, dead_inv. intros (Hok & Hh & Hd) Ht Hsub. rewrite Ht in *.
  destruct Hd as (?&?&?&?&Hf). rewrite !Forall_forall in *. split_and!; auto.
Qed.

(** The lock: either the manager is or becomes terminal and the caller gets
    [Unavailable], or the body runs on a live manager. *)
Lemma locked_inv {A} w g g' (body : ManagerWorld E → ManagerWorld E * presult A) w' r
    (P : ManagerWorld E → presult A → Prop) :
  prompt_inv w g → held g' ⊆ held g → locked w body = (w', r) →
  (∀ w', prompt_inv w' g' → P w' (Err PromptUnavailable)) →
  (terminal (mw_state w) = false → controls_ok w →
     Forall (λ c, is_Some (mw_controls w !! c)) (held g) → live_inv w g → body w = (w', r) →
     P w' r) →
  P w' r.
Proof.
  intros Hinv Hsub Hl Hdead Hlive. unfold locked in Hl. destruct (mw_poisoned w).
  - injection Hl as <- <-. apply Hdead.
    eapply dead_shrink; [by apply fail_closed_inv| |done]. apply fail_closed_state.
  - destruct (terminal (mw_state w)) eqn:Ht.
    + injection Hl as <- <-. apply Hdead. by eapply dead_shrink.
    + destruct Hinv as (? & ? & Hinv). rewrite Ht in Hinv. auto.
Qed.
End invariant.
