(* ===== verification/PromptOps.v ===== *)
(** * Prompt transactions: every operation preserves the invariant *)

From S2P Require Import Prelude Bytes Storage Crypto Legacy Contracts Authorization Config PromptState PromptProofs.

(** ** Counting *)

Definition indicator (P : Prop) `{Decision P} : Z := if decide P then 1 else 0.

Lemma indicator_nonneg (P : Prop) `{Decision P} : 0 ≤ indicator P.
Proof. unfold indicator. destruct (decide P); lia. Qed.

Lemma size_filter_sum {V} (m : gmap bytes V) (uid_of : V → Z) (uid : Z) :
  Z.of_nat (size (filter (λ kv, uid_of kv.2 = uid) m)) = map_sum (λ v, indicator (uid_of v = uid)) m.
Proof.
  induction m as [|k v m Hk IH] using map_ind.
  { by rewrite map_filter_empty, map_size_empty, map_sum_empty. }
  rewrite map_sum_insert, map_filter_insert by done. unfold indicator at 1. simpl.
  destruct (decide (uid_of v = uid)) as [Hu|Hu].
  - rewrite map_size_insert_None; [lia|]. apply map_lookup_filter_None. auto.
  - rewrite delete_id by done. lia.
Qed.

Section ops.
  Context `{Sha256} {E : Type} `{RandomSource E} (l : ManagerLimits).
  Implicit Types (st : ManagerState E) (w : ManagerWorld E).

(** Limits that fit their [usize]. *)
Definition manager_limits_typed : Prop :=
  in_u USIZE_MAX (ml_max_pending_per_uid l) ∧ in_u USIZE_MAX (ml_max_pending_global l) ∧
  in_u USIZE_MAX (ml_max_active l).

Lemma count_uid_sum st uid :
  count_uid st uid = map_sum (λ v, indicator (pv_peer_uid v = uid)) (provisional st)
                     + map_sum (λ v, indicator (pr_peer_uid v = uid)) (pending st).
Proof. unfold count_uid. by rewrite !size_filter_sum. Qed.

Lemma prompt_live w g :
  controls_ok w → Forall (λ c, is_Some (mw_controls w !! c)) (held g) →
  terminal (mw_state w) = false → live_inv l w g → prompt_inv l w g.
Proof. intros ? ? Ht ?. unfold prompt_inv. by rewrite Ht. Qed.

(** ** Guards up to order *)

Definition guards_perm (g g' : Guards) : Prop :=
  g_begins g ≡ₚ g_begins g' ∧ g_issues g ≡ₚ g_issues g' ∧ g_claims g ≡ₚ g_claims g' ∧
  g_leases g ≡ₚ g_leases g'.

Lemma prompt_inv_perm w g g' : guards_perm g g' → prompt_inv l w g → prompt_inv l w g'.
Proof.
  intros (Hb & Hi & Hc & Hl) (Hok & Hh & Hinv).
  assert (held g ≡ₚ held g') as Hheld by (unfold held; by rewrite Hc, Hl).
  assert (holders g ≡ₚ holders g') as Hholders by (unfold holders; by rewrite Hc, Hl).
  unfold prompt_inv. rewrite <- Hheld. split_and!; try done.
  destruct (terminal (mw_state w)).
  - unfold dead_inv in *. by rewrite <- Hheld.
  - unfold live_inv, begins_owned, issues_owned, actives_owned in *.
    by rewrite <- Hb, <- Hi, <- Hholders.
Qed.

(** ** State changes *)

(** Replacing the state alone. *)
Lemma prompt_with_state w st g :
  controls_ok w → Forall (λ c, is_Some (mw_controls w !! c)) (held g) →
  terminal st = false → live_inv l (with_state st w) g → prompt_inv l (with_state st w) g.
Proof. intros. by apply prompt_live. Qed.

Lemma with_own_state w : with_state (mw_state w) w = w.
Proof. by destruct w. Qed.

Lemma live_draw w g e n st :
  live_inv l (with_state st w) g → live_inv l (with_state (with_draw e n st) w) g.
Proof. done. Qed.

Lemma size_pos_lookup {V} (m : gmap bytes V) k v : m !! k = Some v → (0 < size m)%nat.
Proof.
  intros Hk. destruct (size m) eqn:Hs; [|lia]. apply map_size_empty_inv in Hs.
  by rewrite Hs in Hk.
Qed.

Lemma live_add_provisional w g st c uid target :
  live_inv l (with_state st w) g →
  provisional st !! c = None → pending_by_connection st !! c = None →
  Z.of_nat (size (provisional st)) + Z.of_nat (size (pending st)) < ml_max_pending_global l →
  count_uid st uid < ml_max_pending_per_uid l →
  live_inv l (with_state (with_provisional (<[c := mkProvisional uid target]> (provisional st)) st) w)
    (mkGuards (mkBegin c true :: g_begins g) (g_issues g) (g_claims g) (g_leases g)).
Proof.
  intros (Hb & Hi & Hx & Hd & Ha & Hn & Hg & Hu & Hm) Hc Hp Htot Huid.
  unfold live_inv; simpl in *. split_and!; try done.
  - by eapply ledger_insert.
  - intros c'. destruct (decide (c' = c)) as [->|Hne]; [done|].
    rewrite lookup_insert_ne by done. apply Hd.
  - unfold quotas_ok; simpl. split_and!; try done.
    + rewrite map_size_insert_None by done. lia.
    + intros uid'. specialize (Hu uid'). rewrite count_uid_sum in *; simpl in *.
      rewrite map_sum_insert by done. simpl. unfold indicator at 1.
      destruct (decide (uid = uid')) as [->|]; lia.
Qed.

Lemma live_drop_provisional w g st c b :
  live_inv l (with_state st w) (mkGuards (b :: g_begins g) (g_issues g) (g_claims g) (g_leases g)) →
  br_connection_binding b = c →
  live_inv l (with_state (remove_provisional st c) w) g ∧
  ∃ p, provisional st !! c = Some p ∧ br_armed b = true.
Proof.
  intros (Hb & Hi & Hx & Hd & Ha & Hn & Hg & Hu & Hm) <-. simpl in *.
  destruct (ledger_elem _ _ _ _ b Hb) as (c & p & Hp & Heq); [apply list_elem_of_here|].
  injection Heq as Hcc Harm. rewrite Hcc. split; [|eauto].
  unfold live_inv, remove_provisional; simpl. split_and!; try done.
  - eapply ledger_delete; [exact Hb|exact Hp|]. simpl. by rewrite Hcc, Harm.
  - intros c' [v [_ Hv]%lookup_delete_Some]. apply Hd. eauto.
  - unfold quotas_ok; simpl. pose proof (size_pos_lookup _ _ _ Hp).
    pose proof (map_size_delete_Some _ _ (mk_is_Some _ _ Hp)) as Hsz. split_and!; try done; [lia|].
    intros uid'. specialize (Hu uid'). rewrite count_uid_sum in *; simpl in *.
    rewrite (map_sum_delete _ _ _ p Hp). pose proof (indicator_nonneg (pv_peer_uid p = uid')).
    lia.
Qed.

Lemma issue_owner secret i b k r lk :
  issue_key secret (i, b) = record_key (k, r) → pi_lookup i = Some lk →
  lk = k ∧ pr_connection_binding r = pi_connection_binding i ∧
  lk = keyed_digest secret (bs "token-lookup-v2") (pi_token i) ∧
  record_core r = binding_core secret b.
Proof.
  unfold issue_key, record_key. cbn [fst snd]. intros Heq Hlk. rewrite Hlk in Heq.
  injection Heq as ? ? ? ? ? ? ? ? ?. unfold record_core, binding_core. subst k.
  split_and!; congruence.
Qed.

(** Removing a transaction from both maps. *)
Lemma live_drop_pending w g st i b lk :
  live_inv l (with_state st w)
    (mkGuards (g_begins g) ((i, b) :: g_issues g) (g_claims g) (g_leases g)) →
  pi_lookup i = Some lk →
  ∃ r, pending st !! lk = Some r ∧ pr_connection_binding r = pi_connection_binding i ∧
    lk = keyed_digest (instance_secret st) (bs "token-lookup-v2") (pi_token i) ∧
    record_core r = binding_core (instance_secret st) b ∧
    pending_by_connection st !! pi_connection_binding i = Some lk ∧
    live_inv l (with_state (remove_pending st (pi_connection_binding i) lk).1 w) g.
Proof.
  intros (Hb & Hi & Hx & Hd & Ha & Hn & Hg & Hu & Hm) Hlk. simpl in *.
  destruct (ledger_elem _ _ _ _ (i, b) Hi) as (k & r & Hr & Heq); [apply list_elem_of_here|].
  pose proof (issue_owner _ _ _ _ _ _ Heq Hlk) as (<- & Hconn & Htok & Hcore).
  assert (pending_by_connection st !! pi_connection_binding i = Some lk) as Hidx
    by (apply Hx; eauto).
  exists r. split_and!; try done. unfold remove_pending. rewrite bool_decide_eq_true_2 by done.
  unfold live_inv; simpl. split_and!; try done.
  - by eapply ledger_delete; [exact Hi|exact Hr|].
  - intros c k. rewrite lookup_delete_Some, (Hx c k). setoid_rewrite lookup_delete_Some. split.
    + intros (Hne & r' & Hr' & <-). exists r'. split_and!; try done. intros ->. congruence.
    + intros (r' & [Hne Hr'] & <-). split; [|eauto]. intros Heqc.
      assert (pending_by_connection st !! pr_connection_binding r' = Some k) as Hk
        by (apply Hx; eauto). congruence.
  - intros c Hc. apply lookup_delete_None. right. by apply Hd.
  - unfold quotas_ok; simpl. pose proof (size_pos_lookup _ _ _ Hr).
    pose proof (map_size_delete_Some _ _ (mk_is_Some _ _ Hr)) as Hsz. split_and!; try done; [lia|].
    intros uid'. specialize (Hu uid'). rewrite count_uid_sum in *; simpl in *.
    rewrite (map_sum_delete _ _ _ r Hr). pose proof (indicator_nonneg (pr_peer_uid r = uid')).
    lia.
Qed.

Lemma live_add_pending w g st c lk r token b :
  live_inv l (with_state st w) g →
  lk = keyed_digest (instance_secret st) (bs "token-lookup-v2") token →
  record_core r = binding_core (instance_secret st) b →
  pr_connection_binding r = c → pending st !! lk = None →
  pending_by_connection st !! c = None → provisional st !! c = None →
  Z.of_nat (size (provisional st)) + Z.of_nat (size (pending st)) < ml_max_pending_global l →
  count_uid st (pr_peer_uid r) < ml_max_pending_per_uid l →
  live_inv l
    (with_state (with_pending (<[lk := r]> (pending st)) (<[c := lk]> (pending_by_connection st)) st) w)
    (mkGuards (g_begins g) ((mkIssue c (Some lk) token, b) :: g_issues g) (g_claims g) (g_leases g)).
Proof.
  intros (Hb & Hi & Hx & Hd & Ha & Hn & Hg & Hu & Hm) Htok Hcore Hc Hlk Hpc Hpv Htot Huid.
  unfold live_inv; simpl in *. split_and!; try done.
  - eapply ledger_insert; [done|done|]. unfold issue_key, record_key. simpl.
    by rewrite Hc, Hcore, <- Htok.
  - intros c' k. rewrite lookup_insert_Some, (Hx c' k). setoid_rewrite lookup_insert_Some. split.
    + intros [[<- <-]|(Hne & r' & Hr' & <-)]; [exists r; auto|].
      exists r'. split; [|done]. right. split; [|done]. intros <-. congruence.
    + intros (r' & [[<- <-]|[Hne Hr']] & <-); [by left|]. right. split; [|eauto].
      intros Heq. assert (pending_by_connection st !! pr_connection_binding r' = Some k)
        by (apply Hx; eauto). congruence.
  - intros c' Hc'. rewrite lookup_insert_ne; [by apply Hd|]. intros <-.
    rewrite Hpv in Hc'. by destruct Hc'.
  - unfold quotas_ok; simpl. split_and!; try done.
    + rewrite map_size_insert_None by done. lia.
    + intros uid'. specialize (Hu uid'). rewrite count_uid_sum in *; simpl in *.
      rewrite map_sum_insert by done. simpl. unfold indicator at 2.
      destruct (decide (pr_peer_uid r = uid')) as [<-|]; lia.
Qed.

(** Changing a pending record but not its connection or peer. *)
Lemma live_update_pending w g st lk r r' :
  live_inv l (with_state st w) g → pending st !! lk = Some r →
  pr_connection_binding r' = pr_connection_binding r → record_core r' = record_core r →
  live_inv l
    (with_state (with_pending (<[lk := r']> (pending st)) (pending_by_connection st) st) w) g.
Proof.
  intros (Hb & Hi & Hx & Hd & Ha & Hn & Hg & Hu & Hm) Hr Hc Hp.
  unfold live_inv; simpl in *. split_and!; try done.
  - eapply ledger_update; [done|done|]. unfold record_key. simpl. by rewrite Hc, Hp.
  - intros c k. rewrite (Hx c k). setoid_rewrite lookup_insert_Some. split.
    + intros (r0 & Hr0 & <-). destruct (decide (k = lk)) as [->|Hne]; [|eauto].
      exists r'. split; [by left|]. congruence.
    + intros (r0 & [[<- <-]|[? ?]] & <-); eauto.
  - unfold quotas_ok; simpl. rewrite map_size_insert_Some by done. split_and!; try done.
    intros uid'. specialize (Hu uid'). rewrite count_uid_sum in *; simpl in *.
    injection Hp as Hp _ _ _ _ _. rewrite (map_sum_update _ _ _ r r' Hr), Hp. lia.
Qed.
(** ** Active sessions *)

Lemma holders_claim g c :
  holders (mkGuards (g_begins g) (g_issues g) (c :: g_claims g) (g_leases g))
  = (cc_active_id c, (PhaseClaim, cc_control c)) :: holders g.
Proof. done. Qed.

Lemma holders_lease g c :
  holders (mkGuards (g_begins g) (g_issues g) (g_claims g) (c :: g_leases g))
  ≡ₚ (al_active_id c, (PhaseActive, al_control c)) :: holders g.
Proof. unfold holders; simpl. by rewrite <- Permutation_middle. Qed.

Lemma live_add_active w g st r next claim :
  live_inv l (with_state st w) g →
  Z.of_nat (size (active st)) < ml_max_active l → next = next_active st + 1 →
  ar_phase r = PhaseClaim → cc_active_id claim = Some (next_active st) →
  cc_control claim = ar_control r →
  live_inv l (with_state (with_active next (<[next_active st := r]> (active st)) st) w)
    (mkGuards (g_begins g) (g_issues g) (claim :: g_claims g) (g_leases g)).
Proof.
  intros (Hb & Hi & Hx & Hd & Ha & Hn & Hg & Hu & Hm) Hlt -> Hph Hid Hct.
  assert (active st !! next_active st = None) as Hfresh.
  { destruct (active st !! next_active st) as [r'|] eqn:Hr'; [|done]. apply Hn in Hr'.
    simpl in Hr'. lia. }
  unfold live_inv; simpl in *. split_and!; try done.
  - unfold actives_owned. rewrite holders_claim. eapply ledger_insert; [done|done|]. simpl.
    by rewrite Hph, Hid, Hct.
  - intros id r'. rewrite lookup_insert_Some. intros [[<- _]|[_ Hr']]; [lia|].
    apply Hn in Hr'. lia.
  - unfold quotas_ok; simpl. rewrite map_size_insert_None by done. split_and!; try done. lia.
Qed.

(** Removing the session of a claim or a lease. *)
Lemma live_drop_active w g g' st id ph c :
  live_inv l (with_state st w) g →
  g_begins g = g_begins g' → g_issues g = g_issues g' →
  holders g ≡ₚ (Some id, (ph, c)) :: holders g' →
  (∃ r, active st !! id = Some r ∧ ar_phase r = ph ∧ ar_control r = c) ∧
  live_inv l (with_state (with_active (next_active st) (delete id (active st)) st) w) g'.
Proof.
  intros (Hb & Hi & Hx & Hd & Ha & Hn & Hg & Hu & Hm) Hgb Hgi Hh. simpl in *.
  unfold actives_owned in Ha. rewrite Hh in Ha.
  destruct (ledger_elem _ _ _ _ (Some id, (ph, c)) Ha) as (k & r & Hr & Heq);
    [apply list_elem_of_here|].
  injection Heq as -> -> ->. split; [by exists r|].
  unfold live_inv; simpl. rewrite <- Hgb, <- Hgi. split_and!; try done.
  - by eapply ledger_delete; [exact Ha| |].
  - intros id' r' [_ Hr']%lookup_delete_Some. by eapply Hn.
  - unfold quotas_ok; simpl. split_and!; try done. rewrite map_size_delete. rewrite Hr. lia.
Qed.

(** Promoting a claim to a lease. *)
Lemma live_promote w g st id c tok lease :
  live_inv l (with_state st w)
    (mkGuards (g_begins g) (g_issues g) (c :: g_claims g) (g_leases g)) →
  cc_active_id c = Some id → al_active_id lease = Some id → al_control lease = cc_control c →
  live_inv l
    (with_state (with_active (next_active st)
       (<[id := mkActive PhaseActive (cc_control c) tok]> (active st)) st) w)
    (mkGuards (g_begins g) (g_issues g) (g_claims g) (lease :: g_leases g)).
Proof.
  intros (Hb & Hi & Hx & Hd & Ha & Hn & Hg & Hu & Hm) Hid Hlid Hlc. simpl in *.
  unfold actives_owned in Ha. rewrite holders_claim, Hid in Ha.
  destruct (ledger_elem _ _ _ _ _ Ha (list_elem_of_here _ _)) as (k & r & Hr & Heq).
  injection Heq as <- Hph Hct.
  unfold live_inv; simpl. split_and!; try done.
  - unfold actives_owned. rewrite holders_lease, Hlid, Hlc.
    rewrite <- insert_delete_eq. eapply ledger_insert; [|apply lookup_delete_eq|done].
    eapply ledger_delete; [exact Ha|exact Hr|]. simpl. congruence.
  - intros id' r'. rewrite lookup_insert_Some. intros [[<- _]|[_ Hr']]; eauto.
  - unfold quotas_ok; simpl. rewrite map_size_insert_Some by done. done.
Qed.

(** ** Operations *)

Context (Hl : manager_limits_typed).

Lemma generate_token_loop_spec n st st' r :
  generate_token_loop n st = (st', r) →
  (∃ e k, st' = with_draw e k st) ∧
  ∀ token lookup, r = Ok (token, lookup) →
    pending st !! lookup = None ∧
    lookup = keyed_digest (instance_secret st) (bs "token-lookup-v2") token.
Proof.
  revert st. induction n as [|n IH]; intros st; cbn [generate_token_loop].
  { intros [= <- <-]. split; [|done]. exists (st_entropy st), (issuance_counter st). by destruct st. }
  destruct (checked_add _ _) as [k|].
  2: { intros [= <- <-]. split; [|done]. exists (st_entropy st), (issuance_counter st). by destruct st. }
  destruct (generate_nonzero (st_entropy st)) as [e [random|]].
  2: { intros [= <- <-]. split; [|done]. eauto. }
  cbv zeta. assert (generate_token_loop n (with_draw e k st) = (st', r) →
    (∃ e k, st' = with_draw e k st) ∧ ∀ token lookup, r = Ok (token, lookup) →
      pending st !! lookup = None ∧
      lookup = keyed_digest (instance_secret st) (bs "token-lookup-v2") token) as Hrec.
  { intros (Hst & Hr)%IH. split; [|exact Hr]. destruct Hst as (e' & k' & ->). by exists e', k'. }
  destruct (forallb _ _); [exact Hrec|].
  destruct (lookup_in_use _ _) eqn:Huse; [exact Hrec|]. cbn [negb].
  intros [= <- <-]. split; [eauto|]. intros token lookup [= <- <-]. split; [|done].
  unfold lookup_in_use in Huse. apply orb_false_iff in Huse as [Hp _].
  apply bool_decide_eq_false in Hp. by apply eq_None_not_Some.
Qed.

Lemma new_connection_inv w g w' r :
  prompt_inv l w g → new_connection w = (w', r) → prompt_inv l w' g.
Proof.
  intros Hinv Hop. eapply (locked_inv l w g g _ w' r (λ w' _, prompt_inv l w' g)); eauto.
  intros Ht Hok Hh Hlive. cbv beta zeta. destruct (checked_add _ _); intros [= <- <-]; by apply prompt_live.
Qed.

Lemma quota_test st :
  pending_total st < ml_max_pending_global l →
  Z.of_nat (size (provisional st)) + Z.of_nat (size (pending st)) < ml_max_pending_global l.
Proof.
  destruct Hl as (_ & Hg & _). unfold pending_total, saturating_add. unfold_max. lia.
Qed.

Lemma uid_quota_test st uid :
  pending_for_uid st uid < ml_max_pending_per_uid l →
  count_uid st uid < ml_max_pending_per_uid l.
Proof.
  destruct Hl as (Hg & _). unfold pending_for_uid, saturating_add, count_uid. unfold_max. lia.
Qed.

Definition after_reserve (g : Guards) (w : ManagerWorld E) (r : presult BeginReservation) : Prop :=
  match r with
  | Ok b => prompt_inv l w (mkGuards (b :: g_begins g) (g_issues g) (g_claims g) (g_leases g))
  | Err _ => prompt_inv l w g
  end.

Lemma reserve_begin_inv w g conn uid target w' r :
  prompt_inv l w g → reserve_begin l w conn uid target = (w', r) → after_reserve g w' r.
Proof.
  intros Hinv Hop. eapply (locked_inv l w g g _ w' r (after_reserve g)); eauto.
  intros Ht Hok Hh Hlive. cbv beta zeta.
  destruct (_ || _) eqn:Hc; intros [= <- <-]; [by apply prompt_live|].
  breflect. apply prompt_live; try done. apply live_add_provisional; try done.
  - by apply eq_None_not_Some.
  - by apply eq_None_not_Some.
  - by apply quota_test.
  - by apply uid_quota_test.
Qed.

(** [issue] consumes its reservation. *)
Definition after_issue (g : Guards) (b : PendingBinding) (w : ManagerWorld E)
    (r : presult PendingIssue) : Prop :=
  match r with
  | Ok i => prompt_inv l w (mkGuards (g_begins g) ((i, b) :: g_issues g) (g_claims g) (g_leases g))
  | Err _ => prompt_inv l w g
  end.

(** The quota a removed reservation leaves room for its transaction. *)
Lemma provisional_room st w g b p :
  live_inv l (with_state st w) (mkGuards (b :: g_begins g) (g_issues g) (g_claims g) (g_leases g)) →
  provisional st !! br_connection_binding b = Some p →
  let st' := remove_provisional st (br_connection_binding b) in
  Z.of_nat (size (provisional st')) + Z.of_nat (size (pending st')) < ml_max_pending_global l ∧
  count_uid st' (pv_peer_uid p) < ml_max_pending_per_uid l ∧
  pending_by_connection st' !! br_connection_binding b = None.
Proof.
  intros (Hb & Hi & Hx & Hd & Ha & Hn & Hg & Hu & Hm) Hp. simpl in *.
  pose proof (size_pos_lookup _ _ _ Hp).
  pose proof (map_size_delete_Some _ _ (mk_is_Some _ _ Hp)) as Hsz. split_and!.
  - lia.
  - specialize (Hu (pv_peer_uid p)). rewrite count_uid_sum in *; simpl in *.
    rewrite (map_sum_delete _ _ _ p Hp). unfold indicator at 2. rewrite decide_True by done. lia.
  - apply Hd. eauto.
Qed.

Lemma issue_inv w g b binding w' r :
  prompt_inv l w (mkGuards (b :: g_begins g) (g_issues g) (g_claims g) (g_leases g)) →
  issue w b binding = (w', r) → after_issue g binding w' r.
Proof.
  intros Hinv. unfold issue. simpl. destruct (issue_reserved _ _ _) as [w1 r1] eqn:Hop.
  intros [= <- <-]. eapply (locked_inv l w _ g _ w1 r1 (after_issue g binding)); eauto.
  intros Ht Hok Hh Hlive. cbv beta zeta.
  rewrite <- (with_own_state w) in Hlive.
  destruct (live_drop_provisional w g (mw_state w) _ b Hlive eq_refl) as (Hdrop & p & Hp & _).
  destruct (provisional_room (mw_state w) w g b p Hlive Hp) as (Hroom & Huid & Hidx).
  destruct (constant_time_eq _ _); cbn [negb]; [|intros [= <- <-]; by apply prompt_live].
  rewrite Hp. destruct (_ || _) eqn:Hc; [intros [= <- <-]; by apply prompt_live|].
  breflect. unfold generate_token.
  destruct (generate_token_loop _ _) as [st2 [[token lookup]|e]] eqn:Hgen;
    apply generate_token_loop_spec in Hgen as ((e' & k & ->) & Hfresh); intros [= <- <-].
  - destruct (Hfresh _ _ eq_refl) as [Hnone Htok]. apply prompt_live; try done.
    apply (live_add_pending w g
      (with_draw e' k (remove_provisional (mw_state w) (br_connection_binding b)))); try done.
    + unfold record_core, binding_core. simpl. congruence.
    + apply lookup_delete_eq.
    + simpl. rewrite <- H1. exact Huid.
  - by apply prompt_live.
Qed.

Lemma locked_unit_inv w g g' body :
  prompt_inv l w g → held g' ⊆ held g → (∀ st, terminal (body st) = terminal st) →
  (terminal (mw_state w) = false → live_inv l w g →
     live_inv l (with_state (body (mw_state w)) w) g') →
  prompt_inv l (locked_unit w body) g'.
Proof.
  intros Hinv Hsub Hterm Hlive. unfold locked_unit.
  destruct (locked w _) as [w' r] eqn:Hop. simpl.
  eapply (locked_inv l w g g' _ w' r (λ w' _, prompt_inv l w' g')); eauto.
  intros Ht Hok Hh Hlv. cbv beta. intros [= <- <-]. apply prompt_live; auto.
  - rewrite Forall_forall in *. auto.
  - simpl. by rewrite Hterm.
Qed.

Lemma drop_begin_inv w g b :
  prompt_inv l w (mkGuards (b :: g_begins g) (g_issues g) (g_claims g) (g_leases g)) →
  prompt_inv l (drop_begin w b) g.
Proof.
  intros Hinv. unfold drop_begin. destruct (br_armed b) eqn:Harm.
  - eapply locked_unit_inv; [exact Hinv|done|done|]. intros _ Hlive.
    rewrite <- (with_own_state w) in Hlive. by eapply live_drop_provisional.
  - destruct (terminal (mw_state w)) eqn:Ht; [by eapply dead_shrink|].
    destruct Hinv as (_ & _ & Hlive). rewrite Ht in Hlive.
    rewrite <- (with_own_state w) in Hlive.
    destruct (live_drop_provisional _ _ _ _ _ Hlive eq_refl) as (_ & p & _ & ?). congruence.
Qed.

Lemma activate_inv w g i b waker now w' r :
  (i, b) ∈ g_issues g → prompt_inv l w g →
  activate_with_waker l w i waker now = (w', r) → prompt_inv l w' g.
Proof.
  intros Hi Hinv. unfold activate_with_waker, activate_pending.
  destruct (pi_lookup i) as [lk|] eqn:Hlk; [|by intros [= <- <-]].
  destruct (instant_checked_add _ _) as [deadline|]; [|by intros [= <- <-]].
  intros Hop. eapply (locked_inv l w g g _ w' r (λ w' _, prompt_inv l w' g)); eauto.
  intros Ht Hok Hh Hlive. cbv beta zeta. pose proof Hlive as (_ & Hown & Hx & _).
  destruct (ledger_elem _ _ _ _ _ Hown Hi) as (k & rec & Hr & Heq).
  pose proof (issue_owner _ _ _ _ _ _ Heq Hlk) as (<- & Hconn & _).
  rewrite bool_decide_eq_true_2 by (apply Hx; eauto). cbn [negb]. rewrite Hr.
  rewrite <- (with_own_state w) in Hlive.
  destruct (pr_expires_at rec); intros [= <- <-]; apply prompt_live; try done;
    by eapply live_update_pending.
Qed.

(** [take_pending] removes the transaction of the guard, whatever it answers. *)
Lemma take_pending_inv w g i b lk token st' r :
  live_inv l w (mkGuards (g_begins g) ((i, b) :: g_issues g) (g_claims g) (g_leases g)) →
  pi_lookup i = Some lk →
  take_pending (mw_state w) (pi_connection_binding i) lk token = (st', r) →
  live_inv l (with_state st' w) g ∧ terminal st' = terminal (mw_state w) ∧
  instance_secret st' = instance_secret (mw_state w) ∧ pending st' !! lk = None ∧
  ∀ rec, r = Ok rec →
    pending (mw_state w) !! lk = Some rec ∧
    record_core rec = binding_core (instance_secret (mw_state w)) b ∧
    constant_time_eq (keyed_digest (instance_secret (mw_state w)) (bs "token-lookup-v2") token) lk
      = true.
Proof.
  intros Hlive Hlk. rewrite <- (with_own_state w) in Hlive.
  destruct (live_drop_pending _ _ _ _ _ _ Hlive Hlk)
    as (rec & Hrec & Hconn & Htk & Hcore & Hidx & Hdrop).
  unfold take_pending. rewrite Hidx, bool_decide_eq_true_2 by done. cbn [negb orb].
  destruct (constant_time_eq _ _) eqn:Htok; cbn [negb].
  - unfold remove_pending in *. rewrite Hidx, Hrec in *.
    rewrite bool_decide_eq_true_2 in * by done. intros [= <- <-].
    split_and!; try done; simpl; [apply lookup_delete_eq|]. by intros ? [= <-].
  - intros [= <- <-]. split_and!; try done. simpl. apply lookup_delete_eq.
Qed.

Definition after_commit (g : Guards) (w : ManagerWorld E) (r : presult CommitClaim) : Prop :=
  match r with
  | Ok c => prompt_inv l w (mkGuards (g_begins g) (g_issues g) (c :: g_claims g) (g_leases g))
  | Err _ => prompt_inv l w g
  end.

Lemma admit_claim_inv w g rec lk now w' r :
  controls_ok w → Forall (λ c, is_Some (mw_controls w !! c)) (held g) →
  terminal (mw_state w) = false → live_inv l w g →
  admit_claim l w rec lk now = (w', r) → after_commit g w' r.
Proof.
  intros Hok Hh Ht Hlive. unfold admit_claim.
  destruct (Z.leb_spec (ml_max_active l) (Z.of_nat (size (active (mw_state w)))));
    [intros [= <- <-]; by apply prompt_live|].
  destruct (checked_add _ _) as [next|] eqn:Hnext; [|intros [= <- <-]; by apply prompt_live].
  apply checked_add_Some in Hnext as [Hnext _].
  assert (prompt_inv l (with_state (with_active next (active (mw_state w)) (mw_state w)) w) g) as Hbump.
  { apply prompt_live; try done. destruct Hlive as (?&?&?&?&?&Hn&?). unfold live_inv; simpl.
    split_and!; try done. intros id rr Hr%Hn. lia. }
  destruct (instant_checked_add now (ml_active_timeout l)) as [deadline|];
    [|intros [= <- <-]; exact Hbump].
  destruct (instant_checked_add now (ml_commit_to_camera_timeout l)) as [ready|];
    [|intros [= <- <-]; exact Hbump].
  cbv zeta. intros [= <- <-]. set (c := fresh (dom (mw_controls w))).
  assert (mw_controls w !! c = None) as Hc.
  { apply not_elem_of_dom. apply is_fresh. }
  apply prompt_live; [| |done|].
  - intros c' k. simpl. rewrite lookup_insert_Some. intros [[_ <-]|[_ Hk]]; [done|]. exact (Hok c' k Hk).
  - apply Forall_cons. split; [simpl; rewrite lookup_insert_eq; by eexists|].
    eapply Forall_impl; [exact Hh|]. intros c' Hc'. simpl.
    rewrite lookup_insert_ne; [done|]. intros <-. rewrite Hc in Hc'. by destruct Hc'.
  - rewrite <- (with_own_state w) in Hlive. by eapply (live_add_active w g (mw_state w)).
Qed.

Lemma claim_commit_inv w g i b token nonce uid tuid now w' r :
  prompt_inv l w (mkGuards (g_begins g) ((i, b) :: g_issues g) (g_claims g) (g_leases g)) →
  is_Some (pi_lookup i) →
  issue_claim_commit l w i token nonce uid tuid now = (w', r) → after_commit g w' r.
Proof.
  intros Hinv [lk Hlk]. unfold issue_claim_commit. rewrite Hlk. simpl.
  destruct (claim_commit _ _ _ _ _ _ _ _ _) as [w1 r1] eqn:Hop. intros [= <- <-].
  eapply (locked_inv l w _ g _ w1 r1 (after_commit g)); eauto.
  intros Ht Hok Hh Hlive. cbv beta zeta.
  destruct (take_pending _ _ _ _) as [st' [rec|e]] eqn:Htake;
    apply (take_pending_inv w g i b) in Htake as (Hl' & Ht' & _); try done;
    [|intros [= <- <-]; apply prompt_live; try done; simpl; by rewrite Ht'].
  destruct (_ || _); [intros [= <- <-]; apply prompt_live; try done; simpl; by rewrite Ht'|].
  intros Hadm. eapply admit_claim_inv; [..|exact Hadm]; try done. simpl. by rewrite Ht'.
Qed.

Lemma cancel_pending_inv w g i b token nonce uid tuid now w' r :
  prompt_inv l w (mkGuards (g_begins g) ((i, b) :: g_issues g) (g_claims g) (g_leases g)) →
  is_Some (pi_lookup i) →
  issue_cancel w i token nonce uid tuid now = (w', r) → prompt_inv l w' g.
Proof.
  intros Hinv [lk Hlk]. unfold issue_cancel. rewrite Hlk. simpl.
  destruct (cancel_pending _ _ _ _ _ _ _ _) as [w1 r1] eqn:Hop. intros [= <- <-].
  eapply (locked_inv l w _ g _ w1 r1 (λ w' _, prompt_inv l w' g)); eauto.
  intros Ht Hok Hh Hlive. cbv beta zeta.
  destruct (take_pending _ _ _ _) as [st' [rec|e]] eqn:Htake;
    apply (take_pending_inv w g i b) in Htake as (Hl' & Ht' & _); try done;
    intros [= <- <-]; apply prompt_live; try done; simpl; by rewrite Ht'.
Qed.

Lemma drop_issue_inv w g i b :
  prompt_inv l w (mkGuards (g_begins g) ((i, b) :: g_issues g) (g_claims g) (g_leases g)) →
  is_Some (pi_lookup i) → prompt_inv l (drop_issue w i) g.
Proof.
  intros Hinv [lk Hlk]. unfold drop_issue. rewrite Hlk.
  eapply locked_unit_inv; [exact Hinv|done|done|]. intros _ Hlive.
  rewrite <- (with_own_state w) in Hlive.
  by destruct (live_drop_pending _ _ _ _ _ _ Hlive Hlk) as (rec & _ & _ & _ & _ & _ & ?).
Qed.

(** ** Sessions *)

Lemma control_cancel_inv w g c : prompt_inv l w g → prompt_inv l (control_cancel w c).1 g.
Proof. apply more_cancelled_inv, control_cancel_spec. Qed.

Lemma release_active_inv w g g' id ph c :
  prompt_inv l w g → g_begins g = g_begins g' → g_issues g = g_issues g' →
  held g' ⊆ held g → holders g ≡ₚ (Some id, (ph, c)) :: holders g' →
  prompt_inv l (release_active w id) g'.
Proof.
  intros Hinv ? ? Hsub Hh. eapply locked_unit_inv; [exact Hinv|done|done|]. intros _ Hlive.
  rewrite <- (with_own_state w) in Hlive.
  by apply (live_drop_active w g g' _ id ph c Hlive).
Qed.

Lemma drop_claim_inv w g c :
  prompt_inv l w (mkGuards (g_begins g) (g_issues g) (c :: g_claims g) (g_leases g)) →
  is_Some (cc_active_id c) → prompt_inv l (drop_claim w c) g.
Proof.
  intros Hinv [id Hid]. unfold drop_claim. rewrite Hid.
  eapply release_active_inv; [by apply control_cancel_inv|done|done| |].
  - unfold held. simpl. set_solver.
  - rewrite holders_claim, Hid. done.
Qed.

Lemma held_lease (g : Guards) c :
  held g ⊆ held (mkGuards (g_begins g) (g_issues g) (g_claims g) (c :: g_leases g)).
Proof. unfold held. simpl. set_solver. Qed.

Lemma drop_lease_inv w g c :
  prompt_inv l w (mkGuards (g_begins g) (g_issues g) (g_claims g) (c :: g_leases g)) →
  is_Some (al_active_id c) → prompt_inv l (drop_lease w c) g.
Proof.
  intros Hinv [id Hid]. unfold drop_lease. rewrite Hid.
  eapply release_active_inv; [by apply control_cancel_inv|done|done|apply held_lease|].
  rewrite holders_lease, Hid. done.
Qed.

Definition after_promote (g : Guards) (w : ManagerWorld E) (r : presult ActiveLease) : Prop :=
  match r with
  | Ok c => prompt_inv l w (mkGuards (g_begins g) (g_issues g) (g_claims g) (c :: g_leases g))
  | Err _ => prompt_inv l w g
  end.

(** Dropping a claim whose session is already gone. *)
Lemma drop_claim_again w g c : prompt_inv l w g →
  (∀ id, cc_active_id c = Some id → active (mw_state w) !! id = None) →
  prompt_inv l (drop_claim w c) g.
Proof.
  intros Hinv Hgone. unfold drop_claim. destruct (cc_active_id c) as [id|]; [|done].
  eapply locked_unit_inv; [by apply control_cancel_inv|done|done|]. intros _ Hlive.
  destruct (control_cancel_spec w (cc_control c)) as [(Hs & _) _]. rewrite Hs in *.
  rewrite delete_id by auto. unfold live_inv in *. rewrite Hs in Hlive. exact Hlive.
Qed.

Lemma promote_claim_inv w g c id binding now w' r :
  prompt_inv l w (mkGuards (g_begins g) (g_issues g) (c :: g_claims g) (g_leases g)) →
  cc_active_id c = Some id → promote_claim w id c binding now = (w', r) →
  match r with
  | Ok _ => prompt_inv l w' (mkGuards (g_begins g) (g_issues g) (g_claims g)
              (mkLease (Some id) (cc_control c) :: g_leases g))
  | Err _ => prompt_inv l w' g ∧ active (mw_state w') !! id = None
  end.
Proof.
  set (g1 := mkGuards (g_begins g) (g_issues g) (c :: g_claims g) (g_leases g)).
  intros Hinv Hid Hop. revert Hop. unfold promote_claim, locked.
  destruct (mw_poisoned w).
  { intros [= <- <-]. destruct (fail_closed_state w) as (Ht & _ & _ & _ & Ha). rewrite Ha.
    split; [|done]. eapply dead_shrink; [by apply fail_closed_inv|done|]. unfold held, g1; set_solver. }
  destruct (terminal (mw_state w)) eqn:Ht.
  { intros [= <- <-]. destruct (Hinv) as (_ & _ & Hd). rewrite Ht in Hd.
    destruct Hd as (_ & _ & _ & Ha & _). rewrite Ha. split; [|done].
    eapply dead_shrink; [done|done|]. unfold held, g1; set_solver. }
  destruct Hinv as (Hok & Hh & Hlive). rewrite Ht in Hlive. cbv beta zeta.
  rewrite <- (with_own_state w) in Hlive.
  destruct (live_drop_active w g1 g _ id PhaseClaim (cc_control c) Hlive)
    as [(rec & Hrec & Hph & Hct) Hdrop]; try done.
  { unfold g1. rewrite holders_claim, Hid. done. }
  rewrite Hrec. destruct (_ && _); cbn [negb].
  - rewrite Hph. intros [= <- <-]. apply prompt_live; try done; rewrite Hct.
    + assert (held (mkGuards (g_begins g) (g_issues g) (g_claims g)
        (mkLease (Some id) (cc_control c) :: g_leases g)) ≡ₚ held g1) as ->; [|done].
      unfold held, g1. simpl. by rewrite <- Permutation_middle.
    + by apply live_promote.
  - intros [= <- <-]. split.
    + apply control_cancel_inv, prompt_live; try done. by apply Forall_cons in Hh as [_ ?].
    + destruct (control_cancel_spec (with_state (with_active (next_active (mw_state w))
        (delete id (active (mw_state w))) (mw_state w)) w) (ar_control rec)) as [(-> & _) _].
      simpl. apply lookup_delete_eq.
Qed.

Lemma promote_inv w g c binding now w' r :
  prompt_inv l w (mkGuards (g_begins g) (g_issues g) (c :: g_claims g) (g_leases g)) →
  is_Some (cc_active_id c) → promote w c binding now = (w', r) → after_promote g w' r.
Proof.
  intros Hinv [id Hid]. unfold promote. rewrite Hid.
  destruct (promote_claim w id c binding now) as [w1 [[]|e]] eqn:Hop;
    apply (promote_claim_inv w g c id) in Hop; try done; intros [= <- <-]; [exact Hop|].
  destruct Hop as [Hinv1 Hgone]. apply drop_claim_again; [done|]. congruence.
Qed.

Lemma register_resource_inv w g c x : prompt_inv l w g → prompt_inv l (register_resource w c x) g.
Proof.
  intros (Hok & Hh & Hinv). unfold register_resource.
  destruct (mw_controls w !! c) as [k|] eqn:Hk; [|done].
  destruct (ac_cancelled k) eqn:Hc.
  - split_and!; try done. intros c' k' Hk' Hc'. simpl.
    eapply Forall_impl; [exact (Hok c' k' Hk' Hc')|]. set_solver.
  - assert (∀ c', control_is_cancelled w c' = true →
      control_is_cancelled (with_control c (mkControl false (ac_deadline k)
        (ac_camera_ready_deadline k) (ac_resources k ++ [x])) w) c' = true) as Hmono.
    { intros c'. unfold control_is_cancelled; simpl. destruct (decide (c' = c)) as [->|].
      - rewrite Hk. congruence.
      - by rewrite lookup_insert_ne. }
    split_and!.
    + intros c' k' Hk' Hc'. simpl in *. apply lookup_insert_Some in Hk' as [[_ <-]|[_ Hk']]; [done|].
      exact (Hok c' k' Hk' Hc').
    + eapply Forall_impl; [exact Hh|]. intros c' Hc'. simpl.
      destruct (decide (c' = c)) as [->|]; [rewrite lookup_insert_eq; by eexists|].
      by rewrite lookup_insert_ne.
    + simpl. destruct (terminal (mw_state w)); [|exact Hinv].
      destruct Hinv as (?&?&?&?&Hf). unfold dead_inv. split_and!; try done.
      eapply Forall_impl; [exact Hf|]. exact Hmono.
Qed.

Lemma check_deadline_inv w g c now : prompt_inv l w g → prompt_inv l (check_deadline w c now).1 g.
Proof.
  intros Hinv. unfold check_deadline. destruct (mw_controls w !! c); [|done]. simpl.
  destruct (_ <=? _); [by apply control_cancel_inv|done].
Qed.

Lemma is_terminated_inv w g : prompt_inv l w g → prompt_inv l (is_terminated w).1 g.
Proof.
  intros Hinv. unfold is_terminated. destruct (locked w _) as [w' r] eqn:Hop. simpl.
  eapply (locked_inv l w g g _ w' r (λ w' _, prompt_inv l w' g)); eauto.
  intros Ht Hok Hh Hlive. cbv beta. intros [= <- <-]. by apply prompt_live.
Qed.

End ops.
