(* ===== verification/PromptSystem.v ===== *)
(** * Prompt transactions as a transition system

    Every operation of the prompt manager and of its guards, interleaved in any
    order, with the guards the callers hold; the properties of all reachable
    states. *)

From S2P Require Import Prelude Bytes Storage Crypto Legacy Contracts Authorization Config PromptState PromptProofs PromptOps.

(** ** Steps *)

Definition set_begins (gs : list BeginReservation) (g : Guards) : Guards :=
  mkGuards gs (g_issues g) (g_claims g) (g_leases g).
Definition set_issues (gs : list (PendingIssue * PendingBinding)) (g : Guards) : Guards :=
  mkGuards (g_begins g) gs (g_claims g) (g_leases g).
Definition set_claims (gs : list CommitClaim) (g : Guards) : Guards :=
  mkGuards (g_begins g) (g_issues g) gs (g_leases g).
Definition set_leases (gs : list ActiveLease) (g : Guards) : Guards :=
  mkGuards (g_begins g) (g_issues g) (g_claims g) gs.

(** A successful operation hands its guard to the caller. *)
Definition push_begin (r : presult BeginReservation) (g : Guards) : Guards :=
  match r with Ok b => set_begins (b :: g_begins g) g | Err _ => g end.
Definition push_issue (r : presult PendingIssue) (b : PendingBinding) (g : Guards) : Guards :=
  match r with Ok i => set_issues ((i, b) :: g_issues g) g | Err _ => g end.
Definition push_claim (r : presult CommitClaim) (g : Guards) : Guards :=
  match r with Ok c => set_claims (c :: g_claims g) g | Err _ => g end.
Definition push_lease (r : presult ActiveLease) (g : Guards) : Guards :=
  match r with Ok c => set_leases (c :: g_leases g) g | Err _ => g end.

(** A thread panics while it holds the lock. *)
Definition poison {E} (w : ManagerWorld E) : ManagerWorld E :=
  mkManagerWorld (mw_state w) true (mw_controls w) (mw_signalled w) (mw_shut w).

Section system.
  Context `{Sha256Laws} {E : Type} `{RandomSource E} (l : ManagerLimits).
  Implicit Types (w : ManagerWorld E) (g : Guards).

Inductive prompt_step : ManagerWorld E * Guards → ManagerWorld E * Guards → Prop :=
| step_connect w g w' r : new_connection w = (w', r) → prompt_step (w, g) (w', g)
| step_reserve w g conn uid target w' r :
    reserve_begin l w conn uid target = (w', r) → prompt_step (w, g) (w', push_begin r g)
| step_issue w g b rest binding w' r :
    g_begins g ≡ₚ b :: rest → issue w b binding = (w', r) →
    prompt_step (w, g) (w', push_issue r binding (set_begins rest g))
| step_drop_begin w g b rest :
    g_begins g ≡ₚ b :: rest → prompt_step (w, g) (drop_begin w b, set_begins rest g)
| step_activate w g i b waker now w' r :
    (i, b) ∈ g_issues g → activate_with_waker l w i waker now = (w', r) →
    prompt_step (w, g) (w', g)
| step_commit w g i b rest token nonce uid tuid now w' r :
    g_issues g ≡ₚ (i, b) :: rest →
    issue_claim_commit l w i token nonce uid tuid now = (w', r) →
    prompt_step (w, g) (w', push_claim r (set_issues rest g))
| step_cancel w g i b rest token nonce uid tuid now w' r :
    g_issues g ≡ₚ (i, b) :: rest → issue_cancel w i token nonce uid tuid now = (w', r) →
    prompt_step (w, g) (w', set_issues rest g)
| step_drop_issue w g i b rest :
    g_issues g ≡ₚ (i, b) :: rest → prompt_step (w, g) (drop_issue w i, set_issues rest g)
| step_promote w g c rest binding now w' r :
    g_claims g ≡ₚ c :: rest → promote w c binding now = (w', r) →
    prompt_step (w, g) (w', push_lease r (set_claims rest g))
| step_drop_claim w g c rest :
    g_claims g ≡ₚ c :: rest → prompt_step (w, g) (drop_claim w c, set_claims rest g)
| step_drop_lease w g c rest :
    g_leases g ≡ₚ c :: rest → prompt_step (w, g) (drop_lease w c, set_leases rest g)
| step_cancel_control w g c : prompt_step (w, g) ((control_cancel w c).1, g)
| step_register w g c x : prompt_step (w, g) (register_resource w c x, g)
| step_deadline w g c now : prompt_step (w, g) ((check_deadline w c now).1, g)
| step_is_terminated w g : prompt_step (w, g) ((is_terminated w).1, g)
| step_shutdown w g : prompt_step (w, g) (shutdown w, g)
| step_poison w g : prompt_step (w, g) (poison w, g).

(** The states a manager made from a validated configuration can reach. *)
Definition prompt_reachable (w : ManagerWorld E) (g : Guards) : Prop :=
  ∃ entropy config active_timeout max_active w0,
    validate config = Ok () ∧ 0 < active_timeout ∧ in_u USIZE_MAX max_active ∧
    production entropy config active_timeout max_active = Ok (l, w0) ∧
    rtc prompt_step (w0, mkGuards [] [] [] []) (w, g).

(** ** The invariant holds *)

Definition guards_armed (g : Guards) : Prop :=
  Forall (λ x, is_Some (pi_lookup x.1)) (g_issues g) ∧
  Forall (λ c, is_Some (cc_active_id c)) (g_claims g) ∧
  Forall (λ c, is_Some (al_active_id c)) (g_leases g).

(** The guard an operation hands out is armed. *)
Lemma locked_Ok {A} w (body : ManagerWorld E → ManagerWorld E * presult A) w' a :
  locked w body = (w', Ok a) →
  mw_poisoned w = false ∧ terminal (mw_state w) = false ∧ body w = (w', Ok a).
Proof. unfold locked. destruct (mw_poisoned w), (terminal (mw_state w)); naive_solver. Qed.

Lemma issue_armed w b binding w' i : issue w b binding = (w', Ok i) → is_Some (pi_lookup i).
Proof.
  unfold issue. simpl. destruct (issue_reserved _ _ _) as [w1 r] eqn:Hop. intros [= _ ->].
  apply locked_Ok in Hop as (_ & _ & Hop). cbv beta zeta in Hop. repeat case_match; simplify_eq/=; eauto.
Qed.

Lemma claim_armed w i token nonce uid tuid now w' c :
  issue_claim_commit l w i token nonce uid tuid now = (w', Ok c) → is_Some (cc_active_id c).
Proof.
  unfold issue_claim_commit. destruct (pi_lookup i); [|done]. simpl.
  destruct (claim_commit _ _ _ _ _ _ _ _ _) as [w1 r] eqn:Hop. intros [= _ ->].
  apply locked_Ok in Hop as (_ & _ & Hop). cbv beta zeta in Hop. unfold admit_claim in Hop.
  repeat case_match; simplify_eq/=; eauto.
Qed.

Lemma promote_armed w c binding now w' a :
  promote w c binding now = (w', Ok a) → is_Some (al_active_id a).
Proof. unfold promote. intros. repeat case_match; simplify_eq/=; eauto. Qed.

Definition sys_ok (s : ManagerWorld E * Guards) : Prop := prompt_inv l s.1 s.2 ∧ guards_armed s.2.

Context (Hl : manager_limits_typed l).

Lemma take_begin w g b rest :
  prompt_inv l w g → g_begins g ≡ₚ b :: rest →
  prompt_inv l w (mkGuards (b :: rest) (g_issues g) (g_claims g) (g_leases g)).
Proof. intros ? Hp. eapply prompt_inv_perm; [|done]. by unfold guards_perm; split_and!. Qed.
Lemma take_issue w g x rest :
  prompt_inv l w g → g_issues g ≡ₚ x :: rest →
  prompt_inv l w (mkGuards (g_begins g) (x :: rest) (g_claims g) (g_leases g)).
Proof. intros ? Hp. eapply prompt_inv_perm; [|done]. by unfold guards_perm; split_and!. Qed.
Lemma take_claim w g c rest :
  prompt_inv l w g → g_claims g ≡ₚ c :: rest →
  prompt_inv l w (mkGuards (g_begins g) (g_issues g) (c :: rest) (g_leases g)).
Proof. intros ? Hp. eapply prompt_inv_perm; [|done]. by unfold guards_perm; split_and!. Qed.
Lemma take_lease w g c rest :
  prompt_inv l w g → g_leases g ≡ₚ c :: rest →
  prompt_inv l w (mkGuards (g_begins g) (g_issues g) (g_claims g) (c :: rest)).
Proof. intros ? Hp. eapply prompt_inv_perm; [|done]. by unfold guards_perm; split_and!. Qed.

Lemma step_inv s s' : prompt_step s s' → sys_ok s → prompt_inv l s'.1 s'.2.
Proof.
  intros Hstep [Hinv (Hi & Hc & He)].
  destruct Hstep as
    [w g w' r Hop|w g conn uid target w' r Hop|w g b rest binding w' r Hg Hop|w g b rest Hg
    |w g i b waker now w' r Hin Hop|w g i b rest token nonce uid tuid now w' r Hg Hop
    |w g i b rest token nonce uid tuid now w' r Hg Hop|w g i b rest Hg
    |w g c rest binding now w' r Hg Hop|w g c rest Hg|w g c rest Hg|w g c|w g c x|w g c now
    |w g|w g|w g]; simpl in *.
  - by eapply new_connection_inv.
  - apply (reserve_begin_inv l Hl w g) in Hop; [|done]. by destruct r.
  - apply (issue_inv l w (set_begins rest g)) in Hop; [|by apply (take_begin w g)]. by destruct r.
  - by apply (drop_begin_inv l w (set_begins rest g)), (take_begin w g).
  - by eapply activate_inv.
  - rewrite Hg, Forall_cons in Hi. destruct Hi as [Hi _].
    apply (claim_commit_inv l w (set_issues rest g) i b) in Hop; [|by apply (take_issue w g)|done].
    by destruct r.
  - rewrite Hg, Forall_cons in Hi. destruct Hi as [Hi _].
    by apply (cancel_pending_inv l w (set_issues rest g) i b) in Hop; [|apply (take_issue w g)|].
  - rewrite Hg, Forall_cons in Hi. destruct Hi as [Hi _].
    by apply (drop_issue_inv l w (set_issues rest g) i b); [apply (take_issue w g)|].
  - rewrite Hg, Forall_cons in Hc. destruct Hc as [Hc _].
    apply (promote_inv l Hl w (set_claims rest g)) in Hop; [|by apply (take_claim w g)|done].
    by destruct r.
  - rewrite Hg, Forall_cons in Hc. destruct Hc as [Hc _].
    by apply (drop_claim_inv l Hl w (set_claims rest g)); [apply (take_claim w g)|].
  - rewrite Hg, Forall_cons in He. destruct He as [He _].
    by apply (drop_lease_inv l Hl w (set_leases rest g)); [apply (take_lease w g)|].
  - by apply control_cancel_inv.
  - by apply register_resource_inv.
  - by apply check_deadline_inv.
  - by apply is_terminated_inv.
  - by apply fail_closed_inv.
  - exact Hinv.
Qed.

Lemma step_armed s s' : prompt_step s s' → guards_armed s.2 → guards_armed s'.2.
Proof.
  unfold guards_armed. intros Hstep (Hi & Hc & He).
  destruct Hstep as
    [ |w g conn uid target w' r Hop|w g b rest binding w' r Hg Hop| 
    | |w g i b rest token nonce uid tuid now w' r Hg Hop
    |w g i b rest token nonce uid tuid now w' r Hg Hop|w g i b rest Hg
    |w g c rest binding now w' r Hg Hop|w g c rest Hg|w g c rest Hg| | | | | | ];
    simpl in *; try done; try rewrite Hg, Forall_cons in *.
  - by destruct r.
  - destruct r as [i|]; [|done]. split_and!; try done. apply Forall_cons.
    split; [by eapply issue_armed|done].
  - destruct Hi as [_ Hi]. destruct r as [c|]; [|done]. split_and!; try done. apply Forall_cons.
    split; [by eapply claim_armed|done].
  - by destruct Hi as [_ Hi].
  - by destruct Hi as [_ Hi].
  - destruct Hc as [_ Hc]. destruct r as [a|]; [|done]. split_and!; try done. apply Forall_cons.
    split; [by eapply promote_armed|done].
  - by destruct Hc as [_ Hc].
  - by destruct He as [_ He].
Qed.

Lemma steps_ok s s' : rtc prompt_step s s' → sys_ok s → sys_ok s'.
Proof.
  induction 1 as [|s1 s2 s3 Hstep _ IH]; [done|]. intros Hok. apply IH.
  split; [by eapply step_inv|]. eapply step_armed; [done|apply Hok].
Qed.

End system.

(** ** Construction *)

Section construction.
  Context `{Sha256Laws} {E : Type} `{RandomSource E}.

Lemma production_inv (entropy : E) config active_timeout max_active l w :
  config_valid config → in_u USIZE_MAX max_active →
  production entropy config active_timeout max_active = Ok (l, w) →
  manager_limits_typed l ∧ sys_ok l (w, mkGuards [] [] [] []) ∧
  ml_max_pending_per_uid l = max_pending_per_uid (presence config) ∧
  ml_max_pending_global l = max_pending_global (presence config) ∧
  ml_max_active l = max_active.
Proof.
  intros (_ & _ & _ & _ & _ & _ & _ & Hp & _) Hma. unfold production, production_limits.
  destruct Hp as (_ & _ & _ & _ & _ & _ & Hu & Hg). unfold_max. intros Hprod. inv_ok.
  destruct Hprod. breflect. subst. unfold manager_new in Ha0.
  destruct (_ || _); [done|]. destruct (generate_nonzero entropy) as [e drawn]. inv_ok. subst w.
  split_and!; try done; try (unfold manager_limits_typed; simpl; unfold_max; lia).
  split; [|by unfold guards_armed; split_and!]. unfold prompt_inv. simpl. split_and!.
  - intros c k Hk. simpl in Hk. by rewrite lookup_empty in Hk.
  - apply Forall_nil_2.
  - unfold live_inv; simpl. split_and!; try apply ledger_empty; try done.
    + intros c k. rewrite lookup_empty. split; [done|]. intros (r & Hr & _).
      by rewrite lookup_empty in Hr.
    + unfold quotas_ok; simpl. rewrite !map_size_empty. split_and!; try (simpl; lia).
      intros uid. rewrite count_uid_sum. simpl. rewrite !map_sum_empty. lia.
Qed.

Lemma reachable_ok l (w : ManagerWorld E) g :
  prompt_reachable l w g → manager_limits_typed l ∧ sys_ok l (w, g).
Proof.
  intros (entropy & config & at_ & ma & w0 & Hv%validate_valid & _ & Hma & Hprod & Hsteps).
  destruct (production_inv _ _ _ _ _ _ Hv Hma Hprod) as (Hl & Hok & _).
  split; [done|]. by eapply steps_ok.
Qed.
Lemma reachable_run l (w : ManagerWorld E) g w' g' :
  prompt_reachable l w g → rtc (prompt_step l) (w, g) (w', g') → prompt_reachable l w' g'.
Proof.
  intros (e & config & at_ & ma & w0 & ? & ? & ? & ? & Hsteps) Hrun.
  exists e, config, at_, ma, w0. split_and!; try done. by etrans.
Qed.
End construction.

(** ** Controls only move forward *)

Section controls.
  Context `{Sha256Laws} {E : Type} `{RandomSource E} (l : ManagerLimits).
  Implicit Types (w : ManagerWorld E) (g : Guards).

(** Cancellation is permanent, deadlines are fixed, registered resources stay
    registered, signals stay given. *)
Definition control_le (k k' : ActiveControl) : Prop :=
  (ac_cancelled k = true → ac_cancelled k' = true) ∧ ac_deadline k' = ac_deadline k ∧
  ac_camera_ready_deadline k' = ac_camera_ready_deadline k ∧ ac_resources k ⊆ ac_resources k'.

Definition controls_le w w' : Prop :=
  (∀ c k, mw_controls w !! c = Some k → ∃ k', mw_controls w' !! c = Some k' ∧ control_le k k') ∧
  mw_signalled w ⊆ mw_signalled w'.

#[local] Instance control_le_preorder : PreOrder control_le.
Proof.
  split; [by intros k; split_and!|].
  intros k1 k2 k3 (?&?&?&?) (?&?&?&?). split_and!; [auto|congruence..|by etrans].
Qed.

#[export] Instance controls_le_preorder : PreOrder controls_le.
Proof.
  split.
  - intros w. split; [|done]. intros c k Hk. exists k. split; [done|reflexivity].
  - intros w1 w2 w3 [H12 S12] [H23 S23]. split; [|by etrans].
    intros c k (k2 & Hk2 & ?)%H12. apply H23 in Hk2 as (k3 & ? & ?). exists k3.
    split; [done|]. by etrans.
Qed.

Lemma controls_le_same w w' :
  mw_controls w' = mw_controls w → mw_signalled w' = mw_signalled w → controls_le w w'.
Proof.
  intros Hc Hs. split; [|by rewrite Hs]. intros c k Hk. exists k. rewrite Hc.
  split; [done|reflexivity].
Qed.

Lemma controls_le_insert w w' c k :
  mw_controls w' = <[c := k]> (mw_controls w) → mw_signalled w ⊆ mw_signalled w' →
  (∀ k0, mw_controls w !! c = Some k0 → control_le k0 k) → controls_le w w'.
Proof.
  intros Hc Hs Hk. split; [|done]. intros c' k' Hk'. rewrite Hc.
  destruct (decide (c' = c)) as [->|Hne].
  - exists k. rewrite lookup_insert_eq. auto.
  - exists k'. rewrite lookup_insert_ne by done. split; [done|reflexivity].
Qed.

Lemma control_cancel_le w c : controls_le w (control_cancel w c).1.
Proof.
  unfold control_cancel. destruct (mw_controls w !! c) as [k|] eqn:Hk; [|reflexivity].
  eapply controls_le_insert; [done|simpl; set_solver|]. intros k0 [= <-]%(eq_trans (eq_sym Hk)).
  by split_and!.
Qed.

Lemma fail_closed_le w : controls_le w (fail_closed w).
Proof.
  unfold fail_closed, cancel_all.
  match goal with |- controls_le _ (foldl _ ?w0 ?cs) =>
    transitivity w0; [by apply controls_le_same|]; generalize w0; generalize cs end.
  intros cs. induction cs as [|c cs IH]; intros w0; [reflexivity|]. simpl.
  etrans; [apply control_cancel_le|apply IH].
Qed.

Lemma locked_le {A} w (body : ManagerWorld E → ManagerWorld E * presult A) :
  controls_le w (body w).1 → controls_le w (locked w body).1.
Proof.
  intros Hb. unfold locked. destruct (mw_poisoned w); [apply fail_closed_le|].
  by destruct (terminal (mw_state w)).
Qed.

Lemma locked_unit_le w body : controls_le w (locked_unit w body).
Proof. apply locked_le. by apply controls_le_same. Qed.

(** An operation that leaves the controls alone once it holds the lock. *)
Lemma locked_le' {A} w (body : ManagerWorld E → ManagerWorld E * presult A) w' r :
  locked w body = (w', r) →
  (∀ w1 r1, body w = (w1, r1) → mw_controls w1 = mw_controls w ∧ mw_signalled w1 = mw_signalled w) →
  controls_le w w'.
Proof.
  intros Hl Hb. change w' with (w', r).1. rewrite <- Hl. apply locked_le.
  destruct (body w) as [w1 r1] eqn:Hbody. destruct (Hb _ _ eq_refl) as [??].
  by apply controls_le_same.
Qed.

Ltac same_controls :=
  intros ? ?; cbv beta zeta; repeat case_match; intros [= <- <-]; done.

Lemma claim_commit_le w conn lk token nonce uid tuid now w' r :
  claim_commit l w conn lk token nonce uid tuid now = (w', r) → controls_le w w'.
Proof.
  intros Hop. change w' with (w', r).1. rewrite <- Hop. unfold claim_commit. apply locked_le.
  cbv beta zeta. unfold admit_claim. repeat case_match; try by apply controls_le_same.
  simpl. eapply controls_le_insert; [done|done|]. intros k0 Hk0. exfalso.
  apply (is_fresh (dom (mw_controls w))). by eapply elem_of_dom_2.
Qed.

Lemma promote_claim_le w id c binding now w' r :
  promote_claim w id c binding now = (w', r) → controls_le w w'.
Proof.
  intros Hop. change w' with (w', r).1. rewrite <- Hop. unfold promote_claim. apply locked_le.
  cbv beta zeta. repeat case_match; try by apply controls_le_same.
  simpl. etrans; [|apply control_cancel_le]. by apply controls_le_same.
Qed.

Lemma drop_claim_le w c : controls_le w (drop_claim w c).
Proof.
  unfold drop_claim, release_active. destruct (cc_active_id c); [|reflexivity].
  etrans; [apply control_cancel_le|apply locked_unit_le].
Qed.

Lemma promote_le w c binding now w' r : promote w c binding now = (w', r) → controls_le w w'.
Proof.
  unfold promote. destruct (cc_active_id c) as [id|]; [|intros [= <- _]; apply drop_claim_le].
  destruct (promote_claim w id c binding now) as [w1 [u|e]] eqn:Hop; apply promote_claim_le in Hop;
    intros [= <- _]; (etrans; [exact Hop|]); [done|apply drop_claim_le].
Qed.

Lemma drop_lease_le w c : controls_le w (drop_lease w c).
Proof.
  unfold drop_lease, release_active.
  destruct (al_active_id c); (etrans; [apply control_cancel_le|]); [apply locked_unit_le|done].
Qed.

Lemma register_resource_le w c x : controls_le w (register_resource w c x).
Proof.
  unfold register_resource. destruct (mw_controls w !! c) as [k|] eqn:Hk; [|reflexivity].
  destruct (ac_cancelled k) eqn:Hc.
  - split; [|simpl; set_solver]. intros c' k' Hk'. exists k'. split; [done|reflexivity].
  - eapply controls_le_insert; [done|done|]. intros k0 [= <-]%(eq_trans (eq_sym Hk)).
    split_and!; simpl; try done; [congruence|set_solver].
Qed.

Lemma step_controls_le s s' : prompt_step l s s' → controls_le s.1 s'.1.
Proof.
  destruct 1 as
    [w g w' r Hop|w g conn uid target w' r Hop|w g b rest binding w' r Hg Hop|w g b rest Hg
    |w g i b waker now w' r Hin Hop|w g i b rest token nonce uid tuid now w' r Hg Hop
    |w g i b rest token nonce uid tuid now w' r Hg Hop|w g i b rest Hg
    |w g c rest binding now w' r Hg Hop|w g c rest Hg|w g c rest Hg|w g c|w g c x|w g c now
    |w g|w g|w g]; simpl.
  - eapply locked_le'; [exact Hop|]. same_controls.
  - eapply locked_le'; [exact Hop|]. same_controls.
  - revert Hop. unfold issue. simpl. destruct (issue_reserved _ _ _) as [w1 r1] eqn:Hop.
    intros [= <- <-]. eapply locked_le'; [exact Hop|]. same_controls.
  - unfold drop_begin. destruct (br_armed b); [apply locked_unit_le|reflexivity].
  - revert Hop. unfold activate_with_waker, activate_pending.
    destruct (pi_lookup i); [|by intros [= <- _]].
    destruct (instant_checked_add _ _); [|by intros [= <- _]].
    intros Hop. eapply locked_le'; [exact Hop|]. same_controls.
  - revert Hop. unfold issue_claim_commit. destruct (pi_lookup i); [|by intros [= <- _]]. simpl.
    destruct (claim_commit _ _ _ _ _ _ _ _ _) as [w1 r1] eqn:Hop. intros [= <- <-].
    by eapply claim_commit_le.
  - revert Hop. unfold issue_cancel. destruct (pi_lookup i); [|by intros [= <- _]]. simpl.
    destruct (cancel_pending _ _ _ _ _ _ _ _) as [w1 r1] eqn:Hop. intros [= <- <-].
    eapply locked_le'; [exact Hop|]. same_controls.
  - unfold drop_issue. destruct (pi_lookup i); [apply locked_unit_le|reflexivity].
  - by eapply promote_le.
  - apply drop_claim_le.
  - apply drop_lease_le.
  - apply control_cancel_le.
  - apply register_resource_le.
  - unfold check_deadline. destruct (mw_controls w !! c); [|reflexivity]. simpl.
    destruct (_ <=? _); [apply control_cancel_le|reflexivity].
  - unfold is_terminated. destruct (locked w _) as [w' r] eqn:Hop. simpl.
    eapply locked_le'; [exact Hop|]. same_controls.
  - apply fail_closed_le.
  - by apply controls_le_same.
Qed.

Lemma steps_controls_le s s' : rtc (prompt_step l) s s' → controls_le s.1 s'.1.
Proof.
  induction 1 as [|s1 s2 s3 Hstep _ IH]; [reflexivity|].
  etrans; [by apply step_controls_le|exact IH].
Qed.
End controls.
