(* ===== verification/PromptTheorems.v ===== *)
(** * Prompt transactions: the properties

    Stated over every state a manager made from a validated configuration reaches
    by any interleaving of operations. *)

From S2P Require Import Prelude Bytes Storage Crypto Legacy Contracts Authorization Config PromptState PromptProofs PromptOps PromptSystem.

(** ** Commit *)

(** Two byte strings under one keyed digest: equal, or a SHA-256 collision. *)
Definition agrees `{Sha256} (secret domain x y : bytes) : Prop :=
  x = y ∨ collision (keyed_preimage secret domain x) (keyed_preimage secret domain y).

(** A Rust [[u8; 32]]. *)
Definition array32 (b : bytes) : Prop := length b = 32%nat.

Lemma array32_slice b : array32 b → slice b.
Proof. intros Hb. apply slice_short. rewrite Hb. lia. Qed.

Section commit.
  Context `{Sha256Laws} {E : Type} `{RandomSource E} (l : ManagerLimits).
  Implicit Types (w : ManagerWorld E) (g : Guards).

Lemma digest_agrees secret domain x y :
  array32 secret → slice domain → array32 x → array32 y →
  constant_time_eq (keyed_digest secret domain x) (keyed_digest secret domain y) = true →
  agrees secret domain x y.
Proof.
  intros Hs Hd Hx Hy Heq. apply constant_time_eq_true in Heq.
  - apply keyed_digest_binds; auto using array32_slice.
  - unfold keyed_digest. by rewrite !sha256_length.
Qed.

(** A held transaction of a live manager. *)
Lemma held_live w g i b lk :
  sys_ok l (w, g) → (i, b) ∈ g_issues g → pi_lookup i = Some lk →
  terminal (mw_state w) = true ∨
  ∃ rest, live_inv l w (mkGuards (g_begins g) ((i, b) :: rest) (g_claims g) (g_leases g)).
Proof.
  intros [Hinv _] Hin Hlk. simpl in *. destruct (terminal (mw_state w)) eqn:Ht; [by left|right].
  apply elem_of_Permutation in Hin as [rest Hp]. exists rest.
  apply (take_issue l _ _ _ _ Hinv) in Hp as (_ & _ & Hlive). by rewrite Ht in Hlive.
Qed.

(** Taking a transaction spends it, whatever the answer. *)
Lemma claim_commit_spends w g i b lk token nonce uid tuid now w' r :
  sys_ok l (w, g) → (i, b) ∈ g_issues g → pi_lookup i = Some lk →
  claim_commit l w (pi_connection_binding i) lk token nonce uid tuid now = (w', r) →
  pending (mw_state w') !! lk = None.
Proof.
  intros Hok Hin Hlk. unfold claim_commit, locked. destruct (mw_poisoned w).
  { intros [= <- _]. destruct (fail_closed_state w) as (_ & _ & -> & _). apply lookup_empty. }
  destruct (terminal (mw_state w)) eqn:Ht.
  { intros [= <- _]. destruct Hok as [(_ & _ & Hd) _]. simpl in Hd. rewrite Ht in Hd.
    destruct Hd as (_ & -> & _). apply lookup_empty. }
  destruct (held_live w g i b lk Hok Hin Hlk) as [?|[rest Hlive]]; [congruence|].
  destruct (take_pending _ _ _ _) as [st' r1] eqn:Htake.
  apply (take_pending_inv l w (set_issues rest g) i b) in Htake as (_ & _ & _ & Hgone & _); [|done..].
  cbv beta zeta. unfold admit_claim. repeat case_match; intros [= <- _]; done.
Qed.

Lemma admit_claim_Ok w rec lk now w' c :
  admit_claim l w rec lk now = (w', Ok c) →
  cc_peer_uid c = pr_peer_uid rec ∧ cc_target c = pr_target rec ∧
  cc_pam_service c = pr_pam_service rec ∧ cc_origin c = pr_origin rec ∧
  cc_snapshot c = pr_snapshot rec ∧
  ∃ control, mw_controls w' !! cc_control c = Some control ∧ ac_cancelled control = false ∧
    ac_deadline control = now + ml_active_timeout l ∧
    ac_camera_ready_deadline control
      = Z.min (now + ml_commit_to_camera_timeout l) (now + ml_active_timeout l).
Proof.
  unfold admit_claim, instant_checked_add. intros Hop. repeat case_match; simplify_eq/=.
  split_and!; try done. rewrite lookup_insert_eq. eexists. by split_and!.
Qed.

Lemma claim_commit_Ok w g i b lk token nonce uid tuid now w' c :
  sys_ok l (w, g) → (i, b) ∈ g_issues g → pi_lookup i = Some lk →
  array32 (instance_secret (mw_state w)) → array32 token → array32 (pi_token i) →
  array32 nonce → array32 (pb_client_nonce b) →
  claim_commit l w (pi_connection_binding i) lk token nonce uid tuid now = (w', Ok c) →
  ∃ rec, pending (mw_state w) !! lk = Some rec ∧ unexpired rec now = true ∧
    agrees (instance_secret (mw_state w)) (bs "token-lookup-v2") token (pi_token i) ∧
    agrees (instance_secret (mw_state w)) (bs "nonce-v2") (pb_client_nonce b) nonce ∧
    uid = pb_peer_uid b ∧ tuid = identity_uid (pb_target b) ∧
    record_core rec = binding_core (instance_secret (mw_state w)) b ∧
    ∃ w1, admit_claim l w1 rec lk now = (w', Ok c).
Proof.
  intros Hok Hin Hlk Hs Ht32 Hi32 Hn32 Hb32. intros (_ & Hterm & Hop)%locked_Ok.
  destruct (held_live w g i b lk Hok Hin Hlk) as [?|[rest Hlive]]; [congruence|].
  cbv beta zeta in Hop. destruct (take_pending _ _ _ _) as [st' [rec|]] eqn:Htake; [|done].
  pose proof Hlive as Hlive'. rewrite <- (with_own_state w) in Hlive'.
  destruct (live_drop_pending l w (set_issues rest g) _ _ _ _ Hlive' Hlk)
    as (rec' & _ & _ & Hlkeq & _).
  apply (take_pending_inv l w (set_issues rest g) i b) in Htake
    as (_ & _ & Hsec & _ & Hrec); [|done..].
  destruct (Hrec rec eq_refl) as (Hr & Hcore & Htok). rewrite Hsec in Hop.
  destruct (_ || _) eqn:Hc; [done|]. breflect. exists rec.
  pose proof Hcore as Hcore'. injection Hcore' as Hu Ht Hn _ _ _. split_and!; try done.
  - apply digest_agrees; auto with howy. by rewrite <- Hlkeq.
  - apply digest_agrees; auto with howy. by rewrite <- Hn.
  - congruence.
  - congruence.
  - eauto.
Qed.
End commit.

(** ** Promotion *)

Section promotion.
  Context `{Sha256Laws} {E : Type} `{RandomSource E} (l : ManagerLimits).
  Implicit Types (w : ManagerWorld E) (g : Guards).

Lemma cancelled_le w w' c :
  controls_le w w' → control_is_cancelled w c = true → control_is_cancelled w' c = true.
Proof.
  unfold control_is_cancelled. intros [Hle _] Hc.
  destruct (mw_controls w !! c) as [k|] eqn:Hk; [|done].
  apply Hle in Hk as (k' & -> & Hk' & _). auto.
Qed.

Lemma claim_matches_true c b :
  snapshot_typed (cc_snapshot c) → snapshot_typed (cb_snapshot b) →
  claim_matches c b = true ↔
  cc_peer_uid c = cb_peer_uid b ∧ cc_target c = cb_target b ∧
  cc_pam_service c = cb_pam_service b ∧ cc_origin c = cb_origin b ∧
  cc_snapshot c = cb_snapshot b.
Proof.
  intros. unfold claim_matches. rewrite !andb_true_iff, !bool_decide_eq_true, Z.eqb_eq.
  rewrite snapshot_constant_time_eq_true by done. tauto.
Qed.

(** Only a claim the manager still holds as a claim is promoted. *)
Lemma promote_claim_Ok w id c b now w' u :
  promote_claim w id c b now = (w', Ok u) →
  live_claim w id now = true ∧ claim_matches c b = true ∧ mw_controls w' = mw_controls w ∧
  terminal (mw_state w) = false ∧ mw_poisoned w = false.
Proof.
  intros (Hp & Ht & Hop)%locked_Ok. cbv beta zeta in Hop.
  destruct (live_claim w id now), (claim_matches c b); simpl in Hop; repeat case_match; simplify_eq/=; done.
Qed.

Lemma promote_refused w c b now w' e :
  is_Some (mw_controls w !! cc_control c) → is_Some (cc_active_id c) →
  promote w c b now = (w', Err e) → control_is_cancelled w' (cc_control c) = true.
Proof.
  intros Hc [id Hid]. unfold promote. rewrite Hid.
  destruct (promote_claim w id c b now) as [w1 [u|e1]] eqn:Hop; [done|]. intros [= <- _].
  apply promote_claim_le in Hop. unfold drop_claim, release_active. rewrite Hid.
  eapply cancelled_le; [apply locked_unit_le|]. apply control_cancel_spec.
  destruct Hc as [k Hk]. apply Hop in Hk as (k' & ? & _). eauto.
Qed.

Lemma live_claim_control w g c id now :
  sys_ok l (w, g) → c ∈ g_claims g → cc_active_id c = Some id → live_claim w id now = true →
  terminal (mw_state w) = false →
  ∃ control, mw_controls w !! cc_control c = Some control ∧ ac_cancelled control = false ∧
    now < ac_deadline control.
Proof.
  intros [(_ & _ & Hlive) _] Hin Hid. simpl in Hlive. unfold live_claim.
  intros Hlc Hterm. rewrite Hterm in Hlive.
  destruct Hlive as (_ & _ & _ & _ & Hown & _).
  assert ((cc_active_id c, (PhaseClaim, cc_control c)) ∈ holders g) as Hh.
  { unfold holders. apply elem_of_app. left. apply list_elem_of_fmap. by exists c. }
  destruct (ledger_elem _ _ _ _ _ Hown Hh) as (k & r & Hr & Heq). cbn in Heq.
  rewrite Hid in Heq. injection Heq as <- _ Hct. rewrite Hr in Hlc. rewrite <- Hct in Hlc.
  destruct (mw_controls w !! cc_control c) as [control|]; [|by rewrite andb_false_r in Hlc].
  exists control. breflect. done.
Qed.

Lemma promote_Ok w g c b now w' lease :
  sys_ok l (w, g) → c ∈ g_claims g → promote w c b now = (w', Ok lease) →
  al_active_id lease = cc_active_id c ∧ al_control lease = cc_control c ∧
  claim_matches c b = true ∧
  ∃ control, mw_controls w' !! cc_control c = Some control ∧
    ac_cancelled control = false ∧ now < ac_deadline control.
Proof.
  intros Hok Hin Hop. pose proof Hok as [_ (_ & Harm & _)]. simpl in *.
  rewrite Forall_forall in Harm. destruct (Harm c Hin) as [id Hid].
  unfold promote in Hop. rewrite Hid in Hop.
  destruct (promote_claim w id c b now) as [w1 [u|]] eqn:Hpc; [|done]. injection Hop as <- <-.
  apply promote_claim_Ok in Hpc as (Hlc & Hm & Hcs & Hterm & _).
  destruct (live_claim_control w g c id now) as (control & ? & ? & ?); try done.
  split_and!; try done. exists control. unfold drop_claim; simpl. by rewrite Hcs.
Qed.
End promotion.

(** ** Terminal managers *)

Section terminal.
  Context `{Sha256Laws} {E : Type} `{RandomSource E} (l : ManagerLimits).
  Implicit Types (w : ManagerWorld E) (g : Guards).

Lemma locked_dead {A} w (body : ManagerWorld E → ManagerWorld E * presult A) :
  terminal (mw_state w) = true →
  ∃ w', locked w body = (w', Err PromptUnavailable) ∧ terminal (mw_state w') = true.
Proof.
  intros Ht. unfold locked. rewrite Ht. destruct (mw_poisoned w); [|eauto].
  eexists. split; [done|]. apply fail_closed_state.
Qed.

Lemma locked_dead_eq {A} w (body : ManagerWorld E → ManagerWorld E * presult A) w' r :
  terminal (mw_state w) = true → locked w body = (w', r) →
  r = Err PromptUnavailable ∧ terminal (mw_state w') = true.
Proof. intros Ht Hop. destruct (locked_dead w body Ht) as (w1 & Hl & Ht1). rewrite Hl in Hop. by injection Hop as <- <-. Qed.

Lemma locked_unit_dead w body :
  terminal (mw_state w) = true → terminal (mw_state (locked_unit w body)) = true.
Proof.
  intros Ht. unfold locked_unit.
  by destruct (locked_dead w (λ w, (with_state (body (mw_state w)) w, Ok ())) Ht) as (w' & -> & ?).
Qed.

Lemma cancel_state w c : mw_state (control_cancel w c).1 = mw_state w.
Proof. apply control_cancel_spec. Qed.

Lemma drop_claim_dead w c :
  terminal (mw_state w) = true → terminal (mw_state (drop_claim w c)) = true.
Proof.
  intros Ht. unfold drop_claim. destruct (cc_active_id c); [|done].
  apply locked_unit_dead. by rewrite cancel_state.
Qed.

(** What one set of guards keeps of another. *)
Definition fewer (g g' : Guards) : Prop :=
  g_begins g' ⊆ g_begins g ∧ g_issues g' ⊆ g_issues g ∧ g_claims g' ⊆ g_claims g ∧
  g_leases g' ⊆ g_leases g.

#[local] Instance fewer_preorder : PreOrder fewer.
Proof.
  split; [by intros g; split_and!|]. intros g1 g2 g3 (?&?&?&?) (?&?&?&?).
  split_and!; by etrans.
Qed.

Lemma perm_fewer {A} (x : A) l1 l2 : l1 ≡ₚ x :: l2 → l2 ⊆ l1.
Proof. intros ->. set_solver. Qed.

Lemma promote_dead w c b now w' r :
  terminal (mw_state w) = true → promote w c b now = (w', r) →
  terminal (mw_state w') = true ∧ is_ok r = false.
Proof.
  intros Ht. unfold promote. destruct (cc_active_id c) as [id|].
  2: { intros [= <- <-]. split; [by apply drop_claim_dead|done]. }
  destruct (promote_claim w id c b now) as [w1 r1] eqn:Hop.
  apply locked_dead_eq in Hop as [-> Ht1]; [|done]. intros [= <- <-].
  split; [by apply drop_claim_dead|done].
Qed.

Lemma step_dead s s' :
  prompt_step l s s' → terminal (mw_state s.1) = true →
  terminal (mw_state s'.1) = true ∧ fewer s.2 s'.2.
Proof.
  intros Hstep Ht. destruct Hstep as
    [w g w' r Hop|w g conn uid target w' r Hop|w g b rest binding w' r Hg Hop|w g b rest Hg
    |w g i b waker now w' r Hin Hop|w g i b rest token nonce uid tuid now w' r Hg Hop
    |w g i b rest token nonce uid tuid now w' r Hg Hop|w g i b rest Hg
    |w g c rest binding now w' r Hg Hop|w g c rest Hg|w g c rest Hg|w g c|w g c x|w g c now
    |w g|w g|w g]; simpl in *.
  - apply locked_dead_eq in Hop as [_ ?]; done.
  - apply locked_dead_eq in Hop as [-> ?]; done.
  - revert Hop. unfold issue. simpl. destruct (issue_reserved _ _ _) as [w1 r1] eqn:Hop.
    apply locked_dead_eq in Hop as [-> ?]; [|done]. intros [= <- <-]. split; [done|].
    by split_and!; try by eapply perm_fewer.
  - split; [|by split_and!; try by eapply perm_fewer]. unfold drop_begin, release_provisional.
    destruct (br_armed b); [by apply locked_unit_dead|done].
  - split; [|done]. revert Hop. unfold activate_with_waker, activate_pending.
    destruct (pi_lookup i); [|by intros [= <- _]].
    destruct (instant_checked_add _ _); [|by intros [= <- _]].
    intros [_ ?]%locked_dead_eq; done.
  - assert (terminal (mw_state w') = true ∧ is_ok r = false) as [? Hr].
    { revert Hop. unfold issue_claim_commit. destruct (pi_lookup i); [|by intros [= <- <-]]. simpl.
      destruct (claim_commit _ _ _ _ _ _ _ _ _) as [w1 r1] eqn:Hop.
      apply locked_dead_eq in Hop as [-> ?]; [|done]. by intros [= <- <-]. }
    destruct r; [done|]. split; [done|]. by split_and!; try by eapply perm_fewer.
  - split; [|by split_and!; try by eapply perm_fewer].
    revert Hop. unfold issue_cancel. destruct (pi_lookup i); [|by intros [= <- <-]]. simpl.
    destruct (cancel_pending _ _ _ _ _ _ _ _) as [w1 r1] eqn:Hop.
    apply locked_dead_eq in Hop as [_ ?]; [|done]. by intros [= <- _].
  - split; [|by split_and!; try by eapply perm_fewer]. unfold drop_issue, release_pending.
    destruct (pi_lookup i); [by apply locked_unit_dead|done].
  - apply promote_dead in Hop as [? Hr]; [|done]. destruct r; [done|]. split; [done|].
    by split_and!; try by eapply perm_fewer.
  - split; [by apply drop_claim_dead|]. by split_and!; try by eapply perm_fewer.
  - split; [|by split_and!; try by eapply perm_fewer]. unfold drop_lease, release_active.
    destruct (al_active_id c); [apply locked_unit_dead|]; by rewrite cancel_state.
  - by rewrite cancel_state.
  - split; [|done]. unfold register_resource. by repeat case_match.
  - split; [|done]. unfold check_deadline. destruct (mw_controls w !! c); [|done]. simpl.
    destruct (_ <=? _); [by rewrite cancel_state|done].
  - split; [|done]. unfold is_terminated. destruct (locked w _) as [w' r] eqn:Hop.
    by apply locked_dead_eq in Hop as [_ ?].
  - split; [|done]. apply fail_closed_state.
  - done.
Qed.

Lemma steps_dead s s' :
  rtc (prompt_step l) s s' → terminal (mw_state s.1) = true →
  terminal (mw_state s'.1) = true ∧ fewer s.2 s'.2.
Proof.
  induction 1 as [|s1 s2 s3 Hstep _ IH]; [done|]. intros Ht.
  destruct (step_dead _ _ Hstep Ht) as [Ht2 Hf2]. destruct (IH Ht2) as [Ht3 Hf3].
  split; [done|]. by etrans.
Qed.

Lemma cancel_all_shut cs w : mw_shut (cancel_all w cs) = mw_shut w.
Proof.
  unfold cancel_all. revert w. induction cs as [|c cs IH]; intros w; [done|]. simpl. rewrite IH.
  unfold control_cancel. by destruct (mw_controls w !! c).
Qed.

Lemma shutdown_wakes w lk rec waker :
  pending (mw_state w) !! lk = Some rec → pr_shutdown_waker rec = Some waker →
  waker ∈ mw_shut (shutdown w).
Proof.
  intros Hr Hw. unfold shutdown, fail_closed. rewrite cancel_all_shut. simpl.
  apply elem_of_union_r, elem_of_list_to_set, list_elem_of_omap. exists rec. split; [|done].
  apply list_elem_of_fmap. exists (lk, rec). split; [done|]. by apply elem_of_map_to_list.
Qed.
End terminal.

(** ** Properties *)

Section properties.
  Context `{Sha256Laws} {E : Type} `{RandomSource E}.
  Implicit Types (w : ManagerWorld E) (g : Guards) (l : ManagerLimits).

Lemma reachable_limits l w g :
  prompt_reachable l w g →
  1 ≤ ml_max_pending_per_uid l ≤ 16 ∧
  ml_max_pending_per_uid l ≤ ml_max_pending_global l ≤ 1024 ∧ 0 ≤ ml_max_active l.
Proof.
  intros (entropy & config & at_ & ma & w0 & Hv%validate_valid & _ & Hma & Hprod & _).
  destruct (production_inv _ _ _ _ _ _ Hv Hma Hprod) as (_ & _ & -> & -> & ->).
  destruct Hv as (_ & _ & _ & _ & _ & _ & _ & Hp & _).
  destruct Hp as (_ & _ & _ & _ & _ & _ & Hu & Hg). destruct Hma as [Hma _]. lia.
Qed.

(** C34: in every reachable state the reservations and pending transactions together
    stay within the configured global quota (itself at most 1024), those of any one
    peer within the per-peer quota (1 to 16), the sessions within the active limit,
    and no connection has both a reservation and a transaction. *)
Theorem prompt_quotas_hold l w g :
  prompt_reachable l w g →
  let st := mw_state w in
  Z.of_nat (size (provisional st)) + Z.of_nat (size (pending st)) ≤ ml_max_pending_global l ∧
  (∀ uid, count_uid st uid ≤ ml_max_pending_per_uid l) ∧
  Z.of_nat (size (active st)) ≤ ml_max_active l ∧
  1 ≤ ml_max_pending_per_uid l ≤ 16 ∧ ml_max_pending_global l ≤ 1024 ∧
  (∀ c, is_Some (provisional st !! c) → pending_by_connection st !! c = None).
Proof.
  intros Hr. destruct (reachable_ok l w g Hr) as [_ [(_ & _ & Hinv) _]]. simpl in *.
  pose proof (reachable_limits l w g Hr). destruct (terminal (mw_state w)).
  - destruct Hinv as (Hp & Hq & Hi & Ha & _). setoid_rewrite count_uid_sum.
    rewrite Hp, Hq, Hi, Ha, !map_size_empty. setoid_rewrite map_sum_empty.
    split_and!; intros; simpl; try lia. apply lookup_empty.
  - destruct Hinv as (_ & _ & _ & Hd & _ & _ & Hg & Hu & Hm). split_and!; try done; lia.
Qed.

(** No capacity leaks. While the manager is live, the reservation, transaction
    and session maps have exactly one entry per guard a caller still holds, so that
    dropping the guards frees the quota; once it is terminal the maps are empty and
    the control of every claim or lease still held is cancelled. *)
Theorem prompt_guards_account l w g :
  prompt_reachable l w g →
  let st := mw_state w in
  if terminal st then
    provisional st = ∅ ∧ pending st = ∅ ∧ pending_by_connection st = ∅ ∧ active st = ∅ ∧
    Forall (λ c, control_is_cancelled w c = true) (held g)
  else
    size (provisional st) = length (g_begins g) ∧ size (pending st) = length (g_issues g) ∧
    size (active st) = (length (g_claims g) + length (g_leases g))%nat.
Proof.
  intros Hr. destruct (reachable_ok l w g Hr) as [_ [(_ & _ & Hinv) _]]. simpl in *.
  destruct (terminal (mw_state w)); [exact Hinv|].
  destruct Hinv as (Hb & Hi & _ & _ & Ha & _).
  rewrite <- (ledger_length _ _ _ _ Hb), <- (ledger_length _ _ _ _ Hi).
  rewrite <- (ledger_length _ _ _ _ Ha). unfold holders.
  by rewrite length_app, !length_fmap.
Qed.

(** C1: a commit is accepted only for the held transaction, with its own token and
    its own client nonce (or a SHA-256 collision), by the peer and for the target it
    was issued to, after it was activated and strictly before it expires; the claim
    carries the binding's identity, service, origin and snapshot and a live control
    whose deadlines count from the commit. Accepted or not, the attempt spends the
    token. *)
Theorem commit_requires_binding l w g i b lk token nonce uid tuid now w' r :
  prompt_reachable l w g → (i, b) ∈ g_issues g → pi_lookup i = Some lk →
  array32 (instance_secret (mw_state w)) → array32 token → array32 (pi_token i) →
  array32 nonce → array32 (pb_client_nonce b) →
  issue_claim_commit l w i token nonce uid tuid now = (w', r) →
  pending (mw_state w') !! lk = None ∧
  ∀ c, r = Ok c →
    agrees (instance_secret (mw_state w)) (bs "token-lookup-v2") token (pi_token i) ∧
    agrees (instance_secret (mw_state w)) (bs "nonce-v2") (pb_client_nonce b) nonce ∧
    uid = pb_peer_uid b ∧ tuid = identity_uid (pb_target b) ∧
    (∃ rec expiry, pending (mw_state w) !! lk = Some rec ∧ pr_expires_at rec = Some expiry ∧
       now < expiry) ∧
    cc_peer_uid c = pb_peer_uid b ∧ cc_target c = pb_target b ∧
    cc_pam_service c = pb_pam_service b ∧ cc_origin c = pb_origin b ∧
    cc_snapshot c = pb_snapshot b ∧
    ∃ control, mw_controls w' !! cc_control c = Some control ∧ ac_cancelled control = false ∧
      ac_deadline control = now + ml_active_timeout l ∧
      ac_camera_ready_deadline control
        = Z.min (now + ml_commit_to_camera_timeout l) (now + ml_active_timeout l).
Proof.
  intros [_ Hok]%reachable_ok Hin Hlk Hs Ht Hi Hn Hb. unfold issue_claim_commit. rewrite Hlk. simpl.
  destruct (claim_commit _ _ _ _ _ _ _ _ _) as [w1 r1] eqn:Hop. intros [= <- <-].
  split; [by eapply claim_commit_spends|]. intros c ->.
  destruct (claim_commit_Ok l w g i b lk token nonce uid tuid now w1 c)
    as (rec & Hrec & Hexp & Htok & Hnon & Hu & Htu & Hcore & w2 & Hadm); [done..|].
  apply admit_claim_Ok in Hadm as (H1' & H2' & H3' & H4' & H5' & Hctl).
  injection Hcore as Hc1 Hc2 Hc3 Hc4 Hc5 Hc6. split_and!; try done; try congruence.
  unfold unexpired in Hexp. destruct (pr_expires_at rec) as [expiry|] eqn:He; [|done].
  exists rec, expiry. by apply Z.ltb_lt in Hexp.
Qed.

(** A claim becomes an active session only while its control is uncancelled and
    before its deadline, and only when peer, target, PAM service, origin and the
    whole security snapshot presented at promotion equal those the claim carries;
    a refused promotion leaves the control cancelled. *)
Theorem promotion_requires_binding l w g c b now w' r :
  prompt_reachable l w g → c ∈ g_claims g →
  snapshot_typed (cc_snapshot c) → snapshot_typed (cb_snapshot b) →
  promote w c b now = (w', r) →
  match r with
  | Ok lease =>
      al_active_id lease = cc_active_id c ∧ al_control lease = cc_control c ∧
      cb_peer_uid b = cc_peer_uid c ∧ cb_target b = cc_target c ∧
      cb_pam_service b = cc_pam_service c ∧ cb_origin b = cc_origin c ∧
      cb_snapshot b = cc_snapshot c ∧
      ∃ control, mw_controls w' !! cc_control c = Some control ∧
        ac_cancelled control = false ∧ now < ac_deadline control
  | Err _ => control_is_cancelled w' (cc_control c) = true
  end.
Proof.
  intros [_ Hok]%reachable_ok Hin Hs1 Hs2 Hop.
  pose proof Hok as [(_ & Hh & _) (_ & Harm & _)]. simpl in *.
  assert (is_Some (mw_controls w !! cc_control c)) as Hctl.
  { rewrite Forall_forall in Hh. apply Hh. unfold held. apply elem_of_app. left.
    by apply list_elem_of_fmap_2. }
  rewrite Forall_forall in Harm. destruct (Harm c Hin) as [id Hid].
  destruct r as [lease|e]; [|by eapply promote_refused; [exact Hctl|eauto|exact Hop]].
  destruct (promote_Ok l w g c b now w' lease) as (? & ? & Hm & ?); try done.
  apply claim_matches_true in Hm as (?&?&?&?&?); [|done..]. by split_and!.
Qed.

(** Shutdown is final. It shuts down the stream of every activated transaction;
    in every later state the manager is terminal and empty, the control of each claim
    or lease still held is cancelled, no guard was granted in between, and every new
    connection or reservation is refused as unavailable. *)
Theorem shutdown_is_terminal l w g w2 g2 :
  prompt_reachable l w g → rtc (prompt_step l) (shutdown w, g) (w2, g2) →
  let st := mw_state w2 in
  (∀ lk rec waker, pending (mw_state w) !! lk = Some rec → pr_shutdown_waker rec = Some waker →
     waker ∈ mw_shut (shutdown w)) ∧
  terminal st = true ∧ provisional st = ∅ ∧ pending st = ∅ ∧ active st = ∅ ∧
  Forall (λ c, control_is_cancelled w2 c = true) (held g2) ∧ fewer g g2 ∧
  (new_connection w2).2 = Err PromptUnavailable ∧
  ∀ conn uid target, (reserve_begin l w2 conn uid target).2 = Err PromptUnavailable.
Proof.
  intros Hr Hsteps. cbv zeta.
  assert (prompt_reachable l w2 g2) as Hr2.
  { eapply reachable_run; [exact Hr|]. eapply rtc_l; [apply step_shutdown|done]. }
  destruct (fail_closed_state w) as (Ht & _). apply steps_dead in Hsteps as [Ht2 Hf]; [|done].
  simpl in *. destruct (reachable_ok l w2 g2 Hr2) as [_ [(_ & _ & Hd) _]]. simpl in Hd.
  rewrite Ht2 in Hd. destruct Hd as (? & ? & _ & ? & ?). split_and!; try done.
  - intros lk rec waker. apply shutdown_wakes.
  - unfold new_connection. match goal with |- context [locked _ ?body] =>
      destruct (locked_dead w2 body Ht2) as (w3 & -> & _) end. done.
  - intros conn uid target. unfold reserve_begin. match goal with |- context [locked _ ?body] =>
      destruct (locked_dead w2 body Ht2) as (w3 & -> & _) end. done.
Qed.

(** Registering a resource cannot miss a cancellation: whatever happens between
    the registration and the cancellation of its control, in whichever order, the
    resource has been signalled in every later state in which the control is
    cancelled. *)
Theorem registered_resource_signalled l w g c x w2 g2 :
  prompt_reachable l w g → is_Some (mw_controls w !! c) →
  rtc (prompt_step l) (register_resource w c x, g) (w2, g2) →
  control_is_cancelled w2 c = true → x ∈ mw_signalled w2.
Proof.
  intros Hr [k Hk] Hsteps Hc.
  assert (prompt_reachable l w2 g2) as Hr2.
  { eapply reachable_run; [exact Hr|]. eapply rtc_l; [apply step_register|exact Hsteps]. }
  destruct (reachable_ok l w2 g2 Hr2) as [_ [(Hcok & _ & _) _]]. simpl in Hcok.
  apply steps_controls_le in Hsteps as [Hle Hsig]. simpl in *. revert Hle Hsig.
  unfold register_resource. rewrite Hk. destruct (ac_cancelled k).
  - simpl. set_solver.
  - intros Hle _. edestruct (Hle c) as (k2 & Hk2 & Hk2le); [simpl; apply lookup_insert_eq|].
    unfold control_is_cancelled in Hc. rewrite Hk2 in Hc. specialize (Hcok c k2 Hk2 Hc).
    rewrite Forall_forall in Hcok. apply Hcok. destruct Hk2le as (_ & _ & _ & Hsub).
    apply Hsub. simpl. set_solver.
Qed.
End properties.

(** ** A concrete session *)

(** A stand-in for the hash: the last 32 bytes. *)
Definition tail_sha256 : Sha256 := λ b, take 32 (reverse b ++ zero_bytes 32).
Lemma tail_sha256_laws : @Sha256Laws tail_sha256.
Proof.
  intros b. unfold sha256, tail_sha256, zero_bytes.
  rewrite length_take, length_app, length_replicate. lia.
Qed.
#[local] Existing Instance tail_sha256.
#[local] Existing Instance tail_sha256_laws.

Definition demo_limits : ManagerLimits :=
  mkManagerLimits 30000000000 5000000000 1000000000 2 32 1.
Definition demo_secret : bytes := le_split 32 1.
Definition demo_w0 : ManagerWorld N :=
  mkManagerWorld (mkState 2%N demo_secret 1 0 1 ∅ ∅ ∅ ∅ false) false ∅ ∅ ∅.
Definition demo_target : CanonicalIdentity := mkIdentity (bs "alice") 1000.
Definition demo_nonce : bytes := le_split 32 7.
Definition demo_snapshot : SecuritySnapshot :=
  SecuritySnapshot_capture secure_bootstrap_template sample_storage_snapshot.
Definition demo_binding : PendingBinding :=
  mkPendingBinding 1 1000 demo_target demo_nonce (bs "sudo") OriginLocal demo_snapshot.

(** Reserve, issue, activate at time 10, commit at time 20, promote at time 30. *)
Definition demo_begin : BeginReservation := mkBegin (connection_binding demo_secret 1) true.
Definition demo_w1 : ManagerWorld N := (reserve_begin demo_limits demo_w0 1 1000 demo_target).1.
Definition demo_token : bytes := derive_token demo_secret 1 (le_split 32 2).
Definition demo_lookup : bytes := keyed_digest demo_secret (bs "token-lookup-v2") demo_token.
Definition demo_issue : PendingIssue :=
  mkIssue (connection_binding demo_secret 1) (Some demo_lookup) demo_token.
Definition demo_w2 : ManagerWorld N := (issue demo_w1 demo_begin demo_binding).1.
Definition demo_w3 : ManagerWorld N :=
  (activate_with_waker demo_limits demo_w2 demo_issue (Some 9%positive) 10).1.
Definition demo_claim : CommitClaim :=
  mkClaim (Some 1) 1%positive 1000 demo_target (bs "sudo") OriginLocal demo_snapshot.
Definition demo_w4 : ManagerWorld N :=
  (issue_claim_commit demo_limits demo_w3 demo_issue demo_token demo_nonce 1000 1000 20).1.
Definition demo_commit : CommitBinding :=
  mkCommitBinding 1 1000 demo_target (bs "sudo") OriginLocal demo_snapshot.

Definition demo_g2 : Guards := mkGuards [] [(demo_issue, demo_binding)] [] [].
Definition demo_g4 : Guards := mkGuards [] [] [demo_claim] [].

Lemma demo_start :
  production 1%N secure_bootstrap_template 5000000000 1 = Ok (demo_limits, demo_w0).
Proof. vm_compute. reflexivity. Qed.

Lemma demo_reach_w3 : prompt_reachable demo_limits demo_w3 demo_g2.
Proof.
  exists 1%N, secure_bootstrap_template, 5000000000, 1, demo_w0.
  split_and!; [vm_compute; reflexivity|lia|unfold_max; lia|exact demo_start|].
  eapply (rtc_l _ _ (demo_w1, mkGuards [demo_begin] [] [] [])).
  { apply (step_reserve demo_limits demo_w0 (mkGuards [] [] [] []) 1 1000 demo_target demo_w1 (Ok demo_begin)).
    vm_compute. reflexivity. }
  eapply (rtc_l _ _ (demo_w2, demo_g2)).
  { apply (step_issue demo_limits demo_w1 (mkGuards [demo_begin] [] [] []) demo_begin [] demo_binding demo_w2 (Ok demo_issue));
      [done|]. vm_compute. reflexivity. }
  apply rtc_once. eapply (step_activate demo_limits demo_w2 demo_g2 demo_issue demo_binding (Some 9%positive) 10).
  - apply list_elem_of_here.
  - apply surjective_pairing.
Qed.

Lemma demo_commit_ok :
  issue_claim_commit demo_limits demo_w3 demo_issue demo_token demo_nonce 1000 1000 20
  = (demo_w4, Ok demo_claim).
Proof. vm_compute. reflexivity. Qed.

Lemma demo_reach_w4 : prompt_reachable demo_limits demo_w4 demo_g4.
Proof.
  eapply reachable_run; [exact demo_reach_w3|]. apply rtc_once.
  by apply (step_commit demo_limits demo_w3 demo_g2 demo_issue demo_binding [] demo_token
    demo_nonce 1000 1000 20 demo_w4 (Ok demo_claim)); [|apply demo_commit_ok].
Qed.

Lemma prompt_quotas_hold_witness :
  Z.of_nat (size (pending (mw_state demo_w3))) = 1 ∧
  Z.of_nat (size (provisional (mw_state demo_w3))) + Z.of_nat (size (pending (mw_state demo_w3)))
    ≤ 32.
Proof.
  split; [vm_compute; reflexivity|].
  apply (prompt_quotas_hold demo_limits demo_w3 demo_g2). exact demo_reach_w3.
Defined.

Lemma prompt_guards_account_witness :
  size (provisional (mw_state demo_w4)) = 0%nat ∧ size (pending (mw_state demo_w4)) = 0%nat ∧
  size (active (mw_state demo_w4)) = 1%nat.
Proof.
  pose proof (prompt_guards_account demo_limits demo_w4 demo_g4 demo_reach_w4) as Hp.
  assert (terminal (mw_state demo_w4) = false) as Ht by (vm_compute; reflexivity).
  cbv zeta in Hp. rewrite Ht in Hp. destruct Hp as (Hb & Hi & Ha).
  rewrite Hb, Hi, Ha. split_and!; reflexivity.
Defined.

Lemma commit_requires_binding_witness :
  pending (mw_state demo_w4) !! demo_lookup = None ∧ cc_snapshot demo_claim = demo_snapshot.
Proof.
  destruct (commit_requires_binding demo_limits demo_w3 demo_g2 demo_issue demo_binding demo_lookup
    demo_token demo_nonce 1000 1000 20 demo_w4 (Ok demo_claim)) as [Hgone Hok].
  - exact demo_reach_w3.
  - apply list_elem_of_here.
  - reflexivity.
  - vm_compute. reflexivity.
  - vm_compute. reflexivity.
  - vm_compute. reflexivity.
  - vm_compute. reflexivity.
  - vm_compute. reflexivity.
  - exact demo_commit_ok.
  - split; [exact Hgone|]. destruct (Hok demo_claim eq_refl) as (_&_&_&_&_&_&_&_&_&Hs&_). exact Hs.
Defined.

Lemma promotion_requires_binding_witness :
  is_ok (promote demo_w4 demo_claim demo_commit 30).2 = true ∧
  match (promote demo_w4 demo_claim demo_commit 30).2 with
  | Ok lease => al_active_id lease = Some 1
  | Err _ => False
  end.
Proof.
  split; [vm_compute; reflexivity|].
  pose proof (promotion_requires_binding demo_limits demo_w4 demo_g4 demo_claim demo_commit 30
    (promote demo_w4 demo_claim demo_commit 30).1 (promote demo_w4 demo_claim demo_commit 30).2
    demo_reach_w4 (list_elem_of_here _ _)) as Hp.
  destruct (promote demo_w4 demo_claim demo_commit 30).2 as [lease|e] eqn:Hr.
  - destruct Hp as [Hid _].
    + split; [vm_compute; reflexivity|]. split; vm_compute; reflexivity.
    + split; [vm_compute; reflexivity|]. split; vm_compute; reflexivity.
    + rewrite <- Hr. apply surjective_pairing.
    + exact Hid.
  - exfalso. revert Hr. vm_compute. discriminate.
Defined.

Lemma shutdown_is_terminal_witness :
  9%positive ∈ mw_shut (shutdown demo_w3) ∧ terminal (mw_state (shutdown demo_w3)) = true.
Proof.
  destruct (shutdown_is_terminal demo_limits demo_w3 demo_g2 (shutdown demo_w3) demo_g2)
    as (Hw & Ht & _).
  - exact demo_reach_w3.
  - apply rtc_refl.
  - split; [|exact Ht].
    destruct (pending (mw_state demo_w3) !! demo_lookup) as [rec|] eqn:Hrec.
    + apply (Hw demo_lookup rec 9%positive); [exact Hrec|].
      revert Hrec. vm_compute. intros [= <-]. reflexivity.
    + exfalso. revert Hrec. vm_compute. discriminate.
Defined.

Lemma registered_resource_signalled_witness :
  5%positive ∈ mw_signalled (control_cancel (register_resource demo_w4 1 5) 1).1.
Proof.
  apply (registered_resource_signalled demo_limits demo_w4 demo_g4 1 5 _ demo_g4).
  - exact demo_reach_w4.
  - vm_compute. eexists. reflexivity.
  - apply rtc_once, step_cancel_control.
  - vm_compute. reflexivity.
Defined.
