(* ===== verification/Protocol.v ===== *)
(** * Protocol messages and their validation

    [crates/howy-common/src/protocol.rs] over the messages of [proto/howy.proto]:
    the request and response types, the validation of every prompt message, the
    strict validation of the two status messages and the constructors the daemon
    and its clients use. Strings are byte lists, floating-point fields their bit
    patterns, protobuf enumerations the 32-bit integers they travel as. *)

From S2P Require Import Prelude Bytes Storage Namespace Contracts Config Paths PromptState.

(** ** Constants *)

Definition STORAGE_CONFLICT_ERROR : bytes := bs "storage_conflict".
Definition STORAGE_ABSENT_ERROR : bytes := bs "storage_absent".
Definition STORAGE_CORRUPT_ERROR : bytes := bs "storage_corrupt".
Definition STORAGE_MODEL_MISMATCH_ERROR : bytes := bs "storage_model_mismatch".
Definition STORAGE_UNAVAILABLE_ERROR : bytes := bs "storage_unavailable".
Definition STORAGE_INVALID_REQUEST_ERROR : bytes := bs "storage_invalid_request".
Definition ENROLLMENT_PROTOCOL_ERROR : bytes := bs "enrollment_protocol_incompatible".
Definition LIVE_ENROLLMENT_PROTOCOL_VERSION : Z := 1.
Definition PROMPT_PROTOCOL_VERSION : Z := 1.
Definition PROMPT_NONCE_BYTES : Z := 32.
Definition PROMPT_TOKEN_BYTES : Z := 32.
Definition PROMPT_IDENTITY_MAX_BYTES : Z := 64.
Definition PROMPT_TIMEOUT_MS_MIN : Z := 1000.
Definition PROMPT_TIMEOUT_MS_MAX : Z := 300000.
Definition COMMIT_RESPONSE_TIMEOUT_MS_MIN : Z := 1000.
Definition COMMIT_RESPONSE_TIMEOUT_MS_MAX : Z := 120000.
Definition PROMPT_PROTOCOL_INCOMPATIBLE_ERROR : bytes := bs "prompt_protocol_incompatible".
Definition PROMPT_PROTOCOL_VIOLATION_ERROR : bytes := bs "prompt_protocol_violation".
Definition PROMPT_UNAVAILABLE_ERROR : bytes := bs "prompt_unavailable".
Definition PROMPT_TRANSACTION_INVALID_ERROR : bytes := bs "prompt_transaction_invalid".
Definition PUBLIC_PROVIDER_MAX_BYTES : Z := 128.
Definition PUBLIC_EMBEDDING_DIM_MAX : Z := 16384.

(** ** Requests *)

Record PromptPolicyContextV1 := mkPolicyContext { pc_pam_service : bytes; pc_origin : Z }.
Record BeginAuthV1Req := mkBeginReq {
  bg_protocol_version : Z;
  bg_username : bytes;
  bg_client_nonce : bytes;
  bg_policy : option PromptPolicyContextV1 }.
Record CommitAuthV1Req := mkCommitReq {
  cm_protocol_version : Z; cm_transaction_token : bytes; cm_client_nonce : bytes }.
Record CancelAuthV1Req := mkCancelReq {
  cn_protocol_version : Z; cn_transaction_token : bytes; cn_client_nonce : bytes }.
Record AuthenticateV1Req := mkAuthV1Req {
  av_protocol_version : Z; av_username : bytes; av_timeout : Z }.

Inductive Cmd :=
| CmdAuthenticate (username : bytes) (timeout : Z)
| CmdEnroll (username label : bytes)
| CmdDetect (frame : bytes) (height width : Z)
| CmdPing
| CmdInfo
| CmdShutdown
| CmdCheckCredential (username : bytes)
| CmdRevokeCredential (username session_id : bytes)
| CmdEnrollBatch (username session_dir label : bytes)
| CmdEnrollmentPresence (username : bytes)
| CmdListEnrollments (username : bytes)
| CmdRemoveEnrollment (username enrollment_id : bytes) (expected_generation : Z)
| CmdClearEnrollments (username : bytes) (expected_generation : Z)
| CmdReloadStorage
| CmdSecurityInfo
| CmdEnrollV1 (username label : bytes)
| CmdEnrollBatchV1 (username session_dir label : bytes)
| CmdBeginAuthV1 (begin : BeginAuthV1Req)
| CmdCommitAuthV1 (commit : CommitAuthV1Req)
| CmdCancelAuthV1 (cancel : CancelAuthV1Req)
| CmdAuthenticateV1 (request : AuthenticateV1Req).

(** [Request]; [None] is a command this version does not know. *)
Record Request := mkRequest { req_cmd : option Cmd }.

#[export] Instance PromptPolicyContextV1_eq_dec : EqDecision PromptPolicyContextV1.
Proof. solve_decision. Defined.
#[export] Instance BeginAuthV1Req_eq_dec : EqDecision BeginAuthV1Req.
Proof. solve_decision. Defined.
#[export] Instance CommitAuthV1Req_eq_dec : EqDecision CommitAuthV1Req.
Proof. solve_decision. Defined.
#[export] Instance CancelAuthV1Req_eq_dec : EqDecision CancelAuthV1Req.
Proof. solve_decision. Defined.
#[export] Instance AuthenticateV1Req_eq_dec : EqDecision AuthenticateV1Req.
Proof. solve_decision. Defined.
#[export] Instance Cmd_eq_dec : EqDecision Cmd.
Proof. solve_decision. Defined.
#[export] Instance Request_eq_dec : EqDecision Request.
Proof. solve_decision. Defined.

(** ** Responses *)

Record PromptRequiredV1 := mkPromptRequired {
  pq_protocol_version : Z;
  pq_transaction_token : bytes;
  pq_client_nonce : bytes;
  pq_prompt_timeout_ms : Z;
  pq_commit_response_timeout_ms : Z }.
Record AuthCancelledV1 := mkAuthCancelled { cx_protocol_version : Z; cx_client_nonce : bytes }.
Record DetectedFace := mkDetectedFace {
  df_x1 : Z; df_y1 : Z; df_x2 : Z; df_y2 : Z; df_landmarks : list Z; df_score : Z }.
Record DaemonInfo := mkDaemonInfo {
  di_provider : bytes;
  di_detector_model : bytes;
  di_recognizer_model : bytes;
  di_embedding_dim : Z;
  di_uptime_secs : Z;
  di_active_security_mode : Z;
  di_prompt_required : bool;
  di_storage_ready : bool }.
Record EnrollmentMetadataEntry := mkMetadataEntry {
  me_enrollment_id : bytes; me_label : bytes; me_created_unix_seconds : Z }.
Record ReloadStorageResult := mkReloadResult {
  rl_storage_ready : bool;
  rl_candidate : Z; rl_mode_mismatch : Z; rl_key_mismatch : Z; rl_model_mismatch : Z;
  rl_corrupt : Z }.
Record NamespaceDiagnostic := mkNamespaceDiagnostic {
  nd_mode : Z; nd_path : bytes; nd_active : bool; nd_implemented : bool }.
Record SecurityInfoResult := mkSecurityInfo {
  si_detector_model : bytes;
  si_recognizer_model : bytes;
  si_active_security_mode : Z;
  si_key_epoch : Z;
  si_storage_ready : bool;
  si_prompt_required : bool;
  si_namespaces : list NamespaceDiagnostic;
  si_config_sha256 : bytes;
  si_credential_name : bytes;
  si_configured_credential_source : bytes;
  si_backend_state : Z;
  si_readiness_state : Z;
  si_poison_state : Z;
  si_daemon_invocation_id : bytes;
  si_daemon_version : bytes;
  si_build_identity : bytes;
  si_binary_absolute_path : bytes;
  si_binary_sha256 : bytes }.

Inductive RespResult :=
| RespSuccess (model_index : Z) (model_label : bytes) (score elapsed_ms : Z)
| RespAuthFailed (best_score frames_processed : Z) (reason : bytes)
| RespEnrolled (det_score : Z) (enrollment_id : bytes)
    (generation total_count enrollment_protocol_version : Z)
| RespDetected (faces : list DetectedFace) (elapsed_ms : Z)
| RespPong
| RespInfo (info : DaemonInfo)
| RespCredentialValid
| RespCredentialInvalid
| RespError (message code : bytes)
| RespEnrollBatchDone (frames_found frames_accepted frames_rejected elapsed_ms : Z)
    (rejection_details : list bytes) (generation total_count : Z)
| RespEnrollmentPresence (candidate : bool)
| RespListEnrollments (generation : Z) (entries : list EnrollmentMetadataEntry)
| RespRemoveEnrollment (generation : Z) (removed_enrollment_id : bytes)
| RespClearEnrollments (generation removed_count : Z)
| RespReloadStorage (reload : ReloadStorageResult)
| RespSecurityInfo (info : SecurityInfoResult)
| RespPromptRequiredV1 (prompt : PromptRequiredV1)
| RespAuthCancelledV1 (cancelled : AuthCancelledV1).

Record Response := mkResponse { resp_result : option RespResult }.

#[export] Instance PromptRequiredV1_eq_dec : EqDecision PromptRequiredV1.
Proof. solve_decision. Defined.
#[export] Instance AuthCancelledV1_eq_dec : EqDecision AuthCancelledV1.
Proof. solve_decision. Defined.
#[export] Instance DetectedFace_eq_dec : EqDecision DetectedFace.
Proof. solve_decision. Defined.
#[export] Instance DaemonInfo_eq_dec : EqDecision DaemonInfo.
Proof. solve_decision. Defined.
#[export] Instance EnrollmentMetadataEntry_eq_dec : EqDecision EnrollmentMetadataEntry.
Proof. solve_decision. Defined.
#[export] Instance ReloadStorageResult_eq_dec : EqDecision ReloadStorageResult.
Proof. solve_decision. Defined.
#[export] Instance NamespaceDiagnostic_eq_dec : EqDecision NamespaceDiagnostic.
Proof. solve_decision. Defined.
#[export] Instance SecurityInfoResult_eq_dec : EqDecision SecurityInfoResult.
Proof. solve_decision. Defined.
#[export] Instance RespResult_eq_dec : EqDecision RespResult.
Proof. solve_decision. Defined.
#[export] Instance Response_eq_dec : EqDecision Response.
Proof. solve_decision. Defined.

(** ** Enumerations on the wire *)

Definition origin_try_from (value : Z) : option PromptOriginV1 :=
  if value =? 0 then Some OriginUnspecified
  else if value =? 1 then Some OriginLocal
  else if value =? 2 then Some OriginRemote
  else None.
Definition origin_i32 (origin : PromptOriginV1) : Z :=
  match origin with OriginUnspecified => 0 | OriginLocal => 1 | OriginRemote => 2 end.

Inductive SecurityBackendStateV1 := BackendUnspecified | BackendReady | BackendIsUnavailable.
Inductive SecurityReadinessStateV1 :=
  ReadinessUnspecified | ReadinessReady | ReadinessUnavailable.
Inductive SecurityPoisonStateV1 := PoisonUnspecified | NotPoisoned | Poisoned.
#[export] Instance SecurityBackendStateV1_eq_dec : EqDecision SecurityBackendStateV1.
Proof. solve_decision. Defined.
#[export] Instance SecurityReadinessStateV1_eq_dec : EqDecision SecurityReadinessStateV1.
Proof. solve_decision. Defined.
#[export] Instance SecurityPoisonStateV1_eq_dec : EqDecision SecurityPoisonStateV1.
Proof. solve_decision. Defined.

Definition enum3_try_from {A} (a b c : A) (value : Z) : option A :=
  if value =? 0 then Some a else if value =? 1 then Some b else if value =? 2 then Some c
  else None.
Definition backend_try_from : Z → option SecurityBackendStateV1 :=
  enum3_try_from BackendUnspecified BackendReady BackendIsUnavailable.
Definition readiness_try_from : Z → option SecurityReadinessStateV1 :=
  enum3_try_from ReadinessUnspecified ReadinessReady ReadinessUnavailable.
Definition poison_try_from : Z → option SecurityPoisonStateV1 :=
  enum3_try_from PoisonUnspecified NotPoisoned Poisoned.
Definition backend_i32 (s : SecurityBackendStateV1) : Z :=
  match s with BackendUnspecified => 0 | BackendReady => 1 | BackendIsUnavailable => 2 end.
Definition readiness_i32 (s : SecurityReadinessStateV1) : Z :=
  match s with ReadinessUnspecified => 0 | ReadinessReady => 1 | ReadinessUnavailable => 2 end.
Definition poison_i32 (s : SecurityPoisonStateV1) : Z :=
  match s with PoisonUnspecified => 0 | NotPoisoned => 1 | Poisoned => 2 end.

(** ** Prompt message validation *)

Inductive PromptErrorCode := PromptIncompatible | PromptViolation | PromptIsUnavailable
  | PromptTransactionInvalid.
#[export] Instance PromptErrorCode_eq_dec : EqDecision PromptErrorCode.
Proof. solve_decision. Defined.

(** [PromptErrorCode::as_str] *)
Definition prompt_error_str (code : PromptErrorCode) : bytes :=
  match code with
  | PromptIncompatible => PROMPT_PROTOCOL_INCOMPATIBLE_ERROR
  | PromptViolation => PROMPT_PROTOCOL_VIOLATION_ERROR
  | PromptIsUnavailable => PROMPT_UNAVAILABLE_ERROR
  | PromptTransactionInvalid => PROMPT_TRANSACTION_INVALID_ERROR
  end.

Inductive PromptValidationError := UnsupportedVersion | Malformed.
#[export] Instance PromptValidationError_eq_dec : EqDecision PromptValidationError.
Proof. solve_decision. Defined.
Abbreviation vresult := (result PromptValidationError).

(** [PromptValidationError::prompt_error] *)
Definition prompt_error_of (e : PromptValidationError) : PromptErrorCode :=
  match e with UnsupportedVersion => PromptIncompatible | Malformed => PromptViolation end.

Definition validate_prompt_version (version : Z) : vresult unit :=
  if version =? PROMPT_PROTOCOL_VERSION then Ok () else Err UnsupportedVersion.
Definition validate_prompt_identity (value : bytes) : vresult unit :=
  if contains 1 PROMPT_IDENTITY_MAX_BYTES (len value) && forallb is_name_byte value
  then Ok () else Err Malformed.
Definition validate_exact_bytes (value : bytes) (expected : Z) : vresult unit :=
  if len value =? expected then Ok () else Err Malformed.

(** [prompt_origin_from_pam_rhost] *)
Definition prompt_origin_from_pam_rhost (rhost : option bytes) : PromptOriginV1 :=
  match rhost with
  | None => OriginLocal
  | Some host => if bool_decide (host = []) then OriginLocal else OriginRemote
  end.

(** [BeginAuthV1Req::validate] *)
Definition begin_validate (b : BeginAuthV1Req) : vresult unit :=
  _ ← validate_prompt_version (bg_protocol_version b);
  _ ← validate_prompt_identity (bg_username b);
  _ ← validate_exact_bytes (bg_client_nonce b) PROMPT_NONCE_BYTES;
  policy ← ok_or (bg_policy b) Malformed;
  _ ← validate_prompt_identity (pc_pam_service policy);
  match origin_try_from (pc_origin policy) with
  | Some OriginLocal | Some OriginRemote => Ok ()
  | Some OriginUnspecified | None => Err Malformed
  end.

(** [AuthenticateV1Req::validate] *)
Definition auth_v1_validate (a : AuthenticateV1Req) : vresult unit :=
  _ ← validate_prompt_version (av_protocol_version a);
  validate_prompt_identity (av_username a).

(** [PromptRequiredV1::validate] *)
Definition prompt_required_validate (q : PromptRequiredV1) : vresult unit :=
  _ ← validate_prompt_version (pq_protocol_version q);
  _ ← validate_exact_bytes (pq_transaction_token q) PROMPT_TOKEN_BYTES;
  _ ← validate_exact_bytes (pq_client_nonce q) PROMPT_NONCE_BYTES;
  if negb (contains PROMPT_TIMEOUT_MS_MIN PROMPT_TIMEOUT_MS_MAX (pq_prompt_timeout_ms q))
     || negb (contains COMMIT_RESPONSE_TIMEOUT_MS_MIN COMMIT_RESPONSE_TIMEOUT_MS_MAX
                (pq_commit_response_timeout_ms q))
  then Err Malformed else Ok ().

(** [CommitAuthV1Req::validate], [CancelAuthV1Req::validate], [AuthCancelledV1::validate] *)
Definition commit_validate (c : CommitAuthV1Req) : vresult unit :=
  _ ← validate_prompt_version (cm_protocol_version c);
  _ ← validate_exact_bytes (cm_transaction_token c) PROMPT_TOKEN_BYTES;
  validate_exact_bytes (cm_client_nonce c) PROMPT_NONCE_BYTES.
Definition cancel_validate (c : CancelAuthV1Req) : vresult unit :=
  _ ← validate_prompt_version (cn_protocol_version c);
  _ ← validate_exact_bytes (cn_transaction_token c) PROMPT_TOKEN_BYTES;
  validate_exact_bytes (cn_client_nonce c) PROMPT_NONCE_BYTES.
Definition auth_cancelled_validate (c : AuthCancelledV1) : vresult unit :=
  _ ← validate_prompt_version (cx_protocol_version c);
  validate_exact_bytes (cx_client_nonce c) PROMPT_NONCE_BYTES.

(** [is_prompt_auth_terminal_response] *)
Definition is_prompt_auth_terminal_response (r : Response) : bool :=
  match resp_result r with
  | Some (RespSuccess _ _ _ _) | Some (RespAuthFailed _ _ _) | Some (RespError _ _) => true
  | _ => false
  end.

(** ** Constructors *)

Definition Request_authenticate (username : bytes) (timeout : Z) : Request :=
  mkRequest (Some (CmdAuthenticate username timeout)).
Definition Request_authenticate_v1 (username : bytes) (timeout : Z) : Request :=
  mkRequest (Some (CmdAuthenticateV1 (mkAuthV1Req PROMPT_PROTOCOL_VERSION username timeout))).
Definition Request_begin_auth_v1_ref (username client_nonce pam_service : bytes)
    (origin : PromptOriginV1) : Request :=
  mkRequest (Some (CmdBeginAuthV1
    (mkBeginReq PROMPT_PROTOCOL_VERSION username client_nonce
       (Some (mkPolicyContext pam_service (origin_i32 origin)))))).
Definition Request_commit_auth_v1_ref (transaction_token client_nonce : bytes) : Request :=
  mkRequest (Some (CmdCommitAuthV1
    (mkCommitReq PROMPT_PROTOCOL_VERSION transaction_token client_nonce))).
Definition Request_cancel_auth_v1_ref (transaction_token client_nonce : bytes) : Request :=
  mkRequest (Some (CmdCancelAuthV1
    (mkCancelReq PROMPT_PROTOCOL_VERSION transaction_token client_nonce))).

Definition Response_error (message : bytes) : Response :=
  mkResponse (Some (RespError message [])).
Definition Response_error_code (code message : bytes) : Response :=
  mkResponse (Some (RespError message code)).
(** [Response::prompt_error] *)
Definition Response_prompt_error (code : PromptErrorCode) : Response :=
  Response_error_code (prompt_error_str code)
    (match code with
     | PromptIncompatible => bs "prompt protocol is incompatible"
     | PromptViolation => bs "prompt protocol violation"
     | PromptIsUnavailable => bs "prompt authentication is unavailable"
     | PromptTransactionInvalid => bs "prompt transaction is invalid"
     end).
Definition Response_prompt_required_v1_ref (transaction_token client_nonce : bytes)
    (prompt_timeout_ms commit_response_timeout_ms : Z) : Response :=
  mkResponse (Some (RespPromptRequiredV1
    (mkPromptRequired PROMPT_PROTOCOL_VERSION transaction_token client_nonce
       prompt_timeout_ms commit_response_timeout_ms))).
Definition Response_auth_cancelled_v1_ref (client_nonce : bytes) : Response :=
  mkResponse (Some (RespAuthCancelledV1
    (mkAuthCancelled PROMPT_PROTOCOL_VERSION client_nonce))).
Definition Response_daemon_info (provider : bytes) (embedding_dim uptime_secs mode : Z)
    (prompt_required storage_ready : bool) : Response :=
  mkResponse (Some (RespInfo
    (mkDaemonInfo provider [] [] embedding_dim uptime_secs mode prompt_required
       storage_ready))).
