(* ===== verification/Status.v ===== *)
(** * Status messages

    The strict validation of [DaemonInfo] and [SecurityInfoResult] in
    [crates/howy-common/src/protocol.rs], which a provisioning client applies to
    what a daemon reports and the daemon applies to its own report before sending
    it, with the declarative reading of what is accepted. *)

From S2P Require Import Prelude Bytes Storage Namespace Contracts Config Paths PromptState Protocol.

(** ** [DaemonInfo] *)

Inductive DaemonInfoValidationError := InfoInvalidField | InfoInconsistentState
  | InfoUnexpectedAvailability.
#[export] Instance DaemonInfoValidationError_eq_dec : EqDecision DaemonInfoValidationError.
Proof. solve_decision. Defined.

Record DaemonInfoExpectation := mkExpectation {
  ex_active_security_mode : Z;
  ex_prompt_required : bool;
  ex_storage_ready : bool;
  ex_disabled : bool }.

(** [matches!(mode, Plaintext | AeadCached)] on the wire value. *)
Definition implemented_mode (mode : Z) : bool :=
  (mode =? security_mode_u8 Plaintext) || (mode =? security_mode_u8 AeadCached).

(** [DaemonInfo::validate_strict] *)
Definition daemon_info_validate_strict (i : DaemonInfo)
    : result DaemonInfoValidationError unit :=
  if bool_decide (di_provider i = [])
     || (PUBLIC_PROVIDER_MAX_BYTES <? len (di_provider i))
     || negb (forallb (λ b, is_ascii_graphic b || bool_decide (b = Byte.x20)) (di_provider i))
     || negb (bool_decide (di_detector_model i = []))
     || negb (bool_decide (di_recognizer_model i = []))
     || (di_embedding_dim i =? 0)
     || (PUBLIC_EMBEDDING_DIM_MAX <? di_embedding_dim i)
  then Err InfoInvalidField
  else if negb (implemented_mode (di_active_security_mode i)) then Err InfoInconsistentState
  else Ok ().

(** [validate_daemon_info_for_activation] *)
Definition validate_daemon_info_for_activation (info : option DaemonInfo)
    (expected : DaemonInfoExpectation) : result DaemonInfoValidationError unit :=
  if negb (implemented_mode (ex_active_security_mode expected))
     || (ex_disabled expected && ex_storage_ready expected)
  then Err InfoInconsistentState
  else if ex_disabled expected then
    match info with None => Ok () | Some _ => Err InfoUnexpectedAvailability end
  else
    i ← ok_or info InfoUnexpectedAvailability;
    _ ← daemon_info_validate_strict i;
    if negb (di_active_security_mode i =? ex_active_security_mode expected)
       || negb (Bool.eqb (di_prompt_required i) (ex_prompt_required expected))
       || negb (Bool.eqb (di_storage_ready i) (ex_storage_ready expected))
    then Err InfoInconsistentState
    else Ok ().

(** ** [SecurityInfoResult] *)

Inductive SecurityInfoValidationError := UnknownEnum | SecInvalidField | SecInconsistentState.
#[export] Instance SecurityInfoValidationError_eq_dec : EqDecision SecurityInfoValidationError.
Proof. solve_decision. Defined.

Record ValidatedSecurityInfoStates := mkValidatedStates {
  vs_backend : SecurityBackendStateV1;
  vs_readiness : SecurityReadinessStateV1;
  vs_poison : SecurityPoisonStateV1 }.

Definition security_hash_is_valid (value : bytes) : bool :=
  (len value =? 64) && forallb (λ b, is_ascii_digit b || byte_in 97 102 b) value.
Definition security_printable_is_valid (value : bytes) (maximum : Z) (allow_empty : bool)
    : bool :=
  (allow_empty || negb (bool_decide (value = []))) && (len value <=? maximum)
  && forallb (byte_in 32 126) value.
Definition security_absolute_path_is_valid (value : bytes) (maximum : Z) : bool :=
  negb (bool_decide (value = [])) && (len value <=? maximum)
  && bool_decide (head value = Some slash)
  && negb (ends_with_slash value)
  && negb (contains_double_slash value)
  && forallb (λ c, match c with RootDir | Normal _ => true | CurDir | ParentDir => false end)
       (components value).

(** The identity fields. *)
Definition security_fields_valid (s : SecurityInfoResult) : bool :=
  security_hash_is_valid (si_config_sha256 s)
  && security_hash_is_valid (si_binary_sha256 s)
  && security_hash_is_valid (si_daemon_invocation_id s)
  && security_printable_is_valid (si_daemon_version s) MAX_DAEMON_VERSION_BYTES false
  && security_printable_is_valid (si_build_identity s) MAX_BUILD_ID_BYTES false
  && security_absolute_path_is_valid (si_binary_absolute_path s) MAX_PATH_BYTES
  && security_absolute_path_is_valid (si_detector_model s) MAX_PATH_BYTES
  && security_absolute_path_is_valid (si_recognizer_model s) MAX_PATH_BYTES.

(** The [match mode] on the credential fields. *)
Definition security_credential_consistent (s : SecurityInfoResult)
    (mode : EmbeddingSecurityMode) (poison : SecurityPoisonStateV1) : bool :=
  match mode with
  | Plaintext =>
      bool_decide (si_credential_name s = [])
      && bool_decide (si_configured_credential_source s = [])
      && negb (bool_decide (poison = Poisoned))
  | AeadCached =>
      bool_decide (si_credential_name s = MODE1_CREDENTIAL_NAME)
      && (si_key_epoch s =? 1)
      && is_ok (parse_credential_source (si_configured_credential_source s) Production)
  | AeadEphemeral | ReservedFuture => false
  end.

(** One row of the namespace table against its expected namespace. *)
Definition namespace_row_valid (mode : Z) (row : NamespaceDiagnostic * RecordNamespace) : bool :=
  let '(actual, expected) := row in
  let expected_mode := namespace_identifier expected in
  (nd_mode actual =? expected_mode)
  && bool_decide (nd_path actual = namespace_directory expected)
  && Bool.eqb (nd_active actual) (expected_mode =? mode)
  && Bool.eqb (nd_implemented actual) ((expected_mode =? 0) || (expected_mode =? 1))
  && security_absolute_path_is_valid (nd_path actual) MAX_PATH_BYTES.

(** [SecurityInfoResult::validate_strict] *)
Definition security_info_validate_strict (s : SecurityInfoResult)
    : result SecurityInfoValidationError ValidatedSecurityInfoStates :=
  backend ← ok_or (backend_try_from (si_backend_state s)) UnknownEnum;
  readiness ← ok_or (readiness_try_from (si_readiness_state s)) UnknownEnum;
  poison ← ok_or (poison_try_from (si_poison_state s)) UnknownEnum;
  if bool_decide (backend = BackendUnspecified)
     || bool_decide (readiness = ReadinessUnspecified)
     || bool_decide (poison = PoisonUnspecified)
  then Err UnknownEnum
  else
    mode ← (if si_active_security_mode s =? security_mode_u8 Plaintext then Ok Plaintext
            else if si_active_security_mode s =? security_mode_u8 AeadCached then Ok AeadCached
            else Err SecInconsistentState);
    if negb (security_fields_valid s) then Err SecInvalidField
    else if negb (security_credential_consistent s mode poison) then Err SecInconsistentState
    else
      let ready := bool_decide (backend = BackendReady)
                   && bool_decide (readiness = ReadinessReady) && si_storage_ready s in
      let unavailable := bool_decide (backend = BackendIsUnavailable)
                   && bool_decide (readiness = ReadinessUnavailable)
                   && negb (si_storage_ready s) in
      if negb ready && negb unavailable then Err SecInconsistentState
      else if bool_decide (poison = Poisoned)
              && (negb (bool_decide (mode = AeadCached)) || negb unavailable)
      then Err SecInconsistentState
      else if negb (len (si_namespaces s) =? len ALL_RECORD_NAMESPACES)
      then Err SecInconsistentState
      else if negb (forallb (namespace_row_valid (si_active_security_mode s))
                      (zip (si_namespaces s) ALL_RECORD_NAMESPACES))
      then Err SecInconsistentState
      else Ok (mkValidatedStates backend readiness poison).

(** ** What a validated status says *)

(** Both machine states say the same as the flag. *)
Definition states_agree (v : ValidatedSecurityInfoStates) (ready : bool) : Prop :=
  if ready then vs_backend v = BackendReady ∧ vs_readiness v = ReadinessReady
  else vs_backend v = BackendIsUnavailable ∧ vs_readiness v = ReadinessUnavailable.

(** The table of namespaces a status of a given mode carries. *)
Definition namespace_row (mode : Z) (n : RecordNamespace) : NamespaceDiagnostic :=
  mkNamespaceDiagnostic (namespace_identifier n) (namespace_directory n)
    (namespace_identifier n =? mode)
    ((namespace_identifier n =? 0) || (namespace_identifier n =? 1)).
Definition namespace_table (mode : Z) : list NamespaceDiagnostic :=
  namespace_row mode <$> ALL_RECORD_NAMESPACES.

Record security_info_ok (s : SecurityInfoResult) (v : ValidatedSecurityInfoStates) : Prop := {
  ok_enums : si_backend_state s = backend_i32 (vs_backend v)
    ∧ si_readiness_state s = readiness_i32 (vs_readiness v)
    ∧ si_poison_state s = poison_i32 (vs_poison v);
  ok_states : states_agree v (si_storage_ready s);
  ok_fields : security_fields_valid s = true;
  ok_mode :
    (si_active_security_mode s = 0 ∧ vs_poison v = NotPoisoned
      ∧ si_credential_name s = [] ∧ si_configured_credential_source s = [])
    ∨ (si_active_security_mode s = 1 ∧ si_credential_name s = MODE1_CREDENTIAL_NAME
      ∧ si_key_epoch s = 1 ∧ si_configured_credential_source s = MODE1_CREDENTIAL_PATH
      ∧ (vs_poison v = NotPoisoned
         ∨ vs_poison v = Poisoned ∧ si_storage_ready s = false));
  ok_namespaces : si_namespaces s = namespace_table (si_active_security_mode s) }.

Lemma enum3_try_from_Some {A} `{EqDecision A} (a b c x : A) z :
  a ≠ b → a ≠ c → b ≠ c →
  enum3_try_from a b c z = Some x ↔ (z = 0 ∧ x = a) ∨ (z = 1 ∧ x = b) ∨ (z = 2 ∧ x = c).
Proof.
  intros. unfold enum3_try_from.
  destruct (Z.eqb_spec z 0), (Z.eqb_spec z 1), (Z.eqb_spec z 2); naive_solver lia.
Qed.

Lemma backend_try_from_Some z b : backend_try_from z = Some b ↔ z = backend_i32 b.
Proof. unfold backend_try_from. rewrite enum3_try_from_Some by done. destruct b; naive_solver. Qed.
Lemma readiness_try_from_Some z b : readiness_try_from z = Some b ↔ z = readiness_i32 b.
Proof. unfold readiness_try_from. rewrite enum3_try_from_Some by done. destruct b; naive_solver. Qed.
Lemma poison_try_from_Some z b : poison_try_from z = Some b ↔ z = poison_i32 b.
Proof. unfold poison_try_from. rewrite enum3_try_from_Some by done. destruct b; naive_solver. Qed.

Lemma namespace_directory_valid n :
  security_absolute_path_is_valid (namespace_directory n) MAX_PATH_BYTES = true.
Proof. destruct n; vm_compute; reflexivity. Qed.

Lemma namespace_row_valid_iff mode d n :
  namespace_row_valid mode (d, n) = true ↔ d = namespace_row mode n.
Proof.
  unfold namespace_row_valid, namespace_row. destruct d as [m p a i]; simpl. split.
  - intros Hr. breflect. subst. f_equal; by apply eqb_prop.
  - intros [= -> -> -> ->]. rewrite Z.eqb_refl, bool_decide_eq_true_2 by done.
    by rewrite !eqb_reflx, namespace_directory_valid.
Qed.

Lemma namespace_table_iff mode ds :
  len ds = len ALL_RECORD_NAMESPACES ∧
  forallb (namespace_row_valid mode) (zip ds ALL_RECORD_NAMESPACES) = true
  ↔ ds = namespace_table mode.
Proof.
  unfold namespace_table, len. split.
  - intros [Hl Hf]. destruct ds as [|d0 [|d1 [|d2 [|]]]]; simpl in Hl; try lia.
    cbn [zip zip_with ALL_RECORD_NAMESPACES forallb] in Hf. breflect.
    repeat match goal with H : namespace_row_valid _ _ = true |- _ =>
      apply namespace_row_valid_iff in H end. by subst.
  - intros ->. split; [done|]. cbn [fmap list_fmap zip zip_with ALL_RECORD_NAMESPACES forallb].
    by rewrite !(proj2 (namespace_row_valid_iff _ _ _) eq_refl).
Qed.

Lemma parse_production_is_ok b :
  is_ok (parse_credential_source b Production) = true ↔ b = MODE1_CREDENTIAL_PATH.
Proof.
  rewrite is_ok_true. split; [by intros [r [? ?]%parse_production_source]|].
  intros ->. eexists. apply parse_production_path.
Qed.

(** Accepted states of the machine. *)
Lemma states_agree_iff v ready :
  (bool_decide (vs_backend v = BackendReady) && bool_decide (vs_readiness v = ReadinessReady)
     && ready = true
   ∨ bool_decide (vs_backend v = BackendIsUnavailable)
     && bool_decide (vs_readiness v = ReadinessUnavailable) && negb ready = true)
  ↔ states_agree v ready.
Proof. destruct v as [[] [] ?], ready; unfold states_agree; simpl; naive_solver. Qed.

Lemma security_info_sound s v : security_info_validate_strict s = Ok v → security_info_ok s v.
Proof.
  unfold security_info_validate_strict. intros Hv. inv_ok.
  apply backend_try_from_Some in Ha. apply readiness_try_from_Some in Ha0.
  apply poison_try_from_Some in Ha1. subst v. breflect.
  assert (Hstates : states_agree (mkValidatedStates a a0 a1) (si_storage_ready s)).
  { apply states_agree_iff; simpl.
    match goal with H : negb _ && negb _ = false |- _ =>
      apply andb_false_iff in H as [H|H]; apply negb_false_iff in H; auto end. }
  constructor; simpl; try done.
  2: { by apply namespace_table_iff. }
  destruct (Z.eqb_spec (si_active_security_mode s) (security_mode_u8 Plaintext)) as [Hm|_]; inv_ok; subst.
  - left. simpl in *. breflect. split_and!; try done. by destruct a1.
  - right. simpl in *. breflect.
    match goal with H : is_ok _ = true |- _ => apply parse_production_is_ok in H end.
    split_and!; try done. destruct a1; [done|by left|right]. split; [done|].
    destruct a, a0, (si_storage_ready s); simpl in *; unfold states_agree in Hstates; naive_solver.
Qed.

Lemma security_info_complete s v : security_info_ok s v → security_info_validate_strict s = Ok v.
Proof.
  destruct v as [be re po]. intros [(Hb & Hr & Hp) Hst Hf Hm Hn]; simpl in *.
  unfold security_info_validate_strict.
  rewrite (proj2 (backend_try_from_Some _ _) Hb), (proj2 (readiness_try_from_Some _ _) Hr),
    (proj2 (poison_try_from_Some _ _) Hp). cbn [ok_or mbind result_bind].
  apply namespace_table_iff in Hn as [Hl Hrows]. rewrite Hl, Z.eqb_refl, Hrows, Hf.
  unfold states_agree in Hst; simpl in Hst.
  destruct Hm as [(Hm & -> & Hc & Hs)|(Hm & Hc & He & Hs & Hpo)]; rewrite Hm; simpl;
    unfold security_credential_consistent; rewrite ?Hc, ?He, ?Hs, ?parse_production_path.
  - destruct (si_storage_ready s); destruct Hst as [-> ->]; reflexivity.
  - destruct Hpo as [->|[-> Hsr]]; [|rewrite Hsr in *];
      [destruct (si_storage_ready s)|]; destruct Hst as [-> ->]; reflexivity.
Qed.

(** A daemon status is accepted by the strict validation exactly when it is the
    status of one consistent daemon: backend state, readiness state and the ready
    flag all agree, a plaintext daemon names no credential and is never poisoned, a
    mode-1 daemon names the production credential, its one source and key epoch 1
    and is poisoned only while unavailable, the namespace table is the one table of
    its mode, and hashes, versions and paths are well formed; the states returned
    are those the message carries. *)
Theorem security_info_validate_iff s v :
  security_info_validate_strict s = Ok v ↔ security_info_ok s v.
Proof. split; [apply security_info_sound|apply security_info_complete]. Qed.

(** An accepted public status agrees with what was expected, and nothing is expected
    of a disabled daemon. *)
Theorem activation_status_iff info expected :
  validate_daemon_info_for_activation info expected = Ok () ↔
  implemented_mode (ex_active_security_mode expected) = true ∧
  (if ex_disabled expected then ex_storage_ready expected = false ∧ info = None
   else ∃ i, info = Some i ∧ daemon_info_validate_strict i = Ok () ∧
     di_active_security_mode i = ex_active_security_mode expected ∧
     di_prompt_required i = ex_prompt_required expected ∧
     di_storage_ready i = ex_storage_ready expected).
Proof.
  unfold validate_daemon_info_for_activation.
  destruct (implemented_mode _) eqn:Hm; simpl; [|by split; [|intros [? _]]].
  destruct (ex_disabled expected); simpl.
  { destruct (ex_storage_ready expected), info; naive_solver. }
  destruct info as [i|]; simpl; [|naive_solver]. split.
  - intros Hv. inv_ok. destruct a. breflect.
    repeat match goal with H : Bool.eqb _ _ = true |- _ => apply eqb_prop in H end. eauto 8.
  - intros (_ & i' & [= <-] & Hi & Hmode & Hp & Hr). rewrite Hi; simpl.
    by rewrite Hmode, Hp, Hr, Z.eqb_refl, !eqb_reflx.
Qed.
