(* ===== verification/Ipc.v ===== *)
(** * Framed messages over a socket

    The framing half of [crates/howy-common/src/ipc.rs]: a message travels as a
    four-byte big-endian length and its protobuf encoding. A [Socket] holds the
    bytes its peer will have sent, the bytes written so far and a tick counter; an
    [Os] answers, tick by tick, the calls of the source: the clock, the cancellation
    callback, setting a timeout, how many bytes a read or a write moves or how it
    fails. Every interleaving of partial transfers, interrupts, timeouts and
    failures is some [Os]. Loops take fuel and return [None] when it runs out; the
    protobuf library is the class [Message]. *)
From S2P Require Import Prelude Bytes.

Inductive ErrorKind :=
| Interrupted | WouldBlock | TimedOut | UnexpectedEof | WriteZero | InvalidDataKind
| OtherError (code : Z).
#[export] Instance ErrorKind_eq_dec : EqDecision ErrorKind.
Proof. solve_decision. Defined.
Abbreviation ioresult := (result ErrorKind).

Record Os := mkOs {
  os_now : nat → Z;
  os_cancelled : nat → bool;
  os_set_timeout : nat → Z → ioresult unit;
  os_read : nat → ioresult Z;
  os_write : nat → ioresult Z }.

Record Socket := mkSocket { sk_in : bytes; sk_out : bytes; sk_tick : nat }.

(** [prost::Message]. Encoding into a [Vec] cannot run out of room. *)
Class Message (M : Type) := {
  encoded_len : M → Z;
  encode : M → bytes;
  decode : bytes → option M }.
Class MessageLaws (M : Type) `{Message M} :=
  encoded_len_encode (m : M) : encoded_len m = len (encode m).

Definition MAX_MESSAGE_SIZE : Z := 4 * 1024 * 1024.
(** Durations are nanoseconds. *)
Definition PROMPT_READ_CANCEL_POLL : Z := 20 * 1000000.

(** A message as it travels: [len as u32] keeps the low 32 bits. *)
Definition frame {M} `{Message M} (m : M) : bytes := be32 (encoded_len m) ++ encode m.

Definition validate_message_size (length : Z) : ioresult unit :=
  if MAX_MESSAGE_SIZE <? length then Err InvalidDataKind else Ok ().

(** [WouldBlock | TimedOut], and [Interrupted] before it, are retried. *)
Definition retriable (e : ErrorKind) : bool :=
  match e with Interrupted | WouldBlock | TimedOut => true | _ => false end.

Section ipc.
  Context (os : Os).

(** ** System calls *)

Definition tick (sk : Socket) : Socket := mkSocket (sk_in sk) (sk_out sk) (S (sk_tick sk)).

(** [Instant::now] outside the loops. *)
Definition clock (sk : Socket) : Socket * Z := (tick sk, os_now os (sk_tick sk)).

(** One [read] into a buffer of [want] bytes: at least one byte unless the peer has
    closed. *)
Definition read_call (sk : Socket) (want : Z) : Socket * ioresult bytes :=
  match os_read os (sk_tick sk) with
  | Err e => (tick sk, Err e)
  | Ok n =>
      let k := Z.to_nat (Z.min (Z.max 1 n) want) in
      (mkSocket (drop k (sk_in sk)) (sk_out sk) (S (sk_tick sk)), Ok (take k (sk_in sk)))
  end.

(** One [write]: it may take any part of what it is given. *)
Definition write_call (sk : Socket) (source : bytes) : Socket * ioresult Z :=
  match os_write os (sk_tick sk) with
  | Err e => (tick sk, Err e)
  | Ok n =>
      let k := Z.min (Z.max 0 n) (len source) in
      (mkSocket (sk_in sk) (sk_out sk ++ take (Z.to_nat k) source) (S (sk_tick sk)), Ok k)
  end.

(** ** Standard library loops: [Read::read_exact], [Write::write_all] *)

Fixpoint read_exact (fuel : nat) (sk : Socket) (want : Z) (acc : bytes)
    : option (Socket * ioresult bytes) :=
  if want <=? 0 then Some (sk, Ok acc)
  else match fuel with
  | O => None
  | S fuel' =>
      match read_call sk want with
      | (sk, Ok []) => Some (sk, Err UnexpectedEof)
      | (sk, Ok chunk) => read_exact fuel' sk (want - len chunk) (acc ++ chunk)
      | (sk, Err Interrupted) => read_exact fuel' sk want acc
      | (sk, Err e) => Some (sk, Err e)
      end
  end.

Fixpoint write_all (fuel : nat) (sk : Socket) (source : bytes)
    : option (Socket * ioresult unit) :=
  match source with
  | [] => Some (sk, Ok ())
  | _ =>
      match fuel with
      | O => None
      | S fuel' =>
          match write_call sk source with
          | (sk, Ok n) =>
              if n =? 0 then Some (sk, Err WriteZero)
              else write_all fuel' sk (drop (Z.to_nat n) source)
          | (sk, Err Interrupted) => write_all fuel' sk source
          | (sk, Err e) => Some (sk, Err e)
          end
      end
  end.

(** ** Deadline loops *)

(** [read_exact_until]: cancellation and the clock are consulted before every read. *)
Fixpoint read_exact_until (fuel : nat) (polled : bool) (sk : Socket) (want : Z) (acc : bytes)
    (deadline : Z) : option (Socket * ioresult bytes) :=
  if want <=? 0 then Some (sk, Ok acc)
  else match fuel with
  | O => None
  | S fuel' =>
      if polled && os_cancelled os (sk_tick sk) then Some (sk, Err Interrupted)
      else
        let remaining := Z.max 0 (deadline - os_now os (sk_tick sk)) in
        if remaining =? 0 then Some (sk, Err TimedOut)
        else
          match os_set_timeout os (sk_tick sk) (Z.min remaining PROMPT_READ_CANCEL_POLL) with
          | Err e => Some (sk, Err e)
          | Ok _ =>
              match read_call sk want with
              | (sk, Ok []) => Some (sk, Err UnexpectedEof)
              | (sk, Ok chunk) =>
                  read_exact_until fuel' polled sk (want - len chunk) (acc ++ chunk) deadline
              | (sk, Err e) =>
                  if retriable e then read_exact_until fuel' polled sk want acc deadline
                  else Some (sk, Err e)
              end
          end
  end.

(** [write_all_until] *)
Fixpoint write_all_until (fuel : nat) (sk : Socket) (source : bytes) (deadline : Z)
    : option (Socket * ioresult unit) :=
  match source with
  | [] => Some (sk, Ok ())
  | _ =>
      match fuel with
      | O => None
      | S fuel' =>
          let remaining := Z.max 0 (deadline - os_now os (sk_tick sk)) in
          if remaining =? 0 then Some (sk, Err TimedOut)
          else
            match os_set_timeout os (sk_tick sk) remaining with
            | Err e => Some (sk, Err e)
            | Ok _ =>
                match write_call sk source with
                | (sk, Ok n) =>
                    if n =? 0 then Some (sk, Err WriteZero)
                    else write_all_until fuel' sk (drop (Z.to_nat n) source) deadline
                | (sk, Err e) =>
                    if retriable e then write_all_until fuel' sk source deadline
                    else Some (sk, Err e)
                end
            end
      end
  end.

(** ** Messages *)

Context {M : Type} `{Message M}.

Definition decode_message (payload : bytes) : ioresult M := ok_or (decode payload) InvalidDataKind.

(** [send_message], [send_prompt_message] and [send_message_reuse] differ in who owns
    the buffer. Flushing a [UnixStream] does nothing. *)
Definition send_message (fuel : nat) (sk : Socket) (m : M) : option (Socket * ioresult unit) :=
  write_all fuel sk (frame m).

(** [recv_message], [recv_prompt_message] *)
Definition recv_message (fuel : nat) (sk : Socket) : option (Socket * ioresult M) :=
  match read_exact fuel sk 4 [] with
  | None => None
  | Some (sk, Err e) => Some (sk, Err e)
  | Some (sk, Ok prefix) =>
      match validate_message_size (from_be prefix) with
      | Err e => Some (sk, Err e)
      | Ok _ =>
          match read_exact fuel sk (from_be prefix) [] with
          | None => None
          | Some (sk, Err e) => Some (sk, Err e)
          | Some (sk, Ok payload) => Some (sk, decode_message payload)
          end
      end
  end.

(** [recv_prompt_message_until]; [polled] is whether the caller passes a cancellation
    callback other than [|| false]. *)
Definition recv_prompt_message_until (fuel : nat) (polled : bool) (sk : Socket) (deadline : Z)
    : option (Socket * ioresult M) :=
  match read_exact_until fuel polled sk 4 [] deadline with
  | None => None
  | Some (sk, Err e) => Some (sk, Err e)
  | Some (sk, Ok prefix) =>
      match validate_message_size (from_be prefix) with
      | Err e => Some (sk, Err e)
      | Ok _ =>
          match read_exact_until fuel polled sk (from_be prefix) [] deadline with
          | None => None
          | Some (sk, Err e) => Some (sk, Err e)
          | Some (sk, Ok payload) => Some (sk, decode_message payload)
          end
      end
  end.

(** [send_message_until] *)
Definition send_message_until (fuel : nat) (sk : Socket) (m : M) (deadline : Z)
    : option (Socket * ioresult unit) :=
  match validate_message_size (encoded_len m) with
  | Err e => Some (sk, Err e)
  | Ok _ =>
      match write_all_until fuel sk (frame m) deadline with
      | None => None
      | Some (sk, Err e) => Some (sk, Err e)
      | Some (sk, Ok _) =>
          let '(sk', now) := clock sk in
          if Z.max 0 (deadline - now) =? 0 then Some (sk', Err TimedOut)
          else match os_set_timeout os (sk_tick sk) (Z.max 0 (deadline - now)) with
               | Err e => Some (sk', Err e)
               | Ok _ => Some (sk', Ok ())
               end
      end
  end.
End ipc.

(** * Framing: what is read and written

    Specifications of the transfer loops of [Ipc] in terms of bytes, for every
    behaviour of the operating system, and the framing theorems: a frame is received
    whole and unchanged however it is fragmented, one deadline bounds the whole
    exchange, and nothing beyond the frame is consumed. *)

Section transfer.
  Context (os : Os).

(** A failure the operating system reported. *)
Definition os_fault (e : ErrorKind) : Prop :=
  ∃ t, os_read os t = Err e ∨ os_write os t = Err e ∨ ∃ d, os_set_timeout os t d = Err e.

(** Why a deadline loop gave up at a tick, the peer's close apart. *)
Definition stopped (polled : bool) (deadline : Z) (t : nat) (e : ErrorKind) : Prop :=
  (e = Interrupted ∧ polled = true ∧ os_cancelled os t = true)
  ∨ (e = TimedOut ∧ deadline ≤ os_now os t) ∨ os_fault e.

(** [sk'] is [sk] after [d] was read. *)
Definition consumed (sk : Socket) (d : bytes) (sk' : Socket) : Prop :=
  sk_in sk = d ++ sk_in sk' ∧ sk_out sk' = sk_out sk ∧ (sk_tick sk ≤ sk_tick sk')%nat.
(** [sk'] is [sk] after [d] was written. *)
Definition emitted (sk : Socket) (d : bytes) (sk' : Socket) : Prop :=
  sk_out sk' = sk_out sk ++ d ∧ sk_in sk' = sk_in sk ∧ (sk_tick sk ≤ sk_tick sk')%nat.

(** The clock stayed before the deadline, and no cancellation was seen, at every tick
    from one socket state to a later one. *)
Definition in_time (polled : bool) (deadline : Z) (sk sk' : Socket) : Prop :=
  ∀ t, (sk_tick sk ≤ t < sk_tick sk')%nat →
    os_now os t < deadline ∧ (polled = true → os_cancelled os t = false).

Lemma consumed_refl sk : consumed sk [] sk.
Proof. done. Qed.
Lemma consumed_trans sk d sk1 e sk2 :
  consumed sk d sk1 → consumed sk1 e sk2 → consumed sk (d ++ e) sk2.
Proof.
  intros (H1 & H2 & H3) (H4 & H5 & H6). split_and!; [|congruence|lia].
  by rewrite H1, H4, (assoc_L (++)).
Qed.
Lemma emitted_refl sk : emitted sk [] sk.
Proof. by split_and!; [rewrite app_nil_r| |]. Qed.
Lemma emitted_trans sk d sk1 e sk2 :
  emitted sk d sk1 → emitted sk1 e sk2 → emitted sk (d ++ e) sk2.
Proof.
  intros (H1 & H2 & H3) (H4 & H5 & H6). split_and!; [|congruence|lia].
  by rewrite H4, H1, (assoc_L (++)).
Qed.
Lemma in_time_trans polled dl sk sk1 sk2 :
  in_time polled dl sk sk1 → in_time polled dl sk1 sk2 → in_time polled dl sk sk2.
Proof. intros H1 H2 t Ht. destruct (decide (t < sk_tick sk1)%nat); [apply H1|apply H2]; lia. Qed.

Lemma read_call_Ok sk want sk' chunk :
  0 < want → read_call os sk want = (sk', Ok chunk) →
  consumed sk chunk sk' ∧ sk_tick sk' = S (sk_tick sk) ∧ len chunk ≤ want
  ∧ (chunk = [] → sk_in sk = []).
Proof.
  unfold read_call. intros Hw. destruct (os_read os (sk_tick sk)) as [n|e]; [|done].
  intros [= <- <-]. unfold consumed, len. simpl. rewrite take_drop, length_take.
  split_and!; try done; [lia|lia|]. intros Hc. destruct (sk_in sk); [done|].
  destruct (Z.to_nat (Z.min (Z.max 1 n) want)) eqn:E; [lia|done].
Qed.
Lemma read_call_Err sk want sk' e :
  read_call os sk want = (sk', Err e) → sk' = tick sk ∧ os_fault e.
Proof.
  unfold read_call. destruct (os_read os (sk_tick sk)) eqn:E; [done|]. intros [= <- <-].
  split; [done|]. exists (sk_tick sk). auto.
Qed.
Lemma write_call_Ok sk source sk' n :
  write_call os sk source = (sk', Ok n) →
  emitted sk (take (Z.to_nat n) source) sk' ∧ sk_tick sk' = S (sk_tick sk) ∧ 0 ≤ n ≤ len source.
Proof.
  unfold write_call. destruct (os_write os (sk_tick sk)) as [k|e]; [|done].
  intros [= <- <-]. unfold emitted. simpl. pose proof (len_nonneg source).
  split_and!; [done|done|lia|done|lia|lia].
Qed.
Lemma write_call_Err sk source sk' e :
  write_call os sk source = (sk', Err e) → sk' = tick sk ∧ os_fault e.
Proof.
  unfold write_call. destruct (os_write os (sk_tick sk)) eqn:E; [done|]. intros [= <- <-].
  split; [done|]. exists (sk_tick sk). auto.
Qed.
Lemma consumed_tick sk : consumed sk [] (tick sk).
Proof. unfold consumed, tick; simpl. split_and!; [done|done|lia]. Qed.
Lemma emitted_tick sk : emitted sk [] (tick sk).
Proof. unfold emitted, tick; simpl. rewrite app_nil_r. split_and!; [done|done|lia]. Qed.

(** ** The deadline read loop *)

Lemma read_exact_until_spec fuel polled sk want acc dl sk' r :
  0 ≤ want → read_exact_until os fuel polled sk want acc dl = Some (sk', r) →
  ∃ d, consumed sk d sk' ∧
    match r with
    | Ok b => b = acc ++ d ∧ len d = want ∧ in_time polled dl sk sk'
    | Err e => stopped polled dl (sk_tick sk') e
               ∨ (e = UnexpectedEof ∧ sk_in sk' = [] ∧ len d < want)
    end.
Proof.
  revert sk want acc. induction fuel as [|fuel IH]; intros sk want acc Hw Hr; cbn in Hr.
  all: destruct (Z.leb_spec want 0) as [Hz|Hz].
  1,3: injection Hr as <- <-; exists []; rewrite app_nil_r, len_nil;
       split_and!; [apply consumed_refl|done|lia|intros t; lia].
  { done. }
  destruct (polled && os_cancelled os (sk_tick sk)) eqn:Hc.
  { injection Hr as <- <-. exists []. split; [apply consumed_refl|]. left. left. breflect. done. }
  destruct (Z.eqb_spec (Z.max 0 (dl - os_now os (sk_tick sk))) 0) as [Hd|Hd].
  { injection Hr as <- <-. exists []. split; [apply consumed_refl|]. left. right. left. split; [done|lia]. }
  destruct (os_set_timeout _ _ _) eqn:Ht.
  2: { injection Hr as <- <-. exists []. split; [apply consumed_refl|]. left. right. right.
       exists (sk_tick sk). eauto. }
  destruct (read_call os sk want) as [sk1 [chunk|e]] eqn:Hread.
  - apply read_call_Ok in Hread as (Hcons & Htick & Hlen & Hnil); [|done].
    assert (Hstep : in_time polled dl sk sk1).
    { intros t Hin. assert (t = sk_tick sk) as -> by lia. split; [lia|]. intros ->. done. }
    destruct chunk as [|b chunk].
    { injection Hr as <- <-. exists []. split; [done|]. right.
      destruct Hcons as (Hin & _ & _). simpl in Hin. rewrite <- Hin, (Hnil eq_refl).
      split_and!; [done|done|rewrite len_nil; lia]. }
    apply IH in Hr as (d & Hd' & Hr); [|lia].
    exists ((b :: chunk) ++ d). split; [by eapply consumed_trans|].
    rewrite len_app. destruct r as [r|e].
    + destruct Hr as (-> & Hl & Hin). rewrite (assoc_L (++)).
      split_and!; [done|lia|by eapply in_time_trans].
    + destruct Hr as [Hr|(-> & Hin & Hl)]; [by left|right]. split_and!; [done|done|lia].
  - apply read_call_Err in Hread as [-> Hf]. destruct (retriable e).
    + assert (Hstep : in_time polled dl sk (tick sk)).
      { intros t Hin. cbn in Hin. assert (t = sk_tick sk) as -> by lia. split; [lia|]. intros ->. done. }
      apply IH in Hr as (d & Hd' & Hr); [|done]. exists d.
      split; [by apply (consumed_trans _ [] _ _ _ (consumed_tick sk))|].
      destruct r; [|done]. destruct Hr as (-> & Hl & Hin). split_and!; [done|done|].
      by eapply in_time_trans.
    + injection Hr as <- <-. exists []. split; [apply consumed_tick|]. left. right. by right.
Qed.

(** The deadline loop returns once the clock has passed the deadline. *)
Lemma read_exact_until_returns N fuel polled sk want acc dl :
  (∀ t, (N ≤ t)%nat → dl ≤ os_now os t) → (N - sk_tick sk < fuel)%nat → 0 ≤ want →
  is_Some (read_exact_until os fuel polled sk want acc dl).
Proof.
  intros HN. revert sk want acc. induction fuel as [|fuel IH]; intros sk want acc Hf Hw; [lia|].
  cbn. destruct (Z.leb_spec want 0); [done|].
  destruct (polled && os_cancelled os (sk_tick sk)); [done|].
  destruct (Z.eqb_spec (Z.max 0 (dl - os_now os (sk_tick sk))) 0) as [|Hd]; [done|].
  assert (sk_tick sk < N)%nat.
  { destruct (decide (N ≤ sk_tick sk)%nat) as [Hle|]; [specialize (HN _ Hle)|]; lia. }
  destruct (os_set_timeout _ _ _); [|done].
  destruct (read_call os sk want) as [sk1 [chunk|e]] eqn:Hread.
  - apply read_call_Ok in Hread as (_ & Htick & Hlen & _); [|done].
    destruct chunk as [|b chunk]; [done|]. apply IH; [lia|lia].
  - apply read_call_Err in Hread as [-> _]. destruct (retriable e); [|done].
    apply IH; [cbn; lia|done].
Qed.

(** ** The other loops *)

Lemma read_exact_spec fuel sk want acc sk' r :
  0 ≤ want → read_exact os fuel sk want acc = Some (sk', r) →
  ∃ d, consumed sk d sk' ∧
    match r with
    | Ok b => b = acc ++ d ∧ len d = want
    | Err e => os_fault e ∨ (e = UnexpectedEof ∧ sk_in sk' = [] ∧ len d < want)
    end.
Proof.
  revert sk want acc. induction fuel as [|fuel IH]; intros sk want acc Hw Hr; cbn in Hr.
  all: destruct (Z.leb_spec want 0) as [Hz|Hz].
  1,3: injection Hr as <- <-; exists []; rewrite app_nil_r, len_nil;
       split_and!; [apply consumed_refl|done|lia].
  { done. }
  destruct (read_call os sk want) as [sk1 [chunk|e]] eqn:Hread.
  - apply read_call_Ok in Hread as (Hcons & Htick & Hlen & Hnil); [|done].
    destruct chunk as [|b chunk].
    { injection Hr as <- <-. exists []. split; [done|]. right.
      destruct Hcons as (Hin & _ & _). simpl in Hin. rewrite <- Hin, (Hnil eq_refl).
      split_and!; [done|done|rewrite len_nil; lia]. }
    apply IH in Hr as (d & Hd' & Hr); [|lia].
    exists ((b :: chunk) ++ d). split; [by eapply consumed_trans|].
    rewrite len_app. destruct r as [r|e].
    + destruct Hr as (-> & Hl). rewrite (assoc_L (++)). split_and!; [done|lia].
    + destruct Hr as [Hr|(-> & Hin & Hl)]; [by left|right]. split_and!; [done|done|lia].
  - apply read_call_Err in Hread as [-> Hf].
    assert (Hgo : ∀ sk'' r'', Some (tick sk, Err e) = Some (sk'', r'') →
      ∃ d, consumed sk d sk'' ∧ match r'' with
        | Ok b => b = acc ++ d ∧ len d = want
        | Err e => os_fault e ∨ (e = UnexpectedEof ∧ sk_in sk'' = [] ∧ len d < want) end).
    { intros ? ? [= <- <-]. exists []. split; [apply consumed_tick|by left]. }
    destruct e; try by apply Hgo.
    apply IH in Hr as (d & Hd' & Hr); [|done]. exists d.
    split; [by apply (consumed_trans _ [] _ _ _ (consumed_tick sk))|done].
Qed.

Lemma write_all_spec fuel sk source sk' r :
  write_all os fuel sk source = Some (sk', r) →
  ∃ w rest, source = w ++ rest ∧ emitted sk w sk' ∧
    match r with Ok _ => rest = [] | Err e => os_fault e ∨ e = WriteZero end.
Proof.
  revert sk source. induction fuel as [|fuel IH]; intros sk source Hr; cbn in Hr.
  all: destruct source as [|b source];
    [injection Hr as <- <-; exists [], []; split_and!; [done|apply emitted_refl|done]|].
  { done. }
  destruct (write_call os sk (b :: source)) as [sk1 [n|e]] eqn:Hw.
  - apply write_call_Ok in Hw as (He & Ht & Hn). destruct (Z.eqb_spec n 0) as [->|Hne].
    { injection Hr as <- <-. exists [], (b :: source). split_and!; [done|done|by right]. }
    apply IH in Hr as (w & rest & Hs & He' & Hr).
    exists (take (Z.to_nat n) (b :: source) ++ w), rest.
    split_and!; [by rewrite <- (assoc_L (++)), <- Hs, take_drop|by eapply emitted_trans|done].
  - apply write_call_Err in Hw as [-> Hf].
    assert (Hgo : ∀ sk'' (r'' : ioresult unit), Some (tick sk, Err e) = Some (sk'', r'') →
      ∃ w rest, b :: source = w ++ rest ∧ emitted sk w sk'' ∧
        match r'' with Ok _ => rest = [] | Err e => os_fault e ∨ e = WriteZero end).
    { intros ? ? [= <- <-]. exists [], (b :: source). split_and!; [done|apply emitted_tick|by left]. }
    destruct e; try by apply Hgo.
    apply IH in Hr as (w & rest & Hs & He' & Hr). exists w, rest.
    split_and!; [done|by apply (emitted_trans _ [] _ _ _ (emitted_tick sk))|done].
Qed.

Lemma write_all_until_spec fuel sk source dl sk' r :
  write_all_until os fuel sk source dl = Some (sk', r) →
  ∃ w rest, source = w ++ rest ∧ emitted sk w sk' ∧
    match r with
    | Ok _ => rest = []
    | Err e => stopped false dl (sk_tick sk') e ∨ e = WriteZero
    end.
Proof.
  revert sk source. induction fuel as [|fuel IH]; intros sk source Hr; cbn in Hr.
  all: destruct source as [|b source];
    [injection Hr as <- <-; exists [], []; split_and!; [done|apply emitted_refl|done]|].
  { done. }
  destruct (Z.eqb_spec (Z.max 0 (dl - os_now os (sk_tick sk))) 0) as [Hd|Hd].
  { injection Hr as <- <-. exists [], (b :: source). split_and!; [done|apply emitted_refl|].
    left. right. left. split; [done|lia]. }
  destruct (os_set_timeout _ _ _) eqn:Ht.
  2: { injection Hr as <- <-. exists [], (b :: source). split_and!; [done|apply emitted_refl|].
       left. right. right. exists (sk_tick sk). eauto. }
  destruct (write_call os sk (b :: source)) as [sk1 [n|e]] eqn:Hw.
  - apply write_call_Ok in Hw as (He & Htk & Hn). destruct (Z.eqb_spec n 0) as [->|Hne].
    { injection Hr as <- <-. exists [], (b :: source). split_and!; [done|done|by right]. }
    apply IH in Hr as (w & rest & Hs & He' & Hr).
    exists (take (Z.to_nat n) (b :: source) ++ w), rest.
    split_and!; [by rewrite <- (assoc_L (++)), <- Hs, take_drop|by eapply emitted_trans|done].
  - apply write_call_Err in Hw as [-> Hf]. destruct (retriable e).
    + apply IH in Hr as (w & rest & Hs & He' & Hr). exists w, rest.
      split_and!; [done|by apply (emitted_trans _ [] _ _ _ (emitted_tick sk))|done].
    + injection Hr as <- <-. exists [], (b :: source). split_and!; [done|apply emitted_tick|].
      left. right. by right.
Qed.
End transfer.

(** ** Messages *)

Lemma be32_length_prefix (p q r s : bytes) :
  len p ≤ U32_MAX → len q ≤ U32_MAX →
  be32 (len p) ++ p ++ r = be32 (len q) ++ q ++ s → p = q ∧ r = s.
Proof.
  intros Hp Hq Heq. pose proof (len_nonneg p). pose proof (len_nonneg q).
  apply app_inj_1 in Heq as [Hl Heq]; [|by rewrite !length_be32].
  apply (f_equal from_be) in Hl. rewrite !from_be_be32 in Hl by lia.
  apply app_inj_1 in Heq as [-> ->]; [done|]. unfold len in Hl. lia.
Qed.

Lemma message_size_u32 n : n ≤ MAX_MESSAGE_SIZE → n ≤ U32_MAX.
Proof. unfold MAX_MESSAGE_SIZE. unfold_max. lia. Qed.

Section messages.
  Context (os : Os) {M : Type} `{Message M}.
  Implicit Types (sk : Socket) (m : M).

(** What a successful receive read. *)
Lemma recv_until_Ok fuel polled sk dl sk' m :
  recv_prompt_message_until os fuel polled sk dl = Some (sk', Ok m) →
  ∃ payload, consumed sk (be32 (len payload) ++ payload) sk' ∧ len payload ≤ MAX_MESSAGE_SIZE
    ∧ decode payload = Some m ∧ in_time os polled dl sk sk'.
Proof.
  unfold recv_prompt_message_until. intros Hr.
  destruct (read_exact_until _ _ _ sk _ _ _) as [[sk1 [prefix|]]|] eqn:Hp; try done.
  apply read_exact_until_spec in Hp as (d & Hc1 & -> & Hl & Ht1); [|lia]. cbn [app] in *.
  destruct (validate_message_size _) eqn:Hv; [|done].
  unfold validate_message_size in Hv. inv_ok. breflect.
  destruct (read_exact_until _ _ _ sk1 _ _ _) as [[sk2 [payload|]]|] eqn:Hq; try done.
  apply read_exact_until_spec in Hq as (d2 & Hc2 & -> & Hl2 & Ht2).
  2: { pose proof (le_combine_bound (reverse d)). unfold from_be. lia. }
  injection Hr as <- Hd. unfold decode_message in Hd. inv_ok. cbn [app] in *.
  exists d2. rewrite Hl2, be32_from_be by (unfold len in Hl; lia).
  split_and!; [by eapply consumed_trans|lia|done|by eapply in_time_trans].
Qed.

(** A receive only consumes. *)
Lemma recv_until_consumed fuel polled sk dl sk' r :
  recv_prompt_message_until (M:=M) os fuel polled sk dl = Some (sk', r) → ∃ d, consumed sk d sk'.
Proof.
  unfold recv_prompt_message_until. intros Hr.
  destruct (read_exact_until _ _ _ sk _ _ _) as [[sk1 p]|] eqn:Hp; [|done].
  apply read_exact_until_spec in Hp as (d & Hc1 & _); [|lia].
  destruct p as [prefix|e]; [|naive_solver].
  destruct (validate_message_size _); [|naive_solver].
  destruct (read_exact_until _ _ _ sk1 _ _ _) as [[sk2 q]|] eqn:Hq; [|done].
  apply read_exact_until_spec in Hq as (d2 & Hc2 & _).
  2: { pose proof (le_combine_bound (reverse prefix)). unfold from_be. lia. }
  exists (d ++ d2). destruct q; injection Hr as <- _; by eapply consumed_trans.
Qed.

(** Whatever arrives, a receive ends with a message, a failure of its own, the peer's
    close, or a frame that is too large or not decodable. *)
Lemma recv_until_frame fuel polled sk dl sk' r payload rest :
  sk_in sk = be32 (len payload) ++ payload ++ rest → len payload ≤ U32_MAX →
  recv_prompt_message_until os fuel polled sk dl = Some (sk', r) →
  (len payload ≤ MAX_MESSAGE_SIZE ∧ r = decode_message payload ∧ sk_in sk' = rest
    ∧ in_time os polled dl sk sk')
  ∨ (MAX_MESSAGE_SIZE < len payload ∧ r = Err InvalidDataKind ∧ sk_in sk' = payload ++ rest)
  ∨ (∃ e, r = Err e ∧ stopped os polled dl (sk_tick sk') e).
Proof.
  intros Hin Hlp Hr. unfold recv_prompt_message_until in Hr.
  destruct (read_exact_until _ _ _ sk _ _ _) as [[sk1 p]|] eqn:Hp; [|done].
  apply read_exact_until_spec in Hp as (d & (Hc1 & Ho1 & Hk1) & Hp); [|lia].
  destruct p as [prefix|e].
  2: { injection Hr as <- <-. destruct Hp as [Hs|(-> & He & Hl)]; [eauto|].
       rewrite Hin, He, app_nil_r in Hc1. apply (f_equal length) in Hc1.
       rewrite !length_app, length_be32 in Hc1. unfold len in Hl. lia. }
  destruct Hp as (-> & Hl & Ht1). cbn [app] in *.
  rewrite Hin in Hc1. pose proof (len_nonneg payload) as Hn.
  apply app_inj_1 in Hc1 as [<- Hc1]; [|rewrite length_be32; unfold len in Hl; lia].
  rewrite (from_be_be32 (len payload)) in Hr by lia.
  unfold validate_message_size in Hr. destruct (Z.ltb_spec MAX_MESSAGE_SIZE (len payload)).
  { injection Hr as <- <-. eauto 8. }
  destruct (read_exact_until _ _ _ sk1 _ _ _) as [[sk2 q]|] eqn:Hq; [|done].
  apply read_exact_until_spec in Hq as (d2 & (Hc2 & Ho2 & Hk2) & Hq); [|lia].
  destruct q as [q|e].
  2: { injection Hr as <- <-. destruct Hq as [Hs|(-> & He & Hl2)]; [eauto|].
       rewrite <- Hc1, He, app_nil_r in Hc2. apply (f_equal length) in Hc2.
       rewrite !length_app in Hc2. unfold len in Hl2. lia. }
  destruct Hq as (-> & Hl2 & Ht2). cbn [app] in *. injection Hr as <- <-.
  rewrite <- Hc1 in Hc2. apply app_inj_1 in Hc2 as [<- <-]; [|unfold len in Hl2; lia].
  left. split_and!; [lia|done|done|by eapply in_time_trans].
Qed.

(** A receive returns once the clock has passed its deadline. *)
Lemma recv_until_returns N fuel polled sk dl :
  (∀ t, (N ≤ t)%nat → dl ≤ os_now os t) → (N - sk_tick sk < fuel)%nat →
  ∃ sk' r, recv_prompt_message_until (M:=M) os fuel polled sk dl = Some (sk', r).
Proof.
  intros HN Hf. unfold recv_prompt_message_until.
  destruct (read_exact_until_returns os N fuel polled sk 4 [] dl HN Hf ltac:(lia)) as [[sk1 p] Hp].
  rewrite Hp. apply read_exact_until_spec in Hp as (d & (_ & _ & Hk) & Hp); [|lia].
  destruct p as [prefix|e]; [|eauto]. destruct (validate_message_size _); [|eauto].
  assert (0 ≤ from_be prefix).
  { pose proof (le_combine_bound (reverse prefix)). unfold from_be. lia. }
  destruct (read_exact_until_returns os N fuel polled sk1 (from_be prefix) [] dl HN ltac:(lia) ltac:(lia))
    as [[sk2 q] Hq]. rewrite Hq. destruct q; eauto.
Qed.

Lemma send_message_spec fuel sk m sk' r :
  send_message os fuel sk m = Some (sk', r) →
  ∃ w rest, frame m = w ++ rest ∧ emitted sk w sk' ∧ (∀ u, r = Ok u → rest = []).
Proof.
  unfold send_message. intros (w & rest & Hs & He & Hr)%write_all_spec.
  exists w, rest. split_and!; [done|done|]. intros u ->. done.
Qed.

Lemma send_message_until_spec fuel sk m dl sk' r :
  send_message_until os fuel sk m dl = Some (sk', r) →
  ∃ w rest, frame m = w ++ rest ∧ emitted sk w sk' ∧
    (∀ u, r = Ok u → rest = [] ∧ encoded_len m ≤ MAX_MESSAGE_SIZE).
Proof.
  unfold send_message_until, validate_message_size.
  destruct (Z.ltb_spec MAX_MESSAGE_SIZE (encoded_len m)).
  { intros [= <- <-]. exists [], (frame m). split_and!; [done|apply emitted_refl|done]. }
  destruct (write_all_until _ _ _ _ _) as [[sk1 w]|] eqn:Hw; [|done].
  apply write_all_until_spec in Hw as (w' & rest & Hs & He & Hw).
  assert (Htk : emitted sk w' (tick sk1)).
  { rewrite <- (app_nil_r w'). by eapply emitted_trans, emitted_tick. }
  destruct w as [u|e]; [|by intros [= <- <-]; exists w', rest].
  subst rest. simpl. intros Hr.
  repeat case_match; injection Hr as <- <-; exists w', []; naive_solver.
Qed.
End messages.

(** ** Framing *)

Section framing.
  Context (os : Os) {M : Type} `{MessageLaws M}.

(** One frame, one message, one deadline. When the peer's bytes begin with the
    frame of a message the protobuf library decodes back, and the clock reaches the
    deadline at some point, a receive returns, however the bytes are fragmented and
    whatever interrupts, timeouts or failures the system reports. It returns exactly
    that message and leaves exactly the bytes after its frame, with every read made
    before the one deadline and before cancellation; or, if it fails, the deadline
    had passed, cancellation was requested or the system reported the failure: a
    partial read never renews the timeout and no part of a frame is taken for a
    message. *)
Theorem frame_received (m : M) N fuel polled sk rest dl :
  sk_in sk = frame m ++ rest →
  encoded_len m ≤ MAX_MESSAGE_SIZE → decode (encode m) = Some m →
  (∀ t, (N ≤ t)%nat → dl ≤ os_now os t) → (N - sk_tick sk < fuel)%nat →
  ∃ sk' r, recv_prompt_message_until os fuel polled sk dl = Some (sk', r) ∧
    ((r = Ok m ∧ sk_in sk' = rest ∧ in_time os polled dl sk sk')
     ∨ ∃ e, r = Err e ∧ stopped os polled dl (sk_tick sk') e).
Proof.
  intros Hin Hmax Hdec HN Hf.
  destruct (recv_until_returns (M:=M) os N fuel polled sk dl HN Hf) as (sk' & r & Hr).
  exists sk', r. split; [done|]. unfold frame in Hin. rewrite encoded_len_encode in *.
  rewrite <- (assoc_L (++)) in Hin.
  destruct (recv_until_frame os _ _ _ _ _ _ _ _ Hin (message_size_u32 _ Hmax) Hr)
    as [(_ & -> & Hin' & Ht)|[(Hgt & _)|Hs]]; [|lia|by right].
  left. unfold decode_message. by rewrite Hdec.
Qed.

(** A length prefix above 4 MiB is refused as soon as it is read: no payload byte
    is consumed (and so none is allocated for), whatever follows. *)
Theorem oversized_frame_refused fuel polled sk dl sk' r (payload rest : bytes) :
  sk_in sk = be32 (len payload) ++ payload ++ rest →
  MAX_MESSAGE_SIZE < len payload ≤ U32_MAX →
  recv_prompt_message_until (M:=M) os fuel polled sk dl = Some (sk', r) →
  ∃ e, r = Err e ∧
    (e = InvalidDataKind ∧ sk_in sk' = payload ++ rest ∨ stopped os polled dl (sk_tick sk') e).
Proof.
  intros Hin Hlen Hr.
  destruct (recv_until_frame os _ _ _ _ _ _ _ _ Hin ltac:(lia) Hr)
    as [(? & _)|[(_ & -> & Hin')|(e & -> & Hs)]]; [lia|eauto..].
Qed.

(** What a deadline-bounded send writes is a prefix of the message's frame, and
    the whole frame when it succeeds; a receiver that finds those bytes, under any
    later deadline and any fragmentation, gets the message that was sent or fails for
    a reason of its own. *)
Theorem sent_frame_received (m : M) fuel sk sdl sk1 u os' N fuel' polled t dl :
  send_message_until os fuel (mkSocket (sk_in sk) [] (sk_tick sk)) m sdl = Some (sk1, Ok u) →
  decode (encode m) = Some m →
  (∀ t, (N ≤ t)%nat → dl ≤ os_now os' t) → (N - t < fuel')%nat →
  sk_out sk1 = frame m ∧
  ∃ sk' r, recv_prompt_message_until os' fuel' polled (mkSocket (sk_out sk1) [] t) dl
             = Some (sk', r) ∧
    ((r = Ok m ∧ sk_in sk' = []) ∨ ∃ e, r = Err e ∧ stopped os' polled dl (sk_tick sk') e).
Proof.
  intros Hs Hdec HN Hf.
  apply send_message_until_spec in Hs as (w & rest & Hw & (Hout & _) & Hr).
  destruct (Hr u eq_refl) as [-> Hmax]. rewrite app_nil_r in Hw. cbn in Hout. subst w.
  split; [done|]. rewrite Hout.
  destruct (recv_until_returns (M:=M) os' N fuel' polled (mkSocket (frame m) [] t) dl HN Hf)
    as (sk' & r & Hrecv). exists sk', r. split; [done|].
  rewrite encoded_len_encode in Hmax.
  destruct (recv_until_frame os' fuel' polled (mkSocket (frame m) [] t) dl sk' r (encode m) [])
    as [(_ & -> & Hin' & Ht)|[(Hgt & _)|Hst]]; [|by apply message_size_u32|done| |lia|by right].
  - cbn. unfold frame. by rewrite app_nil_r, encoded_len_encode.
  - left. unfold decode_message. by rewrite Hdec.
Qed.
End framing.

(** ** Witnesses: byte strings as messages over a socket that fragments *)

#[local] Instance bytes_message : Message bytes :=
  {| encoded_len := len; encode := λ b, b; decode := Some |}.
#[local] Instance bytes_message_laws : MessageLaws bytes := λ _, eq_refl.

(** The clock advances by ten per tick; every third read is interrupted, the others
    deliver two bytes; writes take three bytes. *)
Definition demo_os : Os :=
  mkOs (λ t, 10 * Z.of_nat t) (λ _, false) (λ _ _, Ok ())
    (λ t, if Nat.eqb (t mod 3) 0 then Err Interrupted else Ok 2) (λ _, Ok 3).

Lemma demo_os_clock n t : (n ≤ t)%nat → 10 * Z.of_nat n ≤ os_now demo_os t.
Proof. cbn. lia. Qed.

Lemma frame_received_witness :
  ∃ sk' r, recv_prompt_message_until demo_os 101 true
             (mkSocket (frame (bs "hello") ++ bs "next") [] 0) 1000 = Some (sk', r) ∧
    ((r = Ok (bs "hello") ∧ sk_in sk' = bs "next"
      ∧ in_time demo_os true 1000 (mkSocket (frame (bs "hello") ++ bs "next") [] 0) sk')
     ∨ ∃ e, r = Err e ∧ stopped demo_os true 1000 (sk_tick sk') e).
Proof.
  apply (frame_received demo_os (bs "hello") 100 101 true
           (mkSocket (frame (bs "hello") ++ bs "next") [] 0) (bs "next") 1000);
    [reflexivity|vm_compute; congruence|reflexivity|apply (demo_os_clock 100)|cbn; lia].
Defined.

Definition oversized_payload : bytes := replicate (Z.to_nat (MAX_MESSAGE_SIZE + 1)) Byte.x41.

Lemma oversized_payload_len : len oversized_payload = MAX_MESSAGE_SIZE + 1.
Proof.
  unfold oversized_payload, len. rewrite length_replicate, Z2Nat.id; [done|].
  unfold MAX_MESSAGE_SIZE. lia.
Qed.

Lemma oversized_payload_recv :
  recv_prompt_message_until (M:=bytes) demo_os 10 true
    (mkSocket (be32 (len oversized_payload) ++ oversized_payload ++ []) [] 0) 1000
  = Some (mkSocket (oversized_payload ++ []) [] 3, Err InvalidDataKind).
Proof. rewrite oversized_payload_len. generalize oversized_payload. vm_compute. reflexivity. Qed.

Lemma oversized_frame_refused_witness :
  ∃ e, Err (A:=bytes) InvalidDataKind = Err e ∧
    (e = InvalidDataKind ∧ oversized_payload ++ [] = oversized_payload ++ []
     ∨ stopped demo_os true 1000 3 e).
Proof.
  apply (oversized_frame_refused demo_os 10 true
           (mkSocket (be32 (len oversized_payload) ++ oversized_payload ++ []) [] 0) 1000
           (mkSocket (oversized_payload ++ []) [] 3) (Err InvalidDataKind) oversized_payload []).
  - reflexivity.
  - rewrite oversized_payload_len. unfold MAX_MESSAGE_SIZE. unfold_max. lia.
  - apply oversized_payload_recv.
Defined.

Lemma sent_frame_received_witness :
  frame (bs "hello") = frame (bs "hello") ∧
  ∃ sk' r, recv_prompt_message_until demo_os 101 false
             (mkSocket (frame (bs "hello")) [] 0) 1000 = Some (sk', r) ∧
    ((r = Ok (bs "hello") ∧ sk_in sk' = [])
     ∨ ∃ e, r = Err e ∧ stopped demo_os false 1000 (sk_tick sk') e).
Proof.
  apply (sent_frame_received demo_os (bs "hello") 10 (mkSocket [] [] 0) 1000
           (mkSocket [] (frame (bs "hello")) 4) () demo_os 100 101 false 0 1000);
    [vm_compute; reflexivity|reflexivity|apply (demo_os_clock 100)|lia].
Defined.
