(* ===== verification/IpcClient.v ===== *)
(** * The prompt client

    [PromptAuthClientConnection] of [crates/howy-common/src/ipc.rs]: the sequence
    Begin, then Commit or Cancel, over one connection, with the phase and the pending
    transaction it keeps and the [Drop] code that cancels what is left pending. A
    [Client] is that state over a [Socket]; an operation is a function of the client
    that fails, or returns [None] when the fuel of a transfer loop runs out. *)
From S2P Require Import Prelude Bytes PromptState Protocol Ipc.

Definition PROMPT_BEGIN_RESPONSE_TIMEOUT : Z := 10 * 1000000000.
Definition PROMPT_CANCEL_RESPONSE_TIMEOUT : Z := 250 * 1000000.
Definition PROMPT_TRANSPORT_MARGIN_MS : Z := 250.

(** [Duration]: 64-bit seconds and nanoseconds. *)
Definition DURATION_MAX : Z := U64_MAX * 1000000000 + 999999999.
Definition duration_checked_add (a b : Z) : option Z :=
  if a + b <=? DURATION_MAX then Some (a + b) else None.

Inductive PromptClientPhase := ClientInitial | ClientPending | ClientFinished.
#[export] Instance PromptClientPhase_eq_dec : EqDecision PromptClientPhase.
Proof. solve_decision. Defined.

Record PendingClientPrompt := mkPendingClient {
  pp_transaction_token : bytes;
  pp_client_nonce : bytes;
  pp_commit_response_timeout_ms : Z }.

Record Client := mkClient {
  cl_socket : Socket;
  cl_phase : PromptClientPhase;
  cl_pending : option PendingClientPrompt }.

Record PromptMetadata := mkPromptMetadata {
  md_prompt_timeout_ms : Z; md_commit_response_timeout_ms : Z }.
Inductive PromptBeginOutcome := PromptRequired (metadata : PromptMetadata) | PromptModeOff.

(** ** Client operations as a monad *)

Definition client_op (A : Type) : Type := Client → option (Client * ioresult A).

Definition cret {A} (a : A) : client_op A := λ c, Some (c, Ok a).
(** [prompt_sequence_error] is [cfail InvalidDataKind]. *)
Definition cfail {A} (e : ErrorKind) : client_op A := λ c, Some (c, Err e).
Definition cbind {A B} (m : client_op A) (f : A → client_op B) : client_op B :=
  λ c, match m c with
       | None => None
       | Some (c, Err e) => Some (c, Err e)
       | Some (c, Ok a) => f a c
       end.
Declare Scope client_scope.
Delimit Scope client_scope with client.
Notation "x <-- m ; k" := (cbind m (λ x, k))
  (at level 20, m at level 100, k at level 200, right associativity) : client_scope.
#[local] Open Scope client_scope.

Definition on_socket {A} (f : Socket → option (Socket * ioresult A)) : client_op A :=
  λ c, match f (cl_socket c) with
       | None => None
       | Some (sk, r) => Some (mkClient sk (cl_phase c) (cl_pending c), r)
       end.
Definition set_phase (phase : PromptClientPhase) : client_op unit :=
  λ c, Some (mkClient (cl_socket c) phase (cl_pending c), Ok ()).
(** An error that ends the sequence. *)
Definition finish_on_error {A} (m : client_op A) : client_op A :=
  λ c, match m c with
       | Some (c, Err e) => Some (mkClient (cl_socket c) ClientFinished (cl_pending c), Err e)
       | r => r
       end.
Definition finish_with {A} (e : ErrorKind) : client_op A :=
  _ <-- set_phase ClientFinished; cfail e.
Definition of_io {A} (r : ioresult A) : client_op A := λ c, Some (c, r).

(** [constant_time_slice_eq] *)
Definition constant_time_slice_eq (left right : bytes) : bool :=
  (len left =? len right) && (ct_difference left right =? 0).

(** [zeroizing_exact_array] *)
Definition zeroizing_exact_array (n : Z) (value : bytes) : ioresult bytes :=
  if len value =? n then Ok value else Err InvalidDataKind.

(** [prompt_commit_read_timeout] *)
Definition prompt_commit_read_timeout (commit_response_timeout_ms : Z) : ioresult Z :=
  if negb (contains COMMIT_RESPONSE_TIMEOUT_MS_MIN COMMIT_RESPONSE_TIMEOUT_MS_MAX
             commit_response_timeout_ms)
  then Err InvalidDataKind
  else ok_or (duration_checked_add (from_millis commit_response_timeout_ms)
                (from_millis PROMPT_TRANSPORT_MARGIN_MS)) InvalidDataKind.

(** [SensitivePromptRequest::commit] and [::cancel] *)
Definition commit_request (pending : PendingClientPrompt) : Request :=
  mkRequest (Some (CmdCommitAuthV1 (mkCommitReq PROMPT_PROTOCOL_VERSION
    (pp_transaction_token pending) (pp_client_nonce pending)))).
Definition cancel_request (pending : PendingClientPrompt) : Request :=
  mkRequest (Some (CmdCancelAuthV1 (mkCancelReq PROMPT_PROTOCOL_VERSION
    (pp_transaction_token pending) (pp_client_nonce pending)))).

Section client.
  Context (os : Os) (fuel : nat) `{Message Request} `{Message Response}.

(** [prompt_deadline] *)
Definition prompt_deadline (timeout : Z) : client_op Z :=
  on_socket (λ sk, let '(sk, now) := clock os sk in
                   Some (sk, ok_or (instant_checked_add now timeout) InvalidDataKind)).

(** [FramedConnection::send_request], [send_request_until], [receive_response_until] *)
Definition send_request (request : Request) : client_op unit :=
  on_socket (λ sk, send_message os fuel sk request).
Definition send_request_until (request : Request) (deadline : Z) : client_op unit :=
  _ <-- on_socket (λ sk,
          let '(sk', now) := clock os sk in
          let remaining := Z.max 0 (deadline - now) in
          Some (sk', if remaining =? 0 then Err TimedOut
                     else os_set_timeout os (sk_tick sk) remaining));
  send_request request.
Definition receive_response_until (deadline : Z) : client_op Response :=
  on_socket (λ sk, recv_prompt_message_until os fuel false sk deadline).

(** [PromptAuthClientConnection::new] *)
Definition Client_new (sk : Socket) : Client := mkClient sk ClientInitial None.

(** [PendingTransactionGuard::arm] and [::disarm] *)
Definition arm (pending : PendingClientPrompt) : client_op unit :=
  λ c, Some (mkClient (cl_socket c) (cl_phase c) (Some pending), Ok ()).
Definition disarm : client_op PendingClientPrompt :=
  λ c, Some (mkClient (cl_socket c) (cl_phase c) None, ok_or (cl_pending c) InvalidDataKind).

(** The end of [begin_adaptive_request_until]: what a response to Begin means. *)
Definition begin_response (expected_nonce : bytes) (response : Response)
    : client_op PromptBeginOutcome :=
  match resp_result response with
  | Some (RespPromptRequiredV1 prompt) =>
      if negb (is_ok (prompt_required_validate prompt))
         || negb (constant_time_slice_eq (pq_client_nonce prompt) expected_nonce)
      then finish_with InvalidDataKind
      else
        transaction_token <--
          of_io (zeroizing_exact_array PROMPT_TOKEN_BYTES (pq_transaction_token prompt));
        let metadata := mkPromptMetadata (pq_prompt_timeout_ms prompt)
                          (pq_commit_response_timeout_ms prompt) in
        _ <-- arm (mkPendingClient transaction_token expected_nonce
                     (md_commit_response_timeout_ms metadata));
        _ <-- set_phase ClientPending;
        cret (PromptRequired metadata)
  | Some (RespError _ code) =>
      if bool_decide (code = PROMPT_PROTOCOL_INCOMPATIBLE_ERROR)
      then _ <-- set_phase ClientFinished; cret PromptModeOff
      else finish_with InvalidDataKind
  | _ => finish_with InvalidDataKind
  end.

(** [begin_adaptive_request_until] *)
Definition begin_adaptive_request_until (begin : BeginAuthV1Req) (deadline : Z)
    : client_op PromptBeginOutcome := λ c,
  if negb (bool_decide (cl_phase c = ClientInitial)) then cfail InvalidDataKind c
  else if negb (is_ok (begin_validate begin)) then finish_with InvalidDataKind c
  else
    (expected_nonce <-- of_io (zeroizing_exact_array PROMPT_NONCE_BYTES (bg_client_nonce begin));
     _ <-- finish_on_error (send_request (mkRequest (Some (CmdBeginAuthV1 begin))));
     response <-- finish_on_error (receive_response_until deadline);
     begin_response expected_nonce response) c.

(** [begin_adaptive], [begin_adaptive_ref] and [begin] *)
Definition begin_adaptive (begin : BeginAuthV1Req) : client_op PromptBeginOutcome :=
  deadline <-- prompt_deadline PROMPT_BEGIN_RESPONSE_TIMEOUT;
  begin_adaptive_request_until begin deadline.
Definition begin_adaptive_ref (username client_nonce pam_service : bytes)
    (origin : PromptOriginV1) : client_op PromptBeginOutcome :=
  begin_adaptive (mkBeginReq PROMPT_PROTOCOL_VERSION username client_nonce
                    (Some (mkPolicyContext pam_service (origin_i32 origin)))).
Definition client_begin (begin : BeginAuthV1Req) : client_op PromptMetadata :=
  outcome <-- begin_adaptive begin;
  match outcome with
  | PromptRequired metadata => cret metadata
  | PromptModeOff => cfail InvalidDataKind
  end.

(** [take_pending] *)
Definition client_take_pending : client_op PendingClientPrompt := λ c,
  if negb (bool_decide (cl_phase c = ClientPending)) then cfail InvalidDataKind c
  else (_ <-- set_phase ClientFinished; disarm) c.

(** [commit_pending_until], [commit] *)
Definition commit_pending_until (pending : PendingClientPrompt) (deadline : Z)
    : client_op Response :=
  _ <-- send_request (commit_request pending);
  response <-- receive_response_until deadline;
  if negb (is_prompt_auth_terminal_response response) then cfail InvalidDataKind
  else cret response.
Definition client_commit : client_op Response :=
  pending <-- client_take_pending;
  timeout <-- of_io (prompt_commit_read_timeout (pp_commit_response_timeout_ms pending));
  deadline <-- prompt_deadline timeout;
  commit_pending_until pending deadline.

(** [cancel_pending_until], [cancel] *)
Definition cancel_pending_until (pending : PendingClientPrompt) (deadline : Z)
    : client_op unit :=
  _ <-- send_request_until (cancel_request pending) deadline;
  response <-- receive_response_until deadline;
  match resp_result response with
  | Some (RespAuthCancelledV1 cancelled) =>
      if negb (is_ok (auth_cancelled_validate cancelled)
               && constant_time_slice_eq (cx_client_nonce cancelled) (pp_client_nonce pending))
      then cfail InvalidDataKind
      else cret ()
  | _ => cfail InvalidDataKind
  end.
Definition client_cancel : client_op unit :=
  pending <-- client_take_pending;
  deadline <-- prompt_deadline PROMPT_CANCEL_RESPONSE_TIMEOUT;
  cancel_pending_until pending deadline.

(** [Drop for PromptAuthClientConnection]: the outcome is ignored. *)
Definition drop_client (c : Client) : option Client :=
  if negb (bool_decide (cl_phase c = ClientPending))
     || negb (bool_decide (is_Some (cl_pending c)))
  then Some c
  else fst <$> client_cancel c.

(** [into_inner] *)
Definition into_inner (c : Client) : option Socket :=
  c ← (if bool_decide (is_Some (cl_pending c)) then fst <$> client_cancel c else Some c);
  Some (cl_socket c).
End client.

(** * The prompt client: properties

    One specification per operation of [IpcClient], in terms of the bytes exchanged,
    and the sequence theorem: whatever calls are made, the wire carries one Begin,
    followed by at most one of Commit and Cancel, and these only for a prompt the
    daemon issued in answer to this very Begin. *)

(** [sk'] is [sk] after [w] was written and [d] was read. *)
Definition moved (sk : Socket) (w d : bytes) (sk' : Socket) : Prop :=
  sk_out sk' = sk_out sk ++ w ∧ sk_in sk = d ++ sk_in sk' ∧ (sk_tick sk ≤ sk_tick sk')%nat.

Lemma moved_refl sk : moved sk [] [] sk.
Proof. unfold moved. by rewrite app_nil_r. Qed.
Lemma moved_tick sk : moved sk [] [] (tick sk).
Proof. unfold moved. cbn. rewrite app_nil_r. split_and!; [done|done|lia]. Qed.
Lemma moved_trans sk w d sk1 w' d' sk2 :
  moved sk w d sk1 → moved sk1 w' d' sk2 → moved sk (w ++ w') (d ++ d') sk2.
Proof.
  intros (H1 & H2 & H3) (H4 & H5 & H6). split_and!; [|..|lia].
  - by rewrite H4, H1, (assoc_L (++)).
  - by rewrite H2, H5, (assoc_L (++)).
Qed.
Lemma emitted_moved sk w sk' : emitted sk w sk' → moved sk w [] sk'.
Proof. intros (? & ? & ?). split_and!; [done|by symmetry|done]. Qed.
Lemma consumed_moved sk d sk' : consumed sk d sk' → moved sk [] d sk'.
Proof. intros (? & ? & ?). by split_and!; [rewrite app_nil_r| |]. Qed.

Lemma constant_time_slice_eq_spec l r : constant_time_slice_eq l r = true ↔ l = r.
Proof.
  unfold constant_time_slice_eq. split.
  - intros Hc. breflect. apply ct_difference_zero; [unfold len in *; lia|done].
  - intros ->. rewrite Z.eqb_refl. cbn. apply Z.eqb_eq. by apply ct_difference_zero.
Qed.

Section specs.
  Context (os : Os) (fuel : nat) `{Message Request} `{Message Response}.

(** [d] is one frame holding [response]. *)
Definition received (d : bytes) (response : Response) : Prop :=
  ∃ payload, d = be32 (len payload) ++ payload ∧ len payload ≤ MAX_MESSAGE_SIZE
    ∧ decode payload = Some response.

(** A prompt the daemon issued in answer to [begin]. *)
Definition prompt_for (begin : BeginAuthV1Req) (prompt : PromptRequiredV1) : Prop :=
  begin_validate begin = Ok () ∧ prompt_required_validate prompt = Ok ()
  ∧ pq_client_nonce prompt = bg_client_nonce begin.

Definition pending_of (prompt : PromptRequiredV1) : PendingClientPrompt :=
  mkPendingClient (pq_transaction_token prompt) (pq_client_nonce prompt)
    (pq_commit_response_timeout_ms prompt).

Definition begin_request (begin : BeginAuthV1Req) : Request :=
  mkRequest (Some (CmdBeginAuthV1 begin)).

Lemma cbind_inv {A B} (m : client_op A) (f : A → client_op B) c c' r :
  cbind m f c = Some (c', r) →
  (∃ e, m c = Some (c', Err e) ∧ r = Err e) ∨ (∃ a c1, m c = Some (c1, Ok a) ∧ f a c1 = Some (c', r)).
Proof. unfold cbind. destruct (m c) as [[c1 [a|e]]|]; naive_solver. Qed.

Lemma on_socket_inv {A} (f : Socket → option (Socket * ioresult A)) c c' r :
  on_socket f c = Some (c', r) →
  f (cl_socket c) = Some (cl_socket c', r) ∧ cl_phase c' = cl_phase c ∧ cl_pending c' = cl_pending c.
Proof. unfold on_socket. destruct (f (cl_socket c)) as [[]|]; naive_solver. Qed.

Lemma finish_on_error_inv {A} (m : client_op A) c c' r :
  finish_on_error m c = Some (c', r) →
  ∃ c1, m c = Some (c1, r) ∧ cl_socket c' = cl_socket c1 ∧ cl_pending c' = cl_pending c1 ∧
    cl_phase c' = match r with Ok _ => cl_phase c1 | Err _ => ClientFinished end.
Proof. unfold finish_on_error. destruct (m c) as [[c1 [a|e]]|]; naive_solver. Qed.

Lemma prompt_deadline_inv timeout c c' r :
  prompt_deadline os timeout c = Some (c', r) →
  moved (cl_socket c) [] [] (cl_socket c') ∧ cl_phase c' = cl_phase c ∧ cl_pending c' = cl_pending c.
Proof.
  unfold prompt_deadline. intros (Hs & -> & ->)%on_socket_inv. split; [|done].
  cbn in Hs. injection Hs as <- _. apply moved_tick.
Qed.

Lemma send_request_inv request c c' r :
  send_request os fuel request c = Some (c', r) →
  cl_phase c' = cl_phase c ∧ cl_pending c' = cl_pending c ∧
  ∃ w, moved (cl_socket c) w [] (cl_socket c') ∧ w `prefix_of` frame request ∧
    (∀ u, r = Ok u → w = frame request).
Proof.
  unfold send_request. intros (Hs & -> & ->)%on_socket_inv. split_and!; [done|done|].
  apply send_message_spec in Hs as (w & rest & Hf & He & Hr).
  exists w. split_and!; [by apply emitted_moved|by exists rest|].
  intros u Hu. specialize (Hr u Hu) as ->. by rewrite app_nil_r in Hf.
Qed.

Lemma send_request_until_inv request dl c c' r :
  send_request_until os fuel request dl c = Some (c', r) →
  cl_phase c' = cl_phase c ∧ cl_pending c' = cl_pending c ∧
  ∃ w, moved (cl_socket c) w [] (cl_socket c') ∧ w `prefix_of` frame request ∧
    (∀ u, r = Ok u → w = frame request).
Proof.
  unfold send_request_until. intros [(e & Hs & ->)|(a & c1 & Hs & Hr)]%cbind_inv.
  - apply on_socket_inv in Hs as (Hs & -> & ->). cbn in Hs. injection Hs as <- _.
    split_and!; [done|done|]. exists []. split_and!; [apply moved_tick|apply prefix_nil|done].
  - apply on_socket_inv in Hs as (Hs & Hp & Hq). cbn in Hs. injection Hs as Hs _.
    apply send_request_inv in Hr as (-> & -> & w & Hm & Hw & Hr).
    split_and!; [done|done|]. exists w. split_and!; [|done|done].
    eapply (moved_trans _ [] [] _ w []); [|done]. rewrite <- Hs. apply moved_tick.
Qed.

Lemma receive_response_inv dl c c' r :
  receive_response_until os fuel dl c = Some (c', r) →
  cl_phase c' = cl_phase c ∧ cl_pending c' = cl_pending c ∧
  ∃ d, moved (cl_socket c) [] d (cl_socket c') ∧ (∀ m, r = Ok m → received d m).
Proof.
  unfold receive_response_until. intros (Hs & -> & ->)%on_socket_inv. split_and!; [done|done|].
  destruct r as [m|e].
  - apply recv_until_Ok in Hs as (payload & Hc & Hl & Hd & _).
    exists (be32 (len payload) ++ payload). split; [by apply consumed_moved|].
    intros ? [= <-]. by exists payload.
  - apply recv_until_consumed in Hs as (d & Hc). exists d. split; [by apply consumed_moved|done].
Qed.

Lemma validated_nonce_length begin :
  begin_validate begin = Ok () → len (bg_client_nonce begin) = PROMPT_NONCE_BYTES.
Proof. unfold begin_validate, validate_exact_bytes. intros Hv. inv_ok. by breflect. Qed.
Lemma validated_prompt_lengths prompt :
  prompt_required_validate prompt = Ok () →
  len (pq_transaction_token prompt) = PROMPT_TOKEN_BYTES
  ∧ COMMIT_RESPONSE_TIMEOUT_MS_MIN ≤ pq_commit_response_timeout_ms prompt
      ≤ COMMIT_RESPONSE_TIMEOUT_MS_MAX.
Proof.
  unfold prompt_required_validate, validate_exact_bytes. intros Hv. inv_ok. by breflect.
Qed.
(** ** Begin *)

(** The state Begin leaves. *)
Definition begin_result (begin : BeginAuthV1Req) (sk : Socket) (c' : Client)
    (r : ioresult PromptBeginOutcome) : Prop :=
  ∃ w d, moved sk w d (cl_socket c') ∧ w `prefix_of` frame (begin_request begin) ∧
    (w = [] ∨ begin_validate begin = Ok ()) ∧
    match r with
    | Ok (PromptRequired md) =>
        ∃ prompt, prompt_for begin prompt ∧ w = frame (begin_request begin) ∧
          received d (mkResponse (Some (RespPromptRequiredV1 prompt))) ∧
          md = mkPromptMetadata (pq_prompt_timeout_ms prompt) (pq_commit_response_timeout_ms prompt) ∧
          cl_phase c' = ClientPending ∧ cl_pending c' = Some (pending_of prompt)
    | Ok PromptModeOff =>
        begin_validate begin = Ok () ∧ w = frame (begin_request begin) ∧
        (∃ message, received d (mkResponse
           (Some (RespError message PROMPT_PROTOCOL_INCOMPATIBLE_ERROR)))) ∧
        cl_phase c' = ClientFinished ∧ cl_pending c' = None
    | Err _ => cl_phase c' ≠ ClientPending ∧ cl_pending c' = None
               ∧ (cl_phase c' = ClientInitial → w = [] ∧ d = [])
    end.

Lemma begin_response_spec begin nonce response c c' r :
  begin_validate begin = Ok () → nonce = bg_client_nonce begin → cl_pending c = None →
  begin_response nonce response c = Some (c', r) →
  cl_socket c' = cl_socket c ∧
  match r with
  | Ok (PromptRequired md) =>
      ∃ prompt, prompt_for begin prompt ∧
        response = mkResponse (Some (RespPromptRequiredV1 prompt)) ∧
        md = mkPromptMetadata (pq_prompt_timeout_ms prompt) (pq_commit_response_timeout_ms prompt) ∧
        cl_phase c' = ClientPending ∧ cl_pending c' = Some (pending_of prompt)
  | Ok PromptModeOff =>
      (∃ message, response = mkResponse
         (Some (RespError message PROMPT_PROTOCOL_INCOMPATIBLE_ERROR))) ∧
      cl_phase c' = ClientFinished ∧ cl_pending c' = None
  | Err _ => cl_phase c' = ClientFinished ∧ cl_pending c' = None
  end.
Proof.
  intros Hv -> Hpn. unfold begin_response. destruct response as [res]; cbn [resp_result].
  assert (Hfin : ∀ (r : ioresult PromptBeginOutcome), finish_with InvalidDataKind c = Some (c', r) →
    cl_socket c' = cl_socket c ∧ r = Err InvalidDataKind ∧ cl_phase c' = ClientFinished ∧ cl_pending c' = None).
  { unfold finish_with, cbind, set_phase, cfail. intros ? [= <- <-]. done. }
  destruct res as [[]|]; try (by intros (? & -> & ? & ?)%Hfin).
  - case_bool_decide as Hc; [|by intros (? & -> & ? & ?)%Hfin].
    unfold cbind, set_phase, cret. intros [= <- <-]. subst code. cbn. eauto 6.
  - destruct (negb _ || negb _) eqn:Hg; [by intros (? & -> & ? & ?)%Hfin|].
    breflect. match goal with H : is_ok _ = true |- _ => apply is_ok_unit in H as Hvp end.
    match goal with H : constant_time_slice_eq _ _ = true |- _ => apply constant_time_slice_eq_spec in H as Hn end.
    unfold zeroizing_exact_array.
    rewrite (proj1 (validated_prompt_lengths _ Hvp)), Z.eqb_refl.
    unfold cbind, of_io, arm, set_phase, cret. cbn. intros [= <- <-]. cbn. split; [done|].
    exists prompt. unfold prompt_for, pending_of. rewrite Hn. split_and!; done.
Qed.

Lemma begin_spec begin c c' r :
  cl_phase c = ClientInitial → cl_pending c = None →
  begin_adaptive os fuel begin c = Some (c', r) →
  begin_result begin (cl_socket c) c' r.
Proof.
  intros Hph Hpn. unfold begin_adaptive, begin_result.
  intros [(e & Hd & ->)|(dl & c1 & Hd & Hr)]%cbind_inv;
    apply prompt_deadline_inv in Hd as (Hm & Hp1 & Hq1); rewrite Hph in Hp1; rewrite Hpn in Hq1.
  { exists [], []. rewrite Hp1. split_and!; [done|apply prefix_nil|by left|done|done|done]. }
  unfold begin_adaptive_request_until in Hr. rewrite Hp1 in Hr.
  rewrite bool_decide_eq_true_2 in Hr by done. cbn [negb] in Hr.
  destruct (is_ok (begin_validate begin)) eqn:Hv; cbn [negb] in Hr.
  2: { unfold finish_with, cbind, set_phase, cfail in Hr. injection Hr as <- <-.
       exists [], []. cbn. split_and!; [done|apply prefix_nil|by left|done|done|done]. }
  apply is_ok_unit in Hv.
  apply cbind_inv in Hr as [(e & Hz & _)|(nonce & c2 & Hz & Hr)];
    unfold of_io, zeroizing_exact_array in Hz; rewrite validated_nonce_length, Z.eqb_refl in Hz by done; [done|].
  injection Hz as <- <-.
  apply cbind_inv in Hr as [(e & Hs & ->)|(u & c3 & Hs & Hr)];
    apply finish_on_error_inv in Hs as (c3' & Hs & Hs1 & Hs2 & Hs3);
    apply send_request_inv in Hs as (Hs4 & Hs5 & w & Hmw & Hw & Hwok).
  { exists w, []. rewrite Hs1, Hs3, Hs2, Hs5.
    split_and!; [by apply (moved_trans _ [] [] _ w [] _ Hm)|done|by right|done|done|done]. }
  specialize (Hwok u eq_refl). subst w.
  apply cbind_inv in Hr as [(e & Hrv & ->)|(response & c4 & Hrv & Hr)];
    apply finish_on_error_inv in Hrv as (c4' & Hrv & Hr1 & Hr2 & Hr3);
    apply receive_response_inv in Hrv as (Hr4 & Hr5 & d & Hmd & Hdok);
    rewrite Hs1 in Hmd; pose proof (moved_trans _ _ _ _ _ _ _ Hm (moved_trans _ _ _ _ _ _ _ Hmw Hmd)) as Hall;
    rewrite app_nil_r in Hall; cbn [app] in Hall.
  { exists (frame (begin_request begin)), d. rewrite Hr1, Hr3, Hr2, Hr5, Hs2, Hs5.
    split_and!; [done|done|by right|done|done|done]. }
  specialize (Hdok response eq_refl).
  apply (begin_response_spec begin _ response) in Hr as [Hsk Hr]; [|done|done|congruence].
  exists (frame (begin_request begin)), d. rewrite Hsk, Hr1. split_and!; [done|done|by right|].
  destruct r as [[md|]|e].
  - destruct Hr as (prompt & ? & -> & ? & ? & ?). exists prompt. done.
  - destruct Hr as ((message & ->) & ? & ?). split_and!; [done|done|by exists message|done|done].
  - destruct Hr as (Hf & ?). rewrite Hf. done.
Qed.

(** ** Commit and Cancel *)

Lemma client_take_pending_inv c p :
  cl_phase c = ClientPending → cl_pending c = Some p →
  client_take_pending c = Some (mkClient (cl_socket c) ClientFinished None, Ok p).
Proof.
  intros Hph Hp. unfold client_take_pending. rewrite Hph. cbn.
  unfold cbind, set_phase, disarm. cbn. by rewrite Hp.
Qed.
Lemma client_not_pending c :
  cl_phase c ≠ ClientPending → client_take_pending c = Some (c, Err InvalidDataKind).
Proof. intros Hph. unfold client_take_pending. by rewrite bool_decide_eq_false_2. Qed.

Lemma commit_timeout_ok ms :
  COMMIT_RESPONSE_TIMEOUT_MS_MIN ≤ ms ≤ COMMIT_RESPONSE_TIMEOUT_MS_MAX →
  prompt_commit_read_timeout ms = Ok (from_millis (ms + PROMPT_TRANSPORT_MARGIN_MS)).
Proof.
  intros Hms. unfold prompt_commit_read_timeout. rewrite (proj2 (contains_true _ _ _) Hms). cbn.
  unfold duration_checked_add, DURATION_MAX, from_millis, PROMPT_TRANSPORT_MARGIN_MS,
    COMMIT_RESPONSE_TIMEOUT_MS_MIN, COMMIT_RESPONSE_TIMEOUT_MS_MAX in *.
  destruct (Z.leb_spec (ms * 1000000 + 250 * 1000000) (U64_MAX * 1000000000 + 999999999)) as [_|Hgt].
  - cbn. f_equal. lia.
  - unfold_max. lia.
Qed.

(** A terminal operation on a pending client: it ends the sequence and writes at most
    its own request. *)
Definition terminal_result (request : Request) (c c' : Client) (answered : bytes → Prop)
    (ok : bool) : Prop :=
  cl_phase c' = ClientFinished ∧ cl_pending c' = None ∧
  ∃ w d, moved (cl_socket c) w d (cl_socket c') ∧ w `prefix_of` frame request ∧
    (ok = true → w = frame request ∧ answered d).

Lemma commit_spec c p c' r :
  cl_phase c = ClientPending → cl_pending c = Some p →
  client_commit os fuel c = Some (c', r) →
  terminal_result (commit_request p) c c'
    (λ d, ∃ response, r = Ok response ∧ received d response
          ∧ is_prompt_auth_terminal_response response = true) (is_ok r).
Proof.
  intros Hph Hp. unfold client_commit, cbind at 1. rewrite (client_take_pending_inv c p) by done.
  unfold terminal_result.
  intros [(e & Ht & ->)|(timeout & c1 & Ht & Hr)]%cbind_inv; unfold of_io in Ht.
  { injection Ht as <- _. cbn. split_and!; [done|done|]. exists [], [].
    split_and!; [apply moved_refl|apply prefix_nil|done]. }
  injection Ht as <- _.
  apply cbind_inv in Hr as [(e & Hd & ->)|(dl & c2 & Hd & Hr)];
    apply prompt_deadline_inv in Hd as (Hm & Hp1 & Hq1); cbn in *.
  { rewrite Hp1, Hq1. split_and!; [done|done|]. exists [], []. split_and!; [done|apply prefix_nil|done]. }
  unfold commit_pending_until in Hr.
  apply cbind_inv in Hr as [(e & Hs & ->)|(u & c3 & Hs & Hr)];
    apply send_request_inv in Hs as (Hs4 & Hs5 & w & Hmw & Hw & Hwok).
  { rewrite Hs4, Hs5, Hp1, Hq1. split_and!; [done|done|]. exists w, [].
    split_and!; [by apply (moved_trans _ [] [] _ w [] _ Hm)|done|done]. }
  specialize (Hwok u eq_refl). subst w.
  apply cbind_inv in Hr as [(e & Hrv & ->)|(response & c4 & Hrv & Hr)];
    apply receive_response_inv in Hrv as (Hr4 & Hr5 & d & Hmd & Hdok);
    pose proof (moved_trans _ _ _ _ _ _ _ Hm (moved_trans _ _ _ _ _ _ _ Hmw Hmd)) as Hall;
    rewrite app_nil_r in Hall; cbn [app] in Hall.
  { rewrite Hr4, Hr5, Hs4, Hs5, Hp1, Hq1. split_and!; [done|done|].
    exists (frame (commit_request p)), d. split_and!; [done|done|done]. }
  assert (c' = c4) as -> by (destruct (negb _) in Hr; by injection Hr).
  rewrite Hr4, Hr5, Hs4, Hs5, Hp1, Hq1. split_and!; [done|done|].
  exists (frame (commit_request p)), d. split_and!; [done|done|].
  intros Hok. split; [done|]. exists response.
  destruct (is_prompt_auth_terminal_response response) eqn:Hterm; cbn in Hr; injection Hr as <-; [|done].
  split_and!; [done|by apply Hdok|done].
Qed.

Lemma cancel_spec c p c' r :
  cl_phase c = ClientPending → cl_pending c = Some p →
  client_cancel os fuel c = Some (c', r) →
  terminal_result (cancel_request p) c c'
    (λ d, ∃ cancelled, received d (mkResponse (Some (RespAuthCancelledV1 cancelled)))
          ∧ cx_client_nonce cancelled = pp_client_nonce p) (is_ok r).
Proof.
  intros Hph Hp. unfold client_cancel, cbind at 1. rewrite (client_take_pending_inv c p) by done.
  unfold terminal_result.
  intros [(e & Hd & ->)|(dl & c2 & Hd & Hr)]%cbind_inv;
    apply prompt_deadline_inv in Hd as (Hm & Hp1 & Hq1); cbn in *.
  { rewrite Hp1, Hq1. split_and!; [done|done|]. exists [], []. split_and!; [done|apply prefix_nil|done]. }
  unfold cancel_pending_until in Hr.
  apply cbind_inv in Hr as [(e & Hs & ->)|(u & c3 & Hs & Hr)];
    apply send_request_until_inv in Hs as (Hs4 & Hs5 & w & Hmw & Hw & Hwok).
  { rewrite Hs4, Hs5, Hp1, Hq1. split_and!; [done|done|]. exists w, [].
    split_and!; [by apply (moved_trans _ [] [] _ w [] _ Hm)|done|done]. }
  specialize (Hwok u eq_refl). subst w.
  apply cbind_inv in Hr as [(e & Hrv & ->)|(response & c4 & Hrv & Hr)];
    apply receive_response_inv in Hrv as (Hr4 & Hr5 & d & Hmd & Hdok);
    pose proof (moved_trans _ _ _ _ _ _ _ Hm (moved_trans _ _ _ _ _ _ _ Hmw Hmd)) as Hall;
    rewrite app_nil_r in Hall; cbn [app] in Hall.
  { rewrite Hr4, Hr5, Hs4, Hs5, Hp1, Hq1. split_and!; [done|done|].
    exists (frame (cancel_request p)), d. split_and!; [done|done|done]. }
  assert (Hc' : c' = c4 ∧ (is_ok r = true → ∃ cancelled,
    response = mkResponse (Some (RespAuthCancelledV1 cancelled)) ∧ cx_client_nonce cancelled = pp_client_nonce p)).
  { destruct response as [[[]|]]; cbn in Hr; try (injection Hr as <- <-; done).
    destruct (negb _) eqn:Hg in Hr; injection Hr as <- <-; [done|]. split; [done|].
    breflect. eexists. split; [done|]. by apply constant_time_slice_eq_spec. }
  destruct Hc' as [-> Hc']. rewrite Hr4, Hr5, Hs4, Hs5, Hp1, Hq1. split_and!; [done|done|].
  exists (frame (cancel_request p)), d. split_and!; [done|done|].
  intros Hok. split; [done|]. destruct (Hc' Hok) as (cancelled & -> & ?).
  exists cancelled. split; [by apply Hdok|done].
Qed.

(** ** Sequences of calls *)

Inductive client_call := CallBegin (begin : BeginAuthV1Req) | CallCommit | CallCancel.

(** One call, its outcome seen by the caller only. *)
Definition client_step (call : client_call) (c : Client) : option Client :=
  match call with
  | CallBegin begin => fst <$> begin_adaptive os fuel begin c
  | CallCommit => fst <$> client_commit os fuel c
  | CallCancel => fst <$> client_cancel os fuel c
  end.

Fixpoint client_run (calls : list client_call) (c : Client) : option Client :=
  match calls with
  | [] => Some c
  | call :: calls => client_step call c ≫= client_run calls
  end.

(** The answers [inp] begin with a prompt for [begin]. *)
Definition prompted (inp : bytes) (begin : BeginAuthV1Req) (prompt : PromptRequiredV1)
    (rest : bytes) : Prop :=
  prompt_for begin prompt ∧
  ∃ d, received d (mkResponse (Some (RespPromptRequiredV1 prompt))) ∧ inp = d ++ rest.

(** What a finished sequence may have written. *)
Inductive wire_sequence (inp : bytes) : bytes → Prop :=
| wire_nothing : wire_sequence inp []
| wire_begin begin w :
    begin_validate begin = Ok () → w `prefix_of` frame (begin_request begin) →
    wire_sequence inp w
| wire_confirmed begin prompt rest request w :
    prompted inp begin prompt rest →
    request = commit_request (pending_of prompt) ∨ request = cancel_request (pending_of prompt) →
    w `prefix_of` frame request →
    wire_sequence inp (frame (begin_request begin) ++ w).

Definition wire_inv (inp : bytes) (c : Client) : Prop :=
  match cl_phase c with
  | ClientInitial =>
      cl_pending c = None ∧ sk_out (cl_socket c) = [] ∧ sk_in (cl_socket c) = inp
  | ClientPending =>
      ∃ begin prompt, cl_pending c = Some (pending_of prompt)
        ∧ prompted inp begin prompt (sk_in (cl_socket c))
        ∧ sk_out (cl_socket c) = frame (begin_request begin)
  | ClientFinished => cl_pending c = None ∧ wire_sequence inp (sk_out (cl_socket c))
  end.

Lemma begin_wire inp begin c c' r :
  wire_inv inp c → begin_adaptive os fuel begin c = Some (c', r) → wire_inv inp c'.
Proof.
  intros Hi Hb. destruct (decide (cl_phase c = ClientInitial)) as [Hph|Hph].
  - unfold wire_inv in Hi. rewrite Hph in Hi. destruct Hi as (Hpn & Ho & Hin).
    apply begin_spec in Hb as (w & d & (Hmo & Hmi & _) & Hw & Hv & Hr); [|done|done].
    rewrite Ho in Hmo. rewrite Hin in Hmi. cbn in Hmo. unfold wire_inv.
    assert (Hfin : wire_sequence inp w) by (destruct Hv as [->|Hv]; [apply wire_nothing|by eapply wire_begin]).
    destruct r as [[md|]|e].
    + destruct Hr as (prompt & Hpf & -> & Hrec & -> & -> & ->).
      exists begin, prompt. split_and!; [done| |done]. split; [done|]. by exists d.
    + destruct Hr as (_ & -> & _ & -> & ->). by rewrite Hmo.
    + destruct Hr as (Hne & Hpn' & Hini). destruct (cl_phase c'); [|done|by rewrite Hmo].
      destruct Hini as [-> ->]; [done|]. by rewrite Hmo.
  - unfold begin_adaptive in Hb. apply cbind_inv in Hb as [(e & Hd & ->)|(dl & c1 & Hd & Hr)];
      apply prompt_deadline_inv in Hd as ((Hmo & Hmi & _) & Hp1 & Hq1); rewrite app_nil_r in Hmo; cbn in Hmi.
    + unfold wire_inv in *. by rewrite Hp1, Hq1, Hmo, <- Hmi.
    + unfold begin_adaptive_request_until in Hr. rewrite Hp1, bool_decide_eq_false_2 in Hr by done.
      injection Hr as <- <-. unfold wire_inv in *. by rewrite Hp1, Hq1, Hmo, <- Hmi.
Qed.

Lemma terminal_wire inp begin prompt c c' request answered ok :
  cl_pending c = Some (pending_of prompt) →
  prompted inp begin prompt (sk_in (cl_socket c)) →
  sk_out (cl_socket c) = frame (begin_request begin) →
  request = commit_request (pending_of prompt) ∨ request = cancel_request (pending_of prompt) →
  terminal_result request c c' answered ok → wire_inv inp c'.
Proof.
  intros Hp Hpr Ho Hreq (Hph & Hpn & w & d & (Hmo & _) & Hw & _).
  unfold wire_inv. rewrite Hph, Hmo, Ho. split; [done|]. by eapply wire_confirmed.
Qed.

Lemma commit_wire inp c c' r : wire_inv inp c → client_commit os fuel c = Some (c', r) → wire_inv inp c'.
Proof.
  intros Hi Hc. destruct (decide (cl_phase c = ClientPending)) as [Hph|Hph].
  - pose proof Hi as Hi'. unfold wire_inv in Hi'. rewrite Hph in Hi'. destruct Hi' as (begin & prompt & Hp & Hpr & Ho).
    apply (commit_spec _ (pending_of prompt)) in Hc; [|done|done]. exact (terminal_wire _ begin prompt _ _ _ _ _ Hp Hpr Ho (or_introl eq_refl) Hc).
  - unfold client_commit, cbind at 1 in Hc. rewrite client_not_pending in Hc by done. by injection Hc as <- <-.
Qed.

Lemma cancel_wire inp c c' r : wire_inv inp c → client_cancel os fuel c = Some (c', r) → wire_inv inp c'.
Proof.
  intros Hi Hc. destruct (decide (cl_phase c = ClientPending)) as [Hph|Hph].
  - pose proof Hi as Hi'. unfold wire_inv in Hi'. rewrite Hph in Hi'. destruct Hi' as (begin & prompt & Hp & Hpr & Ho).
    apply (cancel_spec _ (pending_of prompt)) in Hc; [|done|done]. exact (terminal_wire _ begin prompt _ _ _ _ _ Hp Hpr Ho (or_intror eq_refl) Hc).
  - unfold client_cancel, cbind at 1 in Hc. rewrite client_not_pending in Hc by done. by injection Hc as <- <-.
Qed.

Lemma client_run_wire inp calls c c' :
  wire_inv inp c → client_run calls c = Some c' → wire_inv inp c'.
Proof.
  revert c. induction calls as [|call calls IH]; intros c Hi Hr; cbn in Hr; [by injection Hr as <-|].
  apply bind_Some in Hr as (c1 & Hs & Hr). apply (IH c1); [|done].
  destruct call; cbn in Hs; apply fmap_Some in Hs as ([? ?] & Hs & ->); cbn.
  - exact (begin_wire _ _ _ _ _ Hi Hs).
  - exact (commit_wire _ _ _ _ Hi Hs).
  - exact (cancel_wire _ _ _ _ Hi Hs).
Qed.

(** Whatever sequence of calls is made on a prompt connection, whatever the daemon
    answers and however the transfers fail, once the connection has been dropped the
    bytes written to it are at most one Begin frame followed by at most one Commit or
    Cancel frame. The second frame is written only after the daemon answered a valid
    Begin with a valid prompt echoing its nonce, and it carries that prompt's token
    and that nonce; and a connection dropped while pending writes the Cancel. *)
Theorem prompt_client_sequence inp t calls c c' :
  client_run calls (Client_new (mkSocket inp [] t)) = Some c →
  drop_client os fuel c = Some c' →
  wire_sequence inp (sk_out (cl_socket c')) ∧ cl_phase c' ≠ ClientPending.
Proof.
  intros Hr Hd. apply (client_run_wire inp) in Hr; [|done].
  unfold drop_client in Hd. destruct (decide (cl_phase c = ClientPending)) as [Hph|Hph].
  - rewrite Hph in Hd. cbn in Hd. pose proof Hr as Hr'. unfold wire_inv in Hr'. rewrite Hph in Hr'.
    destruct Hr' as (begin & prompt & Hp & Hpr & Ho). rewrite Hp in Hd. cbn in Hd.
    apply fmap_Some in Hd as ([c1 r1] & Hc & ->). cbn.
    apply (cancel_spec _ (pending_of prompt)) in Hc as Hc'; [|done|done]. destruct Hc' as (Hf & _).
    apply (cancel_wire inp) in Hc; [|done]. unfold wire_inv in Hc. rewrite Hf in Hc.
    split; [by destruct Hc|congruence].
  - rewrite bool_decide_eq_false_2 in Hd by done. cbn in Hd. injection Hd as <-. split; [|done].
    unfold wire_inv in Hr. destruct (cl_phase c); [|done|by destruct Hr].
    destruct Hr as (_ & -> & _). apply wire_nothing.
Qed.
End specs.

(** ** Witnesses: a small codec and a daemon that answers *)

Module ClientDemo.

Definition request_encode (r : Request) : bytes :=
  match req_cmd r with
  | Some (CmdBeginAuthV1 b) => Byte.x01 :: bg_client_nonce b
  | Some (CmdCommitAuthV1 c) => Byte.x02 :: cm_transaction_token c ++ cm_client_nonce c
  | Some (CmdCancelAuthV1 c) => Byte.x03 :: cn_transaction_token c ++ cn_client_nonce c
  | Some (CmdAuthenticateV1 a) => Byte.x04 :: av_username a
  | _ => []
  end.
Definition response_decode (b : bytes) : option Response :=
  match b with
  | Byte.x01 :: rest =>
      Some (Response_prompt_required_v1_ref (take 32 rest) (drop 32 rest) 30000 5000)
  | Byte.x02 :: _ => Some (mkResponse (Some (RespSuccess 0 (bs "desk") 0 0)))
  | Byte.x03 :: _ => Some (Response_prompt_error PromptIncompatible)
  | Byte.x04 :: rest => Some (Response_auth_cancelled_v1_ref rest)
  | Byte.x05 :: _ => Some (mkResponse (Some (RespAuthFailed 0 9 (bs "no match"))))
  | _ => None
  end.
#[export] Instance request_message : Message Request :=
  {| encoded_len := λ r, len (request_encode r); encode := request_encode; decode := λ _, None |}.
#[export] Instance response_message : Message Response :=
  {| encoded_len := λ _, 0; encode := λ _, []; decode := response_decode |}.

Definition token : bytes := replicate 32 Byte.x54.
Definition nonce : bytes := replicate 32 Byte.x4e.
Definition frame_of (payload : bytes) : bytes := be32 (len payload) ++ payload.
Definition prompt_answer : bytes := frame_of (Byte.x01 :: token ++ nonce).
Definition success_answer : bytes := frame_of [Byte.x02].
Definition begin : BeginAuthV1Req :=
  mkBeginReq PROMPT_PROTOCOL_VERSION (bs "alice") nonce (Some (mkPolicyContext (bs "sudo") 1)).

(** The state after Begin and Commit against a daemon that prompts and then accepts. *)
Definition confirmed : option Client :=
  Eval vm_compute in
    client_run demo_os 200 [CallBegin begin; CallCommit]
      (Client_new (mkSocket (prompt_answer ++ success_answer) [] 0)).
End ClientDemo.
#[local] Existing Instance ClientDemo.request_message.
#[local] Existing Instance ClientDemo.response_message.

Lemma prompt_client_sequence_witness :
  ∃ c, client_run demo_os 200 [CallBegin ClientDemo.begin; CallCommit]
         (Client_new (mkSocket (ClientDemo.prompt_answer ++ ClientDemo.success_answer) [] 0)) = Some c ∧
    sk_out (cl_socket c)
    = frame (begin_request ClientDemo.begin)
      ++ frame (commit_request (mkPendingClient ClientDemo.token ClientDemo.nonce 5000)) ∧
    wire_sequence (ClientDemo.prompt_answer ++ ClientDemo.success_answer) (sk_out (cl_socket c)).
Proof.
  destruct ClientDemo.confirmed as [c|] eqn:Hc; [|discriminate Hc]. exists c.
  assert (Hrun : client_run demo_os 200 [CallBegin ClientDemo.begin; CallCommit]
            (Client_new (mkSocket (ClientDemo.prompt_answer ++ ClientDemo.success_answer) [] 0)) = Some c).
  { rewrite <- Hc. vm_compute. reflexivity. }
  assert (Hdrop : drop_client demo_os 200 c = Some c).
  { injection Hc as <-. vm_compute. reflexivity. }
  split; [exact Hrun|]. split; [injection Hc as <-; vm_compute; reflexivity|].
  exact (proj1 (prompt_client_sequence demo_os 200 _ 0 _ c c Hrun Hdrop)).
Defined.
