(* ===== verification/Pam.v ===== *)
(** * The PAM module

    [crates/howy-pam/src/lib.rs]: what [pam_sm_authenticate] asks of Linux-PAM and of
    the daemon and the code it returns. Linux-PAM is a [PamEnv]: the status and the
    pointer each call leaves, a C string being the bytes before its NUL; the daemon is
    the bytes each connection will deliver, under an operating system of its own per
    connection. Freeing the conversation's response and writing to syslog have no
    effect here. *)
From S2P Require Import Prelude Bytes Storage PromptState Protocol Ipc IpcClient.

Definition PAM_SUCCESS : Z := 0.
Definition PAM_SYSTEM_ERR : Z := 4.
Definition PAM_AUTH_ERR : Z := 7.
Definition PAM_AUTHINFO_UNAVAIL : Z := 9.
Definition PAM_USER_UNKNOWN : Z := 10.
Definition PAM_IGNORE : Z := 25.
Definition PAM_PROMPT_ECHO_ON : Z := 2.
Definition PAM_SILENT : Z := 32768.
Definition PAM_MAX_RESP_SIZE : Z := 512.
Definition PAM_SERVICE : Z := 1.
Definition PAM_RHOST : Z := 4.
Definition PAM_SERVICE_MAX_BYTES : Z := 64.
Definition PAM_RHOST_MAX_BYTES : Z := 255.
Definition PAM_AUTH_CEILING : Z := 10 * 1000000000.
Definition STREAM_READ_TIMEOUT : Z := 10 * 1000000000.
Definition STREAM_WRITE_TIMEOUT : Z := 5 * 1000000000.

Definition CONFIRMATION_PROMPT : bytes :=
  bs "Face authentication requested. Press Enter or submit OK to allow one camera scan; cancel to use another method.".

(** What the conversation callback leaves: its status and, if the pointer is not null,
    the one response. *)
Record PamResponse := mkPamResponse { resp_text : option bytes; resp_retcode : Z }.
Definition PamCallback : Type := Z → bytes → Z * option PamResponse.

(** [pam_get_user] and [pam_get_item] leave a status and a pointer; [pe_conv] is the
    [PAM_CONV] item, whose callback may be null. *)
Record PamEnv := mkPamEnv {
  pe_handle_null : bool;
  pe_flags : Z;
  pe_get_user : Z * option bytes;
  pe_get_item : Z → Z * option bytes;
  pe_conv : Z * option (option PamCallback);
  pe_connect : nat → ioresult bytes;
  pe_os : nat → Os;
  pe_fill_nonce : option bytes }.

(** ** Conversation *)

(** [confirmation_response_is_allowed]; [strnlen] stops one byte past the cap. *)
Definition confirmation_response_is_allowed (response : bytes) : bool :=
  let length := Z.min (len response) (PAM_MAX_RESP_SIZE + 1) in
  if PAM_MAX_RESP_SIZE <? length then false
  else
    let text := take (Z.to_nat length) response in
    if negb (utf8_valid text) then false
    else bool_decide (text = []) || bool_decide (text = bs "OK").

(** [request_confirmation_from_conv] *)
Definition request_confirmation_from_conv (conv : option (option PamCallback)) (flags : Z) : Z :=
  if negb (Z.land flags PAM_SILENT =? 0) || negb (bool_decide (is_Some conv))
  then PAM_AUTHINFO_UNAVAIL
  else
    match conv with
    | None | Some None => PAM_AUTHINFO_UNAVAIL
    | Some (Some callback) =>
        let '(callback_status, responses) := callback PAM_PROMPT_ECHO_ON CONFIRMATION_PROMPT in
        if negb (callback_status =? PAM_SUCCESS) then PAM_AUTHINFO_UNAVAIL
        else
          match responses with
          | None => PAM_AUTHINFO_UNAVAIL
          | Some response =>
              match resp_text response with
              | Some text =>
                  if negb (resp_retcode response =? 0) then PAM_AUTHINFO_UNAVAIL
                  else if confirmation_response_is_allowed text then PAM_SUCCESS
                  else PAM_AUTHINFO_UNAVAIL
              | None => PAM_AUTHINFO_UNAVAIL
              end
          end
    end.

(** [request_confirmation_with_get_item] *)
Definition request_confirmation_with_get_item (env : PamEnv) : Z :=
  if negb (Z.land (pe_flags env) PAM_SILENT =? 0) || pe_handle_null env
  then PAM_AUTHINFO_UNAVAIL
  else if negb (fst (pe_conv env) =? PAM_SUCCESS) then PAM_AUTHINFO_UNAVAIL
  else request_confirmation_from_conv (snd (pe_conv env)) (pe_flags env).

(** ** Policy context *)

(** [read_pam_string_item] *)
Definition read_pam_string_item (env : PamEnv) (item_type max_bytes : Z)
    : result unit (option bytes) :=
  let '(status, item) := pe_get_item env item_type in
  if negb (status =? PAM_SUCCESS) then Err ()
  else
    match item with
    | None => Ok None
    | Some value =>
        let length := Z.min (len value) (max_bytes + 1) in
        if max_bytes <? length then Err ()
        else if utf8_valid (take (Z.to_nat length) value)
        then Ok (Some (take (Z.to_nat length) value)) else Err ()
    end.

Definition is_valid_pam_service (service : bytes) : bool :=
  contains 1 PAM_SERVICE_MAX_BYTES (len service) && forallb is_name_byte service.

(** [b'.' | b'-' | b'_' | b':' | b'[' | b']' | b'%'] *)
Definition is_rhost_byte (b : byte) : bool :=
  is_name_byte b || bool_decide (b ∈ [Byte.x3a; Byte.x5b; Byte.x5d; Byte.x25]).
Definition is_valid_pam_rhost (rhost : bytes) : bool :=
  negb (bool_decide (rhost = [])) && (len rhost <=? PAM_RHOST_MAX_BYTES)
  && forallb is_rhost_byte rhost.

(** [read_pam_policy] *)
Definition read_pam_policy (env : PamEnv) : result unit (bytes * PromptOriginV1) :=
  item ← read_pam_string_item env PAM_SERVICE PAM_SERVICE_MAX_BYTES;
  service ← ok_or item ();
  if negb (is_valid_pam_service service) then Err ()
  else
    rhost ← read_pam_string_item env PAM_RHOST PAM_RHOST_MAX_BYTES;
    origin ← match rhost with
             | None => Ok OriginLocal
             | Some value =>
                 if bool_decide (value = []) then Ok OriginLocal
                 else if is_valid_pam_rhost value then Ok OriginRemote
                 else Err ()
             end;
    Ok (service, origin).

(** ** Usernames *)

Fixpoint contains_dot_dot (name : bytes) : bool :=
  match name with
  | a :: (b :: _) as rest =>
      (bool_decide (a = Byte.x2e) && bool_decide (b = Byte.x2e)) || contains_dot_dot rest
  | _ => false
  end.

Definition is_valid_username (name : bytes) : bool :=
  negb (bool_decide (name = [])) && (len name <=? 64)
  && negb (bool_decide (Byte.x2f ∈ name)) && negb (bool_decide (Byte.x00 ∈ name))
  && negb (contains_dot_dot name) && forallb is_name_byte name.

(** [map_auth_response] *)
Definition map_auth_response (response : Response) : Z :=
  match resp_result response with
  | Some (RespSuccess _ _ _ _) => PAM_SUCCESS
  | Some (RespAuthFailed _ _ _) => PAM_AUTH_ERR
  | _ => PAM_AUTHINFO_UNAVAIL
  end.

Section pam.
  Context (fuel : nat) `{Message Request} `{Message Response}.

(** [ipc::request_message_until] *)
Definition request_message_until (os : Os) (sk : Socket) (request : Request) (deadline : Z)
    : option (Socket * ioresult Response) :=
  match send_message_until os fuel sk request deadline with
  | None => None
  | Some (sk, Err e) => Some (sk, Err e)
  | Some (sk, Ok _) => recv_prompt_message_until os fuel false sk deadline
  end.

(** [configure_stream] *)
Definition configure_stream (os : Os) (sk : Socket) : Socket * bool :=
  match os_set_timeout os (sk_tick sk) STREAM_READ_TIMEOUT with
  | Err _ => (tick sk, false)
  | Ok _ =>
      (tick (tick sk),
       is_ok (os_set_timeout os (sk_tick (tick sk)) STREAM_WRITE_TIMEOUT))
  end.

(** The [n]-th [connect] and the stream's configuration. *)
Definition open_stream (env : PamEnv) (n : nat) : option Socket :=
  match pe_connect env n with
  | Err _ => None
  | Ok peer =>
      let '(sk, configured) := configure_stream (pe_os env n) (mkSocket peer [] 0) in
      if configured then Some sk else None
  end.

(** The prompt answered: confirmation, then Commit or Cancel. *)
Definition answer_prompt (env : PamEnv) (c : Client) : option (Z * Client) :=
  if negb (request_confirmation_with_get_item env =? PAM_SUCCESS) then
    match client_cancel (pe_os env 0) fuel c with
    | None => None
    | Some (c, _) => Some (PAM_AUTHINFO_UNAVAIL, c)
    end
  else
    match client_commit (pe_os env 0) fuel c with
    | None => None
    | Some (c, Ok response) => Some (map_auth_response response, c)
    | Some (c, Err _) => Some (PAM_AUTHINFO_UNAVAIL, c)
    end.

(** The fallback when the daemon reports that prompts are off: a fresh connection and
    one versioned request under one ceiling. *)
Definition authenticate_without_prompt (env : PamEnv) (auth_ceiling : Z) (username : bytes)
    : option (Z * list Socket) :=
  match open_stream env 1 with
  | None => Some (PAM_AUTHINFO_UNAVAIL, [])
  | Some sk =>
      let request := Request_authenticate_v1 username 0 in
      let '(sk, now) := clock (pe_os env 1) sk in
      match instant_checked_add now auth_ceiling with
      | None => Some (PAM_AUTHINFO_UNAVAIL, [sk])
      | Some deadline =>
          match request_message_until (pe_os env 1) sk request deadline with
          | None => None
          | Some (sk, Err _) => Some (PAM_AUTHINFO_UNAVAIL, [sk])
          | Some (sk, Ok response) =>
              let '(sk, now) := clock (pe_os env 1) sk in
              Some (if now <? deadline then map_auth_response response
                    else PAM_AUTHINFO_UNAVAIL, [sk])
          end
      end
  end.

(** [authenticate_user_with]: the code and the connections made, in order, each as it
    was left when dropped. *)
Definition authenticate_user_with (env : PamEnv) (auth_ceiling : Z) : option (Z * list Socket) :=
  if pe_handle_null env then Some (PAM_SYSTEM_ERR, [])
  else
    let '(status, username_ptr) := pe_get_user env in
    if negb (status =? PAM_SUCCESS) then Some (status, [])
    else
      match username_ptr with
      | None => Some (PAM_USER_UNKNOWN, [])
      | Some username =>
          if negb (utf8_valid username && is_valid_username username)
          then Some (PAM_USER_UNKNOWN, [])
          else if bool_decide (username = bs "root") then Some (PAM_AUTHINFO_UNAVAIL, [])
          else
            match read_pam_policy env with
            | Err _ => Some (PAM_AUTHINFO_UNAVAIL, [])
            | Ok (service, origin) =>
                match pe_fill_nonce env with
                | None => Some (PAM_AUTHINFO_UNAVAIL, [])
                | Some nonce =>
                    match open_stream env 0 with
                    | None => Some (PAM_AUTHINFO_UNAVAIL, [])
                    | Some sk =>
                        match begin_adaptive_ref (pe_os env 0) fuel username nonce service origin
                                (Client_new sk) with
                        | None => None
                        | Some (c, Ok (PromptRequired _)) =>
                            '(code, c) ← answer_prompt env c;
                            c ← drop_client (pe_os env 0) fuel c;
                            Some (code, [cl_socket c])
                        | Some (c, Ok PromptModeOff) =>
                            c ← drop_client (pe_os env 0) fuel c;
                            '(code, socks) ← authenticate_without_prompt env auth_ceiling username;
                            Some (code, cl_socket c :: socks)
                        | Some (c, Err _) =>
                            c ← drop_client (pe_os env 0) fuel c;
                            Some (PAM_AUTHINFO_UNAVAIL, [cl_socket c])
                        end
                    end
                end
            end
      end.

(** [authenticate_user] *)
Definition authenticate_user (env : PamEnv) : option (Z * list Socket) :=
  authenticate_user_with env PAM_AUTH_CEILING.
End pam.

(** [catch_pam_panic]: [None] is an unwinding panic. *)
Definition catch_pam_panic (r : option Z) : Z := default PAM_AUTHINFO_UNAVAIL r.

(** The other entry points. *)
Definition pam_sm_setcred : Z := catch_pam_panic (Some PAM_SUCCESS).
Definition pam_sm_acct_mgmt : Z := catch_pam_panic (Some PAM_IGNORE).
Definition pam_sm_open_session : Z := catch_pam_panic (Some PAM_IGNORE).
Definition pam_sm_close_session : Z := catch_pam_panic (Some PAM_IGNORE).
Definition pam_sm_chauthtok : Z := catch_pam_panic (Some PAM_IGNORE).

(** * The PAM module: properties

    [PAM_SUCCESS] is returned only when the daemon accepted the user on this
    connection, after the user confirmed the scan when the daemon asked for it; and
    whatever happens, what is written to the daemon is a Begin followed by a Commit
    only if the user confirmed, by a Cancel otherwise. *)

(** The user agreed to one scan: the conversation is possible, was asked with the
    confirmation prompt and answered with nothing or with OK. *)
Definition confirmed (env : PamEnv) : Prop :=
  Z.land (pe_flags env) PAM_SILENT = 0 ∧ pe_handle_null env = false ∧
  ∃ callback text,
    pe_conv env = (PAM_SUCCESS, Some (Some callback)) ∧
    callback PAM_PROMPT_ECHO_ON CONFIRMATION_PROMPT
      = (PAM_SUCCESS, Some (mkPamResponse (Some text) 0)) ∧
    (text = [] ∨ text = bs "OK").

Lemma confirmation_allowed_iff text :
  confirmation_response_is_allowed text = true ↔ text = [] ∨ text = bs "OK".
Proof.
  unfold confirmation_response_is_allowed. split.
  - destruct (Z.ltb_spec PAM_MAX_RESP_SIZE (Z.min (len text) (PAM_MAX_RESP_SIZE + 1))); [done|].
    rewrite take_ge by (unfold len in *; lia).
    destruct (utf8_valid text); [|done]. cbn. intros Hc.
    apply orb_true_iff in Hc as [Hc|Hc]; apply bool_decide_eq_true in Hc; auto.
  - intros [->| ->]; reflexivity.
Qed.

(** A refusal contradicts the confirmation. *)
Ltac not_confirmed := split; [discriminate|intros (? & ? & ? & ? & ? & ? & ?); simplify_eq; congruence].

Lemma confirmation_iff env :
  request_confirmation_with_get_item env = PAM_SUCCESS ↔ confirmed env.
Proof.
  unfold request_confirmation_with_get_item, request_confirmation_from_conv, confirmed.
  destruct (Z.eqb_spec (Z.land (pe_flags env) PAM_SILENT) 0) as [Hs|Hs]; cbn [negb orb];
    [|not_confirmed].
  destruct (pe_handle_null env); [not_confirmed|].
  destruct (pe_conv env) as [st conv]; cbn [fst snd].
  destruct (Z.eqb_spec st PAM_SUCCESS) as [->|Hst]; cbn [negb]; [|not_confirmed].
  destruct conv as [[callback|]|]; [|not_confirmed..].
  rewrite bool_decide_eq_true_2 by done. cbn [negb].
  destruct (callback PAM_PROMPT_ECHO_ON CONFIRMATION_PROMPT) as [cst resp] eqn:Hc.
  destruct (Z.eqb_spec cst PAM_SUCCESS) as [->|Hcst]; cbn [negb]; [|not_confirmed].
  destruct resp as [[[text|] code]|]; cbn [resp_text resp_retcode];
    [|not_confirmed..].
  destruct (Z.eqb_spec code 0) as [->|Hcode]; cbn [negb]; [|not_confirmed].
  destruct (confirmation_response_is_allowed text) eqn:Ha.
  - apply confirmation_allowed_iff in Ha. naive_solver.
  - split; [discriminate|]. intros (_ & _ & cb & t & Hcv & Hcb & Ht).
    injection Hcv as <-. rewrite Hc in Hcb. injection Hcb as <-.
    apply confirmation_allowed_iff in Ht. congruence.
Qed.

Section pam_proofs.
  Context (fuel : nat) `{Message Request} `{Message Response}.

(** What PAM supplied, and the Begin it leads to. *)
Definition pam_request (env : PamEnv) (begin : BeginAuthV1Req) : Prop :=
  pe_handle_null env = false ∧
  pe_get_user env = (PAM_SUCCESS, Some (bg_username begin)) ∧
  is_valid_username (bg_username begin) = true ∧ bg_username begin ≠ bs "root" ∧
  pe_fill_nonce env = Some (bg_client_nonce begin) ∧
  bg_protocol_version begin = PROMPT_PROTOCOL_VERSION ∧
  ∃ service origin, read_pam_policy env = Ok (service, origin) ∧
    bg_policy begin = Some (mkPolicyContext service (origin_i32 origin)).

Lemma open_stream_Some env n sk :
  open_stream env n = Some sk →
  ∃ peer, pe_connect env n = Ok peer ∧ sk_in sk = peer ∧ sk_out sk = [].
Proof.
  unfold open_stream, configure_stream. destruct (pe_connect env n) as [peer|]; [|done].
  destruct (os_set_timeout _ _ _); [|done].
  destruct (is_ok _); intros [= <-]. by exists peer.
Qed.

Lemma drop_finished os c : cl_phase c ≠ ClientPending → drop_client os fuel c = Some c.
Proof. intros Hph. unfold drop_client. by rewrite bool_decide_eq_false_2. Qed.

Lemma map_auth_success r :
  map_auth_response r = PAM_SUCCESS ↔ ∃ i l s e, r = mkResponse (Some (RespSuccess i l s e)).
Proof. destruct r as [[[]|]]; cbn; unfold PAM_SUCCESS; naive_solver. Qed.

Lemma map_auth_failed r :
  map_auth_response r = PAM_AUTH_ERR ↔ ∃ s n reason, r = mkResponse (Some (RespAuthFailed s n reason)).
Proof. destruct r as [[[]|]]; cbn; unfold PAM_AUTH_ERR; naive_solver. Qed.

(** The daemon's answer when a prompt was required and answered. *)
Lemma answer_prompt_spec env c p code c' :
  cl_phase c = ClientPending → cl_pending c = Some p →
  answer_prompt fuel env c = Some (code, c') →
  cl_phase c' = ClientFinished ∧
  ((confirmed env ∧ ∃ w d, moved (cl_socket c) w d (cl_socket c') ∧
      w `prefix_of` frame (commit_request p) ∧
      (code = PAM_AUTHINFO_UNAVAIL ∨
       ∃ response, w = frame (commit_request p) ∧ received d response ∧ code = map_auth_response response))
   ∨ (¬ confirmed env ∧ code = PAM_AUTHINFO_UNAVAIL ∧ ∃ w d, moved (cl_socket c) w d (cl_socket c') ∧
      w `prefix_of` frame (cancel_request p))).
Proof.
  intros Hph Hp. unfold answer_prompt.
  destruct (Z.eqb_spec (request_confirmation_with_get_item env) PAM_SUCCESS) as [Hc|Hc]; cbn [negb].
  - apply confirmation_iff in Hc.
    destruct (client_commit (pe_os env 0) fuel c) as [[c1 r]|] eqn:Hcm; [|done].
    apply (commit_spec _ _ c p) in Hcm as (Hf & _ & w & d & Hm & Hw & Hok); [|done|done].
    destruct r as [response|e]; intros [= <- <-]; split; try done; left;
      (split; [done|]); exists w, d; (split_and!; [done|done|]); [right|by left].
    destruct (Hok eq_refl) as (-> & r' & [= <-] & Hrec & _). by exists response.
  - destruct (client_cancel (pe_os env 0) fuel c) as [[c1 r]|] eqn:Hcm; [|done].
    apply (cancel_spec _ _ c p) in Hcm as (Hf & _ & w & d & Hm & Hw & Hok); [|done|done].
    intros [= <- <-]. split; [done|]. right. rewrite <- confirmation_iff. eauto 8.
Qed.

(** The request made when prompts are off. *)
Lemma without_prompt_spec env ceiling username code socks :
  authenticate_without_prompt fuel env ceiling username = Some (code, socks) →
  code = PAM_AUTHINFO_UNAVAIL ∨
  ∃ sk peer d response, socks = [sk] ∧ pe_connect env 1 = Ok peer ∧ peer = d ++ sk_in sk ∧
    sk_out sk = frame (Request_authenticate_v1 username 0) ∧ received d response ∧
    code = map_auth_response response.
Proof.
  unfold authenticate_without_prompt, request_message_until, clock.
  destruct (open_stream env 1) as [sk|] eqn:Ho; [|naive_solver].
  apply open_stream_Some in Ho as (peer & Hc & Hin & Hout).
  destruct (instant_checked_add _ _) as [dl|]; [|naive_solver].
  destruct (send_message_until _ _ _ _ _) as [[sk1 [u|]]|] eqn:Hs; [|naive_solver|done].
  apply send_message_until_spec in Hs as (w & rest & Hw & (Hso & Hsi & _) & Hok).
  destruct (Hok u eq_refl) as [-> _]. rewrite app_nil_r in Hw.
  destruct (recv_prompt_message_until _ _ _ _ _) as [[sk2 [response|]]|] eqn:Hr; [|naive_solver|done].
  apply recv_until_Ok in Hr as (payload & (Hri & Hro & _) & Hl & Hd & _).
  intros [= <- <-]. destruct (_ <? dl); [right|by left].
  exists (tick sk2), peer, (be32 (len payload) ++ payload), response. cbn.
  split_and!; [done|done| | |by exists payload|done].
  - by rewrite <- Hri, Hsi, <- Hin.
  - rewrite Hro, Hso. cbn. by rewrite Hout, Hw.
Qed.

(** The whole run: either no connection was made, or Begin was tried on the first. *)
Inductive pam_run (env : PamEnv) (ceiling : Z) : Z → list Socket → Prop :=
| run_refused code :
    (code = PAM_SYSTEM_ERR ∨ code = PAM_USER_UNKNOWN ∨ code = PAM_AUTHINFO_UNAVAIL
     ∨ code = fst (pe_get_user env) ∧ code ≠ PAM_SUCCESS) →
    pam_run env ceiling code []
| run_failed begin sk :
    pam_request env begin →
    (sk_out sk = [] ∨ begin_validate begin = Ok ()) →
    sk_out sk `prefix_of` frame (begin_request begin) →
    pam_run env ceiling PAM_AUTHINFO_UNAVAIL [sk]
| run_prompted begin peer prompt d1 sk1 w d2 sk code :
    pam_request env begin → pe_connect env 0 = Ok peer →
    prompt_for begin prompt → received d1 (mkResponse (Some (RespPromptRequiredV1 prompt))) →
    peer = d1 ++ sk_in sk1 → sk_out sk1 = frame (begin_request begin) →
    moved sk1 w d2 sk →
    (confirmed env ∧ w `prefix_of` frame (commit_request (pending_of prompt)) ∧
      (code = PAM_AUTHINFO_UNAVAIL ∨ ∃ response, w = frame (commit_request (pending_of prompt)) ∧
         received d2 response ∧ code = map_auth_response response)
     ∨ ¬ confirmed env ∧ code = PAM_AUTHINFO_UNAVAIL ∧
      w `prefix_of` frame (cancel_request (pending_of prompt))) →
    pam_run env ceiling code [sk]
| run_prompt_off begin peer message d1 sk code socks :
    pam_request env begin → pe_connect env 0 = Ok peer → begin_validate begin = Ok () →
    received d1 (mkResponse (Some (RespError message PROMPT_PROTOCOL_INCOMPATIBLE_ERROR))) →
    peer = d1 ++ sk_in sk → sk_out sk = frame (begin_request begin) →
    authenticate_without_prompt fuel env ceiling (bg_username begin) = Some (code, socks) →
    pam_run env ceiling code (sk :: socks).

Lemma authenticate_run env ceiling code socks :
  authenticate_user_with fuel env ceiling = Some (code, socks) → pam_run env ceiling code socks.
Proof.
  unfold authenticate_user_with.
  destruct (pe_handle_null env) eqn:Hh; [intros [= <- <-]; apply run_refused; auto|].
  destruct (pe_get_user env) as [status ptr] eqn:Hu.
  destruct (Z.eqb_spec status PAM_SUCCESS) as [->|Hst]; cbn [negb].
  2: { intros [= <- <-]. apply run_refused. rewrite Hu. auto. }
  destruct ptr as [username|]; [|intros [= <- <-]; apply run_refused; auto].
  destruct (utf8_valid username && is_valid_username username) eqn:Hv; cbn [negb];
    [|intros [= <- <-]; apply run_refused; auto].
  case_bool_decide as Hroot; [intros [= <- <-]; apply run_refused; auto|].
  destruct (read_pam_policy env) as [[service origin]|] eqn:Hpol; [|intros [= <- <-]; apply run_refused; auto].
  destruct (pe_fill_nonce env) as [nonce|] eqn:Hn; [|intros [= <- <-]; apply run_refused; auto].
  destruct (open_stream env 0) as [sk|] eqn:Ho; [|intros [= <- <-]; apply run_refused; auto].
  apply open_stream_Some in Ho as (peer & Hcon & Hin & Hout).
  unfold begin_adaptive_ref.
  set (begin := mkBeginReq PROMPT_PROTOCOL_VERSION username nonce _).
  assert (Hreq : pam_request env begin).
  { apply andb_true_iff in Hv as [_ Hv]. unfold pam_request. subst begin; cbn.
    split_and!; try done. by exists service, origin. }
  destruct (begin_adaptive _ _ _ _) as [[c r]|] eqn:Hb; [|done].
  apply begin_spec in Hb as (w & d & (Hmo & Hmi & _) & Hw & Hval & Hb); [|done|done]. cbn in Hmo, Hmi.
  rewrite Hout in Hmo. rewrite Hin in Hmi. cbn in Hmo.
  destruct r as [[md|]|e].
  - destruct Hb as (prompt & Hpf & -> & Hrec & _ & Hph & Hpd). intros Hr.
    apply bind_Some in Hr as ([code1 c1] & Ha & Hr).
    apply (answer_prompt_spec _ _ _ _ _ Hph Hpd) in Ha as (Hf & Ha).
    rewrite drop_finished in Hr by congruence. injection Hr as <- <-.
    destruct Ha as [(Hc & w' & d' & Hm & Hw' & Hcode)|(Hc & -> & w' & d' & Hm & Hw')];
      eapply run_prompted; eauto 8.
  - destruct Hb as (Hval' & -> & (message & Hrec) & Hph & _). rewrite drop_finished by congruence.
    intros Hr. apply bind_Some in Hr as (c1 & [= <-] & Hr). apply bind_Some in Hr as ([code1 socks1] & Ha & Hr).
    injection Hr as <- <-. eapply run_prompt_off; eauto.
  - destruct Hb as (Hph & _ & _). rewrite drop_finished by done. intros [= <- <-].
    eapply run_failed; [done| |by rewrite Hmo]. rewrite Hmo. by destruct Hval; [left|right].
Qed.

(** The daemon accepted after the prompt, on the connection that carried the Commit. *)
Definition accepted_after_prompt (env : PamEnv) (begin : BeginAuthV1Req) (peer : bytes)
    (socks : list Socket) : Prop :=
  ∃ prompt d1 d2 index label score elapsed sk,
    confirmed env ∧ socks = [sk] ∧ peer = d1 ++ d2 ++ sk_in sk ∧ prompt_for begin prompt ∧
    received d1 (mkResponse (Some (RespPromptRequiredV1 prompt))) ∧
    received d2 (mkResponse (Some (RespSuccess index label score elapsed))) ∧
    sk_out sk = frame (begin_request begin) ++ frame (commit_request (pending_of prompt)).

(** The daemon said that prompts are off and accepted on a second connection. *)
Definition accepted_without_prompt (env : PamEnv) (begin : BeginAuthV1Req) (peer : bytes)
    (socks : list Socket) : Prop :=
  ∃ message peer' d1 d2 index label score elapsed sk sk',
    socks = [sk; sk'] ∧ peer = d1 ++ sk_in sk ∧
    received d1 (mkResponse (Some (RespError message PROMPT_PROTOCOL_INCOMPATIBLE_ERROR))) ∧
    pe_connect env 1 = Ok peer' ∧ peer' = d2 ++ sk_in sk' ∧
    received d2 (mkResponse (Some (RespSuccess index label score elapsed))) ∧
    sk_out sk' = frame (Request_authenticate_v1 (bg_username begin) 0).

(** C3: The module returns PAM_SUCCESS only if the daemon accepted this user now. PAM
    named a valid user other than root and a valid service; the daemon either answered
    this connection's Begin with a valid prompt for its nonce, the user then confirmed
    in the conversation, the Commit carrying that prompt's token was sent whole and the
    very next frame is the daemon's success; or it answered that prompts are off and
    the next frame of a fresh connection, after the whole one-shot request, is its
    success. No other exchange, and no failure of a call, yields success. *)
Theorem pam_success_requires_acceptance env ceiling socks :
  authenticate_user_with fuel env ceiling = Some (PAM_SUCCESS, socks) →
  ∃ begin peer, pam_request env begin ∧ begin_validate begin = Ok () ∧ pe_connect env 0 = Ok peer ∧
    (accepted_after_prompt env begin peer socks ∨ accepted_without_prompt env begin peer socks).
Proof.
  intros Hr%authenticate_run. inversion Hr as
    [code Hcode|begin sk Hreq Hv Hp|begin peer prompt d1 sk1 w d2 sk code Hreq Hcon Hpf Hrec Hpeer Hout Hm Hans
    |begin peer message d1 sk code socks' Hreq Hcon Hv Hrec Hpeer Hout Hwp]; subst.
  - destruct Hcode as [?|[?|[?|[_ ?]]]]; done.
  - exists begin, (d1 ++ sk_in sk1). destruct Hpf as (Hv & Hpv & Hnon).
    split_and!; [done|done|done|]. left.
    destruct Hans as [(Hc & Hw & [?|(response & -> & Hrec2 & Hcode)])|(_ & ? & _)]; [done| |done].
    symmetry in Hcode. apply map_auth_success in Hcode as (i & l & s & e & ->).
    destruct Hm as (Hmo & Hmi & _).
    exists prompt, d1, d2, i, l, s, e, sk. rewrite Hmo, Hout, Hmi. split_and!; done.
  - exists begin, (d1 ++ sk_in sk). split_and!; [done|done|done|]. right.
    apply without_prompt_spec in Hwp as [?|(sk' & peer' & d2 & response & -> & Hc' & -> & Ho' & Hrec2 & Hcode)]; [done|].
    symmetry in Hcode. apply map_auth_success in Hcode as (i & l & s & e & ->).
    exists message, (d2 ++ sk_in sk'), d1, d2, i, l, s, e, sk, sk'. split_and!; done.
Qed.

(** C33: Nothing but what the user allowed reaches the daemon. On every run, whatever is
    returned: no connection is made unless PAM named a valid user other than root and
    a valid policy context; the first connection carries at most one Begin for that
    user, then only for a prompt the daemon issued for it a Commit if the user
    confirmed and a Cancel if not. *)
Theorem pam_commits_only_confirmed env ceiling code socks :
  authenticate_user_with fuel env ceiling = Some (code, socks) →
  socks = [] ∨ ∃ begin sk more, socks = sk :: more ∧ pam_request env begin ∧
    (sk_out sk = [] ∨ begin_validate begin = Ok ()) ∧
    (sk_out sk `prefix_of` frame (begin_request begin)
     ∨ ∃ prompt w, prompt_for begin prompt ∧ sk_out sk = frame (begin_request begin) ++ w ∧
        (confirmed env ∧ w `prefix_of` frame (commit_request (pending_of prompt))
         ∨ ¬ confirmed env ∧ w `prefix_of` frame (cancel_request (pending_of prompt)))).
Proof.
  intros Hr%authenticate_run. inversion Hr as
    [code' Hcode|begin sk Hreq Hv Hp|begin peer prompt d1 sk1 w d2 sk code' Hreq Hcon Hpf Hrec Hpeer Hout Hm Hans
    |begin peer message d1 sk code' socks' Hreq Hcon Hv Hrec Hpeer Hout Hwp]; subst; [by left|right..].
  - exists begin, sk, []. split_and!; [done|done|done|by left].
  - exists begin, sk, []. pose proof Hpf as (Hv & _). destruct Hm as (Hmo & _).
    split_and!; [done|done|by right|]. right. exists prompt, w. rewrite Hmo, Hout.
    split_and!; [done|done|]. destruct Hans as [(? & ? & _)|(? & _ & ?)]; auto.
  - exists begin, sk, socks'. split_and!; [done|done|by right|]. left. by rewrite Hout.
Qed.

(** Every outcome leaves a documented code: PAM_SYSTEM_ERR and PAM_USER_UNKNOWN for
    a call that names no usable user, the status of pam_get_user when it failed,
    PAM_SUCCESS or PAM_AUTH_ERR only as the daemon's answer to this request, and
    PAM_AUTHINFO_UNAVAIL, which lets the stack fall back to a password, for everything
    else; root, in particular, always gets it and never reaches the daemon. *)
Theorem pam_result_codes env ceiling code socks :
  authenticate_user_with fuel env ceiling = Some (code, socks) →
  (code ∈ [PAM_SUCCESS; PAM_AUTH_ERR; PAM_AUTHINFO_UNAVAIL; PAM_USER_UNKNOWN; PAM_SYSTEM_ERR]
   ∨ code = fst (pe_get_user env) ∧ code ≠ PAM_SUCCESS) ∧
  (code = PAM_AUTH_ERR → fst (pe_get_user env) = PAM_SUCCESS →
   ∃ n peer before d score frames reason sk, last socks = Some sk ∧ pe_connect env n = Ok peer ∧
     peer = before ++ d ++ sk_in sk ∧
     received d (mkResponse (Some (RespAuthFailed score frames reason)))) ∧
  (pe_handle_null env = false → pe_get_user env = (PAM_SUCCESS, Some (bs "root")) →
   code = PAM_AUTHINFO_UNAVAIL ∧ socks = []).
Proof.
  intros Hauth. split_and!.
  - apply authenticate_run in Hauth. assert (Hmap : ∀ r, map_auth_response r ∈
      [PAM_SUCCESS; PAM_AUTH_ERR; PAM_AUTHINFO_UNAVAIL; PAM_USER_UNKNOWN; PAM_SYSTEM_ERR]).
    { intros [[[]|]]; cbn; set_solver. }
    inversion Hauth as [code' Hcode| |? ? ? ? ? ? ? ? ? _ _ _ _ _ _ _ Hans|? ? ? ? ? ? ? _ _ _ _ _ _ Hwp]; subst.
    + destruct Hcode as [->|[->|[->|?]]]; [left; set_solver..|by right].
    + left; set_solver.
    + left. destruct Hans as [(_ & _ & [->|(r & _ & _ & ->)])|(_ & -> & _)]; [set_solver|apply Hmap|set_solver].
    + left. apply without_prompt_spec in Hwp as [->|(? & ? & ? & r & _ & _ & _ & _ & _ & ->)];
        [set_solver|apply Hmap].
  - intros -> Hu. apply authenticate_run in Hauth.
    inversion Hauth as [code' Hcode| |? peer ? d1 sk1 ? d2 sk ? _ Hcon _ _ Hpeer _ Hm Hans
      |? ? ? ? ? ? ? _ _ _ _ _ _ Hwp]; subst.
    + destruct Hcode as [?|[?|[?|[Hc _]]]]; [done..|]. rewrite Hu in Hc. discriminate Hc.
    + destruct Hans as [(_ & _ & [?|(r & _ & Hrec & Hr)])|(_ & ? & _)]; [done| |done].
      symmetry in Hr. apply map_auth_failed in Hr as (sc & fr & re & ->). destruct Hm as (_ & Hmi & _).
      exists 0%nat, (d1 ++ sk_in sk1), d1, d2, sc, fr, re, sk. split_and!; [done|done|by rewrite Hmi|done].
    + apply without_prompt_spec in Hwp as [?|(sk' & peer' & d2 & r & -> & Hc & -> & _ & Hrec & Hr)]; [done|].
      symmetry in Hr. apply map_auth_failed in Hr as (sc & fr & re & ->).
      exists 1%nat, (d2 ++ sk_in sk'), [], d2, sc, fr, re, sk'. split_and!; done.
  - intros Hnn Hroot. unfold authenticate_user_with in Hauth. rewrite Hnn, Hroot in Hauth.
    by injection Hauth as <- <-.
Qed.
End pam_proofs.

(** ** Witnesses *)

#[local] Existing Instance ClientDemo.request_message.
#[local] Existing Instance ClientDemo.response_message.

(** sudo asks for alice locally; the conversation answers OK; the daemon prompts and
    accepts. *)
Definition demo_env (answer : bytes) (daemon : nat → ioresult bytes) : PamEnv :=
  mkPamEnv false 0 (PAM_SUCCESS, Some (bs "alice"))
    (λ item, (PAM_SUCCESS, if item =? PAM_SERVICE then Some (bs "sudo") else None))
    (PAM_SUCCESS, Some (Some (λ _ _, (PAM_SUCCESS, Some (mkPamResponse (Some answer) 0)))))
    daemon (λ _, demo_os) (Some ClientDemo.nonce).

Definition prompting_daemon (n : nat) : ioresult bytes :=
  Ok (ClientDemo.prompt_answer ++ ClientDemo.success_answer).

Lemma pam_success_requires_acceptance_witness :
  ∃ socks begin peer,
    authenticate_user_with 200 (demo_env (bs "OK") prompting_daemon) PAM_AUTH_CEILING
      = Some (PAM_SUCCESS, socks) ∧
    pam_request (demo_env (bs "OK") prompting_daemon) begin ∧
    (accepted_after_prompt (demo_env (bs "OK") prompting_daemon) begin peer socks
     ∨ accepted_without_prompt (demo_env (bs "OK") prompting_daemon) begin peer socks).
Proof.
  destruct (authenticate_user_with 200 (demo_env (bs "OK") prompting_daemon) PAM_AUTH_CEILING)
    as [[code socks]|] eqn:Hr; [|vm_compute in Hr; discriminate Hr].
  assert (code = PAM_SUCCESS) as -> by (vm_compute in Hr; injection Hr as <- _; reflexivity).
  destruct (pam_success_requires_acceptance 200 _ _ _ Hr) as (begin & peer & Hreq & _ & _ & Hacc).
  exists socks, begin, peer. split; [reflexivity|]. split; assumption.
Defined.

(** The user answers something else: the module cancels. *)
Lemma pam_commits_only_confirmed_witness :
  ∃ socks, authenticate_user_with 200 (demo_env (bs "no") prompting_daemon) PAM_AUTH_CEILING
      = Some (PAM_AUTHINFO_UNAVAIL, socks) ∧ socks ≠ [] ∧
    (socks = [] ∨ ∃ begin sk more, socks = sk :: more ∧
      pam_request (demo_env (bs "no") prompting_daemon) begin ∧
      (sk_out sk = [] ∨ begin_validate begin = Ok ()) ∧
      (sk_out sk `prefix_of` frame (begin_request begin)
       ∨ ∃ prompt w, prompt_for begin prompt ∧ sk_out sk = frame (begin_request begin) ++ w ∧
        (confirmed (demo_env (bs "no") prompting_daemon)
           ∧ w `prefix_of` frame (commit_request (pending_of prompt))
         ∨ ¬ confirmed (demo_env (bs "no") prompting_daemon)
           ∧ w `prefix_of` frame (cancel_request (pending_of prompt))))).
Proof.
  destruct (authenticate_user_with 200 (demo_env (bs "no") prompting_daemon) PAM_AUTH_CEILING)
    as [[code socks]|] eqn:Hr; [|vm_compute in Hr; discriminate Hr].
  assert (code = PAM_AUTHINFO_UNAVAIL) as -> by (vm_compute in Hr; injection Hr as <- _; reflexivity).
  exists socks. split; [reflexivity|].
  split; [vm_compute in Hr; injection Hr as <-; discriminate|].
  exact (pam_commits_only_confirmed 200 _ _ _ _ Hr).
Defined.

Lemma pam_result_codes_witness :
  (PAM_SUCCESS ∈ [PAM_SUCCESS; PAM_AUTH_ERR; PAM_AUTHINFO_UNAVAIL; PAM_USER_UNKNOWN; PAM_SYSTEM_ERR]
   ∨ PAM_SUCCESS = fst (pe_get_user (demo_env [] prompting_daemon)) ∧ PAM_SUCCESS ≠ PAM_SUCCESS).
Proof.
  destruct (authenticate_user_with 200 (demo_env [] prompting_daemon) PAM_AUTH_CEILING)
    as [[code socks]|] eqn:Hr; [|vm_compute in Hr; discriminate Hr].
  assert (code = PAM_SUCCESS) as -> by (vm_compute in Hr; injection Hr as <- _; reflexivity).
  exact (proj1 (pam_result_codes 200 _ _ _ _ Hr)).
Defined.

(** The module's username grammar is strictly narrower than the daemon's: a canonical
    name with two consecutive dots can be enrolled but is unknown to PAM. *)
Theorem pam_username_stricter :
  (∀ name, is_valid_username name = true → is_canonical_username name = true) ∧
  is_canonical_username (bs "a..b") = true ∧ is_valid_username (bs "a..b") = false.
Proof.
  split; [|split; reflexivity]. intros name Hv. unfold is_valid_username in Hv. breflect.
  unfold is_canonical_username. apply andb_true_iff. split; [|done].
  apply contains_true. unfold len in *. destruct name; [done|]. simpl in *. lia.
Qed.
