(* ===== verification/PromptConnection.v ===== *)
(** * The prompt connection machine

    [PendingPromptRecord] and [PromptConnectionMachine] of
    [crates/howy-daemon/src/server.rs]: what the daemon does with each message of a
    prompt connection. A record owns the guards of the transaction manager
    ([PromptState]); when a record is dropped, so are they, so every operation here
    threads the manager's world. *)

From S2P Require Import Prelude Bytes Storage Crypto Legacy Contracts Authorization Config PromptState Protocol.

(** [crate::server::constant_time_eq] is that of [prompt_state.rs]. *)

Record PendingPromptRecord := mkPromptRecord {
  rp_username : bytes;
  rp_target_uid : Z;
  rp_peer_uid : Z;
  rp_connection_id : option Z;
  rp_transaction_token : bytes;
  rp_client_nonce : bytes;
  rp_pam_service : bytes;
  rp_origin : PromptOriginV1;
  rp_prompt_timeout_ms : Z;
  rp_commit_response_timeout_ms : Z;
  rp_issue : option PendingIssue;
  rp_claim : option CommitClaim }.

Definition record_with_guards (r : PendingPromptRecord) (i : option PendingIssue)
    (c : option CommitClaim) : PendingPromptRecord :=
  mkPromptRecord (rp_username r) (rp_target_uid r) (rp_peer_uid r) (rp_connection_id r)
    (rp_transaction_token r) (rp_client_nonce r) (rp_pam_service r) (rp_origin r)
    (rp_prompt_timeout_ms r) (rp_commit_response_timeout_ms r) i c.

Inductive PromptConnectionPhase :=
| ConnInitial | ConnPending (pending : PendingPromptRecord) | ConnCommitted | ConnClosed.

Inductive PromptConnectionAction :=
| SendPrompt (response : Response)
| StartAuthentication (pending : PendingPromptRecord)
| SendTerminal (response : Response)
| CancelActiveAndSendTerminal (response : Response)
| CancelActiveWithoutResponse
| CloseWithoutResponse.

(** [PendingPromptRecord::new] *)
Definition PendingPromptRecord_new (username transaction_token client_nonce : bytes)
    (prompt_timeout_ms commit_response_timeout_ms : Z) : vresult PendingPromptRecord :=
  if negb (contains PROMPT_TIMEOUT_MS_MIN PROMPT_TIMEOUT_MS_MAX prompt_timeout_ms)
     || negb (contains COMMIT_RESPONSE_TIMEOUT_MS_MIN COMMIT_RESPONSE_TIMEOUT_MS_MAX
                commit_response_timeout_ms)
  then Err Malformed
  else Ok (mkPromptRecord username 0 0 None transaction_token client_nonce (bs "sudo") OriginLocal
             prompt_timeout_ms commit_response_timeout_ms None None).

(** [prompt_response] *)
Definition prompt_response (r : PendingPromptRecord) : Response :=
  Response_prompt_required_v1_ref (rp_transaction_token r) (rp_client_nonce r)
    (rp_prompt_timeout_ms r) (rp_commit_response_timeout_ms r).

Section machine.
  Context `{Sha256} {E : Type} `{RandomSource E} (l : ManagerLimits).
  Implicit Types (w : ManagerWorld E).

(** Dropping a record drops its fields, in order. *)
Definition drop_record (w : ManagerWorld E) (r : PendingPromptRecord) : ManagerWorld E :=
  let w := match rp_issue r with Some i => drop_issue w i | None => w end in
  match rp_claim r with Some c => drop_claim w c | None => w end.

(** Overwriting the phase drops what it held. *)
Definition drop_phase (w : ManagerWorld E) (phase : PromptConnectionPhase) : ManagerWorld E :=
  match phase with ConnPending r => drop_record w r | _ => w end.

(** [PendingPromptRecord::managed]; the issue is dropped when the timeouts are refused. *)
Definition PendingPromptRecord_managed (w : ManagerWorld E) (identity : CanonicalIdentity)
    (peer_uid connection_id : Z) (client_nonce pam_service : bytes) (origin : PromptOriginV1)
    (prompt_timeout_ms commit_response_timeout_ms : Z) (i : PendingIssue)
    : ManagerWorld E * vresult PendingPromptRecord :=
  match PendingPromptRecord_new (identity_username identity) (pi_token i) client_nonce
          prompt_timeout_ms commit_response_timeout_ms with
  | Err e => (drop_issue w i, Err e)
  | Ok r =>
      (w, Ok (mkPromptRecord (rp_username r) (identity_uid identity) peer_uid
                (Some connection_id) (rp_transaction_token r) (rp_client_nonce r) pam_service
                origin (rp_prompt_timeout_ms r) (rp_commit_response_timeout_ms r) (Some i) None))
  end.

(** [activate] *)
Definition record_activate (w : ManagerWorld E) (r : PendingPromptRecord)
    (waker : option positive) (now : Z) : ManagerWorld E * presult Z :=
  match rp_issue r with
  | Some i => activate_with_waker l w i waker now
  | None =>
      (w, ok_or (instant_checked_add now (from_millis (rp_prompt_timeout_ms r)))
            PromptUnavailable)
  end.

(** The comparison made by a record without a managed transaction. *)
Definition unmanaged_match (r : PendingPromptRecord) (token nonce : bytes) : presult unit :=
  if constant_time_eq token (rp_transaction_token r)
     && constant_time_eq nonce (rp_client_nonce r)
  then Ok () else Err PromptInvalid.

(** [claim_commit] *)
Definition record_claim_commit (w : ManagerWorld E) (r : PendingPromptRecord)
    (token nonce : bytes) (now : Z)
    : ManagerWorld E * PendingPromptRecord * presult unit :=
  match rp_issue r with
  | None => (w, r, unmanaged_match r token nonce)
  | Some i =>
      match issue_claim_commit l w i token nonce (rp_peer_uid r) (rp_target_uid r) now with
      | (w, Ok c) => (w, record_with_guards r None (Some c), Ok ())
      | (w, Err e) => (w, record_with_guards r None (rp_claim r), Err e)
      end
  end.

(** [cancel] *)
Definition record_cancel (w : ManagerWorld E) (r : PendingPromptRecord)
    (token nonce : bytes) (now : Z)
    : ManagerWorld E * PendingPromptRecord * presult unit :=
  match rp_issue r with
  | None => (w, r, unmanaged_match r token nonce)
  | Some i =>
      let '(w, res) := issue_cancel w i token nonce (rp_peer_uid r) (rp_target_uid r) now in
      (w, record_with_guards r None (rp_claim r), res)
  end.

(** ** The machine *)

Definition machine_result : Type :=
  ManagerWorld E * PromptConnectionPhase * PromptConnectionAction.

(** [terminal_protocol_violation] *)
Definition terminal_protocol_violation (w : ManagerWorld E) (phase : PromptConnectionPhase)
    (cancel_active : bool) : machine_result :=
  let response := Response_prompt_error PromptViolation in
  (drop_phase w phase, ConnClosed,
   if cancel_active then CancelActiveAndSendTerminal response else SendTerminal response).

Definition send_prompt_error (w : ManagerWorld E) (code : PromptErrorCode) : machine_result :=
  (w, ConnClosed, SendTerminal (Response_prompt_error code)).

(** [begin_with] *)
Definition begin_with (w : ManagerWorld E) (phase : PromptConnectionPhase)
    (request : BeginAuthV1Req)
    (prepare : ManagerWorld E → BeginAuthV1Req →
               ManagerWorld E * result PromptErrorCode PendingPromptRecord) : machine_result :=
  match phase with
  | ConnInitial =>
      match begin_validate request with
      | Err error => send_prompt_error w (prompt_error_of error)
      | Ok _ =>
          match prepare w request with
          | (w, Err code) => send_prompt_error w code
          | (w, Ok pending) =>
              if bool_decide (rp_username pending = bg_username request)
                 && constant_time_eq (rp_client_nonce pending) (bg_client_nonce request)
              then (w, ConnPending pending, SendPrompt (prompt_response pending))
              else send_prompt_error (drop_record w pending) PromptTransactionInvalid
          end
      end
  | _ => terminal_protocol_violation w phase false
  end.

(** The two arms of [receive] in the pending phase. *)
Definition receive_commit (w : ManagerWorld E) (pending : PendingPromptRecord)
    (commit : CommitAuthV1Req) (now : Z) : machine_result :=
  match commit_validate commit with
  | Err error => send_prompt_error (drop_record w pending) (prompt_error_of error)
  | Ok _ =>
      match record_claim_commit w pending (cm_transaction_token commit)
              (cm_client_nonce commit) now with
      | (w, pending, Err _) => send_prompt_error (drop_record w pending) PromptTransactionInvalid
      | (w, pending, Ok _) => (w, ConnCommitted, StartAuthentication pending)
      end
  end.
Definition receive_cancel (w : ManagerWorld E) (pending : PendingPromptRecord)
    (cancel : CancelAuthV1Req) (now : Z) : machine_result :=
  match cancel_validate cancel with
  | Err error => send_prompt_error (drop_record w pending) (prompt_error_of error)
  | Ok _ =>
      match record_cancel w pending (cn_transaction_token cancel) (cn_client_nonce cancel) now with
      | (w, pending, Ok _) =>
          (drop_record w pending, ConnClosed,
           SendTerminal (Response_auth_cancelled_v1_ref (rp_client_nonce pending)))
      | (w, pending, Err _) => send_prompt_error (drop_record w pending) PromptTransactionInvalid
      end
  end.

(** [receive] *)
Definition receive (w : ManagerWorld E) (phase : PromptConnectionPhase) (request : Request)
    (now : Z) : machine_result :=
  match phase with
  | ConnInitial => terminal_protocol_violation w ConnClosed false
  | ConnPending pending =>
      match req_cmd request with
      | Some (CmdCommitAuthV1 commit) => receive_commit w pending commit now
      | Some (CmdCancelAuthV1 cancel) => receive_cancel w pending cancel now
      | _ => terminal_protocol_violation w (ConnPending pending) false
      end
  | ConnCommitted => terminal_protocol_violation w ConnClosed true
  | ConnClosed => (w, ConnClosed, CloseWithoutResponse)
  end.

(** [prompt_sent_with_waker]: the deadline of the prompt, or what to do instead. *)
Definition prompt_sent_with_waker (w : ManagerWorld E) (phase : PromptConnectionPhase)
    (waker : option positive) (now : Z)
    : ManagerWorld E * PromptConnectionPhase * result PromptConnectionAction Z :=
  match phase with
  | ConnPending pending =>
      match record_activate w pending waker now with
      | (w, Ok deadline) => (w, ConnPending pending, Ok deadline)
      | (w, Err _) =>
          (drop_record w pending, ConnClosed,
           Err (SendTerminal (Response_prompt_error PromptTransactionInvalid)))
      end
  | _ =>
      let '(w, phase, action) := terminal_protocol_violation w phase false in
      (w, phase, Err action)
  end.

(** [pending_manager_terminated] *)
Definition pending_manager_terminated (w : ManagerWorld E) (phase : PromptConnectionPhase)
    : ManagerWorld E * bool :=
  match phase with
  | ConnPending pending =>
      match rp_issue pending with Some _ => is_terminated w | None => (w, false) end
  | _ => (w, false)
  end.

(** [finish_authentication] *)
Definition finish_authentication (w : ManagerWorld E) (phase : PromptConnectionPhase)
    (response : Response) : machine_result :=
  match phase with
  | ConnCommitted =>
      (w, ConnClosed,
       if is_prompt_auth_terminal_response response then SendTerminal response
       else SendTerminal (Response_prompt_error PromptViolation))
  | ConnClosed => (w, ConnClosed, CloseWithoutResponse)
  | ConnInitial | ConnPending _ => terminal_protocol_violation w phase false
  end.

(** [eof] *)
Definition eof (w : ManagerWorld E) (phase : PromptConnectionPhase) : machine_result :=
  match phase with
  | ConnCommitted => (w, ConnClosed, CancelActiveWithoutResponse)
  | ConnInitial | ConnPending _ => (drop_phase w phase, ConnClosed, CloseWithoutResponse)
  | ConnClosed => (w, ConnClosed, CloseWithoutResponse)
  end.
End machine.
