(* ===== verification/PromptServer.v ===== *)
(** * Issuing and redeeming prompts

    The parts of [crates/howy-daemon/src/server.rs] that connect a prompt connection to
    authorization, configuration, storage and the transaction manager:
    [prepare_prompt_pending], which answers a Begin, and [claim_prompt_commit], which
    revalidates everything when a Commit has been claimed. The storage backend's
    [prompt_snapshot] and the identity resolver are interfaces; every reading of the
    clock is an argument. *)

From S2P Require Import Prelude Bytes Storage Crypto Legacy Contracts Authorization Config PromptState PromptProofs Protocol IpcClient PromptConnection.

(** Durations are nanoseconds. *)
Definition PROMPT_STORAGE_TIMEOUT : Z := 2 * 1000000000.
Definition ACTIVE_WORKER_CLEANUP_TIMEOUT : Z := 250 * 1000000.
Definition PROMPT_ACTIVE_LIMIT_FROM_CAMERA_ADMISSION : Z := 1.
Definition prompt_active_capacity : Z := PROMPT_ACTIVE_LIMIT_FROM_CAMERA_ADMISSION.

(** [prompt_active_timeout_checked], [prompt_commit_response_timeout] *)
Definition prompt_active_timeout_checked (config : HowyConfig) : option Z :=
  a ← duration_checked_add (from_millis (commit_to_camera_ms (presence config)))
        PROMPT_STORAGE_TIMEOUT;
  b ← duration_checked_add a (from_millis (scan_timeout_ms (presence config)));
  duration_checked_add b ACTIVE_WORKER_CLEANUP_TIMEOUT.
Definition prompt_commit_response_timeout (config : HowyConfig) : option Z :=
  prompt_active_timeout_checked config.
(** [Duration::as_millis] *)
Definition as_millis (d : Z) : Z := d / 1000000.

(** [validate_current_prompt_policy] *)
Definition validate_current_prompt_policy (config : HowyConfig) (pam_service : bytes)
    (origin : PromptOriginV1) : result PromptErrorCode unit :=
  let origin_supported :=
    bool_decide (origin = OriginLocal) || bool_decide (origin = OriginRemote) in
  let policy_allowed :=
    existsb (λ service, bool_decide (service = pam_service))
      (allowed_pam_services (presence config))
    && origin_supported
    && negb (bool_decide (origin = OriginRemote) && local_only (presence config)) in
  if negb policy_allowed then Err PromptIsUnavailable else Ok ().

(** [validate_prompt_begin_policy]; a validated origin is known. *)
Definition validate_prompt_begin_policy (config : HowyConfig) (request : BeginAuthV1Req)
    : result PromptErrorCode unit :=
  match begin_validate request with
  | Err error => Err (prompt_error_of error)
  | Ok _ =>
      match bg_policy request with
      | None => Err PromptViolation
      | Some policy =>
          match origin_try_from (pc_origin policy) with
          | None => Err PromptViolation
          | Some origin => validate_current_prompt_policy config (pc_pam_service policy) origin
          end
      end
  end.

(** Whether a storage snapshot lets a prompt proceed. *)
Definition snapshot_ready (s : PromptStorageSnapshot) : bool :=
  bool_decide (ss_health s = Ready)
  && match ss_candidate s with Candidate _ => true | NoCandidate => false end.

Section server.
  Context `{Sha256} {E : Type} `{RandomSource E} `{IdentityResolver} (l : ManagerLimits).
  Context (prompt_snapshot : CanonicalUsername → bresult PromptStorageSnapshot).
  Implicit Types (w : ManagerWorld E).

(** ** Begin *)

(** [authorize_prompt_begin]; an allowed Begin always has a target. *)
Definition authorize_prompt_begin (peer : Z) (confirmation : bool) (request : BeginAuthV1Req)
    : result PromptErrorCode CanonicalIdentity :=
  match authorize_and_then (BeginAuth (bg_username request))
          (mkContext peer confirmation PhaseInitial) (λ target, target) with
  | Ok (Some target) => Ok target
  | Ok None | Err _ => Err PromptIsUnavailable
  end.

(** [prepare_prompt_pending] up to and including [reserve_begin]. *)
Definition prepare_reserve (w : ManagerWorld E) (peer connection_id : Z) (config : HowyConfig)
    (begin : BeginAuthV1Req)
    : ManagerWorld E * result PromptErrorCode (CanonicalIdentity * BeginReservation) :=
  match identity ← authorize_prompt_begin peer true begin;
        _ ← validate_prompt_begin_policy config begin;
        Ok identity with
  | Err code => (w, Err code)
  | Ok identity =>
      match reserve_begin l w connection_id peer identity with
      | (w, Err _) => (w, Err PromptIsUnavailable)
      | (w, Ok reservation) => (w, Ok (identity, reservation))
      end
  end.

(** What is needed of storage and of the request before a token is issued. *)
Definition prepare_binding (peer connection_id : Z) (config : HowyConfig)
    (begin : BeginAuthV1Req) (identity : CanonicalIdentity)
    : result PromptErrorCode PendingBinding :=
  canonical ← map_err (λ _, PromptIsUnavailable) (CanonicalUsername_new (identity_username identity));
  storage ← map_err (λ _, PromptIsUnavailable) (prompt_snapshot canonical);
  if negb (snapshot_ready storage) then Err PromptIsUnavailable
  else
    policy ← ok_or (bg_policy begin) PromptViolation;
    origin ← ok_or (origin_try_from (pc_origin policy)) PromptViolation;
    Ok (mkPendingBinding connection_id peer identity (bg_client_nonce begin)
          (pc_pam_service policy) origin (SecuritySnapshot_capture config storage)).

(** The timeouts advertised to the client, in milliseconds. *)
Definition advertised_timeouts (config : HowyConfig) : result PromptErrorCode (Z * Z) :=
  prompt_ms ← ok_or (try_from_u U32_MAX (prompt_timeout_ms (presence config))) PromptIsUnavailable;
  commit ← ok_or (prompt_commit_response_timeout config) PromptIsUnavailable;
  commit_ms ← ok_or (try_from_u U32_MAX (as_millis commit)) PromptIsUnavailable;
  Ok (prompt_ms, commit_ms).

(** The rest of [prepare_prompt_pending]: a refusal drops the reservation, and after
    issuance the issue. *)
Definition prepare_issue (w : ManagerWorld E) (peer connection_id : Z) (config : HowyConfig)
    (begin : BeginAuthV1Req) (identity : CanonicalIdentity) (reservation : BeginReservation)
    : ManagerWorld E * result PromptErrorCode PendingPromptRecord :=
  match prepare_binding peer connection_id config begin identity with
  | Err code => (drop_begin w reservation, Err code)
  | Ok binding =>
      match issue w reservation binding with
      | (w, Err _) => (w, Err PromptIsUnavailable)
      | (w, Ok i) =>
          match advertised_timeouts config with
          | Err code => (drop_issue w i, Err code)
          | Ok (prompt_ms, commit_ms) =>
              match PendingPromptRecord_managed w identity peer connection_id
                      (bg_client_nonce begin) (pb_pam_service binding) (pb_origin binding)
                      prompt_ms commit_ms i with
              | (w, Err _) => (w, Err PromptIsUnavailable)
              | (w, Ok record) => (w, Ok record)
              end
          end
      end
  end.

(** [prepare_prompt_pending] *)
Definition prepare_prompt_pending (peer connection_id : Z) (config : HowyConfig)
    (w : ManagerWorld E) (begin : BeginAuthV1Req)
    : ManagerWorld E * result PromptErrorCode PendingPromptRecord :=
  match prepare_reserve w peer connection_id config begin with
  | (w, Err code) => (w, Err code)
  | (w, Ok (identity, reservation)) =>
      prepare_issue w peer connection_id config begin identity reservation
  end.

(** ** Commit *)

(** The policy checks of [claim_prompt_commit_with_resolver], without the polls for
    cancellation between them: what the claim is promoted with. *)
Definition revalidate_target (claim : CommitClaim) : result unit CanonicalIdentity :=
  match authorize_and_then CommitAuth
          (mkContext (cc_peer_uid claim) true
             (PendingAuth (cc_peer_uid claim) (cc_target claim))) (λ target, target) with
  | Ok (Some target) => Ok target
  | Ok None | Err _ => Err ()
  end.
Definition revalidate_storage (config : HowyConfig) (canonical : CanonicalUsername)
    : result unit SecuritySnapshot :=
  match prompt_snapshot canonical with
  | Ok s => if snapshot_ready s then Ok (SecuritySnapshot_capture config s) else Err ()
  | Err _ => Err ()
  end.

(** One [cancellation.is_cancelled()] of the worker. *)
Definition poll_cancelled (w : ManagerWorld E) (claim : CommitClaim) (now : Z)
    : ManagerWorld E * bool := check_deadline w (cc_control claim) now.

(** A poll between two steps: cancelled, the claim is dropped and the commit refused.
    [env] is what other threads did to the manager since the last step of this one. *)
Definition unless_cancelled {A} (env : ManagerWorld E → ManagerWorld E) (claim : CommitClaim)
    (now : Z) (k : ManagerWorld E → ManagerWorld E * result Response A) (w : ManagerWorld E)
    : ManagerWorld E * result Response A :=
  let '(w, cancelled) := poll_cancelled (env w) claim now in
  if cancelled then (drop_claim w claim, Err (Response_prompt_error PromptTransactionInvalid))
  else k w.
(** A step that may refuse, dropping the claim. *)
Definition or_refuse {A B} (claim : CommitClaim) (r : result unit B)
    (k : B → ManagerWorld E → ManagerWorld E * result Response A) (w : ManagerWorld E)
    : ManagerWorld E * result Response A :=
  match r with
  | Err _ => (drop_claim w claim, Err (Response_prompt_error PromptTransactionInvalid))
  | Ok b => k b w
  end.

(** [claim_prompt_commit_with_resolver]: [now i] is the [i]-th reading of the clock and
    [env i] what other threads do before the [i]-th poll and, last, before the promotion.
    The rest of the record is dropped when the function returns. *)
Definition claim_prompt_commit_with_resolver (w : ManagerWorld E) (pending : PendingPromptRecord)
    (config : HowyConfig) (env : nat → ManagerWorld E → ManagerWorld E) (now : nat → Z)
    : ManagerWorld E * result Response ActiveLease :=
  match rp_connection_id pending with
  | None => (drop_record w pending, Err (Response_prompt_error PromptTransactionInvalid))
  | Some connection_id =>
      match rp_claim pending with
      | None => (drop_record w pending, Err (Response_prompt_error PromptTransactionInvalid))
      | Some claim =>
          let '(w, outcome) :=
          unless_cancelled (env 0%nat) claim (now 0%nat)
            (or_refuse claim (revalidate_target claim) (λ current_target,
             unless_cancelled (env 1%nat) claim (now 1%nat)
            (or_refuse claim
               (map_err (λ _, ()) (validate_current_prompt_policy config (cc_pam_service claim)
                                     (cc_origin claim))) (λ _,
             or_refuse claim
               (map_err (λ _, ()) (CanonicalUsername_new (identity_username current_target)))
               (λ canonical,
             unless_cancelled (env 2%nat) claim (now 2%nat)
            (or_refuse claim (revalidate_storage config canonical) (λ snapshot,
             unless_cancelled (env 3%nat) claim (now 3%nat)
            (unless_cancelled (env 4%nat) claim (now 4%nat) (λ w,
               match promote (env 5%nat w) claim
                       (mkCommitBinding connection_id (rp_peer_uid pending) current_target
                          (rp_pam_service pending) (rp_origin pending) snapshot) (now 5%nat) with
               | (w, Ok lease) => (w, Ok lease)
               | (w, Err PromptInvalid) =>
                   (w, Err (Response_prompt_error PromptTransactionInvalid))
               | (w, Err PromptUnavailable) => (w, Err (Response_prompt_error PromptIsUnavailable))
               end))))))))) w in
          (drop_record w (record_with_guards pending (rp_issue pending) None), outcome)
      end
  end.
End server.
