(* ===== verification/PromptServerProofs.v ===== *)
(** * Issuing and redeeming prompts: the properties

    What a Begin must satisfy before a token exists, what a claimed Commit must
    satisfy again before the camera may be used, and that both paths are runs of the
    transaction manager that lose no guard. *)

From S2P Require Import Prelude Bytes Storage Crypto Legacy Contracts Authorization Config PromptState PromptProofs PromptOps PromptSystem PromptTheorems Protocol IpcClient PromptConnection PromptServer.

(** The policy now lets a service ask from an origin. *)
Definition policy_admits (config : HowyConfig) (service : bytes) (origin : PromptOriginV1) : Prop :=
  service ∈ allowed_pam_services (presence config) ∧
  (origin = OriginLocal ∨ origin = OriginRemote ∧ local_only (presence config) = false).

Lemma validate_current_prompt_policy_Ok config service origin :
  validate_current_prompt_policy config service origin = Ok () ↔
  policy_admits config service origin.
Proof.
  unfold validate_current_prompt_policy, policy_admits.
  rewrite <- (bool_decide_eq_true (service ∈ allowed_pam_services (presence config))).
  assert (existsb (λ s, bool_decide (s = service)) (allowed_pam_services (presence config))
    = bool_decide (service ∈ allowed_pam_services (presence config))) as ->.
  { apply eq_true_iff_eq. rewrite existsb_exists, bool_decide_eq_true. split.
    - intros (s & Hs & ->%bool_decide_eq_true). by apply list_elem_of_In.
    - intros Hs. exists service. rewrite bool_decide_eq_true. split; [by apply list_elem_of_In|done]. }
  destruct (bool_decide (service ∈ _)), (local_only (presence config)), origin; naive_solver.
Qed.

Section proofs.
  Context `{Sha256Laws} {E : Type} `{RandomSource E} `{IdentityResolver} (l : ManagerLimits).
  Context (prompt_snapshot : CanonicalUsername → bresult PromptStorageSnapshot).
  Implicit Types (w : ManagerWorld E) (g : Guards).

Lemma authorize_prompt_begin_Ok peer confirmation request t :
  authorize_prompt_begin peer confirmation request = Ok t →
  names (bg_username request) t ∧ acts_for peer t.
Proof.
  unfold authorize_prompt_begin, authorize_and_then.
  destruct (authorize _ _) as [[t'|]|] eqn:Ha; intros [= <-].
  apply authorize_permitted in Ha. inversion Ha; simplify_eq/=; naive_solver.
Qed.

Lemma revalidate_target_Ok claim t :
  revalidate_target claim = Ok t →
  t = cc_target claim ∧ names (identity_username t) t ∧ acts_for (cc_peer_uid claim) t.
Proof.
  unfold revalidate_target, authorize_and_then.
  destruct (authorize _ _) as [[t'|]|] eqn:Ha; intros [= <-].
  apply authorize_permitted in Ha. inversion Ha; simplify_eq/=; naive_solver.
Qed.

Lemma validate_prompt_begin_policy_Ok config request u :
  validate_prompt_begin_policy config request = Ok u →
  ∃ policy origin, bg_policy request = Some policy ∧
    origin_try_from (pc_origin policy) = Some origin ∧
    policy_admits config (pc_pam_service policy) origin.
Proof.
  unfold validate_prompt_begin_policy. intros Hv. repeat case_match; try done. destruct u.
  apply validate_current_prompt_policy_Ok in Hv. eauto.
Qed.

(** Storage is ready and holds a candidate enrollment of the target. *)
Definition enrolled (target : CanonicalIdentity) (s : PromptStorageSnapshot) : Prop :=
  ∃ canonical, CanonicalUsername_new (identity_username target) = Ok canonical ∧
    prompt_snapshot canonical = Ok s ∧ ss_health s = Ready ∧ ∃ gen, ss_candidate s = Candidate gen.

Lemma snapshot_ready_true s :
  snapshot_ready s = true ↔ ss_health s = Ready ∧ ∃ gen, ss_candidate s = Candidate gen.
Proof.
  unfold snapshot_ready. rewrite andb_true_iff, bool_decide_eq_true.
  destruct (ss_candidate s); naive_solver.
Qed.

(** The binding a Begin is issued with. *)
Definition begin_binding (peer connection_id : Z) (config : HowyConfig) (begin : BeginAuthV1Req)
    (target : CanonicalIdentity) (b : PendingBinding) : Prop :=
  ∃ policy s, bg_policy begin = Some policy ∧
    origin_try_from (pc_origin policy) = Some (pb_origin b) ∧
    pb_pam_service b = pc_pam_service policy ∧ enrolled target s ∧
    pb_snapshot b = SecuritySnapshot_capture config s ∧
    pb_connection b = connection_id ∧ pb_peer_uid b = peer ∧ pb_target b = target ∧
    pb_client_nonce b = bg_client_nonce begin.

Lemma prepare_binding_Ok peer connection_id config begin target b :
  prepare_binding prompt_snapshot peer connection_id config begin target = Ok b →
  begin_binding peer connection_id config begin target b.
Proof.
  unfold prepare_binding, begin_binding, enrolled. intros Hb. inv_ok. subst b. breflect.
  match goal with Hr : snapshot_ready _ = true |- _ => apply snapshot_ready_true in Hr as (? & ?) end.
  eexists _, _. split_and!; try done. eauto.
Qed.

(** *** Both paths are runs of the manager *)

Lemma steps1 s s' : prompt_step l s s' → rtc (prompt_step l) s s'.
Proof. apply rtc_once. Qed.

Lemma prepare_issue_run w g b rest peer connection_id config begin target w' r :
  g_begins g ≡ₚ b :: rest →
  prepare_issue prompt_snapshot w peer connection_id config begin target b = (w', r) →
  match r with
  | Err _ => rtc (prompt_step l) (w, g) (w', set_begins rest g)
  | Ok rec => ∃ i binding,
      rtc (prompt_step l) (w, g) (w', set_issues ((i, binding) :: g_issues g) (set_begins rest g)) ∧
      begin_binding peer connection_id config begin target binding ∧
      PROMPT_TIMEOUT_MS_MIN ≤ rp_prompt_timeout_ms rec ≤ PROMPT_TIMEOUT_MS_MAX ∧
      COMMIT_RESPONSE_TIMEOUT_MS_MIN ≤ rp_commit_response_timeout_ms rec
        ≤ COMMIT_RESPONSE_TIMEOUT_MS_MAX ∧
      rec = mkPromptRecord (identity_username target) (identity_uid target) peer
              (Some connection_id) (pi_token i) (bg_client_nonce begin)
              (pb_pam_service binding) (pb_origin binding) (rp_prompt_timeout_ms rec)
              (rp_commit_response_timeout_ms rec) (Some i) None
  end.
Proof.
  intros Hg. unfold prepare_issue.
  destruct (prepare_binding _ _ _ _ _ _) as [binding|e] eqn:Hb.
  2: { intros [= <- <-]. by apply steps1, step_drop_begin. }
  apply prepare_binding_Ok in Hb.
  destruct (issue w b binding) as [w1 [i|e]] eqn:Hi.
  2: { intros [= <- <-]. apply steps1.
       exact (step_issue l w g b rest binding w1 (Err e) Hg Hi). }
  pose proof (step_issue l w g b rest binding w1 (Ok i) Hg Hi) as Hstep. simpl in Hstep.
  assert (∀ w2, drop_issue w1 i = w2 → rtc (prompt_step l) (w, g) (w2, set_begins rest g)) as Hdrop.
  { intros w2 <-. eapply rtc_l; [exact Hstep|]. apply steps1.
    apply (step_drop_issue l w1 (set_issues ((i, binding) :: g_issues g) (set_begins rest g))
             i binding (g_issues g)). done. }
  destruct (advertised_timeouts config) as [[pms cms]|e].
  2: { intros [= <- <-]. by apply Hdrop. }
  unfold PendingPromptRecord_managed, PendingPromptRecord_new.
  destruct (_ || _) eqn:Ht; intros [= <- <-]; [by apply Hdrop|].
  exists i, binding. simpl. breflect. split_and!; try done; [by apply steps1|lia..].
Qed.

Lemma prepare_run w g peer connection_id config begin w' r :
  prepare_prompt_pending l prompt_snapshot peer connection_id config w begin = (w', r) →
  match r with
  | Err _ => rtc (prompt_step l) (w, g) (w', g)
  | Ok rec => ∃ target i binding,
      rtc (prompt_step l) (w, g) (w', set_issues ((i, binding) :: g_issues g) g) ∧
      names (bg_username begin) target ∧ acts_for peer target ∧
      begin_binding peer connection_id config begin target binding ∧
      policy_admits config (pb_pam_service binding) (pb_origin binding) ∧
      PROMPT_TIMEOUT_MS_MIN ≤ rp_prompt_timeout_ms rec ≤ PROMPT_TIMEOUT_MS_MAX ∧
      COMMIT_RESPONSE_TIMEOUT_MS_MIN ≤ rp_commit_response_timeout_ms rec
        ≤ COMMIT_RESPONSE_TIMEOUT_MS_MAX ∧
      rec = mkPromptRecord (identity_username target) (identity_uid target) peer
              (Some connection_id) (pi_token i) (bg_client_nonce begin)
              (pb_pam_service binding) (pb_origin binding) (rp_prompt_timeout_ms rec)
              (rp_commit_response_timeout_ms rec) (Some i) None
  end.
Proof.
  unfold prepare_prompt_pending, prepare_reserve.
  destruct (_ ≫= _) as [target|e] eqn:Hauth; [|intros [= <- <-]; apply rtc_refl].
  inv_ok. subst. rename select (authorize_prompt_begin _ _ _ = _) into Ha.
  rename select (validate_prompt_begin_policy _ _ = _) into Hp.
  apply authorize_prompt_begin_Ok in Ha as [Hn Hact].
  apply validate_prompt_begin_policy_Ok in Hp as (policy & origin & Hpol & Horg & Hadm).
  destruct (reserve_begin _ _ _ _ _) as [w1 [b|e]] eqn:Hr;
    pose proof (step_reserve l w g _ _ _ _ _ Hr) as Hstep; simpl in Hstep.
  2: { intros [= <- <-]. by apply steps1. }
  intros Hi. apply (prepare_issue_run w1 (set_begins (b :: g_begins g) g) b (g_begins g)) in Hi; [|done].
  simpl in Hi. replace (set_begins (g_begins g) (set_begins (b :: g_begins g) g)) with g in Hi
    by (by destruct g). destruct r as [rec|e]; [|by eapply rtc_l].
  destruct Hi as (i & binding & Hrun & Hbind & Ht1 & Ht2 & Hrec).
  exists target, i, binding.
  assert (policy_admits config (pb_pam_service binding) (pb_origin binding)).
  { destruct Hbind as (policy' & s & Hpol' & Horg' & -> & _). by simplify_eq. }
  do 7 (split; [first [done|by eapply rtc_l]|]). done.
Qed.

(** What other threads may do: any run of the manager that leaves a claim to its holder. *)
Definition interference (c : CommitClaim) (env : ManagerWorld E → ManagerWorld E) : Prop :=
  ∀ w g rest, g_claims g ≡ₚ c :: rest →
    ∃ g' rest', rtc (prompt_step l) (w, g) (env w, g') ∧ g_claims g' ≡ₚ c :: rest'.

(** A stage of redeeming a claim: refused, it has released the claim and cancelled its
    control; granted, it promoted the claim under a binding that satisfies [Q]. *)
Definition redeems (c : CommitClaim) (now : Z) (Q : CommitBinding → Prop)
    (k : ManagerWorld E → ManagerWorld E * result Response ActiveLease) : Prop :=
  ∀ w g rest w' r,
    is_Some (mw_controls w !! cc_control c) → is_Some (cc_active_id c) →
    g_claims g ≡ₚ c :: rest → k w = (w', r) →
    ∃ w0 g' rest', rtc (prompt_step l) (w, g) (w0, g') ∧ g_claims g' ≡ₚ c :: rest' ∧
    match r with
    | Err _ => rtc (prompt_step l) (w0, g') (w', set_claims rest' g') ∧
        control_is_cancelled w' (cc_control c) = true
    | Ok lease =>
        ∃ b, promote w0 c b now = (w', Ok lease) ∧ Q b ∧
          rtc (prompt_step l) (w0, g') (w', set_leases (lease :: g_leases g') (set_claims rest' g'))
    end.

Lemma drop_claim_cancels w c :
  is_Some (mw_controls w !! cc_control c) → is_Some (cc_active_id c) →
  control_is_cancelled (drop_claim w c) (cc_control c) = true.
Proof.
  intros Hc [id Hid]. unfold drop_claim, release_active. rewrite Hid.
  eapply cancelled_le; [apply locked_unit_le|]. by apply control_cancel_spec.
Qed.

Lemma drop_claim_run w g c rest :
  g_claims g ≡ₚ c :: rest → rtc (prompt_step l) (w, g) (drop_claim w c, set_claims rest g).
Proof. intros Hg. by apply steps1, step_drop_claim. Qed.

Lemma controls_kept s s' c :
  rtc (prompt_step l) s s' → is_Some (mw_controls s.1 !! c) → is_Some (mw_controls s'.1 !! c).
Proof. intros [Hle _]%steps_controls_le [k (k' & ? & _)%Hle]. eauto. Qed.

(** A refusal after a run. *)
Lemma refused w g w1 g1 rest1 c :
  is_Some (mw_controls w !! cc_control c) → is_Some (cc_active_id c) →
  rtc (prompt_step l) (w, g) (w1, g1) → g_claims g1 ≡ₚ c :: rest1 →
  ∃ w0 g' rest', rtc (prompt_step l) (w, g) (w0, g') ∧ g_claims g' ≡ₚ c :: rest' ∧
    rtc (prompt_step l) (w0, g') (drop_claim w1 c, set_claims rest' g') ∧
    control_is_cancelled (drop_claim w1 c) (cc_control c) = true.
Proof.
  intros Hc Hid Hrun Hg1. exists w1, g1, rest1. split_and!; [done|done|by apply drop_claim_run|].
  apply drop_claim_cancels; [|done]. by apply (controls_kept _ _ _ Hrun).
Qed.

Lemma redeems_unless_cancelled c now t env Q k :
  interference c env → redeems c now Q k → redeems c now Q (unless_cancelled env c t k).
Proof.
  intros Henv Hk w g rest w' r Hc Hid Hg. unfold unless_cancelled, poll_cancelled.
  destruct (Henv w g rest Hg) as (g1 & rest1 & Hrun & Hg1).
  pose proof (step_deadline l (env w) g1 (cc_control c) t) as Hstep.
  destruct (check_deadline (env w) (cc_control c) t) as [w1 b]; simpl in *.
  assert (rtc (prompt_step l) (w, g) (w1, g1)) as Hrun1 by (by eapply rtc_r).
  destruct b; [intros [= <- <-]; by eapply refused|]. intros Hop.
  destruct (Hk w1 g1 rest1 w' r) as (w2 & g2 & rest2 & ? & Hrest); try done.
  { by apply (controls_kept _ _ _ Hrun1). }
  exists w2, g2, rest2. split; [by etrans|done].
Qed.

Lemma redeems_or_refuse {B} c now (x : result unit B) Q k :
  (∀ y, x = Ok y → redeems c now Q (k y)) → redeems c now Q (or_refuse c x k).
Proof.
  intros Hk w g rest w' r Hc Hid Hg. unfold or_refuse. destruct x as [y|]; [by eapply (Hk y eq_refl)|].
  intros [= <- <-]. eapply refused; [done|done|apply rtc_refl|done].
Qed.

Lemma redeems_promote c now env (Q : CommitBinding → Prop) b :
  interference c env → Q b → redeems c now Q (λ w,
    match promote (env w) c b now with
    | (w, Ok lease) => (w, Ok lease)
    | (w, Err PromptInvalid) => (w, Err (Response_prompt_error PromptTransactionInvalid))
    | (w, Err PromptUnavailable) => (w, Err (Response_prompt_error PromptIsUnavailable))
    end).
Proof.
  intros Henv HQ w g rest w' r Hc Hid Hg.
  destruct (Henv w g rest Hg) as (g1 & rest1 & Hrun & Hg1).
  destruct (promote (env w) c b now) as [w1 res] eqn:Hop. intros Hr.
  pose proof (step_promote l (env w) g1 c rest1 b now w1 res Hg1 Hop) as Hstep%rtc_once.
  exists (env w), g1, rest1. split; [done|]. split; [done|]. destruct res as [lease|e].
  - injection Hr as <- <-. by exists b.
  - assert (w' = w1 ∧ ∃ resp, r = Err resp) as [-> [resp ->]].
    { destruct e; injection Hr as <- <-; eauto. }
    split; [done|]. eapply promote_refused; [|done|done]. by apply (controls_kept _ _ _ Hrun).
Qed.

(** What is checked again before a claim is promoted. *)
Definition revalidated (config : HowyConfig) (c : CommitClaim) (b : CommitBinding) : Prop :=
  cb_target b = cc_target c ∧ names (identity_username (cc_target c)) (cc_target c) ∧
  acts_for (cc_peer_uid c) (cc_target c) ∧
  policy_admits config (cc_pam_service c) (cc_origin c) ∧
  ∃ s, enrolled (cc_target c) s ∧ cb_snapshot b = SecuritySnapshot_capture config s.

Lemma revalidate_storage_Ok config canonical snap :
  revalidate_storage prompt_snapshot config canonical = Ok snap →
  ∃ s, prompt_snapshot canonical = Ok s ∧ ss_health s = Ready ∧
    (∃ gen, ss_candidate s = Candidate gen) ∧ snap = SecuritySnapshot_capture config s.
Proof.
  unfold revalidate_storage. intros Hr. repeat case_match; simplify_eq.
  rename select (snapshot_ready _ = true) into Hs. apply snapshot_ready_true in Hs as [? ?].
  eauto 10.
Qed.

Lemma claim_prompt_commit_run w g c rest pending config env now w' r :
  is_Some (mw_controls w !! cc_control c) → is_Some (cc_active_id c) →
  g_claims g ≡ₚ c :: rest → rp_issue pending = None → rp_claim pending = Some c →
  (∀ i, interference c (env i)) →
  claim_prompt_commit_with_resolver prompt_snapshot w pending config env now = (w', r) →
  ∃ w0 g' rest', rtc (prompt_step l) (w, g) (w0, g') ∧ g_claims g' ≡ₚ c :: rest' ∧
  match r with
  | Err _ => rtc (prompt_step l) (w0, g') (w', set_claims rest' g') ∧
      control_is_cancelled w' (cc_control c) = true
  | Ok lease =>
      ∃ b, promote w0 c b (now 5%nat) = (w', Ok lease) ∧ revalidated config c b ∧
        rtc (prompt_step l) (w0, g') (w', set_leases (lease :: g_leases g') (set_claims rest' g'))
  end.
Proof.
  intros Hc Hid Hg Hi Hcl Henv. unfold claim_prompt_commit_with_resolver.
  assert (∀ w, drop_record w pending = drop_claim w c) as Hdrop.
  { intros w0. unfold drop_record. by rewrite Hi, Hcl. }
  assert (∀ w, drop_record w (record_with_guards pending (rp_issue pending) None) = w) as Hkeep.
  { intros w0. unfold drop_record. simpl. by rewrite Hi. }
  destruct (rp_connection_id pending) as [conn|].
  2: { intros [= <- <-]. rewrite Hdrop. eapply refused; [done|done|apply rtc_refl|done]. }
  rewrite Hcl.
  match goal with |- (let '(_, _) := ?k w in _) = _ → _ => set (stage := k) end.
  assert (redeems c (now 5%nat) (revalidated config c) stage) as Hstage.
  { apply redeems_unless_cancelled, redeems_or_refuse; [done|].
    intros t (-> & Hn & Ha)%revalidate_target_Ok.
    apply redeems_unless_cancelled, redeems_or_refuse; [done|].
    intros [] Hp%map_err_Ok%validate_current_prompt_policy_Ok.
    apply redeems_or_refuse. intros canonical Hcan%map_err_Ok.
    apply redeems_unless_cancelled, redeems_or_refuse; [done|].
    intros snap (s & Hs & Hready & Hgen & ->)%revalidate_storage_Ok.
    do 2 (apply redeems_unless_cancelled; [done|]). apply redeems_promote; [done|].
    unfold revalidated, enrolled. simpl. eauto 15. }
  clearbody stage. destruct (stage w) as [w1 r1] eqn:Hop. intros [= <- <-]. rewrite Hkeep.
  by eapply Hstage.
Qed.

(** Answering a Begin issues a token only when the peer may act for the resolved
    target, the policy admits the service and origin, storage is ready and holds a
    candidate for the target, and the advertised timeouts are in range; the transaction
    is bound to exactly that peer, connection, target, client nonce, service, origin and
    security snapshot. A refused Begin is answered with an error and leaves no
    reservation or transaction behind. *)
Theorem begin_issues_when_permitted w g config peer connection_id request w' phase action :
  prompt_reachable l w g →
  begin_with w ConnInitial request (prepare_prompt_pending l prompt_snapshot peer connection_id config)
    = (w', phase, action) →
  (∃ code, phase = ConnClosed ∧ action = SendTerminal (Response_prompt_error code) ∧
     prompt_reachable l w' g) ∨
  (∃ target i b rec s policy,
     phase = ConnPending rec ∧ action = SendPrompt (prompt_response rec) ∧
     prompt_reachable l w' (set_issues ((i, b) :: g_issues g) g) ∧
     begin_validate request = Ok () ∧
     names (bg_username request) target ∧ acts_for peer target ∧
     policy_admits config (pb_pam_service b) (pb_origin b) ∧ enrolled target s ∧
     bg_policy request = Some policy ∧ pc_pam_service policy = pb_pam_service b ∧
     origin_try_from (pc_origin policy) = Some (pb_origin b) ∧
     b = mkPendingBinding connection_id peer target (bg_client_nonce request)
           (pb_pam_service b) (pb_origin b) (SecuritySnapshot_capture config s) ∧
     rp_issue rec = Some i ∧ rp_transaction_token rec = pi_token i ∧
     PROMPT_TIMEOUT_MS_MIN ≤ rp_prompt_timeout_ms rec ≤ PROMPT_TIMEOUT_MS_MAX ∧
     COMMIT_RESPONSE_TIMEOUT_MS_MIN ≤ rp_commit_response_timeout_ms rec
       ≤ COMMIT_RESPONSE_TIMEOUT_MS_MAX).
Proof.
  intros Hr. unfold begin_with. destruct (begin_validate request) as [[]|e].
  2: { intros [= <- <- <-]. left. eauto. }
  destruct (prepare_prompt_pending _ _ _ _ _ _ _) as [w1 [rec|code]] eqn:Hprep;
    apply (prepare_run w g) in Hprep.
  2: { intros [= <- <- <-]. left. eauto using reachable_run. }
  destruct Hprep as (target & i & b & Hrun & Hn & Ha & Hb & Hp & Ht1 & Ht2 & Hrec).
  destruct (_ && _); intros [= <- <- <-].
  - right. destruct Hb as (policy & s & ? & ? & ? & ? & ? & ? & ? & ? & ?).
    exists target, i, b, rec, s, policy. do 2 (split; [done|]).
    split; [by eapply reachable_run|]. do 8 (split; [done|]).
    split; [destruct b; simpl in *; congruence|]. rewrite Hrec. done.
  - left. eexists. split; [done|]. split; [done|]. eapply reachable_run; [done|].
    eapply rtc_r; [exact Hrun|]. rewrite Hrec. unfold drop_record. simpl.
    pose proof (step_drop_issue l w1 (set_issues ((i, b) :: g_issues g) g) i b (g_issues g)) as Hs.
    destruct g; simpl in *. by apply Hs.
Qed.


End proofs.

(** ** A concrete session *)

Module ServerDemo.
#[local] Existing Instance tail_sha256.
#[local] Existing Instance tail_sha256_laws.
#[local] Existing Instance toy_resolver.

Definition store (_ : CanonicalUsername) : bresult PromptStorageSnapshot := Ok sample_storage_snapshot.
Definition request : BeginAuthV1Req :=
  mkBeginReq 1 (bs "alice") demo_nonce (Some (mkPolicyContext (bs "sudo") 1)).
Definition begun : machine_result :=
  begin_with demo_w0 ConnInitial request
    (prepare_prompt_pending demo_limits store 1000 1 secure_bootstrap_template).
Definition pending_record : PendingPromptRecord :=
  mkPromptRecord (bs "alice") 1000 1000 (Some 1) demo_token demo_nonce (bs "sudo") OriginLocal
    30000 5000 None (Some demo_claim).
Definition idle (_ : nat) (w : ManagerWorld N) : ManagerWorld N := w.
Definition committed : ManagerWorld N * result Response ActiveLease :=
  claim_prompt_commit_with_resolver store demo_w4 pending_record secure_bootstrap_template idle
    (λ _, 30).

Lemma request_ok : begun.1.2 ≠ ConnClosed.
Proof. vm_compute. discriminate. Qed.
Lemma commit_ok : is_ok committed.2 = true.
Proof. vm_compute. reflexivity. Qed.
Lemma start_reachable : prompt_reachable demo_limits demo_w0 (mkGuards [] [] [] []).
Proof.
  exists 1%N, secure_bootstrap_template, 5000000000, 1, demo_w0.
  split_and!; [vm_compute; reflexivity|lia|unfold_max; lia|exact demo_start|apply rtc_refl].
Qed.

Lemma begin_issues_when_permitted_witness :
  ∃ b, prompt_reachable demo_limits begun.1.1 (mkGuards [] [(demo_issue, b)] [] []) ∧
    pb_client_nonce b = demo_nonce ∧ acts_for 1000 (pb_target b).
Proof.
  destruct (begin_issues_when_permitted demo_limits store demo_w0 (mkGuards [] [] [] [])
    secure_bootstrap_template 1000 1 request begun.1.1 begun.1.2 begun.2)
    as [(code & Hph & _)|(t & i & b & rec & s & policy & Hph & _ & Hr & _ & _ & Ha & _ & _ & _ & _ & _ & Hb & Hi & _)].
  - exact start_reachable.
  - unfold begun. destruct (begin_with _ _ _ _) as [[? ?] ?]. reflexivity.
  - exfalso. exact (request_ok Hph).
  - assert (i = demo_issue) as ->.
    { assert (match begun.1.2 with ConnPending r => rp_issue r | _ => None end = Some demo_issue) as Hd
        by (vm_compute; reflexivity).
      rewrite Hph, Hi in Hd. congruence. }
    exists b. rewrite Hb at 2 3. split; [exact Hr|]. split; [reflexivity|exact Ha].
Defined.

Lemma idle_interference c i : interference demo_limits c (idle i).
Proof. intros w g rest Hg. exists g, rest. split; [apply rtc_refl|exact Hg]. Qed.

End ServerDemo.
