(* ===== verification/Supervisor.v ===== *)
(** * Supervision of a committed authentication

    [supervise_active_authentication] of [crates/howy-daemon/src/server.rs] and what it
    calls: after a Commit the connection's thread watches the socket, the daemon's
    shutdown flag, the clock and the session's cancellation while a worker thread runs
    the camera, and decides which of them answers the client. Everything the thread
    observes (results of poll and recv, clock readings, the channel of the worker, what
    other threads did to the transaction manager) is an argument. *)

From S2P Require Import Prelude Bytes Storage Crypto Legacy Contracts Authorization Config PromptState PromptProofs PromptOps PromptSystem PromptTheorems Protocol Ipc IpcClient PromptConnection PromptServer PromptServerProofs.

Definition ACTIVE_SUPERVISOR_POLL : Z := 10 * 1000000.
Definition I32_MAX : Z := 2 ^ 31 - 1.

(** Event bits of [poll(2)] on Linux. *)
Definition POLLIN : Z := 1.
Definition POLLOUT : Z := 4.
Definition POLLERR : Z := 8.
Definition POLLHUP : Z := 16.
Definition POLLNVAL : Z := 32.

(** ** Looking at the socket *)

Inductive ActiveSocketEvent := Quiet | PeerGone | UnexpectedData | InfrastructureEvent.

(** A return of [poll(2)] and of a peeking [recv(2)]. *)
Record PollCall := mkPoll { pl_ready : Z; pl_revents : Z; pl_error : ErrorKind }.
Record PeekCall := mkPeek { pk_received : Z; pk_error : ErrorKind }.
Record SocketLook := mkLook { lk_poll : Z → PollCall; lk_peek : PeekCall }.

Definition has_event (revents mask : Z) : bool := negb (Z.land revents mask =? 0).

(** [inspect_active_socket] *)
Definition inspect_active_socket (look : SocketLook) (timeout : Z) : ioresult ActiveSocketEvent :=
  let timeout_ms := Z.min (as_millis timeout) I32_MAX in
  let call := lk_poll look timeout_ms in
  if pl_ready call <? 0 then
    if bool_decide (pl_error call = Interrupted) then Ok Quiet else Err (pl_error call)
  else if pl_ready call =? 0 then Ok Quiet
  else if has_event (pl_revents call) (Z.lor POLLHUP POLLNVAL) then Ok PeerGone
  else if has_event (pl_revents call) POLLERR then Ok InfrastructureEvent
  else if has_event (pl_revents call) POLLIN then
    let peek := lk_peek look in
    if 0 <? pk_received peek then Ok UnexpectedData
    else if pk_received peek =? 0 then Ok PeerGone
    else if bool_decide (pk_error peek = WouldBlock) || bool_decide (pk_error peek = Interrupted)
    then Ok Quiet else Ok InfrastructureEvent
  else Ok Quiet.

(** [active_socket_writable] *)
Definition active_socket_writable (call : PollCall) : bool :=
  (0 <? pl_ready call) && has_event (pl_revents call) POLLOUT
  && negb (has_event (pl_revents call) (Z.lor (Z.lor POLLHUP POLLERR) POLLNVAL)).

(** ** Time *)

(** [active_work_deadline], [active_poll_timeout], [active_cleanup_deadline]; an
    [Instant] has no value before the clock's origin. *)
Definition active_work_deadline (active_deadline : Z) : Z :=
  if active_deadline <? ACTIVE_WORKER_CLEANUP_TIMEOUT then active_deadline
  else active_deadline - ACTIVE_WORKER_CLEANUP_TIMEOUT.
Definition active_poll_timeout (now work_deadline : Z) : Z :=
  Z.min ACTIVE_SUPERVISOR_POLL (Z.max 0 (work_deadline - now)).
Definition active_cleanup_deadline (now active_deadline : Z) : Z :=
  Z.min (default active_deadline (instant_checked_add now ACTIVE_WORKER_CLEANUP_TIMEOUT))
    active_deadline.

(** ** The worker *)

Inductive CleanupMode :=
  CleanupNotApplicable | CleanupSynchronous | ReaperHandoff | UnresolvedTracked | FailedPanicked.

Record PromptWorkerTerminal (P : Type) := mkTerminal {
  wt_response : Response; wt_cleanup_mode : CleanupMode; wt_cache_promotion : option P }.
Record PromptWorkerCompletion (P : Type) := mkCompletion {
  co_terminal : PromptWorkerTerminal P; co_lease : option ActiveLease }.
Inductive TryRecv (P : Type) :=
| Received (completion : PromptWorkerCompletion P) | ChannelEmpty | Disconnected.
#[global] Arguments mkTerminal {P}.
#[global] Arguments wt_response {P}.
#[global] Arguments wt_cache_promotion {P}.
#[global] Arguments mkCompletion {P}.
#[global] Arguments co_terminal {P}.
#[global] Arguments co_lease {P}.
#[global] Arguments Received {P}.
#[global] Arguments ChannelEmpty {P}.
#[global] Arguments Disconnected {P}.

(** [response_allows_cache_promotion] *)
Definition response_allows_cache_promotion (r : Response) : bool :=
  match resp_result r with
  | Some (RespSuccess _ _ _ _) | Some (RespAuthFailed _ _ _) => true
  | _ => false
  end.

Inductive Winner (P : Type) :=
| WinPeerGone | WinProtocolViolation | WinInfrastructure
| WinWorker (completion : PromptWorkerCompletion P).
#[global] Arguments WinPeerGone {P}.
#[global] Arguments WinProtocolViolation {P}.
#[global] Arguments WinInfrastructure {P}.
#[global] Arguments WinWorker {P}.

(** How a look at the socket ends supervision, if it does. *)
Definition look_winner {P} (event : ioresult ActiveSocketEvent) : option (Winner P) :=
  match event with
  | Ok PeerGone => Some WinPeerGone
  | Ok UnexpectedData => Some WinProtocolViolation
  | Ok InfrastructureEvent | Err _ => Some WinInfrastructure
  | Ok Quiet => None
  end.

(** [finish_cancelled_active_worker]: [polls i] is the [i]-th [is_finished] and the clock
    read after it; [None] when the fuel runs out before the loop ends. *)
Fixpoint await_worker (fuel : nat) (polls : nat → bool * Z) (i : nat) (cleanup_deadline : Z)
    : option nat :=
  match fuel with
  | O => None
  | S fuel =>
      let '(finished, now) := polls i in
      if negb finished && (now <? cleanup_deadline) then await_worker fuel polls (S i) cleanup_deadline
      else Some (S i)
  end.
Definition finish_cancelled_active_worker (fuel : nat) (polls : nat → bool * Z)
    (cleanup_deadline : Z) : option bool :=
  i ← await_worker fuel polls 0 cleanup_deadline; Some (polls i).1.

Section supervise.
  Context `{Sha256} {E P : Type} `{RandomSource E}.
  Abbreviation world := (ManagerWorld E).

(** What a test for shutdown, deadline and cancellation reads, left to right. *)
Record StopLook := mkStop {
  sl_shutdown : bool; sl_now : Z; sl_env : world → world; sl_now_cancel : Z }.

Definition stop_requested (w : world) (look : StopLook) (work_deadline : Z) (control : positive)
    : world * bool :=
  if sl_shutdown look then (w, true)
  else if work_deadline <=? sl_now look then (w, true)
  else check_deadline (sl_env look w) control (sl_now_cancel look).

Record Iteration := mkIteration {
  it_now : Z; it_look : SocketLook; it_stop : StopLook;
  it_recv : TryRecv P; it_look_again : SocketLook; it_stop_again : StopLook }.

(** A completion that is not used drops its lease. *)
Definition drop_completion (w : world) (c : PromptWorkerCompletion P) : world :=
  match co_lease c with Some lease => drop_lease w lease | None => w end.

(** One turn of the loop. *)
Definition supervise_turn (w : world) (work_deadline : Z) (control : positive) (it : Iteration)
    : world * option (Winner P) :=
  match look_winner (inspect_active_socket (it_look it)
                       (active_poll_timeout (it_now it) work_deadline)) with
  | Some winner => (w, Some winner)
  | None =>
      match stop_requested w (it_stop it) work_deadline control with
      | (w, true) => (w, Some WinInfrastructure)
      | (w, false) =>
          match it_recv it with
          | ChannelEmpty => (w, None)
          | Disconnected => (w, Some WinInfrastructure)
          | Received completion =>
              match look_winner (inspect_active_socket (it_look_again it) 0) with
              | Some winner => (drop_completion w completion, Some winner)
              | None =>
                  match stop_requested w (it_stop_again it) work_deadline control with
                  | (w, true) => (drop_completion w completion, Some WinInfrastructure)
                  | (w, false) => (w, Some (WinWorker completion))
                  end
              end
          end
      end
  end.

Fixpoint supervise_loop (fuel : nat) (w : world) (work_deadline : Z) (control : positive)
    (turns : nat → Iteration) (i : nat) : option (world * Winner P) :=
  match fuel with
  | O => None
  | S fuel =>
      match supervise_turn w work_deadline control (turns i) with
      | (w, Some winner) => Some (w, winner)
      | (w, None) => supervise_loop fuel w work_deadline control turns (S i)
      end
  end.

(** What is observed after the loop. *)
Record Ending := mkEnding {
  en_look : SocketLook; en_stop : StopLook; en_writable : PollCall;
  en_cleanup_now : Z; en_polls : nat → bool * Z }.

Record Supervised := mkSupervised {
  su_world : world; su_phase : PromptConnectionPhase; su_action : PromptConnectionAction;
  su_promotion : option (P * option ActiveLease); su_fatal : bool }.

Definition without_promotion (r : machine_result) (fatal : bool) : Supervised :=
  let '(w, phase, action) := r in mkSupervised w phase action None fatal.

Definition unavailable_response : Response := Response_error (bs "authentication unavailable").

(** The two ways an undelivered session is answered. *)
Definition answer_violation (w : world) (phase : PromptConnectionPhase) (writable : bool)
    : machine_result :=
  if writable then terminal_protocol_violation w phase true else eof w phase.
Definition answer_unavailable (w : world) (phase : PromptConnectionPhase) (writable : bool)
    : machine_result :=
  if writable then finish_authentication w phase unavailable_response else eof w phase.

(** The arm of the worker's result. *)
Definition deliver_completion (w : world) (phase : PromptConnectionPhase) (control : positive)
    (work_deadline : Z) (completion : PromptWorkerCompletion P) (e : Ending) : Supervised :=
  let refuse w answer :=
    without_promotion (answer (drop_completion (control_cancel w control).1 completion)) false in
  let writable := active_socket_writable (en_writable e) in
  match inspect_active_socket (en_look e) 0 with
  | Ok PeerGone => refuse w (λ w, eof w phase)
  | Ok UnexpectedData => refuse w (λ w, answer_violation w phase writable)
  | Ok InfrastructureEvent | Err _ => refuse w (λ w, answer_unavailable w phase writable)
  | Ok Quiet =>
      match stop_requested w (en_stop e) work_deadline control with
      | (w, true) => refuse w (λ w, answer_unavailable w phase writable)
      | (w, false) =>
          let terminal := co_terminal completion in
          let promotion :=
            if response_allows_cache_promotion (wt_response terminal)
            then p ← wt_cache_promotion terminal; Some (p, co_lease completion)
            else None in
          let '(w, phase, action) := finish_authentication w phase (wt_response terminal) in
          mkSupervised (match promotion with Some _ => w | None => drop_completion w completion end)
            phase action promotion false
      end
  end.

(** [supervise_active_authentication] *)
Definition supervise_active_authentication (fuel : nat) (w : world)
    (phase : PromptConnectionPhase) (control : positive) (deadline : Z)
    (turns : nat → Iteration) (e : Ending) : option Supervised :=
  let work_deadline := active_work_deadline deadline in
  match supervise_loop fuel w work_deadline control turns 0 with
  | None => None
  | Some (w, WinWorker completion) =>
      Some (deliver_completion w phase control work_deadline completion e)
  | Some (w, winner) =>
      let w := (control_cancel w control).1 in
      match finish_cancelled_active_worker fuel (en_polls e)
              (active_cleanup_deadline (en_cleanup_now e) deadline) with
      | None => None
      | Some false => Some (without_promotion (eof w phase) true)
      | Some true =>
          let writable := active_socket_writable (en_writable e) in
          Some (without_promotion
                  match winner with
                  | WinPeerGone => eof w phase
                  | WinProtocolViolation => answer_violation w phase writable
                  | _ => answer_unavailable w phase writable
                  end false)
      end
  end.
End supervise.
#[global] Arguments StopLook : clear implicits.
#[global] Arguments Iteration : clear implicits.
#[global] Arguments Ending : clear implicits.
#[global] Arguments Supervised : clear implicits.

(** ** Properties *)

Section properties.
  Context `{Sha256Laws} {E P : Type} `{RandomSource E}.
  Implicit Types (w : ManagerWorld E) (look : StopLook E) (it : Iteration E P).
  Implicit Types (turns : nat → Iteration E P) (e : Ending E).

(** Other threads only move controls forward, as every step of the manager does. *)
Definition rely look : Prop := ∀ w, controls_le w (sl_env look w).

(** A test that let supervision go on. *)
Definition clear_to_go look (work_deadline : Z) (control : positive) w : Prop :=
  sl_shutdown look = false ∧ sl_now look < work_deadline ∧ control_is_cancelled w control = false.

Lemma check_deadline_result w c now w' b :
  check_deadline w c now = (w', b) → b = control_is_cancelled w' c ∧ controls_le w w'.
Proof.
  unfold check_deadline. destruct (mw_controls w !! c) as [k|] eqn:Hk.
  - intros [= <- <-]. split; [done|]. destruct (_ <=? _); [apply control_cancel_le|reflexivity].
  - intros [= <- <-]. split; [|reflexivity]. unfold control_is_cancelled. by rewrite Hk.
Qed.

Lemma stop_requested_result w look wd c w' b :
  rely look → stop_requested w look wd c = (w', b) →
  controls_le w w' ∧ (b = false → clear_to_go look wd c w').
Proof.
  intros Hrely. unfold stop_requested, clear_to_go. destruct (sl_shutdown look).
  { intros [= <- <-]. split; [reflexivity|done]. }
  destruct (wd <=? sl_now look) eqn:Hd.
  { intros [= <- <-]. split; [reflexivity|done]. }
  intros [-> Hle]%check_deadline_result. breflect. split; [etrans; [apply Hrely|exact Hle]|auto].
Qed.

Lemma look_winner_None ev : look_winner (P:=P) ev = None → ev = Ok Quiet.
Proof. by destruct ev as [[]|]. Qed.
Lemma look_winner_not_worker ev (c : PromptWorkerCompletion P) :
  look_winner ev ≠ Some (WinWorker c).
Proof. by destruct ev as [[]|]. Qed.

Lemma drop_completion_le w (c : PromptWorkerCompletion P) : controls_le w (drop_completion w c).
Proof. unfold drop_completion. destruct (co_lease c); [apply drop_lease_le|reflexivity]. Qed.

(** A turn that hands over the worker's completion saw nothing else happen. *)
Definition undisturbed it (work_deadline : Z) (control : positive) : Prop :=
  inspect_active_socket (it_look it) (active_poll_timeout (it_now it) work_deadline) = Ok Quiet ∧
  inspect_active_socket (it_look_again it) 0 = Ok Quiet ∧
  (∃ w1, clear_to_go (it_stop it) work_deadline control w1) ∧
  ∃ w2, clear_to_go (it_stop_again it) work_deadline control w2.

Definition rely_turn it : Prop := rely (it_stop it) ∧ rely (it_stop_again it).

Lemma supervise_turn_result w wd c it w' r :
  rely_turn it → supervise_turn w wd c it = (w', r) →
  controls_le w w' ∧
  ∀ completion, r = Some (WinWorker completion) →
    it_recv it = Received completion ∧ undisturbed it wd c.
Proof.
  intros [Hr1 Hr2]. unfold supervise_turn.
  destruct (look_winner (inspect_active_socket (it_look it) _)) as [win|] eqn:Hl1.
  { intros [= <- <-]. split; [reflexivity|]. intros comp [= ->].
    by apply look_winner_not_worker in Hl1. }
  destruct (stop_requested w (it_stop it) wd c) as [w1 b1] eqn:Hs1.
  apply (stop_requested_result w (it_stop it)) in Hs1 as [Hle1 Hc1]; [|done].
  destruct b1; [by intros [= <- <-]|]. specialize (Hc1 eq_refl).
  destruct (it_recv it) as [comp| |]; [|by intros [= <- <-]..].
  destruct (look_winner (inspect_active_socket (it_look_again it) _)) as [win|] eqn:Hl2.
  { intros [= <- <-]. split; [etrans; [exact Hle1|apply drop_completion_le]|].
    intros comp' [= ->]. by apply look_winner_not_worker in Hl2. }
  destruct (stop_requested w1 (it_stop_again it) wd c) as [w2 b2] eqn:Hs2.
  apply (stop_requested_result w1 (it_stop_again it)) in Hs2 as [Hle2 Hc2]; [|done].
  destruct b2; intros [= <- <-].
  - split; [|done]. do 2 (etrans; [eassumption|]). apply drop_completion_le.
  - split; [by etrans|]. intros comp' [= <-]. split; [done|].
    apply look_winner_None in Hl1, Hl2. split_and!; eauto.
Qed.

Lemma supervise_loop_result fuel w wd c turns i w' winner :
  (∀ j, rely_turn (turns j)) → supervise_loop fuel w wd c turns i = Some (w', winner) →
  controls_le w w' ∧
  ∀ completion, winner = WinWorker completion →
    ∃ j, it_recv (turns j) = Received completion ∧ undisturbed (turns j) wd c.
Proof.
  intros Hrely. revert w i. induction fuel as [|fuel IH]; intros w i; [done|]. simpl.
  destruct (supervise_turn w wd c (turns i)) as [w1 r] eqn:Ht.
  apply supervise_turn_result in Ht as [Hle Hw]; [|done]. destruct r as [win|].
  - intros [= <- <-]. split; [done|]. intros comp ->. eauto.
  - intros [Hle' Hw']%IH. split; [by etrans|done].
Qed.

Lemma control_cancel_cancels w c :
  is_Some (mw_controls w !! c) → control_is_cancelled (control_cancel w c).1 c = true.
Proof. apply control_cancel_spec. Qed.

Lemma kept w w' c : controls_le w w' → is_Some (mw_controls w !! c) → is_Some (mw_controls w' !! c).
Proof. intros [Hle _] [k (k' & ? & _)%Hle]. eauto. Qed.

(** The answers that do not come from the worker. *)
Definition refusal (action : PromptConnectionAction) : Prop :=
  action = CancelActiveWithoutResponse ∨
  action = CancelActiveAndSendTerminal (Response_prompt_error PromptViolation) ∨
  action = SendTerminal unavailable_response.

Definition refused_session (control : positive) (s : Supervised E P) : Prop :=
  su_phase s = ConnClosed ∧ refusal (su_action s) ∧ su_promotion s = None ∧
  control_is_cancelled (su_world s) control = true.

Lemma refused_eof w c fatal :
  control_is_cancelled w c = true →
  refused_session c (without_promotion (eof w ConnCommitted) fatal).
Proof. intros. unfold refused_session, refusal. simpl. auto. Qed.
Lemma refused_violation w c b fatal :
  control_is_cancelled w c = true →
  refused_session c (without_promotion (answer_violation w ConnCommitted b) fatal).
Proof. intros. unfold refused_session, refusal, answer_violation. destruct b; simpl; auto. Qed.
Lemma refused_unavailable w c b fatal :
  control_is_cancelled w c = true →
  refused_session c (without_promotion (answer_unavailable w ConnCommitted b) fatal).
Proof. intros. unfold refused_session, refusal, answer_unavailable. destruct b; simpl; auto. Qed.

Lemma deliver_result w c wd comp e :
  rely (en_stop e) → is_Some (mw_controls w !! c) →
  let s := deliver_completion w ConnCommitted c wd comp e in
  refused_session c s ∨
  (su_phase s = ConnClosed ∧
   su_action s = (finish_authentication w ConnCommitted (wt_response (co_terminal comp))).2 ∧
   inspect_active_socket (en_look e) 0 = Ok Quiet ∧ ∃ w1, clear_to_go (en_stop e) wd c w1).
Proof.
  intros Hrely Hc. cbv zeta. unfold deliver_completion.
  assert (∀ w1, is_Some (mw_controls w1 !! c) →
    control_is_cancelled (drop_completion (control_cancel w1 c).1 comp) c = true) as Hcan.
  { intros w1 Hw1. eapply cancelled_le; [apply drop_completion_le|].
    by apply control_cancel_cancels. }
  destruct (inspect_active_socket (en_look e) 0) as [[]|].
  2-5: left; auto using refused_eof, refused_violation, refused_unavailable.
  destruct (stop_requested w (en_stop e) wd c) as [w1 b] eqn:Hs.
  apply stop_requested_result in Hs as [Hle Hgo]; [|done].
  destruct b; [left; apply refused_unavailable, Hcan; by eapply kept|].
  right. simpl. split_and!; eauto.
Qed.


(** ** Termination *)

Lemma supervise_turn_late w wd c it :
  wd ≤ sl_now (it_stop it) → is_Some (supervise_turn w wd c it).2.
Proof.
  intros Hd. unfold supervise_turn. destruct (look_winner _); [by eexists|].
  unfold stop_requested. rewrite (proj2 (Z.leb_le _ _) Hd).
  destruct (sl_shutdown (it_stop it)); by eexists.
Qed.

Lemma supervise_loop_ends n w wd c turns i :
  wd ≤ sl_now (it_stop (turns (i + n)%nat)) →
  ∀ fuel, (n < fuel)%nat → is_Some (supervise_loop fuel w wd c turns i).
Proof.
  revert w i. induction n as [|n IH]; intros w i Hd fuel Hf; (destruct fuel as [|fuel]; [lia|]); simpl.
  - rewrite Nat.add_0_r in Hd. destruct (supervise_turn_late w wd c (turns i) Hd) as [win Hwin].
    destruct (supervise_turn _ _ _ _) as [w1 r]. simpl in Hwin. rewrite Hwin. by eexists.
  - destruct (supervise_turn _ _ _ _) as [w1 [win|]]; [by eexists|].
    apply IH; [|lia]. by rewrite Nat.add_succ_comm.
Qed.

Lemma await_worker_ends n polls i d :
  (polls (i + n)%nat).1 = true ∨ d ≤ (polls (i + n)%nat).2 →
  ∀ fuel, (n < fuel)%nat → is_Some (await_worker fuel polls i d).
Proof.
  revert i. induction n as [|n IH]; intros i Hd fuel Hf; (destruct fuel as [|fuel]; [lia|]); simpl;
    destruct (polls i) as [finished now] eqn:Hp.
  - rewrite Nat.add_0_r, Hp in Hd. simpl in Hd. destruct finished; [by eexists|].
    destruct Hd as [?|Hd]; [done|]. apply Z.ltb_ge in Hd. rewrite Hd. by eexists.
  - destruct (_ && _); [|by eexists]. apply IH; [|lia]. by rewrite Nat.add_succ_comm.
Qed.

(** C39: supervision always ends: once the clock has reached the work deadline at some
    turn [n], and the cancelled worker has finished or the cleanup deadline has passed
    at some poll [m], any fuel beyond [n] and [m] yields an outcome, whatever the socket,
    the worker and the other threads do. *)
Theorem supervision_terminates w phase control deadline turns e n m fuel :
  active_work_deadline deadline ≤ sl_now (it_stop (turns n)) →
  (en_polls e m).1 = true ∨
    active_cleanup_deadline (en_cleanup_now e) deadline ≤ (en_polls e m).2 →
  (n < fuel)%nat → (m < fuel)%nat →
  is_Some (supervise_active_authentication fuel w phase control deadline turns e).
Proof.
  intros Hn Hm Hfn Hfm. unfold supervise_active_authentication.
  destruct (supervise_loop_ends n w (active_work_deadline deadline) control turns 0 Hn fuel Hfn)
    as [[w1 winner] ->].
  destruct (await_worker_ends m (en_polls e) 0 _ Hm fuel Hfm) as [i Hi].
  assert (finish_cancelled_active_worker fuel (en_polls e)
    (active_cleanup_deadline (en_cleanup_now e) deadline) = Some (en_polls e i).1) as ->.
  { unfold finish_cancelled_active_worker. by rewrite Hi. }
  destruct winner, (en_polls e i).1; by eexists.
Qed.
End properties.

(** ** Concrete sessions *)

Module SupervisorDemo.
#[local] Existing Instance tail_sha256.
#[local] Existing Instance tail_sha256_laws.

Definition quiet : SocketLook := mkLook (λ _, mkPoll 0 0 Interrupted) (mkPeek 0 Interrupted).
Definition hangup : SocketLook := mkLook (λ _, mkPoll 1 POLLHUP Interrupted) (mkPeek 0 Interrupted).
Definition stop (now : Z) : StopLook N := mkStop false now (λ w, w) now.
Definition verdict : Response := mkResponse (Some (RespSuccess 0 (bs "me") 1 2)).
Definition completion : PromptWorkerCompletion unit :=
  mkCompletion (mkTerminal verdict CleanupSynchronous None) (Some (mkLease (Some 1) 1%positive)).
Definition deadline : Z := 5000000020.
(** The worker is still busy at the first turn and done at the second. *)
Definition turns (i : nat) : Iteration N unit :=
  mkIteration (Z.of_nat i) quiet (stop (100 + Z.of_nat i))
    (if bool_decide (i = 0%nat) then ChannelEmpty else Received completion) quiet (stop 200).
Definition ending (look : SocketLook) : Ending N :=
  mkEnding look (stop 300) (mkPoll 1 POLLOUT Interrupted) 400 (λ _, (true, 500)).

Definition finished : option (Supervised N unit) :=
  supervise_active_authentication 5 demo_w4 ConnCommitted 1%positive deadline turns (ending quiet).
(** The peer hangs up after the result was taken. *)
Definition hung_up : option (Supervised N unit) :=
  supervise_active_authentication 5 demo_w4 ConnCommitted 1%positive deadline turns (ending hangup).

Lemma stop_rely now : rely (stop now).
Proof. intros w. reflexivity. Qed.


(** A worker that never answers. *)
Definition silent (i : nat) : Iteration N unit :=
  mkIteration (Z.of_nat i) quiet (stop (deadline * Z.of_nat i)) ChannelEmpty quiet (stop 200).

Lemma supervision_terminates_witness :
  is_Some (supervise_active_authentication 2 demo_w4 ConnCommitted 1%positive deadline silent
             (ending quiet)).
Proof.
  apply (supervision_terminates demo_w4 ConnCommitted 1%positive deadline silent (ending quiet) 1 0).
  - vm_compute. discriminate.
  - left. reflexivity.
  - lia.
  - lia.
Defined.
End SupervisorDemo.
