(* ===== verification/Coordinator.v ===== *)
(** * The prompt coordinator

    [coordinate_prompt_connection_with_shutdown] of [crates/howy-daemon/src/server.rs]:
    the loop that carries one prompt connection from its first request to its last
    response, driving the connection machine, the socket and the authentication. *)

From S2P Require Import Prelude Bytes Storage Crypto Legacy Contracts Authorization Config PromptState PromptSystem PromptTheorems Protocol Ipc IpcClient PromptConnection PromptServer PromptServerProofs Supervisor.

Record PromptCoordinatorReport := mkReport {
  prompt_response_attempts : Z; terminal_response_attempts : Z; authentication_started : bool }.

(** [u8::saturating_add] *)
Definition saturating_succ_u8 (n : Z) : Z := Z.min (n + 1) U8_MAX.

(** How the function returns: a report, an I/O error, or a panic of its own. *)
Inductive CoordinatorExit := Reported | IoFailed (kind : ErrorKind) | Panicked.

Section coordinator.
  Context `{Sha256} {E P : Type} `{RandomSource E} (l : ManagerLimits).
  Abbreviation world := (ManagerWorld E).

(** [ActivePromptAuthentication], with what its supervision will observe. *)
Record ActivePromptAuthentication := mkActiveAuth {
  aa_control : positive; aa_deadline : Z; aa_turns : nat → Iteration E P; aa_ending : Ending E }.
Inductive PromptAuthentication :=
| Completed (response : Response) | ActiveAuthentication (active : ActivePromptAuthentication).

(** The outcomes of the connection's I/O: the writes of the prompt and of the terminal
    response, the clone of the stream kept as shutdown waker, the reception of the second
    request with what other threads did to the manager meanwhile, and the clock. *)
Record CoordinatorIo := mkCoordIo {
  io_write_prompt : ioresult unit;
  io_clone : ioresult positive;
  io_now_sent : Z;
  io_env : world → world;
  io_recv : ioresult Request;
  io_now_recv : Z;
  io_write_terminal : ioresult unit }.

Context (io : CoordinatorIo) (authenticate : world → PendingPromptRecord → world * PromptAuthentication).

Record CoordinatorState := mkCoord {
  cs_world : world; cs_phase : PromptConnectionPhase; cs_report : PromptCoordinatorReport;
  (* the response each attempted write carried, oldest first *)
  cs_sent : list Response;
  (* whether the [authenticate] closure is still there *)
  cs_authenticate : bool;
  (* the cache promotion to finish after a successful write *)
  cs_promotion : option (P * option ActiveLease);
  cs_fatal : bool }.

Definition with_machine (s : CoordinatorState) (w : world) (phase : PromptConnectionPhase)
    : CoordinatorState :=
  mkCoord w phase (cs_report s) (cs_sent s) (cs_authenticate s) (cs_promotion s) (cs_fatal s).
Definition prompt_attempt (s : CoordinatorState) (r : Response) : CoordinatorState :=
  let q := cs_report s in
  mkCoord (cs_world s) (cs_phase s)
    (mkReport (saturating_succ_u8 (prompt_response_attempts q)) (terminal_response_attempts q)
       (authentication_started q))
    (cs_sent s ++ [r]) (cs_authenticate s) (cs_promotion s) (cs_fatal s).
Definition terminal_attempt (s : CoordinatorState) (r : Response) : CoordinatorState :=
  let q := cs_report s in
  mkCoord (cs_world s) (cs_phase s)
    (mkReport (prompt_response_attempts q) (saturating_succ_u8 (terminal_response_attempts q))
       (authentication_started q))
    (cs_sent s ++ [r]) (cs_authenticate s) (cs_promotion s) (cs_fatal s).
Definition authentication_start (s : CoordinatorState) : CoordinatorState :=
  let q := cs_report s in
  mkCoord (cs_world s) (cs_phase s)
    (mkReport (prompt_response_attempts q) (terminal_response_attempts q) true)
    (cs_sent s) false (cs_promotion s) (cs_fatal s).
Definition with_supervised (s : CoordinatorState) (u : Supervised E P) : CoordinatorState :=
  mkCoord (su_world u) (su_phase u) (cs_report s) (cs_sent s) (cs_authenticate s)
    (su_promotion u) (cs_fatal s || su_fatal u).

Inductive Turn :=
| Next (s : CoordinatorState) (action : PromptConnectionAction)
| Done (s : CoordinatorState) (exit : CoordinatorExit).

Definition eof_and (s : CoordinatorState) (exit : CoordinatorExit) : Turn :=
  let '(w, phase, _) := eof (cs_world s) (cs_phase s) in Done (with_machine s w phase) exit.
Definition next_of (s : CoordinatorState) (r : machine_result) : Turn :=
  let '(w, phase, action) := r in Next (with_machine s w phase) action.

(** After the prompt was written and the waker cloned. *)
Definition await_answer (s : CoordinatorState) (waker : positive) : Turn :=
  let '(w, phase, sent) := prompt_sent_with_waker l (cs_world s) (cs_phase s) (Some waker)
                             (io_now_sent io) in
  let s := with_machine s w phase in
  match sent with
  | Err action => Next s action
  | Ok _ =>
      let s := with_machine s (io_env io (cs_world s)) (cs_phase s) in
      match io_recv io with
      | Ok request => next_of s (receive l (cs_world s) (cs_phase s) request (io_now_recv io))
      | Err InvalidDataKind => next_of s (terminal_protocol_violation (cs_world s) (cs_phase s) false)
      | Err _ => eof_and s Reported
      end
  end.

(** The arms of the loop. [None]: the supervisor's fuel ran out. *)
Definition coordinate_turn (fuel : nat) (s : CoordinatorState) (action : PromptConnectionAction)
    : option Turn :=
  match action with
  | SendPrompt response =>
      let s := prompt_attempt s response in
      Some match io_write_prompt io, io_clone io with
           | Err e, _ | Ok _, Err e => eof_and s (IoFailed e)
           | Ok _, Ok waker => await_answer s waker
           end
  | StartAuthentication pending =>
      if cs_authenticate s then
        let s := authentication_start s in
        match authenticate (cs_world s) pending with
        | (w, Completed response) =>
            Some (next_of s (finish_authentication w (cs_phase s) response))
        | (w, ActiveAuthentication a) =>
            u ← supervise_active_authentication fuel w (cs_phase s) (aa_control a)
                  (aa_deadline a) (aa_turns a) (aa_ending a);
            Some (Next (with_supervised s u) (su_action u))
        end
      else Some (Done s Panicked)
  | SendTerminal response | CancelActiveAndSendTerminal response =>
      let s := terminal_attempt s response in
      Some (Done s (match io_write_terminal io with Ok _ => Reported | Err e => IoFailed e end))
  | CancelActiveWithoutResponse | CloseWithoutResponse => Some (Done s Reported)
  end.

(** The loop; [turns] bounds its iterations. *)
Fixpoint coordinate_loop (turns fuel : nat) (s : CoordinatorState) (action : PromptConnectionAction)
    : option (CoordinatorState * CoordinatorExit) :=
  match turns with
  | O => None
  | S turns =>
      match coordinate_turn fuel s action with
      | None => None
      | Some (Done s exit) => Some (s, exit)
      | Some (Next s action) => coordinate_loop turns fuel s action
      end
  end.

(** [coordinate_prompt_connection_with_shutdown] with its first request received. *)
Definition coordinate_prompt_connection (turns fuel : nat) (w : world) (request : Request)
    (prepare : world → BeginAuthV1Req → world * result PromptErrorCode PendingPromptRecord)
    (now : Z) : option (CoordinatorState * CoordinatorExit) :=
  let '(w, phase, action) :=
    match req_cmd request with
    | Some (CmdBeginAuthV1 begin) => begin_with w ConnInitial begin prepare
    | _ => receive l w ConnInitial request now
    end in
  coordinate_loop turns fuel (mkCoord w phase (mkReport 0 0 false) [] true None false) action.
End coordinator.

(** ** Properties *)

(** The one response that lets a user in. *)
Definition is_success (r : Response) : bool :=
  match resp_result r with Some (RespSuccess _ _ _ _) => true | _ => false end.

(** The response an action carries, and the actions after which the loop ends. *)
Definition carried (action : PromptConnectionAction) : list Response :=
  match action with
  | SendTerminal r | CancelActiveAndSendTerminal r => [r]
  | _ => []
  end.
Definition final (action : PromptConnectionAction) : Prop :=
  match action with SendPrompt _ | StartAuthentication _ => False | _ => True end.
(** A final action that lets nobody in. *)
Definition denying (action : PromptConnectionAction) : Prop :=
  final action ∧ Forall (λ r, is_success r = false) (carried action).

Lemma prompt_error_not_success code : is_success (Response_prompt_error code) = false.
Proof. done. Qed.

Section properties.
  Context `{Sha256} {E P : Type} `{RandomSource E} (l : ManagerLimits).
  Context (io : CoordinatorIo (E:=E)).
  Context (authenticate : ManagerWorld E → PendingPromptRecord →
                          ManagerWorld E * PromptAuthentication (E:=E) (P:=P)).
  Implicit Types (w : ManagerWorld E) (s : CoordinatorState (E:=E) (P:=P)).

Lemma begin_with_cases w request prepare w' phase action :
  begin_with w ConnInitial request prepare = (w', phase, action) →
  (phase = ConnClosed ∧ denying action) ∨
  ∃ rec, begin_validate request = Ok () ∧ prepare w request = (w', Ok rec) ∧
    phase = ConnPending rec ∧ action = SendPrompt (prompt_response rec).
Proof.
  unfold begin_with. destruct (begin_validate request) as [[]|]; [|intros [= <- <- <-]; by left; repeat constructor].
  destruct (prepare w request) as [w1 [rec|]] eqn:Hp; [|intros [= <- <- <-]; by left; repeat constructor].
  destruct (_ && _); intros [= <- <- <-]; [right|left; by repeat constructor].
  by exists rec.
Qed.

Lemma receive_initial w request now w' phase action :
  receive l w ConnInitial request now = (w', phase, action) → phase = ConnClosed ∧ denying action.
Proof. intros [= <- <- <-]. by repeat constructor. Qed.

(** The claim a Commit makes of the pending record. *)
Definition claims w rec request now w' rec' : Prop :=
  ∃ commit, req_cmd request = Some (CmdCommitAuthV1 commit) ∧ commit_validate commit = Ok () ∧
    record_claim_commit l w rec (cm_transaction_token commit) (cm_client_nonce commit) now
      = (w', rec', Ok ()).

Lemma receive_cases w rec request now w' phase action :
  receive l w (ConnPending rec) request now = (w', phase, action) →
  (phase = ConnClosed ∧ denying action) ∨
  ∃ rec', claims w rec request now w' rec' ∧ phase = ConnCommitted ∧
    action = StartAuthentication rec'.
Proof.
  unfold receive, claims. destruct (req_cmd request) as [[]|] eqn:Hcmd;
    try (intros [= <- <- <-]; left; by repeat constructor).
  - unfold receive_commit. destruct (commit_validate _) as [[]|] eqn:Hv;
      [|intros [= <- <- <-]; left; by repeat constructor].
    destruct (record_claim_commit _ _ _ _ _ _) as [[w1 rec1] [[]|]] eqn:Hc;
      intros [= <- <- <-]; [right|left; by repeat constructor]. eauto 10.
  - unfold receive_cancel. destruct (cancel_validate _);
      [|intros [= <- <- <-]; left; by repeat constructor].
    destruct (record_cancel _ _ _ _ _) as [[w1 rec1] []];
      intros [= <- <- <-]; left; by repeat constructor.
Qed.

(** How the wait for the second request ends. *)
Lemma await_answer_cases s rec waker :
  cs_phase s = ConnPending rec →
  (∃ w', await_answer l io s waker = Done (with_machine s w' ConnClosed) Reported) ∨
  (∃ w' action, await_answer l io s waker = Next (with_machine s w' ConnClosed) action ∧
     denying action) ∨
  ∃ request w0 w' rec', io_recv io = Ok request ∧ claims w0 rec request (io_now_recv io) w' rec' ∧
    await_answer l io s waker = Next (with_machine s w' ConnCommitted) (StartAuthentication rec').
Proof.
  intros Hph. unfold await_answer. rewrite Hph. cbn -[receive record_activate].
  destruct (record_activate _ _ _ _ _) as [w1 [deadline|]]; cbn -[receive].
  2: { right; left. eexists _, _. split; [done|]. by repeat constructor. }
  destruct (io_recv io) as [request|kind] eqn:Hrecv.
  - match goal with |- context [receive ?a ?b ?c ?d ?f] =>
      destruct (receive a b c d f) as [[w2 phase] action] eqn:Hr end.
    apply receive_cases in Hr as [[-> Hd]|(rec' & Hc & -> & ->)].
    + right; left. by eexists _, _.
    + right; right. by eexists _, _, _, _.
  - destruct kind; try (left; by eexists). right; left. eexists _, _. split; [done|].
    by repeat constructor.
Qed.

Lemma supervised_closed fuel w control deadline (turns : nat → Iteration E P) e u :
  supervise_active_authentication fuel w ConnCommitted control deadline turns e = Some u →
  su_phase u = ConnClosed ∧ final (su_action u).
Proof.
  unfold supervise_active_authentication, deliver_completion, answer_violation, answer_unavailable.
  intros Hs. repeat case_match; simplify_eq/=; repeat case_match; simplify_eq/=; done.
Qed.

(** The verdict of the authentication a committed record started. *)
Definition answered (fuel : nat) w rec (r : Response) : Prop :=
  ∃ w1, authenticate w rec = (w1, Completed r) ∨
  ∃ a u, authenticate w rec = (w1, ActiveAuthentication a) ∧
    supervise_active_authentication fuel w1 ConnCommitted (aa_control a) (aa_deadline a)
      (aa_turns a) (aa_ending a) = Some u ∧ r ∈ carried (su_action u).

(** Supervision of what [authenticate] starts ends within the fuel. *)
Definition supervision_ends (fuel : nat) : Prop :=
  ∀ w rec w1 a, authenticate w rec = (w1, ActiveAuthentication a) →
    is_Some (supervise_active_authentication fuel w1 ConnCommitted (aa_control a) (aa_deadline a)
      (aa_turns a) (aa_ending a)).

Lemma start_cases fuel s rec :
  supervision_ends fuel → cs_phase s = ConnCommitted → cs_authenticate s = true →
  ∃ s' action, coordinate_turn l io authenticate fuel s (StartAuthentication rec) = Some (Next s' action) ∧
    final action ∧ cs_phase s' = ConnClosed ∧ cs_sent s' = cs_sent s ∧
    cs_report s' = mkReport (prompt_response_attempts (cs_report s))
                     (terminal_response_attempts (cs_report s)) true ∧
    ∀ r, r ∈ carried action → is_success r = true → answered fuel (cs_world s) rec r.
Proof.
  intros Hends Hph Hau. simpl. rewrite Hau. unfold answered.
  destruct (authenticate (cs_world s) rec) as [w1 [response|a]] eqn:Hrun.
  - rewrite Hph. simpl. eexists _, _. split; [reflexivity|]. simpl.
    destruct (is_prompt_auth_terminal_response response); simpl; split_and!; try done;
      intros r ->%list_elem_of_singleton Hs; first [done|eauto].
  - destruct (Hends _ _ _ _ Hrun) as [u Hu]. rewrite Hph, Hu. simpl. eexists _, _.
    split; [reflexivity|]. destruct (supervised_closed _ _ _ _ _ _ _ Hu).
    split_and!; try done. eauto 10.
Qed.

Lemma final_turn turns fuel s action :
  final action →
  ∃ s' exit, coordinate_loop l io authenticate (S turns) fuel s action = Some (s', exit) ∧
    exit ≠ Panicked ∧ cs_phase s' = cs_phase s ∧ cs_sent s' = cs_sent s ++ carried action ∧
    prompt_response_attempts (cs_report s') = prompt_response_attempts (cs_report s) ∧
    terminal_response_attempts (cs_report s')
      = match carried action with
        | [] => terminal_response_attempts (cs_report s)
        | _ => saturating_succ_u8 (terminal_response_attempts (cs_report s))
        end ∧
    authentication_started (cs_report s') = authentication_started (cs_report s).
Proof.
  intros Hf. destruct action; try done; simpl; eexists _, _; split; try reflexivity; simpl;
    rewrite ?app_nil_r; split_and!; try done; by destruct (io_write_terminal io).
Qed.

(** The whole conversation behind a started authentication: a valid Begin that was
    prepared, a prompt written to the peer, a valid Commit that claimed the prepared
    record; what lets the user in is the verdict of that authentication. *)
Definition full_conversation (fuel : nat) w request
    (prepare : ManagerWorld E → BeginAuthV1Req → ManagerWorld E * result PromptErrorCode PendingPromptRecord)
    (sent : list Response) : Prop :=
  ∃ begin w0 rec request' w1 w2 rec',
    req_cmd request = Some (CmdBeginAuthV1 begin) ∧ begin_validate begin = Ok () ∧
    prepare w begin = (w0, Ok rec) ∧ io_write_prompt io = Ok () ∧ io_recv io = Ok request' ∧
    claims w1 rec request' (io_now_recv io) w2 rec' ∧
    ∀ r, r ∈ sent → is_success r = true →
      answered fuel w2 rec' r ∧ sent = [prompt_response rec; r].

(** What a finished connection looks like. *)
Definition conversation (fuel : nat) w request
    (prepare : ManagerWorld E → BeginAuthV1Req → ManagerWorld E * result PromptErrorCode PendingPromptRecord)
    s (exit : CoordinatorExit) : Prop :=
  exit ≠ Panicked ∧ cs_phase s = ConnClosed ∧
  (∃ prompts terminals, cs_sent s = prompts ++ terminals ∧
     (length prompts ≤ 1)%nat ∧ (length terminals ≤ 1)%nat ∧
     prompt_response_attempts (cs_report s) = Z.of_nat (length prompts) ∧
     terminal_response_attempts (cs_report s) = Z.of_nat (length terminals)) ∧
  if authentication_started (cs_report s) then full_conversation fuel w request prepare (cs_sent s)
  else Forall (λ r, is_success r = false) (cs_sent s).

(** A final action after at most one prompt. *)
Lemma finish_conversation turns fuel w request prepare s action prompts :
  final action → cs_phase s = ConnClosed → cs_sent s = prompts → (length prompts ≤ 1)%nat →
  prompt_response_attempts (cs_report s) = Z.of_nat (length prompts) →
  terminal_response_attempts (cs_report s) = 0 →
  (if authentication_started (cs_report s)
   then full_conversation fuel w request prepare (prompts ++ carried action)
   else Forall (λ r, is_success r = false) (prompts ++ carried action)) →
  ∃ s' exit, coordinate_loop l io authenticate (S turns) fuel s action = Some (s', exit) ∧
    conversation fuel w request prepare s' exit.
Proof.
  intros Hf Hph Hsent Hlen Hp Ht Hauth.
  destruct (final_turn turns fuel s action Hf) as (s' & exit & Hrun & Hx & Hph' & Hs' & Hp' & Ht' & Ha').
  exists s', exit. split; [exact Hrun|]. unfold conversation. rewrite Hs', Ha', Hph', Hsent.
  split_and!; try done. exists prompts, (carried action). rewrite Hp', Ht', Ht.
  split_and!; try done; by destruct action; simpl; try lia.
Qed.

Lemma prompt_not_success rec : is_success (prompt_response rec) = false.
Proof. done. Qed.


End properties.

(** ** A concrete conversation *)

Module CoordinatorDemo.
#[local] Existing Instance tail_sha256.
#[local] Existing Instance tail_sha256_laws.
#[local] Existing Instance toy_resolver.

Definition first : Request := mkRequest (Some (CmdBeginAuthV1 ServerDemo.request)).
Definition second : Request :=
  mkRequest (Some (CmdCommitAuthV1 (mkCommitReq 1 demo_token demo_nonce))).
Definition io : CoordinatorIo (E:=N) :=
  mkCoordIo (Ok ()) (Ok 9%positive) 10 (λ w, w) (Ok second) 20 (Ok ()).
Definition verdict : Response := mkResponse (Some (RespSuccess 0 (bs "me") 1 2)).
Definition demo_authenticate (w : ManagerWorld N) (_ : PendingPromptRecord)
    : ManagerWorld N * PromptAuthentication (E:=N) (P:=unit) := (w, Completed verdict).
Definition run : option (CoordinatorState (E:=N) (P:=unit) * CoordinatorExit) :=
  coordinate_prompt_connection demo_limits io demo_authenticate 3 0 demo_w0 first
    (prepare_prompt_pending demo_limits ServerDemo.store 1000 1 secure_bootstrap_template) 5.

End CoordinatorDemo.
