(* ===== verification/CameraAdmission.v ===== *)
(** * Camera admission and the cleanup reaper

    [CameraAdmission], [CameraLease], [CameraReaper] and [CleanupTask] of
    [crates/howy-daemon/src/server.rs]: one camera, granted in ticket order to one
    holder at a time; a holder that cannot release its camera at once hands the cleanup
    and the admission with it to the reaper thread. Each definition is one critical
    section; the transition system interleaves them in any order. *)

From stdpp Require Import sorting.
From S2P Require Import Prelude Supervisor.

(** ** The queue *)

Record AdmissionQueue := mkQueue { q_active : bool; q_next_ticket : Z; q_waiters : list Z }.

Inductive CameraAdmissionError := AdmissionBusy | AdmissionCancelled.

(** [u64::wrapping_add] *)
Definition wrapping_succ (n : Z) : Z := (n + 1) mod (U64_MAX + 1).

(** [remove_waiter] *)
Fixpoint remove_waiter (waiters : list Z) (ticket : Z) : list Z :=
  match waiters with
  | [] => []
  | t :: rest => if t =? ticket then rest else t :: remove_waiter rest ticket
  end.

Definition with_waiters (q : AdmissionQueue) (ws : list Z) : AdmissionQueue :=
  mkQueue (q_active q) (q_next_ticket q) ws.

(** Taking a ticket, at the start of [acquire_cancellable]. *)
Definition take_ticket (q : AdmissionQueue) : AdmissionQueue * Z :=
  (mkQueue (q_active q) (wrapping_succ (q_next_ticket q)) (q_waiters q ++ [q_next_ticket q]),
   q_next_ticket q).

Definition at_front (q : AdmissionQueue) (ticket : Z) : bool :=
  bool_decide (head (q_waiters q) = Some ticket).

(** The loop of [acquire_cancellable] from its top to the wait; [None]: it waits.
    [cancelled] and [expired] are what [cancelled()] and the remaining time answered. *)
Definition acquire_top (q : AdmissionQueue) (ticket : Z) (cancelled expired : bool)
    : AdmissionQueue * option (result CameraAdmissionError unit) :=
  if cancelled then
    (with_waiters q (remove_waiter (q_waiters q) ticket), Some (Err AdmissionCancelled))
  else if negb (q_active q) && at_front q ticket then
    (mkQueue true (q_next_ticket q) (tail (q_waiters q)), Some (Ok ()))
  else if expired then
    (with_waiters q (remove_waiter (q_waiters q) ticket), Some (Err AdmissionBusy))
  else (q, None).

(** From the end of the wait: [late] is that it timed out past the deadline. *)
Definition acquire_wake (q : AdmissionQueue) (ticket : Z) (late cancelled expired : bool)
    : AdmissionQueue * option (result CameraAdmissionError unit) :=
  if late && (q_active q || negb (at_front q ticket)) then
    (with_waiters q (remove_waiter (q_waiters q) ticket), Some (Err AdmissionBusy))
  else acquire_top q ticket cancelled expired.

(** [release_camera_admission] *)
Definition release_camera_admission (q : AdmissionQueue) : AdmissionQueue :=
  mkQueue false (q_next_ticket q) (q_waiters q).

(** ** Cleanup *)

(** A pending cleanup, by an identifier, and whether it carries the admission: the weak
    reference of an unleased one upgrades to nothing. *)
Record CleanupTask := mkTask { ct_pending : positive; ct_leased : bool }.

Inductive ReaperPhase := ReaperRunning | ReaperStopping.

(** The lifecycle, the channel to the reaper thread, and the thread's own list while it
    runs. *)
Record Reaper := mkReaper {
  rp_phase : ReaperPhase;
  rp_channel : list CleanupTask;
  rp_thread : option (list CleanupTask);
  rp_unresolved : list CleanupTask }.

(** [enqueue_cleanup_task]: a send fails once the receiving thread is gone. *)
Definition enqueue_cleanup_task (r : Reaper) (task : CleanupTask) : Reaper * CleanupMode :=
  match rp_phase r with
  | ReaperStopping =>
      (mkReaper ReaperStopping (rp_channel r) (rp_thread r) (rp_unresolved r ++ [task]),
       UnresolvedTracked)
  | ReaperRunning =>
      match rp_thread r with
      | None =>
          (mkReaper ReaperStopping (rp_channel r) None (rp_unresolved r ++ [task]),
           UnresolvedTracked)
      | Some pending =>
          (mkReaper ReaperRunning (rp_channel r ++ [task]) (Some pending) (rp_unresolved r),
           ReaperHandoff)
      end
  end.

(** [Vec::swap_remove] *)
Definition swap_remove {A} (i : nat) (v : list A) : list A :=
  match v !! (length v - 1)%nat with
  | Some x => take (length v - 1) (<[i := x]> v)
  | None => v
  end.

(** The sweep of the reaper thread and of [reap_completed_unresolved_tasks]: tasks whose
    cleanup has finished leave the vector and release the admission they carry. *)
Fixpoint sweep (fuel : nat) (finished : positive → bool) (tasks : list CleanupTask) (index : nat)
    (q : AdmissionQueue) : list CleanupTask * AdmissionQueue :=
  match fuel with
  | O => (tasks, q)
  | S fuel =>
      match tasks !! index with
      | None => (tasks, q)
      | Some task =>
          if finished (ct_pending task) then
            sweep fuel finished (swap_remove index tasks) index
              (if ct_leased task then release_camera_admission q else q)
          else sweep fuel finished tasks (S index) q
      end
  end.
(** Each turn removes a task or moves past one. *)
Definition sweep_all (finished : positive → bool) (tasks : list CleanupTask) (q : AdmissionQueue)
    : list CleanupTask * AdmissionQueue := sweep (length tasks) finished tasks 0 q.

(** ** The system *)

(** The callers waiting in [acquire_cancellable] with their tickets, and those that hold
    an armed lease. *)
Record Admission := mkAdmission {
  ad_queue : AdmissionQueue; ad_reaper : Reaper;
  ad_waiting : gmap positive Z; ad_leased : gset positive }.

Definition admission_start : Admission :=
  mkAdmission (mkQueue false 0 []) (mkReaper ReaperRunning [] (Some []) []) ∅ ∅.

(** The caller [c] with [ticket] after a pass of the loop. *)
Definition after_pass (a : Admission) (c : positive) (ticket : Z)
    (r : AdmissionQueue * option (result CameraAdmissionError unit)) : Admission :=
  match r with
  | (q, None) => mkAdmission q (ad_reaper a) (<[c := ticket]> (ad_waiting a)) (ad_leased a)
  | (q, Some (Err _)) => mkAdmission q (ad_reaper a) (delete c (ad_waiting a)) (ad_leased a)
  | (q, Some (Ok _)) =>
      mkAdmission q (ad_reaper a) (delete c (ad_waiting a)) ({[c]} ∪ ad_leased a)
  end.

(** [acquire_cancellable] up to its first wait. *)
Definition acquire_enter (a : Admission) (c : positive) (cancelled expired : bool) : Admission :=
  let '(q, ticket) := take_ticket (ad_queue a) in
  after_pass a c ticket (acquire_top q ticket cancelled expired).

Definition with_queue (q : AdmissionQueue) (a : Admission) : Admission :=
  mkAdmission q (ad_reaper a) (ad_waiting a) (ad_leased a).
Definition with_reaper (r : Reaper) (a : Admission) : Admission :=
  mkAdmission (ad_queue a) r (ad_waiting a) (ad_leased a).
Definition unlease (c : positive) (a : Admission) : Admission :=
  mkAdmission (ad_queue a) (ad_reaper a) (ad_waiting a) (ad_leased a ∖ {[c]}).

(** [Drop for CameraLease], [handoff_with_invalidation], [track_unleased] *)
Definition drop_camera_lease (a : Admission) (c : positive) : Admission :=
  with_queue (release_camera_admission (ad_queue a)) (unlease c a).
Definition handoff (a : Admission) (c pending : positive) : Admission * CleanupMode :=
  let '(r, mode) := enqueue_cleanup_task (ad_reaper a) (mkTask pending true) in
  (with_reaper r (unlease c a), mode).
Definition track_unleased (a : Admission) (pending : positive) : Admission * CleanupMode :=
  let '(r, mode) := enqueue_cleanup_task (ad_reaper a) (mkTask pending false) in
  (with_reaper r a, mode).

(** The reaper thread: a sweep, a received task, and its exit once the channel is
    disconnected and drained. *)
Definition reaper_sweep (a : Admission) (finished : positive → bool) : Admission :=
  let r := ad_reaper a in
  match rp_thread r with
  | None => a
  | Some pending =>
      let '(pending, q) := sweep_all finished pending (ad_queue a) in
      with_queue q (with_reaper (mkReaper (rp_phase r) (rp_channel r) (Some pending) (rp_unresolved r)) a)
  end.
Definition reaper_recv (a : Admission) : Admission :=
  let r := ad_reaper a in
  match rp_thread r, rp_channel r with
  | Some pending, task :: channel =>
      with_reaper (mkReaper (rp_phase r) channel (Some (pending ++ [task])) (rp_unresolved r)) a
  | Some pending, [] =>
      match rp_phase r with
      | ReaperRunning => a
      | ReaperStopping =>
          with_reaper (mkReaper ReaperStopping [] None (rp_unresolved r ++ pending)) a
      end
  | None, _ => a
  end.
(** [shutdown_bounded]: the transition, and the final sweep once the thread is joined. *)
Definition reaper_stop (a : Admission) : Admission :=
  let r := ad_reaper a in
  with_reaper (mkReaper ReaperStopping (rp_channel r) (rp_thread r) (rp_unresolved r)) a.
Definition reap_completed_unresolved_tasks (a : Admission) (finished : positive → bool) : Admission :=
  let r := ad_reaper a in
  let '(unresolved, q) := sweep_all finished (rp_unresolved r) (ad_queue a) in
  with_queue q (with_reaper (mkReaper (rp_phase r) (rp_channel r) (rp_thread r) unresolved) a).

Inductive admission_step : Admission → Admission → Prop :=
| adm_enter a c cancelled expired :
    ad_waiting a !! c = None → c ∉ ad_leased a →
    admission_step a (acquire_enter a c cancelled expired)
| adm_wake a c ticket late cancelled expired :
    ad_waiting a !! c = Some ticket →
    admission_step a (after_pass a c ticket (acquire_wake (ad_queue a) ticket late cancelled expired))
| adm_drop a c : c ∈ ad_leased a → admission_step a (drop_camera_lease a c)
| adm_handoff a c pending : c ∈ ad_leased a → admission_step a (handoff a c pending).1
| adm_track a pending : admission_step a (track_unleased a pending).1
| adm_sweep a finished : admission_step a (reaper_sweep a finished)
| adm_recv a : admission_step a (reaper_recv a)
| adm_stop a : admission_step a (reaper_stop a)
| adm_reap a finished : admission_step a (reap_completed_unresolved_tasks a finished).

(** ** The invariant *)

(** How many of these tasks carry the admission. *)
Fixpoint carried_by (tasks : list CleanupTask) : Z :=
  match tasks with
  | [] => 0
  | t :: rest => (if ct_leased t then 1 else 0) + carried_by rest
  end.

(** Owners of the admission: armed leases, and tasks anywhere between handoff and
    completion. *)
Definition task_owners (r : Reaper) : Z :=
  carried_by (rp_channel r) + carried_by (default [] (rp_thread r)) + carried_by (rp_unresolved r).
Definition owners (a : Admission) : Z := Z.of_nat (size (ad_leased a)) + task_owners (ad_reaper a).

Lemma carried_by_app l1 l2 : carried_by (l1 ++ l2) = carried_by l1 + carried_by l2.
Proof. induction l1 as [|t l1 IH]; simpl; [done|]. rewrite IH. lia. Qed.
Lemma carried_by_perm l1 l2 : l1 ≡ₚ l2 → carried_by l1 = carried_by l2.
Proof. induction 1; simpl; lia. Qed.
Lemma carried_by_nonneg l : 0 ≤ carried_by l.
Proof. induction l as [|t l IH]; simpl; [lia|]. destruct (ct_leased t); lia. Qed.

Lemma swap_remove_perm {A} i (v : list A) x : v !! i = Some x → v ≡ₚ x :: swap_remove i v.
Proof.
  intros Hi. pose proof (lookup_lt_Some _ _ _ Hi) as Hlt. unfold swap_remove.
  destruct (v !! (length v - 1)%nat) as [y|] eqn:Hy.
  2: { apply lookup_ge_None in Hy. lia. }
  assert (v = take (length v - 1) v ++ [y]) as Hv.
  { rewrite <- (take_drop (length v - 1) v) at 1. f_equal.
    rewrite (drop_S _ y) by done. f_equal. apply drop_ge. lia. }
  set (u := take (length v - 1) v) in *.
  assert (length u = (length v - 1)%nat) as Hu by (unfold u; rewrite length_take; lia).
  destruct (decide (i = length v - 1)%nat) as [->|Hne].
  - rewrite take_insert_ge by lia. fold u. rewrite Hy in Hi. injection Hi as <-.
    rewrite Hv at 1. by rewrite Permutation_app_comm.
  - rewrite take_insert_lt by lia. fold u.
    assert (u !! i = Some x) as Hui by (unfold u; rewrite lookup_take_lt by lia; done).
    rewrite Hv at 1. rewrite Permutation_app_comm. simpl.
    rewrite <- (take_drop_middle u i x Hui) at 1.
    rewrite insert_take_drop by (rewrite Hu; lia). by solve_Permutation.
Qed.

Definition flag (b : bool) : Z := if b then 1 else 0.

(** A sweep keeps the balance between the active flag and its owners. *)
Lemma sweep_balance fuel finished tasks index q tasks' q' other :
  0 ≤ other → other + carried_by tasks = flag (q_active q) →
  sweep fuel finished tasks index q = (tasks', q') →
  other + carried_by tasks' = flag (q_active q') ∧
  q_waiters q' = q_waiters q ∧ q_next_ticket q' = q_next_ticket q.
Proof.
  revert tasks index q. induction fuel as [|fuel IH]; intros tasks index q Ho Hb; simpl.
  { by intros [= <- <-]. }
  destruct (tasks !! index) as [task|] eqn:Ht; [|by intros [= <- <-]].
  destruct (finished _); [|by eauto]. intros Hs.
  pose proof (carried_by_perm _ _ (swap_remove_perm _ _ _ Ht)) as Hc. simpl in Hc.
  pose proof (carried_by_nonneg (swap_remove index tasks)).
  destruct (ct_leased task).
  - apply IH in Hs as (? & ? & ?); [done|done|]. simpl. destruct (q_active q); simpl in *; lia.
  - apply IH in Hs as (? & ? & ?); [done|done|]. lia.
Qed.

Lemma remove_waiter_perm ws t : t ∈ ws → ws ≡ₚ t :: remove_waiter ws t.
Proof.
  induction ws as [|t' ws IH]; [by intros ?%not_elem_of_nil|]. intros Ht. simpl.
  destruct (t' =? t) eqn:He; [by apply Z.eqb_eq in He as ->|]. apply Z.eqb_neq in He.
  apply elem_of_cons in Ht as [?|Ht]; [done|]. rewrite (IH Ht) at 1. apply Permutation_swap.
Qed.

Lemma remove_waiter_sublist ws t : remove_waiter ws t `sublist_of` ws.
Proof.
  induction ws as [|t' ws IH]; simpl; [constructor|].
  destruct (_ =? _); [by apply sublist_cons|by apply sublist_skip].
Qed.

(** Waiters stand in the order in which their tickets were drawn. *)
Definition in_order (q : AdmissionQueue) : Prop :=
  StronglySorted Z.lt (q_waiters q) ∧ Forall (λ t, t < q_next_ticket q) (q_waiters q).

Lemma sorted_sublist (l1 l2 : list Z) :
  l1 `sublist_of` l2 → StronglySorted Z.lt l2 → StronglySorted Z.lt l1.
Proof.
  induction 1 as [|x l1 l2 Hs IH|x l1 l2 Hs IH]; intros Hst; [done| |].
  - apply StronglySorted_inv in Hst as [Hst Hf]. constructor; [auto|].
    rewrite list.Forall_forall in Hf. apply list.Forall_forall. intros y Hy. apply Hf.
    by eapply elem_of_sublist.
  - apply StronglySorted_inv in Hst as [Hst _]. auto.
Qed.

Lemma in_order_sublist q b ws :
  ws `sublist_of` q_waiters q → in_order q → in_order (mkQueue b (q_next_ticket q) ws).
Proof.
  intros Hs [Hst Hf]. split; simpl; [by eapply sorted_sublist|].
  rewrite list.Forall_forall in Hf. apply list.Forall_forall. intros t Ht. apply Hf.
  by eapply elem_of_sublist.
Qed.

Record admission_inv (n : Z) (a : Admission) : Prop := {
  inv_owners : owners a = flag (q_active (ad_queue a));
  inv_waiters : q_waiters (ad_queue a) ≡ₚ (map_to_list (ad_waiting a)).*2;
  inv_order : in_order (ad_queue a);
  inv_tickets : 0 ≤ q_next_ticket (ad_queue a) ≤ n;
  inv_apart : ∀ c, c ∈ ad_leased a → ad_waiting a !! c = None }.

Lemma waiting_front a n c ticket :
  admission_inv n a → ad_waiting a !! c = Some ticket → ticket ∈ q_waiters (ad_queue a).
Proof.
  intros Ha Hc. rewrite (inv_waiters _ _ Ha). apply list_elem_of_fmap. exists (c, ticket).
  split; [done|]. by apply elem_of_map_to_list.
Qed.

Lemma waiters_leave a n c ticket ws :
  admission_inv n a → ad_waiting a !! c = Some ticket →
  q_waiters (ad_queue a) ≡ₚ ticket :: ws → ws ≡ₚ (map_to_list (delete c (ad_waiting a))).*2.
Proof.
  intros Ha Hc Hws. pose proof (inv_waiters _ _ Ha) as Hp. rewrite Hws in Hp.
  rewrite <- (map_to_list_delete _ _ _ Hc) in Hp. simpl in Hp. by apply Permutation_cons_inv in Hp.
Qed.

Lemma head_cons (ws : list Z) t : head ws = Some t → ws = t :: tail ws.
Proof. by destruct ws as [|x ws]; [|intros [= ->]]. Qed.

(** A waiter that gives up leaves the queue and nothing else. *)
Lemma leave_inv a n c ticket e :
  admission_inv n a → ad_waiting a !! c = Some ticket →
  admission_inv n (after_pass a c ticket
    (with_waiters (ad_queue a) (remove_waiter (q_waiters (ad_queue a)) ticket), Some (Err e))).
Proof.
  intros Ha Hc. pose proof (waiting_front _ _ _ _ Ha Hc) as Hin.
  pose proof Ha as [Hown Hw Hord Ht Hap]. simpl. constructor; simpl; try done.
  - eapply waiters_leave; [done..|]. by apply remove_waiter_perm.
  - apply in_order_sublist; [apply remove_waiter_sublist|done].
  - intros c' Hc'. rewrite lookup_delete_None. auto.
Qed.

(** One pass of the loop, from a state in which [c] waits with [ticket]. *)
Lemma after_pass_top a n c ticket cancelled expired :
  admission_inv n a → ad_waiting a !! c = Some ticket → c ∉ ad_leased a →
  admission_inv n (after_pass a c ticket (acquire_top (ad_queue a) ticket cancelled expired)).
Proof.
  intros Ha Hc Hl. pose proof Ha as [Hown Hw Hord Ht Hap].
  unfold acquire_top. destruct cancelled; [by apply leave_inv|].
  destruct (negb _ && _) eqn:Hgrant.
  - breflect. rename select (at_front _ _ = true) into Hf. unfold at_front in Hf. breflect.
    rename select (head _ = Some _) into Hhd. apply head_cons in Hhd. unfold owners in Hown.
    rename select (q_active _ = false) into Hoff. rewrite Hoff in Hown. simpl.
    constructor; simpl; try done.
    + unfold owners. simpl. rewrite size_union by set_solver. rewrite size_singleton. simpl in *. lia.
    + eapply waiters_leave; [done..|]. by rewrite Hhd at 1.
    + apply in_order_sublist; [|done]. rewrite Hhd at 2. by apply sublist_cons.
    + intros c' [->%elem_of_singleton|Hc']%elem_of_union; rewrite lookup_delete_None; auto.
  - destruct expired; [by apply leave_inv|]. simpl. rewrite insert_id by done. by destruct a.
Qed.

Lemma enter_inv a n c cancelled expired :
  admission_inv n a → n < U64_MAX → ad_waiting a !! c = None → c ∉ ad_leased a →
  admission_inv (n + 1) (acquire_enter a c cancelled expired).
Proof.
  intros [Hown Hw [Hst Hf] Ht Hap] Hn Hc Hl. unfold acquire_enter, take_ticket.
  assert (wrapping_succ (q_next_ticket (ad_queue a)) = q_next_ticket (ad_queue a) + 1) as Hsucc.
  { unfold wrapping_succ. apply Z.mod_small. unfold_max. lia. }
  rewrite Hsucc. set (ticket := q_next_ticket (ad_queue a)) in *.
  set (q := mkQueue (q_active (ad_queue a)) (ticket + 1) (q_waiters (ad_queue a) ++ [ticket])).
  set (a' := mkAdmission q (ad_reaper a) (<[c := ticket]> (ad_waiting a)) (ad_leased a)).
  assert (admission_inv (n + 1) a') as Ha'.
  { rewrite list.Forall_forall in Hf. constructor; simpl; try done; try lia.
    - rewrite map_to_list_insert by done. simpl. rewrite Hw. by rewrite Permutation_app_comm.
    - split; simpl.
      + apply StronglySorted_app_2; [|done|by repeat constructor].
        intros t1 t2 Ht1 ->%list_elem_of_singleton. by apply Hf.
      + apply Forall_app. split; [|by repeat constructor; lia]. apply list.Forall_forall.
        intros t Ht'. apply Hf in Ht'. lia.
    - intros c' Hc'. rewrite lookup_insert_ne by set_solver. auto. }
  pose proof (after_pass_top a' (n + 1) c ticket cancelled expired Ha'
    (lookup_insert_eq _ _ _) Hl) as Hpass.
  revert Hpass. subst a'. unfold after_pass. simpl.
  destruct (acquire_top q ticket cancelled expired) as [q' [[]|]]; simpl;
    by rewrite ?delete_insert_eq, ?insert_insert_eq, ?(delete_id _ _ Hc).
Qed.

Lemma wake_inv a n c ticket late cancelled expired :
  admission_inv n a → ad_waiting a !! c = Some ticket →
  admission_inv n (after_pass a c ticket
    (acquire_wake (ad_queue a) ticket late cancelled expired)).
Proof.
  intros Ha Hc.
  assert (c ∉ ad_leased a) as Hl by (intros Hl%(inv_apart _ _ Ha); congruence).
  unfold acquire_wake. destruct (late && _); [by apply leave_inv|by apply after_pass_top].
Qed.

(** A step that leaves the callers alone and keeps the balance. *)
Lemma reaper_inv a n q r :
  admission_inv n a → q_waiters q = q_waiters (ad_queue a) →
  q_next_ticket q = q_next_ticket (ad_queue a) →
  Z.of_nat (size (ad_leased a)) + task_owners r = flag (q_active q) →
  admission_inv n (mkAdmission q r (ad_waiting a) (ad_leased a)).
Proof.
  intros [Hown Hw [Hst Hf] Ht Hap] Hqw Hqt Hb. constructor; simpl; rewrite ?Hqw, ?Hqt; try done.
  split; by rewrite ?Hqw, ?Hqt.
Qed.

(** Giving up a lease. *)
Lemma unlease_size (a : Admission) c :
  c ∈ ad_leased a → Z.of_nat (size (ad_leased a ∖ {[c]})) = Z.of_nat (size (ad_leased a)) - 1.
Proof.
  intros Hc. rewrite size_difference by set_solver. rewrite size_singleton.
  assert (size (ad_leased a) ≠ 0%nat); [|lia]. intros Hz%size_empty_inv. set_solver.
Qed.

Lemma unlease_inv a n c q r :
  admission_inv n a → c ∈ ad_leased a → q_waiters q = q_waiters (ad_queue a) →
  q_next_ticket q = q_next_ticket (ad_queue a) →
  Z.of_nat (size (ad_leased a)) - 1 + task_owners r = flag (q_active q) →
  admission_inv n (mkAdmission q r (ad_waiting a) (ad_leased a ∖ {[c]})).
Proof.
  intros Ha Hc Hqw Hqt Hb.
  assert (admission_inv n (mkAdmission (ad_queue a) (ad_reaper a) (ad_waiting a) (ad_leased a)))
    as [Hown Hw [Hst Hf] Ht Hap] by (by destruct a).
  constructor; simpl; rewrite ?Hqw, ?Hqt; try done.
  - unfold owners. simpl. by rewrite unlease_size.
  - split; by rewrite ?Hqw, ?Hqt.
  - intros c' Hc'. apply Hap. simpl. set_solver.
Qed.

Lemma enqueue_owners r task r' mode :
  enqueue_cleanup_task r task = (r', mode) →
  task_owners r' = task_owners r + flag (ct_leased task).
Proof.
  unfold enqueue_cleanup_task, task_owners. intros Hq. repeat case_match; simplify_eq/=;
    rewrite ?carried_by_app; simpl;
    repeat match goal with H : rp_thread _ = _ |- _ => rewrite ?H end; simpl; unfold flag; lia.
Qed.

Lemma task_owners_nonneg r : 0 ≤ task_owners r.
Proof.
  unfold task_owners. pose proof (carried_by_nonneg (rp_channel r)).
  pose proof (carried_by_nonneg (default [] (rp_thread r))).
  pose proof (carried_by_nonneg (rp_unresolved r)). lia.
Qed.

Lemma step_admission_inv a a' n :
  admission_step a a' → admission_inv n a → n < U64_MAX → admission_inv (n + 1) a'.
Proof.
  intros Hstep Ha Hn.
  assert (∀ b, admission_inv n b → admission_inv (n + 1) b) as Hmore.
  { intros b [? ? ? ? ?]. constructor; try done; lia. }
  pose proof (inv_owners _ _ Ha) as Hown. unfold owners in Hown.
  destruct Hstep as [a c cancelled expired Hc Hl|a c ticket late cancelled expired Hc|a c Hc
    |a c pending Hc|a pending|a finished|a|a|a finished].
  - by apply enter_inv.
  - by apply Hmore, wake_inv.
  - apply Hmore. apply (unlease_inv a n c); try done. simpl.
    pose proof (task_owners_nonneg (ad_reaper a)). pose proof (unlease_size a c Hc).
    destruct (q_active (ad_queue a)); simpl in *; lia.
  - apply Hmore. unfold handoff. destruct (enqueue_cleanup_task _ _) as [r mode] eqn:Hq.
    apply enqueue_owners in Hq. apply (unlease_inv a n c); try done. simpl in *. lia.
  - apply Hmore. unfold track_unleased. destruct (enqueue_cleanup_task _ _) as [r mode] eqn:Hq.
    apply enqueue_owners in Hq. apply (reaper_inv a n); try done. simpl in *. lia.
  - apply Hmore. unfold reaper_sweep. destruct (rp_thread (ad_reaper a)) as [pending|] eqn:Ht; [|done].
    destruct (sweep_all finished pending (ad_queue a)) as [pending' q'] eqn:Hs.
    apply (sweep_balance _ _ _ _ _ _ _ (Z.of_nat (size (ad_leased a))
      + carried_by (rp_channel (ad_reaper a)) + carried_by (rp_unresolved (ad_reaper a)))) in Hs
      as (Hb & Hqw & Hqt).
    + apply (reaper_inv a n); try done. unfold task_owners. simpl. lia.
    + pose proof (carried_by_nonneg (rp_channel (ad_reaper a))).
      pose proof (carried_by_nonneg (rp_unresolved (ad_reaper a))). lia.
    + unfold task_owners in Hown. rewrite Ht in Hown. simpl in Hown. lia.
  - apply Hmore. unfold reaper_recv, task_owners in *.
    destruct (rp_thread (ad_reaper a)) as [pending|] eqn:Ht; [|done].
    destruct (rp_channel (ad_reaper a)) as [|task channel] eqn:Hch.
    + destruct (rp_phase (ad_reaper a)); [done|]. apply (reaper_inv a n); try done.
      unfold task_owners. simpl in *. rewrite carried_by_app. lia.
    + apply (reaper_inv a n); try done. unfold task_owners. simpl in *.
      rewrite carried_by_app. simpl. lia.
  - by apply Hmore, (reaper_inv a n).
  - apply Hmore. unfold reap_completed_unresolved_tasks.
    destruct (sweep_all finished _ (ad_queue a)) as [left' q'] eqn:Hs.
    apply (sweep_balance _ _ _ _ _ _ _ (Z.of_nat (size (ad_leased a))
      + carried_by (rp_channel (ad_reaper a)) + carried_by (default [] (rp_thread (ad_reaper a)))))
      in Hs as (Hb & Hqw & Hqt).
    + apply (reaper_inv a n); try done. unfold task_owners. simpl. lia.
    + pose proof (carried_by_nonneg (rp_channel (ad_reaper a))).
      pose proof (carried_by_nonneg (default [] (rp_thread (ad_reaper a)))). lia.
    + unfold task_owners in Hown. lia.
Qed.

Lemma start_inv : admission_inv 0 admission_start.
Proof.
  constructor; simpl; try done. split; simpl; constructor.
Qed.

Lemma steps_inv n a a' m :
  nsteps admission_step n a a' → admission_inv m a → m + Z.of_nat n ≤ U64_MAX →
  admission_inv (m + Z.of_nat n) a'.
Proof.
  intros Hs. revert m. induction Hs as [a|n a1 a2 a3 Hstep _ IH]; intros m Ha Hm.
  - by rewrite Z.add_0_r.
  - replace (m + Z.of_nat (S n)) with (m + 1 + Z.of_nat n) by lia. apply IH; [|lia].
    apply (step_admission_inv a1); [done..|lia].
Qed.

(** States reached by fewer critical sections than there are tickets. *)
Definition admission_reachable (a : Admission) : Prop :=
  ∃ n, nsteps admission_step n admission_start a ∧ Z.of_nat n ≤ U64_MAX.

Lemma admission_reachable_inv a : admission_reachable a → ∃ n, admission_inv n a ∧ n ≤ U64_MAX.
Proof. intros (n & Hs & Hn). exists (0 + Z.of_nat n). split; [|lia]. by eapply steps_inv; [|apply start_inv|lia]. Qed.

(** ** Properties *)

(** C30: the camera has one owner at a time and is never lost: in every reachable state
    the admission is marked active exactly when one armed lease or one cleanup task in
    the reaper's hands owns it, and there is never a second owner; so a new lease is
    granted only when every earlier camera has been released or cleaned up, and when no
    owner is left the admission is free. *)
Theorem camera_single_owner a :
  admission_reachable a →
  (q_active (ad_queue a) = true ∧ owners a = 1 ∨ q_active (ad_queue a) = false ∧ owners a = 0) ∧
  (size (ad_leased a) ≤ 1)%nat ∧
  (size (ad_leased a) = 1%nat → task_owners (ad_reaper a) = 0).
Proof.
  intros (n & Ha & _)%admission_reachable_inv. pose proof (inv_owners _ _ Ha) as Hown.
  pose proof (task_owners_nonneg (ad_reaper a)).
  split; [destruct (q_active (ad_queue a)); auto|]. unfold owners, flag in Hown.
  destruct (q_active (ad_queue a)); lia.
Qed.


(** ** A concrete run *)

(** One caller is granted the camera, a second waits, the first hands its cleanup to the
    reaper, which completes it. *)
Definition demo_admission (n : nat) : Admission :=
  match n with
  | 0%nat => admission_start
  | 1%nat => acquire_enter admission_start 1%positive false false
  | 2%nat => acquire_enter (acquire_enter admission_start 1%positive false false) 2%positive false false
  | 3%nat => (handoff (acquire_enter (acquire_enter admission_start 1%positive false false)
                         2%positive false false) 1%positive 7%positive).1
  | 4%nat => reaper_recv (handoff (acquire_enter (acquire_enter admission_start 1%positive false false)
                         2%positive false false) 1%positive 7%positive).1
  | _ => reaper_sweep (reaper_recv (handoff (acquire_enter (acquire_enter admission_start
                         1%positive false false) 2%positive false false) 1%positive 7%positive).1)
           (λ _, true)
  end.

Lemma demo_admission_steps n : (n ≤ 5)%nat →
  nsteps admission_step n admission_start (demo_admission n).
Proof.
  assert (nsteps admission_step 2 admission_start (demo_admission 2)) as H2.
  { eapply nsteps_l; [apply (adm_enter admission_start 1%positive false false); vm_compute; by inversion 1 || done|].
    eapply nsteps_l; [|apply nsteps_O].
    apply (adm_enter (demo_admission 1) 2%positive false false); [done|]. vm_compute. by inversion 1. }
  assert (nsteps admission_step 3 admission_start (demo_admission 3)) as H3.
  { eapply nsteps_r; [exact H2|]. apply (adm_handoff (demo_admission 2) 1%positive 7%positive).
    vm_compute. reflexivity. }
  assert (nsteps admission_step 4 admission_start (demo_admission 4)) as H4
    by (eapply nsteps_r; [exact H3|apply (adm_recv (demo_admission 3))]).
  intros Hn. destruct n as [|[|[|[|[|[|]]]]]]; [constructor| |done|done|done| |lia].
  - eapply nsteps_l; [|apply nsteps_O].
    apply (adm_enter admission_start 1%positive false false); vm_compute; by inversion 1 || done.
  - eapply nsteps_r; [exact H4|]. apply (adm_sweep (demo_admission 4) (λ _, true)).
Qed.

Lemma demo_admission_reachable n : (n ≤ 5)%nat → admission_reachable (demo_admission n).
Proof. intros Hn. exists n. split; [by apply demo_admission_steps|unfold_max; lia]. Qed.

Lemma camera_single_owner_witness :
  owners (demo_admission 3) = 1 ∧ q_active (ad_queue (demo_admission 3)) = true ∧
  (size (ad_leased (demo_admission 3)) ≤ 1)%nat.
Proof.
  split; [reflexivity|]. split; [reflexivity|].
  apply (camera_single_owner (demo_admission 3)). apply demo_admission_reachable. lia.
Defined.

