(* ===== verification/ServerState.v ===== *)
(** * Connection quotas and the camera profile cache

    [ConnectionAccounting] and [CameraProfileCache] of
    [crates/howy-daemon/src/server.rs]: how many connections are served at once, and
    which probe of the camera's profile may publish its result. *)

From S2P Require Import Prelude PromptState PromptProofs.

(** ** Connection accounting *)

Definition MAX_CONNECTION_WORKERS : Z := 64.
Definition RESERVED_CONNECTIONS : Z := 8.
Definition MAX_CONNECTIONS_PER_UID : Z := 8.

Record ConnectionAccounting := mkAccounting { ca_total : Z; ca_by_uid : gmap Z Z }.

Definition saturating_pred (n : Z) : Z := Z.max 0 (n - 1).

(** [ConnectionAccounting::try_acquire]: [true] when a permit for [uid] is handed out. *)
Definition connection_try_acquire (a : ConnectionAccounting) (uid : Z) : ConnectionAccounting * bool :=
  let per_uid := default 0 (ca_by_uid a !! uid) in
  let unprivileged_limit := MAX_CONNECTION_WORKERS - RESERVED_CONNECTIONS in
  if (MAX_CONNECTION_WORKERS <=? ca_total a)
     || (negb (uid =? 0) && (unprivileged_limit <=? ca_total a))
     || (negb (uid =? 0) && (MAX_CONNECTIONS_PER_UID <=? per_uid))
  then (a, false)
  else (mkAccounting (ca_total a + 1) (<[uid := per_uid + 1]> (ca_by_uid a)), true).

(** [Drop for ConnectionPermit] *)
Definition drop_connection_permit (a : ConnectionAccounting) (uid : Z) : ConnectionAccounting :=
  mkAccounting (saturating_pred (ca_total a))
    (match ca_by_uid a !! uid with
     | None => ca_by_uid a
     | Some count =>
         if saturating_pred count =? 0 then delete uid (ca_by_uid a)
         else <[uid := saturating_pred count]> (ca_by_uid a)
     end).

(** The accounting with the permits held, by the uid each was granted to. *)
Inductive permit_step : ConnectionAccounting * list Z → ConnectionAccounting * list Z → Prop :=
| permit_acquire a held uid a' :
    connection_try_acquire a uid = (a', true) → permit_step (a, held) (a', uid :: held)
| permit_refuse a held uid a' :
    connection_try_acquire a uid = (a', false) → permit_step (a, held) (a', held)
| permit_drop a held uid rest :
    held ≡ₚ uid :: rest → permit_step (a, held) (drop_connection_permit a uid, rest).

Definition accounting_start : ConnectionAccounting * list Z := (mkAccounting 0 ∅, []).

(** How many of the permits are of a uid, and how many are unprivileged. *)
Fixpoint held_by (uid : Z) (held : list Z) : Z :=
  match held with
  | [] => 0
  | u :: rest => (if u =? uid then 1 else 0) + held_by uid rest
  end.
Fixpoint unprivileged (held : list Z) : Z :=
  match held with
  | [] => 0
  | u :: rest => (if u =? 0 then 0 else 1) + unprivileged rest
  end.

Lemma held_by_perm uid l1 l2 : l1 ≡ₚ l2 → held_by uid l1 = held_by uid l2.
Proof. induction 1; simpl; lia. Qed.
Lemma unprivileged_perm l1 l2 : l1 ≡ₚ l2 → unprivileged l1 = unprivileged l2.
Proof. induction 1; simpl; lia. Qed.
Lemma held_by_nonneg uid held : 0 ≤ held_by uid held.
Proof. induction held as [|u held IH]; simpl; [lia|]. destruct (u =? uid); lia. Qed.
Lemma unprivileged_le held : 0 ≤ unprivileged held ≤ len held.
Proof. unfold len. induction held as [|u held IH]; simpl; [lia|]. destruct (u =? 0); lia. Qed.

(** A counter map that counts the permits: no zero entries. *)
Definition counts (m : gmap Z Z) (held : list Z) : Prop :=
  ∀ uid, m !! uid = if 0 <? held_by uid held then Some (held_by uid held) else None.

Definition accounting_ok (s : ConnectionAccounting * list Z) : Prop :=
  let '(a, held) := s in
  ca_total a = len held ∧ counts (ca_by_uid a) held ∧ len held ≤ MAX_CONNECTION_WORKERS ∧
  unprivileged held ≤ MAX_CONNECTION_WORKERS - RESERVED_CONNECTIONS ∧
  ∀ uid, uid ≠ 0 → held_by uid held ≤ MAX_CONNECTIONS_PER_UID.

Lemma counts_default m held uid : counts m held → default 0 (m !! uid) = held_by uid held.
Proof.
  intros Hc. rewrite Hc. pose proof (held_by_nonneg uid held).
  destruct (0 <? held_by uid held) eqn:Hz; simpl; [done|]. lia.
Qed.

Lemma counts_push m held uid :
  counts m held → counts (<[uid := held_by uid held + 1]> m) (uid :: held).
Proof.
  intros Hc u. simpl. pose proof (held_by_nonneg u held). destruct (uid =? u) eqn:He.
  - apply Z.eqb_eq in He as ->. rewrite lookup_insert_eq.
    rewrite (proj2 (Z.ltb_lt 0 (1 + held_by u held))) by lia. f_equal. lia.
  - apply Z.eqb_neq in He. rewrite lookup_insert_ne by done. rewrite Hc. done.
Qed.

Lemma counts_pop m held uid :
  counts m (uid :: held) →
  counts (match m !! uid with
          | None => m
          | Some count =>
              if saturating_pred count =? 0 then delete uid m
              else <[uid := saturating_pred count]> m
          end) held.
Proof.
  intros Hc. pose proof (held_by_nonneg uid held) as Hnn.
  pose proof (Hc uid) as Hu. simpl in Hu. rewrite Z.eqb_refl in Hu.
  rewrite (proj2 (Z.ltb_lt 0 (1 + held_by uid held))) in Hu by lia. rewrite Hu.
  assert (saturating_pred (1 + held_by uid held) = held_by uid held) as ->
    by (unfold saturating_pred; lia).
  assert (∀ u, uid ≠ u → m !! u = if 0 <? held_by u held then Some (held_by u held) else None) as Hne.
  { intros u He. rewrite Hc. simpl. by rewrite (proj2 (Z.eqb_neq uid u)). }
  intros u. destruct (decide (uid = u)) as [<-|He].
  - destruct (held_by uid held =? 0) eqn:Hz.
    + rewrite lookup_delete_eq. apply Z.eqb_eq in Hz. by rewrite Hz.
    + apply Z.eqb_neq in Hz. rewrite lookup_insert_eq.
      by rewrite (proj2 (Z.ltb_lt 0 (held_by uid held))) by lia.
  - destruct (held_by uid held =? 0);
      rewrite ?lookup_delete_ne, ?lookup_insert_ne by done; auto.
Qed.

Lemma permit_step_ok s s' : permit_step s s' → accounting_ok s → accounting_ok s'.
Proof.
  intros Hstep. destruct Hstep as [a held uid a' Hop|a held uid a' Hop|a held uid rest Hp]; simpl.
  - intros (Ht & Hc & Hmax & Hun & Hper). unfold connection_try_acquire in Hop.
    rewrite (counts_default _ _ uid Hc) in Hop.
    destruct (_ || _) eqn:Hg; [done|]. injection Hop as <-. breflect.
    unfold MAX_CONNECTION_WORKERS, RESERVED_CONNECTIONS, MAX_CONNECTIONS_PER_UID in *.
    split_and!; simpl; unfold len in *; simpl; try lia.
    + by apply counts_push.
    + pose proof (unprivileged_le held). unfold len in *. destruct (uid =? 0) eqn:Hz; simpl in *; lia.
    + intros u Hu. destruct (uid =? u) eqn:Hz; [|by apply Hper].
      apply Z.eqb_eq in Hz as ->. rewrite (proj2 (Z.eqb_neq u 0)) in * by done. simpl in *. lia.
  - intros Hok. unfold connection_try_acquire in Hop. destruct (_ || _); [|done]. by injection Hop as <-.
  - intros (Ht & Hc & Hmax & Hun & Hper).
    assert (counts (ca_by_uid a) (uid :: rest)) as Hc'.
    { intros u. rewrite Hc. by rewrite (held_by_perm u _ _ Hp). }
    assert (len held = 1 + len rest) as Hlen
      by (unfold len; rewrite (Permutation_length Hp); simpl; lia).
    rewrite (unprivileged_perm _ _ Hp) in Hun. simpl in Hun. unfold len in *.
    split_and!; simpl.
    + unfold saturating_pred. lia.
    + by apply counts_pop.
    + lia.
    + destruct (uid =? 0); lia.
    + intros u Hu. specialize (Hper u Hu). rewrite (held_by_perm u _ _ Hp) in Hper. simpl in Hper.
      destruct (uid =? u); lia.
Qed.

Lemma accounting_reachable_ok s : rtc permit_step accounting_start s → accounting_ok s.
Proof.
  intros Hs. remember accounting_start as s0 eqn:Hs0.
  assert (accounting_ok s0) as Hok.
  { subst. unfold accounting_ok, accounting_start. simpl. split_and!; try done.
    all: unfold MAX_CONNECTION_WORKERS, RESERVED_CONNECTIONS, MAX_CONNECTIONS_PER_UID; lia || done. }
  clear Hs0. induction Hs; eauto using permit_step_ok.
Qed.

(** The daemon serves at most 64 connections at once, at most 56 of them
    unprivileged and at most 8 of any one unprivileged user, and its counters are exact
    whatever the order of acquisitions and releases: a connection is refused exactly when
    one of those limits is reached, so root is never refused while fewer than 64 are
    served, and a released permit can be taken again. *)
Theorem connection_quota a held uid :
  rtc permit_step accounting_start (a, held) →
  len held ≤ 64 ∧ unprivileged held ≤ 56 ∧ (∀ u, u ≠ 0 → held_by u held ≤ 8) ∧
  ca_total a = len held ∧ (∀ u, default 0 (ca_by_uid a !! u) = held_by u held) ∧
  ((connection_try_acquire a uid).2 = false ↔
     len held = 64 ∨ (uid ≠ 0 ∧ (56 ≤ len held ∨ held_by uid held = 8))).
Proof.
  intros (Ht & Hc & Hmax & Hun & Hper)%accounting_reachable_ok.
  split_and!; try done; [intros; by apply counts_default|].
  unfold connection_try_acquire. rewrite (counts_default _ _ uid Hc), Ht.
  unfold MAX_CONNECTION_WORKERS, RESERVED_CONNECTIONS, MAX_CONNECTIONS_PER_UID in *.
  specialize (Hper uid). destruct (_ || _) eqn:Hg; simpl; lia.
Qed.

Lemma connection_quota_witness :
  ca_total (connection_try_acquire (mkAccounting 0 ∅) 1000).1 = 1 ∧
  (connection_try_acquire (connection_try_acquire (mkAccounting 0 ∅) 1000).1 1000).2 = true.
Proof.
  destruct (connection_quota (connection_try_acquire (mkAccounting 0 ∅) 1000).1 [1000] 1000)
    as (_ & _ & _ & Ht & _ & Hq).
  - apply rtc_once. apply (permit_acquire (mkAccounting 0 ∅) [] 1000). reflexivity.
  - split; [exact Ht|].
    destruct (connection_try_acquire (connection_try_acquire (mkAccounting 0 ∅) 1000).1 1000).2 eqn:Hf; [reflexivity|].
    exfalso. destruct (proj1 Hq eq_refl) as [Hl|[_ [Hl|Hl]]]; vm_compute in Hl; lia || congruence.
Defined.

(** ** The camera profile cache *)

(** Durations are nanoseconds. *)
Definition CAMERA_PROFILE_RETRY_BACKOFF : Z := 100 * 1000000.

Section profile.
  Context {Profile : Type}.

Inductive CameraProfileState :=
| ProfileIdle (generation : Z)
| ProfileProbing (generation : Z)
| ProfileReady (profile : Profile) (generation : Z)
| ProfileFailed (retry_at generation : Z)
| ProfileShutdown.

Inductive ProbeClaim := ClaimReady | ClaimWait | ClaimStart (generation : Z) | ClaimShutdown.

(** [CameraProfileCache::new] *)
Definition profile_new : CameraProfileState := ProfileIdle 0.

(** [complete_probe] *)
Definition complete_probe (s : CameraProfileState) (generation : Z)
    (result : option Profile) (now : Z) : CameraProfileState :=
  match s with
  | ProfileProbing active =>
      if negb (active =? generation) then s
      else match result with
           | Some profile => ProfileReady profile generation
           | None => ProfileFailed (now + CAMERA_PROFILE_RETRY_BACKOFF) generation
           end
  | _ => s
  end.

(** [claim] *)
Definition claim (s : CameraProfileState) (now : Z) : CameraProfileState * ProbeClaim :=
  match s with
  | ProfileReady _ _ => (s, ClaimReady)
  | ProfileIdle generation => (ProfileProbing generation, ClaimStart generation)
  | ProfileProbing _ => (s, ClaimWait)
  | ProfileFailed retry_at generation =>
      if retry_at <=? now then
        match checked_add generation 1 with
        | None => (ProfileShutdown, ClaimShutdown)
        | Some generation => (ProfileProbing generation, ClaimStart generation)
        end
      else (s, ClaimWait)
  | ProfileShutdown => (s, ClaimShutdown)
  end.

(** [ready_profile], [initial_attempt_finished] *)
Definition ready_profile (s : CameraProfileState) : option (Profile * Z) :=
  match s with ProfileReady profile generation => Some (profile, generation) | _ => None end.
Definition initial_attempt_finished (s : CameraProfileState) : bool :=
  match s with ProfileReady _ _ | ProfileFailed _ _ | ProfileShutdown => true | _ => false end.

(** [invalidate_if_current], of a token's generation *)
Definition invalidate_if_current (s : CameraProfileState) (token now : Z)
    : CameraProfileState * bool :=
  match s with
  | ProfileReady _ generation =>
      if generation =? token then (ProfileFailed now generation, true) else (s, false)
  | _ => (s, false)
  end.

(** [shutdown] *)
Definition profile_shutdown (s : CameraProfileState) : CameraProfileState := ProfileShutdown.

Inductive profile_step : CameraProfileState → CameraProfileState → Prop :=
| profile_complete s generation result now :
    profile_step s (complete_probe s generation result now)
| profile_claim s now : profile_step s (claim s now).1
| profile_invalidate s token now : profile_step s (invalidate_if_current s token now).1
| profile_stop s : profile_step s (profile_shutdown s).

(** How far a state is: generation first, then idle, probing, ready, failed. *)
Definition rank (s : CameraProfileState) : option Z :=
  match s with
  | ProfileIdle g => Some (4 * g)
  | ProfileProbing g => Some (4 * g + 1)
  | ProfileReady _ g => Some (4 * g + 2)
  | ProfileFailed _ g => Some (4 * g + 3)
  | ProfileShutdown => None
  end.
Definition later (s s' : CameraProfileState) : Prop :=
  match rank s, rank s' with
  | Some r, Some r' => r < r'
  | _, None => True
  | None, Some _ => False
  end.

(** Each step changes nothing or moves forward. *)
Lemma profile_step_forward s s' : profile_step s s' → s' = s ∨ later s s'.
Proof.
  unfold later. intros Hstep.
  destruct Hstep as [s g result now|s now|s token now|s]; destruct s; simpl; auto.
  - destruct (_ =? _) eqn:He; simpl; [|auto]. breflect. subst. right. destruct result; simpl; lia.
  - right. lia.
  - destruct (_ <=? _); simpl; [|auto]. right.
    destruct (checked_add _ _) eqn:Hc; simpl; [|done]. breflect. lia.
  - destruct (_ =? _); simpl; [|auto]. right. lia.
Qed.

#[local] Instance later_transitive : Transitive later.
Proof. intros s1 s2 s3. unfold later. destruct (rank s1), (rank s2), (rank s3); try done. lia. Qed.

Lemma profile_steps_forward s s' : rtc profile_step s s' → s' = s ∨ later s s'.
Proof.
  induction 1 as [|s1 s2 s3 Hstep _ IH]; [by left|].
  apply profile_step_forward in Hstep as [->|H12]; [done|].
  destruct IH as [->|H23]; right; [done|by etrans].
Qed.

(** The camera profile moves only forward. Each generation is probed by at most one
    caller: after a claim starts one, no later claim starts it again; while it has not
    completed, its own completion is the only one that takes effect and after it no
    completion of it does; a profile handed out under a token stays the one that token
    names, and once it has been replaced or invalidated the token names nothing, so a
    stale invalidation changes nothing; shutdown is final. *)
Theorem camera_profile_forward s g now s1 s2 :
  claim s now = (s1, ClaimStart g) → rtc profile_step s1 s2 →
  (∀ now', (claim s2 now').2 ≠ ClaimStart g) ∧
  (∀ h result now', s2 = s1 → h ≠ g → complete_probe s2 h result now' = s2) ∧
  (∀ result now', s2 ≠ s1 → complete_probe s2 g result now' = s2) ∧
  (∀ p s3, s2 = ProfileReady p g → rtc profile_step s2 s3 →
     s3 = s2 ∨ (∀ p', s3 ≠ ProfileReady p' g) ∧ ∀ now', invalidate_if_current s3 g now' = (s3, false)) ∧
  (s2 = ProfileShutdown → ∀ s3, rtc profile_step s2 s3 → s3 = ProfileShutdown).
Proof.
  intros Hcl Hsteps.
  assert (s1 = ProfileProbing g) as ->.
  { unfold claim in Hcl. repeat case_match; by simplify_eq. }
  apply profile_steps_forward in Hsteps. unfold later in Hsteps. simpl in Hsteps. split_and!.
  - intros now' Hc. unfold claim in Hc. repeat case_match; simplify_eq/=; breflect;
      destruct Hsteps; simplify_eq; lia.
  - intros h result now' -> Hne. simpl. by rewrite (proj2 (Z.eqb_neq g h)).
  - intros result now' Hne. destruct Hsteps as [?|Hl]; [done|]. destruct s2; simpl in *; try done.
    rewrite (proj2 (Z.eqb_neq generation g)) by lia. done.
  - intros p s3 -> [->|Hl]%profile_steps_forward; [by left|right]. unfold later in Hl. simpl in Hl.
    split.
    + intros p' ->. simpl in Hl. lia.
    + intros now'. destruct s3; simpl in *; try done. by rewrite (proj2 (Z.eqb_neq generation g)) by lia.
  - intros -> s3 [->|Hl]%profile_steps_forward; [done|]. unfold later in Hl. simpl in Hl.
    by destruct s3.
Qed.
End profile.
#[global] Arguments CameraProfileState : clear implicits.

(** A probe completes, its profile is invalidated and probed again: the first probe's
    token and late completion are void. *)
Lemma camera_profile_forward_witness :
  let s1 : CameraProfileState nat := ProfileProbing 0 in
  let s2 := (claim (invalidate_if_current (complete_probe s1 0 (Some 7%nat) 5) 0 9).1 10).1 in
  s2 = ProfileProbing 1 ∧ complete_probe s2 0 (Some 8%nat) 11 = s2.
Proof.
  cbv zeta. split; [reflexivity|].
  destruct (camera_profile_forward (profile_new (Profile:=nat)) 0 3 (ProfileProbing 0)
    (claim (invalidate_if_current (complete_probe (ProfileProbing 0) 0 (Some 7%nat) 5) 0 9).1 10).1)
    as (_ & _ & Hlate & _).
  - reflexivity.
  - eapply rtc_l; [apply (profile_complete _ 0 (Some 7%nat) 5)|].
    eapply rtc_l; [apply (profile_invalidate _ 0 9)|]. apply rtc_once. apply profile_claim.
  - apply Hlate. discriminate.
Defined.
