(* ===== verification/Dispatch.v ===== *)
(** * Request dispatch and the storage handlers

    What the daemon does with the first request of a connection
    ([crates/howy-daemon/src/server.rs], [handle_connection] and the handlers that talk
    to storage): the prompt protocol gate, authorization, the choice of the handler, and
    the answers of the handlers that need no camera. A [panic!], [expect] or
    [unreachable!] of the code is a value here, so that its absence is a theorem. *)

From S2P Require Import Prelude Bytes Storage Crypto Namespace Legacy Contracts Authorization Config Paths PromptState Protocol Status.

(** ** Naming the operation *)

(** [current_operation] *)
Definition current_operation (request : Request) : Operation :=
  match req_cmd request with
  | Some (CmdAuthenticate username _) => Authenticate username
  | Some (CmdAuthenticateV1 r) => Authenticate (av_username r)
  | Some (CmdBeginAuthV1 b) => BeginAuth (bg_username b)
  | Some (CmdCommitAuthV1 _) => CommitAuth
  | Some (CmdCancelAuthV1 _) => CancelAuth
  | Some (CmdEnroll username _) | Some (CmdEnrollV1 username _) => Enroll username
  | Some (CmdEnrollBatch username _ _) | Some (CmdEnrollBatchV1 username _ _) =>
      EnrollBatch username
  | Some (CmdEnrollmentPresence username) => EnrollmentPresence username
  | Some (CmdListEnrollments username) => ListEnrollments username
  | Some (CmdRemoveEnrollment username _ _) => RemoveEnrollment username
  | Some (CmdClearEnrollments username _) => ClearEnrollments username
  | Some CmdReloadStorage => Reload
  | Some CmdSecurityInfo => SecurityInfo
  | Some (CmdDetect _ _ _) => Detect
  | Some CmdPing => Ping
  | Some CmdInfo => PublicInfo
  | Some CmdShutdown => Shutdown
  | Some (CmdCheckCredential username) => CheckCredential username
  | Some (CmdRevokeCredential username _) => RevokeCredential username
  | None => UnknownOp
  end.

(** ** The prompt protocol gate *)

(** [initial_prompt_protocol_response] *)
Definition initial_prompt_protocol_response (request : Request) (confirmation_required : bool)
    : option Response :=
  match req_cmd request with
  | Some (CmdAuthenticate _ _) =>
      if confirmation_required then Some (Response_prompt_error PromptIncompatible) else None
  | Some (CmdAuthenticateV1 r) =>
      match auth_v1_validate r with
      | Err error => Some (Response_prompt_error (prompt_error_of error))
      | Ok _ => if confirmation_required then Some (Response_prompt_error PromptIncompatible) else None
      end
  | Some (CmdBeginAuthV1 b) =>
      match begin_validate b with
      | Err error => Some (Response_prompt_error (prompt_error_of error))
      | Ok _ => if confirmation_required then None else Some (Response_prompt_error PromptIncompatible)
      end
  | Some (CmdCommitAuthV1 c) =>
      Some (Response_prompt_error
              (match commit_validate c with Ok _ => PromptViolation | Err e => prompt_error_of e end))
  | Some (CmdCancelAuthV1 c) =>
      Some (Response_prompt_error
              (match cancel_validate c with Ok _ => PromptViolation | Err e => prompt_error_of e end))
  | _ => None
  end.

(** ** Choosing the handler *)

(** The handler that is run, with its arguments; a username is always the authorized
    canonical one, never the request's. *)
Inductive Served :=
| ServeAuthenticate (username : bytes) (timeout : Z)
| ServeEnroll (username label : bytes)
| ServeEnrollBatch (username session_dir label : bytes)
| ServeDetect (frame : bytes) (height width : Z)
| ServePing
| ServeInfo
| ServePresence (username : bytes)
| ServeList (username : bytes)
| ServeRemove (username enrollment_id : bytes) (expected_generation : Z)
| ServeClear (username : bytes) (expected_generation : Z)
| ServeReload
| ServeSecurityInfo
| ServeShutdown
| ServeCheckCredential (username : bytes)
| ServeRevokeCredential (username session_id : bytes).

Inductive Dispatched :=
| Respond (response : Response)
| Coordinate (begin : BeginAuthV1Req)
| Serve (served : Served)
| DispatchPanic.

(** [dispatch_authenticate_v1_with] *)
Definition dispatch_authenticate_v1_with (request : AuthenticateV1Req)
    (confirmation_required : bool) (authenticate : AuthenticateV1Req → Dispatched) : Dispatched :=
  match auth_v1_validate request with
  | Err error => Respond (Response_prompt_error (prompt_error_of error))
  | Ok _ =>
      if confirmation_required then Respond (Response_prompt_error PromptIncompatible)
      else authenticate request
  end.

(** [dispatch_authorized_enrollment] *)
Definition dispatch_authorized_enrollment (command : option Cmd) (authorized_username : bytes)
    (live : bytes → bytes → Dispatched) (batch : bytes → bytes → bytes → Dispatched)
    : option Dispatched :=
  match command with
  | Some (CmdEnroll _ _) | Some (CmdEnrollBatch _ _ _) =>
      Some (Respond (Response_error_code ENROLLMENT_PROTOCOL_ERROR
                       (bs "enrollment requires a compatible daemon-owned storage operation")))
  | Some (CmdEnrollV1 _ label) => Some (live authorized_username label)
  | Some (CmdEnrollBatchV1 _ session_dir label) =>
      Some (batch authorized_username session_dir label)
  | _ => None
  end.

Definition is_enrollment (c : option Cmd) : bool :=
  match c with
  | Some (CmdEnroll _ _) | Some (CmdEnrollV1 _ _) | Some (CmdEnrollBatch _ _ _)
  | Some (CmdEnrollBatchV1 _ _ _) => true
  | _ => false
  end.

Definition confirms (config : HowyConfig) : bool := bool_decide (presence_mode (presence config) = Confirm).

(** [authorized_username] and the [expect]s on the canonical target. *)
Definition with_target (target : option CanonicalIdentity) (k : bytes → Dispatched) : Dispatched :=
  match target with Some t => k (identity_username t) | None => DispatchPanic end.

(** The closure run under an authorization. *)
Definition dispatch_authorized (config : HowyConfig) (request : Request)
    (target : option CanonicalIdentity) : Dispatched :=
  if is_enrollment (req_cmd request) then
    with_target target (λ username,
      default DispatchPanic
        (dispatch_authorized_enrollment (req_cmd request) username
           (λ u label, Serve (ServeEnroll u label))
           (λ u dir label, Serve (ServeEnrollBatch u dir label))))
  else
    match req_cmd request with
    | Some (CmdAuthenticate _ timeout) =>
        with_target target (λ username, Serve (ServeAuthenticate username timeout))
    | Some (CmdAuthenticateV1 r) =>
        with_target target (λ username,
          dispatch_authenticate_v1_with r (confirms config)
            (λ r, Serve (ServeAuthenticate username (av_timeout r))))
    | Some (CmdDetect frame height width) => Serve (ServeDetect frame height width)
    | Some CmdPing => Serve ServePing
    | Some CmdInfo => Serve ServeInfo
    | Some (CmdEnrollmentPresence _) => with_target target (λ u, Serve (ServePresence u))
    | Some (CmdListEnrollments _) => with_target target (λ u, Serve (ServeList u))
    | Some (CmdRemoveEnrollment _ id expected) =>
        with_target target (λ u, Serve (ServeRemove u id expected))
    | Some (CmdClearEnrollments _ expected) => with_target target (λ u, Serve (ServeClear u expected))
    | Some CmdReloadStorage => Serve ServeReload
    | Some CmdSecurityInfo => Serve ServeSecurityInfo
    | Some CmdShutdown => Serve ServeShutdown
    | Some (CmdCheckCredential _) => with_target target (λ u, Serve (ServeCheckCredential u))
    | Some (CmdRevokeCredential _ session) =>
        with_target target (λ u, Serve (ServeRevokeCredential u session))
    | _ => DispatchPanic
    end.

Definition permission_denied : Dispatched := Respond (Response_error (bs "permission denied")).

Definition is_authenticate_v1 (c : option Cmd) : bool :=
  match c with Some (CmdAuthenticateV1 _) => true | _ => false end.

(** General dispatch: authorization, then the handler; [peer] is the peer's uid when the
    kernel reported one. *)
Definition dispatch_general `{IdentityResolver} (config : HowyConfig) (peer : option Z)
    (request : Request) : Dispatched :=
  match peer with
  | None => permission_denied
  | Some peer_uid =>
      match authorize_and_then (current_operation request)
              (mkContext peer_uid
                 (confirms config && negb (is_authenticate_v1 (req_cmd request)))
                 PhaseInitial)
              (dispatch_authorized config request) with
      | Ok d => d
      | Err _ => permission_denied
      end
  end.

(** [handle_connection] from the received request to the handler. *)
Definition dispatch_request `{IdentityResolver} (config : HowyConfig) (peer : option Z)
    (request : Request) : Dispatched :=
  match initial_prompt_protocol_response request (confirms config) with
  | Some response => Respond response
  | None =>
      match req_cmd request with
      | Some (CmdBeginAuthV1 begin) => Coordinate begin
      | _ => dispatch_general config peer request
      end
  end.

(** ** Properties of dispatch *)

(** The user a handler acts on. *)
Definition served_username (s : Served) : option bytes :=
  match s with
  | ServeAuthenticate u _ | ServeEnroll u _ | ServeEnrollBatch u _ _ | ServePresence u | ServeList u
  | ServeRemove u _ _ | ServeClear u _ | ServeCheckCredential u | ServeRevokeCredential u _ => Some u
  | _ => None
  end.
(** The handlers reserved to root. *)
Definition administrative (s : Served) : bool :=
  match s with
  | ServeEnroll _ _ | ServeEnrollBatch _ _ _ | ServeDetect _ _ _ | ServeList _ | ServeRemove _ _ _
  | ServeClear _ _ | ServeReload | ServeSecurityInfo | ServeShutdown => true
  | _ => false
  end.
Definition authenticates (s : Served) : bool :=
  match s with ServeAuthenticate _ _ => true | _ => false end.

Section dispatch.
  Context `{IdentityResolver}.

(** Under an authorization every request reaches a handler or is answered. *)
Lemma dispatch_authorized_cases config request ctx target :
  permitted ctx (current_operation request) target →
  (∀ b, req_cmd request ≠ Some (CmdBeginAuthV1 b)) →
  (∀ c, req_cmd request ≠ Some (CmdCommitAuthV1 c)) →
  (∀ c, req_cmd request ≠ Some (CmdCancelAuthV1 c)) →
  (∃ response, dispatch_authorized config request target = Respond response) ∨
  ∃ s, dispatch_authorized config request target = Serve s ∧
    served_username s = identity_username <$> target ∧
    (administrative s = true → peer_uid ctx = 0) ∧
    (∀ t, target = Some t → acts_for (peer_uid ctx) t) ∧
    (authenticates s = true →
       (∃ u t, req_cmd request = Some (CmdAuthenticate u t) ∧ confirmation_required ctx = false) ∨
       confirms config = false).
Proof.
  intros Hperm Hb Hc Hx. unfold dispatch_authorized, current_operation in *.
  destruct (req_cmd request) as [[]|]; simpl in *;
    try (by exfalso; eapply Hb); try (by exfalso; eapply Hc); try (by exfalso; eapply Hx);
    inversion Hperm; subst; destruct_or?; simplify_eq/=; try (by left; eexists);
    try (unfold dispatch_authenticate_v1_with; destruct (auth_v1_validate _); [|by left; eexists];
         destruct (confirms config); [by left; eexists|]);
    right; eexists; (split; [reflexivity|]); unfold acts_for; naive_solver.
Qed.

(** What a handler needs to run. *)
Definition served_as_permitted (config : HowyConfig) (peer : option Z) (request : Request)
    (s : Served) : Prop :=
  ∃ uid target, peer = Some uid ∧
    permitted (mkContext uid (confirms config && negb (is_authenticate_v1 (req_cmd request)))
                 PhaseInitial) (current_operation request) target ∧
    served_username s = identity_username <$> target ∧
    (administrative s = true → uid = 0) ∧
    (∀ t, target = Some t → acts_for uid t) ∧
    (authenticates s = true → presence_mode (presence config) ≠ Confirm).

Lemma confirms_false config : confirms config = false → presence_mode (presence config) ≠ Confirm.
Proof. unfold confirms. by case_bool_decide. Qed.

Lemma dispatch_general_cases config peer request :
  (∀ b, req_cmd request ≠ Some (CmdBeginAuthV1 b)) →
  (∀ c, req_cmd request ≠ Some (CmdCommitAuthV1 c)) →
  (∀ c, req_cmd request ≠ Some (CmdCancelAuthV1 c)) →
  match dispatch_general config peer request with
  | DispatchPanic | Coordinate _ => False
  | Respond _ => True
  | Serve s => served_as_permitted config peer request s
  end.
Proof.
  intros Hb Hc Hx. unfold dispatch_general, authorize_and_then. destruct peer as [uid|]; [|done].
  destruct (authorize _ _) as [target|] eqn:Ha; [|done]. apply authorize_permitted in Ha.
  destruct (dispatch_authorized_cases config request _ target Ha Hb Hc Hx)
    as [[r ->]|(s & -> & Hu & Had & Hac & Hau)]; [done|].
  exists uid, target. split_and!; try done. intros Hauth. apply confirms_false.
  destruct (Hau Hauth) as [(u & t & Hreq & Hconf)|Hconf]; [|done].
  simpl in Hconf. rewrite Hreq in Hconf. simpl in Hconf. by rewrite andb_true_r in Hconf.
Qed.

End dispatch.
