(* ===== verification/Handlers.v ===== *)
(** * Handlers over storage

    The handlers of [crates/howy-daemon/src/server.rs] that answer from the storage
    backend: presence, listing, removal, clearing, reload, public and root status. The
    backend is the interface [StorageBackend] of [howy-common/src/storage/contracts.rs];
    a mutation threads its state. [None] is a panic of the handler. *)

From S2P Require Import Prelude Bytes Storage Crypto Namespace Legacy Contracts Authorization Config Paths PromptState Protocol Status.

Record RemoveResult := mkRemoveResult { rr_generation : Z; rr_enrollment_id : EnrollmentId }.
Record ClearResult := mkClearResult { cr_generation : Z; cr_removed : Z }.
Record OuterRecordStatus := mkRecordStatus {
  os_username : CanonicalUsername; os_classification : OuterRecordClassification }.
Record ReloadResult := mkReload { re_health : BackendHealth; re_records : list OuterRecordStatus }.

(** What the handlers use of the trait [StorageBackend]. *)
Class StorageBackend (Store : Type) := {
  sb_candidate_presence : Store → CanonicalUsername → bresult CandidatePresence;
  sb_list_metadata : Store → CanonicalUsername → bresult MetadataList;
  sb_remove : Store → RemoveRequest → Store * bresult RemoveResult;
  sb_clear : Store → ClearRequest → Store * bresult ClearResult;
  sb_reload : Store → Store * bresult ReloadResult;
  sb_health : Store → BackendHealth }.

(** [storage_error_response] *)
Definition storage_error_response (error : StorageBackendError) : Response :=
  match error with
  | BackendAbsent => Response_error_code STORAGE_ABSENT_ERROR (bs "no enrollments found")
  | Conflict _ =>
      Response_error_code STORAGE_CONFLICT_ERROR (bs "enrollment data changed; relist and retry")
  | Corrupt | BackendAuthenticationFailed =>
      Response_error_code STORAGE_CORRUPT_ERROR (bs "enrollment storage is corrupt")
  | BackendModelMismatch =>
      Response_error_code STORAGE_MODEL_MISMATCH_ERROR
        (bs "enrollments were created for a different recognizer model")
  | InvalidInput _ =>
      Response_error_code STORAGE_INVALID_REQUEST_ERROR (bs "invalid storage request")
  | ModeMismatch | BackendKeyMismatch | BackendGenerationOverflow | Unavailable
  | MemoryBudgetExceeded _ _ | Io _ =>
      Response_error_code STORAGE_UNAVAILABLE_ERROR (bs "enrollment storage is unavailable")
  end.

(** [metadata_response] *)
Definition metadata_response (l : MetadataList) : Response :=
  mkResponse (Some (RespListEnrollments (list_generation l)
    ((λ e, mkMetadataEntry (id_bytes (meta_enrollment_id e)) (meta_label e)
             (meta_created_unix_seconds e)) <$> list_entries l))).

Section handlers.
  Context {Store : Type} `{StorageBackend Store}.
  Implicit Types (s : Store) (username : bytes).

(** The [expect] on the authorized name. *)
Definition canonical (username : bytes) : option CanonicalUsername :=
  match CanonicalUsername_new username with Ok u => Some u | Err _ => None end.

(** [handle_enrollment_presence] *)
Definition handle_enrollment_presence s username : option Response :=
  user ← canonical username;
  Some match sb_candidate_presence s user with
       | Ok NoCandidate => mkResponse (Some (RespEnrollmentPresence false))
       | Ok (Candidate _) => mkResponse (Some (RespEnrollmentPresence true))
       | Err _ =>
           Response_error_code STORAGE_UNAVAILABLE_ERROR (bs "enrollment presence is unavailable")
       end.

(** [handle_list_enrollments] *)
Definition handle_list_enrollments s username : option Response :=
  user ← canonical username;
  Some match sb_list_metadata s user with
       | Ok l => metadata_response l
       | Err BackendAbsent => mkResponse (Some (RespListEnrollments ABSENT_GENERATION []))
       | Err error => storage_error_response error
       end.

(** [current_storage_state] *)
Definition current_storage_state s (user : CanonicalUsername) : result Response (Z * Z) :=
  match sb_list_metadata s user with
  | Ok l => Ok (list_generation l, len (list_entries l))
  | Err BackendAbsent => Ok (ABSENT_GENERATION, 0)
  | Err error => Err (storage_error_response error)
  end.

(** [handle_remove_enrollment] *)
Definition handle_remove_enrollment s username (enrollment_id : bytes) (expected_generation : Z)
    : Store * option Response :=
  if (expected_generation =? ABSENT_GENERATION) || negb (len enrollment_id =? 16)
  then (s, Some (storage_error_response (InvalidInput "remove request")))
  else
    match EnrollmentId_new enrollment_id with
    | Err _ => (s, Some (storage_error_response (InvalidInput "enrollment ID")))
    | Ok id =>
        match canonical username with
        | None => (s, None)
        | Some user =>
            match RemoveRequest_new user expected_generation id with
            | Err _ => (s, None)
            | Ok request =>
                match sb_remove s request with
                | (s, Ok r) =>
                    (s, Some (mkResponse (Some (RespRemoveEnrollment (rr_generation r)
                                                  (id_bytes (rr_enrollment_id r))))))
                | (s, Err error) => (s, Some (storage_error_response error))
                end
            end
        end
    end.

(** [handle_clear_enrollments] *)
Definition handle_clear_enrollments s username (expected_generation : Z) : Store * option Response :=
  if expected_generation =? ABSENT_GENERATION
  then (s, Some (storage_error_response (InvalidInput "clear generation")))
  else
    match canonical username with
    | None => (s, None)
    | Some user =>
        match ClearRequest_new user expected_generation with
        | Err _ => (s, None)
        | Ok request =>
            match sb_clear s request with
            | (s, Err error) => (s, Some (storage_error_response error))
            | (s, Ok r) =>
                (s, Some match try_from_u U32_MAX (cr_removed r) with
                         | Some removed =>
                             mkResponse (Some (RespClearEnrollments (cr_generation r) removed))
                         | None => storage_error_response (InvalidInput "count")
                         end)
            end
        end
    end.

(** The counters of [handle_reload_storage], [u32::saturating_add] *)
Definition saturating_succ_u32 (n : Z) : Z := Z.min (n + 1) U32_MAX.
Definition count_record (c : ReloadStorageResult) (r : OuterRecordStatus) : ReloadStorageResult :=
  let '(mkReloadResult ready candidate mode key model corrupt) := c in
  match os_classification r with
  | OuterCandidate _ => mkReloadResult ready (saturating_succ_u32 candidate) mode key model corrupt
  | OuterModeMismatch => mkReloadResult ready candidate (saturating_succ_u32 mode) key model corrupt
  | OuterKeyMismatch => mkReloadResult ready candidate mode (saturating_succ_u32 key) model corrupt
  | OuterModelMismatch => mkReloadResult ready candidate mode key (saturating_succ_u32 model) corrupt
  | OuterCorrupt => mkReloadResult ready candidate mode key model (saturating_succ_u32 corrupt)
  end.
Definition handle_reload_storage s : Store * Response :=
  match sb_reload s with
  | (s, Ok r) =>
      (s, mkResponse (Some (RespReloadStorage
            (foldl count_record
               (mkReloadResult (bool_decide (re_health r = Ready)) 0 0 0 0 0) (re_records r)))))
  | (s, Err error) => (s, storage_error_response error)
  end.

(** ** Status *)

Definition FACE_EMBEDDING_DIM : Z := 512.

(** [active_storage_ready] and the [Info] arm of the dispatcher. *)
Definition active_storage_ready s : bool := bool_decide (sb_health s = Ready).
Definition handle_info s (config : HowyConfig) (provider : bytes) (uptime : Z) : Response :=
  Response_daemon_info provider FACE_EMBEDDING_DIM uptime
    (security_mode_u8 (embedding_mode (security config)))
    (bool_decide (presence_mode (presence config) = Confirm)) (active_storage_ready s).

Record DaemonRuntimeIdentity := mkRuntimeIdentity {
  ri_config_sha256 : bytes;
  ri_credential_name : option bytes;
  ri_configured_credential_source : option bytes;
  ri_invocation_id : bytes;
  ri_daemon_version : bytes;
  ri_build_identity : bytes;
  ri_binary_absolute_path : bytes;
  ri_binary_sha256 : bytes }.

(** The report [handle_security_info] assembles. *)
Definition security_report s (config : HowyConfig) (detector recognizer : bytes)
    (identity : DaemonRuntimeIdentity) : SecurityInfoResult :=
  let active_mode := security_mode_u8 (embedding_mode (security config)) in
  let health := sb_health s in
  let ready := bool_decide (health = Ready) in
  let poisoned := bool_decide (embedding_mode (security config) = AeadCached)
                  && bool_decide (health = HealthUnavailable Integrity) in
  mkSecurityInfo detector recognizer active_mode (cfg_key_epoch (security config)) ready
    (bool_decide (presence_mode (presence config) = Confirm))
    ((λ n, mkNamespaceDiagnostic (namespace_identifier n) (namespace_directory n)
             (namespace_identifier n =? active_mode)
             (match n with NsPlaintext | NsAeadCached => true | NsAeadEphemeral => false end))
       <$> [NsPlaintext; NsAeadCached; NsAeadEphemeral])
    (ri_config_sha256 identity) (default [] (ri_credential_name identity))
    (default [] (ri_configured_credential_source identity))
    (backend_i32 (if ready then BackendReady else BackendIsUnavailable))
    (readiness_i32 (if ready then ReadinessReady else ReadinessUnavailable))
    (poison_i32 (if poisoned then Poisoned else NotPoisoned))
    (ri_invocation_id identity) (ri_daemon_version identity) (ri_build_identity identity)
    (ri_binary_absolute_path identity) (ri_binary_sha256 identity).

(** [handle_security_info] *)
Definition handle_security_info s (config : HowyConfig) (detector recognizer : bytes)
    (identity : DaemonRuntimeIdentity) : Response :=
  let report := security_report s config detector recognizer identity in
  if is_ok (security_info_validate_strict report)
  then mkResponse (Some (RespSecurityInfo report))
  else Response_error (bs "security status unavailable").

(** [new_enrollment_id] *)
Fixpoint new_enrollment_id_loop {R} `{RandomSource R} (attempts : nat) (random : R)
    (existing : gset EnrollmentId) : R * result Response EnrollmentId :=
  match attempts with
  | O => (random, Err (storage_error_response Unavailable))
  | S attempts =>
      match generate_enrollment_id random existing with
      | (random, Ok id) => (random, Ok id)
      | (random, Err _) => new_enrollment_id_loop attempts random existing
      end
  end.
Definition new_enrollment_id {R} `{RandomSource R} (random : R) (existing : gset EnrollmentId)
    : R * result Response EnrollmentId := new_enrollment_id_loop 16 random existing.

(** ** Properties *)

(** How many records of a reload fall in a class. *)
Definition class_count (p : OuterRecordClassification → bool) (rs : list OuterRecordStatus) : Z :=
  Z.of_nat (length (base.filter (λ r, p (os_classification r) = true) rs)).

Lemma class_count_cons p r rs :
  class_count p (r :: rs) = (if p (os_classification r) then 1 else 0) + class_count p rs.
Proof.
  unfold class_count. rewrite filter_cons.
  destruct (decide _) as [Hd|Hd]; destruct (p (os_classification r)); simpl in *; lia || done.
Qed.

Definition is_candidate c := match c with OuterCandidate _ => true | _ => false end.
Definition is_mode_mismatch c := match c with OuterModeMismatch => true | _ => false end.
Definition is_key_mismatch c := match c with OuterKeyMismatch => true | _ => false end.
Definition is_model_mismatch c := match c with OuterModelMismatch => true | _ => false end.
Definition is_corrupt c := match c with OuterCorrupt => true | _ => false end.

Lemma foldl_count_record rs c :
  0 ≤ rl_candidate c → 0 ≤ rl_mode_mismatch c → 0 ≤ rl_key_mismatch c → 0 ≤ rl_model_mismatch c →
  0 ≤ rl_corrupt c →
  rl_candidate c + rl_mode_mismatch c + rl_key_mismatch c + rl_model_mismatch c + rl_corrupt c
    + len rs ≤ U32_MAX →
  foldl count_record c rs =
  mkReloadResult (rl_storage_ready c) (rl_candidate c + class_count is_candidate rs)
    (rl_mode_mismatch c + class_count is_mode_mismatch rs)
    (rl_key_mismatch c + class_count is_key_mismatch rs)
    (rl_model_mismatch c + class_count is_model_mismatch rs)
    (rl_corrupt c + class_count is_corrupt rs).
Proof.
  revert c. induction rs as [|r rs IH]; intros [ready ca mo ke md co]; simpl; intros ????? Hmax.
  { unfold class_count. simpl. by rewrite !Z.add_0_r. }
  rewrite !class_count_cons. autorewrite with howy_len in Hmax. pose proof (len_nonneg rs).
  destruct (os_classification r); simpl; unfold saturating_succ_u32;
    rewrite Z.min_l by lia; rewrite IH by (simpl; lia); simpl; f_equal; lia.
Qed.

(** The storage handlers never panic on an authorized name, refuse what is malformed
    without touching storage, and report faithfully: a removal or clearing with the
    absent generation, or an identifier that is not 16 bytes or is zero, is answered
    "invalid request" with the storage unchanged; every other one passes exactly the
    user, generation and identifier of the request to the backend once. A reload of fewer
    than 2^32 records counts each class exactly. *)
Theorem storage_handlers_faithful s username id expected :
  is_canonical_username username = true →
  let user := mkUsername username in
  let invalid what := Some (storage_error_response (InvalidInput what)) in
  handle_enrollment_presence s username ≠ None ∧ handle_list_enrollments s username ≠ None ∧
  (let '(s', r) := handle_remove_enrollment s username id expected in
   r ≠ None ∧
   (expected = ABSENT_GENERATION ∨ len id ≠ 16 → s' = s ∧ r = invalid "remove request"%string) ∧
   (expected ≠ ABSENT_GENERATION → len id = 16 → id = zero_bytes 16 →
      s' = s ∧ r = invalid "enrollment ID"%string) ∧
   (expected ≠ ABSENT_GENERATION → len id = 16 → id ≠ zero_bytes 16 →
      s' = (sb_remove s (mkRemove user expected (mkEnrollmentId id))).1)) ∧
  (let '(s', r) := handle_clear_enrollments s username expected in
   r ≠ None ∧
   (expected = ABSENT_GENERATION → s' = s ∧ r = invalid "clear generation"%string) ∧
   (expected ≠ ABSENT_GENERATION → s' = (sb_clear s (mkClear user expected)).1)) ∧
  (∀ s' rl, sb_reload s = (s', Ok rl) → len (re_records rl) ≤ U32_MAX →
     handle_reload_storage s
     = (s', mkResponse (Some (RespReloadStorage (mkReloadResult (bool_decide (re_health rl = Ready))
           (class_count is_candidate (re_records rl)) (class_count is_mode_mismatch (re_records rl))
           (class_count is_key_mismatch (re_records rl))
           (class_count is_model_mismatch (re_records rl))
           (class_count is_corrupt (re_records rl))))))).
Proof.
  intros Hname. cbv zeta.
  assert (canonical username = Some (mkUsername username)) as Hcan
    by (unfold canonical, CanonicalUsername_new; by rewrite Hname).
  split_and!.
  - unfold handle_enrollment_presence. by rewrite Hcan.
  - unfold handle_list_enrollments. by rewrite Hcan.
  - unfold handle_remove_enrollment, EnrollmentId_new, RemoveRequest_new. rewrite Hcan.
    destruct (Z.eqb_spec expected ABSENT_GENERATION) as [->|Hne]; simpl; [by split_and!; naive_solver|].
    destruct (Z.eqb_spec (len id) 16) as [Hl|Hl]; simpl; [|by split_and!; naive_solver].
    case_bool_decide as Hz; [by split_and!; naive_solver|].
    destruct (sb_remove s _) as [s' []]; split_and!; naive_solver.
  - unfold handle_clear_enrollments, ClearRequest_new. rewrite Hcan.
    destruct (Z.eqb_spec expected ABSENT_GENERATION) as [->|Hne]; simpl; [by split_and!; naive_solver|].
    destruct (sb_clear s _) as [s' []]; split_and!; naive_solver.
  - intros s' rl Hr Hlen. unfold handle_reload_storage. rewrite Hr.
    by rewrite foldl_count_record by (simpl; lia).
Qed.

(** The daemon sends its root status exactly when it is consistent, and then it is
    the truth: the report is sent if and only if the identity fields are well formed and
    either the mode is plaintext and no credential is named, or the mode is 1 with key
    epoch 1, the production credential and its source; a report that is sent passes the
    clients' strict validation, says ready exactly when the backend is, and poisoned
    exactly when a mode-1 backend failed an integrity check. *)
Theorem security_report_sent_iff s config detector recognizer identity :
  let report := security_report s config detector recognizer identity in
  let mode := embedding_mode (security config) in
  (handle_security_info s config detector recognizer identity
     = mkResponse (Some (RespSecurityInfo report)) ↔
   security_fields_valid report = true ∧
   (mode = Plaintext ∧ default [] (ri_credential_name identity) = [] ∧
      default [] (ri_configured_credential_source identity) = [] ∨
    mode = AeadCached ∧ cfg_key_epoch (security config) = 1 ∧
      default [] (ri_credential_name identity) = MODE1_CREDENTIAL_NAME ∧
      default [] (ri_configured_credential_source identity) = MODE1_CREDENTIAL_PATH)) ∧
  ∀ v, security_info_validate_strict report = Ok v →
    (vs_readiness v = ReadinessReady ↔ sb_health s = Ready) ∧
    (vs_poison v = Poisoned ↔ mode = AeadCached ∧ sb_health s = HealthUnavailable Integrity).
Proof.
  cbv zeta. set (report := security_report s config detector recognizer identity).
  assert (handle_security_info s config detector recognizer identity
     = mkResponse (Some (RespSecurityInfo report)) ↔ ∃ v, security_info_ok report v) as ->.
  { unfold handle_security_info. fold report.
    destruct (security_info_validate_strict report) as [v|e] eqn:Hv; simpl.
    - apply security_info_sound in Hv. split; eauto.
    - split; [done|]. intros [v Hok%security_info_complete]. congruence. }
  assert (∀ v, security_info_ok report v →
    (vs_readiness v = ReadinessReady ↔ sb_health s = Ready) ∧
    (vs_poison v = Poisoned ↔ embedding_mode (security config) = AeadCached ∧
       sb_health s = HealthUnavailable Integrity)) as Htruth.
  { intros v [(_ & Hr & Hp) _ _ _ _]. simpl in Hr, Hp. split.
    - clear Hp. case_bool_decide; destruct (vs_readiness v); naive_solver.
    - clear Hr. do 2 case_bool_decide; destruct (vs_poison v); naive_solver. }
  split; [|intros v Hv%security_info_sound; by apply Htruth]. split.
  - intros [v [_ _ Hf Hm _]]. split; [done|]. simpl in Hm.
    destruct (embedding_mode (security config)); simpl in Hm; naive_solver.
  - intros [Hf Hm].
    set (ready := bool_decide (sb_health s = Ready)).
    set (poisoned := bool_decide (embedding_mode (security config) = AeadCached)
      && bool_decide (sb_health s = HealthUnavailable Integrity)).
    exists (mkValidatedStates (if ready then BackendReady else BackendIsUnavailable)
      (if ready then ReadinessReady else ReadinessUnavailable)
      (if poisoned then Poisoned else NotPoisoned)).
    assert (poisoned = true → ready = false ∧ embedding_mode (security config) = AeadCached) as Hpo.
    { unfold poisoned, ready. intros Hp. breflect. split; [|done].
      apply bool_decide_eq_false. congruence. }
    constructor; simpl; try done.
    + unfold states_agree. simpl. fold ready. by destruct ready.
    + fold ready. destruct Hm as [(Hm & Hn & Hs)|(Hm & He & Hn & Hs)]; [left|right];
        rewrite Hm in *; split_and!; try done; destruct poisoned; naive_solver.
Qed.
End handlers.

(** ** A concrete store *)

Module HandlersDemo.
(** One user with one enrollment, at a generation; 0 is absent. *)
Definition entry_id : EnrollmentId := mkEnrollmentId (le_split 16 5).
#[local] Instance one_entry_store : StorageBackend Z := {|
  sb_candidate_presence g _ := Ok (if g =? 0 then NoCandidate else Candidate g);
  sb_list_metadata g _ :=
    if g =? 0 then Err BackendAbsent else Ok (mkMetadataList g [mkMetadata entry_id (bs "x") 9 g]);
  sb_remove g r :=
    if negb (rm_expected_generation r =? g) then (g, Err (Conflict g))
    else (0, Ok (mkRemoveResult (g + 1) (rm_enrollment_id r)));
  sb_clear g r :=
    if negb (cl_expected_generation r =? g) then (g, Err (Conflict g)) else (0, Ok (mkClearResult 0 1));
  sb_reload g := (g, Ok (mkReload Ready [mkRecordStatus (mkUsername (bs "alice")) (OuterCandidate g)]));
  sb_health _ := Ready |}.

Lemma storage_handlers_faithful_witness :
  (handle_remove_enrollment 3 (bs "alice") (le_split 16 5) 3).1 = 0 ∧
  handle_remove_enrollment 3 (bs "alice") (le_split 16 5) 0
    = (3, Some (storage_error_response (InvalidInput "remove request"))).
Proof.
  destruct (storage_handlers_faithful 3 (bs "alice") (le_split 16 5) 3) as (_ & _ & Hr & _).
  { vm_compute. reflexivity. }
  destruct (storage_handlers_faithful 3 (bs "alice") (le_split 16 5) 0) as (_ & _ & Hz & _).
  { vm_compute. reflexivity. }
  split.
  - destruct (handle_remove_enrollment 3 (bs "alice") (le_split 16 5) 3) as [s' r].
    destruct Hr as (_ & _ & _ & Hr). simpl. rewrite Hr; [reflexivity|vm_compute; discriminate|reflexivity|].
    vm_compute. discriminate.
  - destruct (handle_remove_enrollment 3 (bs "alice") (le_split 16 5) 0) as [s' r].
    destruct Hz as (_ & Hz & _). destruct (Hz (or_introl eq_refl)) as [-> ->]. reflexivity.
Defined.
End HandlersDemo.
