(* ===== verification/Bmp.v ===== *)
(** * The strict BMP decoder of batch enrollment

    [inspect_strict_bmp], [decode_bmp_as_bgr] and what they call
    ([crates/howy-daemon/src/server.rs]): a frame file is accepted only in one canonical
    form, and an accepted file decodes within its bounds to its pixels, top row first. *)

From S2P Require Import Prelude Bytes Storage Codec CodecReader.

Definition MAX_BATCH_IMAGE_WIDTH : Z := 4096.
Definition MAX_BATCH_IMAGE_HEIGHT : Z := 4096.
Definition MAX_BATCH_DECODED_BYTES_PER_FILE : Z := 32 * 1024 * 1024.

Record BmpMetadata := mkBmp {
  bmp_width : Z; bmp_height : Z; bmp_pixel_offset : Z; bmp_row_stride : Z }.

Abbreviation dresult := (result string).

(** [read_u16_le], [read_u32_le], [read_i32_le] *)
Definition read_word (n : nat) (b : bytes) (offset : Z) : dresult Z :=
  x ← ok_or (slice_get b offset (saturating_add offset (Z.of_nat n))) "truncated BMP header"%string;
  Ok (le_combine x).
Definition read_u16_le : bytes → Z → dresult Z := read_word 2.
Definition read_u32_le : bytes → Z → dresult Z := read_word 4.
Definition read_i32_le (b : bytes) (offset : Z) : dresult Z :=
  z ← read_word 4 b offset; Ok (if 2 ^ 31 <=? z then z - 2 ^ 32 else z).

(** [x & !3] *)
Definition align4 (x : Z) : Z := Z.land x (Z.lnot 3).

Definition overflow {A} : string → dresult A := Err.

(** The loop over the padding of the rows. *)
Fixpoint check_padding (n : nat) (row : Z) (b : bytes) (pixel_offset row_stride active : Z)
    : dresult unit :=
  match n with
  | O => Ok ()
  | S n =>
      start ← ok_or (offset ← checked_mul row row_stride; offset ← checked_add offset active;
                     checked_add pixel_offset offset) "BMP padding offset overflowed"%string;
      stop ← ok_or (next ← checked_add row 1; offset ← checked_mul next row_stride;
                    checked_add pixel_offset offset) "BMP padding end overflowed"%string;
      padding ← ok_or (slice_get b start stop) "BMP padding is truncated"%string;
      if existsb (λ x, negb (bool_decide (x = Byte.x00))) padding
      then Err "BMP row padding is not canonical"%string
      else check_padding n (row + 1) b pixel_offset row_stride active
  end.

(** [inspect_strict_bmp] *)
Definition inspect_strict_bmp (b : bytes) : dresult (BmpMetadata * Z) :=
  if (len b <? 54) || negb (bool_decide (slice_get b 0 2 = Some (bs "BM")))
  then Err "invalid BMP header"%string
  else
  file_size ← read_u32_le b 2;
  if negb (file_size =? len b) || negb (bool_decide (slice_get b 6 10 = Some (zero_bytes 4)))
  then Err "BMP file size or reserved fields are invalid"%string
  else
  pixel_offset ← read_u32_le b 10;
  header_size ← read_u32_le b 14;
  if negb (header_size =? 40) || negb (pixel_offset =? 54)
  then Err "only BITMAPINFOHEADER BMP files are supported"%string
  else
  width ← read_i32_le b 18;
  height ← read_i32_le b 22;
  if (width <=? 0) || (height <=? 0) then Err "BMP dimensions are invalid"%string
  else if (MAX_BATCH_IMAGE_WIDTH <? width) || (MAX_BATCH_IMAGE_HEIGHT <? height)
  then Err "image dimensions exceed the limit"%string
  else
  planes ← read_u16_le b 26;
  depth ← read_u16_le b 28;
  compression ← read_u32_le b 30;
  if negb (planes =? 1) || negb (depth =? 24) || negb (compression =? 0)
  then Err "only uncompressed 24-bit BMP files are supported"%string
  else if negb (bool_decide (slice_get b 38 54 = Some (zero_bytes 16)))
  then Err "BMP canonical header fields are invalid"%string
  else
  decoded_bytes ← ok_or (pixels ← checked_mul width height; checked_mul pixels 3)
                    "decoded image size overflowed"%string;
  if (decoded_bytes =? 0) || (MAX_BATCH_DECODED_BYTES_PER_FILE <? decoded_bytes)
  then Err "decoded image bytes exceed the limit"%string
  else
  active ← ok_or (checked_mul width 3) "BMP row size overflowed"%string;
  row_stride ← ok_or (align4 <$> checked_add active 3) "BMP row stride overflowed"%string;
  pixel_bytes ← ok_or (checked_mul row_stride height) "BMP pixel data size overflowed"%string;
  stop ← ok_or (checked_add pixel_offset pixel_bytes) "BMP pixel data end overflowed"%string;
  if negb (stop =? len b) then Err "BMP pixel data length is invalid"%string
  else
  _ ← check_padding (Z.to_nat height) 0 b pixel_offset row_stride active;
  declared ← read_u32_le b 34;
  if (declared =? 0) || negb (declared =? pixel_bytes)
  then Err "BMP declared image size is invalid"%string
  else Ok (mkBmp width height pixel_offset row_stride, decoded_bytes).

(** [dst[lo..hi].copy_from_slice(src)], which panics out of range or on a length
    mismatch. *)
Definition copy_into (dst : bytes) (lo hi : Z) (src : bytes) : option bytes :=
  if (lo <=? hi) && (hi <=? len dst) && (len src =? hi - lo)
  then Some (take (Z.to_nat lo) dst ++ src ++ drop (Z.to_nat hi) dst) else None.

(** The loop of [decode_bmp_as_bgr]; an error stands for its error or its panic. *)
Fixpoint decode_rows (n : nat) (output_row height : Z) (b : bytes) (m : BmpMetadata) (active : Z)
    (bgr : bytes) : dresult bytes :=
  match n with
  | O => Ok bgr
  | S n =>
      let source_row := height - 1 - output_row in
      source_start ← ok_or (offset ← checked_mul source_row (bmp_row_stride m);
                            checked_add (bmp_pixel_offset m) offset)
                       "BMP source offset overflowed"%string;
      source_end ← ok_or (checked_add source_start active) "BMP source row end overflowed"%string;
      destination_start ← ok_or (checked_mul output_row active)
                            "BMP destination row offset overflowed"%string;
      destination_end ← ok_or (checked_add destination_start active)
                          "BMP destination row end overflowed"%string;
      source ← ok_or (slice_get b source_start source_end) "panic: slice out of range"%string;
      bgr ← ok_or (copy_into bgr destination_start destination_end source)
              "panic: copy out of range"%string;
      decode_rows n (output_row + 1) height b m active bgr
  end.

(** [decode_bmp_as_bgr]; the bounded allocation is assumed to be granted. *)
Definition decode_bmp_as_bgr (b : bytes) (m : BmpMetadata) (decoded_bytes : Z)
    : dresult (bytes * Z * Z) :=
  active ← ok_or (checked_mul (bmp_width m) 3) "BMP active row size overflowed"%string;
  bgr ← decode_rows (Z.to_nat (bmp_height m)) 0 (bmp_height m) b m active
          (zero_bytes (Z.to_nat decoded_bytes));
  Ok (bgr, bmp_width m, bmp_height m).

(** ** The canonical form *)

(** An image: its width and its rows of BGR bytes, top row first. *)
Record Image := mkImage { im_width : nat; im_rows : list bytes }.
Definition im_height (i : Image) : nat := length (im_rows i).

Definition image_ok (i : Image) : Prop :=
  (1 ≤ im_width i ≤ 4096)%nat ∧ (1 ≤ im_height i ≤ 4096)%nat ∧
  Z.of_nat (im_width i) * Z.of_nat (im_height i) * 3 ≤ MAX_BATCH_DECODED_BYTES_PER_FILE ∧
  Forall (λ r, length r = (3 * im_width i)%nat) (im_rows i).

Definition stride (w : nat) : nat := (4 * ((3 * w + 3) / 4))%nat.
Definition pad (w : nat) (row : bytes) : bytes := row ++ zero_bytes (stride w - 3 * w).
Definition pixel_bytes (i : Image) : Z := Z.of_nat (stride (im_width i) * im_height i).

(** File header, [BITMAPINFOHEADER] with every optional field zero, then the rows bottom
    up, each padded with zeros to a multiple of four. *)
Definition encode_bmp (i : Image) : bytes :=
  bs "BM" ++ le32 (54 + pixel_bytes i) ++ zero_bytes 4 ++ le32 54
  ++ le32 40 ++ le32 (Z.of_nat (im_width i)) ++ le32 (Z.of_nat (im_height i))
  ++ le16 1 ++ le16 24 ++ le32 0 ++ le32 (pixel_bytes i) ++ zero_bytes 16
  ++ concat (pad (im_width i) <$> reverse (im_rows i)).

(** ** Header words *)

Lemma read_word_Ok n b off z :
  0 ≤ off → off + Z.of_nat n ≤ U64_MAX →
  read_word n b off = Ok z ↔ at_ b off (le_split n z) ∧ 0 ≤ z < 2 ^ (Z.of_nat n * 8).
Proof.
  intros Ho Hn. unfold read_word, saturating_add. rewrite Z.min_l by done. split.
  - intros Hr. inv_ok. subst z.
    pose proof (slice_get_Some _ _ _ _ Ha Ho) as (_ & _ & Hl).
    assert (length a = n) as Hlen by (unfold len in Hl; lia).
    split; [|by apply le_combine_range]. rewrite split_le_combine' by done.
    apply at_slice in Ha; [done|done|]. lia.
  - intros [Ha Hz]. apply (at_slice _ _ _ (off + Z.of_nat n)) in Ha; [|done|by rewrite len_le_split].
    rewrite Ha. simpl. by rewrite le_combine_le_split_small.
Qed.

Lemma read_i32_le_Ok b off z :
  0 ≤ off → off + 4 ≤ U64_MAX → 0 < z < 2 ^ 31 →
  read_i32_le b off = Ok z ↔ at_ b off (le32 z).
Proof.
  intros Ho Hn Hz. unfold read_i32_le. split.
  - intros Hr. inv_ok. apply read_word_Ok in Ha as [Ha Hr']; [|done..].
    revert Hr. case_match; intros Hr; [lia|by rewrite <- Hr].
  - intros Ha. rewrite (proj2 (read_word_Ok 4 b off z Ho Hn)) by (split; [done|lia]).
    cbn [mbind result_bind]. destruct (2 ^ 31 <=? z) eqn:E; [lia|done].
Qed.

Lemma align4_stride (w : nat) : align4 (Z.of_nat w * 3 + 3) = Z.of_nat (stride w).
Proof.
  unfold align4, stride. set (x := Z.of_nat w * 3 + 3). rewrite <- Z.ldiff_land.
  change (Z.ldiff x 3) with (Z.ldiff x (Z.ones 2)). rewrite Z.ldiff_ones_r by lia. subst x. rewrite Z.shiftl_mul_pow2, Z.shiftr_div_pow2 by lia.
  rewrite Nat2Z.inj_mul, Nat2Z.inj_div, Nat2Z.inj_add, Nat2Z.inj_mul. change (2 ^ 2) with 4.
  rewrite (Z.mul_comm (Z.of_nat w)). lia.
Qed.

Lemma stride_bound w : (3 * w ≤ stride w ≤ 3 * w + 3)%nat.
Proof.
  unfold stride. pose proof (Nat.div_mod_eq (3 * w + 3) 4).
  pose proof (Nat.mod_upper_bound (3 * w + 3) 4). lia.
Qed.

Lemma zero_padding (x : bytes) :
  existsb (λ b, negb (bool_decide (b = Byte.x00))) x = false ↔ x = zero_bytes (length x).
Proof.
  unfold zero_bytes. induction x as [|b x IH]; simpl; [done|]. rewrite orb_false_iff, IH.
  rewrite negb_false_iff, bool_decide_eq_true. split.
  - intros [-> Hx]. by rewrite <- Hx.
  - intros Hx. injection Hx as -> Hx. by split.
Qed.

(** ** Rows *)

Lemma pad_length w row : length row = (3 * w)%nat → length (pad w row) = stride w.
Proof.
  intros Hl. unfold pad, zero_bytes. rewrite length_app, length_replicate, Hl.
  pose proof (stride_bound w). lia.
Qed.

Lemma concat_pad_length w rows :
  Forall (λ r, length r = (3 * w)%nat) rows →
  length (concat (pad w <$> rows)) = (stride w * length rows)%nat.
Proof.
  induction 1 as [|r rows Hr _ IH]; [simpl; lia|]. rewrite fmap_cons. cbn [concat length].
  rewrite length_app, IH, pad_length by done. lia.
Qed.

(** The padding loop looks at the end of each row. *)
Lemma check_padding_Ok n row b s a :
  0 ≤ row → 0 ≤ a ≤ s → 54 + (row + Z.of_nat n) * s ≤ U64_MAX → row + Z.of_nat n ≤ U64_MAX →
  check_padding n row b 54 s a = Ok () ↔
  ∀ k, row ≤ k < row + Z.of_nat n → at_ b (54 + (k * s + a)) (zero_bytes (Z.to_nat (s - a))).
Proof.
  revert row. induction n as [|n IH]; intros row Hrow Ha Hmax Hmax'.
  { split; [intros _ k Hk; lia|done]. }
  assert (0 ≤ row * s ∧ row * s + s ≤ (row + Z.of_nat (S n)) * s) as [Hs1 Hs2] by nia.
  simpl. rewrite (checked_mul_eq row s) by lia. simpl. rewrite (checked_add_eq _ a) by lia. simpl.
  rewrite checked_add_eq by lia. simpl. rewrite checked_add_eq by lia. simpl.
  rewrite checked_mul_eq by lia. simpl. rewrite checked_add_eq by lia. simpl.
  assert (len (zero_bytes (Z.to_nat (s - a))) = s - a) as Hz
    by (unfold len, zero_bytes; rewrite length_replicate; lia).
  assert (54 + (row + 1) * s = 54 + (row * s + a) + (s - a)) as Hend by lia.
  destruct (slice_get b (54 + (row * s + a)) (54 + (row + 1) * s)) as [padding|] eqn:Hsl; simpl.
  - pose proof (slice_get_Some _ _ _ _ Hsl ltac:(lia)) as (_ & _ & Hl).
    assert (length padding = Z.to_nat (s - a)) as Hlp by (unfold len in Hl; lia).
    apply at_slice in Hsl; [|lia|lia].
    destruct (existsb _ padding) eqn:Hex.
    + split; [done|]. intros Hall. exfalso.
      assert (padding = zero_bytes (length padding)) as Hp.
      { specialize (Hall row ltac:(lia)). apply (at_slice _ _ _ (54 + (row + 1) * s)) in Hall; [|lia|lia].
        apply (at_slice _ _ _ (54 + (row + 1) * s)) in Hsl; [|lia|lia]. rewrite Hlp. congruence. }
      apply zero_padding in Hp. congruence.
    + apply zero_padding in Hex. rewrite Hlp in Hex. rewrite IH by lia. split.
      * intros Hall k Hk. destruct (decide (k = row)) as [->|Hne]; [by rewrite <- Hex|].
        apply Hall. lia.
      * intros Hall k Hk. apply Hall. lia.
  - split; [done|]. intros Hall. exfalso. specialize (Hall row ltac:(lia)).
    apply (at_slice _ _ _ (54 + (row + 1) * s)) in Hall; [|lia|lia]. congruence.
Qed.

(** Padded rows at an offset: the pixels exist, the padding was checked. *)
Lemma at_rows b w n off :
  0 ≤ off → off + Z.of_nat (stride w * n) ≤ len b →
  (∀ k, 0 ≤ k < Z.of_nat n →
     at_ b (off + (k * Z.of_nat (stride w) + Z.of_nat (3 * w))) (zero_bytes (stride w - 3 * w))) →
  ∃ rows, length rows = n ∧ Forall (λ r, length r = (3 * w)%nat) rows ∧
    at_ b off (concat (pad w <$> rows)).
Proof.
  revert off. pose proof (stride_bound w) as Hw. induction n as [|n IH]; intros off Ho Hlen Hpad.
  { exists []. split; [done|]. split; [constructor|]. apply at_nil. simpl in *. lia. }
  destruct (at_exists b off (3 * w)) as (row & Hrow & Hat); [done|lia|].
  destruct (IH (off + Z.of_nat (stride w))) as (rows & Hn & Hf & Hrows); [lia|lia| |].
  { intros k Hk. specialize (Hpad (k + 1) ltac:(lia)).
    replace (off + Z.of_nat (stride w) + (k * Z.of_nat (stride w) + Z.of_nat (3 * w)))
      with (off + ((k + 1) * Z.of_nat (stride w) + Z.of_nat (3 * w))) by lia. done. }
  exists (row :: rows). split; [simpl; lia|]. split; [by constructor|].
  rewrite fmap_cons. cbn [concat].
  apply at_app. split; [|unfold len; by rewrite pad_length].
  unfold pad. apply at_app. split; [done|]. specialize (Hpad 0 ltac:(lia)).
  unfold len. rewrite Hrow. by rewrite Z.mul_0_l, Z.add_0_l in Hpad.
Qed.

Lemma at_rows_padding b w rows off k :
  Forall (λ r, length r = (3 * w)%nat) rows → at_ b off (concat (pad w <$> rows)) →
  0 ≤ k < Z.of_nat (length rows) →
  at_ b (off + (k * Z.of_nat (stride w) + Z.of_nat (3 * w))) (zero_bytes (stride w - 3 * w)) ∧
  ∃ row, rows !! Z.to_nat k = Some row ∧ at_ b (off + k * Z.of_nat (stride w)) row.
Proof.
  intros Hf. revert off k. induction Hf as [|row rows Hrow _ IH]; intros off k; [simpl; lia|].
  rewrite fmap_cons. cbn [concat length]. intros [Hat Hrest]%at_app Hk. unfold len in Hrest. rewrite pad_length in Hrest by done.
  destruct (decide (k = 0)) as [->|Hne].
  - unfold pad in Hat. apply at_app in Hat as [Hpix Hpad]. unfold len in Hpad.
    rewrite Hrow in Hpad. rewrite Z.mul_0_l, Z.add_0_l, Z.add_0_r. split; [done|].
    by exists row.
  - destruct (IH (off + Z.of_nat (stride w)) (k - 1) Hrest) as [Hp (r & Hr & Hat')]; [lia|].
    replace (off + Z.of_nat (stride w) + ((k - 1) * Z.of_nat (stride w) + Z.of_nat (3 * w)))
      with (off + (k * Z.of_nat (stride w) + Z.of_nat (3 * w))) in Hp by lia.
    replace (off + Z.of_nat (stride w) + (k - 1) * Z.of_nat (stride w))
      with (off + k * Z.of_nat (stride w)) in Hat' by lia.
    split; [done|]. exists r. split; [|done].
    replace (Z.to_nat k) with (S (Z.to_nat (k - 1))) by lia. done.
Qed.

Lemma encode_fields b i :
  at_ b 0 (encode_bmp i) ↔
  at_ b 0 (bs "BM") ∧ at_ b 2 (le32 (54 + pixel_bytes i)) ∧ at_ b 6 (zero_bytes 4) ∧
  at_ b 10 (le32 54) ∧ at_ b 14 (le32 40) ∧ at_ b 18 (le32 (Z.of_nat (im_width i))) ∧
  at_ b 22 (le32 (Z.of_nat (im_height i))) ∧ at_ b 26 (le16 1) ∧ at_ b 28 (le16 24) ∧
  at_ b 30 (le32 0) ∧ at_ b 34 (le32 (pixel_bytes i)) ∧ at_ b 38 (zero_bytes 16) ∧
  at_ b 54 (concat (pad (im_width i) <$> reverse (im_rows i))).
Proof.
  unfold encode_bmp. rewrite !at_app, !len_le_split.
  change (len (bs "BM")) with 2. change (len (zero_bytes 4)) with 4.
  change (len (zero_bytes 16)) with 16. simpl. tauto.
Qed.

Lemma encode_length i :
  image_ok i → len (encode_bmp i) = 54 + pixel_bytes i.
Proof.
  intros (_ & _ & _ & Hf). unfold encode_bmp. rewrite !len_app, !len_le_split.
  change (len (bs "BM")) with 2. change (len (zero_bytes 4)) with 4.
  change (len (zero_bytes 16)) with 16.
  assert (len (concat (pad (im_width i) <$> reverse (im_rows i))) = pixel_bytes i) as ->.
  { unfold len, pixel_bytes. rewrite concat_pad_length by (by apply Forall_reverse).
    by rewrite length_reverse. }
  lia.
Qed.

Lemma image_limits i :
  image_ok i →
  0 < pixel_bytes i ≤ U32_MAX - 54 ∧
  Z.of_nat (stride (im_width i)) ≤ 12291 ∧ Z.of_nat (im_width i) * 3 + 3 ≤ U64_MAX.
Proof.
  intros (Hw & Hh & _ & _). pose proof (stride_bound (im_width i)) as Hs. unfold pixel_bytes. unfold_max.
  rewrite Nat2Z.inj_mul. nia.
Qed.

Definition bmp_of (i : Image) : BmpMetadata :=
  mkBmp (Z.of_nat (im_width i)) (Z.of_nat (im_height i)) 54 (Z.of_nat (stride (im_width i))).
Definition decoded_bytes_of (i : Image) : Z :=
  Z.of_nat (im_width i) * Z.of_nat (im_height i) * 3.

Ltac read_field := apply read_word_Ok; [lia|unfold_max; lia|split; [eassumption|lia]].
Ltac read_signed := apply read_i32_le_Ok; [lia|unfold_max; lia|lia|eassumption].
Ltac slice_field := apply at_slice; [lia|reflexivity|assumption].

(** The canonical form of an image is accepted. *)
Lemma inspect_encode i :
  image_ok i → inspect_strict_bmp (encode_bmp i) = Ok (bmp_of i, decoded_bytes_of i).
Proof.
  intros Hi. pose proof (image_limits i Hi) as (Hpx & Hst & Hw3).
  pose proof (encode_length i Hi) as Hlen. pose proof Hi as (Hw & Hh & Hd & Hf).
  destruct (proj1 (at_whole (encode_bmp i) (encode_bmp i)) eq_refl) as [Hat _].
  apply encode_fields in Hat as (F0 & F2 & F6 & F10 & F14 & F18 & F22 & F26 & F28 & F30 & F34 & F38 & F54).
  set (b := encode_bmp i) in *. unfold_max. pose proof (stride_bound (im_width i)) as Hs.
  assert (slice_get b 0 2 = Some (bs "BM")) as S0 by slice_field.
  assert (slice_get b 6 10 = Some (zero_bytes 4)) as S6 by slice_field.
  assert (slice_get b 38 54 = Some (zero_bytes 16)) as S38 by slice_field.
  assert (read_u32_le b 2 = Ok (54 + pixel_bytes i)) as R2 by read_field.
  assert (read_u32_le b 10 = Ok 54) as R10 by read_field.
  assert (read_u32_le b 14 = Ok 40) as R14 by read_field.
  assert (read_i32_le b 18 = Ok (Z.of_nat (im_width i))) as R18 by read_signed.
  assert (read_i32_le b 22 = Ok (Z.of_nat (im_height i))) as R22 by read_signed.
  assert (read_u16_le b 26 = Ok 1) as R26 by read_field.
  assert (read_u16_le b 28 = Ok 24) as R28 by read_field.
  assert (read_u32_le b 30 = Ok 0) as R30 by read_field.
  assert (read_u32_le b 34 = Ok (pixel_bytes i)) as R34 by read_field.
  assert (check_padding (im_height i) 0 b 54 (Z.of_nat (stride (im_width i)))
    (Z.of_nat (im_width i) * 3) = Ok ()) as Hpad.
  { apply check_padding_Ok; [lia|lia|unfold pixel_bytes in Hpx; unfold_max; lia|unfold_max; lia|].
    intros k Hk. destruct (at_rows_padding b (im_width i) (reverse (im_rows i)) 54 k) as [Hp _];
      [by apply Forall_reverse|done|rewrite length_reverse; unfold im_height in Hk; lia|].
    replace (Z.of_nat (im_width i) * 3) with (Z.of_nat (3 * im_width i)) by lia.
    by replace (Z.to_nat (Z.of_nat (stride (im_width i)) - Z.of_nat (3 * im_width i)))
      with (stride (im_width i) - 3 * im_width i)%nat by lia. }
  unfold inspect_strict_bmp.
  rewrite S0, S6, S38, !bool_decide_eq_true_2 by done.
  rewrite (proj2 (Z.ltb_ge (len b) 54)) by lia. cbn [negb orb].
  rewrite R2, R10, R14, R18, R22, R26, R28, R30, R34. cbn [mbind result_bind].
  rewrite Hlen, Z.eqb_refl. cbn [negb orb].
  change (negb (40 =? 40) || negb (54 =? 54)) with false. cbv iota.
  rewrite (proj2 (Z.leb_gt (Z.of_nat (im_width i)) 0)), (proj2 (Z.leb_gt (Z.of_nat (im_height i)) 0)) by lia.
  unfold MAX_BATCH_IMAGE_WIDTH, MAX_BATCH_IMAGE_HEIGHT.
  rewrite (proj2 (Z.ltb_ge 4096 (Z.of_nat (im_width i)))), (proj2 (Z.ltb_ge 4096 (Z.of_nat (im_height i)))) by lia.
  cbn [orb]. change (negb (1 =? 1) || negb (24 =? 24) || negb (0 =? 0)) with false. cbv iota.
  rewrite (checked_mul_eq (Z.of_nat (im_width i)) (Z.of_nat (im_height i))) by (unfold_max; nia).
  cbn [mbind option_bind].
  rewrite (checked_mul_eq (Z.of_nat (im_width i) * Z.of_nat (im_height i)) 3) by (unfold_max; nia).
  cbn [ok_or mbind result_bind].
  change (Z.of_nat (im_width i) * Z.of_nat (im_height i) * 3) with (decoded_bytes_of i).
  rewrite (proj2 (Z.eqb_neq (decoded_bytes_of i) 0)) by (unfold decoded_bytes_of; nia).
  rewrite (proj2 (Z.ltb_ge MAX_BATCH_DECODED_BYTES_PER_FILE (decoded_bytes_of i))) by exact Hd.
  cbn [orb].
  rewrite (checked_mul_eq (Z.of_nat (im_width i)) 3) by (unfold_max; lia). cbn [ok_or mbind result_bind].
  rewrite (checked_add_eq _ 3) by (unfold_max; lia). cbn [fmap option_fmap option_map ok_or mbind result_bind].
  rewrite align4_stride.
  assert (Z.of_nat (stride (im_width i)) * Z.of_nat (im_height i) = pixel_bytes i) as Hpb
    by (unfold pixel_bytes; lia).
  rewrite checked_mul_eq by (unfold_max; lia). rewrite Hpb. cbn [ok_or mbind result_bind].
  rewrite checked_add_eq by (unfold_max; lia). cbn [ok_or mbind result_bind].
  rewrite Z.eqb_refl. cbn [negb]. rewrite Nat2Z.id, Hpad. cbn [mbind result_bind].
  rewrite (proj2 (Z.eqb_neq (pixel_bytes i) 0)) by lia. rewrite Z.eqb_refl. done.
Qed.

Lemma read_u32_Some b off z :
  0 ≤ off → off + 4 ≤ U64_MAX → read_u32_le b off = Ok z → at_ b off (le32 z).
Proof. intros Ho Hn Hr. by apply (read_word_Ok 4) in Hr as [? _]. Qed.
Lemma read_u16_Some b off z :
  0 ≤ off → off + 2 ≤ U64_MAX → read_u16_le b off = Ok z → at_ b off (le16 z).
Proof. intros Ho Hn Hr. by apply (read_word_Ok 2) in Hr as [? _]. Qed.

(** The fields of an accepted file make up the canonical form of an image. *)
Lemma assemble b (w h : nat) :
  (1 ≤ w ≤ 4096)%nat → (1 ≤ h ≤ 4096)%nat →
  Z.of_nat w * Z.of_nat h * 3 ≤ MAX_BATCH_DECODED_BYTES_PER_FILE →
  54 + Z.of_nat (stride w * h) = len b →
  at_ b 0 (bs "BM") → at_ b 2 (le32 (len b)) → at_ b 6 (zero_bytes 4) → at_ b 10 (le32 54) →
  at_ b 14 (le32 40) → at_ b 18 (le32 (Z.of_nat w)) → at_ b 22 (le32 (Z.of_nat h)) →
  at_ b 26 (le16 1) → at_ b 28 (le16 24) → at_ b 30 (le32 0) →
  at_ b 34 (le32 (Z.of_nat (stride w * h))) → at_ b 38 (zero_bytes 16) →
  check_padding h 0 b 54 (Z.of_nat (stride w)) (Z.of_nat w * 3) = Ok () →
  ∃ i, image_ok i ∧ b = encode_bmp i ∧ im_width i = w ∧ im_height i = h.
Proof.
  intros Hw Hh Hd Hlen F0 F2 F6 F10 F14 F18 F22 F26 F28 F30 F34 F38 Hpad.
  pose proof (stride_bound w) as Hs.
  assert (Z.of_nat (stride w * h) ≤ 2 ^ 32) as Hmax by nia.
  destruct (at_rows b w h 54) as (rows & Hn & Hf & Hrows); [lia|lia| |].
  { intros k Hk. rewrite check_padding_Ok in Hpad by (unfold_max; lia).
    specialize (Hpad k ltac:(lia)).
    replace (Z.of_nat w * 3) with (Z.of_nat (3 * w)) in Hpad by lia.
    replace (Z.to_nat (Z.of_nat (stride w) - Z.of_nat (3 * w)))
      with (stride w - 3 * w)%nat in Hpad by lia. exact Hpad. }
  set (i := mkImage w (reverse rows)).
  assert (im_height i = h) as Hih by (unfold im_height; simpl; by rewrite length_reverse).
  assert (image_ok i) as Hi.
  { unfold image_ok. rewrite Hih. simpl. split; [done|]. split; [done|]. split; [done|].
    by apply Forall_reverse. }
  exists i. split; [done|]. split; [|done]. apply at_whole.
  assert (pixel_bytes i = Z.of_nat (stride w * h)) as Hpx by (unfold pixel_bytes; by rewrite Hih).
  split; [|rewrite encode_length by done; lia]. apply encode_fields. rewrite Hpx, Hih, Hlen. simpl.
  rewrite reverse_involutive. split_and!; done.
Qed.

(** Only canonical forms are accepted. *)
Lemma inspect_canonical b m d :
  inspect_strict_bmp b = Ok (m, d) →
  ∃ i, image_ok i ∧ b = encode_bmp i ∧ m = bmp_of i ∧ d = decoded_bytes_of i.
Proof.
  unfold inspect_strict_bmp. intros Hp.
  destruct (_ || _) eqn:G1 in Hp; [discriminate Hp|]. apply bind_Ok in Hp as (size & R2 & Hp).
  destruct (_ || _) eqn:G2 in Hp; [discriminate Hp|].
  apply bind_Ok in Hp as (off & R10 & Hp). apply bind_Ok in Hp as (hsize & R14 & Hp).
  destruct (_ || _) eqn:G3 in Hp; [discriminate Hp|].
  apply bind_Ok in Hp as (w & R18 & Hp). apply bind_Ok in Hp as (h & R22 & Hp).
  destruct (_ || _) eqn:G4 in Hp; [discriminate Hp|].
  destruct (_ || _) eqn:G5 in Hp; [discriminate Hp|].
  apply bind_Ok in Hp as (planes & R26 & Hp). apply bind_Ok in Hp as (depth & R28 & Hp).
  apply bind_Ok in Hp as (compression & R30 & Hp).
  destruct (_ || _) eqn:G6 in Hp; [discriminate Hp|].
  destruct (negb _) eqn:G7 in Hp; [discriminate Hp|].
  apply bind_Ok in Hp as (decoded & D & Hp).
  destruct (_ || _) eqn:G8 in Hp; [discriminate Hp|]. inv_ok. breflect. subst.
  repeat match goal with
    | H : slice_get _ _ _ = Some _ |- _ => apply at_slice in H; [|lia|reflexivity]
    end.
  rename select (read_u32_le b 34 = _) into R34. rename select (check_padding _ _ _ _ _ _ = _) into Hpad.
  apply read_u32_Some in R2, R10, R14, R30, R34; try (unfold_max; lia).
  apply read_u16_Some in R26, R28; try (unfold_max; lia).
  unfold MAX_BATCH_IMAGE_WIDTH, MAX_BATCH_IMAGE_HEIGHT in *.
  apply read_i32_le_Ok in R18, R22; try (unfold_max; lia).
  rename select (_ <$> checked_add _ _ = Some _) into Hst.
  rewrite checked_add_eq in Hst by (unfold_max; lia). injection Hst as <-.
  rewrite <- (Z2Nat.id w), <- (Z2Nat.id h) in * by lia.
  rewrite align4_stride in *. rewrite Nat2Z.id in Hpad. destruct a4.
  rewrite <- Nat2Z.inj_mul in *.
  destruct (assemble b (Z.to_nat w) (Z.to_nat h)) as (i & Hi & -> & Hiw & Hih); try done; try lia.
  exists i. unfold bmp_of, decoded_bytes_of. rewrite Hiw, Hih.
  split; [done|]. split; [done|]. by rewrite !Nat2Z.inj_mul.
Qed.

(** ** Decoding *)

Lemma copy_into_next (done_ rest row : bytes) k :
  len row = k → length (take (length row) rest) = length row →
  copy_into (done_ ++ rest) (len done_) (len done_ + k) row
  = Some ((done_ ++ row) ++ drop (length row) rest).
Proof.
  intros <- Hl. rewrite length_take in Hl. unfold copy_into, len. rewrite length_app.
  assert (length row ≤ length rest)%nat as Hle by lia. clear Hl.
  rewrite (proj2 (Z.leb_le _ _)), (proj2 (Z.leb_le _ _)), (proj2 (Z.eqb_eq _ _)) by lia.
  cbn [andb]. f_equal.
  rewrite Nat2Z.id, take_app_length. rewrite <- app_assoc. f_equal. f_equal.
  replace (Z.to_nat (Z.of_nat (length done_) + Z.of_nat (length row)))
    with (length done_ + length row)%nat by lia. by rewrite drop_app_add.
Qed.

Lemma concat_row_length (rows : list bytes) k :
  Forall (λ r, length r = k) rows → length (concat rows) = (k * length rows)%nat.
Proof. induction 1 as [|r rows Hr _ IH]; simpl; [lia|]. rewrite length_app, IH, Hr. lia. Qed.

(** After the rows above have been copied, the rest is. *)
Lemma decode_rows_from i b above rest :
  image_ok i → at_ b 54 (concat (pad (im_width i) <$> reverse (im_rows i))) →
  im_rows i = above ++ rest →
  decode_rows (length rest) (Z.of_nat (length above)) (Z.of_nat (im_height i)) b (bmp_of i)
    (Z.of_nat (im_width i) * 3)
    (concat above ++ zero_bytes (3 * im_width i * length rest)) = Ok (concat (im_rows i)).
Proof.
  intros Hi Hat. revert above. pose proof (image_limits i Hi) as (Hpx & Hst & Hw3).
  pose proof Hi as (Hw & Hh & Hd & Hf). pose proof (stride_bound (im_width i)) as Hs.
  induction rest as [|row rest IH]; intros above Hrows.
  { simpl. rewrite Nat.mul_0_r. simpl. by rewrite app_nil_r, Hrows, app_nil_r. }
  rewrite Hrows in Hf. apply Forall_app in Hf as [Hfa Hfr]. apply Forall_cons in Hfr as [Hrow Hfr].
  assert (im_height i = length above + S (length rest))%nat as Hih
    by (unfold im_height; rewrite Hrows, length_app; simpl; lia).
  destruct (at_rows_padding b (im_width i) (reverse (im_rows i)) 54 (Z.of_nat (length rest)))
    as [_ (row' & Hlook & Hrowat)]; [by apply Forall_reverse, Hi|done|rewrite length_reverse; unfold im_height in Hih; lia|].
  assert (row' = row) as ->.
  { rewrite Hrows, reverse_app, reverse_cons, <- app_assoc, Nat2Z.id in Hlook.
    rewrite <- (length_reverse rest) in Hlook at 1. cbn [app] in Hlook. rewrite list_lookup_middle in Hlook by done.
    congruence. }
  assert (Z.of_nat (length rest) * Z.of_nat (stride (im_width i)) ≤ pixel_bytes i) as Hsrc
    by (unfold pixel_bytes; rewrite Nat2Z.inj_mul; nia).
  assert (Z.of_nat (length above) * (Z.of_nat (im_width i) * 3) ≤ 2 ^ 40) as Hdst by nia.
  pose proof (concat_row_length above _ Hfa) as Hla. unfold_max.
  cbn [length decode_rows bmp_row_stride bmp_pixel_offset bmp_of]. cbv zeta.
  replace (Z.of_nat (im_height i) - 1 - Z.of_nat (length above)) with (Z.of_nat (length rest)) by lia.
  rewrite (checked_mul_eq (Z.of_nat (length rest))) by (unfold_max; lia). cbn [mbind option_bind].
  rewrite checked_add_eq by (unfold_max; lia). cbn [ok_or mbind result_bind].
  rewrite checked_add_eq by (unfold_max; lia). cbn [ok_or mbind result_bind].
  rewrite checked_mul_eq by (unfold_max; lia). cbn [ok_or mbind result_bind].
  rewrite checked_add_eq by (unfold_max; lia). cbn [ok_or mbind result_bind].
  assert (len row = Z.of_nat (im_width i) * 3) as Hlr by (unfold len; lia).
  apply (at_slice _ _ _ (54 + Z.of_nat (length rest) * Z.of_nat (stride (im_width i))
    + Z.of_nat (im_width i) * 3)) in Hrowat; [|lia|lia]. rewrite Hrowat.
  cbn [ok_or mbind result_bind].
  replace (Z.of_nat (length above) * (Z.of_nat (im_width i) * 3)) with (len (concat above))
    by (unfold len; lia).
  rewrite copy_into_next; [|done|unfold zero_bytes; rewrite length_take, length_replicate; nia].
  cbn [ok_or mbind result_bind]. unfold zero_bytes. rewrite drop_replicate, Hrow.
  specialize (IH (above ++ [row])). rewrite length_app in IH. simpl in IH.
  replace (Z.of_nat (length above + 1)) with (Z.of_nat (length above) + 1) in IH by lia.
  rewrite concat_app in IH. simpl in IH. rewrite app_nil_r in IH.
  replace (3 * im_width i * S (length rest) - 3 * im_width i)%nat
    with (3 * im_width i * length rest)%nat by (simpl; lia).
  apply IH. by rewrite <- app_assoc.
Qed.

(** ** Properties *)

(** The batch decoder accepts exactly the canonical 24-bit BMP files: the
    acceptance check succeeds on a file if and only if it is the one canonical encoding
    of an image of 1 to 4096 pixels each way and at most 32 MiB, and then reports that
    image's dimensions, row stride and decoded size. *)
Theorem bmp_accepts_canonical b m d :
  inspect_strict_bmp b = Ok (m, d) ↔
  ∃ i, image_ok i ∧ b = encode_bmp i ∧ m = bmp_of i ∧ d = decoded_bytes_of i.
Proof.
  split; [apply inspect_canonical|]. intros (i & Hi & -> & -> & ->). by apply inspect_encode.
Qed.

(** An accepted file decodes without error or out-of-range access to its pixels: what
    the acceptance check admits, the decoder turns into exactly the rows of the image,
    top row first and without padding, in a buffer of the announced size; so decoding
    inverts encoding. *)
Theorem bmp_decodes_accepted b m d :
  inspect_strict_bmp b = Ok (m, d) →
  ∃ i, image_ok i ∧ b = encode_bmp i ∧
    decode_bmp_as_bgr b m d
      = Ok (concat (im_rows i), Z.of_nat (im_width i), Z.of_nat (im_height i)) ∧
    len (concat (im_rows i)) = d ∧ 0 < d ≤ MAX_BATCH_DECODED_BYTES_PER_FILE.
Proof.
  intros (i & Hi & -> & -> & ->)%inspect_canonical. exists i. split; [done|]. split; [done|].
  pose proof Hi as (Hw & Hh & Hd & Hf). pose proof (image_limits i Hi) as (_ & _ & Hw3).
  assert (len (concat (im_rows i)) = decoded_bytes_of i) as Hl.
  { unfold len, decoded_bytes_of, im_height. rewrite (concat_row_length _ _ Hf). lia. }
  split; [|split; [done|unfold decoded_bytes_of in *; nia]].
  unfold decode_bmp_as_bgr. change (bmp_width (bmp_of i)) with (Z.of_nat (im_width i)).
  change (bmp_height (bmp_of i)) with (Z.of_nat (im_height i)).
  rewrite checked_mul_eq by lia. cbn [ok_or mbind result_bind]. rewrite Nat2Z.id.
  replace (Z.to_nat (decoded_bytes_of i)) with (3 * im_width i * length (im_rows i))%nat
    by (unfold decoded_bytes_of, im_height; lia).
  destruct (proj1 (at_whole (encode_bmp i) (encode_bmp i)) eq_refl) as [Hat _].
  apply encode_fields in Hat as (_&_&_&_&_&_&_&_&_&_&_&_&F54).
  pose proof (decode_rows_from i (encode_bmp i) [] (im_rows i) Hi F54 eq_refl) as Hdec.
  cbn [concat app] in Hdec. change (Z.of_nat (length [])) with 0 in Hdec.
  change (length (im_rows i)) with (im_height i) in Hdec |- *. by rewrite Hdec.
Qed.

(** Two rows of one pixel each: one byte of padding per row. *)
Definition small_image : Image := mkImage 1 [le_split 3 1; le_split 3 2].

Lemma bmp_decodes_accepted_witness :
  len (encode_bmp small_image) = 62 ∧
  decode_bmp_as_bgr (encode_bmp small_image) (bmp_of small_image) 6
    = Ok (le_split 3 1 ++ le_split 3 2, 1, 2) ∧
  ∃ out w h, decode_bmp_as_bgr (encode_bmp small_image) (bmp_of small_image) 6 = Ok (out, w, h) ∧
    len out = 6.
Proof.
  split; [vm_compute; reflexivity|]. split; [vm_compute; reflexivity|].
  destruct (bmp_decodes_accepted (encode_bmp small_image) (bmp_of small_image) 6)
    as (i & _ & _ & Hdec & Hl & _).
  - vm_compute. reflexivity.
  - exists (concat (im_rows i)), (Z.of_nat (im_width i)), (Z.of_nat (im_height i)).
    split; [exact Hdec|exact Hl].
Defined.
