(* ===== verification/Disk.v ===== *)
(** * A record directory and the system calls on it

    What [plaintext.rs] and [mode1.rs] of [crates/howy-daemon/src/storage] ask of the
    operating system: a directory of files, opened relative to its descriptor. A call may succeed, fail with
    an error, or be the last thing that happens because the machine stops; which, is a
    parameter, so a statement about a run covers every failure at every call. *)
From S2P Require Import Prelude Bytes Storage Crypto Contracts.

(** ** Files *)

Inductive FileKind := RegularFile | DirectoryFile | SymbolicLink | OtherFile.
#[export] Instance FileKind_eq_dec : EqDecision FileKind.
Proof. solve_decision. Defined.

(** [fs::Metadata]; the length is that of the data. *)
Record Stat := mkStat {
  st_kind : FileKind; st_uid : Z; st_gid : Z; st_mode : Z; st_dev : Z; st_ino : Z;
  st_ctime : Z; st_ctime_nsec : Z; st_mtime : Z; st_mtime_nsec : Z; st_nlink : Z }.

(** A file: its metadata, its bytes, and whether those were synced since last written. *)
Record FileNode := mkNode { fn_stat : Stat; fn_data : bytes; fn_synced : bool }.

Abbreviation files := (gmap bytes FileNode).

(** ** The operating system *)

(** [io::ErrorKind], as an opaque code; the kinds the code looks at. *)
Definition KIND_NOT_FOUND : Z := 0.
Definition KIND_PERMISSION_DENIED : Z := 1.
Definition KIND_ALREADY_EXISTS : Z := 2.
Definition KIND_FILESYSTEM_LOOP : Z := 3.
Definition KIND_INTERRUPTED : Z := 4.

Inductive Fault := Fails (kind : Z) | Stops.

(** What happens at the [n]-th call: no fault, an error, or the machine stops; how much of
    a failed write reached the file, and how much a read returns; the metadata of a created file and the time a
    modification gets; how allocations fare; whether a cancellation is signalled; the order a
    directory is listed in, and its own metadata; how often at most signals interrupt a call;
    the capacity a hash table gets. *)
Record DiskOs := mkDiskOs {
  os_fault : nat → option Fault;
  os_written : nat → nat;
  os_stat : nat → Stat;
  os_time : nat → Z * Z;
  os_alloc : nat → allocator;
  os_cancel : nat → bool;
  os_order : nat → files → list bytes;
  os_directory : nat → Stat;
  os_interruptions : nat;
  os_table : nat → Z → option Z }.

(** The directory, the state of the process that its operations carry along (a random source
    of temporary names, at least), the number of calls made. *)
Record Disk (R : Type) := mkDisk { d_files : files; d_local : R; d_tick : nat }.
Arguments mkDisk {R} _ _ _.
Arguments d_files {R} _.
Arguments d_local {R} _.
Arguments d_tick {R} _.

(** ** Operations

    An operation changes the disk and returns, or the machine stops in it ([None]). *)

Section ops.
  Context {R : Type} (os : DiskOs).

Definition dop (E A : Type) : Type := Disk R → Disk R * option (result E A).

Definition dret {E A} (a : A) : dop E A := λ d, (d, Some (Ok a)).
Definition dfail {E A} (e : E) : dop E A := λ d, (d, Some (Err e)).
Definition dbind {E A B} (m : dop E A) (f : A → dop E B) : dop E B := λ d,
  match m d with
  | (d, Some (Ok a)) => f a d
  | (d, Some (Err e)) => (d, Some (Err e))
  | (d, None) => (d, None)
  end.
(** [match m { Ok a => f a, Err e => g e }] *)
Definition dcase {E F A B} (m : dop E A) (f : A → dop F B) (g : E → dop F B) : dop F B := λ d,
  match m d with
  | (d, Some (Ok a)) => f a d
  | (d, Some (Err e)) => g e d
  | (d, None) => (d, None)
  end.
Definition dmap_err {E F A} (g : E → F) (m : dop E A) : dop F A := dcase m dret (λ e, dfail (g e)).
Definition dlift {E A} (r : result E A) : dop E A := λ d, (d, Some r).

(** One call: counted, subject to a fault, with [run] its effect and answer. *)
Definition syscall {A} (run : files → files * result Z A) : dop Z A := λ d,
  let t := d_tick d in
  match os_fault os t with
  | Some Stops => (mkDisk (d_files d) (d_local d) (S t), None)
  | Some (Fails kind) => (mkDisk (d_files d) (d_local d) (S t), Some (Err kind))
  | None =>
      let '(fs, r) := run (d_files d) in (mkDisk fs (d_local d) (S t), Some r)
  end.

(** [openat(.., O_RDONLY | O_NOFOLLOW)]: an open record keeps its bytes, since records are
    replaced by renaming. *)
Definition sys_open (name : bytes) : dop Z FileNode :=
  syscall (λ fs, (fs,
    match fs !! name with
    | None => Err KIND_NOT_FOUND
    | Some node =>
        if bool_decide (st_kind (fn_stat node) = SymbolicLink) then Err KIND_FILESYSTEM_LOOP
        else Ok node
    end)).

(** [openat(.., O_PATH | O_NOFOLLOW)]: the entry itself, whatever it is. *)
Definition sys_open_path (name : bytes) : dop Z FileNode :=
  syscall (λ fs, (fs, ok_or (fs !! name) KIND_NOT_FOUND)).

(** [File::metadata] and [read] on an open file. *)
Definition sys_fstat (node : FileNode) : dop Z Stat := syscall (λ fs, (fs, Ok (fn_stat node))).
Definition sys_read_to_end (node : FileNode) (limit : Z) : dop Z bytes :=
  syscall (λ fs, (fs, Ok (take (Z.to_nat limit) (fn_data node)))).

(** One [read] of at most [amount] bytes from [pos]: at least one byte, short reads allowed. *)
Definition sys_read (node : FileNode) (pos amount : nat) : dop Z bytes := λ d,
  let n := Nat.min amount (Nat.max 1 (os_written os (d_tick d))) in
  syscall (λ fs, (fs, Ok (take n (drop pos (fn_data node))))) d.

(** [openat(.., O_CREAT | O_EXCL)] *)
Definition sys_create (name : bytes) : dop Z () := λ d,
  syscall (λ fs,
    match fs !! name with
    | Some _ => (fs, Err KIND_ALREADY_EXISTS)
    | None => (<[name := mkNode (os_stat os (d_tick d)) [] false]> fs, Ok ())
    end) d.

Definition with_mode (s : Stat) (mode : Z) : Stat :=
  mkStat (st_kind s) (st_uid s) (st_gid s) (Z.lor (Z.ldiff (st_mode s) 4095) mode) (st_dev s)
    (st_ino s) (st_ctime s) (st_ctime_nsec s) (st_mtime s) (st_mtime_nsec s) (st_nlink s).
Definition changed_at (s : Stat) (now : Z * Z) : Stat :=
  mkStat (st_kind s) (st_uid s) (st_gid s) (st_mode s) (st_dev s) (st_ino s) now.1 now.2
    (st_mtime s) (st_mtime_nsec s) (st_nlink s).
Definition written_at (s : Stat) (now : Z * Z) : Stat :=
  mkStat (st_kind s) (st_uid s) (st_gid s) (st_mode s) (st_dev s) (st_ino s) now.1 now.2 now.1 now.2
    (st_nlink s).

(** Calls on a file this process created and still has open, by its name. *)
Definition sys_fchmod (name : bytes) (mode : Z) : dop Z () :=
  syscall (λ fs, (alter (λ n, mkNode (with_mode (fn_stat n) mode) (fn_data n) (fn_synced n)) name fs,
                  Ok ())).
Definition sys_stat_open (name : bytes) : dop Z Stat :=
  syscall (λ fs, (fs, ok_or (fn_stat <$> fs !! name) KIND_NOT_FOUND)).

(** [write_all] from an empty file: a fault leaves a prefix behind. *)
Definition sys_write (name data : bytes) : dop Z () := λ d,
  let t := d_tick d in
  let written b fs :=
    alter (λ n, mkNode (written_at (fn_stat n) (os_time os t)) b false) name fs in
  match os_fault os t with
  | None => (mkDisk (written data (d_files d)) (d_local d) (S t), Some (Ok ()))
  | Some f =>
      (mkDisk (written (take (os_written os t) data) (d_files d)) (d_local d) (S t),
       match f with Fails kind => Some (Err kind) | Stops => None end)
  end.

(** [File::sync_all] *)
Definition sys_fsync (name : bytes) : dop Z () :=
  syscall (λ fs, (alter (λ n, mkNode (fn_stat n) (fn_data n) true) name fs, Ok ())).

(** A renamed file: only the time of its last change is new. *)
Definition renamed (n : FileNode) (now : Z * Z) : FileNode :=
  mkNode (changed_at (fn_stat n) now) (fn_data n) (fn_synced n).

Definition sys_rename (old new : bytes) : dop Z () := λ d,
  syscall (λ fs,
    match fs !! old with
    | None => (fs, Err KIND_NOT_FOUND)
    | Some n => (<[new := renamed n (os_time os (d_tick d))]> (delete old fs), Ok ())
    end) d.

(** [renameat2(.., RENAME_NOREPLACE)] *)
Definition sys_rename_no_replace (old new : bytes) : dop Z () := λ d,
  syscall (λ fs,
    match fs !! old, fs !! new with
    | None, _ => (fs, Err KIND_NOT_FOUND)
    | Some _, Some _ => (fs, Err KIND_ALREADY_EXISTS)
    | Some n, None => (<[new := renamed n (os_time os (d_tick d))]> (delete old fs), Ok ())
    end) d.

(** [renameat2(.., RENAME_EXCHANGE)] *)
Definition sys_rename_exchange (one other : bytes) : dop Z () := λ d,
  let now := os_time os (d_tick d) in
  syscall (λ fs,
    match fs !! one, fs !! other with
    | Some n, Some m => (<[one := renamed m now]> (<[other := renamed n now]> fs), Ok ())
    | _, _ => (fs, Err KIND_NOT_FOUND)
    end) d.
Definition sys_unlink (name : bytes) : dop Z () :=
  syscall (λ fs, match fs !! name with
                 | None => (fs, Err KIND_NOT_FOUND)
                 | Some _ => (delete name fs, Ok ())
                 end).
(** Syncing the directory orders its entries on the medium; its contents stay. *)
Definition sys_sync_dir : dop Z () := syscall (λ fs, (fs, Ok ())).
(** The names of a directory, in the order the kernel has them. *)
Definition sys_read_dir : dop Z (list bytes) := λ d,
  syscall (λ fs, (fs, Ok (os_order os (d_tick d) fs))) d.
(** [readdir]: the next name of an opened directory, or its end. *)
Definition sys_next_entry : dop Z () := syscall (λ fs, (fs, Ok ())).
Definition sys_stat_dir : dop Z Stat := λ d, syscall (λ fs, (fs, Ok (os_directory os (d_tick d)))) d.

(** Memory granted to a computation at this point. *)
Definition with_alloc {E A} (f : allocator → result E A) : dop E A := λ d,
  (mkDisk (d_files d) (d_local d) (S (d_tick d)), Some (f (os_alloc os (d_tick d)))).

(** [CancellationSignal::is_cancelled] *)
Definition poll {E} : dop E bool := λ d,
  (mkDisk (d_files d) (d_local d) (S (d_tick d)), Some (Ok (os_cancel os (d_tick d)))).

(** Random bytes for a temporary name. *)
Definition draw {E} `{RandomSource R} (n : nat) (e : E) : dop E bytes := λ d,
  let '(r, b) := fill_bytes (d_local d) n in
  (mkDisk (d_files d) r (d_tick d), Some (map_err (λ _, e) b)).

(** [if cancellation.is_cancelled() { return Err(Unavailable) }] *)
Definition if_not_cancelled {A} (k : dop StorageBackendError A) : dop StorageBackendError A :=
  dbind poll (λ cancelled, if (cancelled : bool) then dfail Unavailable else k).
End ops.

Declare Scope disk_scope.
Delimit Scope disk_scope with disk.
Notation "x <~ m ; k" := (dbind m (λ x, k))
  (at level 60, m at next level, k at level 200, right associativity) : disk_scope.

(** ** What both backends share *)

Definition TEMP_CREATE_ATTEMPTS : nat := 16.
Definition STORAGE_DIRECTORY_MODE : Z := 448.
Definition STORAGE_RECORD_MODE : Z := 384.

Definition io_error (operation : IoOperation) (kind : Z) : StorageBackendError :=
  Io (mkIoError operation kind).

(** [DIGITS[n]] *)
Definition DIGITS : bytes := bs "0123456789abcdef".
Definition digit (n : Z) : byte := nth (Z.to_nat n) DIGITS Byte.x00.
Definition hex_lower (b : bytes) : bytes :=
  concat ((λ x, [digit (Z.shiftr (byte.unsigned x) 4); digit (Z.land (byte.unsigned x) 15)]) <$> b).

(** * Reasoning about directory operations

    What the operating system is relied on for, and the rules for computations on a
    directory: those that only read it, and those that change it. *)

(** Errors the kernel reports only for what they say: a fault of another kind is not
    "not found" and not "already exists". A listing has every name of the directory once. *)
Class DiskOsLaws (os : DiskOs) : Prop := {
  fault_kind t kind :
    os_fault os t = Some (Fails kind) → kind ≠ KIND_NOT_FOUND ∧ kind ≠ KIND_ALREADY_EXISTS;
  listing_complete t fs : os_order os t fs ≡ₚ elements (dom fs) }.

(** ** Names *)

Lemma digit_not_n n : digit n ≠ Byte.x6e.
Proof.
  unfold digit. destruct (nth_in_or_default (Z.to_nat n) DIGITS Byte.x00) as [Hin| ->]; [|done].
  intros E. rewrite E in Hin. revert Hin. vm_compute. intuition discriminate.
Qed.

Lemma hex_lower_last b : last (hex_lower b) ≠ Some Byte.x6e.
Proof.
  induction b as [|x b IH]; [done|]. unfold hex_lower in *. rewrite fmap_cons. cbn [concat].
  rewrite last_app. case_match eqn:E; [congruence|]. cbn [last]. intros [= E']. by eapply digit_not_n.
Qed.

Section rules.
  Context {R : Type} {os : DiskOs} `{!DiskOsLaws os}.
  Implicit Types (fs : files) (d : Disk R) (node : FileNode).

(** ** Reading *)

(** [reads fs m P]: on a directory [fs], [m] leaves it alone and returns only what [P] allows. *)
Definition reads {E A} fs (m : dop (R:=R) E A) (P : result E A → Prop) : Prop :=
  ∀ d d' r, m d = (d', r) → d_files d = fs → d_files d' = fs ∧ ∀ x, r = Some x → P x.

Lemma reads_case {E F A B} fs (m : dop E A) (f : A → dop F B) (g : E → dop F B) P Q :
  reads fs m P → (∀ a, P (Ok a) → reads fs (f a) Q) → (∀ e, P (Err e) → reads fs (g e) Q) →
  reads fs (dcase m f g) Q.
Proof.
  intros Hm Hf Hg d d' r Hr Hfs. unfold dcase in Hr.
  destruct (m d) as [d1 r1] eqn:Hd. destruct (Hm _ _ _ Hd Hfs) as [Hfs1 HP].
  destruct r1 as [[a|e]|]; [eapply Hf; eauto|eapply Hg; eauto|]. injection Hr as <- <-. split; [done|discriminate].
Qed.

Lemma reads_bind {E A B} fs (m : dop E A) (f : A → dop E B) P Q :
  reads fs m P → (∀ a, P (Ok a) → reads fs (f a) Q) → (∀ e, P (Err e) → Q (Err e)) →
  reads fs (dbind m f) Q.
Proof.
  intros Hm Hf Hg d d' r Hr Hfs. unfold dbind in Hr.
  destruct (m d) as [d1 r1] eqn:Hd. destruct (Hm _ _ _ Hd Hfs) as [Hfs1 HP].
  destruct r1 as [[a|e]|]; [eapply Hf; eauto| |]; injection Hr as <- <-; split; try done.
  intros x [= <-]. by apply Hg, HP.
Qed.

Lemma reads_lift {E A} fs (x : result E A) (P : result E A → Prop) : P x → reads fs (dlift x) P.
Proof. intros HP d d' r [= <- <-] ?. split; [done|]. by intros y [= <-]. Qed.

Lemma reads_alloc {E A} fs (f : allocator → result E A) (P : result E A → Prop) :
  (∀ alloc, P (f alloc)) → reads fs (with_alloc os f) P.
Proof. intros HP d d' r [= <- <-] ?. split; [done|]. by intros y [= <-]. Qed.

Lemma reads_poll {E} fs (P : result E bool → Prop) : (∀ b, P (Ok b)) → reads fs (poll os) P.
Proof. intros HP d d' r [= <- <-] ?. split; [done|]. by intros y [= <-]. Qed.

Lemma reads_syscall {A} fs (run : files → files * result Z A) (P : result Z A → Prop) :
  (run fs).1 = fs → P (run fs).2 →
  (∀ kind, kind ≠ KIND_NOT_FOUND → kind ≠ KIND_ALREADY_EXISTS → P (Err kind)) →
  reads fs (syscall os run) P.
Proof.
  intros Hfs HP He d d' r Hr Hd. unfold syscall in Hr. rewrite Hd in Hr.
  destruct (os_fault os (d_tick d)) as [[kind|]|] eqn:Hf; [| |destruct (run fs); simpl in *];
    injection Hr as <- <-; simpl; (split; [done|]); intros x Hx; simplify_eq; [|done].
  apply fault_kind in Hf as []. by apply He.
Qed.

Lemma reads_mono {E A} fs (m : dop E A) (P Q : result E A → Prop) :
  reads fs m P → (∀ x, P x → Q x) → reads fs m Q.
Proof. intros Hm HPQ d d' r Hr Hfs. destruct (Hm _ _ _ Hr Hfs). eauto. Qed.

Lemma reads_sys_open fs name (P : result Z FileNode → Prop) :
  (∀ node, fs !! name = Some node → st_kind (fn_stat node) ≠ SymbolicLink → P (Ok node)) →
  (fs !! name = None → P (Err KIND_NOT_FOUND)) →
  (∀ kind, kind ≠ KIND_NOT_FOUND → P (Err kind)) →
  reads fs (sys_open os name) P.
Proof.
  intros Hok Hno Herr. apply reads_syscall; [done| |eauto]. simpl.
  destruct (fs !! name) eqn:E; [|eauto]. case_bool_decide; [by apply Herr|eauto].
Qed.

Lemma reads_map_err {E F A} fs (m : dop E A) (g : E → F) P (Q : result F A → Prop) :
  reads fs m P → (∀ a, P (Ok a) → Q (Ok a)) → (∀ e, P (Err e) → Q (Err (g e))) →
  reads fs (dmap_err g m) Q.
Proof.
  intros Hm Ha He. eapply reads_case; [done| |]; intros x Hx; apply (reads_lift fs (_ : result _ _)); auto.
Qed.

Lemma if_not_cancelled_reads {A} fs (m : dop StorageBackendError A) Q :
  reads fs m Q → Q (Err Unavailable) → reads fs (if_not_cancelled os m) Q.
Proof.
  intros Hm Hq. unfold if_not_cancelled.
  eapply (reads_bind _ _ _ (λ x, match x with Ok _ => True | Err _ => False end));
    [by apply reads_poll| |done].
  intros [] _; [by apply (reads_lift fs (Err _))|done].
Qed.

Lemma reads_sys_read fs node pos amount (P : result Z bytes → Prop) :
  (∀ n, (Nat.min 1 amount ≤ n ≤ amount)%nat → P (Ok (take n (drop pos (fn_data node))))) →
  (∀ kind, P (Err kind)) → reads fs (sys_read os node pos amount) P.
Proof.
  intros Hok Herr d d' r Hr Hfs. unfold sys_read in Hr.
  eapply (reads_syscall fs (λ fs, (fs, Ok _))); [done| |by intros|exact Hr|done]. apply Hok. lia.
Qed.

Lemma reads_sys_read_dir fs (P : result Z (list bytes) → Prop) :
  (∀ names, names ≡ₚ elements (dom fs) → P (Ok names)) → (∀ kind, P (Err kind)) →
  reads fs (sys_read_dir os) P.
Proof.
  intros Hok Herr d d' r Hr Hfs. unfold sys_read_dir in Hr.
  eapply (reads_syscall fs (λ fs, (fs, Ok _))); [done| |by intros|exact Hr|done].
  apply Hok, listing_complete.
Qed.

(** ** Changing *)

(** [wp m Q fs]: run on [fs], [m] ends in a directory and with an answer [Q] allows; no
    answer is that the machine stopped. *)
Definition wp {E A} (m : dop (R:=R) E A) (Q : files → option (result E A) → Prop) fs : Prop :=
  ∀ d d' r, m d = (d', r) → d_files d = fs → Q (d_files d') r.

Lemma wp_case {E F A B} (m : dop E A) (f : A → dop F B) (g : E → dop F B) Q fs :
  wp m (λ fs' r, match r with
                 | Some (Ok a) => wp (f a) Q fs' | Some (Err e) => wp (g e) Q fs'
                 | None => Q fs' None end) fs →
  wp (dcase m f g) Q fs.
Proof.
  intros Hm d d' r Hr Hfs. unfold dcase in Hr. destruct (m d) as [d1 r1] eqn:Hd.
  specialize (Hm _ _ _ Hd Hfs).
  destruct r1 as [[a|e]|]; [by eapply Hm|by eapply Hm|]. by injection Hr as <- <-.
Qed.

Lemma wp_ret {E A} (x : result E A) (Q : files → option (result E A) → Prop) fs :
  Q fs (Some x) → wp (dlift x) Q fs.
Proof. intros HQ d d' r [= <- <-] <-. done. Qed.

Lemma wp_bind {E A B} (m : dop E A) (f : A → dop E B) Q fs :
  wp m (λ fs' r, match r with
                 | Some (Ok a) => wp (f a) Q fs' | Some (Err e) => Q fs' (Some (Err e))
                 | None => Q fs' None end) fs →
  wp (dbind m f) Q fs.
Proof.
  intros Hm d d' r Hr Hfs. unfold dbind in Hr. destruct (m d) as [d1 r1] eqn:Hd.
  specialize (Hm _ _ _ Hd Hfs).
  destruct r1 as [[a|e]|]; [by eapply Hm| |]; by injection Hr as <- <-.
Qed.

Lemma wp_map_err {E F A} (g : E → F) (m : dop E A) Q fs :
  wp m (λ fs' r, Q fs' (map_err g <$> r)) fs → wp (dmap_err g m) Q fs.
Proof.
  intros Hm. apply wp_case. intros d d' r Hr Hfs. specialize (Hm _ _ _ Hr Hfs).
  destruct r as [[a|e]|]; [by apply (wp_ret (Ok a))|by apply (wp_ret (Err _))|done].
Qed.

Lemma wp_mono {E A} (m : dop E A) (P Q : files → option (result E A) → Prop) fs :
  wp m P fs → (∀ fs' r, P fs' r → Q fs' r) → wp m Q fs.
Proof. intros Hm HPQ d d' r Hr Hfs. eauto. Qed.

Lemma reads_wp {E A} fs (m : dop E A) (P : result E A → Prop) (Q : files → option (result E A) → Prop) :
  reads fs m P → Q fs None → (∀ x, P x → Q fs (Some x)) → wp m Q fs.
Proof.
  intros Hm HN HP d d' r Hr Hfs. destruct (Hm _ _ _ Hr Hfs) as [-> Hx]. destruct r; auto.
Qed.

Lemma wp_syscall {A} (run : files → files * result Z A) Q fs :
  Q (run fs).1 (Some (run fs).2) → Q fs None →
  (∀ kind, kind ≠ KIND_NOT_FOUND → kind ≠ KIND_ALREADY_EXISTS → Q fs (Some (Err kind))) →
  wp (syscall os run) Q fs.
Proof.
  intros HP HN He d d' r Hr Hd. unfold syscall in Hr. rewrite Hd in Hr.
  destruct (os_fault os (d_tick d)) as [[kind|]|] eqn:Hf; [| |destruct (run fs)];
    injection Hr as <- <-; [|done..].
  apply fault_kind in Hf as []. by apply He.
Qed.

Lemma sys_create_wp name fs :
  wp (sys_create os name) (λ fs' r, match r with
    | Some (Ok _) => fs !! name = None ∧ ∃ node, fs' = <[name := node]> fs
    | _ => fs' = fs end) fs.
Proof.
  intros d d' r Hr Hd. unfold sys_create, syscall in Hr. rewrite Hd in Hr.
  destruct (os_fault os _) as [[]|]; [by injection Hr as <- <-..|].
  destruct (fs !! name) eqn:E; injection Hr as <- <-; simpl; eauto.
Qed.
End rules.
