(* ===== verification/Backend.v ===== *)
(** * A storage backend over a directory, a cache and a budget

    What the two storage backends of [crates/howy-daemon/src/storage] are made of: the
    directory of [Disk] behind the model cache and the plaintext budget, and the operations on
    permits, leases and cached models both use. A permit that a Rust scope drops is dropped
    here, at the end of the scope, on every path. *)

From S2P Require Import Prelude Bytes Storage Crypto Contracts Budget Cache Handlers Disk.

(** ** Operations on the backend *)

Record Backend (R : Type) := mkBackend {
  b_disk : Disk R; b_world : World; b_cache : CacheState }.
Arguments mkBackend {R} _ _ _.
Arguments b_disk {R} _.
Arguments b_world {R} _.
Arguments b_cache {R} _.

(** [AppendResult] *)
Record AppendResult := mkAppendResult { ar_generation : Z; ar_appended : Z; ar_total_entries : Z }.

(** [PlaintextCachePromotion], [Mode1CachePromotion]: a model loaded but not yet cached, with
    the state it was loaded in; the model is the handle the promotion owns. *)
Record CachePromotion := mkPromotion {
  pm_identity : bytes; pm_username : CanonicalUsername; pm_revision : Z; pm_generation : Z;
  pm_model : positive }.

(** The order [reload] sorts its records in. *)
Definition status_le (l r : OuterRecordStatus) : Prop :=
  bytes_leb (user_bytes (os_username l)) (user_bytes (os_username r)) = true.
#[export] Instance status_le_dec : RelDecision status_le.
Proof. intros l r. unfold status_le. apply _. Defined.

Section backend.
  Context {R : Type} (os : DiskOs) (limits : ModelCacheLimits).

(** [None]: an accounting [expect] fails; [Some (_, None)]: the machine stopped. *)
Definition bop (A : Type) : Type := Backend R → option (Backend R * option (bresult A)).

Definition bret {A} (a : A) : bop A := λ b, Some (b, Some (Ok a)).
Definition bfail {A} (e : StorageBackendError) : bop A := λ b, Some (b, Some (Err e)).
Definition bcase {A B} (m : bop A) (f : A → bop B) (g : StorageBackendError → bop B) : bop B := λ b,
  match m b with
  | Some (b, Some (Ok a)) => f a b
  | Some (b, Some (Err e)) => g e b
  | Some (b, None) => Some (b, None)
  | None => None
  end.
Definition bbind {A B} (m : bop A) (f : A → bop B) : bop B := bcase m f bfail.
Definition blift {A} (r : bresult A) : bop A := λ b, Some (b, Some r).

Definition on_disk {A} (m : dop (R:=R) StorageBackendError A) : bop A := λ b,
  let '(d, r) := m (b_disk b) in Some (mkBackend d (b_world b) (b_cache b), r).
Definition on_cache {A} (f : World → CacheState → option (World * CacheState * bresult A)) : bop A :=
  λ b, '(w, c, r) ← f (b_world b) (b_cache b); Some (mkBackend (b_disk b) w c, Some r).
Definition on_world {A} (f : World → option (World * bresult A)) : bop A :=
  on_cache (λ w c, '(w, r) ← f w; Some (w, c, r)).

#[local] Notation "x <- m ; k" := (bbind m (λ x, k))
  (at level 60, m at next level, k at level 200, right associativity).

(** ** Permits and leases *)

Definition drop_operation (permit : positive) : bop () :=
  on_world (λ w, w ← world_drop_permit w permit; Some (w, Ok ())).
Definition release_lease (a : positive) : bop () := on_world (λ w, w ← arc_drop w a; Some (w, Ok ())).

(** A permit owned by the scope of [m], dropped when it returns. *)
Definition holding {A} (permit : positive) (m : bop A) : bop A :=
  bcase m (λ a, _ <- drop_operation permit; bret a) (λ e, _ <- drop_operation permit; bfail e).
(** A permit [m] consumes when it succeeds, dropped when it fails. *)
Definition unless_consumed {A} (permit : positive) (m : bop A) : bop A :=
  bcase m bret (λ e, _ <- drop_operation permit; bfail e).

(** [BudgetPermit::shrink_to], the guard it carries released with it. *)
Definition world_shrink (permit : positive) (n : Z) (w : World) : option (World * bresult positive) :=
  '(b, g, r) ← shrink_to (w_budget w) permit n;
  Some (mkWorld b (w_arcs w) (release_guard (w_active w) g), r).

(** [ModelCache::reserve_operation], and [reserve_operation_for_user] with its user protected. *)
Definition reserve_bytes (protected : option CanonicalUsername) (n : Z) : bop positive :=
  on_cache (λ w c, reserve_operation_except w c n protected).

Definition invalidate (u : CanonicalUsername) : bop () :=
  on_cache (λ w c, '(w, c) ← cache_invalidate w c u; Some (w, c, Ok ())).

(** [ModelCache::get], an absent entry being [Ok None]. *)
Definition cached_lease (u : CanonicalUsername) : bop (option positive) :=
  on_cache (λ w c, '(w, c, r) ← cache_get w c u; Some (w, c, Ok r)).

Definition insert_model (u : CanonicalUsername) (model : AuthModel) (permit : positive) : bop positive :=
  on_cache (λ w c, cache_insert limits w c u model permit).

(** The reservation shrunk to the model, and the model cached; whatever fails, nothing is. *)
Definition cache_model (u : CanonicalUsername) (model : AuthModel) (operation : positive) : bop () :=
  bcase (on_world (world_shrink operation (am_plaintext_bytes model)))
    (λ permit, bcase (insert_model u model permit) release_lease (λ _, bret ()))
    (λ _, bret ()).

Definition check_cancelled : bop () :=
  on_disk (if_not_cancelled os (dret ())).

(** A lease given up when the operation was cancelled. *)
Definition lease_if_not_cancelled (a : positive) : bop positive :=
  bcase check_cancelled (λ _, bret a) (λ e, _ <- release_lease a; bfail e).

(** Promotion while the backend with that identity lives; [publish] is what the predicate
    answers. *)
Definition promote_with (identity : bytes) (p : CachePromotion) (publish : bool) : bop bool :=
  if negb (bool_decide (pm_identity p = identity)) then
    _ <- release_lease (pm_model p); bret false
  else
    on_cache (λ w c,
      '(w, c, r, _) ← insert_provisional_if_revision limits w c (pm_username p)
                        (pm_revision p) (pm_generation p) (pm_model p) publish;
      Some (w, c, r)).
End backend.

Declare Scope backend_scope.
Delimit Scope backend_scope with backend.
Notation "x <- m ; k" := (bbind m (λ x, k))
  (at level 60, m at next level, k at level 200, right associativity) : backend_scope.

(** [Iter::position] of an enrollment, and [Vec::remove] there. *)
Fixpoint position (id : EnrollmentId) (es : list EnrollmentEntry) : option nat :=
  match es with
  | [] => None
  | e :: es => if bool_decide (enrollment_id e = id) then Some 0%nat else S <$> position id es
  end.
