(* ===== verification/Plaintext.v ===== *)
(** * The plaintext storage backend

    [crates/howy-daemon/src/storage/plaintext.rs]: one record per user in a directory,
    replaced by renaming a synced temporary file, and the model cache in front of it. The
    directory's calls are those of [Disk]; the cache and the budget those of [Cache]. An
    operation runs under the user's serializer and the reload gate, so it is one step; a
    cache promotion, which takes neither, is a step of its own. *)

From S2P Require Import Prelude Bytes Storage Crypto Codec Legacy Contracts Budget Cache Handlers Disk.

Local Open Scope disk_scope.

(** ** Settings *)

Record PlaintextStorageLimits := mkPlainLimits { pl_max_entries : Z; pl_max_record_bytes : Z }.

(** [PlaintextStorageLimits::new] *)
Definition PlaintextStorageLimits_new (max_entries max_record_bytes : Z)
    : bresult PlaintextStorageLimits :=
  max_entries ← ok_or (try_from_u USIZE_MAX max_entries) (InvalidInput "entry count limit");
  max_record_bytes ← ok_or (try_from_u USIZE_MAX max_record_bytes) (InvalidInput "record byte limit");
  if (max_entries =? 0) || (MAX_ENTRIES <? max_entries)
  then Err (InvalidInput "entry count limit")
  else if (max_record_bytes =? 0) || (MAX_PLAINTEXT_BYTES <? max_record_bytes)
  then Err (InvalidInput "record byte limit")
  else Ok (mkPlainLimits max_entries max_record_bytes).

(** The parts of [PlaintextStorageBackend] that do not change. *)
Record PlaintextSettings := mkPlainSettings {
  pb_owner : Z;
  pb_model : ModelDigest;
  pb_limits : PlaintextStorageLimits;
  pb_reservation : Z;
  pb_identity : bytes;
  pb_cache_limits : ModelCacheLimits }.

(** ** Errors *)

Definition map_storage_error (e : StorageError) : StorageBackendError :=
  match e with
  | BindingMismatch what =>
      if bool_decide (what = "recognizer model"%string) then BackendModelMismatch else Corrupt
  | GenerationOverflow => BackendGenerationOverflow
  | AllocationFailed _ => Unavailable
  | _ => Corrupt
  end.

Definition map_mutation_record_error (e : StorageError) : StorageBackendError :=
  match e with
  | GenerationOverflow => BackendGenerationOverflow
  | AllocationFailed _ => Unavailable
  | _ => InvalidInput "record"
  end.

Definition validate_metadata_io (s : Stat) (directory : bool) (expected_owner expected_mode : Z)
    : result Z () :=
  let correct_type := bool_decide (st_kind s = if directory then DirectoryFile else RegularFile) in
  if negb correct_type || negb (st_uid s =? expected_owner)
     || negb (Z.land (st_mode s) 4095 =? expected_mode)
  then Err KIND_PERMISSION_DENIED
  else Ok ().

Definition validate_metadata (s : Stat) (directory : bool) (expected_owner expected_mode : Z)
    : bresult () :=
  map_err (io_error IoInspect) (validate_metadata_io s directory expected_owner expected_mode).

(** ** Names *)

Definition filename (u : CanonicalUsername) (extension : bytes) : bytes :=
  user_bytes u ++ bs "." ++ extension.
Definition BIN : bytes := bs "bin".
Definition JSON : bytes := bs "json".

Definition temp_name (destination suffix : bytes) : bytes :=
  bs "." ++ destination ++ bs ".tmp." ++ suffix.

Section plaintext.
  Context `{Sha256} `{LegacyDecoders} {R : Type} `{RandomSource R}.
  Context (os : DiskOs) (cfg : PlaintextSettings).

(** ** Reading records *)

Abbreviation dres A := (dop (R:=R) StorageBackendError A).
Abbreviation max_record := (pl_max_record_bytes (pb_limits cfg)).

(** The open file a user's record is read from: [.bin], or else [.json]; [None]: neither. *)
Definition open_selected (u : CanonicalUsername)
    : dres (option (FileNode * LegacySourceEncoding)) :=
  dcase (sys_open os (filename u BIN))
    (λ file, dret (Some (file, BincodeThenJson)))
    (λ kind,
       if kind =? KIND_NOT_FOUND then
         dcase (sys_open os (filename u JSON))
           (λ file, dret (Some (file, JsonOnly)))
           (λ kind, if kind =? KIND_NOT_FOUND then dret None else dfail (io_error IoOpen kind))
       else dfail (io_error IoOpen kind)).

(** [validate_record_file]: the length of the record. *)
Definition validate_record_file (file : FileNode) : dres Z :=
  metadata <~ dmap_err (io_error IoInspect) (sys_fstat os file);
  _ <~ dlift (validate_metadata metadata false (pb_owner cfg) STORAGE_RECORD_MODE);
  if (len (fn_data file) =? 0) || (max_record <? len (fn_data file)) then dfail Corrupt
  else dret (len (fn_data file)).

(** [try_reserve_exact] of the record's buffer. *)
Definition reserve_record (capacity : Z) : dres () :=
  with_alloc os (λ alloc, if alloc "record"%string capacity then Ok ()
                          else Err (InvalidInput "record allocation")).

Definition read_source (file : FileNode) : dres bytes :=
  capacity <~ validate_record_file file;
  _ <~ reserve_record capacity;
  b <~ dmap_err (io_error IoRead) (sys_read_to_end os file (saturating_add max_record 1));
  if negb (len b =? capacity) || (max_record <? len b) then dfail Corrupt else dret b.

(** [[0u8; 8192]] *)
Definition CHUNK_BYTES : nat := Z.to_nat 8192.

(** The chunk loop of [read_source_cancellable]; every read makes progress. *)
Fixpoint read_chunks (fuel : nat) (file : FileNode) (capacity : nat) (acc : bytes) : dres bytes :=
  if (capacity <=? length acc)%nat then dret acc
  else
    match fuel with
    | O => dfail Corrupt
    | S fuel =>
        if_not_cancelled os (
          chunk <~ dmap_err (io_error IoRead)
                     (sys_read os file (length acc) (Nat.min (capacity - length acc) CHUNK_BYTES));
          if bool_decide (chunk = []) then dfail Corrupt
          else read_chunks fuel file capacity (acc ++ chunk))
    end.

Definition read_source_cancellable (file : FileNode) : dres bytes :=
  capacity <~ validate_record_file file;
  _ <~ reserve_record capacity;
  b <~ read_chunks (Z.to_nat capacity) file (Z.to_nat capacity) [];
  if_not_cancelled os (
    extra <~ dmap_err (io_error IoRead) (sys_read os file (length b) 1);
    if bool_decide (extra = []) then dret b else dfail Corrupt).

Definition decode_source (u : CanonicalUsername) (encoding : LegacySourceEncoding) (b : bytes)
    : dres DecodedPlaintextRecord :=
  with_alloc os (λ alloc,
    map_err map_storage_error
      (decode_plaintext_record alloc b encoding u (pb_model cfg) (pl_max_entries (pb_limits cfg)))).

Definition load_record (u : CanonicalUsername) : dres DecodedPlaintextRecord :=
  selected <~ open_selected u;
  match selected with
  | None => dfail BackendAbsent
  | Some (file, encoding) => b <~ read_source file; decode_source u encoding b
  end.

Definition load_record_cancellable (u : CanonicalUsername) : dres DecodedPlaintextRecord :=
  if_not_cancelled os (
  selected <~ open_selected u;
  match selected with
  | None => dfail BackendAbsent
  | Some (file, encoding) =>
      b <~ read_source_cancellable file;
      if_not_cancelled os (record <~ decode_source u encoding b; if_not_cancelled os (dret record))
  end).

(** [prompt_metadata_generation] *)
Definition prompt_metadata_generation (path_kind : bytes) (file : FileNode) (s : Stat) : Z :=
  let digest := sha256 (
    bs "howy-mode0-prompt-metadata-v1" ++ [Byte.x00] ++ bs "plaintext" ++ [Byte.x00]
    ++ le64 (len path_kind) ++ path_kind ++ le64 (st_dev s) ++ le64 (st_ino s)
    ++ le64 (len (fn_data file)) ++ le64 (st_ctime s) ++ le64 (st_ctime_nsec s)
    ++ le64 (st_mtime s) ++ le64 (st_mtime_nsec s) ++ le32 (st_uid s) ++ le32 (st_gid s)
    ++ le32 (st_mode s) ++ pb_identity cfg ++ digest_bytes (pb_model cfg)) in
  Z.max (le_combine (take 8 digest)) 1.

Definition inspect_prompt_candidate (u : CanonicalUsername) : dres CandidatePresence :=
  selected <~ open_selected u;
  match selected with
  | None => dret NoCandidate
  | Some (file, encoding) =>
      _ <~ validate_record_file file;
      metadata <~ dmap_err (io_error IoInspect) (sys_fstat os file);
      let path_kind := match encoding with BincodeThenJson => BIN | JsonOnly => JSON end in
      dret (Candidate (prompt_metadata_generation path_kind file metadata))
  end.

(** ** Writing records *)

Definition next_mutation_generation (loaded : DecodedPlaintextRecord) : bresult Z :=
  match decoded_format loaded with
  | LegacyFormat => Ok 1
  | HowyPln1 => map_err map_storage_error (checked_next_generation (generation (decoded_record loaded)))
  end.

Definition random_temp_suffix : dres bytes :=
  nonce <~ draw 16 Unavailable; dret (hex_lower nonce).

Definition create_temp (name : bytes) : dop (R:=R) Z () :=
  _ <~ sys_create os name;
  _ <~ sys_fchmod os name STORAGE_RECORD_MODE;
  metadata <~ sys_stat_open os name;
  dlift (validate_metadata_io metadata false (pb_owner cfg) STORAGE_RECORD_MODE).

(** [let _ = unlink_at(..); return Err(e)] *)
Definition unlink_and_fail {A} (name : bytes) (e : StorageBackendError) : dres A :=
  dcase (sys_unlink os name) (λ _, dfail e) (λ _, dfail e).

(** The closure of [write_record], once the temporary file exists. *)
Definition publish_temp (temporary destination encoded : bytes) : dres () :=
  _ <~ dmap_err (io_error IoWrite) (sys_write os temporary encoded);
  _ <~ dmap_err (io_error IoSync) (sys_fsync os temporary);
  _ <~ dmap_err (io_error IoRename) (sys_rename os temporary destination);
  dmap_err (io_error IoSync) (sys_sync_dir os).

Fixpoint write_attempts (attempts : nat) (destination encoded : bytes) : dres () :=
  match attempts with
  | O => dfail (io_error IoCreate KIND_ALREADY_EXISTS)
  | S attempts =>
      suffix <~ random_temp_suffix;
      let temporary := temp_name destination suffix in
      dcase (create_temp temporary)
        (λ _, dcase (publish_temp temporary destination encoded) dret (unlink_and_fail temporary))
        (λ kind,
           if kind =? KIND_ALREADY_EXISTS then write_attempts attempts destination encoded
           else unlink_and_fail temporary (io_error IoCreate kind))
  end.

Definition write_record (record : EnrollmentRecord) : dres () :=
  encoded <~ with_alloc os (λ alloc, map_err map_storage_error (encode_howypln1 alloc record));
  if max_record <? len encoded then dfail (InvalidInput "record byte length")
  else write_attempts TEMP_CREATE_ATTEMPTS (filename (username record) BIN) encoded.

Definition optional_valid_record (name : bytes) : dres bool :=
  dcase (sys_open os name)
    (λ file, metadata <~ dmap_err (io_error IoInspect) (sys_fstat os file);
             _ <~ dlift (validate_metadata metadata false (pb_owner cfg) STORAGE_RECORD_MODE);
             dret true)
    (λ kind, if kind =? KIND_NOT_FOUND then dret false else dfail (io_error IoOpen kind)).

(** [clear_fallback_before_authoritative] *)
Definition remove_and_sync (exists_ : bool) (name : bytes) : dres () :=
  if exists_ then
    _ <~ dmap_err (io_error IoRemove) (sys_unlink os name);
    dmap_err (io_error IoSync) (sys_sync_dir os)
  else dret ().
Definition clear_fallback_before_authoritative (fallback_exists authoritative_exists : bool)
    (u : CanonicalUsername) : dres () :=
  _ <~ remove_and_sync fallback_exists (filename u JSON);
  remove_and_sync authoritative_exists (filename u BIN).
End plaintext.
