(* ===== verification/PlaintextStore.v ===== *)
(** * The plaintext storage backend: operations

    The [StorageBackend] implementation of
    [crates/howy-daemon/src/storage/plaintext.rs]: the directory of [Plaintext] behind the
    model cache and the plaintext budget of [Backend]. *)

From stdpp Require Import sorting.
From S2P Require Import Prelude Bytes Storage Crypto Codec Legacy Contracts Budget Cache PromptState Handlers Disk Backend Plaintext.

Local Open Scope backend_scope.

Section store.
  Context `{Sha256} `{LegacyDecoders} {R : Type} `{RandomSource R}.
  Context (os : DiskOs) (cfg : PlaintextSettings).

Definition operation_permit : bop (R:=R) positive := reserve_bytes None (pb_reservation cfg).

(** [cache_committed_model] *)
Definition cache_committed_model (u : CanonicalUsername) (model : AuthModel) (operation : positive)
    : bop (R:=R) () := cache_model (pb_cache_limits cfg) u model operation.

(** ** Mutations *)

(** [Ok(loaded) => Some, Err(Absent) => None], other errors returned. *)
Definition load_optional (u : CanonicalUsername) : bop (R:=R) (option DecodedPlaintextRecord) :=
  bcase (on_disk (load_record os cfg u)) (λ loaded, bret (Some loaded))
    (λ e, match e with BackendAbsent => bret None | _ => bfail e end).

(** The record [append] writes. *)
Definition appended_record (request : AppendRequest) (loaded : option DecodedPlaintextRecord)
    : bresult EnrollmentRecord :=
  let current_generation :=
    from_option (λ d, generation (decoded_record d)) ABSENT_GENERATION loaded in
  let current := from_option (λ d, entries (decoded_record d)) [] loaded in
  if negb (current_generation =? ap_expected_generation request)
  then Err (Conflict current_generation)
  else
    total ← ok_or (checked_add (len current) (len (ap_entries request))) (InvalidInput "entry count");
    if pl_max_entries (pb_limits cfg) <? total then Err (InvalidInput "entry count")
    else
      gen ← match loaded with Some value => next_mutation_generation value | None => Ok 1 end;
      map_err map_mutation_record_error
        (EnrollmentRecord_new gen (pb_model cfg) (ap_username request)
           (current ++ ap_entries request)).

(** [append_with_operation_after_user] *)
Definition append_with_operation (request : AppendRequest) (operation : positive)
    : bop (R:=R) AppendResult := λ b,
  match permits (w_budget (b_world b)) !! operation with
  | None => Some (b, Some (Err (InvalidInput "append operation reservation")))
  | Some p =>
      if permit_bytes p <? pb_reservation cfg then
        (_ <- drop_operation operation; bfail (InvalidInput "append operation reservation")) b
      else
        (prepared <- unless_consumed operation (
           _ <- invalidate (ap_username request);
           loaded <- load_optional (ap_username request);
           record <- blift (appended_record request loaded);
           model <- blift (AuthModel_from_record record);
           _ <- on_disk (write_record os cfg record);
           bret (record, model));
         _ <- cache_committed_model (ap_username request) prepared.2 operation;
         bret (mkAppendResult (generation prepared.1) (len (ap_entries request))
                 (len (entries prepared.1)))) b
  end.

Definition append (request : AppendRequest) : bop (R:=R) AppendResult :=
  operation <- operation_permit; append_with_operation request operation.

Definition admit_enrollment (u : CanonicalUsername) (plaintext_bytes : Z)
    : bop (R:=R) (EnrollmentAdmission CanonicalUsername) :=
  on_cache (λ w c, reserve_enrollment_for_user w c (pb_reservation cfg) plaintext_bytes u).

(** [Absent] as a conflict with the absent generation, then the generation check. *)
Definition load_current (u : CanonicalUsername) (expected_generation : Z) : bop (R:=R) DecodedPlaintextRecord :=
  loaded <- bcase (on_disk (load_record os cfg u)) bret
              (λ e, bfail match e with BackendAbsent => Conflict ABSENT_GENERATION | _ => e end);
  if negb (generation (decoded_record loaded) =? expected_generation)
  then bfail (Conflict (generation (decoded_record loaded)))
  else bret loaded.

(** The record [remove] writes. *)
Definition shortened_record (request : RemoveRequest) (loaded : DecodedPlaintextRecord)
    : bresult EnrollmentRecord :=
  let record := decoded_record loaded in
  index ← ok_or (position (rm_enrollment_id request) (entries record))
            (Conflict (generation record));
  gen ← next_mutation_generation loaded;
  map_err map_mutation_record_error
    (EnrollmentRecord_new gen (pb_model cfg) (rm_username request)
       (take index (entries record) ++ drop (S index) (entries record))).

Definition remove (request : RemoveRequest) : bop (R:=R) RemoveResult :=
  _ <- invalidate (rm_username request);
  operation <- operation_permit;
  prepared <- unless_consumed operation (
    loaded <- load_current (rm_username request) (rm_expected_generation request);
    record <- blift (shortened_record request loaded);
    model <- (if bool_decide (entries record = []) then bret None
              else model <- blift (AuthModel_from_record record); bret (Some model));
    _ <- on_disk (write_record os cfg record);
    bret (record, model));
  _ <- match prepared.2 with
       | Some model => cache_committed_model (rm_username request) model operation
       | None => drop_operation operation
       end;
  bret (mkRemoveResult (generation prepared.1) (rm_enrollment_id request)).

Definition clear (request : ClearRequest) : bop (R:=R) ClearResult :=
  let u := cl_username request in
  _ <- invalidate u;
  permit <- operation_permit;
  holding permit (
    loaded <- load_current u (cl_expected_generation request);
    authoritative_exists <- on_disk (optional_valid_record os cfg (filename u BIN));
    fallback_exists <- on_disk (optional_valid_record os cfg (filename u JSON));
    _ <- on_disk (clear_fallback_before_authoritative os fallback_exists authoritative_exists u);
    bret (mkClearResult ABSENT_GENERATION (len (entries (decoded_record loaded))))).

(** ** Queries *)

Definition list_metadata (u : CanonicalUsername) : bop (R:=R) MetadataList :=
  permit <- operation_permit;
  holding permit (
    loaded <- on_disk (load_record os cfg u); bret (metadata_from_record (decoded_record loaded))).

Definition candidate_presence (u : CanonicalUsername) : bop (R:=R) CandidatePresence :=
  permit <- operation_permit;
  holding permit (
    loaded <- load_optional u;
    bret (match loaded with
          | Some d => if bool_decide (entries (decoded_record d) = []) then NoCandidate
                      else Candidate (generation (decoded_record d))
          | None => NoCandidate
          end)).

Definition prompt_snapshot (u : CanonicalUsername) : bop (R:=R) PromptStorageSnapshot :=
  candidate <- on_disk (inspect_prompt_candidate os cfg u);
  bret (mkStorageSnapshot Ready candidate (pb_identity cfg) (digest_bytes (pb_model cfg))).

(** ** Authentication *)

(** The model of a loaded record; an empty record is absent. *)
Definition loaded_model (loaded : DecodedPlaintextRecord) : bresult AuthModel :=
  if bool_decide (entries (decoded_record loaded) = []) then Err BackendAbsent
  else AuthModel_from_record (decoded_record loaded).

(** [authenticate]: a lease. *)
Definition authenticate (u : CanonicalUsername) : bop (R:=R) positive :=
  first <- cached_lease u;
  match first with
  | Some lease => bret lease
  | None =>
      second <- cached_lease u;
      match second with
      | Some lease => bret lease
      | None =>
          operation <- operation_permit;
          model <- unless_consumed operation (
            loaded <- on_disk (load_record os cfg u); blift (loaded_model loaded));
          permit <- on_world (world_shrink operation (am_plaintext_bytes model));
          insert_model (pb_cache_limits cfg) u model permit
      end
  end.

Definition authenticate_cancellable (u : CanonicalUsername) : bop (R:=R) positive :=
  _ <- check_cancelled os;
  first <- cached_lease u;
  match first with
  | Some lease => lease_if_not_cancelled os lease
  | None =>
      _ <- check_cancelled os;
      second <- cached_lease u;
      match second with
      | Some lease => lease_if_not_cancelled os lease
      | None =>
          operation <- operation_permit;
          model <- unless_consumed operation (
            loaded <- on_disk (load_record_cancellable os cfg u);
            model <- blift (loaded_model loaded);
            _ <- check_cancelled os;
            bret model);
          permit <- on_world (world_shrink operation (am_plaintext_bytes model));
          _ <- bcase (check_cancelled os) bret (λ e, _ <- drop_operation permit; bfail e);
          lease <- insert_model (pb_cache_limits cfg) u model permit;
          bcase (check_cancelled os) (λ _, bret lease)
            (λ e, _ <- invalidate u; _ <- release_lease lease; bfail e)
      end
  end.

(** [authenticate_active]: a lease, and the promotion of a cold load. *)
Definition authenticate_active (u : CanonicalUsername)
    : bop (R:=R) (positive * option CachePromotion) :=
  _ <- check_cancelled os;
  first <- cached_lease u;
  match first with
  | Some lease => lease <- lease_if_not_cancelled os lease; bret (lease, None)
  | None =>
      _ <- check_cancelled os;
      second <- cached_lease u;
      match second with
      | Some lease => lease <- lease_if_not_cancelled os lease; bret (lease, None)
      | None =>
          operation <- operation_permit;
          expected_revision <- (λ b, Some (b, Some (Ok (c_revision (b_cache b)))));
          model <- unless_consumed operation (
            loaded <- on_disk (load_record_cancellable os cfg u);
            model <- blift (loaded_model loaded);
            _ <- check_cancelled os;
            bret model);
          permit <- on_world (world_shrink operation (am_plaintext_bytes model));
          provisional <- on_world (λ w, CachedAuthModel_new w model permit);
          _ <- on_world (λ w, w ← arc_clone w provisional; Some (w, Ok ()));
          let promotion :=
            mkPromotion (pb_identity cfg) u expected_revision (am_generation model) provisional in
          bcase (check_cancelled os) (λ _, bret (provisional, Some promotion))
            (λ e, _ <- release_lease provisional; _ <- release_lease provisional; bfail e)
      end
  end.

(** [PlaintextCachePromotion::promote_if] *)
Definition promote_if (p : CachePromotion) (publish : bool) : bop (R:=R) bool :=
  promote_with (pb_cache_limits cfg) (pb_identity cfg) p publish.

(** ** Reload *)

Definition strip_suffix (suffix name : bytes) : option bytes :=
  let n := (length name - length suffix)%nat in
  if bool_decide (drop n name = suffix) then Some (take n name) else None.

(** The user a directory entry may hold a record of. *)
Definition record_user (name : bytes) : option CanonicalUsername :=
  if utf8_valid name then
    stem ← match strip_suffix (bs ".bin") name with
           | Some stem => Some stem
           | None => strip_suffix (bs ".json") name
           end;
    result_ok (CanonicalUsername_new stem)
  else None.

Definition classify_load (r : bresult DecodedPlaintextRecord) : option OuterRecordClassification :=
  match r with
  | Ok loaded => Some (OuterCandidate (generation (decoded_record loaded)))
  | Err BackendAbsent => None
  | Err BackendModelMismatch => Some OuterModelMismatch
  | Err _ => Some OuterCorrupt
  end.

Fixpoint reload_users (users : list CanonicalUsername) : bop (R:=R) (list OuterRecordStatus) :=
  match users with
  | [] => bret []
  | u :: users =>
      permit <- operation_permit;
      classification <- holding permit (
        bcase (on_disk (load_record os cfg u)) (λ d, bret (classify_load (Ok d)))
          (λ e, bret (classify_load (Err e))));
      rest <- reload_users users;
      bret (match classification with
            | Some k => mkRecordStatus u k :: rest
            | None => rest
            end)
  end.

Definition reload : bop (R:=R) ReloadResult :=
  _ <- on_cache (λ w c, '(w, c) ← cache_clear w c; Some (w, c, Ok ()));
  names <- on_disk (dmap_err (io_error IoRead) (sys_read_dir os));
  records <- reload_users (elements (list_to_set (omap record_user names) : gset CanonicalUsername));
  bret (mkReload Ready (merge_sort status_le records)).

Definition health : BackendHealth := Ready.
End store.
