(* ===== verification/PlaintextProofs.v ===== *)
(** * What the plaintext directory holds

    Records are named apart from temporary files; loading reads what is stored; writing a
    record leaves the old record or the complete new one, whatever fails and wherever the
    machine stops; clearing never uncovers an older record. *)

From S2P Require Import Prelude Bytes Storage Crypto Codec CodecReader CodecPayload CodecPlain Legacy Contracts Disk Plaintext.

(** ** Names *)

Lemma filename_last u ext : ext = BIN ∨ ext = JSON → last (filename u ext) = Some Byte.x6e.
Proof.
  intros [-> | ->]; unfold filename; rewrite app_assoc, last_app; vm_compute; done.
Qed.

Lemma temp_name_apart destination b u ext :
  ext = BIN ∨ ext = JSON → temp_name destination (hex_lower b) ≠ filename u ext.
Proof.
  intros Hext E. apply (f_equal last) in E. rewrite (filename_last u ext Hext) in E.
  unfold temp_name in E. rewrite !app_assoc, last_app in E.
  pose proof (hex_lower_last b). case_match; [congruence|]. rewrite last_app in E. vm_compute in E. done.
Qed.

Lemma filename_inj u v ext : filename u ext = filename v ext → u = v.
Proof.
  unfold filename. intros E. apply app_inv_tail in E. destruct u, v. simpl in *. congruence.
Qed.

Lemma bin_not_json u v : filename u BIN ≠ filename v JSON.
Proof.
  unfold filename. intros E. apply (f_equal reverse) in E. rewrite !reverse_app in E.
  vm_compute in E. done.
Qed.

(** Limits [PlaintextStorageLimits::new] admits. *)
Definition plain_limits_ok (l : PlaintextStorageLimits) : Prop :=
  1 ≤ pl_max_entries l ≤ MAX_ENTRIES ∧ 1 ≤ pl_max_record_bytes l ≤ MAX_PLAINTEXT_BYTES.

Lemma PlaintextStorageLimits_new_Ok n m l :
  0 ≤ n → 0 ≤ m → PlaintextStorageLimits_new n m = Ok l → plain_limits_ok l.
Proof.
  intros Hn Hm Hl. unfold PlaintextStorageLimits_new in Hl. inv_ok. breflect. subst.
  unfold plain_limits_ok; simpl. lia.
Qed.

(** ** What is stored *)

Section proofs.
  Context `{Sha256} `{LegacyDecoders} {R : Type} `{RandomSource R}.
  Context (os : DiskOs) `{DiskOsLaws os} (cfg : PlaintextSettings).
  Context (Hcfg : plain_limits_ok (pb_limits cfg)).
  Implicit Types (fs : files) (d : Disk R) (u v : CanonicalUsername) (node : FileNode).

Abbreviation max_record := (pl_max_record_bytes (pb_limits cfg)).
Abbreviation reads := (Disk.reads (R:=R)).
Abbreviation wp := (Disk.wp (R:=R)).

(** The file a user's record is in. *)
Definition selected fs u : option (FileNode * LegacySourceEncoding) :=
  match fs !! filename u BIN with
  | Some node => Some (node, BincodeThenJson)
  | None => (λ node, (node, JsonOnly)) <$> fs !! filename u JSON
  end.

(** A file that passes the checks of [validate_record_file]. *)
Definition record_file node : Prop :=
  validate_metadata_io (fn_stat node) false (pb_owner cfg) STORAGE_RECORD_MODE = Ok () ∧
  0 < len (fn_data node) ≤ max_record.

(** The user's record, decoded without a shortage of memory. *)
Definition stored fs u (loaded : DecodedPlaintextRecord) : Prop :=
  ∃ node encoding, selected fs u = Some (node, encoding) ∧ record_file node ∧
    decode_plaintext_record unlimited (fn_data node) encoding u (pb_model cfg)
      (pl_max_entries (pb_limits cfg)) = Ok loaded.

Lemma stored_det fs u x y : stored fs u x → stored fs u y → x = y.
Proof. intros (n & e & Hs & _ & Hx) (n' & e' & Hs' & _ & Hy). congruence. Qed.

Lemma stored_selected fs fs' u : selected fs' u = selected fs u → ∀ x, stored fs' u x ↔ stored fs u x.
Proof. intros E x. unfold stored. by rewrite E. Qed.

Lemma selected_insert_other fs u name node :
  name ≠ filename u BIN → name ≠ filename u JSON → selected (<[name:=node]> fs) u = selected fs u.
Proof. intros ??. unfold selected. by rewrite !lookup_insert_ne. Qed.

(** A record that decodes under some allocator decodes without a shortage. *)
Lemma decode_unlimited alloc b encoding u model max loaded :
  decode_plaintext_record alloc b encoding u model max = Ok loaded →
  decode_plaintext_record unlimited b encoding u model max = Ok loaded.
Proof.
  unfold decode_plaintext_record. case_bool_decide as Hm.
  - intros Hl. apply fmap_Ok in Hl as (r & Hr & <-). apply howypln1_decoded in Hr as (Hwf & <- & <- & ->).
    by rewrite decode_howypln1_bytes.
  - destruct (_ || _); [done|]. intros Hl. apply bind_Ok in Hl as (legacy & Hle & Hl).
    rewrite Hle. cbn [mbind result_bind].
    destruct (negb _); [done|]. destruct (_ || _); [done|].
    apply bind_Ok in Hl as (gen & -> & Hl). cbn [mbind result_bind unlimited negb].
    by destruct (alloc _ _).
Qed.

(** ** Reading *)

Definition selection fs u (x : bresult (option (FileNode * LegacySourceEncoding))) : Prop :=
  match x with Ok s => selected fs u = s | Err e => e ≠ BackendAbsent end.

Lemma open_selected_reads fs u : reads fs (open_selected os u) (selection fs u).
Proof.
  unfold open_selected.
  eapply (reads_case _ _ _ _ (λ x, match x with
    | Ok node => fs !! filename u BIN = Some node
    | Err kind => kind = KIND_NOT_FOUND → fs !! filename u BIN = None end)).
  { apply reads_sys_open; naive_solver. }
  - intros node Hn. apply (reads_lift fs (Ok _)). simpl. unfold selected. by rewrite Hn.
  - intros kind Hk. destruct (Z.eqb_spec kind KIND_NOT_FOUND) as [E|];
      [|by apply (reads_lift fs (Err _))].
    specialize (Hk E). unfold selection, selected. rewrite Hk.
    eapply (reads_case _ _ _ _ (λ x, match x with
      | Ok node => fs !! filename u JSON = Some node
      | Err kind => kind = KIND_NOT_FOUND → fs !! filename u JSON = None end)).
    { apply reads_sys_open; naive_solver. }
    + intros node Hn. apply (reads_lift fs (Ok _)). simpl. by rewrite Hn.
    + intros k Hk'. destruct (Z.eqb_spec k KIND_NOT_FOUND) as [E'|];
        [|by apply (reads_lift fs (Err _))].
      apply (reads_lift fs (Ok _)). simpl. by rewrite (Hk' E').
Qed.

Lemma validate_record_file_reads fs node :
  reads fs (validate_record_file os cfg node) (λ x, match x with
    | Ok n => n = len (fn_data node) ∧ record_file node
    | Err e => e ≠ BackendAbsent end).
Proof.
  unfold validate_record_file.
  eapply (reads_bind _ _ _ (λ x, match x with Ok s => s = fn_stat node | Err e => e ≠ BackendAbsent end)).
  { eapply (reads_map_err _ _ _ (λ x, match x with Ok s => s = fn_stat node | _ => True end));
      [by apply reads_syscall|done|done]. }
  2: done.
  intros s ->. eapply (reads_bind _ _ _ (λ x, match x with
    | Ok _ => validate_metadata_io (fn_stat node) false (pb_owner cfg) STORAGE_RECORD_MODE = Ok ()
    | Err e => e ≠ BackendAbsent end)).
  { apply reads_lift. unfold validate_metadata. destruct (validate_metadata_io _ _ _ _) as [[]|]; done. }
  2: done.
  intros _ Hv. pose proof (len_nonneg (fn_data node)). destruct (_ || _) eqn:Hg; [by apply (reads_lift fs (Err _))|].
  apply (reads_lift fs (Ok _)). breflect. split; [done|]. split; [done|]. lia.
Qed.

Lemma reserve_record_reads fs n (P : bresult () → Prop) :
  P (Ok ()) → P (Err (InvalidInput "record allocation")) → reads fs (reserve_record os n) P.
Proof. intros ??. apply reads_alloc. intros alloc. by destruct (alloc _ _). Qed.

(** What reading a record file may answer. *)
Definition read_answer node (x : bresult bytes) : Prop :=
  match x with Ok b => b = fn_data node ∧ record_file node | Err e => e ≠ BackendAbsent end.

Lemma read_source_reads fs node : reads fs (read_source os cfg node) (read_answer node).
Proof.
  unfold read_source. eapply reads_bind; [apply validate_record_file_reads| |done].
  intros n [-> Hr]. eapply (reads_bind _ _ _ (λ x, match x with Ok _ => True | Err e => e ≠ BackendAbsent end));
    [by apply reserve_record_reads| |done].
  intros _ _. eapply (reads_bind _ _ _ (λ x, match x with
    | Ok b => b = fn_data node | Err e => e ≠ BackendAbsent end)); [| |done].
  { eapply (reads_map_err _ _ _ (λ x, match x with Ok b => b = fn_data node | _ => True end)); [|done|done].
    apply reads_syscall; [done| |done]. simpl. apply take_ge.
    destruct Hr as [_ [_ Hr]]. destruct Hcfg as [_ Hb]. unfold MAX_PLAINTEXT_BYTES in Hb.
    unfold len, saturating_add in *. unfold_max. lia. }
  intros b ->. rewrite Z.eqb_refl. destruct Hr as [Hv Hr].
  rewrite (proj2 (Z.ltb_ge _ _)) by lia. by apply (reads_lift fs (Ok _)).
Qed.

(** The chunk loop reads the whole file, never runs out of turns, and fails only on an I/O
    error or a cancellation. *)
Lemma read_chunks_reads fs node fuel acc :
  acc = take (length acc) (fn_data node) →
  (length (fn_data node) ≤ length acc + fuel)%nat →
  reads fs (read_chunks os fuel node (length (fn_data node)) acc) (λ x, match x with
    | Ok b => b = fn_data node
    | Err e => e = Unavailable ∨ ∃ kind, e = io_error IoRead kind end).
Proof.
  revert acc. induction fuel as [|fuel IH]; intros acc Hacc Hfuel; cbn [read_chunks];
    destruct (Nat.leb_spec (length (fn_data node)) (length acc)) as [Hge|Hlt].
  1,3: apply (reads_lift fs (Ok _)); rewrite Hacc; by apply take_ge.
  { lia. }
  apply if_not_cancelled_reads; [|by left].
  eapply (reads_bind _ _ _ (λ x, match x with
    | Ok c => c ≠ [] ∧ acc ++ c = take (length (acc ++ c)) (fn_data node)
    | Err e => ∃ kind, e = io_error IoRead kind end)).
  - eapply (reads_map_err _ _ _ (λ x, match x with
      | Ok c => c ≠ [] ∧ acc ++ c = take (length (acc ++ c)) (fn_data node) | _ => True end)); [|done|eauto].
    apply reads_sys_read; [|done]. intros n Hn. assert (1 ≤ n)%nat by (unfold CHUNK_BYTES in Hn; lia).
    assert (acc ++ take n (drop (length acc) (fn_data node)) = take (length acc + n) (fn_data node)) as E.
    { rewrite Hacc at 1. by rewrite take_take_drop. }
    split.
    + intros E'. apply (f_equal length) in E'. rewrite length_take, length_drop in E'. simpl in E'. lia.
    + rewrite E, length_take.
      destruct (Nat.le_ge_cases (length acc + n) (length (fn_data node))); [f_equal; lia|].
      by rewrite !take_ge by lia.
  - intros c [Hc Hacc']. rewrite bool_decide_false by done. apply IH; [done|].
    rewrite length_app. destruct c; [done|]. simpl. lia.
  - naive_solver.
Qed.

Lemma read_source_cancellable_reads fs node :
  reads fs (read_source_cancellable os cfg node) (read_answer node).
Proof.
  unfold read_source_cancellable. eapply reads_bind; [apply validate_record_file_reads| |done].
  intros n [-> Hr]. eapply (reads_bind _ _ _ (λ x, match x with Ok _ => True | Err e => e ≠ BackendAbsent end));
    [by apply reserve_record_reads| |done].
  intros _ _. unfold len. rewrite Nat2Z.id.
  eapply reads_bind; [by apply read_chunks_reads| |naive_solver].
  simpl. intros b ->. apply if_not_cancelled_reads; [|done].
  eapply (reads_bind _ _ _ (λ x, match x with Ok c => c = [] | Err e => e ≠ BackendAbsent end)); [| |done].
  - eapply (reads_map_err _ _ _ (λ x, match x with Ok c => c = [] | _ => True end)); [|done|done].
    apply reads_sys_read; [|done]. intros n _. by rewrite drop_all, take_nil.
  - intros c ->. rewrite bool_decide_true by done. by apply (reads_lift fs (Ok _)).
Qed.

(** What loading a user's record may answer. *)
Definition load_answer fs u (x : bresult DecodedPlaintextRecord) : Prop :=
  match x with
  | Ok loaded => stored fs u loaded
  | Err BackendAbsent => selected fs u = None
  | Err _ => True
  end.

Lemma not_absent_answer fs u e : e ≠ BackendAbsent → load_answer fs u (Err e).
Proof. by destruct e. Qed.

Lemma decode_source_reads fs u node encoding :
  selected fs u = Some (node, encoding) → record_file node →
  reads fs (decode_source os cfg u encoding (fn_data node)) (load_answer fs u).
Proof.
  intros Hs Hr. apply reads_alloc. intros alloc.
  destruct (decode_plaintext_record _ _ _ _ _ _) as [loaded|e] eqn:Hd; simpl.
  - exists node, encoding. split_and!; [done|done|]. by eapply decode_unlimited.
  - apply not_absent_answer. unfold map_storage_error. destruct e; try done. by case_match.
Qed.

Lemma load_record_reads fs u : reads fs (load_record os cfg u) (load_answer fs u).
Proof.
  eapply reads_bind; [apply open_selected_reads| |exact (not_absent_answer fs u)].
  intros [[node encoding]|] Hs; [|by apply (reads_lift fs (Err _))].
  eapply reads_bind; [apply read_source_reads| |exact (not_absent_answer fs u)].
  intros b [-> Hr]. by apply decode_source_reads.
Qed.

Lemma load_record_cancellable_reads fs u :
  reads fs (load_record_cancellable os cfg u) (load_answer fs u).
Proof.
  apply if_not_cancelled_reads; [|done].
  eapply reads_bind; [apply open_selected_reads| |exact (not_absent_answer fs u)].
  intros [[node encoding]|] Hs; [|by apply (reads_lift fs (Err _))].
  eapply reads_bind; [apply read_source_cancellable_reads| |exact (not_absent_answer fs u)].
  intros b [-> Hr]. apply if_not_cancelled_reads; [|done].
  eapply reads_bind; [by apply decode_source_reads| |done].
  intros loaded Hl. apply if_not_cancelled_reads; [|done]. by apply (reads_lift fs (Ok _)).
Qed.

(** ** Writing *)

(** A file that is a complete, synced record. *)
Definition published node (encoded : bytes) : Prop :=
  fn_data node = encoded ∧ fn_synced node = true ∧
  validate_metadata_io (fn_stat node) false (pb_owner cfg) STORAGE_RECORD_MODE = Ok ().

(** The directories a write goes through: the old one, the old one with a temporary file of
    a fresh name or without one of an earlier write, the new one. *)
Inductive write_state (destination encoded : bytes) fs : files → Prop :=
| ws_old : write_state destination encoded fs fs
| ws_temp nonce node :
    fs !! temp_name destination (hex_lower nonce) = None →
    write_state destination encoded fs (<[temp_name destination (hex_lower nonce) := node]> fs)
| ws_removed nonce :
    write_state destination encoded fs (delete (temp_name destination (hex_lower nonce)) fs)
| ws_new node : published node encoded → write_state destination encoded fs (<[destination := node]> fs).

Lemma validate_with_times s s' :
  st_kind s' = st_kind s → st_uid s' = st_uid s → st_mode s' = st_mode s →
  validate_metadata_io s' false (pb_owner cfg) STORAGE_RECORD_MODE =
  validate_metadata_io s false (pb_owner cfg) STORAGE_RECORD_MODE.
Proof. unfold validate_metadata_io. by intros -> -> ->. Qed.

(** A file created by [create_temp] is new, and checked. *)
Definition temp_created (name : bytes) fs fs' (r : option (result Z ())) : Prop :=
  match r with
  | Some (Ok _) => fs !! name = None ∧ ∃ node, fs' = <[name := node]> fs ∧
      validate_metadata_io (fn_stat node) false (pb_owner cfg) STORAGE_RECORD_MODE = Ok ()
  | Some (Err kind) =>
      fs' = fs ∨ kind ≠ KIND_ALREADY_EXISTS ∧ fs !! name = None ∧ ∃ node, fs' = <[name := node]> fs
  | None => fs' = fs ∨ fs !! name = None ∧ ∃ node, fs' = <[name := node]> fs
  end.

Lemma create_temp_wp name fs : wp (create_temp os cfg name) (temp_created name fs) fs.
Proof.
  unfold create_temp. apply wp_bind. eapply wp_mono; [apply sys_create_wp|].
  intros fs' [[[]|kind]|]; [|by left|by left]. intros (Hno & node & ->).
  apply wp_bind, wp_syscall; [|right; eauto|right; eauto]. cbn [fst snd].
  rewrite alter_insert_eq. apply wp_bind, wp_syscall; [|right; eauto|right; eauto]. cbn [fst snd].
  rewrite lookup_insert_eq. cbn [ok_or fmap option_fmap option_map].
  apply wp_ret. unfold temp_created. case_match eqn:Hv.
  - split; [done|]. eexists. split; [done|]. simpl. match goal with x : () |- _ => by destruct x end.
  - right. split; [|eauto]. unfold validate_metadata_io in Hv. case_match; [|done]. injection Hv as <-. done.
Qed.

Section publish.
  Context (tmp destination encoded : bytes) (fs : files) (Hfresh : fs !! tmp = None).

(** A state of the temporary file: checked, and holding the record once written. *)
Definition temp_state (complete synced : bool) fs' : Prop :=
  ∃ node, fs' = <[tmp := node]> fs ∧
    validate_metadata_io (fn_stat node) false (pb_owner cfg) STORAGE_RECORD_MODE = Ok () ∧
    (complete = true → fn_data node = encoded) ∧ (synced = true → fn_synced node = true).

Lemma sys_write_wp fs1 :
  temp_state false false fs1 →
  wp (sys_write os tmp encoded)
    (λ fs' r, temp_state (bool_decide (r = Some (Ok ()))) false fs') fs1.
Proof.
  intros (node & -> & Hv & _) d d' r Hr Hd. unfold sys_write in Hr. rewrite Hd in Hr.
  destruct (os_fault os _) as [[]|]; injection Hr as <- <-; simpl;
    rewrite alter_insert_eq; eexists; (split; [done|]); simpl; split_and!; try done.
Qed.

Lemma publish_temp_wp fs1 :
  temp_state false false fs1 →
  wp (publish_temp os tmp destination encoded)
    (λ fs' r, r ≠ Some (Ok ()) ∧ temp_state false false fs' ∨
              ∃ node, published node encoded ∧ fs' = <[destination := node]> fs) fs1.
Proof.
  intros Ht. unfold publish_temp. apply wp_bind, wp_map_err.
  eapply wp_mono; [by apply sys_write_wp|]. intros fs2 r (node & -> & Hv & Hdata & _).
  destruct r as [[[]|kind]|]; simpl;
    [|left; split; [done|]; by exists node|left; split; [done|]; by exists node].
  rewrite bool_decide_true in Hdata by done. specialize (Hdata eq_refl).
  apply wp_bind, wp_map_err, wp_syscall; simpl;
    [|left; split; [done|]; by exists node|intros; left; split; [done|]; by exists node].
  rewrite alter_insert_eq. set (synced := mkNode _ _ true).
  assert (temp_state false false (<[tmp:=synced]> fs)) by by exists synced.
  apply wp_bind, wp_map_err. intros d d' r Hr Hd. unfold sys_rename, syscall in Hr. rewrite Hd in Hr.
  destruct (os_fault os _) as [[]|]; [injection Hr as <- <-; left; done..|].
  rewrite lookup_insert_eq in Hr. injection Hr as <- <-. simpl.
  rewrite delete_insert_eq, delete_id by done.
  assert (∀ node', published node' encoded → wp (dmap_err (io_error IoSync) (sys_sync_dir os))
    (λ fs' r, r ≠ Some (Ok ()) ∧ temp_state false false fs' ∨
       ∃ node, published node encoded ∧ fs' = <[destination := node]> fs) (<[destination := node']> fs)) as Hsync.
  { intros node' Hp. apply wp_map_err, wp_syscall; simpl; eauto. }
  apply Hsync. split_and!; simpl; done.
Qed.
End publish.

Lemma unlink_and_fail_wp {A} destination encoded nonce e fs fs1 :
  let tmp := temp_name destination (hex_lower nonce) in
  destination ≠ tmp → fs !! tmp = None →
  (fs1 = fs ∨ (∃ node, fs1 = <[tmp := node]> fs) ∨
     ∃ node, published node encoded ∧ fs1 = <[destination := node]> fs) →
  wp (unlink_and_fail (A:=A) os tmp e)
    (λ fs' r, write_state destination encoded fs fs' ∧ r ∈ [None; Some (Err e)]) fs1.
Proof.
  intros tmp Hne Hfresh Hfs. apply wp_case.
  assert (write_state destination encoded fs fs1) as Hws.
  { destruct Hfs as [-> |[(node & ->)|(node & Hp & ->)]]; [apply ws_old|by apply ws_temp|by apply ws_new]. }
  assert (write_state destination encoded fs (delete tmp fs1)) as Hws'.
  { destruct Hfs as [-> |[(node & ->)|(node & Hp & ->)]].
    - rewrite delete_id by done. apply ws_old.
    - rewrite delete_insert_eq, delete_id by done. apply ws_old.
    - rewrite delete_id by (by rewrite lookup_insert_ne). by apply ws_new. }
  assert (∀ fs2, write_state destination encoded fs fs2 → wp (dfail e)
    (λ fs' (r : option (bresult A)), write_state destination encoded fs fs' ∧ r ∈ [None; Some (Err e)]) fs2).
  { intros fs2 ?. apply (wp_ret (Err e)). split; [done|set_solver]. }
  apply wp_syscall; [|split; [done|set_solver]|eauto].
  destruct (fs1 !! tmp); simpl; eauto.
Qed.

Lemma random_temp_suffix_reads fs :
  reads fs random_temp_suffix (λ x : bresult bytes, match x with Ok s => ∃ b, s = hex_lower b | Err _ => True end).
Proof.
  intros d d' r Hr Hfs. unfold random_temp_suffix, draw, dbind in Hr.
  destruct (fill_bytes _ _) as [rnd [b|e]]; injection Hr as <- <-; (split; [done|]);
    intros x [= <-]; simpl; eauto.
Qed.

(** The outcome of a write: the directory is in a state of [write_state], and in the new one
    when the write succeeded. *)
Definition write_outcome (destination encoded : bytes) fs fs' (r : option (bresult ())) : Prop :=
  write_state destination encoded fs fs' ∧
  (r = Some (Ok ()) → ∃ node, published node encoded ∧ fs' = <[destination := node]> fs).

Lemma write_attempts_wp u encoded n fs :
  wp (write_attempts os cfg n (filename u BIN) encoded) (write_outcome (filename u BIN) encoded fs) fs.
Proof.
  induction n as [|n IH]; cbn [write_attempts]; [apply (wp_ret (Err _)); split; [apply ws_old|done]|].
  apply wp_bind. eapply reads_wp; [apply random_temp_suffix_reads|split; [apply ws_old|done]|].
  intros [suffix|e]; [|intros _; split; [apply ws_old|done]]. intros [nonce ->].
  set (tmp := temp_name _ _). pose proof (temp_name_apart (filename u BIN) nonce u BIN (or_introl eq_refl)).
  fold tmp in H3. apply wp_case. eapply wp_mono; [apply create_temp_wp|].
  intros fs1 [[[]|kind]|]; simpl.
  - intros (Hfresh & node & -> & Hv). apply wp_case.
    eapply wp_mono; [eapply publish_temp_wp; [done|]; by exists node|].
    intros fs2 r Hcase. assert (fs2 = fs ∨ (∃ node, fs2 = <[tmp := node]> fs) ∨
      ∃ node, published node encoded ∧ fs2 = <[filename u BIN := node]> fs) as Hfs2.
    { destruct Hcase as [(_ & n0 & -> & _)|Hp]; [right; left; eauto|by right; right]. }
    destruct r as [[[]|e]|].
    + destruct Hcase as [[? _]|(n0 & Hp & ->)]; [done|]. apply (wp_ret (Ok ())).
      split; [by apply ws_new|eauto].
    + eapply wp_mono; [by apply unlink_and_fail_wp|]. intros fs3 r [Hw Hr]. split; [done|].
      intros ->. set_solver.
    + split; [|done]. destruct Hcase as [(_ & n0 & -> & _)|(n0 & Hp & ->)]; [by apply ws_temp|by apply ws_new].
  - intros Hcase. destruct (Z.eqb_spec kind KIND_ALREADY_EXISTS) as [E|].
    { destruct Hcase as [-> |[? _]]; [apply IH|done]. }
    destruct (fs !! tmp) as [old|] eqn:Hold.
    { destruct Hcase as [-> |(_ & ? & _)]; [|done]. apply wp_case, wp_syscall; [|split; [apply ws_old|done]|].
      - rewrite Hold. apply (wp_ret (Err _)). split; [apply ws_removed|done].
      - intros k _ _. apply (wp_ret (Err _)). split; [apply ws_old|done]. }
    eapply wp_mono; [apply (unlink_and_fail_wp _ encoded nonce _ fs); [done|done|]|].
    { destruct Hcase as [-> |(_ & _ & ?)]; eauto. }
    intros fs3 r [Hw Hr]. split; [done|]. intros ->. set_solver.
  - intros [-> |(Hfresh & node & ->)]; (split; [|done]); [apply ws_old|by apply ws_temp].
Qed.

(** The bytes of a record. *)
Definition record_bytes (record : EnrollmentRecord) : bytes :=
  pln1_header (generation record) (recognizer_model_sha256 record) (username record)
  ++ payload_bytes (entries record).

(** The outcome of writing a record; a record above the byte limit is never published. *)
Definition record_written (record : EnrollmentRecord) fs fs' (r : option (bresult ())) : Prop :=
  write_outcome (filename (username record) BIN) (record_bytes record) fs fs' r ∧
  (len (record_bytes record) ≤ max_record ∨ fs' = fs ∧ r ≠ Some (Ok ())).

Lemma write_record_wp record fs :
  record_wf record → wp (write_record os cfg record) (record_written record fs) fs.
Proof.
  intros Hwf. apply wp_bind.
  assert (∀ r, r ≠ Some (Ok ()) → record_written record fs fs r) as Hold.
  { intros r Hr. split; [split; [apply ws_old|done]|by right]. }
  eapply (reads_wp _ _ (λ x, match x with Ok b => b = record_bytes record | Err _ => True end)).
  - apply reads_alloc. intros alloc.
    destruct (encode_howypln1 alloc record) as [b|e] eqn:He; [|done]. exact (encode_howypln1_Ok _ _ _ Hwf He).
  - by apply Hold.
  - intros [b|e]; [|intros _; by apply Hold]. intros ->.
    destruct (Z.ltb_spec max_record (len (record_bytes record))).
    { apply (wp_ret (Err _)). by apply Hold. }
    eapply wp_mono; [apply write_attempts_wp|]. intros fs' r Hw. split; [done|by left].
Qed.

(** ** What a write does to the records *)

Lemma magic_record_bytes record : HOWYPLN1_MAGIC `prefix_of` record_bytes record.
Proof. unfold record_bytes, pln1_header. rewrite <- app_assoc. apply prefix_app_r. done. Qed.

Lemma stored_published fs record node :
  record_wf record → recognizer_model_sha256 record = pb_model cfg →
  len (record_bytes record) ≤ max_record → published node (record_bytes record) →
  stored (<[filename (username record) BIN := node]> fs) (username record)
    (mkDecoded record HowyPln1).
Proof.
  intros Hwf Hm Hlen (Hdata & _ & Hv). exists node, BincodeThenJson. split_and!.
  - unfold selected. by rewrite lookup_insert_eq.
  - split; [done|]. rewrite Hdata. split; [|done]. unfold record_bytes in *.
    rewrite len_howypln1 by done. pose proof Hwf as (_ & _ & Hu & _ & _ & Hes).
    pose proof (username_wf_len _ Hu). unfold HOWYPLN1_FIXED_HEADER.
    pose proof (len_nonneg (payload_bytes (entries record))). rewrite len_payload_bytes in * by done. lia.
  - rewrite Hdata. unfold decode_plaintext_record. rewrite bool_decide_true by apply magic_record_bytes.
    unfold record_bytes. rewrite <- Hm. by rewrite decode_howypln1_bytes.
Qed.

(** A write of one user's record is invisible to the others, and to that user until it is
    published. *)
Lemma write_state_selected u encoded fs fs' v :
  write_state (filename u BIN) encoded fs fs' →
  (v ≠ u → selected fs' v = selected fs v) ∧
  (selected fs' u = selected fs u ∨
   ∃ node, published node encoded ∧ fs' = <[filename u BIN := node]> fs).
Proof.
  assert (∀ nonce w ext, ext = BIN ∨ ext = JSON →
    temp_name (filename u BIN) (hex_lower nonce) ≠ filename w ext) as Hap
    by (intros; by apply temp_name_apart).
  intros [|nonce node Hno|nonce|node Hp]; (split; [intros Hne|]); try done; try by left.
  - apply selected_insert_other; apply Hap; auto.
  - left. apply selected_insert_other; apply Hap; auto.
  - unfold selected. by rewrite !lookup_delete_ne by (apply Hap; auto).
  - left. unfold selected. by rewrite !lookup_delete_ne by (apply Hap; auto).
  - apply selected_insert_other; [|apply bin_not_json]. intros E. by apply filename_inj in E as ->.
  - right. eauto.
Qed.

(** ** Clearing *)

Lemma optional_valid_record_reads fs name :
  reads fs (optional_valid_record os cfg name)
    (λ x, match x with Ok b => b = bool_decide (is_Some (fs !! name)) | Err _ => True end).
Proof.
  eapply (reads_case _ _ _ _ (λ x, match x with
    | Ok _ => is_Some (fs !! name)
    | Err kind => kind = KIND_NOT_FOUND → fs !! name = None end)).
  { apply reads_sys_open; naive_solver. }
  - intros node Hs.
    eapply (reads_bind _ _ _ (λ _, True)); [by eapply (reads_map_err _ _ _ (λ _, True)); [by apply reads_syscall|..]| |done].
    intros s _. eapply (reads_bind _ _ _ (λ _, True)); [by apply reads_lift| |done].
    intros _ _. apply (reads_lift fs (Ok _)). by rewrite bool_decide_true.
  - intros kind Hk. destruct (Z.eqb_spec kind KIND_NOT_FOUND) as [E|]; [|by apply (reads_lift fs (Err _))].
    apply (reads_lift fs (Ok _)). rewrite (Hk E). by rewrite bool_decide_false by apply is_Some_None.
Qed.

Lemma remove_and_sync_wp name fs :
  wp (remove_and_sync os (bool_decide (is_Some (fs !! name))) name)
    (λ fs' r, fs' = delete name fs ∨ fs' = fs ∧ r ≠ Some (Ok ())) fs.
Proof.
  unfold remove_and_sync. case_bool_decide as Hs.
  - destruct Hs as [node Hs]. apply wp_bind, wp_map_err, wp_syscall; [|by right|by right].
    rewrite Hs. simpl. apply wp_map_err, wp_syscall; simpl; auto.
  - apply (wp_ret (Ok ())). left. rewrite delete_id; [done|]. by apply eq_None_not_Some.
Qed.

(** The outcome of clearing a user: the record that was selected, or none, and none when the
    clear succeeded; never a record the selected one was hiding. *)
Definition record_cleared u fs fs' (r : option (bresult ())) : Prop :=
  (∀ v, v ≠ u → selected fs' v = selected fs v) ∧
  (selected fs' u = selected fs u ∨ selected fs' u = None) ∧
  (r = Some (Ok ()) → selected fs' u = None).

Lemma clear_wp u fs :
  wp (clear_fallback_before_authoritative os (bool_decide (is_Some (fs !! filename u JSON)))
        (bool_decide (is_Some (fs !! filename u BIN))) u) (record_cleared u fs) fs.
Proof.
  assert (∀ v, v ≠ u → ∀ ext ext', ext ∈ [BIN; JSON] → ext' ∈ [BIN; JSON] →
    filename u ext ≠ filename v ext') as Hne.
  { intros v Hv ext ext' He He'. pose proof (bin_not_json u v). pose proof (bin_not_json v u).
    rewrite !elem_of_cons, elem_of_nil in He, He'.
    destruct He as [-> |[-> |[]]], He' as [-> |[-> |[]]]; try congruence;
      intros E; apply filename_inj in E; congruence. }
  assert (∀ fs0 ext v, ext ∈ [BIN; JSON] → v ≠ u →
    selected (delete (filename u ext) fs0) v = selected fs0 v) as Hother.
  { intros fs0 ext v He Hv. unfold selected.
    rewrite !lookup_delete_ne by (apply Hne; [done|done|set_solver]). done. }
  assert (∀ fs0 r, r ≠ Some (Ok ()) → fs0 = fs ∨ fs0 = delete (filename u JSON) fs →
    record_cleared u fs fs0 r) as Hkeep.
  { intros fs0 r Hr [-> | ->]; (split_and!; [|..|done]); auto; [intros v Hv; apply Hother; [set_solver|done]|].
    unfold selected. rewrite lookup_delete_eq, lookup_delete_ne by (intros E; by apply (bin_not_json u u)).
    destruct (fs !! filename u BIN); auto. }
  apply wp_bind. eapply wp_mono; [apply remove_and_sync_wp|]. intros fs1 r Hfs1.
  destruct r as [[[]|e]|]; [|apply Hkeep; [done|tauto]|apply Hkeep; [done|tauto]].
  destruct Hfs1 as [-> |[_ ?]]; [|done].
  assert (is_Some (fs !! filename u BIN) ↔ is_Some (delete (filename u JSON) fs !! filename u BIN)) as Hsame
    by (rewrite lookup_delete_ne by (intros E; by apply (bin_not_json u u)); done).
  rewrite (bool_decide_ext _ _ Hsame). eapply wp_mono; [apply remove_and_sync_wp|].
  intros fs2 r [-> |[-> Hr]]; [|by apply Hkeep; [|right]]. split_and!.
  - intros v Hv. rewrite !Hother by (done || set_solver). done.
  - right. unfold selected. rewrite lookup_delete_eq, lookup_delete_ne by (apply bin_not_json).
    by rewrite lookup_delete_eq.
  - intros _. unfold selected. rewrite lookup_delete_eq, lookup_delete_ne by (apply bin_not_json).
    by rewrite lookup_delete_eq.
Qed.
End proofs.
