(* ===== verification/CacheModels.v ===== *)
(** * Which models the cache holds

    How the operations of the cache change what is cached for whom, the models callers hold
    and the revision: everything but an insertion only forgets, and what is forgotten or
    replaced advances the revision. *)

From S2P Require Import Prelude Bytes Storage Contracts Budget Cache CacheLru CacheProofs CacheSystem.

(** The model cached for a user. *)
Definition cached (w : World) (c : CacheState) (u : CanonicalUsername) : option AuthModel :=
  e ← c_entries c !! u; arc_model_of w (ce_model e).

Implicit Types (w : World) (c : CacheState) (u : CanonicalUsername) (k : Z).

Definition models_le w w' : Prop :=
  ∀ a m, arc_model_of w' a = Some m → arc_model_of w a = Some m.

(** [k] increments of the 128-bit revision. *)
Definition advances c c' k : Prop :=
  k = 0 ∧ c_revision c' = c_revision c ∨ 0 < k ∧ c_revision c' = (c_revision c + k) mod 2 ^ 128.

(** Entries were kept or forgotten, except possibly that of [published]. *)
Record evolves (published : option (CanonicalUsername * positive)) w c w' c' k : Prop := {
  ev_models : models_le w w';
  ev_entries u e' : c_entries c' !! u = Some e' →
    published = Some (u, ce_model e') ∨ ∃ e, c_entries c !! u = Some e ∧ ce_model e' = ce_model e;
  ev_advances : advances c c' k;
  ev_disabled : c_disabled c = true → c_disabled c' = true }.

(** The number of cached entries, which bounds how many an eviction loop forgets. *)
Definition cache_size c : Z := Z.of_nat (size (c_entries c)).

Lemma advances_trans c1 c2 c3 k1 k2 :
  advances c1 c2 k1 → advances c2 c3 k2 → advances c1 c3 (k1 + k2).
Proof.
  unfold advances. intros [[-> H1]|[P1 H1]] [[-> H2]|[P2 H2]]; rewrite H2, H1.
  - by left.
  - right. split; [lia|done].
  - right. split; [lia|]. by rewrite Z.add_0_r.
  - right. split; [lia|]. rewrite Z.add_mod_idemp_l by lia. f_equal. lia.
Qed.

Lemma advances_bump c c' : c_revision c' = bump (c_revision c) → advances c c' 1.
Proof. intros E. right. split; [lia|]. done. Qed.

Lemma evolves_refl w c : evolves None w c w c 0.
Proof. split; [by intros ??|eauto|by left|done]. Qed.

(** Forgetting before or after. *)
Lemma evolves_trans p w1 c1 w2 c2 w3 c3 k1 k2 :
  evolves None w1 c1 w2 c2 k1 → evolves p w2 c2 w3 c3 k2 → evolves p w1 c1 w3 c3 (k1 + k2).
Proof.
  intros [M1 E1 A1 D1] [M2 E2 A2 D2]. split; [intros a m Hm; eauto| |by eapply advances_trans|auto].
  intros u e' He'. destruct (E2 _ _ He') as [?|(e & He & ->)]; [by left|].
  destruct (E1 _ _ He) as [?|?]; [done|by right].
Qed.
Lemma evolves_trans_l p w1 c1 w2 c2 w3 c3 k1 k2 :
  evolves p w1 c1 w2 c2 k1 → evolves None w2 c2 w3 c3 k2 → evolves p w1 c1 w3 c3 (k1 + k2).
Proof.
  intros [M1 E1 A1 D1] [M2 E2 A2 D2]. split; [intros a m Hm; eauto| |by eapply advances_trans|auto].
  intros u e' He'. destruct (E2 _ _ He') as [?|(e & He & ->)]; [done|].
  destruct (E1 _ _ He) as [?|?]; [by left|by right].
Qed.

Lemma evolves_cached w c w' c' k u m :
  evolves None w c w' c' k → cached w' c' u = Some m → cached w c u = Some m.
Proof.
  intros [Hm He _ _] Hc. unfold cached in *. apply bind_Some in Hc as (e' & He' & Hc).
  destruct (He _ _ He') as [?|(e & -> & E)]; [done|]. cbn [mbind option_bind].
  rewrite <- E. by apply Hm.
Qed.

Lemma evolves_published w c w' c' k u a v m :
  evolves (Some (u, a)) w c w' c' k → cached w' c' v = Some m →
  cached w c v = Some m ∨ v = u ∧ arc_model_of w a = Some m.
Proof.
  intros [Hm He _ _] Hc. unfold cached in *. apply bind_Some in Hc as (e' & He' & Hc).
  destruct (He _ _ He') as [[= -> ->]|(e & -> & E)]; cbn [mbind option_bind]; [right|left].
  - auto.
  - rewrite <- E. by apply Hm.
Qed.

(** ** Handles and permits *)

Lemma world_drop_permit_models w id w' : world_drop_permit w id = Some w' → models_le w w'.
Proof.
  unfold world_drop_permit. intros Hd. apply bind_Some in Hd as ([b g] & _ & [= <-]).
  by intros a m.
Qed.

Lemma arc_drop_models w a w' : arc_drop w a = Some w' → models_le w w'.
Proof.
  unfold arc_drop. intros Hd. apply bind_Some in Hd as (arc & Harc & Hd). intros x m.
  assert (∀ arcs, arcs = delete a (w_arcs w) ∨
    arcs = <[a := mkArc (arc_model arc) (arc_permit arc) (arc_strong arc - 1)]> (w_arcs w) →
    arc_model <$> arcs !! x = Some m → arc_model_of w x = Some m) as Hx.
  { intros arcs [-> | ->]; unfold arc_model_of; destruct (decide (x = a)) as [-> |];
      rewrite ?lookup_delete_eq, ?lookup_insert_eq, ?lookup_delete_ne, ?lookup_insert_ne by done; try done.
    by rewrite Harc. }
  destruct (arc_strong arc =? 1); simplify_eq.
  - unfold world_drop_permit in Hd. apply bind_Some in Hd as ([b g] & _ & Hd). simplify_eq. eauto.
  - eauto.
Qed.

Lemma arc_clone_models w a w' : arc_clone w a = Some w' → models_le w w'.
Proof.
  unfold arc_clone. intros Hd. apply bind_Some in Hd as (arc & Harc & [= <-]). intros x m.
  unfold arc_model_of; simpl. destruct (decide (x = a)) as [-> |];
    rewrite ?lookup_insert_eq, ?lookup_insert_ne by done; [by rewrite Harc|done].
Qed.

Lemma evolves_world w w' c : models_le w w' → evolves None w c w' c 0.
Proof. intros Hm. split; [done|eauto|by left|done]. Qed.

(** ** The cache *)

Lemma cache_remove_evolves w c u w' c' r :
  cache_remove w c u = Some (w', c', r) →
  evolves None w c w' c' (if r then 1 else 0) ∧ c_entries c' !! u = None ∧
  (if r then 1 else 0) + cache_size c' = cache_size c.
Proof.
  unfold cache_remove. destruct (c_entries c !! u) as [e|] eqn:He.
  - intros Hr. apply bind_Some in Hr as (b & _ & Hr). apply bind_Some in Hr as (w1 & Hd & [= <- <- <-]).
    split_and!; [|apply lookup_delete_eq|].
    + split; [by eapply arc_drop_models| |by apply advances_bump|done].
      simpl. intros v e' [_ ?]%lookup_delete_Some. eauto.
    + unfold cache_size; simpl. assert (1 ≤ size (c_entries c))%nat.
      { destruct (size (c_entries c)) eqn:Hs; [|lia]. apply map_size_empty_inv in Hs. by rewrite Hs in He. }
      rewrite map_size_delete, He. simpl. lia.
  - intros [= <- <- <-]. split_and!; [apply evolves_refl|done|lia].
Qed.

(** Entries forgotten one by one. *)
Definition forgets w c w' c' : Prop :=
  ∃ k, evolves None w c w' c' k ∧ 0 ≤ k ∧ k + cache_size c' ≤ cache_size c.

Lemma forgets_world w w' c : models_le w w' → forgets w c w' c.
Proof. intros Hm. exists 0. split; [by apply evolves_world|lia]. Qed.
Lemma forgets_trans w1 c1 w2 c2 w3 c3 : forgets w1 c1 w2 c2 → forgets w2 c2 w3 c3 → forgets w1 c1 w3 c3.
Proof.
  intros (k1 & E1 & ?) (k2 & E2 & ?). exists (k1 + k2). split; [by eapply evolves_trans|lia].
Qed.

Lemma evict_forgets w c p w' c' r : evict_lru_except w c p = Some (w', c', r) → forgets w c w' c'.
Proof.
  unfold evict_lru_except. destruct (lru_candidate c p).
  - intros (Hev & _ & Hs)%cache_remove_evolves. eexists. split; [done|]. destruct r; lia.
  - intros [= <- <- <-]. apply forgets_world. by intros ??.
Qed.

Lemma make_room_forgets l n fuel w c w' c' r :
  make_room l n fuel w c = Some (w', c', r) → forgets w c w' c'.
Proof.
  assert (∀ w c, forgets w c w c) as Hrefl by (intros; apply forgets_world; by intros ??).
  revert w c. induction fuel as [|fuel IH]; intros w c; cbn [make_room]; case_match; try done;
    try (by intros [= <- <- <-]).
  intros Hr. apply bind_Some in Hr as ([[w1 c1] ev] & He & Hr).
  apply evict_forgets in He. destruct ev; simplify_eq; [|done]. eauto using forgets_trans.
Qed.

Lemma reserve_loop_forgets {A} attempt fuel w c p w' c' (r : bresult A) :
  reserve_loop attempt fuel w c p = Some (w', c', r) → forgets w c w' c'.
Proof.
  revert w c. induction fuel as [|fuel IH]; intros w c; cbn [reserve_loop]; [done|].
  intros Hr. apply bind_Some in Hr as ([b1 r1] & _ & Hr).
  assert (forgets w c (mkWorld b1 (w_arcs w) (w_active w)) c) as H0 by (apply forgets_world; by intros a m).
  destruct r1 as [a|e]; [by simplify_eq|]. destruct e; simplify_eq; try done.
  apply bind_Some in Hr as ([[w1 c1] ev] & He & Hr). apply evict_forgets in He.
  destruct ev; simplify_eq; eauto using forgets_trans.
Qed.

Lemma next_clock_evolves w c c1 clock : next_clock c = (c1, clock) → evolves None w c w c1 0 ∧ cache_size c1 = cache_size c.
Proof.
  unfold next_clock. intros [= <- <-]. split; [split; [by intros ??| | |]|].
  - intros u e' He'. simpl in He'. right. destruct (_ =? _); simpl in He'; [|eauto].
    rewrite lookup_fmap in He'. apply fmap_Some in He' as (e & He & ->). eauto.
  - left. by destruct (_ =? _).
  - simpl. by destruct (_ =? _).
  - unfold cache_size. cbn [c_entries]. destruct (_ =? _); cbn [c_entries]; [by rewrite map_size_fmap|done].
Qed.

Lemma cache_get_evolves w c u w' c' r :
  cache_get w c u = Some (w', c', r) → evolves None w c w' c' 0.
Proof.
  unfold cache_get. destruct (c_disabled c); [intros [= <- <- <-]; apply evolves_refl|].
  destruct (next_clock c) as [c1 clock] eqn:Hn. apply (next_clock_evolves w) in Hn as [Hn _].
  destruct (c_entries c1 !! u) as [e|] eqn:He; [|by intros [= <- <- <-]].
  intros Hr. apply bind_Some in Hr as (w1 & Hc & [= <- <- <-]). apply arc_clone_models in Hc.
  change 0 with (0 + 0). eapply evolves_trans; [done|]. split; [done| |by left|done].
  simpl. intros v e'. rewrite lookup_insert_Some. intros [[<- <-]|[_ ?]]; eauto.
Qed.

(** The generation of a cached model is looked up like the model. *)
Lemma cache_generation_evolves w c u c' g :
  cache_generation w c u = Some (c', g) →
  evolves None w c w c' 0 ∧ ∀ gen, g = Some gen → ∃ m, cached w c u = Some m ∧ gen = am_generation m.
Proof.
  unfold cache_generation. destruct (c_disabled c); [intros [= <- <-]; split; [apply evolves_refl|done]|].
  destruct (next_clock c) as [c1 clock] eqn:Hn. apply (next_clock_evolves w) in Hn as [Hn _].
  destruct (c_entries c1 !! u) as [e|] eqn:He; [|by intros [= <- <-]].
  intros Hr. apply bind_Some in Hr as (m & Hm & [= <- <-]). split.
  - change 0 with (0 + 0). eapply evolves_trans; [done|]. split; [by intros ??| |by left|done].
    simpl. intros v e'. rewrite lookup_insert_Some. intros [[<- <-]|[_ ?]]; eauto.
  - intros gen [= <-]. exists m. split; [|done].
    destruct Hn as [_ Hent _ _]. destruct (Hent _ _ He) as [?|(e0 & He0 & Heq)]; [done|].
    unfold cached. rewrite He0. simpl. by rewrite <- Heq.
Qed.

Lemma cache_invalidate_evolves w c u w' c' :
  cache_invalidate w c u = Some (w', c') →
  evolves None w c w' c' 1 ∧ c_entries c' !! u = None.
Proof.
  unfold cache_invalidate. intros Hr. apply bind_Some in Hr as ([[w1 c1] r] & Hr1 & Hr).
  apply cache_remove_evolves in Hr1 as (Hev & Hu & _). destruct r; simplify_eq; [by split|].
  split; [|done]. change 1 with (0 + 1). eapply evolves_trans; [done|].
  split; [by intros ??|eauto|by apply advances_bump|done].
Qed.

Lemma drop_handles_models ls w w' : drop_handles w ls = Some w' → models_le w w'.
Proof.
  revert w. induction ls as [|a ls IH]; intros w; cbn [drop_handles]; [intros [= <-]; by intros a m|].
  intros Hr. apply bind_Some in Hr as (w1 & Hd & Hr). apply arc_drop_models in Hd.
  apply IH in Hr. intros x m ?. eauto.
Qed.

Lemma cache_clear_evolves w c w' c' :
  cache_clear w c = Some (w', c') → evolves None w c w' c' 1.
Proof.
  unfold cache_clear. intros Hr. apply bind_Some in Hr as (w1 & Hd & [= <- <-]).
  split; [by eapply drop_handles_models|done|by apply advances_bump|done].
Qed.

(** Poisoning forgets everything and disables the cache for good. *)
Lemma cache_poison_evolves w c w' c' :
  cache_poison w c = Some (w', c') → 0 ≤ c_revision c < 2 ^ 128 →
  ∃ k, evolves None w c w' c' k ∧ 0 ≤ k ≤ 1 ∧ c_entries c' = ∅ ∧ c_disabled c' = true.
Proof.
  unfold cache_poison. intros Hr Hrev. apply bind_Some in Hr as (w1 & Hd & [= <- <-]).
  exists (if c_revision c =? U128_MAX then 0 else 1).
  split; [|split; [by case_match|done]]. split; [by eapply drop_handles_models|done| |done].
  unfold advances; simpl. unfold U128_MAX in *. destruct (Z.eqb_spec (c_revision c) (2 ^ 128 - 1)).
  - left. split; [done|]. lia.
  - right. split; [lia|]. rewrite Z.mod_small by lia. lia.
Qed.

(** At most one entry published, after entries were forgotten. *)
Definition publishes u a w c w' c' : Prop :=
  ∃ k, evolves (Some (u, a)) w c w' c' k ∧ 0 ≤ k ≤ cache_size c + 1.

Lemma publish_evolves w c u a n c' :
  publish_entry c u a n = Some c' → evolves (Some (u, a)) w c w c' 1.
Proof.
  unfold publish_entry. destruct (next_clock c) as [c1 clock] eqn:Hn.
  apply (next_clock_evolves w) in Hn as [Hn _]. intros Hr. apply bind_Some in Hr as (b & _ & [= <-]).
  change 1 with (0 + 1). eapply evolves_trans; [done|]. split; [by intros ??| |by apply advances_bump|done].
  simpl. intros v e'. rewrite lookup_insert_Some. intros [[<- <-]|[_ ?]]; eauto.
Qed.

Lemma publishes_after u a w c w1 c1 w2 c2 k :
  forgets w c w1 c1 → evolves (Some (u, a)) w1 c1 w2 c2 k → 0 ≤ k ≤ 1 → publishes u a w c w2 c2.
Proof.
  intros (k1 & E1 & ?) E2 ?. exists (k1 + k). split; [by eapply evolves_trans|].
  unfold cache_size in *. lia.
Qed.

Lemma evolves_models u a w c w' : models_le w w' → evolves (Some (u, a)) w c w' c 0.
Proof. intros Hm. split; [done|eauto|by left|done]. Qed.

Lemma insert_cached_publishes l w c u a w' c' r :
  insert_cached l w c u a = Some (w', c', r) → publishes u a w c w' c'.
Proof.
  assert (∀ w c, forgets w c w c) as Hrefl by (intros; apply forgets_world; by intros ??).
  unfold insert_cached. intros Hr. apply bind_Some in Hr as (m & _ & Hr).
  destruct (max_bytes l <? am_plaintext_bytes m).
  { apply bind_Some in Hr as (w1 & Hd%arc_drop_models & [= <- <- <-]).
    eapply publishes_after; [done|by apply evolves_models|lia]. }
  destruct (c_disabled c).
  { apply bind_Some in Hr as (w1 & Hd%arc_drop_models & [= <- <- <-]).
    eapply publishes_after; [done|by apply evolves_models|lia]. }
  apply bind_Some in Hr as ([[w1 c1] r1] & H1 & Hr). apply cache_remove_evolves in H1 as (H1 & _ & Hs).
  apply bind_Some in Hr as ([[w2 c2] r2] & H2 & Hr). apply make_room_forgets in H2.
  assert (forgets w c w2 c2) as H12.
  { eapply forgets_trans; [|done]. eexists. split; [done|]. destruct r1; lia. }
  destruct r2; apply bind_Some in Hr as (w3 & H3 & Hr).
  - apply arc_clone_models in H3. apply bind_Some in Hr as (c3 & H4 & [= <- <- <-]).
    eapply (publishes_after _ _ _ _ w3); [|by eapply publish_evolves|lia].
    eapply forgets_trans; [done|]. by apply forgets_world.
  - injection Hr as <- <- <-. apply arc_drop_models in H3.
    eapply publishes_after; [done|by apply evolves_models|lia].
Qed.

Lemma insert_provisional_publishes l w c u rev gen a publish w' c' r asked :
  insert_provisional_if_revision l w c u rev gen a publish = Some (w', c', r, asked) →
  forgets w c w' c' ∨ c_revision c = rev ∧ c_disabled c = false ∧ publishes u a w c w' c'.
Proof.
  unfold insert_provisional_if_revision. intros Hr. apply bind_Some in Hr as (m & _ & Hr).
  assert (∀ x y, arc_drop w a ≫= (λ w', Some (w', c, x, y)) = Some (w', c', r, asked) →
    forgets w c w' c') as Hrefuse.
  { intros x y Hx. apply bind_Some in Hx as (w1 & Hd & [= <- <- _ _]).
    apply forgets_world. by eapply arc_drop_models. }
  repeat (case_match; [left; by eapply Hrefuse|]).
  right. breflect. split; [done|]. split; [done|].
  apply bind_Some in Hr as ([[w1 c1] r1] & Hroom & Hr). apply make_room_forgets in Hroom.
  destruct r1; apply bind_Some in Hr as (x & Hpub & [= <- <- _ _]).
  - eapply publishes_after; [done|by eapply publish_evolves|lia].
  - apply arc_drop_models in Hpub. eapply publishes_after; [done|by apply evolves_models|lia].
Qed.
