(* ===== verification/BackendOps.v ===== *)
(** * A storage backend's use of the cache

    Each cache and budget call of [Backend], in a state where the accounts are right: it
    cannot panic, and it says what happens to the cached models, the models held by callers
    and the revision. *)

From S2P Require Import Prelude Bytes Storage Crypto Contracts Budget Cache CacheLru CacheProofs CacheSystem Disk Backend CacheModels.

(** The order of a report's records. *)
#[export] Instance status_le_total : Total status_le.
Proof. intros x y. apply bytes_leb_total. Qed.
#[export] Instance status_le_trans : Transitive status_le.
Proof. intros x y z. apply bytes_leb_trans. Qed.

Section ops.
  Context {R : Type} {limits : ModelCacheLimits}.
  Context (Hlim : limits_ok limits) (Husers : max_users limits ≤ U64_MAX).
  Implicit Types (b : Backend R) (h : owners) (k : Z) (u : CanonicalUsername).

Abbreviation w_ b := (b_world b).
Abbreviation c_ b := (b_cache b).
Abbreviation fs_ b := (d_files (b_disk b)).

Definition binv b h : Prop := sys_inv limits (w_ b) (c_ b) h.

(** [bwp m Q b]: run on [b], [m] does not panic and ends in a state and with an answer [Q]
    allows. *)
Definition bwp {A} (m : bop A) (Q : Backend R → option (bresult A) → Prop) b : Prop :=
  ∃ b' r, m b = Some (b', r) ∧ Q b' r.

Lemma bwp_case {A B} (m : bop A) (f : A → bop B) (g : StorageBackendError → bop B) Q b :
  bwp m (λ b' r, match r with
                 | Some (Ok a) => bwp (f a) Q b' | Some (Err e) => bwp (g e) Q b'
                 | None => Q b' None end) b →
  bwp (bcase m f g) Q b.
Proof.
  intros (b' & r & Hm & Hr). unfold bwp, bcase. rewrite Hm. destruct r as [[a|e]|]; eauto.
Qed.

Lemma bwp_ret {A} (x : bresult A) (Q : Backend R → option (bresult A) → Prop) b :
  Q b (Some x) → bwp (blift x) Q b.
Proof. intros HQ. by exists b, (Some x). Qed.

Lemma bwp_bind {A B} (m : bop A) (f : A → bop B) Q b :
  bwp m (λ b' r, match r with
                 | Some (Ok a) => bwp (f a) Q b' | Some (Err e) => Q b' (Some (Err e))
                 | None => Q b' None end) b →
  bwp (bbind m f) Q b.
Proof.
  intros (b' & r & Hm & Hr). apply bwp_case. exists b', r. split; [done|].
  destruct r as [[a|e]|]; [done|by apply (bwp_ret (Err e))|done].
Qed.

Lemma bwp_mono {A} (m : bop A) (P Q : Backend R → option (bresult A) → Prop) b :
  bwp m P b → (∀ b' r, P b' r → Q b' r) → bwp m Q b.
Proof. intros (b' & r & Hm & HP) HPQ. exists b', r. eauto. Qed.

(** ** How operations change the cache *)

(** From [b] with handles [h] to [b'] with [h']: the accounts are right, what is cached was
    cached or is [published], held models stay, the revision advances by [k]. *)
Record grows (published : option (CanonicalUsername * AuthModel)) b h b' h' k : Prop := {
  gr_inv : binv b' h';
  gr_cached u m : cached (w_ b') (c_ b') u = Some m →
    cached (w_ b) (c_ b) u = Some m ∨ published = Some (u, m);
  gr_held a m : 1 ≤ h a → 1 ≤ h' a →
    arc_model_of (w_ b) a = Some m → arc_model_of (w_ b') a = Some m;
  gr_advances : advances (c_ b) (c_ b') k;
  gr_disabled : c_disabled (c_ b) = true → c_disabled (c_ b') = true }.

Lemma grows_refl b h : binv b h → grows None b h b h 0.
Proof. intros Hb. split; [done|auto|auto|by left|done]. Qed.

Lemma grows_trans p b1 h1 b2 h2 b3 h3 k1 k2 :
  grows None b1 h1 b2 h2 k1 → (∀ a, 1 ≤ h1 a → 1 ≤ h2 a) → grows p b2 h2 b3 h3 k2 →
  grows p b1 h1 b3 h3 (k1 + k2).
Proof.
  intros [I1 C1 M1 A1 D1] Hh [I2 C2 M2 A2 D2]. split; [done| |auto|by eapply advances_trans|auto].
  intros u m Hm. destruct (C2 _ _ Hm) as [Hm'|?]; [|by right]. by destruct (C1 _ _ Hm'); auto.
Qed.
Lemma grows_trans_l p b1 h1 b2 h2 b3 h3 k1 k2 :
  grows p b1 h1 b2 h2 k1 → (∀ a, 1 ≤ h1 a → 1 ≤ h2 a) → grows None b2 h2 b3 h3 k2 →
  grows p b1 h1 b3 h3 (k1 + k2).
Proof.
  intros [I1 C1 M1 A1 D1] Hh [I2 C2 M2 A2 D2]. split; [done| |auto|by eapply advances_trans|auto].
  intros u m Hm. destruct (C2 _ _ Hm) as [Hm'|?]; [|done]. by destruct (C1 _ _ Hm'); auto.
Qed.

(** Handles of live models keep their model when no model changes. *)
Lemma evolves_grows b h d w c h' k :
  evolves None (w_ b) (c_ b) w c k → binv (mkBackend d w c) h' →
  grows None b h (mkBackend d w c) h' k.
Proof.
  intros Hev Hinv. split; [done| | |by destruct Hev|by destruct Hev].
  - intros u m Hm. left. by eapply evolves_cached.
  - simpl. intros a m _ Ha Hm. destruct (sys_inv_model _ _ _ _ _ Hinv Ha) as (m' & Hm' & _).
    destruct Hev as [Hle _ _ _]. simpl in Hm'. rewrite Hm'. by rewrite (Hle _ _ Hm') in Hm.
Qed.

Lemma publishes_grows b h u a model d w c h' k :
  evolves (Some (u, a)) (w_ b) (c_ b) w c k → arc_model_of (w_ b) a = Some model →
  binv (mkBackend d w c) h' → grows (Some (u, model)) b h (mkBackend d w c) h' k.
Proof.
  intros Hev Ham Hinv. split; [done| | |by destruct Hev|by destruct Hev].
  - intros v m Hm. destruct (evolves_published _ _ _ _ _ _ _ _ _ Hev Hm) as [?|[-> Hm']]; [by left|].
    right. congruence.
  - simpl. intros x m _ Hx Hm. destruct (sys_inv_model _ _ _ _ _ Hinv Hx) as (m' & Hm' & _).
    destruct Hev as [Hle _ _ _]. simpl in Hm'. rewrite Hm'. by rewrite (Hle _ _ Hm') in Hm.
Qed.

Lemma grows_handles p b h b' h1 h2 k :
  (∀ a, h1 a = h2 a) → grows p b h b' h1 k → grows p b h b' h2 k.
Proof.
  intros E [(Hw & Hh & Hc & Hb) C M A D]. split; [|done| |done|done].
  - split_and!; [|intros a; rewrite <- E; apply Hh|done|done].
    eapply world_inv_ext; [|exact Hw]. intros a. simpl. by rewrite E.
  - intros a m ? Ha. rewrite <- E in Ha. auto.
Qed.

(** The revision increments of one cache call. *)
Definition few k : Prop := 0 ≤ k ≤ U64_MAX + 1.

Lemma binv_size b h : binv b h → 0 ≤ cache_size (c_ b) ≤ U64_MAX.
Proof. intros (_ & _ & (_ & _ & Hs & _) & _). unfold cache_size. lia. Qed.

Lemma binv_revision b h : binv b h → 0 ≤ c_revision (c_ b) < 2 ^ 128.
Proof. intros (_ & _ & (_ & _ & _ & _ & Hr & _) & _). unfold U128_MAX in Hr. lia. Qed.

Lemma forgets_grows b h d w c h' :
  binv b h → forgets (w_ b) (c_ b) w c → binv (mkBackend d w c) h' →
  ∃ k, grows None b h (mkBackend d w c) h' k ∧ few k.
Proof.
  intros Hb (k & Hev & Hk) Hinv. exists k. split; [by apply evolves_grows|].
  pose proof (binv_size b h Hb). unfold few, cache_size in *. lia.
Qed.

(** A permit that no model owns. *)
Definition permit_held b (id : positive) (n : Z) : Prop :=
  ∃ p, permits (w_budget (w_ b)) !! id = Some p ∧ permit_bytes p = n ∧ ¬ owned_by_arc (w_ b) id.

Lemma bwp_cache {A} (f : World → CacheState → option (World * CacheState * bresult A)) Q b w c r :
  f (w_ b) (c_ b) = Some (w, c, r) → Q (mkBackend (b_disk b) w c) (Some r) → bwp (on_cache f) Q b.
Proof. intros Hf HQ. eexists _, _. split; [|exact HQ]. unfold on_cache. by rewrite Hf. Qed.

Lemma bwp_world {A} (f : World → option (World * bresult A)) Q b w r :
  f (w_ b) = Some (w, r) → Q (mkBackend (b_disk b) w (c_ b)) (Some r) → bwp (on_world f) Q b.
Proof. intros Hf HQ. eapply bwp_cache; [|exact HQ]. simpl. by rewrite Hf. Qed.

(** ** The calls *)

(** The reservation loop ends on a world whose models own older permits. *)
Lemma reserve_loop_held n fuel w c h p w' c' id :
  sys_inv limits w c h → 0 ≤ n →
  reserve_loop (λ budget, Some (reserve budget n)) fuel w c p = Some (w', c', Ok id) →
  permits (w_budget w') !! id = Some (mkPermit n None) ∧ ¬ owned_by_arc w' id.
Proof.
  revert w c. induction fuel as [|fuel IH]; intros w c Hinv Hn; cbn [reserve_loop]; [done|].
  destruct (reserve (w_budget w) n) as [b1 r1] eqn:Hr. cbn [mbind option_bind].
  pose proof Hinv as ((Hb & Harcs & _) & _).
  apply reserve_spec in Hr as (Hb1 & _ & Hr1); [|done|done]. destruct r1 as [x|e].
  - intros [= <- _ <-]. destruct Hr1 as (_ & _ & Hnone & ->). simpl.
    split; [by rewrite lookup_insert_eq|]. intros (a & arc & Ha & <-). simpl in Ha.
    specialize (Harcs a). rewrite Ha in Harcs. destruct Harcs as (_ & _ & _ & q & Hq & _). congruence.
  - destruct Hr1 as [-> _]. destruct e; try (by intros [=]). intros Hl.
    assert (mkWorld (w_budget w) (w_arcs w) (w_active w) = w) as Ew by by destruct w. rewrite Ew in Hl.
    destruct (evict_spec limits w c h p Hinv) as (w1 & c1 & ev & He & Hinv1 & _).
    rewrite He in Hl. cbn [mbind option_bind] in Hl. destruct ev; [|done]. by eapply IH.
Qed.

Lemma reserve_bytes_bwp b h p n :
  binv b h → 0 ≤ n →
  bwp (reserve_bytes p n) (λ b' r, fs_ b' = fs_ b ∧ (∃ k, grows None b h b' h k ∧ few k) ∧
    match r with
    | Some (Ok id) => permit_held b' id n
    | Some (Err e) => True
    | None => False end) b.
Proof.
  intros Hb Hn. unfold reserve_bytes, reserve_operation_except, bwp, on_cache.
  destruct (c_disabled (c_ b)) eqn:Hd.
  { cbn [mbind option_bind]. eexists _, _. split; [done|]. split; [done|]. split; [|done]. exists 0.
    split; [destruct b; by apply grows_refl|]. unfold few. unfold_max. lia. }
  destruct (reserve_loop_spec limits _ (loop_fuel (c_ b)) (w_ b) (c_ b) h p
    (reserve_attempt_ok _ Hn) Hb) as (w' & c' & r & b0 & Hrun & Hinv' & _);
    [unfold loop_fuel; lia|].
  rewrite Hrun. cbn [mbind option_bind]. eexists _, _. split; [done|]. split; [done|].
  split; [eapply forgets_grows; [done|by eapply reserve_loop_forgets|done]|].
  destruct r as [id|e]; [|done].
  eapply reserve_loop_held in Hrun as [Hp Ho]; [|exact Hb|lia]. by eexists.
Qed.

Lemma drop_operation_bwp b h id n :
  binv b h → permit_held b id n →
  bwp (drop_operation id) (λ b' r, r = Some (Ok ()) ∧ fs_ b' = fs_ b ∧ grows None b h b' h 0) b.
Proof.
  intros Hb (p & Hp & _ & Ho).
  destruct (world_drop_permit_spec _ _ _ _ _ _ Hb Hp Ho) as (w' & Hd & Hinv' & _).
  eapply bwp_world; [by rewrite Hd|]. split; [done|]. split; [done|].
  apply evolves_grows; [|done]. apply evolves_world. by eapply world_drop_permit_models.
Qed.

Lemma release_lease_bwp b h a :
  binv b h → 1 ≤ h a →
  bwp (release_lease a) (λ b' r, r = Some (Ok ()) ∧ fs_ b' = fs_ b ∧
    grows None b h b' (own_add h a (-1)) 0) b.
Proof.
  intros Hb Ha. destruct (sys_inv_drop _ _ _ _ _ Hb Ha) as (w' & Hd & Hinv' & _).
  eapply bwp_world; [by rewrite Hd|]. split; [done|]. split; [done|].
  apply evolves_grows; [|done]. apply evolves_world. by eapply arc_drop_models.
Qed.

Lemma invalidate_bwp b h u :
  binv b h →
  bwp (invalidate u) (λ b' r, r = Some (Ok ()) ∧ fs_ b' = fs_ b ∧ grows None b h b' h 1 ∧
    cached (w_ b') (c_ b') u = None ∧ ∀ id n, permit_held b id n → permit_held b' id n) b.
Proof.
  intros Hb. destruct (cache_invalidate_spec _ _ _ _ u Hb) as (w' & c' & Hi & Hinv' & Hde & _ & _ & Hsh).
  eapply bwp_cache; [by rewrite Hi|]. apply cache_invalidate_evolves in Hi as [Hev Hno].
  split_and!; [done|done|by apply evolves_grows| |].
  - unfold cached; simpl. by rewrite Hno.
  - intros id n (p & Hp & Hn & Ho). destruct (shrinks_external _ _ Hsh id Ho) as [Hp' Ho'].
    exists p. simpl. split_and!; [by rewrite Hp'|done|done].
Qed.

Lemma cached_lease_bwp b h u :
  binv b h →
  bwp (cached_lease u) (λ b' r, fs_ b' = fs_ b ∧
    match r with
    | Some (Ok (Some a)) => grows None b h b' (own_add h a 1) 0 ∧
        ∃ m, cached (w_ b) (c_ b) u = Some m ∧ arc_model_of (w_ b') a = Some m
    | Some (Ok None) => grows None b h b' h 0
    | _ => False end) b.
Proof.
  intros Hb. destruct (cache_get_spec _ Hlim _ _ _ u Hb) as (w' & c' & r & Hg & _ & _ & _ & Hr).
  eapply bwp_cache; [by rewrite Hg|]. apply cache_get_evolves in Hg. split; [done|].
  destruct r as [a|]; [|destruct Hr as [Hinv' _]; by apply evolves_grows].
  destruct Hr as (Hinv' & e & He & <- & _). split; [by apply evolves_grows|].
  destruct Hb as (_ & Hh & _ & Hbk). destruct (Hbk _ _ He) as (m & Hm & _).
  exists m. unfold cached. rewrite He. split; [done|]. simpl.
  destruct (sys_inv_model _ _ _ _ (ce_model e) Hinv') as (m' & Hm' & _).
  { rewrite own_add_eq. specialize (Hh (ce_model e)). lia. }
  destruct Hg as [Hle _ _]. specialize (Hle _ _ Hm'). rewrite Hm'. simpl in Hle. congruence.
Qed.

(** Shrinking a held permit, or giving it up. *)
Lemma shrink_bwp b h id n0 n :
  binv b h → permit_held b id n0 → 0 ≤ n →
  bwp (on_world (world_shrink id n)) (λ b' r, fs_ b' = fs_ b ∧ grows None b h b' h 0 ∧
    match r with
    | Some (Ok id') => 1 ≤ n ≤ n0 ∧ permit_held b' id' n
    | Some (Err _) => n = 0 ∨ n0 < n
    | None => False end) b.
Proof.
  intros Hb (p & Hp & <- & Ho) Hn. pose proof Hb as ((Hbud & Harcs & Hinj) & Hh & Hc & Hbk).
  destruct (shrink_to_spec _ _ _ n Hbud Hp Hn) as (b1 & g & r & Hs & Hb1 & Hr).
  eapply bwp_world; [unfold world_shrink; by rewrite Hs|]. split; [done|]. destruct r as [id'|e].
  - destruct Hr as (-> & -> & Hn' & ->). split.
    + apply evolves_grows; [by apply evolves_world; intros ??|].
      unfold binv, sys_inv; simpl. split_and!; try done. split_and!; simpl; try done.
      intros a. specialize (Harcs a). destruct (w_arcs (w_ b) !! a) as [arc|] eqn:Ha; [|done].
      destruct Harcs as (? & ? & ? & q & Hq & ?). split_and!; try done. exists q. split; [|done].
      simpl. rewrite lookup_insert_ne; [done|]. intros ->. apply Ho. by eexists _, _.
    + split; [done|]. eexists. simpl. rewrite lookup_insert_eq. split_and!; [done|done|].
      intros (a & arc & Ha & E). apply Ho. by exists a, arc.
  - destruct Hr as [Hbad Hd]. split; [|done].
    destruct (world_drop_permit_spec _ _ _ _ _ _ Hb Hp Ho) as (w' & Hd' & Hinv' & _).
    unfold world_drop_permit in Hd'. rewrite Hd in Hd'. cbn [mbind option_bind] in Hd'.
    injection Hd' as <-. apply evolves_grows; [by apply evolves_world; intros ??|done].
Qed.

(** A model built over a held permit. *)
Lemma new_model_bwp b h model id n :
  binv b h → permit_held b id n → 0 ≤ am_plaintext_bytes model →
  bwp (on_world (λ w, CachedAuthModel_new w model id)) (λ b' r, fs_ b' = fs_ b ∧
    match r with
    | Some (Ok a) => grows None b h b' (own_add h a 1) 0 ∧ arc_model_of (w_ b') a = Some model ∧
        h a = 0 ∧ c_ b' = c_ b
    | Some (Err _) => grows None b h b' h 0 ∧ n < am_plaintext_bytes model
    | None => False end) b.
Proof.
  intros Hb (p & Hp & <- & Ho) Hn.
  destruct (new_handle_spec _ _ _ _ model id p Hb Hp Ho Hn) as (w' & r & Hnew & Hr).
  eapply bwp_world; [exact Hnew|]. split; [done|].
  pose proof Hb as (Hw & Hh & _ & Hbk).
  destruct (CachedAuthModel_new_spec _ _ model id p Hw Hp Ho Hn) as (w1 & r1 & Hnew1 & Hr1).
  rewrite Hnew in Hnew1. injection Hnew1 as <- <-. destruct r as [a|e].
  - destruct Hr as (_ & Hinv' & Hm). destruct Hr1 as (_ & Hfresh & _ & _ & _ & Hold).
    destruct Hw as (_ & Harcs & _). pose proof (Harcs a) as Ha0. rewrite Hfresh in Ha0.
    specialize (Hh a) as Ha. pose proof (refs_nonneg (c_ b) a). split_and!; [|done|lia|done].
    split; [done| | |by left|done].
    + intros u m. unfold cached; simpl. intros Hc. apply bind_Some in Hc as (e & He & Hc).
      left. rewrite He. cbn [mbind option_bind]. destruct (decide (ce_model e = a)) as [E|Hne].
      * destruct (Hbk _ _ He) as (m' & Hm' & _). unfold arc_model_of in Hm'. by rewrite E, Hfresh in Hm'.
      * by rewrite <- Hold.
    + intros x m Hx _ Hmx. simpl. rewrite Hold; [done|]. intros ->. lia.
  - destruct Hr as [? Hinv']. split; [|done]. destruct Hr1 as (_ & _ & Harcs & _).
    apply evolves_grows; [|done]. apply evolves_world. intros x m. unfold arc_model_of. by rewrite Harcs.
Qed.

Lemma clone_bwp b h a :
  binv b h → 1 ≤ h a →
  bwp (on_world (λ w, w ← arc_clone w a; Some (w, Ok ()))) (λ b' r, r = Some (Ok ()) ∧
    fs_ b' = fs_ b ∧ grows None b h b' (own_add h a 1) 0 ∧ c_ b' = c_ b) b.
Proof.
  intros Hb Ha. pose proof (refs_nonneg (c_ b) a).
  destruct (sys_inv_handle _ _ _ _ a Hb ltac:(lia)) as (w' & Hc & Hinv' & _).
  eapply bwp_world; [by rewrite Hc|]. split_and!; [done|done| |done].
  apply evolves_grows; [|done]. apply evolves_world. by eapply arc_clone_models.
Qed.

(** Inserting a model the caller has a handle on. *)
Lemma insert_cached_bwp b h u a m :
  binv b h → 1 ≤ h a → arc_model_of (w_ b) a = Some m → 0 ≤ am_plaintext_bytes m →
  bwp (on_cache (λ w c, insert_cached limits w c u a)) (λ b' r, fs_ b' = fs_ b ∧
    match r with
    | Some (Ok a') => a' = a ∧ ∃ k, grows (Some (u, m)) b h b' h k ∧ few k
    | Some (Err _) => ∃ k, grows None b h b' (own_add h a (-1)) k ∧ few k
    | None => False end) b.
Proof.
  intros Hb Ha Hm Hn.
  destruct (insert_cached_spec _ Hlim _ _ _ u a m Hb Ha Hm Hn) as (w' & c' & r & Hins & Hr).
  eapply bwp_cache; [exact Hins|]. split; [done|].
  destruct (insert_cached_publishes _ _ _ _ _ _ _ _ Hins) as (k & Hev & Hk).
  pose proof (binv_size b h Hb). destruct r as [a'|e].
  - destruct Hr as (-> & _ & _ & Hinv' & _). split; [done|]. exists k. split; [|unfold few; lia].
    by eapply publishes_grows.
  - destruct Hr as (Hinv' & -> & _). eapply forgets_grows; [done| |done].
    apply forgets_world. by destruct Hev.
Qed.

(** Inserting a model over a held permit: the caller gets a lease. *)
Lemma insert_model_bwp b h u model id n :
  binv b h → permit_held b id n → 0 ≤ am_plaintext_bytes model →
  bwp (insert_model limits u model id) (λ b' r, fs_ b' = fs_ b ∧
    match r with
    | Some (Ok a) => (∃ k, grows (Some (u, model)) b h b' (own_add h a 1) k ∧ few k) ∧
        arc_model_of (w_ b') a = Some model
    | Some (Err _) => ∃ k, grows None b h b' h k ∧ few k
    | None => False end) b.
Proof.
  intros Hb Hp Hn.
  destruct (Z.ltb_spec (max_bytes limits) (am_plaintext_bytes model)) as [Hbig|Hfit].
  { destruct Hp as (p & Hp & _ & Ho).
    destruct (world_drop_permit_spec _ _ _ _ _ _ Hb Hp Ho) as (w' & Hd & Hinv' & _).
    eapply bwp_cache; [unfold cache_insert; rewrite (proj2 (Z.ltb_lt _ _)) by done; by rewrite Hd|].
    split; [done|]. eapply forgets_grows; [done| |done]. apply forgets_world.
    by eapply world_drop_permit_models. }
  destruct (new_model_bwp b h model id n Hb Hp Hn) as (b1 & r1 & Hrun & Hfs1 & Hr1).
  unfold on_world, on_cache in Hrun.
  destruct (CachedAuthModel_new (w_ b) model id) as [[w1 r1']|] eqn:Hnew; [|done].
  cbn [mbind option_bind] in Hrun. injection Hrun as <- <-.
  unfold bwp, insert_model, on_cache, cache_insert.
  rewrite (proj2 (Z.ltb_ge _ _)) by done. rewrite Hnew. cbn [mbind option_bind].
  destruct r1' as [a|e].
  - destruct Hr1 as (Hg1 & Hm & Ha & _). pose proof Hg1 as [Hb1 _ _ _].
    destruct (insert_cached_bwp _ _ u a model Hb1 ltac:(rewrite own_add_eq; lia) Hm Hn)
      as (b2 & r2 & Hins & Hfs2 & Hr2). unfold on_cache in Hins.
    simpl in Hins. destruct (insert_cached _ w1 _ u a) as [[[w2 c2] r2']|] eqn:Hic; [|done].
    cbn [mbind option_bind] in *. injection Hins as <- <-. eexists _, _. split; [done|].
    split; [done|].
    assert (∀ x, 1 ≤ h x → 1 ≤ own_add h a 1 x) as Hmono by (intros x ?; unfold own_add; case_decide; lia).
    destruct r2' as [a'|e].
    + destruct Hr2 as (-> & k & Hg2 & Hk). split.
      * exists k. split; [|done]. replace k with (0 + k) by lia. by eapply grows_trans.
      * destruct Hg2 as [_ _ Hheld _]. apply Hheld; [rewrite own_add_eq; lia..|done].
    + destruct Hr2 as (k & Hg2 & Hk). exists k. split; [|done]. replace k with (0 + k) by lia.
      eapply grows_handles; [|by eapply grows_trans].
      intros x. unfold own_add. case_decide; lia.
  - eexists _, _. split; [done|]. split; [done|]. destruct Hr1 as [Hg1 _]. exists 0.
    split; [done|]. unfold few. unfold_max. lia.
Qed.
End ops.
