(* ===== verification/BackendCalls.v ===== *)
(** * A storage backend's calls

    What the calls of a storage backend are put together from, and what each part does to
    the records of the directory and to the cache, from a state where every cached model is
    that of the stored record. Which records a directory holds is an interface that each
    backend implements. *)

From S2P Require Import Prelude Bytes Storage Crypto Codec CodecPayload Contracts Budget Cache CacheLru CacheProofs CacheSystem Disk Backend CacheModels BackendOps.

(** ** Requests *)

(** A request as [AppendRequest::new] and the types of its parts give it. *)
Definition append_request_ok (request : AppendRequest) : Prop :=
  username_wf (ap_username request) ∧ ap_entries request ≠ [] ∧ Forall entry_wf (ap_entries request).

Lemma position_Some enrollment es i :
  position enrollment es = Some i → ∃ e, es !! i = Some e ∧ enrollment_id e = enrollment.
Proof.
  revert i. induction es as [|e es IH]; intros i; simpl; [done|]. case_bool_decide.
  - intros [= <-]. by exists e.
  - intros (j & Hj & ->)%fmap_Some. by apply IH.
Qed.

(** What is left is without the one enrollment. *)
Lemma position_removed enrollment es i :
  NoDup (entry_ids es) → position enrollment es = Some i →
  ∃ before e after, es = before ++ e :: after ∧ enrollment_id e = enrollment ∧
    take i es ++ drop (S i) es = before ++ after ∧
    enrollment ∉ entry_ids (take i es ++ drop (S i) es).
Proof.
  intros Hnd Hp. apply position_Some in Hp as (e & He & Hid). apply take_drop_middle in He.
  exists (take i es), e, (drop (S i) es).
  split_and!; [done|done|done|]. rewrite <- Hid. rewrite <- He in Hnd.
  unfold entry_ids in *. rewrite fmap_app, fmap_cons in Hnd. rewrite fmap_app, elem_of_app.
  apply NoDup_app in Hnd as (_ & Hdis & Hnd). apply NoDup_cons in Hnd as [Hnot _].
  intros [Hin|Hin]; [|done]. apply (Hdis _ Hin). by left.
Qed.

(** The records of a directory: what of it a user's record depends on, and whether a model is
    that of the record stored for a user. *)
Class RecordStore := {
  record_view : Type;
  record_state : files → CanonicalUsername → record_view;
  model_stored : files → CanonicalUsername → AuthModel → Prop;
  model_stored_state fs fs' u m :
    record_state fs' u = record_state fs u → model_stored fs u m → model_stored fs' u m }.

Section calls.
  Context {R : Type} {os : DiskOs} `{!DiskOsLaws os} {limits : ModelCacheLimits} `{!RecordStore}.
  Context (Hlim : limits_ok limits) (Husers : max_users limits ≤ U64_MAX).
  Implicit Types (b : Backend R) (h : owners) (k : Z) (u v : CanonicalUsername).
  Implicit Types (fs : files).

Abbreviation w_ b := (b_world b).
Abbreviation c_ b := (b_cache b).
Abbreviation fs_ b := (d_files (b_disk b)).
Abbreviation binv := (binv (limits:=limits)).
Abbreviation grows := (grows (limits:=limits)).

Lemma record_model_nonneg record model :
  record_wf record → AuthModel_from_record record = Ok model → 0 ≤ am_plaintext_bytes model.
Proof.
  intros Hwf. rewrite AuthModel_from_record_eq by done. intros [= <-].
  unfold record_model, shape_estimate; cbn [am_plaintext_bytes flat_auth_model_bytes].
  pose proof (len_nonneg (entries record)).
  destruct Hwf as (_ & _ & _ & _ & _ & Hes).
  pose proof (labels_len_bound _ Hes).
  unfold payload_len. unfold_sizes. lia.
Qed.

(** ** Coherence *)

(** Every cached model is that of the stored record. *)
Definition coherent b : Prop := ∀ u m, cached (w_ b) (c_ b) u = Some m → model_stored (fs_ b) u m.

Definition same_records fs fs' : Prop := ∀ v, record_state fs' v = record_state fs v.

(** From [b] to [b'] in at most [n] cache calls with [k] revision increments: accounts right,
    cache coherent, the caller's handles kept with their models. *)
Record moves (n : Z) b h b' h' k : Prop := {
  mv_inv : binv b' h';
  mv_coherent : coherent b';
  mv_handles a : h a ≤ h' a;
  mv_models a m : 1 ≤ h a → arc_model_of (w_ b) a = Some m → arc_model_of (w_ b') a = Some m;
  mv_advances : advances (c_ b) (c_ b') k;
  mv_bound : 0 ≤ k ≤ n * (U64_MAX + 1);
  mv_disabled : c_disabled (c_ b) = true → c_disabled (c_ b') = true }.

Lemma moves_refl b h : binv b h → coherent b → moves 0 b h b h 0.
Proof. intros Hb Hc. split; auto with lia. by left. Qed.

Lemma moves_le n n' b h b' h' k : moves n b h b' h' k → n ≤ n' → moves n' b h b' h' k.
Proof. intros [] ?. split; try done. unfold U64_MAX in *. nia. Qed.

Lemma moves_trans n1 n2 b1 h1 b2 h2 b3 h3 k1 k2 :
  moves n1 b1 h1 b2 h2 k1 → moves n2 b2 h2 b3 h3 k2 → moves (n1 + n2) b1 h1 b3 h3 (k1 + k2).
Proof.
  intros [_ _ Hh1 Hm1 Ha1 Hn1 Hd1] [Hi Hc Hh2 Hm2 Ha2 Hn2 Hd2]. split; [done|done|..|lia|auto].
  - intros a. specialize (Hh1 a). specialize (Hh2 a). lia.
  - intros a m Ha Hm. specialize (Hh1 a). apply Hm2; [lia|auto].
  - by eapply advances_trans.
Qed.

(** A call that publishes nothing, or the model of a stored record. *)
Lemma moves_call p n b0 h0 b h k b' h' k' :
  moves n b0 h0 b h k → grows p b h b' h' k' → few k' → fs_ b' = fs_ b →
  (∀ u m, p = Some (u, m) → model_stored (fs_ b) u m) → (∀ a, h0 a ≤ h' a) →
  moves (n + 1) b0 h0 b' h' (k + k').
Proof.
  intros [Hi Hc Hh Hm Ha Hn Hd] [Gi Gc Gm Ga Gd] Hk Hfs Hp Hh'. unfold few in Hk. split; try done; [| | |lia|auto].
  - intros u m Hcm. rewrite Hfs. destruct (Gc _ _ Hcm) as [?|?]; auto.
  - intros a m Ha0 Hma. specialize (Hh a). specialize (Hh' a). apply Gm; [lia|lia|auto].
  - by eapply advances_trans.
Qed.
Lemma moves_forget n b0 h0 b h k b' h' k' :
  moves n b0 h0 b h k → grows None b h b' h' k' → few k' → fs_ b' = fs_ b →
  (∀ a, h0 a ≤ h' a) → moves (n + 1) b0 h0 b' h' (k + k').
Proof. intros. by eapply (moves_call None). Qed.

Lemma few_0 : few 0.
Proof. unfold few. unfold_max. lia. Qed.
Lemma few_1 : few 1.
Proof. unfold few. unfold_max. lia. Qed.

(** A change of the directory that leaves the records of cached models. *)
Lemma moves_disk n b0 h0 b h k d :
  moves n b0 h0 b h k →
  (∀ v, cached (w_ b) (c_ b) v ≠ None → record_state (d_files d) v = record_state (fs_ b) v) →
  moves n b0 h0 (mkBackend d (w_ b) (c_ b)) h k.
Proof.
  intros [Hi Hc Hh Hm Ha Hn Hd] Hsame. split; try done. intros v m Hv. simpl in *.
  eapply model_stored_state; [apply Hsame; congruence|by apply Hc].
Qed.
Lemma moves_quiet n b0 h0 b h k d :
  moves n b0 h0 b h k → d_files d = fs_ b → moves n b0 h0 (mkBackend d (w_ b) (c_ b)) h k.
Proof. intros Hm E. apply moves_disk; [done|]. by rewrite E. Qed.

(** A call after which only unchanged records are cached. *)
Lemma moves_forgotten n b0 h0 b h k b' h' k' :
  moves n b0 h0 b h k → grows None b h b' h' k' → few k' → (∀ a, h0 a ≤ h' a) →
  (∀ v, cached (w_ b') (c_ b') v ≠ None → record_state (fs_ b') v = record_state (fs_ b) v) →
  moves (n + 1) b0 h0 b' h' (k + k').
Proof.
  intros [Hi Hc Hh Hm Ha Hn Hd] [Gi Gc Gm Ga Gd] Hk Hh' Hsame. unfold few in Hk.
  split; try done; [| | |lia|auto].
  - intros u m Hu. eapply model_stored_state; [apply Hsame; congruence|].
    destruct (Gc _ _ Hu) as [?|?]; [auto|done].
  - intros a m Ha0 Hma. specialize (Hh a). specialize (Hh' a). apply Gm; [lia|lia|auto].
  - by eapply advances_trans.
Qed.

(** A call's effect: an increment of the revision, or no record touched, or the cache out of
    use. *)
Definition effect b h b' h' : Prop :=
  ∃ k, moves 20 b h b' h' k ∧ (k = 0 → same_records (fs_ b) (fs_ b') ∨ c_disabled (c_ b') = true).

Lemma effect_moves n b h b' h' k :
  moves n b h b' h' k → n ≤ 20 → k ≠ 0 ∨ fs_ b' = fs_ b → effect b h b' h'.
Proof.
  intros Hm Hn Hk. exists k. split; [by eapply moves_le|]. intros Hk0. left. intros v.
  destruct Hk as [?| ->]; done.
Qed.

(** ** Computations on the directory *)

(** [quiet fs m P]: on a directory [fs], [m] leaves it and the cache alone and returns only
    what [P] allows. *)
Definition quiet {A} fs (m : bop (R:=R) A) (P : bresult A → Prop) : Prop :=
  ∀ b, fs_ b = fs → ∃ d r, m b = Some (mkBackend d (w_ b) (c_ b), r) ∧ d_files d = fs ∧
    ∀ x, r = Some x → P x.

Lemma quiet_disk {A} fs (m : dop StorageBackendError A) P : reads fs m P → quiet fs (on_disk m) P.
Proof.
  intros Hm b Hfs. unfold on_disk. destruct (m (b_disk b)) as [d r] eqn:Hd.
  destruct (Hm _ _ _ Hd Hfs) as [Hfs' HP]. by exists d, r.
Qed.

Lemma quiet_lift {A} fs (x : bresult A) (P : bresult A → Prop) : P x → quiet fs (blift x) P.
Proof. intros HP [d w c] Hfs. exists d, (Some x). split_and!; [done|done|]. by intros y [= <-]. Qed.

Lemma quiet_case {A B} fs (m : bop A) (f : A → bop B) (g : StorageBackendError → bop B) P Q :
  quiet fs m P → (∀ a, P (Ok a) → quiet fs (f a) Q) → (∀ e, P (Err e) → quiet fs (g e) Q) →
  quiet fs (bcase m f g) Q.
Proof.
  intros Hm Hf Hg b Hfs. destruct (Hm b Hfs) as (d & r & Hr & Hd & HP). unfold bcase. rewrite Hr.
  destruct r as [[a|e]|]; [|..|by exists d, None].
  - destruct (Hf a (HP _ eq_refl) (mkBackend d (w_ b) (c_ b)) Hd) as (d' & r & -> & ?). eauto.
  - destruct (Hg e (HP _ eq_refl) (mkBackend d (w_ b) (c_ b)) Hd) as (d' & r & -> & ?). eauto.
Qed.

Lemma quiet_bind {A B} fs (m : bop A) (f : A → bop B) P Q :
  quiet fs m P → (∀ a, P (Ok a) → quiet fs (f a) Q) → (∀ e, P (Err e) → Q (Err e)) →
  quiet fs (bbind m f) Q.
Proof. intros Hm Hf Hg. eapply quiet_case; [done|done|]. intros e He. apply (quiet_lift fs (Err e)). auto. Qed.

Lemma bwp_quiet {A} fs (m : bop A) (P : bresult A → Prop) (Q : Backend R → option (bresult A) → Prop) b :
  quiet fs m P → fs_ b = fs →
  (∀ d, d_files d = fs → Q (mkBackend d (w_ b) (c_ b)) None) →
  (∀ d x, d_files d = fs → P x → Q (mkBackend d (w_ b) (c_ b)) (Some x)) → bwp m Q b.
Proof.
  intros Hm Hfs HN HS. destruct (Hm b Hfs) as (d & r & Hr & Hd & HP). eexists _, _. split; [done|].
  destruct r; auto.
Qed.

Lemma check_cancelled_quiet fs (P : bresult () → Prop) :
  P (Ok ()) → P (Err Unavailable) → quiet fs (check_cancelled os) P.
Proof.
  intros ??. apply quiet_disk, if_not_cancelled_reads; [by apply (reads_lift fs (Ok ()))|done].
Qed.

(** ** Permits *)

Lemma drop_then {A} (r : bresult A) b h id n (Q : Backend R → option (bresult A) → Prop) :
  binv b h → permit_held b id n →
  (∀ b', grows None b h b' h 0 → fs_ b' = fs_ b → Q b' (Some r)) →
  bwp (bbind (drop_operation id) (λ _, blift r)) Q b.
Proof.
  intros Hb Hp HQ. apply bwp_bind. eapply bwp_mono; [by eapply drop_operation_bwp|].
  intros b' r' (-> & Hfs & Hg). by apply bwp_ret, HQ.
Qed.

(** What a scope that owns a permit must leave for it to be dropped. *)
Definition scope_end {A} h id (Q : Backend R → option (bresult A) → Prop) b (x : bresult A) : Prop :=
  ∃ n, binv b h ∧ permit_held b id n ∧
    ∀ b', grows None b h b' h 0 → fs_ b' = fs_ b → Q b' (Some x).

Lemma holding_bwp {A} h id (m : bop A) Q b :
  bwp m (λ b' r, match r with Some x => scope_end h id Q b' x | None => Q b' None end) b →
  bwp (holding id m) Q b.
Proof.
  intros Hm. apply bwp_case. eapply bwp_mono; [exact Hm|].
  intros b' [[a|e]|]; [intros (n & ? & ? & ?)..|done].
  - by eapply (drop_then (Ok a)).
  - by eapply (drop_then (Err e)).
Qed.

Lemma unless_consumed_bwp {A} h id (m : bop A) Q b :
  bwp m (λ b' r, match r with Some (Err e) => scope_end h id Q b' (Err e) | _ => Q b' r end) b →
  bwp (unless_consumed id m) Q b.
Proof.
  intros Hm. apply bwp_case. eapply bwp_mono; [exact Hm|].
  intros b' [[a|e]|]; [|intros (n & ? & ? & ?)|done].
  - intros HQ. by apply (bwp_ret (Ok a)).
  - by eapply (drop_then (Err e)).
Qed.

(** Ending a scope in a moved state. *)
Lemma scope_end_moves {A} n0 b0 h b k id n (Q : Backend R → option (bresult A) → Prop) x :
  moves n0 b0 h b h k → permit_held b id n →
  (∀ b', moves (n0 + 1) b0 h b' h k → fs_ b' = fs_ b → Q b' (Some x)) → scope_end h id Q b x.
Proof.
  intros Hm Hp HQ. exists n. split_and!; [by destruct Hm|done|].
  intros b' Hg Hfs. apply HQ; [|done]. replace k with (k + 0) by lia.
  eapply moves_forget; [done|done|apply few_0|done|done].
Qed.

(** ** Caching what was written *)

Lemma own_add_le h a n x : 0 ≤ n → h x ≤ own_add h a n x.
Proof. intros ?. unfold own_add. case_decide; lia. Qed.
Lemma own_add_back h a x : own_add (own_add h a 1) a (-1) x = h x.
Proof. unfold own_add. case_decide; lia. Qed.

Lemma cache_model_bwp n0 b0 b h k u model id n :
  moves n0 b0 h b h k → permit_held b id n → 0 ≤ am_plaintext_bytes model →
  model_stored (fs_ b) u model →
  bwp (cache_model limits u model id) (λ b' r, r = Some (Ok ()) ∧ fs_ b' = fs_ b ∧
    ∃ k', moves (n0 + 3) b0 h b' h (k + k') ∧ 0 ≤ k') b.
Proof.
  intros Hm Hp Hn Hs. apply bwp_case. pose proof Hm as [Hb _ _ _ _ _ _].
  eapply bwp_mono; [by eapply shrink_bwp|]. intros b1 r1 (Hfs1 & Hg1 & Hr1).
  assert (moves (n0 + 1) b0 h b1 h (k + 0)) as Hm1
    by (eapply moves_forget; [done|done|apply few_0|done|done]).
  assert (∀ n' b' k', n' ≤ n0 + 3 → fs_ b' = fs_ b → moves n' b0 h b' h (k + k') → 0 ≤ k' →
    bwp (bret ()) (λ b' r, r = Some (Ok ()) ∧ fs_ b' = fs_ b ∧
      ∃ k', moves (n0 + 3) b0 h b' h (k + k') ∧ 0 ≤ k') b') as Hdone.
  { intros n' b' k' ? Hfs' Hm' ?. apply (bwp_ret (Ok ())). split_and!; [done|done|].
    exists k'. split; [by eapply moves_le|done]. }
  destruct r1 as [[id'|e]|]; [|apply (Hdone (n0 + 1) b1 0); by try lia|done].
  destruct Hr1 as [_ Hp1]. pose proof Hm1 as [Hb1 _ _ _ _ _].
  apply bwp_case. eapply bwp_mono; [by eapply insert_model_bwp|].
  intros b2 [[a|e]|] (Hfs2 & Hr2); [| |done].
  - destruct Hr2 as [(k2 & Hg2 & Hk2) _].
    assert (moves (n0 + 2) b0 h b2 (own_add h a 1) (k + k2)) as Hm2.
    { replace (n0 + 2) with (n0 + 1 + 1) by lia. replace (k + k2) with (k + 0 + k2) by lia.
      eapply moves_call; [done|exact Hg2|done|done| |intros; by apply own_add_le].
      intros v m [= <- <-]. by rewrite Hfs1. }
    pose proof Hm2 as [Hb2 _ _ _ _ _].
    eapply bwp_mono; [eapply release_lease_bwp; [exact Hb2|]|].
    { rewrite own_add_eq. destruct Hb1 as (_ & Hh & _). specialize (Hh a). lia. }
    intros b3 r3 (-> & Hfs3 & Hg3). split_and!; [done|congruence|].
    exists k2. split; [|unfold few in Hk2; lia]. replace (n0 + 3) with (n0 + 2 + 1) by lia.
    replace (k + k2) with (k + k2 + 0) by lia.
    eapply moves_forget; [done| |apply few_0|done|done].
    eapply grows_handles; [|done]. intros x. apply own_add_back.
  - destruct Hr2 as (k2 & Hg2 & Hk2). apply (Hdone (n0 + 2) b2 k2); [lia|congruence| |unfold few in Hk2; lia].
    replace (n0 + 2) with (n0 + 1 + 1) by lia. replace (k + k2) with (k + 0 + k2) by lia.
    eapply moves_forget; [done|exact Hg2|done|done|done].
Qed.

Lemma bwp_wp {A} (m : dop StorageBackendError A) P (Q : Backend R → option (bresult A) → Prop) b :
  wp m P (fs_ b) → (∀ d r, P (d_files d) r → Q (mkBackend d (w_ b) (c_ b)) r) → bwp (on_disk m) Q b.
Proof.
  intros Hm HQ. unfold bwp, on_disk. destruct (m (b_disk b)) as [d r] eqn:Hd.
  eexists _, _. split; [done|]. apply HQ. by eapply Hm.
Qed.

(** A mutation that invalidates its user and then reserves its operation. *)
Lemma invalidate_permit_bwp {A} protected amount b h u (f : positive → bop A) Q :
  0 ≤ amount → binv b h → coherent b →
  (∀ b2 k id, moves 2 b h b2 h k → 0 < k → fs_ b2 = fs_ b → cached (w_ b2) (c_ b2) u = None →
     permit_held b2 id amount → bwp (f id) Q b2) →
  (∀ b2 k e, moves 2 b h b2 h k → 0 < k → fs_ b2 = fs_ b → Q b2 (Some (Err e))) →
  bwp (bbind (invalidate u) (λ _, bbind (reserve_bytes protected amount) f)) Q b.
Proof.
  intros Hamount Hb Hco Hf He. apply bwp_bind. eapply bwp_mono; [by eapply invalidate_bwp|].
  intros b1 r1 (-> & Hfs1 & Hg1 & Hno & _).
  assert (moves 1 b h b1 h 1) as Hm1.
  { change (moves (0 + 1) b h b1 h (0 + 1)).
    eapply moves_forget; [by apply moves_refl|done|apply few_1|done|done]. }
  apply bwp_bind. eapply bwp_mono; [eapply reserve_bytes_bwp; [done|by destruct Hm1|done]|].
  intros b2 r2 (Hfs2 & (k2 & Hg2 & Hk2) & Hr2).
  assert (moves 2 b h b2 h (1 + k2)) as Hm2.
  { change 2 with (1 + 1). eapply moves_forget; [done..]. }
  assert (cached (w_ b2) (c_ b2) u = None) as Hno2.
  { apply eq_None_not_Some. intros [m Hc]. destruct Hg2 as [_ Hc2 _ _].
    destruct (Hc2 _ _ Hc) as [?|?]; congruence. }
  assert (fs_ b2 = fs_ b) as Hfs02 by congruence. unfold few in Hk2.
  destruct r2 as [[id|e]|]; [eapply Hf|eapply He|]; try done; lia.
Qed.

(** ** Queries *)

(** A query under a reservation: no record changes, and a success is what [P] allows. *)
Definition query {A} (P : A → Prop) b h b' (r : option (bresult A)) : Prop :=
  fs_ b' = fs_ b ∧
  match r with None => True | Some x => effect b h b' h ∧ ∀ a, x = Ok a → P a end.

Lemma query_bwp {A} protected amount (m : bop A) (P : A → Prop) b h :
  0 ≤ amount → binv b h → coherent b →
  quiet (fs_ b) m (λ x, match x with Ok a => P a | Err _ => True end) →
  bwp (bbind (reserve_bytes protected amount) (λ permit, holding permit m)) (query P b h) b.
Proof.
  intros Hamount Hb Hco Hq. apply bwp_bind. eapply bwp_mono; [by eapply reserve_bytes_bwp|].
  intros b1 r1 (Hfs1 & (k1 & Hg1 & Hk1) & Hr1).
  assert (moves 1 b h b1 h k1) as Hm1.
  { replace k1 with (0 + k1) by lia. change 1 with (0 + 1). eapply moves_forget; [by apply moves_refl|done..]. }
  destruct r1 as [[id|e]|]; [| |done].
  - eapply (holding_bwp h), (bwp_quiet (fs_ b)); [done|done|by split|].
    intros d x Hd Hx. eapply (scope_end_moves 1); [apply moves_quiet; [done|congruence]|exact Hr1|].
    intros b' Hm' Hfs'. simpl in Hfs'. rewrite Hd in Hfs'. split; [done|].
    split; [eapply effect_moves; [done|lia|by right]|]. by intros a ->.
  - split; [done|]. split; [by eapply effect_moves; [done|lia|right]|done].
Qed.

(** ** Authentication *)

(** The outcome of an authentication load: a lease on the model of the stored record. *)
Definition leased u b h b' (a : positive) : Prop :=
  effect b h b' (own_add h a 1) ∧
  ∃ m, arc_model_of (w_ b') a = Some m ∧ model_stored (fs_ b) u m.
Definition auth_outcome u b h b' (r : option (bresult positive)) : Prop :=
  fs_ b' = fs_ b ∧
  match r with Some (Ok a) => leased u b h b' a | Some (Err _) => effect b h b' h | None => True end.

(** A cache lookup from a moved state. *)
Lemma lookup_bwp n0 b0 b h k u :
  moves n0 b0 h b h k → fs_ b = fs_ b0 →
  bwp (cached_lease u) (λ b' r, fs_ b' = fs_ b0 ∧
    match r with
    | Some (Ok (Some a)) => moves (n0 + 1) b0 h b' (own_add h a 1) k ∧
        ∃ m, arc_model_of (w_ b') a = Some m ∧ model_stored (fs_ b0) u m
    | Some (Ok None) => moves (n0 + 1) b0 h b' h k
    | _ => False end) b.
Proof.
  intros Hm Hfs. pose proof Hm as [Hb Hco _ _ _ _].
  eapply bwp_mono; [by eapply cached_lease_bwp|]. intros b' r [Hfs' Hr]. split; [congruence|].
  replace k with (k + 0) by lia. destruct r as [[[a|]|]|]; [|..|done|done].
  - destruct Hr as (Hg & m & Hc & Ha). split.
    + eapply moves_forget; [done|done|apply few_0|done|intros; by apply own_add_le].
    + exists m. split; [done|]. rewrite <- Hfs. by apply Hco.
  - eapply moves_forget; [done|done|apply few_0|done|done].
Qed.

(** Shrinking the reservation to the model and caching it. *)
Lemma publish_model_bwp n0 b0 b h k u model id n (Q : Backend R → option (bresult positive) → Prop) :
  moves n0 b0 h b h k → fs_ b = fs_ b0 → permit_held b id n → 0 ≤ am_plaintext_bytes model →
  model_stored (fs_ b0) u model →
  (∀ b' a k', moves (n0 + 1) b0 h b' (own_add h a 1) k' → fs_ b' = fs_ b0 →
     arc_model_of (w_ b') a = Some model → Q b' (Some (Ok a))) →
  (∀ b' e k', moves (n0 + 1) b0 h b' h k' → fs_ b' = fs_ b0 → Q b' (Some (Err e))) →
  bwp (insert_model limits u model id) Q b.
Proof.
  intros Hm Hfs Hp Hn Hs Hok Herr. pose proof Hm as [Hb _ _ _ _ _ _].
  eapply bwp_mono; [by eapply insert_model_bwp|]. intros b' [[a|e]|] [Hfs' Hr]; [| |done].
  - destruct Hr as [(k' & Hg & Hk) Ha]. eapply Hok; [|congruence|done].
    eapply moves_call; [done|done|done|done| |intros; by apply own_add_le].
    intros v m [= <- <-]. by rewrite Hfs.
  - destruct Hr as (k' & Hg & Hk). eapply Herr; [|congruence].
    eapply moves_forget; [done|done|done|done|done].
Qed.

(** Loading under a reservation and shrinking it to the model. *)
Lemma load_shrink_bwp {A} n0 b0 b h k id n u (load : bop AuthModel) (f : positive → AuthModel → bop A) Q :
  moves n0 b0 h b h k → fs_ b = fs_ b0 → permit_held b id n →
  quiet (fs_ b0) load
    (λ x, match x with Ok m => model_stored (fs_ b0) u m ∧ 0 ≤ am_plaintext_bytes m | Err _ => True end) →
  (∀ b' id model n, moves (n0 + 1) b0 h b' h k → fs_ b' = fs_ b0 → permit_held b' id n →
     0 ≤ am_plaintext_bytes model →
     model_stored (fs_ b0) u model → bwp (f id model) Q b') →
  (∀ b' e, moves (n0 + 1) b0 h b' h k → fs_ b' = fs_ b0 → Q b' (Some (Err e))) →
  (∀ b', fs_ b' = fs_ b0 → Q b' None) →
  bwp (bbind (unless_consumed id load) (λ model,
       bbind (on_world (world_shrink id (am_plaintext_bytes model))) (λ permit, f permit model))) Q b.
Proof.
  intros Hm Hfs Hp Hq Hf Herr Hstop.
  apply bwp_bind. eapply (unless_consumed_bwp h), (bwp_quiet (fs_ b0)); [done|done|intros; by apply Hstop|].
  intros d x Hd Hx.
  assert (moves n0 b0 h (mkBackend d (w_ b) (c_ b)) h k) as Hm2 by (apply moves_quiet; [done|congruence]).
  destruct x as [model|e].
  2:{ eapply scope_end_moves; [done|exact Hp|]. intros b' Hm' Hfs'. eapply Herr; [done|by rewrite Hfs']. }
  destruct Hx as [Hs Hn]. apply bwp_bind. pose proof Hm2 as [Hb2 _ _ _ _ _].
  eapply bwp_mono; [eapply shrink_bwp; [exact Hb2|exact Hp|done]|].
  intros b3 r3 (Hfs3 & Hg3 & Hr3). simpl in Hfs3.
  assert (moves (n0 + 1) b0 h b3 h k) as Hm3.
  { replace k with (k + 0) by lia. eapply moves_forget; [done|done|apply few_0|done|done]. }
  destruct r3 as [[id'|e]|]; [| |done].
  - destruct Hr3 as [_ Hp3]. eapply Hf; [exact Hm3|congruence|done|done|done].
  - eapply Herr; [exact Hm3|congruence].
Qed.

(** Reserving from a moved state. *)
Lemma reserve_bwp {A} protected amount n0 b0 b h k (f : positive → bop A) Q :
  0 ≤ amount → moves n0 b0 h b h k → fs_ b = fs_ b0 →
  (∀ b' k' id, moves (n0 + 1) b0 h b' h k' → fs_ b' = fs_ b0 →
     permit_held b' id amount → bwp (f id) Q b') →
  (∀ b' k' e, moves (n0 + 1) b0 h b' h k' → fs_ b' = fs_ b0 → Q b' (Some (Err e))) →
  bwp (bbind (reserve_bytes protected amount) f) Q b.
Proof.
  intros Hamount Hm Hfs Hf Herr. pose proof Hm as [Hb _ _ _ _ _ _].
  apply bwp_bind. eapply bwp_mono; [by eapply reserve_bytes_bwp|].
  intros b1 r1 (Hfs1 & (k1 & Hg1 & Hk1) & Hr1).
  assert (moves (n0 + 1) b0 h b1 h (k + k1)) as Hm1 by (eapply moves_forget; [done..]).
  assert (fs_ b1 = fs_ b0) as Hfs01 by congruence.
  destruct r1 as [[id|e]|]; [by eapply Hf|by eapply Herr|done].
Qed.

(** Reserving, loading and shrinking. *)
Lemma cold_load_bwp {A} protected amount n0 b0 b h k u (load : bop AuthModel) (f : positive → AuthModel → bop A) Q :
  0 ≤ amount → moves n0 b0 h b h k → fs_ b = fs_ b0 →
  quiet (fs_ b0) load
    (λ x, match x with Ok m => model_stored (fs_ b0) u m ∧ 0 ≤ am_plaintext_bytes m | Err _ => True end) →
  (∀ b' k' id model n, moves (n0 + 2) b0 h b' h k' → fs_ b' = fs_ b0 → permit_held b' id n →
     0 ≤ am_plaintext_bytes model → model_stored (fs_ b0) u model → bwp (f id model) Q b') →
  (∀ b' k' e, moves (n0 + 2) b0 h b' h k' → fs_ b' = fs_ b0 → Q b' (Some (Err e))) →
  (∀ b', fs_ b' = fs_ b0 → Q b' None) →
  bwp (bbind (reserve_bytes protected amount) (λ operation,
       bbind (unless_consumed operation load) (λ model,
       bbind (on_world (world_shrink operation (am_plaintext_bytes model))) (λ permit,
       f permit model)))) Q b.
Proof.
  intros Hamount Hm Hfs Hq Hf Herr Hstop. replace (n0 + 2) with (n0 + 1 + 1) in * by lia.
  eapply reserve_bwp; [done|done|done| |].
  - intros b1 k1 id Hm1 Hfs1 Hp. eapply load_shrink_bwp; [done|done|done|done| | |done]; eauto.
  - intros b1 k1 e Hm1 Hfs1. eapply Herr; [|done]. eapply moves_le; [done|lia].
Qed.

(** A cancellation check from a moved state: the state moves on, or the call ends. *)
Lemma check_bwp {A} n0 b0 b h h' k (f : () → bop A) (g : StorageBackendError → bop A) Q :
  moves n0 b0 h b h' k → fs_ b = fs_ b0 →
  (∀ d, d_files d = fs_ b0 → moves n0 b0 h (mkBackend d (w_ b) (c_ b)) h' k →
     bwp (f ()) Q (mkBackend d (w_ b) (c_ b))) →
  (∀ d, d_files d = fs_ b0 → moves n0 b0 h (mkBackend d (w_ b) (c_ b)) h' k →
     bwp (g Unavailable) Q (mkBackend d (w_ b) (c_ b))) →
  (∀ b', fs_ b' = fs_ b0 → Q b' None) →
  bwp (bcase (check_cancelled os) f g) Q b.
Proof.
  intros Hm Hfs Hf Hg Hstop. apply bwp_case.
  eapply (bwp_quiet (fs_ b0) _ (λ x, x = Ok () ∨ x = Err Unavailable)); [|done|..].
  - apply check_cancelled_quiet; auto.
  - intros d Hd. by apply Hstop.
  - intros d x Hd Hx. assert (moves n0 b0 h (mkBackend d (w_ b) (c_ b)) h' k)
      by (apply moves_quiet; [done|congruence]).
    destruct Hx as [-> | ->]; auto.
Qed.

Lemma release_bwp n0 b0 b h k a (r : bresult positive) (Q : Backend R → option (bresult positive) → Prop) :
  moves n0 b0 h b (own_add h a 1) k → fs_ b = fs_ b0 → 0 ≤ h a →
  (∀ b', moves (n0 + 1) b0 h b' h k → fs_ b' = fs_ b0 → Q b' (Some r)) →
  bwp (bbind (release_lease a) (λ _, blift r)) Q b.
Proof.
  intros Hm Hfs Ha HQ. pose proof Hm as [Hb _ _ _ _ _ _]. apply bwp_bind.
  eapply bwp_mono; [eapply release_lease_bwp; [exact Hb|]|].
  { rewrite own_add_eq. lia. }
  intros b' r' (-> & Hfs' & Hg). apply bwp_ret, HQ; [|congruence]. replace k with (k + 0) by lia.
  eapply moves_forget; [done| |apply few_0|done|done].
  eapply grows_handles; [|done]. intros x. apply own_add_back.
Qed.

(** A lease found in the cache, given up on cancellation. *)
Lemma lease_checked_bwp n0 b0 b h k u a :
  moves n0 b0 h b (own_add h a 1) k → n0 ≤ 10 → fs_ b = fs_ b0 → 0 ≤ h a →
  (∃ m, arc_model_of (w_ b) a = Some m ∧ model_stored (fs_ b0) u m) →
  bwp (lease_if_not_cancelled os a) (auth_outcome u b0 h) b.
Proof.
  intros Hm Hn0 Hfs Ha Hmo. eapply check_bwp; [done|done|..|by split].
  - intros d Hd Hm'. apply (bwp_ret (Ok a)). split; [done|]. split; [|done].
    eapply effect_moves; [done|lia|by right].
  - intros d Hd Hm'. eapply (release_bwp _ _ _ _ _ _ (Err _)); [done|done|done|].
    intros b' Hm2 Hfs2. split; [done|]. eapply effect_moves; [done|lia|by right].
Qed.

Lemma auth_failed n0 u b h b' k e :
  moves n0 b h b' h k → n0 ≤ 20 → fs_ b' = fs_ b → auth_outcome u b h b' (Some (Err e)).
Proof. intros. split; [done|]. eapply effect_moves; [done|lia|by right]. Qed.

(** A promotion of the model just loaded: stamped with a revision and with the model's
    generation, and holding a handle of its own. *)
Definition promotes u b b' (a : positive) (p : CachePromotion) : Prop :=
  pm_username p = u ∧ pm_model p = a ∧ 0 ≤ pm_revision p < 2 ^ 128 ∧
  ∃ m, arc_model_of (w_ b') a = Some m ∧ model_stored (fs_ b) u m ∧ pm_generation p = am_generation m.

Definition active_outcome u b h b' (r : option (bresult (positive * option CachePromotion))) : Prop :=
  fs_ b' = fs_ b ∧
  match r with
  | Some (Ok (a, None)) => leased u b h b' a
  | Some (Ok (a, Some p)) => effect b h b' (own_add (own_add h a 1) a 1) ∧ promotes u b b' a p
  | Some (Err _) => effect b h b' h
  | None => True
  end.

Lemma active_failed n0 u b h b' k e :
  moves n0 b h b' h k → n0 ≤ 20 → fs_ b' = fs_ b → active_outcome u b h b' (Some (Err e)).
Proof. intros. split; [done|]. eapply effect_moves; [done|lia|by right]. Qed.

(** The end of a cold [authenticate_active]: a provisional model, two handles on it. *)
Lemma provisional_bwp identity revision n0 b0 b h k u model id n :
  0 ≤ revision < 2 ^ 128 → moves n0 b0 h b h k → n0 ≤ 10 → fs_ b = fs_ b0 → permit_held b id n →
  0 ≤ am_plaintext_bytes model → model_stored (fs_ b0) u model →
  bwp (bbind (on_world (λ w, CachedAuthModel_new w model id)) (λ provisional,
       bbind (on_world (λ w, w ← arc_clone w provisional; Some (w, Ok ()))) (λ _,
       bcase (check_cancelled os)
         (λ _, bret (provisional, Some (mkPromotion identity u revision
                                          (am_generation model) provisional)))
         (λ e, bbind (release_lease provisional) (λ _,
               bbind (release_lease provisional) (λ _, bfail e))))))
    (active_outcome u b0 h) b.
Proof.
  intros Hrev Hm Hn0 Hfs Hp Hn Hs. pose proof Hm as [Hb _ _ _ _ _ _]. apply bwp_bind.
  assert (∀ a, 0 ≤ h a) as Hh by (destruct Hb as (_ & ? & _); done).
  eapply bwp_mono; [by eapply new_model_bwp|]. intros b1 [[a|e]|] [Hfs1 Hr1]; [| |done].
  2:{ destruct Hr1 as [Hg1 _]. eapply (active_failed (n0 + 1)); [|lia|congruence].
      by eapply moves_forget; [| |apply few_0|..]. }
  destruct Hr1 as (Hg1 & Ham & Ha0 & Hc1).
  assert (moves (n0 + 1) b0 h b1 (own_add h a 1) (k + 0)) as Hm1.
  { eapply moves_forget; [done|done|apply few_0|done|]. intros x. by apply own_add_le. }
  pose proof Hm1 as [Hb1 _ _ _ _ _]. apply bwp_bind.
  eapply bwp_mono; [eapply clone_bwp; [exact Hb1|rewrite own_add_eq; lia]|].
  intros b2 r2 (-> & Hfs2 & Hg2 & Hc2).
  assert (∀ x, h x ≤ own_add (own_add h a 1) a 1 x) as Hle by (intros x; unfold own_add; case_decide; lia).
  assert (moves (n0 + 1 + 1) b0 h b2 (own_add (own_add h a 1) a 1) (k + 0 + 0)) as Hm2.
  { eapply moves_forget; [done|done|apply few_0|done|done]. }
  assert (arc_model_of (w_ b2) a = Some model) as Ham2.
  { destruct Hg2 as [_ _ Hheld _]. apply Hheld; [unfold own_add; case_decide; [lia|done]..|done]. }
  eapply check_bwp; [exact Hm2|congruence|..|by split].
  - intros d Hd Hm'. apply (bwp_ret (Ok _)). split; [done|].
    split; [eapply effect_moves; [done|lia|by right]|]. split_and!; [done|done|simpl; lia|simpl; lia|].
    exists model. done.
  - intros d Hd Hm'. pose proof Hm' as [Hb3 _ _ _ _ _]. apply bwp_bind.
    eapply bwp_mono; [eapply release_lease_bwp; [exact Hb3|rewrite own_add_eq, own_add_eq; lia]|].
    intros b3 r3 (-> & Hfs3 & Hg3). simpl in Hfs3.
    assert (moves (n0 + 1 + 1 + 1) b0 h b3 (own_add h a 1) (k + 0 + 0 + 0)) as Hm3.
    { eapply moves_forget; [exact Hm'| |apply few_0|done|intros x; by apply own_add_le].
      eapply grows_handles; [|exact Hg3]. intros x. apply own_add_back. }
    pose proof Hm3 as [Hb4 _ _ _ _ _]. apply bwp_bind.
    eapply bwp_mono; [eapply release_lease_bwp; [exact Hb4|rewrite own_add_eq; specialize (Hh a); lia]|].
    intros b4 r4 (-> & Hfs4 & Hg4). apply (bwp_ret (Err _)).
    eapply (active_failed (n0 + 1 + 1 + 1 + 1)); [|lia|congruence].
    eapply moves_forget; [exact Hm3| |apply few_0|done|done].
    eapply grows_handles; [|exact Hg4]. intros x. apply own_add_back.
Qed.

(** ** Giving up and promoting handles *)

(** A step of the backend and its callers: [effect] for calls that also take handles. *)
Record settles b h b' h' k : Prop := {
  se_inv : binv b' h';
  se_coherent : coherent b';
  se_models a m : 1 ≤ h a → 1 ≤ h' a → arc_model_of (w_ b) a = Some m → arc_model_of (w_ b') a = Some m;
  se_advances : advances (c_ b) (c_ b') k;
  se_bound : 0 ≤ k < 2 ^ 128;
  se_records : k = 0 → same_records (fs_ b) (fs_ b') ∨ c_disabled (c_ b') = true;
  se_disabled : c_disabled (c_ b) = true → c_disabled (c_ b') = true }.

Lemma effect_settles b h b' h' : effect b h b' h' → ∃ k, settles b h b' h' k.
Proof.
  intros (k & [Hi Hc Hh Hm Ha Hn Hd] & Hk). exists k. split; try done; [auto|].
  unfold U64_MAX in Hn. lia.
Qed.

Lemma grows_settles p b h b' h' k :
  coherent b → grows p b h b' h' k → few k → fs_ b' = fs_ b →
  (∀ u m, p = Some (u, m) → model_stored (fs_ b) u m) → settles b h b' h' k.
Proof.
  intros Hc [Gi Gc Gm Ga Gd] Hk Hfs Hp. unfold few, U64_MAX in Hk. split; try done; [|lia|left; by rewrite Hfs].
  intros u m Hcm. rewrite Hfs. destruct (Gc _ _ Hcm) as [?|?]; auto.
Qed.

Lemma release_settles b h a :
  binv b h → coherent b → 1 ≤ h a →
  bwp (release_lease a) (λ b' r, r = Some (Ok ()) ∧ fs_ b' = fs_ b ∧
    ∃ k, settles b h b' (own_add h a (-1)) k) b.
Proof.
  intros Hb Hco Ha. eapply bwp_mono; [by eapply release_lease_bwp|].
  intros b' r (-> & Hfs & Hg). split_and!; [done|done|]. exists 0.
  by eapply grows_settles; [|done|apply few_0|..].
Qed.

(** Promoting a model that is still that of the record when the revision is unchanged. *)
Lemma promote_bwp identity b h (p : CachePromotion) publish m :
  binv b h → coherent b → 1 ≤ h (pm_model p) → arc_model_of (w_ b) (pm_model p) = Some m →
  (c_revision (c_ b) = pm_revision p → c_disabled (c_ b) = false →
   model_stored (fs_ b) (pm_username p) m) →
  bwp (promote_with limits identity p publish) (λ b' r, r ≠ None ∧ fs_ b' = fs_ b ∧
    ∃ k, settles b h b' (own_add h (pm_model p) (-1)) k) b.
Proof.
  intros Hb Hco Ha Hm Hst. unfold promote_with. destruct (negb _).
  { apply bwp_bind. eapply bwp_mono; [by eapply release_settles|].
    intros b' r (-> & Hfs & Hk). by apply (bwp_ret (Ok false)). }
  destruct (sys_inv_model _ _ _ _ _ Hb Ha) as (m' & Hm' & Hn). rewrite Hm in Hm'. injection Hm' as <-.
  destruct (insert_provisional_spec _ Hlim _ _ _ (pm_username p) (pm_revision p) (pm_generation p)
    _ m publish Hb Ha Hm Hn) as (w' & c' & r & asked & Hins & Hinv' & _).
  eapply bwp_cache; [by rewrite Hins|]. split_and!; [done|done|].
  apply insert_provisional_publishes in Hins as [Hf|(Hrev & Hen & k & Hev & Hk)].
  - destruct (forgets_grows Husers b h (b_disk b) w' c' _ Hb Hf Hinv') as (k & Hg & Hk). exists k.
    by eapply grows_settles.
  - exists k. eapply (grows_settles (Some (pm_username p, m))); [done|by eapply publishes_grows| |done|].
    + pose proof (binv_size Husers b h Hb). unfold few. lia.
    + intros u m' [= <- <-]. auto.
Qed.
End calls.
