(* ===== verification/PlaintextCalls.v ===== *)
(** * The plaintext backend's calls

    What each call of [PlaintextStore] does to the records of the directory and to the
    cache, from a state where every cached model is that of the stored record. *)

From stdpp Require Import sorting.
From S2P Require Import Prelude Bytes Storage Crypto Codec CodecPayload Legacy Contracts Budget Cache CacheLru CacheProofs CacheSystem PromptState Handlers Disk Backend Plaintext PlaintextStore PlaintextProofs CacheModels BackendOps BackendCalls.

Section calls.
  Context `{Sha256} `{!Sha256Laws} `{LegacyDecoders} `{!LegacyDecodersLaws}.
  Context {R : Type} `{RandomSource R}.
  Context (os : DiskOs) `{!DiskOsLaws os} (cfg : PlaintextSettings).
  Context (Hcfg : plain_limits_ok (pb_limits cfg)).
  Context (Hmodel : length (digest_bytes (pb_model cfg)) = 32%nat).
  Context (Hlim : limits_ok (pb_cache_limits cfg)) (Husers : max_users (pb_cache_limits cfg) ≤ U64_MAX).
  Context (Hres : 0 ≤ pb_reservation cfg ≤ U64_MAX).
  Implicit Types (b : Backend R) (h : owners) (k : Z) (u v : CanonicalUsername).
  Implicit Types (fs : files).

Abbreviation w_ b := (b_world b).
Abbreviation c_ b := (b_cache b).
Abbreviation fs_ b := (d_files (b_disk b)).
Abbreviation binv := (binv (limits:=pb_cache_limits cfg)).
Abbreviation grows := (grows (limits:=pb_cache_limits cfg)).
Abbreviation quiet := (quiet (R:=R)).
Abbreviation moves := (moves (limits:=pb_cache_limits cfg)).
Abbreviation effect := (effect (limits:=pb_cache_limits cfg)).
Abbreviation query := (query (limits:=pb_cache_limits cfg)).
Abbreviation auth_outcome := (auth_outcome (limits:=pb_cache_limits cfg)).
Abbreviation active_outcome := (active_outcome (limits:=pb_cache_limits cfg)).
Abbreviation scope_end := (scope_end (limits:=pb_cache_limits cfg)).

(** ** Records *)

Lemma stored_wf fs u (loaded : DecodedPlaintextRecord) :
  username_wf u → stored cfg fs u loaded →
  record_wf (decoded_record loaded) ∧ username (decoded_record loaded) = u ∧
  recognizer_model_sha256 (decoded_record loaded) = pb_model cfg.
Proof.
  intros Hu (node & encoding & _ & _ & Hd).
  destruct (plaintext_record_decoded _ _ _ _ _ _ _ Hu Hmodel Hd) as (? & ? & ? & _). done.
Qed.

(** The user's record, or that there is none. *)
Definition current fs u (loaded : option DecodedPlaintextRecord) : Prop :=
  match loaded with Some d => stored cfg fs u d | None => selected fs u = None end.

Lemma next_mutation_generation_range fs u loaded gen :
  username_wf u → stored cfg fs u loaded → next_mutation_generation loaded = Ok gen → 1 ≤ gen ≤ U64_MAX.
Proof.
  intros Hu Hs. destruct (stored_wf _ _ _ Hu Hs) as [(Hg & _) _]. unfold next_mutation_generation.
  destruct (decoded_format loaded); [|intros [= <-]; unfold_max; lia].
  unfold checked_next_generation, checked_add. case_match; [|done]. intros [= <-]. breflect. lia.
Qed.

(** What [EnrollmentRecord::new] makes of checked parts. *)
Lemma new_record_wf gen u es record :
  1 ≤ gen ≤ U64_MAX → username_wf u → Forall entry_wf es →
  map_err map_mutation_record_error (EnrollmentRecord_new gen (pb_model cfg) u es) = Ok record →
  record = mkRecord gen (pb_model cfg) u es ∧ record_wf record.
Proof.
  intros Hg Hu Hes. destruct (EnrollmentRecord_new _ _ _ _) as [r|e] eqn:Hr; [|done].
  intros [= <-]. apply EnrollmentRecord_new_Ok in Hr as (-> & _ & Hlen & Hnd).
  split; [done|]. unfold record_wf; simpl. done.
Qed.

Lemma appended_record_wf fs request loaded record :
  append_request_ok request → current fs (ap_username request) loaded →
  appended_record cfg request loaded = Ok record →
  record_wf record ∧ username record = ap_username request ∧
  recognizer_model_sha256 record = pb_model cfg ∧ entries record ≠ [].
Proof.
  intros (Hu & Hne & Hes) Hc. unfold appended_record. destruct (negb _); [done|].
  intros Hr. apply bind_Ok in Hr as (total & _ & Hr). destruct (_ <? _); [done|].
  apply bind_Ok in Hr as (gen & Hgen & Hr).
  apply new_record_wf in Hr as [-> Hwf]; [|..|done|].
  - split_and!; [done|done|done|]. simpl. intros [_ ?]%app_nil. done.
  - destruct loaded as [d|]; [by eapply next_mutation_generation_range|].
    injection Hgen as <-. unfold_max. lia.
  - apply Forall_app. split; [|done]. destruct loaded as [d|]; simpl; [|done].
    destruct (stored_wf _ _ _ Hu Hc) as [(_ & _ & _ & _ & _ & ?) _]. done.
Qed.

(** An appended record continues the current one, at the expected generation. *)
Lemma appended_record_entries request loaded record :
  appended_record cfg request loaded = Ok record →
  from_option (λ d, generation (decoded_record d)) ABSENT_GENERATION loaded
    = ap_expected_generation request ∧
  entries record = from_option (λ d, entries (decoded_record d)) [] loaded ++ ap_entries request.
Proof.
  unfold appended_record.
  destruct (Z.eqb_spec (from_option (λ d, generation (decoded_record d)) ABSENT_GENERATION loaded)
    (ap_expected_generation request)); simpl; [|done].
  intros Hr. apply bind_Ok in Hr as (total & _ & Hr). destruct (_ <? _); [done|].
  apply bind_Ok in Hr as (gen & _ & Hr). destruct (EnrollmentRecord_new _ _ _ _) as [r|] eqn:Hn; [|done].
  injection Hr as <-. by apply EnrollmentRecord_new_Ok in Hn as (-> & _).
Qed.

Lemma shortened_record_wf fs request loaded record :
  username_wf (rm_username request) → stored cfg fs (rm_username request) loaded →
  shortened_record cfg request loaded = Ok record →
  record_wf record ∧ username record = rm_username request ∧
  recognizer_model_sha256 record = pb_model cfg.
Proof.
  intros Hu Hs. unfold shortened_record. intros Hr. apply bind_Ok in Hr as (i & _ & Hr).
  apply bind_Ok in Hr as (gen & Hgen & Hr).
  destruct (stored_wf _ _ _ Hu Hs) as [(_ & _ & _ & _ & _ & Hes) _].
  apply new_record_wf in Hr as [-> Hwf]; [done|by eapply next_mutation_generation_range|done|].
  apply Forall_app. split; [by apply Forall_take|by apply Forall_drop].
Qed.

(** A shortened record lacks the one enrollment asked for. *)
Lemma shortened_record_entries request loaded record :
  NoDup (entry_ids (entries (decoded_record loaded))) →
  shortened_record cfg request loaded = Ok record →
  ∃ before e after, entries (decoded_record loaded) = before ++ e :: after ∧
    enrollment_id e = rm_enrollment_id request ∧ entries record = before ++ after ∧
    rm_enrollment_id request ∉ entry_ids (entries record).
Proof.
  intros Hnd. unfold shortened_record. intros Hr. apply bind_Ok in Hr as (i & Hi & Hr).
  apply bind_Ok in Hr as (gen & _ & Hr). destruct (EnrollmentRecord_new _ _ _ _) as [r|] eqn:Hn; [|done].
  injection Hr as <-. apply EnrollmentRecord_new_Ok in Hn as (-> & _). simpl.
  destruct (position _ _) as [j|] eqn:Hp; [|done]. injection Hi as ->.
  by apply position_removed.
Qed.

(** ** Coherence *)

(** [m] is the model of the record stored for [u]. *)
Definition stored_model fs u (m : AuthModel) : Prop :=
  ∃ loaded, stored cfg fs u loaded ∧ loaded_model loaded = Ok m.

Lemma stored_model_selected fs fs' u m :
  selected fs' u = selected fs u → stored_model fs u m → stored_model fs' u m.
Proof. intros E (loaded & Hs & Hm). exists loaded. split; [by apply (stored_selected cfg fs)|done]. Qed.

(** The records of the plaintext directory. *)
#[local] Instance plain_records : RecordStore :=
  {| record_view := option (FileNode * LegacySourceEncoding); record_state := selected;
     model_stored := stored_model; model_stored_state := stored_model_selected |}.

(** ** Reading *)

Lemma load_optional_quiet fs u :
  quiet fs (load_optional os cfg u)
    (λ x, match x with Ok loaded => current fs u loaded | Err _ => True end).
Proof.
  eapply quiet_case; [apply quiet_disk; by eapply load_record_reads| |].
  - intros loaded Hl. by apply (quiet_lift fs (Ok _)).
  - intros e He. destruct e; try (by apply (quiet_lift fs (Err _))). by apply (quiet_lift fs (Ok _)).
Qed.

Lemma load_current_quiet fs u g :
  quiet fs (load_current os cfg u g) (λ x, match x with
    | Ok loaded => stored cfg fs u loaded ∧ generation (decoded_record loaded) = g
    | Err _ => True end).
Proof.
  eapply (quiet_bind _ _ _ (λ x, match x with Ok loaded => stored cfg fs u loaded | Err _ => True end));
    [| |done].
  - eapply quiet_case; [apply quiet_disk; by eapply load_record_reads| |].
    + intros loaded Hl. by apply (quiet_lift fs (Ok _)).
    + intros e _. by apply (quiet_lift fs (Err _)).
  - intros loaded Hl. destruct (Z.eqb_spec (generation (decoded_record loaded)) g); simpl.
    + by apply (quiet_lift fs (Ok _)).
    + by apply (quiet_lift fs (Err _)).
Qed.

(** ** Mutations *)

(** The records after a mutation of [u]: the others' are as they were, and [u]'s is as it was
    or a complete record [new] allows. *)
Definition mutated u (new : EnrollmentRecord → Prop) fs fs' : Prop :=
  (∀ v, v ≠ u → selected fs' v = selected fs v) ∧
  (selected fs' u = selected fs u ∨
   ∃ record, new record ∧ stored cfg fs' u (mkDecoded record HowyPln1)).

Lemma mutated_same u new fs : mutated u new fs fs.
Proof. split; [done|by left]. Qed.

(** A written record: complete, or not there at all. *)
Definition replaced (record : EnrollmentRecord) fs fs' (r : option (bresult ())) : Prop :=
  (∀ v, v ≠ username record → selected fs' v = selected fs v) ∧
  (selected fs' (username record) = selected fs (username record) ∧ r ≠ Some (Ok ()) ∨
   stored cfg fs' (username record) (mkDecoded record HowyPln1)).

Lemma write_record_replaces record fs :
  record_wf record → recognizer_model_sha256 record = pb_model cfg →
  wp (write_record (R:=R) os cfg record) (replaced record fs) fs.
Proof.
  intros Hwf Hm. eapply wp_mono; [by eapply write_record_wp|].
  intros fs' r [[Hws Hok] Hlen].
  assert (∀ v, v ≠ username record → selected fs' v = selected fs v) as Hothers
    by (intros v; by eapply write_state_selected).
  split; [done|]. destruct Hlen as [Hlen|[-> ?]]; [|by left].
  destruct (write_state_selected cfg _ _ _ _ (username record) Hws) as [_ Hu].
  assert (r = Some (Ok ()) ∨ r ≠ Some (Ok ())) as [Hr|Hr].
  { destruct r as [[[]|]|]; auto. }
  - destruct (Hok Hr) as (node & Hp & ->). right. by apply stored_published.
  - destruct Hu as [?|(node & Hp & ->)]; [by left|]. right. by apply stored_published.
Qed.

(** Writing a record of a user whose model is not cached. *)
Lemma write_step_bwp n0 b0 b h k u new record :
  moves n0 b0 h b h k → fs_ b = fs_ b0 → cached (w_ b) (c_ b) u = None →
  record_wf record → username record = u → recognizer_model_sha256 record = pb_model cfg → new record →
  bwp (on_disk (write_record os cfg record)) (λ b' r,
    (∃ d, b' = mkBackend d (w_ b) (c_ b)) ∧ moves n0 b0 h b' h k ∧
    mutated u new (fs_ b0) (fs_ b') ∧
    (r = Some (Ok ()) → stored cfg (fs_ b') u (mkDecoded record HowyPln1))) b.
Proof.
  intros Hm Hfs Hno Hwf Hu Hdig Hnew. eapply bwp_wp; [by apply write_record_replaces|].
  intros d r [Hoth Hself]. rewrite Hu, Hfs in *. split_and!; [eauto|..].
  - apply moves_disk; [done|]. intros v Hv. rewrite Hfs. apply Hoth. congruence.
  - split; [done|]. destruct Hself as [[? _]|?]; [by left|right; eauto].
  - intros ->. by destruct Hself as [[_ ?]|?].
Qed.

(** What [append] may write. *)
Definition appends request fs (record : EnrollmentRecord) : Prop :=
  ∃ loaded, current fs (ap_username request) loaded ∧ appended_record cfg request loaded = Ok record.

(** The part of [append] that may fail: invalidate, load, check, write. *)
Lemma append_prepare_bwp request b h id n :
  append_request_ok request → binv b h → coherent b → permit_held b id n →
  bwp (bbind (invalidate (ap_username request)) (λ _,
       bbind (load_optional os cfg (ap_username request)) (λ loaded,
       bbind (blift (appended_record cfg request loaded)) (λ record,
       bbind (blift (AuthModel_from_record record)) (λ model,
       bbind (on_disk (write_record os cfg record)) (λ _, bret (record, model)))))))
    (λ b' r, mutated (ap_username request) (appends request (fs_ b)) (fs_ b) (fs_ b') ∧
       permit_held b' id n ∧ (∃ k, moves 1 b h b' h k ∧ 0 < k) ∧
       match r with
       | Some (Ok (record, model)) => appends request (fs_ b) record ∧
           AuthModel_from_record record = Ok model ∧ record_wf record ∧ entries record ≠ [] ∧
           stored cfg (fs_ b') (ap_username request) (mkDecoded record HowyPln1)
       | _ => True end) b.
Proof.
  intros Hreq Hb Hco Hp. apply bwp_bind. eapply bwp_mono; [by eapply invalidate_bwp|].
  intros b1 r1 (-> & Hfs1 & Hg1 & Hno & Hpers). specialize (Hpers _ _ Hp).
  assert (moves 1 b h b1 h 1) as Hm1.
  { change (moves (0 + 1) b h b1 h (0 + 1)).
    eapply moves_forget; [by apply moves_refl|done|apply few_1|done|done]. }
  assert (∀ d (r : option (bresult (EnrollmentRecord * AuthModel))), d_files d = fs_ b1 →
    match r with Some (Ok _) => False | _ => True end →
    mutated (ap_username request) (appends request (fs_ b)) (fs_ b) (d_files d) ∧
    permit_held (mkBackend d (w_ b1) (c_ b1)) id n ∧
    (∃ k, moves 1 b h (mkBackend d (w_ b1) (c_ b1)) h k ∧ 0 < k) ∧
    match r with Some (Ok (record, model)) => False | _ => True end) as Hfail.
  { intros d r Hd Hr. rewrite Hd, Hfs1. split_and!; [apply mutated_same|done| |by destruct r as [[[]|]|]].
    exists 1. split; [|lia]. by apply moves_quiet. }
  apply bwp_bind. eapply (bwp_quiet (fs_ b1)); [apply load_optional_quiet|done|..].
  { intros d Hd. by destruct (Hfail d None Hd I) as (?&?&?&_). }
  intros d [loaded|e] Hd Hl.
  2:{ by destruct (Hfail d (Some (Err e)) Hd I) as (?&?&?&_). }
  rewrite Hfs1 in Hl.
  apply bwp_bind. apply bwp_ret. destruct (appended_record cfg request loaded) as [record|e] eqn:Hrec.
  2:{ by destruct (Hfail d (Some (Err e)) Hd I) as (?&?&?&_). }
  destruct (appended_record_wf _ _ _ _ Hreq Hl Hrec) as (Hwf & Hu & Hdig & Hne).
  apply bwp_bind. apply bwp_ret. destruct (AuthModel_from_record record) as [model|e] eqn:Hmo.
  2:{ by destruct (Hfail d (Some (Err e)) Hd I) as (?&?&?&_). }
  apply bwp_bind. eapply bwp_mono.
  { eapply (write_step_bwp 1 b _ h 1 _ (appends request (fs_ b)));
      [by apply moves_quiet|simpl; congruence|done..|by exists loaded]. }
  intros b2 r2 ((d2 & ->) & Hm2 & Hmut & Hok).
  destruct r2 as [[[]|e]|]; [apply (bwp_ret (Ok _))|..];
    (split; [done|]; split; [done|]; split; [exists 1; split; [done|lia]|]); [|done|done].
  split_and!; try done; [by exists loaded|by apply Hok].
Qed.

(** The outcome of a mutation: what it did to the records, and when it answers, the effect on
    the cache and what a success says. *)
Definition mutation {A} u (new : EnrollmentRecord → Prop) (says : EnrollmentRecord → A → Prop)
    b h b' (r : option (bresult A)) : Prop :=
  mutated u new (fs_ b) (fs_ b') ∧
  match r with
  | None => True
  | Some x => effect b h b' h ∧ ∀ answer, x = Ok answer →
      ∃ record, new record ∧ stored cfg (fs_ b') u (mkDecoded record HowyPln1) ∧ says record answer
  end.

Lemma mutation_failed {A} u new says n b h b' k e :
  moves n b h b' h k → n ≤ 20 → k ≠ 0 ∨ fs_ b' = fs_ b → mutated u new (fs_ b) (fs_ b') →
  mutation (A:=A) u new says b h b' (Some (Err e)).
Proof. intros. split; [done|]. split; [by eapply effect_moves|done]. Qed.

Definition append_says request (record : EnrollmentRecord) (answer : AppendResult) : Prop :=
  answer = mkAppendResult (generation record) (len (ap_entries request)) (len (entries record)).

Lemma loaded_model_new record model :
  AuthModel_from_record record = Ok model → entries record ≠ [] →
  loaded_model (mkDecoded record HowyPln1) = Ok model.
Proof. intros Hm Hne. unfold loaded_model; simpl. by rewrite bool_decide_false. Qed.

Lemma append_with_operation_bwp n0 request b0 b h k id n :
  append_request_ok request → moves n0 b0 h b h k → n0 ≤ 10 → fs_ b = fs_ b0 → permit_held b id n →
  bwp (append_with_operation os cfg request id)
    (mutation (ap_username request) (appends request (fs_ b0)) (append_says request) b0 h) b.
Proof.
  intros Hreq Hm Hn0 Hfs Hp. pose proof Hm as [Hb Hco _ _ _ _]. unfold append_with_operation.
  pose proof Hp as (p & Hp' & _ & _).
  eassert (bwp (λ b, _) _ b) as Hgoal; [|exact Hgoal]. unfold bwp at 1. rewrite Hp'.
  destruct (permit_bytes p <? pb_reservation cfg).
  { change (bwp (bbind (drop_operation id)
      (λ _, blift (Err (InvalidInput "append operation reservation"))))
      (mutation (ap_username request) (appends request (fs_ b0)) (append_says request) b0 h) b).
    eapply drop_then; [done|done|]. intros b' Hg Hfs'.
    eapply (mutation_failed _ _ _ (n0 + 1)); [by eapply moves_forget; [| |apply few_0|..]|lia|..].
    - right. congruence.
    - rewrite Hfs', Hfs. apply mutated_same. }
  match goal with |- context [bbind ?m ?f b] => change (bwp (bbind m f)
    (mutation (ap_username request) (appends request (fs_ b0)) (append_says request) b0 h) b) end.
  apply bwp_bind. eapply unless_consumed_bwp.
  eapply bwp_mono; [by eapply append_prepare_bwp|]. rewrite Hfs.
  intros b1 r1 (Hmut & Hp1 & (k1 & Hm1 & Hk1) & Hr1).
  assert (moves (n0 + 1) b0 h b1 h (k + k1)) as Hm01 by by eapply moves_trans.
  assert (0 ≤ k) by (pose proof (mv_bound _ _ _ _ _ _ Hm); lia).
  destruct r1 as [[[record model]|e]|].
  - destruct Hr1 as (Happ & Hmo & Hwf & Hne & Hst). apply bwp_bind. cbn [fst snd].
    eapply bwp_mono; [eapply cache_model_bwp; [done|done|exact Hm01|exact Hp1|by eapply record_model_nonneg|]|].
    { eexists. split; [done|]. by apply loaded_model_new. }
    intros b2 r2 (-> & Hfs2 & k2 & Hm2 & Hk2). apply (bwp_ret (Ok _)). split; [by rewrite Hfs2|].
    split; [eapply effect_moves; [exact Hm2|lia|left; lia]|].
    intros answer [= <-]. exists record. rewrite Hfs2. done.
  - eapply scope_end_moves; [exact Hm01|exact Hp1|]. intros b2 Hm2 Hfs2.
    eapply mutation_failed; [exact Hm2|lia|left; lia|by rewrite Hfs2].
  - by split.
Qed.

Lemma append_bwp request b h :
  append_request_ok request → binv b h → coherent b →
  bwp (append os cfg request)
    (mutation (ap_username request) (appends request (fs_ b)) (append_says request) b h) b.
Proof.
  intros Hreq Hb Hco. apply bwp_bind. eapply bwp_mono; [eapply reserve_bytes_bwp; [done|done|lia]|].
  intros b1 r1 (Hfs1 & (k1 & Hg1 & Hk1) & Hr1).
  assert (moves 1 b h b1 h k1) as Hm1.
  { replace k1 with (0 + k1) by lia. change 1 with (0 + 1). eapply moves_forget; [by apply moves_refl|done..]. }
  destruct r1 as [[id|e]|]; [|..|done].
  - by eapply append_with_operation_bwp.
  - eapply mutation_failed; [done|lia|by right|rewrite Hfs1; apply mutated_same].
Qed.

(** What [remove] may write. *)
Definition removes request fs (record : EnrollmentRecord) : Prop :=
  ∃ loaded, stored cfg fs (rm_username request) loaded ∧
    generation (decoded_record loaded) = rm_expected_generation request ∧
    shortened_record cfg request loaded = Ok record.
Definition remove_says request (record : EnrollmentRecord) (answer : RemoveResult) : Prop :=
  answer = mkRemoveResult (generation record) (rm_enrollment_id request).

(** The model of a record [remove] wrote, none when the record is empty. *)
Definition shortened_model (record : EnrollmentRecord) (model : option AuthModel) : Prop :=
  match model with
  | None => entries record = []
  | Some m => entries record ≠ [] ∧ AuthModel_from_record record = Ok m
  end.

Lemma remove_prepare_bwp request n0 b0 b h k id n :
  username_wf (rm_username request) → moves n0 b0 h b h k → fs_ b = fs_ b0 →
  cached (w_ b) (c_ b) (rm_username request) = None → permit_held b id n →
  bwp (bbind (load_current os cfg (rm_username request) (rm_expected_generation request)) (λ loaded,
       bbind (blift (shortened_record cfg request loaded)) (λ record,
       bbind (if bool_decide (entries record = []) then bret None
              else bbind (blift (AuthModel_from_record record)) (λ model, bret (Some model))) (λ model,
       bbind (on_disk (write_record os cfg record)) (λ _, bret (record, model))))))
    (λ b' r, mutated (rm_username request) (removes request (fs_ b0)) (fs_ b0) (fs_ b') ∧
       permit_held b' id n ∧ moves n0 b0 h b' h k ∧
       match r with
       | Some (Ok (record, model)) => removes request (fs_ b0) record ∧ record_wf record ∧
           shortened_model record model ∧
           stored cfg (fs_ b') (rm_username request) (mkDecoded record HowyPln1)
       | _ => True end) b.
Proof.
  intros Hu Hm Hfs Hno Hp.
  assert (∀ d, d_files d = fs_ b →
    mutated (rm_username request) (removes request (fs_ b0)) (fs_ b0) (d_files d) ∧
    permit_held (mkBackend d (w_ b) (c_ b)) id n ∧
    moves n0 b0 h (mkBackend d (w_ b) (c_ b)) h k ∧ True) as Hfail.
  { intros d Hd. rewrite Hd, Hfs. split_and!; [apply mutated_same|done|by apply moves_quiet|done]. }
  apply bwp_bind. eapply (bwp_quiet (fs_ b)); [apply load_current_quiet|done|exact Hfail|].
  intros d [loaded|e] Hd Hl; [|by apply Hfail]. destruct Hl as [Hl Hg]. rewrite Hfs in Hl.
  apply bwp_bind, bwp_ret. destruct (shortened_record cfg request loaded) as [record|e] eqn:Hrec;
    [|by apply Hfail].
  destruct (shortened_record_wf _ _ _ _ Hu Hl Hrec) as (Hwf & Hu' & Hdig).
  apply bwp_bind. eapply (bwp_mono _ (λ b' r, b' = mkBackend d (w_ b) (c_ b) ∧
    ∃ model, r = Some (Ok model) ∧ shortened_model record model)).
  { case_bool_decide; [apply (bwp_ret (Ok _)); eauto|].
    apply bwp_bind, bwp_ret. rewrite AuthModel_from_record_eq by done. apply (bwp_ret (Ok _)).
    split; [done|]. eexists. split; [done|]. split; [done|]. by apply AuthModel_from_record_eq. }
  intros b' r (-> & model & -> & Hmo).
  apply bwp_bind. eapply bwp_mono.
  { eapply (write_step_bwp n0 b0 _ h k _ (removes request (fs_ b0)));
      [by apply moves_quiet|simpl; congruence|done..|by exists loaded]. }
  intros b2 r2 ((d2 & ->) & Hm2 & Hmut & Hok).
  destruct r2 as [[[]|e]|]; [apply (bwp_ret (Ok _))|..];
    (split; [done|]; split; [done|]; split; [done|]); [|done|done].
  split_and!; try done; [by exists loaded|by apply Hok].
Qed.

Lemma remove_bwp request b h :
  username_wf (rm_username request) → binv b h → coherent b →
  bwp (remove os cfg request)
    (mutation (rm_username request) (removes request (fs_ b)) (remove_says request) b h) b.
Proof.
  intros Hu Hb Hco. eapply invalidate_permit_bwp; [done|lia|done|done| |].
  2:{ intros b2 k e Hm2 Hk Hfs. eapply mutation_failed; [done|lia|by right|rewrite Hfs; apply mutated_same]. }
  intros b2 k id Hm2 Hk Hfs Hno Hp.
  apply bwp_bind. eapply unless_consumed_bwp.
  eapply bwp_mono; [by eapply remove_prepare_bwp|].
  intros b3 r3 (Hmut & Hp3 & Hm3 & Hr3). destruct r3 as [[[record model]|e]|].
  - destruct Hr3 as (Hnew & Hwf & Hmo & Hst). cbn [fst snd].
    assert (∀ b4, fs_ b4 = fs_ b3 → (∃ k', moves 5 b h b4 h (k + k') ∧ 0 ≤ k') →
      mutation (rm_username request) (removes request (fs_ b)) (remove_says request) b h b4
        (Some (Ok (mkRemoveResult (generation record) (rm_enrollment_id request))))) as Hdone.
    { intros b4 Hfs4 (k' & Hm4 & Hk'). split; [by rewrite Hfs4|].
      split; [eapply effect_moves; [done|lia|left; lia]|].
      intros answer [= <-]. exists record. by rewrite Hfs4. }
    apply bwp_bind. destruct model as [model|].
    + destruct Hmo as [Hne Hmo]. eapply bwp_mono.
      { eapply cache_model_bwp; [done|done|exact Hm3|exact Hp3|by eapply record_model_nonneg|].
        eexists. split; [done|]. by apply loaded_model_new. }
      intros b4 r4 (-> & Hfs4 & Hk4). apply (bwp_ret (Ok _)). by apply Hdone.
    + eapply bwp_mono; [eapply drop_operation_bwp; [by destruct Hm3|done]|].
      intros b4 r4 (-> & Hfs4 & Hg4). apply (bwp_ret (Ok _)). apply Hdone; [done|].
      exists 0. split; [|done]. apply (moves_le (2 + 1)); [|lia].
      eapply moves_forget; [done|done|apply few_0|done|done].
  - eapply scope_end_moves; [exact Hm3|exact Hp3|]. intros b4 Hm4 Hfs4.
    eapply mutation_failed; [exact Hm4|lia|left; lia|by rewrite Hfs4].
  - by split.
Qed.

(** The outcome of a clear: the record stays or goes, and never an older one appears. *)
Definition clear_outcome request b h b' (r : option (bresult ClearResult)) : Prop :=
  let u := cl_username request in
  (∀ v, v ≠ u → selected (fs_ b') v = selected (fs_ b) v) ∧
  (selected (fs_ b') u = selected (fs_ b) u ∨ selected (fs_ b') u = None) ∧
  match r with
  | None => True
  | Some x => effect b h b' h ∧ ∀ answer, x = Ok answer → selected (fs_ b') u = None ∧
      ∃ loaded, stored cfg (fs_ b) u loaded ∧
        generation (decoded_record loaded) = cl_expected_generation request ∧
        answer = mkClearResult ABSENT_GENERATION (len (entries (decoded_record loaded)))
  end.

Lemma optional_valid_quiet fs name :
  quiet fs (on_disk (optional_valid_record os cfg name))
    (λ x, match x with Ok found => found = bool_decide (is_Some (fs !! name)) | Err _ => True end).
Proof. apply quiet_disk. by eapply optional_valid_record_reads. Qed.

Lemma clear_bwp request b h :
  binv b h → coherent b → bwp (clear os cfg request) (clear_outcome request b h) b.
Proof.
  intros Hb Hco. eapply invalidate_permit_bwp; [done|lia|done|done| |].
  2:{ intros b2 k e Hm2 Hk Hfs. split_and!; [by rewrite Hfs|left; by rewrite Hfs| |done].
      eapply effect_moves; [done|lia|by right]. }
  intros b2 k id Hm2 Hk Hfs Hno Hp. eapply (holding_bwp h).
  assert (∀ b3 (x : bresult ClearResult) r, w_ b3 = w_ b2 → c_ b3 = c_ b2 → moves 2 b h b3 h k →
    record_cleared (cl_username request) (fs_ b) (fs_ b3) r →
    (∀ answer, x = Ok answer → r = Some (Ok ()) ∧ ∃ loaded, stored cfg (fs_ b) (cl_username request) loaded ∧
       generation (decoded_record loaded) = cl_expected_generation request ∧
       answer = mkClearResult ABSENT_GENERATION (len (entries (decoded_record loaded)))) →
    scope_end h id (clear_outcome request b h) b3 x) as Hend.
  { intros b3 x r Ew Ec Hm3 (Hc1 & Hc2 & Hc3) Hx. eapply scope_end_moves; [exact Hm3| |].
    { unfold permit_held. rewrite Ew. exact Hp. }
    intros b4 Hm4 Hfs4. unfold clear_outcome. rewrite Hfs4. split_and!; [done|done|eapply effect_moves; [done|lia|left; lia]|].
    intros answer Ha. destruct (Hx _ Ha) as [Hr ?]. split; [by apply Hc3|done]. }
  assert (∀ (d : Disk R) (r : option (bresult ())), d_files d = fs_ b2 → r ≠ Some (Ok ()) →
    record_cleared (cl_username request) (fs_ b) (d_files d) r) as Hkeep.
  { intros d r Hd Hr. rewrite Hd, Hfs. by split_and!; [|left|]. }
  assert (∀ d : Disk R, d_files d = fs_ b2 → clear_outcome request b h (mkBackend d (w_ b2) (c_ b2)) None) as Hstop.
  { intros d Hd. unfold clear_outcome; simpl. rewrite Hd, Hfs. by split_and!; [|left|]. }
  assert (∀ (d : Disk R) e, d_files d = fs_ b2 → scope_end h id (clear_outcome request b h)
    (mkBackend d (w_ b2) (c_ b2)) (Err e)) as Hfail.
  { intros d e Hd. apply (Hend _ (Err e) None); [done|done|by apply moves_quiet|by apply Hkeep|done]. }
  apply bwp_bind. eapply (bwp_quiet (fs_ b2)); [apply load_current_quiet|done|exact Hstop|].
  intros d [loaded|e] Hd Hl; [|by apply Hfail]. destruct Hl as [Hl Hg].
  apply bwp_bind. eapply (bwp_quiet (fs_ b2)); [apply optional_valid_quiet|done|exact Hstop|].
  intros d1 [found|e] Hd1 Hf1; [|by apply Hfail].
  apply bwp_bind. eapply (bwp_quiet (fs_ b2)); [apply optional_valid_quiet|done|exact Hstop|].
  intros d2 [found2|e] Hd2 Hf2; [|by apply Hfail]. subst found found2.
  apply bwp_bind. eapply bwp_wp; [simpl; rewrite Hd2; by eapply clear_wp|].
  simpl. intros d3 r Hcl. assert (moves 2 b h (mkBackend d3 (w_ b2) (c_ b2)) h k) as Hm3.
  { apply moves_disk; [done|]. intros v Hv. apply Hcl. congruence. }
  rewrite Hfs in Hcl, Hl. destruct r as [[[]|e]|].
  - apply (bwp_ret (Ok _)). eapply Hend; [done|done|done|exact Hcl|]. intros answer [= <-]. eauto.
  - by eapply (Hend _ (Err e)).
  - destruct Hcl as (?&?&?). by split_and!.
Qed.

Lemma list_metadata_bwp u b h :
  binv b h → coherent b →
  bwp (list_metadata os cfg u) (query (λ l, ∃ loaded, stored cfg (fs_ b) u loaded ∧
    l = metadata_from_record (decoded_record loaded)) b h) b.
Proof.
  intros Hb Hco. eapply query_bwp; [done|lia|done|done|].
  eapply quiet_bind; [apply quiet_disk; by eapply load_record_reads| |done].
  intros loaded Hl. apply (quiet_lift _ (Ok _)). eauto.
Qed.

Lemma candidate_presence_bwp u b h :
  binv b h → coherent b →
  bwp (candidate_presence os cfg u) (query (λ p, ∃ loaded, current (fs_ b) u loaded ∧
    p = match loaded with
        | Some d => if bool_decide (entries (decoded_record d) = []) then NoCandidate
                    else Candidate (generation (decoded_record d))
        | None => NoCandidate end) b h) b.
Proof.
  intros Hb Hco. eapply query_bwp; [done|lia|done|done|].
  eapply quiet_bind; [apply load_optional_quiet| |done].
  intros loaded Hl. apply (quiet_lift _ (Ok _)). by exists loaded.
Qed.

(** Loading the model to authenticate with. *)
Lemma load_model_quiet fs u :
  username_wf u →
  quiet fs (bbind (on_disk (load_record os cfg u)) (λ loaded, blift (loaded_model loaded)))
    (λ x, match x with Ok m => stored_model fs u m ∧ 0 ≤ am_plaintext_bytes m | Err _ => True end).
Proof.
  intros Hu. eapply quiet_bind; [apply quiet_disk; by eapply load_record_reads| |done].
  intros loaded Hl. apply quiet_lift. destruct (loaded_model loaded) as [m|] eqn:Hm; [|done].
  split; [by exists loaded|]. unfold loaded_model in Hm. case_bool_decide; [done|].
  destruct (stored_wf _ _ _ Hu Hl) as [Hwf _]. by eapply record_model_nonneg.
Qed.

Lemma authenticate_bwp u b h :
  username_wf u → binv b h → coherent b →
  bwp (authenticate os cfg u) (auth_outcome u b h) b.
Proof.
  intros Hu Hb Hco. apply bwp_bind.
  eapply bwp_mono; [eapply lookup_bwp; [done|by apply moves_refl|done]|].
  intros b1 r1 [Hfs1 Hr1]. destruct r1 as [[[a|]|]|]; [|..|done|done].
  { apply (bwp_ret (Ok a)). destruct Hr1 as [Hm1 Ha]. split; [done|]. split; [|done].
    eapply effect_moves; [done|lia|by right]. }
  apply bwp_bind. eapply bwp_mono; [by eapply lookup_bwp|].
  intros b2 r2 [Hfs2 Hr2]. destruct r2 as [[[a|]|]|]; [|..|done|done].
  { apply (bwp_ret (Ok a)). destruct Hr2 as [Hm2 Ha]. split; [done|]. split; [|done].
    eapply effect_moves; [done|lia|by right]. }
  assert (∀ b' e k', moves 5 b h b' h k' → fs_ b' = fs_ b → auth_outcome u b h b' (Some (Err e))) as Herr.
  { intros b' e k' Hm' Hfs'. split; [done|]. eapply effect_moves; [done|lia|by right]. }
  eapply cold_load_bwp; [done|lia|done|done|by apply load_model_quiet| | |by split].
  2:{ intros b' k' e Hm' Hfs'. eapply Herr; [|done]. eapply moves_le; [done|lia]. }
  intros b3 k3 id model n Hm3 Hfs3 Hp3 Hn Hs.
  eapply publish_model_bwp; [done|done|done|done|done|done|done| |].
  - intros b' a k' Hm' Hfs' Ha. split; [done|]. split; [|eauto].
    eapply effect_moves; [done|lia|by right].
  - intros b' e k' Hm' Hfs'. eapply Herr; [|done]. eapply moves_le; [done|lia].
Qed.

Lemma load_model_cancellable_quiet fs u :
  username_wf u →
  quiet fs (bbind (on_disk (load_record_cancellable os cfg u)) (λ loaded,
            bbind (blift (loaded_model loaded)) (λ model,
            bbind (check_cancelled os) (λ _, bret model))))
    (λ x, match x with Ok m => stored_model fs u m ∧ 0 ≤ am_plaintext_bytes m | Err _ => True end).
Proof.
  intros Hu. eapply quiet_bind; [apply quiet_disk; by eapply load_record_cancellable_reads| |done].
  intros loaded Hl. eapply (quiet_bind _ _ _ (λ x, loaded_model loaded = x)); [by apply quiet_lift| |done].
  intros m Hm. eapply (quiet_bind _ _ _ (λ _, True)); [by apply check_cancelled_quiet| |done].
  intros _ _. apply (quiet_lift _ (Ok m)). split; [by exists loaded|].
  unfold loaded_model in Hm. case_bool_decide; [done|].
  destruct (stored_wf _ _ _ Hu Hl) as [Hwf _]. by eapply record_model_nonneg.
Qed.

Lemma authenticate_cancellable_bwp u b h :
  username_wf u → binv b h → coherent b →
  bwp (authenticate_cancellable os cfg u) (auth_outcome u b h) b.
Proof.
  intros Hu Hb Hco. assert (∀ a, 0 ≤ h a) as Hh by (destruct Hb as (_ & ? & _); done).
  assert (∀ b', fs_ b' = fs_ b → auth_outcome u b h b' None) as Hstop by by split.
  eapply (check_bwp 0); [by apply moves_refl|done|..|done].
  2:{ intros d Hd Hm. apply (bwp_ret (Err _)). eapply auth_failed; [done|lia|done]. }
  intros d Hd Hm0. apply bwp_bind. eapply bwp_mono; [by eapply lookup_bwp|].
  intros b1 r1 [Hfs1 Hr1]. destruct r1 as [[[a|]|]|]; [|..|done|done].
  { destruct Hr1 as [Hm1 Ha]. eapply lease_checked_bwp; [done|lia|done|done|done]. }
  eapply (check_bwp 1); [done|done|..|done].
  2:{ intros d1 Hd1 Hm. apply (bwp_ret (Err _)). eapply auth_failed; [done|lia|done]. }
  intros d1 Hd1 Hm1. apply bwp_bind. eapply bwp_mono; [by eapply lookup_bwp|].
  intros b2 r2 [Hfs2 Hr2]. destruct r2 as [[[a|]|]|]; [|..|done|done].
  { destruct Hr2 as [Hm2 Ha]. eapply lease_checked_bwp; [done|lia|done|done|done]. }
  eapply cold_load_bwp; [done|lia|done|done|by apply load_model_cancellable_quiet| | |done].
  2:{ intros b' k' e Hm' Hfs'. eapply auth_failed; [done|lia|done]. }
  intros b3 k3 id model n Hm3 Hfs3 Hp3 Hn Hs. apply bwp_bind.
  eapply check_bwp; [done|done|..|by split].
  2:{ intros d3 Hd3 Hm. eapply (drop_then (Err Unavailable) _ h id n); [by destruct Hm|done|].
      intros b' Hg Hfs'. eapply (auth_failed (1 + 1 + 2 + 1)); [|lia|by rewrite Hfs'].
      by eapply moves_forget; [| |apply few_0|..]. }
  intros d3 Hd3 Hm3'. apply (bwp_ret (Ok ())). apply bwp_bind.
  eapply publish_model_bwp; [done|done|done|done|exact Hp3|done|done| |].
  2:{ intros b' e k' Hm' Hfs'. eapply auth_failed; [done|lia|done]. }
  intros b4 a k4 Hm4 Hfs4 Ha. eapply check_bwp; [done|done|..|by split].
  { intros d4 Hd4 Hm. apply (bwp_ret (Ok a)). split; [done|]. split; [|eauto].
    eapply effect_moves; [done|lia|by right]. }
  intros d4 Hd4 Hm. pose proof Hm as [Hb4 _ _ _ _ _]. apply bwp_bind.
  eapply bwp_mono; [by eapply invalidate_bwp|]. intros b5 r5 (-> & Hfs5 & Hg5 & _).
  eapply (release_bwp (1 + 1 + 2 + 1 + 1) _ _ _ _ _ (Err _)); [|by rewrite Hfs5|done|].
  { eapply moves_forget; [done|done|apply few_1|done|]. intros x. by apply own_add_le. }
  intros b' Hm' Hfs'. eapply auth_failed; [done|lia|done].
Qed.

Lemma authenticate_active_bwp u b h :
  username_wf u → binv b h → coherent b →
  bwp (authenticate_active os cfg u) (active_outcome u b h) b.
Proof.
  intros Hu Hb Hco. assert (∀ a, 0 ≤ h a) as Hh by (destruct Hb as (_ & ? & _); done).
  assert (∀ b', fs_ b' = fs_ b → active_outcome u b h b' None) as Hstop by by split.
  assert (∀ n0 b1 a k, moves n0 b h b1 (own_add h a 1) k → n0 ≤ 10 → fs_ b1 = fs_ b →
    (∃ m, arc_model_of (w_ b1) a = Some m ∧ stored_model (fs_ b) u m) →
    bwp (bbind (lease_if_not_cancelled os a) (λ lease, bret (lease, None))) (active_outcome u b h) b1) as Hlease.
  { intros n0 b1 a k Hm Hn0 Hfs Hmo. apply bwp_bind. eapply bwp_mono; [by eapply lease_checked_bwp|].
    intros b2 [[a'|e]|] [Hfs2 Hr]; [by apply (bwp_ret (Ok _))|done|done]. }
  eapply (check_bwp 0); [by apply moves_refl|done|..|done].
  2:{ intros d Hd Hm. apply (bwp_ret (Err _)). eapply active_failed; [done|lia|done]. }
  intros d Hd Hm0. apply bwp_bind. eapply bwp_mono; [by eapply lookup_bwp|].
  intros b1 r1 [Hfs1 Hr1]. destruct r1 as [[[a|]|]|]; [|..|done|done].
  { destruct Hr1 as [Hm1 Ha]. eapply Hlease; [done|lia|done|done]. }
  eapply (check_bwp 1); [done|done|..|done].
  2:{ intros d1 Hd1 Hm. apply (bwp_ret (Err _)). eapply active_failed; [done|lia|done]. }
  intros d1 Hd1 Hm1. apply bwp_bind. eapply bwp_mono; [by eapply lookup_bwp|].
  intros b2 r2 [Hfs2 Hr2]. destruct r2 as [[[a|]|]|]; [|..|done|done].
  { destruct Hr2 as [Hm2 Ha]. eapply Hlease; [done|lia|done|done]. }
  eapply reserve_bwp; [done|lia|done|done| |].
  2:{ intros b' k' e Hm' Hfs'. eapply active_failed; [done|lia|done]. }
  intros b3 k3 id Hm3 Hfs3 Hp3. apply bwp_bind. eexists b3, _. split; [done|]. cbn beta iota.
  eapply load_shrink_bwp; [done|done|done|by apply load_model_cancellable_quiet| | |done].
  2:{ intros b' e Hm' Hfs'. eapply active_failed; [done|lia|done]. }
  intros b4 id' model n Hm4 Hfs4 Hp4 Hn Hs.
  eapply provisional_bwp; [eapply binv_revision; by destruct Hm3|done|lia|done|done|done|done].
Qed.

Lemma prompt_snapshot_bwp u b h :
  binv b h → coherent b →
  bwp (prompt_snapshot os cfg u) (query (λ _, True) b h) b.
Proof.
  intros Hb Hco. eapply (bwp_quiet (fs_ b) _ (λ _, True)); [|done|by split|].
  - eapply (quiet_bind _ _ _ (λ _, True)); [apply quiet_disk| |done].
    + eapply (reads_bind _ _ _ (λ _, True)); [|intros [[]|] _|done].
      * eapply reads_mono; [by apply open_selected_reads|done].
      * eapply (reads_bind _ _ _ (λ _, True)); [|intros; eapply (reads_bind _ _ _ (λ _, True))|done].
        { by eapply reads_mono; [apply validate_record_file_reads|]. }
        { by eapply (reads_map_err _ _ _ (λ _, True)); [apply reads_syscall|..]. }
        { intros. by apply (reads_lift _ (Ok _)). }
        { done. }
      * by apply (reads_lift _ (Ok _)).
    + intros c _. by apply (quiet_lift _ (Ok _)).
  - intros d x Hd _. split; [done|]. split; [|done].
    eapply (effect_moves 0); [apply moves_quiet; [by apply moves_refl|done]|lia|by right].
Qed.

(** ** Reload *)

Lemma strip_suffix_Some suffix name stem :
  strip_suffix suffix name = Some stem ↔ name = stem ++ suffix.
Proof.
  unfold strip_suffix. case_bool_decide as E.
  - split; [intros [= <-]; symmetry; etrans; [|apply (take_drop (length name - length suffix))]; by rewrite E|].
    intros ->. rewrite length_app, Nat.add_sub. by rewrite take_app_length.
  - split; [done|]. intros ->. rewrite length_app, Nat.add_sub, drop_app_length in E. done.
Qed.

Lemma record_user_filename u ext :
  username_wf u → ext = BIN ∨ ext = JSON → record_user (filename u ext) = Some u.
Proof.
  intros Hu Hext. unfold record_user.
  assert (utf8_valid (filename u ext) = true) as ->.
  { unfold filename. apply utf8_valid_ascii. rewrite !forallb_app. unfold username_wf, is_canonical_username in Hu.
    apply andb_true_iff in Hu as [_ Hall]. apply andb_true_iff. split.
    - eapply forallb_impl; [|exact Hall]. apply is_name_byte_ascii.
    - by destruct Hext as [-> | ->]. }
  assert (match strip_suffix (bs ".bin") (filename u ext) with
          | Some stem => Some stem
          | None => strip_suffix (bs ".json") (filename u ext) end = Some (user_bytes u)) as ->.
  { assert (∀ e, strip_suffix (bs "." ++ e) (filename u e) = Some (user_bytes u)) as Hs
      by (intros; by apply strip_suffix_Some).
    destruct Hext as [-> | ->]; [change (bs ".bin") with (bs "." ++ BIN); by rewrite (Hs BIN)|].
    destruct (strip_suffix (bs ".bin") _) as [stem|] eqn:E; [|exact (Hs JSON)].
    apply strip_suffix_Some in E. destruct (bin_not_json (mkUsername stem) u). by rewrite E. }
  cbn [mbind option_bind]. unfold result_ok.
  rewrite (proj2 (CanonicalUsername_new_Ok (user_bytes u) u)); [done|]. split; [by destruct u|done].
Qed.

Lemma record_user_selected fs name u :
  name ∈ elements (dom fs) → record_user name = Some u → username_wf u ∧ selected fs u ≠ None.
Proof.
  rewrite elem_of_elements, elem_of_dom. intros [node Hn]. unfold record_user.
  destruct (utf8_valid name); [|done]. intros Hr. apply bind_Some in Hr as (stem & Hs & Hr).
  destruct (CanonicalUsername_new stem) as [v|] eqn:Hv; [|done]. injection Hr as <-.
  apply CanonicalUsername_new_Ok in Hv as [-> Hv]. split; [done|]. unfold selected.
  destruct (strip_suffix (bs ".bin") name) as [stem'|] eqn:E.
  - injection Hs as ->. apply strip_suffix_Some in E.
    assert (filename (mkUsername stem) BIN = name) as -> by (rewrite E; done). by rewrite Hn.
  - apply strip_suffix_Some in Hs.
    assert (filename (mkUsername stem) JSON = name) as -> by (rewrite Hs; done).
    destruct (fs !! filename (mkUsername stem) BIN) as [n2|]; [discriminate|]. rewrite Hn. discriminate.
Qed.

Lemma selected_record_user fs u :
  username_wf u → selected fs u ≠ None → ∃ name, name ∈ elements (dom fs) ∧ record_user name = Some u.
Proof.
  intros Hu Hs. unfold selected in Hs. destruct (fs !! filename u BIN) as [node|] eqn:Hb.
  - exists (filename u BIN). rewrite elem_of_elements, elem_of_dom. split; [by eexists|].
    apply record_user_filename; auto.
  - destruct (fs !! filename u JSON) as [node|] eqn:Hj; [|done].
    exists (filename u JSON). rewrite elem_of_elements, elem_of_dom. split; [by eexists|].
    apply record_user_filename; auto.
Qed.

(** What [reload] says of a record. *)
Definition status_sound fs (s : OuterRecordStatus) : Prop :=
  match os_classification s with
  | OuterCandidate g => ∃ loaded, stored cfg fs (os_username s) loaded ∧ g = generation (decoded_record loaded)
  | _ => True
  end.

Lemma classify_quiet fs u :
  selected fs u ≠ None →
  quiet fs (bcase (on_disk (load_record os cfg u)) (λ d, bret (classify_load (Ok d)))
              (λ e, bret (classify_load (Err e))))
    (λ x, ∃ class, x = Ok (Some class) ∧ status_sound fs (mkRecordStatus u class)).
Proof.
  intros Hs. eapply quiet_case; [apply quiet_disk; by eapply load_record_reads| |].
  - intros d Hd. apply (quiet_lift fs (Ok _)). eexists. split; [done|]. by exists d.
  - intros e He. apply (quiet_lift fs (Ok _)). destruct e; simpl in *; try done; by eexists.
Qed.

(** An empty cache stays empty under reservations, and the revision stays. *)
Lemma operation_permit_empty b h :
  binv b h → cache_size (c_ b) = 0 →
  bwp (operation_permit cfg) (λ b' r, fs_ b' = fs_ b ∧ cache_size (c_ b') = 0 ∧ grows None b h b' h 0 ∧
    match r with Some (Ok id) => permit_held b' id (pb_reservation cfg) | Some _ => True | None => False end) b.
Proof.
  intros Hb Hz. destruct (reserve_bytes_bwp Husers b h None (pb_reservation cfg) Hb ltac:(lia)) as (b' & r & Hr & Hfs & (k & Hg & Hk) & Hp).
  exists b', r. split; [done|].
  assert (forgets (w_ b) (c_ b) (w_ b') (c_ b')) as (k' & Hev & Hk').
  { unfold reserve_bytes, on_cache, reserve_operation_except in Hr.
    destruct (c_disabled (c_ b)).
    - injection Hr as <- _. apply forgets_world. by intros ??.
    - apply bind_Some in Hr as ([[w c] x] & Hl & [= <- _]). by eapply reserve_loop_forgets. }
  unfold cache_size in *. assert (k' = 0) as -> by lia. split_and!; [done|lia| |done].
  destruct Hg as [Hi Hc Hm _], Hev as [_ _ Ha]. done.
Qed.

Lemma empty_cache b h : binv b h → cache_size (c_ b) = 0 ↔ ∀ u, cached (w_ b) (c_ b) u = None.
Proof.
  intros (_ & _ & _ & Hbk). unfold cache_size. split.
  - intros Hz u. unfold cached. assert (c_entries (c_ b) = ∅) as -> by (apply map_size_empty_inv; lia). done.
  - intros Hno. assert (c_entries (c_ b) = ∅) as ->; [|by rewrite map_size_empty].
    apply map_eq. intros u. rewrite lookup_empty. destruct (c_entries (c_ b) !! u) as [e|] eqn:He; [|done].
    destruct (Hbk _ _ He) as (m & Hm & _). specialize (Hno u). unfold cached in Hno. rewrite He in Hno.
    simpl in Hno. congruence.
Qed.

Lemma grows_empty b h b' h' k :
  grows None b h b' h' k → binv b h → cache_size (c_ b) = 0 → cache_size (c_ b') = 0.
Proof.
  intros [Hi Hc _ _] Hb Hz. rewrite (empty_cache b' h') by done. rewrite (empty_cache b h) in Hz by done.
  intros u. apply eq_None_not_Some. intros [m Hm]. destruct (Hc _ _ Hm) as [E|?]; [|done]. by rewrite Hz in E.
Qed.

Lemma reload_users_bwp b0 h k users b :
  moves 1 b0 h b h k → fs_ b = fs_ b0 → cache_size (c_ b) = 0 →
  Forall (λ u, selected (fs_ b0) u ≠ None) users →
  bwp (reload_users os cfg users) (λ b' r, fs_ b' = fs_ b0 ∧
    match r with
    | None => True
    | Some x => moves 1 b0 h b' h k ∧ ∀ l, x = Ok l →
        os_username <$> l = users ∧ Forall (status_sound (fs_ b0)) l
    end) b.
Proof.
  intros Hm Hfs Hz Hsel. revert b Hm Hfs Hz.
  assert (∀ b b', moves 1 b0 h b h k → grows None b h b' h 0 → fs_ b' = fs_ b → moves 1 b0 h b' h k) as Hstep.
  { intros b b' [Hi Hc Hh Hmo Ha Hn Hd] [Gi Gc Gm Ga Gd] Hfs. split; try done.
    - intros u m Hu. rewrite Hfs. destruct (Gc _ _ Hu) as [?|?]; [auto|done].
    - intros a m Ha0 Hma. specialize (Hh a). apply Gm; [lia|lia|auto].
    - replace k with (k + 0) by lia. by eapply advances_trans.
    - auto. }
  induction Hsel as [|u users Hu Hsel IH]; intros b Hm Hfs Hz.
  { apply (bwp_ret (Ok [])). split; [done|]. split; [done|]. by intros l [= <-]. }
  pose proof Hm as [Hb _ _ _ _ _]. apply bwp_bind.
  eapply bwp_mono; [by eapply operation_permit_empty|]. intros b1 r1 (Hfs1 & Hz1 & Hg1 & Hr1).
  assert (moves 1 b0 h b1 h k) as Hm1 by by eapply Hstep.
  destruct r1 as [[id|e]|]; [| |done].
  2:{ split; [congruence|]. by split. }
  apply bwp_bind. eapply (holding_bwp h), (bwp_quiet (fs_ b0)); [by apply classify_quiet|congruence|by split|].
  intros d x Hd (class & -> & Hclass).
  assert (moves 1 b0 h (mkBackend d (w_ b1) (c_ b1)) h k) as Hm2 by (apply moves_quiet; [done|congruence]).
  exists (pb_reservation cfg). split_and!; [by destruct Hm2|done|]. intros b2 Hg2 Hfs2.
  assert (moves 1 b0 h b2 h k) as Hm3 by by eapply Hstep.
  assert (cache_size (c_ b2) = 0) as Hz2 by (eapply grows_empty; [exact Hg2|by destruct Hm2|done]).
  simpl in Hfs2. rewrite Hd in Hfs2.
  apply bwp_bind. eapply bwp_mono; [by apply IH|]. intros b3 [[l|e]|] [Hfs3 Hr3]; [| |done].
  - destruct Hr3 as [Hm4 Hl]. apply (bwp_ret (Ok _)). split; [done|]. split; [done|].
    intros l' [= <-]. destruct (Hl l eq_refl) as [<- Hall]. split; [done|by constructor].
  - split; [done|]. destruct Hr3. by split.
Qed.

(** A reload forgets the cache and reports each user who has a record file, once, in order;
    a candidate's generation is that of the stored record. *)
Definition reload_report fs (answer : ReloadResult) : Prop :=
  StronglySorted status_le (re_records answer) ∧ NoDup (os_username <$> re_records answer) ∧
  (∀ u, username_wf u → u ∈ os_username <$> re_records answer ↔ selected fs u ≠ None) ∧
  Forall (status_sound fs) (re_records answer).

Lemma reload_bwp b h :
  binv b h → coherent b → bwp (reload os cfg) (query (reload_report (fs_ b)) b h) b.
Proof.
  intros Hb Hco. apply bwp_bind.
  destruct (cache_clear_spec _ Hlim _ _ _ Hb) as (w1 & c1 & Hcl & Hinv1 & Hempty & _).
  eapply bwp_cache; [by rewrite Hcl|]. apply cache_clear_evolves in Hcl. cbn beta iota.
  set (b1 := mkBackend (b_disk b) w1 c1).
  assert (moves 1 b h b1 h 1) as Hm1.
  { change (moves (0 + 1) b h b1 h (0 + 1)).
    eapply moves_forget; [by apply moves_refl|by apply evolves_grows|apply few_1|done|done]. }
  assert (cache_size (c_ b1) = 0) as Hz by (unfold cache_size; simpl; by rewrite Hempty, map_size_empty).
  assert (∀ b', fs_ b' = fs_ b → moves 1 b h b' h 1 → effect b h b' h) as Heff.
  { intros b' Hfs' Hm'. eapply effect_moves; [done|lia|by right]. }
  apply bwp_bind. eapply (bwp_quiet (fs_ b) _ (λ x, match x with
    | Ok names => names ≡ₚ elements (dom (fs_ b)) | Err _ => True end)); [|done|by split|].
  { apply quiet_disk. eapply (reads_map_err _ _ _ (λ x, match x with
      | Ok names => names ≡ₚ elements (dom (fs_ b)) | Err _ => True end)); [by apply reads_sys_read_dir|done|done]. }
  intros d [names|e] Hd Hx; [|split; [done|]; split; [|done]; apply Heff; [done|by apply moves_quiet]].
  set (users := elements _).
  assert (∀ u, u ∈ users ↔ ∃ name, name ∈ elements (dom (fs_ b)) ∧ record_user name = Some u) as Husr.
  { intros u. unfold users. rewrite elem_of_elements, elem_of_list_to_set, list_elem_of_omap.
    by setoid_rewrite Hx. }
  apply bwp_bind. eapply bwp_mono.
  { eapply (reload_users_bwp b h 1); [by apply moves_quiet|done|done|].
    apply Forall_forall. intros u Hu%Husr. destruct Hu as (name & Hn & Hr). by eapply record_user_selected. }
  intros b2 [[l|e]|] [Hfs2 Hr2]; [| |done].
  2:{ split; [done|]. destruct Hr2. split; [by apply Heff|done]. }
  destruct Hr2 as [Hm2 Hl]. destruct (Hl l eq_refl) as [Hun Hall]. apply (bwp_ret (Ok _)).
  split; [done|]. split; [by apply Heff|]. intros answer [= <-]. unfold reload_report; simpl.
  pose proof (merge_sort_Permutation status_le l) as Hperm. split_and!.
  - apply StronglySorted_merge_sort; apply _.
  - rewrite Hperm, Hun. apply NoDup_elements.
  - intros u Hu. rewrite Hperm, Hun, Husr. split.
    + intros (name & Hn & Hr). by eapply record_user_selected.
    + by apply selected_record_user.
  - by rewrite Hperm.
Qed.
End calls.
