(* ===== verification/BackendSystem.v ===== *)
(** * A storage backend in use

    Calls on a backend, the leases and pending promotions its callers hold, and the machine
    stopping at any point and starting again with what the directory then holds, for any
    backend whose calls keep the accounts right and the cache coherent. *)

From S2P Require Import Prelude Bytes Storage Crypto Codec CodecPlain Contracts Budget Cache CacheLru CacheProofs CacheSystem Disk Backend CacheModels BackendOps BackendCalls.

(** What a call leaves its caller with: leases, and at most one promotion. *)
Record Gain := mkGain { g_leases : list positive; g_promotion : option CachePromotion }.
Definition gain_handles (g : Gain) : list positive :=
  g_leases g ++ match g_promotion g with Some p => [pm_model p] | None => [] end.
Definition gained (g : Gain) (h : owners) : owners := foldr (λ a h, own_add h a 1) h (gain_handles g).

(** The calls of the trait [StorageBackend]. *)
Inductive Call :=
| CallAppend (request : AppendRequest)
| CallRemove (request : RemoveRequest)
| CallClear (request : ClearRequest)
| CallList (u : CanonicalUsername)
| CallPresence (u : CanonicalUsername)
| CallSnapshot (u : CanonicalUsername)
| CallAuthenticate (u : CanonicalUsername)
| CallAuthenticateCancellable (u : CanonicalUsername)
| CallAuthenticateActive (u : CanonicalUsername)
| CallReload.

Definition call_ok (call : Call) : Prop :=
  match call with
  | CallAppend request => append_request_ok request
  | CallRemove request => username_wf (rm_username request)
  | CallAuthenticate u | CallAuthenticateCancellable u | CallAuthenticateActive u => username_wf u
  | _ => True
  end.

(** A backend as its callers see it: its calls, those they may make, and how it starts on a
    directory. *)
Record Service (R : Type) := mkService {
  sv_call : Type;
  sv_ok : sv_call → Prop;
  sv_perform : sv_call → bop (R:=R) Gain;
  sv_starts : files → Backend R → Prop;
  sv_limits : ModelCacheLimits;
  sv_identity : bytes }.
Arguments sv_call {R} _.
Arguments sv_ok {R} _ _.
Arguments sv_perform {R} _ _.
Arguments sv_starts {R} _ _ _.
Arguments sv_limits {R} _.
Arguments sv_identity {R} _.

(** An empty cache and an unused budget. *)
Definition fresh {R} (b : Backend R) : Prop :=
  b_cache b = cache_new ∧ ∃ limit budget, 0 ≤ limit ≤ U64_MAX ∧
    PlaintextBudget_new limit = Ok budget ∧ b_world b = mkWorld budget ∅ ∅.

Section calls.
  Context {R : Type}.
  Implicit Types (b : Backend R) (h : owners).

Definition gaining {A} (m : bop (R:=R) A) (f : A → Gain) : bop Gain := bbind m (λ a, bret (f a)).
Definition nothing {A} (m : bop (R:=R) A) : bop Gain := gaining m (λ _, mkGain [] None).

Lemma gaining_bwp {A} (m : bop A) (f : A → Gain) Q b :
  bwp m (λ b' r, match r with
                 | Some (Ok a) => Q b' (Some (Ok (f a)))
                 | Some (Err e) => Q b' (Some (Err e)) | None => Q b' None end) b →
  bwp (gaining m f) Q b.
Proof.
  intros Hm. apply bwp_bind. eapply bwp_mono; [exact Hm|].
  intros b' [[a|e]|]; [intros; by apply (bwp_ret (Ok _))|done|done].
Qed.

(** The effect of a call, and that an issued promotion is of the stored record. *)
Definition call_effect `{RecordStore} limits b h b' (r : option (bresult Gain)) : Prop :=
  match r with
  | None => True
  | Some (Err _) => effect (limits:=limits) b h b' h
  | Some (Ok g) => effect (limits:=limits) b h b' (gained g h) ∧
      match g_promotion g with
      | None => True
      | Some p => 0 ≤ pm_revision p < 2 ^ 128 ∧
          ∃ m, arc_model_of (b_world b') (pm_model p) = Some m ∧
            model_stored (d_files (b_disk b')) (pm_username p) m
      end
  end.

(** A call that keeps nothing, or a lease, or a lease and a promotion. *)
Lemma nothing_bwp `{RecordStore} {A} limits (m : bop A) P b h :
  bwp m P b → (∀ b' x, P b' (Some x) → effect (limits:=limits) b h b' h) →
  bwp (nothing m) (call_effect limits b h) b.
Proof.
  intros Hm HP. apply gaining_bwp. eapply bwp_mono; [exact Hm|].
  intros b' [[a|e]|] Hr; [split; [by eapply HP|done]|by eapply HP|done].
Qed.

Lemma lease_bwp `{RecordStore} limits (m : bop positive) u b h :
  bwp m (auth_outcome (limits:=limits) u b h) b →
  bwp (gaining m (λ a, mkGain [a] None)) (call_effect limits b h) b.
Proof.
  intros Hm. apply gaining_bwp. eapply bwp_mono; [exact Hm|].
  intros b' [[a|e]|] [_ Hr]; [|done|done]. split; [by destruct Hr|done].
Qed.

Lemma active_bwp `{RecordStore} limits (m : bop (positive * option CachePromotion)) u b h :
  bwp m (active_outcome (limits:=limits) u b h) b →
  bwp (gaining m (λ x, mkGain [x.1] x.2)) (call_effect limits b h) b.
Proof.
  intros Hm. apply gaining_bwp. eapply bwp_mono; [exact Hm|].
  intros b' [[[a [p|]]|e]|] [Hfs Hr]; [|by destruct Hr|done|done].
  destruct Hr as (Heff & <- & <- & Hrev & m' & Hm' & Hs & _). split; [done|].
  simpl. rewrite Hfs. eauto.
Qed.
End calls.

(** What a backend owes its callers. *)
Record service_ok {R} `{RecordStore} (sv : Service R) : Prop := {
  so_limits : limits_ok (sv_limits sv);
  so_users : max_users (sv_limits sv) ≤ U64_MAX;
  so_starts fs b : sv_starts sv fs b → fresh b;
  so_perform call b h :
    sv_ok sv call → binv (limits:=sv_limits sv) b h → coherent b →
    bwp (sv_perform sv call) (call_effect (sv_limits sv) b h) b }.

Section system.
  Context {R : Type} `{!RecordStore} (sv : Service R) (Hok : service_ok sv).
  Implicit Types (b : Backend R) (h : owners) (k : Z) (u : CanonicalUsername).

Abbreviation w_ b := (b_world b).
Abbreviation c_ b := (b_cache b).
Abbreviation fs_ b := (d_files (b_disk b)).
Abbreviation binv := (binv (limits:=sv_limits sv)).
Abbreviation settles := (settles (limits:=sv_limits sv)).
Abbreviation effect := (effect (limits:=sv_limits sv)).

(** ** Steps *)

(** The backend, the handles its callers hold on models, and the pending promotions, each
    with the number of revision increments since the one it is stamped with. *)
Record StoreSys := mkStoreSys {
  ss_backend : Backend R; ss_handles : owners; ss_pending : list (CachePromotion * Z) }.

(** The handles owned by pending promotions. *)
Definition pending_handles (pending : list (CachePromotion * Z)) : list positive :=
  (λ x, pm_model x.1) <$> pending.

(** The revision increments of a step. *)
Definition elapsed b b' : Z := (c_revision (c_ b') - c_revision (c_ b)) mod 2 ^ 128.
Definition aged k (pending : list (CachePromotion * Z)) : list (CachePromotion * Z) :=
  (λ x, (x.1, x.2 + k)) <$> pending.

(** A new promotion, with the increments since it took note of the revision. *)
Definition issued b (r : bresult Gain) : list (CachePromotion * Z) :=
  match r with
  | Ok (mkGain _ (Some p)) => [(p, (c_revision (c_ b) - pm_revision p) mod 2 ^ 128)]
  | _ => []
  end.

Inductive store_step : StoreSys → StoreSys → Prop :=
| store_call call b h pending b' r :
    sv_ok sv call → sv_perform sv call b = Some (b', Some r) →
    store_step (mkStoreSys b h pending)
      (mkStoreSys b' (match r with Ok g => gained g h | Err _ => h end)
         (issued b' r ++ aged (elapsed b b') pending))
| store_release a b h pending b' r :
    occurrences (pending_handles pending) a < h a → release_lease a b = Some (b', Some r) →
    store_step (mkStoreSys b h pending)
      (mkStoreSys b' (own_add h a (-1)) (aged (elapsed b b') pending))
| store_promote p age before after publish b h b' r :
    promote_with (sv_limits sv) (sv_identity sv) p publish b = Some (b', Some r) →
    store_step (mkStoreSys b h (before ++ (p, age) :: after))
      (mkStoreSys b' (own_add h (pm_model p) (-1)) (aged (elapsed b b') (before ++ after)))
| store_stop call b h pending b' b'' :
    sv_ok sv call → sv_perform sv call b = Some (b', None) → sv_starts sv (fs_ b') b'' →
    store_step (mkStoreSys b h pending) (mkStoreSys b'' (λ _, 0) [])
| store_restart b h pending b' :
    sv_starts sv (fs_ b) b' →
    store_step (mkStoreSys b h pending) (mkStoreSys b' (λ _, 0) []).

(** No promotion stays pending for [2 ^ 128] changes of the cache. *)
Definition timely (s : StoreSys) : Prop := Forall (λ x, x.2 < 2 ^ 128) (ss_pending s).

Inductive store_reachable : StoreSys → Prop :=
| reach_start fs b : sv_starts sv fs b → store_reachable (mkStoreSys b (λ _, 0) [])
| reach_step s s' :
    store_reachable s → store_step s s' → timely s' → store_reachable s'.

(** ** The invariant *)

(** A promotion of the given age: the revision says how old it is, and while nothing changed
    its model is that of the stored record, unless the cache is out of use. *)
Definition pending_ok b (x : CachePromotion * Z) : Prop :=
  0 ≤ x.2 < 2 ^ 128 ∧ 0 ≤ pm_revision x.1 < 2 ^ 128 ∧
  c_revision (c_ b) = (pm_revision x.1 + x.2) mod 2 ^ 128 ∧
  ∃ m, arc_model_of (w_ b) (pm_model x.1) = Some m ∧
    (x.2 = 0 → c_disabled (c_ b) = false → model_stored (fs_ b) (pm_username x.1) m).

Definition store_inv (s : StoreSys) : Prop :=
  binv (ss_backend s) (ss_handles s) ∧ coherent (ss_backend s) ∧
  Forall (pending_ok (ss_backend s)) (ss_pending s) ∧
  ∀ a, occurrences (pending_handles (ss_pending s)) a ≤ ss_handles s a.

Lemma elapsed_advances b h b' h' k : binv b h → settles b h b' h' k → elapsed b b' = k.
Proof.
  intros Hb [_ _ _ Ha Hk _ _]. pose proof (binv_revision b h Hb). unfold elapsed.
  destruct Ha as [[-> ->]|[_ ->]].
  - by rewrite Z.sub_diag.
  - rewrite Zminus_mod_idemp_l. replace (c_revision (c_ b) + k - c_revision (c_ b)) with k by lia.
    by apply Z.mod_small.
Qed.

Lemma pending_aged b h b' h' k x :
  binv b h → settles b h b' h' k → pending_ok b x → x.2 + k < 2 ^ 128 →
  1 ≤ h (pm_model x.1) → 1 ≤ h' (pm_model x.1) → pending_ok b' (x.1, x.2 + k).
Proof.
  intros Hb [_ _ Hm Ha Hk Hsame Hdis] (Hage & Hrev & Heq & m & Hmo & Hst) Hlt Hh1 Hh2.
  unfold pending_ok; cbn [fst snd]. split; [lia|]. split; [done|]. split.
  - destruct Ha as [[-> ->]|[_ ->]]; [by rewrite Z.add_0_r|].
    rewrite Heq, Z.add_mod_idemp_l by lia. f_equal. lia.
  - exists m. split; [by apply Hm|]. intros E Hen. assert (k = 0) by lia. assert (x.2 = 0) by lia.
    destruct Hsame as [Hsame|?]; [done| |congruence].
    eapply model_stored_state; [by apply Hsame|]. apply Hst; [done|].
    destruct (c_disabled (c_ b)); [by rewrite Hdis in Hen|done].
Qed.

Lemma occurrences_elem ls a : a ∈ ls → 1 ≤ occurrences ls a.
Proof.
  intros Ha. induction Ha as [a ls|a y ls Ha IH]; cbn; [|case_decide; unfold occurrences in *; lia].
  rewrite decide_True by done. pose proof (occurrences_nonneg ls a). unfold occurrences in *. lia.
Qed.

(** Promotions that stay pending over a step. *)
Lemma pending_step b h b' h' k pending :
  binv b h → settles b h b' h' k → Forall (pending_ok b) pending →
  (∀ a, occurrences (pending_handles pending) a ≤ h a) →
  (∀ a, occurrences (pending_handles pending) a ≤ h' a) →
  Forall (λ x, x.2 < 2 ^ 128) (aged (elapsed b b') pending) →
  Forall (pending_ok b') (aged (elapsed b b') pending).
Proof.
  intros Hb Hs Hp Hh1 Hh2 Hlt. rewrite (elapsed_advances _ _ _ _ _ Hb Hs) in *.
  unfold aged in *. rewrite Forall_fmap in *. rewrite Forall_forall in *. intros x Hx.
  assert (pm_model x.1 ∈ pending_handles pending) as Hin by (apply list_elem_of_fmap; eauto).
  apply occurrences_elem in Hin. specialize (Hh1 (pm_model x.1)). specialize (Hh2 (pm_model x.1)).
  eapply pending_aged; [done|done|by apply Hp|by apply Hlt|lia|lia].
Qed.

Lemma occurrences_app l1 l2 a : occurrences (l1 ++ l2) a = occurrences l1 a + occurrences l2 a.
Proof.
  unfold occurrences. induction l1 as [|x l1 IH]; [done|]. cbn [app foldr]. rewrite IH. lia.
Qed.

Lemma occurrences_cons x ls a : occurrences (x :: ls) a = (if decide (x = a) then 1 else 0) + occurrences ls a.
Proof. done. Qed.

Lemma pending_handles_aged k pending : pending_handles (aged k pending) = pending_handles pending.
Proof. unfold pending_handles, aged. rewrite <- list_fmap_compose. done. Qed.

Lemma gained_occurrences g h a : gained g h a = h a + occurrences (gain_handles g) a.
Proof.
  unfold gained. induction (gain_handles g) as [|x ls IH]; cbn [foldr]; [cbn; lia|].
  unfold own_add at 1. unfold occurrences; cbn [foldr]; fold (occurrences ls a).
  destruct (decide (x = a)) as [-> |]; case_decide; try congruence; lia.
Qed.

Lemma issued_occurrences b r pending a :
  occurrences (pending_handles (issued b r ++ pending)) a =
  match r with
  | Ok g => occurrences match g_promotion g with Some p => [pm_model p] | None => [] end a
  | Err _ => 0 end + occurrences (pending_handles pending) a.
Proof.
  unfold pending_handles. rewrite fmap_app, occurrences_app. by destruct r as [[ls [p|]]|e].
Qed.

(** Within [2 ^ 128] increments the revision tells whether there were any. *)
Lemma revision_age rev age : 0 ≤ rev < 2 ^ 128 → 0 ≤ age < 2 ^ 128 → rev = (rev + age) mod 2 ^ 128 → age = 0.
Proof.
  intros Hr Ha E. destruct (Z.lt_ge_cases (rev + age) (2 ^ 128)).
  - rewrite Z.mod_small in E by lia. lia.
  - rewrite <- (Z_mod_plus_full _ (-1)), Z.mod_small in E by lia. lia.
Qed.

Lemma fresh_inv b : fresh b → store_inv (mkStoreSys b (λ _, 0) []).
Proof.
  intros (Hc & limit & budget & Hl & Hbud & Hw).
  assert (binv b (λ _, 0)) as Hb.
  { unfold BackendOps.binv. rewrite Hc, Hw.
    apply (cache_init_inv (sv_limits sv) (so_limits _ Hok) budget).
    by destruct (PlaintextBudget_new_inv _ _ Hl Hbud). }
  unfold store_inv; simpl. split_and!; [done| |by constructor|done].
  intros u m. unfold cached. by rewrite Hc.
Qed.

Lemma store_step_inv s s' : store_inv s → store_step s s' → timely s' → store_inv s'.
Proof.
  intros (Hb & Hco & Hp & Hh) Hstep Htime. unfold timely in Htime.
  destruct Hstep as [call b h pending b' r Hcall Hrun|a b h pending b' r Ha Hrun
    |p age before after publish b h b' r Hrun|call b h pending b' b'' _ _ Ho|b h pending b' Ho];
    simpl in *; [| | |by eapply fresh_inv, so_starts|by eapply fresh_inv, so_starts].
  - destruct (so_perform _ Hok call b h Hcall Hb Hco) as (b1 & r1 & Hr1 & Heff).
    rewrite Hrun in Hr1. injection Hr1 as <- <-. apply Forall_app in Htime as [_ Htime].
    set (h' := match r with Ok g => gained g h | Err _ => h end).
    assert (effect b h b' h') as Heff' by (destruct r; [by destruct Heff|done]).
    destruct (effect_settles _ _ _ _ Heff') as [k Hs].
    assert (∀ a, h a ≤ h' a) as Hle.
    { intros a. unfold h'. destruct r as [g|]; [|done]. rewrite gained_occurrences.
      pose proof (occurrences_nonneg (gain_handles g) a). lia. }
    unfold store_inv; simpl. split_and!; [by destruct Hs|by destruct Hs| |].
    + apply Forall_app. split.
      * destruct r as [[ls [p|]]|e]; simpl in *; [|done|done]. apply Forall_singleton.
        destruct Heff as (_ & Hrev & m & Hm & Hst). pose proof (binv_revision b' h' ltac:(by destruct Hs)).
        pose proof (Z.mod_pos_bound (c_revision (c_ b') - pm_revision p) (2 ^ 128) ltac:(lia)).
        unfold pending_ok; cbn [fst snd]. split_and!; try lia; [|eauto].
        rewrite Zplus_mod_idemp_r. replace (pm_revision p + (c_revision (c_ b') - pm_revision p))
          with (c_revision (c_ b')) by lia. by rewrite Z.mod_small.
      * eapply pending_step; [done|done|done|done| |done]. intros a. etrans; [apply Hh|apply Hle].
    + intros a. rewrite issued_occurrences, pending_handles_aged. specialize (Hh a). unfold h'.
      destruct r as [g|e]; [|lia]. rewrite gained_occurrences. unfold gain_handles.
      rewrite occurrences_app. pose proof (occurrences_nonneg (g_leases g) a).
      destruct (g_promotion g); lia.
  - assert (1 ≤ h a) as Ha1.
    { pose proof (occurrences_nonneg (pending_handles pending) a). lia. }
    destruct (release_settles b h a Hb Hco Ha1) as (b1 & r1 & Hr1 & -> & _ & k & Hs).
    rewrite Hrun in Hr1. injection Hr1 as <- ->.
    assert (∀ x, occurrences (pending_handles pending) x ≤ own_add h a (-1) x) as Hle.
    { intros x. specialize (Hh x). unfold own_add. case_decide; subst; lia. }
    unfold store_inv; simpl. split_and!; [by destruct Hs|by destruct Hs| |].
    + by eapply pending_step.
    + intros x. by rewrite pending_handles_aged.
  - apply Forall_app in Hp as [Hp1 Hp2]. apply Forall_cons in Hp2 as [Hp Hp2].
    assert (Forall (pending_ok b) (before ++ after)) as Hrest by by apply Forall_app.
    assert (∀ x, occurrences (pending_handles (before ++ (p, age) :: after)) x =
      occurrences (pending_handles (before ++ after)) x + (if decide (pm_model p = x) then 1 else 0)) as Hocc.
    { intros x. unfold pending_handles. rewrite !fmap_app, !occurrences_app, fmap_cons, occurrences_cons. cbn [fst]. lia. }
    assert (∀ x, occurrences (pending_handles (before ++ after)) x ≤ own_add h (pm_model p) (-1) x) as Hle.
    { intros x. specialize (Hh x). rewrite Hocc in Hh. unfold own_add. destruct (decide (pm_model p = x)), (decide (x = pm_model p)); subst; try done; lia. }
    assert (1 ≤ h (pm_model p)) as Ha.
    { specialize (Hh (pm_model p)). rewrite Hocc, decide_True in Hh by done.
      pose proof (occurrences_nonneg (pending_handles (before ++ after)) (pm_model p)). lia. }
    destruct Hp as (Hage & Hrev & Heq & m & Hm & Hst). simpl in *.
    destruct (promote_bwp (so_limits _ Hok) (so_users _ Hok) (sv_identity sv) b h p publish m Hb Hco Ha Hm)
      as (b1 & r1 & Hr1 & _ & _ & k & Hs).
    { intros E Hen. apply Hst; [|done]. rewrite E in Heq. by apply (revision_age (pm_revision p)). }
    rewrite Hrun in Hr1. injection Hr1 as <- _.
    unfold store_inv; simpl. split_and!; [by destruct Hs|by destruct Hs| |].
    + eapply pending_step; [done|done|done| |done|done]. intros x. specialize (Hh x). rewrite Hocc in Hh.
      destruct (decide _); lia.
    + intros x. by rewrite pending_handles_aged.
Qed.

Lemma store_reachable_inv s : store_reachable s → store_inv s.
Proof. induction 1; [by eapply fresh_inv, so_starts|by eapply store_step_inv]. Qed.
End system.

(** An operating system on which nothing fails. *)
Definition calm_os : DiskOs :=
  mkDiskOs (λ _, None) (λ _, 0%nat) (λ _, mkStat RegularFile 0 0 32768 0 0 0 0 0 0 1) (λ _, (0, 0))
    (λ _, unlimited) (λ _, false) (λ _ fs, elements (dom fs))
    (λ _, mkStat DirectoryFile 0 0 16832 0 0 0 0 0 0 1) 0 (λ _ n, Some n).
Lemma calm_os_laws : DiskOsLaws calm_os.
Proof. split; [by intros t kind|done]. Qed.
