(* ===== verification/PlaintextSystem.v ===== *)
(** * The plaintext backend in use

    Calls on the backend, the leases and pending promotions its callers hold, and the machine
    stopping at any point and starting again with what the directory then holds; the
    properties of all states this leads to. *)

From stdpp Require Import sorting.
From S2P Require Import Prelude Bytes Storage Crypto Codec CodecPlain Legacy Contracts Budget Cache CacheLru CacheProofs CacheSystem PromptState Handlers Disk Backend Plaintext PlaintextStore PlaintextProofs CacheModels BackendOps BackendCalls PlaintextCalls BackendSystem.

(** Settings as [PlaintextStorageBackend::open] receives them. *)
Record backend_ok (cfg : PlaintextSettings) : Prop := {
  bk_limits : plain_limits_ok (pb_limits cfg);
  bk_model : length (digest_bytes (pb_model cfg)) = 32%nat;
  bk_cache : limits_ok (pb_cache_limits cfg);
  bk_users : max_users (pb_cache_limits cfg) ≤ U64_MAX;
  bk_reservation : 0 ≤ pb_reservation cfg ≤ U64_MAX }.

Section system.
  Context `{Sha256} `{!Sha256Laws} `{LegacyDecoders} `{!LegacyDecodersLaws}.
  Context {R : Type} `{RandomSource R}.
  Context (os : DiskOs) `{!DiskOsLaws os} (cfg : PlaintextSettings) (Hok : backend_ok cfg).
  Implicit Types (b : Backend R) (h : owners) (k : Z) (u : CanonicalUsername).

Abbreviation w_ b := (b_world b).
Abbreviation c_ b := (b_cache b).
Abbreviation fs_ b := (d_files (b_disk b)).
Abbreviation binv := (binv (limits:=pb_cache_limits cfg)).
Abbreviation effect := (effect (limits:=pb_cache_limits cfg)).

#[local] Instance system_records : RecordStore := plain_records cfg.

Definition perform (call : Call) : bop (R:=R) Gain :=
  match call with
  | CallAppend request => nothing (append os cfg request)
  | CallRemove request => nothing (remove os cfg request)
  | CallClear request => nothing (clear os cfg request)
  | CallList u => nothing (list_metadata os cfg u)
  | CallPresence u => nothing (candidate_presence os cfg u)
  | CallSnapshot u => nothing (prompt_snapshot os cfg u)
  | CallAuthenticate u => gaining (authenticate os cfg u) (λ a, mkGain [a] None)
  | CallAuthenticateCancellable u => gaining (authenticate_cancellable os cfg u) (λ a, mkGain [a] None)
  | CallAuthenticateActive u => gaining (authenticate_active os cfg u) (λ x, mkGain [x.1] x.2)
  | CallReload => nothing (reload os cfg)
  end.

(** A backend opened on a directory: an empty cache, an unused budget. *)
Definition opened (budget_limit : Z) fs b : Prop :=
  fs_ b = fs ∧ c_ b = cache_new ∧ 0 ≤ budget_limit ≤ U64_MAX ∧
  ∃ budget, PlaintextBudget_new budget_limit = Ok budget ∧ w_ b = mkWorld budget ∅ ∅.

(** The backend as its callers see it. *)
Definition plain_service (budget_limit : Z) : Service R :=
  mkService R Call call_ok perform (opened budget_limit) (pb_cache_limits cfg) (pb_identity cfg).

Definition plain_reachable (budget_limit : Z) : StoreSys → Prop :=
  store_reachable (plain_service budget_limit).

Lemma mutation_effect {A} u new says b h b' (r : option (bresult A)) :
  mutation cfg u new says b h b' r → r ≠ None → effect b h b' h.
Proof. intros [_ Hr] ?. destruct r; [by destruct Hr|done]. Qed.

Lemma perform_bwp call b h :
  call_ok call → binv b h → coherent b →
  bwp (perform call) (call_effect (pb_cache_limits cfg) b h) b.
Proof.
  intros Hcall Hb Hco. destruct Hok. destruct call; simpl in Hcall.
  - eapply nothing_bwp; [by eapply append_bwp|]. intros b' x Hr. by eapply mutation_effect.
  - eapply nothing_bwp; [by eapply remove_bwp|]. intros b' x Hr. by eapply mutation_effect.
  - eapply nothing_bwp; [by eapply clear_bwp|]. by intros b' x (_ & _ & ? & _).
  - eapply nothing_bwp; [by eapply list_metadata_bwp|]. by intros b' x (_ & ? & _).
  - eapply nothing_bwp; [by eapply candidate_presence_bwp|]. by intros b' x (_ & ? & _).
  - eapply nothing_bwp; [by eapply prompt_snapshot_bwp|]. by intros b' x (_ & ? & _).
  - eapply lease_bwp. by eapply authenticate_bwp.
  - eapply lease_bwp. by eapply authenticate_cancellable_bwp.
  - eapply active_bwp. by eapply authenticate_active_bwp.
  - eapply nothing_bwp; [by eapply reload_bwp|]. by intros b' x (_ & ? & _).
Qed.

Lemma plain_service_ok limit : service_ok (plain_service limit).
Proof.
  split; [apply Hok|apply Hok| |exact perform_bwp].
  intros fs b (_ & Hc & Hl & budget & Hbud & Hw). split; [done|]. by exists limit, budget.
Qed.

Lemma plain_reachable_inv limit s :
  plain_reachable limit s → binv (ss_backend s) (ss_handles s) ∧ coherent (ss_backend s).
Proof. intros Hr. by destruct (store_reachable_inv _ (plain_service_ok limit) s Hr) as (? & ? & _). Qed.

(** ** Properties of all reachable states *)


(** What a load for authentication promises: the directory stays, and the lease is on the
    model of the stored record. *)
Definition leases_stored {A} u b (m : bop (R:=R) A) (lease : A → positive) : Prop :=
  ∃ b' r, m b = Some (b', r) ∧ fs_ b' = fs_ b ∧
    ∀ x, r = Some (Ok x) → ∃ loaded model, stored cfg (fs_ b) u loaded ∧
      loaded_model loaded = Ok model ∧ arc_model_of (w_ b') (lease x) = Some model.

Lemma leased_stored {A} u b (m : bop (R:=R) A) (lease : A → positive) P :
  bwp m P b →
  (∀ b' r, P b' r → fs_ b' = fs_ b ∧ ∀ x, r = Some (Ok x) →
     ∃ model, arc_model_of (w_ b') (lease x) = Some model ∧ stored_model cfg (fs_ b) u model) →
  leases_stored u b m lease.
Proof.
  intros (b' & r & Hm & HP) Hall. destruct (Hall _ _ HP) as [Hfs Hx]. exists b', r.
  split_and!; [done|done|]. intros x Hr. destruct (Hx x Hr) as (model & Ha & loaded & Hs & Hl). eauto.
Qed.

(** C15: Each of the three authentication loads returns, leaves the directory alone, and hands
    out a lease only on the model of the record stored for that very user at the time. *)
Theorem leases_are_of_stored_records limit s u :
  plain_reachable limit s → username_wf u →
  leases_stored u (ss_backend s) (authenticate os cfg u) id ∧
  leases_stored u (ss_backend s) (authenticate_cancellable os cfg u) id ∧
  leases_stored u (ss_backend s) (authenticate_active os cfg u) fst.
Proof.
  intros Hr Hu. destruct (plain_reachable_inv _ _ Hr) as [Hb Hco]. destruct Hok.
  split_and!; eapply leased_stored; try done.
  - by eapply authenticate_bwp.
  - intros b' r [Hfs Ho]. split; [done|]. intros a ->. by destruct Ho.
  - by eapply authenticate_cancellable_bwp.
  - intros b' r [Hfs Ho]. split; [done|]. intros a ->. by destruct Ho.
  - by eapply authenticate_active_bwp.
  - intros b' r [Hfs Ho]. split; [done|]. intros [a [p|]] ->.
    + destruct Ho as (_ & <- & <- & _ & m & Hm & Hs & _). eauto.
    + by destruct Ho.
Qed.

(** C10: Appending is an atomic compare-and-swap of one user's record. Whatever system call
    fails, and wherever the machine stops, the other users' records are as they were and the
    user's is either as it was or the complete record that the loaded one and the request
    determine; a success means that record is stored, with the answered generation and count,
    and that the expected generation was the current one. *)
Theorem append_compare_and_swap limit s request :
  plain_reachable limit s → append_request_ok request →
  let b := ss_backend s in let u := ap_username request in
  ∃ b' r, append os cfg request b = Some (b', r) ∧
    (∀ v, v ≠ u → selected (fs_ b') v = selected (fs_ b) v) ∧
    (selected (fs_ b') u = selected (fs_ b) u ∨
     ∃ record, appends cfg request (fs_ b) record ∧ stored cfg (fs_ b') u (mkDecoded record HowyPln1)) ∧
    ∀ answer, r = Some (Ok answer) →
      ∃ loaded record, current cfg (fs_ b) u loaded ∧
        from_option (λ d, generation (decoded_record d)) ABSENT_GENERATION loaded
          = ap_expected_generation request ∧
        entries record =
          from_option (λ d, entries (decoded_record d)) [] loaded ++ ap_entries request ∧
        stored cfg (fs_ b') u (mkDecoded record HowyPln1) ∧
        answer = mkAppendResult (generation record) (len (ap_entries request)) (len (entries record)).
Proof.
  intros Hr Hreq b u. destruct (plain_reachable_inv _ _ Hr) as [Hb Hco]. destruct Hok.
  assert (bwp (append os cfg request) (mutation cfg u (appends cfg request (fs_ b)) (append_says request)
    b (ss_handles s)) b) as (b' & r & Hrun & [Hoth Hself] & Hans) by by eapply append_bwp.
  exists b', r. split_and!; try done. intros answer ->.
  destruct Hans as [_ Hans]. destruct (Hans _ eq_refl) as (record & (loaded & Hcur & Hrec) & Hst & ->).
  exists loaded, record. split; [done|]. apply appended_record_entries in Hrec as [Hg He]. done.
Qed.

(** Removing one enrollment is an atomic compare-and-swap too: after any failure or stop the
    user's record is the old one or the complete new one, the others' untouched; a success
    means the expected generation was current and the stored record lost exactly the
    enrollment named, in place and with its identifier gone. *)
Theorem remove_compare_and_swap limit s request :
  plain_reachable limit s → username_wf (rm_username request) →
  let b := ss_backend s in let u := rm_username request in
  ∃ b' r, remove os cfg request b = Some (b', r) ∧
    (∀ v, v ≠ u → selected (fs_ b') v = selected (fs_ b) v) ∧
    (selected (fs_ b') u = selected (fs_ b) u ∨
     ∃ record, removes cfg request (fs_ b) record ∧ stored cfg (fs_ b') u (mkDecoded record HowyPln1)) ∧
    ∀ answer, r = Some (Ok answer) →
      ∃ loaded record before e after, stored cfg (fs_ b) u loaded ∧
        generation (decoded_record loaded) = rm_expected_generation request ∧
        entries (decoded_record loaded) = before ++ e :: after ∧
        enrollment_id e = rm_enrollment_id request ∧ entries record = before ++ after ∧
        rm_enrollment_id request ∉ entry_ids (entries record) ∧
        stored cfg (fs_ b') u (mkDecoded record HowyPln1) ∧
        answer = mkRemoveResult (generation record) (rm_enrollment_id request).
Proof.
  intros Hr Hu b u. destruct (plain_reachable_inv _ _ Hr) as [Hb Hco].
  pose proof (bk_model _ Hok) as Hmodel. destruct Hok.
  assert (bwp (remove os cfg request) (mutation cfg u (removes cfg request (fs_ b)) (remove_says request)
    b (ss_handles s)) b) as (b' & r & Hrun & [Hoth Hself] & Hans) by by eapply remove_bwp.
  exists b', r. split_and!; try done. intros answer ->.
  destruct Hans as [_ Hans]. destruct (Hans _ eq_refl) as (record & (loaded & Hcur & Hg & Hrec) & Hst & ->).
  assert (record_wf (decoded_record loaded)) as (_ & _ & _ & _ & Hnd & _) by by eapply stored_wf.
  destruct (shortened_record_entries _ _ _ _ Hnd Hrec) as (before & e & after & ? & ? & ? & ?).
  exists loaded, record, before, e, after. done.
Qed.


(** A reload that succeeds reports every user with a record file exactly once, sorted by
    name, and nobody else; a record it calls a candidate decodes, with that generation. *)
Theorem reload_reports_records limit s :
  plain_reachable limit s →
  ∃ b' r, reload os cfg (ss_backend s) = Some (b', r) ∧ fs_ b' = fs_ (ss_backend s) ∧
    ∀ answer, r = Some (Ok answer) →
      StronglySorted status_le (re_records answer) ∧ NoDup (os_username <$> re_records answer) ∧
      (∀ u, username_wf u →
         u ∈ os_username <$> re_records answer ↔ selected (fs_ (ss_backend s)) u ≠ None) ∧
      ∀ u g, mkRecordStatus u (OuterCandidate g) ∈ re_records answer →
        ∃ loaded, stored cfg (fs_ (ss_backend s)) u loaded ∧ g = generation (decoded_record loaded).
Proof.
  intros Hr. destruct (plain_reachable_inv _ _ Hr) as [Hb Hco]. destruct Hok.
  assert (bwp (reload os cfg) (query (limits:=pb_cache_limits cfg) (reload_report cfg (fs_ (ss_backend s))) (ss_backend s) (ss_handles s))
    (ss_backend s)) as (b' & r & Hrun & Hfs & Hans) by by eapply reload_bwp.
  exists b', r. split_and!; [done|done|]. intros answer ->. destruct Hans as [_ Hans].
  destruct (Hans _ eq_refl) as (Hsort & Hnd & Hiff & Hall). split_and!; [done|done|done|].
  intros u g Hin. rewrite Forall_forall in Hall. exact (Hall _ Hin).
Qed.
End system.

(** ** Concrete instances *)

Definition alice : CanonicalUsername := mkUsername (bs "alice").

Definition toy_settings : PlaintextSettings :=
  mkPlainSettings 0 (recognizer_model_sha256 sample_record) (mkPlainLimits 10 100000) 100000
    (bs "identity") (mkLimits 2 50000).
Lemma toy_settings_ok : backend_ok toy_settings.
Proof.
  split; [|done|..]; unfold plain_limits_ok, limits_ok; simpl;
    unfold MAX_ENTRIES, MAX_PLAINTEXT_BYTES; unfold_max; lia.
Qed.

(** A directory with alice's record, and a backend opened on it. *)
Definition toy_files : files :=
  {[ filename alice BIN := mkNode (mkStat RegularFile 0 0 33152 0 0 0 0 0 0 1) sample_bytes true ]}.
Definition toy_backend : Backend N :=
  mkBackend (mkDisk toy_files 0%N 0) (mkWorld (mkBudget 1000000 0 ∅) ∅ ∅) cache_new.
Definition toy_system : StoreSys (R:=N) := mkStoreSys toy_backend (λ _, 0) [].

Lemma toy_reachable :
  @plain_reachable toy_sha256 toy_decoders N _ calm_os toy_settings 1000000 toy_system.
Proof.
  apply (reach_start _ toy_files). split_and!; [done|done|done|unfold_max; lia|].
  exists (mkBudget 1000000 0 ∅). done.
Qed.

Definition toy_append : AppendRequest := mkAppend alice 7 [second_entry].
Definition toy_remove : RemoveRequest := mkRemove alice 7 sample_id.
Definition toy_clear : ClearRequest := mkClear alice 7.

Section witnesses.
  #[local] Existing Instance toy_sha256.
  #[local] Existing Instance toy_decoders.
  #[local] Existing Instance toy_sha256_laws.
  #[local] Existing Instance toy_decoders_laws.
  #[local] Existing Instance calm_os_laws.

Definition answer_of {A} (x : option (Backend N * option (bresult A))) : option (option (bresult A)) :=
  snd <$> x.

Lemma toy_append_ok : append_request_ok toy_append.
Proof.
  split_and!; [done|done|]. constructor; [apply second_entry_wf|constructor].
Qed.


Lemma leases_are_of_stored_records_witness :
  ∃ b' loaded, authenticate calm_os toy_settings alice toy_backend = Some (b', Some (Ok 1%positive)) ∧
    stored toy_settings toy_files alice loaded.
Proof.
  destruct (leases_are_of_stored_records calm_os toy_settings toy_settings_ok 1000000 toy_system alice
    toy_reachable eq_refl) as ((b' & r & Hrun & _ & Hr) & _).
  assert (answer_of (authenticate calm_os toy_settings alice toy_backend) = Some (Some (Ok 1%positive)))
    as Ha by (vm_compute; reflexivity).
  change (ss_backend toy_system) with toy_backend in Hrun. rewrite Hrun in Ha. injection Ha as ->.
  destruct (Hr _ eq_refl) as (loaded & _ & Hs & _). exists b', loaded. split; [exact Hrun|exact Hs].
Defined.

Lemma append_compare_and_swap_witness :
  ∃ b' record, append calm_os toy_settings toy_append toy_backend
                 = Some (b', Some (Ok (mkAppendResult 8 1 2))) ∧
    stored toy_settings (d_files (b_disk b')) alice (mkDecoded record HowyPln1).
Proof.
  destruct (append_compare_and_swap calm_os toy_settings toy_settings_ok 1000000 toy_system toy_append
    toy_reachable toy_append_ok) as (b' & r & Hrun & _ & _ & Hr).
  assert (answer_of (append calm_os toy_settings toy_append toy_backend)
    = Some (Some (Ok (mkAppendResult 8 1 2)))) as Ha by (vm_compute; reflexivity).
  change (ss_backend toy_system) with toy_backend in Hrun. rewrite Hrun in Ha. injection Ha as ->.
  destruct (Hr _ eq_refl) as (_ & record & _ & _ & _ & Hs & _). exists b', record. split; [exact Hrun|exact Hs].
Defined.

Lemma remove_compare_and_swap_witness :
  ∃ b' record, remove calm_os toy_settings toy_remove toy_backend
                 = Some (b', Some (Ok (mkRemoveResult 8 sample_id))) ∧
    stored toy_settings (d_files (b_disk b')) alice (mkDecoded record HowyPln1).
Proof.
  destruct (remove_compare_and_swap calm_os toy_settings toy_settings_ok 1000000 toy_system toy_remove
    toy_reachable eq_refl) as (b' & r & Hrun & _ & _ & Hr).
  assert (answer_of (remove calm_os toy_settings toy_remove toy_backend)
    = Some (Some (Ok (mkRemoveResult 8 sample_id)))) as Ha by (vm_compute; reflexivity).
  change (ss_backend toy_system) with toy_backend in Hrun. rewrite Hrun in Ha. injection Ha as ->.
  destruct (Hr _ eq_refl) as (_ & record & _ & _ & _ & _ & _ & _ & _ & _ & _ & Hs & _). exists b', record. split; [exact Hrun|exact Hs].
Defined.


Lemma reload_reports_records_witness :
  ∃ b' loaded, reload calm_os toy_settings toy_backend
      = Some (b', Some (Ok (mkReload Ready [mkRecordStatus alice (OuterCandidate 7)]))) ∧
    stored toy_settings toy_files alice loaded.
Proof.
  destruct (reload_reports_records calm_os toy_settings toy_settings_ok 1000000 toy_system toy_reachable)
    as (b' & r & Hrun & _ & Hr).
  assert (answer_of (reload calm_os toy_settings toy_backend)
    = Some (Some (Ok (mkReload Ready [mkRecordStatus alice (OuterCandidate 7)])))) as Ha
    by (vm_compute; reflexivity).
  change (ss_backend toy_system) with toy_backend in Hrun. rewrite Hrun in Ha. injection Ha as ->.
  destruct (Hr _ eq_refl) as (_ & _ & _ & Hc). destruct (Hc alice 7) as (loaded & Hs & _); [by left|].
  exists b', loaded. split; [exact Hrun|exact Hs].
Defined.
End witnesses.
