(* ===== verification/Provision.v ===== *)
(** * Provisioning contracts: digests, names, units, files

    The leaves of [crates/howy-common/src/provisioning/mod.rs]: lowercase
    hexadecimal digests and byte strings, transaction identifiers and owned
    paths, the observed states of the two systemd units, file and directory
    identities and the tagged frame that binds file metadata to a digest. *)

From S2P Require Import Prelude Bytes Namespace Legacy Cache Paths.

(** ** Constants *)

Definition PROVISIONING_SCHEMA_VERSION : Z := 1.
Definition MODE1_KEY_EPOCH : Z := 1.
Definition MODE1_CREDENTIAL_SOURCE_COMPANION_NAME : bytes := bs "howy.storage.mode1.source".
Definition MODE1_NAMESPACE_PATH : bytes := bs "/etc/howy/models/mode1".
Definition SYSTEMD_CREDENTIAL_PLAINTEXT_BYTES : Z := 32.
Definition MAX_CONFIG_BYTES : Z := 1048576.
Definition MAX_DROPIN_BYTES : Z := 65536.
Definition MAX_JOURNAL_BYTES : Z := 4500000.
Definition MAX_RECEIPT_BYTES : Z := 131072.
Definition MAX_TRANSACTION_ID_BYTES : Z := 64.
Definition MAX_VERIFIER_RESULT_BYTES : Z := 16384.
Definition MAX_TRANSACTION_OWNED_PATHS : Z := 32.
Definition MAX_NAMESPACE_ENTRIES : Z := 1000.
Definition MAX_NAMESPACE_CIPHERTEXT_BYTES : Z := 2621440.
Definition MAX_NAMESPACE_TOTAL_BYTES : Z := 1073741824.

Definition HOWY_CONFIG_DIRECTORY : bytes := bs "/etc/howy".
Definition HOWY_MODELS_DIRECTORY : bytes := bs "/etc/howy/models".
Definition SYSTEMD_SERVICE_DROPIN_DIRECTORY : bytes := bs "/etc/systemd/system/howy.service.d".
Definition HOWY_STATE_DIRECTORY : bytes := bs "/var/lib/howy".
Definition SECURITY_STATE_DIRECTORY : bytes := bs "/var/lib/howy/security-state".
Definition SECURITY_JOURNAL_DIRECTORY : bytes := bs "/var/lib".
Definition SECURITY_UNADOPTED_DIRECTORY : bytes := bs "/var/lib/howy/security-state/unadopted".
Definition SECURITY_TRANSACTION_GUARD_PATH : bytes := bs "/var/lib/howy-security-transaction.guard".
Definition PACKAGE_BOOTSTRAP_MARKER_PATH : bytes := bs "/var/lib/howy-package-bootstrap.complete".
Definition MODE1_DROPIN_PATH : bytes :=
  bs "/etc/systemd/system/howy.service.d/60-howy-mode1-credential.conf".
Definition BASE_SERVICE_UNIT_PATH : bytes := bs "/usr/lib/systemd/system/howy.service".
Definition BASE_SOCKET_UNIT_PATH : bytes := bs "/usr/lib/systemd/system/howy.socket".

(** Modes [0o700], [0o755], [0o600], [0o644] and the masks [0o7777], [0o022]. *)
Definition mode_700 : Z := 448.
Definition mode_755 : Z := 493.
Definition mode_600 : Z := 384.
Definition mode_644 : Z := 420.
Definition mode_7777 : Z := 4095.
Definition mode_022 : Z := 18.

Definition REQUIRED_SECURITY_DIRECTORIES : list (bytes * Z) :=
  [ (HOWY_CONFIG_DIRECTORY, mode_700);
    (HOWY_MODELS_DIRECTORY, mode_700);
    (MODE1_NAMESPACE_PATH, mode_700);
    (MODE1_CREDENTIAL_DIRECTORY, mode_700);
    (SYSTEMD_SERVICE_DROPIN_DIRECTORY, mode_755);
    (HOWY_STATE_DIRECTORY, mode_700);
    (SECURITY_STATE_DIRECTORY, mode_700);
    (SECURITY_UNADOPTED_DIRECTORY, mode_700) ].

Definition SYSTEMD_CREDENTIAL_ENCRYPTED_SIZE_MAX : Z := 1048576 + 131072.
Definition div_ceil (a b : Z) : Z := (a + b - 1) / b.
Definition SYSTEMD_CREDENTIAL_TEXT_SIZE_MAX : Z :=
  div_ceil SYSTEMD_CREDENTIAL_ENCRYPTED_SIZE_MAX 3 * 4
  + 2 * div_ceil (div_ceil SYSTEMD_CREDENTIAL_ENCRYPTED_SIZE_MAX 3 * 4) 79 + 2.

Definition SHA256_HEX_BYTES : Z := 64.
Definition FILE_METADATA_DOMAIN : bytes := bs "HOWFILEMETADATA-v1" ++ [Byte.x00].

(** A bit outside [mask] is set: [value & !mask != 0] on [u32]. *)
Definition bits_outside (mask value : Z) : bool := negb (Z.ldiff value mask =? 0).

(** ** Hexadecimal *)

Definition HEX : bytes := bs "0123456789abcdef".
Definition hex_char (n : Z) : byte := nth (Z.to_nat n) HEX Byte.x00.

Fixpoint hex_encode (b : bytes) : bytes :=
  match b with
  | [] => []
  | x :: rest =>
      hex_char (Z.shiftr (byte.unsigned x) 4) :: hex_char (Z.land (byte.unsigned x) 15)
      :: hex_encode rest
  end.

(** [byte.is_ascii_digit() || matches!(byte, b'a'..=b'f')] *)
Definition is_lower_hex_byte (b : byte) : bool := is_ascii_digit b || byte_in 97 102 b.
Definition is_lower_hex (value : bytes) (exact_len : Z) : bool :=
  (len value =? exact_len) && forallb is_lower_hex_byte value.

Definition hex_value (b : byte) : pcresult Z :=
  if byte_in 48 57 b then Ok (byte.unsigned b - 48)
  else if byte_in 97 102 b then Ok (byte.unsigned b - 97 + 10)
  else Err (InvalidSchema "hex bytes").

(** [chunks_exact(2)] and [collect] into a [Result]. *)
Fixpoint hex_pairs (value : bytes) : pcresult bytes :=
  match value with
  | a :: b :: rest =>
      high ← hex_value a;
      low ← hex_value b;
      tail ← hex_pairs rest;
      Ok (byte.of_Z (Z.lor (Z.shiftl high 4) low) :: tail)
  | _ => Ok []
  end.

Definition hex_decode (value : bytes) : pcresult bytes :=
  if negb (len value mod 2 =? 0) || negb (is_lower_hex value (len value))
  then Err (InvalidSchema "hex bytes")
  else hex_pairs value.

(** [Sha256Digest]: the hexadecimal text. *)
Abbreviation Sha256Digest := (bytes) (only parsing).

Definition digest_from_bytes `{Sha256} (b : bytes) : Sha256Digest := hex_encode (sha256 b).

Definition digest_validate (d : Sha256Digest) : pcresult () :=
  if is_lower_hex d SHA256_HEX_BYTES then Ok () else Err (InvalidSchema "sha256").

(** [Sha256Digest::parse], which deserialization runs too. *)
Definition digest_parse (value : bytes) : pcresult Sha256Digest :=
  if is_lower_hex value SHA256_HEX_BYTES then Ok value else Err (InvalidSchema "sha256").

(** [ExactBytes] *)
Record ExactBytes := mkExactBytes { eb_text : bytes }.
#[export] Instance ExactBytes_eq_dec : EqDecision ExactBytes.
Proof. solve_decision. Defined.

Definition exact_from_bytes (b : bytes) : ExactBytes := mkExactBytes (hex_encode b).
Definition exact_decode (e : ExactBytes) : pcresult bytes := hex_decode (eb_text e).
Definition exact_byte_len (e : ExactBytes) : Z := len (eb_text e) / 2.
Definition exact_validate_max (e : ExactBytes) (maximum : Z) (field : string) : pcresult () :=
  if negb (len (eb_text e) mod 2 =? 0) || negb (is_lower_hex (eb_text e) (len (eb_text e)))
  then Err (InvalidSchema field)
  else if maximum <? exact_byte_len e then Err (LimitExceeded field)
  else Ok ().

(** ** Names, identifiers, paths *)

Definition validate_safe_name (value : bytes) (maximum : Z) (field : string) : pcresult () :=
  if bool_decide (value = []) || (maximum <? len value) || negb (forallb is_name_byte value)
  then Err (InvalidSchema field)
  else Ok ().

(** [str::strip_prefix] and [str::starts_with], [str::ends_with] *)
Definition str_strip_prefix (prefix value : bytes) : option bytes :=
  if bool_decide (take (length prefix) value = prefix) then Some (drop (length prefix) value)
  else None.
Definition str_starts_with (prefix value : bytes) : bool :=
  bool_decide (take (length prefix) value = prefix).
Definition str_ends_with (suffix value : bytes) : bool :=
  bool_decide ((length suffix <= length value)%nat
               ∧ drop (length value - length suffix) value = suffix).

Definition validate_transaction_id_v1 (value : bytes) (field : string) : pcresult () :=
  match str_strip_prefix (bs "txn-") value with
  | None => Err (InvalidSchema field)
  | Some suffix =>
      if (MAX_TRANSACTION_ID_BYTES <? len value) || negb (len suffix =? 32)
         || negb (forallb is_lower_hex_byte suffix)
      then Err (InvalidSchema field)
      else Ok ()
  end.

Definition validate_bounded_printable (value : bytes) (maximum : Z) (field : string)
    : pcresult () :=
  if bool_decide (value = []) || (maximum <? len value) || negb (forallb (byte_in 32 126) value)
  then Err (InvalidSchema field)
  else Ok ().

Definition validate_transient_unit (value : bytes) : pcresult () :=
  _ ← validate_safe_name value 128 "transient unit";
  if negb (str_starts_with (bs "howy-readiness-") value)
     || negb (str_ends_with (bs ".service") value)
  then Err (InvalidSchema "transient unit")
  else Ok ().

(** The loop of [validate_paths], with the previous path. *)
Fixpoint validate_paths_from (previous : option bytes) (paths : list bytes) : pcresult () :=
  match paths with
  | [] => Ok ()
  | path :: rest =>
      _ ← validate_absolute_path path "transaction-owned path";
      if match previous with Some value => bytes_leb path value | None => false end
      then Err (InvalidSchema "transaction-owned path ordering")
      else validate_paths_from (Some path) rest
  end.

Definition validate_paths (paths : list bytes) : pcresult () :=
  if bool_decide (paths = []) || (MAX_TRANSACTION_OWNED_PATHS <? len paths)
  then Err (LimitExceeded "transaction-owned paths")
  else validate_paths_from None paths.

(** [slice::binary_search] on the owned paths, which are strictly sorted
    wherever it is called ([validate_paths] has run): membership. *)
Definition owned_path (paths : list bytes) (path : bytes) : bool := bool_decide (path ∈ paths).

Definition validate_owned_journal_staging_path (paths : list bytes) (journal_staging_path : bytes)
    : pcresult () :=
  if negb (owned_path paths journal_staging_path)
  then Err (InvalidSchema "transaction-owned journal staging path")
  else Ok ().

(** ** Units *)

Inductive UnitLoadState := ULoaded | UNotFound | ULoadError | UBadSetting | ULoadMasked.
Inductive UnitActiveState :=
| UActive | UInactive | UActivating | UDeactivating | UReloading | UActiveFailed | UMaintenance.
Inductive UnitSubState :=
| SubRunning | SubDead | SubFailed | SubStartPre | SubStart | SubStartPost | SubStop
| SubStopSigterm | SubStopSigkill | SubStopPost | SubReload | SubAutoRestart | SubListening
| SubOther.
Inductive UnitFileState :=
| FsEnabled | FsEnabledRuntime | FsLinked | FsLinkedRuntime | FsAlias | FsMasked
| FsMaskedRuntime | FsStatic | FsDisabled | FsIndirect | FsGenerated | FsTransient | FsBad.
Inductive UnitKind := UkService | UkSocket.
Inductive StableRollbackTarget := ActiveRunning | ActiveListening | InactiveDead.

#[export] Instance UnitLoadState_eq_dec : EqDecision UnitLoadState.
Proof. solve_decision. Defined.
#[export] Instance UnitActiveState_eq_dec : EqDecision UnitActiveState.
Proof. solve_decision. Defined.
#[export] Instance UnitSubState_eq_dec : EqDecision UnitSubState.
Proof. solve_decision. Defined.
#[export] Instance UnitFileState_eq_dec : EqDecision UnitFileState.
Proof. solve_decision. Defined.
#[export] Instance UnitKind_eq_dec : EqDecision UnitKind.
Proof. solve_decision. Defined.
#[export] Instance StableRollbackTarget_eq_dec : EqDecision StableRollbackTarget.
Proof. solve_decision. Defined.

Definition is_masked (s : UnitFileState) : bool :=
  match s with FsMasked | FsMaskedRuntime => true | _ => false end.
Definition is_admissible (s : UnitFileState) : bool :=
  negb (is_masked s) && negb (match s with FsBad => true | _ => false end).

Record StableUnitState := mkStableUnit {
  su_unit_kind : UnitKind;
  su_load_state : UnitLoadState;
  su_active_state : UnitActiveState;
  su_sub_state : UnitSubState;
  su_unit_file_state : UnitFileState;
}.
#[export] Instance StableUnitState_eq_dec : EqDecision StableUnitState.
Proof. solve_decision. Defined.

Definition rollback_target (u : StableUnitState) : option StableRollbackTarget :=
  match su_unit_kind u, su_active_state u, su_sub_state u with
  | UkService, UActive, SubRunning => Some ActiveRunning
  | UkSocket, UActive, (SubListening | SubRunning) => Some ActiveListening
  | _, UInactive, SubDead => Some InactiveDead
  | _, _, _ => None
  end.

Definition stable_unit_validate (u : StableUnitState) : pcresult () :=
  if negb (bool_decide (su_load_state u = ULoaded)) || negb (is_admissible (su_unit_file_state u))
     || bool_decide (rollback_target u = None)
  then Err (InvalidSchema "stable unit state")
  else Ok ().

Definition disabled_post_provision_unit_targets (service socket : StableUnitState)
    : pcresult (StableUnitState * StableUnitState) :=
  _ ← stable_unit_validate service;
  _ ← stable_unit_validate socket;
  if negb (bool_decide (su_unit_kind service = UkService))
     || negb (bool_decide (su_unit_kind socket = UkSocket))
  then Err (InvalidSchema "disabled post-provision unit kind")
  else
    let service_target :=
      mkStableUnit (su_unit_kind service) (su_load_state service) UInactive SubDead
        (su_unit_file_state service) in
    _ ← stable_unit_validate service_target;
    Ok (service_target, socket).

Definition validate_prior_daemon_invocation (service : StableUnitState)
    (invocation_id : option bytes) : pcresult () :=
  let service_was_active := bool_decide (rollback_target service = Some ActiveRunning) in
  if negb (Bool.eqb service_was_active (bool_decide (is_Some invocation_id)))
  then Err (InvalidSchema "prior daemon invocation presence")
  else if match invocation_id with Some value => negb (is_lower_hex value 64) | None => false end
  then Err (InvalidSchema "prior daemon invocation id")
  else Ok ().

Record UnitObservation := mkUnitObservation {
  uo_unit_kind : UnitKind;
  uo_load_state : UnitLoadState;
  uo_active_state : UnitActiveState;
  uo_sub_state : UnitSubState;
  uo_unit_file_state : UnitFileState;
  uo_has_queued_job : bool;
}.
#[export] Instance UnitObservation_eq_dec : EqDecision UnitObservation.
Proof. solve_decision. Defined.

Inductive UnitAdmissibility :=
| Settle
| RefuseMasked
| RefuseFailed
| RefuseUnstable
| UnitAdmissible (rollback_target : StableRollbackTarget) (mutate_enablement : bool).

(** [matches!(active_state, Activating | Deactivating | Reloading)] *)
Definition transitional (s : UnitActiveState) : bool :=
  match s with UActivating | UDeactivating | UReloading => true | _ => false end.

Definition classify_unit_admissibility (unit : UnitObservation) : UnitAdmissibility :=
  if bool_decide (uo_load_state unit = ULoadMasked) || is_masked (uo_unit_file_state unit)
  then RefuseMasked
  else if bool_decide (uo_active_state unit = UActiveFailed)
          || bool_decide (uo_sub_state unit = SubFailed)
  then RefuseFailed
  else if uo_has_queued_job unit || transitional (uo_active_state unit) then Settle
  else if negb (bool_decide (uo_load_state unit = ULoaded))
          || negb (is_admissible (uo_unit_file_state unit))
  then RefuseUnstable
  else
    match uo_unit_kind unit, uo_active_state unit, uo_sub_state unit with
    | UkService, UActive, SubRunning => UnitAdmissible ActiveRunning false
    | UkSocket, UActive, (SubListening | SubRunning) => UnitAdmissible ActiveListening false
    | _, UInactive, SubDead => UnitAdmissible InactiveDead false
    | _, _, _ => RefuseUnstable
    end.

(** ** File and directory identities *)

Inductive FileObjectType := FoRegularFile | FoDirectory | FoSymlink | FoOther.
#[export] Instance FileObjectType_eq_dec : EqDecision FileObjectType.
Proof. solve_decision. Defined.
Inductive FileLinkPolicy := ExactlyOne.
#[export] Instance FileLinkPolicy_eq_dec : EqDecision FileLinkPolicy.
Proof. solve_decision. Defined.

Record FileTimestampV1 := mkFileTimestamp { ft_seconds : Z; ft_nanoseconds : Z }.
#[export] Instance FileTimestampV1_eq_dec : EqDecision FileTimestampV1.
Proof. solve_decision. Defined.
Definition timestamp_validate (t : FileTimestampV1) : pcresult () :=
  if 999999999 <? ft_nanoseconds t then Err (InvalidSchema "file timestamp") else Ok ().

Record RestorableFileTimestampsV1 := mkRestorable {
  rt_access : FileTimestampV1;
  rt_modification : FileTimestampV1;
}.
#[export] Instance RestorableFileTimestampsV1_eq_dec : EqDecision RestorableFileTimestampsV1.
Proof. solve_decision. Defined.

Record FileMetadataSnapshotV1 := mkFileMetadata {
  fm_schema_version : Z;
  fm_object_type : FileObjectType;
  fm_uid : Z;
  fm_gid : Z;
  fm_permissions : Z;
  fm_link_count : Z;
  fm_link_policy : FileLinkPolicy;
  fm_byte_length : Z;
  fm_restorable_timestamps : RestorableFileTimestampsV1;
}.
#[export] Instance FileMetadataSnapshotV1_eq_dec : EqDecision FileMetadataSnapshotV1.
Proof. solve_decision. Defined.

(** [frame] appends a tag, a little-endian length and the value. The length of
    a slice always fits [u64]. *)
Definition frame (tag : Z) (value : bytes) : bytes :=
  byte.of_Z tag :: le64 (len value) ++ value.
Definition frame_u64 (tag value : Z) : bytes := frame tag (le64 value).

Definition file_object_type_code (t : FileObjectType) : Z :=
  match t with FoRegularFile => 1 | FoDirectory => 2 | FoSymlink => 3 | FoOther => 4 end.
Definition file_link_policy_code (p : FileLinkPolicy) : Z := match p with ExactlyOne => 1 end.

Definition metadata_validate (m : FileMetadataSnapshotV1) : pcresult () :=
  if negb (fm_schema_version m =? PROVISIONING_SCHEMA_VERSION)
     || negb (bool_decide (fm_object_type m = FoRegularFile))
     || bits_outside mode_7777 (fm_permissions m)
     || negb (bool_decide (fm_link_policy m = ExactlyOne))
     || negb (fm_link_count m =? 1)
  then Err (InvalidSchema "file metadata snapshot")
  else
    _ ← timestamp_validate (rt_access (fm_restorable_timestamps m));
    timestamp_validate (rt_modification (fm_restorable_timestamps m)).

(** [FileMetadataSnapshotV1::deterministic_bytes]; an [i64] is written in two's
    complement. *)
Definition metadata_frames (m : FileMetadataSnapshotV1) : bytes :=
  let t := fm_restorable_timestamps m in
  FILE_METADATA_DOMAIN
  ++ frame 1 (le16 (fm_schema_version m))
  ++ frame 2 [byte.of_Z (file_object_type_code (fm_object_type m))]
  ++ frame 3 (le32 (fm_uid m))
  ++ frame 4 (le32 (fm_gid m))
  ++ frame 5 (le32 (fm_permissions m))
  ++ frame_u64 6 (fm_link_count m)
  ++ frame 7 [byte.of_Z (file_link_policy_code (fm_link_policy m))]
  ++ frame_u64 8 (fm_byte_length m)
  ++ frame 9 (le64 (ft_seconds (rt_access t) mod 2 ^ 64))
  ++ frame 10 (le32 (ft_nanoseconds (rt_access t)))
  ++ frame 11 (le64 (ft_seconds (rt_modification t) mod 2 ^ 64))
  ++ frame 12 (le32 (ft_nanoseconds (rt_modification t))).
Definition metadata_deterministic_bytes (m : FileMetadataSnapshotV1) : pcresult bytes :=
  _ ← metadata_validate m;
  Ok (metadata_frames m).
Definition metadata_deterministic_sha256 `{Sha256} (m : FileMetadataSnapshotV1)
    : pcresult Sha256Digest :=
  digest_from_bytes <$> metadata_deterministic_bytes m.

Record ExactFileSnapshot := mkExactFileSnapshot {
  efs_bytes : ExactBytes;
  efs_metadata : FileMetadataSnapshotV1;
  efs_metadata_sha256 : Sha256Digest;
}.
#[export] Instance ExactFileSnapshot_eq_dec : EqDecision ExactFileSnapshot.
Proof. solve_decision. Defined.

Definition snapshot_new `{Sha256} (b : bytes) (metadata : FileMetadataSnapshotV1)
    : pcresult ExactFileSnapshot :=
  _ ← metadata_validate metadata;
  if negb (fm_byte_length metadata =? len b)
  then Err (InvalidSchema "file snapshot byte length")
  else
    metadata_sha256 ← metadata_deterministic_sha256 metadata;
    Ok (mkExactFileSnapshot (exact_from_bytes b) metadata metadata_sha256).

Definition snapshot_validate `{Sha256} (s : ExactFileSnapshot) (maximum : Z) (field : string)
    : pcresult () :=
  _ ← exact_validate_max (efs_bytes s) maximum field;
  _ ← metadata_validate (efs_metadata s);
  if negb (fm_byte_length (efs_metadata s) =? exact_byte_len (efs_bytes s))
  then Err (InvalidSchema "file snapshot metadata binding")
  else
    digest ← metadata_deterministic_sha256 (efs_metadata s);
    if negb (bool_decide (efs_metadata_sha256 s = digest))
    then Err (InvalidSchema "file snapshot metadata binding")
    else digest_validate (efs_metadata_sha256 s).

(** [RollbackFileReconstructionV1] *)
Record RollbackFileReconstructionV1 := mkReconstruction {
  rf_bytes : bytes;
  rf_metadata : FileMetadataSnapshotV1;
}.
Definition snapshot_reconstruct `{Sha256} (s : ExactFileSnapshot) (maximum : Z)
    : pcresult RollbackFileReconstructionV1 :=
  _ ← snapshot_validate s maximum "file snapshot bytes";
  b ← exact_decode (efs_bytes s);
  Ok (mkReconstruction b (efs_metadata s)).

Record AtomicFileIdentityV1 := mkAtomicFileIdentity {
  af_device_id : Z;
  af_inode : Z;
  af_object_type : FileObjectType;
  af_uid : Z;
  af_gid : Z;
  af_permissions : Z;
  af_link_count : Z;
  af_byte_length : Z;
  af_sha256 : Sha256Digest;
}.
#[export] Instance AtomicFileIdentityV1_eq_dec : EqDecision AtomicFileIdentityV1.
Proof. solve_decision. Defined.

Definition atomic_file_validate (f : AtomicFileIdentityV1) : pcresult () :=
  if (af_device_id f =? 0) || (af_inode f =? 0)
     || negb (bool_decide (af_object_type f = FoRegularFile))
     || bits_outside mode_7777 (af_permissions f)
     || negb (af_link_count f =? 1)
     || (MAX_JOURNAL_BYTES <? af_byte_length f)
  then Err (InvalidSchema "atomic file identity")
  else digest_validate (af_sha256 f).

Record DirectoryIdentityV1 := mkDirectoryIdentity {
  di_path : bytes;
  di_object_type : FileObjectType;
  di_device_id : Z;
  di_inode : Z;
  di_uid : Z;
  di_gid : Z;
  di_permissions : Z;
  di_link_count : Z;
}.
#[export] Instance DirectoryIdentityV1_eq_dec : EqDecision DirectoryIdentityV1.
Proof. solve_decision. Defined.

Definition directory_validate_shape (d : DirectoryIdentityV1) : pcresult () :=
  _ ← validate_absolute_path (di_path d) "credential directory path";
  if (di_device_id d =? 0) || (di_inode d =? 0) || bits_outside mode_7777 (di_permissions d)
     || (di_link_count d =? 0)
  then Err (InvalidSchema "credential directory identity")
  else Ok ().

Definition directory_validate_expected (d : DirectoryIdentityV1) : pcresult () :=
  _ ← directory_validate_shape d;
  if negb (bool_decide (di_path d = MODE1_CREDENTIAL_DIRECTORY))
     || negb (bool_decide (di_object_type d = FoDirectory))
  then Err (InvalidSchema "credential directory identity")
  else Ok ().
