(* ===== verification/ProvisionAtomic.v ===== *)
(** * Atomic writes, the transaction guard, required directories

    From [crates/howy-common/src/provisioning/mod.rs]: canonical staging
    paths, the write plan, its observation and the record that journals carry
    for each write, the persistent guard file, and the durable records of the
    required directories. [serde_json] is a parameter. *)

From stdpp Require Import sorting.
From S2P Require Import Prelude Bytes Namespace Legacy Cache Config Paths Provision.

(** ** [serde_json] *)

(** [serde_json::to_vec] and [serde_json::from_slice] of a type. *)
Class SerdeJson (A : Type) := {
  to_vec : A → option bytes;
  from_slice : bytes → option A;
}.

Section json.
  Context {A : Type} `{SerdeJson A}.

Definition parse_bounded_json (b : bytes) (maximum : Z) (field : string) : pcresult A :=
  if maximum <? len b then Err (LimitExceeded field) else ok_or (from_slice b) InvalidJson.

Definition canonical_json (value : A) (maximum : Z) (field : string) : pcresult bytes :=
  b ← ok_or (to_vec value) InvalidJson;
  if maximum <? len b then Err (LimitExceeded field) else Ok b.
End json.

(** ** [Path::parent] as a string *)

(** Trailing pieces that are no components are trimmed. *)
Fixpoint trim_pieces (pieces : list bytes) : list bytes :=
  match pieces with
  | [] => []
  | piece :: rest =>
      match trim_pieces rest with
      | [] => if bool_decide (piece_component piece = None) then [] else [piece]
      | trimmed => piece :: trimmed
      end
  end.

(** The pieces before the body: the root of an absolute path, or a leading [.]. *)
Definition before_body (p : bytes) : nat :=
  if is_absolute p then 1%nat
  else match split_slash p with first :: _ => if bool_decide (first = dot) then 1%nat else 0%nat
       | [] => 0%nat end.

Definition render_path (head body : list bytes) : bytes :=
  match head, body with
  | [[]], [] => [slash]
  | _, _ => join_slash (head ++ body)
  end.

Definition parent_path (p : bytes) : option bytes :=
  match parent_components p with
  | None => None
  | Some _ =>
      let pieces := split_slash p in
      let head := take (before_body p) pieces in
      let body := trim_pieces (drop (before_body p) pieces) in
      if bool_decide (body = []) then Some [] else
        Some (render_path head (trim_pieces (removelast body)))
  end.

(** ** Staging paths *)

(** The basename rules of [canonical_atomic_staging_path]. *)
Definition stage_name (transaction_id basename : bytes) (bytes_sha256 : Sha256Digest) : bytes :=
  bs ".howy-" ++ transaction_id ++ bs "-" ++ basename ++ bs "-" ++ bytes_sha256 ++ bs ".stage".

Definition canonical_atomic_staging_path (transaction_id target_path : bytes)
    (bytes_sha256 : Sha256Digest) : pcresult bytes :=
  _ ← validate_transaction_id_v1 transaction_id "atomic transaction id";
  _ ← validate_absolute_path target_path "atomic target path";
  _ ← digest_validate bytes_sha256;
  parent ← ok_or (parent_path target_path) (InvalidSchema "atomic target parent");
  basename ← ok_or (file_name target_path) (InvalidSchema "atomic target basename");
  if bool_decide (basename = []) || (128 <? len basename) || negb (forallb is_name_byte basename)
  then Err (InvalidSchema "atomic target basename")
  else
    let name := stage_name transaction_id basename bytes_sha256 in
    if MAX_NAMESPACE_NAME_BYTES <? len name
    then Err (LimitExceeded "atomic staging basename")
    else Ok (path_join parent name).

Definition canonical_journal_staging_path (transaction_id : bytes) : pcresult bytes :=
  _ ← validate_transaction_id_v1 transaction_id "journal transaction id";
  Ok (SECURITY_JOURNAL_DIRECTORY ++ bs "/.howy-" ++ transaction_id
      ++ bs "-transaction-v1.json-journal.stage").

Definition validate_journal_staging_path (transaction_id path : bytes) : pcresult () :=
  expected ← canonical_journal_staging_path transaction_id;
  if negb (bool_decide (path = expected))
  then Err (InvalidSchema "journal staging path")
  else Ok ().

(** ** The transaction guard *)

Record TransactionGuardV1 := mkTransactionGuard {
  tg_schema_version : Z;
  tg_transaction_id : bytes;
}.
#[export] Instance TransactionGuardV1_eq_dec : EqDecision TransactionGuardV1.
Proof. solve_decision. Defined.

Definition guard_validate (g : TransactionGuardV1) : pcresult () :=
  if negb (tg_schema_version g =? PROVISIONING_SCHEMA_VERSION)
  then Err (InvalidSchema "transaction guard version")
  else validate_transaction_id_v1 (tg_transaction_id g) "transaction guard id".

Definition guard_new (transaction_id : bytes) : pcresult TransactionGuardV1 :=
  let guard := mkTransactionGuard PROVISIONING_SCHEMA_VERSION transaction_id in
  _ ← guard_validate guard;
  Ok guard.

Record TransactionGuardIdentityV1 := mkGuardIdentity {
  tgi_content : TransactionGuardV1;
  tgi_file : AtomicFileIdentityV1;
}.
#[export] Instance TransactionGuardIdentityV1_eq_dec : EqDecision TransactionGuardIdentityV1.
Proof. solve_decision. Defined.

Section guard.
  Context `{Sha256} `{SerdeJson TransactionGuardV1}.

Definition guard_parse (b : bytes) : pcresult TransactionGuardV1 :=
  value ← parse_bounded_json b 256 "transaction guard bytes";
  _ ← guard_validate value;
  Ok value.

Definition guard_deterministic_bytes (g : TransactionGuardV1) : pcresult bytes :=
  _ ← guard_validate g;
  canonical_json g 256 "transaction guard bytes".

Definition guard_identity_validate (g : TransactionGuardIdentityV1) (transaction_id : bytes)
    : pcresult () :=
  _ ← guard_validate (tgi_content g);
  _ ← atomic_file_validate (tgi_file g);
  b ← guard_deterministic_bytes (tgi_content g);
  if negb (bool_decide (tg_transaction_id (tgi_content g) = transaction_id))
     || negb (af_uid (tgi_file g) =? 0) || negb (af_gid (tgi_file g) =? 0)
     || negb (af_permissions (tgi_file g) =? mode_600)
     || negb (af_byte_length (tgi_file g) =? len b)
     || negb (bool_decide (af_sha256 (tgi_file g) = digest_from_bytes b))
  then Err (InvalidSchema "transaction guard identity")
  else Ok ().

Definition guard_identity_new (transaction_id : bytes) (file : AtomicFileIdentityV1)
    : pcresult TransactionGuardIdentityV1 :=
  content ← guard_new transaction_id;
  let identity := mkGuardIdentity content file in
  _ ← guard_identity_validate identity transaction_id;
  Ok identity.

Definition validate_journal_guard (transaction_id : bytes) (required : bool)
    (guard : option TransactionGuardIdentityV1) : pcresult () :=
  if negb (Bool.eqb required (bool_decide (is_Some guard)))
  then Err (InvalidSchema "journal guard presence")
  else match guard with
       | Some guard => guard_identity_validate guard transaction_id
       | None => Ok ()
       end.
End guard.

Definition validate_guard_transition (current next : option TransactionGuardIdentityV1)
    (same_phase : bool) : bool :=
  match current, next with
  | None, None | Some _, None => bool_decide (current = next)
  | None, Some _ => true
  | Some l, Some r => bool_decide (l = r) || same_phase
  end.

(** ** Write plans *)

Inductive AtomicExpectedTargetV1 := TargetAbsent | TargetPresent (identity : AtomicFileIdentityV1).
#[export] Instance AtomicExpectedTargetV1_eq_dec : EqDecision AtomicExpectedTargetV1.
Proof. solve_decision. Defined.
Inductive AtomicWriteKindV1 := NoReplace | Exchange.
#[export] Instance AtomicWriteKindV1_eq_dec : EqDecision AtomicWriteKindV1.
Proof. solve_decision. Defined.

Record AtomicWritePlanV1 := mkPlan {
  pl_schema_version : Z;
  pl_transaction_id : bytes;
  pl_target_path : bytes;
  pl_parent_directory : DirectoryIdentityV1;
  pl_expected_target : AtomicExpectedTargetV1;
  pl_staging_path : bytes;
  pl_backup_path : option bytes;
  pl_uid : Z;
  pl_gid : Z;
  pl_permissions : Z;
  pl_timestamps : option RestorableFileTimestampsV1;
  pl_bytes_sha256 : Sha256Digest;
  pl_byte_length : Z;
  pl_operation : AtomicWriteKindV1;
}.
#[export] Instance AtomicWritePlanV1_eq_dec : EqDecision AtomicWritePlanV1.
Proof. solve_decision. Defined.

(** The match of [AtomicWritePlanV1::validate] on operation, target and backup. *)
Definition plan_target_validate (p : AtomicWritePlanV1) : pcresult () :=
  match pl_operation p, pl_expected_target p, pl_backup_path p with
  | NoReplace, TargetAbsent, None => Ok ()
  | Exchange, TargetPresent identity, Some backup =>
      _ ← atomic_file_validate identity;
      if negb (af_uid identity =? pl_uid p) || negb (af_gid identity =? pl_gid p)
         || negb (Z.land (af_permissions identity) mode_022 =? 0)
         || negb (bool_decide (backup = pl_staging_path p))
      then Err (InvalidSchema "atomic exchange backup path")
      else Ok ()
  | _, _, _ => Err (InvalidSchema "atomic operation target state")
  end.

Definition plan_validate (p : AtomicWritePlanV1) : pcresult () :=
  if negb (pl_schema_version p =? PROVISIONING_SCHEMA_VERSION)
     || bits_outside mode_7777 (pl_permissions p)
     || (MAX_JOURNAL_BYTES <? pl_byte_length p)
  then Err (InvalidSchema "atomic write plan")
  else
    _ ← validate_transaction_id_v1 (pl_transaction_id p) "atomic transaction id";
    _ ← validate_absolute_path (pl_target_path p) "atomic target path";
    _ ← directory_validate_shape (pl_parent_directory p);
    if negb (bool_decide (parent_components (pl_target_path p)
                          = Some (components (di_path (pl_parent_directory p)))))
    then Err (InvalidSchema "atomic target parent")
    else
      _ ← plan_target_validate p;
      _ ← match pl_timestamps p with
          | Some t => _ ← timestamp_validate (rt_access t); timestamp_validate (rt_modification t)
          | None => Ok ()
          end;
      _ ← digest_validate (pl_bytes_sha256 p);
      expected_stage ←
        canonical_atomic_staging_path (pl_transaction_id p) (pl_target_path p) (pl_bytes_sha256 p);
      if negb (bool_decide (pl_staging_path p = expected_stage))
         || bool_decide (pl_staging_path p = pl_target_path p)
         || negb (bool_decide (parent_components (pl_staging_path p)
                               = Some (components (di_path (pl_parent_directory p)))))
      then Err (InvalidSchema "atomic staging path")
      else Ok ().

Definition plan_new `{Sha256} (transaction_id target_path : bytes)
    (parent_directory : DirectoryIdentityV1) (expected_target : AtomicExpectedTargetV1)
    (uid gid permissions : Z) (timestamps : option RestorableFileTimestampsV1) (b : bytes)
    (operation : AtomicWriteKindV1) : pcresult AtomicWritePlanV1 :=
  let bytes_sha256 := digest_from_bytes b in
  staging_path ← canonical_atomic_staging_path transaction_id target_path bytes_sha256;
  let backup_path := if bool_decide (operation = Exchange) then Some staging_path else None in
  let plan := mkPlan PROVISIONING_SCHEMA_VERSION transaction_id target_path parent_directory
                expected_target staging_path backup_path uid gid permissions timestamps
                bytes_sha256 (len b) operation in
  _ ← plan_validate plan;
  Ok plan.

Record AtomicWriteObservationV1 := mkWriteObservation {
  wo_target : AtomicFileIdentityV1;
  wo_backup : option AtomicFileIdentityV1;
}.
#[export] Instance AtomicWriteObservationV1_eq_dec : EqDecision AtomicWriteObservationV1.
Proof. solve_decision. Defined.

Definition validate_for_plan (o : AtomicWriteObservationV1) (plan : AtomicWritePlanV1)
    : pcresult () :=
  _ ← plan_validate plan;
  _ ← atomic_file_validate (wo_target o);
  if negb (af_uid (wo_target o) =? pl_uid plan) || negb (af_gid (wo_target o) =? pl_gid plan)
     || negb (af_permissions (wo_target o) =? pl_permissions plan)
     || negb (af_byte_length (wo_target o) =? pl_byte_length plan)
     || negb (bool_decide (af_sha256 (wo_target o) = pl_bytes_sha256 plan))
  then Err (InvalidSchema "atomic committed target")
  else
    match pl_expected_target plan, wo_backup o with
    | TargetAbsent, None => Ok ()
    | TargetPresent expected, Some backup =>
        if bool_decide (expected = backup) then atomic_file_validate backup
        else Err (InvalidSchema "atomic committed backup")
    | _, _ => Err (InvalidSchema "atomic committed backup")
    end.

Inductive AtomicWriteStateV1 :=
| Planned
| Staged (identity : AtomicFileIdentityV1)
| Aborted
| Committed (observation : AtomicWriteObservationV1)
| BackupCleaned (observation : AtomicWriteObservationV1).
#[export] Instance AtomicWriteStateV1_eq_dec : EqDecision AtomicWriteStateV1.
Proof. solve_decision. Defined.

Record AtomicWriteRecordV1 := mkWriteRecord {
  wr_plan : AtomicWritePlanV1;
  wr_state : AtomicWriteStateV1;
}.
#[export] Instance AtomicWriteRecordV1_eq_dec : EqDecision AtomicWriteRecordV1.
Proof. solve_decision. Defined.

Definition record_planned (plan : AtomicWritePlanV1) : AtomicWriteRecordV1 :=
  mkWriteRecord plan Planned.

Definition validate_atomic_staged_identity (plan : AtomicWritePlanV1)
    (identity : AtomicFileIdentityV1) : pcresult () :=
  _ ← atomic_file_validate identity;
  if negb (bool_decide (af_object_type identity = FoRegularFile))
     || negb (af_uid identity =? pl_uid plan) || negb (af_gid identity =? pl_gid plan)
     || negb (af_permissions identity =? pl_permissions plan)
     || negb (af_link_count identity =? 1)
     || negb (af_byte_length identity =? pl_byte_length plan)
     || negb (bool_decide (af_sha256 identity = pl_bytes_sha256 plan))
  then Err (InvalidSchema "atomic staged identity")
  else Ok ().

Definition record_validate (r : AtomicWriteRecordV1) : pcresult () :=
  _ ← plan_validate (wr_plan r);
  match wr_state r with
  | Planned | Aborted => Ok ()
  | Staged identity => validate_atomic_staged_identity (wr_plan r) identity
  | Committed observation => validate_for_plan observation (wr_plan r)
  | BackupCleaned observation =>
      _ ← validate_for_plan observation (wr_plan r);
      if bool_decide (wo_backup observation = None)
      then Err (InvalidSchema "atomic backup cleanup state")
      else Ok ()
  end.

(** A record's staging path may be used again once it is finished. *)
Definition is_finished (s : AtomicWriteStateV1) : bool :=
  match s with BackupCleaned _ | Aborted => true | _ => false end.

(** The loop of [validate_atomic_write_records]. *)
Fixpoint validate_records_from (transaction_id : bytes) (transaction_owned_paths : list bytes)
    (records : list AtomicWriteRecordV1) : pcresult () :=
  match records with
  | [] => Ok ()
  | record :: later =>
      _ ← record_validate record;
      if negb (bool_decide (pl_transaction_id (wr_plan record) = transaction_id))
      then Err (InvalidSchema "atomic write transaction binding")
      else if negb (owned_path transaction_owned_paths (pl_staging_path (wr_plan record)))
              || match pl_backup_path (wr_plan record) with
                 | Some backup => negb (owned_path transaction_owned_paths backup)
                 | None => false
                 end
      then Err (InvalidSchema "atomic transaction-owned path")
      else if existsb (λ l, bool_decide (pl_staging_path (wr_plan l)
                                         = pl_staging_path (wr_plan record))
                            && negb (is_finished (wr_state record))) later
      then Err (InvalidSchema "atomic staging path reuse")
      else validate_records_from transaction_id transaction_owned_paths later
  end.

Definition validate_atomic_write_records (transaction_id : bytes)
    (transaction_owned_paths : list bytes) (records : list AtomicWriteRecordV1) : pcresult () :=
  if MAX_TRANSACTION_OWNED_PATHS <? len records
  then Err (LimitExceeded "atomic write records")
  else validate_records_from transaction_id transaction_owned_paths records.

(** [Vec::dedup] *)
Fixpoint dedup (l : list bytes) : list bytes :=
  match l with
  | a :: (b :: _) as rest => if bool_decide (a = b) then dedup rest else a :: dedup rest
  | l => l
  end.

(** The order of [String]: bytewise. *)
Definition str_le (a b : bytes) : Prop := bytes_leb a b = true.
#[export] Instance str_le_dec a b : Decision (str_le a b).
Proof. unfold str_le. apply _. Defined.

Definition validate_atomic_owned_paths_transition (current_paths next_paths : list bytes)
    (current_records next_records : list AtomicWriteRecordV1) : bool :=
  if (len next_records =? len current_records + 1)
     && bool_decide (take (length current_records) next_records = current_records)
  then
    match last next_records with
    | None => false (* [expect("length checked")] *)
    | Some record =>
        let plan := wr_plan record in
        let expected := current_paths ++ [pl_staging_path plan] ++ option_list (pl_backup_path plan) in
        bool_decide (dedup (merge_sort str_le expected) = next_paths)
    end
  else bool_decide (current_paths = next_paths).

(** The change of state of one record. *)
Definition validate_record_step (l r : AtomicWriteRecordV1) : bool :=
  if negb (bool_decide (wr_plan l = wr_plan r)) then false
  else
    match wr_state l, wr_state r with
    | Planned, Staged identity => is_ok (validate_atomic_staged_identity (wr_plan l) identity)
    | Planned, Aborted => true
    | Staged identity, Committed observation =>
        bool_decide (wo_target observation = identity)
        && is_ok (validate_for_plan observation (wr_plan l))
    | Staged _, Aborted => true
    | Committed lo, BackupCleaned ro =>
        bool_decide (lo = ro) && bool_decide (is_Some (wo_backup lo))
    | _, _ => false
    end.

Definition validate_atomic_write_records_transition (current next : list AtomicWriteRecordV1)
    : bool :=
  if (len next =? len current + 1) && bool_decide (take (length current) next = current)
     && match last next with
        | Some record => bool_decide (wr_state record = Planned)
        | None => false
        end
  then true
  else if negb (len next =? len current) then false
  else
    match filter (λ p, p.1 ≠ p.2) (zip current next) with
    | [(l, r)] => validate_record_step l r
    | _ => false
    end.

(** ** Required directories *)

Record SecurityDirectoryRecordV1 := mkSecurityDirectory {
  sd_path : bytes;
  sd_uid : Z;
  sd_gid : Z;
  sd_permissions : Z;
  sd_parent_directory : DirectoryIdentityV1;
  sd_expected_directory : option DirectoryIdentityV1;
  sd_observed_directory : option DirectoryIdentityV1;
  sd_preexisted : bool;
}.
#[export] Instance SecurityDirectoryRecordV1_eq_dec : EqDecision SecurityDirectoryRecordV1.
Proof. solve_decision. Defined.

Definition validate_security_directory_identity (record : SecurityDirectoryRecordV1)
    (identity : DirectoryIdentityV1) : pcresult () :=
  _ ← directory_validate_shape identity;
  if negb (bool_decide (di_path identity = sd_path record))
     || negb (bool_decide (di_object_type identity = FoDirectory))
     || negb (di_uid identity =? sd_uid record) || negb (di_gid identity =? sd_gid record)
     || negb (di_permissions identity =? sd_permissions record)
  then Err (InvalidSchema "security directory identity")
  else Ok ().

Definition security_directory_validate (r : SecurityDirectoryRecordV1) : pcresult () :=
  match List.find (λ p, bool_decide (p.1 = sd_path r)) REQUIRED_SECURITY_DIRECTORIES with
  | None => Err (InvalidSchema "security directory path")
  | Some (_, required_mode) =>
      expected_parent ← ok_or (parent_path (sd_path r)) (InvalidSchema "security directory parent");
      if negb (sd_uid r =? 0) || negb (sd_gid r =? 0)
         || negb (sd_permissions r =? required_mode)
         || negb (bool_decide (di_path (sd_parent_directory r) = expected_parent))
         || negb (bool_decide (di_object_type (sd_parent_directory r) = FoDirectory))
         || negb (di_uid (sd_parent_directory r) =? 0)
         || negb (di_gid (sd_parent_directory r) =? 0)
         || negb (Z.land (di_permissions (sd_parent_directory r)) mode_022 =? 0)
      then Err (InvalidSchema "security directory metadata")
      else
        _ ← directory_validate_shape (sd_parent_directory r);
        if negb (Bool.eqb (sd_preexisted r) (bool_decide (is_Some (sd_expected_directory r))))
        then Err (InvalidSchema "security directory preexistence")
        else
          _ ← match sd_expected_directory r with
              | Some expected => validate_security_directory_identity r expected
              | None => Ok ()
              end;
          match sd_observed_directory r with
          | None => Ok ()
          | Some observed =>
              _ ← validate_security_directory_identity r observed;
              match sd_expected_directory r with
              | Some expected =>
                  if negb (bool_decide (expected = observed))
                  then Err (InvalidSchema "preexisting security directory changed")
                  else Ok ()
              | None => Ok ()
              end
          end
  end.

(** The loop over [REQUIRED_SECURITY_DIRECTORIES.iter().zip(records)]. *)
Fixpoint validate_directory_zip (required : list (bytes * Z))
    (records : list SecurityDirectoryRecordV1) : pcresult () :=
  match required, records with
  | (required_path, _) :: required, record :: records =>
      _ ← security_directory_validate record;
      if negb (bool_decide (sd_path record = required_path))
      then Err (InvalidSchema "security directory order")
      else validate_directory_zip required records
  | _, _ => Ok ()
  end.

Definition validate_security_directory_record_prefix (records : list SecurityDirectoryRecordV1)
    : pcresult () :=
  if len REQUIRED_SECURITY_DIRECTORIES <? len records
  then Err (InvalidSchema "security directory count")
  else validate_directory_zip REQUIRED_SECURITY_DIRECTORIES records.

Definition validate_security_directory_records (records : list SecurityDirectoryRecordV1)
    : pcresult () :=
  if negb (len records =? len REQUIRED_SECURITY_DIRECTORIES)
  then Err (InvalidSchema "security directory count")
  else
    _ ← validate_security_directory_record_prefix records;
    if existsb (λ r, bool_decide (sd_observed_directory r = None)) records
    then Err (InvalidSchema "unobserved security directory")
    else Ok ().

(** * Effective unit policy

    From [crates/howy-common/src/provisioning/mod.rs]: what the service manager
    reports of the two units after all search-path precedence rules, the policy
    of mode 1 and of mode 0 on it, and the planned effective units. *)

Record EffectiveFileMetadataV1 := mkEffectiveMetadata {
  em_object_type : FileObjectType;
  em_uid : Z;
  em_gid : Z;
  em_permissions : Z;
  em_link_count : Z;
  em_byte_length : Z;
}.
#[export] Instance EffectiveFileMetadataV1_eq_dec : EqDecision EffectiveFileMetadataV1.
Proof. solve_decision. Defined.

Record EffectiveUnitFileV1 := mkEffectiveFile {
  ef_path : bytes;
  ef_sha256 : Sha256Digest;
  ef_metadata : EffectiveFileMetadataV1;
}.
#[export] Instance EffectiveUnitFileV1_eq_dec : EqDecision EffectiveUnitFileV1.
Proof. solve_decision. Defined.

Definition unit_file_validate (f : EffectiveUnitFileV1) (expected_path : bytes)
    (expected_permissions : Z) : pcresult () :=
  _ ← validate_absolute_path (ef_path f) "effective unit file path";
  _ ← digest_validate (ef_sha256 f);
  if negb (bool_decide (ef_path f = expected_path))
     || negb (bool_decide (em_object_type (ef_metadata f) = FoRegularFile))
     || negb (em_uid (ef_metadata f) =? 0) || negb (em_gid (ef_metadata f) =? 0)
     || negb (em_permissions (ef_metadata f) =? expected_permissions)
     || negb (em_link_count (ef_metadata f) =? 1)
     || (em_byte_length (ef_metadata f) =? 0)
  then Err (InvalidSchema "effective unit file")
  else Ok ().

Record EffectiveUnitConditionV1 := mkCondition {
  ec_condition : bytes;
  ec_trigger : bool;
  ec_negate : bool;
  ec_parameter : bytes;
}.
#[export] Instance EffectiveUnitConditionV1_eq_dec : EqDecision EffectiveUnitConditionV1.
Proof. solve_decision. Defined.

Record EffectiveCredentialLoadV1 := mkCredentialLoad { cl_name : bytes; cl_source : bytes }.
#[export] Instance EffectiveCredentialLoadV1_eq_dec : EqDecision EffectiveCredentialLoadV1.
Proof. solve_decision. Defined.
Record EffectiveSetCredentialV1 := mkSetCredential { sc_name : bytes; sc_value : bytes }.
#[export] Instance EffectiveSetCredentialV1_eq_dec : EqDecision EffectiveSetCredentialV1.
Proof. solve_decision. Defined.

Record EffectiveUnitObservationV1 := mkEffectiveUnit {
  eu_unit_kind : UnitKind;
  eu_fragment : EffectiveUnitFileV1;
  eu_dropins : list EffectiveUnitFileV1;
  eu_conditions : list EffectiveUnitConditionV1;
  eu_load_credential_encrypted : list EffectiveCredentialLoadV1;
  eu_set_credential : list EffectiveSetCredentialV1;
  eu_exec_start : list (list bytes);
  eu_hardening : gmap bytes bytes;
}.
#[export] Instance EffectiveUnitObservationV1_eq_dec : EqDecision EffectiveUnitObservationV1.
Proof. solve_decision. Defined.

Record EffectiveUnitSetV1 := mkEffectiveSet {
  es_service : EffectiveUnitObservationV1;
  es_socket : EffectiveUnitObservationV1;
}.
#[export] Instance EffectiveUnitSetV1_eq_dec : EqDecision EffectiveUnitSetV1.
Proof. solve_decision. Defined.

Definition transaction_guard_condition : EffectiveUnitConditionV1 :=
  mkCondition (bs "ConditionPathExists") false true SECURITY_TRANSACTION_GUARD_PATH.
Definition package_bootstrap_condition : EffectiveUnitConditionV1 :=
  mkCondition (bs "ConditionPathExists") false false PACKAGE_BOOTSTRAP_MARKER_PATH.
Definition required_unit_conditions : list EffectiveUnitConditionV1 :=
  [transaction_guard_condition; package_bootstrap_condition].

Definition required_service_hardening : gmap bytes bytes :=
  list_to_map
    [ (bs "LimitCORE", bs "0");
      (bs "LimitMEMLOCK", bs "65536");
      (bs "LockPersonality", bs "yes");
      (bs "MemoryDenyWriteExecute", bs "no");
      (bs "NoNewPrivileges", bs "yes");
      (bs "PrivateTmp", bs "yes");
      (bs "ProtectControlGroups", bs "yes");
      (bs "ProtectHome", bs "read-only");
      (bs "ProtectKernelModules", bs "yes");
      (bs "ProtectKernelTunables", bs "yes");
      (bs "ProtectSystem", bs "strict");
      (bs "RestrictAddressFamilies", bs "AF_UNIX");
      (bs "RestrictNamespaces", bs "yes");
      (bs "RestrictRealtime", bs "yes");
      (bs "UMask", bs "0077") ].

(** The drop-in conditions of [EffectiveUnitSetV1::validate_common]: exactly
    one, at the one path, with the expected digest. *)
Definition one_dropin (dropins : list EffectiveUnitFileV1) (expected : Sha256Digest) : bool :=
  match dropins with
  | [dropin] =>
      bool_decide (ef_path dropin = MODE1_DROPIN_PATH) && bool_decide (ef_sha256 dropin = expected)
      && is_ok (unit_file_validate dropin MODE1_DROPIN_PATH mode_600)
  | _ => false
  end.

Definition validate_common (s : EffectiveUnitSetV1) (expected_dropin_sha256 : Sha256Digest)
    : pcresult () :=
  _ ← digest_validate expected_dropin_sha256;
  _ ← unit_file_validate (eu_fragment (es_service s)) BASE_SERVICE_UNIT_PATH mode_644;
  _ ← unit_file_validate (eu_fragment (es_socket s)) BASE_SOCKET_UNIT_PATH mode_644;
  if negb (bool_decide (eu_unit_kind (es_service s) = UkService))
     || negb (bool_decide (eu_unit_kind (es_socket s) = UkSocket))
     || negb (one_dropin (eu_dropins (es_service s)) expected_dropin_sha256)
     || negb (bool_decide (eu_dropins (es_socket s) = []))
     || negb (bool_decide (eu_conditions (es_service s) = required_unit_conditions))
     || negb (bool_decide (eu_conditions (es_socket s) = required_unit_conditions))
     || negb (bool_decide (eu_exec_start (es_service s) = [[bs "/usr/bin/howyd"]]))
     || negb (bool_decide (eu_exec_start (es_socket s) = []))
     || negb (bool_decide (eu_load_credential_encrypted (es_socket s) = []))
     || negb (bool_decide (eu_set_credential (es_socket s) = []))
     || negb (bool_decide (eu_hardening (es_socket s) = ∅))
     || negb (bool_decide (eu_hardening (es_service s) = required_service_hardening))
  then Err (InvalidSchema "effective unit policy")
  else Ok ().

Definition mode1_load : EffectiveCredentialLoadV1 :=
  mkCredentialLoad MODE1_CREDENTIAL_NAME MODE1_CREDENTIAL_PATH.
Definition mode1_set : EffectiveSetCredentialV1 :=
  mkSetCredential MODE1_CREDENTIAL_SOURCE_COMPANION_NAME MODE1_CREDENTIAL_PATH.

Definition validate_mode1 (s : EffectiveUnitSetV1) (expected_dropin_sha256 : Sha256Digest)
    : pcresult () :=
  _ ← validate_common s expected_dropin_sha256;
  if negb (bool_decide (eu_load_credential_encrypted (es_service s) = [mode1_load]))
     || negb (bool_decide (eu_set_credential (es_service s) = [mode1_set]))
  then Err (InvalidSchema "effective mode 1 credentials")
  else Ok ().

Definition validate_mode0 (s : EffectiveUnitSetV1) (expected_dropin_sha256 : Sha256Digest)
    : pcresult () :=
  _ ← validate_common s expected_dropin_sha256;
  if negb (bool_decide (eu_load_credential_encrypted (es_service s) = []))
     || negb (bool_decide (eu_set_credential (es_service s) = []))
  then Err (InvalidSchema "effective mode 0 credentials")
  else Ok ().

Definition planned_effective_units (observed_base : EffectiveUnitSetV1)
    (dropin_sha256 : Sha256Digest) (dropin_bytes : Z) (mode1 : bool)
    : pcresult EffectiveUnitSetV1 :=
  if (dropin_bytes =? 0) || (MAX_DROPIN_BYTES <? dropin_bytes)
  then Err (LimitExceeded "effective drop-in bytes")
  else
    let service := es_service observed_base in
    let dropin := mkEffectiveFile MODE1_DROPIN_PATH dropin_sha256
                    (mkEffectiveMetadata FoRegularFile 0 0 mode_600 1 dropin_bytes) in
    let planned :=
      mkEffectiveSet
        (mkEffectiveUnit (eu_unit_kind service) (eu_fragment service) [dropin]
           (eu_conditions service)
           (if mode1 then [mode1_load] else [])
           (if mode1 then [mode1_set] else [])
           (eu_exec_start service) (eu_hardening service))
        (es_socket observed_base) in
    _ ← (if mode1 then validate_mode1 planned dropin_sha256
         else validate_mode0 planned dropin_sha256);
    Ok planned.

(** ** Mode 0 and mode 1 never agree on a unit set *)

(** No unit set passes the policy of both modes. *)
Lemma mode1_excludes_mode0 s d1 d0 :
  validate_mode1 s d1 = Ok () → validate_mode0 s d0 = Ok () → False.
Proof.
  unfold validate_mode1, validate_mode0. intros H1 H0. inv_ok. breflect. congruence.
Qed.

(** A planned unit set passes the policy of its mode, keeps the observed
    fragments, conditions, command and hardening, and lets the manager start
    the service only behind the absent guard. *)
Lemma planned_effective_units_ok base digest size mode1 planned :
  planned_effective_units base digest size mode1 = Ok planned →
  (if mode1 then validate_mode1 planned digest else validate_mode0 planned digest) = Ok ()
  ∧ transaction_guard_condition ∈ eu_conditions (es_service planned)
  ∧ transaction_guard_condition ∈ eu_conditions (es_socket planned)
  ∧ es_socket planned = es_socket base
  ∧ eu_fragment (es_service planned) = eu_fragment (es_service base).
Proof.
  unfold planned_effective_units. intros Hp. inv_ok. destruct a. subst planned.
  assert (validate_common (mkEffectiveSet
    (mkEffectiveUnit (eu_unit_kind (es_service base)) (eu_fragment (es_service base))
       [mkEffectiveFile MODE1_DROPIN_PATH digest
          (mkEffectiveMetadata FoRegularFile 0 0 mode_600 1 size)]
       (eu_conditions (es_service base)) (if mode1 then [mode1_load] else [])
       (if mode1 then [mode1_set] else []) (eu_exec_start (es_service base))
       (eu_hardening (es_service base))) (es_socket base)) digest = Ok ()) as Hc.
  { destruct mode1; unfold validate_mode1, validate_mode0 in Ha; inv_ok; by destruct a. }
  unfold validate_common in Hc. inv_ok. breflect. simpl in *.
  split; [done|]. repeat match goal with H : _ = required_unit_conditions |- _ => rewrite H; clear H end.
  split_and!; try done; apply elem_of_cons; by left.
Qed.
