(* ===== verification/Credential.v ===== *)
(** * The encrypted credential envelope

    From [crates/howy-common/src/provisioning/mod.rs]: strict base64, the outer
    layout of a systemd v261 encrypted credential and the policy on it. The
    encrypted part stays opaque. *)
From S2P Require Import Prelude Bytes Storage Codec CodecReader Namespace Legacy Cache Config Paths Provision.

(** ** Constants and types *)

Definition SYSTEMD_MAIN_HEADER_BYTES : Z := 32.
Definition SYSTEMD_TPM_HEADER_BYTES : Z := 20.
Definition SYSTEMD_METADATA_HEADER_BYTES : Z := 20.
Definition SYSTEMD_AES_KEY_BYTES : Z := 32.
Definition SYSTEMD_AES_BLOCK_BYTES : Z := 1.
Definition SYSTEMD_AES_IV_BYTES : Z := 12.
Definition SYSTEMD_AES_TAG_BYTES : Z := 16.
Definition SYSTEMD_FIELD_SIZE_MAX : Z := 16 * 1024.

Inductive CredentialSelector := SelHost | SelTpm2 | SelHostAndTpm2.
#[export] Instance CredentialSelector_eq_dec : EqDecision CredentialSelector.
Proof. solve_decision. Defined.
Inductive SystemdCredentialKeyId := KeyHost | KeyTpm2Hmac | KeyHostAndTpm2Hmac.
#[export] Instance SystemdCredentialKeyId_eq_dec : EqDecision SystemdCredentialKeyId.
Proof. solve_decision. Defined.

Definition selector (k : SystemdCredentialKeyId) : CredentialSelector :=
  match k with KeyHost => SelHost | KeyTpm2Hmac => SelTpm2 | KeyHostAndTpm2Hmac => SelHostAndTpm2 end.
Definition uses_tpm (k : SystemdCredentialKeyId) : bool :=
  match k with KeyTpm2Hmac | KeyHostAndTpm2Hmac => true | KeyHost => false end.

Record CredentialPolicyMetadata := mkPolicyMetadata {
  cp_requested_selector : CredentialSelector;
  cp_actual_key_id : SystemdCredentialKeyId;
  cp_system_scope : bool;
  cp_embedded_name : bytes;
  cp_literal_pcr_mask : option Z;
  cp_public_key_policy : bool;
  cp_null_key : bool;
  cp_envelope_sha256 : Sha256Digest;
  cp_envelope_size : Z;
}.
#[export] Instance CredentialPolicyMetadata_eq_dec : EqDecision CredentialPolicyMetadata.
Proof. solve_decision. Defined.

Definition policy_validate (m : CredentialPolicyMetadata) : pcresult () :=
  if negb (bool_decide (selector (cp_actual_key_id m) = cp_requested_selector m))
     || negb (cp_system_scope m)
     || negb (bool_decide (cp_embedded_name m = MODE1_CREDENTIAL_NAME))
     || cp_public_key_policy m || cp_null_key m
     || (uses_tpm (cp_actual_key_id m) && negb (bool_decide (cp_literal_pcr_mask m = Some 0)))
     || (negb (uses_tpm (cp_actual_key_id m)) && bool_decide (is_Some (cp_literal_pcr_mask m)))
     || (cp_envelope_size m =? 0)
     || (SYSTEMD_CREDENTIAL_ENCRYPTED_SIZE_MAX <? cp_envelope_size m)
  then Err CredentialPolicyRejected
  else digest_validate (cp_envelope_sha256 m).

Record InspectedCredentialEnvelope := mkInspected {
  ie_actual_key_id : SystemdCredentialKeyId;
  ie_literal_pcr_mask : option Z;
  ie_envelope_sha256 : Sha256Digest;
  ie_envelope_size : Z;
  ie_authenticated_data_bytes : Z;
}.

Record CredentialCryptographicValidation := mkCryptographicValidation {
  cv_envelope_sha256 : Sha256Digest;
  cv_embedded_name : bytes;
  cv_plaintext_size : Z;
  cv_authenticated : bool;
  cv_exact_consumption : bool;
}.

(** ** Strict base64 *)

Definition base64_value (b : byte) : option Z :=
  if byte_in 65 90 b then Some (byte.unsigned b - 65)
  else if byte_in 97 122 b then Some (byte.unsigned b - 97 + 26)
  else if byte_in 48 57 b then Some (byte.unsigned b - 48 + 52)
  else if bool_decide (b = Byte.x2b) then Some 62
  else if bool_decide (b = Byte.x2f) then Some 63
  else None.

Definition pad_symbol : byte := Byte.x3d.
(** [matches!(byte, b' ' | b'\t' | b'\r' | b'\n')] *)
Definition is_blank (b : byte) : bool :=
  bool_decide (b = Byte.x20) || bool_decide (b = Byte.x09) || bool_decide (b = Byte.x0d)
  || bool_decide (b = Byte.x0a).

Fixpoint base64_symbols (input : bytes) : pcresult bytes :=
  match input with
  | [] => Ok []
  | b :: rest =>
      if is_blank b then base64_symbols rest
      else if bool_decide (is_Some (base64_value b)) || bool_decide (b = pad_symbol)
      then symbols ← base64_symbols rest; Ok (b :: symbols)
      else Err InvalidCredentialEnvelope
  end.

(** [iter().rev().take_while(|&&byte| byte == b'=').count()] *)
Fixpoint leading_pads (l : bytes) : nat :=
  match l with
  | b :: rest => if bool_decide (b = pad_symbol) then S (leading_pads rest) else 0%nat
  | [] => 0%nat
  end.
Definition trailing_pads (symbols : bytes) : nat := leading_pads (reverse symbols).

(** [u8] shifts: bits shifted out of the byte are lost. *)
Definition shl8 (v n : Z) : Z := Z.shiftl v n mod 256.

(** One group of four symbols. *)
Definition base64_group (padding : Z) (last : bool) (c0 c1 c2 c3 : byte) : pcresult bytes :=
  a ← ok_or (base64_value c0) InvalidCredentialEnvelope;
  b ← ok_or (base64_value c1) InvalidCredentialEnvelope;
  c ← (if bool_decide (c2 = pad_symbol) then
         if negb last || negb (bool_decide (c3 = pad_symbol)) || negb (Z.land b 15 =? 0)
         then Err InvalidCredentialEnvelope else Ok 0
       else ok_or (base64_value c2) InvalidCredentialEnvelope);
  d ← (if bool_decide (c3 = pad_symbol) then
         if negb last || (bool_decide (c2 = pad_symbol) && negb (padding =? 2))
            || negb (Z.land c 3 =? 0)
         then Err InvalidCredentialEnvelope else Ok 0
       else ok_or (base64_value c3) InvalidCredentialEnvelope);
  Ok ([byte.of_Z (Z.lor (shl8 a 2) (Z.shiftr b 4))]
      ++ (if bool_decide (c2 = pad_symbol) then [] else [byte.of_Z (Z.lor (shl8 b 4) (Z.shiftr c 2))])
      ++ (if bool_decide (c3 = pad_symbol) then [] else [byte.of_Z (Z.lor (shl8 c 6) d)])).

(** The loop over [symbols.chunks_exact(4)]. *)
Fixpoint base64_groups (padding : Z) (symbols : bytes) : pcresult bytes :=
  match symbols with
  | c0 :: c1 :: c2 :: c3 :: rest =>
      group ← base64_group padding (bool_decide (rest = [])) c0 c1 c2 c3;
      tail ← base64_groups padding rest;
      Ok (group ++ tail)
  | _ => Ok []
  end.

Definition decode_base64_strict (input : bytes) : pcresult bytes :=
  symbols ← base64_symbols input;
  if bool_decide (symbols = []) || negb (len symbols mod 4 =? 0)
  then Err InvalidCredentialEnvelope
  else
    let padding := trailing_pads symbols in
    if (2 <? Z.of_nat padding) || bool_decide (pad_symbol ∈ take (length symbols - padding) symbols)
    then Err InvalidCredentialEnvelope
    else
      decoded_len ← ok_or (bytes_len ← checked_mul (len symbols / 4) 3;
                           checked_sub bytes_len (Z.of_nat padding)) InvalidCredentialEnvelope;
      if SYSTEMD_CREDENTIAL_ENCRYPTED_SIZE_MAX <? decoded_len
      then Err (LimitExceeded "credential envelope bytes")
      else
        output ← base64_groups (Z.of_nat padding) symbols;
        if negb (len output =? decoded_len) then Err InvalidCredentialEnvelope else Ok output.

(** ** The outer layout *)

Definition align8 (value : Z) : pcresult Z :=
  ok_or (v ← checked_add value 7; Some (Z.land v (Z.lnot 7))) InvalidCredentialEnvelope.

Definition validate_zero_padding (b : bytes) (start stop : Z) : pcresult () :=
  match slice_get b start stop with
  | None => Err InvalidCredentialEnvelope
  | Some padding =>
      if existsb (λ x, negb (bool_decide (x = Byte.x00))) padding
      then Err InvalidCredentialEnvelope
      else Ok ()
  end.

(** [read_le_u16], [read_le_u32] and [read_le_u64] *)
Definition read_le (n : Z) (b : bytes) (offset : Z) : pcresult Z :=
  raw ← ok_or (slice_get b offset (offset + n)) InvalidCredentialEnvelope;
  Ok (le_combine raw).
Definition read_le_u16 : bytes → Z → pcresult Z := read_le 2.
Definition read_le_u32 : bytes → Z → pcresult Z := read_le 4.
Definition read_le_u64 : bytes → Z → pcresult Z := read_le 8.

Definition KEY_HOST : bytes := byte.of_Z <$>
  [90; 28; 106; 134; 223; 157; 64; 150; 177; 213; 166; 94; 8; 98; 241; 154].
Definition KEY_TPM2 : bytes := byte.of_Z <$>
  [12; 124; 192; 123; 17; 118; 69; 145; 156; 75; 11; 234; 8; 188; 32; 254].
Definition KEY_HOST_TPM2 : bytes := byte.of_Z <$>
  [147; 168; 148; 9; 72; 116; 68; 144; 144; 202; 242; 252; 147; 202; 181; 83].

Definition credential_key_id (id : bytes) : pcresult SystemdCredentialKeyId :=
  if bool_decide (id = KEY_HOST) then Ok KeyHost
  else if bool_decide (id = KEY_TPM2) then Ok KeyTpm2Hmac
  else if bool_decide (id = KEY_HOST_TPM2) then Ok KeyHostAndTpm2Hmac
  else Err CredentialPolicyRejected.

(** The packed TPM header at [position]: the literal PCR mask and the position
    behind the aligned TPM section. *)
Definition inspect_tpm_section (binary : bytes) (position : Z) : pcresult (Z * Z) :=
  fixed_end ← ok_or (checked_add position SYSTEMD_TPM_HEADER_BYTES) InvalidCredentialEnvelope;
  if len binary <? fixed_end then Err InvalidCredentialEnvelope
  else
    pcr_mask ← read_le_u64 binary position;
    if negb (pcr_mask =? 0) then Err CredentialPolicyRejected
    else
      pcr_bank ← read_le_u16 binary (position + 8);
      primary_alg ← read_le_u16 binary (position + 10);
      blob_size ← read_le_u32 binary (position + 12);
      policy_hash_size ← read_le_u32 binary (position + 16);
      if negb ((pcr_bank =? 4) || (pcr_bank =? 11))
         || negb ((primary_alg =? 1) || (primary_alg =? 35))
         || (blob_size =? 0) || negb (policy_hash_size =? 32)
         || (SYSTEMD_FIELD_SIZE_MAX <? blob_size) || (SYSTEMD_FIELD_SIZE_MAX <? policy_hash_size)
      then Err InvalidCredentialEnvelope
      else
        payload_end ← ok_or (v ← checked_add fixed_end blob_size; checked_add v policy_hash_size)
                        InvalidCredentialEnvelope;
        aligned_end ← align8 payload_end;
        if len binary <? aligned_end then Err InvalidCredentialEnvelope
        else
          _ ← validate_zero_padding binary payload_end aligned_end;
          Ok (pcr_mask, aligned_end).

(** [inspect_systemd_credential_envelope] behind the base64 layer. *)
Definition inspect_binary `{Sha256} (binary : bytes) : pcresult InspectedCredentialEnvelope :=
  if (SYSTEMD_CREDENTIAL_ENCRYPTED_SIZE_MAX <? len binary)
     || (len binary <? SYSTEMD_MAIN_HEADER_BYTES)
  then Err InvalidCredentialEnvelope
  else
    actual_key_id ← credential_key_id (take 16 binary);
    key ← read_le_u32 binary 16;
    block ← read_le_u32 binary 20;
    iv ← read_le_u32 binary 24;
    tag ← read_le_u32 binary 28;
    if negb (key =? SYSTEMD_AES_KEY_BYTES) || negb (block =? SYSTEMD_AES_BLOCK_BYTES)
       || negb (iv =? SYSTEMD_AES_IV_BYTES) || negb (tag =? SYSTEMD_AES_TAG_BYTES)
    then Err InvalidCredentialEnvelope
    else
      main_end ← ok_or (checked_add SYSTEMD_MAIN_HEADER_BYTES SYSTEMD_AES_IV_BYTES)
                   InvalidCredentialEnvelope;
      position ← align8 main_end;
      _ ← validate_zero_padding binary main_end position;
      if len binary <? position then Err InvalidCredentialEnvelope
      else
        '(literal_pcr_mask, position) ←
          (if uses_tpm actual_key_id then
             '(mask, aligned_end) ← inspect_tpm_section binary position;
             Ok (Some mask, aligned_end)
           else Ok (None, position));
        minimum_ciphertext ← align8 SYSTEMD_METADATA_HEADER_BYTES;
        minimum ← ok_or (v ← checked_add position minimum_ciphertext;
                         checked_add v SYSTEMD_AES_TAG_BYTES) InvalidCredentialEnvelope;
        if len binary <? minimum then Err InvalidCredentialEnvelope
        else Ok (mkInspected actual_key_id literal_pcr_mask (digest_from_bytes binary)
                   (len binary) position).

Definition inspect_systemd_credential_envelope `{Sha256} (encoded : bytes)
    : pcresult InspectedCredentialEnvelope :=
  if SYSTEMD_CREDENTIAL_TEXT_SIZE_MAX <? len encoded
  then Err (LimitExceeded "credential text bytes")
  else
    binary ← decode_base64_strict encoded;
    inspect_binary binary.

Definition validate_systemd_credential_envelope `{Sha256} (encoded : bytes)
    (requested_selector : CredentialSelector) (expected_name : bytes)
    (validation : CredentialCryptographicValidation) : pcresult CredentialPolicyMetadata :=
  if negb (bool_decide (expected_name = MODE1_CREDENTIAL_NAME)) then Err CredentialPolicyRejected
  else
    inspected ← inspect_systemd_credential_envelope encoded;
    if negb (bool_decide (selector (ie_actual_key_id inspected) = requested_selector))
       || negb (bool_decide (cv_envelope_sha256 validation = ie_envelope_sha256 inspected))
       || negb (bool_decide (cv_embedded_name validation = expected_name))
       || negb (cv_plaintext_size validation =? SYSTEMD_CREDENTIAL_PLAINTEXT_BYTES)
       || negb (cv_authenticated validation) || negb (cv_exact_consumption validation)
    then Err CredentialPolicyRejected
    else
      header ← ok_or (checked_add SYSTEMD_METADATA_HEADER_BYTES (len expected_name))
                 InvalidCredentialEnvelope;
      aligned ← align8 header;
      expected_ciphertext_bytes ←
        ok_or (checked_add aligned SYSTEMD_CREDENTIAL_PLAINTEXT_BYTES) InvalidCredentialEnvelope;
      expected_envelope_bytes ←
        ok_or (v ← checked_add (ie_authenticated_data_bytes inspected) expected_ciphertext_bytes;
               checked_add v SYSTEMD_AES_TAG_BYTES) InvalidCredentialEnvelope;
      if negb (expected_envelope_bytes =? ie_envelope_size inspected)
      then Err InvalidCredentialEnvelope
      else
        let metadata :=
          mkPolicyMetadata requested_selector (ie_actual_key_id inspected) true expected_name
            (ie_literal_pcr_mask inspected) false false (ie_envelope_sha256 inspected)
            (ie_envelope_size inspected) in
        _ ← policy_validate metadata;
        Ok metadata.

(** * What the credential checks accept

    Strict base64 accepts exactly the canonical encodings; an accepted envelope
    has the documented layout, read within its bounds. *)

#[local] Ltac Zify.zify_post_hook ::= Z.div_mod_to_equations.

(** ** Base64, as RFC 4648 defines it *)

Definition ALPHABET : bytes :=
  bs "ABCDEFGHIJKLMNOPQRSTUVWXYZabcdefghijklmnopqrstuvwxyz0123456789+/".
Definition base64_char (v : Z) : byte := nth (Z.to_nat v) ALPHABET Byte.x00.

(** Three bytes are four groups of six bits; the last group is padded. *)
Fixpoint base64_encode (b : bytes) : bytes :=
  match b with
  | x :: y :: z :: rest =>
      let x := byte.unsigned x in let y := byte.unsigned y in let z := byte.unsigned z in
      base64_char (x / 4) :: base64_char (x mod 4 * 16 + y / 16)
      :: base64_char (y mod 16 * 4 + z / 64) :: base64_char (z mod 64) :: base64_encode rest
  | [x; y] =>
      let x := byte.unsigned x in let y := byte.unsigned y in
      [base64_char (x / 4); base64_char (x mod 4 * 16 + y / 16);
       base64_char (y mod 16 * 4); pad_symbol]
  | [x] =>
      let x := byte.unsigned x in
      [base64_char (x / 4); base64_char (x mod 4 * 16); pad_symbol; pad_symbol]
  | [] => []
  end.

(** ** Single symbols *)

Lemma forall_byte (P : byte → Prop) `{∀ x, Decision (P x)} :
  forallb (λ n, bool_decide (P (byte.of_Z (Z.of_nat n)))) (seq 0 256) = true → ∀ x, P x.
Proof.
  intros Hall x. rewrite forallb_forall in Hall.
  pose proof (byte.unsigned_range x).
  specialize (Hall (Z.to_nat (byte.unsigned x))).
  rewrite Z2Nat.id in Hall by lia. rewrite byte.of_Z_unsigned in Hall.
  eapply bool_decide_eq_true, Hall, in_seq. lia.
Qed.

Definition symbol_ok (x : byte) : bool :=
  match base64_value x with
  | Some v => bool_decide (0 ≤ v < 64) && bool_decide (base64_char v = x)
              && negb (bool_decide (x = pad_symbol)) && negb (is_blank x)
  | None => true
  end.

Lemma base64_value_Some x v :
  base64_value x = Some v → 0 ≤ v < 64 ∧ base64_char v = x ∧ x ≠ pad_symbol ∧ is_blank x = false.
Proof.
  assert (symbol_ok x = true) as Hs 
    by (revert x; refine (forall_byte (λ x, symbol_ok x = true) _); vm_compute; reflexivity).
  unfold symbol_ok in Hs. intros Hv. rewrite Hv in Hs. by breflect.
Qed.

Lemma base64_value_char v : 0 ≤ v < 64 → base64_value (base64_char v) = Some v.
Proof.
  intros Hv.
  assert (forallb (λ n, bool_decide (base64_value (base64_char (Z.of_nat n)) = Some (Z.of_nat n)))
            (seq 0 64) = true) as Hall by (vm_compute; reflexivity).
  rewrite forallb_forall in Hall. specialize (Hall (Z.to_nat v)).
  rewrite Z2Nat.id in Hall by lia. eapply bool_decide_eq_true, Hall, in_seq. lia.
Qed.

Lemma pad_no_value : base64_value pad_symbol = None.
Proof. reflexivity. Qed.

Lemma base64_char_symbol v : 0 ≤ v < 64 → base64_char v ≠ pad_symbol ∧ is_blank (base64_char v) = false.
Proof. intros Hv. by destruct (base64_value_Some _ _ (base64_value_char v Hv)) as (_ & _ & ? & ?). Qed.

(** ** Shifts as arithmetic *)

Lemma lor_disjoint hi lo n : 0 ≤ n → 0 ≤ lo < 2 ^ n → Z.lor (hi * 2 ^ n) lo = hi * 2 ^ n + lo.
Proof.
  intros Hn Hlo. symmetry. apply Z.add_nocarry_lor. apply Z.bits_inj'. intros i Hi.
  rewrite Z.land_spec, Z.bits_0, andb_false_iff.
  destruct (Z.lt_ge_cases i n); [left; by apply Z.mul_pow2_bits_low|right].
  destruct (Z.eq_dec lo 0) as [->|]; [apply Z.bits_0|].
  apply Z.bits_above_log2; [lia|]. apply Z.log2_lt_pow2; [lia|].
  apply Z.lt_le_trans with (2 ^ n); [lia|]. apply Z.pow_le_mono_r; lia.
Qed.

Lemma group_byte0 a b : 0 ≤ a < 64 → 0 ≤ b < 64 → Z.lor (shl8 a 2) (Z.shiftr b 4) = a * 4 + b / 16.
Proof.
  intros Ha Hb. unfold shl8. rewrite Z.shiftl_mul_pow2, Z.shiftr_div_pow2 by lia.
  change (2 ^ 4) with 16. rewrite Z.mod_small by lia. apply (lor_disjoint a (b / 16) 2); lia.
Qed.
Lemma group_byte1 b c :
  0 ≤ b < 64 → 0 ≤ c < 64 → Z.lor (shl8 b 4) (Z.shiftr c 2) = b mod 16 * 16 + c / 4.
Proof.
  intros Hb Hc. unfold shl8. rewrite Z.shiftl_mul_pow2, Z.shiftr_div_pow2 by lia.
  replace (b * 2 ^ 4 mod 256) with (b mod 16 * 2 ^ 4) by (symmetry; apply (Z.mul_mod_distr_r b 16 16); lia).
  change (2 ^ 2) with 4. apply (lor_disjoint (b mod 16) (c / 4) 4); lia.
Qed.
Lemma group_byte2 c d : 0 ≤ c < 64 → 0 ≤ d < 64 → Z.lor (shl8 c 6) d = c mod 4 * 64 + d.
Proof.
  intros Hc Hd. unfold shl8. rewrite Z.shiftl_mul_pow2 by lia.
  replace (c * 2 ^ 6 mod 256) with (c mod 4 * 2 ^ 6) by (symmetry; apply (Z.mul_mod_distr_r c 4 64); lia).
  apply (lor_disjoint (c mod 4) d 6); lia.
Qed.

Lemma land_15 b : Z.land b 15 = b mod 16.
Proof. apply (Z.land_ones b 4). lia. Qed.
Lemma land_3 b : Z.land b 3 = b mod 4.
Proof. apply (Z.land_ones b 2). lia. Qed.

(** ** Groups *)

Lemma unsigned_of_Z z : 0 ≤ z < 256 → byte.unsigned (byte.of_Z z) = z.
Proof. intros Hz. rewrite byte.unsigned_of_Z. by apply Z.mod_small. Qed.

Ltac symbols_eq :=
  repeat first [ reflexivity | apply (f_equal2 cons) | f_equal; lia ].

(** A decoded group encodes to its symbols, and only the last one is short. *)
Lemma base64_group_sound padding lst c0 c1 c2 c3 g :
  base64_group padding lst c0 c1 c2 c3 = Ok g →
  base64_encode g = [c0; c1; c2; c3] ∧ (lst = false → length g = 3%nat).
Proof.
  unfold base64_group. intros Hg. inv_ok.
  apply base64_value_Some in Ha as (Hra & Hca & Hpa & _).
  apply base64_value_Some in Ha0 as (Hrb & Hcb & Hpb & _).
  subst g. rewrite group_byte0 by done.
  destruct (decide (c2 = pad_symbol)) as [->|Hc2].
  - rewrite (bool_decide_eq_true_2 (pad_symbol = pad_symbol)) in * by done. inv_ok. breflect.
    subst c3 a1. rewrite land_15 in *.
    rewrite (bool_decide_eq_true_2 (pad_symbol = pad_symbol)) in * by done. inv_ok. breflect.
    split; [|congruence]. cbn [app base64_encode]. rewrite unsigned_of_Z by lia.
    rewrite <- Hca, <- Hcb. symbols_eq.
  - rewrite (bool_decide_eq_false_2 _ Hc2) in *. inv_ok.
    apply base64_value_Some in Ha1 as (Hrc & Hcc & _ & _).
    rewrite group_byte1 by done.
    destruct (decide (c3 = pad_symbol)) as [->|Hc3].
    + rewrite (bool_decide_eq_true_2 (pad_symbol = pad_symbol)) in * by done. inv_ok. breflect.
      rewrite land_3 in *. split; [|congruence]. cbn [app base64_encode].
      rewrite !unsigned_of_Z by lia. rewrite <- Hca, <- Hcb, <- Hcc.
      symbols_eq.
    + rewrite (bool_decide_eq_false_2 _ Hc3) in *. inv_ok.
      apply base64_value_Some in Ha2 as (Hrd & Hcd & _ & _).
      rewrite group_byte2 by done. split; [|done]. cbn [app base64_encode].
      rewrite !unsigned_of_Z by lia. rewrite <- Hca, <- Hcb, <- Hcc, <- Hcd.
      symbols_eq.
Qed.

(** Each group of one to three bytes decodes. *)
Lemma base64_group_complete padding lst g c0 c1 c2 c3 :
  base64_encode g = [c0; c1; c2; c3] → (lst = false → length g = 3%nat) →
  (length g = 1%nat → padding = 2) → (length g ≤ 3)%nat →
  base64_group padding lst c0 c1 c2 c3 = Ok g.
Proof.
  assert (∀ z : Z, 0 ≤ z < 256 → ∀ x, byte.unsigned x = z → byte.of_Z z = x) as Hb
    by (intros z _ x <-; apply byte.of_Z_unsigned).
  intros He Hl Hp H3. destruct g as [|x [|y [|z [|? ?]]]]; [done| | | |simpl in H3; lia];
    cbn [base64_encode] in He; injection He as <- <- <- <-;
    pose proof (byte.unsigned_range x);
    try pose proof (byte.unsigned_range y); try pose proof (byte.unsigned_range z);
    unfold base64_group; rewrite !base64_value_char by lia;
    cbn [ok_or mbind result_bind].
  - destruct lst; [|by specialize (Hl eq_refl)]. rewrite (Hp eq_refl). simpl.
    rewrite land_15.
    destruct (Z.eqb_spec ((byte.unsigned x mod 4 * 16) mod 16) 0); [|lia]. simpl.
    rewrite group_byte0 by lia. do 2 f_equal. apply Hb; lia.
  - destruct lst; [|by specialize (Hl eq_refl)].
    rewrite (bool_decide_eq_false_2 (base64_char _ = _)) by (apply base64_char_symbol; lia).
    rewrite bool_decide_eq_true_2 by done. simpl. rewrite land_3.
    destruct (Z.eqb_spec ((byte.unsigned y mod 16 * 4) mod 4) 0); [|lia]. simpl.
    rewrite group_byte0, group_byte1 by lia.
    do 2 f_equal; [|f_equal]; apply Hb; lia.
  - rewrite !(bool_decide_eq_false_2 (base64_char _ = _)) by (apply base64_char_symbol; lia).
    simpl.
    rewrite group_byte0, group_byte1, group_byte2 by lia.
    do 2 f_equal; [|f_equal; [|f_equal]]; apply Hb; lia.
Qed.

(** ** Whole inputs *)

(** Induction by groups of three bytes. *)
Lemma group_ind (P : bytes → Prop) :
  (∀ l, (length l < 3)%nat → P l) → (∀ x y z l, P l → P (x :: y :: z :: l)) → ∀ l, P l.
Proof.
  intros Hs Hc l. remember (length l) as n eqn:Hn. revert l Hn.
  induction n as [n IH] using lt_wf_ind. intros l ->.
  destruct l as [|x [|y [|z l]]]; try (apply Hs; simpl; lia).
  apply Hc. eapply IH; [|done]. simpl. lia.
Qed.

Lemma base64_encode_app g rest :
  length g = 3%nat → base64_encode (g ++ rest) = base64_encode g ++ base64_encode rest.
Proof. destruct g as [|x [|y [|z [|? ?]]]]; done. Qed.

(** The encoding: symbols that are no padding, then the padding. *)
Lemma base64_encode_shape b :
  ∃ core, base64_encode b = core ++ replicate (2 * length b mod 3) pad_symbol
          ∧ Forall (λ x, is_Some (base64_value x)) core
          ∧ Z.of_nat (length (base64_encode b)) = 4 * ((len b + 2) / 3).
Proof.
  induction b as [b Hb|x y z b (core & He & Hc & Hl)] using group_ind.
  - destruct b as [|x [|y [|? ?]]]; [| | |simpl in Hb; lia].
    + by exists [].
    + pose proof (byte.unsigned_range x). eexists [_; _]. split_and!; [reflexivity| |reflexivity].
      repeat constructor; rewrite base64_value_char by lia; by eexists.
    + pose proof (byte.unsigned_range x). pose proof (byte.unsigned_range y).
      eexists [_; _; _]. split_and!; [reflexivity| |reflexivity].
      repeat constructor; rewrite base64_value_char by lia; by eexists.
  - pose proof (byte.unsigned_range x). pose proof (byte.unsigned_range y).
    pose proof (byte.unsigned_range z).
    eexists (_ :: _ :: _ :: _ :: core). split_and!.
    + cbn [base64_encode]. rewrite He.
      replace (2 * length (x :: y :: z :: b) mod 3)%nat with (2 * length b mod 3)%nat; [done|].
      replace (2 * length (x :: y :: z :: b))%nat with (2 * length b + 2 * 3)%nat by (simpl; lia).
      symmetry. apply Nat.Div0.mod_add.
    + repeat constructor; try done; rewrite base64_value_char by lia; by eexists.
    + cbn [base64_encode length]. rewrite !len_cons. unfold len in *. lia.
Qed.

Lemma leading_pads_replicate k l :
  leading_pads (replicate k pad_symbol ++ l) = (k + leading_pads l)%nat.
Proof. induction k as [|k IH]; [done|]. simpl. by rewrite IH. Qed.

Lemma trailing_pads_core core k :
  Forall (λ x, is_Some (base64_value x)) core →
  trailing_pads (core ++ replicate k pad_symbol) = k.
Proof.
  intros Hc. unfold trailing_pads. rewrite reverse_app, reverse_replicate, leading_pads_replicate.
  assert (leading_pads (reverse core) = 0%nat) as ->; [|lia].
  destruct (reverse core) as [|x l] eqn:E; [done|]. simpl. rewrite bool_decide_eq_false_2; [done|].
  apply Forall_reverse in Hc. rewrite E in Hc. inversion Hc as [|? ? [v Hv]]; subst.
  by apply base64_value_Some in Hv as (_ & _ & ? & _).
Qed.

(** The symbols are the input without blanks. *)
Lemma base64_symbols_Ok input symbols :
  base64_symbols input = Ok symbols ↔
  filter (λ b, is_blank b = false) input = symbols
  ∧ Forall (λ b, is_Some (base64_value b) ∨ b = pad_symbol) symbols.
Proof.
  revert symbols. induction input as [|b input IH]; intros symbols.
  - simpl. split; [intros [= <-]; by repeat constructor|intros [<- _]; done].
  - simpl. rewrite filter_cons. destruct (is_blank b) eqn:Eb; [by rewrite IH|].
    rewrite decide_True by done. split.
    + intros Hs. inv_ok. apply IH in Ha as [-> Hf]. subst symbols. split; [done|].
      constructor; [|done]. apply orb_true_iff in Hg as [Hg|Hg]; breflect; auto.
    + intros [<- Hf]. inversion Hf as [|? ? Hb Hf']; subst.
      assert (bool_decide (is_Some (base64_value b)) || bool_decide (b = pad_symbol) = true) as ->.
      { apply orb_true_iff. rewrite !bool_decide_eq_true. exact Hb. }
      by rewrite (proj2 (IH _) (conj eq_refl Hf')).
Qed.

(** Decoded groups encode to the symbols. *)
Lemma base64_groups_sound padding symbols out :
  (length symbols mod 4 = 0)%nat → base64_groups padding symbols = Ok out →
  base64_encode out = symbols.
Proof.
  remember (length symbols) as n eqn:Hn. revert symbols Hn out.
  induction n as [n IH] using lt_wf_ind. intros symbols -> out Hm Hg.
  destruct symbols as [|c0 [|c1 [|c2 [|c3 rest]]]]; try done; [by injection Hg as <-|].
  cbn [base64_groups] in Hg. inv_ok. apply base64_group_sound in Ha as [He H3]. subst out.
  assert (length rest mod 4 = 0)%nat as Hrest.
  { replace (length (c0 :: c1 :: c2 :: c3 :: rest)) with (length rest + 1 * 4)%nat in Hm
      by (simpl; lia). by rewrite Nat.Div0.mod_add in Hm. }
  destruct rest as [|c rest].
  - injection Ha0 as <-. by rewrite app_nil_r.
  - rewrite base64_encode_app by (apply H3; by rewrite bool_decide_eq_false_2).
    rewrite He. rewrite (IH (length (c :: rest)) ltac:(simpl; lia) (c :: rest) eq_refl a0); done.
Qed.

(** Canonical encodings decode. *)
Lemma base64_groups_complete padding b :
  ((length b mod 3 = 1)%nat → padding = 2) → base64_groups padding (base64_encode b) = Ok b.
Proof.
  induction b as [b Hb|x y z b IH] using group_ind; intros Hp.
  - destruct b as [|x [|y [|? ?]]]; [done| | |simpl in Hb; lia];
      cbn [base64_encode base64_groups].
    + rewrite (base64_group_complete _ _ [x] _ _ _ _ eq_refl); [reflexivity|done| |simpl; lia].
      intros _. by apply Hp.
    + rewrite (base64_group_complete _ _ [x; y] _ _ _ _ eq_refl); [reflexivity|done|done|simpl; lia].
  - cbn [base64_encode base64_groups].
    rewrite (base64_group_complete _ _ [x; y; z] _ _ _ _ eq_refl); [|done|done|simpl; lia].
    cbn [mbind result_bind]. rewrite IH; [done|].
    intros Hm. apply Hp.
    replace (length (x :: y :: z :: b)) with (length b + 1 * 3)%nat by (simpl; lia).
    by rewrite Nat.Div0.mod_add.
Qed.

(** What the decoder computes of an encoding before it looks at the groups. *)
Lemma base64_encode_counts b :
  let symbols := base64_encode b in
  let padding := trailing_pads symbols in
  len symbols = 4 * ((len b + 2) / 3)
  ∧ Z.of_nat padding = 2 * len b mod 3
  ∧ pad_symbol ∉ take (length symbols - padding) symbols
  ∧ Forall (λ x, is_Some (base64_value x) ∨ x = pad_symbol) symbols.
Proof.
  destruct (base64_encode_shape b) as (core & Hs & Hc & Hl). simpl. split; [done|].
  rewrite Hs, trailing_pads_core by done. split_and!.
  - rewrite Nat2Z.inj_mod, Nat2Z.inj_mul. done.
  - rewrite length_app, length_replicate, Nat.add_sub, take_app_length.
    intros Hin. eapply Forall_forall in Hc as [v Hv]; [|done]. done.
  - apply Forall_app. split; [eapply Forall_impl; [done|]; auto|]. apply Forall_replicate. by right.
Qed.

(** Strict base64 decoding accepts exactly the canonical encodings: the input,
    blanks removed, is the padded RFC 4648 encoding of the bytes it returns,
    which are not empty and fit the envelope limit. *)
Lemma base64_strict_Ok input out :
  decode_base64_strict input = Ok out ↔
  filter (λ b, is_blank b = false) input = base64_encode out
  ∧ out ≠ [] ∧ len out ≤ SYSTEMD_CREDENTIAL_ENCRYPTED_SIZE_MAX.
Proof.
  unfold decode_base64_strict. split.
  - intros Hd. inv_ok. breflect. subst out. apply base64_symbols_Ok in Ha as [<- _].
    match goal with H : base64_groups _ _ = Ok _ |- _ => apply base64_groups_sound in H as Henc end.
    + split; [done|]. split; [|lia]. intros Hnil. rewrite Hnil in Henc. cbn [base64_encode] in Henc. congruence.
    + unfold len in *. apply (inj Z.of_nat). by rewrite Nat2Z.inj_mod.
  - intros (Hf & Hne & Hmax). destruct (base64_encode_counts out) as (Hlen & Hpad & Hcore & Hall).
    rewrite (proj2 (base64_symbols_Ok _ _) (conj Hf Hall)). cbn [mbind result_bind].
    assert (0 < len out) by (destruct out; [done|rewrite len_cons; pose proof (len_nonneg out); lia]).
    assert (SYSTEMD_CREDENTIAL_ENCRYPTED_SIZE_MAX < U64_MAX) by done.
    rewrite bool_decide_eq_false_2 by (intros He; rewrite He, len_nil in Hlen; lia).
    rewrite (bool_decide_eq_false_2 _ Hcore), Hpad, Hlen.
    rewrite (proj2 (Z.eqb_eq _ _)) by lia. rewrite (proj2 (Z.ltb_ge _ _)) by lia. simpl.
    rewrite checked_mul_eq by (unfold_max; lia). simpl. rewrite checked_sub_eq by lia. simpl.
    rewrite (proj2 (Z.ltb_ge _ _)) by lia.
    rewrite base64_groups_complete.
    + simpl. by rewrite (proj2 (Z.eqb_eq _ _)) by lia.
    + intros Hm. apply (f_equal Z.of_nat) in Hm. rewrite Nat2Z.inj_mod in Hm. unfold len. lia.
Qed.
