(* ===== verification/CredentialLayout.v ===== *)
(** * The layout an accepted envelope has

    The inspection of [Credential] accepts exactly the envelopes composed of
    the documented parts, and reports where the authenticated part ends. *)

From S2P Require Import Prelude Bytes Storage Codec CodecReader Namespace Legacy Cache Config Paths Provision Credential.

#[local] Ltac Zify.zify_post_hook ::= Z.div_mod_to_equations.

(** ** The parts *)

Definition key_bytes (k : SystemdCredentialKeyId) : bytes :=
  match k with KeyHost => KEY_HOST | KeyTpm2Hmac => KEY_TPM2 | KeyHostAndTpm2Hmac => KEY_HOST_TPM2 end.

(** Key id, key, block, IV and tag sizes, the IV, padding to eight bytes. *)
Definition main_part (k : SystemdCredentialKeyId) (iv : bytes) : bytes :=
  key_bytes k ++ le32 32 ++ le32 1 ++ le32 12 ++ le32 16 ++ iv ++ zero_bytes 4.

(** No literal PCR, the bank, the algorithm, the blob and the policy hash,
    padding to eight bytes. *)
Definition tpm_part (bank alg : Z) (blob policy : bytes) : bytes :=
  le64 0 ++ le16 bank ++ le16 alg ++ le32 (len blob) ++ le32 32 ++ blob ++ policy
  ++ zero_bytes (Z.to_nat (- (52 + len blob) mod 8)).

Definition tpm_fields_ok (bank alg : Z) (blob policy : bytes) : Prop :=
  (bank = 4 ∨ bank = 11) ∧ (alg = 1 ∨ alg = 35) ∧ 0 < len blob ≤ SYSTEMD_FIELD_SIZE_MAX
  ∧ len policy = 32.

(** The section between the main part and the encrypted part. *)
Definition middle_part (k : SystemdCredentialKeyId) (mask : option Z) (part : bytes) : Prop :=
  if uses_tpm k then
    mask = Some 0 ∧ ∃ bank alg blob policy,
      tpm_fields_ok bank alg blob policy ∧ part = tpm_part bank alg blob policy
  else mask = None ∧ part = [].

(** ** Reads at offsets *)

Lemma read_le_Ok n b off z :
  0 ≤ off → read_le (Z.of_nat n) b off = Ok z ↔
  at_ b off (le_split n z) ∧ 0 ≤ z < 2 ^ (Z.of_nat n * 8).
Proof.
  intros Ho. unfold read_le. split.
  - intros Hr. inv_ok. subst z.
    pose proof (slice_get_Some _ _ _ _ Ha Ho) as (_ & _ & Hl).
    assert (length a = n) as Hlen by (unfold len in Hl; lia).
    split; [|by apply le_combine_range]. rewrite split_le_combine' by done.
    apply at_slice in Ha; [done|done|]. lia.
  - intros [Ha Hz]. apply (at_slice _ _ _ (off + Z.of_nat n)) in Ha; [|done|by rewrite len_le_split].
    rewrite Ha. simpl. by rewrite le_combine_le_split_small.
Qed.

Lemma read_le_at (n : nat) m b off z :
  m = Z.of_nat n → at_ b off (le_split n z) → 0 ≤ z < 2 ^ (Z.of_nat n * 8) →
  read_le m b off = Ok z.
Proof.
  intros -> Ha Hz. apply read_le_Ok; [|done]. destruct Ha as (pre & ? & _ & <-). apply len_nonneg.
Qed.

Lemma at_len b off x : at_ b off x → 0 ≤ off ∧ off + len x ≤ len b.
Proof.
  intros (pre & rest & -> & <-). rewrite !len_app.
  pose proof (len_nonneg pre). pose proof (len_nonneg rest). lia.
Qed.

Lemma len_zero_bytes n : len (zero_bytes n) = Z.of_nat n.
Proof. unfold len, zero_bytes. by rewrite length_replicate. Qed.

Lemma zero_padding_Ok b lo hi :
  0 ≤ lo ≤ hi →
  validate_zero_padding b lo hi = Ok () ↔ at_ b lo (zero_bytes (Z.to_nat (hi - lo))).
Proof.
  intros Hr. unfold validate_zero_padding.
  rewrite <- (at_slice b lo (zero_bytes (Z.to_nat (hi - lo))) hi); [|lia|rewrite len_zero_bytes; lia].
  destruct (slice_get b lo hi) as [x|] eqn:E; [|naive_solver].
  apply slice_get_Some in E as (_ & _ & Hl); [|lia].
  assert (length x = Z.to_nat (hi - lo)) as Hlx by (unfold len in Hl; lia).
  destruct (existsb _ x) eqn:Ex; split; try done.
  - intros [= ->]. apply existsb_exists in Ex as (y & Hy & Hn).
    apply list_elem_of_In, elem_of_replicate in Hy as [-> _]. done.
  - intros _. f_equal. rewrite <- Hlx. clear -Ex. unfold zero_bytes.
    induction x as [|y x IH]; [done|]. simpl in *. apply orb_false_iff in Ex as [Hy Ex].
    apply negb_false_iff, bool_decide_eq_true in Hy as ->. f_equal. auto.
Qed.

Lemma align8_Ok v w : 0 ≤ v → align8 v = Ok w ↔ v + 7 ≤ U64_MAX ∧ w = 8 * ((v + 7) / 8).
Proof.
  intros Hv. unfold align8.
  assert (∀ x, 0 ≤ x → Z.land x (Z.lnot 7) = 8 * (x / 8)) as Hl.
  { intros x Hx. rewrite <- Z.ldiff_land.
    change 7 with (Z.ones 3). rewrite Z.ldiff_ones_r by lia.
    rewrite Z.shiftr_div_pow2, Z.shiftl_mul_pow2 by lia. lia. }
  unfold checked_add. destruct (Z.leb_spec (v + 7) U64_MAX); simpl.
  - rewrite Hl by lia. split; [by intros [= <-]|by intros [_ ->]].
  - split; [done|lia].
Qed.

(** ** The TPM section *)

Lemma len_tpm_part bank alg blob policy :
  len policy = 32 →
  len (tpm_part bank alg blob policy) = 8 * ((20 + len blob + 32 + 7) / 8).
Proof.
  intros Hp. unfold tpm_part. rewrite !len_app, !len_le_split, len_zero_bytes, Hp.
  pose proof (len_nonneg blob). lia.
Qed.

Lemma at_offset b o o' x : at_ b o x → o = o' → at_ b o' x.
Proof. by intros ? <-. Qed.

(** The section at an aligned offset, field by field. *)
Lemma at_tpm_part b p bank alg blob policy :
  len policy = 32 →
  at_ b p (tpm_part bank alg blob policy) ↔
  at_ b p (le64 0) ∧ at_ b (p + 8) (le16 bank) ∧ at_ b (p + 10) (le16 alg)
  ∧ at_ b (p + 12) (le32 (len blob)) ∧ at_ b (p + 16) (le32 32) ∧ at_ b (p + 20) blob
  ∧ at_ b (p + 20 + len blob) policy
  ∧ at_ b (p + 52 + len blob) (zero_bytes (Z.to_nat (- (52 + len blob) mod 8))).
Proof.
  intros Hp. unfold tpm_part. rewrite !at_app, !len_le_split, Hp.
  split; intros Hat; destruct_and! Hat; split_and!;
    match goal with |- at_ _ _ ?x =>
      match goal with H : at_ _ _ x |- _ => apply (at_offset _ _ _ _ H); lia end end.
Qed.

Lemma at_exists_len b off n :
  0 ≤ off → 0 ≤ n → off + n ≤ len b → ∃ x, len x = n ∧ at_ b off x.
Proof.
  intros Ho Hn Hb. destruct (at_exists b off (Z.to_nat n)) as (x & Hl & Ha); [done|lia|].
  exists x. split; [unfold len; lia|done].
Qed.

Lemma tpm_section_sound b p m e :
  0 ≤ p → p mod 8 = 0 → inspect_tpm_section b p = Ok (m, e) →
  m = 0 ∧ ∃ bank alg blob policy,
    tpm_fields_ok bank alg blob policy ∧ at_ b p (tpm_part bank alg blob policy)
    ∧ e = p + len (tpm_part bank alg blob policy).
Proof.
  intros Hp Hm Hi. unfold inspect_tpm_section, read_le_u16, read_le_u32, read_le_u64 in Hi.
  inv_ok. simplify_eq. breflect. unfold SYSTEMD_TPM_HEADER_BYTES in *.
  repeat match goal with
  | H : read_le ?n _ _ = Ok _ |- _ =>
      apply (read_le_Ok (Z.to_nat n)) in H as [? ?]; [|lia]
  end.
  match goal with H : align8 _ = Ok _ |- _ => apply align8_Ok in H as [_ ->]; [|lia] end.
  match goal with H : validate_zero_padding _ _ _ = Ok ?u |- _ =>
    destruct u; apply zero_padding_Ok in H; [|lia] end.
  subst. split; [done|].
  destruct (at_exists_len b (p + 20) a3) as (blob & Hlb & Hab); [lia..|].
  destruct (at_exists_len b (p + 20 + a3) 32) as (policy & Hlp & Hap); [lia..|].
  rewrite <- Hlb in *. exists a1, a2, blob, policy. rewrite len_tpm_part by done. split_and!.
  - unfold tpm_fields_ok. split_and!; lia.
  - apply at_tpm_part; [done|]. split_and!; try done.
    replace (Z.to_nat (- (52 + len blob) mod 8))
      with (Z.to_nat (8 * ((p + 20 + len blob + 32 + 7) / 8) - (p + 20 + len blob + 32))) by lia.
    eapply at_offset; [eassumption|lia].
  - lia.
Qed.

Lemma tpm_section_complete b p bank alg blob policy :
  0 ≤ p → p mod 8 = 0 → len b ≤ SYSTEMD_CREDENTIAL_ENCRYPTED_SIZE_MAX →
  tpm_fields_ok bank alg blob policy → at_ b p (tpm_part bank alg blob policy) →
  inspect_tpm_section b p = Ok (0, p + len (tpm_part bank alg blob policy)).
Proof.
  intros Hp Hm Hmax (Hbank & Halg & Hblob & Hpol) Hat.
  pose proof (at_len _ _ _ Hat) as [_ Hend]. rewrite len_tpm_part in * by done.
  apply at_tpm_part in Hat as (H0 & H1 & H2 & H3 & H4 & _ & _ & H7); [|done].
  unfold SYSTEMD_CREDENTIAL_ENCRYPTED_SIZE_MAX, SYSTEMD_FIELD_SIZE_MAX in *.
  unfold inspect_tpm_section, read_le_u16, read_le_u32, read_le_u64, SYSTEMD_TPM_HEADER_BYTES,
    SYSTEMD_FIELD_SIZE_MAX.
  rewrite checked_add_eq by (unfold_max; lia). simpl.
  rewrite (proj2 (Z.ltb_ge _ _)) by lia.
  rewrite (read_le_at 8 8 b p 0) by (done || lia). simpl.
  rewrite (read_le_at 2 2 b (p + 8) bank) by (done || lia). simpl.
  rewrite (read_le_at 2 2 b (p + 10) alg) by (done || lia). simpl.
  rewrite (read_le_at 4 4 b (p + 12) (len blob)) by (done || lia). simpl.
  rewrite (read_le_at 4 4 b (p + 16) 32) by (done || lia). simpl.
  match goal with |- (if ?c then _ else _) = _ => assert (c = false) as -> by lia end.
  rewrite !checked_add_eq by (unfold_max; lia). simpl.
  rewrite !checked_add_eq by (unfold_max; lia). simpl.
  assert (p + 20 + len blob + 32 + 7 ≤ U64_MAX) as Hfit by (unfold_max; lia).
  rewrite (proj2 (align8_Ok (p + 20 + len blob + 32) _ ltac:(lia)) (conj Hfit eq_refl)).
  cbn [mbind result_bind].
  rewrite (proj2 (Z.ltb_ge _ _)) by lia.
  rewrite (proj2 (zero_padding_Ok b (p + 20 + len blob + 32)
                    (8 * ((p + 20 + len blob + 32 + 7) / 8)) ltac:(lia))).
  - simpl. do 2 f_equal. lia.
  - replace (Z.to_nat (8 * ((p + 20 + len blob + 32 + 7) / 8) - (p + 20 + len blob + 32)))
      with (Z.to_nat (- (52 + len blob) mod 8)) by lia.
    eapply at_offset; [eassumption|lia].
Qed.

(** ** The whole envelope *)

Lemma credential_key_id_Ok id k : credential_key_id id = Ok k ↔ id = key_bytes k.
Proof.
  unfold credential_key_id. repeat case_bool_decide; subst; destruct k; split; intros Hk;
    first [ done | by subst | vm_compute in Hk; discriminate Hk | congruence ].
Qed.

Lemma len_key_bytes k : len (key_bytes k) = 16.
Proof. by destruct k. Qed.

Lemma len_main_part k iv : len iv = 12 → len (main_part k iv) = 48.
Proof.
  intros Hiv. unfold main_part. rewrite !len_app, !len_le_split, len_key_bytes, len_zero_bytes. lia.
Qed.

Lemma at_main_part b k iv :
  len iv = 12 →
  at_ b 0 (main_part k iv) ↔
  at_ b 0 (key_bytes k) ∧ at_ b 16 (le32 32) ∧ at_ b 20 (le32 1) ∧ at_ b 24 (le32 12)
  ∧ at_ b 28 (le32 16) ∧ at_ b 32 iv ∧ at_ b 44 (zero_bytes 4).
Proof.
  intros Hiv. unfold main_part. rewrite !at_app, !len_le_split, len_key_bytes, Hiv. simpl. done.
Qed.

Lemma take_at b (n : nat) x : len x = Z.of_nat n → Z.of_nat n ≤ len b → take n b = x ↔ at_ b 0 x.
Proof.
  intros Hx Hn. rewrite <- (at_slice b 0 x (Z.of_nat n)) by lia. unfold slice_get.
  destruct (_ && _) eqn:E; [|lia]. rewrite drop_0, Z.sub_0_r, Nat2Z.id. naive_solver.
Qed.

Lemma at_start b x : at_ b 0 x ↔ ∃ rest, b = x ++ rest.
Proof.
  split; [intros (pre & rest & -> & Hp)|intros [rest ->]; by exists [], rest].
  destruct pre; [by exists rest|rewrite len_cons in Hp; pose proof (len_nonneg pre); lia].
Qed.

(** The inspection behind the key id, on the fields of the main part. *)
Lemma main_part_fields b k :
  48 ≤ len b →
  (credential_key_id (take 16 b) = Ok k
   ∧ read_le_u32 b 16 = Ok 32 ∧ read_le_u32 b 20 = Ok 1 ∧ read_le_u32 b 24 = Ok 12
   ∧ read_le_u32 b 28 = Ok 16 ∧ validate_zero_padding b 44 48 = Ok ()) ↔
  ∃ iv, len iv = 12 ∧ at_ b 0 (main_part k iv).
Proof.
  intros Hb. unfold read_le_u32. split.
  - intros (Hk & H1 & H2 & H3 & H4 & Hz).
    destruct (at_exists_len b 32 12) as (iv & Hiv & Ha); [lia..|]. exists iv.
    split; [done|]. apply at_main_part; [done|].
    apply credential_key_id_Ok, take_at in Hk; [|apply len_key_bytes|lia].
    apply (read_le_Ok 4) in H1 as [? _], H2 as [? _], H3 as [? _], H4 as [? _]; [|lia..].
    by apply zero_padding_Ok in Hz; [|lia].
  - intros (iv & Hiv & Ha). apply at_main_part in Ha as (Hk & H1 & H2 & H3 & H4 & _ & Hz); [|done].
    rewrite credential_key_id_Ok, take_at by (apply len_key_bytes || lia).
    split; [done|]. split_and!; try (by apply (read_le_at 4)). apply zero_padding_Ok; [lia|done].
Qed.

(** The optional section at offset 48. *)
Definition inspect_middle (k : SystemdCredentialKeyId) (b : bytes) : pcresult (option Z * Z) :=
  if uses_tpm k then '(mask, e) ← inspect_tpm_section b 48; Ok (Some mask, e) else Ok (None, 48).

Lemma inspect_middle_Ok k b mask e :
  48 ≤ len b ≤ SYSTEMD_CREDENTIAL_ENCRYPTED_SIZE_MAX →
  inspect_middle k b = Ok (mask, e) ↔
  ∃ part, middle_part k mask part ∧ at_ b 48 part ∧ e = 48 + len part.
Proof.
  intros Hb. unfold inspect_middle, middle_part. destruct (uses_tpm k); split.
  - intros Hi. inv_ok. destruct a as [m e']. simplify_eq.
    apply tpm_section_sound in Ha as (-> & bank & alg & blob & policy & Hok & Hat & ->); [|lia..].
    exists (tpm_part bank alg blob policy). split_and!; try done.
    by exists bank, alg, blob, policy.
  - intros (part & (-> & bank & alg & blob & policy & Hok & ->) & Hat & ->).
    by rewrite (tpm_section_complete b 48 bank alg blob policy) by (done || lia).
  - intros [= <- <-]. exists []. split_and!; try done. apply at_nil. lia.
  - by intros (part & (-> & ->) & _ & ->).
Qed.

Section layout.
  Context `{Sha256}.

(** The inspection as one condition on the parts. *)
Lemma inspect_binary_parts b r :
  inspect_binary b = Ok r ↔
  ∃ k mask e, 48 ≤ len b ≤ SYSTEMD_CREDENTIAL_ENCRYPTED_SIZE_MAX
    ∧ (∃ iv, len iv = 12 ∧ at_ b 0 (main_part k iv))
    ∧ inspect_middle k b = Ok (mask, e) ∧ e + 40 ≤ len b
    ∧ r = mkInspected k mask (digest_from_bytes b) (len b) e.
Proof.
  unfold inspect_binary. split.
  - intros Hi. inv_ok. breflect.
    subst. change (align8 (SYSTEMD_MAIN_HEADER_BYTES + SYSTEMD_AES_IV_BYTES))
      with (Ok (E := ProvisioningContractError) 48) in *. simplify_eq.
    repeat match goal with u : () |- _ => destruct u end.
    destruct a7 as [mask e].
    change (align8 SYSTEMD_METADATA_HEADER_BYTES) with (Ok (E := ProvisioningContractError) 24) in *.
    inv_ok. breflect. unfold SYSTEMD_AES_TAG_BYTES in *. subst.
    exists a, mask, e. split_and!; try done; [|lia].
    apply main_part_fields; [done|]. split_and!; done.
  - intros (k & mask & e & Hb & Hmain & Hmid & He & ->).
    apply main_part_fields in Hmain as (Hk & H1 & H2 & H3 & H4 & Hz); [|lia].
    assert (0 ≤ e) as He0.
    { apply inspect_middle_Ok in Hmid as (part & _ & _ & ->); [|done].
      pose proof (len_nonneg part). lia. }
    unfold SYSTEMD_MAIN_HEADER_BYTES.
    rewrite !(proj2 (Z.ltb_ge _ _)) by lia. simpl. rewrite Hk, H1, H2, H3, H4. cbn.
    change (Z.land (32 + SYSTEMD_AES_IV_BYTES + 7) (Z.lnot 7)) with 48.
    change (32 + SYSTEMD_AES_IV_BYTES) with 44.
    change (Z.land (SYSTEMD_METADATA_HEADER_BYTES + 7) (Z.lnot 7)) with 24.
    rewrite Hz. cbn [mbind result_bind]. rewrite (proj2 (Z.ltb_ge _ _)) by lia.
    unfold inspect_middle in Hmid. rewrite Hmid. cbn [mbind result_bind].
    unfold SYSTEMD_CREDENTIAL_ENCRYPTED_SIZE_MAX in *.
    rewrite checked_add_eq by (unfold_max; lia). simpl.
    rewrite checked_add_eq by (unfold_max; unfold SYSTEMD_AES_TAG_BYTES; lia). simpl.
    by rewrite (proj2 (Z.ltb_ge _ _)) by (unfold SYSTEMD_AES_TAG_BYTES; lia).
Qed.

(** An inspected envelope is composed of its parts, and conversely. *)
Lemma inspect_binary_layout b r :
  inspect_binary b = Ok r ↔
  ∃ k mask iv part rest,
    b = main_part k iv ++ part ++ rest
    ∧ len iv = 12 ∧ middle_part k mask part ∧ 40 ≤ len rest
    ∧ len b ≤ SYSTEMD_CREDENTIAL_ENCRYPTED_SIZE_MAX
    ∧ r = mkInspected k mask (digest_from_bytes b) (len b) (48 + len part).
Proof.
  rewrite inspect_binary_parts. split.
  - intros (k & mask & e & Hb & (iv & Hiv & Hm) & Hmid & He & ->).
    apply inspect_middle_Ok in Hmid as (part & Hp & Hat & ->); [|done].
    assert (at_ b 0 (main_part k iv ++ part)) as Hall.
    { apply at_app. split; [done|]. by rewrite len_main_part. }
    apply at_start in Hall as [rest ->]. rewrite <- app_assoc in *.
    exists k, mask, iv, part, rest. split_and!; try done; [|lia].
    rewrite !len_app, len_main_part in He by done. lia.
  - intros (k & mask & iv & part & rest & Hb & Hiv & Hp & Hr & Hmax & ->).
    assert (len b = 48 + len part + len rest) as Hlen
      by (rewrite Hb, !len_app, len_main_part by done; lia).
    pose proof (len_nonneg part).
    exists k, mask, (48 + len part). split_and!; try done; try lia.
    + exists iv. split; [done|]. apply at_start. eauto.
    + apply inspect_middle_Ok; [lia|]. exists part. split_and!; try done.
      exists (main_part k iv), rest. by rewrite len_main_part.
Qed.

(** C19: The inspection of an encrypted credential accepts exactly the texts
    that are the canonical base64 of an envelope composed of the documented
    parts (key id and cipher parameters, IV, for a TPM key the section with no
    literal PCR and a 32-byte policy hash, zero padding in between, at least
    40 encrypted bytes) within the size limits, and reports key, mask, digest,
    size and the end of the authenticated part of exactly that envelope. *)
Theorem credential_envelope_layout encoded r :
  inspect_systemd_credential_envelope encoded = Ok r ↔
  ∃ k mask iv part rest,
    let b := main_part k iv ++ part ++ rest in
    len encoded ≤ SYSTEMD_CREDENTIAL_TEXT_SIZE_MAX
    ∧ filter (λ x, is_blank x = false) encoded = base64_encode b
    ∧ len iv = 12 ∧ middle_part k mask part ∧ 40 ≤ len rest
    ∧ len b ≤ SYSTEMD_CREDENTIAL_ENCRYPTED_SIZE_MAX
    ∧ r = mkInspected k mask (digest_from_bytes b) (len b) (48 + len part).
Proof.
  unfold inspect_systemd_credential_envelope.
  destruct (Z.ltb_spec SYSTEMD_CREDENTIAL_TEXT_SIZE_MAX (len encoded)) as [Ht|Ht].
  { split; [done|]. intros (? & ? & ? & ? & ? & ? & _). lia. }
  split.
  - intros Hi. inv_ok. apply base64_strict_Ok in Ha as (Hf & _ & _).
    apply inspect_binary_layout in Hi as (k & mask & iv & part & rest & -> & Hi).
    exists k, mask, iv, part, rest. split_and!; try done; tauto.
  - intros (k & mask & iv & part & rest & _ & Hf & Hiv & Hp & Hr & Hmax & ->).
    rewrite (proj2 (base64_strict_Ok encoded (main_part k iv ++ part ++ rest))).
    + apply inspect_binary_layout. exists k, mask, iv, part, rest. split_and!; done.
    + split; [done|]. split; [|done]. by destruct k.
Qed.

(** A validated credential holds exactly one 32-byte plaintext under the one
    name: its encrypted part is the aligned metadata header with the name, the
    plaintext and the tag, and the evidence is of this very envelope. *)
Lemma validated_envelope_exact encoded sel name validation m :
  validate_systemd_credential_envelope encoded sel name validation = Ok m →
  name = MODE1_CREDENTIAL_NAME ∧ policy_validate m = Ok ()
  ∧ selector (cp_actual_key_id m) = sel
  ∧ ∃ iv part rest,
      let b := main_part (cp_actual_key_id m) iv ++ part ++ rest in
      decode_base64_strict encoded = Ok b ∧ len rest = 96
      ∧ cp_envelope_sha256 m = digest_from_bytes b
      ∧ cv_envelope_sha256 validation = digest_from_bytes b
      ∧ cv_authenticated validation = true ∧ cv_exact_consumption validation = true.
Proof.
  unfold validate_systemd_credential_envelope, inspect_systemd_credential_envelope.
  intros Hv. inv_ok. breflect. subst. repeat match goal with u : () |- _ => destruct u end.
  split; [done|]. split; [done|].
  split; [done|].
  match goal with H : inspect_binary _ = Ok _ |- _ =>
    apply inspect_binary_layout in H as (k & mask & iv & part & rest & -> & Hiv & _ & _ & _ & ->)
  end.
  match goal with H : align8 _ = Ok _ |- _ => apply align8_Ok in H as [_ Hal]; [|vm_compute; done] end.
  exists iv, part, rest. simpl in *. split_and!; try done.
  rewrite !len_app, len_main_part in * by done.
  change (len MODE1_CREDENTIAL_NAME) with 25 in *.
  unfold SYSTEMD_METADATA_HEADER_BYTES, SYSTEMD_AES_TAG_BYTES, SYSTEMD_CREDENTIAL_PLAINTEXT_BYTES in *.
  lia.
Qed.
End layout.
