(* ===== verification/ProvisionProofs.v ===== *)
(** * Digests, snapshots and what they bind

    Hexadecimal round trips, the injective framing of file metadata, and the
    restoration of a file from its snapshot. *)

From S2P Require Import Prelude Bytes Storage Codec CodecReader Namespace Legacy Cache Config Paths Provision Credential.

(** ** Hexadecimal *)

Definition hex_value_ok (b : byte) : bool :=
  match hex_value b with
  | Ok v => bool_decide (0 ≤ v < 16) && bool_decide (hex_char v = b) && is_lower_hex_byte b
  | Err _ => negb (is_lower_hex_byte b)
  end.

Lemma hex_value_spec b : hex_value_ok b = true.
Proof. revert b. refine (forall_byte (λ b, hex_value_ok b = true) _). vm_compute. reflexivity. Qed.

Lemma hex_value_Ok b v :
  hex_value b = Ok v → 0 ≤ v < 16 ∧ hex_char v = b ∧ is_lower_hex_byte b = true.
Proof.
  pose proof (hex_value_spec b) as Hb. unfold hex_value_ok in Hb. intros E. rewrite E in Hb. by breflect.
Qed.

Lemma hex_value_char v : 0 ≤ v < 16 → hex_value (hex_char v) = Ok v.
Proof.
  intros Hv.
  assert (forallb (λ n, bool_decide (hex_value (hex_char (Z.of_nat n)) = Ok (Z.of_nat n)))
            (seq 0 16) = true) as Hall by (vm_compute; reflexivity).
  rewrite forallb_forall in Hall. specialize (Hall (Z.to_nat v)).
  rewrite Z2Nat.id in Hall by lia. eapply bool_decide_eq_true, Hall, in_seq. lia.
Qed.

Lemma hex_nibbles x :
  let z := byte.unsigned x in
  0 ≤ Z.shiftr z 4 < 16 ∧ 0 ≤ Z.land z 15 < 16
  ∧ byte.of_Z (Z.lor (Z.shiftl (Z.shiftr z 4) 4) (Z.land z 15)) = x.
Proof.
  pose proof (byte.unsigned_range x). simpl. rewrite land_15, Z.shiftr_div_pow2 by lia.
  change (2 ^ 4) with 16. split; [|split].
  - split; [apply Z.div_pos; lia|apply Z.div_lt_upper_bound; lia].
  - apply Z.mod_pos_bound. lia.
  - rewrite Z.shiftl_mul_pow2 by lia. rewrite lor_disjoint by (lia || by apply Z.mod_pos_bound).
    change (2 ^ 4) with 16. rewrite Z.mul_comm, <- Z.div_mod by lia. apply byte.of_Z_unsigned.
Qed.

Lemma hex_encode_lower b : forallb is_lower_hex_byte (hex_encode b) = true.
Proof.
  induction b as [|x b IH]; [done|]. destruct (hex_nibbles x) as (Hh & Hl & _). cbn [hex_encode forallb].
  apply hex_value_char in Hh, Hl. apply hex_value_Ok in Hh as (_ & _ & ->), Hl as (_ & _ & ->). done.
Qed.

Lemma len_hex_encode b : len (hex_encode b) = 2 * len b.
Proof. induction b as [|x b IH]; [done|]. cbn [hex_encode]. rewrite !len_cons, IH. lia. Qed.

Lemma hex_decode_encode b : hex_decode (hex_encode b) = Ok b.
Proof.
  unfold hex_decode, is_lower_hex. rewrite hex_encode_lower, Z.eqb_refl, len_hex_encode.
  rewrite Z.mul_comm, Z.mod_mul by lia. simpl.
  induction b as [|x b IH]; [done|]. destruct (hex_nibbles x) as (Hh & Hl & Hx).
  cbn [hex_encode hex_pairs]. rewrite !hex_value_char by done. cbn [mbind result_bind].
  rewrite IH. cbn [mbind result_bind]. by rewrite Hx.
Qed.

Lemma hex_encode_inj b b' : hex_encode b = hex_encode b' → b = b'.
Proof.
  intros E. pose proof (hex_decode_encode b) as H1. rewrite E, hex_decode_encode in H1.
  by injection H1.
Qed.

(** The decoder inverts the encoder on everything it accepts. *)
Lemma hex_encode_decode v b : hex_decode v = Ok b → hex_encode b = v.
Proof.
  unfold hex_decode. intros Hd. inv_ok. breflect.
  rename select (len v mod 2 = 0) into Hm. clear -Hm Hd. revert b Hm Hd.
  assert (∀ n v b, length v = n → len v mod 2 = 0 → hex_pairs v = Ok b → hex_encode b = v) as Hi.
  { intros n. induction n as [n IH] using lt_wf_ind. intros [|a [|a' v']] b Hn Hm Hp.
    - by injection Hp as <-.
    - done.
    - cbn [hex_pairs] in Hp. inv_ok. apply hex_value_Ok in Ha as (Hh & Hch & _), Ha0 as (Hl & Hcl & _).
      subst b. cbn [hex_encode].
      assert (Z.lor (Z.shiftl a0 4) a1 = a0 * 16 + a1) as ->
        by (rewrite Z.shiftl_mul_pow2 by lia; apply (lor_disjoint a0 a1 4); lia).
      rewrite byte.unsigned_of_Z. unfold byte.wrap. rewrite (Z.mod_small _ 256) by lia.
      rewrite land_15, Z.shiftr_div_pow2 by lia. change (2 ^ 4) with 16.
      rewrite Z.div_add_l, Z.div_small, Z.add_0_r, Z.add_comm, Z.mod_add, Z.mod_small by lia.
      rewrite Hch, Hcl. do 2 f_equal. eapply (IH (length v')); [simpl in Hn; lia|done| |done].
      rewrite !len_cons in Hm. replace (1 + (1 + len v')) with (len v' + 1 * 2) in Hm by lia.
      by rewrite Z.mod_add in Hm. }
  intros b Hm Hd. by eapply Hi.
Qed.

(** ** Digests of digests *)

Section digests.
  Context `{Sha256Laws}.

Lemma digest_from_bytes_valid b : digest_validate (digest_from_bytes b) = Ok ().
Proof.
  unfold digest_validate, is_lower_hex, digest_from_bytes, SHA256_HEX_BYTES.
  rewrite hex_encode_lower, len_hex_encode. unfold len. by rewrite sha256_length.
Qed.
End digests.

Lemma digest_from_bytes_eq `{Sha256} x y :
  digest_from_bytes x = digest_from_bytes y → x = y ∨ collision x y.
Proof. unfold digest_from_bytes. intros E%hex_encode_inj. by apply digest_eq. Qed.

(** ** File metadata *)

(** What the field types guarantee. *)
Definition timestamp_typed (t : FileTimestampV1) : Prop :=
  - 2 ^ 63 ≤ ft_seconds t < 2 ^ 63 ∧ in_u U32_MAX (ft_nanoseconds t).
Definition metadata_typed (m : FileMetadataSnapshotV1) : Prop :=
  in_u U16_MAX (fm_schema_version m) ∧ in_u U32_MAX (fm_uid m) ∧ in_u U32_MAX (fm_gid m)
  ∧ in_u U32_MAX (fm_permissions m) ∧ in_u U64_MAX (fm_link_count m)
  ∧ in_u U64_MAX (fm_byte_length m)
  ∧ timestamp_typed (rt_access (fm_restorable_timestamps m))
  ∧ timestamp_typed (rt_modification (fm_restorable_timestamps m)).

Lemma frame_inj tag (v1 v2 r1 r2 : bytes) :
  length v1 = length v2 → frame tag v1 ++ r1 = frame tag v2 ++ r2 → v1 = v2 ∧ r1 = r2.
Proof.
  intros Hl E. unfold frame in E. apply (f_equal (drop 1)) in E. cbn [app drop] in E.
  rewrite <- !app_assoc in E.
  replace (len v2) with (len v1) in E by (unfold len; by rewrite Hl).
  apply app_inv_head in E. by apply app_inj_1 in E.
Qed.

Lemma word_frame_inj tag n z1 z2 (r1 r2 : bytes) :
  0 ≤ z1 < 2 ^ (Z.of_nat n * 8) → 0 ≤ z2 < 2 ^ (Z.of_nat n * 8) →
  frame tag (le_split n z1) ++ r1 = frame tag (le_split n z2) ++ r2 → z1 = z2 ∧ r1 = r2.
Proof.
  intros H1 H2 E. apply frame_inj in E as [Hw ->]; [|by rewrite !length_le_split]. split; [|done].
  by destruct (split_word n z1 z2 [] [] H1 H2) as [-> _]; [rewrite !app_nil_r|].
Qed.

Lemma signed_mod_inj a b :
  - 2 ^ 63 ≤ a < 2 ^ 63 → - 2 ^ 63 ≤ b < 2 ^ 63 → a mod 2 ^ 64 = b mod 2 ^ 64 → a = b.
Proof. intros Ha Hb E. pose proof (Z.div_mod a (2 ^ 64)). pose proof (Z.div_mod b (2 ^ 64)). nia. Qed.

(** The frames determine the metadata. *)
Lemma metadata_frames_inj m1 m2 :
  metadata_typed m1 → metadata_typed m2 → metadata_frames m1 = metadata_frames m2 → m1 = m2.
Proof.
  intros (Hs1 & Hu1 & Hg1 & Hp1 & Hl1 & Hb1 & [Has1 Han1] & [Hms1 Hmn1])
         (Hs2 & Hu2 & Hg2 & Hp2 & Hl2 & Hb2 & [Has2 Han2] & [Hms2 Hmn2]) E.
  unfold metadata_frames, frame_u64 in E. apply app_inv_head in E.
  pose proof (λ x, Z.mod_pos_bound x (2 ^ 64) ltac:(lia)) as Hmod.
  unfold_max.
  apply word_frame_inj in E as [E1 E]; [|simpl; lia..].
  apply frame_inj in E as [E2 E]; [|done].
  apply word_frame_inj in E as [E3 E]; [|simpl; lia..].
  apply word_frame_inj in E as [E4 E]; [|simpl; lia..].
  apply word_frame_inj in E as [E5 E]; [|simpl; lia..].
  apply word_frame_inj in E as [E6 E]; [|simpl; lia..].
  apply frame_inj in E as [E7 E]; [|done].
  apply word_frame_inj in E as [E8 E]; [|simpl; lia..].
  apply word_frame_inj in E as [E9 E]; [|apply Hmod..].
  apply word_frame_inj in E as [E10 E]; [|simpl; lia..].
  apply word_frame_inj in E as [E11 E]; [|apply Hmod..].
  apply (f_equal (λ x, x ++ [])) in E. apply word_frame_inj in E as [E12 _]; [|simpl; lia..].
  apply signed_mod_inj in E9, E11; [|done..].
  destruct m1 as [? t1 ? ? ? ? p1 ? [[] []]], m2 as [? t2 ? ? ? ? p2 ? [[] []]]. simpl in *. subst.
  assert (t1 = t2) as -> by (destruct t1, t2; simpl in E2; done).
  by destruct p1, p2.
Qed.

(** ** Snapshots *)

Section snapshots.
  Context `{Sha256Laws}.

Lemma exact_from_bytes_valid b maximum field :
  len b ≤ maximum →
  exact_validate_max (exact_from_bytes b) maximum field = Ok ()
  ∧ exact_byte_len (exact_from_bytes b) = len b.
Proof.
  intros Hb. unfold exact_validate_max, exact_byte_len, is_lower_hex. simpl.
  rewrite hex_encode_lower, Z.eqb_refl, len_hex_encode.
  replace (2 * len b) with (len b * 2) by lia. rewrite Z.mod_mul, Z.div_mul by lia. simpl.
  by rewrite (proj2 (Z.ltb_ge _ _) Hb).
Qed.

(** What a rollback restores is what was there: a snapshot taken of a file
    and its metadata passes validation and reconstructs exactly those bytes and
    that metadata, within the limit; and a valid snapshot with the same metadata
    digest has the same metadata, or else exhibits a SHA-256 collision. *)
Theorem snapshot_restores b m s maximum :
  snapshot_new b m = Ok s → len b ≤ maximum →
  snapshot_validate s maximum "file snapshot bytes" = Ok ()
  ∧ snapshot_reconstruct s maximum = Ok (mkReconstruction b m)
  ∧ (∀ s', metadata_typed m → metadata_typed (efs_metadata s') →
       snapshot_validate s' maximum "file snapshot bytes" = Ok () →
       efs_metadata_sha256 s' = efs_metadata_sha256 s →
       efs_metadata s' = m ∨ collision (metadata_frames (efs_metadata s')) (metadata_frames m)).
Proof.
  intros Hn Hb. unfold snapshot_new in Hn. inv_ok. breflect. subst s.
  destruct (exact_from_bytes_valid b maximum "file snapshot bytes" Hb) as [Hv Hlen].
  destruct a.
  assert (a0 = digest_from_bytes (metadata_frames m)) as Hd.
  { unfold metadata_deterministic_sha256, metadata_deterministic_bytes in Ha0. inv_ok. by subst. }
  assert (snapshot_validate (mkExactFileSnapshot (exact_from_bytes b) m a0) maximum
            "file snapshot bytes" = Ok ()) as Hsv.
  { unfold snapshot_validate. simpl. rewrite Hv, Ha, Hlen, (proj2 (Z.eqb_eq _ _)), Ha0 by done. simpl.
    rewrite bool_decide_eq_true_2 by done. simpl. rewrite Hd. apply digest_from_bytes_valid. }
  split; [done|]. split.
  - unfold snapshot_reconstruct. rewrite Hsv. simpl. unfold exact_decode. simpl.
    by rewrite hex_decode_encode.
  - intros s' Hm Hm' Hs' He. unfold snapshot_validate in Hs'. inv_ok. breflect.
    unfold metadata_deterministic_sha256, metadata_deterministic_bytes in *. inv_ok. simpl in *.
    assert (digest_from_bytes (metadata_frames (efs_metadata s')) = digest_from_bytes (metadata_frames m))
      as Heq by congruence.
    apply digest_from_bytes_eq in Heq as [Heq|Hc]; [left|by right]. by apply metadata_frames_inj.
Qed.
End snapshots.

Definition demo_metadata : FileMetadataSnapshotV1 :=
  mkFileMetadata 1 FoRegularFile 0 0 mode_600 1 ExactlyOne 3
    (mkRestorable (mkFileTimestamp 5 6) (mkFileTimestamp (-7) 8)).
Definition demo_snapshot : ExactFileSnapshot :=
  mkExactFileSnapshot (mkExactBytes (bs "616263")) demo_metadata
    (@digest_from_bytes toy_sha256 (metadata_frames demo_metadata)).

Lemma snapshot_restores_witness :
  @snapshot_reconstruct toy_sha256 demo_snapshot 100
  = Ok (mkReconstruction (bs "abc") demo_metadata).
Proof.
  exact (proj1 (proj2 (@snapshot_restores toy_sha256 toy_sha256_laws (bs "abc") demo_metadata
    demo_snapshot 100 ltac:(vm_compute; reflexivity) ltac:(vm_compute; discriminate)))).
Defined.
