(* ===== verification/Cleanup.v ===== *)
(** * Provisioning state and cleanup admission

    From [crates/howy-common/src/provisioning/mod.rs]: the classification of an
    installation before provisioning, the identities of an unadopted artifact
    and of its manifest, and the decision whether the artifact may be removed. *)

From S2P Require Import Prelude Bytes Storage Codec Namespace Legacy Cache Config Paths Provision ProvisionAtomic Credential.

(** ** Provisioning state *)

Inductive ExistingProvisioningConfig := ConfigAbsent | ConfigExplicit (mode epoch : Z).
Inductive ExistingProvisioningArtifact :=
  ArtifactAbsent | ArtifactVerified | ArtifactUnverified | ArtifactMismatch.
Record ProvisioningStateInput := mkStateInput {
  si_config : ExistingProvisioningConfig;
  si_artifact : ExistingProvisioningArtifact;
  si_namespace_nonempty : bool;
  si_new_key_requested : bool;
  si_adopt_existing : bool;
}.
Inductive DifferentModeArtifactState := DmAbsent | DmReceipted | DmUnadopted | DmMismatch.
Inductive ProvisioningState :=
| PsFresh | PsAdopt | PsIdempotent | PsUnadopted | PsMismatch | PsMissing | PsNonempty | PsNewKey
| PsDifferentMode (artifact : DifferentModeArtifactState).

Definition permits_automatic_provisioning (s : ProvisioningState) : bool :=
  match s with PsFresh | PsAdopt | PsIdempotent => true | _ => false end.

(** [matches!(config, Explicit { mode, .. } if mode != 1)] *)
Definition different_mode (c : ExistingProvisioningConfig) : bool :=
  match c with ConfigExplicit mode _ => negb (mode =? 1) | ConfigAbsent => false end.

Definition classify_provisioning_state (input : ProvisioningStateInput) : ProvisioningState :=
  if si_namespace_nonempty input && si_new_key_requested input
     && negb (different_mode (si_config input))
  then PsNewKey
  else
    match si_config input with
    | ConfigExplicit mode epoch =>
        if negb (mode =? 1) then
          PsDifferentMode
            match si_artifact input with
            | ArtifactAbsent => DmAbsent
            | ArtifactVerified => DmReceipted
            | ArtifactUnverified => DmUnadopted
            | ArtifactMismatch => DmMismatch
            end
        else if negb (epoch =? MODE1_KEY_EPOCH) then PsMismatch
        else if epoch =? 1 then
          match si_artifact input with
          | ArtifactVerified => PsIdempotent
          | ArtifactAbsent => PsMissing
          | ArtifactUnverified =>
              if si_adopt_existing input then PsAdopt
              else if si_namespace_nonempty input then PsNonempty
              else PsMismatch
          | ArtifactMismatch => PsMismatch
          end
        else PsMismatch
    | ConfigAbsent =>
        match si_artifact input with
        | ArtifactAbsent => if negb (si_namespace_nonempty input) then PsFresh else PsNonempty
        | ArtifactVerified | ArtifactUnverified =>
            if si_adopt_existing input then PsAdopt else PsUnadopted
        | ArtifactMismatch => PsMismatch
        end
    end.

(** ** Artifact identities *)

Record CredentialArtifactSourceIdentityV1 := mkSourceIdentity {
  cs_credential_name : bytes;
  cs_envelope_sha256 : Sha256Digest;
  cs_envelope_size : Z;
  cs_actual_key_id : SystemdCredentialKeyId;
}.
#[export] Instance CredentialArtifactSourceIdentityV1_eq_dec :
  EqDecision CredentialArtifactSourceIdentityV1.
Proof. solve_decision. Defined.

Definition source_validate_shape (s : CredentialArtifactSourceIdentityV1) : pcresult () :=
  _ ← validate_safe_name (cs_credential_name s) 128 "credential source name";
  if (cs_envelope_size s =? 0) || (SYSTEMD_CREDENTIAL_ENCRYPTED_SIZE_MAX <? cs_envelope_size s)
  then Err (InvalidSchema "credential source identity")
  else digest_validate (cs_envelope_sha256 s).

Definition source_validate_expected (s : CredentialArtifactSourceIdentityV1) : pcresult () :=
  _ ← source_validate_shape s;
  if negb (bool_decide (cs_credential_name s = MODE1_CREDENTIAL_NAME))
  then Err (InvalidSchema "credential source identity")
  else Ok ().

Record ArtifactDescriptorIdentityV1 := mkDescriptor {
  ad_path : bytes;
  ad_device_id : Z;
  ad_inode : Z;
  ad_sha256 : Sha256Digest;
  ad_byte_length : Z;
  ad_object_type : FileObjectType;
  ad_uid : Z;
  ad_gid : Z;
  ad_permissions : Z;
  ad_link_count : Z;
  ad_parent_directory : DirectoryIdentityV1;
}.
#[export] Instance ArtifactDescriptorIdentityV1_eq_dec : EqDecision ArtifactDescriptorIdentityV1.
Proof. solve_decision. Defined.

Definition descriptor_validate_shape (d : ArtifactDescriptorIdentityV1) : pcresult () :=
  _ ← validate_absolute_path (ad_path d) "cleanup artifact path";
  if (ad_byte_length d =? 0) || (SYSTEMD_CREDENTIAL_TEXT_SIZE_MAX <? ad_byte_length d)
     || (ad_device_id d =? 0) || (ad_inode d =? 0)
     || bits_outside mode_7777 (ad_permissions d) || (ad_link_count d =? 0)
  then Err (InvalidSchema "cleanup artifact descriptor")
  else
    _ ← digest_validate (ad_sha256 d);
    directory_validate_shape (ad_parent_directory d).

Definition descriptor_validate_expected (d : ArtifactDescriptorIdentityV1) : pcresult () :=
  _ ← descriptor_validate_shape d;
  if negb (bool_decide (ad_path d = MODE1_CREDENTIAL_PATH))
     || negb (bool_decide (ad_object_type d = FoRegularFile))
     || negb (ad_uid d =? 0) || negb (ad_gid d =? 0)
     || negb (ad_permissions d =? mode_600) || negb (ad_link_count d =? 1)
  then Err (InvalidSchema "cleanup artifact descriptor")
  else directory_validate_expected (ad_parent_directory d).

Record CleanupArtifactIdentityV1 := mkCleanupArtifact {
  ca_transaction_id : bytes;
  ca_descriptor : ArtifactDescriptorIdentityV1;
  ca_source : CredentialArtifactSourceIdentityV1;
}.
#[export] Instance CleanupArtifactIdentityV1_eq_dec : EqDecision CleanupArtifactIdentityV1.
Proof. solve_decision. Defined.

Definition artifact_validate_expected (a : CleanupArtifactIdentityV1) : pcresult () :=
  _ ← validate_transaction_id_v1 (ca_transaction_id a) "cleanup transaction id";
  _ ← descriptor_validate_expected (ca_descriptor a);
  _ ← source_validate_expected (ca_source a);
  if ad_byte_length (ca_descriptor a) <? cs_envelope_size (ca_source a)
  then Err (InvalidSchema "cleanup artifact source size")
  else Ok ().

Definition artifact_validate_observed (a : CleanupArtifactIdentityV1) : pcresult () :=
  _ ← validate_transaction_id_v1 (ca_transaction_id a) "cleanup transaction id";
  _ ← descriptor_validate_shape (ca_descriptor a);
  _ ← source_validate_shape (ca_source a);
  if ad_byte_length (ca_descriptor a) <? cs_envelope_size (ca_source a)
  then Err (InvalidSchema "cleanup artifact source size")
  else Ok ().

Record UnadoptedArtifactV1 := mkUnadopted {
  ua_schema_version : Z;
  ua_identity : CleanupArtifactIdentityV1;
}.
#[export] Instance UnadoptedArtifactV1_eq_dec : EqDecision UnadoptedArtifactV1.
Proof. solve_decision. Defined.

Definition unadopted_validate (u : UnadoptedArtifactV1) : pcresult () :=
  if negb (ua_schema_version u =? PROVISIONING_SCHEMA_VERSION)
  then Err (InvalidSchema "unadopted manifest version")
  else artifact_validate_expected (ua_identity u).

Definition unadopted_new (identity : CleanupArtifactIdentityV1) : pcresult UnadoptedArtifactV1 :=
  let manifest := mkUnadopted PROVISIONING_SCHEMA_VERSION identity in
  _ ← unadopted_validate manifest;
  Ok manifest.

Record CleanupManifestIdentityV1 := mkManifestIdentity {
  cm_path : bytes;
  cm_file : AtomicFileIdentityV1;
}.
#[export] Instance CleanupManifestIdentityV1_eq_dec : EqDecision CleanupManifestIdentityV1.
Proof. solve_decision. Defined.

Section manifest.
  Context `{Sha256} `{SerdeJson UnadoptedArtifactV1}.

Definition unadopted_parse (b : bytes) : pcresult UnadoptedArtifactV1 :=
  value ← parse_bounded_json b MAX_RECEIPT_BYTES "unadopted manifest bytes";
  _ ← unadopted_validate value;
  Ok value.

Definition unadopted_deterministic_bytes (u : UnadoptedArtifactV1) : pcresult bytes :=
  _ ← unadopted_validate u;
  canonical_json u MAX_RECEIPT_BYTES "unadopted manifest bytes".

Definition manifest_validate (m : CleanupManifestIdentityV1) (artifact : CleanupArtifactIdentityV1)
    : pcresult () :=
  let expected_path :=
    SECURITY_UNADOPTED_DIRECTORY ++ bs "/" ++ ca_transaction_id artifact ++ bs ".json" in
  manifest ← unadopted_new artifact;
  expected_bytes ← unadopted_deterministic_bytes manifest;
  _ ← atomic_file_validate (cm_file m);
  if negb (bool_decide (cm_path m = expected_path)) || (MAX_PATH_BYTES <? len (cm_path m))
     || negb (bool_decide (af_object_type (cm_file m) = FoRegularFile))
     || negb (af_uid (cm_file m) =? 0) || negb (af_gid (cm_file m) =? 0)
     || negb (af_permissions (cm_file m) =? mode_600)
     || negb (af_link_count (cm_file m) =? 1)
     || negb (af_byte_length (cm_file m) =? len expected_bytes)
     || (MAX_RECEIPT_BYTES <? af_byte_length (cm_file m))
     || negb (bool_decide (af_sha256 (cm_file m) = digest_from_bytes expected_bytes))
  then Err (InvalidSchema "cleanup manifest identity")
  else Ok ().
End manifest.

(** ** Cleanup admission *)

Record CleanupReferences := mkReferences {
  cr_config : bool;
  cr_receipt : bool;
  cr_dropin : bool;
  cr_journal : bool;
  cr_active_transaction : bool;
  cr_effective_unit : bool;
}.
#[export] Instance CleanupReferences_eq_dec : EqDecision CleanupReferences.
Proof. solve_decision. Defined.

Record CleanupStateInput := mkCleanupInput {
  ci_expected_artifact : CleanupArtifactIdentityV1;
  ci_observed_artifact : CleanupArtifactIdentityV1;
  ci_references : CleanupReferences;
  ci_service : UnitObservation;
  ci_socket : UnitObservation;
  ci_readiness_transient_exists : bool;
  ci_daemon_responded : bool;
}.

Inductive CleanupRefusal :=
| ExpectedIdentityInvalid | ObservedIdentityInvalid | TransactionMismatch | PathMismatch
| ObjectIdentityMismatch | HashMismatch | LengthMismatch | TypeMismatch | OwnershipMismatch
| ModeMismatch | LinkMismatch | DirectoryMismatch | SourceMismatch | ConfigReference
| ReceiptReference | DropinReference | JournalReference | ActiveTransaction
| EffectiveUnitReference | UnitNotInactive | UnitUnstable | UnitTransitional | UnitJobQueued
| ReadinessTransient | DaemonReference.
Inductive CleanupAdmissibility := CleanupAdmissible | CleanupRefuse (why : CleanupRefusal).
#[export] Instance CleanupRefusal_eq_dec : EqDecision CleanupRefusal.
Proof. solve_decision. Defined.
#[export] Instance CleanupAdmissibility_eq_dec : EqDecision CleanupAdmissibility.
Proof. solve_decision. Defined.

(** The chain of early returns: the first condition that holds refuses. *)
Fixpoint first_refusal (checks : list (bool * CleanupRefusal)) : CleanupAdmissibility :=
  match checks with
  | [] => CleanupAdmissible
  | (holds, why) :: rest => if holds then CleanupRefuse why else first_refusal rest
  end.

(** The body of the loop over the two units. *)
Definition unit_refusals (unit : UnitObservation) : list (bool * CleanupRefusal) :=
  [ (uo_has_queued_job unit, UnitJobQueued);
    (transitional (uo_active_state unit), UnitTransitional);
    (negb (bool_decide (uo_load_state unit = ULoaded))
     || negb (is_admissible (uo_unit_file_state unit))
     || bool_decide (uo_active_state unit = UActiveFailed)
     || bool_decide (uo_sub_state unit = SubFailed), UnitUnstable);
    (negb (bool_decide (uo_active_state unit = UInactive))
     || negb (bool_decide (uo_sub_state unit = SubDead)), UnitNotInactive) ].

Definition classify_cleanup_admissibility (input : CleanupStateInput) : CleanupAdmissibility :=
  let expected := ci_expected_artifact input in
  let observed := ci_observed_artifact input in
  let ed := ca_descriptor expected in
  let od := ca_descriptor observed in
  let refs := ci_references input in
  first_refusal
    ([ (negb (is_ok (artifact_validate_expected expected)), ExpectedIdentityInvalid);
       (negb (is_ok (artifact_validate_observed observed)), ObservedIdentityInvalid);
       (negb (bool_decide (ca_transaction_id expected = ca_transaction_id observed)),
        TransactionMismatch);
       (negb (bool_decide (ad_path ed = ad_path od)), PathMismatch);
       (negb (ad_device_id ed =? ad_device_id od) || negb (ad_inode ed =? ad_inode od),
        ObjectIdentityMismatch);
       (negb (bool_decide (ad_sha256 ed = ad_sha256 od)), HashMismatch);
       (negb (ad_byte_length ed =? ad_byte_length od), LengthMismatch);
       (negb (bool_decide (ad_object_type ed = ad_object_type od)), TypeMismatch);
       (negb (ad_uid ed =? ad_uid od) || negb (ad_gid ed =? ad_gid od), OwnershipMismatch);
       (negb (ad_permissions ed =? ad_permissions od), ModeMismatch);
       (negb (ad_link_count ed =? ad_link_count od), LinkMismatch);
       (negb (bool_decide (ad_parent_directory ed = ad_parent_directory od)), DirectoryMismatch);
       (negb (bool_decide (ca_source expected = ca_source observed)), SourceMismatch);
       (cr_config refs, ConfigReference);
       (cr_receipt refs, ReceiptReference);
       (cr_dropin refs, DropinReference);
       (cr_journal refs, JournalReference);
       (cr_active_transaction refs, ActiveTransaction);
       (cr_effective_unit refs, EffectiveUnitReference);
       (ci_readiness_transient_exists input, ReadinessTransient);
       (ci_daemon_responded input, DaemonReference);
       (negb (bool_decide (uo_unit_kind (ci_service input) = UkService))
        || negb (bool_decide (uo_unit_kind (ci_socket input) = UkSocket)), UnitUnstable) ]
     ++ unit_refusals (ci_service input) ++ unit_refusals (ci_socket input)).

Record CleanupPreAdmissionV1 := mkPreAdmission {
  pa_observed_artifact : CleanupArtifactIdentityV1;
  pa_references : CleanupReferences;
  pa_service : UnitObservation;
  pa_socket : UnitObservation;
  pa_readiness_transient_exists : bool;
  pa_daemon_responded : bool;
  pa_effective_units : EffectiveUnitSetV1;
}.
#[export] Instance CleanupPreAdmissionV1_eq_dec : EqDecision CleanupPreAdmissionV1.
Proof. solve_decision. Defined.

Definition pre_admission_validate (p : CleanupPreAdmissionV1)
    (expected_artifact : CleanupArtifactIdentityV1) : pcresult () :=
  if negb (bool_decide (eu_unit_kind (es_service (pa_effective_units p)) = UkService))
     || negb (bool_decide (eu_unit_kind (es_socket (pa_effective_units p)) = UkSocket))
     || negb (bool_decide (classify_cleanup_admissibility
                (mkCleanupInput expected_artifact (pa_observed_artifact p) (pa_references p)
                   (pa_service p) (pa_socket p) (pa_readiness_transient_exists p)
                   (pa_daemon_responded p)) = CleanupAdmissible))
  then Err (InvalidSchema "cleanup pre-admission")
  else Ok ().

(** Quarantine of the removed artifact. *)
Inductive CleanupQuarantineStateV1 := QPlanned | QRenamed | QRemoved | QRestored.
#[export] Instance CleanupQuarantineStateV1_eq_dec : EqDecision CleanupQuarantineStateV1.
Proof. solve_decision. Defined.
Record CleanupQuarantineV1 := mkQuarantine {
  cq_path : bytes;
  cq_state : CleanupQuarantineStateV1;
}.
#[export] Instance CleanupQuarantineV1_eq_dec : EqDecision CleanupQuarantineV1.
Proof. solve_decision. Defined.

Definition quarantine_validate (q : CleanupQuarantineV1) (transaction_id : bytes) : pcresult () :=
  let expected :=
    MODE1_CREDENTIAL_DIRECTORY ++ bs "/.howy-" ++ transaction_id ++ bs ".quarantine" in
  if negb (bool_decide (cq_path q = expected)) || (MAX_PATH_BYTES <? len (cq_path q))
  then Err (InvalidSchema "cleanup quarantine path")
  else Ok ().

(** ** When the artifact may be removed *)

(** A unit at rest: loaded, neither masked nor bad, stopped, nothing queued. *)
Definition quiescent (kind : UnitKind) (unit : UnitObservation) : Prop :=
  uo_unit_kind unit = kind ∧ uo_load_state unit = ULoaded
  ∧ is_admissible (uo_unit_file_state unit) = true
  ∧ uo_active_state unit = UInactive ∧ uo_sub_state unit = SubDead
  ∧ uo_has_queued_job unit = false.

Definition no_references : CleanupReferences := mkReferences false false false false false false.

Lemma first_refusal_none checks :
  first_refusal checks = CleanupAdmissible ↔ Forall (λ c, c.1 = false) checks.
Proof.
  induction checks as [|[[] why] checks IH]; simpl.
  - by split; [constructor|].
  - split; [done|]. intros Hf. by inversion Hf.
  - rewrite IH. split; [by constructor|]. intros Hf. by inversion Hf.
Qed.

Lemma first_refusal_some checks why :
  first_refusal checks = CleanupRefuse why ↔
  ∃ pre post, checks = pre ++ (true, why) :: post ∧ Forall (λ c, c.1 = false) pre.
Proof.
  induction checks as [|[[] w] checks IH]; simpl.
  - split; [done|]. intros (pre & post & He & _). by destruct pre.
  - split; [intros [= ->]; by exists [], checks|].
    intros (pre & post & He & Hf). destruct pre as [|c pre]; [by injection He as -> _|].
    injection He as <- _. by inversion Hf.
  - rewrite IH. split; intros (pre & post & He & Hf).
    + exists ((false, w) :: pre), post. rewrite He. split; [done|by constructor].
    + destruct pre as [|c pre]; [done|]. injection He as <- ->. inversion Hf. by exists pre, post.
Qed.

Lemma unit_refusals_none kind unit :
  uo_unit_kind unit = kind →
  Forall (λ c : bool * CleanupRefusal, c.1 = false) (unit_refusals unit) ↔ quiescent kind unit.
Proof.
  intros Hk. unfold unit_refusals, quiescent. rewrite !Forall_cons, Forall_nil. simpl.
  destruct unit as [k l a s f j]. simpl in *. subst k.
  destruct l, a, s, j; simpl; try (split; intros; destruct_and?; discriminate);
    rewrite ?orb_false_r, ?negb_false_iff; naive_solver.
Qed.

(** What the expected identity must be, the observed one need only look like. *)
Lemma artifact_expected_observed a :
  artifact_validate_expected a = Ok () → artifact_validate_observed a = Ok ().
Proof.
  unfold artifact_validate_expected, artifact_validate_observed, descriptor_validate_expected,
    source_validate_expected.
  intros Hv. inv_ok. repeat match goal with u : () |- _ => destruct u end.
  by repeat match goal with H : _ = _ |- _ => rewrite H; clear H; simpl end.
Qed.

(** C20: Cleanup is admitted exactly when the recorded identity is that of the
    one credential artifact, the observed artifact is identical to it in every
    field, nothing refers to it, no readiness unit and no daemon is alive, and
    service and socket are both at rest. *)
Theorem cleanup_admitted_iff input :
  classify_cleanup_admissibility input = CleanupAdmissible ↔
  artifact_validate_expected (ci_expected_artifact input) = Ok ()
  ∧ ci_observed_artifact input = ci_expected_artifact input
  ∧ ci_references input = no_references
  ∧ ci_readiness_transient_exists input = false ∧ ci_daemon_responded input = false
  ∧ quiescent UkService (ci_service input) ∧ quiescent UkSocket (ci_socket input).
Proof.
  unfold classify_cleanup_admissibility. rewrite first_refusal_none, !Forall_app, !Forall_cons,
    Forall_nil. cbn [fst].
  rewrite !orb_false_iff, !negb_false_iff, !is_ok_unit, !Z.eqb_eq, !bool_decide_eq_true.
  split.
  - intros [Hids [Hsvc Hsock]]. destruct_and! Hids.
    apply (unit_refusals_none UkService) in Hsvc; [|done].
    apply (unit_refusals_none UkSocket) in Hsock; [|done].
    destruct input as [[et [] es] [ot [] os] [] svc sock tr dr]. simpl in *. subst.
    split_and!; done.
  - intros (He & Ho & Hr & Ht & Hd & Hsvc & Hsock). rewrite Ho, Hr. 
    pose proof (artifact_expected_observed _ He).
    pose proof (proj1 Hsvc). pose proof (proj1 Hsock).
    rewrite !(unit_refusals_none UkService) by done. rewrite (unit_refusals_none UkSocket) by done.
    split_and!; done.
Qed.

(** Automatic provisioning runs exactly on a fresh installation, on an adopted
    artifact, and on the one it provisioned itself: never over another mode or
    epoch, never over enrolled records without the verified artifact they were
    encrypted for, and never when a new key would orphan them. *)
Lemma automatic_provisioning_iff input :
  permits_automatic_provisioning (classify_provisioning_state input) = true ↔
  ¬ (si_namespace_nonempty input = true ∧ si_new_key_requested input = true)
  ∧ match si_config input, si_artifact input with
    | ConfigAbsent, ArtifactAbsent => si_namespace_nonempty input = false
    | ConfigAbsent, (ArtifactVerified | ArtifactUnverified) => si_adopt_existing input = true
    | ConfigExplicit mode epoch, ArtifactVerified => mode = 1 ∧ epoch = 1
    | ConfigExplicit mode epoch, ArtifactUnverified =>
        mode = 1 ∧ epoch = 1 ∧ si_adopt_existing input = true
    | _, _ => False
    end.
Proof.
  destruct input as [[|mode epoch] artifact nonempty new_key adopt];
    unfold classify_provisioning_state, MODE1_KEY_EPOCH; simpl.
  - destruct nonempty, new_key, artifact, adopt; simpl; naive_solver.
  - destruct (Z.eqb_spec mode 1), (Z.eqb_spec epoch 1), nonempty, new_key, artifact, adopt; simpl;
      naive_solver.
Qed.

(** ** Admissible units *)

(** An observation without its job. *)
Definition stable_of (o : UnitObservation) : StableUnitState :=
  mkStableUnit (uo_unit_kind o) (uo_load_state o) (uo_active_state o) (uo_sub_state o)
    (uo_unit_file_state o).

(** The live classifier and the journal agree: a unit is admissible exactly
    when nothing is queued and its state is one a journal may record, with the
    journal's rollback target; enablement is never touched. *)
Lemma unit_admissible_iff o t m :
  classify_unit_admissibility o = UnitAdmissible t m ↔
  m = false ∧ uo_has_queued_job o = false ∧ stable_unit_validate (stable_of o) = Ok ()
  ∧ rollback_target (stable_of o) = Some t.
Proof.
  destruct o as [k l a s f j].
  unfold classify_unit_admissibility, stable_unit_validate, stable_of, is_admissible. simpl.
  assert (match k, a, s with
          | UkService, UActive, SubRunning => UnitAdmissible ActiveRunning false
          | UkSocket, UActive, (SubListening | SubRunning) => UnitAdmissible ActiveListening false
          | _, UInactive, SubDead => UnitAdmissible InactiveDead false
          | _, _, _ => RefuseUnstable
          end = match rollback_target (mkStableUnit k l a s f) with
                | Some t => UnitAdmissible t false | None => RefuseUnstable end) as ->
    by (destruct k, a, s; reflexivity).
  destruct (rollback_target (mkStableUnit k l a s f)) as [t'|] eqn:Et.
  - assert (bool_decide (a = UActiveFailed) || bool_decide (s = SubFailed) = false) as ->
      by (destruct k, a, s; try reflexivity; discriminate Et).
    assert (transitional a = false) as -> by (destruct a; try reflexivity; by destruct k).
    destruct (is_masked f), (match f with FsBad => true | _ => false end), l, j; simpl; naive_solver.
  - repeat case_match; naive_solver.
Qed.
