(* ===== verification/Journal.v ===== *)
(** * Provisioning journals

    The three durable journals of [crates/howy-common/src/provisioning/mod.rs]:
    the mode-1 transaction, the mode-0 (plaintext) transaction and the
    supervisor that precedes both, each with its validation and the transition
    check between two generations. *)
From S2P Require Import Prelude Bytes Storage Codec Namespace Legacy Cache Config Paths Provision ProvisionAtomic Credential Cleanup.

(** ** Phases *)

Inductive JournalPhase :=
| JpPrepared | JpGuarded | JpUnitsStopped | JpArtifactCommitted | JpDropinCommitted
| JpDisabledConfigCommitted | JpReadinessVerified | JpDisabledReceiptCommitted
| JpDisabledUnitsStarted | JpEnabledConfigCommitted | JpActivationCommitted | JpUnitsStarted
| JpEnabledReceiptCommitted.
#[export] Instance JournalPhase_eq_dec : EqDecision JournalPhase.
Proof. solve_decision. Defined.

Definition JournalPhase_ALL : list JournalPhase :=
  [ JpPrepared; JpGuarded; JpUnitsStopped; JpArtifactCommitted; JpDropinCommitted;
    JpDisabledConfigCommitted; JpReadinessVerified; JpDisabledReceiptCommitted;
    JpDisabledUnitsStarted; JpEnabledConfigCommitted; JpActivationCommitted; JpUnitsStarted;
    JpEnabledReceiptCommitted ].

Definition phase_ordinal (p : JournalPhase) : nat :=
  match p with
  | JpPrepared => 0
  | JpGuarded => 1
  | JpUnitsStopped => 2
  | JpArtifactCommitted => 3
  | JpDropinCommitted => 4
  | JpDisabledConfigCommitted => 5
  | JpReadinessVerified => 6
  | JpDisabledReceiptCommitted => 7
  | JpDisabledUnitsStarted => 8
  | JpEnabledConfigCommitted => 9
  | JpActivationCommitted => 10
  | JpUnitsStarted => 11
  | JpEnabledReceiptCommitted => 12
  end.

(** [if next < ALL.len() { Some(ALL[next]) } else { None }] *)
Definition phase_next (p : JournalPhase) : option JournalPhase :=
  JournalPhase_ALL !! S (phase_ordinal p).

Inductive RecoveryAction :=
| RestorePriorState | CompleteDisabledProvisioning | RestoreDisabledState
| CompleteEnabledActivation.
#[export] Instance RecoveryAction_eq_dec : EqDecision RecoveryAction.
Proof. solve_decision. Defined.

Definition recovery_action_for_phase (p : JournalPhase) : RecoveryAction :=
  match p with
  | JpPrepared | JpGuarded | JpUnitsStopped | JpArtifactCommitted | JpDropinCommitted
  | JpDisabledConfigCommitted | JpReadinessVerified => RestorePriorState
  | JpDisabledReceiptCommitted | JpDisabledUnitsStarted => CompleteDisabledProvisioning
  | JpEnabledConfigCommitted => RestoreDisabledState
  | JpActivationCommitted | JpUnitsStarted | JpEnabledReceiptCommitted => CompleteEnabledActivation
  end.

Inductive PlaintextJournalPhase :=
| PpPrepared | PpGuarded | PpUnitsStopped | PpDropinRemoved | PpEnabledConfigCommitted
| PpActivationCommitted | PpUnitsStarted.
#[export] Instance PlaintextJournalPhase_eq_dec : EqDecision PlaintextJournalPhase.
Proof. solve_decision. Defined.

Definition PlaintextJournalPhase_ALL : list PlaintextJournalPhase :=
  [ PpPrepared; PpGuarded; PpUnitsStopped; PpDropinRemoved; PpEnabledConfigCommitted;
    PpActivationCommitted; PpUnitsStarted ].
Definition plaintext_ordinal (p : PlaintextJournalPhase) : nat :=
  match p with
  | PpPrepared => 0
  | PpGuarded => 1
  | PpUnitsStopped => 2
  | PpDropinRemoved => 3
  | PpEnabledConfigCommitted => 4
  | PpActivationCommitted => 5
  | PpUnitsStarted => 6
  end.
Definition plaintext_next (p : PlaintextJournalPhase) : option PlaintextJournalPhase :=
  PlaintextJournalPhase_ALL !! S (plaintext_ordinal p).

Inductive PlaintextRecoveryAction := PlRestorePriorState | PlCompleteActivation.
#[export] Instance PlaintextRecoveryAction_eq_dec : EqDecision PlaintextRecoveryAction.
Proof. solve_decision. Defined.
Definition plaintext_recovery_action_for_phase (p : PlaintextJournalPhase)
    : PlaintextRecoveryAction :=
  match p with
  | PpPrepared | PpGuarded | PpUnitsStopped | PpDropinRemoved | PpEnabledConfigCommitted =>
      PlRestorePriorState
  | PpActivationCommitted | PpUnitsStarted => PlCompleteActivation
  end.

Inductive SupervisorOperationV1 :=
  OpProvisionMode1 | OpEnableMode1 | OpProvisionMode0 | OpCleanupUnadopted.
#[export] Instance SupervisorOperationV1_eq_dec : EqDecision SupervisorOperationV1.
Proof. solve_decision. Defined.
Inductive SupervisorPhaseV1 :=
| SpPrepared | SpGuarded | SpUnitsStopped | SpDirectoriesReady | SpMutationCommitted
| SpUnitsRestored.
#[export] Instance SupervisorPhaseV1_eq_dec : EqDecision SupervisorPhaseV1.
Proof. solve_decision. Defined.
Definition supervisor_ordinal (p : SupervisorPhaseV1) : nat :=
  match p with
  | SpPrepared => 0
  | SpGuarded => 1
  | SpUnitsStopped => 2
  | SpDirectoriesReady => 3
  | SpMutationCommitted => 4
  | SpUnitsRestored => 5
  end.
Definition supervisor_next (p : SupervisorPhaseV1) : option SupervisorPhaseV1 :=
  match p with
  | SpPrepared => Some SpGuarded
  | SpGuarded => Some SpUnitsStopped
  | SpUnitsStopped => Some SpDirectoriesReady
  | SpDirectoriesReady => Some SpMutationCommitted
  | SpMutationCommitted => Some SpUnitsRestored
  | SpUnitsRestored => None
  end.

(** ** Shared checks *)

Record PlannedObjectHashes := mkPlannedHashes {
  ph_artifact_sha256 : Sha256Digest;
  ph_dropin_sha256 : Sha256Digest;
  ph_disabled_config_sha256 : Sha256Digest;
  ph_enabled_config_sha256 : Sha256Digest;
  ph_disabled_receipt_sha256 : Sha256Digest;
  ph_enabled_receipt_sha256 : Sha256Digest;
}.
#[export] Instance PlannedObjectHashes_eq_dec : EqDecision PlannedObjectHashes.
Proof. solve_decision. Defined.
Definition planned_hashes_validate (h : PlannedObjectHashes) : pcresult () :=
  _ ← digest_validate (ph_artifact_sha256 h);
  _ ← digest_validate (ph_dropin_sha256 h);
  _ ← digest_validate (ph_disabled_config_sha256 h);
  _ ← digest_validate (ph_enabled_config_sha256 h);
  _ ← digest_validate (ph_disabled_receipt_sha256 h);
  digest_validate (ph_enabled_receipt_sha256 h).

Record LiveObjectHashes := mkLiveHashes {
  lh_artifact_sha256 : option Sha256Digest;
  lh_dropin_sha256 : option Sha256Digest;
  lh_config_sha256 : option Sha256Digest;
  lh_disabled_receipt_sha256 : option Sha256Digest;
  lh_enabled_receipt_sha256 : option Sha256Digest;
}.
#[export] Instance LiveObjectHashes_eq_dec : EqDecision LiveObjectHashes.
Proof. solve_decision. Defined.
Record BackupHashes := mkBackupHashes {
  bh_artifact_sha256 : option Sha256Digest;
  bh_config_sha256 : option Sha256Digest;
  bh_dropin_sha256 : option Sha256Digest;
  bh_receipt_sha256 : option Sha256Digest;
}.
#[export] Instance BackupHashes_eq_dec : EqDecision BackupHashes.
Proof. solve_decision. Defined.

Definition validate_mode1_identity (mode epoch : Z) (credential_name : bytes) : pcresult () :=
  if negb (mode =? 1) || negb (epoch =? MODE1_KEY_EPOCH)
     || negb (bool_decide (credential_name = MODE1_CREDENTIAL_NAME))
  then Err (InvalidSchema "mode-1 identity")
  else Ok ().

Definition validate_phase_hash (required : bool) (actual : option Sha256Digest)
    (expected : Sha256Digest) : pcresult () :=
  if (required && negb (bool_decide (actual = Some expected)))
     || (negb required && bool_decide (is_Some actual))
  then Err (InvalidSchema "journal phase hash")
  else Ok ().

Fixpoint validate_optional_digests (digests : list (option Sha256Digest)) : pcresult () :=
  match digests with
  | [] => Ok ()
  | Some digest :: rest => _ ← digest_validate digest; validate_optional_digests rest
  | None :: rest => validate_optional_digests rest
  end.

Definition validate_prior_journal_identity (generation : Z) (prior : option AtomicFileIdentityV1)
    : pcresult () :=
  if negb (Bool.eqb (generation =? 1) (bool_decide (prior = None)))
  then Err (InvalidSchema "prior journal identity presence")
  else match prior with
       | None => Ok ()
       | Some prior =>
           _ ← atomic_file_validate prior;
           if negb (af_uid prior =? 0) || negb (af_gid prior =? 0)
              || negb (af_permissions prior =? mode_600)
           then Err (InvalidSchema "prior journal identity metadata")
           else Ok ()
       end.

(** [if let Some(snapshot) = .. { snapshot.validate(..)?; }] *)
Definition optional_snapshot_validate `{Sha256} (s : option ExactFileSnapshot) (maximum : Z)
    (field : string) : pcresult () :=
  match s with Some s => snapshot_validate s maximum field | None => Ok () end.

(** [if let (Some(snapshot), Some(backup)) = .. && from_bytes(decode()?) != backup] *)
Definition backup_hash_validate `{Sha256} (s : option ExactFileSnapshot)
    (backup : option Sha256Digest) (field : string) : pcresult () :=
  match s, backup with
  | Some s, Some backup =>
      b ← exact_decode (efs_bytes s);
      if negb (bool_decide (digest_from_bytes b = backup)) then Err (InvalidSchema field) else Ok ()
  | _, _ => Ok ()
  end.

(** [is_some() != is_some()] *)
Definition presence_differs {A B} (a : option A) (b : option B) : bool :=
  negb (Bool.eqb (bool_decide (is_Some a)) (bool_decide (is_Some b))).

(** [(None, Some(_)) => next.phase == first, (left, right) => left == right] *)
Definition effective_transition (l r : option EffectiveUnitSetV1) (at_first : bool) : bool :=
  match l, r with None, Some _ => at_first | _, _ => bool_decide (l = r) end.

Section journals.
  Context `{Sha256} `{SerdeJson TransactionGuardV1} `{SerdeJson UnadoptedArtifactV1}.

(** The checks every journal starts with. *)
Definition validate_journal_head (version_field generation_field : string) (schema_version : Z)
    (transaction_id : bytes) (generation : Z) (prior : option AtomicFileIdentityV1)
    (journal_staging_path : bytes) (guard_required : bool)
    (guard : option TransactionGuardIdentityV1) : pcresult () :=
  if negb (schema_version =? PROVISIONING_SCHEMA_VERSION) then Err (InvalidSchema version_field)
  else
    _ ← validate_transaction_id_v1 transaction_id "transaction id";
    if generation =? 0 then Err (InvalidSchema generation_field)
    else
      _ ← validate_prior_journal_identity generation prior;
      _ ← validate_journal_staging_path transaction_id journal_staging_path;
      validate_journal_guard transaction_id guard_required guard.

Definition validate_journal_writes (transaction_id : bytes) (transaction_owned_paths : list bytes)
    (journal_staging_path : bytes) (atomic_writes : list AtomicWriteRecordV1) : pcresult () :=
  _ ← validate_paths transaction_owned_paths;
  _ ← validate_owned_journal_staging_path transaction_owned_paths journal_staging_path;
  validate_atomic_write_records transaction_id transaction_owned_paths atomic_writes.
End journals.

(** * The mode-1 journal

    [ProvisioningJournalV1] and [validate_journal_transition] of
    [crates/howy-common/src/provisioning/mod.rs]. *)

Record ProvisioningJournalV1 := mkJournal {
  j_schema_version : Z;
  j_transaction_id : bytes;
  j_generation : Z;
  j_prior_journal_identity : option AtomicFileIdentityV1;
  j_journal_staging_path : bytes;
  j_guard : option TransactionGuardIdentityV1;
  j_phase : JournalPhase;
  j_mode : Z;
  j_epoch : Z;
  j_credential_name : bytes;
  j_planned_hashes : PlannedObjectHashes;
  j_live_hashes : LiveObjectHashes;
  j_transaction_owned_paths : list bytes;
  j_atomic_writes : list AtomicWriteRecordV1;
  j_security_directories : list SecurityDirectoryRecordV1;
  j_artifact_preexisted : bool;
  j_transient_unit : bytes;
  j_prior_config : option ExactFileSnapshot;
  j_prior_dropin : option ExactFileSnapshot;
  j_prior_receipt : option ExactFileSnapshot;
  j_service_unit_state : StableUnitState;
  j_socket_unit_state : StableUnitState;
  j_post_provision_service_target : StableUnitState;
  j_post_provision_socket_target : StableUnitState;
  j_prior_daemon_invocation_id : option bytes;
  j_prior_effective_units : EffectiveUnitSetV1;
  j_effective_units : option EffectiveUnitSetV1;
  j_backup_hashes : BackupHashes;
  j_recovery_action : RecoveryAction;
  j_supervisor_failed : bool;
}.
#[export] Instance ProvisioningJournalV1_eq_dec : EqDecision ProvisioningJournalV1.
Proof. solve_decision. Defined.

(** The phase reached so far: [phase.ordinal() >= other.ordinal()]. *)
Definition reached (j : ProvisioningJournalV1) (p : JournalPhase) : bool :=
  Nat.leb (phase_ordinal p) (phase_ordinal (j_phase j)).

(** [ProvisioningJournalV1::validate_live_hash_matrix] *)
Definition validate_live_hash_matrix (j : ProvisioningJournalV1) : pcresult () :=
  let planned := j_planned_hashes j in
  let live := j_live_hashes j in
  _ ← validate_phase_hash (reached j JpArtifactCommitted) (lh_artifact_sha256 live)
        (ph_artifact_sha256 planned);
  _ ← validate_phase_hash (reached j JpDropinCommitted) (lh_dropin_sha256 live)
        (ph_dropin_sha256 planned);
  let expected_config :=
    if negb (reached j JpDisabledConfigCommitted) then None
    else if negb (reached j JpEnabledConfigCommitted) then Some (ph_disabled_config_sha256 planned)
    else Some (ph_enabled_config_sha256 planned) in
  if negb (bool_decide (lh_config_sha256 live = expected_config))
  then Err (InvalidSchema "journal live config hash")
  else
    _ ← validate_phase_hash (reached j JpDisabledReceiptCommitted) (lh_disabled_receipt_sha256 live)
          (ph_disabled_receipt_sha256 planned);
    validate_phase_hash (reached j JpEnabledReceiptCommitted) (lh_enabled_receipt_sha256 live)
      (ph_enabled_receipt_sha256 planned).

Section mode1.
  Context `{Sha256} `{SerdeJson TransactionGuardV1}.

(** Prior snapshots and the digests that back them up. *)
Definition validate_backups (j : ProvisioningJournalV1) : pcresult () :=
  _ ← optional_snapshot_validate (j_prior_config j) MAX_CONFIG_BYTES "prior config bytes";
  _ ← optional_snapshot_validate (j_prior_dropin j) MAX_DROPIN_BYTES "prior drop-in bytes";
  _ ← optional_snapshot_validate (j_prior_receipt j) MAX_RECEIPT_BYTES "prior receipt bytes";
  if presence_differs (j_prior_config j) (bh_config_sha256 (j_backup_hashes j))
     || presence_differs (j_prior_dropin j) (bh_dropin_sha256 (j_backup_hashes j))
     || presence_differs (j_prior_receipt j) (bh_receipt_sha256 (j_backup_hashes j))
     || negb (Bool.eqb (j_artifact_preexisted j)
                (bool_decide (is_Some (bh_artifact_sha256 (j_backup_hashes j)))))
  then Err (InvalidSchema "journal backup presence")
  else
    _ ← backup_hash_validate (j_prior_config j) (bh_config_sha256 (j_backup_hashes j))
          "config backup hash";
    _ ← backup_hash_validate (j_prior_dropin j) (bh_dropin_sha256 (j_backup_hashes j))
          "drop-in backup hash";
    _ ← backup_hash_validate (j_prior_receipt j) (bh_receipt_sha256 (j_backup_hashes j))
          "receipt backup hash";
    if match bh_artifact_sha256 (j_backup_hashes j) with
       | Some backup => negb (bool_decide (backup = ph_artifact_sha256 (j_planned_hashes j)))
       | None => false
       end
    then Err (InvalidSchema "artifact backup hash")
    else Ok ().

(** Unit states, their targets and the effective units. *)
Definition validate_units (j : ProvisioningJournalV1) : pcresult () :=
  _ ← stable_unit_validate (j_service_unit_state j);
  _ ← stable_unit_validate (j_socket_unit_state j);
  if negb (bool_decide (su_unit_kind (j_service_unit_state j) = UkService))
     || negb (bool_decide (su_unit_kind (j_socket_unit_state j) = UkSocket))
  then Err (InvalidSchema "unit kind")
  else
    '(service_target, socket_target) ←
      disabled_post_provision_unit_targets (j_service_unit_state j) (j_socket_unit_state j);
    if negb (bool_decide (j_post_provision_service_target j = service_target))
       || negb (bool_decide (j_post_provision_socket_target j = socket_target))
    then Err (InvalidSchema "post-provision unit target")
    else
      _ ← validate_prior_daemon_invocation (j_service_unit_state j) (j_prior_daemon_invocation_id j);
      if negb (bool_decide (eu_unit_kind (es_service (j_prior_effective_units j)) = UkService))
         || negb (bool_decide (eu_unit_kind (es_socket (j_prior_effective_units j)) = UkSocket))
      then Err (InvalidSchema "prior effective unit kind")
      else if negb (Bool.eqb (reached j JpDropinCommitted)
                      (bool_decide (is_Some (j_effective_units j))))
      then Err (InvalidSchema "journal effective unit presence")
      else match j_effective_units j with
           | Some effective => validate_mode1 effective (ph_dropin_sha256 (j_planned_hashes j))
           | None => Ok ()
           end.

(** [ProvisioningJournalV1::validate] *)
Definition journal_validate (j : ProvisioningJournalV1) : pcresult () :=
  _ ← validate_journal_head "journal version" "journal generation" (j_schema_version j)
        (j_transaction_id j) (j_generation j) (j_prior_journal_identity j)
        (j_journal_staging_path j) (reached j JpGuarded) (j_guard j);
  _ ← validate_mode1_identity (j_mode j) (j_epoch j) (j_credential_name j);
  _ ← planned_hashes_validate (j_planned_hashes j);
  _ ← validate_journal_writes (j_transaction_id j) (j_transaction_owned_paths j)
        (j_journal_staging_path j) (j_atomic_writes j);
  _ ← validate_security_directory_records (j_security_directories j);
  _ ← validate_transient_unit (j_transient_unit j);
  _ ← validate_backups j;
  _ ← validate_units j;
  _ ← validate_optional_digests
        [ bh_artifact_sha256 (j_backup_hashes j); bh_config_sha256 (j_backup_hashes j);
          bh_dropin_sha256 (j_backup_hashes j); bh_receipt_sha256 (j_backup_hashes j) ];
  if negb (bool_decide (j_recovery_action j = recovery_action_for_phase (j_phase j)))
  then Err (InvalidSchema "journal recovery action")
  else validate_live_hash_matrix j.

(** [ProvisioningJournalV1::stable_fields_equal] *)
Definition stable_fields_equal (j next : ProvisioningJournalV1) : bool :=
  (j_schema_version j =? j_schema_version next)
  && bool_decide (j_transaction_id j = j_transaction_id next)
  && bool_decide (j_journal_staging_path j = j_journal_staging_path next)
  && (j_mode j =? j_mode next)
  && (j_epoch j =? j_epoch next)
  && bool_decide (j_credential_name j = j_credential_name next)
  && bool_decide (j_planned_hashes j = j_planned_hashes next)
  && Bool.eqb (j_artifact_preexisted j) (j_artifact_preexisted next)
  && bool_decide (j_transient_unit j = j_transient_unit next)
  && bool_decide (j_prior_config j = j_prior_config next)
  && bool_decide (j_prior_dropin j = j_prior_dropin next)
  && bool_decide (j_prior_receipt j = j_prior_receipt next)
  && bool_decide (j_service_unit_state j = j_service_unit_state next)
  && bool_decide (j_socket_unit_state j = j_socket_unit_state next)
  && bool_decide (j_post_provision_service_target j = j_post_provision_service_target next)
  && bool_decide (j_post_provision_socket_target j = j_post_provision_socket_target next)
  && bool_decide (j_prior_daemon_invocation_id j = j_prior_daemon_invocation_id next)
  && bool_decide (j_prior_effective_units j = j_prior_effective_units next)
  && bool_decide (j_security_directories j = j_security_directories next)
  && bool_decide (j_backup_hashes j = j_backup_hashes next).

(** The kinds of step of [validate_journal_transition]. *)
Definition ordinary_phase (current next : ProvisioningJournalV1) : bool :=
  bool_decide (phase_next (j_phase current) = Some (j_phase next))
  && Bool.eqb (j_supervisor_failed current) (j_supervisor_failed next).
Definition supervisor_phase (current next : ProvisioningJournalV1) : bool :=
  bool_decide (j_phase current = j_phase next)
  && negb (j_supervisor_failed current) && j_supervisor_failed next
  && bool_decide (j_effective_units current = j_effective_units next).
Definition guard_identity_phase (current next : ProvisioningJournalV1) : bool :=
  bool_decide (j_phase current = j_phase next)
  && bool_decide (is_Some (j_guard current)) && bool_decide (is_Some (j_guard next))
  && negb (bool_decide (j_guard current = j_guard next))
  && Bool.eqb (j_supervisor_failed current) (j_supervisor_failed next)
  && bool_decide (j_live_hashes current = j_live_hashes next)
  && bool_decide (j_effective_units current = j_effective_units next)
  && bool_decide (j_recovery_action current = j_recovery_action next)
  && bool_decide (j_atomic_writes current = j_atomic_writes next)
  && bool_decide (j_transaction_owned_paths current = j_transaction_owned_paths next).
Definition atomic_phase (current next : ProvisioningJournalV1) : bool :=
  bool_decide (j_phase current = j_phase next)
  && Bool.eqb (j_supervisor_failed current) (j_supervisor_failed next)
  && bool_decide (j_live_hashes current = j_live_hashes next)
  && bool_decide (j_effective_units current = j_effective_units next)
  && bool_decide (j_recovery_action current = j_recovery_action next)
  && validate_atomic_write_records_transition (j_atomic_writes current) (j_atomic_writes next)
  && validate_atomic_owned_paths_transition (j_transaction_owned_paths current)
       (j_transaction_owned_paths next) (j_atomic_writes current) (j_atomic_writes next).

Definition validate_journal_transition (current next : ProvisioningJournalV1) : pcresult () :=
  _ ← journal_validate current;
  _ ← journal_validate next;
  let effective := effective_transition (j_effective_units current) (j_effective_units next)
                     (bool_decide (j_phase next = JpDropinCommitted)) in
  let supervisor_transition :=
    Bool.eqb (j_supervisor_failed current) (j_supervisor_failed next)
    || (negb (j_supervisor_failed current) && j_supervisor_failed next
        && bool_decide (j_phase current = j_phase next)) in
  let records_stable :=
    atomic_phase current next || bool_decide (j_atomic_writes current = j_atomic_writes next) in
  let paths_stable :=
    atomic_phase current next
    || bool_decide (j_transaction_owned_paths current = j_transaction_owned_paths next) in
  if negb (bool_decide (checked_add (j_generation current) 1 = Some (j_generation next)))
     || negb (validate_guard_transition (j_guard current) (j_guard next)
                (bool_decide (j_phase current = j_phase next)))
     || negb (ordinary_phase current next || supervisor_phase current next
              || atomic_phase current next || guard_identity_phase current next)
     || negb (stable_fields_equal current next)
     || negb effective || negb supervisor_transition || negb records_stable || negb paths_stable
  then Err InvalidTransition
  else Ok ().

(** Reading and writing. *)
Context `{SerdeJson ProvisioningJournalV1}.

Definition journal_parse (b : bytes) : pcresult ProvisioningJournalV1 :=
  value ← parse_bounded_json b MAX_JOURNAL_BYTES "journal bytes";
  _ ← journal_validate value;
  Ok value.
Definition journal_deterministic_bytes (j : ProvisioningJournalV1) : pcresult bytes :=
  _ ← journal_validate j;
  canonical_json j MAX_JOURNAL_BYTES "journal bytes".
Definition journal_deterministic_sha256 (j : ProvisioningJournalV1) : pcresult Sha256Digest :=
  digest_from_bytes <$> journal_deterministic_bytes j.
End mode1.

(** * The mode-0 journal

    [PlaintextProvisioningJournalV1] and [validate_plaintext_journal_transition]
    of [crates/howy-common/src/provisioning/mod.rs]. *)

Record PlaintextProvisioningJournalV1 := mkPlaintextJournal {
  p_schema_version : Z;
  p_transaction_id : bytes;
  p_generation : Z;
  p_prior_journal_identity : option AtomicFileIdentityV1;
  p_journal_staging_path : bytes;
  p_guard : option TransactionGuardIdentityV1;
  p_phase : PlaintextJournalPhase;
  p_enabled_config_sha256 : Sha256Digest;
  p_live_config_sha256 : option Sha256Digest;
  p_transaction_owned_paths : list bytes;
  p_atomic_writes : list AtomicWriteRecordV1;
  p_security_directories : list SecurityDirectoryRecordV1;
  p_prior_config : option ExactFileSnapshot;
  p_prior_dropin : option ExactFileSnapshot;
  p_service_unit_state : StableUnitState;
  p_socket_unit_state : StableUnitState;
  p_prior_daemon_invocation_id : option bytes;
  p_prior_effective_units : EffectiveUnitSetV1;
  p_effective_units : option EffectiveUnitSetV1;
  p_dropin_sha256 : Sha256Digest;
  p_recovery_action : PlaintextRecoveryAction;
  p_supervisor_failed : bool;
}.
#[export] Instance PlaintextProvisioningJournalV1_eq_dec :
  EqDecision PlaintextProvisioningJournalV1.
Proof. solve_decision. Defined.

Definition plaintext_reached (j : PlaintextProvisioningJournalV1) (p : PlaintextJournalPhase) : bool :=
  Nat.leb (plaintext_ordinal p) (plaintext_ordinal (p_phase j)).

Section plaintext_journal.
  Context `{Sha256} `{SerdeJson TransactionGuardV1}.

Definition plaintext_journal_validate (j : PlaintextProvisioningJournalV1) : pcresult () :=
  _ ← validate_journal_head "plaintext journal version" "plaintext journal generation"
        (p_schema_version j) (p_transaction_id j) (p_generation j) (p_prior_journal_identity j)
        (p_journal_staging_path j) (plaintext_reached j PpGuarded) (p_guard j);
  _ ← validate_journal_writes (p_transaction_id j) (p_transaction_owned_paths j)
        (p_journal_staging_path j) (p_atomic_writes j);
  _ ← validate_security_directory_records (p_security_directories j);
  _ ← digest_validate (p_enabled_config_sha256 j);
  _ ← digest_validate (p_dropin_sha256 j);
  _ ← match p_live_config_sha256 j with Some hash => digest_validate hash | None => Ok () end;
  _ ← optional_snapshot_validate (p_prior_config j) MAX_CONFIG_BYTES "prior config bytes";
  _ ← optional_snapshot_validate (p_prior_dropin j) MAX_DROPIN_BYTES "prior drop-in bytes";
  _ ← stable_unit_validate (p_service_unit_state j);
  _ ← stable_unit_validate (p_socket_unit_state j);
  _ ← validate_prior_daemon_invocation (p_service_unit_state j) (p_prior_daemon_invocation_id j);
  if negb (bool_decide (su_unit_kind (p_service_unit_state j) = UkService))
     || negb (bool_decide (su_unit_kind (p_socket_unit_state j) = UkSocket))
     || negb (bool_decide (p_recovery_action j = plaintext_recovery_action_for_phase (p_phase j)))
  then Err (InvalidSchema "plaintext journal state")
  else if negb (Bool.eqb (plaintext_reached j PpDropinRemoved)
                  (bool_decide (is_Some (p_effective_units j))))
  then Err (InvalidSchema "plaintext journal effective unit presence")
  else
    _ ← match p_effective_units j with
        | Some effective => validate_mode0 effective (p_dropin_sha256 j)
        | None => Ok ()
        end;
    if negb (bool_decide (p_live_config_sha256 j
                          = if plaintext_reached j PpEnabledConfigCommitted
                            then Some (p_enabled_config_sha256 j) else None))
    then Err (InvalidSchema "plaintext journal live config hash")
    else Ok ().

Definition plaintext_stable_fields_equal (j next : PlaintextProvisioningJournalV1) : bool :=
  (p_schema_version j =? p_schema_version next)
  && bool_decide (p_transaction_id j = p_transaction_id next)
  && bool_decide (p_journal_staging_path j = p_journal_staging_path next)
  && bool_decide (p_enabled_config_sha256 j = p_enabled_config_sha256 next)
  && bool_decide (p_prior_config j = p_prior_config next)
  && bool_decide (p_prior_dropin j = p_prior_dropin next)
  && bool_decide (p_service_unit_state j = p_service_unit_state next)
  && bool_decide (p_socket_unit_state j = p_socket_unit_state next)
  && bool_decide (p_prior_daemon_invocation_id j = p_prior_daemon_invocation_id next)
  && bool_decide (p_prior_effective_units j = p_prior_effective_units next)
  && bool_decide (p_dropin_sha256 j = p_dropin_sha256 next)
  && bool_decide (p_security_directories j = p_security_directories next).

(** The kinds of step of [validate_plaintext_journal_transition]. *)
Definition plaintext_ordinary_phase (current next : PlaintextProvisioningJournalV1) : bool :=
  bool_decide (plaintext_next (p_phase current) = Some (p_phase next))
  && Bool.eqb (p_supervisor_failed current) (p_supervisor_failed next).
Definition plaintext_supervisor_phase (current next : PlaintextProvisioningJournalV1) : bool :=
  bool_decide (p_phase current = p_phase next)
  && negb (p_supervisor_failed current) && p_supervisor_failed next
  && bool_decide (p_effective_units current = p_effective_units next).
Definition plaintext_guard_identity_phase (current next : PlaintextProvisioningJournalV1) : bool :=
  bool_decide (p_phase current = p_phase next)
  && bool_decide (is_Some (p_guard current)) && bool_decide (is_Some (p_guard next))
  && negb (bool_decide (p_guard current = p_guard next))
  && Bool.eqb (p_supervisor_failed current) (p_supervisor_failed next)
  && bool_decide (p_live_config_sha256 current = p_live_config_sha256 next)
  && bool_decide (p_effective_units current = p_effective_units next)
  && bool_decide (p_recovery_action current = p_recovery_action next)
  && bool_decide (p_atomic_writes current = p_atomic_writes next)
  && bool_decide (p_transaction_owned_paths current = p_transaction_owned_paths next).
Definition plaintext_atomic_phase (current next : PlaintextProvisioningJournalV1) : bool :=
  bool_decide (p_phase current = p_phase next)
  && Bool.eqb (p_supervisor_failed current) (p_supervisor_failed next)
  && bool_decide (p_live_config_sha256 current = p_live_config_sha256 next)
  && bool_decide (p_effective_units current = p_effective_units next)
  && bool_decide (p_recovery_action current = p_recovery_action next)
  && validate_atomic_write_records_transition (p_atomic_writes current) (p_atomic_writes next)
  && validate_atomic_owned_paths_transition (p_transaction_owned_paths current)
       (p_transaction_owned_paths next) (p_atomic_writes current) (p_atomic_writes next).

Definition validate_plaintext_journal_transition (current next : PlaintextProvisioningJournalV1)
    : pcresult () :=
  _ ← plaintext_journal_validate current;
  _ ← plaintext_journal_validate next;
  let effective := effective_transition (p_effective_units current) (p_effective_units next)
                     (bool_decide (p_phase next = PpDropinRemoved)) in
  let records_stable :=
    plaintext_atomic_phase current next
    || bool_decide (p_atomic_writes current = p_atomic_writes next) in
  let paths_stable :=
    plaintext_atomic_phase current next
    || bool_decide (p_transaction_owned_paths current = p_transaction_owned_paths next) in
  if negb (bool_decide (checked_add (p_generation current) 1 = Some (p_generation next)))
     || negb (validate_guard_transition (p_guard current) (p_guard next)
                (bool_decide (p_phase current = p_phase next)))
     || negb (plaintext_ordinary_phase current next || plaintext_supervisor_phase current next
              || plaintext_atomic_phase current next
              || plaintext_guard_identity_phase current next)
     || negb (plaintext_stable_fields_equal current next)
     || negb effective || negb records_stable || negb paths_stable
  then Err InvalidTransition
  else Ok ().

Context `{SerdeJson PlaintextProvisioningJournalV1}.
Definition plaintext_journal_parse (b : bytes) : pcresult PlaintextProvisioningJournalV1 :=
  value ← parse_bounded_json b MAX_JOURNAL_BYTES "journal bytes";
  _ ← plaintext_journal_validate value;
  Ok value.
Definition plaintext_journal_deterministic_bytes (j : PlaintextProvisioningJournalV1)
    : pcresult bytes :=
  _ ← plaintext_journal_validate j;
  canonical_json j MAX_JOURNAL_BYTES "journal bytes".
End plaintext_journal.

(** * The supervisor journal

    [SupervisorJournalV1] and [validate_supervisor_journal_transition] of
    [crates/howy-common/src/provisioning/mod.rs]: the durable intent written
    before the guard and before any persistent change. *)

Record SupervisorJournalV1 := mkSupervisorJournal {
  s_schema_version : Z;
  s_transaction_id : bytes;
  s_generation : Z;
  s_prior_journal_identity : option AtomicFileIdentityV1;
  s_journal_staging_path : bytes;
  s_guard : option TransactionGuardIdentityV1;
  s_operation : SupervisorOperationV1;
  s_phase : SupervisorPhaseV1;
  s_prior_config : option ExactFileSnapshot;
  s_prior_dropin : option ExactFileSnapshot;
  s_prior_receipt : option ExactFileSnapshot;
  s_service_unit_state : option StableUnitState;
  s_socket_unit_state : option StableUnitState;
  s_prior_daemon_invocation_id : option bytes;
  s_prior_effective_units : option EffectiveUnitSetV1;
  s_transaction_owned_paths : list bytes;
  s_atomic_writes : list AtomicWriteRecordV1;
  s_security_directories : list SecurityDirectoryRecordV1;
  s_cleanup_artifact : option CleanupArtifactIdentityV1;
  s_cleanup_manifest : option CleanupManifestIdentityV1;
  s_cleanup_pre_admission : option CleanupPreAdmissionV1;
  s_cleanup_quarantine : option CleanupQuarantineV1;
  s_supervisor_failed : bool;
}.
#[export] Instance SupervisorJournalV1_eq_dec : EqDecision SupervisorJournalV1.
Proof. solve_decision. Defined.

Definition supervisor_reached (j : SupervisorJournalV1) (p : SupervisorPhaseV1) : bool :=
  Nat.leb (supervisor_ordinal p) (supervisor_ordinal (s_phase j)).

Section supervisor_journal.
  Context `{Sha256} `{SerdeJson TransactionGuardV1} `{SerdeJson UnadoptedArtifactV1}.

(** The unit snapshots: all three are present and consistent. *)
Definition supervisor_units_validate (j : SupervisorJournalV1) : pcresult () :=
  match s_service_unit_state j, s_socket_unit_state j, s_prior_effective_units j with
  | Some service, Some socket, Some effective =>
      _ ← stable_unit_validate service;
      _ ← stable_unit_validate socket;
      if negb (bool_decide (su_unit_kind service = UkService))
         || negb (bool_decide (su_unit_kind socket = UkSocket))
         || negb (bool_decide (eu_unit_kind (es_service effective) = UkService))
         || negb (bool_decide (eu_unit_kind (es_socket effective) = UkSocket))
      then Err (InvalidSchema "supervisor unit kind")
      else validate_prior_daemon_invocation service (s_prior_daemon_invocation_id j)
  | _, _, _ => Err (InvalidSchema "supervisor unit snapshot presence")
  end.

(** The cleanup fields: all four for a cleanup, none otherwise. *)
Definition supervisor_cleanup_validate (j : SupervisorJournalV1) : pcresult () :=
  match s_operation j, s_cleanup_artifact j, s_cleanup_manifest j, s_cleanup_pre_admission j,
        s_cleanup_quarantine j with
  | OpCleanupUnadopted, Some identity, Some manifest, Some pre_admission, Some quarantine =>
      _ ← artifact_validate_expected identity;
      _ ← manifest_validate manifest identity;
      _ ← pre_admission_validate pre_admission identity;
      _ ← quarantine_validate quarantine (s_transaction_id j);
      if negb (owned_path (s_transaction_owned_paths j) (cq_path quarantine))
      then Err (InvalidSchema "transaction-owned cleanup quarantine")
      else Ok ()
  | OpCleanupUnadopted, _, _, _, _ => Err (InvalidSchema "cleanup supervisor identity")
  | _, None, None, None, None => Ok ()
  | _, _, _, _, _ => Err (InvalidSchema "unexpected cleanup supervisor identity")
  end.

Definition supervisor_journal_validate (j : SupervisorJournalV1) : pcresult () :=
  _ ← validate_journal_head "supervisor journal version" "supervisor journal generation"
        (s_schema_version j) (s_transaction_id j) (s_generation j) (s_prior_journal_identity j)
        (s_journal_staging_path j) (supervisor_reached j SpGuarded) (s_guard j);
  _ ← validate_journal_writes (s_transaction_id j) (s_transaction_owned_paths j)
        (s_journal_staging_path j) (s_atomic_writes j);
  _ ← (if supervisor_reached j SpDirectoriesReady
       then validate_security_directory_records (s_security_directories j)
       else validate_security_directory_record_prefix (s_security_directories j));
  _ ← optional_snapshot_validate (s_prior_config j) MAX_CONFIG_BYTES "prior config bytes";
  _ ← optional_snapshot_validate (s_prior_dropin j) MAX_DROPIN_BYTES "prior drop-in bytes";
  _ ← optional_snapshot_validate (s_prior_receipt j) MAX_RECEIPT_BYTES "prior receipt bytes";
  _ ← supervisor_units_validate j;
  supervisor_cleanup_validate j.

(** [validate_security_directory_records_transition] *)
Definition validate_security_directory_records_transition
    (current_phase next_phase : SupervisorPhaseV1)
    (current next : list SecurityDirectoryRecordV1) : bool :=
  if bool_decide (current = next) then true
  else if negb (bool_decide (current_phase = SpUnitsStopped))
          || negb (bool_decide (next_phase = SpUnitsStopped))
  then false
  else if (len next =? len current + 1) && bool_decide (take (length current) next = current)
          && match last next with
             | Some record =>
                 bool_decide (sd_observed_directory record = None)
                 && bool_decide (Some (sd_path record)
                                 = fst <$> REQUIRED_SECURITY_DIRECTORIES !! length current)
             | None => false
             end
  then true
  else if (len next =? len current) && negb (bool_decide (current = [])) then
    match last current, last next with
    | Some l, Some r =>
        bool_decide (take (length current - 1) current = take (length current - 1) next)
        && bool_decide (sd_path l = sd_path r)
        && (sd_uid l =? sd_uid r) && (sd_gid l =? sd_gid r)
        && (sd_permissions l =? sd_permissions r)
        && bool_decide (sd_parent_directory l = sd_parent_directory r)
        && bool_decide (sd_expected_directory l = sd_expected_directory r)
        && Bool.eqb (sd_preexisted l) (sd_preexisted r)
        && bool_decide (sd_observed_directory l = None)
        && bool_decide (is_Some (sd_observed_directory r))
    | _, _ => false
    end
  else false.

(** The states a quarantine may go through. *)
Definition quarantine_state_step (l r : CleanupQuarantineStateV1) : bool :=
  match l, r with
  | QPlanned, QPlanned | QPlanned, QRenamed | QRenamed, QRenamed | QRenamed, QRemoved
  | QRenamed, QRestored | QRemoved, QRemoved | QRestored, QRestored => true
  | _, _ => false
  end.
Definition quarantine_transition (l r : option CleanupQuarantineV1) : bool :=
  match l, r with
  | None, None => true
  | Some l, Some r =>
      if bool_decide (cq_path l = cq_path r) then quarantine_state_step (cq_state l) (cq_state r)
      else false
  | _, _ => false
  end.

Definition units_transition (current next : SupervisorJournalV1) : bool :=
  bool_decide (s_service_unit_state current = s_service_unit_state next)
  && bool_decide (s_socket_unit_state current = s_socket_unit_state next)
  && bool_decide (s_prior_daemon_invocation_id current = s_prior_daemon_invocation_id next)
  && bool_decide (s_prior_effective_units current = s_prior_effective_units next).
Definition snapshots_stable (current next : SupervisorJournalV1) : bool :=
  (s_schema_version current =? s_schema_version next)
  && bool_decide (s_transaction_id current = s_transaction_id next)
  && bool_decide (s_journal_staging_path current = s_journal_staging_path next)
  && bool_decide (s_operation current = s_operation next)
  && bool_decide (s_prior_config current = s_prior_config next)
  && bool_decide (s_prior_dropin current = s_prior_dropin next)
  && bool_decide (s_prior_receipt current = s_prior_receipt next)
  && bool_decide (s_transaction_owned_paths current = s_transaction_owned_paths next)
  && bool_decide (s_cleanup_artifact current = s_cleanup_artifact next)
  && bool_decide (s_cleanup_manifest current = s_cleanup_manifest next)
  && bool_decide (s_cleanup_pre_admission current = s_cleanup_pre_admission next).

(** The kinds of step of [validate_supervisor_journal_transition]. *)
Definition same_phase (current next : SupervisorJournalV1) : bool :=
  bool_decide (s_phase current = s_phase next).
Definition same_failed (current next : SupervisorJournalV1) : bool :=
  Bool.eqb (s_supervisor_failed current) (s_supervisor_failed next).
Definition supervisor_ordinary (current next : SupervisorJournalV1) : bool :=
  (bool_decide (supervisor_next (s_phase current) = Some (s_phase next))
   || (bool_decide (s_phase current = SpUnitsStopped) && bool_decide (s_phase next = SpUnitsRestored))
   || (bool_decide (s_phase current = SpDirectoriesReady)
       && bool_decide (s_phase next = SpUnitsRestored)))
  && same_failed current next.
Definition supervisor_fail_closed (current next : SupervisorJournalV1) : bool :=
  same_phase current next && negb (s_supervisor_failed current) && s_supervisor_failed next.
Definition supervisor_guard_identity (current next : SupervisorJournalV1) : bool :=
  same_phase current next
  && bool_decide (is_Some (s_guard current)) && bool_decide (is_Some (s_guard next))
  && negb (bool_decide (s_guard current = s_guard next))
  && same_failed current next
  && bool_decide (s_atomic_writes current = s_atomic_writes next)
  && bool_decide (s_security_directories current = s_security_directories next)
  && bool_decide (s_cleanup_quarantine current = s_cleanup_quarantine next)
  && units_transition current next.
Definition supervisor_directories_transition (current next : SupervisorJournalV1) : bool :=
  validate_security_directory_records_transition (s_phase current) (s_phase next)
    (s_security_directories current) (s_security_directories next).
Definition supervisor_quarantine_phase (current next : SupervisorJournalV1) : bool :=
  same_phase current next && same_failed current next
  && bool_decide (s_atomic_writes current = s_atomic_writes next)
  && negb (bool_decide (s_cleanup_quarantine current = s_cleanup_quarantine next))
  && quarantine_transition (s_cleanup_quarantine current) (s_cleanup_quarantine next).
Definition supervisor_directory_phase (current next : SupervisorJournalV1) : bool :=
  bool_decide (s_phase current = SpUnitsStopped) && bool_decide (s_phase next = SpUnitsStopped)
  && same_failed current next
  && bool_decide (s_atomic_writes current = s_atomic_writes next)
  && bool_decide (s_cleanup_quarantine current = s_cleanup_quarantine next)
  && negb (bool_decide (s_security_directories current = s_security_directories next))
  && supervisor_directories_transition current next.
Definition supervisor_atomic (current next : SupervisorJournalV1) : bool :=
  same_phase current next && same_failed current next && units_transition current next
  && bool_decide (s_security_directories current = s_security_directories next)
  && validate_atomic_write_records_transition (s_atomic_writes current) (s_atomic_writes next).

Definition validate_supervisor_journal_transition (current next : SupervisorJournalV1)
    : pcresult () :=
  _ ← supervisor_journal_validate current;
  _ ← supervisor_journal_validate next;
  let records_stable :=
    supervisor_atomic current next
    || bool_decide (s_atomic_writes current = s_atomic_writes next) in
  if negb (bool_decide (checked_add (s_generation current) 1 = Some (s_generation next)))
     || negb (validate_guard_transition (s_guard current) (s_guard next) (same_phase current next))
     || negb (supervisor_ordinary current next || supervisor_fail_closed current next
              || supervisor_atomic current next || supervisor_quarantine_phase current next
              || supervisor_directory_phase current next || supervisor_guard_identity current next)
     || negb (snapshots_stable current next) || negb (units_transition current next)
     || negb (supervisor_directories_transition current next)
     || negb (quarantine_transition (s_cleanup_quarantine current) (s_cleanup_quarantine next))
     || negb records_stable
  then Err InvalidTransition
  else Ok ().

Context `{SerdeJson SupervisorJournalV1}.
Definition supervisor_journal_parse (b : bytes) : pcresult SupervisorJournalV1 :=
  value ← parse_bounded_json b MAX_JOURNAL_BYTES "supervisor journal bytes";
  _ ← supervisor_journal_validate value;
  Ok value.
Definition supervisor_journal_deterministic_bytes (j : SupervisorJournalV1) : pcresult bytes :=
  _ ← supervisor_journal_validate j;
  canonical_json j MAX_JOURNAL_BYTES "supervisor journal bytes".
End supervisor_journal.
