(* ===== verification/JournalChain.v ===== *)
(** * Journals as state machines

    What the three journals promise a reader that only sees the last
    generation: an interface with the laws of a single accepted transition, and
    the theorems on whole chains of transitions proved against it. *)

From S2P Require Import Prelude Bytes Storage Codec Namespace Legacy Cache Config Paths Provision ProvisionAtomic.

(** ** Write records *)

(** How far a write has come. *)
Definition state_rank (s : AtomicWriteStateV1) : Z :=
  match s with Planned => 0 | Staged _ => 1 | Committed _ => 2 | Aborted | BackupCleaned _ => 3 end.
Definition record_progress (r : AtomicWriteRecordV1) : Z := 1 + state_rank (wr_state r).
Definition records_progress (l : list AtomicWriteRecordV1) : Z :=
  foldr (λ r acc, record_progress r + acc) 0 l.

(** One accepted change: a planned record is appended, or one record moves on. *)
Inductive records_step : list AtomicWriteRecordV1 → list AtomicWriteRecordV1 → Prop :=
| records_append l r : wr_state r = Planned → records_step l (l ++ [r])
| records_update l i r r' :
    l !! i = Some r → validate_record_step r r' = true → records_step l (<[i:=r']> l).

Lemma records_differ_one (c n : list AtomicWriteRecordV1) l r :
  length n = length c → filter (λ p, p.1 ≠ p.2) (zip c n) = [(l, r)] →
  ∃ i, c !! i = Some l ∧ n = <[i:=r]> c.
Proof.
  revert n. induction c as [|x c IH]; intros [|y n] Hl Hf; try done.
  cbn [zip zip_with] in Hf. rewrite filter_cons in Hf. destruct (decide _) as [Hne|He].
  - injection Hf as -> -> Hrest. exists 0%nat. split; [done|]. simpl. f_equal.
    clear -Hl Hrest. injection Hl as Hl. revert n Hl Hrest.
    induction c as [|x c IH]; intros [|y n] Hl Hf; try done.
    cbn [zip zip_with] in Hf. rewrite filter_cons in Hf. destruct (decide _) as [Hne|He]; [done|].
    simpl in He. apply dec_stable in He as <-. f_equal. apply IH; [by injection Hl|done].
  - simpl in He. apply dec_stable in He as <-.
    destruct (IH n) as (i & Hi & ->); [by injection Hl|done|]. by exists (S i).
Qed.

Lemma records_transition_step c n :
  validate_atomic_write_records_transition c n = true → records_step c n.
Proof.
  unfold validate_atomic_write_records_transition. destruct (_ && _ && _) eqn:Eapp.
  - intros _. breflect. destruct (last n) as [r|] eqn:El; [|done]. breflect.
    apply last_Some in El as [l ->]. rename select (take _ _ = _) into Htake.
    assert (length l = length c) as Hlen
      by (rename select (len _ = _) into Hl; rewrite len_app in Hl; unfold len in Hl; simpl in Hl; lia).
    rewrite <- Hlen, take_app_length in Htake. subst l. by constructor.
  - destruct (len n =? len c) eqn:El; [|done]. simpl. breflect.
    destruct (filter _ _) as [|[l r] [|]] eqn:Ef; try done. intros Hs.
    apply records_differ_one in Ef as (i & Hi & ->); [by econstructor|]. unfold len in El. lia.
Qed.

Lemma record_step_rank r r' :
  validate_record_step r r' = true →
  wr_plan r = wr_plan r' ∧ state_rank (wr_state r) < state_rank (wr_state r').
Proof.
  unfold validate_record_step. destruct (negb _) eqn:Ep; [done|]. breflect.
  destruct (wr_state r), (wr_state r'); simpl; try done; intros; split; try done; lia.
Qed.

Lemma records_progress_app l k :
  records_progress (l ++ k) = records_progress l + records_progress k.
Proof. induction l as [|r l IH]; simpl; [done|]. rewrite IH. lia. Qed.

Lemma records_progress_insert l i r r' :
  l !! i = Some r →
  records_progress (<[i:=r']> l) = records_progress l - record_progress r + record_progress r'.
Proof.
  revert i. induction l as [|x l IH]; intros [|i] Hi; simpl in *; try done.
  - injection Hi as ->. lia.
  - rewrite (IH i) by done. lia.
Qed.

Lemma records_step_progress l k : records_step l k → records_progress l < records_progress k.
Proof.
  intros [l' r Hr|l' i r r' Hi Hs].
  - rewrite records_progress_app. assert (records_progress [r] = 1) as ->; [|lia].
    unfold records_progress, record_progress. simpl. by rewrite Hr.
  - rewrite (records_progress_insert _ _ _ _ Hi). apply record_step_rank in Hs as [_ Hs].
    unfold record_progress. lia.
Qed.

Lemma records_progress_bound l : 0 ≤ records_progress l ≤ 4 * len l.
Proof.
  induction l as [|r l IH]; [done|]. rewrite len_cons. simpl. unfold record_progress.
  assert (0 ≤ state_rank (wr_state r) ≤ 3) by (destruct (wr_state r); simpl; lia). lia.
Qed.

(** ** The lifecycle of a write *)

(** Planned, then staged, then committed as exactly what was staged, then
    cleaned; or aborted before the commit. *)
Inductive lifecycle : AtomicWriteStateV1 → AtomicWriteStateV1 → Prop :=
| life_same s : lifecycle s s
| life_stage i s : lifecycle (Staged i) s → lifecycle Planned s
| life_abort : lifecycle Planned Aborted
| life_abort_staged i : lifecycle (Staged i) Aborted
| life_commit i o s : wo_target o = i → lifecycle (Committed o) s → lifecycle (Staged i) s
| life_clean o : is_Some (wo_backup o) → lifecycle (Committed o) (BackupCleaned o).

Lemma lifecycle_trans s1 s2 s3 : lifecycle s1 s2 → lifecycle s2 s3 → lifecycle s1 s3.
Proof.
  induction 1 as [s|i s Hl IH| |i|i o s Ht Hl IH|o Ho]; intros H23; eauto using lifecycle.
  - inversion H23; subst. constructor.
  - inversion H23; subst. constructor.
  - inversion H23; subst. by constructor.
Qed.

Lemma record_step_lifecycle r r' :
  validate_record_step r r' = true → lifecycle (wr_state r) (wr_state r').
Proof.
  unfold validate_record_step. destruct (negb _) eqn:Ep; [done|].
  destruct (wr_state r), (wr_state r'); try done; intros Hs; breflect; subst; eauto using lifecycle.
Qed.

(** The records of a later generation: the earlier ones, each further along its
    lifecycle under the same plan, and new ones behind them. *)
Definition records_extend (l k : list AtomicWriteRecordV1) : Prop :=
  ∀ i r, l !! i = Some r →
    ∃ r', k !! i = Some r' ∧ wr_plan r' = wr_plan r ∧ lifecycle (wr_state r) (wr_state r').

Lemma records_extend_refl l : records_extend l l.
Proof. intros i r Hr. exists r. eauto using lifecycle. Qed.
Lemma records_extend_trans l1 l2 l3 :
  records_extend l1 l2 → records_extend l2 l3 → records_extend l1 l3.
Proof.
  intros H12 H23 i r Hr. destruct (H12 i r Hr) as (r2 & H2 & Hp2 & Hl2).
  destruct (H23 i r2 H2) as (r3 & H3 & Hp3 & Hl3).
  exists r3. split; [done|]. split; [congruence|]. eauto using lifecycle_trans.
Qed.
#[export] Instance records_extend_preorder : PreOrder records_extend.
Proof. split; [intros ?; apply records_extend_refl|intros ? ? ?; apply records_extend_trans]. Qed.

Lemma records_step_extend l k : records_step l k → records_extend l k.
Proof.
  intros [l' r Hr|l' i r r' Hi Hs] j x Hj.
  - exists x. rewrite lookup_app_l by (by eapply lookup_lt_Some). eauto using lifecycle.
  - destruct (decide (i = j)) as [->|Hne].
    + assert (x = r) as -> by congruence. exists r'.
      rewrite list_lookup_insert_eq by (by eapply lookup_lt_Some).
      split; [done|]. split; [by apply record_step_rank in Hs as [-> _]|].
      by apply record_step_lifecycle.
    + exists x. rewrite list_lookup_insert_ne by done. eauto using lifecycle.
Qed.

(** ** The interface *)

(** A journal as its readers and writers use it. *)
Class JournalMachine (J : Type) := {
  jm_validate : J → pcresult ();
  jm_transition : J → J → pcresult ();
  jm_generation : J → Z;
  jm_transaction_id : J → bytes;
  jm_guard : J → option TransactionGuardIdentityV1;
  jm_records : J → list AtomicWriteRecordV1;
  jm_progress : J → Z;
  jm_bound : Z;
  (** The fields that the transaction fixes once, as one value. *)
  jm_fixed_type : Type;
  jm_fixed : J → jm_fixed_type;
}.

(** The guard file was replaced by another one of the same transaction. *)
Definition guard_replaced `{JournalMachine J} (c n : J) : bool :=
  match jm_guard c, jm_guard n with
  | Some l, Some r => negb (bool_decide (l = r))
  | _, _ => false
  end.

(** What one accepted transition guarantees. *)
Class JournalLaws (J : Type) `{JournalMachine J} : Prop := {
  jm_step_valid (c n : J) :
    jm_transition c n = Ok () → jm_validate c = Ok () ∧ jm_validate n = Ok ();
  jm_step_generation (c n : J) :
    jm_transition c n = Ok () → jm_generation n = jm_generation c + 1 ∧ jm_generation n ≤ U64_MAX;
  jm_step_transaction (c n : J) :
    jm_transition c n = Ok () → jm_transaction_id n = jm_transaction_id c;
  jm_step_fixed (c n : J) : jm_transition c n = Ok () → jm_fixed n = jm_fixed c;
  jm_step_records (c n : J) :
    jm_transition c n = Ok () → records_extend (jm_records c) (jm_records n);
  jm_step_progress (c n : J) :
    jm_transition c n = Ok () →
    jm_progress c < jm_progress n ∨ (jm_progress c = jm_progress n ∧ guard_replaced c n = true);
  jm_valid_bound (j : J) : jm_validate j = Ok () → 0 ≤ jm_progress j ≤ jm_bound;
}.

(** ** Chains of generations *)

Section chain.
  Context {J : Type} `{JournalLaws J}.
  Implicit Types (c n : J) (ns : list J).

Inductive chain : J → list J → Prop :=
| chain_nil c : chain c []
| chain_cons c n ns : jm_transition c n = Ok () → chain n ns → chain c (n :: ns).

Definition chain_end (c : J) (ns : list J) : J := default c (last ns).

Fixpoint replacements (c : J) (ns : list J) : Z :=
  match ns with
  | [] => 0
  | n :: ns => (if guard_replaced c n then 1 else 0) + replacements n ns
  end.

Lemma chain_end_cons c n ns : chain_end c (n :: ns) = chain_end n ns.
Proof. unfold chain_end. rewrite last_cons. by destruct (last ns). Qed.

Lemma replacements_nonneg c ns : 0 ≤ replacements c ns.
Proof. revert c. induction ns as [|n ns IH]; intros c; simpl; [done|]. specialize (IH n). case_match; lia. Qed.

Lemma chain_valid c ns : jm_validate c = Ok () → chain c ns → jm_validate (chain_end c ns) = Ok ().
Proof.
  intros Hv Hc. revert Hv. induction Hc as [c|c n ns Ht Hc IH]; intros Hv; [done|].
  rewrite chain_end_cons. apply IH. by apply jm_step_valid in Ht as [_ ?].
Qed.

(** Generations count the transitions and never wrap. *)
Lemma chain_generation c ns :
  chain c ns → jm_generation (chain_end c ns) = jm_generation c + len ns
               ∧ (ns ≠ [] → jm_generation c + len ns ≤ U64_MAX).
Proof.
  induction 1 as [c|c n ns Ht Hc [IHe IHb]].
  - rewrite len_nil. split; [|done]. unfold chain_end. simpl. lia.
  - rewrite chain_end_cons, len_cons. apply jm_step_generation in Ht as [Hg Hb].
    split; [lia|]. intros _. destruct ns; [rewrite len_nil; lia|]. specialize (IHb ltac:(done)). lia.
Qed.

Lemma chain_fixed c ns :
  chain c ns → jm_transaction_id (chain_end c ns) = jm_transaction_id c
               ∧ jm_fixed (chain_end c ns) = jm_fixed c.
Proof.
  induction 1 as [c|c n ns Ht Hc [IHt IHf]]; [done|]. rewrite chain_end_cons, IHt, IHf.
  by rewrite (jm_step_transaction _ _ Ht), (jm_step_fixed _ _ Ht).
Qed.

Lemma chain_records c ns :
  chain c ns → records_extend (jm_records c) (jm_records (chain_end c ns)).
Proof.
  induction 1 as [c|c n ns Ht Hc IH]; [reflexivity|]. rewrite chain_end_cons.
  etrans; [by apply jm_step_records|done].
Qed.

(** Every transition but a guard replacement uses up progress. *)
Lemma chain_progress c ns :
  chain c ns → jm_progress c + len ns ≤ jm_progress (chain_end c ns) + replacements c ns.
Proof.
  induction 1 as [c|c n ns Ht Hc IH]; [rewrite len_nil; unfold chain_end; simpl; lia|].
  rewrite chain_end_cons, len_cons. simpl. pose proof (replacements_nonneg n ns).
  destruct (jm_step_progress _ _ Ht) as [Hp|[Hp ->]]; [case_match; lia|lia].
Qed.

Lemma chain_length c ns :
  jm_validate c = Ok () → chain c ns → len ns ≤ jm_bound + replacements c ns.
Proof.
  intros Hv Hc. pose proof (chain_progress _ _ Hc).
  pose proof (jm_valid_bound _ (chain_valid _ _ Hv Hc)). pose proof (jm_valid_bound _ Hv). lia.
Qed.

(** What a chain of accepted generations preserves, and how long it can be. *)
Lemma chain_sound c ns :
  jm_validate c = Ok () → chain c ns →
  jm_validate (chain_end c ns) = Ok ()
  ∧ jm_generation (chain_end c ns) = jm_generation c + len ns
  ∧ jm_transaction_id (chain_end c ns) = jm_transaction_id c
  ∧ jm_fixed (chain_end c ns) = jm_fixed c
  ∧ records_extend (jm_records c) (jm_records (chain_end c ns))
  ∧ len ns ≤ jm_bound + replacements c ns.
Proof.
  intros Hv Hc. destruct (chain_generation c ns Hc) as [Hg _].
  destruct (chain_fixed c ns Hc) as [Ht Hf].
  split_and!; auto using chain_valid, chain_records, chain_length.
Qed.
End chain.
