(* ===== verification/JournalProofs.v ===== *)
(** * The journals implement the interface

    Each of the three journals is an instance of [JournalChain], so the chain
    theorems hold of all of them. *)

From S2P Require Import Prelude Bytes Storage Codec Namespace Legacy Cache Config Paths Provision ProvisionAtomic Credential Cleanup Journal JournalChain.

Definition flag (b : bool) : Z := if b then 1 else 0.

(** ** Shared lemmas *)

Section shared.
  Context `{Sha256} `{SerdeJson TransactionGuardV1}.

Lemma journal_writes_bounded txn paths staging writes u :
  validate_journal_writes txn paths staging writes = Ok u → len writes ≤ 32.
Proof.
  unfold validate_journal_writes, validate_atomic_write_records, MAX_TRANSACTION_OWNED_PATHS.
  intros Hv. inv_ok. by breflect.
Qed.
End shared.

Lemma records_same_extend l k : l = k → records_extend l k.
Proof. intros ->. reflexivity. Qed.

Lemma guard_swap (l r : option TransactionGuardIdentityV1) :
  is_Some l → is_Some r → l ≠ r →
  match l, r with Some l, Some r => negb (bool_decide (l = r)) | _, _ => false end = true.
Proof. intros [x ->] [y ->] Hne. by rewrite bool_decide_eq_false_2 by congruence. Qed.

Lemma phase_next_ordinal p q : phase_next p = Some q → phase_ordinal q = S (phase_ordinal p).
Proof. by destruct p; intros [= <-]. Qed.
Lemma plaintext_next_ordinal p q :
  plaintext_next p = Some q → plaintext_ordinal q = S (plaintext_ordinal p).
Proof. by destruct p; intros [= <-]. Qed.

Ltac journal_split :=
  repeat match goal with
  | H : (_ || _) = true |- _ => apply orb_true_iff in H as [H|H]
  | H : Bool.eqb _ _ = true |- _ => apply Bool.eqb_prop in H
  | H : _ && _ = true |- _ => apply andb_true_iff in H as [? ?]
  | u : () |- _ => destruct u
  end.

Ltac rewrite_field t := match goal with E : t = _ |- _ => rewrite E in *; clear E end.

(** ** Mode 1 *)

Definition j_progress (j : ProvisioningJournalV1) : Z :=
  Z.of_nat (phase_ordinal (j_phase j)) + flag (j_supervisor_failed j)
  + records_progress (j_atomic_writes j).
Definition j_fixed (j : ProvisioningJournalV1) :=
  (j_schema_version j, j_journal_staging_path j, (j_mode j, j_epoch j, j_credential_name j),
   j_planned_hashes j, j_artifact_preexisted j, j_transient_unit j,
   (j_prior_config j, j_prior_dropin j, j_prior_receipt j),
   (j_service_unit_state j, j_socket_unit_state j, j_post_provision_service_target j,
    j_post_provision_socket_target j, j_prior_daemon_invocation_id j, j_prior_effective_units j),
   j_security_directories j, j_backup_hashes j).

Section mode1.
  Context `{Sha256} `{SerdeJson TransactionGuardV1}.

#[export] Instance mode1_machine : JournalMachine ProvisioningJournalV1 := {|
  jm_validate := journal_validate;
  jm_transition := validate_journal_transition;
  jm_generation := j_generation;
  jm_transaction_id := j_transaction_id;
  jm_guard := j_guard;
  jm_records := j_atomic_writes;
  jm_progress := j_progress;
  jm_bound := 141;
  jm_fixed := j_fixed;
|}.

(** The cases of an accepted transition. *)
Lemma mode1_transition_cases c n :
  validate_journal_transition c n = Ok () →
  journal_validate c = Ok () ∧ journal_validate n = Ok ()
  ∧ (j_generation n = j_generation c + 1 ∧ j_generation n ≤ U64_MAX)
  ∧ stable_fields_equal c n = true
  ∧ ((phase_next (j_phase c) = Some (j_phase n)
      ∧ j_supervisor_failed c = j_supervisor_failed n ∧ j_atomic_writes c = j_atomic_writes n)
     ∨ (j_phase c = j_phase n ∧ j_supervisor_failed c = false ∧ j_supervisor_failed n = true
        ∧ j_atomic_writes c = j_atomic_writes n)
     ∨ (j_phase c = j_phase n ∧ j_supervisor_failed c = j_supervisor_failed n
        ∧ records_step (j_atomic_writes c) (j_atomic_writes n))
     ∨ (j_phase c = j_phase n ∧ j_supervisor_failed c = j_supervisor_failed n
        ∧ j_atomic_writes c = j_atomic_writes n ∧ guard_replaced c n = true)).
Proof.
  unfold validate_journal_transition. intros Ht. inv_ok. breflect. destruct a, a0.
  split_and!; try done; [lia|].
  rename select (ordinary_phase c n || _ || _ || _ = true) into Hk.
  rename select (atomic_phase c n || bool_decide (j_atomic_writes c = _) = true) into Hr.
  destruct (atomic_phase c n) eqn:Ea; clear -Hk Hr Ea.
  { clear Hk Hr. unfold atomic_phase in Ea. journal_split. breflect. do 2 right. left. split_and!; try done.
    by apply records_transition_step. }
  cbn [orb] in Hr. rewrite orb_false_r in Hk. apply bool_decide_eq_true in Hr.
  unfold ordinary_phase, supervisor_phase, guard_identity_phase in Hk.
  journal_split; breflect.
  - left. done.
  - right. left. done.
  - do 3 right. split_and!; try done. unfold guard_replaced. simpl.
    by apply guard_swap.
Qed.

#[export] Instance mode1_laws : JournalLaws ProvisioningJournalV1.
Proof.
  split; cbn [jm_transition jm_validate jm_generation jm_transaction_id jm_fixed jm_records
              jm_progress jm_bound mode1_machine].
  - intros c n Ht. by apply mode1_transition_cases in Ht as (? & ? & _).
  - intros c n Ht. by apply mode1_transition_cases in Ht as (_ & _ & ? & _).
  - intros c n Ht. apply mode1_transition_cases in Ht as (_ & _ & _ & Hs & _).
    unfold stable_fields_equal in Hs. by breflect.
  - intros c n Ht. apply mode1_transition_cases in Ht as (_ & _ & _ & Hs & _).
    unfold stable_fields_equal in Hs. breflect. journal_split. unfold j_fixed. congruence.
  - intros c n Ht. apply mode1_transition_cases in Ht as (_ & _ & _ & _ & Hk).
    destruct Hk as [(_ & _ & Hr)|[(_ & _ & _ & Hr)|[(_ & _ & Hr)|(_ & _ & Hr & _)]]];
      first [by apply records_step_extend | by apply records_same_extend].
  - intros c n Ht. apply mode1_transition_cases in Ht as (_ & _ & _ & _ & Hk).
    unfold j_progress.
    destruct Hk as [(Hp & Hf & Hr)|[(Hp & Hf & Hf' & Hr)|[(Hp & Hf & Hr)|(Hp & Hf & Hr & Hg)]]].
    + apply phase_next_ordinal in Hp. rewrite Hp, Hf, Hr. lia.
    + rewrite Hp, Hf, Hf', Hr. simpl. lia.
    + apply records_step_progress in Hr. rewrite Hp, Hf. lia.
    + right. rewrite Hp, Hf, Hr. done.
  - intros j Hv. unfold journal_validate in Hv. inv_ok.
    rename select (validate_journal_writes _ _ _ _ = Ok _) into Hw.
    apply journal_writes_bounded in Hw. pose proof (records_progress_bound (j_atomic_writes j)).
    unfold j_progress, flag. assert (phase_ordinal (j_phase j) ≤ 12)%nat by (destruct (j_phase j); simpl; lia).
    destruct (j_supervisor_failed j); lia.
Qed.
End mode1.

(** ** Mode 0 *)

Definition p_progress (j : PlaintextProvisioningJournalV1) : Z :=
  Z.of_nat (plaintext_ordinal (p_phase j)) + flag (p_supervisor_failed j)
  + records_progress (p_atomic_writes j).
Definition p_fixed (j : PlaintextProvisioningJournalV1) :=
  (p_schema_version j, p_journal_staging_path j, p_enabled_config_sha256 j, p_dropin_sha256 j,
   (p_prior_config j, p_prior_dropin j),
   (p_service_unit_state j, p_socket_unit_state j, p_prior_daemon_invocation_id j,
    p_prior_effective_units j), p_security_directories j).

Section mode0.
  Context `{Sha256} `{SerdeJson TransactionGuardV1}.

#[export] Instance mode0_machine : JournalMachine PlaintextProvisioningJournalV1 := {|
  jm_validate := plaintext_journal_validate;
  jm_transition := validate_plaintext_journal_transition;
  jm_generation := p_generation;
  jm_transaction_id := p_transaction_id;
  jm_guard := p_guard;
  jm_records := p_atomic_writes;
  jm_progress := p_progress;
  jm_bound := 135;
  jm_fixed := p_fixed;
|}.

Lemma mode0_transition_cases c n :
  validate_plaintext_journal_transition c n = Ok () →
  plaintext_journal_validate c = Ok () ∧ plaintext_journal_validate n = Ok ()
  ∧ (p_generation n = p_generation c + 1 ∧ p_generation n ≤ U64_MAX)
  ∧ plaintext_stable_fields_equal c n = true
  ∧ ((plaintext_next (p_phase c) = Some (p_phase n)
      ∧ p_supervisor_failed c = p_supervisor_failed n ∧ p_atomic_writes c = p_atomic_writes n)
     ∨ (p_phase c = p_phase n ∧ p_supervisor_failed c = false ∧ p_supervisor_failed n = true
        ∧ p_atomic_writes c = p_atomic_writes n)
     ∨ (p_phase c = p_phase n ∧ p_supervisor_failed c = p_supervisor_failed n
        ∧ records_step (p_atomic_writes c) (p_atomic_writes n))
     ∨ (p_phase c = p_phase n ∧ p_supervisor_failed c = p_supervisor_failed n
        ∧ p_atomic_writes c = p_atomic_writes n ∧ guard_replaced c n = true)).
Proof.
  unfold validate_plaintext_journal_transition. intros Ht. inv_ok. breflect. destruct a, a0.
  split_and!; try done; [lia|].
  rename select (plaintext_ordinary_phase c n || _ || _ || _ = true) into Hk.
  rename select (plaintext_atomic_phase c n || bool_decide (p_atomic_writes c = _) = true) into Hr.
  destruct (plaintext_atomic_phase c n) eqn:Ea; clear -Hk Hr Ea.
  { clear Hk Hr. unfold plaintext_atomic_phase in Ea. journal_split. breflect. do 2 right. left.
    split_and!; try done. by apply records_transition_step. }
  cbn [orb] in Hr. rewrite orb_false_r in Hk. apply bool_decide_eq_true in Hr.
  unfold plaintext_ordinary_phase, plaintext_supervisor_phase, plaintext_guard_identity_phase in Hk.
  journal_split; breflect.
  - left. done.
  - right. left. done.
  - do 3 right. split_and!; try done. unfold guard_replaced. simpl. by apply guard_swap.
Qed.

#[export] Instance mode0_laws : JournalLaws PlaintextProvisioningJournalV1.
Proof.
  split; cbn [jm_transition jm_validate jm_generation jm_transaction_id jm_fixed jm_records
              jm_progress jm_bound mode0_machine].
  - intros c n Ht. by apply mode0_transition_cases in Ht as (? & ? & _).
  - intros c n Ht. by apply mode0_transition_cases in Ht as (_ & _ & ? & _).
  - intros c n Ht. apply mode0_transition_cases in Ht as (_ & _ & _ & Hs & _).
    unfold plaintext_stable_fields_equal in Hs. by breflect.
  - intros c n Ht. apply mode0_transition_cases in Ht as (_ & _ & _ & Hs & _).
    unfold plaintext_stable_fields_equal in Hs. breflect. unfold p_fixed. congruence.
  - intros c n Ht. apply mode0_transition_cases in Ht as (_ & _ & _ & _ & Hk).
    destruct Hk as [(_ & _ & Hr)|[(_ & _ & _ & Hr)|[(_ & _ & Hr)|(_ & _ & Hr & _)]]];
      first [by apply records_step_extend | by apply records_same_extend].
  - intros c n Ht. apply mode0_transition_cases in Ht as (_ & _ & _ & _ & Hk).
    unfold p_progress.
    destruct Hk as [(Hp & Hf & Hr)|[(Hp & Hf & Hf' & Hr)|[(Hp & Hf & Hr)|(Hp & Hf & Hr & Hg)]]].
    + apply plaintext_next_ordinal in Hp. rewrite Hp, Hf, Hr. lia.
    + rewrite Hp, Hf, Hf', Hr. simpl. lia.
    + apply records_step_progress in Hr. rewrite Hp, Hf. lia.
    + right. rewrite Hp, Hf, Hr. done.
  - intros j Hv. unfold plaintext_journal_validate in Hv. inv_ok.
    rename select (validate_journal_writes _ _ _ _ = Ok _) into Hw.
    apply journal_writes_bounded in Hw. pose proof (records_progress_bound (p_atomic_writes j)).
    unfold p_progress, flag.
    assert (plaintext_ordinal (p_phase j) ≤ 6)%nat by (destruct (p_phase j); simpl; lia).
    destruct (p_supervisor_failed j); lia.
Qed.
End mode0.

(** ** The supervisor *)

Definition directory_progress (r : SecurityDirectoryRecordV1) : Z :=
  1 + flag (bool_decide (is_Some (sd_observed_directory r))).
Definition directories_progress (l : list SecurityDirectoryRecordV1) : Z :=
  foldr (λ r acc, directory_progress r + acc) 0 l.
Definition quarantine_progress (q : option CleanupQuarantineV1) : Z :=
  match q with
  | None => 0
  | Some q => match cq_state q with QPlanned => 0 | QRenamed => 1 | QRemoved | QRestored => 2 end
  end.
Definition s_progress (j : SupervisorJournalV1) : Z :=
  Z.of_nat (supervisor_ordinal (s_phase j)) + flag (s_supervisor_failed j)
  + records_progress (s_atomic_writes j) + directories_progress (s_security_directories j)
  + quarantine_progress (s_cleanup_quarantine j).
Definition s_fixed (j : SupervisorJournalV1) :=
  (s_schema_version j, s_journal_staging_path j, s_operation j,
   (s_prior_config j, s_prior_dropin j, s_prior_receipt j),
   (s_service_unit_state j, s_socket_unit_state j, s_prior_daemon_invocation_id j,
    s_prior_effective_units j), s_transaction_owned_paths j,
   (s_cleanup_artifact j, s_cleanup_manifest j, s_cleanup_pre_admission j)).

Lemma directories_progress_app l k :
  directories_progress (l ++ k) = directories_progress l + directories_progress k.
Proof. induction l as [|r l IH]; simpl; [done|]. rewrite IH. lia. Qed.

Lemma directories_progress_bound l : 0 ≤ directories_progress l ≤ 2 * len l.
Proof.
  induction l as [|r l IH]; [done|]. rewrite len_cons.
  change (directories_progress (r :: l)) with (directory_progress r + directories_progress l).
  unfold directory_progress, flag. destruct (bool_decide _); lia.
Qed.

(** Directory records only grow. *)
Lemma directories_transition_progress cp np c n :
  validate_security_directory_records_transition cp np c n = true →
  c = n ∨ (cp = SpUnitsStopped ∧ np = SpUnitsStopped
           ∧ directories_progress c < directories_progress n).
Proof.
  unfold validate_security_directory_records_transition.
  case_bool_decide as He; [by left|]. destruct (negb _ || negb _) eqn:Ep; [done|]. breflect.
  intros Ht. right. split; [done|]. split; [done|]. destruct (_ && _ && _) eqn:Ea.
  - clear Ht. breflect. destruct (last n) as [r|] eqn:El; [|done]. breflect.
    apply last_Some in El as [l ->]. rename select (take _ _ = _) into Htake.
    assert (length l = length c) as Hlen
      by (rename select (len _ = _) into Hl; rewrite len_app in Hl; unfold len in Hl; simpl in Hl; lia).
    rewrite <- Hlen, take_app_length in Htake. subst l.
    rewrite directories_progress_app. assert (1 ≤ directories_progress [r]); [|lia].
    unfold directories_progress, directory_progress, flag. simpl. case_match; lia.
  - destruct ((len n =? len c) && negb (bool_decide (c = []))) eqn:El; [|done]. breflect.
    destruct (last c) as [x|] eqn:Ec; [|done]. destruct (last n) as [y|] eqn:En; [|done].
    apply last_Some in Ec as [c' ->]. apply last_Some in En as [n' ->]. breflect.
    rename select (take _ _ = _) into Htake.
    rename select (len (n' ++ _) = _) into Hl. rewrite !len_app in Hl.
    assert (length n' = length c') as Hlen by (unfold len in Hl; simpl in Hl; lia).
    rewrite length_app, Nat.add_sub, take_app_length in Htake. rewrite <- Hlen, take_app_length in Htake.
    subst n'. rewrite !directories_progress_app.
    assert (directories_progress [x] = 1 ∧ directories_progress [y] = 2) as [-> ->]; [|lia].
    rename select (sd_observed_directory x = None) into Hx.
    rename select (is_Some (sd_observed_directory y)) into Hy.
    unfold directories_progress, directory_progress, flag. simpl.
    by rewrite Hx, (bool_decide_eq_true_2 _ Hy).
Qed.

Lemma quarantine_transition_progress l r :
  quarantine_transition l r = true →
  quarantine_progress l ≤ quarantine_progress r
  ∧ (l ≠ r → quarantine_progress l < quarantine_progress r).
Proof.
  unfold quarantine_transition, quarantine_progress. destruct l as [[lp ls]|], r as [[rp rs]|]; try done.
  simpl. case_bool_decide as Hp; [|done]. subst rp.
  destruct ls, rs; intros; try done; split; try lia; congruence.
Qed.

Section supervisor.
  Context `{Sha256} `{SerdeJson TransactionGuardV1} `{SerdeJson UnadoptedArtifactV1}.

#[export] Instance supervisor_machine : JournalMachine SupervisorJournalV1 := {|
  jm_validate := supervisor_journal_validate;
  jm_transition := validate_supervisor_journal_transition;
  jm_generation := s_generation;
  jm_transaction_id := s_transaction_id;
  jm_guard := s_guard;
  jm_records := s_atomic_writes;
  jm_progress := s_progress;
  jm_bound := 152;
  jm_fixed := s_fixed;
|}.

(** What every accepted transition keeps or advances. *)
Lemma supervisor_transition_common c n :
  validate_supervisor_journal_transition c n = Ok () →
  supervisor_journal_validate c = Ok () ∧ supervisor_journal_validate n = Ok ()
  ∧ (s_generation n = s_generation c + 1 ∧ s_generation n ≤ U64_MAX)
  ∧ snapshots_stable c n = true ∧ units_transition c n = true
  ∧ supervisor_directories_transition c n = true
  ∧ quarantine_transition (s_cleanup_quarantine c) (s_cleanup_quarantine n) = true
  ∧ (s_atomic_writes c = s_atomic_writes n
     ∨ (s_phase c = s_phase n ∧ s_supervisor_failed c = s_supervisor_failed n
        ∧ records_step (s_atomic_writes c) (s_atomic_writes n)))
  ∧ (supervisor_ordinary c n || supervisor_fail_closed c n || supervisor_atomic c n
     || supervisor_quarantine_phase c n || supervisor_directory_phase c n
     || supervisor_guard_identity c n = true).
Proof.
  unfold validate_supervisor_journal_transition. intros Ht. inv_ok. breflect. destruct a, a0.
  split_and!; try done; [lia|].
  rename select (supervisor_atomic c n || bool_decide _ = true) into Hr. clear -Hr.
  apply orb_true_iff in Hr as [Hr|Hr]; [right|left; by breflect].
  unfold supervisor_atomic, same_phase, same_failed in Hr. journal_split. breflect.
  split_and!; try done. by apply records_transition_step.
Qed.

Lemma supervisor_ordinary_ordinal c n :
  supervisor_ordinary c n = true →
  (supervisor_ordinal (s_phase c) < supervisor_ordinal (s_phase n))%nat
  ∧ s_supervisor_failed c = s_supervisor_failed n.
Proof.
  unfold supervisor_ordinary, same_failed. intros Ho.
  apply andb_true_iff in Ho as [Ho Hf]. apply Bool.eqb_prop in Hf. split; [|done].
  journal_split; breflect; destruct (s_phase c), (s_phase n); simpl in *; try done; lia.
Qed.

Lemma supervisor_step_progress c n :
  validate_supervisor_journal_transition c n = Ok () →
  s_progress c < s_progress n ∨ (s_progress c = s_progress n ∧ guard_replaced c n = true).
Proof.
  intros Ht. apply supervisor_transition_common in Ht as (_ & _ & _ & _ & _ & Hd & Hq & Hr & Hk).
  apply directories_transition_progress in Hd. apply quarantine_transition_progress in Hq as [Hq Hq'].
  assert (records_progress (s_atomic_writes c) ≤ records_progress (s_atomic_writes n)
          ∧ (s_atomic_writes c ≠ s_atomic_writes n →
             records_progress (s_atomic_writes c) < records_progress (s_atomic_writes n))) as [Hr1 Hr2].
  { destruct Hr as [->|(_ & _ & Hr%records_step_progress)]; [done|lia]. }
  assert (directories_progress (s_security_directories c)
          ≤ directories_progress (s_security_directories n)) as Hd1
    by (destruct Hd as [->|(_ & _ & Hd)]; lia).
  unfold s_progress.
  repeat apply orb_true_iff in Hk as [Hk|Hk].
  - apply supervisor_ordinary_ordinal in Hk as [Ho ->]. lia.
  - unfold supervisor_fail_closed, same_phase in Hk. breflect.
    rewrite_field (s_phase c). rewrite_field (s_supervisor_failed c).
    rewrite_field (s_supervisor_failed n). simpl. lia.
  - unfold supervisor_atomic, same_phase, same_failed in Hk. journal_split. breflect.
    rewrite_field (s_phase c). rewrite_field (s_supervisor_failed c).
    rename select (validate_atomic_write_records_transition _ _ = _) into Hv.
    apply records_transition_step, records_step_progress in Hv. lia.
  - unfold supervisor_quarantine_phase, same_phase, same_failed in Hk. journal_split. breflect.
    rewrite_field (s_phase c). rewrite_field (s_supervisor_failed c).
    specialize (Hq' ltac:(done)). lia.
  - unfold supervisor_directory_phase, same_failed in Hk. journal_split. breflect.
    destruct Hd as [Hd|(_ & _ & Hd)]; [done|].
    rewrite_field (s_phase c). rewrite_field (s_phase n).
    rewrite_field (s_supervisor_failed c). lia.
  - right. unfold supervisor_guard_identity, same_phase, same_failed in Hk. journal_split. breflect.
    rewrite_field (s_phase c). rewrite_field (s_supervisor_failed c).
    rewrite_field (s_atomic_writes c). rewrite_field (s_security_directories c).
    rewrite_field (s_cleanup_quarantine c).
    split; [done|]. unfold guard_replaced. simpl. by apply guard_swap.
Qed.

#[export] Instance supervisor_laws : JournalLaws SupervisorJournalV1.
Proof.
  split; cbn [jm_transition jm_validate jm_generation jm_transaction_id jm_fixed jm_records
              jm_progress jm_bound supervisor_machine].
  - intros c n Ht. by apply supervisor_transition_common in Ht as (? & ? & _).
  - intros c n Ht. by apply supervisor_transition_common in Ht as (_ & _ & ? & _).
  - intros c n Ht. apply supervisor_transition_common in Ht as (_ & _ & _ & Hs & _).
    unfold snapshots_stable in Hs. by breflect.
  - intros c n Ht. apply supervisor_transition_common in Ht as (_ & _ & _ & Hs & Hu & _).
    unfold snapshots_stable, units_transition in *. breflect. unfold s_fixed. congruence.
  - intros c n Ht. apply supervisor_transition_common in Ht as (_ & _ & _ & _ & _ & _ & _ & Hr & _).
    destruct Hr as [Hr|(_ & _ & Hr)]; first [by apply records_step_extend | by apply records_same_extend].
  - apply supervisor_step_progress.
  - intros j Hv. unfold supervisor_journal_validate in Hv. inv_ok.
    rename select (validate_journal_writes _ _ _ _ = Ok _) into Hw.
    apply journal_writes_bounded in Hw. pose proof (records_progress_bound (s_atomic_writes j)).
    pose proof (directories_progress_bound (s_security_directories j)).
    assert (len (s_security_directories j) ≤ 8) as Hd.
    { change 8 with (len REQUIRED_SECURITY_DIRECTORIES).
      destruct (supervisor_reached j SpDirectoriesReady);
        unfold validate_security_directory_records, validate_security_directory_record_prefix in *;
        inv_ok; breflect; lia. }
    unfold s_progress, flag, quarantine_progress.
    assert (supervisor_ordinal (s_phase j) ≤ 5)%nat by (destruct (s_phase j); simpl; lia).
    destruct (s_supervisor_failed j), (s_cleanup_quarantine j) as [[? []]|]; simpl; lia.
Qed.
End supervisor.
