(* ===== verification/JournalSystem.v ===== *)
(** * What the journals guarantee

    The chain theorems for the journals of [provisioning/mod.rs], the order in
    which a mode-1 transaction commits, and concrete journals on which the
    hypotheses hold. *)

From S2P Require Import Prelude Bytes Storage Codec Namespace Legacy Cache Config Paths Provision ProvisionAtomic Credential Cleanup Journal JournalChain JournalProofs.

(** ** Concrete journals *)

Module JournalDemo.
#[export] Instance demo_sha256 : Sha256 := toy_sha256.

(** A serializer of guards, enough for guards of version 1. *)
#[export] Instance demo_guard_json : SerdeJson TransactionGuardV1 := {|
  to_vec g := Some (bs "{" ++ tg_transaction_id g ++ bs "}");
  from_slice b := Some (mkTransactionGuard 1 (take 36 (drop 1 b)));
|}.
#[export] Instance demo_manifest_json : SerdeJson UnadoptedArtifactV1 := {|
  to_vec _ := Some (bs "{}");
  from_slice _ := None;
|}.

Definition txn : bytes := bs "txn-0123456789abcdef0123456789abcdef".
Definition digest (c : string) : bytes := concat (replicate 64 (bs c)).
Definition staging : bytes :=
  bs "/var/lib/.howy-txn-0123456789abcdef0123456789abcdef-transaction-v1.json-journal.stage".

Definition file (size : Z) (sha : bytes) : AtomicFileIdentityV1 :=
  mkAtomicFileIdentity 1 7 FoRegularFile 0 0 mode_600 1 size sha.
Definition guard_text : bytes := bs "{" ++ txn ++ bs "}".
Definition guard : TransactionGuardIdentityV1 :=
  mkGuardIdentity (mkTransactionGuard 1 txn) (file (len guard_text) (digest_from_bytes guard_text)).

Definition directory (path : bytes) (mode : Z) : DirectoryIdentityV1 :=
  mkDirectoryIdentity path FoDirectory 1 9 0 0 mode 2.
Definition required (p : bytes * Z) : SecurityDirectoryRecordV1 :=
  mkSecurityDirectory p.1 0 0 p.2 (directory (default [] (parent_path p.1)) mode_755) None
    (Some (directory p.1 p.2)) false.
Definition directories : list SecurityDirectoryRecordV1 := required <$> REQUIRED_SECURITY_DIRECTORIES.

Definition unit_file (path : bytes) (mode : Z) (sha : bytes) : EffectiveUnitFileV1 :=
  mkEffectiveFile path sha (mkEffectiveMetadata FoRegularFile 0 0 mode 1 100).
Definition base_units : EffectiveUnitSetV1 :=
  mkEffectiveSet
    (mkEffectiveUnit UkService (unit_file BASE_SERVICE_UNIT_PATH mode_644 (digest "1")) []
       required_unit_conditions [] [] [[bs "/usr/bin/howyd"]] required_service_hardening)
    (mkEffectiveUnit UkSocket (unit_file BASE_SOCKET_UNIT_PATH mode_644 (digest "2")) []
       required_unit_conditions [] [] [] ∅).
Definition planned : PlannedObjectHashes :=
  mkPlannedHashes (digest "a") (digest "b") (digest "c") (digest "d") (digest "e") (digest "f").
Definition units : option EffectiveUnitSetV1 :=
  result_ok (planned_effective_units base_units (ph_dropin_sha256 planned) 100 true).

Definition resting (kind : UnitKind) : StableUnitState :=
  mkStableUnit kind ULoaded UInactive SubDead FsEnabled.

Definition after (q p : JournalPhase) {A} (a : A) : option A :=
  if Nat.leb (phase_ordinal q) (phase_ordinal p) then Some a else None.

(** The journal of a transaction without writes at phase [p]. *)
Definition journal (p : JournalPhase) : ProvisioningJournalV1 :=
  mkJournal 1 txn (1 + Z.of_nat (phase_ordinal p))
    (if bool_decide (p = JpPrepared) then None else Some (file 1000 (digest "0")))
    staging (after JpGuarded p guard) p 1 1 MODE1_CREDENTIAL_NAME planned
    (mkLiveHashes (after JpArtifactCommitted p (digest "a")) (after JpDropinCommitted p (digest "b"))
       (if Nat.leb (phase_ordinal JpEnabledConfigCommitted) (phase_ordinal p) then Some (digest "d")
        else after JpDisabledConfigCommitted p (digest "c"))
       (after JpDisabledReceiptCommitted p (digest "e"))
       (after JpEnabledReceiptCommitted p (digest "f")))
    [staging] [] directories false (bs "howy-readiness-1.service") None None None
    (resting UkService) (resting UkSocket) (resting UkService) (resting UkSocket) None base_units
    (if Nat.leb (phase_ordinal JpDropinCommitted) (phase_ordinal p) then units else None)
    (mkBackupHashes None None None None) (recovery_action_for_phase p) false.

Definition supervisor (p : SupervisorPhaseV1) : SupervisorJournalV1 :=
  mkSupervisorJournal 1 txn (1 + Z.of_nat (supervisor_ordinal p))
    (if bool_decide (p = SpPrepared) then None else Some (file 1000 (digest "0")))
    staging (if bool_decide (p = SpPrepared) then None else Some guard) OpProvisionMode1 p
    None None None (Some (resting UkService)) (Some (resting UkSocket)) None (Some base_units)
    [staging] [] directories None None None None false.
End JournalDemo.

(** ** Chains *)

Section theorems.
  Context `{Sha256} `{SerdeJson TransactionGuardV1} `{SerdeJson UnadoptedArtifactV1}.

(** Phases only move forward, one at a time. *)
Lemma mode1_chain_phase c ns :
  chain c ns → (phase_ordinal (j_phase c) ≤ phase_ordinal (j_phase (chain_end c ns)))%nat.
Proof.
  induction 1 as [c|c n ns Ht Hc IH]; [done|]. rewrite chain_end_cons.
  etrans; [|exact IH]. apply mode1_transition_cases in Ht as (_ & _ & _ & _ & Hk).
  destruct Hk as [(Hp%phase_next_ordinal & _)|[(-> & _)|[(-> & _)|(-> & _)]]]; lia.
Qed.

(** C13: A sequence of accepted mode-1 journal generations that starts with a
    valid journal ends with a valid one of the same transaction: the generation
    has counted every step, the fields the transaction fixed at the start are
    unchanged, each recorded write is under its original plan and has moved on
    along its lifecycle (what is committed is what was staged), and but for
    replaced guard files there are at most 141 generations. *)
Theorem journal_chain_sound (c : ProvisioningJournalV1) (ns : list ProvisioningJournalV1) :
  journal_validate c = Ok () → chain c ns →
  let e := chain_end c ns in
  journal_validate e = Ok ()
  ∧ j_generation e = j_generation c + len ns
  ∧ j_transaction_id e = j_transaction_id c ∧ j_fixed e = j_fixed c
  ∧ records_extend (j_atomic_writes c) (j_atomic_writes e)
  ∧ len ns ≤ 141 + replacements c ns.
Proof. exact (chain_sound c ns). Qed.

(** C27: The supervisor journal is written at most 152 times between guard
    replacements; its operation, snapshots, observed units, owned paths and
    cleanup authorisation never change, and generations count its writes. *)
Theorem supervisor_chain_sound (c : SupervisorJournalV1) (ns : list SupervisorJournalV1) :
  supervisor_journal_validate c = Ok () → chain c ns →
  let e := chain_end c ns in
  supervisor_journal_validate e = Ok ()
  ∧ s_generation e = s_generation c + len ns
  ∧ s_transaction_id e = s_transaction_id c ∧ s_fixed e = s_fixed c
  ∧ records_extend (s_atomic_writes c) (s_atomic_writes e)
  ∧ len ns ≤ 152 + replacements c ns.
Proof. exact (chain_sound c ns). Qed.

(** The same for mode 0. *)
Lemma plaintext_chain_sound (c : PlaintextProvisioningJournalV1) ns :
  plaintext_journal_validate c = Ok () → chain c ns →
  let e := chain_end c ns in
  plaintext_journal_validate e = Ok ()
  ∧ p_generation e = p_generation c + len ns
  ∧ p_transaction_id e = p_transaction_id c ∧ p_fixed e = p_fixed c
  ∧ records_extend (p_atomic_writes c) (p_atomic_writes e)
  ∧ len ns ≤ 135 + replacements c ns.
Proof. exact (chain_sound c ns). Qed.

(** ** The order of commits *)

(** The live digests of a valid journal are those its phase prescribes. *)
Lemma live_hashes_determined j :
  journal_validate j = Ok () →
  let hash (b : bool) (d : bytes) := if b then Some d else None in
  lh_artifact_sha256 (j_live_hashes j)
  = hash (reached j JpArtifactCommitted) (ph_artifact_sha256 (j_planned_hashes j))
  ∧ lh_dropin_sha256 (j_live_hashes j)
    = hash (reached j JpDropinCommitted) (ph_dropin_sha256 (j_planned_hashes j))
  ∧ lh_config_sha256 (j_live_hashes j)
    = (if negb (reached j JpDisabledConfigCommitted) then None
       else if negb (reached j JpEnabledConfigCommitted)
       then Some (ph_disabled_config_sha256 (j_planned_hashes j))
       else Some (ph_enabled_config_sha256 (j_planned_hashes j)))
  ∧ lh_disabled_receipt_sha256 (j_live_hashes j)
    = hash (reached j JpDisabledReceiptCommitted) (ph_disabled_receipt_sha256 (j_planned_hashes j))
  ∧ lh_enabled_receipt_sha256 (j_live_hashes j)
    = hash (reached j JpEnabledReceiptCommitted) (ph_enabled_receipt_sha256 (j_planned_hashes j)).
Proof.
  assert (∀ b a d u, validate_phase_hash b a d = Ok u → a = if b then Some d else None) as Hph.
  { intros b a d u. unfold validate_phase_hash. destruct b; simpl.
    - rewrite orb_false_r. case_bool_decide; by intros [= <-].
    - case_bool_decide as E; [done|]. intros _. by apply eq_None_not_Some. }
  intros Hv hash. unfold journal_validate in Hv. inv_ok.
  unfold validate_live_hash_matrix in Hv. inv_ok. breflect.
  repeat match goal with E : validate_phase_hash _ _ _ = Ok _ |- _ => apply Hph in E end.
  split_and!; done.
Qed.

Lemma validate_units_effective j v :
  validate_units j = Ok v → reached j JpDropinCommitted = true →
  ∃ u, j_effective_units j = Some u
       ∧ validate_mode1 u (ph_dropin_sha256 (j_planned_hashes j)) = Ok ().
Proof.
  unfold validate_units. intros Hv Hr. inv_ok. destruct a1 as [st so]. inv_ok. rewrite Hr in *.
  destruct (j_effective_units j) as [u|]; [|done]. exists u. by destruct v.
Qed.

(** C16: When a valid journal records the enabled configuration as live (and it
    is not the disabled one), everything that enabling depends on is already
    recorded: the guard of this transaction is in place, credential artifact,
    drop-in and disabled receipt are live as planned, the effective units passed
    the mode-1 policy for exactly that drop-in, and recovery will either return
    to the disabled state or complete the activation. *)
Theorem enabled_config_committed_last (j : ProvisioningJournalV1) :
  journal_validate j = Ok () →
  lh_config_sha256 (j_live_hashes j) = Some (ph_enabled_config_sha256 (j_planned_hashes j)) →
  ph_enabled_config_sha256 (j_planned_hashes j) ≠ ph_disabled_config_sha256 (j_planned_hashes j) →
  (∃ g, j_guard j = Some g ∧ guard_identity_validate g (j_transaction_id j) = Ok ())
  ∧ lh_artifact_sha256 (j_live_hashes j) = Some (ph_artifact_sha256 (j_planned_hashes j))
  ∧ lh_dropin_sha256 (j_live_hashes j) = Some (ph_dropin_sha256 (j_planned_hashes j))
  ∧ lh_disabled_receipt_sha256 (j_live_hashes j)
    = Some (ph_disabled_receipt_sha256 (j_planned_hashes j))
  ∧ (∃ u, j_effective_units j = Some u
          ∧ validate_mode1 u (ph_dropin_sha256 (j_planned_hashes j)) = Ok ())
  ∧ (j_recovery_action j = RestoreDisabledState ∨ j_recovery_action j = CompleteEnabledActivation).
Proof.
  intros Hv Hl Hne. destruct (live_hashes_determined j Hv) as (Ha & Hd & Hc & Hr & _).
  assert (reached j JpEnabledConfigCommitted = true) as Hreach.
  { rewrite Hl in Hc. destruct (reached j JpDisabledConfigCommitted); [|done].
    destruct (reached j JpEnabledConfigCommitted); [done|]. simpl in Hc. congruence. }
  assert (∀ p, (phase_ordinal p ≤ 9)%nat → reached j p = true) as Hle.
  { intros p Hp. unfold reached in *. apply Nat.leb_le in Hreach. simpl in Hreach.
    apply Nat.leb_le. lia. }
  rewrite !Hle in * by (simpl; lia).
  unfold journal_validate, validate_journal_head, validate_journal_guard in Hv. inv_ok.
  rewrite !Hle in * by (simpl; lia). breflect. split_and!; try done.
  - destruct (j_guard j) as [g|]; [|done]. exists g. split; [done|].
    repeat match goal with u : () |- _ => destruct u end. done.
  - eapply validate_units_effective; [done|]. apply Hle. simpl. lia.
  - rewrite_field (j_recovery_action j).
    pose proof (Hle JpEnabledConfigCommitted ltac:(simpl; lia)) as Hr9. unfold reached in Hr9.
    destruct (j_phase j); try discriminate Hr9; simpl; auto.
Qed.

(** C25: Activation is irrevocable: once a valid journal's recovery action is to
    complete the enabled activation, it is so in every later generation. *)
Theorem activation_irrevocable (c : ProvisioningJournalV1) (ns : list ProvisioningJournalV1) :
  journal_validate c = Ok () → chain c ns →
  j_recovery_action c = CompleteEnabledActivation →
  j_recovery_action (chain_end c ns) = CompleteEnabledActivation.
Proof.
  intros Hv Hc Hr.
  assert (∀ j, journal_validate j = Ok () →
            j_recovery_action j = recovery_action_for_phase (j_phase j)) as Haction.
  { intros j Hj. unfold journal_validate in Hj. inv_ok. by breflect. }
  pose proof (mode1_chain_phase c ns Hc) as Hle.
  pose proof (chain_valid c ns Hv Hc) as Hve.
  rewrite (Haction _ Hve). rewrite (Haction c Hv) in Hr.
  destruct (j_phase c); try discriminate Hr; simpl in Hle;
    destruct (j_phase (chain_end c ns)); simpl in *; try done; lia.
Qed.
End theorems.

(** ** Witnesses *)

Import JournalDemo.

(** Every phase of the concrete transaction is valid, and each leads to the next. *)
Example demo_journals_valid :
  Forall (λ p, @journal_validate demo_sha256 demo_guard_json (journal p) = Ok ()) JournalPhase_ALL.
Proof. repeat constructor; vm_compute; reflexivity. Qed.

Lemma demo_chain :
  @chain _ (@mode1_machine demo_sha256 demo_guard_json) (journal JpPrepared)
    (journal <$> drop 1 JournalPhase_ALL).
Proof. repeat (apply chain_cons; [vm_compute; reflexivity|]). apply chain_nil. Qed.

Lemma journal_chain_sound_witness :
  j_generation (journal JpEnabledReceiptCommitted) = 1 + 12
  ∧ len (journal <$> drop 1 JournalPhase_ALL) ≤ 141 + 0.
Proof.
  destruct (@journal_chain_sound demo_sha256 demo_guard_json (journal JpPrepared)
              (journal <$> drop 1 JournalPhase_ALL) ltac:(vm_compute; reflexivity) demo_chain)
    as (_ & Hg & _ & _ & _ & Hl).
  exact (conj Hg Hl).
Defined.

Lemma demo_supervisor_chain :
  @chain _ (@supervisor_machine demo_sha256 demo_guard_json demo_manifest_json)
    (supervisor SpPrepared) [supervisor SpGuarded; supervisor SpUnitsStopped].
Proof. repeat (apply chain_cons; [vm_compute; reflexivity|]). apply chain_nil. Qed.

Lemma supervisor_chain_sound_witness :
  s_generation (supervisor SpUnitsStopped) = 1 + 2.
Proof.
  destruct (@supervisor_chain_sound demo_sha256 demo_guard_json demo_manifest_json
              (supervisor SpPrepared) [supervisor SpGuarded; supervisor SpUnitsStopped]
              ltac:(vm_compute; reflexivity) demo_supervisor_chain) as (_ & Hg & _).
  exact Hg.
Defined.

Lemma enabled_config_committed_last_witness :
  lh_artifact_sha256 (j_live_hashes (journal JpEnabledConfigCommitted)) = Some (digest "a").
Proof.
  exact (proj1 (proj2 (@enabled_config_committed_last demo_sha256 demo_guard_json
    (journal JpEnabledConfigCommitted) ltac:(vm_compute; reflexivity) eq_refl
    ltac:(vm_compute; discriminate)))).
Defined.

Lemma demo_activation_chain :
  @chain _ (@mode1_machine demo_sha256 demo_guard_json) (journal JpActivationCommitted)
    [journal JpUnitsStarted].
Proof. apply chain_cons; [vm_compute; reflexivity|]. apply chain_nil. Qed.

Lemma activation_irrevocable_witness :
  j_recovery_action (journal JpUnitsStarted) = CompleteEnabledActivation.
Proof.
  exact (@activation_irrevocable demo_sha256 demo_guard_json (journal JpActivationCommitted)
    [journal JpUnitsStarted] ltac:(vm_compute; reflexivity) demo_activation_chain eq_refl).
Defined.
