(* ===== verification/Fingerprint.v ===== *)
(** * The mode-1 namespace and its fingerprint

    From [crates/howy-common/src/provisioning/mod.rs]: the classification of
    directory entries by name, the canonical inventory and the framed digest
    that identifies its contents. *)
From stdpp Require Import sorting.
From S2P Require Import Prelude Bytes Storage Codec CodecReader Namespace Legacy Cache CacheLru Config Paths Provision ProvisionAtomic Credential ProvisionProofs.

Inductive NamespaceFileType := NftRegular | NftDirectory | NftSymlink | NftOther.
#[export] Instance NamespaceFileType_eq_dec : EqDecision NamespaceFileType.
Proof. solve_decision. Defined.

Inductive NamespaceEntryClassification :=
| NcAuthoritative (username : bytes)
| NcTemporary | NcStaged | NcClear | NcRollback | NcSymlink | NcDirectory | NcHardlink | NcNonUtf8
| NcUnknown.
#[export] Instance NamespaceEntryClassification_eq_dec : EqDecision NamespaceEntryClassification.
Proof. solve_decision. Defined.

Definition classification_code (c : NamespaceEntryClassification) : Z :=
  match c with
  | NcAuthoritative _ => 1
  | NcTemporary => 2
  | NcStaged => 3
  | NcClear => 4
  | NcRollback => 5
  | NcSymlink => 6
  | NcDirectory => 7
  | NcHardlink => 8
  | NcNonUtf8 => 9
  | NcUnknown => 10
  end.
Definition is_authoritative (c : NamespaceEntryClassification) : bool :=
  match c with NcAuthoritative _ => true | _ => false end.
Definition file_type_code (t : NamespaceFileType) : Z :=
  match t with NftRegular => 1 | NftDirectory => 2 | NftSymlink => 3 | NftOther => 4 end.

(** [str::strip_suffix] *)
Definition str_strip_suffix (suffix name : bytes) : option bytes :=
  if str_ends_with suffix name then Some (take (length name - length suffix) name) else None.

(** ** Transaction artifacts *)

(** The closure of [parse_mode1_transaction_artifact] at one window. *)
Definition artifact_at (name marker : bytes) (offset : nat) : option bytes :=
  if negb (bool_decide (take (length marker) (drop offset name) = marker)) then None
  else
    prefix ← slice_get name 1 (Z.of_nat offset);
    username ← str_strip_suffix (bs ".hye") prefix;
    let suffix := drop (offset + length marker) name in
    if (len suffix =? 32) && forallb is_lower_hex_byte suffix
       && (utf8_valid username && is_canonical_username username)
    then Some username else None.

(** [windows(marker.len()).enumerate().find_map(..)] *)
Definition parse_mode1_transaction_artifact (name marker : bytes) : option bytes :=
  if negb (bool_decide (head name = Some Byte.x2e)) then None
  else head (omap (artifact_at name marker) (seq 0 (S (length name) - length marker))).

Definition TMP : bytes := bs ".tmp.".
Definition STAGED : bytes := bs ".staged.".
Definition CLEAR : bytes := bs ".clear.".
Definition ROLLBACK : bytes := bs ".rollback.".

(** [name_text.strip_suffix(".hye")] with a canonical username. *)
Definition authoritative_username (name : bytes) : option bytes :=
  username ← str_strip_suffix (bs ".hye") name;
  if is_canonical_username username then Some username else None.
Definition is_artifact (name marker : bytes) : bool :=
  bool_decide (is_Some (parse_mode1_transaction_artifact name marker)).

Definition classify_mode1_namespace_entry (name : bytes) (file_type : NamespaceFileType) (nlink : Z)
    : NamespaceEntryClassification :=
  if negb (utf8_valid name) then NcNonUtf8
  else
    match file_type with
    | NftSymlink => NcSymlink
    | NftDirectory => NcDirectory
    | NftOther => NcUnknown
    | NftRegular =>
        if negb (nlink =? 1) then NcHardlink
        else
          match authoritative_username name with
          | Some username => NcAuthoritative username
          | None =>
              if is_artifact name TMP then NcTemporary
              else if is_artifact name STAGED then NcStaged
              else if is_artifact name CLEAR || str_ends_with (bs ".bin") name
                      || str_ends_with (bs ".json") name then NcClear
              else if is_artifact name ROLLBACK then NcRollback
              else NcUnknown
          end
    end.

Definition classified_mode1_transaction_username (name : bytes)
    (classification : NamespaceEntryClassification) : option bytes :=
  match classification with
  | NcTemporary => parse_mode1_transaction_artifact name TMP
  | NcStaged => parse_mode1_transaction_artifact name STAGED
  | NcClear => parse_mode1_transaction_artifact name CLEAR
  | NcRollback => parse_mode1_transaction_artifact name ROLLBACK
  | _ => None
  end.

(** ** Inventories *)

Record NamespaceDirectoryMetadata := mkNamespaceDirectory {
  nd_path : bytes;
  nd_uid : Z;
  nd_gid : Z;
  nd_mode : Z;
  nd_nlink : Z;
}.
Record NamespaceFingerprintEntry := mkNamespaceEntry {
  ne_name : bytes;
  ne_file_type : NamespaceFileType;
  ne_uid : Z;
  ne_gid : Z;
  ne_mode : Z;
  ne_nlink : Z;
  ne_size : Z;
  ne_ciphertext_sha256 : Sha256Digest;
  ne_classification : NamespaceEntryClassification;
}.
#[export] Instance NamespaceFingerprintEntry_eq_dec : EqDecision NamespaceFingerprintEntry.
Proof. solve_decision. Defined.
Record NamespaceInventoryV1 := mkNamespaceInventory {
  ni_directory : NamespaceDirectoryMetadata;
  ni_entries : list NamespaceFingerprintEntry;
}.

(** The loop of [validate_inventory], with the running total. *)
Fixpoint validate_entries (total : Z) (entries : list NamespaceFingerprintEntry) : pcresult () :=
  match entries with
  | [] => Ok ()
  | entry :: rest =>
      if bool_decide (ne_name entry = []) || (MAX_NAMESPACE_NAME_BYTES <? len (ne_name entry))
      then Err (LimitExceeded "namespace entry name")
      else
        _ ← digest_validate (ne_ciphertext_sha256 entry);
        if MAX_NAMESPACE_CIPHERTEXT_BYTES <? ne_size entry
        then Err (LimitExceeded "namespace entry bytes")
        else
          total ← ok_or (checked_add total (ne_size entry)) (LimitExceeded "namespace ciphertext bytes");
          if MAX_NAMESPACE_TOTAL_BYTES <? total then Err (LimitExceeded "namespace ciphertext bytes")
          else if negb (bool_decide
                          (classify_mode1_namespace_entry (ne_name entry) (ne_file_type entry)
                             (ne_nlink entry) = ne_classification entry))
          then Err InvalidNamespaceInventory
          else validate_entries total rest
  end.

(** [names.windows(2).any(|window| window[0] == window[1])] *)
Fixpoint adjacent_equal (names : list bytes) : bool :=
  match names with
  | a :: (b :: _) as rest => bool_decide (a = b) || adjacent_equal rest
  | _ => false
  end.

Definition validate_inventory (inventory : NamespaceInventoryV1) : pcresult () :=
  _ ← validate_absolute_path (nd_path (ni_directory inventory)) "namespace path";
  if MAX_NAMESPACE_ENTRIES <? len (ni_entries inventory)
  then Err (LimitExceeded "namespace entry count")
  else
    _ ← validate_entries 0 (ni_entries inventory);
    if adjacent_equal (merge_sort str_le (ne_name <$> ni_entries inventory))
    then Err InvalidNamespaceInventory
    else Ok ().

Definition validate_readiness_inventory (inventory : NamespaceInventoryV1) : pcresult () :=
  _ ← validate_inventory inventory;
  let d := ni_directory inventory in
  if negb (bool_decide (nd_path d = MODE1_NAMESPACE_PATH)) || negb (nd_uid d =? 0)
     || negb (nd_gid d =? 0) || negb (nd_mode d =? mode_700) || (nd_nlink d =? 0)
  then Err InvalidNamespaceInventory
  else if existsb (λ e, negb (is_authoritative (ne_classification e))
                        || negb (bool_decide (ne_file_type e = NftRegular))
                        || negb (ne_uid e =? 0) || negb (ne_gid e =? 0)
                        || negb (ne_mode e =? mode_600) || negb (ne_nlink e =? 1))
            (ni_entries inventory)
  then Err InvalidNamespaceInventory
  else Ok ().

(** ** The frame *)

Definition NAMESPACE_DOMAIN : bytes := bs "HOWNAMESPACE-v1" ++ [Byte.x00].

Definition entry_le (l r : NamespaceFingerprintEntry) : Prop := str_le (ne_name l) (ne_name r).
#[export] Instance entry_le_dec l r : Decision (entry_le l r).
Proof. unfold entry_le. apply _. Defined.

(** The frames of one entry. *)
Definition entry_body (e : NamespaceFingerprintEntry) (digest : bytes) : bytes :=
  frame 16 (bs "entry")
  ++ frame 17 (ne_name e)
  ++ frame 18 [byte.of_Z (file_type_code (ne_file_type e))]
  ++ frame_u64 19 (ne_uid e)
  ++ frame_u64 20 (ne_gid e)
  ++ frame_u64 21 (ne_mode e)
  ++ frame_u64 22 (ne_nlink e)
  ++ frame_u64 23 (ne_size e)
  ++ frame 24 digest
  ++ frame 25 [byte.of_Z (classification_code (ne_classification e))].
Definition entry_frames (e : NamespaceFingerprintEntry) : pcresult bytes :=
  digest ← hex_decode (ne_ciphertext_sha256 e);
  Ok (entry_body e digest).

(** The loop over the sorted entries: the total and the frames. *)
Fixpoint entries_frames (total : Z) (entries : list NamespaceFingerprintEntry)
    : pcresult (Z * bytes) :=
  match entries with
  | [] => Ok (total, [])
  | e :: rest =>
      total ← ok_or (checked_add total (ne_size e)) (LimitExceeded "namespace ciphertext bytes");
      head ← entry_frames e;
      '(total, tail) ← entries_frames total rest;
      Ok (total, head ++ tail)
  end.

Definition directory_frames (d : NamespaceDirectoryMetadata) : bytes :=
  NAMESPACE_DOMAIN
  ++ frame 1 (nd_path d)
  ++ frame 2 (bs "root-owned-mode0700-no-follow-v1")
  ++ frame_u64 3 (nd_uid d)
  ++ frame_u64 4 (nd_gid d)
  ++ frame_u64 5 (nd_mode d)
  ++ frame_u64 6 (nd_nlink d).

(** The whole frame around the framed entries. *)
Definition inventory_frames (inventory : NamespaceInventoryV1) (total_bytes : Z) (body : bytes)
    : bytes :=
  directory_frames (ni_directory inventory) ++ body
  ++ frame_u64 32 (len (ni_entries inventory)) ++ frame_u64 33 total_bytes.

Definition encode_namespace_fingerprint_frame (inventory : NamespaceInventoryV1) : pcresult bytes :=
  _ ← validate_inventory inventory;
  let sorted := merge_sort entry_le (ni_entries inventory) in
  '(total_bytes, body) ← entries_frames 0 sorted;
  Ok (inventory_frames inventory total_bytes body).

Record NamespaceFingerprintV1 := mkFingerprint {
  nf_sha256 : Sha256Digest;
  nf_entry_count : Z;
  nf_ciphertext_bytes : Z;
}.

Definition fingerprint_validate (f : NamespaceFingerprintV1) : pcresult () :=
  _ ← digest_validate (nf_sha256 f);
  maximum_bytes ← ok_or (checked_mul (nf_entry_count f) MAX_NAMESPACE_CIPHERTEXT_BYTES)
                    (InvalidSchema "namespace fingerprint total overflow");
  if (MAX_NAMESPACE_ENTRIES <? nf_entry_count f)
     || (MAX_NAMESPACE_TOTAL_BYTES <? nf_ciphertext_bytes f)
     || (maximum_bytes <? nf_ciphertext_bytes f)
     || negb (Bool.eqb (nf_entry_count f =? 0) (nf_ciphertext_bytes f =? 0))
  then Err (InvalidSchema "namespace fingerprint totals")
  else Ok ().

(** [try_fold(0u64, |total, entry| total.checked_add(entry.size))] *)
Fixpoint ciphertext_total (total : Z) (entries : list NamespaceFingerprintEntry) : pcresult Z :=
  match entries with
  | [] => Ok total
  | e :: rest =>
      total ← ok_or (checked_add total (ne_size e)) (LimitExceeded "namespace ciphertext bytes");
      ciphertext_total total rest
  end.

Definition namespace_fingerprint `{Sha256} (inventory : NamespaceInventoryV1)
    : pcresult NamespaceFingerprintV1 :=
  frame ← encode_namespace_fingerprint_frame inventory;
  ciphertext_bytes ← ciphertext_total 0 (ni_entries inventory);
  let fingerprint :=
    mkFingerprint (digest_from_bytes frame) (len (ni_entries inventory)) ciphertext_bytes in
  _ ← fingerprint_validate fingerprint;
  Ok fingerprint.

(** * What the fingerprint identifies

    Names of transaction artifacts are parsed back uniquely, and the framed
    digest of an inventory determines it up to the order of its entries. *)

(** ** Artifact names *)

Lemma str_ends_with_true suffix name :
  str_ends_with suffix name = true ↔ ∃ stem, name = stem ++ suffix.
Proof.
  unfold str_ends_with. rewrite bool_decide_eq_true. split.
  - intros [_ Hd]. exists (take (length name - length suffix) name). rewrite <- Hd at 2.
    by rewrite take_drop.
  - intros [stem ->]. rewrite length_app, Nat.add_sub, drop_app_length. split; [lia|done].
Qed.

Lemma str_strip_suffix_Some suffix name stem :
  str_strip_suffix suffix name = Some stem ↔ name = stem ++ suffix.
Proof.
  unfold str_strip_suffix. destruct (str_ends_with suffix name) eqn:E.
  - apply str_ends_with_true in E as [s ->]. rewrite length_app, Nat.add_sub, take_app_length.
    split; [by intros [= ->]|]. intros Heq. apply app_inv_tail in Heq as ->. done.
  - split; [done|]. intros ->. rewrite <- not_true_iff_false in E. destruct E.
    apply str_ends_with_true. eauto.
Qed.

Definition is_nonce (suffix : bytes) : Prop :=
  len suffix = 32 ∧ forallb is_lower_hex_byte suffix = true.

Lemma canonical_utf8 u : is_canonical_username u = true → utf8_valid u = true.
Proof.
  unfold is_canonical_username. intros Hu. breflect. apply utf8_valid_ascii.
  eapply forallb_impl; [|done]. apply is_name_byte_ascii.
Qed.

Lemma artifact_at_Some name marker offset u :
  head name = Some Byte.x2e →
  artifact_at name marker offset = Some u ↔
  ∃ nonce, name = bs "." ++ u ++ bs ".hye" ++ marker ++ nonce ∧ is_nonce nonce
           ∧ is_canonical_username u = true ∧ offset = length (bs "." ++ u ++ bs ".hye").
Proof.
  intros Hhd. unfold artifact_at. split.
  - case_bool_decide as Hm; simpl; [|done]. intros Ha. inv_ok.
    apply slice_get_Some in Ha0 as (Hr & -> & Hl); [|lia].
    apply str_strip_suffix_Some in Ha1. breflect.
    destruct (_ && _) eqn:E in Ha; [|done]. injection Ha as <-. breflect.
    exists (drop (offset + length marker) name).
    assert (take offset name = bs "." ++ a0 ++ bs ".hye") as Ht.
    { assert (take 1 name = bs ".") as Hdot
        by (destruct name as [|b l]; [done|]; injection Hhd as ->; simpl; by rewrite take_0).
      replace offset with (1 + Z.to_nat (Z.of_nat offset - 1))%nat by lia.
      rewrite <- take_take_drop, Hdot. change (Z.to_nat 1) with 1%nat in *. by rewrite Ha1. }
    split_and!; try done.
    + rewrite <- (take_drop offset name) at 1. rewrite Ht. rewrite <- !app_assoc. do 3 f_equal.
      rewrite <- (take_drop (length marker) (drop offset name)) at 1. by rewrite Hm, drop_drop.
    + etrans; [|exact (f_equal length Ht)]. rewrite length_take. unfold len in Hr. lia.
  - intros (nonce & -> & [Hl Hh] & Hu & ->).
    set (pre := bs "." ++ u ++ bs ".hye").
    assert (bs "." ++ u ++ bs ".hye" ++ marker ++ nonce = pre ++ marker ++ nonce) as ->
      by (unfold pre; by rewrite <- !app_assoc).
    rewrite drop_app_length, take_app_length, bool_decide_eq_true_2 by done. cbn [negb].
    assert (slice_get (pre ++ marker ++ nonce) 1 (Z.of_nat (length pre)) = Some (u ++ bs ".hye")) as ->.
    { unfold pre. rewrite <- app_assoc.
      rewrite <- (slice_get_mid (bs ".") (u ++ bs ".hye") (marker ++ nonce)). f_equal.
      unfold len. rewrite !length_app. simpl. lia. }
    cbn [mbind option_bind]. rewrite (proj2 (str_strip_suffix_Some _ _ _) eq_refl).
    cbn [mbind option_bind]. rewrite <- length_app, (app_assoc pre), drop_app_length.
    rewrite Hh, (canonical_utf8 _ Hu), Hu, (proj2 (Z.eqb_eq _ _) Hl). done.
Qed.

(** The first window that parses is the only one. *)
Lemma head_omap {A B} (f : A → option B) (l : list A) x b :
  x ∈ l → f x = Some b → (∀ y b', y ∈ l → f y = Some b' → b' = b) → head (omap f l) = Some b.
Proof.
  intros Hin Hf Hu. induction l as [|y l IH]; [by apply elem_of_nil in Hin|]. simpl.
  destruct (f y) as [b'|] eqn:Ey; [simpl; f_equal; eapply Hu; [|done]; by left|].
  apply IH; [|intros; eapply Hu; [|done]; by right].
  apply elem_of_cons in Hin as [->|Hin]; [congruence|done].
Qed.

(** A name parses as an artifact of a user exactly when it is composed of that
    user's record name, the marker and a 32-digit nonce. *)
Lemma parse_artifact_Some name marker u :
  parse_mode1_transaction_artifact name marker = Some u ↔
  is_canonical_username u = true
  ∧ ∃ nonce, is_nonce nonce ∧ name = bs "." ++ u ++ bs ".hye" ++ marker ++ nonce.
Proof.
  unfold parse_mode1_transaction_artifact. case_bool_decide as Hhd; cbn [negb].
  - split.
    + intros Hh. apply head_Some in Hh as [rest Hl].
      assert (u ∈ omap (artifact_at name marker) (seq 0 (S (length name) - length marker))) as Hin
        by (rewrite Hl; left).
      apply list_elem_of_omap in Hin as (o & _ & Ho).
      apply artifact_at_Some in Ho as (nonce & Hn & Hnonce & Hu & _); [|done]. eauto.
    + intros (Hu & nonce & Hnonce & Hn).
      eapply head_omap with (x := length (bs "." ++ u ++ bs ".hye")).
      * apply elem_of_seq. rewrite Hn, !length_app. lia.
      * apply artifact_at_Some; [done|]. by exists nonce.
      * intros o u' _ Ho. apply artifact_at_Some in Ho as (nonce' & Hn' & [Hl' _] & _ & _); [|done].
        destruct Hnonce as [Hl _]. rewrite Hn in Hn'. apply app_inv_head in Hn'.
        rewrite !app_assoc in Hn'. apply app_inj_2 in Hn' as [Hn' _]; [|unfold len in *; lia].
        apply app_inv_tail in Hn'. by apply app_inv_tail in Hn'.
  - split; [done|]. by intros (_ & nonce & _ & ->).
Qed.

(** ** Frames *)

Lemma frame_split tag (v1 v2 r1 r2 : bytes) :
  len v1 ≤ U64_MAX → len v2 ≤ U64_MAX →
  frame tag v1 ++ r1 = frame tag v2 ++ r2 → v1 = v2 ∧ r1 = r2.
Proof.
  intros H1 H2 E. unfold frame in E. apply (f_equal (drop 1)) in E. cbn [app drop] in E.
  rewrite <- !app_assoc in E. pose proof (len_nonneg v1). pose proof (len_nonneg v2).
  unfold_max. apply split_word in E as [Hl E]; [|simpl; lia..].
  by apply app_inj_1 in E; [|unfold len in *; lia].
Qed.

(** What the field types guarantee, and what [validate_entries] adds. *)
Definition entry_typed (e : NamespaceFingerprintEntry) : Prop :=
  in_u U32_MAX (ne_uid e) ∧ in_u U32_MAX (ne_gid e) ∧ in_u U32_MAX (ne_mode e)
  ∧ in_u U64_MAX (ne_nlink e) ∧ in_u U64_MAX (ne_size e).
Definition directory_typed (d : NamespaceDirectoryMetadata) : Prop :=
  in_u U32_MAX (nd_uid d) ∧ in_u U32_MAX (nd_gid d) ∧ in_u U32_MAX (nd_mode d)
  ∧ in_u U64_MAX (nd_nlink d).
Definition inventory_typed (i : NamespaceInventoryV1) : Prop :=
  directory_typed (ni_directory i) ∧ Forall entry_typed (ni_entries i).
Definition entry_checked (e : NamespaceFingerprintEntry) : Prop :=
  entry_typed e ∧ len (ne_name e) ≤ MAX_NAMESPACE_NAME_BYTES ∧ len (ne_ciphertext_sha256 e) = 64
  ∧ ne_classification e
    = classify_mode1_namespace_entry (ne_name e) (ne_file_type e) (ne_nlink e).

Lemma validate_entries_checked total entries u :
  validate_entries total entries = Ok u → Forall entry_typed entries → Forall entry_checked entries.
Proof.
  revert total. induction entries as [|e entries IH]; intros total Hv Ht; [constructor|].
  cbn [validate_entries] in Hv. inv_ok. breflect. inversion_clear Ht.
  constructor; [|by eapply IH]. split_and!; try done.
  rename select (digest_validate _ = _) into Hd. unfold digest_validate, is_lower_hex in Hd.
  inv_ok. by breflect.
Qed.

Lemma file_type_code_inj t1 t2 :
  [byte.of_Z (file_type_code t1)] = [byte.of_Z (file_type_code t2)] → t1 = t2.
Proof. by destruct t1, t2. Qed.

Lemma entry_frames_inj e1 e2 f1 f2 r1 r2 :
  entry_checked e1 → entry_checked e2 →
  entry_frames e1 = Ok f1 → entry_frames e2 = Ok f2 → f1 ++ r1 = f2 ++ r2 → e1 = e2 ∧ r1 = r2.
Proof.
  intros ((Hu1 & Hg1 & Hm1 & Hn1 & Hs1) & Hl1 & Hd1 & Hc1)
         ((Hu2 & Hg2 & Hm2 & Hn2 & Hs2) & Hl2 & Hd2 & Hc2).
  unfold entry_frames, MAX_NAMESPACE_NAME_BYTES in *. intros F1 F2 E. inv_ok. subst f1 f2.
  repeat match goal with D : hex_decode (ne_ciphertext_sha256 ?e) = Ok _ |- _ =>
    apply hex_encode_decode in D; match goal with L : len (ne_ciphertext_sha256 e) = 64 |- _ =>
      rewrite <- D, len_hex_encode in L end end.
  unfold_max. unfold entry_body, frame_u64 in E.
  rewrite <- !app_assoc in E.
  apply frame_inj in E as [_ E]; [|done].
  apply frame_split in E as [E1 E]; [|unfold_max; lia..].
  apply frame_inj in E as [E2 E]; [|done]. apply file_type_code_inj in E2.
  apply word_frame_inj in E as [E3 E]; [|simpl; lia..].
  apply word_frame_inj in E as [E4 E]; [|simpl; lia..].
  apply word_frame_inj in E as [E5 E]; [|simpl; lia..].
  apply word_frame_inj in E as [E6 E]; [|simpl; lia..].
  apply word_frame_inj in E as [E7 E]; [|simpl; lia..].
  apply frame_inj in E as [E8 E]; [|unfold len in *; lia].
  apply frame_inj in E as [_ E]; [|done]. split; [|done].
  destruct e1, e2. simpl in *. subst. done.
Qed.

Lemma entry_frames_head e f :
  entry_frames e = Ok f → ∃ rest, f = frame 16 (bs "entry") ++ rest.
Proof. unfold entry_frames. intros F. inv_ok. subst f. eexists. reflexivity. Qed.

(** The body, up to the count that follows it, determines the entries. *)
Lemma entries_frames_inj l1 l2 t1 t2 t1' t2' b1 b2 n1 n2 r1 r2 :
  Forall entry_checked l1 → Forall entry_checked l2 →
  entries_frames t1 l1 = Ok (t1', b1) → entries_frames t2 l2 = Ok (t2', b2) →
  b1 ++ frame 32 n1 ++ r1 = b2 ++ frame 32 n2 ++ r2 → l1 = l2.
Proof.
  revert l2 t1 t2 b1 b2. induction l1 as [|e1 l1 IH]; intros [|e2 l2] t1 t2 b1 b2 C1 C2 F1 F2 E.
  - done.
  - exfalso. cbn [entries_frames] in F1, F2. simplify_eq. inv_ok. destruct a1. inv_ok.
    apply entry_frames_head in Ha0 as [rest ->]. simplify_eq.
  - exfalso. cbn [entries_frames] in F1, F2. inv_ok. destruct a1. inv_ok.
    apply entry_frames_head in Ha0 as [rest ->]. simplify_eq.
  - cbn [entries_frames] in F1, F2. inv_ok. destruct a1, a4. inv_ok. simplify_eq.
    inversion_clear C1. inversion_clear C2. rewrite <- !app_assoc in E.
    eapply entry_frames_inj in E as [-> E]; [|done..]. f_equal. by eapply IH.
Qed.

(** ** Order *)

Lemma bytes_leb_antisym l r : bytes_leb l r = true → bytes_leb r l = true → l = r.
Proof.
  revert r. induction l as [|x l IH]; intros [|y r]; simpl; try done. intros H1 H2.
  assert (byte.unsigned x = byte.unsigned y) as Hxy by lia.
  rewrite Hxy, Z.ltb_irrefl, Z.eqb_refl in *. simpl in *. f_equal; [|by apply IH].
  rewrite <- (byte.of_Z_unsigned x), <- (byte.of_Z_unsigned y). by rewrite Hxy.
Qed.

#[export] Instance entry_le_total : Total entry_le.
Proof. intros x y. apply bytes_leb_total. Qed.
#[export] Instance entry_le_trans : Transitive entry_le.
Proof. intros x y z. apply bytes_leb_trans. Qed.
#[export] Instance str_le_total : Total str_le.
Proof. intros x y. apply bytes_leb_total. Qed.
#[export] Instance str_le_trans : Transitive str_le.
Proof. intros x y z. apply bytes_leb_trans. Qed.
#[export] Instance str_le_antisymm : AntiSymm (=) str_le.
Proof. intros x y. apply bytes_leb_antisym. Qed.

Lemma adjacent_equal_NoDup (l : list bytes) :
  StronglySorted str_le l → adjacent_equal l = false → NoDup l.
Proof.
  induction 1 as [|a l Hs IH Hf]; [constructor|]. intros Ha. destruct l as [|b l]; [apply NoDup_singleton|].
  cbn [adjacent_equal] in Ha. apply orb_false_iff in Ha as [Hab Ha]. apply bool_decide_eq_false in Hab.
  constructor; [|by apply IH]. intros Hin. apply elem_of_cons in Hin as [Hin|Hin]; [done|].
  apply Hab. apply (anti_symm str_le); [by inversion Hf|].
  inversion Hs as [|? ? _ Hb]; subst. by eapply Forall_forall in Hb.
Qed.

Lemma valid_names_NoDup i u : validate_inventory i = Ok u → NoDup (ne_name <$> ni_entries i).
Proof.
  unfold validate_inventory. intros Hv. inv_ok. breflect.
  rewrite <- (merge_sort_Permutation str_le (ne_name <$> ni_entries i)).
  apply adjacent_equal_NoDup; [|done]. apply StronglySorted_merge_sort; apply _.
Qed.

(** Sorted by distinct names, a list is determined by its elements. *)
Lemma sorted_names_unique (l1 l2 : list NamespaceFingerprintEntry) :
  StronglySorted entry_le l1 → StronglySorted entry_le l2 → NoDup (ne_name <$> l1) → l1 ≡ₚ l2 →
  l1 = l2.
Proof.
  intros H1. revert l2. induction H1 as [|x l1 H1 IH Hx]; intros l2 H2 Hn Hp.
  - by apply Permutation_nil_l in Hp.
  - destruct l2 as [|y l2]; [by apply Permutation_nil_r in Hp|].
    inversion H2 as [|? ? H2' Hy]; subst.
    assert (x = y) as ->.
    { assert (x ∈ y :: l2) as Hxin by (rewrite <- Hp; left).
      assert (y ∈ x :: l1) as Hyin by (rewrite Hp; left).
      apply elem_of_cons in Hxin as [->|Hxin]; [done|]. apply elem_of_cons in Hyin as [->|Hyin]; [done|].
      eapply Forall_forall in Hx; [|done]. eapply Forall_forall in Hy; [|done].
      assert (ne_name x = ne_name y) as Hne by (by apply bytes_leb_antisym).
      rewrite fmap_cons in Hn. apply NoDup_cons in Hn as [Hn _]. destruct Hn.
      rewrite Hne. by apply list_elem_of_fmap_2. }
    f_equal. apply IH; [done| |by eapply Permutation_cons_inv].
    rewrite fmap_cons in Hn. by apply NoDup_cons in Hn as [_ ?].
Qed.

(** ** Fingerprints *)

Lemma directory_frames_inj d1 d2 r1 r2 :
  directory_typed d1 → directory_typed d2 →
  len (nd_path d1) ≤ U64_MAX → len (nd_path d2) ≤ U64_MAX →
  directory_frames d1 ++ r1 = directory_frames d2 ++ r2 → d1 = d2 ∧ r1 = r2.
Proof.
  intros (Hu1 & Hg1 & Hm1 & Hn1) (Hu2 & Hg2 & Hm2 & Hn2) Hp1 Hp2 E.
  unfold directory_frames, frame_u64 in E. rewrite <- !app_assoc in E. apply app_inv_head in E.
  apply frame_split in E as [E1 E]; [|done..]. apply frame_inj in E as [_ E]; [|done].
  unfold_max.
  apply word_frame_inj in E as [E3 E]; [|simpl; lia..].
  apply word_frame_inj in E as [E4 E]; [|simpl; lia..].
  apply word_frame_inj in E as [E5 E]; [|simpl; lia..].
  apply word_frame_inj in E as [E6 E]; [|simpl; lia..].
  split; [|done]. destruct d1, d2. simpl in *. by subst.
Qed.

Lemma valid_inventory_path i u :
  validate_inventory i = Ok u → len (nd_path (ni_directory i)) ≤ U64_MAX.
Proof.
  unfold validate_inventory, validate_absolute_path, MAX_PATH_BYTES. intros Hv. inv_ok. breflect.
  unfold_max. lia.
Qed.

Lemma valid_inventory_entries i u :
  validate_inventory i = Ok u → inventory_typed i →
  Forall entry_checked (merge_sort entry_le (ni_entries i)).
Proof.
  unfold validate_inventory. intros Hv [_ Ht]. inv_ok.
  rename select (validate_entries _ _ = Ok _) into He. rewrite merge_sort_Permutation.
  by eapply validate_entries_checked.
Qed.

(** The frame determines the inventory up to order, and conversely. *)
Lemma fingerprint_frame_inj i1 i2 x1 x2 :
  inventory_typed i1 → inventory_typed i2 →
  encode_namespace_fingerprint_frame i1 = Ok x1 → encode_namespace_fingerprint_frame i2 = Ok x2 →
  x1 = x2 ↔ ni_directory i1 = ni_directory i2 ∧ ni_entries i1 ≡ₚ ni_entries i2.
Proof.
  intros T1 T2 F1 F2. unfold encode_namespace_fingerprint_frame in *. inv_ok.
  rename select (validate_inventory i1 = _) into V1. rename select (validate_inventory i2 = _) into V2.
  rename select (entries_frames 0 (merge_sort _ (ni_entries i1)) = _) into B1.
  rename select (entries_frames 0 (merge_sort _ (ni_entries i2)) = _) into B2.
  repeat match goal with p : (Z * list _)%type |- _ => destruct p end. inv_ok. split.
  - intros ->. match goal with Ea : _ = x2, Eb : _ = x2 |- _ => rewrite <- Eb in Ea; rename Ea into E end.
    unfold inventory_frames, frame_u64 in E.
    apply directory_frames_inj in E as [Hd E];
      [|apply T1|apply T2|by eapply valid_inventory_path|by eapply valid_inventory_path].
    split; [done|].
    rewrite <- (merge_sort_Permutation entry_le (ni_entries i1)),
      <- (merge_sort_Permutation entry_le (ni_entries i2)).
    eapply entries_frames_inj in E; [by rewrite E| | |done|done]; by eapply valid_inventory_entries.
  - intros [Hd Hp].
    assert (merge_sort entry_le (ni_entries i1) = merge_sort entry_le (ni_entries i2)) as Hs.
    { apply sorted_names_unique; [apply StronglySorted_merge_sort; apply _..| |].
      - rewrite merge_sort_Permutation. by eapply valid_names_NoDup.
      - by rewrite !merge_sort_Permutation. }
    rewrite Hs, B2 in B1. injection B1 as <- <-. subst. unfold inventory_frames, len.
    by rewrite Hd, Hp.
Qed.

Section fingerprint.
  Context `{Sha256}.

(** C26: Fingerprints identify inventories: two inventories have the same digest
    exactly when their directories are the same and their entries are, in any
    order; or their frames are an exhibited SHA-256 collision. *)
Theorem namespace_fingerprint_binds i1 i2 f1 f2 :
  inventory_typed i1 → inventory_typed i2 →
  namespace_fingerprint i1 = Ok f1 → namespace_fingerprint i2 = Ok f2 →
  nf_sha256 f1 = nf_sha256 f2 ↔
  (ni_directory i1 = ni_directory i2 ∧ ni_entries i1 ≡ₚ ni_entries i2)
  ∨ ∃ x1 x2, encode_namespace_fingerprint_frame i1 = Ok x1
             ∧ encode_namespace_fingerprint_frame i2 = Ok x2 ∧ collision x1 x2.
Proof.
  intros T1 T2 F1 F2. unfold namespace_fingerprint in *. inv_ok. subst f1 f2. cbn [nf_sha256].
  rename select (encode_namespace_fingerprint_frame i1 = _) into E1.
  rename select (encode_namespace_fingerprint_frame i2 = _) into E2.
  pose proof (fingerprint_frame_inj _ _ _ _ T1 T2 E1 E2) as Hinj. split.
  - intros Hd. apply digest_from_bytes_eq in Hd as [Hx|Hc]; [left; by apply Hinj|right; eauto].
  - intros [Hsame|(x1 & x2 & X1 & X2 & _ & Hc)]; [apply Hinj in Hsame; by rewrite Hsame|].
    rewrite X1 in E1. rewrite X2 in E2. simplify_eq. unfold digest_from_bytes. by rewrite Hc.
Qed.
End fingerprint.

(** *** A concrete pair *)

Definition demo_entry (user digit : string) : NamespaceFingerprintEntry :=
  mkNamespaceEntry (bs user ++ bs ".hye") NftRegular 0 0 mode_600 1 100
    (concat (replicate 64 (bs digit))) (NcAuthoritative (bs user)).
Definition demo_inventory (entries : list NamespaceFingerprintEntry) : NamespaceInventoryV1 :=
  mkNamespaceInventory (mkNamespaceDirectory MODE1_NAMESPACE_PATH 0 0 mode_700 2) entries.
Definition demo_ab := demo_inventory [demo_entry "alice" "a"; demo_entry "bob" "b"].
Definition demo_ba := demo_inventory [demo_entry "bob" "b"; demo_entry "alice" "a"].
Definition demo_fingerprint : NamespaceFingerprintV1 :=
  mkFingerprint (@digest_from_bytes toy_sha256
    (default [] (result_ok (encode_namespace_fingerprint_frame demo_ab)))) 2 200.

Lemma namespace_fingerprint_binds_witness :
  (ni_directory demo_ab = ni_directory demo_ba ∧ ni_entries demo_ab ≡ₚ ni_entries demo_ba)
  ∨ ∃ x1 x2, encode_namespace_fingerprint_frame demo_ab = Ok x1
             ∧ encode_namespace_fingerprint_frame demo_ba = Ok x2 ∧ @collision toy_sha256 x1 x2.
Proof.
  refine (proj1 (@namespace_fingerprint_binds toy_sha256 demo_ab demo_ba demo_fingerprint
    demo_fingerprint _ _ _ _) eq_refl).
  1, 2: repeat constructor; vm_compute; discriminate.
  1, 2: vm_compute; reflexivity.
Defined.
