(* ===== verification/ConfigPatch.v ===== *)
(** * The enable patch of the configuration

    From [crates/howy-common/src/provisioning/mod.rs]: the byte-preserving
    change of [core.disabled] from [true] to [false], prepared when mode 1 is
    provisioned, receipted, and applied when it is enabled. The TOML parser is
    a parameter. *)
From S2P Require Import Prelude Bytes Storage Codec CodecReader Namespace Legacy Cache Config Paths Provision ProvisionAtomic Credential ProvisionProofs.

(** ** The parser of the patch document *)

(** [toml::from_str::<PatchDocument>]: the value of [core.disabled] and the byte
    span of its token. *)
Class PatchToml := toml_patch : bytes → option (bool * (nat * nat)).

Record ConfigPatchV1 := mkConfigPatch {
  pt_byte_start : Z;
  pt_byte_end : Z;
  pt_before : bytes;
  pt_after : bytes;
  pt_disabled_sha256 : Sha256Digest;
  pt_enabled_sha256 : Sha256Digest;
}.
#[export] Instance ConfigPatchV1_eq_dec : EqDecision ConfigPatchV1.
Proof. solve_decision. Defined.
Record PreparedConfigPatch := mkPreparedPatch {
  pp_contract : ConfigPatchV1;
  pp_enabled_bytes : bytes;
}.

Definition config_patch_validate (p : ConfigPatchV1) : pcresult () :=
  if negb (bool_decide (pt_before p = bs "true")) || negb (bool_decide (pt_after p = bs "false"))
     || negb (bool_decide (checked_sub (pt_byte_end p) (pt_byte_start p) = Some 4))
     || (MAX_CONFIG_BYTES <? pt_byte_end p)
     || bool_decide (pt_disabled_sha256 p = pt_enabled_sha256 p)
  then Err (InvalidSchema "config patch")
  else
    _ ← digest_validate (pt_disabled_sha256 p);
    digest_validate (pt_enabled_sha256 p).

Definition checked_enabled_config_length (disabled_length : Z) : pcresult Z :=
  enabled_length ← ok_or (checked_add disabled_length 1) (LimitExceeded "enabled config bytes");
  if MAX_CONFIG_BYTES <? enabled_length then Err (LimitExceeded "enabled config bytes")
  else Ok enabled_length.

(** ** Strings *)

Definition newline : byte := Byte.x0a.

(** [str::split] at a byte. *)
Fixpoint split_at_byte (sep : byte) (l : bytes) : list bytes :=
  match l with
  | [] => [[]]
  | b :: rest =>
      if bool_decide (b = sep) then [] :: split_at_byte sep rest
      else match split_at_byte sep rest with
           | piece :: pieces => (b :: piece) :: pieces
           | [] => [[b]]
           end
  end.

(** The length in bytes of the white-space character a string starts with. *)
Definition leading_space (l : bytes) : nat :=
  match byte.unsigned <$> take 3 l with
  | 194 :: b :: _ => if (b =? 133) || (b =? 160) then 2%nat else 0%nat
  | [225; 154; 128] => 3%nat
  | [226; 128; c] =>
      if contains 128 138 c || (c =? 168) || (c =? 169) || (c =? 175) then 3%nat else 0%nat
  | [226; 129; 159] => 3%nat
  | [227; 128; 128] => 3%nat
  | b :: _ => if contains 9 13 b || (b =? 32) then 1%nat else 0%nat
  | [] => 0%nat
  end.
(** The same for the character a string ends with, on the reversed bytes. *)
Definition trailing_space (r : bytes) : nat :=
  match byte.unsigned <$> take 3 r with
  | [128; 154; 225] => 3%nat
  | [159; 129; 226] => 3%nat
  | [128; 128; 227] => 3%nat
  | [c; 128; 226] =>
      if contains 128 138 c || (c =? 168) || (c =? 169) || (c =? 175) then 3%nat else 0%nat
  | b :: 194 :: _ => if (b =? 133) || (b =? 160) then 2%nat else 0%nat
  | b :: _ => if contains 9 13 b || (b =? 32) then 1%nat else 0%nat
  | [] => 0%nat
  end.
Fixpoint drop_spaces (space : bytes → nat) (fuel : nat) (l : bytes) : bytes :=
  match fuel, space l with
  | S fuel, S n => drop_spaces space fuel (drop (S n) l)
  | _, _ => l
  end.
(** [str::trim] *)
Definition str_trim (l : bytes) : bytes :=
  let l := drop_spaces leading_space (length l) l in
  reverse (drop_spaces trailing_space (length l) (reverse l)).

(** [str::find(byte)] and [str::rfind(byte)] *)
Definition str_find (b : byte) (l : bytes) : option nat :=
  fst <$> list_find (λ x, x = b) l.
Definition str_rfind (b : byte) (l : bytes) : option nat :=
  (λ p, (length l - 1 - p)%nat) <$> str_find b (reverse l).

(** [str::lines] *)
Definition str_lines (l : bytes) : list bytes :=
  let pieces := split_at_byte newline l in
  let pieces := if bool_decide (last pieces = Some []) then removelast pieces else pieces in
  (λ line, if bool_decide (last line = Some Byte.x0d) then removelast line else line) <$> pieces.

(** [trim_start_matches([' ', '\t'])] *)
Definition is_space_tab (b : byte) : bool := bool_decide (b = Byte.x20) || bool_decide (b = Byte.x09).
Fixpoint trim_start_blanks (l : bytes) : bytes :=
  match l with b :: rest => if is_space_tab b then trim_start_blanks rest else l | [] => [] end.

(** ** The token's layout *)

(** The last section header before the line. *)
Definition active_header (before : bytes) : option bytes :=
  foldl (λ active line,
           let trimmed := str_trim line in
           if str_starts_with (bs "[") trimmed
           then Some (str_trim (default [] (head (split_at_byte Byte.x23 trimmed))))
           else active) None (str_lines before).

Definition validate_disabled_token_layout (source : bytes) (start stop : nat) : pcresult () :=
  let line_start :=
    match str_rfind newline (take start source) with Some p => S p | None => 0%nat end in
  let line_end :=
    match str_find newline (drop stop source) with Some p => (stop + p)%nat | None => length source end in
  let prefix := drop line_start (take start source) in
  let suffix := drop stop (take line_end source) in
  let parts := split_at_byte Byte.x3d prefix in
  let key := str_trim (default [] (parts !! 0%nat)) in
  let before_value := default [] (parts !! 1%nat) in
  if bool_decide (is_Some (parts !! 2%nat)) || negb (bool_decide (key = bs "disabled"))
     || negb (forallb is_space_tab before_value)
  then Err AmbiguousDisabledLiteral
  else
    let suffix := trim_start_blanks suffix in
    if negb (bool_decide (suffix = [])) && negb (str_starts_with (bs "#") suffix)
    then Err AmbiguousDisabledLiteral
    else if negb (bool_decide (active_header (take line_start source) = Some (bs "[core]")))
    then Err AmbiguousDisabledLiteral
    else Ok ().

Section patch.
  Context `{Sha256} `{ConfigEnv} `{PatchToml}.

(** [toml::from_str] into a [HowyConfig] followed by its validation. *)
Definition parse_valid_config (source : bytes) : pcresult HowyConfig :=
  config ← map_err (λ _, InvalidToml) (toml_config source);
  _ ← map_err (λ _, InvalidToml) (validate config);
  Ok config.

Definition prepare_config_enable_patch (raw : bytes) : pcresult PreparedConfigPatch :=
  if MAX_CONFIG_BYTES <? len raw then Err (LimitExceeded "config bytes")
  else if bool_decide (Byte.x0d ∈ raw) then Err InvalidConfigEncoding
  else
    _ ← checked_enabled_config_length (len raw);
    if negb (utf8_valid raw) then Err InvalidConfigEncoding
    else
      disabled_config ← parse_valid_config raw;
      if negb (disabled (core disabled_config)) then Err MissingDisabledLiteral
      else
        '(value, (start, stop)) ← ok_or (toml_patch raw) MissingDisabledLiteral;
        if negb value then Err MissingDisabledLiteral
        else
          _ ← validate_disabled_token_layout raw start stop;
          if negb (bool_decide (slice_get raw (Z.of_nat start) (Z.of_nat stop) = Some (bs "true")))
          then Err AmbiguousDisabledLiteral
          else
            let enabled_bytes :=
              take start raw ++ bs "false" ++ drop stop raw in
            if negb (utf8_valid enabled_bytes) then Err InvalidConfigEncoding
            else
              enabled_config ← parse_valid_config enabled_bytes;
              if disabled (core enabled_config) then Err InvalidToml
              else
                Ok (mkPreparedPatch
                      (mkConfigPatch (Z.of_nat start) (Z.of_nat stop) (bs "true") (bs "false")
                         (digest_from_bytes raw) (digest_from_bytes enabled_bytes))
                      enabled_bytes).

Definition apply_receipted_config_patch (disabled_bytes : bytes) (patch : ConfigPatchV1)
    : pcresult bytes :=
  _ ← config_patch_validate patch;
  if (MAX_CONFIG_BYTES <? len disabled_bytes)
     || negb (bool_decide (digest_from_bytes disabled_bytes = pt_disabled_sha256 patch))
  then Err (InvalidSchema "disabled config hash")
  else if negb (bool_decide (slice_get disabled_bytes (pt_byte_start patch) (pt_byte_end patch)
                             = Some (bs "true")))
  then Err (InvalidSchema "disabled config token")
  else
    prepared ← prepare_config_enable_patch disabled_bytes;
    if negb (bool_decide (pp_contract prepared = patch))
    then Err (InvalidSchema "unique config patch")
    else Ok (pp_enabled_bytes prepared).
End patch.

(** * The patch changes one token

    What a prepared patch guarantees, and that only the receipted
    configuration can be enabled with it. *)

Section patch.
  Context `{Sha256Laws} `{ConfigEnv} `{PatchToml}.

(** The token in the middle of the file. *)
Lemma slice_get_parts (raw : bytes) (start stop : nat) x :
  slice_get raw (Z.of_nat start) (Z.of_nat stop) = Some x →
  raw = take start raw ++ x ++ drop stop raw
  ∧ len (take start raw) = Z.of_nat start ∧ Z.of_nat stop = Z.of_nat start + len x.
Proof.
  intros Hg. apply slice_get_Some in Hg as (Hr & -> & Hl); [|lia]. rewrite Nat2Z.id in *. split_and!.
  - rewrite <- (take_drop start raw) at 1. f_equal.
    rewrite <- (take_drop (Z.to_nat (Z.of_nat stop - Z.of_nat start)) (drop start raw)) at 1. f_equal.
    rewrite drop_drop. f_equal. lia.
  - unfold len in *. rewrite length_take. lia.
  - lia.
Qed.

(** What the checks of [prepare_config_enable_patch] establish. *)
Lemma prepare_Ok raw p :
  prepare_config_enable_patch raw = Ok p →
  len raw + 1 ≤ MAX_CONFIG_BYTES
  ∧ (∃ c, parse_valid_config raw = Ok c ∧ disabled (core c) = true)
  ∧ (∃ c, parse_valid_config (pp_enabled_bytes p) = Ok c ∧ disabled (core c) = false)
  ∧ ∃ before after,
      raw = before ++ bs "true" ++ after ∧ pp_enabled_bytes p = before ++ bs "false" ++ after
      ∧ pp_contract p = mkConfigPatch (len before) (len before + 4) (bs "true") (bs "false")
                          (digest_from_bytes raw) (digest_from_bytes (pp_enabled_bytes p)).
Proof.
  unfold prepare_config_enable_patch. intros Hp.
  inv_ok. destruct a1 as [value [start stop]]. inv_ok. subst p. breflect. cbn [pp_enabled_bytes pp_contract].
  rename select (slice_get raw _ _ = _) into Hs.
  destruct (slice_get_parts raw start stop _ Hs) as (Hraw & Hlen & Hstop).
  rename select (checked_enabled_config_length _ = _) into Hl.
  unfold checked_enabled_config_length in Hl. inv_ok. breflect.
  split_and!; [lia|eauto|eauto|].
  exists (take start raw), (drop stop raw). split_and!; [done|done|].
  rewrite Hlen. change (len (bs "true")) with 4 in Hstop. by rewrite Hstop.
Qed.

(** The enable patch replaces exactly one token: the prepared bytes are the
    original with the one [true] at the recorded offset replaced by [false], the
    original parses as a valid disabled configuration and the result as a valid
    enabled one of at most the configured size; the receipted patch applied to
    the same bytes yields exactly the prepared ones, and applied to any other
    bytes is refused — each unless two concrete byte strings collide under
    SHA-256. *)
Theorem enable_patch_exact raw p :
  prepare_config_enable_patch raw = Ok p →
  (∃ before after,
     raw = before ++ bs "true" ++ after ∧ pp_enabled_bytes p = before ++ bs "false" ++ after
     ∧ pt_byte_start (pp_contract p) = len before)
  ∧ (∃ c, parse_valid_config raw = Ok c ∧ disabled (core c) = true)
  ∧ (∃ c, parse_valid_config (pp_enabled_bytes p) = Ok c ∧ disabled (core c) = false)
  ∧ len (pp_enabled_bytes p) ≤ MAX_CONFIG_BYTES
  ∧ (apply_receipted_config_patch raw (pp_contract p) = Ok (pp_enabled_bytes p)
     ∨ collision raw (pp_enabled_bytes p))
  ∧ (∀ other e, apply_receipted_config_patch other (pp_contract p) = Ok e →
       (other = raw ∧ e = pp_enabled_bytes p) ∨ collision other raw).
Proof.
  intros Hp. pose proof (prepare_Ok raw p Hp) as (Hsize & Hd & He & before & after & Hr & Hb & Hc).
  assert (len raw + 1 = len (pp_enabled_bytes p)) as Hlen
    by (rewrite Hb; rewrite Hr at 1; rewrite !len_app; change (len (bs "true")) with 4;
        change (len (bs "false")) with 5; lia).
  pose proof (len_nonneg before). pose proof (len_nonneg after).
  split_and!; try done; [by exists before, after; rewrite Hc|lia| |].
  - destruct (decide (digest_from_bytes raw = digest_from_bytes (pp_enabled_bytes p))) as [Heq|Hne].
    { right. apply digest_from_bytes_eq in Heq as [Heq|]; [|done]. rewrite <- Heq in Hlen. lia. }
    left. unfold apply_receipted_config_patch.
    assert (config_patch_validate (pp_contract p) = Ok ()) as ->.
    { rewrite Hc. unfold config_patch_validate. simpl. rewrite checked_sub_eq by lia.
      replace (len before + 4 - len before) with 4 by lia. rewrite (bool_decide_eq_false_2 _ Hne). simpl.
      assert (len raw = len before + 4 + len after) as Hlr
        by (rewrite Hr at 1; rewrite !len_app; change (len (bs "true")) with 4; lia).
      rewrite (proj2 (Z.ltb_ge _ _)) by lia. simpl. by rewrite !digest_from_bytes_valid. }
    cbn [mbind result_bind].
    rewrite (proj2 (Z.ltb_ge _ _)) by lia. rewrite Hc. cbn [pt_disabled_sha256 pt_byte_start pt_byte_end].
    rewrite bool_decide_eq_true_2 by done. cbn [orb negb].
    assert (slice_get raw (len before) (len before + 4) = Some (bs "true")) as ->
      by (rewrite Hr; exact (slice_get_mid before (bs "true") after)).
    rewrite bool_decide_eq_true_2 by done. cbn [negb]. rewrite Hp. cbn [mbind result_bind].
    by rewrite Hc, bool_decide_eq_true_2.
  - intros other e Ha. unfold apply_receipted_config_patch in Ha. inv_ok. breflect.
    rename select (digest_from_bytes other = _) into Hdig. rewrite Hc in Hdig. simpl in Hdig.
    apply digest_from_bytes_eq in Hdig as [->|]; [left|by right]. split; [done|]. congruence.
Qed.
End patch.

(** ** A concrete configuration *)

Definition demo_raw : bytes :=
  bs "# howy" ++ [newline] ++ bs "[core] # settings" ++ [newline] ++ bs "disabled = true # off" ++ [newline].
Definition demo_enabled : bytes :=
  bs "# howy" ++ [newline] ++ bs "[core] # settings" ++ [newline] ++ bs "disabled = false # off" ++ [newline].
Definition with_disabled (d : bool) : HowyConfig :=
  let c := legacy_defaults in
  let k := core c in
  mkConfig (mkCore (detection_notice k) (timeout_notice k) (no_confirmation k) (suppress_unknown k)
              (abort_if_ssh k) (abort_if_lid_closed k) d) (ml c) (video c) (snapshots c)
    (credentials c) (security c)
    (presence c) (debug c).
(** A parser of these two files. *)
Definition demo_config_env : ConfigEnv := {|
  read_to_string _ := Err (mkIoError NotFound []);
  path_exists _ := false;
  credentials_directory := None;
  toml_config s := Ok (with_disabled (bool_decide (s = demo_raw)));
  toml_value _ := Ok (TomlTable []);
|}.
Definition demo_patch_toml : PatchToml := λ _, Some (true, (36, 40)%nat).
Definition demo_prepared : PreparedConfigPatch :=
  mkPreparedPatch
    (mkConfigPatch 36 40 (bs "true") (bs "false") (@digest_from_bytes toy_sha256 demo_raw)
       (@digest_from_bytes toy_sha256 demo_enabled)) demo_enabled.

Lemma enable_patch_exact_witness :
  len demo_enabled ≤ MAX_CONFIG_BYTES
  ∧ (@apply_receipted_config_patch toy_sha256 demo_config_env demo_patch_toml demo_raw
       (pp_contract demo_prepared) = Ok demo_enabled
     ∨ @collision toy_sha256 demo_raw demo_enabled).
Proof.
  destruct (@enable_patch_exact toy_sha256 toy_sha256_laws demo_config_env demo_patch_toml demo_raw
              demo_prepared ltac:(vm_compute; reflexivity)) as (_ & _ & _ & Hl & Ha & _).
  exact (conj Hl Ha).
Defined.
