(* ===== verification/Receipt.v ===== *)
(** * Readiness results and receipts

    From [crates/howy-common/src/provisioning/mod.rs]: what the readiness
    verifier reports, and the receipt that binds artifact, configuration patch,
    unit policy and verifier output of a mode-1 installation. *)

From S2P Require Import Prelude Bytes Storage Codec Namespace Legacy Cache Config Paths Provision ProvisionAtomic Credential Cleanup Journal Fingerprint ConfigPatch.

Inductive ReceiptState := RsProvisionedDisabled | RsEnabled.
#[export] Instance ReceiptState_eq_dec : EqDecision ReceiptState.
Proof. solve_decision. Defined.

Record ArtifactReceipt := mkArtifactReceipt {
  ar_path : bytes;
  ar_sha256 : Sha256Digest;
  ar_size : Z;
  ar_uid : Z;
  ar_gid : Z;
  ar_mode : Z;
  ar_nlink : Z;
  ar_credential_policy : CredentialPolicyMetadata;
}.
#[export] Instance ArtifactReceipt_eq_dec : EqDecision ArtifactReceipt.
Proof. solve_decision. Defined.

Definition artifact_receipt_validate (a : ArtifactReceipt) : pcresult () :=
  if negb (bool_decide (ar_path a = MODE1_CREDENTIAL_PATH)) || (ar_size a =? 0)
     || (SYSTEMD_CREDENTIAL_TEXT_SIZE_MAX <? ar_size a)
     || negb (ar_uid a =? 0) || negb (ar_gid a =? 0) || negb (ar_mode a =? mode_600)
     || negb (ar_nlink a =? 1) || (ar_size a <? cp_envelope_size (ar_credential_policy a))
  then Err (InvalidSchema "receipt artifact")
  else
    _ ← digest_validate (ar_sha256 a);
    policy_validate (ar_credential_policy a).

Record UnitCredentialReceipt := mkUnitCredential {
  uc_base_unit_sha256 : Sha256Digest;
  uc_dropin_sha256 : Sha256Digest;
  uc_source_companion_name : bytes;
  uc_configured_credential_source : bytes;
}.
#[export] Instance UnitCredentialReceipt_eq_dec : EqDecision UnitCredentialReceipt.
Proof. solve_decision. Defined.

Definition unit_credential_validate (u : UnitCredentialReceipt) : pcresult () :=
  _ ← digest_validate (uc_base_unit_sha256 u);
  _ ← digest_validate (uc_dropin_sha256 u);
  if negb (bool_decide (uc_source_companion_name u = MODE1_CREDENTIAL_SOURCE_COMPANION_NAME))
  then Err (InvalidSchema "credential source companion name")
  else
    _ ← parse_credential_source (uc_configured_credential_source u) Production;
    Ok ().

Record RecognizerIdentity := mkRecognizer { rg_absolute_path : bytes; rg_sha256 : Sha256Digest }.
#[export] Instance RecognizerIdentity_eq_dec : EqDecision RecognizerIdentity.
Proof. solve_decision. Defined.
Definition recognizer_validate (r : RecognizerIdentity) : pcresult () :=
  _ ← validate_absolute_path (rg_absolute_path r) "recognizer path";
  digest_validate (rg_sha256 r).

Inductive KeyRecordCompatibility := KrVerified | KrEmptyNotApplicable.
#[export] Instance KeyRecordCompatibility_eq_dec : EqDecision KeyRecordCompatibility.
Proof. solve_decision. Defined.
#[export] Instance NamespaceFingerprintV1_eq_dec : EqDecision NamespaceFingerprintV1.
Proof. solve_decision. Defined.

Record ReadinessResultV1 := mkReadinessResult {
  rr_protocol_version : Z;
  rr_success : bool;
  rr_namespace : NamespaceFingerprintV1;
  rr_record_count : Z;
  rr_verified_record_count : Z;
  rr_key_record_compatibility : KeyRecordCompatibility;
  rr_recognizer : option RecognizerIdentity;
  rr_cache_population_count : Z;
}.
#[export] Instance ReadinessResultV1_eq_dec : EqDecision ReadinessResultV1.
Proof. solve_decision. Defined.

Definition readiness_result_validate (r : ReadinessResultV1) : pcresult () :=
  _ ← fingerprint_validate (rr_namespace r);
  let empty := nf_entry_count (rr_namespace r) =? 0 in
  if negb (rr_protocol_version r =? PROVISIONING_SCHEMA_VERSION) || negb (rr_success r)
     || negb (rr_record_count r =? nf_entry_count (rr_namespace r))
     || negb (rr_verified_record_count r =? nf_entry_count (rr_namespace r))
     || negb (rr_cache_population_count r =? 0)
     || negb (Bool.eqb empty (bool_decide (rr_recognizer r = None)))
     || (empty && negb (bool_decide (rr_key_record_compatibility r = KrEmptyNotApplicable)))
     || (negb empty && negb (bool_decide (rr_key_record_compatibility r = KrVerified)))
  then Err (InvalidSchema "readiness result")
  else match rr_recognizer r with Some recognizer => recognizer_validate recognizer | None => Ok () end.

Definition readiness_result_new_verified (namespace : NamespaceFingerprintV1)
    (recognizer : option RecognizerIdentity) : pcresult ReadinessResultV1 :=
  _ ← fingerprint_validate namespace;
  let empty := nf_entry_count namespace =? 0 in
  let result :=
    mkReadinessResult PROVISIONING_SCHEMA_VERSION true namespace (nf_entry_count namespace)
      (nf_entry_count namespace) (if empty then KrEmptyNotApplicable else KrVerified) recognizer 0 in
  _ ← readiness_result_validate result;
  Ok result.

Record DaemonVerifierIdentityV1 := mkDaemonVerifier {
  dv_version : bytes;
  dv_build_identity : bytes;
  dv_binary_absolute_path : bytes;
  dv_binary_sha256 : Sha256Digest;
}.
#[export] Instance DaemonVerifierIdentityV1_eq_dec : EqDecision DaemonVerifierIdentityV1.
Proof. solve_decision. Defined.
Definition daemon_verifier_validate (d : DaemonVerifierIdentityV1) : pcresult () :=
  _ ← validate_bounded_printable (dv_version d) MAX_DAEMON_VERSION_BYTES "daemon version";
  _ ← validate_bounded_printable (dv_build_identity d) MAX_BUILD_ID_BYTES "verifier build identity";
  _ ← validate_absolute_path (dv_binary_absolute_path d) "verifier binary";
  digest_validate (dv_binary_sha256 d).

Record VerifierResultV1 := mkVerifierResult {
  vr_config_sha256 : Sha256Digest;
  vr_daemon : DaemonVerifierIdentityV1;
  vr_readiness : ReadinessResultV1;
}.
#[export] Instance VerifierResultV1_eq_dec : EqDecision VerifierResultV1.
Proof. solve_decision. Defined.
Definition verifier_result_validate (r : VerifierResultV1) : pcresult () :=
  _ ← digest_validate (vr_config_sha256 r);
  _ ← daemon_verifier_validate (vr_daemon r);
  readiness_result_validate (vr_readiness r).
Definition verifier_result_new (config_sha256 : Sha256Digest) (daemon : DaemonVerifierIdentityV1)
    (readiness : ReadinessResultV1) : pcresult VerifierResultV1 :=
  let result := mkVerifierResult config_sha256 daemon readiness in
  _ ← verifier_result_validate result;
  Ok result.

Record VerifierReceipt := mkVerifierReceipt {
  ve_output : VerifierResultV1;
  ve_output_sha256 : Sha256Digest;
}.
#[export] Instance VerifierReceipt_eq_dec : EqDecision VerifierReceipt.
Proof. solve_decision. Defined.

Record ProvisioningReceiptV1 := mkReceipt {
  r_schema_version : Z;
  r_state : ReceiptState;
  r_transaction_id : bytes;
  r_mode : Z;
  r_epoch : Z;
  r_credential_name : bytes;
  r_artifact : ArtifactReceipt;
  r_config_patch : ConfigPatchV1;
  r_unit_credential : UnitCredentialReceipt;
  r_effective_units : EffectiveUnitSetV1;
  r_verifier : VerifierReceipt;
}.
#[export] Instance ProvisioningReceiptV1_eq_dec : EqDecision ProvisioningReceiptV1.
Proof. solve_decision. Defined.

Section receipt.
  Context `{Sha256} `{SerdeJson VerifierResultV1}.

Definition verifier_result_parse (b : bytes) : pcresult VerifierResultV1 :=
  value ← parse_bounded_json b MAX_VERIFIER_RESULT_BYTES "verifier result bytes";
  _ ← verifier_result_validate value;
  Ok value.
Definition verifier_result_bytes (r : VerifierResultV1) : pcresult bytes :=
  _ ← verifier_result_validate r;
  canonical_json r MAX_VERIFIER_RESULT_BYTES "verifier result bytes".
Definition verifier_result_sha256 (r : VerifierResultV1) : pcresult Sha256Digest :=
  digest_from_bytes <$> verifier_result_bytes r.

Definition verifier_receipt_new (output : VerifierResultV1) : pcresult VerifierReceipt :=
  output_sha256 ← verifier_result_sha256 output;
  Ok (mkVerifierReceipt output output_sha256).
Definition verifier_receipt_validate (v : VerifierReceipt) : pcresult () :=
  _ ← verifier_result_validate (ve_output v);
  _ ← digest_validate (ve_output_sha256 v);
  digest ← verifier_result_sha256 (ve_output v);
  if negb (bool_decide (digest = ve_output_sha256 v)) then Err (InvalidSchema "verifier output hash")
  else Ok ().

Definition receipt_validate (r : ProvisioningReceiptV1) : pcresult () :=
  if negb (r_schema_version r =? PROVISIONING_SCHEMA_VERSION)
  then Err (InvalidSchema "receipt version")
  else
    _ ← validate_safe_name (r_transaction_id r) MAX_TRANSACTION_ID_BYTES "transaction id";
    _ ← validate_mode1_identity (r_mode r) (r_epoch r) (r_credential_name r);
    _ ← artifact_receipt_validate (r_artifact r);
    if negb (bool_decide (cp_embedded_name (ar_credential_policy (r_artifact r))
                          = r_credential_name r))
    then Err (InvalidSchema "artifact credential binding")
    else
      _ ← config_patch_validate (r_config_patch r);
      _ ← unit_credential_validate (r_unit_credential r);
      _ ← validate_mode1 (r_effective_units r) (uc_dropin_sha256 (r_unit_credential r));
      _ ← verifier_receipt_validate (r_verifier r);
      let expected_config :=
        match r_state r with
        | RsProvisionedDisabled => pt_disabled_sha256 (r_config_patch r)
        | RsEnabled => pt_enabled_sha256 (r_config_patch r)
        end in
      if negb (bool_decide (vr_config_sha256 (ve_output (r_verifier r)) = expected_config))
      then Err (InvalidSchema "verifier config binding")
      else Ok ().

(** The receipt a disabled one becomes. *)
Definition enabled_receipt (d : ProvisioningReceiptV1) : pcresult ProvisioningReceiptV1 :=
  let output := ve_output (r_verifier d) in
  let output := mkVerifierResult (pt_enabled_sha256 (r_config_patch d)) (vr_daemon output)
                  (vr_readiness output) in
  output_sha256 ← verifier_result_sha256 output;
  Ok (mkReceipt (r_schema_version d) RsEnabled (r_transaction_id d) (r_mode d) (r_epoch d)
        (r_credential_name d) (r_artifact d) (r_config_patch d) (r_unit_credential d)
        (r_effective_units d) (mkVerifierReceipt output output_sha256)).

Definition validate_receipt_transition (disabled enabled : ProvisioningReceiptV1) : pcresult () :=
  _ ← receipt_validate disabled;
  _ ← receipt_validate enabled;
  if negb (bool_decide (r_state disabled = RsProvisionedDisabled))
     || negb (bool_decide (r_state enabled = RsEnabled))
  then Err InvalidTransition
  else
    expected ← enabled_receipt disabled;
    if negb (bool_decide (expected = enabled)) then Err InvalidTransition else Ok ().

Context `{SerdeJson ProvisioningReceiptV1}.
Definition receipt_parse (b : bytes) : pcresult ProvisioningReceiptV1 :=
  value ← parse_bounded_json b MAX_RECEIPT_BYTES "receipt bytes";
  _ ← receipt_validate value;
  Ok value.
Definition receipt_bytes (r : ProvisioningReceiptV1) : pcresult bytes :=
  _ ← receipt_validate r;
  canonical_json r MAX_RECEIPT_BYTES "receipt bytes".
Definition receipt_sha256 (r : ProvisioningReceiptV1) : pcresult Sha256Digest :=
  digest_from_bytes <$> receipt_bytes r.

(** ** Properties *)

(** A disabled receipt has exactly one successor, which differs from it in the
    state and in the verified configuration only. *)
Lemma receipt_transition_determined d e1 e2 :
  validate_receipt_transition d e1 = Ok () → validate_receipt_transition d e2 = Ok () →
  e1 = e2 ∧ r_artifact e1 = r_artifact d ∧ r_unit_credential e1 = r_unit_credential d
  ∧ r_config_patch e1 = r_config_patch d
  ∧ vr_config_sha256 (ve_output (r_verifier e1)) = pt_enabled_sha256 (r_config_patch d).
Proof.
  unfold validate_receipt_transition. intros Ht1 Ht2. inv_ok. breflect. simplify_eq.
  assert (e1 = e2) as -> by congruence.
  rename select (enabled_receipt d = Ok _) into He. unfold enabled_receipt in He. inv_ok. subst. done.
Qed.

(** Two receipts are never both current: a configuration file matches the
    disabled or the enabled receipt, not both. *)
Lemma receipt_states_disjoint r config :
  receipt_validate r = Ok () →
  ¬ (config = pt_disabled_sha256 (r_config_patch r) ∧ config = pt_enabled_sha256 (r_config_patch r)).
Proof.
  unfold receipt_validate, config_patch_validate. intros Hv [Hd He]. inv_ok. breflect. congruence.
Qed.

(** A receipt that was written reads back, when the serializer does. *)
Lemma receipt_parse_bytes r b :
  receipt_bytes r = Ok b → from_slice b = Some r → receipt_parse b = Ok r.
Proof.
  unfold receipt_bytes, canonical_json, receipt_parse, parse_bounded_json. intros Hb Hf. inv_ok.
  subst. rewrite Hf. breflect. rewrite (proj2 (Z.ltb_ge _ _)) by done. simpl.
  rename select (receipt_validate r = _) into Hv. by rewrite Hv.
Qed.
End receipt.
