(* ===== verification/Mode1.v ===== *)
(** * The mode-1 storage backend: its directory

    [crates/howy-daemon/src/storage/mode1.rs]: one encrypted record per user, inspected by its
    header, read and authenticated, replaced by exchanging names, cleared through a tombstone,
    with the rollbacks and the poisoning of the backend where a rollback fails; and the scan of
    the directory at startup and reload. The test hooks of the source are those of production,
    which do nothing. *)

From stdpp Require Import sorting.
From S2P Require Import Prelude Bytes Storage Crypto Codec Contracts Budget Cache Handlers Disk Backend Fingerprint.

Local Open Scope disk_scope.

(** ** Settings and state *)

Record Mode1StorageLimits := mkMode1Limits { ml_max_entries : Z; ml_max_plaintext_bytes : Z }.

(** [Mode1StorageLimits::new] *)
Definition Mode1StorageLimits_new (max_entries max_plaintext_bytes : Z) : bresult Mode1StorageLimits :=
  max_entries ← ok_or (try_from_u USIZE_MAX max_entries) (InvalidInput "entry count limit");
  max_plaintext_bytes ← ok_or (try_from_u USIZE_MAX max_plaintext_bytes)
                          (InvalidInput "record byte limit");
  if (max_entries =? 0) || (MAX_ENTRIES <? max_entries)
  then Err (InvalidInput "entry count limit")
  else if (max_plaintext_bytes =? 0) || (MAX_PLAINTEXT_BYTES <? max_plaintext_bytes)
  then Err (InvalidInput "record byte limit")
  else Ok (mkMode1Limits max_entries max_plaintext_bytes).

Inductive BackendPoisonReason := WriteRollback | WriteCleanup | ClearRollback | ClearCommit.

Record BackendAvailability := mkAvailability {
  av_poisoned : bool; av_reason : option BackendPoisonReason }.

(** [BackendAvailability::default] *)
Definition availability_default : BackendAvailability := mkAvailability false None.
(** [BackendAvailability::poison]: the first reason is retained. *)
Definition availability_poison (a : BackendAvailability) (reason : BackendPoisonReason)
    : BackendAvailability :=
  mkAvailability true (match av_reason a with None => Some reason | Some r => Some r end).
(** [BackendAvailability::ensure_available] *)
Definition availability_check (a : BackendAvailability) : bresult () :=
  if av_poisoned a then Err Unavailable else Ok ().
(** [BackendAvailability::health] *)
Definition availability_health (a : BackendAvailability) : BackendHealth :=
  if av_poisoned a then HealthUnavailable Integrity else Ready.

(** The parts of [Mode1StorageBackend] that do not change; the key is that of
    [Mode1KeyContext]. *)
Record Mode1Settings := mkMode1Settings {
  mb_owner : Z;
  mb_model : ModelDigest;
  mb_key_epoch : Z;
  mb_limits : Mode1StorageLimits;
  mb_key : bytes;
  mb_identity : bytes;
  mb_cache_limits : ModelCacheLimits }.

(** The parts that do, besides the directory and the cache. *)
Record Mode1State (S : Type) := mkMode1State {
  ms_temporary : S; ms_nonces : NonceGenerator S; ms_availability : BackendAvailability }.
Arguments mkMode1State {S} _ _ _.
Arguments ms_temporary {S} _.
Arguments ms_nonces {S} _.
Arguments ms_availability {S} _.

(** ** Errors *)

Definition map_storage_error (e : StorageError) : StorageBackendError :=
  match e with
  | BindingMismatch what =>
      if bool_decide (what = "storage mode"%string) then ModeMismatch
      else if bool_decide (what = "key epoch"%string) then BackendKeyMismatch
      else if bool_decide (what = "recognizer model"%string) then BackendModelMismatch
      else Corrupt
  | AuthenticationFailed => BackendAuthenticationFailed
  | GenerationOverflow => BackendGenerationOverflow
  | AllocationFailed _ => Unavailable
  | _ => Corrupt
  end.

Definition map_write_storage_error (e : StorageError) : StorageBackendError :=
  match e with
  | DuplicateNonce | NonceWriteLimitExceeded | RandomSourceFailed _ | AllocationFailed _ => Unavailable
  | GenerationOverflow => BackendGenerationOverflow
  | _ => InvalidInput "record"
  end.

Definition map_mutation_record_error (e : StorageError) : StorageBackendError :=
  match e with
  | GenerationOverflow => BackendGenerationOverflow
  | AllocationFailed _ => Unavailable
  | _ => InvalidInput "record"
  end.

(** How a directory operation fails: with an error, or with one after which the backend is
    poisoned. *)
Inductive Failure := Failed (e : StorageBackendError) | Poisons (reason : BackendPoisonReason) (e : StorageBackendError).

(** ** Names *)

Definition filename (u : CanonicalUsername) : bytes := user_bytes u ++ bs ".hye".
Definition artifact_name (destination marker suffix : bytes) : bytes :=
  bs "." ++ destination ++ marker ++ suffix.

(** [windows(from.len()).position(|window| window == from)] *)
Fixpoint window_position (from name : bytes) : option nat :=
  if bool_decide (take (length from) name = from) then Some 0%nat
  else match name with [] => None | _ :: name => S <$> window_position from name end.

Definition replace_artifact_marker (name from to : bytes) : bresult bytes :=
  offset ← ok_or (window_position from name) (InvalidInput "transaction artifact name");
  _ ← ok_or (n ← checked_sub (len name) (len from); checked_add n (len to))
        (InvalidInput "transaction artifact name");
  let replacement := take offset name ++ to ++ drop (offset + length from) name in
  if bool_decide (Byte.x00 ∈ replacement) then Err (InvalidInput "transaction artifact name")
  else Ok replacement.

(** ** Cancellation *)

Inductive Cancellation := NeverCancelled | Cancellable.

(** An inspected record: the open file, its header and length, and the bytes read so far. *)
Record InspectedRecord := mkInspected {
  in_file : FileNode; in_header : EncryptedHeader; in_exact_length : Z; in_header_prefix : bytes }.

#[export] Instance EncryptedHeader_eq_dec : EqDecision EncryptedHeader.
Proof. solve_decision. Defined.

Section mode1.
  Context `{AesGcm} {S : Type} `{RandomSource S}.
  Context (os : DiskOs) (cfg : Mode1Settings).

Abbreviation R := (Mode1State S).
Abbreviation dres A := (dop (R:=R) StorageBackendError A).
Abbreviation fres A := (dop (R:=R) Failure A).
Abbreviation max_plaintext := (ml_max_plaintext_bytes (mb_limits cfg)).
Abbreviation max_entry_count := (ml_max_entries (mb_limits cfg)).

Definition unless_cancelled {A} (cancellation : Cancellation) (m : dres A) : dres A :=
  match cancellation with NeverCancelled => m | Cancellable => if_not_cancelled os m end.

(** ** Reading records *)

(** The checks of a record file's metadata. *)
Definition record_metadata_ok (s : Stat) : bool :=
  bool_decide (st_kind s = RegularFile) && (st_uid s =? mb_owner cfg)
  && (Z.land (st_mode s) 4095 =? STORAGE_RECORD_MODE) && (st_nlink s =? 1).

(** [validate_record_file]: the length of the record. *)
Definition validate_record_file (file : FileNode) : dres Z :=
  metadata <~ dmap_err (io_error IoInspect) (sys_fstat os file);
  if negb (record_metadata_ok metadata) then dfail (io_error IoInspect KIND_PERMISSION_DENIED)
  else
    maximum <~ dlift (ok_or (b ← checked_add HOWYENC1_FIXED_INSPECTION_BYTES 64;
                             b ← checked_add b max_plaintext; checked_add b 16)
                        (InvalidInput "record byte limit"));
    length <~ dlift (ok_or (try_from_u USIZE_MAX (len (fn_data file))) Corrupt);
    if (length <? HOWYENC1_FIXED_INSPECTION_BYTES + 1 + 16) || (maximum <? length)
    then dfail Corrupt else dret length.

Definition CHUNK_BYTES : nat := Z.to_nat 8192.

(** The loop of [read_exact_cancellable]: [wanted] bytes from [pos]. Every read makes progress
    unless a signal interrupts it; a read interrupted for ever never answers. *)
Fixpoint read_exact_loop (fuel : nat) (file : FileNode) (cancellation : Cancellation)
    (pos wanted : nat) (acc : bytes) : dres bytes :=
  if (wanted <=? length acc)%nat then dret acc
  else
    match fuel with
    | O => λ d, (d, None)
    | Datatypes.S fuel =>
        unless_cancelled cancellation (
          dcase (sys_read os file (pos + length acc) (Nat.min (wanted - length acc) CHUNK_BYTES))
            (λ chunk, if bool_decide (chunk = []) then dfail Corrupt
                      else read_exact_loop fuel file cancellation pos wanted (acc ++ chunk))
            (λ kind, if kind =? KIND_INTERRUPTED
                     then read_exact_loop fuel file cancellation pos wanted acc
                     else dfail (io_error IoRead kind)))
    end.
Definition read_exact_cancellable (file : FileNode) (cancellation : Cancellation)
    (pos wanted : nat) : dres bytes :=
  read_exact_loop (wanted + os_interruptions os) file cancellation pos wanted [].

(** [try_reserve_exact] *)
Definition reserve_exact (what : string) (capacity : Z) : dres () :=
  with_alloc os (λ alloc, if alloc what capacity then Ok () else Err Unavailable).

(** The part of [inspect_named_record_cancellable] on an open file. *)
Definition inspect_file (file : FileNode) (u : CanonicalUsername) (cancellation : Cancellation)
    : dres InspectedRecord :=
  exact_length <~ validate_record_file file;
  fixed <~ read_exact_cancellable file cancellation 0 (Z.to_nat HOWYENC1_FIXED_INSPECTION_BYTES);
  let username_length := le_combine (take 2 (drop 42 fixed)) in
  if negb (contains 1 64 username_length) then dfail Corrupt
  else
    header_length <~ dlift (ok_or (checked_add HOWYENC1_FIXED_INSPECTION_BYTES username_length) Corrupt);
    _ <~ reserve_exact "header prefix" header_length;
    rest <~ read_exact_cancellable file cancellation (length fixed) (Z.to_nat username_length);
    let header_prefix := fixed ++ rest in
    header <~ dlift (map_err map_storage_error
                (inspect_howyenc1_metadata header_prefix exact_length ModeAeadCached (mb_key_epoch cfg)
                   u (mb_model cfg) max_entry_count max_plaintext));
    dret (mkInspected file header exact_length header_prefix).

Definition inspect_named_record_cancellable (name : bytes) (u : CanonicalUsername)
    (cancellation : Cancellation) : dres (option InspectedRecord) :=
  dcase (sys_open os name)
    (λ file, inspected <~ inspect_file file u cancellation; dret (Some inspected))
    (λ kind, if kind =? KIND_NOT_FOUND then dret None else dfail (io_error IoOpen kind)).

Definition inspect_record_cancellable (u : CanonicalUsername) (cancellation : Cancellation)
    : dres (option InspectedRecord) :=
  unless_cancelled cancellation (inspect_named_record_cancellable (filename u) u cancellation).
Definition inspect_record (u : CanonicalUsername) : dres (option InspectedRecord) :=
  inspect_record_cancellable u NeverCancelled.

Definition read_complete_record (inspected : InspectedRecord) (cancellation : Cancellation)
    : dres bytes :=
  let prefix := in_header_prefix inspected in
  let remaining := saturating_sub (in_exact_length inspected) (len prefix) in
  _ <~ reserve_exact "record" remaining;
  let buffer := prefix ++ zero_bytes (Z.to_nat remaining) in
  let offset := Z.to_nat (h_header_length (in_header inspected)) in
  rest <~ read_exact_cancellable (in_file inspected) cancellation (length prefix)
            (length buffer - offset);
  let b := take offset buffer ++ rest in
  unless_cancelled cancellation (
    extra <~ dmap_err (io_error IoRead) (sys_read os (in_file inspected) (length prefix + length rest) 1);
    if negb (bool_decide (extra = [])) then dfail Corrupt
    else
      unless_cancelled cancellation (
        complete_header <~ dlift (map_err map_storage_error (inspect_howyenc1 b));
        if negb (bool_decide (complete_header = in_header inspected)) then dfail Corrupt
        else dret b)).

(** [Mode1KeyContext::decrypt_record] *)
Definition decrypt_record (alloc : allocator) (b : bytes) (u : CanonicalUsername)
    : sresult EnrollmentRecord :=
  decode_howyenc1 alloc b (mb_key cfg) ModeAeadCached (mb_key_epoch cfg) u (mb_model cfg).

(** The part of [decrypt_inspected] after the check of its reservation. *)
Definition decrypt_file (inspected : InspectedRecord) (u : CanonicalUsername)
    (cancellation : Cancellation) : dres EnrollmentRecord :=
  b <~ read_complete_record inspected cancellation;
  unless_cancelled cancellation (
    record <~ with_alloc os (λ alloc, map_err map_storage_error (decrypt_record alloc b u));
    unless_cancelled cancellation (dret record)).

(** ** Writing records *)

Definition sync_directory : dres () := dmap_err (io_error IoSync) (sys_sync_dir os).

(** [Mode1KeyContext::encrypt_record] with the backend's nonce generator. *)
Definition encrypt_record (record : EnrollmentRecord) : dop (R:=R) StorageError bytes := λ d,
  let l := d_local d in
  let '(nonces, encoded) :=
    encode_howyenc1 (os_table os (d_tick d)) (os_alloc os (d_tick d)) record ModeAeadCached
      (mb_key_epoch cfg) (mb_key cfg) (ms_nonces l) in
  (mkDisk (d_files d) (mkMode1State (ms_temporary l) nonces (ms_availability l))
     (Datatypes.S (d_tick d)), Some encoded).

Definition random_temp_suffix : dres bytes := λ d,
  let l := d_local d in
  let '(s, b) := fill_bytes (ms_temporary l) 16 in
  (mkDisk (d_files d) (mkMode1State s (ms_nonces l) (ms_availability l)) (d_tick d),
   Some (match b with Ok nonce => Ok (hex_lower nonce) | Err _ => Err Unavailable end)).

Definition create_temp (name : bytes) : dop (R:=R) Z () :=
  _ <~ sys_create os name;
  _ <~ sys_fchmod os name STORAGE_RECORD_MODE;
  metadata <~ sys_stat_open os name;
  dlift (if record_metadata_ok metadata then Ok () else Err KIND_PERMISSION_DENIED).

Definition cleanup_non_authoritative_temp {E} (temporary : bytes) : dop (R:=R) E () :=
  dcase (sys_unlink os temporary)
    (λ _, dcase sync_directory (λ _, dret ()) (λ _, dret ()))
    (λ _, dret ()).

(** [.map_err(|_| ())] *)
Definition or_unit {E A} (m : dop (R:=R) E A) : dop (R:=R) () A := dmap_err (λ _, ()) m.

Definition rollback_temporary (temporary destination : bytes) (destination_existed : bool)
    : dop (R:=R) () () :=
  rollback <~ (if destination_existed then
                 rollback <~ or_unit (dlift (replace_artifact_marker temporary STAGED ROLLBACK));
                 _ <~ or_unit (sys_rename os temporary rollback);
                 _ <~ or_unit sync_directory;
                 dret rollback
               else or_unit (dlift (replace_artifact_marker temporary TMP ROLLBACK)));
  _ <~ or_unit (if destination_existed then sys_rename_exchange os rollback destination
                else sys_rename os destination rollback);
  _ <~ or_unit sync_directory;
  _ <~ or_unit (sys_unlink os rollback);
  or_unit sync_directory.

(** The first part of [commit_temporary]: the name the transaction goes under. *)
Definition stage_temporary (temporary : bytes) (destination_exists : bool) : fres bytes :=
  if destination_exists then
    staged <~ dlift (map_err Failed (replace_artifact_marker temporary TMP STAGED));
    dcase (sys_rename os temporary staged)
      (λ _, dcase sync_directory (λ _, dret staged)
              (λ e, _ <~ cleanup_non_authoritative_temp staged; dfail (Failed e)))
      (λ kind, _ <~ cleanup_non_authoritative_temp temporary; dfail (Failed (io_error IoRename kind)))
  else dret temporary.

Definition commit_temporary (temporary destination : bytes) (destination_exists : bool) : fres () :=
  transaction <~ stage_temporary temporary destination_exists;
  dcase (if destination_exists then sys_rename_exchange os transaction destination
         else sys_rename_no_replace os transaction destination)
    (λ _, dcase sync_directory
       (λ _, if destination_exists then
               dcase (sys_unlink os transaction)
                 (λ _, dcase sync_directory dret (λ _, dfail (Poisons WriteCleanup Unavailable)))
                 (λ _, dfail (Poisons WriteCleanup Unavailable))
             else dret ())
       (λ e, dcase (rollback_temporary transaction destination destination_exists)
               (λ _, dfail (Failed e)) (λ _, dfail (Poisons WriteRollback Unavailable))))
    (λ kind, _ <~ cleanup_non_authoritative_temp transaction; dfail (Failed (io_error IoRename kind))).

(** The closure of [write_record] that fills the temporary file. *)
Definition prepare_temp (temporary encoded : bytes) : dres () :=
  _ <~ dmap_err (io_error IoWrite) (sys_write os temporary encoded);
  dmap_err (io_error IoSync) (sys_fsync os temporary).

Fixpoint write_attempts (attempts : nat) (destination : bytes) (destination_exists : bool)
    (encoded : bytes) : fres () :=
  match attempts with
  | O => dfail (Failed (io_error IoCreate KIND_ALREADY_EXISTS))
  | Datatypes.S attempts =>
      suffix <~ dmap_err Failed random_temp_suffix;
      let temporary := artifact_name destination TMP suffix in
      dcase (create_temp temporary)
        (λ _, dcase (prepare_temp temporary encoded)
                (λ _, commit_temporary temporary destination destination_exists)
                (λ e, _ <~ cleanup_non_authoritative_temp temporary; dfail (Failed e)))
        (λ kind,
           if kind =? KIND_ALREADY_EXISTS
           then write_attempts attempts destination destination_exists encoded
           else dfail (Failed (io_error IoCreate kind)))
  end.

Definition record_exists (name : bytes) : dres bool :=
  dcase (sys_open os name)
    (λ file, _ <~ validate_record_file file; dret true)
    (λ kind, if kind =? KIND_NOT_FOUND then dret false else dfail (io_error IoOpen kind)).

Definition write_record (record : EnrollmentRecord) : fres () :=
  encoded <~ dmap_err (λ e, Failed (map_write_storage_error e)) (encrypt_record record);
  if HOWYENC1_MAX_RECORD_BYTES <? len encoded then dfail (Failed (InvalidInput "record byte length"))
  else
    let destination := filename (username record) in
    destination_exists <~ dmap_err Failed (record_exists destination);
    write_attempts TEMP_CREATE_ATTEMPTS destination destination_exists encoded.

(** ** Clearing records *)

Definition rollback_clear (tombstone destination : bytes) : dop (R:=R) () () :=
  _ <~ or_unit (sys_rename os tombstone destination);
  or_unit sync_directory.

(** [if self.rollback_clear(..).is_err() { return Err(self.poison(..)) } return Err(error)] *)
Definition undo_clear (tombstone destination : bytes) (e : StorageBackendError) : fres () :=
  dcase (rollback_clear tombstone destination)
    (λ _, dfail (Failed e)) (λ _, dfail (Poisons ClearRollback Unavailable)).

(** [clear_record] once the record is renamed to its tombstone. *)
Definition bury_record (tombstone destination : bytes) : fres () :=
  dcase sync_directory
    (λ _, dcase (sys_unlink os tombstone)
       (λ _, dcase sync_directory dret (λ _, dfail (Poisons ClearCommit Unavailable)))
       (λ kind, undo_clear tombstone destination (io_error IoRemove kind)))
    (λ e, undo_clear tombstone destination e).

Fixpoint clear_attempts (attempts : nat) (destination : bytes) : fres () :=
  match attempts with
  | O => dfail (Failed (io_error IoRemove KIND_ALREADY_EXISTS))
  | Datatypes.S attempts =>
      suffix <~ dmap_err Failed random_temp_suffix;
      let tombstone := artifact_name destination CLEAR suffix in
      dcase (sys_rename_no_replace os destination tombstone)
        (λ _, bury_record tombstone destination)
        (λ kind,
           if kind =? KIND_ALREADY_EXISTS then clear_attempts attempts destination
           else dfail (Failed (io_error IoRemove kind)))
  end.
Definition clear_record (u : CanonicalUsername) : fres () :=
  clear_attempts TEMP_CREATE_ATTEMPTS (filename u).

(** ** Scanning the directory *)

Definition MAX_MODE1_NAMESPACE_ENTRIES : Z := 4096.

Definition validate_directory : dres () :=
  metadata <~ dmap_err (io_error IoInspect) (sys_stat_dir os);
  if negb (bool_decide (st_kind metadata = DirectoryFile)) || negb (st_uid metadata =? mb_owner cfg)
     || negb (Z.land (st_mode metadata) 4095 =? STORAGE_DIRECTORY_MODE)
  then dfail (io_error IoInspect KIND_PERMISSION_DENIED)
  else dret ().

Definition namespace_entry_metadata (name : bytes) : dres Stat :=
  if bool_decide (Byte.x00 ∈ name) then dfail Corrupt
  else
    entry <~ dmap_err (io_error IoOpen) (sys_open_path os name);
    dmap_err (io_error IoInspect) (sys_fstat os entry).

(** [metadata.file_type()] *)
Definition namespace_file_type (s : Stat) : NamespaceFileType :=
  match st_kind s with
  | RegularFile => NftRegular
  | DirectoryFile => NftDirectory
  | SymbolicLink => NftSymlink
  | OtherFile => NftOther
  end.

Definition cleanup_stale_temp {E} (name : bytes) : dop (R:=R) E bool :=
  if bool_decide (Byte.x00 ∈ name) then dret false
  else
    dcase (sys_open os name)
      (λ file, dcase (sys_fstat os file)
         (λ metadata, if negb (record_metadata_ok metadata) then dret false
                      else dcase (sys_unlink os name) (λ _, dret true) (λ _, dret false))
         (λ _, dret false))
      (λ _, dret false).

Definition staged_write_is_pre_exchange {E} (name : bytes) (u : CanonicalUsername)
    : dop (R:=R) E bool :=
  if bool_decide (Byte.x00 ∈ name) then dret false
  else
    dcase (inspect_named_record_cancellable name u NeverCancelled)
      (λ staged, match staged with
       | None => dret false
       | Some staged =>
           dcase (inspect_record u)
             (λ active, dret (match active with
              | None => false
              | Some active =>
                  match checked_add (h_record_generation (in_header active)) 1 with
                  | Some g => g =? h_record_generation (in_header staged)
                  | None => false
                  end
              end))
             (λ _, dret false)
       end)
      (λ _, dret false).

Record ScanState := mkScan {
  sc_records : list OuterRecordStatus; sc_stale : Z; sc_cleaned : Z; sc_retained : Z }.

(** The counters after a stale artifact was or was not removed. *)
Definition count_stale (st : ScanState) (cleaned : bool) : ScanState :=
  mkScan (sc_records st) (saturating_add (sc_stale st) 1)
    (if cleaned then saturating_add (sc_cleaned st) 1 else sc_cleaned st)
    (if cleaned then sc_retained st else saturating_add (sc_retained st) 1).

(** How an inspection of an authoritative record is reported; [None]: it is gone. *)
Definition classify_inspection (r : bresult (option InspectedRecord))
    : bresult (option OuterRecordClassification) :=
  match r with
  | Ok (Some inspected) => Ok (Some (OuterCandidate (h_record_generation (in_header inspected))))
  | Ok None => Ok None
  | Err ModeMismatch => Ok (Some OuterModeMismatch)
  | Err BackendKeyMismatch => Ok (Some OuterKeyMismatch)
  | Err BackendModelMismatch => Ok (Some OuterModelMismatch)
  | Err (Io error) =>
      if io_kind error =? KIND_PERMISSION_DENIED then Err (Io error) else Ok (Some OuterCorrupt)
  | Err _ => Ok (Some OuterCorrupt)
  end.

(** [match self.inspect_record(&username)] *)
Definition classify_record (u : CanonicalUsername) : dres (option OuterRecordClassification) :=
  dcase (inspect_record u) (λ x, dlift (classify_inspection (Ok x)))
    (λ e, dlift (classify_inspection (Err e))).

(** The visitor of [scan_outer_headers]. *)
Definition scan_entry (st : ScanState) (name : bytes) : fres ScanState :=
  metadata <~ dmap_err Failed (namespace_entry_metadata name);
  let classification :=
    classify_mode1_namespace_entry name (namespace_file_type metadata) (st_nlink metadata) in
  match classification with
  | NcAuthoritative user =>
      u <~ dlift (map_err (λ e, Failed (map_storage_error e)) (CanonicalUsername_new user));
      status <~ dmap_err Failed (classify_record u);
      match status with
      | None => dret st
      | Some k =>
          _ <~ dmap_err Failed (reserve_exact "records" 1);
          dret (mkScan (sc_records st ++ [mkRecordStatus u k]) (sc_stale st) (sc_cleaned st)
                  (sc_retained st))
      end
  | NcTemporary => cleaned <~ cleanup_stale_temp name; dret (count_stale st cleaned)
  | NcStaged =>
      match classified_mode1_transaction_username name classification
              ≫= (λ user, result_ok (CanonicalUsername_new user)) with
      | None => dfail (Failed Corrupt)
      | Some u =>
          pre_exchange <~ staged_write_is_pre_exchange name u;
          if (pre_exchange : bool) then
            cleaned <~ cleanup_stale_temp name; dret (count_stale st cleaned)
          else dfail (Poisons WriteRollback Corrupt)
      end
  | NcClear => dfail (Poisons ClearRollback Corrupt)
  | NcRollback => dfail (Poisons WriteRollback Corrupt)
  | NcSymlink | NcDirectory | NcHardlink | NcNonUtf8 | NcUnknown => dfail (Failed Corrupt)
  end.

(** The loop of [for_each_directory_name] over the names of the opened directory. *)
Fixpoint visit_names (names : list bytes) (entry_count : Z) (st : ScanState) : fres ScanState :=
  _ <~ dmap_err (λ kind, Failed (io_error IoRead kind)) (sys_next_entry os);
  match names with
  | [] => dret st
  | name :: names =>
      entry_count <~ dlift (ok_or (checked_add entry_count 1)
                       (Failed (InvalidInput "mode 1 namespace entry limit")));
      if MAX_MODE1_NAMESPACE_ENTRIES <? entry_count
      then dfail (Failed (InvalidInput "mode 1 namespace entry limit"))
      else
        st <~ scan_entry st name;
        visit_names names entry_count st
  end.
Definition for_each_directory_name (st : ScanState) : fres ScanState :=
  names <~ dmap_err (λ kind, Failed (io_error IoOpen kind)) (sys_read_dir os);
  visit_names names 0 st.

Definition scan_outer_headers : fres (list OuterRecordStatus) :=
  _ <~ dmap_err Failed validate_directory;
  st <~ for_each_directory_name (mkScan [] 0 0 0);
  _ <~ (if negb (sc_cleaned st =? 0) then dcase sync_directory (λ _, dret ()) (λ _, dret ())
        else dret ());
  dret (merge_sort status_le (sc_records st)).
End mode1.
