(* ===== verification/Mode1Store.v ===== *)
(** * The mode-1 storage backend: operations

    The [StorageBackend] implementation of [crates/howy-daemon/src/storage/mode1.rs]: the
    directory of [Mode1] behind the model cache and the plaintext budget. A mutation and a
    reload run under their locks as one step; the warm paths that answer from the cache take
    no user lock, and are steps between the others. *)

From S2P Require Import Prelude Bytes Storage Crypto Codec Legacy Contracts Budget Cache PromptState Handlers Disk Backend Mode1.

Local Open Scope backend_scope.

Section store.
  Context `{AesGcm} {S : Type} `{RandomSource S}.
  Context (os : DiskOs) (cfg : Mode1Settings).

Abbreviation R := (Mode1State S).
Abbreviation max_plaintext := (ml_max_plaintext_bytes (mb_limits cfg)).
Abbreviation max_entry_count := (ml_max_entries (mb_limits cfg)).

(** ** Availability *)

Definition availability (b : Backend R) : BackendAvailability := ms_availability (d_local (b_disk b)).

Definition ensure_available : bop (R:=R) () := λ b, Some (b, Some (availability_check (availability b))).

(** [Mode1StorageBackend::poison] *)
Definition poison (reason : BackendPoisonReason) : bop (R:=R) () := λ b,
  let d := b_disk b in
  let l := d_local d in
  '(w, c) ← cache_poison (b_world b) (b_cache b);
  Some (mkBackend
          (mkDisk (d_files d)
             (mkMode1State (ms_temporary l) (ms_nonces l) (availability_poison (ms_availability l) reason))
             (d_tick d)) w c, Some (Ok ())).

(** A directory operation, and the poisoning its failure asks for. *)
Definition durable {A} (m : dop (R:=R) Failure A) : bop A := λ b,
  let '(d, r) := m (b_disk b) in
  let b := mkBackend d (b_world b) (b_cache b) in
  match r with
  | None => Some (b, None)
  | Some (Ok a) => Some (b, Some (Ok a))
  | Some (Err (Failed e)) => Some (b, Some (Err e))
  | Some (Err (Poisons reason e)) => (_ <- poison reason; bfail e) b
  end.

(** [self.ensure_available()?; result], with what an answer not given owns. *)
Definition then_available {A} (discard : A → bop (R:=R) ()) (m : bop A) : bop A :=
  bcase m
    (λ a, bcase ensure_available (λ _, bret a) (λ e, _ <- discard a; bfail e))
    (λ e, _ <- ensure_available; bfail e).
Definition owns_nothing {A} (_ : A) : bop (R:=R) () := bret ().

Definition check_signal (cancellation : Cancellation) : bop (R:=R) () :=
  on_disk (unless_cancelled os cancellation (dret ())).

(** [ModelCache::generation], [ModelCache::revision] *)
Definition cached_generation (u : CanonicalUsername) : bop (R:=R) (option Z) :=
  on_cache (λ w c, '(c, g) ← cache_generation w c u; Some (w, c, Ok g)).
Definition cached_revision : bop (R:=R) Z := λ b, Some (b, Some (Ok (c_revision (b_cache b)))).

(** [self.cache.owns_permit(&permit) && permit.bytes() >= bytes] *)
Definition permit_covers (permit : positive) (n : Z) : bop (R:=R) bool := λ b,
  Some (b, Some (Ok (match permits (w_budget (b_world b)) !! permit with
                     | None => false
                     | Some p => n <=? permit_bytes p
                     end))).
(** Dropping a permit the caller handed in, which need not be of this budget. *)
Definition drop_given (permit : positive) : bop (R:=R) () := λ b,
  match permits (w_budget (b_world b)) !! permit with
  | None => Some (b, Some (Ok ()))
  | Some _ => drop_operation permit b
  end.

(** ** Loading *)

Definition decrypt_inspected (inspected : InspectedRecord) (u : CanonicalUsername) (permit : positive)
    (cancellation : Cancellation) : bop (R:=R) (EnrollmentRecord * positive) :=
  unless_consumed permit (
    estimate <- blift (for_encrypted_header (in_header inspected));
    covers <- permit_covers permit (cold_load_peak_bytes estimate);
    if negb covers then bfail (InvalidInput "decrypt operation reservation")
    else
      record <- on_disk (decrypt_file os cfg inspected u cancellation);
      bret (record, permit)).

Definition load_record_cancellable (u : CanonicalUsername) (cancellation : Cancellation)
    : bop (R:=R) (EnrollmentRecord * positive) :=
  inspected <- on_disk (inspect_record_cancellable os cfg u cancellation);
  match inspected with
  | None => bfail BackendAbsent
  | Some inspected =>
      estimate <- blift (for_encrypted_header (in_header inspected));
      permit <- reserve_bytes None (cold_load_peak_bytes estimate);
      decrypt_inspected inspected u permit cancellation
  end.
Definition load_record (u : CanonicalUsername) : bop (R:=R) (EnrollmentRecord * positive) :=
  load_record_cancellable u NeverCancelled.

Definition load_optional_for_mutation (u : CanonicalUsername) (inspected : option InspectedRecord)
    (permit : positive) : bop (R:=R) (option EnrollmentRecord * positive) :=
  match inspected with
  | None => bret (None, permit)
  | Some inspected =>
      loaded <- decrypt_inspected inspected u permit NeverCancelled;
      bret (Some loaded.1, loaded.2)
  end.

Definition cache_committed_model (u : CanonicalUsername) (model : option AuthModel)
    (operation : positive) : bop (R:=R) () :=
  _ <- invalidate u;
  match model with
  | None => drop_operation operation
  | Some model => cache_model (mb_cache_limits cfg) u model operation
  end.

(** ** Appending *)

(** The limits an appended shape must keep. *)
Definition check_shape (inspected : option InspectedRecord) (new_entries : Z)
    (estimate : PlaintextAllocationEstimate) : bresult PlaintextAllocationEstimate :=
  let current_entries := from_option (λ r, h_entry_count (in_header r)) 0 inspected in
  if (max_entry_count <? saturating_add current_entries new_entries)
     || (max_plaintext <? encoded_payload_bytes estimate)
  then Err (InvalidInput "record shape")
  else Ok estimate.

Definition append_estimate (inspected : option InspectedRecord) (es : list EnrollmentEntry)
    : bresult PlaintextAllocationEstimate :=
  label_bytes ← ok_or (checked_sum 0 ((λ e, len (label e)) <$> es)) (InvalidInput "append label bytes");
  estimate ← for_append_shape (in_header <$> inspected) (len es) label_bytes;
  check_shape inspected (len es) estimate.

Definition admitted_append_estimate (inspected : option InspectedRecord) (shape : AppendAdmissionShape)
    : bresult PlaintextAllocationEstimate :=
  estimate ← for_append_shape (in_header <$> inspected) (max_new_entries shape) (max_new_label_bytes shape);
  check_shape inspected (max_new_entries shape) estimate.

Definition inspected_generation (inspected : option InspectedRecord) : Z :=
  from_option (λ r, h_record_generation (in_header r)) ABSENT_GENERATION inspected.

(** [inspect_record], and the conflict with the expected generation. *)
Definition inspect_expected (u : CanonicalUsername) (expected : Z) : bop (R:=R) (option InspectedRecord) :=
  inspected <- on_disk (inspect_record os cfg u);
  if negb (inspected_generation inspected =? expected)
  then bfail (Conflict (inspected_generation inspected))
  else bret inspected.

(** The record [append_locked] writes. *)
Definition appended_record (request : AppendRequest) (loaded : option EnrollmentRecord)
    : bresult EnrollmentRecord :=
  let current_generation := from_option generation ABSENT_GENERATION loaded in
  let current := from_option entries [] loaded in
  if negb (current_generation =? ap_expected_generation request)
  then Err (Conflict current_generation)
  else
    total ← ok_or (checked_add (len current) (len (ap_entries request))) (InvalidInput "entry count");
    if max_entry_count <? total then Err (InvalidInput "entry count")
    else
      gen ← match loaded with
            | Some record => map_err map_storage_error (checked_next_generation (generation record))
            | None => Ok 1
            end;
      map_err map_mutation_record_error
        (from_boxed_entries gen (mb_model cfg) (ap_username request) (current ++ ap_entries request)).

(** The first lines of [append_locked]: the reservation covers the estimate. *)
Definition check_reservation (request : AppendRequest) (inspected : option InspectedRecord)
    (operation : positive) : bop (R:=R) () :=
  estimate <- blift (append_estimate inspected (ap_entries request));
  covers <- permit_covers operation (mutation_peak_bytes estimate);
  if negb covers then bfail (InvalidInput "append operation reservation") else bret ().

Definition append_locked (request : AppendRequest) (inspected : option InspectedRecord)
    (operation : positive) : bop (R:=R) AppendResult :=
  let u := ap_username request in
  _ <- bcase (check_reservation request inspected operation) bret
         (λ e, _ <- drop_given operation; bfail e);
  loaded <- load_optional_for_mutation u inspected operation;
  prepared <- unless_consumed loaded.2 (
    record <- blift (appended_record request loaded.1);
    model <- blift (AuthModel_from_record record);
    _ <- durable (write_record os cfg record);
    _ <- ensure_available;
    bret (record, model));
  _ <- cache_committed_model u (Some prepared.2) loaded.2;
  bret (mkAppendResult (generation prepared.1) (len (ap_entries request)) (len (entries prepared.1))).

Definition append (request : AppendRequest) : bop (R:=R) AppendResult :=
  let u := ap_username request in
  _ <- ensure_available;
  _ <- ensure_available;
  inspected <- inspect_expected u (ap_expected_generation request);
  estimate <- blift (append_estimate inspected (ap_entries request));
  operation <- reserve_bytes (Some u) (mutation_peak_bytes estimate);
  _ <- bcase ensure_available bret (λ e, _ <- drop_operation operation; bfail e);
  append_locked request inspected operation.

Definition append_admitted (request : AppendRequest) (operation : positive) : bop (R:=R) AppendResult :=
  inspected <- bcase (_ <- ensure_available; _ <- ensure_available;
                      inspect_expected (ap_username request) (ap_expected_generation request))
                 bret (λ e, _ <- drop_given operation; bfail e);
  append_locked request inspected operation.

(** The guard of [UserAdmissionRegistry], released when the admission fails. *)
Definition acquire_admission (u : CanonicalUsername) : bop (R:=R) CanonicalUsername :=
  on_world (λ w, let '(w, r) := try_acquire w u in Some (w, r)).
Definition release_admission (u : CanonicalUsername) : bop (R:=R) () :=
  on_world (λ w, Some (mkWorld (w_budget w) (w_arcs w) (release_guard (w_active w) (Some u)), Ok ())).
Definition drop_admission (a : EnrollmentAdmission CanonicalUsername) : bop (R:=R) () :=
  _ <- drop_operation (adm_operation a); drop_operation (adm_input a).

Definition admit_enrollment (u : CanonicalUsername) (plaintext_bytes : Z) (shape : AppendAdmissionShape)
    : bop (R:=R) (EnrollmentAdmission CanonicalUsername) :=
  guard <- acquire_admission u;
  admission <- bcase (
      _ <- ensure_available;
      _ <- ensure_available;
      inspected <- on_disk (inspect_record os cfg u);
      estimate <- blift (admitted_append_estimate inspected shape);
      admission <- on_cache (λ w c, reserve_enrollment_for_user w c (mutation_peak_bytes estimate)
                                      plaintext_bytes u);
      bcase ensure_available (λ _, bret admission) (λ e, _ <- drop_admission admission; bfail e))
    bret (λ e, _ <- release_admission guard; bfail e);
  bret (with_release_guard admission guard).

(** ** Removing and clearing *)

(** The record [remove] writes. *)
Definition shortened_record (request : RemoveRequest) (record : EnrollmentRecord)
    : bresult EnrollmentRecord :=
  if negb (generation record =? rm_expected_generation request) then Err (Conflict (generation record))
  else
    index ← ok_or (position (rm_enrollment_id request) (entries record)) (Conflict (generation record));
    gen ← map_err map_storage_error (checked_next_generation (generation record));
    map_err map_mutation_record_error
      (from_boxed_entries gen (mb_model cfg) (rm_username request)
         (take index (entries record) ++ drop (Datatypes.S index) (entries record))).

(** [let Some(record) = loaded else { return Err(Conflict) }] *)
Definition require_record (loaded : option EnrollmentRecord) : bresult EnrollmentRecord :=
  ok_or loaded (Conflict ABSENT_GENERATION).

(** [.map(estimate).transpose()?.map_or(1, bytes)] *)
Definition required_bytes (estimate : EncryptedHeader → bresult PlaintextAllocationEstimate)
    (bytes_of : PlaintextAllocationEstimate → Z) (inspected : option InspectedRecord) : bresult Z :=
  match inspected with
  | None => Ok 1
  | Some r => e ← estimate (in_header r); Ok (bytes_of e)
  end.

Definition remove (request : RemoveRequest) : bop (R:=R) RemoveResult :=
  let u := rm_username request in
  _ <- ensure_available;
  _ <- ensure_available;
  inspected <- inspect_expected u (rm_expected_generation request);
  required <- blift (required_bytes for_replacement_of_encrypted_header mutation_peak_bytes inspected);
  operation <- reserve_bytes (Some u) required;
  loaded <- load_optional_for_mutation u inspected operation;
  prepared <- unless_consumed loaded.2 (
    record <- blift (require_record loaded.1);
    replacement <- blift (shortened_record request record);
    model <- (if bool_decide (entries replacement = []) then bret None
              else model <- blift (AuthModel_from_record replacement); bret (Some model));
    _ <- durable (write_record os cfg replacement);
    _ <- ensure_available;
    bret (replacement, model));
  _ <- cache_committed_model u prepared.2 loaded.2;
  bret (mkRemoveResult (generation prepared.1) (rm_enrollment_id request)).

Definition clear (request : ClearRequest) : bop (R:=R) ClearResult :=
  let u := cl_username request in
  _ <- ensure_available;
  _ <- ensure_available;
  inspected <- inspect_expected u (cl_expected_generation request);
  required <- blift (required_bytes for_encrypted_header cold_load_peak_bytes inspected);
  operation <- reserve_bytes (Some u) required;
  loaded <- load_optional_for_mutation u inspected operation;
  holding loaded.2 (
    record <- blift (require_record loaded.1);
    _ <- (if negb (generation record =? cl_expected_generation request)
          then bfail (Conflict (generation record)) else bret ());
    _ <- durable (clear_record os u);
    _ <- ensure_available;
    _ <- invalidate u;
    bret (mkClearResult ABSENT_GENERATION (len (entries record)))).

(** ** Queries *)

(** The snapshot of a candidate. *)
Definition snapshot_of (candidate : CandidatePresence) : PromptStorageSnapshot :=
  mkStorageSnapshot Ready candidate (mb_identity cfg) (digest_bytes (mb_model cfg)).

Definition prompt_snapshot (u : CanonicalUsername) : bop (R:=R) PromptStorageSnapshot :=
  _ <- ensure_available;
  first <- cached_generation u;
  match first with
  | Some g => _ <- ensure_available; bret (snapshot_of (Candidate g))
  | None =>
      _ <- ensure_available;
      second <- cached_generation u;
      candidate <- match second with
                   | Some g => bret (Candidate g)
                   | None =>
                       inspected <- on_disk (inspect_record os cfg u);
                       bret (match inspected with
                             | Some r => if negb (h_entry_count (in_header r) =? 0)
                                         then Candidate (h_record_generation (in_header r))
                                         else NoCandidate
                             | None => NoCandidate
                             end)
                   end;
      _ <- ensure_available;
      bret (snapshot_of candidate)
  end.

(** The load of [candidate_presence]; its reservation is dropped with the record. *)
Definition loaded_presence (u : CanonicalUsername) : bop (R:=R) CandidatePresence :=
  bcase (load_record u)
    (λ loaded, holding loaded.2 (bret (
       if bool_decide (entries loaded.1 = []) then NoCandidate else Candidate (generation loaded.1))))
    (λ e, match e with BackendAbsent => bret NoCandidate | _ => bfail e end).

Definition candidate_presence (u : CanonicalUsername) : bop (R:=R) CandidatePresence :=
  _ <- ensure_available;
  first <- cached_generation u;
  match first with
  | Some g => _ <- ensure_available; bret (Candidate g)
  | None =>
      _ <- ensure_available;
      second <- cached_generation u;
      match second with
      | Some g => _ <- ensure_available; bret (Candidate g)
      | None => then_available owns_nothing (loaded_presence u)
      end
  end.

Definition list_metadata (u : CanonicalUsername) : bop (R:=R) MetadataList :=
  _ <- ensure_available;
  _ <- ensure_available;
  then_available owns_nothing (
    loaded <- load_record u;
    holding loaded.2 (bret (metadata_from_record loaded.1))).
Definition verify_record (u : CanonicalUsername) : bop (R:=R) MetadataList := list_metadata u.

(** ** Authentication *)

(** The model of a loaded record; an empty one has none. *)
Definition record_auth_model (record : EnrollmentRecord) : bresult AuthModel :=
  if bool_decide (entries record = []) then Err BackendAbsent else AuthModel_from_record record.

Definition authenticate_cold (u : CanonicalUsername) (cancellation : Cancellation) (provisional : bool)
    : bop (R:=R) (positive * option CachePromotion) :=
  expected_revision <- cached_revision;
  loaded <- load_record_cancellable u cancellation;
  model <- unless_consumed loaded.2 (
    model <- blift (record_auth_model loaded.1);
    _ <- check_signal cancellation;
    bret model);
  permit <- on_world (world_shrink loaded.2 (am_plaintext_bytes model));
  if negb provisional then
    lease <- insert_model (mb_cache_limits cfg) u model permit;
    bcase (check_signal cancellation) (λ _, bret (lease, None))
      (λ e, _ <- invalidate u; _ <- release_lease lease; bfail e)
  else
    cached <- on_world (λ w, CachedAuthModel_new w model permit);
    _ <- on_world (λ w, w ← arc_clone w cached; Some (w, Ok ()));
    let promotion := mkPromotion (mb_identity cfg) u expected_revision (am_generation model) cached in
    bcase (check_signal cancellation) (λ _, bret (cached, Some promotion))
      (λ e, _ <- release_lease cached; _ <- release_lease cached; bfail e).

(** A load the caller does not get. *)
Definition discard_load (load : positive * option CachePromotion) : bop (R:=R) () :=
  _ <- release_lease load.1;
  match load.2 with Some p => release_lease (pm_model p) | None => bret () end.

(** A lease from the cache, given up when the backend is not available any more. *)
Definition lease_if_available (lease : positive) : bop (R:=R) positive :=
  bcase ensure_available (λ _, bret lease) (λ e, _ <- release_lease lease; bfail e).

Definition authenticate (u : CanonicalUsername) : bop (R:=R) positive :=
  _ <- ensure_available;
  first <- cached_lease u;
  match first with
  | Some lease => lease_if_available lease
  | None =>
      _ <- ensure_available;
      second <- cached_lease u;
      match second with
      | Some lease => lease_if_available lease
      | None =>
          load <- then_available discard_load (authenticate_cold u NeverCancelled false);
          bret load.1
      end
  end.

(** [if cancellation.is_cancelled() || self.ensure_available().is_err()] *)
Definition lease_if_wanted (lease : positive) : bop (R:=R) (positive * option CachePromotion) :=
  bcase (_ <- check_cancelled os; ensure_available) (λ _, bret (lease, None))
    (λ e, _ <- release_lease lease; bfail e).

Definition authenticate_active_internal (u : CanonicalUsername) (provisional : bool)
    : bop (R:=R) (positive * option CachePromotion) :=
  _ <- check_cancelled os;
  _ <- ensure_available;
  first <- cached_lease u;
  match first with
  | Some lease => lease_if_wanted lease
  | None =>
      _ <- check_cancelled os;
      _ <- ensure_available;
      second <- cached_lease u;
      match second with
      | Some lease => lease_if_wanted lease
      | None => then_available discard_load (authenticate_cold u Cancellable provisional)
      end
  end.

Definition authenticate_cancellable (u : CanonicalUsername) : bop (R:=R) positive :=
  load <- authenticate_active_internal u false; bret load.1.
Definition authenticate_active (u : CanonicalUsername) : bop (R:=R) (positive * option CachePromotion) :=
  authenticate_active_internal u true.

(** [Mode1CachePromotion::promote_if] *)
Definition promote_if (p : CachePromotion) (publish : bool) : bop (R:=R) bool :=
  promote_with (mb_cache_limits cfg) (mb_identity cfg) p publish.

(** ** Startup and reload *)

(** The first record that keeps the backend from starting. *)
Fixpoint check_statuses (statuses : list OuterRecordStatus) : bresult () :=
  match statuses with
  | [] => Ok ()
  | s :: statuses =>
      match os_classification s with
      | OuterCandidate _ => check_statuses statuses
      | OuterModeMismatch => Err ModeMismatch
      | OuterKeyMismatch => Err BackendKeyMismatch
      | OuterModelMismatch => Err BackendModelMismatch
      | OuterCorrupt => Err Corrupt
      end
  end.

(** [new_with_sources] on the opened directory: the scan, and that every record is usable. *)
Definition new_with_sources : bop (R:=R) () :=
  if mb_key_epoch cfg =? 0 then bfail (InvalidInput "key epoch")
  else
    _ <- on_disk (validate_directory os cfg);
    statuses <- durable (scan_outer_headers os cfg);
    blift (check_statuses statuses).

Definition reload : bop (R:=R) ReloadResult :=
  _ <- ensure_available;
  _ <- on_cache (λ w c, '(w, c) ← cache_clear w c; Some (w, c, Ok ()));
  records <- durable (scan_outer_headers os cfg);
  bret (mkReload Ready records).

Definition health (b : Backend R) : BackendHealth := availability_health (availability b).
End store.
