(* ===== verification/Mode1Proofs.v ===== *)
(** * What the mode-1 directory holds

    Record names are apart from transaction artifacts; inspecting and loading read what is
    stored and answer; what is written opens again. *)

From S2P Require Import Prelude Bytes Storage Crypto Codec CodecReader CodecPayload CodecPlain CodecEncrypted Contracts Disk Fingerprint Mode1.

(** ** Names *)

(** An artifact name ends in a dot and a nonce without a "y". *)
Definition artifact_tail (name : bytes) : Prop :=
  ∃ stem nonce, name = stem ++ bs "." ++ nonce ∧ Byte.x79 ∉ nonce ∧ Byte.x2e ∉ nonce.

Lemma artifact_not_record name u : artifact_tail name → name ≠ filename u.
Proof.
  intros (stem & nonce & -> & Hy & _) E. unfold filename in E.
  apply (f_equal reverse) in E. rewrite !reverse_app in E.
  change (reverse (bs ".")) with [Byte.x2e] in E.
  change (reverse (bs ".hye")) with [Byte.x65; Byte.x79; Byte.x68; Byte.x2e] in E.
  destruct (reverse nonce) as [|x [|y l]] eqn:Hr; [done|done|]. injection E as -> -> _.
  apply Hy. rewrite <- elem_of_reverse, Hr. by right; left.
Qed.

Lemma digit_apart n : digit n ≠ Byte.x79 ∧ digit n ≠ Byte.x2e.
Proof.
  unfold digit. destruct (nth_in_or_default (Z.to_nat n) DIGITS Byte.x00) as [Hin| ->]; [|done].
  split; intros E; rewrite E in Hin; revert Hin; vm_compute; intuition discriminate.
Qed.

Lemma hex_lower_apart b : Byte.x79 ∉ hex_lower b ∧ Byte.x2e ∉ hex_lower b.
Proof.
  unfold hex_lower. induction b as [|x b [IH1 IH2]]; [split; apply not_elem_of_nil|].
  rewrite fmap_cons. cbn [concat app].
  pose proof (digit_apart (Z.shiftr (byte.unsigned x) 4)) as [].
  pose proof (digit_apart (Z.land (byte.unsigned x) 15)) as [].
  rewrite !not_elem_of_cons. auto 6.
Qed.

(** A marker ends in a dot. *)
Definition is_marker (marker : bytes) : Prop := ∃ m, marker = m ++ bs ".".

Lemma artifact_name_tail destination marker b :
  is_marker marker → artifact_tail (artifact_name destination marker (hex_lower b)).
Proof.
  intros [m ->]. exists (bs "." ++ destination ++ m), (hex_lower b). unfold artifact_name.
  split; [by rewrite <- !app_assoc|]. apply hex_lower_apart.
Qed.

Lemma window_position_Some from name n :
  window_position from name = Some n → take (length from) (drop n name) = from.
Proof.
  revert n. induction name as [|x name IH]; intros n; cbn [window_position]; case_bool_decide as E;
    try done; try (by intros [= <-]). intros Hn. apply fmap_Some in Hn as (m & Hm & ->). by apply IH.
Qed.

(** Replacing a marker keeps the tail. *)
Lemma replaced_marker_tail name from to name' :
  artifact_tail name → is_marker from → is_marker to →
  replace_artifact_marker name from to = Ok name' → artifact_tail name'.
Proof.
  intros (stem & nonce & -> & Hy & Hd) [f ->] [t ->]. unfold replace_artifact_marker. intros Hr.
  apply bind_Ok in Hr as (n & Hn & Hr). apply ok_or_Ok in Hn. apply window_position_Some in Hn.
  apply bind_Ok in Hr as (c & _ & Hr). case_bool_decide; [done|]. injection Hr as <-.
  set (name := stem ++ bs "." ++ nonce) in *. change (stem ++ Byte.x2e :: nonce) with name.
  set (k := (n + length (f ++ bs "."))%nat).
  (* the marker's final dot is in the stem or is the dot before the nonce *)
  assert (k ≤ length (stem ++ bs "."))%nat as Hk.
  { destruct (Nat.le_gt_cases k (length (stem ++ bs "."))) as [|Hgt]; [done|]. exfalso. apply Hd.
    assert (name !! (k - 1)%nat = Some Byte.x2e) as Hdot.
    { assert (drop n name !! (length f) = Some Byte.x2e) as Hl.
      { assert (take (length (f ++ bs ".")) (drop n name) !! length f = Some Byte.x2e) as Hl.
        { rewrite Hn, lookup_app_r, Nat.sub_diag by done. done. }
        rewrite lookup_take_lt in Hl; [done|]. rewrite length_app; simpl; lia. }
      rewrite lookup_drop in Hl. rewrite <- Hl. f_equal. unfold k. rewrite length_app. simpl. lia. }
    unfold name in Hdot. rewrite app_assoc, lookup_app_r in Hdot by lia.
    by eapply list_elem_of_lookup_2. }
  destruct (decide (k = length (stem ++ bs "."))) as [E|E].
  - exists (take n name ++ t), nonce. split; [|done].
    assert (drop k name = nonce) as -> by (unfold name; rewrite app_assoc, E; apply drop_app_length).
    by rewrite <- !app_assoc.
  - exists (take n name ++ (t ++ bs ".") ++ drop k stem), nonce. split; [|done].
    rewrite length_app in Hk, E. simpl in Hk, E.
    assert (drop k name = drop k stem ++ bs "." ++ nonce) as ->
      by (unfold name; rewrite drop_app_le by lia; done).
    by rewrite <- !app_assoc.
Qed.

Lemma markers : is_marker TMP ∧ is_marker STAGED ∧ is_marker CLEAR ∧ is_marker ROLLBACK.
Proof. split_and!; [by exists (bs ".tmp")|by exists (bs ".staged")|by exists (bs ".clear")|by exists (bs ".rollback")]. Qed.

Lemma mode1_filename_inj u v : filename u = filename v → u = v.
Proof. unfold filename. intros E. apply app_inv_tail in E. destruct u, v. simpl in *. congruence. Qed.

(** ** What is stored *)

Section proofs.
  Context `{AesGcmLaws} {S : Type} `{RandomSource S}.
  Context (os : DiskOs) `{!DiskOsLaws os} (cfg : Mode1Settings).
  Implicit Types (fs : files) (u v : CanonicalUsername) (node : FileNode).

Abbreviation R := (Mode1State S).
Abbreviation reads := (Disk.reads (R:=R)).
Abbreviation wp := (Disk.wp (R:=R)).

(** The header of a user's record file, bound to the backend and within its limits. *)
Definition header_of node u (h : EncryptedHeader) : Prop :=
  inspect_howyenc1 (fn_data node) = Ok h ∧
  check_bindings h ModeAeadCached (mb_key_epoch cfg) u (mb_model cfg) = Ok () ∧
  h_entry_count h ≤ ml_max_entries (mb_limits cfg) ∧
  h_plaintext_length h ≤ ml_max_plaintext_bytes (mb_limits cfg).

(** The user's record, authenticated and decoded without a shortage of memory. *)
Definition stored fs u (record : EnrollmentRecord) : Prop :=
  ∃ node, fs !! filename u = Some node ∧ record_metadata_ok cfg (fn_stat node) = true ∧
    decrypt_record cfg unlimited (fn_data node) u = Ok record.

Lemma mode1_stored_det fs u x y : stored fs u x → stored fs u y → x = y.
Proof. intros (n & Hn & _ & Hx) (n' & Hn' & _ & Hy). congruence. Qed.

Lemma decrypt_unlimited alloc b u record :
  decrypt_record cfg alloc b u = Ok record → decrypt_record cfg unlimited b u = Ok record.
Proof.
  intros Hd. unfold decrypt_record in *.
  apply decode_howyenc1_Ok in Hd as (nonce & c & Hn & Hk & Hwf & He & <- & <- & -> & Hc).
  pose proof (record_header_enc1_wf record ModeAeadCached _ nonce Hwf He Hn) as Hh.
  pose proof Hwf as (_ & _ & _ & Hmax & Hnd & Hes).
  etrans; [apply (decode_sealed unlimited (mb_key cfg)
    (record_header record ModeAeadCached (mb_key_epoch cfg) nonce) (entries record) c)|by destruct record];
    done.
Qed.

(** ** Reading *)

Lemma unless_cancelled_reads {A} fs c (m : dop StorageBackendError A) Q :
  reads fs m Q → Q (Err Unavailable) → reads fs (unless_cancelled os c m) Q.
Proof. intros Hm HQ. destruct c; [done|by apply if_not_cancelled_reads]. Qed.

Lemma mode1_validate_record_file_reads fs node :
  reads fs (validate_record_file os cfg node) (λ x, match x with
    | Ok n => n = len (fn_data node) ∧ record_metadata_ok cfg (fn_stat node) = true
    | Err e => e ≠ BackendAbsent end).
Proof.
  unfold validate_record_file.
  eapply (reads_bind _ _ _ (λ x, match x with Ok s => s = fn_stat node | Err e => e ≠ BackendAbsent end)); [| |done].
  { eapply (reads_map_err _ _ _ (λ x, match x with Ok s => s = fn_stat node | _ => True end));
      [by apply reads_syscall|done|done]. }
  intros s ->. destruct (record_metadata_ok _ _); cbn [negb]; [|by apply (reads_lift fs (Err _))].
  eapply (reads_bind _ _ _ (λ x, match x with Ok _ => True | Err e => e ≠ BackendAbsent end)); [| |done].
  { apply reads_lift. by destruct (_ ≫= _). }
  intros m _. eapply (reads_bind _ _ _ (λ x, match x with
    | Ok n => n = len (fn_data node) | Err e => e ≠ BackendAbsent end)); [| |done].
  { apply reads_lift. destruct (try_from_u _ _) eqn:E; [|done]. by apply try_from_u_Some in E as [-> _]. }
  intros n ->. destruct (_ || _); [by apply (reads_lift fs (Err _))|by apply (reads_lift fs (Ok _))].
Qed.

(** The errors of reading. *)
Definition read_error (e : StorageBackendError) : Prop :=
  e = Corrupt ∨ e = Unavailable ∨ ∃ kind, e = io_error IoRead kind.

Lemma read_error_present e : read_error e → e ≠ BackendAbsent.
Proof. by intros [->|[->|[k ->]]]. Qed.

Definition read_exactly node pos wanted (x : bresult bytes) : Prop :=
  match x with
  | Ok b => b = take wanted (drop pos (fn_data node)) ∧ length b = wanted
  | Err e => read_error e
  end.

Lemma read_exact_loop_reads fs node fuel c pos wanted acc :
  acc = take (length acc) (drop pos (fn_data node)) → (length acc ≤ wanted)%nat →
  reads fs (read_exact_loop os fuel node c pos wanted acc) (read_exactly node pos wanted).
Proof.
  revert acc. induction fuel as [|fuel IH]; intros acc Hacc Hle; cbn [read_exact_loop];
    destruct (Nat.leb_spec wanted (length acc)) as [Hge|Hlt].
  1,3: apply (reads_lift fs (Ok acc)); assert (length acc = wanted) as <- by lia; done.
  { intros d d' r [= <- <-] Hd. by split. }
  apply unless_cancelled_reads; [|by right; left].
  eapply (reads_case _ _ _ _ (λ x, match x with
    | Ok chunk => acc ++ chunk = take (length (acc ++ chunk)) (drop pos (fn_data node)) ∧
        (length (acc ++ chunk) ≤ wanted)%nat
    | Err _ => True end)).
  - apply reads_sys_read; [|done]. intros n Hn.
    rewrite <- (drop_drop (fn_data node) (length acc) pos).
    assert (acc ++ take n (drop (length acc) (drop pos (fn_data node)))
      = take (length acc + n) (drop pos (fn_data node))) as E.
    { rewrite Hacc at 1. by rewrite take_take_drop. }
    rewrite E, length_take. split; [|lia].
    destruct (Nat.le_ge_cases (length acc + n) (length (drop pos (fn_data node)))); [f_equal; lia|].
    by rewrite !take_ge by lia.
  - intros chunk [Hc Hl]. case_bool_decide; [by apply (reads_lift fs (Err _)); left|by apply IH].
  - intros kind _. destruct (kind =? _); [by apply IH|]. apply (reads_lift fs (Err _)).
    right; right. by eexists.
Qed.


Lemma read_exact_cancellable_reads fs node c pos wanted :
  reads fs (read_exact_cancellable os node c pos wanted) (read_exactly node pos wanted).
Proof. apply read_exact_loop_reads; [done|]. simpl. lia. Qed.

(** What an inspection of a file answers. *)
Definition inspection node u (i : InspectedRecord) : Prop :=
  in_file i = node ∧ record_metadata_ok cfg (fn_stat node) = true ∧
  in_exact_length i = len (fn_data node) ∧
  in_header_prefix i = take (Z.to_nat (h_header_length (in_header i))) (fn_data node) ∧
  len (in_header_prefix i) = h_header_length (in_header i) ∧ header_of node u (in_header i).

(** A header accepted from the prefix is the header of the file. *)
Lemma metadata_header (data : bytes) prefix u h :
  prefix = take (length prefix) data →
  inspect_howyenc1_metadata prefix (len data) ModeAeadCached (mb_key_epoch cfg) u (mb_model cfg)
    (ml_max_entries (mb_limits cfg)) (ml_max_plaintext_bytes (mb_limits cfg)) = Ok h →
  len prefix = h_header_length h ∧ inspect_howyenc1 data = Ok h ∧
  check_bindings h ModeAeadCached (mb_key_epoch cfg) u (mb_model cfg) = Ok () ∧
  h_entry_count h ≤ ml_max_entries (mb_limits cfg) ∧
  h_plaintext_length h ≤ ml_max_plaintext_bytes (mb_limits cfg).
Proof.
  intros Hp Hi. unfold inspect_howyenc1_metadata in Hi. inv_ok. breflect. subst.
  match goal with x : () |- _ => destruct x end.
  rename select (inspect_howyenc1_header_prefix _ _ = _) into Hpre.
  apply inspect_enc1_Ok in Hpre as (rest & Hpre & Hwf & Hlen).
  pose proof (len_enc1_header _ Hwf) as Hl.
  assert (rest = []) as ->.
  { apply (f_equal len) in Hpre. rewrite len_app in Hpre. destruct rest; [done|].
    rewrite len_cons in Hpre. pose proof (len_nonneg rest). lia. }
  rewrite app_nil_r in Hpre. split_and!; try done.
  rewrite <- (take_drop (length prefix) data), <- Hp, Hpre in Hlen |- *.
  rewrite len_app in Hlen. apply inspect_enc1; [done|lia].
Qed.

Lemma inspect_file_reads fs node u c :
  reads fs (inspect_file os cfg node u c) (λ x, match x with
    | Ok i => inspection node u i | Err e => e ≠ BackendAbsent end).
Proof.
  unfold inspect_file. eapply reads_bind; [apply mode1_validate_record_file_reads| |done].
  intros n [-> Hmeta]. eapply reads_bind; [apply read_exact_cancellable_reads| |exact read_error_present].
  intros fixed [Hf Hfl]. destruct (negb (contains _ _ _)) eqn:Hul; [by apply (reads_lift fs (Err _))|].
  eapply (reads_bind _ _ _ (λ x, match x with Ok _ => True | Err e => e ≠ BackendAbsent end)); [| |done].
  { apply reads_lift. by destruct (checked_add _ _). }
  intros hl _. eapply (reads_bind _ _ _ (λ x, match x with Ok _ => True | Err e => e ≠ BackendAbsent end)); [| |done].
  { apply reads_alloc. intros alloc. by destruct (alloc _ _). }
  intros _ _. eapply reads_bind; [apply read_exact_cancellable_reads| |exact read_error_present].
  intros rest [Hr Hrl].
  assert (fixed ++ rest = take (length (fixed ++ rest)) (fn_data node)) as Hpre.
  { rewrite drop_0 in Hf. rewrite length_app, Hrl, <- take_take_drop. rewrite <- Hr. f_equal.
    rewrite Hf at 1. by rewrite Hfl. }
  destruct (inspect_howyenc1_metadata _ _ _ _ _ _ _ _) as [h|e] eqn:Hi.
  - eapply (reads_bind _ _ _ (λ x, x = Ok h)); [by apply reads_lift| |done].
    intros h' [= ->]. apply (reads_lift fs (Ok _)).
    apply metadata_header in Hi as (Hl & Hh); [|done]. unfold inspection; simpl. split_and!; try done.
    rewrite Hpre. f_equal. rewrite <- Hl. unfold len. lia.
  - eapply (reads_bind _ _ _ (λ x, x = Err (map_storage_error e))); [by apply reads_lift|done|].
    intros e' [= ->]. unfold map_storage_error. destruct e; try done. by repeat case_match.
Qed.

(** The answer of an inspection by name. *)
Definition inspected fs name u (x : bresult (option InspectedRecord)) : Prop :=
  match x with
  | Ok None => fs !! name = None
  | Ok (Some i) => ∃ node, fs !! name = Some node ∧ inspection node u i
  | Err e => e ≠ BackendAbsent
  end.

Lemma inspect_named_reads fs name u c :
  reads fs (inspect_named_record_cancellable os cfg name u c) (inspected fs name u).
Proof.
  eapply (reads_case _ _ _ _ (λ x, match x with
    | Ok node => fs !! name = Some node
    | Err kind => kind = KIND_NOT_FOUND → fs !! name = None end)).
  { apply reads_sys_open; naive_solver. }
  - intros node Hn. eapply reads_bind; [apply inspect_file_reads| |done].
    intros i Hi. apply (reads_lift fs (Ok _)). by exists node.
  - intros kind Hk. destruct (Z.eqb_spec kind KIND_NOT_FOUND); [|by apply (reads_lift fs (Err _))].
    apply (reads_lift fs (Ok _)). by apply Hk.
Qed.

Lemma inspect_record_cancellable_reads fs u c :
  reads fs (inspect_record_cancellable os cfg u c) (inspected fs (filename u) u).
Proof. apply unless_cancelled_reads; [apply inspect_named_reads|done]. Qed.
Lemma inspect_record_reads fs u : reads fs (inspect_record os cfg u) (inspected fs (filename u) u).
Proof. apply inspect_record_cancellable_reads. Qed.

Lemma map_storage_error_present e : map_storage_error e ≠ BackendAbsent.
Proof. unfold map_storage_error. destruct e; try done. by repeat case_match. Qed.

Lemma read_complete_record_reads fs node u i c :
  inspection node u i →
  reads fs (read_complete_record os i c) (λ x, match x with
    | Ok b => b = fn_data node | Err e => e ≠ BackendAbsent end).
Proof.
  intros (Hnode & _ & Hlen & Hpre & Hhl & _). unfold read_complete_record. rewrite Hlen, Hnode.
  set (prefix := in_header_prefix i) in *.
  assert (length prefix ≤ length (fn_data node))%nat as Hle by (rewrite Hpre, length_take; lia).
  eapply (reads_bind _ _ _ (λ x, match x with Ok _ => True | Err e => e ≠ BackendAbsent end)); [| |done].
  { apply reads_alloc. intros alloc. by destruct (alloc _ _). }
  intros _ _. rewrite <- Hhl.
  assert (Z.to_nat (len prefix) = length prefix) as -> by (unfold len; lia).
  assert (Z.to_nat (saturating_sub (len (fn_data node)) (len prefix))
    = length (fn_data node) - length prefix)%nat as ->
    by (unfold saturating_sub, len; lia).
  rewrite length_app, take_app_length. unfold zero_bytes. rewrite length_replicate.
  replace (length prefix + (length (fn_data node) - length prefix) - length prefix)%nat
    with (length (drop (length prefix) (fn_data node))) by (rewrite length_drop; lia).
  eapply reads_bind; [apply read_exact_cancellable_reads| |exact read_error_present].
  intros rest [Hr _]. rewrite take_ge in Hr by done.
  assert (prefix ++ rest = fn_data node) as Hall.
  { rewrite Hr. rewrite Hpre at 1. rewrite <- Hhl.
    replace (Z.to_nat (len prefix)) with (length prefix) by (unfold len; lia). by rewrite take_drop. }
  rewrite Hall. apply unless_cancelled_reads; [|done].
  eapply (reads_bind _ _ _ (λ x, match x with Ok _ => True | Err e => e ≠ BackendAbsent end)); [| |done].
  { by eapply (reads_map_err _ _ _ (λ _, True)); [apply reads_sys_read| |]. }
  intros extra _. destruct (negb _); [by apply (reads_lift fs (Err _))|].
  apply unless_cancelled_reads; [|done].
  eapply (reads_bind _ _ _ (λ x, match x with Ok _ => True | Err e => e ≠ BackendAbsent end)); [| |done].
  { apply reads_lift. destruct (inspect_howyenc1 _); [done|]. apply map_storage_error_present. }
  intros h _. destruct (negb _); [by apply (reads_lift fs (Err _))|by apply (reads_lift fs (Ok _))].
Qed.

(** The answer of a decryption of an inspected file. *)
Definition decrypted node u (x : bresult EnrollmentRecord) : Prop :=
  match x with
  | Ok record => decrypt_record cfg unlimited (fn_data node) u = Ok record
  | Err e => e ≠ BackendAbsent
  end.

Lemma decrypt_file_reads fs node u i c :
  inspection node u i → reads fs (decrypt_file os cfg i u c) (decrypted node u).
Proof.
  intros Hi. eapply reads_bind; [by eapply read_complete_record_reads| |done].
  intros b ->. apply unless_cancelled_reads; [|done].
  eapply (reads_bind _ _ _ (decrypted node u)); [| |done].
  - apply reads_alloc. intros alloc. destruct (decrypt_record _ _ _ _) as [r|e] eqn:Hd; simpl.
    + by eapply decrypt_unlimited.
    + apply map_storage_error_present.
  - intros r Hr. apply unless_cancelled_reads; [by apply (reads_lift fs (Ok _))|done].
Qed.

(** Signals interrupt only so many calls, and the machine does not stop. *)
Definition interrupted t : Prop := os_fault os t = Some (Fails KIND_INTERRUPTED).
Definition few_interruptions : Prop :=
  ∀ ts, NoDup ts → Forall interrupted ts → (length ts ≤ os_interruptions os)%nat.
Definition keeps_running : Prop := ∀ t, os_fault os t ≠ Some Stops.

(** Every turn of the read loop reads something or is one of the interrupted ones. *)
Lemma read_exact_loop_answers (Hfew : few_interruptions) (Hrun : keeps_running)
    node fuel c pos wanted acc (d : Disk R) past :
  NoDup past → Forall (λ t, interrupted t ∧ (t < d_tick d)%nat) past →
  (wanted - length acc + (os_interruptions os - length past) ≤ fuel)%nat →
  ∃ d' x, read_exact_loop os fuel node c pos wanted acc d = (d', Some x).
Proof.
  revert acc d past. induction fuel as [|fuel IH]; intros acc d past Hnd Hpast Hfuel;
    cbn [read_exact_loop]; destruct (Nat.leb_spec wanted (length acc)) as [Hge|Hlt]; [by eexists _, _|lia|by eexists _, _|].
  assert (∀ d1 : Disk R, (d_tick d ≤ d_tick d1)%nat →
    ∃ d' x, dcase (sys_read os node (pos + length acc) (Nat.min (wanted - length acc) CHUNK_BYTES))
      (λ chunk, if bool_decide (chunk = []) then dfail Corrupt
                else read_exact_loop os fuel node c pos wanted (acc ++ chunk))
      (λ kind, if kind =? KIND_INTERRUPTED then read_exact_loop os fuel node c pos wanted acc
               else dfail (io_error IoRead kind)) d1 = (d', Some x)) as Hread.
  { intros d1 Hd1. unfold dcase, sys_read, syscall.
    destruct (os_fault os (d_tick d1)) as [[kind|]|] eqn:Hf; [| by apply Hrun in Hf|].
    - destruct (Z.eqb_spec kind KIND_INTERRUPTED) as [->|]; [|by eexists _, _].
      assert (NoDup (d_tick d1 :: past)) as Hnd'.
      { constructor; [|done]. intros Hin. rewrite Forall_forall in Hpast. apply Hpast in Hin. lia. }
      assert (Forall interrupted (d_tick d1 :: past)) as Hall.
      { constructor; [done|]. eapply Forall_impl; [exact Hpast|]. by intros t []. }
      pose proof (Hfew _ Hnd' Hall) as Hbound. simpl in Hbound.
      apply (IH _ _ (d_tick d1 :: past)); [done| |simpl; lia].
      constructor; [split; [done|simpl; lia]|].
      eapply Forall_impl; [exact Hpast|]. intros t []. split; [done|]. simpl. lia.
    - case_bool_decide as Hc; [by eexists _, _|]. apply (IH _ _ past); [done| |].
      + eapply Forall_impl; [exact Hpast|]. intros t []. split; [done|]. simpl. lia.
      + rewrite length_app. destruct (take _ _); [done|]. simpl. lia. }
  destruct c; [by apply Hread|]. unfold unless_cancelled, if_not_cancelled, dbind, poll.
  destruct (os_cancel os (d_tick d)); [by eexists _, _|]. apply Hread. simpl. lia.
Qed.

Lemma read_exact_answers (Hfew : few_interruptions) (Hrun : keeps_running) node c pos wanted (d : Disk R) :
  ∃ d' x, read_exact_cancellable os node c pos wanted d = (d', Some x).
Proof.
  apply (read_exact_loop_answers Hfew Hrun _ _ _ _ _ _ _ []); [constructor|constructor|simpl; lia].
Qed.
End proofs.
