(* ===== verification/Mode1Write.v ===== *)
(** * Mode-1 mutations of the directory

    A record is replaced or cleared as a transaction of renames under artifact names: whatever
    fails and wherever the machine stops, the user's record is the old one or the complete new
    one; a failure that does not poison the backend leaves it as it was. *)

From S2P Require Import Prelude Bytes Storage Crypto Codec CodecReader CodecPayload CodecPlain CodecEncrypted Contracts Cache CacheLru Disk Fingerprint Mode1 Mode1Proofs.

(** What of a file a record depends on: all but the times of its changes. *)
Definition file_view (n : FileNode) : FileKind * Z * Z * Z * bytes :=
  (st_kind (fn_stat n), st_uid (fn_stat n), st_mode (fn_stat n), st_nlink (fn_stat n), fn_data n).

Lemma renamed_view n now : file_view (renamed n now) = file_view n.
Proof. done. Qed.

Section write.
  Context `{AesGcm} {S : Type} `{RandomSource S}.
  Context {os : DiskOs} `{!DiskOsLaws os} (cfg : Mode1Settings).
  Implicit Types (fs : files) (u v : CanonicalUsername) (n m : FileNode) (a : bytes).

Abbreviation R := (Mode1State S).
Abbreviation reads := (Disk.reads (R:=R)).
Abbreviation wp := (Disk.wp (R:=R)).

(** ** Records and artifacts *)

(** No record file was touched; none but that of [destination]. *)
Definition apart fs fs' : Prop := ∀ v, fs' !! filename v = fs !! filename v.
Definition same_others (destination : bytes) fs fs' : Prop :=
  ∀ v, filename v ≠ destination → fs' !! filename v = fs !! filename v.

Lemma apart_refl fs : apart fs fs.
Proof. done. Qed.
Lemma apart_trans fs1 fs2 fs3 : apart fs1 fs2 → apart fs2 fs3 → apart fs1 fs3.
Proof. intros H1 H2 v. by rewrite H2, H1. Qed.
Lemma apart_others destination fs fs' : apart fs fs' → same_others destination fs fs'.
Proof. intros Ha v _. apply Ha. Qed.
Lemma same_others_trans destination fs1 fs2 fs3 :
  same_others destination fs1 fs2 → same_others destination fs2 fs3 → same_others destination fs1 fs3.
Proof. intros H1 H2 v Hv. by rewrite H2, H1. Qed.
Lemma same_others_refl destination fs : same_others destination fs fs.
Proof. done. Qed.

Lemma insert_apart a n fs : artifact_tail a → apart fs (<[a := n]> fs).
Proof. intros Ha v. apply lookup_insert_ne. by apply artifact_not_record. Qed.
Lemma delete_apart a fs : artifact_tail a → apart fs (delete a fs).
Proof. intros Ha v. apply lookup_delete_ne. by apply artifact_not_record. Qed.
Lemma insert_others destination n fs : same_others destination fs (<[destination := n]> fs).
Proof. intros v Hv. by rewrite lookup_insert_ne. Qed.
Lemma delete_others destination fs : same_others destination fs (delete destination fs).
Proof. intros v Hv. by rewrite lookup_delete_ne. Qed.

(** ** System calls *)

Lemma sys_unlink_apart a fs : artifact_tail a → wp (sys_unlink os a) (λ fs' _, apart fs fs') fs.
Proof.
  intros Ha. apply wp_syscall; [|done|done]. destruct (fs !! a); [by apply delete_apart|done].
Qed.

Lemma sync_directory_wp (Q : files → option (bresult ()) → Prop) fs :
  (∀ r, Q fs r) → wp (sync_directory os) Q fs.
Proof. intros HQ. apply wp_map_err. by apply wp_syscall. Qed.

Lemma cleanup_wp {E} a fs (Q : files → option (result E ()) → Prop) :
  artifact_tail a → (∀ fs', apart fs fs' → Q fs' (Some (Ok ())) ∧ Q fs' None) →
  wp (cleanup_non_authoritative_temp os a) Q fs.
Proof.
  intros Ha HQ. apply wp_case. eapply wp_mono; [by apply sys_unlink_apart|].
  intros fs' [[[]|k]|] Hfs'; [| |by apply HQ].
  - apply wp_case, sync_directory_wp. intros [[[]|e]|]; [| |by apply HQ];
      apply (wp_ret (Ok ())); by apply HQ.
  - apply (wp_ret (Ok ())). by apply HQ.
Qed.

(** A call whose effect depends on when it is made. *)
Lemma wp_syscall_at {A} (run : nat → files → files * result Z A) Q fs :
  (∀ t, Q (run t fs).1 (Some (run t fs).2)) → Q fs None →
  (∀ kind, kind ≠ KIND_NOT_FOUND → kind ≠ KIND_ALREADY_EXISTS → Q fs (Some (Err kind))) →
  wp (λ d, syscall os (run (d_tick d)) d) Q fs.
Proof.
  intros HP HN He d d' r Hr Hd. by eapply (wp_syscall (R:=R) (os:=os) (run (d_tick d))).
Qed.

(** A rename of artifacts. *)
Lemma sys_rename_apart a b fs :
  artifact_tail a → artifact_tail b →
  wp (sys_rename os a b) (λ fs' r, apart fs fs' ∧
    (r = Some (Ok ()) → ∃ n now, fs !! a = Some n ∧ fs' !! b = Some (renamed n now))) fs.
Proof.
  intros Ha Hb. apply (wp_syscall_at (λ t fs, match fs !! a with
    | None => (fs, Err KIND_NOT_FOUND)
    | Some n => (<[b := renamed n (os_time os t)]> (delete a fs), Ok ()) end)); [|by split|by intros; split]. intros t.
  destruct (fs !! a) as [n|] eqn:E; cbn [fst snd]; [|by split].
  split; [apply (apart_trans _ (delete a fs)); [by apply delete_apart|by apply insert_apart]|].
  intros _. exists n, (os_time os t). by rewrite lookup_insert_eq.
Qed.

(** Renames that move a record. *)
Definition moved (old new : bytes) fs fs' (r : option (result Z ())) : Prop :=
  match r with
  | Some (Ok _) => ∃ n now, fs !! old = Some n ∧ fs' = <[new := renamed n now]> (delete old fs)
  | _ => fs' = fs
  end.
Lemma sys_rename_wp old new fs : wp (sys_rename os old new) (moved old new fs) fs.
Proof.
  apply (wp_syscall_at (λ t fs, match fs !! old with
    | None => (fs, Err KIND_NOT_FOUND)
    | Some n => (<[new := renamed n (os_time os t)]> (delete old fs), Ok ()) end)); [|done|done].
  intros t. destruct (fs !! old) as [n|] eqn:E; [|done].
  by exists n, (os_time os t).
Qed.
Lemma sys_rename_no_replace_wp old new fs :
  wp (sys_rename_no_replace os old new) (λ fs' r, moved old new fs fs' r ∧
    (r = Some (Ok ()) → fs !! new = None)) fs.
Proof.
  apply (wp_syscall_at (λ t fs, match fs !! old, fs !! new with
    | None, _ => (fs, Err KIND_NOT_FOUND)
    | Some _, Some _ => (fs, Err KIND_ALREADY_EXISTS)
    | Some n, None => (<[new := renamed n (os_time os t)]> (delete old fs), Ok ()) end));
    [|by split|by intros; split]. intros t.
  destruct (fs !! old) as [n|] eqn:E, (fs !! new) eqn:E'; cbn [fst snd]; try by split.
  split; [|done]. by exists n, (os_time os t).
Qed.
Definition exchanged (one other : bytes) fs fs' (r : option (result Z ())) : Prop :=
  match r with
  | Some (Ok _) => ∃ n m now, fs !! one = Some n ∧ fs !! other = Some m ∧
      fs' = <[one := renamed m now]> (<[other := renamed n now]> fs)
  | _ => fs' = fs
  end.
Lemma sys_rename_exchange_wp one other fs :
  wp (sys_rename_exchange os one other) (exchanged one other fs) fs.
Proof.
  apply (wp_syscall_at (λ t fs, match fs !! one, fs !! other with
    | Some n, Some m => (<[one := renamed m (os_time os t)]> (<[other := renamed n (os_time os t)]> fs), Ok ())
    | _, _ => (fs, Err KIND_NOT_FOUND) end)); [|done|done]. intros t.
  destruct (fs !! one) as [n|] eqn:E; [|done]. destruct (fs !! other) as [m|] eqn:E'; [|done].
  by exists n, m, (os_time os t).
Qed.

(** ** The temporary file *)

(** A complete, synced record file. *)
Definition complete (encoded : bytes) n : Prop :=
  fn_data n = encoded ∧ fn_synced n = true ∧ record_metadata_ok cfg (fn_stat n) = true.

Lemma complete_renamed encoded n now : complete encoded n → complete encoded (renamed n now).
Proof. done. Qed.

(** The file [create_temp] leaves: new, and checked when it succeeds. *)
Definition temp_created a fs fs' (r : option (result Z ())) : Prop :=
  apart fs fs' ∧
  match r with
  | Some (Ok _) => ∃ n, fs' !! a = Some n ∧ record_metadata_ok cfg (fn_stat n) = true
  | _ => True
  end.

Lemma mode1_create_temp_wp a fs : artifact_tail a → wp (create_temp os cfg a) (temp_created a fs) fs.
Proof.
  intros Ha. unfold create_temp. apply wp_bind. eapply wp_mono; [apply sys_create_wp|].
  intros fs1 [[[]|kind]|]; [|by intros ->|by intros ->]. intros (_ & n & ->).
  assert (∀ n, apart fs (<[a:=n]> fs)) as Hap by (intros; by apply insert_apart).
  apply wp_bind, wp_syscall; [|by split|by split]. cbn [fst snd].
  rewrite alter_insert_eq. apply wp_bind, wp_syscall; [|by split|by split]. cbn [fst snd].
  rewrite lookup_insert_eq. cbn [ok_or fmap option_fmap option_map]. apply wp_ret.
  split; [done|]. destruct (record_metadata_ok _ _) eqn:E; [|done].
  eexists. by rewrite lookup_insert_eq.
Qed.

Lemma prepare_temp_wp a encoded fs n :
  artifact_tail a → fs !! a = Some n → record_metadata_ok cfg (fn_stat n) = true →
  wp (prepare_temp os a encoded) (λ fs' r, apart fs fs' ∧
    (r = Some (Ok ()) → ∃ n, fs' !! a = Some n ∧ complete encoded n)) fs.
Proof.
  intros Ha Hn Hok. unfold prepare_temp. apply wp_bind, wp_map_err.
  assert (∀ fs f, apart fs (alter f a fs)) as Hap.
  { intros fs0 f v. apply lookup_alter_ne. by apply artifact_not_record. }
  intros d d' r Hr Hd. unfold sys_write in Hr. rewrite Hd in Hr.
  destruct (os_fault os _) as [[kind|]|]; injection Hr as <- <-; simpl; [by split|by split|].
  apply wp_map_err, wp_syscall; cbn [fst snd]; [|by split|by intros; split].
  split; [eapply apart_trans; apply Hap|]. intros _. rewrite !lookup_alter_eq, Hn. simpl. by eexists.
Qed.
(** ** Replacing a record *)

Section transaction.
  Context (u : CanonicalUsername) (encoded : bytes) (fs : files).

Abbreviation destination := (filename u).
Abbreviation others := (same_others destination fs).

(** The user's record is as it was, or the new one. *)
Definition unchanged fs' : Prop := file_view <$> fs' !! destination = file_view <$> fs !! destination.
Definition replaced fs' : Prop := ∃ n, fs' !! destination = Some n ∧ complete encoded n.

Definition write_outcome fs' (r : option (result Failure ())) : Prop :=
  others fs' ∧
  match r with
  | Some (Ok _) => replaced fs'
  | Some (Err (Failed _)) => unchanged fs'
  | Some (Err (Poisons _ _)) | None => unchanged fs' ∨ replaced fs'
  end.

Lemma apart_unchanged fs1 fs2 : apart fs1 fs2 → unchanged fs1 → unchanged fs2.
Proof. unfold unchanged. intros Ha <-. by rewrite Ha. Qed.
Lemma apart_replaced fs1 fs2 : apart fs1 fs2 → replaced fs1 → replaced fs2.
Proof. unfold replaced. intros Ha Hr. by rewrite Ha. Qed.
Lemma apart_settled fs1 fs2 : apart fs1 fs2 → unchanged fs1 ∨ replaced fs1 → unchanged fs2 ∨ replaced fs2.
Proof. intros Ha [?|?]; [left; by eapply apart_unchanged|right; by eapply apart_replaced]. Qed.
Lemma apart_only fs1 fs2 : apart fs1 fs2 → others fs1 → others fs2.
Proof. intros Ha Ho. eapply same_others_trans; [exact Ho|by apply apart_others]. Qed.

(** A failure before anything was exchanged. *)
Lemma cleanup_failed a e fs1 :
  artifact_tail a → apart fs fs1 →
  wp (dbind (cleanup_non_authoritative_temp os a) (λ _, dfail (Failed e))) write_outcome fs1.
Proof.
  intros Ha Hap. apply wp_bind, cleanup_wp; [done|]. intros fs2 H2.
  assert (apart fs fs2) as Hap2 by by eapply apart_trans.
  assert (others fs2) by by apply apart_others.
  assert (unchanged fs2) by (unfold unchanged; by rewrite Hap2).
  split; [apply (wp_ret (Err _)); by split|split; [done|by left]].
Qed.

(** Undoing the exchange: the old record is under the artifact's name, the new one is active. *)
Definition exchanged_state a fs1 : Prop :=
  others fs1 ∧ replaced fs1 ∧ ∃ old, fs1 !! a = Some old ∧
    Some (file_view old) = file_view <$> fs !! destination.

(** What a rollback leaves: the old record when it succeeds, else the old or the new one. *)
Definition rolled_back fs' (r : option (result () ())) : Prop :=
  others fs' ∧ (unchanged fs' ∨ replaced fs') ∧ (r = Some (Ok ()) → unchanged fs').

Lemma rolled_back_apart fs1 fs2 r r' : rolled_back fs1 r → apart fs1 fs2 →
  (r' = Some (Ok ()) → unchanged fs1) → rolled_back fs2 r'.
Proof.
  intros (Ho & Hs & _) Ha Hr. split_and!; [by eapply apart_only|by eapply apart_settled|].
  intros E. by eapply apart_unchanged; [|apply Hr].
Qed.

(** The end of a rollback: the artifact goes. *)
Lemma rollback_cleanup_wp a fs1 :
  artifact_tail a → others fs1 → unchanged fs1 →
  wp (dbind (or_unit (sync_directory os)) (λ _, dbind (or_unit (sys_unlink os a)) (λ _,
      or_unit (sync_directory os)))) rolled_back fs1.
Proof.
  intros Ha Ho Hu. apply wp_bind, wp_map_err, sync_directory_wp. intros r.
  assert (∀ fs2 r, apart fs1 fs2 → rolled_back fs2 r) as Hdone.
  { intros fs2 r' Hap. split_and!; [by eapply apart_only|left; by eapply apart_unchanged|].
    intros _. by eapply apart_unchanged. }
  destruct r as [[[]|e]|]; cbn [fmap option_fmap option_map map_err]; [|by apply Hdone|by apply Hdone].
  apply wp_bind, wp_map_err. eapply wp_mono; [by apply sys_unlink_apart|]. intros fs2 r Hap.
  destruct r as [[[]|e]|]; cbn [fmap option_fmap option_map map_err]; [|by apply Hdone|by apply Hdone].
  apply wp_map_err, sync_directory_wp. intros r'. by apply Hdone.
Qed.

Lemma rollback_replacement_wp a fs1 :
  artifact_tail a → exchanged_state a fs1 →
  wp (rollback_temporary os a destination true) rolled_back fs1.
Proof.
  intros Ha (Ho & Hnew & old & Hold & Hview). unfold rollback_temporary. cbn [negb].
  destruct markers as (_ & Hst & _ & Hro).
  assert (∀ fs2 r, apart fs1 fs2 → r ≠ Some (Ok ()) → rolled_back fs2 r) as Hfail.
  { intros fs2 r Hap Hr. split_and!; [by eapply apart_only|right; by eapply apart_replaced|done]. }
  apply wp_bind, wp_bind, wp_map_err, wp_ret.
  destruct (replace_artifact_marker a STAGED ROLLBACK) as [rb|e] eqn:Hrb;
    cbn [fmap option_fmap option_map map_err]; [|by apply Hfail].
  assert (artifact_tail rb) as Hrbt by (by eapply replaced_marker_tail; [..|exact Hrb]).
  apply wp_bind, wp_map_err. eapply wp_mono; [by apply sys_rename_apart|]. intros fs2 r [Hap Hrb2].
  destruct r as [[[]|k]|]; cbn [fmap option_fmap option_map map_err]; [|by apply Hfail|by apply Hfail].
  destruct (Hrb2 eq_refl) as (n & now & Hn & Hrbn). rewrite Hold in Hn. injection Hn as <-.
  apply wp_bind, wp_map_err, sync_directory_wp. intros r.
  destruct r as [[[]|e]|]; cbn [fmap option_fmap option_map map_err]; [|by apply Hfail|by apply Hfail].
  apply (wp_ret (Ok rb)). cbn beta iota. apply wp_bind, wp_map_err.
  eapply wp_mono; [apply sys_rename_exchange_wp|]. intros fs3 r Hx.
  destruct r as [[[]|k]|]; cbn [fmap option_fmap option_map map_err];
    [|simpl in Hx; subst fs3; by apply Hfail|simpl in Hx; subst fs3; by apply Hfail].
  destruct Hx as (n & m & now' & Hn & Hm & ->). rewrite Hrbn in Hn. injection Hn as <-.
  apply rollback_cleanup_wp; [done|..].
  - eapply apart_only; [by apply insert_apart|]. eapply same_others_trans; [|apply insert_others].
    by eapply apart_only.
  - unfold unchanged. rewrite lookup_insert_ne, lookup_insert_eq by (by apply artifact_not_record).
    simpl. by rewrite !renamed_view.
Qed.

Lemma rollback_creation_wp a fs1 :
  artifact_tail a → fs !! destination = None → others fs1 → replaced fs1 →
  wp (rollback_temporary os a destination false) rolled_back fs1.
Proof.
  intros Ha Hno Ho Hnew. unfold rollback_temporary.
  destruct markers as (Htm & _ & _ & Hro).
  assert (∀ r, r ≠ Some (Ok ()) → rolled_back fs1 r) as Hfail by (intros; split_and!; [done|by right|done]).
  apply wp_bind, wp_map_err, wp_ret.
  destruct (replace_artifact_marker a TMP ROLLBACK) as [rb|e] eqn:Hrb;
    cbn [fmap option_fmap option_map map_err]; [|by apply Hfail].
  assert (artifact_tail rb) as Hrbt by (by eapply replaced_marker_tail; [..|exact Hrb]).
  apply wp_bind, wp_map_err. eapply wp_mono; [apply sys_rename_wp|]. intros fs2 r Hmv.
  destruct r as [[[]|k]|]; cbn [fmap option_fmap option_map map_err];
    [|simpl in Hmv; subst fs2; by apply Hfail|simpl in Hmv; subst fs2; by apply Hfail].
  destruct Hmv as (n & now & Hn & ->). apply rollback_cleanup_wp; [done|..].
  - eapply apart_only; [by apply insert_apart|]. eapply same_others_trans; [exact Ho|apply delete_others].
  - unfold unchanged. rewrite lookup_insert_ne, lookup_delete_eq, Hno by (by apply artifact_not_record). done.
Qed.
(** The complete record waits under an artifact's name. *)
Definition waiting a fs1 : Prop := apart fs fs1 ∧ ∃ n, fs1 !! a = Some n ∧ complete encoded n.

Lemma apart_outcome fs1 r :
  apart fs fs1 → match r with Some (Ok _) => False | _ => True end → write_outcome fs1 r.
Proof.
  intros Hap Hr. assert (unchanged fs1) by (unfold unchanged; by rewrite Hap).
  split; [by apply apart_others|]. destruct r as [[|[]]|]; [done|done|by left|by left].
Qed.

Definition staged_outcome fs1 (r : option (result Failure bytes)) : Prop :=
  match r with
  | Some (Ok a) => artifact_tail a ∧ waiting a fs1
  | Some (Err (Failed _)) | None => apart fs fs1
  | Some (Err (Poisons _ _)) => False
  end.

Lemma stage_cleanup a e fs1 :
  artifact_tail a → apart fs fs1 →
  wp (dbind (cleanup_non_authoritative_temp os a) (λ _, dfail (Failed e))) staged_outcome fs1.
Proof.
  intros Ha Hap. apply wp_bind, cleanup_wp; [done|]. intros fs2 H2.
  assert (apart fs fs2) by by eapply apart_trans. split; [by apply (wp_ret (Err _))|done].
Qed.

Lemma stage_temporary_wp a existed fs1 :
  artifact_tail a → waiting a fs1 → wp (stage_temporary os a existed) staged_outcome fs1.
Proof.
  intros Ha Hw. pose proof Hw as (Hap & n & Hn & Hc). destruct markers as (Htm & Hst & _ & _).
  unfold stage_temporary. destruct existed; [|by apply (wp_ret (Ok a))].
  apply wp_bind, wp_ret. destruct (replace_artifact_marker a TMP STAGED) as [st|e] eqn:Hrb; [|done].
  assert (artifact_tail st) as Hstt by (by eapply replaced_marker_tail; [..|exact Hrb]).
  cbn [map_err]. apply wp_case. eapply wp_mono; [by apply sys_rename_apart|]. intros fs2 r [Hap2 Hok].
  assert (apart fs fs2) as Hap02 by by eapply apart_trans.
  destruct r as [[[]|k]|]; [|by apply stage_cleanup|done].
  destruct (Hok eq_refl) as (n' & now & Hn' & Hs). rewrite Hn in Hn'. injection Hn' as <-.
  apply wp_case, sync_directory_wp. intros [[[]|e]|]; [|by apply stage_cleanup|done].
  apply (wp_ret (Ok st)). split; [done|]. split; [done|]. by eexists.
Qed.

Lemma poisoned_outcome fs1 reason e :
  others fs1 → unchanged fs1 ∨ replaced fs1 → write_outcome fs1 (Some (Err (Poisons reason e))).
Proof. by split. Qed.

(** What is done when the exchange cannot be made durable. *)
Lemma rollback_outcome a existed e fs1 :
  wp (rollback_temporary os a destination existed) rolled_back fs1 →
  wp (dcase (rollback_temporary os a destination existed) (λ _, dfail (Failed e))
        (λ _, dfail (Poisons WriteRollback Unavailable))) write_outcome fs1.
Proof.
  intros Hrb. apply wp_case. eapply wp_mono; [exact Hrb|].
  intros fs2 [[[]|[]]|] (Ho & Hs & Hr); [apply (wp_ret (Err _))|apply (wp_ret (Err _))|by split].
  - split; [done|]. by apply Hr.
  - by apply poisoned_outcome.
Qed.

(** Removing the old record once the new one is durable. *)
Lemma cleanup_committed_wp a fs1 :
  artifact_tail a → others fs1 → replaced fs1 →
  wp (dcase (sys_unlink os a)
        (λ _, dcase (sync_directory os) dret (λ _, dfail (Poisons WriteCleanup Unavailable)))
        (λ _, dfail (Poisons WriteCleanup Unavailable))) write_outcome fs1.
Proof.
  intros Ha Ho Hr. apply wp_case. eapply wp_mono; [by apply sys_unlink_apart|]. intros fs2 r Hap.
  assert (others fs2) by exact (apart_only _ _ Hap Ho). assert (replaced fs2) by exact (apart_replaced _ _ Hap Hr).
  assert (∀ r, match r with Some (Err (Failed _)) => False | _ => True end → write_outcome fs2 r) as Hd.
  { intros r' Hr'. split; [done|]. destruct r' as [[|[]]|]; [done|done|by right|by right]. }
  destruct r as [[[]|k]|]; [|by apply (wp_ret (Err _)), Hd|by apply Hd].
  apply wp_case, sync_directory_wp. intros [[[]|e]|]; [|by apply (wp_ret (Err _)), Hd|by apply Hd].
  apply (wp_ret (Ok ())), Hd. done.
Qed.

Lemma commit_temporary_wp a existed fs1 :
  existed = bool_decide (is_Some (fs !! destination)) → artifact_tail a → waiting a fs1 →
  wp (commit_temporary os a destination existed) write_outcome fs1.
Proof.
  intros Hex Ha Hw. unfold commit_temporary. apply wp_bind.
  eapply wp_mono; [by apply stage_temporary_wp|]. intros fs2 [[t|[e|]]|] Hst;
    [|by apply apart_outcome|done|by apply apart_outcome].
  destruct Hst as (Ht & Hap & n & Hn & Hc). destruct existed.
  - apply wp_case. eapply wp_mono; [apply sys_rename_exchange_wp|]. intros fs3 r Hx.
    destruct r as [[[]|k]|]; [|simpl in Hx; subst fs3; by apply cleanup_failed
      |simpl in Hx; subst fs3; by apply apart_outcome].
    destruct Hx as (n' & m & now & Hn' & Hm & ->). rewrite Hn in Hn'. injection Hn' as <-.
    set (fs3 := <[t:=_]> _).
    assert (exchanged_state t fs3) as Hstate.
    { unfold fs3. split_and!.
      - eapply apart_only; [by apply insert_apart|]. eapply same_others_trans; [|apply insert_others].
        by apply apart_others.
      - exists (renamed n now). rewrite lookup_insert_ne, lookup_insert_eq by (by apply artifact_not_record). done.
      - eexists. rewrite lookup_insert_eq. split; [done|]. rewrite renamed_view, <- Hap, Hm. done. }
    pose proof Hstate as (Ho & Hr & _).
    apply wp_case, sync_directory_wp. intros [[[]|e]|]; [| |split; [done|by right]].
    + by apply cleanup_committed_wp.
    + apply rollback_outcome. by apply rollback_replacement_wp.
  - apply wp_case. eapply wp_mono; [apply sys_rename_no_replace_wp|]. intros fs3 r [Hx Hno].
    destruct r as [[[]|k]|]; [|simpl in Hx; subst fs3; by apply cleanup_failed
      |simpl in Hx; subst fs3; by apply apart_outcome].
    destruct Hx as (n' & now & Hn' & ->). rewrite Hn in Hn'. injection Hn' as <-.
    set (fs3 := <[_:=_]> _).
    assert (others fs3) as Ho.
    { unfold fs3. eapply same_others_trans; [|apply insert_others].
      eapply apart_only; [by apply delete_apart|by apply apart_others]. }
    assert (replaced fs3) as Hr by (exists (renamed n now); unfold fs3; by rewrite lookup_insert_eq).
    apply wp_case, sync_directory_wp. intros [[[]|e]|]; [by apply (wp_ret (Ok ()))| |split; [done|by right]].
    apply rollback_outcome, rollback_creation_wp; [done| |done|done].
    destruct (fs !! destination); [done|done].
Qed.

Lemma mode1_random_temp_suffix_reads fs1 :
  reads fs1 random_temp_suffix (λ x, match x with Ok b => ∃ nonce, b = hex_lower nonce | Err _ => True end).
Proof.
  intros d d' r Hr Hd. unfold random_temp_suffix in Hr. destruct (fill_bytes _ 16) as [s b] eqn:E.
  injection Hr as <- <-. split; [done|]. intros x [= <-]. destruct b; [eauto|done].
Qed.

Lemma mode1_write_attempts_wp attempts existed fs1 :
  existed = bool_decide (is_Some (fs !! destination)) → apart fs fs1 →
  wp (write_attempts os cfg attempts destination existed encoded) write_outcome fs1.
Proof.
  intros Hex. revert fs1. induction attempts as [|attempts IH]; intros fs1 Hap; cbn [write_attempts].
  { apply (wp_ret (Err _)). by apply apart_outcome. }
  apply wp_bind, wp_map_err. eapply reads_wp; [apply mode1_random_temp_suffix_reads|by apply apart_outcome|].
  intros [b|e]; cbn [fmap option_fmap option_map map_err]; [intros [nonce ->]|intros _; by apply apart_outcome].
  destruct markers as (Htm & _). set (a := artifact_name _ TMP _).
  assert (artifact_tail a) as Ha by by apply artifact_name_tail.
  apply wp_case. eapply wp_mono; [by apply mode1_create_temp_wp|]. intros fs2 r [Hap2 Hr].
  assert (apart fs fs2) by by eapply apart_trans. destruct r as [[[]|k]|]; [| |by apply apart_outcome].
  - destruct Hr as (n & Hn & Hok). apply wp_case. eapply wp_mono; [by eapply prepare_temp_wp|].
    intros fs3 r3 [Hap3 Hr3]. assert (apart fs fs3) by by eapply apart_trans.
    destruct r3 as [[[]|e]|]; [|by apply cleanup_failed|by apply apart_outcome].
    apply commit_temporary_wp; [done|done|]. split; [done|]. by apply Hr3.
  - destruct (k =? _); [by apply IH|]. apply (wp_ret (Err _)). by apply apart_outcome.
Qed.
End transaction.

(** ** Clearing a record *)

Section clear.
  Context (u : CanonicalUsername) (fs : files).

Abbreviation destination := (filename u).
Abbreviation others := (same_others destination fs).
Abbreviation kept := (unchanged u fs).

Definition cleared fs' : Prop := fs' !! destination = None.

Definition clear_outcome fs' (r : option (result Failure ())) : Prop :=
  others fs' ∧
  match r with
  | Some (Ok _) => cleared fs'
  | Some (Err (Failed _)) => kept fs'
  | Some (Err (Poisons _ _)) | None => kept fs' ∨ cleared fs'
  end.

(** The record is under its tombstone's name. *)
Definition buried a fs1 : Prop :=
  others fs1 ∧ cleared fs1 ∧ ∃ n, fs1 !! a = Some n ∧ Some (file_view n) = file_view <$> fs !! destination.

Lemma undo_clear_wp a e fs1 :
  artifact_tail a → others fs1 → cleared fs1 →
  (∀ n, fs1 !! a = Some n → Some (file_view n) = file_view <$> fs !! destination) →
  wp (undo_clear os a destination e) clear_outcome fs1.
Proof.
  intros Ha Ho Hc Hn. unfold undo_clear, rollback_clear.
  apply wp_case, wp_bind, wp_map_err. eapply wp_mono; [apply sys_rename_wp|]. intros fs2 r Hm.
  destruct r as [[[]|k]|]; cbn [fmap option_fmap option_map map_err].
  - destruct Hm as (n & now & Hna & ->).
    set (fs2 := <[_:=_]> _). assert (others fs2) by (unfold fs2; eapply same_others_trans;
      [|apply insert_others]; eapply same_others_trans; [exact Ho|by apply apart_others, delete_apart]).
    assert (kept fs2).
    { unfold unchanged, fs2. rewrite lookup_insert_eq. simpl. rewrite renamed_view. by apply Hn. }
    apply wp_map_err, sync_directory_wp. intros [[[]|e']|]; cbn [fmap option_fmap option_map map_err];
      [apply (wp_ret (Err _)); by split|apply (wp_ret (Err _)); split; [done|by left]|split; [done|by left]].
  - simpl in Hm. subst fs2. apply (wp_ret (Err _)). split; [done|by right].
  - simpl in Hm. subst fs2. split; [done|by right].
Qed.

Lemma bury_record_wp a fs1 :
  artifact_tail a → buried a fs1 → wp (bury_record os a destination) clear_outcome fs1.
Proof.
  intros Ha (Ho & Hc & n & Hn & Hv). assert (∀ n, fs1 !! a = Some n →
    Some (file_view n) = file_view <$> fs !! destination) as Hview by (intros n' [= <-]%(eq_trans (eq_sym Hn)); done).
  unfold bury_record. apply wp_case, sync_directory_wp.
  intros [[[]|e]|]; [|by apply undo_clear_wp|split; [done|by right]].
  apply wp_case. apply wp_syscall; cbn [fst snd].
  - rewrite Hn. cbn [fst snd]. assert (others (delete a fs1)).
    { eapply same_others_trans; [exact Ho|by apply apart_others, delete_apart]. }
    assert (cleared (delete a fs1)) by (unfold cleared; by rewrite lookup_delete_ne by (by apply artifact_not_record)).
    apply wp_case, sync_directory_wp. intros [[[]|e]|]; [by apply (wp_ret (Ok ()))
      |apply (wp_ret (Err _)); split; [done|by right]|split; [done|by right]].
  - split; [done|by right].
  - intros kind _ _. by apply undo_clear_wp.
Qed.

Lemma clear_attempts_wp attempts :
  wp (clear_attempts os attempts destination) clear_outcome fs.
Proof.
  assert (∀ r, match r with Some (Ok _) => False | _ => True end → clear_outcome fs r) as Hkeep.
  { intros r Hr. split; [done|]. destruct r as [[|[]]|]; [done|done|by left|by left]. }
  induction attempts as [|attempts IH]; cbn [clear_attempts]; [by apply (wp_ret (Err _)), Hkeep|].
  apply wp_bind, wp_map_err. eapply reads_wp; [apply mode1_random_temp_suffix_reads|by apply Hkeep|].
  intros [b|e]; cbn [fmap option_fmap option_map map_err]; [intros [nonce ->]|intros _; by apply Hkeep].
  destruct markers as (_ & _ & Hcl & _). set (a := artifact_name _ CLEAR _).
  assert (artifact_tail a) as Ha by by apply artifact_name_tail.
  apply wp_case. eapply wp_mono; [apply sys_rename_no_replace_wp|]. intros fs2 r [Hm Hno].
  destruct r as [[[]|k]|].
  - destruct Hm as (n & now & Hn & ->). apply bury_record_wp; [done|]. split_and!.
    + eapply same_others_trans; [apply delete_others|by apply apart_others, insert_apart].
    + unfold cleared. rewrite lookup_insert_ne, lookup_delete_eq by (by apply artifact_not_record). done.
    + eexists. rewrite lookup_insert_eq. split; [done|]. by rewrite renamed_view, Hn.
  - simpl in Hm. subst fs2. destruct (k =? _); [done|]. by apply (wp_ret (Err _)), Hkeep.
  - simpl in Hm. subst fs2. by apply Hkeep.
Qed.

Lemma clear_record_wp : wp (clear_record os u) clear_outcome fs.
Proof. apply clear_attempts_wp. Qed.
End clear.
End write.

(** ** Writing a record *)

(** The settings a backend is opened with: [Mode1KeyContext] holds a key of an epoch above
    zero, [Mode1StorageLimits::new] and the cache's constructor check the limits. *)
Record mode1_ok (cfg : Mode1Settings) : Prop := {
  mo_key : key_is_valid (mb_key cfg) = true;
  mo_epoch : 1 ≤ mb_key_epoch cfg ≤ U64_MAX;
  mo_model : length (digest_bytes (mb_model cfg)) = 32%nat;
  mo_entries : 1 ≤ ml_max_entries (mb_limits cfg) ≤ MAX_ENTRIES;
  mo_plaintext : 1 ≤ ml_max_plaintext_bytes (mb_limits cfg) ≤ MAX_PLAINTEXT_BYTES;
  mo_cache : limits_ok (mb_cache_limits cfg);
  mo_users : max_users (mb_cache_limits cfg) ≤ U64_MAX }.

Section record.
  Context `{AesGcmLaws} {S : Type} `{RandomSourceLaws S}.
  Context {os : DiskOs} `{!DiskOsLaws os} (cfg : Mode1Settings) (Hcfg : mode1_ok cfg).
  Implicit Types (fs : files) (u v : CanonicalUsername).

Abbreviation R := (Mode1State S).
Abbreviation reads := (Disk.reads (R:=R)).
Abbreviation wp := (Disk.wp (R:=R)).

Lemma generate_length try_reserve (g g' : NonceGenerator S) nonce :
  generate try_reserve g = (g', Ok nonce) → len nonce = 12.
Proof.
  unfold generate. destruct (_ <=? _); [done|]. destruct (nonce_reserve _ _) as [g1 [[]|]]; [|done].
  destruct (fill_bytes _ 12) as [s [b|]] eqn:Hf; [|done]. case_bool_decide; [done|].
  destruct (checked_add _ _); [|done]. intros [= _ <-]. apply fill_bytes_length in Hf. unfold len. lia.
Qed.

(** What is encrypted opens again. *)
Lemma encrypt_record_reads fs record :
  record_wf record → recognizer_model_sha256 record = mb_model cfg →
  reads fs (encrypt_record os cfg record) (λ x, match x with
    | Ok b => decrypt_record cfg unlimited b (username record) = Ok record | Err _ => True end).
Proof.
  intros Hwf Hmodel d d' r Hr Hd. unfold encrypt_record in Hr.
  destruct (encode_howyenc1 _ _ _ _ _ _ _) as [nonces encoded] eqn:He.
  injection Hr as <- <-. split; [done|]. intros x [= <-]. destruct encoded as [b|]; [|done].
  unfold encode_howyenc1 in He. destruct (generate _ _) as [g' [nonce|e]] eqn:Hg; [|done].
  injection He as _ He. apply generate_length in Hg.
  unfold decrypt_record. rewrite <- Hmodel.
  eapply howyenc1_roundtrip; [done|apply Hcfg|exact Hg|apply Hcfg|exact He|done].
Qed.

Lemma record_exists_reads fs name :
  reads fs (record_exists os cfg name) (λ x, match x with
    | Ok existed => existed = bool_decide (is_Some (fs !! name)) | Err _ => True end).
Proof.
  eapply (reads_case _ _ _ _ (λ x, match x with
    | Ok node => fs !! name = Some node
    | Err kind => kind = KIND_NOT_FOUND → fs !! name = None end)).
  { apply reads_sys_open; naive_solver. }
  - intros node Hn. eapply reads_bind; [apply (mode1_validate_record_file_reads os)| |done].
    intros n _. apply (reads_lift fs (Ok true)). rewrite Hn. symmetry. by apply bool_decide_eq_true_2.
  - intros kind Hk. destruct (Z.eqb_spec kind KIND_NOT_FOUND); [|by apply (reads_lift fs (Err _))].
    apply (reads_lift fs (Ok false)). rewrite Hk by done. symmetry. apply bool_decide_eq_false_2. by intros [].
Qed.

(** The outcome of writing a record. *)
Definition write_record_outcome fs (record : EnrollmentRecord) fs' (r : option (result Failure ())) : Prop :=
  let u := username record in
  same_others (filename u) fs fs' ∧
  match r with
  | Some (Ok _) => stored cfg fs' u record
  | Some (Err (Failed _)) => unchanged u fs fs'
  | Some (Err (Poisons _ _)) | None => unchanged u fs fs' ∨ stored cfg fs' u record
  end.

Lemma mode1_write_record_wp fs record :
  record_wf record → recognizer_model_sha256 record = mb_model cfg →
  wp (write_record os cfg record) (write_record_outcome fs record) fs.
Proof.
  intros Hwf Hmodel. unfold write_record.
  assert (∀ r, match r with Some (Ok _) => False | _ => True end → write_record_outcome fs record fs r) as Hkeep.
  { intros r Hr. split; [done|]. destruct r as [[|[]]|]; [done|done|by left|by left]. }
  apply wp_bind, wp_map_err. eapply reads_wp; [by apply encrypt_record_reads|by apply Hkeep|].
  intros [b|e]; cbn [fmap option_fmap option_map map_err]; [intros Hb|intros _; by apply Hkeep].
  destruct (_ <? len b); [by apply (wp_ret (Err _)), Hkeep|].
  apply wp_bind, wp_map_err. eapply reads_wp; [apply record_exists_reads|by apply Hkeep|].
  intros [existed|e]; cbn [fmap option_fmap option_map map_err]; [intros Hex|intros _; by apply Hkeep].
  eapply wp_mono; [by eapply (mode1_write_attempts_wp cfg (username record) b fs)|].
  intros fs' r [Ho Hr]. split; [done|].
  assert (replaced cfg (username record) b fs' → stored cfg fs' (username record) record) as Hst.
  { intros (n & Hn & <- & _ & Hok). by exists n. }
  destruct r as [[|[]]|]; [auto|done|destruct Hr; auto|destruct Hr; auto].
Qed.
End record.
