(* ===== verification/Mode1Scan.v ===== *)
(** * The mode-1 scan of the directory

    At startup and reload every entry of the directory is classified: the scan removes stale
    temporaries and replacements that were never exchanged, touches no record, and accepts the
    directory only if no transaction is left unfinished in it. *)

From stdpp Require Import sorting.
From S2P Require Import Prelude Bytes Storage Crypto Codec CodecReader CodecPayload CodecPlain CodecEncrypted Contracts Handlers Disk Backend BackendOps Provision Fingerprint Mode1 Mode1Proofs Mode1Write.

(** ** Names *)

Lemma lower_hex_apart nonce :
  forallb is_lower_hex_byte nonce = true → Byte.x79 ∉ nonce ∧ Byte.x2e ∉ nonce.
Proof.
  intros Hall. rewrite forallb_forall in Hall.
  split; intros Hin%list_elem_of_In; by specialize (Hall _ Hin).
Qed.

Lemma parsed_artifact_tail name marker u :
  is_marker marker → parse_mode1_transaction_artifact name marker = Some u → artifact_tail name.
Proof.
  intros [m ->] Hp. apply parse_artifact_Some in Hp as (_ & nonce & [_ Hn] & ->).
  exists (bs "." ++ u ++ bs ".hye" ++ m), nonce.
  split; [by rewrite <- !app_assoc|]. by apply lower_hex_apart.
Qed.

Lemma hex_lower_cons x b :
  hex_lower (x :: b) = digit (Z.shiftr (byte.unsigned x) 4) :: digit (Z.land (byte.unsigned x) 15) :: hex_lower b.
Proof. done. Qed.

Lemma hex_lower_nonce b : length b = 16%nat → is_nonce (hex_lower b).
Proof.
  intros Hb. split.
  - assert (∀ l, length (hex_lower l) = (2 * length l)%nat) as Hl.
    { intros l. induction l as [|x l IH]; [done|]. rewrite hex_lower_cons. simpl in *. lia. }
    unfold len. rewrite Hl. lia.
  - clear Hb. induction b as [|x b IH]; [done|]. rewrite hex_lower_cons. cbn [forallb]. rewrite IH. by destruct x.
Qed.

(** What the scan calls an entry. *)
Definition entry_class (name : bytes) (node : FileNode) : NamespaceEntryClassification :=
  classify_mode1_namespace_entry name (namespace_file_type (fn_stat node)) (st_nlink (fn_stat node)).

Lemma entry_class_authoritative name node user :
  entry_class name node = NcAuthoritative user →
  name = filename (mkUsername user) ∧ username_wf (mkUsername user).
Proof.
  unfold entry_class, classify_mode1_namespace_entry. destruct (utf8_valid name); [|done].
  destruct (namespace_file_type _); try done. destruct (_ =? 1); [|done]. cbn [negb].
  destruct (authoritative_username name) as [u|] eqn:Hu; [|by repeat case_match].
  intros [= ->]. unfold authoritative_username in Hu. apply bind_Some in Hu as (s & Hs & Hc).
  destruct (is_canonical_username s) eqn:E; [|done]. injection Hc as ->.
  by apply str_strip_suffix_Some in Hs.
Qed.

Lemma entry_class_artifact name node :
  entry_class name node = NcTemporary ∨ entry_class name node = NcStaged → artifact_tail name.
Proof.
  unfold entry_class, classify_mode1_namespace_entry, is_artifact.
  destruct markers as (Htm & Hst & _ & _).
  destruct (utf8_valid name); [|by intros []]. destruct (namespace_file_type _); try by intros [].
  destruct (_ =? 1); [|by intros []]. cbn [negb].
  destruct (authoritative_username name); [by intros []|].
  case_bool_decide as Ht; [destruct Ht as [u Hu]; intros _; exact (parsed_artifact_tail _ _ _ Htm Hu)|].
  case_bool_decide as Hs; [destruct Hs as [u Hu]; intros _; exact (parsed_artifact_tail _ _ _ Hst Hu)|].
  destruct (_ || _); [by intros []|]. by destruct (bool_decide _); intros [].
Qed.

Section scan.
  Context `{AesGcmLaws} {S : Type} `{RandomSource S}.
  Context {os : DiskOs} `{!DiskOsLaws os} (cfg : Mode1Settings).
  Implicit Types (fs : files) (u v : CanonicalUsername) (node : FileNode) (name : bytes).

Abbreviation R := (Mode1State S).
Abbreviation reads := (Disk.reads (R:=R)).
Abbreviation wp := (Disk.wp (R:=R)).

(** A staged replacement that was never exchanged: the record in force is its predecessor. *)
Definition pre_exchange fs name : Prop :=
  ∃ u staged active hs ha, fs !! name = Some staged ∧ fs !! filename u = Some active ∧
    header_of cfg staged u hs ∧ header_of cfg active u ha ∧
    h_record_generation hs = h_record_generation ha + 1.

(** What a status says of the user's file. *)
Definition status_sound fs (s : OuterRecordStatus) : Prop :=
  fs !! filename (os_username s) ≠ None ∧
  match os_classification s with
  | OuterCandidate g => ∃ node h, fs !! filename (os_username s) = Some node ∧
      header_of cfg node (os_username s) h ∧ g = h_record_generation h
  | _ => True
  end.

(** An entry that does not stand in the way of using the directory. *)
Definition settled fs (statuses : list OuterRecordStatus) name : Prop :=
  ∃ node, fs !! name = Some node ∧
  match entry_class name node with
  | NcAuthoritative user =>
      username_wf (mkUsername user) ∧ ∃ k, mkRecordStatus (mkUsername user) k ∈ statuses
  | NcTemporary => True
  | NcStaged => pre_exchange fs name
  | _ => False
  end.

(** An entry of a transaction that was begun. *)
Definition unfinished fs name : Prop :=
  ∃ node, fs !! name = Some node ∧ entry_class name node ∈ [NcStaged; NcClear; NcRollback].

(** From [fs], at most the entry [name] is gone, and no record. *)
Definition drops name fs fs' : Prop :=
  apart fs fs' ∧ ∀ other, other ≠ name → fs' !! other = fs !! other.

Lemma drops_refl name fs : drops name fs fs.
Proof. done. Qed.

Lemma cleanup_stale_temp_wp {E} name fs (Q : files → option (result E bool) → Prop) :
  artifact_tail name → (∀ fs' b, drops name fs fs' → Q fs' (Some (Ok b)) ∧ Q fs' None) →
  wp (cleanup_stale_temp os cfg name) Q fs.
Proof.
  intros Ha HQ. assert (∀ b, Q fs (Some (Ok b))) as Hret by (intros; by apply HQ).
  assert (Q fs None) as Hstop by (by apply (HQ fs true)).
  unfold cleanup_stale_temp. case_bool_decide; [by apply (wp_ret (Ok false))|].
  assert (∀ b, wp (dret b) Q fs) as Hdone by (intros; by apply (wp_ret (Ok _))).
  apply wp_case. eapply (reads_wp _ _ (λ _, True)); [by apply reads_sys_open|done|].
  intros [file|k] _; [|done]. apply wp_case. eapply (reads_wp _ _ (λ _, True)); [by apply reads_syscall|done|].
  intros [s|k] _; [|done]. destruct (negb _); [done|].
  apply wp_case, wp_syscall; cbn [fst snd]; [|done|by intros].
  destruct (fs !! name); cbn [fst snd]; [|done]. apply (wp_ret (Ok true)), HQ.
  split; [by apply delete_apart|]. intros other Hne. by rewrite lookup_delete_ne.
Qed.

Lemma pre_exchange_reads {E} fs name u (Q : result E bool → Prop) :
  Q (Ok false) → (pre_exchange fs name → Q (Ok true)) →
  reads fs (staged_write_is_pre_exchange os cfg name u) Q.
Proof.
  intros Hf Ht. assert (reads fs (dret false) Q) as Hno by (by apply (reads_lift fs (Ok false))).
  unfold staged_write_is_pre_exchange. case_bool_decide; [done|].
  eapply reads_case; [by apply inspect_named_reads| |done].
  intros [staged|] Hs; [|done]. destruct Hs as (sn & Hsn & Hsi).
  eapply reads_case; [by apply inspect_record_reads| |done].
  intros active Hact. apply (reads_lift fs (Ok _)). destruct active as [active|]; [|done].
  destruct Hact as (an & Han & Hai). destruct (checked_add _ 1) as [g|] eqn:Hg; [|done].
  apply checked_add_Some in Hg as [-> _].
  destruct (Z.eqb_spec (h_record_generation (in_header active) + 1) (h_record_generation (in_header staged)))
    as [E'|]; [|done]. apply Ht.
  destruct Hsi as (_ & _ & _ & _ & _ & Hsh), Hai as (_ & _ & _ & _ & _ & Hah).
  by exists u, sn, an, (in_header staged), (in_header active).
Qed.

Lemma namespace_entry_metadata_reads fs name :
  reads fs (namespace_entry_metadata os name) (λ x, match x with
    | Ok s => ∃ node, fs !! name = Some node ∧ s = fn_stat node | Err _ => True end).
Proof.
  unfold namespace_entry_metadata. case_bool_decide; [by apply (reads_lift fs (Err _))|].
  eapply (reads_bind _ _ _ (λ x, match x with Ok node => fs !! name = Some node | Err _ => True end)); [| |done].
  - eapply (reads_map_err _ _ _ (λ x, match x with Ok node => fs !! name = Some node | Err _ => True end)); [|done|done].
    apply reads_syscall; [done| |done]. simpl. by destruct (fs !! name).
  - intros node Hn. eapply (reads_map_err _ _ _ (λ x, match x with Ok s => s = fn_stat node | Err _ => True end));
      [by apply reads_syscall|intros s ->; by exists node|done].
Qed.

Lemma validate_directory_reads fs (Q : bresult () → Prop) :
  (∀ x, Q x) → reads fs (validate_directory os cfg) Q.
Proof.
  intros HQ. eapply (reads_bind _ _ _ (λ _, True)); [|intros s _|by intros].
  - eapply (reads_map_err _ _ _ (λ _, True)); [|done|done].
    intros d d' r Hr Hd. by eapply (reads_syscall fs (λ fs, (fs, Ok _))); [..|exact Hr|].
  - destruct (_ || _); apply reads_lift; apply HQ.
Qed.

Lemma classify_record_reads fs u :
  fs !! filename u ≠ None →
  reads fs (classify_record os cfg u) (λ x, match x with
    | Ok (Some k) => status_sound fs (mkRecordStatus u k) | Ok None => False | Err _ => True end).
Proof.
  intros Hn. eapply reads_case; [by apply inspect_record_reads| |].
  - intros [i|] Hi; [|by destruct Hn]. apply (reads_lift fs (Ok _)).
    destruct Hi as (node & Hnode & _ & _ & _ & _ & _ & Hh). split; [done|]. by exists node, (in_header i).
  - intros e _. apply reads_lift. destruct e; try done. simpl. by destruct (_ =? _).
Qed.

(** What one visit does. *)
Definition visited fs (st : ScanState) name fs' (r : option (result Failure ScanState)) : Prop :=
  drops name fs fs' ∧
  match r with
  | Some (Ok st') => settled fs (sc_records st') name ∧
      (sc_records st' = sc_records st ∨ ∃ u k, name = filename u ∧ status_sound fs (mkRecordStatus u k) ∧
         sc_records st' = sc_records st ++ [mkRecordStatus u k])
  | Some (Err (Poisons _ _)) => unfinished fs name
  | _ => True
  end.

Lemma scan_cleanup_wp fs st name node :
  fs !! name = Some node → artifact_tail name → settled fs (sc_records st) name →
  wp (dbind (cleanup_stale_temp os cfg name) (λ cleaned, dret (count_stale st cleaned))) (visited fs st name) fs.
Proof.
  intros Hn Ha Hs. apply wp_bind, cleanup_stale_temp_wp; [done|]. intros fs' b Hd.
  split; [|by split]. apply (wp_ret (Ok _)). split; [done|]. split; [done|by left].
Qed.

Lemma scan_entry_wp fs st name : wp (scan_entry os cfg st name) (visited fs st name) fs.
Proof.
  assert (∀ r, match r with Some (Ok _) | Some (Err (Poisons _ _)) => False | _ => True end →
    visited fs st name fs r) as Hkeep by (intros [[|[]]|]; done).
  unfold scan_entry. apply wp_bind, wp_map_err.
  eapply reads_wp; [apply namespace_entry_metadata_reads|by apply Hkeep|].
  intros [s|e]; cbn [fmap option_fmap option_map map_err]; [intros (node & Hn & ->)|intros _; by apply Hkeep].
  fold (entry_class name node). destruct (entry_class name node) as [user| | | | | | | | |] eqn:Hc;
    try (by apply (wp_ret (Err _)), Hkeep).
  - destruct (entry_class_authoritative _ _ _ Hc) as [Hname Hwf].
    assert (CanonicalUsername_new user = Ok (mkUsername user)) as -> by by apply CanonicalUsername_new_Ok.
    apply wp_bind, (wp_ret (Ok _)). cbn beta iota. apply wp_bind, wp_map_err.
    eapply reads_wp; [apply classify_record_reads; rewrite <- Hname; congruence|by apply Hkeep|].
    intros [[k|]|e]; cbn [fmap option_fmap option_map map_err]; [intros Hk|done|intros _; by apply Hkeep].
    apply wp_bind, wp_map_err. eapply (reads_wp _ _ (λ _, True)); [by apply reads_alloc|by apply Hkeep|].
    intros [[]|e] _; cbn [fmap option_fmap option_map map_err]; [|by apply Hkeep].
    apply (wp_ret (Ok _)). split; [done|]. split; [|right; by exists (mkUsername user), k].
    exists node. rewrite Hc. split; [done|]. split; [done|]. exists k. simpl. set_solver.
  - eapply scan_cleanup_wp; [done|by eapply entry_class_artifact; left|]. exists node. by rewrite Hc.
  - assert (unfinished fs name) as Hun by (exists node; split; [done|]; rewrite Hc; set_solver).
    destruct (_ ≫= _) as [u|]; [|by apply (wp_ret (Err _)), Hkeep].
    apply wp_bind. eapply (reads_wp _ _ (λ x, match x with Ok true => pre_exchange fs name | Ok false => True | Err _ => False end));
      [by apply pre_exchange_reads|by apply Hkeep|].
    intros [[]|] Hp; [|by apply (wp_ret (Err _))|done].
    eapply scan_cleanup_wp; [done|by eapply entry_class_artifact; right|]. exists node. by rewrite Hc.
  - apply (wp_ret (Err _)). split; [done|]. exists node. split; [done|]. rewrite Hc. set_solver.
  - apply (wp_ret (Err _)). split; [done|]. exists node. split; [done|]. rewrite Hc. set_solver.
Qed.

(** ** The whole directory *)

(** Where the files a visit looks at agree. *)
Lemma settled_agree fs0 fs sts name :
  apart fs0 fs → fs !! name = fs0 !! name → settled fs sts name → settled fs0 sts name.
Proof.
  intros Ha Hn (node & Hnode & Hs). exists node. split; [congruence|].
  destruct (entry_class name node); try done.
  destruct Hs as (u & sn & an & hs & ha & Hsn & Han & Hh). exists u, sn, an, hs, ha.
  rewrite <- Ha, <- Hn. done.
Qed.
Lemma status_sound_apart fs0 fs s : apart fs0 fs → status_sound fs s → status_sound fs0 s.
Proof. intros Ha. unfold status_sound. by rewrite Ha. Qed.
Lemma settled_more fs sts sts' name : sts ⊆ sts' → settled fs sts name → settled fs sts' name.
Proof.
  intros Hsub (node & Hn & Hs). exists node. split; [done|]. destruct (entry_class name node); try done.
  destruct Hs as [? [k Hk]]. split; [done|]. exists k. by apply Hsub.
Qed.

Abbreviation record_names st := ((λ s, filename (os_username s)) <$> sc_records st).

Definition scanned fs names (st : ScanState) fs' (r : option (result Failure ScanState)) : Prop :=
  apart fs fs' ∧
  match r with
  | Some (Ok st') => Forall (settled fs (sc_records st')) names ∧ NoDup (record_names st') ∧
      Forall (status_sound fs) (sc_records st') ∧ sc_records st ⊆ sc_records st'
  | Some (Err (Poisons _ _)) => Exists (unfinished fs) names
  | _ => True
  end.

Lemma visit_names_wp fs0 names count st fs :
  NoDup (record_names st ++ names) → apart fs0 fs →
  Forall (λ name, fs !! name = fs0 !! name) names → Forall (status_sound fs0) (sc_records st) →
  wp (visit_names os cfg names count st) (scanned fs0 names st) fs.
Proof.
  revert count st fs. induction names as [|name names IH]; intros count st fs Hnd Hap Heq Hsound;
    cbn [visit_names]; apply wp_bind, wp_map_err, wp_syscall; cbn [fst snd fmap option_fmap option_map map_err];
    try (by split); try (by intros; split).
  { apply (wp_ret (Ok st)). split; [done|]. rewrite app_nil_r in Hnd. by split_and!. }
  apply Forall_cons in Heq as [Hname Heq].
  apply wp_bind, wp_ret. destruct (checked_add count 1) as [n|]; cbn [ok_or]; [|by split].
  destruct (_ <? n); [by apply (wp_ret (Err _)); split|]. apply wp_bind.
  eapply wp_mono; [apply scan_entry_wp|]. intros fs1 r [[Hap1 Hoth] Hr].
  assert (apart fs0 fs1) as Hap01 by by eapply apart_trans.
  destruct r as [[st1|[e|reason e]]|]; [|by split| |by split].
  2:{ split; [done|]. left. destruct Hr as (node & Hn & Hc). exists node. split; [congruence|done]. }
  destruct Hr as [Hset Hrec]. apply NoDup_app in Hnd as (Hnd1 & Hdis & Hnd2).
  apply NoDup_cons in Hnd2 as [Hnin Hnd2].
  assert (NoDup (record_names st1 ++ names) ∧ Forall (status_sound fs0) (sc_records st1) ∧
    sc_records st ⊆ sc_records st1) as (Hnd' & Hsound' & Hsub).
  { destruct Hrec as [->|(u & k & -> & Hk & ->)].
    - split_and!; [|done|done]. apply NoDup_app. split_and!; [done| |done]. intros x Hx Hin. apply (Hdis x Hx). by right.
    - split_and!; [| |set_solver].
      + rewrite fmap_app, <- app_assoc. apply NoDup_app. split_and!; [done|done|]. by apply NoDup_cons.
      + apply Forall_app. split; [done|]. apply Forall_singleton. exact (status_sound_apart _ _ _ Hap Hk). }
  eapply wp_mono; [apply IH; [done|done| |done]|].
  { rewrite Forall_forall in Heq |- *. intros x Hx. rewrite Hoth by (intros ->; done). by apply Heq. }
  intros fs2 r2 [Hap2 Hr2]. split; [done|]. destruct r2 as [[st2|[]]|]; [|done|by right|done].
  destruct Hr2 as (Hall & Hnd2' & Hs2 & Hsub2). split_and!; [|done|done|set_solver].
  constructor; [|done]. eapply settled_more; [exact Hsub2|]. exact (settled_agree _ _ _ _ Hap Hname Hset).
Qed.

(** A directory the scan accepts, and what it reports of it: every user with a record file
    once, in order, a candidate by the header of that file; and every entry is settled. *)
Definition scan_report fs (statuses : list OuterRecordStatus) : Prop :=
  StronglySorted status_le statuses ∧ NoDup (os_username <$> statuses) ∧
  (∀ u, username_wf u → u ∈ os_username <$> statuses ↔ fs !! filename u ≠ None) ∧
  Forall (status_sound fs) statuses ∧ ∀ name, fs !! name ≠ None → settled fs statuses name.

Definition scan_outcome fs fs' (r : option (result Failure (list OuterRecordStatus))) : Prop :=
  apart fs fs' ∧
  match r with
  | Some (Ok statuses) => scan_report fs statuses
  | Some (Err (Poisons _ _)) => ∃ name, unfinished fs name
  | _ => True
  end.

Lemma scan_report_of fs names st :
  names ≡ₚ elements (dom fs) → Forall (settled fs (sc_records st)) names → NoDup (record_names st) →
  Forall (status_sound fs) (sc_records st) → scan_report fs (merge_sort status_le (sc_records st)).
Proof.
  intros Hnames Hset Hnd Hsound.
  pose proof (merge_sort_Permutation status_le (sc_records st)) as Hperm.
  assert (∀ name, fs !! name ≠ None → settled fs (sc_records st) name) as Hall.
  { intros name [n Hn]%not_eq_None_Some. rewrite Forall_forall in Hset. apply Hset.
    rewrite Hnames, elem_of_elements, elem_of_dom. by exists n. }
  split_and!.
  - apply StronglySorted_merge_sort; apply _.
  - rewrite Hperm. eapply (NoDup_fmap_1 filename). by rewrite <- list_fmap_compose.
  - intros u Hu. rewrite Hperm. split.
    + intros (s & -> & Hs)%list_elem_of_fmap. rewrite Forall_forall in Hsound. by apply Hsound.
    + intros Hn. destruct (Hall _ Hn) as (node & Hnode & Hs).
      destruct (entry_class (filename u) node) as [user| | | | | | | | |] eqn:Hc; try done.
      * destruct (entry_class_authoritative _ _ _ Hc) as [->%mode1_filename_inj _].
        destruct Hs as (_ & k & Hk). apply list_elem_of_fmap. by exists (mkRecordStatus (mkUsername user) k).
      * by edestruct artifact_not_record; [eapply entry_class_artifact; left|].
      * by edestruct artifact_not_record; [eapply entry_class_artifact; right|].
  - by rewrite Hperm.
  - intros name Hn. eapply settled_more; [|by apply Hall]. intros x. by rewrite Hperm.
Qed.

Lemma scan_outer_headers_wp fs : wp (scan_outer_headers os cfg) (scan_outcome fs) fs.
Proof.
  unfold scan_outer_headers. apply wp_bind, wp_map_err.
  eapply (reads_wp _ _ (λ _, True)); [by apply validate_directory_reads|by split|].
  intros [[]|e] _; cbn [fmap option_fmap option_map map_err]; [|by split].
  apply wp_bind. unfold for_each_directory_name. apply wp_bind, wp_map_err.
  eapply (reads_wp _ _ (λ x, match x with Ok names => names ≡ₚ elements (dom fs) | Err _ => True end));
    [by apply reads_sys_read_dir|by split|].
  intros [names|e] Hnames; cbn [fmap option_fmap option_map map_err]; [|by split].
  eapply wp_mono; [apply (visit_names_wp fs names)|]; simpl.
  { rewrite Hnames. apply NoDup_elements. }
  { done. } { by apply Forall_forall. } { done. }
  intros fs' [[st|[]]|] [Hap Hr]; [|by split| |by split].
  2:{ split; [done|]. apply Exists_exists in Hr as (name & _ & Hun). eauto. }
  destruct Hr as (Hset & Hnd & Hsound & _).
  assert (wp (dret (merge_sort status_le (sc_records st))) (scan_outcome fs) fs') as Hret.
  { apply (wp_ret (Ok _)). split; [done|]. by eapply scan_report_of. }
  apply wp_bind. destruct (negb _); [|by apply (wp_ret (Ok ()))].
  apply wp_case, sync_directory_wp. intros [[[]|e]|]; [by apply (wp_ret (Ok ()))..|by split].
Qed.
End scan.

(** ** Artifact names of transactions *)

(** The marker does not occur before the one that was appended. *)
Definition marker_free (u : CanonicalUsername) (marker : bytes) : Prop :=
  ∀ suffix n, window_position marker (artifact_name (filename u) marker suffix) = Some n →
    n = length (bs "." ++ filename u).

Lemma replace_middle (pre from suffix to : bytes) :
  take (length pre) (pre ++ from ++ suffix) ++ to ++ drop (length pre + length from) (pre ++ from ++ suffix)
  = pre ++ to ++ suffix.
Proof. by rewrite take_app_length, <- length_app, (app_assoc pre from), drop_app_length. Qed.

Lemma replaced_name u from to suffix name' :
  marker_free u from → replace_artifact_marker (artifact_name (filename u) from suffix) from to = Ok name' →
  name' = artifact_name (filename u) to suffix.
Proof.
  intros Hfree Hr. unfold replace_artifact_marker in Hr. apply bind_Ok in Hr as (n & Hn & Hr).
  apply ok_or_Ok, Hfree in Hn as ->. apply bind_Ok in Hr as (c & _ & Hr). case_bool_decide; [done|].
  injection Hr as <-. exact (replace_middle (bs "." ++ filename u) from suffix to).
Qed.

(** A staged artifact of a user is classified as such, for that user. *)
Lemma staged_class u suffix :
  username_wf u → is_nonce suffix →
  let name := artifact_name (filename u) STAGED suffix in
  classify_mode1_namespace_entry name NftRegular 1 = NcStaged ∧
  classified_mode1_transaction_username name NcStaged = Some (user_bytes u).
Proof.
  intros Hu Hs name.
  assert (parse_mode1_transaction_artifact name STAGED = Some (user_bytes u)) as Hp.
  { apply parse_artifact_Some. split; [done|]. exists suffix. split; [done|]. unfold name, artifact_name, filename.
    by rewrite <- !app_assoc. }
  split; [|done]. unfold classify_mode1_namespace_entry, is_artifact.
  assert (utf8_valid name = true) as ->.
  { unfold name, artifact_name, filename. apply utf8_valid_ascii. rewrite !forallb_app. unfold username_wf, is_canonical_username in Hu.
    destruct Hs as [_ Hs]. apply andb_true_iff in Hu as [_ Hall].
    rewrite (forallb_impl is_name_byte _ (user_bytes u) is_name_byte_ascii Hall).
    rewrite (forallb_impl is_lower_hex_byte _ suffix) by (try done; intros []; done). done. }
  cbn [negb]. rewrite Z.eqb_refl. cbn [negb].
  destruct (authoritative_username name) as [v|] eqn:Hau.
  { unfold authoritative_username in Hau. apply bind_Some in Hau as (stem & Hstem & _).
    apply str_strip_suffix_Some in Hstem.
    destruct (artifact_not_record name (mkUsername stem)); [|done]. destruct markers as (_ & Hst & _).
    by eapply parsed_artifact_tail. }
  rewrite bool_decide_eq_false_2, Hp; [done|]. intros [v Hv].
  apply parse_artifact_Some in Hv as (_ & nonce & [Hn _] & Hname). destruct Hs as [Hls _].
  unfold name, artifact_name in Hname. rewrite !app_assoc in Hname.
  apply app_inj_2 in Hname as [Hname _]; [|unfold len in *; lia].
  apply (f_equal reverse) in Hname. rewrite !reverse_app in Hname. discriminate Hname.
Qed.

