(* ===== verification/Mode1Health.v ===== *)
(** * The mode-1 backend's availability

    No operation on the directory changes whether the backend is available: only a poisoning
    does, and for good. *)

From S2P Require Import Prelude Bytes Storage Crypto Codec Contracts Budget Cache CacheLru CacheProofs CacheSystem Handlers Disk Backend CacheModels BackendOps Fingerprint Mode1 Mode1Store.

Create HintDb steady.

Section steady.
  Context `{AesGcm} {S : Type} `{RandomSource S}.
  Context {os : DiskOs} (cfg : Mode1Settings).

Abbreviation R := (Mode1State S).

(** ** On the directory *)

Definition steady {E A} (m : dop (R:=R) E A) : Prop :=
  ∀ d d' r, m d = (d', r) → ms_availability (d_local d') = ms_availability (d_local d).

Lemma steady_lift {E A} (x : result E A) : steady (dlift x).
Proof. by intros d d' r [= <- _]. Qed.
Lemma steady_ret {E A} (a : A) : steady (dret (E:=E) a).
Proof. apply (steady_lift (Ok a)). Qed.
Lemma steady_fail {E A} (e : E) : steady (dfail (A:=A) e).
Proof. apply (steady_lift (Err e)). Qed.
Lemma steady_case {E F A B} (m : dop E A) (f : A → dop F B) (g : E → dop F B) :
  steady m → (∀ a, steady (f a)) → (∀ e, steady (g e)) → steady (dcase m f g).
Proof.
  intros Hm Hf Hg d d' r. unfold dcase. destruct (m d) as [d1 r1] eqn:E1. apply Hm in E1.
  destruct r1 as [[a|e]|]; intros Hr; [apply Hf in Hr|apply Hg in Hr|injection Hr as <- _]; congruence.
Qed.
Lemma steady_bind {E A B} (m : dop E A) (f : A → dop E B) :
  steady m → (∀ a, steady (f a)) → steady (dbind m f).
Proof.
  intros Hm Hf d d' r. unfold dbind. destruct (m d) as [d1 r1] eqn:E1. apply Hm in E1.
  destruct r1 as [[a|e]|]; intros Hr; [apply Hf in Hr|injection Hr as <- _..]; congruence.
Qed.
Lemma steady_map_err {E F A} (g : E → F) (m : dop E A) : steady m → steady (dmap_err g m).
Proof. intros Hm. apply steady_case; [done|intros; apply steady_ret|intros; apply steady_fail]. Qed.
Lemma steady_alloc {E A} (f : allocator → result E A) : steady (with_alloc os f).
Proof. by intros d d' r [= <- _]. Qed.

(** A call runs on the files alone. *)
Lemma steady_syscall {A} (run : Disk R → files → files * result Z A) :
  steady (λ d, syscall os (run d) d).
Proof.
  intros d d' r. unfold syscall. destruct (os_fault os _) as [[]|]; [by intros [= <- _]..|].
  destruct (run d _). by intros [= <- _].
Qed.
Lemma steady_sys_write name data : steady (sys_write os name data).
Proof. intros d d' r. unfold sys_write. destruct (os_fault os _); by intros [= <- _]. Qed.
Lemma steady_suffix : steady random_temp_suffix.
Proof. intros d d' r. unfold random_temp_suffix. destruct (fill_bytes _ _). by intros [= <- _]. Qed.
Lemma steady_encrypt record : steady (encrypt_record os cfg record).
Proof. intros d d' r. unfold encrypt_record. destruct (encode_howyenc1 _ _ _ _ _ _ _). by intros [= <- _]. Qed.
Lemma steady_unless_cancelled {A} c (m : dop StorageBackendError A) :
  steady m → steady (unless_cancelled os c m).
Proof.
  intros Hm. destruct c; [done|]. apply steady_bind; [by intros d d' r [= <- _]|].
  intros []; [apply steady_fail|done].
Qed.
End steady.

#[export] Hint Resolve steady_lift steady_ret steady_fail steady_alloc steady_sys_write steady_suffix
  steady_encrypt : steady.

(** Every step is one of the above, or a call. *)
Ltac steady_steps :=
  repeat first
    [ progress intros
    | solve [auto with steady nocore]
    | apply steady_map_err
    | apply steady_unless_cancelled
    | apply steady_bind
    | apply steady_case
    | match goal with
      | |- steady (if ?c then _ else _) => destruct c
      | |- steady (match ?x with _ => _ end) => destruct x
      | |- steady (let _ := _ in _) => cbv zeta
      | |- steady (syscall _ ?run) => apply (steady_syscall (λ _, run))
      | |- steady (?f _) => progress unfold f
      | |- steady (?f _ _) => progress unfold f
      | |- steady (?f _ _ _) => progress unfold f
      | |- steady (?f _ _ _ _) => progress unfold f
      end ].

Section operations.
  Context `{AesGcm} {S : Type} `{RandomSource S}.
  Context {os : DiskOs} (cfg : Mode1Settings).

Abbreviation R := (Mode1State S).
Abbreviation steady := (steady (S:=S)).

Lemma steady_sys_open name : steady (sys_open os name).
Proof. apply (steady_syscall (λ _, _)). Qed.
Lemma steady_sys_fstat node : steady (sys_fstat os node).
Proof. apply (steady_syscall (λ _, _)). Qed.
Lemma steady_sys_read node pos n : steady (sys_read os node pos n).
Proof. apply (steady_syscall (λ d fs, (fs, Ok _))). Qed.
Lemma steady_sys_unlink name : steady (sys_unlink os name).
Proof. apply (steady_syscall (λ _, _)). Qed.
Lemma steady_sys_rename a b : steady (sys_rename os a b).
Proof. apply (steady_syscall (λ d fs, _)). Qed.
Lemma steady_sys_rename_no_replace a b : steady (sys_rename_no_replace os a b).
Proof. apply (steady_syscall (λ d fs, _)). Qed.
Lemma steady_sys_rename_exchange a b : steady (sys_rename_exchange os a b).
Proof. apply (steady_syscall (λ d fs, _)). Qed.
Lemma steady_sync_directory : steady (sync_directory os).
Proof. apply steady_map_err, (steady_syscall (λ _, _)). Qed.
Lemma steady_create_temp name : steady (create_temp os cfg name).
Proof.
  apply steady_bind; [apply (steady_syscall (λ d fs, _))|intros _].
  apply steady_bind; [apply (steady_syscall (λ _, _))|intros _].
  apply steady_bind; [apply (steady_syscall (λ _, _))|intros s]. apply steady_lift.
Qed.
Lemma steady_prepare_temp name data : steady (prepare_temp os name data).
Proof.
  apply steady_bind; [apply steady_map_err, steady_sys_write|intros _].
  apply steady_map_err, (steady_syscall (λ _, _)).
Qed.
End operations.

#[export] Hint Resolve steady_sys_open steady_sys_fstat steady_sys_read steady_sys_unlink
  steady_sys_rename steady_sys_rename_no_replace steady_sys_rename_exchange steady_sync_directory
  steady_create_temp steady_prepare_temp : steady.

Section backend.
  Context `{AesGcm} {S : Type} `{RandomSource S}.
  Context {os : DiskOs} (cfg : Mode1Settings).

Abbreviation R := (Mode1State S).
Abbreviation steady := (steady (S:=S)).

Lemma steady_read_exact node c pos wanted : steady (read_exact_cancellable os node c pos wanted).
Proof.
  unfold read_exact_cancellable. generalize (wanted + os_interruptions os)%nat, (@nil Byte.byte).
  intros fuel. induction fuel as [|fuel IH]; intros acc; cbn [read_exact_loop];
    (destruct (_ <=? _)%nat; [apply steady_ret|]); [by intros d d' r [= <- _]|].
  apply steady_unless_cancelled, steady_case; [apply steady_sys_read| |].
  - intros chunk. case_bool_decide; [apply steady_fail|apply IH].
  - intros kind. destruct (_ =? _); [apply IH|apply steady_fail].
Qed.
#[local] Hint Resolve steady_read_exact : steady.

Lemma steady_inspect_file node u c : steady (inspect_file os cfg node u c).
Proof. unfold inspect_file, validate_record_file, reserve_exact. steady_steps. Qed.
#[local] Hint Resolve steady_inspect_file : steady.
Lemma steady_inspect_record u c : steady (inspect_record_cancellable os cfg u c).
Proof. unfold inspect_record_cancellable, inspect_named_record_cancellable. steady_steps. Qed.

Lemma steady_decrypt_file i u c : steady (decrypt_file os cfg i u c).
Proof. unfold decrypt_file, read_complete_record, reserve_exact. steady_steps. Qed.

Lemma steady_cleanup {E} name : steady (cleanup_non_authoritative_temp (E:=E) os name).
Proof. unfold cleanup_non_authoritative_temp. steady_steps. Qed.
#[local] Hint Resolve steady_cleanup : steady.
Lemma steady_commit temporary destination existed :
  steady (commit_temporary os temporary destination existed).
Proof.
  unfold commit_temporary, stage_temporary, rollback_temporary, or_unit. steady_steps.
Qed.
#[local] Hint Resolve steady_commit : steady.

Lemma steady_write_record record : steady (write_record os cfg record).
Proof.
  assert (∀ n destination existed b, steady (write_attempts os cfg n destination existed b)) as Hn
    by (intros n; induction n as [|n IH]; intros; cbn [write_attempts]; steady_steps).
  unfold write_record, record_exists, validate_record_file. steady_steps.
Qed.
Lemma steady_clear_record u : steady (clear_record os u).
Proof.
  unfold clear_record. induction TEMP_CREATE_ATTEMPTS as [|n IH]; cbn [clear_attempts];
    unfold bury_record, undo_clear, rollback_clear, or_unit; steady_steps.
Qed.
Lemma steady_validate_directory : steady (validate_directory os cfg).
Proof.
  apply steady_bind; [apply steady_map_err, (steady_syscall (λ d fs, (fs, Ok _)))|intros s].
  destruct (_ || _); [apply steady_fail|apply steady_ret].
Qed.

Lemma steady_scan : steady (scan_outer_headers os cfg).
Proof.
  assert (∀ name, steady (cleanup_stale_temp (E:=Failure) os cfg name)) as Hclean
    by (intros; unfold cleanup_stale_temp; steady_steps).
  assert (∀ name u c, steady (inspect_named_record_cancellable os cfg name u c)) as Hnamed
    by (intros; apply steady_case; [auto with steady|intros; apply steady_bind; [apply steady_inspect_file|]|]; steady_steps).
  assert (∀ u, steady (inspect_record os cfg u)) as Hrec by (intros; apply steady_inspect_record).
  assert (∀ st name, steady (scan_entry os cfg st name)) as Hentry.
  { intros st name. apply steady_bind; [unfold namespace_entry_metadata, sys_open_path; steady_steps|intros s].
    cbv zeta. destruct (classify_mode1_namespace_entry _ _ _) as [user| | | | | | | | |]; try apply steady_fail.
    - apply steady_bind; [apply steady_lift|intros u]. apply steady_bind; [|intros [k|]; [|apply steady_ret]].
      + apply steady_map_err, steady_case; [apply Hrec|intros; apply steady_lift..].
      + apply steady_bind; [apply steady_map_err, steady_alloc|intros; apply steady_ret].
    - apply steady_bind; [apply Hclean|intros; apply steady_ret].
    - case_match; [|apply steady_fail].
      apply steady_bind; [|intros []; [|apply steady_fail]; apply steady_bind; [apply Hclean|intros; apply steady_ret]].
      unfold staged_write_is_pre_exchange. case_bool_decide; [apply steady_ret|].
      apply steady_case; [apply Hnamed| |intros; apply steady_ret]. intros [i|]; [|apply steady_ret].
      apply steady_case; [apply Hrec|intros; apply steady_ret..]. }
  unfold scan_outer_headers. apply steady_bind.
  { apply steady_map_err, steady_validate_directory. }
  intros []. apply steady_bind.
  - apply steady_bind; [apply steady_map_err, (steady_syscall (λ d fs, (fs, Ok _)))|intros names].
    generalize 0, (mkScan [] 0 0 0). induction names as [|name names IH]; intros count st; cbn [visit_names];
      (apply steady_bind; [apply steady_map_err, (steady_syscall (λ _, _))|intros _]); [apply steady_ret|].
    apply steady_bind; [apply steady_lift|intros n]. destruct (_ <? n); [apply steady_fail|].
    apply steady_bind; [apply Hentry|intros st']. apply IH.
  - intros st. apply steady_bind; [destruct (negb _); steady_steps|intros _; apply steady_ret].
Qed.

End backend.

(** ** On the backend *)

Section keeps.
  Context {S : Type}.
  Implicit Types (b : Backend (Mode1State S)).

(** [m] leaves the availability as it is. *)
Definition keeps {A} (m : bop (R:=Mode1State S) A) : Prop :=
  ∀ b b' r, m b = Some (b', r) → availability b' = availability b.

Definition poisoned b : Prop := av_poisoned (availability b) = true.
Definition healthy b : Prop := av_poisoned (availability b) = false.

Lemma keeps_lift {A} (x : bresult A) : keeps (blift x).
Proof. by intros b b' r [= <- _]. Qed.
Lemma keeps_case {A B} (m : bop A) (f : A → bop B) (g : StorageBackendError → bop B) :
  keeps m → (∀ a, keeps (f a)) → (∀ e, keeps (g e)) → keeps (bcase m f g).
Proof.
  intros Hm Hf Hg b b' r. unfold bcase. destruct (m b) as [[b1 r1]|] eqn:E1; [|done]. apply Hm in E1.
  destruct r1 as [[a|e]|]; intros Hr; [apply Hf in Hr|apply Hg in Hr|injection Hr as <- _]; congruence.
Qed.
Lemma keeps_bind {A B} (m : bop A) (f : A → bop B) : keeps m → (∀ a, keeps (f a)) → keeps (bbind m f).
Proof. intros Hm Hf. apply keeps_case; [done|done|]. intros e. apply (keeps_lift (Err e)). Qed.
Lemma keeps_disk {A} (m : dop StorageBackendError A) : steady m → keeps (on_disk m).
Proof.
  intros Hm b b' r. unfold on_disk. destruct (m (b_disk b)) as [d x] eqn:E. intros [= <- _]. by apply Hm in E.
Qed.
Lemma keeps_cache {A} (f : World → CacheState → option (World * CacheState * bresult A)) : keeps (on_cache f).
Proof. intros b b' r Hr. unfold on_cache in Hr. by apply bind_Some in Hr as ([[w c] x] & _ & [= <- _]). Qed.
Lemma keeps_pure {A} (f : Backend (Mode1State S) → option (bresult A)) : keeps (λ b, Some (b, f b)).
Proof. by intros b b' r [= <- _]. Qed.

(** A rule for [m], and that the availability stayed. *)
Lemma bwp_keeps {A} (m : bop A) Q b :
  keeps m → bwp m Q b → bwp m (λ b' r, Q b' r ∧ availability b' = availability b) b.
Proof. intros Hk (b' & r & Hm & HQ). exists b', r. split; [done|]. split; [done|by eapply Hk]. Qed.

(** [self.ensure_available()?] *)
Lemma ensure_case_bwp {A} (f : () → bop A) (g : StorageBackendError → bop A) Q b :
  (healthy b → bwp (f ()) Q b) → (poisoned b → bwp (g Unavailable) Q b) →
  bwp (bcase ensure_available f g) Q b.
Proof.
  intros Hf Hg. apply bwp_case. eexists b, _. split; [done|]. cbn beta iota. unfold availability_check.
  destruct (av_poisoned (availability b)) eqn:E; auto.
Qed.
Lemma ensure_bwp {A} (f : () → bop A) Q b :
  (healthy b → bwp (f ()) Q b) → (poisoned b → Q b (Some (Err Unavailable))) →
  bwp (bbind ensure_available f) Q b.
Proof. intros Hf Hg. apply ensure_case_bwp; [done|]. intros Hp. apply (bwp_ret (Err _)). auto. Qed.
End keeps.
