(* ===== verification/Mode1Calls.v ===== *)
(** * The mode-1 backend's calls

    What each call of [Mode1Store] does to the records of the directory, to the cache and to
    the availability of the backend, from a state where every cached model is that of the
    stored record. *)

From stdpp Require Import sorting.
From S2P Require Import Prelude Bytes Storage Crypto Codec CodecReader CodecPayload CodecPlain CodecEncrypted Legacy Contracts Budget Cache CacheLru CacheProofs CacheSystem PromptState Handlers Disk Backend CacheModels BackendOps BackendCalls Fingerprint Mode1 Mode1Store Mode1Proofs Mode1Write Mode1Scan Mode1Health.

(** ** Estimates *)

Lemma from_payload_shape_nonneg payload count e :
  0 ≤ count → from_payload_shape payload count = Ok e →
  0 ≤ cold_load_peak_bytes e ∧ 0 ≤ mutation_peak_bytes e ∧ 0 ≤ decoded_record_bytes e.
Proof.
  unfold from_payload_shape, auth_model_allocation_bytes, checked_add, checked_mul, checked_sub. intros Hc He.
  inv_ok. subst e. simpl. unfold GCM_TAG_BYTES in *. unfold_sizes.
  repeat match goal with E : (if _ then _ else _) = Some _ |- _ => case_match; simplify_eq end. breflect. lia.
Qed.

Lemma header_estimate_nonneg h e :
  0 ≤ h_entry_count h → for_encrypted_header h = Ok e →
  0 ≤ cold_load_peak_bytes e ∧ 0 ≤ mutation_peak_bytes e ∧ 0 ≤ decoded_record_bytes e.
Proof. apply from_payload_shape_nonneg. Qed.

Lemma with_source_nonneg e n e' :
  0 ≤ mutation_peak_bytes e → 0 ≤ n → with_source e n = Ok e' → 0 ≤ mutation_peak_bytes e'.
Proof.
  intros He Hn. unfold with_source, checked_add. intros Hr. inv_ok. subst e'. simpl.
  case_match; simplify_eq. lia.
Qed.

Lemma replacement_estimate_nonneg h e :
  0 ≤ h_entry_count h → for_replacement_of_encrypted_header h = Ok e → 0 ≤ mutation_peak_bytes e.
Proof.
  intros Hh Hr. apply bind_Ok in Hr as (e0 & He0 & Hr).
  apply header_estimate_nonneg in He0 as (_ & ? & ?); [|done]. eapply with_source_nonneg; [..|exact Hr]; done.
Qed.

Lemma append_shape_nonneg current n labels e :
  (∀ h, current = Some h → 0 ≤ h_entry_count h) → 0 ≤ n →
  for_append_shape current n labels = Ok e → 0 ≤ mutation_peak_bytes e.
Proof.
  intros Hcur Hn. unfold for_append_shape. destruct (_ || _); [done|].
  intros Hr. apply bind_Ok in Hr as (m & _ & Hr). destruct (_ <? _); [done|].
  apply bind_Ok in Hr as (count & Hcount & Hr). destruct (_ <? _); [done|].
  apply bind_Ok in Hr as (payload & _ & Hr). apply bind_Ok in Hr as (e0 & He0 & Hr).
  assert (0 ≤ count) as Hc.
  { apply ok_or_Ok in Hcount. apply checked_add_Some in Hcount as [-> _].
    destruct current as [h|]; simpl; [|lia]. specialize (Hcur h eq_refl). lia. }
  unfold for_payload_shape in He0. apply bind_Ok in He0 as (c & Hc' & He0).
  apply ok_or_Ok, try_from_u_Some in Hc' as [-> _].
  apply from_payload_shape_nonneg in He0 as (_ & ? & _); [|done]. destruct current as [h|].
  - apply bind_Ok in Hr as (s & Hs & Hr). apply header_estimate_nonneg in Hs as (_ & _ & ?); [|by apply Hcur].
    eapply with_source_nonneg; [..|exact Hr]; done.
  - by injection Hr as <-.
Qed.

Section calls.
  Context `{AesGcmLaws} {S : Type} `{RandomSourceLaws S}.
  Context {os : DiskOs} `{!DiskOsLaws os} (cfg : Mode1Settings) (Hcfg : mode1_ok cfg).
  Implicit Types (b : Backend (Mode1State S)) (h : owners) (k : Z) (u v : CanonicalUsername).
  Implicit Types (fs : files).

Abbreviation R := (Mode1State S).
Abbreviation w_ b := (b_world b).
Abbreviation c_ b := (b_cache b).
Abbreviation fs_ b := (d_files (b_disk b)).
Abbreviation binv := (binv (limits:=mb_cache_limits cfg)).
Abbreviation grows := (grows (limits:=mb_cache_limits cfg)).
Abbreviation quiet := (quiet (R:=R)).
Abbreviation moves := (moves (limits:=mb_cache_limits cfg)).
Abbreviation effect := (effect (limits:=mb_cache_limits cfg)).
Abbreviation query := (query (limits:=mb_cache_limits cfg)).
Abbreviation auth_outcome := (auth_outcome (limits:=mb_cache_limits cfg)).
Abbreviation active_outcome := (active_outcome (limits:=mb_cache_limits cfg)).
Abbreviation scope_end := (scope_end (limits:=mb_cache_limits cfg)).

(** ** Records *)

Lemma mode1_stored_wf fs u record :
  stored cfg fs u record →
  record_wf record ∧ username record = u ∧ recognizer_model_sha256 record = mb_model cfg.
Proof.
  intros (node & _ & _ & Hd).
  by apply decode_howyenc1_Ok in Hd as (nonce & c & _ & _ & ? & _ & ? & ? & _).
Qed.

Lemma stored_view fs fs' u record :
  file_view <$> fs' !! filename u = file_view <$> fs !! filename u →
  stored cfg fs u record → stored cfg fs' u record.
Proof.
  intros E (node & Hn & Hok & Hd). rewrite Hn in E. destruct (fs' !! filename u) as [node'|] eqn:Hn'; [|done].
  injection E as Hk Hu Hm Hl Hdata. exists node'. split; [done|].
  unfold record_metadata_ok in *. rewrite Hk, Hu, Hm, Hl, Hdata. done.
Qed.

(** The model of the record stored for a user. *)
Definition stored_model fs u (m : AuthModel) : Prop :=
  ∃ record, stored cfg fs u record ∧ record_auth_model record = Ok m.

Lemma stored_model_view fs fs' u m :
  file_view <$> fs' !! filename u = file_view <$> fs !! filename u →
  stored_model fs u m → stored_model fs' u m.
Proof. intros E (record & Hs & Hm). exists record. split; [by eapply stored_view|done]. Qed.

#[local] Instance mode1_records : RecordStore :=
  {| record_view := option (FileKind * Z * Z * Z * bytes);
     record_state fs u := file_view <$> fs !! filename u;
     model_stored := stored_model; model_stored_state := stored_model_view |}.

Lemma stored_model_nonneg fs u m : stored_model fs u m → 0 ≤ am_plaintext_bytes m.
Proof.
  intros (record & Hs & Hm). apply mode1_stored_wf in Hs as [Hwf _]. unfold record_auth_model in Hm.
  case_bool_decide; [done|]. by eapply record_model_nonneg.
Qed.

(** The user's record, or that there is none. *)
Definition current fs u (loaded : option EnrollmentRecord) : Prop :=
  match loaded with Some record => stored cfg fs u record | None => fs !! filename u = None end.

Lemma mode1_new_record_wf gen u es record :
  1 ≤ gen ≤ U64_MAX → username_wf u → Forall entry_wf es →
  map_err map_mutation_record_error (from_boxed_entries gen (mb_model cfg) u es) = Ok record →
  record = mkRecord gen (mb_model cfg) u es ∧ record_wf record.
Proof.
  intros Hg Hu Hes. destruct (from_boxed_entries _ _ _ _) as [r|e] eqn:Hr; [|done].
  intros [= <-]. apply EnrollmentRecord_new_Ok in Hr as (-> & _ & Hlen & Hnd).
  split; [done|]. unfold record_wf; simpl. pose proof (mo_model _ Hcfg). done.
Qed.

Lemma next_generation_range record gen :
  record_wf record → map_err map_storage_error (checked_next_generation (generation record)) = Ok gen →
  1 ≤ gen ≤ U64_MAX.
Proof.
  intros (Hg & _). unfold checked_next_generation, checked_add. case_match; [|done].
  intros [= <-]. breflect. lia.
Qed.

Lemma appended_record_spec fs request loaded record :
  append_request_ok request → current fs (ap_username request) loaded →
  appended_record cfg request loaded = Ok record →
  record_wf record ∧ username record = ap_username request ∧
  recognizer_model_sha256 record = mb_model cfg ∧ entries record ≠ [] ∧
  from_option generation ABSENT_GENERATION loaded = ap_expected_generation request ∧
  entries record = from_option entries [] loaded ++ ap_entries request.
Proof.
  intros (Hu & Hne & Hes) Hc. unfold appended_record.
  destruct (Z.eqb_spec (from_option generation ABSENT_GENERATION loaded) (ap_expected_generation request));
    [|done]. cbn [negb]. intros Hr. apply bind_Ok in Hr as (total & _ & Hr). destruct (_ <? _); [done|].
  apply bind_Ok in Hr as (gen & Hgen & Hr).
  apply mode1_new_record_wf in Hr as [-> Hwf]; [|..|done|].
  - split_and!; [done..| |done|done]. simpl. intros [_ ?]%app_nil. done.
  - destruct loaded as [record0|]; [|injection Hgen as <-; unfold_max; lia].
    apply mode1_stored_wf in Hc as [Hwf _]. by eapply next_generation_range.
  - apply Forall_app. split; [|done]. destruct loaded as [record0|]; simpl; [|done].
    by apply mode1_stored_wf in Hc as [(_ & _ & _ & _ & _ & ?) _].
Qed.

Lemma shortened_record_spec fs request loaded record :
  username_wf (rm_username request) → stored cfg fs (rm_username request) loaded →
  shortened_record cfg request loaded = Ok record →
  record_wf record ∧ username record = rm_username request ∧
  recognizer_model_sha256 record = mb_model cfg ∧
  generation loaded = rm_expected_generation request ∧
  ∃ before e after, entries loaded = before ++ e :: after ∧
    enrollment_id e = rm_enrollment_id request ∧ entries record = before ++ after ∧
    rm_enrollment_id request ∉ entry_ids (entries record).
Proof.
  intros Hu Hs. pose proof Hs as [Hwf0 _]%mode1_stored_wf. unfold shortened_record.
  destruct (Z.eqb_spec (generation loaded) (rm_expected_generation request)); [|done]. cbn [negb].
  intros Hr. apply bind_Ok in Hr as (i & Hi & Hr). apply ok_or_Ok in Hi.
  apply bind_Ok in Hr as (gen & Hgen & Hr). pose proof Hwf0 as (_ & _ & _ & _ & Hnd & Hes).
  apply mode1_new_record_wf in Hr as [-> Hwf]; [|by eapply next_generation_range|done|].
  - split_and!; [done..|]. by apply position_removed.
  - apply Forall_app. split; [by apply Forall_take|by apply Forall_drop].
Qed.

(** ** Loading *)

Lemma header_entries node u hd : header_of cfg node u hd → 0 ≤ h_entry_count hd.
Proof. intros (Hi & _). apply inspect_enc1_Ok in Hi as (_ & _ & (_ & _ & ? & _) & _). lia. Qed.

Lemma inspection_entries fs name u i :
  inspected cfg fs name u (Ok (Some i)) → 0 ≤ h_entry_count (in_header i).
Proof. intros (node & _ & _ & _ & _ & _ & _ & Hh). by eapply header_entries. Qed.

Lemma quiet_pure {A} fs (f : Backend R → bresult A) (P : bresult A → Prop) :
  (∀ b, P (f b)) → quiet fs (λ b, Some (b, Some (f b))) P.
Proof.
  intros HP b Hfs. exists (b_disk b), (Some (f b)). split_and!; [by destruct b|done|]. by intros x [= <-].
Qed.

Lemma inspect_quiet fs u c :
  quiet fs (on_disk (inspect_record_cancellable os cfg u c)) (inspected cfg fs (filename u) u).
Proof. apply quiet_disk. by apply inspect_record_cancellable_reads. Qed.

(** A quiet computation that keeps the availability, from a moved state. *)
Lemma quiet_bwp {A} n0 b0 b h h' k (m : bop A) P (Q : Backend R → option (bresult A) → Prop) :
  quiet (fs_ b0) m P → keeps m → moves n0 b0 h b h' k → fs_ b = fs_ b0 →
  (∀ d x, d_files d = fs_ b0 → moves n0 b0 h (mkBackend d (w_ b) (c_ b)) h' k →
     ms_availability (d_local d) = availability b → P x → Q (mkBackend d (w_ b) (c_ b)) (Some x)) →
  (∀ d, d_files d = fs_ b0 → Q (mkBackend d (w_ b) (c_ b)) None) →
  bwp m Q b.
Proof.
  intros Hq Hk Hm Hfs HQ Hstop. destruct (Hq b Hfs) as (d & r & Hr & Hd & HP).
  pose proof (Hk _ _ _ Hr) as Hav. eexists _, _. split; [done|].
  destruct r as [x|]; [|by apply Hstop].
  apply HQ; [done|apply moves_quiet; [done|congruence]|done|by apply HP].
Qed.

Lemma decrypt_inspected_bwp n0 b0 b h k u i c id n Q :
  inspected cfg (fs_ b0) (filename u) u (Ok (Some i)) →
  moves n0 b0 h b h k → fs_ b = fs_ b0 → permit_held b id n →
  (∀ d record, d_files d = fs_ b0 → moves n0 b0 h (mkBackend d (w_ b) (c_ b)) h k →
     ms_availability (d_local d) = availability b → stored cfg (fs_ b0) u record →
     Q (mkBackend d (w_ b) (c_ b)) (Some (Ok (record, id)))) →
  (∀ b' e, moves (n0 + 1) b0 h b' h k → fs_ b' = fs_ b0 → Q b' (Some (Err e))) →
  (∀ b', fs_ b' = fs_ b0 → Q b' None) →
  bwp (decrypt_inspected os cfg i u id c) Q b.
Proof.
  intros (node & Hnode & Hi) Hm Hfs Hp HQ Herr Hstop. eapply unless_consumed_bwp.
  eapply (quiet_bwp n0 b0 _ _ _ _ _ (λ x, match x with
    | Ok (record, id') => id' = id ∧ stored cfg (fs_ b0) u record | Err _ => True end)); [| |done|done|..].
  - eapply (quiet_bind _ _ _ (λ _, True)); [by apply quiet_lift|intros e _|done].
    eapply (quiet_bind _ _ _ (λ _, True)); [by apply quiet_pure|intros [] _|done];
      [|by apply (quiet_lift _ (Err _))].
    eapply quiet_bind; [apply quiet_disk; by eapply decrypt_file_reads| |done].
    intros record Hr. apply (quiet_lift _ (Ok _)). split; [done|]. exists node.
    by destruct Hi as (_ & Hmeta & _).
  - apply keeps_bind; [apply keeps_lift|intros e]. apply keeps_bind; [by apply keeps_pure|intros []];
      [|apply (keeps_lift (Err _))].
    apply keeps_bind; [apply keeps_disk, steady_decrypt_file|intros r; apply (keeps_lift (Ok _))].
  - intros d [[record id']|e] Hd Hm' Hav Hx.
    + destruct Hx as [-> Hs]. by apply HQ.
    + eapply scope_end_moves; [done|exact Hp|]. intros b' Hm2 Hfs2. apply Herr; [done|by rewrite Hfs2].
  - intros d Hd. by apply Hstop.
Qed.

(** ** Changing the directory *)

Abbreviation same_record u b b' := (unchanged u (fs_ b) (fs_ b')).

(** What a directory operation on the record of [u] does: the others' are untouched; a failure
    that does not poison leaves this one too, else it may have become what [target] allows. *)
Definition transacts {A : Type} u (target : files → Prop) fs fs' (r : option (result Failure A)) : Prop :=
  same_others (filename u) fs fs' ∧
  match r with
  | Some (Ok _) => target fs'
  | Some (Err (Failed _)) => unchanged u fs fs'
  | Some (Err (Poisons _ _)) | None => unchanged u fs fs' ∨ target fs'
  end.

Lemma others_state u v fs fs' : same_others (filename u) fs fs' → v ≠ u → fs' !! filename v = fs !! filename v.
Proof. intros Ho Hv. apply Ho. by intros ?%mode1_filename_inj. Qed.

Lemma unchanged_records u fs fs' :
  same_others (filename u) fs fs' → unchanged u fs fs' → same_records fs fs'.
Proof.
  intros Ho Hu v. destruct (decide (v = u)) as [->|Hv]; [done|]. simpl. f_equal. by eapply others_state.
Qed.

(** The poisoning of the backend. *)
Lemma poison_bwp {A : Type} reason e n0 b0 b h k d (Q : Backend R → option (bresult A) → Prop) :
  moves n0 b0 h b h k →
  (∀ b' k', moves (n0 + 1) b0 h b' h k' → fs_ b' = d_files d → poisoned b' → c_disabled (c_ b') = true →
     (∀ id n, permit_held b id n → permit_held b' id n) → Q b' (Some (Err e))) →
  bwp (bbind (poison reason) (λ _, bfail e)) Q (mkBackend d (w_ b) (c_ b)).
Proof.
  intros Hm HQ. pose proof Hm as [Hb _ _ _ _ _ _].
  pose proof Hb as (_ & _ & (_ & _ & _ & _ & Hrev & _) & _).
  destruct (drop_all_spec _ (mo_cache _ Hcfg) _ _ _ (Z.min (c_revision (c_ b) + 1) U128_MAX) true Hb)
    as (w' & Hd & Hinv' & Hsh); [lia|].
  assert (cache_poison (w_ b) (c_ b) = Some (w', mkCache ∅ 0 (c_clock (c_ b))
    (Z.min (c_revision (c_ b) + 1) U128_MAX) true)) as Hp by (unfold cache_poison; by rewrite Hd).
  apply bwp_bind. unfold bwp at 1. unfold poison. cbn [b_world b_cache b_disk]. rewrite Hp.
  cbn [mbind option_bind]. eexists _, _. split; [done|]. apply (bwp_ret (Err e)).
  apply cache_poison_evolves in Hp as (k' & Hev & Hk' & Hempty & _); [|unfold U128_MAX in Hrev; lia].
  eapply HQ; [|done|done|done|].
  - eapply (moves_forgotten _ _ _ b); [exact Hm|by eapply evolves_grows| |done|].
    + unfold few. unfold_max. lia.
    + intros v. unfold cached. cbn [b_cache b_world]. by rewrite Hempty.
  - intros id n (p & Hpid & Hn & Ho). destruct (shrinks_external _ _ Hsh id Ho) as [Hp' Ho'].
    exists p. cbn [b_world]. split_and!; [by rewrite Hp'|done|done].
Qed.

(** A directory operation of a call: on success the cache still has the old model. *)
Lemma durable_bwp n0 b0 b h k u target (m : dop Failure ()) (Q : Backend R → option (bresult ()) → Prop) :
  moves n0 b0 h b h k → fs_ b = fs_ b0 → steady m → wp m (transacts u target (fs_ b0)) (fs_ b0) →
  (∀ d, same_others (filename u) (fs_ b0) (d_files d) → target (d_files d) →
     ms_availability (d_local d) = availability b → Q (mkBackend d (w_ b) (c_ b)) (Some (Ok ()))) →
  (∀ d e, moves n0 b0 h (mkBackend d (w_ b) (c_ b)) h k → same_records (fs_ b0) (d_files d) →
     same_others (filename u) (fs_ b0) (d_files d) → Q (mkBackend d (w_ b) (c_ b)) (Some (Err e))) →
  (∀ b' k' e, moves (n0 + 1) b0 h b' h k' → poisoned b' → c_disabled (c_ b') = true →
     same_others (filename u) (fs_ b0) (fs_ b') → same_record u b0 b' ∨ target (fs_ b') →
     (∀ id n, permit_held b id n → permit_held b' id n) → Q b' (Some (Err e))) →
  (∀ b', same_others (filename u) (fs_ b0) (fs_ b') → same_record u b0 b' ∨ target (fs_ b') → Q b' None) →
  bwp (durable m) Q b.
Proof.
  intros Hm Hfs Hst Hwp Hok Hfail Hpois Hstop. unfold bwp, durable.
  destruct (m (b_disk b)) as [d r] eqn:Hd. pose proof (Hst _ _ _ Hd) as Hav.
  destruct (Hwp _ _ _ Hd Hfs) as [Ho Hr]. destruct r as [[[]|[e|reason e]]|].
  - eexists _, _. split; [done|]. by apply Hok.
  - eexists _, _. split; [done|]. assert (same_records (fs_ b0) (d_files d)) by by eapply unchanged_records.
    apply Hfail; [|done|done]. apply moves_disk; [done|]. intros v _. by rewrite Hfs.
  - eapply (poison_bwp reason e); [exact Hm|]. intros b' k' Hm' Hfs' Hp Hdis Hper.
    eapply Hpois; [exact Hm'|done|done|by rewrite Hfs'|by rewrite Hfs'|done].
  - eexists _, _. split; [done|]. by apply Hstop.
Qed.

(** The outcome of a mutation. *)
Definition mutation {A : Type} u (target : files → Prop) (says : files → A → Prop) b h b' (r : option (bresult A)) : Prop :=
  same_others (filename u) (fs_ b) (fs_ b') ∧
  match r with
  | None => same_record u b b' ∨ target (fs_ b')
  | Some (Ok answer) => effect b h b' h ∧ says (fs_ b') answer
  | Some (Err _) => effect b h b' h ∧ (same_record u b b' ∨ poisoned b' ∧ target (fs_ b'))
  end.

Lemma mutation_stopped {A} u target says b h b' :
  fs_ b' = fs_ b → mutation (A:=A) u target says b h b' None.
Proof. intros Hfs. unfold mutation, unchanged. rewrite Hfs. split; [done|by left]. Qed.

Lemma mode1_mutation_failed {A} u target says n b h b' k e :
  moves n b h b' h k → n ≤ 20 → fs_ b' = fs_ b → mutation (A:=A) u target says b h b' (Some (Err e)).
Proof.
  intros Hm Hn Hfs. unfold mutation, unchanged. rewrite Hfs. split; [done|].
  split; [eapply effect_moves; [done|lia|by right]|by left].
Qed.

Lemma mutation_kept {A} u target says n b h b' k e :
  moves n b h b' h k → n ≤ 20 → same_records (fs_ b) (fs_ b') → same_others (filename u) (fs_ b) (fs_ b') →
  mutation (A:=A) u target says b h b' (Some (Err e)).
Proof.
  intros Hm Hn Hs Ho. split; [done|]. split; [|left; apply Hs].
  exists k. split; [by eapply moves_le|]. by left.
Qed.

Lemma mutation_poisoned {A} u target says n b h b' k e :
  moves n b h b' h k → n ≤ 20 → poisoned b' → c_disabled (c_ b') = true →
  same_others (filename u) (fs_ b) (fs_ b') → same_record u b b' ∨ target (fs_ b') →
  mutation (A:=A) u target says b h b' (Some (Err e)).
Proof.
  intros Hm Hn Hp Hd Ho Hs. split; [done|]. split; [|destruct Hs; auto].
  exists k. split; [by eapply moves_le|]. by right.
Qed.

(** [scope_end], with the availability. *)
Definition owned_end {A : Type} h id (Q : Backend R → option (bresult A) → Prop) b (x : bresult A) : Prop :=
  ∃ n, binv b h ∧ permit_held b id n ∧
    ∀ b', grows None b h b' h 0 → fs_ b' = fs_ b → availability b' = availability b → Q b' (Some x).

Lemma drop_owned_bwp {A : Type} h id (x : bresult A) Q b :
  owned_end h id Q b x → bwp (bbind (drop_operation id) (λ _, blift x)) Q b.
Proof.
  intros (n & Hb & Hp & HQ). apply bwp_bind.
  eapply bwp_mono; [apply bwp_keeps; [apply keeps_cache|by eapply (drop_operation_bwp _ h)]|].
  intros b' r ((-> & Hfs & Hg) & Hav). apply bwp_ret. by apply HQ.
Qed.
Lemma owned_bwp {A : Type} h id (m : bop A) Q b :
  bwp m (λ b' r, match r with Some (Err e) => owned_end h id Q b' (Err e) | _ => Q b' r end) b →
  bwp (unless_consumed id m) Q b.
Proof.
  intros Hm. apply bwp_case. eapply bwp_mono; [exact Hm|]. intros b' [[a|e]|] Hr; [|by apply (drop_owned_bwp h _ (Err e))|done].
  by apply (bwp_ret (Ok a)).
Qed.
Lemma held_bwp {A : Type} h id (m : bop A) Q b :
  bwp m (λ b' r, match r with Some x => owned_end h id Q b' x | None => Q b' None end) b →
  bwp (holding id m) Q b.
Proof.
  intros Hm. apply bwp_case. eapply bwp_mono; [exact Hm|].
  intros b' [[a|e]|] Hr; [by apply (drop_owned_bwp h _ (Ok a))|by apply (drop_owned_bwp h _ (Err e))|done].
Qed.

Lemma owned_end_moves {A : Type} n0 b0 h b k id n (Q : Backend R → option (bresult A) → Prop) x :
  moves n0 b0 h b h k → permit_held b id n →
  (∀ b', moves (n0 + 1) b0 h b' h k → fs_ b' = fs_ b → availability b' = availability b →
     (c_disabled (c_ b) = true → c_disabled (c_ b') = true) → Q b' (Some x)) → owned_end h id Q b x.
Proof.
  intros Hm Hp HQ. exists n. split_and!; [by destruct Hm|done|].
  intros b' Hg Hfs Hav. apply HQ; [|done|done|by destruct Hg]. replace k with (k + 0) by lia.
  eapply moves_forget; [done|done|apply few_0|done|done].
Qed.

(** The part of a mutation that owns the reservation: a directory operation, and a check of
    the availability. *)
Lemma commit_bwp {A B : Type} (n0 : Z) b0 b h k u (target : files → Prop) (says : files → B → Prop)
    (id : positive) (n : Z) (m : dop Failure ()) (f : bop A) (Q : Backend R → option (bresult A) → Prop) :
  moves n0 b0 h b h k → n0 ≤ 10 → fs_ b = fs_ b0 → healthy b → permit_held b id n → steady m →
  wp m (transacts u target (fs_ b0)) (fs_ b0) →
  (∀ d, same_others (filename u) (fs_ b0) (d_files d) → target (d_files d) →
     bwp f Q (mkBackend d (w_ b) (c_ b))) →
  (∀ b' e, owned_end h id (λ b' _, mutation u target says b0 h b' (Some (Err e))) b' (Err (A:=A) e) →
     Q b' (Some (Err e))) →
  (∀ b', mutation u target says b0 h b' None → Q b' None) →
  bwp (bbind (durable m) (λ _, bbind ensure_available (λ _, f))) Q b.
Proof.
  intros Hm Hn0 Hfs Hav Hp Hst Hwp Hok Herr Hstop. apply bwp_bind.
  eapply (durable_bwp n0 b0); [exact Hm|exact Hfs|exact Hst|exact Hwp|..].
  - intros d Ho Ht Hd. apply ensure_bwp; [intros _; by apply Hok|].
    unfold poisoned, healthy, availability in *. simpl. rewrite Hd. congruence.
  - intros d e Hm' Hs Ho. apply Herr. eapply owned_end_moves; [exact Hm'|exact Hp|]. intros b' Hm2 Hfs2 _ _.
    eapply mutation_kept; [exact Hm2|lia|..]; by rewrite Hfs2.
  - intros b' k' e Hm' Hpo Hdis Ho Hs Hper. apply Herr.
    eapply owned_end_moves; [exact Hm'|by apply Hper|]. intros b2 Hm2 Hfs2 Hav2 Hd2.
    eapply mutation_poisoned; [exact Hm2|lia|unfold poisoned; by rewrite Hav2|by apply Hd2|..];
      unfold unchanged in *; by rewrite Hfs2.
  - intros b' Ho Hs. apply Hstop. by split.
Qed.

(** What was committed is cached, or nothing is. *)
Lemma cache_committed_bwp (n0 : Z) b0 b h k u record model id n d :
  moves n0 b0 h b h k → permit_held b id n → same_others (filename u) (fs_ b) (d_files d) →
  stored cfg (d_files d) u record →
  match model with
  | None => entries record = []
  | Some m => entries record ≠ [] ∧ AuthModel_from_record record = Ok m
  end →
  bwp (cache_committed_model cfg u model id) (λ b' r, r = Some (Ok ()) ∧ fs_ b' = d_files d ∧
    ∃ k', moves (n0 + 4) b0 h b' h k' ∧ k' ≠ 0) (mkBackend d (w_ b) (c_ b)).
Proof.
  intros Hm Hp Ho Hs Hmo. pose proof Hm as [Hb _ _ _ _ _ _]. pose proof (mv_bound _ _ _ _ _ _ Hm) as Hk.
  apply bwp_bind. eapply bwp_mono; [apply (invalidate_bwp (limits:=mb_cache_limits cfg) (mkBackend d (w_ b) (c_ b)) h u); exact Hb|].
  intros b1 r1 (-> & Hfs1 & Hg1 & Hno & Hper).
  assert (moves (n0 + 1) b0 h b1 h (k + 1)) as Hm1.
  { eapply (moves_forgotten _ _ _ b); [exact Hm|by destruct Hg1|apply few_1|by destruct Hm|].
    intros v Hv. rewrite Hfs1. simpl. f_equal. apply (others_state u); [done|]. intros ->. done. }
  assert (permit_held b1 id n) as Hp1 by (apply Hper; exact Hp). destruct model as [model|].
  - destruct Hmo as [Hne Hmo]. eapply bwp_mono.
    { eapply cache_model_bwp; [apply Hcfg|apply Hcfg|exact Hm1|exact Hp1| |].
      - apply mode1_stored_wf in Hs as [Hwf _]. by eapply record_model_nonneg.
      - rewrite Hfs1. exists record. split; [done|]. unfold record_auth_model. by rewrite bool_decide_false. }
    intros b2 r2 (-> & Hfs2 & k2 & Hm2 & Hk2). split_and!; [done|by rewrite Hfs2, Hfs1|].
    exists (k + 1 + k2). split; [|lia]. eapply moves_le; [exact Hm2|lia].
  - eapply bwp_mono; [eapply (drop_operation_bwp (limits:=mb_cache_limits cfg) b1 h); [by destruct Hm1|exact Hp1]|].
    intros b2 r2 (-> & Hfs2 & Hg2). split_and!; [done|by rewrite Hfs2, Hfs1|].
    exists (k + 1 + 0). split; [|lia]. eapply (moves_le (n0 + 1 + 1)); [|lia].
    eapply moves_forget; [exact Hm1|exact Hg2|apply few_0|done|done].
Qed.

(** ** Append *)

(** What [append] may write. *)
Definition appends request fs (record : EnrollmentRecord) : Prop :=
  ∃ loaded, current fs (ap_username request) loaded ∧ appended_record cfg request loaded = Ok record.
Definition append_done request fs fs' : Prop :=
  ∃ record, appends request fs record ∧ stored cfg fs' (ap_username request) record.
Definition append_says request fs fs' (answer : AppendResult) : Prop :=
  ∃ record, appends request fs record ∧ stored cfg fs' (ap_username request) record ∧
    answer = mkAppendResult (generation record) (len (ap_entries request)) (len (entries record)).

Lemma appends_det request fs x y : appends request fs x → appends request fs y → x = y.
Proof.
  intros (lx & Hx & Ex) (ly & Hy & Ey). assert (lx = ly) as ->; [|congruence].
  destruct lx as [rx|], ly as [ry|]; simpl in *; [|destruct Hx as (? & ? & _); congruence
    |destruct Hy as (? & ? & _); congruence|done].
  f_equal. by eapply mode1_stored_det.
Qed.

Lemma load_optional_bwp (n0 : Z) b0 b h k u insp id n Q :
  inspected cfg (fs_ b0) (filename u) u (Ok insp) →
  moves n0 b0 h b h k → fs_ b = fs_ b0 → permit_held b id n →
  (∀ d loaded, d_files d = fs_ b0 → moves n0 b0 h (mkBackend d (w_ b) (c_ b)) h k →
     ms_availability (d_local d) = availability b → current (fs_ b0) u loaded →
     Q (mkBackend d (w_ b) (c_ b)) (Some (Ok (loaded, id)))) →
  (∀ b' e, moves (n0 + 1) b0 h b' h k → fs_ b' = fs_ b0 → Q b' (Some (Err e))) →
  (∀ b', fs_ b' = fs_ b0 → Q b' None) →
  bwp (load_optional_for_mutation os cfg u insp id) Q b.
Proof.
  intros Hi Hm Hfs Hp HQ Herr Hstop. destruct insp as [i|].
  - apply bwp_bind. eapply decrypt_inspected_bwp; [exact Hi|exact Hm|exact Hfs|exact Hp| |exact Herr|exact Hstop].
    intros d record Hd Hm' Hav Hs. apply (bwp_ret (Ok _)). by apply HQ.
  - apply (bwp_ret (Ok _)). destruct b as [d w c]. by apply (HQ d None).
Qed.

Lemma write_transacts record target fs :
  record_wf record → recognizer_model_sha256 record = mb_model cfg →
  (∀ fs', stored cfg fs' (username record) record → target fs') →
  wp (write_record (S:=S) os cfg record) (transacts (username record) target fs) fs.
Proof.
  intros Hwf Hmodel Ht. eapply wp_mono; [by apply mode1_write_record_wp|].
  intros fs' r [Ho Hr]. split; [done|]. destruct r as [[|[]]|]; [auto|done|destruct Hr; auto|destruct Hr; auto].
Qed.

Lemma check_reservation_quiet fs request insp id :
  quiet fs (check_reservation cfg request insp id) (λ _, True) ∧
  keeps (S:=S) (check_reservation cfg request insp id).
Proof.
  split.
  - eapply (quiet_bind _ _ _ (λ _, True)); [by apply quiet_lift|intros e _|done].
    eapply (quiet_bind _ _ _ (λ _, True)); [by apply quiet_pure|intros c _|done].
    destruct (negb c); [by apply (quiet_lift _ (Err _))|by apply (quiet_lift _ (Ok _))].
  - apply keeps_bind; [apply keeps_lift|intros e]. apply keeps_bind; [by apply keeps_pure|intros c].
    destruct (negb c); [apply (keeps_lift (Err _))|apply (keeps_lift (Ok _))].
Qed.

(** A permit that is handed in and held. *)
Lemma drop_given_bwp {A : Type} (n0 : Z) b0 b h k id n (x : bresult A) Q :
  moves n0 b0 h b h k → permit_held b id n →
  (∀ b', moves (n0 + 1) b0 h b' h k → fs_ b' = fs_ b → Q b' (Some x)) →
  bwp (bbind (drop_given id) (λ _, blift x)) Q b.
Proof.
  intros Hm Hp HQ.
  assert (bwp (bbind (drop_operation id) (λ _, blift x)) Q b) as (b' & r & Hr & HQ').
  { eapply (drop_then (limits:=mb_cache_limits cfg)); [by destruct Hm|exact Hp|]. intros b' Hg Hfs. apply HQ; [|done].
    replace k with (k + 0) by lia. eapply moves_forget; [exact Hm|exact Hg|apply few_0|done|done]. }
  exists b', r. split; [|done]. rewrite <- Hr. unfold bbind, bcase, drop_given.
  destruct Hp as (p & -> & _). done.
Qed.

Lemma append_locked_bwp (n0 : Z) request b0 b h k insp id n :
  append_request_ok request → inspected cfg (fs_ b0) (filename (ap_username request)) (ap_username request) (Ok insp) →
  moves n0 b0 h b h k → n0 ≤ 9 → fs_ b = fs_ b0 → healthy b → permit_held b id n →
  bwp (append_locked os cfg request insp id)
    (mutation (ap_username request) (append_done request (fs_ b0)) (append_says request (fs_ b0)) b0 h) b.
Proof.
  intros Hreq Hi Hm Hn0 Hfs Hav Hp.
  assert (∀ b' e, moves (n0 + 1) b0 h b' h k → fs_ b' = fs_ b0 →
    mutation (ap_username request) (append_done request (fs_ b0)) (append_says request (fs_ b0)) b0 h b' (Some (Err e)))
    as Hfail by (intros b' e Hm' Hfs'; eapply mode1_mutation_failed; [exact Hm'|lia|done]).
  destruct (check_reservation_quiet (fs_ b0) request insp id) as [Hq Hk].
  apply bwp_bind, bwp_case. eapply quiet_bwp; [exact Hq|exact Hk|exact Hm|exact Hfs| |intros; by apply mutation_stopped].
  intros d [[]|e] Hd Hm1 Hav1 _.
  2:{ eapply (drop_given_bwp _ _ _ _ _ _ _ (Err e)); [exact Hm1|exact Hp|].
      intros b' Hm' Hfs'. apply Hfail; [done|by rewrite Hfs']. }
  apply (bwp_ret (Ok ())), bwp_bind.
  eapply (load_optional_bwp n0 b0); [exact Hi|exact Hm1|exact Hd|exact Hp| |exact Hfail
    |intros; by apply mutation_stopped].
  intros d2 loaded Hd2 Hm2 Hav2 Hcur. cbn [fst snd]. apply bwp_bind, (owned_bwp h).
  apply bwp_bind, bwp_ret. destruct (appended_record cfg request loaded) as [record|e] eqn:Hrec.
  2:{ eapply owned_end_moves; [exact Hm2|exact Hp|]. intros b' Hm' Hfs' _ _.
      apply (Hfail b' e); [done|by rewrite Hfs']. }
  destruct (appended_record_spec _ _ _ _ Hreq Hcur Hrec) as (Hwf & Hu & Hdig & Hne & _).
  apply bwp_bind, bwp_ret. rewrite AuthModel_from_record_eq by done.
  assert (appends request (fs_ b0) record) as Happ by by exists loaded.
  eapply (commit_bwp n0 b0 _ _ _ (ap_username request) (append_done request (fs_ b0)) (append_says request (fs_ b0)));
    [exact Hm2|lia|exact Hd2| |exact Hp|apply steady_write_record| | |done|done].
  { unfold healthy, availability in *. simpl. rewrite Hav2. unfold availability. simpl. by rewrite Hav1. }
  { rewrite <- Hu. apply write_transacts; [done|done|]. intros fs' Hs. exists record. by rewrite <- Hu. }
  intros d3 Ho (record' & Happ' & Hs). apply (bwp_ret (Ok _)). rewrite (appends_det _ _ _ _ Happ' Happ) in Hs.
  apply bwp_bind. eapply bwp_mono.
  { eapply (cache_committed_bwp n0 b0 (mkBackend d2 (w_ b) (c_ b))); [exact Hm2|exact Hp| |exact Hs|].
    - cbn [b_disk]. by rewrite Hd2.
    - split; [done|]. by apply AuthModel_from_record_eq. }
  intros b4 r4 (-> & Hfs4 & k4 & Hm4 & Hk4). apply (bwp_ret (Ok _)). split; [by rewrite Hfs4|].
  split; [eapply effect_moves; [exact Hm4|lia|by left]|]. exists record. by rewrite Hfs4.
Qed.

(** The calls start by checking the availability twice, and inspect the record. *)
Lemma inspect_expected_bwp {A : Type} u expected b h (f : option InspectedRecord → bop A) Q :
  binv b h → coherent b →
  (∀ d insp, d_files d = fs_ b → moves 0 b h (mkBackend d (w_ b) (c_ b)) h 0 →
     healthy (mkBackend d (w_ b) (c_ b)) → inspected cfg (fs_ b) (filename u) u (Ok insp) →
     bwp (f insp) Q (mkBackend d (w_ b) (c_ b))) →
  (∀ b' e, moves 0 b h b' h 0 → fs_ b' = fs_ b → Q b' (Some (Err e))) →
  (∀ b', fs_ b' = fs_ b → Q b' None) →
  bwp (bbind ensure_available (λ _, bbind ensure_available (λ _,
       bbind (inspect_expected os cfg u expected) f))) Q b.
Proof.
  intros Hb Hco Hf Herr Hstop. assert (moves 0 b h b h 0) as Hm by by apply moves_refl.
  apply ensure_bwp; [intros Hh|intros _; by apply Herr].
  apply ensure_bwp; [intros _|intros _; by apply Herr].
  apply bwp_bind, bwp_bind. eapply quiet_bwp; [apply inspect_quiet|apply keeps_disk, steady_inspect_record
    |exact Hm|done| |intros; by apply Hstop].
  intros d [insp|e] Hd Hm' Hav Hi; [|by apply Herr]. destruct (negb _).
  - apply (bwp_ret (Err _)). by apply Herr.
  - apply (bwp_ret (Ok _)). apply Hf; [done|done| |done]. unfold healthy, availability in *. simpl. by rewrite Hav.
Qed.

Lemma append_estimate_nonneg fs u insp es e :
  inspected cfg fs (filename u) u (Ok insp) → append_estimate cfg insp es = Ok e →
  0 ≤ mutation_peak_bytes e.
Proof.
  intros Hi He. apply bind_Ok in He as (labels & _ & He). apply bind_Ok in He as (e0 & He0 & He).
  unfold check_shape in He. destruct (_ || _); [done|]. injection He as <-.
  eapply append_shape_nonneg; [|apply (len_nonneg es)|exact He0].
  intros hd. destruct insp as [i|]; [|done]. intros [= <-]. by eapply inspection_entries.
Qed.

Lemma mode1_append_bwp request b h :
  append_request_ok request → binv b h → coherent b →
  bwp (append os cfg request)
    (mutation (ap_username request) (append_done request (fs_ b)) (append_says request (fs_ b)) b h) b.
Proof.
  intros Hreq Hb Hco. eapply inspect_expected_bwp; [done|done| |..].
  2:{ intros b' e Hm' Hfs'. eapply mode1_mutation_failed; [exact Hm'|lia|done]. }
  2:{ intros b' Hfs'. by apply mutation_stopped. }
  intros d insp Hd Hm Hav Hi. apply bwp_bind, bwp_ret.
  destruct (append_estimate cfg insp (ap_entries request)) as [e|e] eqn:He.
  2:{ eapply mode1_mutation_failed; [exact Hm|lia|done]. }
  eapply (reserve_bwp (mo_users _ Hcfg)); [by eapply append_estimate_nonneg|exact Hm|done| |].
  2:{ intros b' k' e' Hm' Hfs'. eapply mode1_mutation_failed; [exact Hm'|lia|done]. }
  intros b1 k1 id Hm1 Hfs1 Hp1. apply bwp_bind, ensure_case_bwp.
  - intros Hav1. apply (bwp_ret (Ok ())). eapply append_locked_bwp; [done|exact Hi|exact Hm1|lia|done|done|exact Hp1].
  - intros _. eapply (drop_then (limits:=mb_cache_limits cfg) (Err _)); [by destruct Hm1|exact Hp1|]. intros b' Hg Hfs'.
    eapply (mode1_mutation_failed _ _ _ (0 + 1 + 1)); [|lia|by rewrite Hfs'].
    eapply moves_forget; [exact Hm1|exact Hg|apply few_0|done|done].
Qed.

(** ** Remove *)

Definition removes request fs (record : EnrollmentRecord) : Prop :=
  ∃ loaded, stored cfg fs (rm_username request) loaded ∧ shortened_record cfg request loaded = Ok record.
Definition remove_done request fs fs' : Prop :=
  ∃ record, removes request fs record ∧ stored cfg fs' (rm_username request) record.
Definition remove_says request fs fs' (answer : RemoveResult) : Prop :=
  ∃ record, removes request fs record ∧ stored cfg fs' (rm_username request) record ∧
    answer = mkRemoveResult (generation record) (rm_enrollment_id request).

Lemma removes_det request fs x y : removes request fs x → removes request fs y → x = y.
Proof. intros (lx & Hx & Ex) (ly & Hy & Ey). rewrite (mode1_stored_det _ _ _ _ _ Hx Hy) in Ex. congruence. Qed.

Lemma required_bytes_nonneg fs u insp estimate bytes_of n :
  inspected cfg fs (filename u) u (Ok insp) →
  (∀ hd e, 0 ≤ h_entry_count hd → estimate hd = Ok e → 0 ≤ bytes_of e) →
  required_bytes estimate bytes_of insp = Ok n → 0 ≤ n.
Proof.
  intros Hi He. destruct insp as [i|]; [|by intros [= <-]]. intros Hr.
  apply bind_Ok in Hr as (e & Hee & [= <-]). eapply He; [by eapply inspection_entries|done].
Qed.

(** The start of [remove] and [clear]: inspect, reserve, load. *)
Lemma mutation_load_bwp {A : Type} u expected estimate bytes_of b h
    (f : option EnrollmentRecord * positive → bop A) Q :
  binv b h → coherent b → (∀ hd e, 0 ≤ h_entry_count hd → estimate hd = Ok e → 0 ≤ bytes_of e) →
  (∀ d w c k loaded id n, let b' := mkBackend d w c in
     moves 1 b h b' h k → fs_ b' = fs_ b → healthy b' → permit_held b' id n →
     current (fs_ b) u loaded → bwp (f (loaded, id)) Q b') →
  (∀ n b' k e, n ≤ 2 → moves n b h b' h k → fs_ b' = fs_ b → Q b' (Some (Err e))) →
  (∀ b', fs_ b' = fs_ b → Q b' None) →
  bwp (bbind ensure_available (λ _, bbind ensure_available (λ _,
       bbind (inspect_expected os cfg u expected) (λ insp,
       bbind (blift (required_bytes estimate bytes_of insp)) (λ required,
       bbind (reserve_bytes (Some u) required) (λ operation,
       bbind (load_optional_for_mutation os cfg u insp operation) f)))))) Q b.
Proof.
  intros Hb Hco Hest Hf Herr Hstop. eapply inspect_expected_bwp; [done|done| |..|exact Hstop].
  2:{ intros b' e Hm' Hfs'. by eapply (Herr 0). }
  intros d insp Hd Hm Hav Hi. apply bwp_bind, bwp_ret.
  destruct (required_bytes estimate bytes_of insp) as [required|e] eqn:Hr; [|by eapply (Herr 0)].
  destruct (reserve_bytes_bwp (mo_users _ Hcfg) (mkBackend d (w_ b) (c_ b)) h (Some u) required)
    as (b1 & r1 & Hrun & Hfs1 & (k1 & Hg1 & Hk1) & Hr1); [by destruct Hm|by eapply required_bytes_nonneg|].
  apply bwp_bind. eexists b1, r1. split; [exact Hrun|].
  assert (availability b1 = ms_availability (d_local d)) as Hav1
    by exact (keeps_cache _ _ _ _ Hrun).
  assert (moves 1 b h b1 h (0 + k1)) as Hm1.
  { change 1 with (0 + 1). eapply moves_forget; [exact Hm|exact Hg1|done|done|done]. }
  simpl in Hfs1. rewrite Hd in Hfs1. destruct r1 as [[id|e]|]; [|by eapply (Herr 1)|done].
  apply bwp_bind. eapply (load_optional_bwp 1 b); [exact Hi|exact Hm1|done|exact Hr1| | |exact Hstop].
  - intros d2 loaded Hd2 Hm2 Hav2 Hcur. eapply Hf; [exact Hm2|done| |exact Hr1|done].
    unfold healthy, availability in *. simpl in *. by rewrite Hav2, Hav1.
  - intros b' e Hm' Hfs'. by eapply (Herr (1 + 1)).
Qed.

Lemma mode1_remove_bwp request b h :
  username_wf (rm_username request) → binv b h → coherent b →
  bwp (remove os cfg request)
    (mutation (rm_username request) (remove_done request (fs_ b)) (remove_says request (fs_ b)) b h) b.
Proof.
  intros Hu Hb Hco. eapply mutation_load_bwp; [done|done|apply replacement_estimate_nonneg| |..].
  2:{ intros n b' k e Hn Hm' Hfs'. eapply mode1_mutation_failed; [exact Hm'|lia|done]. }
  2:{ intros b' Hfs'. by apply mutation_stopped. }
  intros d w c k loaded id n b1 Hm1 Hfs1 Hav1 Hp1 Hcur. cbn [fst snd].
  assert (∀ e, owned_end h id (λ b' r, match r with
    | Some (Err e) => mutation (rm_username request) (remove_done request (fs_ b)) (remove_says request (fs_ b)) b h b' (Some (Err e))
    | _ => True end) b1 (Err (A := EnrollmentRecord * option AuthModel) e)) as Hend.
  { intros e. eapply owned_end_moves; [exact Hm1|exact Hp1|]. intros b' Hm' Hfs' _ _.
    eapply mode1_mutation_failed; [exact Hm'|lia|by rewrite Hfs']. }
  apply bwp_bind, (owned_bwp h). apply bwp_bind, bwp_ret.
  destruct loaded as [record0|]; cbn [require_record ok_or]; [|exact (Hend _)].
  apply bwp_bind, bwp_ret. destruct (shortened_record cfg request record0) as [record|e] eqn:Hrec; [|exact (Hend _)].
  destruct (shortened_record_spec _ _ _ _ Hu Hcur Hrec) as (Hwf & Hun & Hdig & _).
  assert (removes request (fs_ b) record) as Hrem by by exists record0.
  apply bwp_bind. eapply (bwp_mono _ (λ b' r, b' = b1 ∧ ∃ model, r = Some (Ok model) ∧
    match model with None => entries record = []
    | Some m => entries record ≠ [] ∧ AuthModel_from_record record = Ok m end)).
  { case_bool_decide; [apply (bwp_ret (Ok _)); eauto|].
    apply bwp_bind, bwp_ret. rewrite AuthModel_from_record_eq by done. apply (bwp_ret (Ok _)).
    split; [done|]. eexists. split; [done|]. by split. }
  intros b' r (-> & model & -> & Hmo).
  eapply (commit_bwp 1 b _ _ _ (rm_username request) (remove_done request (fs_ b)) (remove_says request (fs_ b)));
    [exact Hm1|lia|exact Hfs1|done|exact Hp1|apply steady_write_record| | |done|done].
  { rewrite <- Hun. apply write_transacts; [done|done|]. intros fs' Hs. exists record. by rewrite <- Hun. }
  intros d3 Ho (record' & Hrem' & Hs). apply (bwp_ret (Ok _)). rewrite (removes_det _ _ _ _ Hrem' Hrem) in Hs.
  apply bwp_bind. eapply bwp_mono.
  { eapply (cache_committed_bwp 1 b b1); [exact Hm1|exact Hp1|by rewrite Hfs1|exact Hs|exact Hmo]. }
  intros b4 r4 (-> & Hfs4 & k4 & Hm4 & Hk4). apply (bwp_ret (Ok _)). split; [by rewrite Hfs4|].
  split; [eapply effect_moves; [exact Hm4|lia|by left]|]. exists record. by rewrite Hfs4.
Qed.

(** ** Clear *)

Definition absent u fs : Prop := fs !! filename u = None.
Definition clear_says request fs fs' (answer : ClearResult) : Prop :=
  absent (cl_username request) fs' ∧ ∃ loaded, stored cfg fs (cl_username request) loaded ∧
    generation loaded = cl_expected_generation request ∧
    answer = mkClearResult ABSENT_GENERATION (len (entries loaded)).

Lemma mode1_clear_bwp request b h :
  binv b h → coherent b →
  bwp (clear os cfg request)
    (mutation (cl_username request) (absent (cl_username request)) (clear_says request (fs_ b)) b h) b.
Proof.
  intros Hb Hco. eapply mutation_load_bwp; [done|done| |..].
  { intros hd e Hhd He. by destruct (header_estimate_nonneg _ _ Hhd He). }
  2:{ intros n b' k e Hn Hm' Hfs'. eapply mode1_mutation_failed; [exact Hm'|lia|done]. }
  2:{ intros b' Hfs'. by apply mutation_stopped. }
  intros d w c k loaded id n b1 Hm1 Hfs1 Hav1 Hp1 Hcur. cbn [fst snd].
  set (outcome := mutation _ _ _ b h).
  assert (∀ e, owned_end h id outcome b1 (Err e)) as Hend.
  { intros e. eapply owned_end_moves; [exact Hm1|exact Hp1|]. intros b' Hm' Hfs' _ _.
    eapply mode1_mutation_failed; [exact Hm'|lia|by rewrite Hfs']. }
  apply (held_bwp h). apply bwp_bind, bwp_ret.
  destruct loaded as [record|]; cbn [require_record ok_or]; [|exact (Hend _)].
  apply bwp_bind. destruct (Z.eqb_spec (generation record) (cl_expected_generation request)) as [Hgen|]; cbn [negb];
    [apply (bwp_ret (Ok ()))|apply (bwp_ret (Err _)); exact (Hend _)].
  eapply (commit_bwp 1 b _ _ _ (cl_username request) (absent (cl_username request)) (clear_says request (fs_ b)));
    [exact Hm1|lia|exact Hfs1|done|exact Hp1|apply steady_clear_record| | |by intros|by intros].
  { eapply wp_mono; [by apply clear_record_wp|]. intros fs' r [Ho Hr]. by split. }
  intros d3 Ho Ht. apply bwp_bind.
  eapply bwp_mono; [apply (invalidate_bwp (limits:=mb_cache_limits cfg) (mkBackend d3 (w_ b1) (c_ b1)) h
    (cl_username request)); by destruct Hm1|].
  intros b2 r2 (-> & Hfs2 & Hg2 & Hno & Hper). apply (bwp_ret (Ok _)).
  pose proof (mv_bound _ _ _ _ _ _ Hm1) as Hk.
  assert (moves (1 + 1) b h b2 h (k + 1)) as Hm2.
  { eapply (moves_forgotten _ _ _ b1); [exact Hm1|by destruct Hg2|apply few_1|by destruct Hm1|].
    intros v Hv. rewrite Hfs2, Hfs1. simpl. f_equal. apply (others_state (cl_username request)); [done|].
    intros ->. done. }
  eapply owned_end_moves; [exact Hm2|by apply Hper|]. intros b3 Hm3 Hfs3 _ _.
  split; [by rewrite Hfs3, Hfs2|]. split; [eapply effect_moves; [exact Hm3|lia|left; lia]|].
  rewrite Hfs3, Hfs2. split; [done|]. by exists record.
Qed.
End calls.
