(* ===== verification/Mode1Auth.v ===== *)
(** * The mode-1 backend's queries, authentication loads, reload and startup

    Queries change no record; a lease is only ever on the model of an authenticated record
    stored for that very user; startup and reload refuse a directory with an unfinished
    transaction in it. *)

From stdpp Require Import sorting.
From S2P Require Import Prelude Bytes Storage Crypto Codec CodecReader CodecPayload CodecPlain CodecEncrypted Legacy Contracts Budget Cache CacheLru CacheProofs CacheSystem PromptState Handlers Disk Backend CacheModels BackendOps BackendCalls Fingerprint Mode1 Mode1Store Mode1Proofs Mode1Write Mode1Scan Mode1Health Mode1Calls.

Section queries.
  Context `{AesGcmLaws} {S : Type} `{RandomSourceLaws S}.
  Context {os : DiskOs} `{!DiskOsLaws os} (cfg : Mode1Settings) (Hcfg : mode1_ok cfg).
  Implicit Types (b : Backend (Mode1State S)) (h : owners) (k : Z) (u v : CanonicalUsername).
  Implicit Types (fs : files).

Abbreviation R := (Mode1State S).
Abbreviation w_ b := (b_world b).
Abbreviation c_ b := (b_cache b).
Abbreviation fs_ b := (d_files (b_disk b)).
Abbreviation binv := (binv (limits:=mb_cache_limits cfg)).
Abbreviation grows := (grows (limits:=mb_cache_limits cfg)).
Abbreviation quiet := (quiet (R:=R)).
Abbreviation moves := (moves (limits:=mb_cache_limits cfg)).
Abbreviation effect := (effect (limits:=mb_cache_limits cfg)).
Abbreviation query := (query (limits:=mb_cache_limits cfg)).
Abbreviation auth_outcome := (auth_outcome (limits:=mb_cache_limits cfg)).
Abbreviation active_outcome := (active_outcome (limits:=mb_cache_limits cfg)).

#[local] Instance query_records : RecordStore := mode1_records cfg.

(** ** Generations *)

(** The user's record file says it is of that generation, and not empty. *)
Definition says_generation fs u (g : Z) : Prop :=
  ∃ node hd, fs !! filename u = Some node ∧ inspect_howyenc1 (fn_data node) = Ok hd ∧
    h_username hd = u ∧ h_entry_count hd ≠ 0 ∧ g = h_record_generation hd.

Lemma stored_says fs u record :
  stored cfg fs u record → entries record ≠ [] → says_generation fs u (generation record).
Proof.
  intros (node & Hn & _ & Hd) Hne.
  apply decode_howyenc1_Ok in Hd as (nonce & c & Hnonce & _ & Hwf & He & <- & _ & Hdata & Hc).
  exists node, (record_header record ModeAeadCached (mb_key_epoch cfg) nonce).
  pose proof (record_header_enc1_wf record ModeAeadCached _ nonce Hwf He Hnonce) as Hh.
  split_and!; [done| |done| |done].
  - rewrite Hdata. apply inspect_enc1; [done|]. simpl.
    destruct (encode_howyenc1_wf unlimited record ModeAeadCached (mb_key_epoch cfg) (mb_key cfg) nonce Hwf He Hnonce
      (mo_key _ Hcfg)) as (c' & Hc' & Hlen & _). simpl in *. rewrite Hc in Hc'. by injection Hc' as <-.
  - simpl. destruct (entries record); [done|]. rewrite len_cons. pose proof (len_nonneg l). lia.
Qed.

Lemma stored_model_says fs u m : stored_model cfg fs u m → says_generation fs u (am_generation m).
Proof.
  intros (record & Hs & Hm). unfold record_auth_model in Hm. case_bool_decide; [done|].
  pose proof Hs as [Hwf _]%mode1_stored_wf. rewrite AuthModel_from_record_eq in Hm by done. injection Hm as <-.
  by apply stored_says.
Qed.

Lemma inspected_says fs u i :
  inspected cfg fs (filename u) u (Ok (Some i)) → h_entry_count (in_header i) ≠ 0 →
  says_generation fs u (h_record_generation (in_header i)).
Proof.
  intros (node & Hn & _ & _ & _ & _ & _ & (Hi & Hb & _)) Hne. apply check_bindings_Ok in Hb as (_ & _ & Hu & _).
  by exists node, (in_header i).
Qed.

(** ** Queries *)

Lemma query_answer {A : Type} (P : A → Prop) (n0 : Z) b h b' k (x : bresult A) :
  moves n0 b h b' h k → n0 ≤ 20 → fs_ b' = fs_ b → (∀ a, x = Ok a → P a) → query P b h b' (Some x).
Proof. intros. split; [done|]. split; [eapply effect_moves; [done|done|by right]|done]. Qed.

Lemma cached_generation_bwp (n0 : Z) b0 b h k u :
  moves n0 b0 h b h k → fs_ b = fs_ b0 →
  bwp (cached_generation u) (λ b' r, fs_ b' = fs_ b0 ∧ moves (n0 + 1) b0 h b' h k ∧
    match r with
    | Some (Ok (Some g)) => says_generation (fs_ b0) u g
    | Some (Ok None) => True
    | _ => False end) b.
Proof.
  intros Hm Hfs. pose proof Hm as [Hb Hco _ _ _ _ _].
  destruct (cache_generation_spec _ (mo_cache _ Hcfg) _ _ _ u Hb) as (c' & g & Hg & Hinv' & _).
  eapply bwp_cache; [by rewrite Hg|]. apply cache_generation_evolves in Hg as [Hev Hgen].
  split; [done|]. split.
  - replace k with (k + 0) by lia.
    eapply moves_forget; [exact Hm|by apply evolves_grows|apply few_0|done|done].
  - destruct g as [g|]; [|done]. destruct (Hgen g eq_refl) as (m & Hc & ->).
    apply stored_model_says. rewrite <- Hfs. by apply Hco.
Qed.

(** [self.ensure_available()?; Ok(answer)] *)
Lemma ensure_answer {A : Type} (P : A → Prop) (n0 : Z) b0 b h k (a : A) :
  moves n0 b0 h b h k → n0 ≤ 20 → fs_ b = fs_ b0 → P a →
  bwp (bbind ensure_available (λ _, bret a)) (query P b0 h) b.
Proof.
  intros Hm Hn Hfs Ha. apply ensure_bwp; intros _; [apply (bwp_ret (Ok a))|]; eapply query_answer; try done.
  by intros a' [= <-].
Qed.

Definition presence_sound fs u (p : CandidatePresence) : Prop :=
  match p with Candidate g => says_generation fs u g | NoCandidate => True end.

(** What a snapshot's candidate is worth when it is taken. *)
Definition snapshot_sound fs u (s : PromptStorageSnapshot) : Prop :=
  presence_sound fs u (ss_candidate s).

Lemma mode1_prompt_snapshot_bwp u b h :
  binv b h → coherent b → bwp (prompt_snapshot os cfg u) (query (snapshot_sound (fs_ b) u) b h) b.
Proof.
  intros Hb Hco. assert (moves 0 b h b h 0) as Hm by by apply moves_refl.
  assert (∀ n0 b' k, moves n0 b h b' h k → n0 ≤ 20 → fs_ b' = fs_ b → ∀ e,
    query (snapshot_sound (fs_ b) u) b h b' (Some (Err e))) as Hfail by (intros; by eapply query_answer).
  apply ensure_bwp; [intros _|intros _; eapply Hfail; [done|lia|done]].
  apply bwp_bind. eapply bwp_mono; [by eapply cached_generation_bwp|].
  intros b1 [[[g|]|]|] (Hfs1 & Hm1 & Hg); [| |done|done].
  { eapply ensure_answer; [done|lia|done|done]. }
  apply ensure_bwp; [intros _|intros _; eapply Hfail; [done|lia|done]].
  apply bwp_bind. eapply bwp_mono; [by eapply cached_generation_bwp|].
  intros b2 [[second|]|] (Hfs2 & Hm2 & Hg2); [|done|done].
  apply bwp_bind. destruct second as [g|].
  { apply (bwp_ret (Ok _)). eapply ensure_answer; [done|lia|done|done]. }
  apply bwp_bind. eapply quiet_bwp; [apply inspect_quiet|apply keeps_disk, steady_inspect_record|exact Hm2|done| |by split].
  intros d [insp|e] Hd Hm3 _ Hi; [|eapply Hfail; [done|lia|done]].
  apply (bwp_ret (Ok _)). eapply ensure_answer; [done|lia|done|].
  destruct insp as [i|]; [|done]. destruct (Z.eqb_spec (h_entry_count (in_header i)) 0); [done|].
  by apply inspected_says.
Qed.

(** ** Loading under a reservation of its own *)

Lemma load_record_bwp (n0 : Z) b0 b h k u c (Q : Backend R → option (bresult (EnrollmentRecord * positive)) → Prop) :
  moves n0 b0 h b h k → fs_ b = fs_ b0 →
  (∀ b' k' record id n, moves (n0 + 1) b0 h b' h k' → fs_ b' = fs_ b0 → permit_held b' id n →
     stored cfg (fs_ b0) u record → Q b' (Some (Ok (record, id)))) →
  (∀ n' b' k' e, n' ≤ n0 + 2 → moves n' b0 h b' h k' → fs_ b' = fs_ b0 → Q b' (Some (Err e))) →
  (∀ b', fs_ b' = fs_ b0 → Q b' None) →
  bwp (load_record_cancellable os cfg u c) Q b.
Proof.
  intros Hm Hfs HQ Herr Hstop. apply bwp_bind.
  eapply quiet_bwp; [apply inspect_quiet|apply keeps_disk, steady_inspect_record|exact Hm|done| |intros; by apply Hstop].
  intros d [[i|]|e] Hd Hm1 _ Hi; [|apply (bwp_ret (Err _))|]; [|by eapply (Herr n0); [lia|..]..].
  apply bwp_bind, bwp_ret. destruct (for_encrypted_header (in_header i)) as [e|e] eqn:He;
    [|by eapply (Herr n0); [lia|..]].
  eapply (reserve_bwp (mo_users _ Hcfg)); [|exact Hm1|done| |].
  { apply header_estimate_nonneg in He as [? _]; [done|]. by eapply inspection_entries. }
  2:{ intros b' k' e' Hm' Hfs'. by eapply (Herr (n0 + 1)); [lia|..]. }
  intros b2 k2 id Hm2 Hfs2 Hp2.
  eapply decrypt_inspected_bwp; [exact Hi|exact Hm2|exact Hfs2|exact Hp2| | |exact Hstop].
  - intros d3 record Hd3 Hm3 _ Hs. by eapply HQ; [exact Hm3| |exact Hp2|].
  - intros b' e' Hm' Hfs'. by eapply (Herr (n0 + 1 + 1)); [lia|..].
Qed.

(** Holding a loaded record to answer from it. *)
Lemma answer_loaded_bwp {A : Type} (P : A → Prop) (n0 : Z) b0 b h k id n (a : A) :
  moves n0 b0 h b h k → n0 ≤ 10 → fs_ b = fs_ b0 → permit_held b id n → P a →
  bwp (holding id (bret a)) (query P b0 h) b.
Proof.
  intros Hm Hn Hfs Hp Ha. eapply (holding_bwp (limits:=mb_cache_limits cfg) h), (bwp_ret (Ok a)).
  eapply scope_end_moves; [exact Hm|exact Hp|]. intros b' Hm' Hfs'.
  eapply query_answer; [exact Hm'|lia|by rewrite Hfs'|]. by intros a' [= <-].
Qed.

(** [self.ensure_available()?; result] of a query. *)
Lemma then_available_bwp {A : Type} (P : A → Prop) (m : bop A) b0 h b :
  bwp m (query P b0 h) b → bwp (then_available owns_nothing m) (query P b0 h) b.
Proof.
  intros Hm. apply bwp_case. eapply bwp_mono; [exact Hm|]. intros b' [[a|e]|] Hq; [| |done].
  - apply ensure_case_bwp; intros _; [by apply (bwp_ret (Ok a))|]. apply bwp_bind, (bwp_ret (Ok ())), (bwp_ret (Err _)).
    destruct Hq as (? & ? & _). by split.
  - apply ensure_bwp; intros _; [by apply (bwp_ret (Err e))|]. destruct Hq as (? & ? & _). by split.
Qed.

Lemma mode1_candidate_presence_bwp u b h :
  binv b h → coherent b → bwp (candidate_presence os cfg u) (query (presence_sound (fs_ b) u) b h) b.
Proof.
  intros Hb Hco. assert (moves 0 b h b h 0) as Hm by by apply moves_refl.
  assert (∀ n0 b' k, moves n0 b h b' h k → n0 ≤ 20 → fs_ b' = fs_ b → ∀ e,
    query (presence_sound (fs_ b) u) b h b' (Some (Err e))) as Hfail by (intros; by eapply query_answer).
  apply ensure_bwp; [intros _|intros _; eapply Hfail; [done|lia|done]].
  apply bwp_bind. eapply bwp_mono; [by eapply cached_generation_bwp|].
  intros b1 [[[g|]|]|] (Hfs1 & Hm1 & Hg); [| |done|done].
  { eapply ensure_answer; [done|lia|done|done]. }
  apply ensure_bwp; [intros _|intros _; eapply Hfail; [done|lia|done]].
  apply bwp_bind. eapply bwp_mono; [by eapply cached_generation_bwp|].
  intros b2 [[[g|]|]|] (Hfs2 & Hm2 & Hg2); [| |done|done].
  { eapply ensure_answer; [done|lia|done|done]. }
  apply then_available_bwp, bwp_case. eapply load_record_bwp; [exact Hm2|done| | |by split].
  - intros b3 k3 record id n Hm3 Hfs3 Hp Hs. eapply answer_loaded_bwp; [done|lia|done|exact Hp|].
    case_bool_decide; [done|]. by apply stored_says.
  - intros n' b3 k3 e Hn Hm3 Hfs3. destruct e; try (apply (bwp_ret (Err _)); eapply Hfail; [done|lia|done]).
    apply (bwp_ret (Ok _)). eapply query_answer; [done|lia|done|]. by intros a [= <-].
Qed.

Definition lists_record fs u (answer : MetadataList) : Prop :=
  ∃ record, stored cfg fs u record ∧ answer = metadata_from_record record.

Lemma mode1_list_metadata_bwp u b h :
  binv b h → coherent b → bwp (list_metadata os cfg u) (query (lists_record (fs_ b) u) b h) b.
Proof.
  intros Hb Hco. assert (moves 0 b h b h 0) as Hm by by apply moves_refl.
  apply ensure_bwp; [intros _|intros _; eapply query_answer; [done|lia|done|done]].
  apply ensure_bwp; [intros _|intros _; eapply query_answer; [done|lia|done|done]].
  apply then_available_bwp, bwp_bind. eapply load_record_bwp; [exact Hm|done| | |by split].
  - intros b3 k3 record id n Hm3 Hfs3 Hp Hs. eapply answer_loaded_bwp; [done|lia|done|exact Hp|]. by exists record.
  - intros n' b3 k3 e Hn Hm3 Hfs3. eapply query_answer; [done|lia|done|done].
Qed.

(** ** Authentication *)

Lemma check_signal_bwp {A : Type} (n0 : Z) b0 b h h' k c (f : () → bop A) (g : StorageBackendError → bop A) Q :
  moves n0 b0 h b h' k → fs_ b = fs_ b0 →
  (∀ d, d_files d = fs_ b0 → moves n0 b0 h (mkBackend d (w_ b) (c_ b)) h' k →
     bwp (f ()) Q (mkBackend d (w_ b) (c_ b))) →
  (∀ d, d_files d = fs_ b0 → moves n0 b0 h (mkBackend d (w_ b) (c_ b)) h' k →
     bwp (g Unavailable) Q (mkBackend d (w_ b) (c_ b))) →
  (∀ b', fs_ b' = fs_ b0 → Q b' None) →
  bwp (bcase (check_signal os c) f g) Q b.
Proof.
  intros Hm Hfs Hf Hg Hstop. destruct c; [|by eapply check_bwp].
  apply bwp_case. destruct b as [d w c]. apply (bwp_ret (Ok ())). by apply (Hf d).
Qed.

(** Loading the record, its model, and shrinking the reservation to it. *)
Lemma cold_model_bwp {A : Type} (n0 : Z) b0 b h k u c (f : positive → AuthModel → bop A) Q :
  moves n0 b0 h b h k → fs_ b = fs_ b0 →
  (∀ b' k' id model n, moves (n0 + 1 + 1) b0 h b' h k' → fs_ b' = fs_ b0 → permit_held b' id n →
     0 ≤ am_plaintext_bytes model → model_stored (fs_ b0) u model → bwp (f id model) Q b') →
  (∀ n' b' k' e, n' ≤ n0 + 2 → moves n' b0 h b' h k' → fs_ b' = fs_ b0 → Q b' (Some (Err e))) →
  (∀ b', fs_ b' = fs_ b0 → Q b' None) →
  bwp (bbind (load_record_cancellable os cfg u c) (λ loaded,
       bbind (unless_consumed loaded.2 (
         bbind (blift (record_auth_model loaded.1)) (λ model,
         bbind (check_signal os c) (λ _, bret model)))) (λ model,
       bbind (on_world (world_shrink loaded.2 (am_plaintext_bytes model))) (λ permit, f permit model)))) Q b.
Proof.
  intros Hm Hfs Hf Herr Hstop. apply bwp_bind. eapply load_record_bwp; [exact Hm|done| |exact Herr|exact Hstop].
  intros b1 k1 record id n Hm1 Hfs1 Hp1 Hs. cbn [fst snd].
  eapply load_shrink_bwp; [exact Hm1|done|exact Hp1| | | |exact Hstop].
  - destruct (record_auth_model record) as [m|e] eqn:Hmo.
    + eapply (quiet_bind _ _ _ (λ x, x = Ok m)); [by apply quiet_lift| |done]. intros m' [= ->].
      assert (model_stored (fs_ b0) u m) as Hst by by exists record.
      eapply (quiet_bind _ _ _ (λ _, True)); [|intros [] _; apply (quiet_lift _ (Ok _)); split; [done|]|done].
      * apply quiet_disk. apply unless_cancelled_reads; [by apply (reads_lift _ (Ok ()))|done].
      * eapply stored_model_nonneg. exact Hst.
    + eapply (quiet_bind _ _ _ (λ x, x = Err e)); [by apply quiet_lift|done|done].
  - intros b' id' model n' Hm' Hfs' Hp' Hn Hst. by eapply Hf.
  - intros b' e Hm' Hfs'. by eapply (Herr (n0 + 1 + 1)); [lia|..].
Qed.

(** The outcome for a lease is one for a load without a promotion. *)
Lemma leased_active u b h b' a : fs_ b' = fs_ b → leased (limits:=mb_cache_limits cfg) u b h b' a →
  active_outcome u b h b' (Some (Ok (a, None))).
Proof. by split. Qed.

Lemma authenticate_cold_bwp (n0 : Z) b0 b h k u c provisional :
  moves n0 b0 h b h k → n0 ≤ 4 → fs_ b = fs_ b0 → (provisional = true → c = Cancellable) →
  bwp (authenticate_cold os cfg u c provisional) (λ b' r, active_outcome u b0 h b' r ∧
    match r with Some (Ok (_, Some _)) => provisional = true | _ => True end) b.
Proof.
  intros Hm Hn0 Hfs Hc. assert (∀ a, 0 ≤ h a) as Hh by (destruct Hm as [(_ & ? & _) _ _ _ _ _]; done).
  apply bwp_bind. eexists b, _. split; [done|]. cbn beta iota.
  eapply cold_model_bwp; [exact Hm|done| |..|by split].
  2:{ intros n' b' k' e Hn' Hm' Hfs'. split; [|done]. eapply active_failed; [exact Hm'|lia|done]. }
  intros b1 k1 id model n Hm1 Hfs1 Hp1 Hn Hst. destruct provisional; cbn [negb].
  { eapply (bwp_mono _ (active_outcome u b0 h)); [|intros b' [[[? []]|]|] ?; by split].
    rewrite Hc by done. eapply provisional_bwp; [eapply (binv_revision (limits:=mb_cache_limits cfg)); by destruct Hm
      |exact Hm1|lia|done|exact Hp1|done|done]. }
  apply bwp_bind. eapply publish_model_bwp; [apply Hcfg|apply Hcfg|exact Hm1|done|exact Hp1|done|done| |].
  2:{ intros b' e k' Hm' Hfs'. split; [|done]. eapply active_failed; [exact Hm'|lia|done]. }
  intros b2 a k2 Hm2 Hfs2 Ha. eapply check_signal_bwp; [exact Hm2|done|..|by split].
  - intros d Hd Hm'. apply (bwp_ret (Ok _)). split; [|done]. apply leased_active; [done|]. split; [|by exists model].
    eapply effect_moves; [exact Hm'|lia|by right].
  - intros d Hd Hm'. apply bwp_bind. eapply bwp_mono.
    { apply (invalidate_bwp (limits:=mb_cache_limits cfg) _ (own_add h a 1) u). by destruct Hm'. }
    intros b3 r3 (-> & Hfs3 & Hg3 & _). simpl in Hfs3.
    assert (moves (n0 + 1 + 1 + 1 + 1) b0 h b3 (own_add h a 1) (k2 + 1)) as Hm3.
    { eapply moves_forget; [exact Hm'|exact Hg3|apply few_1|done|]. intros x. by apply own_add_le. }
    apply bwp_bind. eapply bwp_mono; [eapply release_lease_bwp; [by destruct Hm3|]|].
    { rewrite own_add_eq. specialize (Hh a). lia. }
    intros b4 r4 (-> & Hfs4 & Hg4). apply (bwp_ret (Err _)). split; [|done].
    eapply (active_failed (n0 + 1 + 1 + 1 + 1 + 1)); [|lia|congruence].
    eapply moves_forget; [exact Hm3| |apply few_0|done|done].
    eapply grows_handles; [|exact Hg4]. intros x. apply own_add_back.
Qed.

Lemma authenticate_cold_keeps u c provisional : keeps (S:=S) (authenticate_cold os cfg u c provisional).
Proof.
  assert (keeps (S:=S) (check_signal os c)) as Hsig
    by (apply keeps_disk, steady_unless_cancelled, steady_ret).
  apply keeps_bind; [by apply keeps_pure|intros rev]. apply keeps_bind.
  { apply keeps_bind; [apply keeps_disk, steady_inspect_record|intros [i|]; [|apply (keeps_lift (Err _))]].
    apply keeps_bind; [apply keeps_lift|intros e]. apply keeps_bind; [apply keeps_cache|intros id].
    apply keeps_case; [|intros; apply (keeps_lift (Ok _))
      |intros; apply keeps_bind; [apply keeps_cache|intros; apply (keeps_lift (Err _))]].
    apply keeps_bind; [apply keeps_lift|intros e']. apply keeps_bind; [by apply keeps_pure|intros []];
      [|apply (keeps_lift (Err _))].
    apply keeps_bind; [apply keeps_disk, steady_decrypt_file|intros r; apply (keeps_lift (Ok _))]. }
  intros loaded. apply keeps_bind.
  { apply keeps_case; [|intros; apply (keeps_lift (Ok _))
      |intros; apply keeps_bind; [apply keeps_cache|intros; apply (keeps_lift (Err _))]].
    apply keeps_bind; [apply keeps_lift|intros m]. apply keeps_bind; [done|intros; apply (keeps_lift (Ok _))]. }
  intros model. apply keeps_bind; [apply keeps_cache|intros permit]. destruct (negb provisional).
  - apply keeps_bind; [apply keeps_cache|intros lease]. apply keeps_case; [done|intros; apply (keeps_lift (Ok _))|].
    intros e. do 2 (apply keeps_bind; [apply keeps_cache|intros _]). apply (keeps_lift (Err _)).
  - apply keeps_bind; [apply keeps_cache|intros cached]. apply keeps_bind; [apply keeps_cache|intros _].
    apply keeps_case; [done|intros; apply (keeps_lift (Ok _))|].
    intros e. do 2 (apply keeps_bind; [apply keeps_cache|intros _]). apply (keeps_lift (Err _)).
Qed.

(** Nothing in [m] can poison the backend, so its answer is given. *)
Lemma then_healthy_bwp {A : Type} discard (m : bop A) Q b :
  healthy b → keeps (S:=S) m → bwp m Q b → bwp (then_available discard m) Q b.
Proof.
  intros Hh Hk Hm. apply bwp_case. eapply bwp_mono; [by apply bwp_keeps|].
  intros b' r [HQ Hav]. assert (¬ poisoned b') by (unfold poisoned, healthy in *; by rewrite Hav, Hh).
  destruct r as [[a|e]|]; [| |done].
  - apply ensure_case_bwp; [intros _; by apply (bwp_ret (Ok a))|done].
  - apply ensure_bwp; [intros _; by apply (bwp_ret (Err e))|done].
Qed.

Lemma lease_if_available_bwp (n0 : Z) b0 b h k u a :
  moves n0 b0 h b (own_add h a 1) k → n0 ≤ 10 → fs_ b = fs_ b0 → 0 ≤ h a →
  (∃ m, arc_model_of (w_ b) a = Some m ∧ model_stored (fs_ b0) u m) →
  bwp (lease_if_available a) (auth_outcome u b0 h) b.
Proof.
  intros Hm Hn0 Hfs Ha Hmo. apply ensure_case_bwp; intros _.
  - apply (bwp_ret (Ok a)). split; [done|]. split; [|done]. eapply effect_moves; [exact Hm|lia|by right].
  - eapply (release_bwp _ _ _ _ _ _ (Err _)); [exact Hm|done|done|].
    intros b' Hm' Hfs'. eapply auth_failed; [exact Hm'|lia|done].
Qed.

Lemma mode1_authenticate_bwp u b h :
  binv b h → coherent b → bwp (authenticate os cfg u) (auth_outcome u b h) b.
Proof.
  intros Hb Hco. assert (moves 0 b h b h 0) as Hm by by apply moves_refl.
  assert (∀ a, 0 ≤ h a) as Hh by (destruct Hb as (_ & ? & _); done).
  apply ensure_bwp; [intros _|intros _; eapply auth_failed; [done|lia|done]].
  apply bwp_bind. eapply bwp_mono; [by eapply (lookup_bwp (mo_cache _ Hcfg))|].
  intros b1 [[[a|]|]|] [Hfs1 Hr1]; [| |done|done].
  { destruct Hr1 as [Hm1 Ha]. eapply lease_if_available_bwp; [done|lia|done|done|done]. }
  apply ensure_bwp; [intros Hav1|intros _; eapply auth_failed; [done|lia|done]].
  apply bwp_bind. eapply bwp_mono; [apply bwp_keeps; [apply keeps_cache|by eapply (lookup_bwp (mo_cache _ Hcfg))]|].
  intros b2 [[[a|]|]|] [[Hfs2 Hr2] Hav2]; [| |done|done].
  { destruct Hr2 as [Hm2 Ha]. eapply lease_if_available_bwp; [done|lia|done|done|done]. }
  apply bwp_bind, then_healthy_bwp; [unfold healthy in *; congruence|apply authenticate_cold_keeps|].
  eapply bwp_mono; [eapply (authenticate_cold_bwp (0 + 1 + 1)); [exact Hr2|lia|done|done]|].
  intros b3 [[[a [p|]]|e]|] [[Hfs3 Hr3] Hno]; [done|by apply (bwp_ret (Ok a))|done|done].
Qed.

Lemma lease_if_wanted_bwp (n0 : Z) b0 b h k u a :
  moves n0 b0 h b (own_add h a 1) k → n0 ≤ 10 → fs_ b = fs_ b0 → 0 ≤ h a →
  (∃ m, arc_model_of (w_ b) a = Some m ∧ model_stored (fs_ b0) u m) →
  bwp (lease_if_wanted os a) (λ b' r, active_outcome u b0 h b' r ∧
    match r with Some (Ok (_, Some _)) => False | _ => True end) b.
Proof.
  intros Hm Hn0 Hfs Ha Hmo.
  assert (∀ d, d_files d = fs_ b0 → moves n0 b0 h (mkBackend d (w_ b) (c_ b)) (own_add h a 1) k →
    bwp (bbind (release_lease a) (λ _, bfail Unavailable)) (λ b' r, active_outcome u b0 h b' r ∧
      match r with Some (Ok (_, Some _)) => False | _ => True end) (mkBackend d (w_ b) (c_ b))) as Hrel.
  { intros d Hd Hm'. eapply bwp_bind, bwp_mono; [eapply (release_lease_bwp (limits:=mb_cache_limits cfg)); [by destruct Hm'|]|].
    { rewrite own_add_eq. lia. }
    intros b4 r4 (-> & Hfs4 & Hg4). apply (bwp_ret (Err _)). split; [|done].
    eapply (active_failed (n0 + 1)); [|lia|by rewrite Hfs4].
    eapply moves_forget; [exact Hm'| |apply few_0|done|done].
    eapply grows_handles; [|exact Hg4]. intros x. apply own_add_back. }
  apply bwp_case, bwp_bind. eapply (bwp_quiet (fs_ b0) _ (λ x, x = Ok () ∨ x = Err Unavailable));
    [apply check_cancelled_quiet; auto|done|by split|].
  intros d x Hd Hx. assert (moves n0 b0 h (mkBackend d (w_ b) (c_ b)) (own_add h a 1) k) as Hm'
    by (apply moves_quiet; [done|congruence]).
  destruct Hx as [-> | ->]; [|by apply Hrel]. eexists _, _. split; [done|]. cbn beta iota. unfold availability_check.
  destruct (av_poisoned _); [by apply Hrel|]. apply (bwp_ret (Ok _)). split; [|done]. apply leased_active; [done|].
  split; [|done]. eapply effect_moves; [exact Hm'|lia|by right].
Qed.

(** A cancellation check that ends the call. *)
Lemma checked_bwp {A : Type} (n0 : Z) b0 b h k (f : () → bop A) Q :
  moves n0 b0 h b h k → fs_ b = fs_ b0 →
  (∀ d, d_files d = fs_ b0 → moves n0 b0 h (mkBackend d (w_ b) (c_ b)) h k → bwp (f ()) Q (mkBackend d (w_ b) (c_ b))) →
  (∀ d e, d_files d = fs_ b0 → moves n0 b0 h (mkBackend d (w_ b) (c_ b)) h k →
     Q (mkBackend d (w_ b) (c_ b)) (Some (Err e))) →
  (∀ b', fs_ b' = fs_ b0 → Q b' None) →
  bwp (bbind (check_cancelled os) f) Q b.
Proof.
  intros Hm Hfs Hf Herr Hstop. eapply check_bwp; [exact Hm|done|exact Hf| |exact Hstop].
  intros d Hd Hm'. apply (bwp_ret (Err _)). by apply Herr.
Qed.

Lemma authenticate_active_internal_bwp u provisional b h :
  binv b h → coherent b →
  bwp (authenticate_active_internal os cfg u provisional) (λ b' r, active_outcome u b h b' r ∧
    match r with Some (Ok (_, Some _)) => provisional = true | _ => True end) b.
Proof.
  intros Hb Hco. assert (moves 0 b h b h 0) as Hm by by apply moves_refl.
  assert (∀ a, 0 ≤ h a) as Hh by (destruct Hb as (_ & ? & _); done).
  assert (∀ n0 b' k e, moves n0 b h b' h k → n0 ≤ 20 → fs_ b' = fs_ b →
    active_outcome u b h b' (Some (Err e)) ∧ True) as Hfail by (intros; split; [by eapply active_failed|done]).
  assert (∀ n0 b1 k a, moves n0 b h b1 (own_add h a 1) k → n0 ≤ 10 → fs_ b1 = fs_ b →
    (∃ m, arc_model_of (w_ b1) a = Some m ∧ model_stored (fs_ b) u m) →
    bwp (lease_if_wanted os a) (λ b' r, active_outcome u b h b' r ∧
      match r with Some (Ok (_, Some _)) => provisional = true | _ => True end) b1) as Hwarm.
  { intros n0 b1 k a Hm1 Hn1 Hfs1 Hmo.
    eapply bwp_mono; [by eapply lease_if_wanted_bwp|]. intros b' r [Hr Hno]. split; [done|].
    by destruct r as [[[a' [p|]]|]|]. }
  eapply checked_bwp; [exact Hm|done| |intros; eapply Hfail; [done|lia|done]|by split].
  intros d Hd Hm0. apply ensure_bwp; [intros _|intros _; eapply Hfail; [done|lia|done]].
  apply bwp_bind. eapply bwp_mono; [by eapply (lookup_bwp (mo_cache _ Hcfg))|].
  intros b1 [[[a|]|]|] [Hfs1 Hr1]; [| |done|done].
  { destruct Hr1 as [Hm1 Ha]. eapply Hwarm; [exact Hm1|lia|done|done]. }
  eapply checked_bwp; [exact Hr1|done| |intros; eapply Hfail; [done|lia|done]|by split].
  intros d1 Hd1 Hm1. apply ensure_bwp; [intros Hav1|intros _; eapply Hfail; [done|lia|done]].
  apply bwp_bind. eapply bwp_mono; [apply bwp_keeps; [apply keeps_cache|by eapply (lookup_bwp (mo_cache _ Hcfg))]|].
  intros b2 [[[a|]|]|] [[Hfs2 Hr2] Hav2]; [| |done|done].
  { destruct Hr2 as [Hm2 Ha]. eapply Hwarm; [exact Hm2|lia|done|done]. }
  apply then_healthy_bwp; [unfold healthy in *; congruence|apply authenticate_cold_keeps|].
  eapply authenticate_cold_bwp; [exact Hr2|lia|done|done].
Qed.

Lemma mode1_authenticate_active_bwp u b h :
  binv b h → coherent b → bwp (authenticate_active os cfg u) (active_outcome u b h) b.
Proof.
  intros Hb Hco. eapply bwp_mono; [by apply authenticate_active_internal_bwp|]. by intros b' r [].
Qed.

Lemma mode1_authenticate_cancellable_bwp u b h :
  binv b h → coherent b → bwp (authenticate_cancellable os cfg u) (auth_outcome u b h) b.
Proof.
  intros Hb Hco. apply bwp_bind. eapply bwp_mono; [by apply authenticate_active_internal_bwp|].
  intros b' [[[a [p|]]|e]|] [[Hfs Hr] Hno]; [done|by apply (bwp_ret (Ok a))|done|done].
Qed.

(** ** Reload and startup *)

(** What a scan under the backend leaves: no record touched, and poisoned only for an unfinished
    transaction. *)
Definition rescanned {A : Type} (P : A → Prop) b h b' (r : option (bresult A)) : Prop :=
  apart (fs_ b) (fs_ b') ∧
  match r with
  | None => True
  | Some x => effect b h b' h ∧ (∀ a, x = Ok a → P a) ∧
      (healthy b → poisoned b' → ∃ name, unfinished (fs_ b) name)
  end.

Lemma apart_records fs fs' : apart fs fs' → same_records fs fs'.
Proof. intros Ha v. simpl. by rewrite Ha. Qed.

(** A scan, from a moved state. *)
Lemma scan_bwp (n0 : Z) b0 b h k (Q : Backend R → option (bresult (list OuterRecordStatus)) → Prop) :
  moves n0 b0 h b h k → fs_ b = fs_ b0 →
  (∀ d x, moves n0 b0 h (mkBackend d (w_ b) (c_ b)) h k → apart (fs_ b0) (d_files d) →
     ms_availability (d_local d) = availability b → (∀ l, x = Ok l → scan_report cfg (fs_ b0) l) →
     Q (mkBackend d (w_ b) (c_ b)) (Some x)) →
  (∀ b' k' e, moves (n0 + 1) b0 h b' h k' → apart (fs_ b0) (fs_ b') → c_disabled (c_ b') = true →
     (∃ name, unfinished (fs_ b0) name) → Q b' (Some (Err e))) →
  (∀ b', apart (fs_ b0) (fs_ b') → Q b' None) →
  bwp (durable (scan_outer_headers os cfg)) Q b.
Proof.
  intros Hm Hfs HQ Hpois Hstop. unfold bwp, durable.
  destruct (scan_outer_headers os cfg (b_disk b)) as [d r] eqn:Hd. pose proof (steady_scan cfg _ _ _ Hd) as Hav.
  assert (scan_outcome cfg (fs_ b0) (d_files d) r) as [Hap Hr].
  { by eapply (scan_outer_headers_wp (os:=os) cfg (fs_ b0)); [exact Hd|]. }
  assert (moves n0 b0 h (mkBackend d (w_ b) (c_ b)) h k) as Hm'.
  { apply moves_disk; [done|]. intros v _. rewrite Hfs. by apply apart_records. }
  destruct r as [[l|[e|reason e]]|].
  - eexists _, _. split; [done|]. apply HQ; [done|done|done|]. by intros l' [= <-].
  - eexists _, _. split; [done|]. by apply HQ.
  - eapply (poison_bwp cfg Hcfg reason e); [exact Hm|]. intros b' k' Hm2 Hfs2 Hp Hdis _.
    eapply Hpois; [exact Hm2|by rewrite Hfs2|done|done].
  - eexists _, _. split; [done|]. by apply Hstop.
Qed.

Definition reload_report fs (answer : ReloadResult) : Prop := scan_report cfg fs (re_records answer).

Lemma mode1_reload_bwp b h :
  binv b h → coherent b → bwp (reload os cfg) (rescanned (reload_report (fs_ b)) b h) b.
Proof.
  intros Hb Hco. assert (moves 0 b h b h 0) as Hm by by apply moves_refl.
  assert (∀ n0 b' k (x : bresult ReloadResult), moves n0 b h b' h k → n0 ≤ 20 → apart (fs_ b) (fs_ b') →
    (∀ a, x = Ok a → reload_report (fs_ b) a) → (healthy b → poisoned b' → ∃ name, unfinished (fs_ b) name) →
    rescanned (reload_report (fs_ b)) b h b' (Some x)) as Hdone.
  { intros n0 b' k x Hm' Hn Hap Hx Hun. split; [done|]. split_and!; [|done|done]. exists k.
    split; [by eapply moves_le|]. intros _. left. by apply apart_records. }
  apply ensure_bwp; [intros Hav|intros Hp; eapply Hdone; [done|lia|done|done|]].
  2:{ intros Hh. unfold healthy, poisoned in *. congruence. }
  apply bwp_bind. destruct (cache_clear_spec _ (mo_cache _ Hcfg) _ _ _ Hb) as (w1 & c1 & Hcl & Hinv1 & _).
  eapply bwp_cache; [by rewrite Hcl|]. apply cache_clear_evolves in Hcl. cbn beta iota.
  assert (moves (0 + 1) b h (mkBackend (b_disk b) w1 c1) h (0 + 1)) as Hm1.
  { eapply moves_forget; [done|by apply evolves_grows|apply few_1|done|done]. }
  apply bwp_bind. eapply scan_bwp; [exact Hm1|done|..].
  - intros d x Hm' Hap Hav' Hx.
    assert (healthy b → poisoned (mkBackend d w1 c1) → ∃ name, unfinished (fs_ b) name) as Hno.
    { unfold healthy, poisoned, availability in *. simpl in *. rewrite Hav'. congruence. }
    destruct x as [l|e].
    + apply (bwp_ret (Ok _)). eapply Hdone; [exact Hm'|lia|done| |done]. intros a [= <-]. by apply Hx.
    + eapply Hdone; [exact Hm'|lia|done|done|done].
  - intros b' k' e Hm' Hap Hdis Hun. eapply Hdone; [exact Hm'|lia|done|done|done].
  - by split.
Qed.

(** A directory the backend starts on: no unfinished transaction, every record file bound to
    the key's epoch, the user and the model. *)
Definition startable fs : Prop :=
  (∀ name node, fs !! name = Some node →
     match entry_class name node with
     | NcAuthoritative _ | NcTemporary => True
     | NcStaged => pre_exchange cfg fs name
     | _ => False
     end) ∧
  (∀ u, username_wf u → fs !! filename u ≠ None →
     ∃ node hd, fs !! filename u = Some node ∧ header_of cfg node u hd).

Lemma check_statuses_Ok statuses x :
  check_statuses statuses = Ok x → Forall (λ s, ∃ g, os_classification s = OuterCandidate g) statuses.
Proof.
  induction statuses as [|s statuses IH]; cbn [check_statuses]; [done|].
  destruct (os_classification s) eqn:E; try done. intros Hc. constructor; [by eexists|by apply IH].
Qed.

Lemma scan_report_startable fs statuses x :
  scan_report cfg fs statuses → check_statuses statuses = Ok x → startable fs.
Proof.
  intros (_ & _ & Hiff & Hsound & Hset) Hall%check_statuses_Ok. split.
  - intros name node Hn. destruct (Hset name) as (node' & Hn' & Hs); [congruence|].
    rewrite Hn in Hn'. injection Hn' as <-. by destruct (entry_class name node).
  - intros u Hu Hn. apply Hiff in Hn as (s & -> & Hs)%list_elem_of_fmap; [|done].
    rewrite Forall_forall in Hall, Hsound. destruct (Hall _ Hs) as [g Hg]. destruct (Hsound _ Hs) as [_ Hk].
    rewrite Hg in Hk. destruct Hk as (node & hd & Hnode & Hh & _). by exists node, hd.
Qed.

(** An opened backend: an empty cache, an unused budget, available. *)
Definition opened (budget_limit : Z) fs b : Prop :=
  fs_ b = fs ∧ c_ b = cache_new ∧ availability b = availability_default ∧ 0 ≤ budget_limit ≤ U64_MAX ∧
  ∃ budget, PlaintextBudget_new budget_limit = Ok budget ∧ w_ b = mkWorld budget ∅ ∅.

Definition started_from b0 b (r : option (bresult ())) : Prop :=
  apart (fs_ b0) (fs_ b) ∧
  (r = Some (Ok ()) → w_ b = w_ b0 ∧ c_ b = c_ b0 ∧ availability b = availability b0 ∧ startable (fs_ b0)).

Lemma new_with_sources_bwp b0 h :
  binv b0 h → coherent b0 → bwp (new_with_sources os cfg) (started_from b0) b0.
Proof.
  intros Hb Hco. assert (moves 0 b0 h b0 h 0) as Hm by by apply moves_refl.
  unfold new_with_sources. destruct (_ =? 0); [by apply (bwp_ret (Err _))|].
  apply bwp_bind. eapply (quiet_bwp cfg 0 b0 _ _ _ _ _ (λ _, True));
    [by apply quiet_disk, validate_directory_reads| |exact Hm|done|..].
  { apply keeps_disk, steady_validate_directory. }
  2:{ intros d Hd. split; [intros v; simpl; by rewrite Hd|done]. }
  intros d [[]|e] Hd Hm1 Hav _; [|by split; [intros v; simpl; rewrite Hd|]].
  apply bwp_bind. eapply scan_bwp; [exact Hm1|done|..].
  - intros d2 [l|e] Hm2 Hap Hav2 Hx; [|by split]. apply bwp_ret. split; [done|]. intros Hc.
    split_and!; [done|done| |].
    + unfold availability in *. simpl in *. congruence.
    + injection Hc as Hc. by eapply scan_report_startable; [apply Hx|].
  - by split.
  - by split.
Qed.
End queries.
