(* ===== verification/Mode1System.v ===== *)
(** * The mode-1 backend in use

    Calls on the backend, the leases and pending promotions its callers hold, the machine
    stopping at any point, and startups, which may fail, on what the directory then holds; the
    properties of all states this leads to. *)

From stdpp Require Import sorting.
From S2P Require Import Prelude Bytes Storage Crypto Codec CodecReader CodecPayload CodecPlain CodecEncrypted Legacy Contracts Budget Cache CacheLru CacheProofs CacheSystem PromptState Handlers Disk Backend CacheModels BackendOps BackendCalls BackendSystem Fingerprint Mode1 Mode1Store Mode1Proofs Mode1Write Mode1Scan Mode1Health Mode1Calls Mode1Auth.

Section system.
  Context `{AesGcmLaws} {S : Type} `{RandomSourceLaws S}.
  Context (os : DiskOs) `{!DiskOsLaws os} (cfg : Mode1Settings) (Hok : mode1_ok cfg).
  Implicit Types (b : Backend (Mode1State S)) (h : owners) (u : CanonicalUsername).

Abbreviation R := (Mode1State S).
Abbreviation w_ b := (b_world b).
Abbreviation c_ b := (b_cache b).
Abbreviation fs_ b := (d_files (b_disk b)).
Abbreviation binv := (binv (limits:=mb_cache_limits cfg)).
Abbreviation effect := (effect (limits:=mb_cache_limits cfg)).

#[local] Instance system_records : RecordStore := mode1_records cfg.

Definition perform (call : Call) : bop (R:=R) Gain :=
  match call with
  | CallAppend request => nothing (append os cfg request)
  | CallRemove request => nothing (remove os cfg request)
  | CallClear request => nothing (clear os cfg request)
  | CallList u => nothing (list_metadata os cfg u)
  | CallPresence u => nothing (candidate_presence os cfg u)
  | CallSnapshot u => nothing (prompt_snapshot os cfg u)
  | CallAuthenticate u => gaining (authenticate os cfg u) (λ a, mkGain [a] None)
  | CallAuthenticateCancellable u => gaining (authenticate_cancellable os cfg u) (λ a, mkGain [a] None)
  | CallAuthenticateActive u => gaining (authenticate_active os cfg u) (λ x, mkGain [x.1] x.2)
  | CallReload => nothing (reload os cfg)
  end.

(** A startup that succeeds, after any number that did not. *)
Inductive mode1_started (budget_limit : Z) : files → Backend R → Prop :=
| started_now fs b0 b :
    opened budget_limit fs b0 → new_with_sources os cfg b0 = Some (b, Some (Ok ())) →
    mode1_started budget_limit fs b
| started_later fs b0 b1 r b :
    opened budget_limit fs b0 → new_with_sources os cfg b0 = Some (b1, r) →
    mode1_started budget_limit (fs_ b1) b → mode1_started budget_limit fs b.

(** The backend as its callers see it. *)
Definition mode1_service (budget_limit : Z) : Service R :=
  mkService R Call call_ok perform (mode1_started budget_limit) (mb_cache_limits cfg) (mb_identity cfg).

Definition mode1_reachable (budget_limit : Z) : StoreSys → Prop :=
  store_reachable (mode1_service budget_limit).

Lemma opened_fresh limit fs b : opened limit fs b → fresh b.
Proof. intros (_ & Hc & _ & Hl & budget & Hbud & Hw). split; [done|]. by exists limit, budget. Qed.

(** An opened backend keeps the accounts, with nothing cached. *)
Lemma opened_inv limit fs b : opened limit fs b → binv b (λ _, 0) ∧ coherent b.
Proof.
  intros (_ & Hc & _ & Hl & budget & Hbud & Hw). split.
  - unfold BackendOps.binv. rewrite Hc, Hw.
    apply (cache_init_inv (mb_cache_limits cfg) (mo_cache _ Hok) budget).
    by destruct (PlaintextBudget_new_inv _ _ Hl Hbud).
  - intros u m. unfold cached. by rewrite Hc.
Qed.

Lemma opened_starts limit fs b0 :
  opened limit fs b0 → bwp (new_with_sources os cfg) (started_from cfg b0) b0.
Proof. intros Ho. destruct (opened_inv _ _ _ Ho) as [Hb Hco]. by eapply new_with_sources_bwp. Qed.

Lemma started_fresh limit fs b : mode1_started limit fs b → fresh b.
Proof.
  induction 1 as [fs b0 b Ho Hrun|]; [|done].
  destruct (opened_starts _ _ _ Ho) as (b' & r & Hrun' & _ & Hs). rewrite Hrun in Hrun'.
  injection Hrun' as <- <-. destruct (Hs eq_refl) as (Hw & Hc & _).
  destruct (opened_fresh _ _ _ Ho) as (? & l & budget & ? & ? & ?).
  split; [congruence|]. exists l, budget. split_and!; try lia; congruence.
Qed.

Lemma mode1_mutation_effect {A : Type} u target says b h b' (r : option (bresult A)) :
  mutation cfg u target says b h b' r → r ≠ None → effect b h b' h.
Proof. intros [_ Hr] ?. destruct r as [[]|]; [by destruct Hr..|done]. Qed.

Lemma mode1_perform_bwp call b h :
  call_ok call → binv b h → coherent b →
  bwp (perform call) (call_effect (mb_cache_limits cfg) b h) b.
Proof.
  intros Hcall Hb Hco. destruct call; simpl in Hcall.
  - eapply nothing_bwp; [by eapply mode1_append_bwp|]. intros b' x Hr. by eapply mode1_mutation_effect.
  - eapply nothing_bwp; [by eapply mode1_remove_bwp|]. intros b' x Hr. by eapply mode1_mutation_effect.
  - eapply nothing_bwp; [by eapply mode1_clear_bwp|]. intros b' x Hr. by eapply mode1_mutation_effect.
  - eapply nothing_bwp; [by eapply mode1_list_metadata_bwp|]. by intros b' x (_ & ? & _).
  - eapply nothing_bwp; [by eapply mode1_candidate_presence_bwp|]. by intros b' x (_ & ? & _).
  - eapply nothing_bwp; [by eapply mode1_prompt_snapshot_bwp|]. by intros b' x (_ & ? & _).
  - eapply lease_bwp. by eapply mode1_authenticate_bwp.
  - eapply lease_bwp. by eapply mode1_authenticate_cancellable_bwp.
  - eapply active_bwp. by eapply mode1_authenticate_active_bwp.
  - eapply nothing_bwp; [by eapply mode1_reload_bwp|]. by intros b' x (_ & ? & _).
Qed.

Lemma mode1_service_ok limit : service_ok (mode1_service limit).
Proof. split; [apply Hok|apply Hok|intros fs b; apply started_fresh|exact mode1_perform_bwp]. Qed.

Lemma mode1_reachable_inv limit s :
  mode1_reachable limit s → binv (ss_backend s) (ss_handles s) ∧ coherent (ss_backend s).
Proof. intros Hr. by destruct (store_reachable_inv _ (mode1_service_ok limit) s Hr) as (? & ? & _). Qed.

(** ** Properties of all reachable states *)


(** What a load for authentication promises. *)
Definition leases_authentic {A : Type} u b (m : bop (R:=R) A) (lease : A → positive) : Prop :=
  ∃ b' r, m b = Some (b', r) ∧ fs_ b' = fs_ b ∧
    ∀ x, r = Some (Ok x) → ∃ record model, stored cfg (fs_ b) u record ∧ entries record ≠ [] ∧
      AuthModel_from_record record = Ok model ∧ arc_model_of (w_ b') (lease x) = Some model.

Lemma leased_authentic {A : Type} u b (m : bop (R:=R) A) (lease : A → positive) P :
  bwp m P b →
  (∀ b' r, P b' r → fs_ b' = fs_ b ∧ ∀ x, r = Some (Ok x) →
     ∃ model, arc_model_of (w_ b') (lease x) = Some model ∧ stored_model cfg (fs_ b) u model) →
  leases_authentic u b m lease.
Proof.
  intros (b' & r & Hm & HP) Hall. destruct (Hall _ _ HP) as [Hfs Hx]. exists b', r.
  split_and!; [done|done|]. intros x Hr. destruct (Hx x Hr) as (model & Ha & record & Hs & Hl).
  unfold record_auth_model in Hl. case_bool_decide; [done|]. eauto 6.
Qed.

(** C14: Each of the three authentication loads returns, leaves the directory alone, and hands out
    a lease only on the model of a non-empty record that is stored for that very user at the
    time and opens under the backend's key, epoch and recognizer model. *)
Theorem mode1_leases_authenticated limit s u :
  mode1_reachable limit s →
  leases_authentic u (ss_backend s) (authenticate os cfg u) id ∧
  leases_authentic u (ss_backend s) (authenticate_cancellable os cfg u) id ∧
  leases_authentic u (ss_backend s) (authenticate_active os cfg u) fst.
Proof.
  intros Hr. destruct (mode1_reachable_inv _ _ Hr) as [Hb Hco].
  split_and!; eapply leased_authentic; try done.
  - by eapply mode1_authenticate_bwp.
  - intros b' r [Hfs Ho]. split; [done|]. intros a ->. by destruct Ho.
  - by eapply mode1_authenticate_cancellable_bwp.
  - intros b' r [Hfs Ho]. split; [done|]. intros a ->. by destruct Ho.
  - by eapply mode1_authenticate_active_bwp.
  - intros b' r [Hfs Ho]. split; [done|]. intros [a [p|]] ->.
    + destruct Ho as (_ & <- & <- & _ & m & Hm & Hs & _). eauto.
    + by destruct Ho.
Qed.

(** The record of [u] is as it was: the same file but for the time of its last change. *)
Definition record_kept u b b' : Prop :=
  file_view <$> fs_ b' !! filename u = file_view <$> fs_ b !! filename u.

(** C9: Appending to an encrypted record is a transaction: the other users' files are untouched;
    a success means the expected generation was current and the continued record is stored
    and opens; a failure leaves the record as it was, or the backend is poisoned; and then, as
    when the machine stops, the record is the old one or the complete new one. *)
Theorem mode1_append_transaction limit s request :
  mode1_reachable limit s → append_request_ok request →
  let b := ss_backend s in let u := ap_username request in
  ∃ b' r, append os cfg request b = Some (b', r) ∧
    (∀ v, v ≠ u → fs_ b' !! filename v = fs_ b !! filename v) ∧
    match r with
    | Some (Ok answer) => ∃ loaded record, current cfg (fs_ b) u loaded ∧
        from_option generation ABSENT_GENERATION loaded = ap_expected_generation request ∧
        entries record = from_option entries [] loaded ++ ap_entries request ∧
        stored cfg (fs_ b') u record ∧
        answer = mkAppendResult (generation record) (len (ap_entries request)) (len (entries record))
    | Some (Err _) => record_kept u b b' ∨ poisoned b' ∧ append_done cfg request (fs_ b) (fs_ b')
    | None => record_kept u b b' ∨ append_done cfg request (fs_ b) (fs_ b')
    end.
Proof.
  intros Hr Hreq b u. destruct (mode1_reachable_inv _ _ Hr) as [Hb Hco].
  destruct (mode1_append_bwp cfg Hok request b (ss_handles s) Hreq Hb Hco) as (b' & r & Hrun & Hoth & Hans).
  exists b', r. split; [done|]. split; [intros v; by apply others_state|].
  destruct r as [[answer|e]|]; [|by destruct Hans|done].
  destruct Hans as (_ & record & (loaded & Hcur & Hrec) & Hst & ->). exists loaded, record.
  by destruct (appended_record_spec _ Hok _ _ _ _ Hreq Hcur Hrec) as (_ & _ & _ & _ & ? & ?).
Qed.

(** Removing one enrollment is such a transaction too, and a success means exactly that
    enrollment is gone from the record. *)
Theorem mode1_remove_transaction limit s request :
  mode1_reachable limit s → username_wf (rm_username request) →
  let b := ss_backend s in let u := rm_username request in
  ∃ b' r, remove os cfg request b = Some (b', r) ∧
    (∀ v, v ≠ u → fs_ b' !! filename v = fs_ b !! filename v) ∧
    match r with
    | Some (Ok answer) => ∃ loaded record before e after, stored cfg (fs_ b) u loaded ∧
        generation loaded = rm_expected_generation request ∧ entries loaded = before ++ e :: after ∧
        enrollment_id e = rm_enrollment_id request ∧ entries record = before ++ after ∧
        rm_enrollment_id request ∉ entry_ids (entries record) ∧ stored cfg (fs_ b') u record ∧
        answer = mkRemoveResult (generation record) (rm_enrollment_id request)
    | Some (Err _) => record_kept u b b' ∨ poisoned b' ∧ remove_done cfg request (fs_ b) (fs_ b')
    | None => record_kept u b b' ∨ remove_done cfg request (fs_ b) (fs_ b')
    end.
Proof.
  intros Hr Hu b u. destruct (mode1_reachable_inv _ _ Hr) as [Hb Hco].
  destruct (mode1_remove_bwp cfg Hok request b (ss_handles s) Hu Hb Hco) as (b' & r & Hrun & Hoth & Hans).
  exists b', r. split; [done|]. split; [intros v; by apply others_state|].
  destruct r as [[answer|e]|]; [|by destruct Hans|done].
  destruct Hans as (_ & record & (loaded & Hcur & Hrec) & Hst & ->).
  destruct (shortened_record_spec _ Hok _ _ _ _ Hu Hcur Hrec) as (_ & _ & _ & ? & before & e & after & ?).
  exists loaded, record, before, e, after. naive_solver.
Qed.

(** C32: Clearing goes through a tombstone: a success means the record existed at the expected
    generation and is gone; a failure leaves it as it was, or the backend is poisoned; and
    then, as when the machine stops, the record is the old one or none. *)
Theorem mode1_clear_transaction limit s request :
  mode1_reachable limit s →
  let b := ss_backend s in let u := cl_username request in
  ∃ b' r, clear os cfg request b = Some (b', r) ∧
    (∀ v, v ≠ u → fs_ b' !! filename v = fs_ b !! filename v) ∧
    match r with
    | Some (Ok answer) => fs_ b' !! filename u = None ∧ ∃ loaded, stored cfg (fs_ b) u loaded ∧
        generation loaded = cl_expected_generation request ∧
        answer = mkClearResult ABSENT_GENERATION (len (entries loaded))
    | Some (Err _) => record_kept u b b' ∨ poisoned b' ∧ fs_ b' !! filename u = None
    | None => record_kept u b b' ∨ fs_ b' !! filename u = None
    end.
Proof.
  intros Hr b u. destruct (mode1_reachable_inv _ _ Hr) as [Hb Hco].
  destruct (mode1_clear_bwp cfg Hok request b (ss_handles s) Hb Hco) as (b' & r & Hrun & Hoth & Hans).
  exists b', r. split; [done|]. split; [intros v; by apply others_state|].
  destruct r as [[answer|e]|]; [|by destruct Hans|done]. by destruct Hans.
Qed.

(** ** Startup, reload, poisoning *)


(** A reload changes no record file, reports each user who has one exactly once and in order,
    a candidate with the generation its header states, and poisons the backend only for an
    unfinished transaction. *)
Theorem mode1_reload_reports limit s :
  mode1_reachable limit s → let b := ss_backend s in
  ∃ b' r, reload os cfg b = Some (b', r) ∧ (∀ v, fs_ b' !! filename v = fs_ b !! filename v) ∧
    match r with
    | Some (Ok answer) =>
        StronglySorted status_le (re_records answer) ∧ NoDup (os_username <$> re_records answer) ∧
        (∀ u, username_wf u → u ∈ os_username <$> re_records answer ↔ fs_ b !! filename u ≠ None) ∧
        ∀ u g, mkRecordStatus u (OuterCandidate g) ∈ re_records answer →
          ∃ node hd, fs_ b !! filename u = Some node ∧ header_of cfg node u hd ∧ g = h_record_generation hd
    | Some (Err _) => healthy b → poisoned b' → ∃ name, unfinished (fs_ b) name
    | None => True
    end.
Proof.
  intros Hr b. destruct (mode1_reachable_inv _ _ Hr) as [Hb Hco].
  destruct (mode1_reload_bwp cfg Hok b (ss_handles s) Hb Hco) as (b' & r & Hrun & Hap & Hans).
  exists b', r. split_and!; [done|done|]. destruct r as [[answer|e]|]; [|by destruct Hans as (_ & _ & ?)|done].
  destruct Hans as (_ & Hans & _). destruct (Hans _ eq_refl) as (Hsort & Hnd & Hiff & Hall & _).
  split_and!; [done|done|done|]. intros u g Hin. rewrite Forall_forall in Hall. by destruct (Hall _ Hin).
Qed.

Definition refused {A : Type} b b' (r : option (bresult A)) : Prop :=
  r = Some (Err Unavailable) ∧ fs_ b' = fs_ b ∧ poisoned b'.

(** The cancellable loads poll before they check. *)
Lemma active_refused u provisional b (Q : Backend R → option (bresult (positive * option CachePromotion)) → Prop) :
  poisoned b → (∀ b', fs_ b' = fs_ b → poisoned b' → Q b' (Some (Err Unavailable))) →
  bwp (authenticate_active_internal os cfg u provisional) Q b.
Proof.
  intros Hp HQ. apply bwp_bind. unfold bwp at 1, check_cancelled, on_disk, if_not_cancelled, dbind, poll.
  destruct (os_cancel os (d_tick (b_disk b))); eexists _, _; (split; [done|]); cbn beta iota; [by apply HQ|].
  apply ensure_bwp; [|intros _; by apply HQ]. unfold healthy, poisoned, availability in *. simpl. congruence.
Qed.

(** A poisoned backend stays poisoned, reports that its integrity is in doubt, and answers
    every call with Unavailable without touching the directory. *)
Theorem mode1_poisoned_refuses call b :
  poisoned b →
  health b = HealthUnavailable Integrity ∧
  ∃ b', perform call b = Some (b', Some (Err Unavailable)) ∧ fs_ b' = fs_ b ∧ poisoned b'.
Proof.
  intros Hp. split; [unfold health, availability_health; by rewrite Hp|].
  assert (bwp (perform call) (refused b) b) as (b' & r & Hrun & -> & ? & ?); [|by exists b'].
  assert (∀ (A : Type) (f : () → bop A) g, bwp (gaining (bbind ensure_available f) g) (refused b) b) as Hens.
  { intros A f g. apply gaining_bwp, ensure_bwp; [|done]. unfold healthy, poisoned in *. congruence. }
  destruct call; try apply Hens.
  - apply gaining_bwp, bwp_bind, active_refused; [done|]. by intros b' ??.
  - apply gaining_bwp, active_refused; [done|]. by intros b' ??.
Qed.
End system.

(** ** Concrete instances *)

Definition owner : CanonicalUsername := username sample_record.

Definition sealed_settings : Mode1Settings :=
  mkMode1Settings 0 (recognizer_model_sha256 sample_record) 3 (mkMode1Limits 10 65536) sample_key
    (bs "identity") (mkLimits 2 50000).
Lemma sealed_settings_ok : mode1_ok sealed_settings.
Proof.
  split; try done; unfold limits_ok; simpl; unfold MAX_ENTRIES, MAX_PLAINTEXT_BYTES; unfold_max; lia.
Qed.

Lemma counter_source_laws : RandomSourceLaws N.
Proof. intros r n r' b [= _ <-]. apply length_le_split. Qed.

(** A directory with one sealed record, and a backend started on it. *)
Definition sealed_files : files :=
  {[ filename owner := mkNode (mkStat RegularFile 0 0 33152 0 0 0 0 0 0 1) sample_sealed true ]}.
Definition sealed_opened : Backend (Mode1State N) :=
  mkBackend (mkDisk sealed_files (mkMode1State 0%N (nonce_from_source 0%N) availability_default) 0)
    (mkWorld (mkBudget 1000000 0 ∅) ∅ ∅) cache_new.

Section witnesses.
  #[local] Existing Instance toy_aead.
  #[local] Existing Instance toy_aead_laws.
  #[local] Existing Instance counter_source_laws.
  #[local] Existing Instance calm_os_laws.

Definition sealed_backend : Backend (Mode1State N) :=
  match new_with_sources calm_os sealed_settings sealed_opened with
  | Some (b, _) => b
  | None => sealed_opened
  end.
Definition sealed_system : StoreSys (R:=Mode1State N) := mkStoreSys sealed_backend (λ _, 0) [].

Lemma sealed_opened_ok : opened 1000000 sealed_files sealed_opened.
Proof. split_and!; [done|done|done|done|unfold_max; lia|]. by exists (mkBudget 1000000 0 ∅). Qed.

Lemma sealed_starts :
  new_with_sources calm_os sealed_settings sealed_opened = Some (sealed_backend, Some (Ok ())).
Proof. vm_compute. reflexivity. Qed.

Lemma sealed_reachable : mode1_reachable calm_os sealed_settings 1000000 sealed_system.
Proof.
  apply (reach_start _ sealed_files). apply (started_now _ _ _ _ sealed_opened); [apply sealed_opened_ok|apply sealed_starts].
Qed.

Definition sealed_append : AppendRequest := mkAppend owner 7 [second_entry].
Definition sealed_remove : RemoveRequest := mkRemove owner 7 sample_id.
Definition sealed_clear : ClearRequest := mkClear owner 7.

Definition outcome {A} (x : option (Backend (Mode1State N) * option (bresult A))) : option (option (bresult A)) :=
  snd <$> x.

Lemma sealed_append_ok : append_request_ok sealed_append.
Proof. split_and!; [done|done|]. constructor; [apply second_entry_wf|constructor]. Qed.


Lemma mode1_leases_authenticated_witness :
  ∃ b' record, authenticate calm_os sealed_settings owner sealed_backend = Some (b', Some (Ok 1%positive)) ∧
    stored sealed_settings (d_files (b_disk sealed_backend)) owner record.
Proof.
  destruct (mode1_leases_authenticated calm_os sealed_settings sealed_settings_ok 1000000 sealed_system owner
    sealed_reachable) as ((b' & r & Hrun & _ & Hr) & _).
  assert (outcome (authenticate calm_os sealed_settings owner sealed_backend) = Some (Some (Ok 1%positive)))
    as Ha by (vm_compute; reflexivity).
  change (ss_backend sealed_system) with sealed_backend in Hrun. rewrite Hrun in Ha. injection Ha as ->.
  destruct (Hr _ eq_refl) as (record & _ & Hs & _). exists b', record. split; [exact Hrun|exact Hs].
Defined.

Lemma mode1_append_transaction_witness :
  ∃ b' record, append calm_os sealed_settings sealed_append sealed_backend
                 = Some (b', Some (Ok (mkAppendResult 8 1 2))) ∧
    stored sealed_settings (d_files (b_disk b')) owner record.
Proof.
  destruct (mode1_append_transaction calm_os sealed_settings sealed_settings_ok 1000000 sealed_system sealed_append
    sealed_reachable sealed_append_ok) as (b' & r & Hrun & _ & Hr).
  assert (outcome (append calm_os sealed_settings sealed_append sealed_backend)
    = Some (Some (Ok (mkAppendResult 8 1 2)))) as Ha by (vm_compute; reflexivity).
  change (ss_backend sealed_system) with sealed_backend in Hrun. rewrite Hrun in Ha. injection Ha as ->.
  destruct Hr as (_ & record & _ & _ & _ & Hs & _). exists b', record. split; [exact Hrun|exact Hs].
Defined.

Lemma mode1_remove_transaction_witness :
  ∃ b' record, remove calm_os sealed_settings sealed_remove sealed_backend
                 = Some (b', Some (Ok (mkRemoveResult 8 sample_id))) ∧
    stored sealed_settings (d_files (b_disk b')) owner record.
Proof.
  destruct (mode1_remove_transaction calm_os sealed_settings sealed_settings_ok 1000000 sealed_system sealed_remove
    sealed_reachable eq_refl) as (b' & r & Hrun & _ & Hr).
  assert (outcome (remove calm_os sealed_settings sealed_remove sealed_backend)
    = Some (Some (Ok (mkRemoveResult 8 sample_id)))) as Ha by (vm_compute; reflexivity).
  change (ss_backend sealed_system) with sealed_backend in Hrun. rewrite Hrun in Ha. injection Ha as ->.
  destruct Hr as (_ & record & _ & _ & _ & _ & _ & _ & _ & _ & _ & Hs & _). exists b', record.
  split; [exact Hrun|exact Hs].
Defined.

Lemma mode1_clear_transaction_witness :
  ∃ b', clear calm_os sealed_settings sealed_clear sealed_backend = Some (b', Some (Ok (mkClearResult 0 1))) ∧
    d_files (b_disk b') !! filename owner = None.
Proof.
  destruct (mode1_clear_transaction calm_os sealed_settings sealed_settings_ok 1000000 sealed_system sealed_clear
    sealed_reachable) as (b' & r & Hrun & _ & Hr).
  assert (outcome (clear calm_os sealed_settings sealed_clear sealed_backend)
    = Some (Some (Ok (mkClearResult 0 1)))) as Ha by (vm_compute; reflexivity).
  change (ss_backend sealed_system) with sealed_backend in Hrun. rewrite Hrun in Ha. injection Ha as ->.
  destruct Hr as [Hs _]. exists b'. split; [exact Hrun|exact Hs].
Defined.


Lemma mode1_reload_reports_witness :
  ∃ b' node, reload calm_os sealed_settings sealed_backend
      = Some (b', Some (Ok (mkReload Ready [mkRecordStatus owner (OuterCandidate 7)]))) ∧
    d_files (b_disk sealed_backend) !! filename owner = Some node.
Proof.
  destruct (mode1_reload_reports calm_os sealed_settings sealed_settings_ok 1000000 sealed_system sealed_reachable)
    as (b' & r & Hrun & _ & Hr).
  assert (outcome (reload calm_os sealed_settings sealed_backend)
    = Some (Some (Ok (mkReload Ready [mkRecordStatus owner (OuterCandidate 7)])))) as Ha
    by (vm_compute; reflexivity).
  change (ss_backend sealed_system) with sealed_backend in Hrun. rewrite Hrun in Ha. injection Ha as ->.
  destruct Hr as (_ & _ & _ & Hc). destruct (Hc owner 7) as (node & hd & Hs & _); [by left|].
  exists b', node. split; [exact Hrun|exact Hs].
Defined.

(** The same backend after a poisoning. *)
Definition poisoned_backend : Backend (Mode1State N) :=
  mkBackend (mkDisk sealed_files (mkMode1State 0%N (nonce_from_source 0%N)
    (availability_poison availability_default WriteRollback)) 0) (mkWorld (mkBudget 1000000 0 ∅) ∅ ∅) cache_new.

Lemma mode1_poisoned_refuses_witness :
  ∃ b', perform calm_os sealed_settings (CallClear sealed_clear) poisoned_backend = Some (b', Some (Err Unavailable)).
Proof.
  destruct (mode1_poisoned_refuses calm_os sealed_settings (CallClear sealed_clear) poisoned_backend eq_refl)
    as (_ & b' & Hrun & _). exists b'. exact Hrun.
Defined.
End witnesses.
