(* ===== verification/Security.v ===== *)
(** * The security transaction engine

    [crates/howy-cli/src/security]: the commands of [command.rs], and of [engine.rs] the files an
    engine observes, the calls of the [SecurityRuntime] trait, programs over these calls, the
    functions that call nothing, and the methods of [SecurityEngine] by which it persists a journal,
    brings an atomic write through its states, settles units, opens a supervised transaction and
    fails closed. A program asks the runtime for one thing at a time; the answer is an argument of
    what follows, and no answer means that the runtime panicked. The three journals go through the
    same steps, written once against an interface. *)

From stdpp Require Import sorting.
From S2P Require Import Prelude Bytes Storage Crypto Namespace Legacy Contracts Cache Config Paths PromptState Protocol Status Provision ProvisionAtomic Credential Cleanup Journal ConfigPatch Receipt.

(** ** [command.rs] *)

Inductive KeySelection := KsAuto | KsHost | KsTpm2 | KsHostAndTpm2.

Definition as_systemd_value (k : KeySelection) : bytes :=
  match k with
  | KsAuto => bs "auto" | KsHost => bs "host" | KsTpm2 => bs "tpm2" | KsHostAndTpm2 => bs "host+tpm2"
  end.
Definition may_use_host_secret (k : KeySelection) : bool :=
  match k with KsAuto | KsHost | KsHostAndTpm2 => true | KsTpm2 => false end.

(** The deadline is in seconds. *)
Record CommandSpec := mkCommand {
  cs_executable : bytes;
  cs_arguments : list bytes;
  cs_clear_environment : bool;
  cs_stdin_bytes : Z;
  cs_stdout_cap : Z;
  cs_stderr_cap : Z;
  cs_deadline : Z;
}.

Definition SYSTEMD_CREDS : bytes := bs "/usr/bin/systemd-creds".
Definition SYSTEMD_RUN : bytes := bs "/usr/bin/systemd-run".
Definition HOWYD : bytes := bs "/usr/bin/howyd".
Definition VISUDO : bytes := bs "/usr/bin/visudo".
Definition CHILD_STDOUT_CAP : Z := 16384.
Definition CHILD_STDERR_CAP : Z := 16384.
Definition CREDENTIAL_DEADLINE : Z := 30.
Definition READINESS_DEADLINE : Z := 135.
Definition VISUDO_DEADLINE : Z := 15.

Definition credential_encrypt_command (selector : KeySelection) : CommandSpec :=
  mkCommand SYSTEMD_CREDS
    [bs "--no-ask-password"; bs "--refuse-null"; bs "--name=" ++ MODE1_CREDENTIAL_NAME;
     bs "--with-key=" ++ as_systemd_value selector; bs "--tpm2-pcrs="; bs "encrypt"; bs "-"; bs "-"]
    true 32 1024 CHILD_STDERR_CAP CREDENTIAL_DEADLINE.

Definition readiness_unit_name (transaction_id : bytes) : bytes :=
  bs "howy-readiness-" ++ transaction_id ++ bs ".service".

Definition readiness_properties (artifact_path : bytes) : list bytes :=
  [bs "LoadCredentialEncrypted=" ++ MODE1_CREDENTIAL_NAME ++ bs ":" ++ artifact_path;
   bs "SetCredential=" ++ MODE1_CREDENTIAL_SOURCE_COMPANION_NAME ++ bs ":" ++ artifact_path;
   bs "TimeoutStartSec=10s"; bs "RuntimeMaxSec=120s"; bs "TimeoutStopSec=10s";
   bs "KillMode=control-group"; bs "SendSIGKILL=yes"; bs "MemoryMax=2G"; bs "TasksMax=256";
   bs "LimitCORE=0"; bs "LimitMEMLOCK=64K"; bs "UMask=0077"; bs "NoNewPrivileges=yes";
   bs "ProtectSystem=strict"; bs "ProtectHome=yes"; bs "PrivateTmp=yes"; bs "PrivateDevices=yes";
   bs "ProtectKernelTunables=yes"; bs "ProtectKernelModules=yes"; bs "ProtectControlGroups=yes";
   bs "RestrictNamespaces=yes"; bs "RestrictRealtime=yes"; bs "RestrictSUIDSGID=yes";
   bs "RestrictAddressFamilies=AF_UNIX"; bs "CapabilityBoundingSet="; bs "AmbientCapabilities=";
   bs "SystemCallArchitectures=native"; bs "LockPersonality=yes"; bs "MemoryDenyWriteExecute=no"].

Definition readiness_command (transaction_id config_path artifact_path : bytes) : CommandSpec :=
  mkCommand SYSTEMD_RUN
    ([bs "--system"; bs "--wait"; bs "--collect"; bs "--pipe"; bs "--quiet"; bs "--no-ask-password";
      bs "--service-type=exec"; bs "--expand-environment=no";
      bs "--unit=" ++ readiness_unit_name transaction_id]
     ++ ((λ property, bs "--property=" ++ property) <$> readiness_properties artifact_path)
     ++ [HOWYD; bs "--storage-readiness-only"; bs "--config"; config_path; bs "--verify-records"])
    true 0 CHILD_STDOUT_CAP CHILD_STDERR_CAP READINESS_DEADLINE.

Definition visudo_validation_command : CommandSpec :=
  mkCommand VISUDO [bs "-cf"; bs "/etc/sudoers"] true 0 CHILD_STDOUT_CAP CHILD_STDERR_CAP
    VISUDO_DEADLINE.

(** ** Requests, outcomes, errors *)

Inductive ProvisionMode := PmPlaintext | PmCachedAead | PmEphemeralAead.
Inductive ProvisionPresence := PpOff | PpConfirm.
#[export] Instance ProvisionPresence_eq_dec : EqDecision ProvisionPresence.
Proof. solve_decision. Defined.

Record ProvisionRequest := mkProvisionRequest {
  pr_mode : ProvisionMode;
  pr_presence : ProvisionPresence;
  pr_with_key : KeySelection;
  pr_adopt_existing : bool;
  pr_confirmed : bool;
}.
Record CleanupRequest := mkCleanupRequest {
  rq_transaction_id : bytes; rq_artifact_sha256 : Sha256Digest }.
Record SecurityOutcome := mkOutcome { so_messages : list bytes; so_cleanup_command : option bytes }.

Inductive SecurityError := Refused (message : bytes) | Operation (message : bytes) | Uncertain (message : bytes).
Abbreviation secresult := (result SecurityError).

(** [Display] of the errors that end up in messages. *)
Definition show_security_error (e : SecurityError) : bytes :=
  match e with
  | Refused m | Operation m => m
  | Uncertain m => bs "uncertain security state: " ++ m
  end.
Definition show_contract_error (e : ProvisioningContractError) : bytes :=
  match e with
  | LimitExceeded what => bs "provisioning input exceeds the " ++ bs what ++ bs " limit"
  | InvalidJson => bs "invalid provisioning JSON"
  | InvalidSchema what => bs "invalid provisioning schema: " ++ bs what
  | InvalidTransition => bs "invalid provisioning transition"
  | InvalidToml => bs "invalid provisioning TOML"
  | MissingDisabledLiteral =>
      bs "configuration does not contain one exact active [core] disabled = true literal"
  | AmbiguousDisabledLiteral =>
      bs "configuration contains an unsupported or ambiguous disabled-token layout"
  | InvalidConfigEncoding =>
      bs "configuration is not valid UTF-8 or uses unsupported CR line endings"
  | InvalidCredentialEnvelope => bs "invalid systemd encrypted credential envelope"
  | CredentialPolicyRejected => bs "systemd encrypted credential policy is not admissible"
  | InvalidNamespaceInventory => bs "namespace inventory is not canonical"
  end.

(** [map_err(|error| SecurityError::operation(error.to_string()))], and to [Uncertain]. *)
Definition contract {A} (r : pcresult A) : secresult A :=
  map_err (λ e, Operation (show_contract_error e)) r.
Definition contract_uncertain {A} (r : pcresult A) : secresult A :=
  map_err (λ e, Uncertain (show_contract_error e)) r.
(** [ok_or_else(|| SecurityError::operation(message))], and the like. *)
Definition required {A} (o : option A) (message : string) : secresult A :=
  ok_or o (Operation (bs message)).
Definition required_certain {A} (o : option A) (message : string) : secresult A :=
  ok_or o (Uncertain (bs message)).
(** [if c { return Err(..) }] *)
Definition operation_if (c : bool) (message : string) : secresult () :=
  if c then Err (Operation (bs message)) else Ok ().
Definition uncertain_if (c : bool) (message : string) : secresult () :=
  if c then Err (Uncertain (bs message)) else Ok ().
Definition refused_if (c : bool) (message : string) : secresult () :=
  if c then Err (Refused (bs message)) else Ok ().

Definition show_daemon_info_error (e : DaemonInfoValidationError) : bytes :=
  match e with
  | InfoInvalidField => bs "public daemon status contains an invalid bounded field"
  | InfoInconsistentState => bs "public daemon status fields are inconsistent"
  | InfoUnexpectedAvailability => bs "public daemon status availability contradicts disabled policy"
  end.
Definition show_security_info_error (e : SecurityInfoValidationError) : bytes :=
  match e with
  | UnknownEnum => bs "security status contains an unknown enum value"
  | SecInvalidField => bs "security status contains an invalid bounded field"
  | SecInconsistentState => bs "security status fields are inconsistent"
  end.

(** ** Observed files *)

Record ObservedFile := mkObserved {
  of_bytes : bytes;
  of_metadata : FileMetadataSnapshotV1;
  of_device_id : Z;
  of_inode : Z;
  of_parent_device_id : Z;
  of_parent_inode : Z;
  of_parent_uid : Z;
  of_parent_gid : Z;
  of_parent_permissions : Z;
  of_parent_link_count : Z;
}.
#[export] Instance ObservedFile_eq_dec : EqDecision ObservedFile.
Proof. solve_decision. Defined.

Record AtomicTargetObservation := mkTargetObservation {
  to_parent_directory : DirectoryIdentityV1; to_target : option ObservedFile }.
Inductive AtomicWriteReconciliation :=
| NotCommitted
| WasCommitted (observation : AtomicWriteObservationV1).

Section observed.
  Context `{Sha256}.

Definition observed_sha256 (f : ObservedFile) : Sha256Digest := digest_from_bytes (of_bytes f).

Definition observed_snapshot (f : ObservedFile) (maximum : Z) : secresult ExactFileSnapshot :=
  if maximum <? len (of_bytes f) then Err (Operation (bs "file exceeds transaction byte cap"))
  else contract (snapshot_new (of_bytes f) (of_metadata f)).

Definition validate_regular (f : ObservedFile) (uid gid permissions : Z) : secresult () :=
  let m := of_metadata f in
  if negb (bool_decide (fm_object_type m = FoRegularFile))
     || negb (fm_uid m =? uid) || negb (fm_gid m =? gid) || negb (fm_permissions m =? permissions)
     || negb (fm_link_count m =? 1) || negb (fm_byte_length m =? len (of_bytes f))
     || (of_device_id f =? 0) || (of_inode f =? 0)
  then Err (Operation (bs "unsafe file metadata")) else Ok ().

Definition cleanup_descriptor (f : ObservedFile) : ArtifactDescriptorIdentityV1 :=
  let m := of_metadata f in
  mkDescriptor MODE1_CREDENTIAL_PATH (of_device_id f) (of_inode f) (observed_sha256 f)
    (len (of_bytes f)) (fm_object_type m) (fm_uid m) (fm_gid m) (fm_permissions m) (fm_link_count m)
    (mkDirectoryIdentity MODE1_CREDENTIAL_DIRECTORY FoDirectory (of_parent_device_id f)
       (of_parent_inode f) (of_parent_uid f) (of_parent_gid f) (of_parent_permissions f)
       (of_parent_link_count f)).

Definition atomic_identity (f : ObservedFile) : AtomicFileIdentityV1 :=
  let m := of_metadata f in
  mkAtomicFileIdentity (of_device_id f) (of_inode f) (fm_object_type m) (fm_uid m) (fm_gid m)
    (fm_permissions m) (fm_link_count m) (fm_byte_length m) (observed_sha256 f).
End observed.

(** [file.validate_regular(0, 0, 0o600)] *)
Definition validate_private (f : ObservedFile) : secresult () := validate_regular f 0 0 mode_600.

(** ** Calls *)

(** [SecurityRuntime], each method with what it answers. A key is its exposed bytes. *)
Inductive Call : Type → Type :=
| RequireRoot : Call (secresult ())
| AcquireLock : Call (secresult ())
| ValidatePackageMarker : Call (secresult ())
| RequireSystemd261 : Call (secresult ())
| NewTransactionId : Call (secresult bytes)
| GenerateKey : Call (secresult bytes)
| ReadFile (path : bytes) (maximum : Z) : Call (secresult (option ObservedFile))
| ObserveAtomicTarget (path : bytes) (maximum : Z) : Call (secresult AtomicTargetObservation)
| CreateAtomicStage (plan : AtomicWritePlanV1) (b : bytes) : Call (secresult AtomicFileIdentityV1)
| CommitAtomicStage (plan : AtomicWritePlanV1) (staged : AtomicFileIdentityV1)
    : Call (secresult AtomicWriteObservationV1)
| ReconcileAtomicWrite (plan : AtomicWritePlanV1) (staged : option AtomicFileIdentityV1)
    : Call (secresult AtomicWriteReconciliation)
| RemoveAtomicBackup (plan : AtomicWritePlanV1) (observation : AtomicWriteObservationV1)
    : Call (secresult ())
| RemoveFileExact (path : bytes) (expected : AtomicFileIdentityV1) : Call (secresult ())
| PlanSecurityDirectory (path : bytes) (permissions : Z) : Call (secresult SecurityDirectoryRecordV1)
| EnsureSecurityDirectory (intent : SecurityDirectoryRecordV1) : Call (secresult DirectoryIdentityV1)
| VerifySecurityDirectories (directories : list SecurityDirectoryRecordV1) : Call (secresult ())
| VerifyRecordedPrefix (directories : list SecurityDirectoryRecordV1) : Call (secresult ())
| RollbackSecurityDirectories (directories : list SecurityDirectoryRecordV1) : Call (secresult ())
| RollbackRecordedPrefix (directories : list SecurityDirectoryRecordV1) : Call (secresult ())
| CreateGuard (transaction_id : bytes) (expected : option TransactionGuardIdentityV1)
    : Call (secresult TransactionGuardIdentityV1)
| RemoveGuard (transaction_id : bytes) (expected : TransactionGuardIdentityV1) : Call (secresult ())
| LoadJournal : Call (secresult (option ObservedFile))
| PersistJournal (prior : option ObservedFile) (b : bytes) : Call (secresult ObservedFile)
| RemoveJournal (transaction_id : bytes) (expected : ObservedFile) : Call (secresult ())
| ObserveUnit (unit : UnitKind) : Call (secresult UnitObservation)
| ObserveEffectiveUnit (unit : UnitKind) : Call (secresult EffectiveUnitObservationV1)
| ResolveKeySelection (requested : KeySelection) : Call (secresult KeySelection)
| HostSecretPreexistingSecure : Call (secresult bool)
| DaemonVerifierIdentity : Call (secresult DaemonVerifierIdentityV1)
| MonotonicMillis : Call Z
| SettleStep : Call (secresult ())
| StopUnit (unit : UnitKind) : Call (secresult ())
| StartUnit (unit : UnitKind) : Call (secresult ())
| DaemonReload : Call (secresult ())
| TransientExists (unit : bytes) : Call (secresult bool)
| StopAndKillTransient (unit : bytes) : Call (secresult ())
| EncryptCredential (command : CommandSpec) (plaintext : bytes) : Call (secresult bytes)
| RunReadiness (command : CommandSpec) : Call (secresult bytes)
| RunCheckedCommand (command : CommandSpec) : Call (secresult bytes)
| PreviewVerifier (config : bytes) : Call (secresult VerifierResultV1)
| NamespaceNonempty : Call (secresult bool)
| SecurityInfo : Call (secresult (option SecurityInfoResult))
| PublicInfo : Call (secresult (option DaemonInfo))
| QuarantineArtifact (expected : ArtifactDescriptorIdentityV1) (path : bytes) : Call (secresult ())
| RestoreQuarantined (expected : ArtifactDescriptorIdentityV1) (path : bytes) : Call (secresult ())
| UnlinkQuarantined (expected : ArtifactDescriptorIdentityV1) (path : bytes) : Call (secresult ())
| Boundary (name : string) : Call (secresult ()).

(** ** Programs *)

(** A program is done, asks something, or is in a loop for longer than it was given. *)
Inductive prog (A : Type) : Type :=
| Done (a : A)
| Ask {B : Type} (c : Call B) (k : option B → prog A)
| Running.
Arguments Done {A} a.
Arguments Ask {A B} c k.
Arguments Running {A}.

Fixpoint pbind {A B} (p : prog A) (k : A → prog B) : prog B :=
  match p with
  | Done a => k a
  | Ask c f => Ask c (λ r, pbind (f r) k)
  | Running => Running
  end.

(** [SecurityEngine] less its runtime. *)
Record Engine := mkEngine {
  en_armed_transaction : option bytes;
  en_active_guard : option TransactionGuardIdentityV1;
  en_journal_observation : option ObservedFile;
}.
(** [SecurityEngine::new] *)
Definition SecurityEngine_new : Engine := mkEngine None None None.

(** A method of the engine; no result means that it unwinds. *)
Abbreviation eng A := (Engine → prog (Engine * option (secresult A))).

Definition eret {A} (a : A) : eng A := λ e, Done (e, Some (Ok a)).
Definition efail {A} (err : SecurityError) : eng A := λ e, Done (e, Some (Err err)).
Definition elift {A} (r : secresult A) : eng A := λ e, Done (e, Some r).
Definition ebind {A B} (m : eng A) (k : A → eng B) : eng B := λ e,
  pbind (m e) (λ '(e, r),
    match r with
    | Some (Ok a) => k a e
    | Some (Err err) => Done (e, Some (Err err))
    | None => Done (e, None)
    end).
(** [self.runtime.call(..)?], and a call that cannot fail. *)
Definition ask {A} (c : Call (secresult A)) : eng A := λ e, Ask c (λ r, Done (e, r)).
Definition ask_value {A} (c : Call A) : eng A := λ e, Ask c (λ r, Done (e, Ok <$> r)).
(** A result looked at instead of propagated, and with it an unwinding ([catch_unwind]). *)
Definition etry {A} (m : eng A) : eng (secresult A) := λ e,
  pbind (m e) (λ '(e, r), Done (e, Ok <$> r)).
Definition ecatch {A} (m : eng A) : eng (option (secresult A)) := λ e,
  pbind (m e) (λ '(e, r), Done (e, Some (Ok r))).
Definition espin {A} : eng A := λ _, Running.

Definition egets {A} (f : Engine → A) : eng A := λ e, Done (e, Some (Ok (f e))).
Definition set_armed (t : option bytes) : eng () := λ e,
  Done (mkEngine t (en_active_guard e) (en_journal_observation e), Some (Ok ())).
Definition set_guard (g : option TransactionGuardIdentityV1) : eng () := λ e,
  Done (mkEngine (en_armed_transaction e) g (en_journal_observation e), Some (Ok ())).
Definition set_journal (f : option ObservedFile) : eng () := λ e,
  Done (mkEngine (en_armed_transaction e) (en_active_guard e) f, Some (Ok ())).

Declare Scope engine_scope.
Delimit Scope engine_scope with engine.
Notation "x <~ m ; k" := (ebind m (λ x, k))
  (at level 60, m at next level, k at level 200, right associativity) : engine_scope.
Notation "' p <~ m ; k" := (ebind m (λ x, match x with p => k end))
  (at level 60, p pattern, m at next level, k at level 200, right associativity) : engine_scope.

Definition boundary (name : string) : eng () := ask (Boundary name).

(** ** Functions that call nothing *)

Definition SECURITY_RECEIPT_PATH : bytes := bs "/var/lib/howy/security-state/receipt-v1.json".

(** [left != right] *)
Definition differs {A} `{EqDecision A} (x y : A) : bool := negb (bool_decide (x = y)).

(** [toml::to_string_pretty] of a configuration. *)
Class TomlPretty := toml_pretty : HowyConfig → option bytes.

Definition lf : bytes := [Byte.x0a].
Definition MODE1_DROPIN_BYTES : bytes :=
  bs "[Service]" ++ lf ++ bs "LoadCredentialEncrypted=" ++ lf
  ++ bs "LoadCredentialEncrypted=howy.storage.mode1.epoch1:/etc/credstore.encrypted/howy.storage.mode1.epoch1"
  ++ lf ++ bs "SetCredential=" ++ lf
  ++ bs "SetCredential=howy.storage.mode1.source:/etc/credstore.encrypted/howy.storage.mode1.epoch1"
  ++ lf.
Definition MODE0_DROPIN_BYTES : bytes :=
  bs "[Service]" ++ lf ++ bs "LoadCredentialEncrypted=" ++ lf ++ bs "SetCredential=" ++ lf.

(** The settings that the engine changes. *)
Definition with_activation (c : HowyConfig) (off : bool) (mode : EmbeddingSecurityMode) : HowyConfig :=
  let k := core c in let s := security c in
  mkConfig
    (mkCore (detection_notice k) (timeout_notice k) (no_confirmation k) (suppress_unknown k)
       (abort_if_ssh k) (abort_if_lid_closed k) off)
    (ml c) (video c) (snapshots c) (credentials c)
    (mkSecurity mode (cfg_key_epoch s) (max_embeddings_per_user s) (max_record_bytes s)
       (max_plaintext_bytes s) (cached s) (ephemeral s))
    (presence c) (debug c).
Definition with_credential (c : HowyConfig) (epoch : Z) (name : bytes) : HowyConfig :=
  let s := security c in let m := cached s in
  mkConfig (core c) (ml c) (video c) (snapshots c) (credentials c)
    (mkSecurity (embedding_mode s) epoch (max_embeddings_per_user s) (max_record_bytes s)
       (max_plaintext_bytes s)
       (mkCached name (max_cached_users m) (max_cache_bytes m) (require_mlock m)) (ephemeral s))
    (presence c) (debug c).

Definition apply_presence_policy (c : HowyConfig) (p : ProvisionPresence) : HowyConfig :=
  let q := presence c in
  let services :=
    if bool_decide (p = PpConfirm) && negb (bool_decide (bs "sudo" ∈ allowed_pam_services q))
    then allowed_pam_services q ++ [bs "sudo"] else allowed_pam_services q in
  mkConfig (core c) (ml c) (video c) (snapshots c) (credentials c) (security c)
    (mkPresence (match p with PpOff => Off | PpConfirm => Confirm end) (local_only q) services
       (prompt_timeout_ms q) (commit_to_camera_ms q) (scan_timeout_ms q) (max_pending_per_uid q)
       (max_pending_global q))
    (debug c).

Definition bump_generation (generation : Z) : secresult Z :=
  ok_or (checked_add generation 1) (Uncertain (bs "journal generation overflow")).

(** The part of an observation a stable state keeps. *)
Definition stable_state (o : UnitObservation) : StableUnitState :=
  mkStableUnit (uo_unit_kind o) (uo_load_state o) (uo_active_state o) (uo_sub_state o)
    (uo_unit_file_state o).

Definition stable_cleanup_unit (o : UnitObservation) : secresult StableUnitState :=
  if differs (uo_load_state o) ULoaded || differs (uo_active_state o) UInactive
     || differs (uo_sub_state o) SubDead || negb (is_admissible (uo_unit_file_state o))
     || uo_has_queued_job o
  then Err (Refused (bs "cleanup unit snapshot is not initially inactive and stable"))
  else Ok (stable_state o).

Definition validate_transaction_id (value : bytes) : secresult () :=
  if match str_strip_prefix (bs "txn-") value with
     | Some suffix => (len suffix =? 32) && forallb (λ b, is_ascii_digit b || byte_in 97 102 b) suffix
     | None => false
     end
  then Ok () else Err (Refused (bs "invalid transaction ID")).

(** [Vec::sort] and [Vec::dedup] of paths. *)
Definition sort_paths (paths : list bytes) : list bytes := merge_sort str_le paths.
Definition sorted_paths (paths : list bytes) : list bytes := dedup (sort_paths paths).

Definition atomic_maximum_for (path : bytes) : Z :=
  if bool_decide (path = CONFIG_FILE) then MAX_CONFIG_BYTES
  else if bool_decide (path = MODE1_CREDENTIAL_PATH) then SYSTEMD_CREDENTIAL_TEXT_SIZE_MAX
  else if bool_decide (path = MODE1_DROPIN_PATH) then MAX_DROPIN_BYTES
  else if bool_decide (path = SECURITY_RECEIPT_PATH) then MAX_RECEIPT_BYTES
  else if str_starts_with (SECURITY_UNADOPTED_DIRECTORY ++ bs "/") path then MAX_RECEIPT_BYTES
  else MAX_JOURNAL_BYTES.

Definition expected_parent_permissions (path : bytes) : secresult Z :=
  parent ← required (parent_path path) "atomic target parent is invalid";
  Ok (if bool_decide (parent = HOWY_CONFIG_DIRECTORY)
         || bool_decide (parent = MODE1_CREDENTIAL_DIRECTORY)
         || bool_decide (parent = SECURITY_STATE_DIRECTORY)
         || bool_decide (parent = SECURITY_UNADOPTED_DIRECTORY)
      then mode_700 else mode_755).

Definition committed_atomic_record (records : list AtomicWriteRecordV1) (index : nat)
    : secresult (AtomicWritePlanV1 * AtomicWriteObservationV1) :=
  record ← required (records !! index) "atomic write record is missing";
  match wr_state record with
  | Committed observation => Ok (wr_plan record, observation)
  | _ => Err (Operation (bs "atomic write is not awaiting backup cleanup"))
  end.

Definition cleanup_command (transaction_id : bytes) (artifact_sha256 : Sha256Digest) : bytes :=
  bs "sudo howy security cleanup-unadopted --transaction " ++ transaction_id
  ++ bs " --artifact-sha256 " ++ artifact_sha256.
Definition unadopted_manifest_path (transaction_id : bytes) : bytes :=
  SECURITY_UNADOPTED_DIRECTORY ++ bs "/" ++ transaction_id ++ bs ".json".
Definition cleanup_quarantine_path (transaction_id : bytes) : bytes :=
  MODE1_CREDENTIAL_DIRECTORY ++ bs "/.howy-" ++ transaction_id ++ bs ".quarantine".

Definition generated_artifact_metadata : FileMetadataSnapshotV1 :=
  mkFileMetadata PROVISIONING_SCHEMA_VERSION FoRegularFile 0 0 mode_600 1 ExactlyOne 0
    (mkRestorable (mkFileTimestamp 0 0) (mkFileTimestamp 0 0)).

Section checks.
  Context `{Sha256} `{ConfigEnv} `{PatchToml} `{TomlPretty}.
  Context `{SerdeJson VerifierResultV1} `{SerdeJson ProvisioningReceiptV1}.

(** [toml::from_str] on the UTF-8 of a file. *)
Definition parse_config (b : bytes) (encoding malformed : string) : secresult HowyConfig :=
  if negb (utf8_valid b) then Err (Operation (bs encoding))
  else map_err (λ _, Operation (bs malformed)) (toml_config b).
Definition valid_config (c : HowyConfig) : secresult () := map_err (λ m, Operation (bs m)) (validate c).

Definition parse_explicit_mode (config : option ObservedFile) : secresult (option (Z * Z)) :=
  match config with
  | None => Ok None
  | Some f =>
      _ ← validate_private f;
      c ← parse_config (of_bytes f) "configuration is not UTF-8" "configuration is invalid";
      _ ← valid_config c;
      Ok (Some (security_mode_u8 (embedding_mode (security c)), cfg_key_epoch (security c)))
  end.

Definition serialize_config (c : HowyConfig) (failed large : string) : secresult bytes :=
  _ ← valid_config c;
  b ← required (toml_pretty c) failed;
  if MAX_CONFIG_BYTES <? len b then Err (Operation (bs large)) else Ok b.

Definition build_disabled_mode1_config (config : option ObservedFile) (p : ProvisionPresence)
    : secresult bytes :=
  c ← match config with
      | Some f => parse_config (of_bytes f) "configuration is not UTF-8" "configuration is invalid"
      | None => Ok secure_bootstrap_template
      end;
  serialize_config
    (apply_presence_policy
       (with_credential (with_activation c true AeadCached) MODE1_KEY_EPOCH MODE1_CREDENTIAL_NAME) p)
    "candidate configuration serialization failed" "candidate configuration is too large".

Definition build_enabled_mode0_config (config : option ObservedFile) (p : ProvisionPresence)
    : secresult bytes :=
  c ← match config with
      | Some f => parse_config (of_bytes f) "configuration is not UTF-8" "configuration is invalid"
      | None => Ok legacy_defaults
      end;
  serialize_config (apply_presence_policy (with_activation c false Plaintext) p)
    "Mode 0 configuration serialization failed" "Mode 0 configuration is too large".

Definition config_prompt_required (b : bytes) : secresult bool :=
  c ← parse_config b "configuration is not UTF-8" "configuration is invalid";
  _ ← valid_config c;
  Ok (bool_decide (presence_mode (presence c) = Confirm)).

Definition require_requested_presence (b : bytes) (requested : ProvisionPresence) : secresult () :=
  prompt ← config_prompt_required b;
  if differs prompt (bool_decide (requested = PpConfirm))
  then Err (Refused (bs "receipted Mode 1 presence differs from the requested provision-time presence; use `howy security set-presence off|confirm`"))
  else Ok ().

Definition anticipated_policy (inspected : InspectedCredentialEnvelope)
    (requested_selector : CredentialSelector) : secresult CredentialPolicyMetadata :=
  if differs (selector (ie_actual_key_id inspected)) requested_selector
  then Err (Operation (bs "credential selector mismatch"))
  else Ok (mkPolicyMetadata requested_selector (ie_actual_key_id inspected) true MODE1_CREDENTIAL_NAME
             (ie_literal_pcr_mask inspected) false false (ie_envelope_sha256 inspected)
             (ie_envelope_size inspected)).

Definition build_disabled_receipt (transaction_id artifact : bytes)
    (artifact_metadata : FileMetadataSnapshotV1) (policy : CredentialPolicyMetadata)
    (config_patch : ConfigPatchV1) (base_unit_sha256 : Sha256Digest)
    (effective_units : EffectiveUnitSetV1) (verifier : VerifierResultV1)
    : secresult ProvisioningReceiptV1 :=
  source ← contract (parse_credential_source MODE1_CREDENTIAL_PATH Production);
  verifier ← contract (verifier_receipt_new verifier);
  let receipt :=
    mkReceipt PROVISIONING_SCHEMA_VERSION RsProvisionedDisabled transaction_id 1 1
      MODE1_CREDENTIAL_NAME
      (mkArtifactReceipt MODE1_CREDENTIAL_PATH (digest_from_bytes artifact) (len artifact)
         (fm_uid artifact_metadata) (fm_gid artifact_metadata) (fm_permissions artifact_metadata)
         (fm_link_count artifact_metadata) policy)
      config_patch
      (mkUnitCredential base_unit_sha256 (digest_from_bytes MODE1_DROPIN_BYTES)
         MODE1_CREDENTIAL_SOURCE_COMPANION_NAME source)
      effective_units verifier in
  _ ← contract (receipt_validate receipt);
  Ok receipt.

Definition enabled_receipt_from (disabled : ProvisioningReceiptV1)
    : secresult ProvisioningReceiptV1 :=
  enabled ← contract (enabled_receipt disabled);
  _ ← contract (validate_receipt_transition disabled enabled);
  Ok enabled.

(** The configuration digest of a receipt's state. *)
Definition selected_receipt_config_sha256 (r : ProvisioningReceiptV1) : Sha256Digest :=
  match r_state r with
  | RsProvisionedDisabled => pt_disabled_sha256 (r_config_patch r)
  | RsEnabled => pt_enabled_sha256 (r_config_patch r)
  end.

Definition cleanup_identity (transaction_id : bytes) (artifact : ObservedFile)
    (actual_key_id : SystemdCredentialKeyId) (envelope_sha256 : Sha256Digest) (envelope_size : Z)
    : CleanupArtifactIdentityV1 :=
  mkCleanupArtifact transaction_id (cleanup_descriptor artifact)
    (mkSourceIdentity MODE1_CREDENTIAL_NAME envelope_sha256 envelope_size actual_key_id).

Definition cleanup_file_matches (identity : CleanupArtifactIdentityV1) (f : ObservedFile) : bool :=
  match inspect_systemd_credential_envelope (of_bytes f) with
  | Ok i => bool_decide (cleanup_identity (ca_transaction_id identity) f (ie_actual_key_id i)
                           (ie_envelope_sha256 i) (ie_envelope_size i) = identity)
  | Err _ => false
  end.

(** What both validations of a status compare. *)
Definition status_of_daemon (status : SecurityInfoResult) (states : ValidatedSecurityInfoStates)
    (daemon : DaemonVerifierIdentityV1) (prior_invocation : option bytes) : bool :=
  bool_decide (vs_backend states = BackendReady)
  && bool_decide (vs_readiness states = ReadinessReady)
  && bool_decide (vs_poison states = NotPoisoned)
  && si_storage_ready status
  && bool_decide (si_daemon_version status = dv_version daemon)
  && bool_decide (si_build_identity status = dv_build_identity daemon)
  && bool_decide (si_binary_absolute_path status = dv_binary_absolute_path daemon)
  && bool_decide (si_binary_sha256 status = dv_binary_sha256 daemon)
  && negb (bool_decide (prior_invocation = Some (si_daemon_invocation_id status))).

Definition validate_enabled_status (status : SecurityInfoResult) (receipt : ProvisioningReceiptV1)
    (prior_invocation : option bytes) (config_sha256 : Sha256Digest) (config : bytes)
    : secresult () :=
  let config_bytes_sha256 := digest_from_bytes config in
  prompt_required ← config_prompt_required config;
  states ← map_err (λ e, Operation (show_security_info_error e)) (security_info_validate_strict status);
  if differs config_bytes_sha256 config_sha256
     || differs config_bytes_sha256 (pt_enabled_sha256 (r_config_patch receipt))
     || negb (si_active_security_mode status =? 1) || negb (si_key_epoch status =? 1)
     || differs (si_config_sha256 status) config_sha256
     || differs (si_credential_name status) MODE1_CREDENTIAL_NAME
     || differs (si_configured_credential_source status) MODE1_CREDENTIAL_PATH
     || differs (si_prompt_required status) prompt_required
     || negb (status_of_daemon status states (vr_daemon (ve_output (r_verifier receipt)))
                prior_invocation)
  then Err (Operation (bs "started daemon status does not match the enabled receipt"))
  else Ok ().

Definition validate_mode0_status (status : SecurityInfoResult) (config_sha256 : Sha256Digest)
    (prior_invocation : option bytes) (expected_daemon : DaemonVerifierIdentityV1)
    (prompt_required : bool) : secresult () :=
  states ← map_err (λ e, Operation (show_security_info_error e)) (security_info_validate_strict status);
  if negb (si_active_security_mode status =? 0)
     || differs (si_config_sha256 status) config_sha256
     || differs (si_credential_name status) [] || differs (si_configured_credential_source status) []
     || differs (si_prompt_required status) prompt_required
     || negb (status_of_daemon status states expected_daemon prior_invocation)
  then Err (Operation (bs "started daemon is not exact Mode 0"))
  else Ok ().
End checks.

Local Open Scope engine_scope.

(** ** The journals as the engine changes them *)

(** What the engine reads and replaces in any of the three journals. *)
Class EngineJournal (J : Type) := {
  ej_transaction_id : J → bytes;
  ej_generation : J → Z;
  ej_prior : J → option AtomicFileIdentityV1;
  ej_guard : J → option TransactionGuardIdentityV1;
  ej_failed : J → bool;
  ej_writes : J → list AtomicWriteRecordV1;
  ej_paths : J → list bytes;
  ej_bind : Z → option AtomicFileIdentityV1 → J → J;
  ej_with_guard : option TransactionGuardIdentityV1 → J → J;
  ej_with_failed : J → J;
  ej_with_writes : list bytes → list AtomicWriteRecordV1 → J → J;
  ej_transition : J → J → pcresult ();
  ej_bytes : J → pcresult bytes;
  ej_parse : bytes → pcresult J;
}.

(** The fields of a mode-1 journal that change, the others kept. *)
Definition journal_with (j : ProvisioningJournalV1) (generation : Z)
    (prior : option AtomicFileIdentityV1) (guard : option TransactionGuardIdentityV1)
    (phase : JournalPhase) (live : LiveObjectHashes) (paths : list bytes)
    (writes : list AtomicWriteRecordV1) (effective : option EffectiveUnitSetV1)
    (action : RecoveryAction) (failed : bool) : ProvisioningJournalV1 :=
  mkJournal (j_schema_version j) (j_transaction_id j) generation prior (j_journal_staging_path j)
    guard phase (j_mode j) (j_epoch j) (j_credential_name j) (j_planned_hashes j) live paths writes
    (j_security_directories j) (j_artifact_preexisted j) (j_transient_unit j) (j_prior_config j)
    (j_prior_dropin j) (j_prior_receipt j) (j_service_unit_state j) (j_socket_unit_state j)
    (j_post_provision_service_target j) (j_post_provision_socket_target j)
    (j_prior_daemon_invocation_id j) (j_prior_effective_units j) effective (j_backup_hashes j)
    action failed.
Definition plaintext_with (j : PlaintextProvisioningJournalV1) (generation : Z)
    (prior : option AtomicFileIdentityV1) (guard : option TransactionGuardIdentityV1)
    (phase : PlaintextJournalPhase) (live : option Sha256Digest) (paths : list bytes)
    (writes : list AtomicWriteRecordV1) (effective : option EffectiveUnitSetV1)
    (action : PlaintextRecoveryAction) (failed : bool) : PlaintextProvisioningJournalV1 :=
  mkPlaintextJournal (p_schema_version j) (p_transaction_id j) generation prior
    (p_journal_staging_path j) guard phase (p_enabled_config_sha256 j) live paths writes
    (p_security_directories j) (p_prior_config j) (p_prior_dropin j) (p_service_unit_state j)
    (p_socket_unit_state j) (p_prior_daemon_invocation_id j) (p_prior_effective_units j) effective
    (p_dropin_sha256 j) action failed.
Definition supervisor_with (j : SupervisorJournalV1) (generation : Z)
    (prior : option AtomicFileIdentityV1) (guard : option TransactionGuardIdentityV1)
    (phase : SupervisorPhaseV1) (paths : list bytes) (writes : list AtomicWriteRecordV1)
    (directories : list SecurityDirectoryRecordV1) (quarantine : option CleanupQuarantineV1)
    (failed : bool) : SupervisorJournalV1 :=
  mkSupervisorJournal (s_schema_version j) (s_transaction_id j) generation prior
    (s_journal_staging_path j) guard (s_operation j) phase (s_prior_config j) (s_prior_dropin j)
    (s_prior_receipt j) (s_service_unit_state j) (s_socket_unit_state j)
    (s_prior_daemon_invocation_id j) (s_prior_effective_units j) paths writes directories
    (s_cleanup_artifact j) (s_cleanup_manifest j) (s_cleanup_pre_admission j) quarantine failed.

Section engine.
  Context `{Sha256} `{SerdeJson TransactionGuardV1} `{SerdeJson UnadoptedArtifactV1}.
  Context `{SerdeJson ProvisioningJournalV1} `{SerdeJson PlaintextProvisioningJournalV1}.
  Context `{SerdeJson SupervisorJournalV1} `{SerdeJson VerifierResultV1} `{SerdeJson ProvisioningReceiptV1}.
  Context `{ConfigEnv}.
  (** How many turns a loop that waits for the system is given. *)
  Context (turns : nat).

#[export] Instance mode1_journal : EngineJournal ProvisioningJournalV1 := {|
  ej_transaction_id := j_transaction_id; ej_generation := j_generation;
  ej_prior := j_prior_journal_identity; ej_guard := j_guard; ej_failed := j_supervisor_failed;
  ej_writes := j_atomic_writes; ej_paths := j_transaction_owned_paths;
  ej_bind g i j := journal_with j g i (j_guard j) (j_phase j) (j_live_hashes j)
    (j_transaction_owned_paths j) (j_atomic_writes j) (j_effective_units j) (j_recovery_action j)
    (j_supervisor_failed j);
  ej_with_guard guard j := journal_with j (j_generation j) (j_prior_journal_identity j) guard
    (j_phase j) (j_live_hashes j) (j_transaction_owned_paths j) (j_atomic_writes j)
    (j_effective_units j) (j_recovery_action j) (j_supervisor_failed j);
  ej_with_failed j := journal_with j (j_generation j) (j_prior_journal_identity j) (j_guard j)
    (j_phase j) (j_live_hashes j) (j_transaction_owned_paths j) (j_atomic_writes j)
    (j_effective_units j) (j_recovery_action j) true;
  ej_with_writes paths writes j := journal_with j (j_generation j) (j_prior_journal_identity j)
    (j_guard j) (j_phase j) (j_live_hashes j) paths writes (j_effective_units j)
    (j_recovery_action j) (j_supervisor_failed j);
  ej_transition := validate_journal_transition;
  ej_bytes := journal_deterministic_bytes;
  ej_parse := journal_parse |}.
#[export] Instance plaintext_journal : EngineJournal PlaintextProvisioningJournalV1 := {|
  ej_transaction_id := p_transaction_id; ej_generation := p_generation;
  ej_prior := p_prior_journal_identity; ej_guard := p_guard; ej_failed := p_supervisor_failed;
  ej_writes := p_atomic_writes; ej_paths := p_transaction_owned_paths;
  ej_bind g i j := plaintext_with j g i (p_guard j) (p_phase j) (p_live_config_sha256 j)
    (p_transaction_owned_paths j) (p_atomic_writes j) (p_effective_units j) (p_recovery_action j)
    (p_supervisor_failed j);
  ej_with_guard guard j := plaintext_with j (p_generation j) (p_prior_journal_identity j) guard
    (p_phase j) (p_live_config_sha256 j) (p_transaction_owned_paths j) (p_atomic_writes j)
    (p_effective_units j) (p_recovery_action j) (p_supervisor_failed j);
  ej_with_failed j := plaintext_with j (p_generation j) (p_prior_journal_identity j) (p_guard j)
    (p_phase j) (p_live_config_sha256 j) (p_transaction_owned_paths j) (p_atomic_writes j)
    (p_effective_units j) (p_recovery_action j) true;
  ej_with_writes paths writes j := plaintext_with j (p_generation j) (p_prior_journal_identity j)
    (p_guard j) (p_phase j) (p_live_config_sha256 j) paths writes (p_effective_units j)
    (p_recovery_action j) (p_supervisor_failed j);
  ej_transition := validate_plaintext_journal_transition;
  ej_bytes := plaintext_journal_deterministic_bytes;
  ej_parse := plaintext_journal_parse |}.
#[export] Instance supervisor_journal : EngineJournal SupervisorJournalV1 := {|
  ej_transaction_id := s_transaction_id; ej_generation := s_generation;
  ej_prior := s_prior_journal_identity; ej_guard := s_guard; ej_failed := s_supervisor_failed;
  ej_writes := s_atomic_writes; ej_paths := s_transaction_owned_paths;
  ej_bind g i j := supervisor_with j g i (s_guard j) (s_phase j) (s_transaction_owned_paths j)
    (s_atomic_writes j) (s_security_directories j) (s_cleanup_quarantine j) (s_supervisor_failed j);
  ej_with_guard guard j := supervisor_with j (s_generation j) (s_prior_journal_identity j) guard
    (s_phase j) (s_transaction_owned_paths j) (s_atomic_writes j) (s_security_directories j)
    (s_cleanup_quarantine j) (s_supervisor_failed j);
  ej_with_failed j := supervisor_with j (s_generation j) (s_prior_journal_identity j) (s_guard j)
    (s_phase j) (s_transaction_owned_paths j) (s_atomic_writes j) (s_security_directories j)
    (s_cleanup_quarantine j) true;
  ej_with_writes paths writes j := supervisor_with j (s_generation j) (s_prior_journal_identity j)
    (s_guard j) (s_phase j) paths writes (s_security_directories j) (s_cleanup_quarantine j)
    (s_supervisor_failed j);
  ej_transition := validate_supervisor_journal_transition;
  ej_bytes := supervisor_journal_deterministic_bytes;
  ej_parse := supervisor_journal_parse |}.
(** ** Persisting a journal *)

(** Unwinding. *)
Definition epanic {A} : eng A := λ e, Done (e, None).

Section journal.
  Context {J : Type} `{EngineJournal J}.

Definition persist_journal (journal : J) : eng () :=
  b <~ elift (contract (ej_bytes journal));
  prior <~ egets en_journal_observation;
  observation <~ ask (PersistJournal prior b);
  set_journal (Some observation).

Definition latest_journal_identity : eng AtomicFileIdentityV1 :=
  f <~ egets en_journal_observation;
  elift (required_certain (atomic_identity <$> f) "prior journal identity missing").

Definition bind_next_generation (journal : J) : eng J :=
  identity <~ latest_journal_identity;
  generation <~ elift (bump_generation (ej_generation journal));
  eret (ej_bind generation (Some identity) journal).

(** Every change of a journal: the next generation, checked against the last and persisted. *)
Definition record_transition (current journal : J) : eng J :=
  journal <~ bind_next_generation journal;
  _ <~ elift (contract (ej_transition current journal));
  _ <~ persist_journal journal;
  eret journal.
Definition record_step (current journal : J) (point : string) : eng J :=
  journal <~ record_transition current journal;
  _ <~ boundary point;
  eret journal.

(** ** Atomic writes *)

Definition prepare_atomic_plan (transaction_id path b : bytes) (uid gid permissions : Z)
    (timestamps : option RestorableFileTimestampsV1) (require_absent : bool)
    : eng AtomicWritePlanV1 :=
  context <~ ask (ObserveAtomicTarget path (atomic_maximum_for path));
  expected_parent <~ elift (expected_parent_permissions path);
  let parent := to_parent_directory context in
  _ <~ elift (operation_if
         (differs (di_object_type parent) FoDirectory || negb (di_uid parent =? 0)
          || negb (di_gid parent =? 0) || negb (di_permissions parent =? expected_parent)
          || (di_link_count parent =? 0)) "unsafe atomic parent metadata");
  '(expected_target, operation) <~
    elift (match to_target context with
           | Some target =>
               _ ← operation_if require_absent "no-replace target is occupied";
               _ ← validate_regular target 0 0 (fm_permissions (of_metadata target));
               Ok (TargetPresent (atomic_identity target), Exchange)
           | None => Ok (TargetAbsent, NoReplace)
           end);
  elift (contract (plan_new transaction_id path parent expected_target uid gid permissions timestamps
                     b operation)).

(** [journal.atomic_writes[index].state = state] *)
Definition set_write_state (index : nat) (state : AtomicWriteStateV1) (journal : J) : J :=
  ej_with_writes (ej_paths journal)
    (alter (λ r, mkWriteRecord (wr_plan r) state) index (ej_writes journal)) journal.
(** The paths a plan adds to those the transaction owns. *)
Definition plan_paths (plan : AtomicWritePlanV1) : list bytes :=
  pl_staging_path plan :: option_list (pl_backup_path plan).
Definition add_plan (plan : AtomicWritePlanV1) (journal : J) : J :=
  ej_with_writes (sorted_paths (ej_paths journal ++ plan_paths plan))
    (ej_writes journal ++ [record_planned plan]) journal.

(** [execute_mode1_atomic], [execute_plaintext_atomic]: plan, stage and commit, each recorded in
    the journal before the next. *)
Definition execute_atomic (journal : J) (path b : bytes) (uid gid permissions : Z)
    (timestamps : option RestorableFileTimestampsV1) (require_absent : bool) : eng (J * nat) :=
  plan <~ prepare_atomic_plan (ej_transaction_id journal) path b uid gid permissions timestamps
            require_absent;
  journal <~ record_step journal (add_plan plan journal) "atomic-plan-synced";
  let index := (length (ej_writes journal) - 1)%nat in
  staged <~ ask (CreateAtomicStage plan b);
  _ <~ boundary "atomic-stage-created";
  journal <~ record_step journal (set_write_state index (Staged staged) journal)
               "atomic-stage-synced";
  observation <~ ask (CommitAtomicStage plan staged);
  journal <~ record_step journal (set_write_state index (Committed observation) journal)
               "atomic-observation-synced";
  eret (journal, index).

(** [cleanup_mode1_atomic], [cleanup_plaintext_atomic] *)
Definition cleanup_atomic (journal : J) (index : nat) : eng J :=
  '(plan, observation) <~ elift (committed_atomic_record (ej_writes journal) index);
  match wo_backup observation with
  | None => eret journal
  | Some _ =>
      _ <~ ask (RemoveAtomicBackup plan observation);
      record_step journal (set_write_state index (BackupCleaned observation) journal)
        "atomic-backup-cleaned"
  end.

(** One turn of the first loop of the reconciliation. *)
Definition reconcile_write (journal : J) (index : nat) : eng J :=
  match ej_writes journal !! index with
  | None => epanic
  | Some record =>
      let reconcile staged :=
        reconciliation <~ ask (ReconcileAtomicWrite (wr_plan record) staged);
        match staged, reconciliation with
        | None, WasCommitted _ =>
            efail (Uncertain (bs "unjournaled atomic stage cannot authorize a committed write"))
        | _, NotCommitted =>
            record_step journal (set_write_state index Aborted journal) "atomic-reconciled"
        | _, WasCommitted observation =>
            record_step journal (set_write_state index (Committed observation) journal)
              "atomic-reconciled"
        end in
      match wr_state record with
      | Planned => reconcile None
      | Staged identity => reconcile (Some identity)
      | _ => eret journal
      end
  end.
Fixpoint each_write (step : J → nat → eng J) (indices : list nat) (journal : J) : eng J :=
  match indices with
  | [] => eret journal
  | index :: indices => journal <~ step journal index; each_write step indices journal
  end.
(** The indices of the writes whose backup is still there. *)
Definition pending_backups (writes : list AtomicWriteRecordV1) : list nat :=
  omap (λ '(i, r), match wr_state r with
                   | Committed o => if bool_decide (is_Some (wo_backup o)) then Some i else None
                   | _ => None
                   end) (imap pair writes).
(** [reconcile_mode1_atomic_records], [reconcile_plaintext_atomic_records] *)
Definition reconcile_atomic_records (journal : J) : eng J :=
  journal <~ each_write reconcile_write (seq 0 (length (ej_writes journal))) journal;
  each_write cleanup_atomic (pending_backups (ej_writes journal)) journal.

(** [remove_transaction_owned_target] *)
Definition owned_target (path : bytes) (identity : AtomicFileIdentityV1) (r : AtomicWriteRecordV1)
    : bool :=
  bool_decide (pl_target_path (wr_plan r) = path)
  && match wr_state r with
     | Committed o | BackupCleaned o => bool_decide (wo_target o = identity)
     | Planned | Staged _ | Aborted => false
     end.
Definition remove_transaction_owned_target (path : bytes) (records : list AtomicWriteRecordV1)
    : eng () :=
  context <~ ask (ObserveAtomicTarget path (atomic_maximum_for path));
  match to_target context with
  | None => eret ()
  | Some target =>
      let identity := atomic_identity target in
      if negb (existsb (owned_target path identity) (reverse records))
      then efail (Uncertain (bs "refusing to remove unowned transaction target: " ++ path))
      else ask (RemoveFileExact path identity)
  end.

(** [restore_mode1_snapshot], [restore_plaintext_snapshot] *)
Definition restore_snapshot (journal : J) (path : bytes) (snapshot : option ExactFileSnapshot)
    (maximum : Z) : eng J :=
  match snapshot with
  | Some snapshot =>
      reconstruction <~ elift (contract (snapshot_reconstruct snapshot maximum));
      let m := rf_metadata reconstruction in
      '(journal, write) <~ execute_atomic journal path (rf_bytes reconstruction) (fm_uid m)
                             (fm_gid m) (fm_permissions m) (Some (fm_restorable_timestamps m)) false;
      cleanup_atomic journal write
  | None =>
      _ <~ remove_transaction_owned_target path (ej_writes journal);
      eret journal
  end.
End journal.

(** ** Units *)

Definition unit_debug (u : UnitKind) : bytes :=
  match u with UkService => bs "Service" | UkSocket => bs "Socket" end.
Definition load_debug (s : UnitLoadState) : bytes :=
  match s with
  | ULoaded => bs "Loaded" | UNotFound => bs "NotFound" | ULoadError => bs "Error"
  | UBadSetting => bs "BadSetting" | ULoadMasked => bs "Masked"
  end.
Definition active_debug (s : UnitActiveState) : bytes :=
  match s with
  | UActive => bs "Active" | UInactive => bs "Inactive" | UActivating => bs "Activating"
  | UDeactivating => bs "Deactivating" | UReloading => bs "Reloading" | UActiveFailed => bs "Failed"
  | UMaintenance => bs "Maintenance"
  end.
Definition sub_debug (s : UnitSubState) : bytes :=
  match s with
  | SubRunning => bs "Running" | SubDead => bs "Dead" | SubFailed => bs "Failed"
  | SubStartPre => bs "StartPre" | SubStart => bs "Start" | SubStartPost => bs "StartPost"
  | SubStop => bs "Stop" | SubStopSigterm => bs "StopSigterm" | SubStopSigkill => bs "StopSigkill"
  | SubStopPost => bs "StopPost" | SubReload => bs "Reload" | SubAutoRestart => bs "AutoRestart"
  | SubListening => bs "Listening" | SubOther => bs "Other"
  end.
Definition file_debug (s : UnitFileState) : bytes :=
  match s with
  | FsEnabled => bs "Enabled" | FsEnabledRuntime => bs "EnabledRuntime" | FsLinked => bs "Linked"
  | FsLinkedRuntime => bs "LinkedRuntime" | FsAlias => bs "Alias" | FsMasked => bs "Masked"
  | FsMaskedRuntime => bs "MaskedRuntime" | FsStatic => bs "Static" | FsDisabled => bs "Disabled"
  | FsIndirect => bs "Indirect" | FsGenerated => bs "Generated" | FsTransient => bs "Transient"
  | FsBad => bs "Bad"
  end.
Definition unsupported_unit (unit : UnitKind) (o : UnitObservation) : SecurityError :=
  Refused (bs "required " ++ unit_debug unit ++ bs " unit state is unsupported: load="
           ++ load_debug (uo_load_state o) ++ bs ", active=" ++ active_debug (uo_active_state o)
           ++ bs ", sub=" ++ sub_debug (uo_sub_state o) ++ bs ", file="
           ++ file_debug (uo_unit_file_state o) ++ bs ", queued="
           ++ (if uo_has_queued_job o then bs "true" else bs "false")).

(** What an observation is good for: its stable state, or nothing yet. *)
Definition settled_state (unit : UnitKind) (o : UnitObservation)
    : secresult (option StableUnitState) :=
  match classify_unit_admissibility o with
  | UnitAdmissible _ _ => Ok (Some (stable_state o))
  | Settle => Ok None
  | RefuseMasked => Err (Refused (bs "required unit is masked"))
  | RefuseFailed => Err (Refused (bs "required unit is failed"))
  | RefuseUnstable => Err (unsupported_unit unit o)
  end.

Definition settle_deadline : eng Z :=
  now <~ ask_value MonotonicMillis;
  elift (required (checked_add now 10000) "unit settle deadline overflow").

Fixpoint stable_unit_loop (fuel : nat) (unit : UnitKind) (deadline : Z) : eng StableUnitState :=
  match fuel with
  | O => espin
  | S fuel =>
      now <~ ask_value MonotonicMillis;
      if deadline <=? now
      then efail (Refused (bs "required unit did not reach a stable state"))
      else
        observation <~ ask (ObserveUnit unit);
        state <~ elift (settled_state unit observation);
        match state with
        | Some state => eret state
        | None => _ <~ ask SettleStep; stable_unit_loop fuel unit deadline
        end
  end.
Definition stable_unit_until : UnitKind → Z → eng StableUnitState := stable_unit_loop turns.
Definition stable_unit (unit : UnitKind) : eng StableUnitState :=
  deadline <~ settle_deadline; stable_unit_until unit deadline.

(** The loop of [stable_unit_pair]: two equal stable pairs in a row. *)
Fixpoint stable_pair_loop (fuel : nat) (deadline : Z)
    (previous : option (StableUnitState * StableUnitState))
    : eng (StableUnitState * StableUnitState) :=
  match fuel with
  | O => espin
  | S fuel =>
      now <~ ask_value MonotonicMillis;
      if deadline <=? now
      then efail (Refused (bs "required unit pair did not reach a coherent stable state"))
      else
        service <~ ask (ObserveUnit UkService);
        socket <~ ask (ObserveUnit UkSocket);
        first <~ elift (settled_state (uo_unit_kind service) service);
        second <~ elift (settled_state (uo_unit_kind socket) socket);
        match first, second with
        | Some x, Some y =>
            if bool_decide (previous = Some (x, y)) then eret (x, y)
            else _ <~ ask SettleStep; stable_pair_loop fuel deadline (Some (x, y))
        | _, _ => _ <~ ask SettleStep; stable_pair_loop fuel deadline None
        end
  end.
Definition stable_unit_pair : eng (StableUnitState * StableUnitState) :=
  deadline <~ settle_deadline; stable_pair_loop turns deadline None.

(** [if let Err(error) = m { failures.push(format!(..)) }] *)
Definition noting {A} (what : bytes) (m : eng A) (failures : list bytes) : eng (list bytes) :=
  r <~ etry m;
  eret (match r with Ok _ => failures | Err e => failures ++ [what ++ show_security_error e] end).

Definition settle_inactive (kind : UnitKind) (deadline : Z) (failures : list bytes)
    : eng (list bytes) :=
  r <~ etry (stable_unit_until kind deadline);
  match r with
  | Ok state =>
      if bool_decide (rollback_target state = Some InactiveDead)
      then noting (unit_debug kind ++ bs " settle boundary: ")
             (boundary (match kind with
                        | UkSocket => "socket-settled-inactive"
                        | UkService => "service-settled-inactive"
                        end)) failures
      else eret (failures ++ [unit_debug kind ++ bs " did not stop stably"])
  | Err e => eret (failures ++ [unit_debug kind ++ bs " settle: " ++ show_security_error e])
  end.

(** [failures.join(separator)] *)
Fixpoint join_with (separator : bytes) (parts : list bytes) : bytes :=
  match parts with
  | [] => []
  | [part] => part
  | part :: parts => part ++ separator ++ join_with separator parts
  end.

Definition stop_units_under_one_deadline : eng () :=
  deadline <~ settle_deadline;
  failures <~ noting (bs "socket stop: ") (ask (StopUnit UkSocket)) [];
  failures <~ noting (bs "socket boundary: ") (boundary "socket-stopped") failures;
  failures <~ noting (bs "service stop: ") (ask (StopUnit UkService)) failures;
  failures <~ noting (bs "service boundary: ") (boundary "service-stopped") failures;
  failures <~ settle_inactive UkSocket deadline failures;
  failures <~ settle_inactive UkService deadline failures;
  if bool_decide (failures = []) then eret () else efail (Operation (join_with (bs "; ") failures)).

Definition verify_restored_targets (service_target socket_target : StableUnitState) : eng () :=
  '(service, socket) <~ stable_unit_pair;
  elift (uncertain_if (differs service service_target || differs socket socket_target)
           "restored unit states differ from the exact journal targets").

Definition start_controlled : eng () :=
  _ <~ ask (StartUnit UkSocket);
  _ <~ boundary "socket-started";
  _ <~ ask (StartUnit UkService);
  _ <~ boundary "service-started";
  socket <~ stable_unit UkSocket;
  service <~ stable_unit UkService;
  elift (operation_if (differs (rollback_target socket) (Some ActiveListening)
                       || differs (rollback_target service) (Some ActiveRunning))
           "units did not start stably").

Definition restore_unit_target (state : StableUnitState) : eng () :=
  match rollback_target state with
  | Some ActiveRunning => ask (StartUnit UkService)
  | Some ActiveListening => ask (StartUnit UkSocket)
  | Some InactiveDead => eret ()
  | None => efail (Uncertain (bs "journal contains an unstable rollback target"))
  end.

Definition stop_readiness_transient (unit : bytes) : eng () :=
  exists_ <~ ask (TransientExists unit);
  if (exists_ : bool) then ask (StopAndKillTransient unit) else eret ().

(** ** Guard and journal removal *)

Definition ensure_guard (transaction_id : bytes) (expected : option TransactionGuardIdentityV1)
    : eng TransactionGuardIdentityV1 :=
  guard <~ ask (CreateGuard transaction_id expected);
  _ <~ set_guard (Some guard);
  eret guard.

Definition remove_active_guard : eng () :=
  transaction <~ egets en_armed_transaction;
  transaction_id <~ elift (required_certain transaction "guard transaction identity missing");
  active <~ egets en_active_guard;
  guard <~ elift (required_certain active "guard file identity missing");
  ask (RemoveGuard transaction_id guard).

Definition remove_current_journal : eng () :=
  transaction <~ egets en_armed_transaction;
  transaction_id <~ elift (required_certain transaction "journal transaction identity missing");
  journal <~ egets en_journal_observation;
  observation <~ elift (required_certain journal "latest journal identity missing");
  _ <~ ask (RemoveJournal transaction_id observation);
  set_journal None.

(** [self.armed_transaction = None; self.active_guard = None] *)
Definition disarm : eng () := _ <~ set_armed None; set_guard None.
(** The end of every transaction. *)
Definition finish_transaction : eng () := _ <~ remove_current_journal; disarm.

(** ** Failing closed *)

(** Rewrites a durable journal in place, if it is one of this kind. *)
Definition rewrite_if {J} `{EngineJournal J} (b : bytes) (unchanged : J → bool) (change : J → J)
    (otherwise : eng ()) : eng () :=
  match ej_parse b with
  | Ok journal =>
      if unchanged journal then eret ()
      else _ <~ record_transition journal (change journal); eret ()
  | Err _ => otherwise
  end.

Definition persist_guard_identity_transition (guard : TransactionGuardIdentityV1) : eng () :=
  loaded <~ ask LoadJournal;
  file <~ elift (required_certain loaded "durable transaction journal disappeared");
  _ <~ set_journal (Some file);
  let b := of_bytes file in
  rewrite_if (J:=ProvisioningJournalV1) b
    (λ j, bool_decide (ej_guard j = Some guard)) (ej_with_guard (Some guard))
  (rewrite_if (J:=PlaintextProvisioningJournalV1) b
    (λ j, bool_decide (ej_guard j = Some guard)) (ej_with_guard (Some guard))
  (rewrite_if (J:=SupervisorJournalV1) b
    (λ j, bool_decide (ej_guard j = Some guard)) (ej_with_guard (Some guard))
  (efail (Uncertain (bs "malformed journal retained without guard identity rewrite"))))).

(** The journal marked as failed, under the active guard if there is one. *)
Definition mark_failed {J} `{EngineJournal J} (active : option TransactionGuardIdentityV1) (j : J) : J :=
  let j := ej_with_failed j in
  match active with Some _ => ej_with_guard active j | None => j end.

Definition persist_supervisor_failure_marker : eng () :=
  loaded <~ ask LoadJournal;
  file <~ elift (required loaded "durable transaction journal disappeared");
  _ <~ set_journal (Some file);
  active <~ egets en_active_guard;
  let b := of_bytes file in
  rewrite_if (J:=ProvisioningJournalV1) b ej_failed (mark_failed active)
  (rewrite_if (J:=PlaintextProvisioningJournalV1) b ej_failed (mark_failed active)
  (rewrite_if (J:=SupervisorJournalV1) b ej_failed (mark_failed active)
  (efail (Uncertain (bs "malformed journal retained without rewrite"))))).

(** The transaction identity the guard is created under. *)
Definition fail_closed_identity (failures : list bytes) : eng (bytes * list bytes) :=
  armed <~ egets en_armed_transaction;
  let transaction_id := default (bs "manual-recovery") armed in
  if is_ok (validate_transaction_id transaction_id) then eret (transaction_id, failures)
  else
    generated <~ etry (ask NewTransactionId);
    match generated with
    | Ok generated =>
        if is_ok (validate_transaction_id generated) then eret (generated, failures)
        else eret (transaction_id,
                   failures ++ [bs "guard: generated fail-closed transaction id is invalid"])
    | Err e => eret (transaction_id, failures ++ [bs "guard identity: " ++ show_security_error e])
    end.

(** The guard is put up again; whether its new identity could not be journaled. *)
Definition fail_closed_guard (transaction_id : bytes) (failures : list bytes)
    : eng (bool * list bytes) :=
  prior_guard <~ egets en_active_guard;
  created <~ etry (ask (CreateGuard transaction_id prior_guard));
  match created with
  | Ok guard =>
      _ <~ set_guard (Some guard);
      if bool_decide (prior_guard = Some guard) then eret (false, failures)
      else
        persisted <~ etry (persist_guard_identity_transition guard);
        match persisted with
        | Ok _ => eret (false, failures)
        | Err e =>
            eret (true, failures ++ [bs "guard journal transition: " ++ show_security_error e])
        end
  | Err e => eret (false, failures ++ [bs "guard: " ++ show_security_error e])
  end.

Definition fail_closed (reason : bytes) : eng SecurityError :=
  '(transaction_id, failures) <~ fail_closed_identity [];
  '(guard_transition_failed, failures) <~ fail_closed_guard transaction_id failures;
  failures <~ noting (bs "unit quiescence: ") stop_units_under_one_deadline failures;
  failures <~ (if (guard_transition_failed : bool) then eret failures
               else noting (bs "journal marker: ") persist_supervisor_failure_marker failures);
  let suffix :=
    if bool_decide (failures = []) then []
    else bs "; fail-closed best effort also reported " ++ join_with (bs ", ") failures in
  eret (Uncertain (reason ++ bs "; guard and journal retained with units required inactive" ++ suffix)).

Definition supervise {A} (action : eng A) : eng A :=
  result <~ ecatch action;
  armed <~ egets en_armed_transaction;
  match result with
  | Some (Ok value) => eret value
  | Some (Err error) =>
      if bool_decide (armed = None) then efail error
      else error <~ fail_closed (show_security_error error); efail error
  | None =>
      if bool_decide (armed = None)
      then efail (Uncertain (bs "security transaction panicked before its durable identity was available"))
      else error <~ fail_closed (bs "security transaction panicked"); efail error
  end.

(** ** Supervised transactions *)

(** [journal.phase = phase] and the like. *)
Definition supervisor_at (phase : SupervisorPhaseV1) (j : SupervisorJournalV1) : SupervisorJournalV1 :=
  supervisor_with j (s_generation j) (s_prior_journal_identity j) (s_guard j) phase
    (s_transaction_owned_paths j) (s_atomic_writes j) (s_security_directories j)
    (s_cleanup_quarantine j) (s_supervisor_failed j).
Definition supervisor_directories (directories : list SecurityDirectoryRecordV1)
    (j : SupervisorJournalV1) : SupervisorJournalV1 :=
  supervisor_with j (s_generation j) (s_prior_journal_identity j) (s_guard j) (s_phase j)
    (s_transaction_owned_paths j) (s_atomic_writes j) directories (s_cleanup_quarantine j)
    (s_supervisor_failed j).

Definition advance_supervisor (journal : SupervisorJournalV1) (phase : SupervisorPhaseV1)
    : eng SupervisorJournalV1 :=
  record_step journal (supervisor_at phase journal) "supervisor-phase-synced".

Definition advance_supervisor_guarded (journal : SupervisorJournalV1)
    (service socket : StableUnitState) (prior_daemon_invocation_id : option bytes)
    (effective : EffectiveUnitSetV1) (guard : TransactionGuardIdentityV1)
    : eng SupervisorJournalV1 :=
  let j := journal in
  record_step journal
    (mkSupervisorJournal (s_schema_version j) (s_transaction_id j) (s_generation j)
       (s_prior_journal_identity j) (s_journal_staging_path j) (Some guard) (s_operation j)
       SpGuarded (s_prior_config j) (s_prior_dropin j) (s_prior_receipt j) (Some service)
       (Some socket) prior_daemon_invocation_id (Some effective) (s_transaction_owned_paths j)
       (s_atomic_writes j) (s_security_directories j) (s_cleanup_artifact j) (s_cleanup_manifest j)
       (s_cleanup_pre_admission j) (s_cleanup_quarantine j) (s_supervisor_failed j))
    "supervisor-guarded-snapshot".

Definition persist_directory_intent (journal : SupervisorJournalV1)
    (intent : SecurityDirectoryRecordV1) : eng SupervisorJournalV1 :=
  record_step journal (supervisor_directories (s_security_directories journal ++ [intent]) journal)
    "directory-intent-synced".

Definition observed_record (observed : DirectoryIdentityV1) (r : SecurityDirectoryRecordV1)
    : SecurityDirectoryRecordV1 :=
  mkSecurityDirectory (sd_path r) (sd_uid r) (sd_gid r) (sd_permissions r) (sd_parent_directory r)
    (sd_expected_directory r) (Some observed) (sd_preexisted r).
Definition persist_directory_observation (journal : SupervisorJournalV1)
    (observed : DirectoryIdentityV1) : eng SupervisorJournalV1 :=
  let directories := s_security_directories journal in
  if bool_decide (directories = []) then efail (Operation (bs "directory intent missing"))
  else
    record_step journal
      (supervisor_directories
         (alter (observed_record observed) (length directories - 1)%nat directories) journal)
      "directory-observation-synced".

(** Creates what the last intent says and records what was found. *)
Definition fulfil_intent (journal : SupervisorJournalV1) (intent : SecurityDirectoryRecordV1)
    : eng SupervisorJournalV1 :=
  observed <~ ask (EnsureSecurityDirectory intent);
  _ <~ boundary "directory-created-before-observation";
  persist_directory_observation journal observed.
Definition finish_open_intent (journal : SupervisorJournalV1) : eng SupervisorJournalV1 :=
  match last (s_security_directories journal) with
  | Some intent =>
      if bool_decide (sd_observed_directory intent = None) then fulfil_intent journal intent
      else eret journal
  | None => eret journal
  end.

(** The directories that are still missing, in their order. *)
Fixpoint prepare_directories (missing : list (bytes * Z)) (journal : SupervisorJournalV1)
    : eng SupervisorJournalV1 :=
  match missing with
  | [] => eret journal
  | (path, permissions) :: missing =>
      intent <~ ask (PlanSecurityDirectory path permissions);
      journal <~ persist_directory_intent journal intent;
      journal <~ fulfil_intent journal intent;
      prepare_directories missing journal
  end.
Definition prepare_security_directories (journal : SupervisorJournalV1) : eng SupervisorJournalV1 :=
  _ <~ elift (operation_if (differs (s_phase journal) SpUnitsStopped)
                "directory preparation requires stopped units");
  journal <~ finish_open_intent journal;
  journal <~ prepare_directories
               (drop (length (s_security_directories journal)) REQUIRED_SECURITY_DIRECTORIES) journal;
  record_step journal (supervisor_at SpDirectoriesReady journal) "supervisor-directories-ready".

Definition reconcile_recorded_security_directories (journal : SupervisorJournalV1)
    : eng SupervisorJournalV1 :=
  journal <~ finish_open_intent journal;
  _ <~ ask (VerifyRecordedPrefix (s_security_directories journal));
  eret journal.

Definition rollback_supervisor_security_directories (journal : SupervisorJournalV1) : eng () :=
  if s_supervisor_failed journal
  then ask (RollbackRecordedPrefix (s_security_directories journal))
  else ask (RollbackSecurityDirectories (s_security_directories journal)).

Definition observe_effective_units : eng EffectiveUnitSetV1 :=
  service <~ ask (ObserveEffectiveUnit UkService);
  socket <~ ask (ObserveEffectiveUnit UkSocket);
  eret (mkEffectiveSet service socket).

Definition capture_prior_daemon_invocation (service : StableUnitState) : eng (option bytes) :=
  if differs (rollback_target service) (Some ActiveRunning) then eret None
  else
    info <~ ask SecurityInfo;
    status <~ elift (required info
      "active prior service requires root status and an invocation id before journaling");
    _ <~ elift (map_err (λ e, Operation (show_security_info_error e))
                  (security_info_validate_strict status));
    eret (Some (si_daemon_invocation_id status)).

(** A file as it is before the transaction, checked, with its snapshot. *)
Definition capture_file (path : bytes) (maximum : Z) (check : ObservedFile → secresult ())
    : eng (option ObservedFile * option ExactFileSnapshot) :=
  file <~ ask (ReadFile path maximum);
  match file with
  | None => eret (None, None)
  | Some f =>
      _ <~ elift (_ ← validate_private f; check f);
      snapshot <~ elift (observed_snapshot f maximum);
      eret (Some f, Some snapshot)
  end.
Definition check_prior_config (f : ObservedFile) : secresult () :=
  c ← parse_config (of_bytes f) "prior config is not UTF-8" "prior config is malformed";
  valid_config c.
Definition check_prior_dropin (f : ObservedFile) : secresult () :=
  operation_if (differs (of_bytes f) MODE0_DROPIN_BYTES && differs (of_bytes f) MODE1_DROPIN_BYTES)
    "prior security drop-in is not an exact reviewed mode".
Definition check_prior_receipt (f : ObservedFile) : secresult () :=
  _ ← contract (receipt_parse (of_bytes f)); Ok ().

(** The units and the invocation twice, without a change in between. *)
Definition capture_units
    : eng (StableUnitState * StableUnitState * EffectiveUnitSetV1 * option bytes) :=
  '(service, socket) <~ stable_unit_pair;
  effective <~ observe_effective_units;
  prior_daemon_invocation_id <~ capture_prior_daemon_invocation service;
  '(confirmed_service, confirmed_socket) <~ stable_unit_pair;
  confirmed_effective <~ observe_effective_units;
  confirmed_invocation <~ capture_prior_daemon_invocation confirmed_service;
  _ <~ elift (operation_if
         (differs service confirmed_service || differs socket confirmed_socket
          || differs effective confirmed_effective
          || differs prior_daemon_invocation_id confirmed_invocation)
         "pre-journal unit/invocation snapshot did not remain coherent");
  eret (service, socket, effective, prior_daemon_invocation_id).

Definition sha256_of (f : option ObservedFile) : option Sha256Digest := observed_sha256 <$> f.

(** The files are the same under the guard as they were captured. *)
Definition confirm_files (config dropin receipt : option ObservedFile) : eng () :=
  guarded_config <~ ask (ReadFile CONFIG_FILE MAX_CONFIG_BYTES);
  guarded_dropin <~ ask (ReadFile MODE1_DROPIN_PATH MAX_DROPIN_BYTES);
  guarded_receipt <~ ask (ReadFile SECURITY_RECEIPT_PATH MAX_RECEIPT_BYTES);
  elift (uncertain_if
           (differs (sha256_of guarded_config) (sha256_of config)
            || differs (sha256_of guarded_dropin) (sha256_of dropin)
            || differs (sha256_of guarded_receipt) (sha256_of receipt))
           "transaction files changed between durable intent and guard").

(** The identities a cleanup has admitted. *)
Abbreviation cleanup_input :=
  (option (CleanupArtifactIdentityV1 * CleanupManifestIdentityV1 * CleanupPreAdmissionV1)).

(** The end of [begin_supervised_transaction]: the first generation, the guard, and unless it is a
    cleanup the units and the directories. *)
Definition open_transaction (journal : SupervisorJournalV1)
    (config_file dropin_file receipt_file : option ObservedFile) (service socket : StableUnitState)
    (prior_daemon_invocation_id : option bytes) (effective : EffectiveUnitSetV1)
    : eng SupervisorJournalV1 :=
  let transaction_id := s_transaction_id journal in
  let cleaning := bool_decide (s_operation journal = OpCleanupUnadopted) in
  _ <~ set_armed (Some transaction_id);
  _ <~ persist_journal journal;
  _ <~ boundary "supervisor-prepared";
  guard <~ ask (CreateGuard transaction_id None);
  _ <~ set_guard (Some guard);
  _ <~ boundary "guard-created";
  _ <~ (if cleaning then eret () else confirm_files config_file dropin_file receipt_file);
  journal <~ advance_supervisor_guarded journal service socket prior_daemon_invocation_id effective
               guard;
  if cleaning then eret journal
  else
    _ <~ stop_units_under_one_deadline;
    journal <~ advance_supervisor journal SpUnitsStopped;
    prepare_security_directories journal.

Definition begin_supervised_transaction (operation : SupervisorOperationV1) (cleanup : cleanup_input)
    : eng SupervisorJournalV1 :=
  transaction_id <~ ask NewTransactionId;
  '((config_file, config), (dropin_file, dropin), (receipt_file, receipt)) <~
    match cleanup with
    | Some _ => eret ((None, None), (None, None), (None, None))
    | None =>
        config <~ capture_file CONFIG_FILE MAX_CONFIG_BYTES check_prior_config;
        dropin <~ capture_file MODE1_DROPIN_PATH MAX_DROPIN_BYTES check_prior_dropin;
        receipt <~ capture_file SECURITY_RECEIPT_PATH MAX_RECEIPT_BYTES check_prior_receipt;
        eret (config, dropin, receipt)
    end;
  '(service, socket, effective, prior_daemon_invocation_id) <~
    match cleanup with
    | Some (_, _, pre_admission) =>
        service <~ elift (stable_cleanup_unit (pa_service pre_admission));
        socket <~ elift (stable_cleanup_unit (pa_socket pre_admission));
        eret (service, socket, pa_effective_units pre_admission, None)
    | None => capture_units
    end;
  staging <~ elift (contract (canonical_journal_staging_path transaction_id));
  let cleaning := bool_decide (operation = OpCleanupUnadopted) in
  let quarantine := cleanup_quarantine_path transaction_id in
  let journal :=
    mkSupervisorJournal PROVISIONING_SCHEMA_VERSION transaction_id 1 None staging None operation
      SpPrepared config dropin receipt (Some service) (Some socket) prior_daemon_invocation_id
      (Some effective)
      (sort_paths (sorted_paths [CONFIG_FILE; MODE1_DROPIN_PATH; SECURITY_RECEIPT_PATH;
                                 SECURITY_TRANSACTION_GUARD_PATH]
                   ++ [staging] ++ (if cleaning then [quarantine] else [])))
      [] [] ((λ c, c.1.1) <$> cleanup) ((λ c, c.1.2) <$> cleanup) (snd <$> cleanup)
      (if cleaning then Some (mkQuarantine quarantine QPlanned) else None) false in
  open_transaction journal config_file dropin_file receipt_file service socket
    prior_daemon_invocation_id effective.
End engine.
