(* ===== verification/SecurityProvision.v ===== *)
(** * The security transaction engine: provisioning and enabling

    The methods of [SecurityEngine] in [crates/howy-cli/src/security/engine.rs] that verify what is
    live, advance a journal by a phase, and carry out a provisioning of mode 1 or mode 0 and the
    activation of mode 1. *)

From stdpp Require Import sorting.
From S2P Require Import Prelude Bytes Storage Crypto Namespace Legacy Contracts Cache Config Paths PromptState Protocol Status Provision ProvisionAtomic Credential Cleanup Journal ConfigPatch Receipt Security.

Local Open Scope engine_scope.

Section provision.
  Context `{Sha256} `{SerdeJson TransactionGuardV1} `{SerdeJson UnadoptedArtifactV1}.
  Context `{SerdeJson ProvisioningJournalV1} `{SerdeJson PlaintextProvisioningJournalV1}.
  Context `{SerdeJson SupervisorJournalV1} `{SerdeJson VerifierResultV1} `{SerdeJson ProvisioningReceiptV1}.
  Context `{ConfigEnv} `{PatchToml} `{TomlPretty}.
  Context (turns : nat).

(** ** Reading what is live *)

(** [read_file(..)?.ok_or_else(..)?] *)
Definition read_required (path : bytes) (maximum : Z) (missing : string) : eng ObservedFile :=
  file <~ ask (ReadFile path maximum);
  elift (required file missing).
Definition read_certain (path : bytes) (maximum : Z) (missing : string) : eng ObservedFile :=
  file <~ ask (ReadFile path maximum);
  elift (required_certain file missing).
Definition read_private (path : bytes) (maximum : Z) (missing : string) : eng ObservedFile :=
  file <~ read_required path maximum missing;
  _ <~ elift (validate_private file);
  eret file.

Definition read_receipt_file : eng (option (ObservedFile * ProvisioningReceiptV1)) :=
  file <~ ask (ReadFile SECURITY_RECEIPT_PATH MAX_RECEIPT_BYTES);
  match file with
  | None => eret None
  | Some file =>
      _ <~ elift (validate_private file);
      receipt <~ elift (contract (receipt_parse (of_bytes file)));
      eret (Some (file, receipt))
  end.
Definition read_receipt : eng (option ProvisioningReceiptV1) :=
  receipt <~ read_receipt_file; eret (snd <$> receipt).

Definition run_strong_readiness (transaction_id config_path artifact_path : bytes)
    : eng VerifierResultV1 :=
  output <~ etry (ask (RunReadiness (readiness_command transaction_id config_path artifact_path)));
  match output with
  | Ok output => elift (contract (verifier_result_parse output))
  | Err error =>
      _ <~ etry (ask (StopAndKillTransient (readiness_unit_name transaction_id)));
      efail error
  end.

Fixpoint stable_readiness_loop (attempts : nat) (transaction_id config_path artifact_path : bytes)
    (expected_config : bytes) : eng VerifierResultV1 :=
  match attempts with
  | O => efail (Operation (bs "namespace or verifier identity did not stabilize across readiness"))
  | S attempts =>
      config <~ read_private config_path MAX_CONFIG_BYTES "readiness config disappeared";
      _ <~ elift (operation_if (differs (of_bytes config) expected_config)
                    "readiness config changed before verification");
      before <~ ask (PreviewVerifier expected_config);
      output <~ run_strong_readiness transaction_id config_path artifact_path;
      after <~ ask (PreviewVerifier expected_config);
      if bool_decide (before = output) && bool_decide (output = after) then eret output
      else stable_readiness_loop attempts transaction_id config_path artifact_path expected_config
  end.
Definition run_stable_strong_readiness (transaction_id expected_config : bytes)
    : eng VerifierResultV1 :=
  stable_readiness_loop 3 transaction_id CONFIG_FILE MODE1_CREDENTIAL_PATH expected_config.

Definition validate_public (info : option DaemonInfo) (expected : DaemonInfoExpectation)
    : secresult () :=
  map_err (λ e, Operation (show_daemon_info_error e)) (validate_daemon_info_for_activation info expected).
Definition require_public_status (root : SecurityInfoResult) : eng () :=
  info <~ ask PublicInfo;
  public <~ elift (required info "daemon public status unavailable");
  elift (validate_public (Some public)
           (mkExpectation (si_active_security_mode root) (si_prompt_required root)
              (si_storage_ready root) false)).
Definition require_disabled_public_status (config : bytes) : eng () :=
  public <~ ask PublicInfo;
  prompt <~ elift (config_prompt_required config);
  elift (validate_public public (mkExpectation (security_mode_u8 AeadCached) prompt false true)).

Definition require_effective
    (valid : EffectiveUnitSetV1 → Sha256Digest → pcresult ()) (dropin : bytes) (changed : string)
    (expected : EffectiveUnitSetV1) : eng () :=
  _ <~ elift (contract (valid expected (digest_from_bytes dropin)));
  observed <~ observe_effective_units;
  _ <~ elift (contract (valid observed (digest_from_bytes dropin)));
  elift (operation_if (differs observed expected) changed).
Definition require_effective_mode1 : EffectiveUnitSetV1 → eng () :=
  require_effective validate_mode1 MODE1_DROPIN_BYTES "effective Mode 1 units changed or are shadowed".
Definition require_effective_mode0 : EffectiveUnitSetV1 → eng () :=
  require_effective validate_mode0 MODE0_DROPIN_BYTES "effective Mode 0 units changed or are shadowed".

(** [read_file(MODE1_CREDENTIAL_PATH, SYSTEMD_CREDENTIAL_TEXT_SIZE_MAX)] *)
Definition read_artifact : string → eng ObservedFile :=
  read_required MODE1_CREDENTIAL_PATH SYSTEMD_CREDENTIAL_TEXT_SIZE_MAX.
Definition read_private_artifact : string → eng ObservedFile :=
  read_private MODE1_CREDENTIAL_PATH SYSTEMD_CREDENTIAL_TEXT_SIZE_MAX.
Definition inspect_artifact (f : ObservedFile) : secresult InspectedCredentialEnvelope :=
  contract (inspect_systemd_credential_envelope (of_bytes f)).

(** The comparison of [self.runtime.preview_verifier(config)?] in a chain of [||]: asked only when
    nothing before it differs. *)
Definition differs_or_preview (changed : bool) (config : bytes) (expected : VerifierResultV1)
    : eng bool :=
  if changed then eret true
  else preview <~ ask (PreviewVerifier config); eret (differs preview expected).

Definition revalidate_mode0_objects (expected_config_sha256 : Sha256Digest)
    (expected_effective : EffectiveUnitSetV1) : eng () :=
  config <~ read_private CONFIG_FILE MAX_CONFIG_BYTES "Mode 0 config disappeared";
  dropin <~ read_private MODE1_DROPIN_PATH MAX_DROPIN_BYTES
              "Mode 0 credential-clearing drop-in disappeared";
  _ <~ require_effective_mode0 expected_effective;
  elift (operation_if (differs (observed_sha256 config) expected_config_sha256
                       || differs (of_bytes dropin) MODE0_DROPIN_BYTES)
           "Mode 0 config or credential-clearing drop-in changed").

Definition revalidate_mode0_live (expected_config_sha256 : Sha256Digest)
    (expected_effective : EffectiveUnitSetV1) (expected_daemon : DaemonVerifierIdentityV1)
    (prompt_required : bool) (expected_invocation_id : bytes) : eng () :=
  _ <~ revalidate_mode0_objects expected_config_sha256 expected_effective;
  info <~ ask SecurityInfo;
  status <~ elift (required info "Mode 0 daemon status disappeared");
  _ <~ elift (validate_mode0_status status expected_config_sha256 None expected_daemon prompt_required);
  _ <~ elift (operation_if (differs (si_daemon_invocation_id status) expected_invocation_id)
                "Mode 0 daemon restarted before transaction commit");
  require_public_status status.

Definition revalidate_enable_candidate (receipt : ProvisioningReceiptV1) (disabled_config : bytes)
    (readiness : VerifierResultV1) : eng () :=
  artifact <~ read_private_artifact "artifact disappeared after readiness";
  inspected <~ elift (inspect_artifact artifact);
  config <~ read_private CONFIG_FILE MAX_CONFIG_BYTES "config disappeared after readiness";
  dropin <~ read_private MODE1_DROPIN_PATH MAX_DROPIN_BYTES "drop-in disappeared after readiness";
  _ <~ require_effective_mode1 (r_effective_units receipt);
  let a := r_artifact receipt in
  changed <~ differs_or_preview
    (differs (of_bytes config) disabled_config
     || differs (observed_sha256 config) (pt_disabled_sha256 (r_config_patch receipt))
     || differs (observed_sha256 artifact) (ar_sha256 a)
     || negb (fm_byte_length (of_metadata artifact) =? ar_size a)
     || differs (ie_envelope_sha256 inspected) (cp_envelope_sha256 (ar_credential_policy a))
     || differs (ie_actual_key_id inspected) (cp_actual_key_id (ar_credential_policy a))
     || differs (of_bytes dropin) MODE1_DROPIN_BYTES
     || differs (observed_sha256 dropin) (uc_dropin_sha256 (r_unit_credential receipt)))
    disabled_config readiness;
  elift (operation_if (changed || differs (ve_output (r_verifier receipt)) readiness)
           "post-readiness Mode 1 candidate changed").

Definition revalidate_enabled_objects (disabled_receipt : ProvisioningReceiptV1)
    (enabled_config : bytes) : eng () :=
  receipt <~ elift (enabled_receipt_from disabled_receipt);
  config <~ read_private CONFIG_FILE MAX_CONFIG_BYTES "enabled config disappeared";
  _ <~ require_effective_mode1 (r_effective_units receipt);
  changed <~ differs_or_preview
    (differs (of_bytes config) enabled_config
     || differs (observed_sha256 config) (pt_enabled_sha256 (r_config_patch receipt)))
    enabled_config (ve_output (r_verifier receipt));
  _ <~ elift (operation_if changed "enabled objects changed before activation commit");
  artifact <~ read_artifact "enabled artifact disappeared";
  dropin <~ read_required MODE1_DROPIN_PATH MAX_DROPIN_BYTES "enabled drop-in disappeared";
  _ <~ elift (validate_private artifact);
  _ <~ elift (validate_private dropin);
  elift (operation_if
           (differs (observed_sha256 artifact) (ar_sha256 (r_artifact receipt))
            || differs (of_bytes dropin) MODE1_DROPIN_BYTES
            || differs (observed_sha256 dropin) (uc_dropin_sha256 (r_unit_credential receipt)))
           "enabled artifact or drop-in changed before activation").

Definition revalidate_receipted_live (receipt : ProvisioningReceiptV1) (expected_config : bytes)
    (expected_receipt_sha256 : Sha256Digest) (expected_verifier : VerifierResultV1) : eng () :=
  config <~ read_private CONFIG_FILE MAX_CONFIG_BYTES "receipted config disappeared";
  artifact <~ read_private_artifact "receipted artifact disappeared";
  inspected <~ elift (inspect_artifact artifact);
  dropin <~ read_private MODE1_DROPIN_PATH MAX_DROPIN_BYTES "receipted drop-in disappeared";
  base <~ read_required BASE_SERVICE_UNIT_PATH MAX_DROPIN_BYTES "receipted base unit disappeared";
  _ <~ elift (validate_regular base 0 0 (fm_permissions (of_metadata base)));
  live <~ read_receipt_file;
  '(receipt_file, live_receipt) <~ elift (required live "receipted receipt disappeared");
  _ <~ require_effective_mode1 (r_effective_units receipt);
  let a := r_artifact receipt in
  changed <~ differs_or_preview
    (differs (of_bytes config) expected_config
     || differs (observed_sha256 config) (selected_receipt_config_sha256 receipt)
     || differs (observed_sha256 artifact) (ar_sha256 a)
     || negb (fm_byte_length (of_metadata artifact) =? ar_size a)
     || differs (ie_envelope_sha256 inspected) (cp_envelope_sha256 (ar_credential_policy a))
     || differs (ie_actual_key_id inspected) (cp_actual_key_id (ar_credential_policy a))
     || differs (of_bytes dropin) MODE1_DROPIN_BYTES
     || differs (observed_sha256 dropin) (uc_dropin_sha256 (r_unit_credential receipt))
     || differs (observed_sha256 base) (uc_base_unit_sha256 (r_unit_credential receipt))
     || differs (observed_sha256 receipt_file) expected_receipt_sha256
     || differs live_receipt receipt)
    expected_config expected_verifier;
  elift (operation_if (changed || differs (ve_output (r_verifier receipt)) expected_verifier)
           "receipted Mode 1 state changed during strong verification").

Definition receipt_matches_live (receipt : ProvisioningReceiptV1) (config artifact : ObservedFile)
    : eng bool :=
  let a := r_artifact receipt in
  let m := of_metadata artifact in
  if differs (observed_sha256 config) (selected_receipt_config_sha256 receipt)
     || differs (observed_sha256 artifact) (ar_sha256 a)
     || negb (fm_uid m =? ar_uid a) || negb (fm_gid m =? ar_gid a)
     || negb (fm_permissions m =? ar_mode a) || negb (fm_link_count m =? ar_nlink a)
  then eret false
  else
    dropin <~ ask (ReadFile MODE1_DROPIN_PATH MAX_DROPIN_BYTES);
    base_unit <~ ask (ReadFile BASE_SERVICE_UNIT_PATH MAX_DROPIN_BYTES);
    eret (match dropin with
          | Some f => bool_decide (observed_sha256 f = uc_dropin_sha256 (r_unit_credential receipt))
                      && bool_decide (of_bytes f = MODE1_DROPIN_BYTES)
          | None => false
          end
          && match base_unit with
             | Some f => bool_decide (observed_sha256 f = uc_base_unit_sha256 (r_unit_credential receipt))
             | None => false
             end).

(** One object of [validate_disabled_live]. *)
Definition committed_object (path : bytes) (maximum : Z) (expected : Sha256Digest) : eng () :=
  file <~ ask (ReadFile path maximum);
  file <~ elift (ok_or file (Uncertain (bs "committed object missing: " ++ path)));
  _ <~ elift (validate_private file);
  if differs (observed_sha256 file) expected
  then efail (Uncertain (bs "committed object changed: " ++ path)) else eret ().

Definition validate_disabled_live (journal : ProvisioningJournalV1) : eng () :=
  let h := j_planned_hashes journal in
  _ <~ committed_object MODE1_CREDENTIAL_PATH SYSTEMD_CREDENTIAL_TEXT_SIZE_MAX (ph_artifact_sha256 h);
  _ <~ committed_object MODE1_DROPIN_PATH MAX_DROPIN_BYTES (ph_dropin_sha256 h);
  _ <~ committed_object CONFIG_FILE MAX_CONFIG_BYTES (ph_disabled_config_sha256 h);
  _ <~ committed_object SECURITY_RECEIPT_PATH MAX_RECEIPT_BYTES (ph_disabled_receipt_sha256 h);
  artifact <~ read_certain MODE1_CREDENTIAL_PATH SYSTEMD_CREDENTIAL_TEXT_SIZE_MAX
                "committed artifact missing";
  _ <~ elift (validate_private artifact);
  _ <~ elift (contract_uncertain (inspect_systemd_credential_envelope (of_bytes artifact)));
  dropin <~ read_certain MODE1_DROPIN_PATH MAX_DROPIN_BYTES "committed drop-in missing";
  _ <~ elift (validate_private dropin);
  _ <~ elift (uncertain_if (differs (of_bytes dropin) MODE1_DROPIN_BYTES)
                "committed drop-in bytes changed");
  effective <~ elift (required_certain (j_effective_units journal) "effective units missing");
  require_effective_mode1 effective.

(** ** Advancing a journal *)

(** The hashes that a phase makes live. *)
Definition live_at (phase : JournalPhase) (h : PlannedObjectHashes) (l : LiveObjectHashes)
    : LiveObjectHashes :=
  let '(mkLiveHashes artifact dropin config disabled_receipt enabled_receipt) := l in
  match phase with
  | JpArtifactCommitted =>
      mkLiveHashes (Some (ph_artifact_sha256 h)) dropin config disabled_receipt enabled_receipt
  | JpDropinCommitted =>
      mkLiveHashes artifact (Some (ph_dropin_sha256 h)) config disabled_receipt enabled_receipt
  | JpDisabledConfigCommitted =>
      mkLiveHashes artifact dropin (Some (ph_disabled_config_sha256 h)) disabled_receipt enabled_receipt
  | JpDisabledReceiptCommitted =>
      mkLiveHashes artifact dropin config (Some (ph_disabled_receipt_sha256 h)) enabled_receipt
  | JpEnabledConfigCommitted =>
      mkLiveHashes artifact dropin (Some (ph_enabled_config_sha256 h)) disabled_receipt enabled_receipt
  | JpEnabledReceiptCommitted =>
      mkLiveHashes artifact dropin config disabled_receipt (Some (ph_enabled_receipt_sha256 h))
  | _ => l
  end.
Definition advance_mode1 (journal : ProvisioningJournalV1) (phase : JournalPhase)
    : eng ProvisioningJournalV1 :=
  effective <~ (if bool_decide (phase = JpDropinCommitted)
                then units <~ observe_effective_units; eret (Some units)
                else eret (j_effective_units journal));
  record_step journal
    (journal_with journal (j_generation journal) (j_prior_journal_identity journal) (j_guard journal)
       phase (live_at phase (j_planned_hashes journal) (j_live_hashes journal))
       (j_transaction_owned_paths journal) (j_atomic_writes journal) effective
       (recovery_action_for_phase phase) (j_supervisor_failed journal))
    "journal-phase-synced".

Definition advance_plaintext (journal : PlaintextProvisioningJournalV1)
    (phase : PlaintextJournalPhase) : eng PlaintextProvisioningJournalV1 :=
  effective <~ (if bool_decide (phase = PpDropinRemoved)
                then units <~ observe_effective_units; eret (Some units)
                else eret (p_effective_units journal));
  record_step journal
    (plaintext_with journal (p_generation journal) (p_prior_journal_identity journal)
       (p_guard journal) phase
       (if (plaintext_ordinal PpEnabledConfigCommitted <=? plaintext_ordinal phase)%nat
        then Some (p_enabled_config_sha256 journal) else p_live_config_sha256 journal)
       (p_transaction_owned_paths journal) (p_atomic_writes journal) effective
       (plaintext_recovery_action_for_phase phase) (p_supervisor_failed journal))
    "journal-phase-synced".

(** An atomic write of a private file of root. *)
Definition install {J} `{EngineJournal J} (journal : J) (path b : bytes) (require_absent : bool)
    : eng (J * nat) :=
  execute_atomic journal path b 0 0 mode_600 None require_absent.

(** ** Finishing in the disabled state *)

Definition final_disabled_revalidation (journal : ProvisioningJournalV1) : eng () :=
  let h := j_planned_hashes journal in
  _ <~ ask (VerifySecurityDirectories (j_security_directories journal));
  _ <~ validate_disabled_live journal;
  live <~ read_receipt_file;
  '(receipt_file, receipt) <~ elift (required_certain live "disabled receipt disappeared");
  _ <~ elift (uncertain_if (differs (r_state receipt) RsProvisionedDisabled
                            || differs (observed_sha256 receipt_file) (ph_disabled_receipt_sha256 h))
                "disabled receipt identity changed before journal deletion");
  config <~ read_certain CONFIG_FILE MAX_CONFIG_BYTES "disabled config disappeared";
  _ <~ elift (validate_private config);
  _ <~ elift (uncertain_if (differs (observed_sha256 config) (ph_disabled_config_sha256 h))
                "disabled config identity changed before journal deletion");
  readiness <~ run_stable_strong_readiness (j_transaction_id journal) (of_bytes config);
  _ <~ elift (uncertain_if (differs readiness (ve_output (r_verifier receipt)))
                "disabled namespace/readiness changed before journal deletion");
  _ <~ revalidate_receipted_live receipt (of_bytes config) (ph_disabled_receipt_sha256 h) readiness;
  info <~ ask SecurityInfo;
  _ <~ elift (uncertain_if (bool_decide (is_Some info))
                "disabled daemon unexpectedly returned root status");
  require_disabled_public_status (of_bytes config).

Definition complete_disabled_transaction (journal : ProvisioningJournalV1) : eng () :=
  _ <~ validate_disabled_live journal;
  effective <~ elift (required_certain (j_effective_units journal) "disabled effective units missing");
  _ <~ require_effective_mode1 effective;
  let service_target := j_post_provision_service_target journal in
  let socket_target := j_post_provision_socket_target journal in
  _ <~ remove_active_guard;
  _ <~ restore_unit_target socket_target;
  _ <~ verify_restored_targets turns service_target socket_target;
  journal <~ (if differs (j_phase journal) JpDisabledUnitsStarted
              then advance_mode1 journal JpDisabledUnitsStarted else eret journal);
  _ <~ final_disabled_revalidation journal;
  _ <~ verify_restored_targets turns service_target socket_target;
  finish_transaction.

(** ** Provisioning mode 1 *)

Definition refuse_receipted_presence_mismatch (requested : ProvisionPresence) : eng () :=
  config <~ ask (ReadFile CONFIG_FILE MAX_CONFIG_BYTES);
  receipt <~ read_receipt;
  match config, receipt with
  | Some config, Some receipt =>
      _ <~ elift (validate_private config);
      if bool_decide (observed_sha256 config = selected_receipt_config_sha256 receipt)
      then elift (require_requested_presence (of_bytes config) requested) else eret ()
  | _, _ => eret ()
  end.

(** The receipt describes this artifact. *)
Definition receipt_describes (receipt : ProvisioningReceiptV1) (artifact : ObservedFile) : bool :=
  let a := r_artifact receipt in
  let m := of_metadata artifact in
  bool_decide (ar_path a = MODE1_CREDENTIAL_PATH)
  && bool_decide (ar_sha256 a = observed_sha256 artifact)
  && (ar_size a =? fm_byte_length m) && (ar_uid a =? fm_uid m) && (ar_gid a =? fm_gid m)
  && (ar_mode a =? fm_permissions m) && (ar_nlink a =? fm_link_count m).
Definition artifact_state (artifact : option ObservedFile) (receipt : option ProvisioningReceiptV1)
    : secresult ExistingProvisioningArtifact :=
  match artifact with
  | None => Ok ArtifactAbsent
  | Some f =>
      _ ← validate_private f;
      Ok (if is_ok (inspect_systemd_credential_envelope (of_bytes f)) then
            match receipt with
            | Some r => if receipt_describes r f then ArtifactVerified else ArtifactUnverified
            | None => ArtifactUnverified
            end
          else ArtifactMismatch)
  end.

(** The states a provisioning may go on from; [Idempotent] is not reached. *)
Definition provisioning_admitted (state : ProvisioningState) (namespace_nonempty adopt_existing : bool)
    : eng () :=
  match state with
  | PsFresh | PsAdopt => eret ()
  | PsDifferentMode DmAbsent =>
      if negb namespace_nonempty then eret ()
      else efail (Refused (bs "a different configured mode has a nonempty Mode 1 namespace; refusing a new key"))
  | PsDifferentMode (DmReceipted | DmUnadopted) =>
      if adopt_existing then eret ()
      else efail (Refused (bs "a different configured mode has a preexisting Mode 1 artifact; --adopt-existing and strong readiness are required"))
  | PsDifferentMode DmMismatch =>
      efail (Refused (bs "a different configured mode has an invalid Mode 1 artifact"))
  | PsUnadopted =>
      efail (Refused (bs "existing credential artifact is unadopted; rerun with --adopt-existing after verification"))
  | PsMissing | PsNewKey | PsNonempty =>
      efail (Refused (bs "Mode 1 namespace/config requires the existing verified epoch-1 artifact; refusing a new key"))
  | PsMismatch =>
      efail (Refused (bs "existing Mode 1 configuration or artifact does not match v1 policy"))
  | PsIdempotent => epanic
  end.

(** What is found before a provisioning: the configured mode, the receipt, the artifact. *)
Definition admit_provisioning (existing_mode : option (Z * Z)) (receipt : option ProvisioningReceiptV1)
    (artifact : option ObservedFile) (namespace_nonempty adopt_existing : bool) : eng () :=
  state <~ elift (artifact_state artifact receipt);
  provisioning_admitted
    (classify_provisioning_state
       (mkStateInput
          (match existing_mode with Some (mode, epoch) => ConfigExplicit mode epoch | None => ConfigAbsent end)
          state namespace_nonempty (bool_decide (artifact = None)) adopt_existing))
    namespace_nonempty adopt_existing.

(** The envelope to install, its selector, and whether it was generated. *)
Definition obtain_artifact (existing : option ObservedFile) (with_key : KeySelection)
    : eng (bytes * CredentialSelector * bool) :=
  match existing with
  | Some artifact =>
      _ <~ elift (validate_private artifact);
      inspected <~ elift (inspect_artifact artifact);
      eret (of_bytes artifact, selector (ie_actual_key_id inspected), false)
  | None =>
      selection <~ ask (ResolveKeySelection with_key);
      _ <~ (if may_use_host_secret selection then
              secure <~ ask HostSecretPreexistingSecure;
              elift (refused_if (negb secure)
                "host-backed systemd credentials require an exact pre-existing secure /var/lib/systemd/credential.secret in v1")
            else eret ());
      key <~ ask GenerateKey;
      _ <~ elift (operation_if (negb (len key =? 32)) "RNG returned a non-32-byte key");
      artifact <~ ask (EncryptCredential (credential_encrypt_command selection) key);
      inspected <~ elift (contract (inspect_systemd_credential_envelope artifact));
      let actual := selector (ie_actual_key_id inspected) in
      let requested := match selection with
                       | KsAuto => actual | KsHost => SelHost | KsTpm2 => SelTpm2
                       | KsHostAndTpm2 => SelHostAndTpm2
                       end in
      _ <~ elift (operation_if (differs actual requested)
                    "systemd-creds returned a different key selector");
      eret (artifact, requested, true)
  end.

(** The paths a mode-1 transaction owns. *)
Definition mode1_paths (staging : bytes) : list bytes :=
  sort_paths [CONFIG_FILE; MODE1_CREDENTIAL_PATH; MODE1_DROPIN_PATH; SECURITY_RECEIPT_PATH;
              SECURITY_TRANSACTION_GUARD_PATH; staging].

Definition next_generation (supervisor : SupervisorJournalV1) : secresult Z :=
  required (checked_add (s_generation supervisor) 1) "journal generation overflow".

(** A mode-1 journal that takes over from the supervisor's. *)
Definition mode1_journal_from (supervisor : SupervisorJournalV1) (phase : JournalPhase)
    (planned : PlannedObjectHashes) (live : LiveObjectHashes) (artifact_preexisted : bool)
    (service socket post_service post_socket : StableUnitState) (effective : option EffectiveUnitSetV1)
    (backup_hashes : BackupHashes) (action : RecoveryAction) (prior_effective : EffectiveUnitSetV1)
    (generation : Z) (identity : AtomicFileIdentityV1) : ProvisioningJournalV1 :=
  mkJournal PROVISIONING_SCHEMA_VERSION (s_transaction_id supervisor) generation (Some identity)
    (s_journal_staging_path supervisor) (s_guard supervisor) phase 1 MODE1_KEY_EPOCH
    MODE1_CREDENTIAL_NAME planned live (mode1_paths (s_journal_staging_path supervisor)) []
    (s_security_directories supervisor) artifact_preexisted
    (readiness_unit_name (s_transaction_id supervisor)) (s_prior_config supervisor)
    (s_prior_dropin supervisor) (s_prior_receipt supervisor) service socket post_service post_socket
    (s_prior_daemon_invocation_id supervisor) prior_effective effective backup_hashes action false.

Definition no_live_hashes : LiveObjectHashes := mkLiveHashes None None None None None.

Definition supervisor_service (s : SupervisorJournalV1) : secresult StableUnitState :=
  required (s_service_unit_state s) "supervisor service snapshot missing".
Definition supervisor_socket (s : SupervisorJournalV1) : secresult StableUnitState :=
  required (s_socket_unit_state s) "supervisor socket snapshot missing".
Definition supervisor_effective (s : SupervisorJournalV1) : secresult EffectiveUnitSetV1 :=
  required (s_prior_effective_units s) "prior effective units missing".

(** The checks between strong readiness and the receipt. *)
Definition check_after_readiness (journal : ProvisioningJournalV1) (artifact disabled_config : bytes)
    (receipt : ProvisioningReceiptV1) (inspected : InspectedCredentialEnvelope)
    (sel : CredentialSelector) (output : VerifierResultV1) : eng () :=
  validated <~ elift (contract (validate_systemd_credential_envelope artifact sel MODE1_CREDENTIAL_NAME
                 (mkCryptographicValidation (ie_envelope_sha256 inspected) MODE1_CREDENTIAL_NAME 32
                    true true)));
  _ <~ elift (operation_if (differs validated (ar_credential_policy (r_artifact receipt)))
                "credential policy changed after strong readiness");
  _ <~ require_effective_mode1 (r_effective_units receipt);
  live_artifact <~ read_artifact "artifact disappeared after readiness";
  live_dropin <~ read_required MODE1_DROPIN_PATH MAX_DROPIN_BYTES "drop-in disappeared after readiness";
  live_base <~ read_required BASE_SERVICE_UNIT_PATH MAX_DROPIN_BYTES
                 "base unit disappeared after readiness";
  _ <~ elift (operation_if
         (differs (observed_sha256 live_artifact) (ar_sha256 (r_artifact receipt))
          || differs (observed_sha256 live_dropin) (uc_dropin_sha256 (r_unit_credential receipt))
          || differs (of_bytes live_dropin) MODE1_DROPIN_BYTES
          || differs (observed_sha256 live_base) (uc_base_unit_sha256 (r_unit_credential receipt)))
         "provisioning object changed after strong readiness");
  live_config <~ read_private CONFIG_FILE MAX_CONFIG_BYTES "candidate config disappeared";
  changed <~ differs_or_preview
    (differs (of_bytes live_config) disabled_config
     || differs (observed_sha256 live_config) (pt_disabled_sha256 (r_config_patch receipt)))
    (of_bytes live_config) output;
  if changed then efail (Operation (bs "post-readiness candidate correlation changed"))
  else
    digest <~ elift (contract (receipt_sha256 receipt));
    elift (operation_if (differs digest (ph_disabled_receipt_sha256 (j_planned_hashes journal)))
             "post-readiness candidate correlation changed").

Definition execute_mode1_provision (journal : ProvisioningJournalV1) (artifact disabled_config : bytes)
    (disabled_receipt : ProvisioningReceiptV1) (disabled_receipt_bytes : bytes)
    (inspected : InspectedCredentialEnvelope) (sel : CredentialSelector) (generated : bool)
    : eng () :=
  '(journal, artifact_write) <~
    (if generated then
       '(journal, index) <~ install journal MODE1_CREDENTIAL_PATH artifact true;
       eret (journal, Some index)
     else eret (journal, None));
  installed <~ read_private_artifact "credential artifact disappeared";
  _ <~ elift (operation_if (differs (observed_sha256 installed)
                              (ph_artifact_sha256 (j_planned_hashes journal)))
                "credential artifact changed");
  _ <~ boundary "artifact-installed";
  journal <~ advance_mode1 journal JpArtifactCommitted;
  journal <~ match artifact_write with
             | Some index => cleanup_atomic journal index
             | None => eret journal
             end;
  '(journal, dropin_write) <~ install journal MODE1_DROPIN_PATH MODE1_DROPIN_BYTES false;
  _ <~ ask DaemonReload;
  _ <~ boundary "dropin-installed";
  journal <~ advance_mode1 journal JpDropinCommitted;
  journal <~ cleanup_atomic journal dropin_write;
  _ <~ elift (operation_if
         (differs (j_effective_units journal) (Some (r_effective_units disabled_receipt)))
         "effective unit policy differs from the planned receipt");
  '(journal, config_write) <~ install journal CONFIG_FILE disabled_config false;
  _ <~ boundary "disabled-config-installed";
  journal <~ advance_mode1 journal JpDisabledConfigCommitted;
  journal <~ cleanup_atomic journal config_write;
  _ <~ require_effective_mode1 (r_effective_units disabled_receipt);
  output <~ run_stable_strong_readiness (j_transaction_id journal) disabled_config;
  _ <~ elift (operation_if (differs output (ve_output (r_verifier disabled_receipt)))
                "strong readiness output did not match the planned descriptor-bound result");
  _ <~ check_after_readiness journal artifact disabled_config disabled_receipt inspected sel output;
  _ <~ boundary "readiness-verified";
  journal <~ advance_mode1 journal JpReadinessVerified;
  '(journal, receipt_write) <~ install journal SECURITY_RECEIPT_PATH disabled_receipt_bytes false;
  _ <~ boundary "disabled-receipt-installed";
  journal <~ advance_mode1 journal JpDisabledReceiptCommitted;
  journal <~ cleanup_atomic journal receipt_write;
  complete_disabled_transaction journal.

Definition verify_disabled_idempotent (config : ObservedFile) (receipt : ProvisioningReceiptV1)
    (artifact receipt_file : ObservedFile) (service_state socket_state : StableUnitState)
    (supervisor : SupervisorJournalV1) : eng SecurityOutcome :=
  _ <~ elift (validate_private config);
  _ <~ elift (validate_private artifact);
  _ <~ elift (validate_private receipt_file);
  dropin <~ read_private MODE1_DROPIN_PATH MAX_DROPIN_BYTES "receipted drop-in disappeared";
  expected <~ ask (PreviewVerifier (of_bytes config));
  _ <~ elift (operation_if (differs expected (ve_output (r_verifier receipt)))
                "idempotent verifier inputs differ from receipt");
  enabled <~ elift (enabled_receipt_from receipt);
  disabled_receipt_bytes <~ elift (contract (receipt_bytes receipt));
  enabled_receipt_bytes <~ elift (contract (receipt_bytes enabled));
  '(post_service, post_socket) <~
    elift (contract (disabled_post_provision_unit_targets service_state socket_state));
  generation <~ elift (next_generation supervisor);
  identity <~ latest_journal_identity;
  prior_effective <~ elift (supervisor_effective supervisor);
  let journal := mode1_journal_from supervisor JpUnitsStopped
    (mkPlannedHashes (observed_sha256 artifact) (observed_sha256 dropin)
       (pt_disabled_sha256 (r_config_patch receipt)) (pt_enabled_sha256 (r_config_patch receipt))
       (digest_from_bytes disabled_receipt_bytes) (digest_from_bytes enabled_receipt_bytes))
    no_live_hashes true service_state socket_state post_service post_socket None
    (mkBackupHashes (Some (observed_sha256 artifact)) (Some (observed_sha256 config))
       (Some (observed_sha256 dropin)) (Some (observed_sha256 receipt_file)))
    RestorePriorState prior_effective generation identity in
  _ <~ persist_journal journal;
  journal <~ advance_mode1 journal JpArtifactCommitted;
  _ <~ ask DaemonReload;
  journal <~ advance_mode1 journal JpDropinCommitted;
  _ <~ require_effective_mode1 (r_effective_units receipt);
  journal <~ advance_mode1 journal JpDisabledConfigCommitted;
  output <~ run_stable_strong_readiness (s_transaction_id supervisor) (of_bytes config);
  _ <~ elift (operation_if (differs output (ve_output (r_verifier receipt)))
                "idempotent strong readiness result changed");
  journal <~ advance_mode1 journal JpReadinessVerified;
  journal <~ advance_mode1 journal JpDisabledReceiptCommitted;
  _ <~ complete_disabled_transaction journal;
  eret (mkOutcome [bs "Mode 1 disabled state was idempotently reverified.";
                   bs "Run `sudo howy security enable` after review."] None).

Definition verify_enabled_idempotent (config : ObservedFile) (receipt : ProvisioningReceiptV1)
    (artifact receipt_file : ObservedFile) (service_state socket_state : StableUnitState)
    (supervisor : SupervisorJournalV1) : eng SecurityOutcome :=
  _ <~ elift (validate_private config);
  _ <~ elift (validate_private artifact);
  inspected <~ elift (inspect_artifact artifact);
  let enabled_sha256 := pt_enabled_sha256 (r_config_patch receipt) in
  _ <~ elift (refused_if
         (differs (observed_sha256 artifact) (ar_sha256 (r_artifact receipt))
          || differs (ie_envelope_sha256 inspected)
               (cp_envelope_sha256 (ar_credential_policy (r_artifact receipt)))
          || differs (observed_sha256 config) enabled_sha256)
         "enabled receipt correlation is stale");
  _ <~ ask DaemonReload;
  _ <~ require_effective_mode1 (r_effective_units receipt);
  readiness <~ run_stable_strong_readiness (s_transaction_id supervisor) (of_bytes config);
  changed <~ differs_or_preview (differs readiness (ve_output (r_verifier receipt))) (of_bytes config)
               readiness;
  _ <~ elift (operation_if changed "enabled idempotent strong readiness changed");
  _ <~ require_effective_mode1 (r_effective_units receipt);
  _ <~ revalidate_receipted_live receipt (of_bytes config) (observed_sha256 receipt_file) readiness;
  supervisor <~ advance_supervisor supervisor SpMutationCommitted;
  _ <~ remove_active_guard;
  _ <~ restore_unit_target socket_state;
  _ <~ restore_unit_target service_state;
  _ <~ verify_restored_targets turns service_state socket_state;
  info <~ ask SecurityInfo;
  status <~ elift (required info "enabled daemon root status unavailable");
  _ <~ elift (validate_enabled_status status receipt (s_prior_daemon_invocation_id supervisor)
                enabled_sha256 (of_bytes config));
  _ <~ require_public_status status;
  _ <~ revalidate_receipted_live receipt (of_bytes config) (observed_sha256 receipt_file) readiness;
  supervisor <~ advance_supervisor supervisor SpUnitsRestored;
  info <~ ask SecurityInfo;
  final_status <~ elift (required info "enabled daemon root status disappeared");
  _ <~ elift (validate_enabled_status final_status receipt (s_prior_daemon_invocation_id supervisor)
                enabled_sha256 (of_bytes config));
  _ <~ require_public_status final_status;
  _ <~ elift (operation_if
         (differs (si_daemon_invocation_id final_status) (si_daemon_invocation_id status))
         "enabled daemon invocation changed before journal deletion");
  _ <~ finish_transaction;
  eret (mkOutcome [bs "Mode 1 enabled state was strongly reverified."] None).

(** The part of [provision_mode1] that installs a new state. *)
Definition provision_new_mode1 (request : ProvisionRequest) (supervisor : SupervisorJournalV1)
    (config : option ObservedFile) (receipt_file : option (ObservedFile * ProvisioningReceiptV1))
    (existing_artifact : option ObservedFile)
    (service_state socket_state post_service post_socket : StableUnitState) : eng SecurityOutcome :=
  '(artifact_bytes, requested_selector, generated) <~
    obtain_artifact existing_artifact (pr_with_key request);
  _ <~ boundary "credential-ready";
  disabled_config <~ elift (build_disabled_mode1_config config (pr_presence request));
  config_patch <~ elift (contract (prepare_config_enable_patch disabled_config));
  let patch := pp_contract config_patch in
  expected_verifier <~ ask (PreviewVerifier disabled_config);
  _ <~ elift (operation_if (differs (vr_config_sha256 expected_verifier) (pt_disabled_sha256 patch))
                "verifier preview did not bind the candidate config");
  inspected <~ elift (contract (inspect_systemd_credential_envelope artifact_bytes));
  let artifact_metadata := from_option of_metadata generated_artifact_metadata existing_artifact in
  base_unit <~ read_required BASE_SERVICE_UNIT_PATH MAX_DROPIN_BYTES "base howy.service is missing";
  _ <~ elift (validate_regular base_unit 0 0 (fm_permissions (of_metadata base_unit)));
  policy <~ elift (anticipated_policy inspected requested_selector);
  prior_effective <~ elift (supervisor_effective supervisor);
  planned_effective <~ elift (contract (planned_effective_units prior_effective
                         (digest_from_bytes MODE1_DROPIN_BYTES) (len MODE1_DROPIN_BYTES) true));
  disabled_receipt <~ elift (build_disabled_receipt (s_transaction_id supervisor) artifact_bytes
                        artifact_metadata policy patch (observed_sha256 base_unit) planned_effective
                        expected_verifier);
  enabled <~ elift (enabled_receipt_from disabled_receipt);
  disabled_receipt_bytes <~ elift (contract (receipt_bytes disabled_receipt));
  enabled_receipt_bytes <~ elift (contract (receipt_bytes enabled));
  generation <~ elift (next_generation supervisor);
  identity <~ latest_journal_identity;
  dropin <~ ask (ReadFile MODE1_DROPIN_PATH MAX_DROPIN_BYTES);
  let journal := mode1_journal_from supervisor JpUnitsStopped
    (mkPlannedHashes (digest_from_bytes artifact_bytes) (digest_from_bytes MODE1_DROPIN_BYTES)
       (pt_disabled_sha256 patch) (pt_enabled_sha256 patch)
       (digest_from_bytes disabled_receipt_bytes) (digest_from_bytes enabled_receipt_bytes))
    no_live_hashes (negb generated) service_state socket_state post_service post_socket None
    (mkBackupHashes (if generated then None else Some (digest_from_bytes artifact_bytes))
       (sha256_of config) (sha256_of dropin) (sha256_of (fst <$> receipt_file)))
    RestorePriorState prior_effective generation identity in
  _ <~ persist_journal journal;
  _ <~ boundary "mode1-planned";
  _ <~ execute_mode1_provision journal artifact_bytes disabled_config disabled_receipt
         disabled_receipt_bytes inspected requested_selector generated;
  eret (mkOutcome [bs "Mode 1 provisioned and verified in disabled state.";
                   bs "Run `sudo howy security enable` after review."] None).

Definition provision_mode1 (request : ProvisionRequest) : eng SecurityOutcome :=
  _ <~ refuse_receipted_presence_mismatch (pr_presence request);
  supervisor <~ begin_supervised_transaction turns OpProvisionMode1 None;
  namespace_nonempty <~ ask NamespaceNonempty;
  config <~ ask (ReadFile CONFIG_FILE MAX_CONFIG_BYTES);
  existing_mode <~ elift (parse_explicit_mode config);
  receipt_file <~ read_receipt_file;
  existing_artifact <~ ask (ReadFile MODE1_CREDENTIAL_PATH SYSTEMD_CREDENTIAL_TEXT_SIZE_MAX);
  service_state <~ elift (supervisor_service supervisor);
  socket_state <~ elift (supervisor_socket supervisor);
  '(post_service, post_socket) <~
    elift (contract (disabled_post_provision_unit_targets service_state socket_state));
  matched <~ match config, receipt_file, existing_artifact with
             | Some config, Some (file, receipt), Some artifact =>
                 live <~ receipt_matches_live receipt config artifact;
                 eret (if (live : bool) then Some (config, receipt, artifact, file) else None)
             | _, _, _ => eret None
             end;
  match matched with
  | Some (config, receipt, artifact, file) =>
      _ <~ elift (require_requested_presence (of_bytes config) (pr_presence request));
      match r_state receipt with
      | RsProvisionedDisabled =>
          verify_disabled_idempotent config receipt artifact file service_state socket_state supervisor
      | RsEnabled =>
          verify_enabled_idempotent config receipt artifact file service_state socket_state supervisor
      end
  | None =>
      _ <~ admit_provisioning existing_mode (snd <$> receipt_file) existing_artifact
             namespace_nonempty (pr_adopt_existing request);
      provision_new_mode1 request supervisor config receipt_file existing_artifact service_state
        socket_state post_service post_socket
  end.

(** ** Enabling mode 1 *)

Definition execute_enable (journal : ProvisioningJournalV1)
    (disabled_receipt enabled : ProvisioningReceiptV1) (enabled_receipt_bytes enabled_config : bytes)
    (prior_invocation : option bytes) : eng () :=
  _ <~ require_effective_mode1 (r_effective_units disabled_receipt);
  disabled_config <~ read_required CONFIG_FILE MAX_CONFIG_BYTES "disabled config disappeared";
  readiness <~ run_stable_strong_readiness (j_transaction_id journal) (of_bytes disabled_config);
  _ <~ elift (operation_if (differs readiness (ve_output (r_verifier disabled_receipt)))
                "enable readiness result changed");
  _ <~ revalidate_enable_candidate disabled_receipt (of_bytes disabled_config) readiness;
  '(journal, config_write) <~ install journal CONFIG_FILE enabled_config false;
  _ <~ boundary "enabled-config-installed";
  journal <~ advance_mode1 journal JpEnabledConfigCommitted;
  journal <~ cleanup_atomic journal config_write;
  _ <~ revalidate_enabled_objects disabled_receipt enabled_config;
  journal <~ advance_mode1 journal JpActivationCommitted;
  _ <~ remove_active_guard;
  _ <~ ask DaemonReload;
  _ <~ start_controlled turns;
  _ <~ require_effective_mode1 (r_effective_units enabled);
  info <~ ask SecurityInfo;
  status <~ elift (required info "daemon root security status unavailable");
  let config_sha256 := ph_enabled_config_sha256 (j_planned_hashes journal) in
  _ <~ elift (validate_enabled_status status enabled prior_invocation config_sha256 enabled_config);
  _ <~ require_public_status status;
  journal <~ advance_mode1 journal JpUnitsStarted;
  '(journal, receipt_write) <~ install journal SECURITY_RECEIPT_PATH enabled_receipt_bytes false;
  _ <~ boundary "enabled-receipt-installed";
  journal <~ advance_mode1 journal JpEnabledReceiptCommitted;
  journal <~ cleanup_atomic journal receipt_write;
  _ <~ revalidate_receipted_live enabled enabled_config
         (ph_enabled_receipt_sha256 (j_planned_hashes journal)) (ve_output (r_verifier enabled));
  info <~ ask SecurityInfo;
  final_status <~ elift (required info "enabled daemon status disappeared");
  _ <~ elift (validate_enabled_status final_status enabled None config_sha256 enabled_config);
  _ <~ require_public_status final_status;
  _ <~ elift (operation_if
         (differs (si_daemon_invocation_id final_status) (si_daemon_invocation_id status))
         "enabled daemon restarted before transaction commit");
  finish_transaction.

Definition enable_mode1 : eng SecurityOutcome :=
  supervisor <~ begin_supervised_transaction turns OpEnableMode1 None;
  live <~ read_receipt_file;
  '(receipt_file, receipt) <~ elift (ok_or live (Refused (bs "Mode 1 provisioning receipt is missing")));
  _ <~ elift (refused_if (differs (r_state receipt) RsProvisionedDisabled)
                "Mode 1 receipt is not in provisioned-disabled state");
  let patch := r_config_patch receipt in
  config <~ read_private CONFIG_FILE MAX_CONFIG_BYTES "receipted config is missing";
  _ <~ elift (operation_if (differs (observed_sha256 config) (pt_disabled_sha256 patch))
                "live config does not match the disabled receipt");
  enabled_config <~ elift (contract (apply_receipted_config_patch (of_bytes config) patch));
  artifact <~ read_private_artifact "receipted artifact is missing";
  dropin <~ read_private MODE1_DROPIN_PATH MAX_DROPIN_BYTES "receipted drop-in is missing";
  base_unit <~ read_required BASE_SERVICE_UNIT_PATH MAX_DROPIN_BYTES "receipted base unit is missing";
  _ <~ elift (validate_regular base_unit 0 0 (fm_permissions (of_metadata base_unit)));
  _ <~ elift (operation_if
         (differs (observed_sha256 artifact) (ar_sha256 (r_artifact receipt))
          || negb (fm_byte_length (of_metadata artifact) =? ar_size (r_artifact receipt))
          || differs (observed_sha256 dropin) (uc_dropin_sha256 (r_unit_credential receipt))
          || differs (of_bytes dropin) MODE1_DROPIN_BYTES
          || differs (observed_sha256 base_unit) (uc_base_unit_sha256 (r_unit_credential receipt)))
         "receipted object mismatch");
  _ <~ ask DaemonReload;
  _ <~ require_effective_mode1 (r_effective_units receipt);
  service_state <~ elift (supervisor_service supervisor);
  socket_state <~ elift (supervisor_socket supervisor);
  enabled <~ elift (enabled_receipt_from receipt);
  disabled_receipt_bytes <~ elift (contract (receipt_bytes receipt));
  enabled_receipt_bytes <~ elift (contract (receipt_bytes enabled));
  '(post_service, post_socket) <~
    elift (contract (disabled_post_provision_unit_targets service_state socket_state));
  generation <~ elift (next_generation supervisor);
  identity <~ latest_journal_identity;
  prior_effective <~ elift (supervisor_effective supervisor);
  let disabled_sha256 := digest_from_bytes disabled_receipt_bytes in
  let journal := mode1_journal_from supervisor JpDisabledUnitsStarted
    (mkPlannedHashes (observed_sha256 artifact) (observed_sha256 dropin) (pt_disabled_sha256 patch)
       (pt_enabled_sha256 patch) disabled_sha256 (digest_from_bytes enabled_receipt_bytes))
    (mkLiveHashes (Some (observed_sha256 artifact)) (Some (observed_sha256 dropin))
       (Some (pt_disabled_sha256 patch)) (Some disabled_sha256) None)
    true service_state socket_state post_service post_socket (Some (r_effective_units receipt))
    (mkBackupHashes (Some (observed_sha256 artifact)) (Some (observed_sha256 config))
       (Some (observed_sha256 dropin)) (Some (observed_sha256 receipt_file)))
    CompleteDisabledProvisioning prior_effective generation identity in
  _ <~ persist_journal journal;
  _ <~ boundary "phase-prepared";
  _ <~ execute_enable journal receipt enabled enabled_receipt_bytes enabled_config
         (j_prior_daemon_invocation_id journal);
  eret (mkOutcome [bs "Mode 1 enabled and verified."] None).

(** ** Provisioning mode 0 *)

Definition execute_plaintext_provision (journal : PlaintextProvisioningJournalV1)
    (enabled_config : bytes) (planned_effective : EffectiveUnitSetV1) (prompt_required : bool)
    : eng () :=
  '(journal, dropin_write) <~ install journal MODE1_DROPIN_PATH MODE0_DROPIN_BYTES false;
  _ <~ ask DaemonReload;
  journal <~ advance_plaintext journal PpDropinRemoved;
  journal <~ cleanup_atomic journal dropin_write;
  _ <~ elift (operation_if (differs (p_effective_units journal) (Some planned_effective))
                "effective Mode 0 unit policy differs from plan");
  '(journal, config_write) <~ install journal CONFIG_FILE enabled_config false;
  journal <~ advance_plaintext journal PpEnabledConfigCommitted;
  journal <~ cleanup_atomic journal config_write;
  let config_sha256 := p_enabled_config_sha256 journal in
  _ <~ revalidate_mode0_objects config_sha256 planned_effective;
  journal <~ advance_plaintext journal PpActivationCommitted;
  expected_daemon <~ ask DaemonVerifierIdentity;
  _ <~ remove_active_guard;
  _ <~ start_controlled turns;
  info <~ ask SecurityInfo;
  status <~ elift (required info "daemon root security status unavailable");
  _ <~ elift (validate_mode0_status status config_sha256 (p_prior_daemon_invocation_id journal)
                expected_daemon prompt_required);
  _ <~ require_public_status status;
  _ <~ require_effective_mode0 planned_effective;
  let invocation := si_daemon_invocation_id status in
  _ <~ revalidate_mode0_live config_sha256 planned_effective expected_daemon prompt_required invocation;
  journal <~ advance_plaintext journal PpUnitsStarted;
  _ <~ revalidate_mode0_live (p_enabled_config_sha256 journal) planned_effective expected_daemon
         prompt_required invocation;
  finish_transaction.

Definition provision_plaintext (p : ProvisionPresence) : eng SecurityOutcome :=
  supervisor <~ begin_supervised_transaction turns OpProvisionMode0 None;
  config <~ ask (ReadFile CONFIG_FILE MAX_CONFIG_BYTES);
  _ <~ elift (match config with Some f => validate_private f | None => Ok () end);
  enabled_config <~ elift (build_enabled_mode0_config config p);
  prompt_required <~ elift (config_prompt_required enabled_config);
  service <~ elift (supervisor_service supervisor);
  socket <~ elift (supervisor_socket supervisor);
  prior_effective <~ elift (supervisor_effective supervisor);
  planned_effective <~ elift (contract (planned_effective_units prior_effective
                         (digest_from_bytes MODE0_DROPIN_BYTES) (len MODE0_DROPIN_BYTES) false));
  generation <~ elift (next_generation supervisor);
  identity <~ latest_journal_identity;
  let journal :=
    mkPlaintextJournal PROVISIONING_SCHEMA_VERSION (s_transaction_id supervisor) generation
      (Some identity) (s_journal_staging_path supervisor) (s_guard supervisor) PpUnitsStopped
      (digest_from_bytes enabled_config) None
      (sort_paths (sorted_paths [CONFIG_FILE; MODE1_DROPIN_PATH; SECURITY_TRANSACTION_GUARD_PATH]
                   ++ [s_journal_staging_path supervisor]))
      [] (s_security_directories supervisor) (s_prior_config supervisor) (s_prior_dropin supervisor)
      service socket (s_prior_daemon_invocation_id supervisor) prior_effective None
      (digest_from_bytes MODE0_DROPIN_BYTES) PlRestorePriorState false in
  _ <~ persist_journal journal;
  _ <~ execute_plaintext_provision journal enabled_config planned_effective prompt_required;
  eret (mkOutcome [bs "WARNING: explicit plaintext Mode 0 is enabled; encrypted artifacts and namespaces were preserved."] None).
End provision.
