(* ===== verification/SecurityRecover.v ===== *)
(** * The security transaction engine: cleanup and recovery

    The methods of [SecurityEngine] in [crates/howy-cli/src/security/engine.rs] that remove an
    unadopted artifact, that finish or roll back the transaction of a durable journal, and the
    commands of the command line: [provision], [enable], [recover], [cleanup_unadopted]. *)

From stdpp Require Import sorting.
From S2P Require Import Prelude Bytes Storage Crypto Namespace Legacy Contracts Cache Config Paths PromptState Protocol Status Provision ProvisionAtomic Credential Cleanup Journal ConfigPatch Receipt Security SecurityProvision.

Local Open Scope engine_scope.

Definition SECURITY_JOURNAL_PATH : bytes := bs "/var/lib/howy-security-transaction-v1.json".

(** [{reason:?}] *)
Definition refusal_debug (why : CleanupRefusal) : bytes :=
  match why with
  | ExpectedIdentityInvalid => bs "ExpectedIdentityInvalid"
  | ObservedIdentityInvalid => bs "ObservedIdentityInvalid"
  | TransactionMismatch => bs "TransactionMismatch" | PathMismatch => bs "PathMismatch"
  | ObjectIdentityMismatch => bs "ObjectIdentityMismatch" | HashMismatch => bs "HashMismatch"
  | LengthMismatch => bs "LengthMismatch" | TypeMismatch => bs "TypeMismatch"
  | OwnershipMismatch => bs "OwnershipMismatch" | ModeMismatch => bs "ModeMismatch"
  | LinkMismatch => bs "LinkMismatch" | DirectoryMismatch => bs "DirectoryMismatch"
  | SourceMismatch => bs "SourceMismatch" | ConfigReference => bs "ConfigReference"
  | ReceiptReference => bs "ReceiptReference" | DropinReference => bs "DropinReference"
  | JournalReference => bs "JournalReference" | ActiveTransaction => bs "ActiveTransaction"
  | EffectiveUnitReference => bs "EffectiveUnitReference" | UnitNotInactive => bs "UnitNotInactive"
  | UnitUnstable => bs "UnitUnstable" | UnitTransitional => bs "UnitTransitional"
  | UnitJobQueued => bs "UnitJobQueued" | ReadinessTransient => bs "ReadinessTransient"
  | DaemonReference => bs "DaemonReference"
  end.

Section recover.
  Context `{Sha256} `{SerdeJson TransactionGuardV1} `{SerdeJson UnadoptedArtifactV1}.
  Context `{SerdeJson ProvisioningJournalV1} `{SerdeJson PlaintextProvisioningJournalV1}.
  Context `{SerdeJson SupervisorJournalV1} `{SerdeJson VerifierResultV1} `{SerdeJson ProvisioningReceiptV1}.
  Context `{ConfigEnv} `{PatchToml} `{TomlPretty}.
  Context (turns : nat).

(** [.clone().ok_or_else(|| SecurityError::Uncertain(..))?] on the targets of a supervisor journal. *)
Definition unit_targets (j : SupervisorJournalV1) (service_missing socket_missing : string)
    : secresult (StableUnitState * StableUnitState) :=
  service ← required_certain (s_service_unit_state j) service_missing;
  socket ← required_certain (s_socket_unit_state j) socket_missing;
  Ok (service, socket).

(** The units are brought back once the guard is down. *)
Definition restore_units (service socket : StableUnitState) : eng () :=
  _ <~ restore_unit_target socket;
  _ <~ restore_unit_target service;
  verify_restored_targets turns service socket.

(** ** What refers to an unadopted artifact *)

Definition config_refers (identity : CleanupArtifactIdentityV1) (config : option ObservedFile)
    : secresult bool :=
  match config with
  | None => Ok false
  | Some f =>
      _ ← validate_private f;
      c ← parse_config (of_bytes f) "malformed config is a cleanup reference"
            "malformed config is a cleanup reference";
      _ ← valid_config c;
      Ok (bool_decide (embedding_mode (security c) = AeadCached)
          && bool_decide (credential_name (cached (security c))
                          = cs_credential_name (ca_source identity)))
  end.
Definition receipt_refers (receipt : option ObservedFile) : secresult bool :=
  match receipt with
  | None => Ok false
  | Some f =>
      _ ← validate_private f;
      r ← map_err (λ _, Operation (bs "malformed receipt is a cleanup reference"))
            (receipt_parse (of_bytes f));
      Ok (bool_decide (ar_path (r_artifact r) = MODE1_CREDENTIAL_PATH))
  end.
Definition dropin_refers (dropin : option ObservedFile) : secresult bool :=
  match dropin with
  | None => Ok false
  | Some f =>
      _ ← validate_private f;
      if bool_decide (of_bytes f = MODE0_DROPIN_BYTES) then Ok false
      else if bool_decide (of_bytes f = MODE1_DROPIN_BYTES) then Ok true
      else Err (Operation (bs "unknown or malformed drop-in is a cleanup reference"))
  end.
Definition units_refer (identity : CleanupArtifactIdentityV1) (units : EffectiveUnitSetV1) : bool :=
  let path := ad_path (ca_descriptor identity) in
  existsb (λ c, bool_decide (cl_source c = path)) (eu_load_credential_encrypted (es_service units))
  || existsb (λ c, bool_decide (sc_name c = MODE1_CREDENTIAL_SOURCE_COMPANION_NAME)
                   && bool_decide (sc_value c = path)) (eu_set_credential (es_service units)).

Definition cleanup_external_references (identity : CleanupArtifactIdentityV1)
    : eng (CleanupReferences * EffectiveUnitSetV1) :=
  config <~ ask (ReadFile CONFIG_FILE MAX_CONFIG_BYTES);
  config_reference <~ elift (config_refers identity config);
  receipt <~ ask (ReadFile SECURITY_RECEIPT_PATH MAX_RECEIPT_BYTES);
  receipt_reference <~ elift (receipt_refers receipt);
  dropin <~ ask (ReadFile MODE1_DROPIN_PATH MAX_DROPIN_BYTES);
  dropin_reference <~ elift (dropin_refers dropin);
  effective_units <~ observe_effective_units;
  eret (mkReferences config_reference receipt_reference dropin_reference false false
          (units_refer identity effective_units), effective_units).

(** [references.journal = ..; references.active_transaction = ..] *)
Definition with_transaction (r : CleanupReferences) (journal active_transaction : bool)
    : CleanupReferences :=
  mkReferences (cr_config r) (cr_receipt r) (cr_dropin r) journal active_transaction
    (cr_effective_unit r).

(** The durable journal is not the one this transaction wrote. *)
Definition foreign_journal (observed : option ObservedFile) (journal : SupervisorJournalV1)
    (live : option ObservedFile) : secresult bool :=
  match live with
  | Some f =>
      _ ← validate_private f;
      Ok (differs observed (Some f)
          || match supervisor_journal_parse (of_bytes f) with
             | Ok parsed => differs parsed journal
             | Err _ => true
             end)
  | None => Ok true
  end.
Definition foreign_guard (journal : SupervisorJournalV1) (live : option ObservedFile)
    : secresult bool :=
  match live with
  | Some f =>
      _ ← validate_private f;
      Ok (match s_guard journal with
          | Some expected =>
              differs (atomic_identity f) (tgi_file expected)
              || differs (of_bytes f)
                   (match guard_deterministic_bytes (tgi_content expected) with
                    | Ok b => b | Err _ => [] end)
          | None => true
          end)
  | None => Ok true
  end.
Definition cleanup_references (identity : CleanupArtifactIdentityV1) (journal : SupervisorJournalV1)
    : eng (CleanupReferences * EffectiveUnitSetV1) :=
  '(references, effective_units) <~ cleanup_external_references identity;
  live <~ ask (ReadFile SECURITY_JOURNAL_PATH MAX_JOURNAL_BYTES);
  observed <~ egets en_journal_observation;
  journal_reference <~ elift (foreign_journal observed journal live);
  guard <~ ask (ReadFile SECURITY_TRANSACTION_GUARD_PATH 256);
  active_transaction <~ elift (foreign_guard journal guard);
  eret (with_transaction references journal_reference active_transaction, effective_units).

Definition daemon_responded_for_cleanup : eng bool :=
  info <~ ask SecurityInfo;
  match info with
  | None => eret false
  | Some status =>
      _ <~ elift (map_err (λ _, Operation (bs "malformed daemon status is a cleanup reference"))
                    (security_info_validate_strict status));
      eret true
  end.

(** The units, the transient unit and the daemon, in this order. *)
Definition observe_cleanup_units (identity : CleanupArtifactIdentityV1)
    : eng (UnitObservation * UnitObservation * bool * bool) :=
  service <~ ask (ObserveUnit UkService);
  socket <~ ask (ObserveUnit UkSocket);
  transient <~ ask (TransientExists (readiness_unit_name (ca_transaction_id identity)));
  responded <~ daemon_responded_for_cleanup;
  eret (service, socket, transient, responded).

Definition observed_artifact (identity : CleanupArtifactIdentityV1) (f : ObservedFile)
    (i : InspectedCredentialEnvelope) : CleanupArtifactIdentityV1 :=
  cleanup_identity (ca_transaction_id identity) f (ie_actual_key_id i) (ie_envelope_sha256 i)
    (ie_envelope_size i).
Definition admissibility_of (identity : CleanupArtifactIdentityV1) (p : CleanupPreAdmissionV1)
    : CleanupAdmissibility :=
  classify_cleanup_admissibility
    (mkCleanupInput identity (pa_observed_artifact p) (pa_references p) (pa_service p) (pa_socket p)
       (pa_readiness_transient_exists p) (pa_daemon_responded p)).

Definition read_artifact_file : eng (option ObservedFile) :=
  ask (ReadFile MODE1_CREDENTIAL_PATH SYSTEMD_CREDENTIAL_TEXT_SIZE_MAX).

Definition observe_cleanup_pre_admission (identity : CleanupArtifactIdentityV1)
    : eng CleanupPreAdmissionV1 :=
  file <~ read_artifact_file;
  file <~ elift (ok_or file (Refused (bs "unadopted artifact is absent")));
  inspected <~ elift (inspect_artifact file);
  '(references, effective_units) <~ cleanup_external_references identity;
  journal <~ ask (ReadFile SECURITY_JOURNAL_PATH MAX_JOURNAL_BYTES);
  guard <~ ask (ReadFile SECURITY_TRANSACTION_GUARD_PATH 256);
  '(service, socket, transient, responded) <~ observe_cleanup_units identity;
  let pre_admission :=
    mkPreAdmission (observed_artifact identity file inspected)
      (with_transaction references (bool_decide (is_Some journal)) (bool_decide (is_Some guard)))
      service socket transient responded effective_units in
  match admissibility_of identity pre_admission with
  | CleanupRefuse why => efail (Refused (bs "unadopted cleanup refused: " ++ refusal_debug why))
  | CleanupAdmissible => eret pre_admission
  end.

Definition recheck_cleanup_pre_admission (initial : CleanupPreAdmissionV1)
    (journal : SupervisorJournalV1) : eng () :=
  identity <~ elift (required_certain (s_cleanup_artifact journal) "cleanup identity missing");
  file <~ read_artifact_file;
  file <~ elift (required_certain file "unadopted artifact disappeared");
  inspected <~ elift (contract_uncertain (inspect_systemd_credential_envelope (of_bytes file)));
  '(references, effective_units) <~ cleanup_references identity journal;
  '(service, socket, transient, responded) <~ observe_cleanup_units identity;
  let current :=
    mkPreAdmission (observed_artifact identity file inspected) references service socket transient
      responded effective_units in
  elift (uncertain_if
           (differs current initial || differs (admissibility_of identity current) CleanupAdmissible)
           "cleanup pre-admission predicates changed after guard creation").

Definition admit_quarantined_cleanup (identity : CleanupArtifactIdentityV1) (quarantine_path : bytes)
    (journal : SupervisorJournalV1) : eng () :=
  original <~ read_artifact_file;
  _ <~ elift (refused_if (bool_decide (is_Some original))
                "cleanup refused because the original artifact path was repopulated");
  quarantined <~ ask (ReadFile quarantine_path SYSTEMD_CREDENTIAL_TEXT_SIZE_MAX);
  quarantined <~ elift (required_certain quarantined "cleanup quarantine disappeared");
  inspected <~ elift (contract_uncertain (inspect_systemd_credential_envelope (of_bytes quarantined)));
  '(references, effective_units) <~ cleanup_references identity journal;
  '(service, socket, transient, responded) <~ observe_cleanup_units identity;
  match admissibility_of identity
          (mkPreAdmission (observed_artifact identity quarantined inspected) references service socket
             transient responded effective_units) with
  | CleanupRefuse why => efail (Refused (bs "quarantined cleanup refused: " ++ refusal_debug why))
  | CleanupAdmissible => eret ()
  end.

(** ** Removing it *)

Definition advance_cleanup_quarantine (journal : SupervisorJournalV1)
    (state : CleanupQuarantineStateV1) : eng SupervisorJournalV1 :=
  quarantine <~ elift (required (s_cleanup_quarantine journal) "cleanup quarantine journal missing");
  record_step journal
    (supervisor_with journal (s_generation journal) (s_prior_journal_identity journal)
       (s_guard journal) (s_phase journal) (s_transaction_owned_paths journal)
       (s_atomic_writes journal) (s_security_directories journal)
       (Some (mkQuarantine (cq_path quarantine) state)) (s_supervisor_failed journal))
    "cleanup-quarantine-state-synced".

Definition cleanup_controls_match (journal : SupervisorJournalV1) : eng () :=
  live <~ ask (ReadFile SECURITY_JOURNAL_PATH MAX_JOURNAL_BYTES);
  live <~ elift (required_certain live "cleanup journal disappeared");
  _ <~ elift (validate_private live);
  observed <~ egets en_journal_observation;
  _ <~ elift (uncertain_if
         (differs observed (Some live)
          || match supervisor_journal_parse (of_bytes live) with
             | Ok parsed => differs parsed journal
             | Err _ => true
             end) "cleanup journal changed concurrently");
  guard <~ ask (ReadFile SECURITY_TRANSACTION_GUARD_PATH 256);
  guard <~ elift (required_certain guard "cleanup guard disappeared");
  _ <~ elift (validate_private guard);
  expected <~ elift (required_certain (s_guard journal) "cleanup guard identity missing");
  if differs (atomic_identity guard) (tgi_file expected)
  then efail (Uncertain (bs "cleanup guard changed concurrently"))
  else
    b <~ elift (contract_uncertain (guard_deterministic_bytes (tgi_content expected)));
    elift (uncertain_if (differs (of_bytes guard) b) "cleanup guard changed concurrently").

Definition restore_cleanup_quarantine (journal : SupervisorJournalV1)
    (identity : CleanupArtifactIdentityV1) : eng () :=
  quarantine <~ elift (required_certain (s_cleanup_quarantine journal)
                         "cleanup quarantine journal missing");
  intact <~ etry (cleanup_controls_match journal);
  _ <~ boundary "cleanup-restore-requested";
  _ <~ ask (RestoreQuarantined (ca_descriptor identity) (cq_path quarantine));
  _ <~ boundary "cleanup-quarantine-restored";
  still <~ (if is_ok intact
            then r <~ etry (cleanup_controls_match journal); eret (is_ok r) else eret false);
  _ <~ elift (uncertain_if (negb still)
         "cleanup artifact was restored but transaction controls changed; guard and journal retained");
  journal <~ advance_cleanup_quarantine journal QRestored;
  '(service, socket) <~ elift (unit_targets journal "cleanup service target missing"
                                 "cleanup socket target missing");
  _ <~ rollback_supervisor_security_directories journal;
  _ <~ remove_active_guard;
  _ <~ restore_units service socket;
  _ <~ advance_supervisor journal SpUnitsRestored;
  finish_transaction.

Definition remove_cleanup_manifest (journal : SupervisorJournalV1) : eng () :=
  identity <~ elift (required_certain (s_cleanup_artifact journal) "cleanup artifact identity missing");
  expected <~ elift (required_certain (s_cleanup_manifest journal) "cleanup manifest identity missing");
  manifest <~ ask (ReadFile (cm_path expected) MAX_RECEIPT_BYTES);
  match manifest with
  | None =>
      elift (uncertain_if (differs (cq_state <$> s_cleanup_quarantine journal) (Some QRemoved))
               "cleanup manifest disappeared before authorized removal")
  | Some manifest =>
      _ <~ elift (validate_private manifest);
      canonical <~ elift (contract_uncertain
        (m ← unadopted_new identity; unadopted_deterministic_bytes m));
      _ <~ elift (uncertain_if (differs (of_bytes manifest) canonical
                                || differs (atomic_identity manifest) (cm_file expected))
                    "cleanup manifest was replaced or is not canonical; guard retained");
      ask (RemoveFileExact (cm_path expected) (cm_file expected))
  end.

Definition finish_supervisor_units (journal : SupervisorJournalV1) : eng () :=
  '(service, socket) <~ elift (unit_targets journal "service target missing" "socket target missing");
  _ <~ rollback_supervisor_security_directories journal;
  _ <~ remove_active_guard;
  _ <~ restore_units service socket;
  _ <~ (if differs (s_phase journal) SpUnitsRestored && negb (s_supervisor_failed journal)
        then advance_supervisor journal SpUnitsRestored else eret journal);
  finish_transaction.

(** The artifact is moved aside, admitted twice where it is now, and removed. *)
Definition remove_unadopted (identity : CleanupArtifactIdentityV1) (supervisor : SupervisorJournalV1)
    : eng SecurityOutcome :=
  quarantine <~ elift (required (s_cleanup_quarantine supervisor) "cleanup quarantine plan missing");
  let quarantine_path := cq_path quarantine in
  _ <~ ask (QuarantineArtifact (ca_descriptor identity) quarantine_path);
  supervisor <~ advance_cleanup_quarantine supervisor QRenamed;
  _ <~ boundary "artifact-quarantined";
  let admitted (continue : eng SecurityOutcome) : eng SecurityOutcome :=
    r <~ etry (admit_quarantined_cleanup identity quarantine_path supervisor);
    match r with
    | Err conflict => _ <~ restore_cleanup_quarantine supervisor identity; efail conflict
    | Ok _ => continue
    end in
  admitted (
  _ <~ boundary "cleanup-final-recheck";
  admitted (
  _ <~ ask (UnlinkQuarantined (ca_descriptor identity) quarantine_path);
  supervisor <~ advance_cleanup_quarantine supervisor QRemoved;
  _ <~ boundary "quarantine-unlinked";
  supervisor <~ advance_supervisor supervisor SpMutationCommitted;
  _ <~ remove_cleanup_manifest supervisor;
  _ <~ remove_active_guard;
  service <~ elift (required (s_service_unit_state supervisor) "cleanup service target missing");
  socket <~ elift (required (s_socket_unit_state supervisor) "cleanup socket target missing");
  _ <~ restore_units service socket;
  _ <~ advance_supervisor supervisor SpUnitsRestored;
  _ <~ finish_transaction;
  eret (mkOutcome [bs "Unadopted artifact quarantined and removed after reference-safe revalidation."]
          None))).

Definition cleanup_locked (request : CleanupRequest) : eng SecurityOutcome :=
  _ <~ elift (validate_transaction_id (rq_transaction_id request));
  let manifest_path := unadopted_manifest_path (rq_transaction_id request) in
  file <~ ask (ReadFile manifest_path MAX_RECEIPT_BYTES);
  manifest_file <~ elift (ok_or file (Refused (bs "unadopted transaction manifest is missing")));
  _ <~ elift (validate_private manifest_file);
  manifest <~ elift (contract (unadopted_parse (of_bytes manifest_file)));
  let identity := ua_identity manifest in
  _ <~ elift (refused_if
         (differs (ca_transaction_id identity) (rq_transaction_id request)
          || differs (ad_sha256 (ca_descriptor identity)) (rq_artifact_sha256 request))
         "cleanup transaction or artifact hash does not match the manifest");
  pre_admission <~ observe_cleanup_pre_admission identity;
  supervisor <~ begin_supervised_transaction turns OpCleanupUnadopted
    (Some (identity, mkManifestIdentity manifest_path (atomic_identity manifest_file), pre_admission));
  _ <~ recheck_cleanup_pre_admission pre_admission supervisor;
  _ <~ boundary "cleanup-admitted";
  _ <~ stop_units_under_one_deadline turns;
  supervisor <~ advance_supervisor supervisor SpUnitsStopped;
  supervisor <~ prepare_security_directories supervisor;
  remove_unadopted identity supervisor.

(** ** Recovering a supervised transaction *)

(** The branches of [recover_cleanup_supervisor] on what is at the two paths. *)
Inductive quarantine_case :=
| CaseFinish | CaseAdvance | CaseAdmit | CaseUnlink | CaseRestore | CaseManifest | CaseForeign.
Definition quarantine_case_of (state : CleanupQuarantineStateV1)
    (original quarantined original_matches quarantine_matches : bool) : quarantine_case :=
  match state with
  | QPlanned =>
      if original_matches && negb quarantined then CaseFinish
      else if negb original && quarantine_matches then CaseAdvance
      else CaseForeign
  | QRenamed =>
      if negb original && quarantine_matches then CaseAdmit
      else if negb original && negb quarantined then CaseUnlink
      else if original_matches && negb quarantined then CaseRestore
      else CaseForeign
  | QRemoved => if negb original && negb quarantined then CaseManifest else CaseForeign
  | QRestored => if original_matches && negb quarantined then CaseFinish else CaseForeign
  end.

(** The artifact in quarantine is admitted again and removed, or put back. *)
Definition resume_quarantined (identity : CleanupArtifactIdentityV1) (path : bytes)
    (journal : SupervisorJournalV1) : eng (option bytes) :=
  r <~ etry (admit_quarantined_cleanup identity path journal);
  match r with
  | Err _ => _ <~ restore_cleanup_quarantine journal identity; eret None
  | Ok _ =>
      _ <~ ask (UnlinkQuarantined (ca_descriptor identity) path);
      journal <~ advance_cleanup_quarantine journal QRemoved;
      journal <~ (if differs (s_phase journal) SpMutationCommitted
                  then advance_supervisor journal SpMutationCommitted else eret journal);
      _ <~ remove_cleanup_manifest journal;
      _ <~ finish_supervisor_units journal;
      eret None
  end.

Definition recover_cleanup_supervisor (journal : SupervisorJournalV1) : eng (option bytes) :=
  identity <~ elift (required_certain (s_cleanup_artifact journal) "cleanup identity missing");
  quarantine <~ elift (required_certain (s_cleanup_quarantine journal) "cleanup quarantine missing");
  let descriptor := ca_descriptor identity in
  original <~ read_artifact_file;
  quarantined <~ ask (ReadFile (cq_path quarantine) SYSTEMD_CREDENTIAL_TEXT_SIZE_MAX);
  let matches f := from_option (cleanup_file_matches identity) false f in
  match quarantine_case_of (cq_state quarantine) (bool_decide (is_Some original))
          (bool_decide (is_Some quarantined)) (matches original) (matches quarantined) with
  | CaseFinish => _ <~ finish_supervisor_units journal; eret None
  | CaseAdvance => 
      journal <~ advance_cleanup_quarantine journal QRenamed;
      resume_quarantined identity (cq_path quarantine) journal
  | CaseAdmit => resume_quarantined identity (cq_path quarantine) journal
  | CaseUnlink =>
      _ <~ ask (UnlinkQuarantined descriptor (cq_path quarantine));
      journal <~ advance_cleanup_quarantine journal QRemoved;
      _ <~ remove_cleanup_manifest journal;
      _ <~ finish_supervisor_units journal;
      eret None
  | CaseRestore =>
      _ <~ ask (RestoreQuarantined descriptor (cq_path quarantine));
      journal <~ advance_cleanup_quarantine journal QRestored;
      _ <~ finish_supervisor_units journal;
      eret None
  | CaseManifest =>
      _ <~ remove_cleanup_manifest journal;
      _ <~ finish_supervisor_units journal;
      eret None
  | CaseForeign =>
      efail (Uncertain (bs "cleanup recovery found artifact paths outside the journaled quarantine state"))
  end.

(** The journal under the guard that is up now. *)
Definition adopt_guard {J} `{EngineJournal J} (journal : J) (guard : TransactionGuardIdentityV1)
    : eng J :=
  if bool_decide (ej_guard journal = Some guard) then eret journal
  else record_transition journal (ej_with_guard (Some guard) journal).

Definition recover_supervisor (journal : SupervisorJournalV1) : eng (option bytes) :=
  guard <~ ensure_guard (s_transaction_id journal) (s_guard journal);
  journal <~
    (if bool_decide (s_phase journal = SpPrepared) then
       service <~ elift (required_certain (s_service_unit_state journal)
                           "prepared service snapshot missing");
       socket <~ elift (required_certain (s_socket_unit_state journal)
                          "prepared socket snapshot missing");
       effective <~ elift (required_certain (s_prior_effective_units journal)
                             "prepared effective-unit snapshot missing");
       advance_supervisor_guarded journal service socket (s_prior_daemon_invocation_id journal)
         effective guard
     else adopt_guard journal guard);
  _ <~ stop_units_under_one_deadline turns;
  journal <~ (if bool_decide (s_phase journal = SpGuarded)
              then advance_supervisor journal SpUnitsStopped else eret journal);
  journal <~ (if bool_decide (s_phase journal = SpUnitsStopped) && negb (s_supervisor_failed journal)
              then prepare_security_directories journal else eret journal);
  journal <~ (if s_supervisor_failed journal
              then reconcile_recorded_security_directories journal
              else _ <~ ask (VerifySecurityDirectories (s_security_directories journal));
                   eret journal);
  if bool_decide (s_operation journal = OpCleanupUnadopted)
  then recover_cleanup_supervisor journal
  else _ <~ finish_supervisor_units journal; eret None.

(** ** Recovering a provisioning of mode 1 *)

Definition write_unadopted_manifest (journal : ProvisioningJournalV1) (artifact : ObservedFile)
    (inspected : InspectedCredentialEnvelope) : eng ProvisioningJournalV1 :=
  let transaction_id := j_transaction_id journal in
  b <~ elift (contract
    (m ← unadopted_new (cleanup_identity transaction_id artifact (ie_actual_key_id inspected)
                          (ie_envelope_sha256 inspected) (ie_envelope_size inspected));
     unadopted_deterministic_bytes m));
  '(journal, write) <~ install journal (unadopted_manifest_path transaction_id) b false;
  cleanup_atomic journal write.

Definition restore_mode1_prior (journal : ProvisioningJournalV1) : eng ProvisioningJournalV1 :=
  let prior := journal in
  journal <~ restore_snapshot journal CONFIG_FILE (j_prior_config prior) MAX_CONFIG_BYTES;
  journal <~ restore_snapshot journal MODE1_DROPIN_PATH (j_prior_dropin prior) MAX_DROPIN_BYTES;
  journal <~ restore_snapshot journal SECURITY_RECEIPT_PATH (j_prior_receipt prior) MAX_RECEIPT_BYTES;
  _ <~ ask DaemonReload;
  effective <~ observe_effective_units;
  _ <~ elift (uncertain_if (differs effective (j_prior_effective_units journal))
                "restored effective units differ from journal");
  eret journal.

Definition finish_rollback_units (service socket : StableUnitState)
    (directories : list SecurityDirectoryRecordV1) : eng () :=
  _ <~ ask (RollbackSecurityDirectories directories);
  _ <~ remove_active_guard;
  _ <~ restore_units service socket;
  finish_transaction.

Definition finish_disabled_units (journal : ProvisioningJournalV1)
    (service_target socket_target : StableUnitState) : eng () :=
  _ <~ remove_active_guard;
  _ <~ restore_unit_target socket_target;
  _ <~ verify_restored_targets turns service_target socket_target;
  _ <~ final_disabled_revalidation journal;
  _ <~ verify_restored_targets turns service_target socket_target;
  finish_transaction.

(** What each recovery of mode 1 starts with. *)
Definition quiesce_mode1 (journal : ProvisioningJournalV1) : eng () :=
  _ <~ ensure_guard (j_transaction_id journal) (j_guard journal);
  _ <~ stop_readiness_transient (j_transient_unit journal);
  stop_units_under_one_deadline turns.

Definition recover_prior_state (journal : ProvisioningJournalV1) : eng (option bytes) :=
  _ <~ quiesce_mode1 journal;
  artifact <~ read_artifact_file;
  '(journal, cleanup) <~
    (if j_artifact_preexisted journal then eret (journal, None)
     else match artifact with
          | Some artifact =>
              if bool_decide (observed_sha256 artifact = ph_artifact_sha256 (j_planned_hashes journal))
              then
                inspected <~ elift (inspect_artifact artifact);
                journal <~ write_unadopted_manifest journal artifact inspected;
                eret (journal, Some (cleanup_command (j_transaction_id journal)
                                       (observed_sha256 artifact)))
              else efail (Uncertain
                     (bs "transaction-owned credential artifact changed during recovery"))
          | None => eret (journal, None)
          end);
  journal <~ restore_mode1_prior journal;
  _ <~ finish_rollback_units (j_service_unit_state journal) (j_socket_unit_state journal)
         (j_security_directories journal);
  eret cleanup.

Definition recover_complete_disabled (journal : ProvisioningJournalV1) : eng (option bytes) :=
  let h := j_planned_hashes journal in
  _ <~ quiesce_mode1 journal;
  config <~ read_certain CONFIG_FILE MAX_CONFIG_BYTES "committed config missing";
  journal <~
    (if bool_decide (observed_sha256 config = ph_enabled_config_sha256 h) then
       disabled <~ elift (required_certain (j_prior_config journal) "disabled config backup missing");
       disabled_bytes <~ elift (contract (exact_decode (efs_bytes disabled)));
       _ <~ elift (uncertain_if (differs (digest_from_bytes disabled_bytes) (ph_disabled_config_sha256 h))
                     "disabled config backup hash changed");
       restore_snapshot journal CONFIG_FILE (Some disabled) MAX_CONFIG_BYTES
     else eret journal);
  _ <~ validate_disabled_live journal;
  live <~ read_receipt;
  receipt <~ elift (required_certain live "disabled receipt disappeared");
  _ <~ require_effective_mode1 (r_effective_units receipt);
  config <~ read_certain CONFIG_FILE MAX_CONFIG_BYTES "disabled config missing";
  readiness <~ run_stable_strong_readiness (j_transaction_id journal) (of_bytes config);
  _ <~ elift (uncertain_if (differs readiness (ve_output (r_verifier receipt)))
                "disabled recovery readiness changed");
  _ <~ complete_disabled_transaction turns journal;
  eret None.

Definition recover_disabled_state (journal : ProvisioningJournalV1) : eng (option bytes) :=
  _ <~ quiesce_mode1 journal;
  live <~ read_receipt;
  receipt <~ elift (required_certain live "disabled receipt disappeared");
  disabled <~ elift (required_certain (j_prior_config journal) "disabled backup missing");
  journal <~ restore_snapshot journal CONFIG_FILE (Some disabled) MAX_CONFIG_BYTES;
  disabled_bytes <~ elift (contract (exact_decode (efs_bytes disabled)));
  _ <~ elift (uncertain_if
         (differs (digest_from_bytes disabled_bytes) (pt_disabled_sha256 (r_config_patch receipt)))
         "disabled backup does not match receipt");
  _ <~ validate_disabled_live journal;
  readiness <~ run_stable_strong_readiness (j_transaction_id journal) disabled_bytes;
  _ <~ elift (uncertain_if (differs readiness (ve_output (r_verifier receipt)))
                "restored disabled readiness changed");
  _ <~ revalidate_enable_candidate receipt disabled_bytes readiness;
  _ <~ finish_disabled_units journal (j_post_provision_service_target journal)
         (j_post_provision_socket_target journal);
  eret None.

(** The disabled receipt that the journal keeps. *)
Definition disabled_receipt_backup (journal : ProvisioningJournalV1) : secresult ProvisioningReceiptV1 :=
  prior ← required_certain (j_prior_receipt journal) "disabled receipt backup missing";
  b ← contract (exact_decode (efs_bytes prior));
  receipt ← contract_uncertain (receipt_parse b);
  _ ← uncertain_if (differs (r_state receipt) RsProvisionedDisabled)
        "activation recovery disabled receipt backup is not disabled";
  Ok receipt.
Definition disabled_config_backup (journal : ProvisioningJournalV1) : secresult bytes :=
  prior ← required_certain (j_prior_config journal) "disabled backup missing";
  contract (exact_decode (efs_bytes prior)).

(** Once the enabled configuration is live again: start, check, write the receipt, check again. *)
Definition recover_started (journal : ProvisioningJournalV1) (receipt : ProvisioningReceiptV1)
    (enabled : bytes) : eng (option bytes) :=
  let validate status enabled_receipt :=
    validate_enabled_status status enabled_receipt (j_prior_daemon_invocation_id journal)
      (ph_enabled_config_sha256 (j_planned_hashes journal)) enabled in
  _ <~ remove_active_guard;
  _ <~ ask DaemonReload;
  _ <~ start_controlled turns;
  enabled_receipt <~ elift (enabled_receipt_from receipt);
  info <~ ask SecurityInfo;
  started_status <~ elift (required_certain info "enabled daemon status missing");
  _ <~ elift (validate started_status enabled_receipt);
  _ <~ require_public_status started_status;
  _ <~ require_effective_mode1 (r_effective_units enabled_receipt);
  enabled_receipt_bytes <~ elift (contract (receipt_bytes enabled_receipt));
  '(journal, write) <~ install journal SECURITY_RECEIPT_PATH enabled_receipt_bytes false;
  journal <~ cleanup_atomic journal write;
  _ <~ revalidate_enabled_objects receipt enabled;
  _ <~ revalidate_receipted_live enabled_receipt enabled
         (ph_enabled_receipt_sha256 (j_planned_hashes journal)) (ve_output (r_verifier enabled_receipt));
  _ <~ require_effective_mode1 (r_effective_units enabled_receipt);
  info <~ ask SecurityInfo;
  final_status <~ elift (required_certain info "enabled daemon status disappeared");
  _ <~ elift (validate final_status enabled_receipt);
  _ <~ require_public_status final_status;
  _ <~ elift (uncertain_if
         (differs (si_daemon_invocation_id final_status) (si_daemon_invocation_id started_status))
         "enabled daemon restarted during activation recovery");
  _ <~ finish_transaction;
  eret None.
Definition recover_enabled_activation (journal : ProvisioningJournalV1) : eng (option bytes) :=
  _ <~ quiesce_mode1 journal;
  live <~ read_receipt;
  _ <~ elift (required_certain live "activation receipt missing");
  receipt <~ elift (disabled_receipt_backup journal);
  disabled_bytes <~ elift (disabled_config_backup journal);
  enabled <~ elift (contract (apply_receipted_config_patch disabled_bytes (r_config_patch receipt)));
  _ <~ require_effective_mode1 (r_effective_units receipt);
  journal <~ restore_snapshot journal CONFIG_FILE (j_prior_config journal) MAX_CONFIG_BYTES;
  readiness <~ run_stable_strong_readiness (j_transaction_id journal) disabled_bytes;
  _ <~ elift (uncertain_if (differs readiness (ve_output (r_verifier receipt)))
                "activation recovery readiness changed");
  _ <~ revalidate_enable_candidate receipt disabled_bytes readiness;
  '(journal, write) <~ install journal CONFIG_FILE enabled false;
  journal <~ cleanup_atomic journal write;
  _ <~ revalidate_enabled_objects receipt enabled;
  recover_started journal receipt enabled.

Definition recover_mode1 (journal : ProvisioningJournalV1) : eng (option bytes) :=
  guard <~ ensure_guard (j_transaction_id journal) (j_guard journal);
  journal <~ adopt_guard journal guard;
  _ <~ stop_readiness_transient (j_transient_unit journal);
  _ <~ stop_units_under_one_deadline turns;
  _ <~ ask (VerifySecurityDirectories (j_security_directories journal));
  journal <~ reconcile_atomic_records journal;
  match j_recovery_action journal with
  | RestorePriorState => recover_prior_state journal
  | CompleteDisabledProvisioning => recover_complete_disabled journal
  | RestoreDisabledState => recover_disabled_state journal
  | CompleteEnabledActivation => recover_enabled_activation journal
  end.

(** ** Recovering a provisioning of mode 0 *)

Definition rollback_plaintext (journal : PlaintextProvisioningJournalV1) : eng () :=
  let prior := journal in
  _ <~ ensure_guard (p_transaction_id journal) (p_guard journal);
  _ <~ stop_units_under_one_deadline turns;
  journal <~ restore_snapshot journal CONFIG_FILE (p_prior_config prior) MAX_CONFIG_BYTES;
  journal <~ restore_snapshot journal MODE1_DROPIN_PATH (p_prior_dropin prior) MAX_DROPIN_BYTES;
  _ <~ ask DaemonReload;
  effective <~ observe_effective_units;
  _ <~ elift (uncertain_if (differs effective (p_prior_effective_units journal))
                "restored Mode 0 prior effective units differ from journal");
  finish_rollback_units (p_service_unit_state journal) (p_socket_unit_state journal)
    (p_security_directories journal).

Definition recover_activation (journal : PlaintextProvisioningJournalV1) : eng () :=
  _ <~ ensure_guard (p_transaction_id journal) (p_guard journal);
  _ <~ stop_units_under_one_deadline turns;
  config <~ read_certain CONFIG_FILE MAX_CONFIG_BYTES "Mode 0 config missing";
  let config_sha256 := p_enabled_config_sha256 journal in
  _ <~ elift (uncertain_if (differs (observed_sha256 config) config_sha256)
                "Mode 0 config changed during recovery");
  prompt_required <~ elift (config_prompt_required (of_bytes config));
  effective <~ elift (required_certain (p_effective_units journal) "Mode 0 effective units missing");
  _ <~ require_effective_mode0 effective;
  expected_daemon <~ ask DaemonVerifierIdentity;
  _ <~ revalidate_mode0_objects config_sha256 effective;
  _ <~ remove_active_guard;
  _ <~ ask DaemonReload;
  _ <~ start_controlled turns;
  info <~ ask SecurityInfo;
  status <~ elift (required_certain info "Mode 0 daemon status missing");
  _ <~ elift (validate_mode0_status status config_sha256 (p_prior_daemon_invocation_id journal)
                expected_daemon prompt_required);
  _ <~ require_public_status status;
  _ <~ require_effective_mode0 effective;
  _ <~ revalidate_mode0_live config_sha256 effective expected_daemon prompt_required
         (si_daemon_invocation_id status);
  finish_transaction.

Definition recover_plaintext (journal : PlaintextProvisioningJournalV1) : eng (option bytes) :=
  guard <~ ensure_guard (p_transaction_id journal) (p_guard journal);
  journal <~ adopt_guard journal guard;
  _ <~ stop_units_under_one_deadline turns;
  _ <~ ask (VerifySecurityDirectories (p_security_directories journal));
  journal <~ reconcile_atomic_records journal;
  _ <~ match p_recovery_action journal with
       | PlRestorePriorState => rollback_plaintext journal
       | PlCompleteActivation => recover_activation journal
       end;
  eret None.

(** ** The commands *)

(** No journal: there must be no guard either. *)
Definition recover_without_journal : eng (option bytes) :=
  _ <~ set_journal None;
  guard <~ ask (ReadFile SECURITY_TRANSACTION_GUARD_PATH 256);
  match guard with
  | Some guard =>
      _ <~ elift (validate_private guard);
      _ <~ match guard_parse (of_bytes guard) with
           | Ok guard => set_armed (Some (tg_transaction_id guard))
           | Err _ => eret ()
           end;
      efail (Uncertain (bs "transaction guard exists without a recoverable journal"))
  | None => _ <~ disarm; eret None
  end.

Definition recover_locked : eng (option bytes) :=
  _ <~ set_armed (Some (bs "manual-recovery"));
  loaded <~ ask LoadJournal;
  match loaded with
  | None => recover_without_journal
  | Some file =>
      _ <~ set_journal (Some file);
      _ <~ elift (validate_private file);
      match journal_parse (of_bytes file), plaintext_journal_parse (of_bytes file),
            supervisor_journal_parse (of_bytes file) with
      | Ok journal, _, _ =>
          _ <~ set_armed (Some (j_transaction_id journal)); recover_mode1 journal
      | _, Ok journal, _ =>
          _ <~ set_armed (Some (p_transaction_id journal)); recover_plaintext journal
      | _, _, Ok journal =>
          _ <~ set_armed (Some (s_transaction_id journal)); recover_supervisor journal
      | _, _, _ =>
          efail (Uncertain (bs "transaction journal is malformed; guard and units must remain closed"))
      end
  end.

(** What [provision] and [enable] start with. *)
Definition after_recovery (action : eng SecurityOutcome) : eng SecurityOutcome :=
  recovered <~ recover_locked;
  match recovered with
  | Some command =>
      efail (Refused (bs "a prior transaction was recovered with an unadopted artifact; use `"
                      ++ command ++ bs "` before continuing"))
  | None => _ <~ ask RequireSystemd261; action
  end.

Definition provision (request : ProvisionRequest) : eng SecurityOutcome :=
  _ <~ ask RequireRoot;
  match pr_mode request with
  | PmEphemeralAead =>
      efail (Refused (bs "security mode 2 is unavailable until its feasibility gate passes"))
  | _ =>
      _ <~ elift (refused_if (negb (pr_confirmed request))
                    "security migration requires explicit confirmation");
      _ <~ ask AcquireLock;
      supervise turns (after_recovery
        match pr_mode request with
        | PmPlaintext => provision_plaintext turns (pr_presence request)
        | PmCachedAead => provision_mode1 turns request
        | PmEphemeralAead => epanic
        end)
  end.

Definition enable : eng SecurityOutcome :=
  _ <~ ask RequireRoot;
  _ <~ ask AcquireLock;
  supervise turns (after_recovery (enable_mode1 turns)).

Definition recover : eng SecurityOutcome :=
  _ <~ ask RequireRoot;
  _ <~ ask AcquireLock;
  supervise turns
    (cleanup_command <~ recover_locked;
     eret (mkOutcome [bs "Security transaction recovery complete."] cleanup_command)).

Definition cleanup_unadopted (request : CleanupRequest) : eng SecurityOutcome :=
  _ <~ ask RequireRoot;
  _ <~ ask AcquireLock;
  supervise turns (_ <~ recover_locked; cleanup_locked request).
End recover.
