(* ===== verification/SecuritySafety.v ===== *)
(** * The security transaction engine: what it owes, and its steps are safe

    The world a runtime keeps for the engine: the durable journal, the transaction guard, the two
    units. [answers] is what every runtime promises about a call, failed and unwound calls
    included; [allowed] is what the engine owes before a call; [ewp] says that a program only makes
    calls it may make, ends, and ends in a state of the postcondition, whatever the answers are. The
    loops that wait for a unit end within their deadline; the steps of a transaction - recording a
    generation, an atomic write, the guard, the units - are safe, and keep the engine's view of the
    durable journal and the guard exact. *)

From stdpp Require Import sorting.
From S2P Require Import Prelude Bytes Storage Crypto Namespace Legacy Contracts Cache Config Paths PromptState Protocol Status Provision ProvisionAtomic Credential Cleanup Journal ConfigPatch Receipt Security SecurityProvision SecurityRecover.

Local Open Scope engine_scope.

(** ** Machines *)

(** Whether a unit may run, was told to stop, or has acknowledged it. *)
Inductive unit_control := MayRun | StopTried | StopDone.

(** A world the engine acts on: what a runtime promises about a call at a clock of [t]
    milliseconds, failed and unwound calls included, what the engine owes before a call, and how
    units are controlled in it. *)
Class Machine (W : Type) := {
  answers : W → Z → ∀ {B}, Call B → option B → W → Z → Prop;
  allowed : W → ∀ {B}, Call B → Prop;
  control : W → UnitKind → unit_control → W;
}.
(** What every machine promises about time and units. *)
Class MachineLaws (W : Type) `{Machine W} : Prop := {
  answers_time w t {B} (c : Call B) r w' t' : answers w t c r w' t' → t ≤ t';
  answers_clock w t r w' t' : answers w t MonotonicMillis r w' t'
    → w' = w ∧ t ≤ t' ∧ ∀ now, r = Some now → now = t' ∧ now < 2 ^ 63;
  answers_settle w t r w' t' : answers w t SettleStep r w' t'
    → w' = w ∧ t ≤ t' ∧ (r = Some (Ok ()) → t < t');
  answers_observe w t u r w' t' : answers w t (ObserveUnit u) r w' t' → w' = w ∧ t ≤ t';
  answers_boundary w t name r w' t' : answers w t (Boundary name) r w' t' → w' = w ∧ t ≤ t';
  answers_stop w t u r w' t' : answers w t (StopUnit u) r w' t'
    → t ≤ t' ∧ w' = control w u (match r with Some (Ok _) => StopDone | _ => StopTried end);
  allowed_clock w : allowed w MonotonicMillis;
  allowed_settle w : allowed w SettleStep;
  allowed_observe w u : allowed w (ObserveUnit u);
  allowed_boundary w name : allowed w (Boundary name);
  allowed_stop w u : allowed w (StopUnit u);
}.

(** ** Safe programs *)

Section logic.
  Context {W : Type} `{Machine W}.

Fixpoint wp {A} (p : prog A) (Q : A → W → Z → Prop) (w : W) (t : Z) : Prop :=
  match p with
  | Done a => Q a w t
  | Ask c k => allowed w c ∧ ∀ r w' t', answers w t c r w' t' → wp (k r) Q w' t'
  | Running => False
  end.

Definition ewp {A} (m : eng A) (Φ : option (secresult A) → Engine → W → Prop)
    (e : Engine) (w : W) : Prop :=
  ∀ t, wp (m e) (λ '(e', r) w' _, Φ r e' w') w t.

(** A result, or an error or an unwinding. *)
Definition post {A} (Q : A → Engine → W → Prop) (E : Engine → W → Prop)
    : option (secresult A) → Engine → W → Prop :=
  λ r e w, match r with Some (Ok a) => Q a e w | _ => E e w end.

Lemma program_mono {A} (p : prog A) (Q Q' : A → W → Z → Prop) w t :
  wp p Q w t → (∀ a w t, Q a w t → Q' a w t) → wp p Q' w t.
Proof. revert w t; induction p as [|B c k IH|]; simpl; naive_solver. Qed.
Lemma program_bind {A B} (p : prog A) (k : A → prog B) Q w t :
  wp p (λ a, wp (k a) Q) w t → wp (pbind p k) Q w t.
Proof. revert w t; induction p as [|C c f IH|]; simpl; naive_solver. Qed.

(** Time does not go back. *)
Lemma wp_time {A} `{!MachineLaws W} (p : prog A) Q w t :
  wp p Q w t → wp p (λ a w' t', Q a w' t' ∧ t ≤ t') w t.
Proof.
  revert w t; induction p as [a|B c k IH|]; simpl; intros w t Hp; [split; [done|lia]| |done].
  destruct Hp as [Hc Hk]. split; [done|]. intros r w' t' Hr.
  eapply program_mono; [by apply IH, Hk|]. intros a w'' t'' [? ?]. split; [done|].
  pose proof (answers_time _ _ _ _ _ _ Hr). lia.
Qed.

Lemma ewp_mono {A} (m : eng A) Φ Ψ e w :
  ewp m Φ e w → (∀ r e w, Φ r e w → Ψ r e w) → ewp m Ψ e w.
Proof. intros Hm Hmono t. apply (program_mono _ _ _ _ _ (Hm t)). intros [e' r] w' t'. apply Hmono. Qed.
Lemma ewp_bind_any {A B} (m : eng A) (k : A → eng B) Φ e w :
  ewp m (λ r e w, match r with
                  | Some (Ok a) => ewp (k a) Φ e w
                  | Some (Err err) => Φ (Some (Err err)) e w
                  | None => Φ None e w
                  end) e w → ewp (ebind m k) Φ e w.
Proof.
  intros Hm t. apply program_bind. apply (program_mono _ _ _ _ _ (Hm t)).
  intros [e' [[a|err]|]] w' t' HQ; [apply HQ|done|done].
Qed.
Lemma ewp_bind {A B} (m : eng A) (k : A → eng B) Q E e w :
  ewp m (post (λ a e w, ewp (k a) (post Q E) e w) E) e w → ewp (ebind m k) (post Q E) e w.
Proof.
  intros Hm. apply ewp_bind_any. eapply ewp_mono; [exact Hm|]. by intros [[a|err]|].
Qed.
Lemma ewp_try {A} (m : eng A) Φ e w :
  ewp m (λ r, match r with Some r => Φ (Some (Ok r)) | None => Φ None end) e w → ewp (etry m) Φ e w.
Proof.
  intros Hm t. apply program_bind. apply (program_mono _ _ _ _ _ (Hm t)). by intros [e' [r|]] w' t' HQ.
Qed.
Lemma ewp_catch {A} (m : eng A) Φ e w :
  ewp m (λ r, Φ (Some (Ok r))) e w → ewp (ecatch m) Φ e w.
Proof.
  intros Hm t. apply program_bind. apply (program_mono _ _ _ _ _ (Hm t)). by intros [e' r] w' t' HQ.
Qed.
Lemma ewp_lift {A} (r : secresult A) Q E e w :
  (∀ a, r = Ok a → Q a e w) → E e w → ewp (elift r) (post Q E) e w.
Proof. intros HQ HE t. destruct r; simpl; auto. Qed.
Lemma ewp_lift_any {A} (r : secresult A) Φ e w : Φ (Some r) e w → ewp (elift r) Φ e w.
Proof. by intros HΦ t. Qed.
Lemma ewp_lift_bind {A B} (r : secresult A) (k : A → eng B) Φ e w :
  (∀ a, r = Ok a → ewp (k a) Φ e w) → (∀ err, r = Err err → Φ (Some (Err err)) e w)
  → ewp (ebind (elift r) k) Φ e w.
Proof. intros Hok Herr. apply ewp_bind_any, ewp_lift_any. destruct r; auto. Qed.
(** A result looked at. *)
Lemma ewp_try_bind {A B} (m : eng A) (k : secresult A → eng B) Φ e w :
  ewp m (λ r e w, match r with Some r => ewp (k r) Φ e w | None => Φ None e w end) e w
  → ewp (ebind (etry m) k) Φ e w.
Proof. intros Hm. apply ewp_bind_any, ewp_try. eapply ewp_mono; [exact Hm|]. by intros [r|]. Qed.
Lemma ewp_noting {A} what (m : eng A) fs Φ e w :
  ewp m (λ r e w, match r with
                  | Some (Ok _) => Φ (Some (Ok fs)) e w
                  | Some (Err _) => ∀ failure, Φ (Some (Ok (fs ++ [failure]))) e w
                  | None => Φ None e w
                  end) e w
  → ewp (noting what m fs) Φ e w.
Proof.
  intros Hm. apply ewp_try_bind. eapply ewp_mono; [exact Hm|]. intros [[a|err]|] e' w' HΦ; [..|done];
    intros t; simpl; auto.
Qed.
Lemma ewp_ret {A} (a : A) Φ e w : Φ (Some (Ok a)) e w → ewp (eret a) Φ e w.
Proof. by intros HΦ t. Qed.
Lemma ewp_fail {A} err Φ e w : Φ (Some (Err err)) e w → ewp (efail (A:=A) err) Φ e w.
Proof. by intros HΦ t. Qed.
Lemma ewp_panic {A} Φ e w : Φ None e w → ewp (epanic (A:=A)) Φ e w.
Proof. by intros HΦ t. Qed.
Lemma ewp_gets {A} (f : Engine → A) Φ e w : Φ (Some (Ok (f e))) e w → ewp (egets f) Φ e w.
Proof. by intros HΦ t. Qed.
Lemma ewp_set_armed x Φ e w :
  Φ (Some (Ok ())) (mkEngine x (en_active_guard e) (en_journal_observation e)) w
  → ewp (set_armed x) Φ e w.
Proof. by intros HΦ t. Qed.
Lemma ewp_set_guard x Φ e w :
  Φ (Some (Ok ())) (mkEngine (en_armed_transaction e) x (en_journal_observation e)) w
  → ewp (set_guard x) Φ e w.
Proof. by intros HΦ t. Qed.
Lemma ewp_set_journal x Φ e w :
  Φ (Some (Ok ())) (mkEngine (en_armed_transaction e) (en_active_guard e) x) w
  → ewp (set_journal x) Φ e w.
Proof. by intros HΦ t. Qed.
Lemma ewp_ask {A} (c : Call (secresult A)) Φ e w :
  allowed w c → (∀ t r w' t', answers w t c r w' t' → Φ r e w') → ewp (ask c) Φ e w.
Proof. intros Hc HΦ t. split; [done|]. intros r w' t' Hr. exact (HΦ _ _ _ _ Hr). Qed.

(** A call that leaves the world as it is. *)
Lemma ewp_inert {A} (c : Call (secresult A)) Q E e w :
  (∀ t r w' t', answers w t c r w' t' → w' = w) → allowed w c → (∀ a, Q a e w) → E e w
  → ewp (ask c) (post Q E) e w.
Proof.
  intros Hw Hc HQ HE. apply ewp_ask; [done|]. intros t r w' t' ->%Hw. by destruct r as [[a|err]|]; simpl.
Qed.

(** ** Programs that change nothing *)

Class Quiet {A} (m : eng A) := quiet Φ e w : (∀ r, Φ r e w) → ewp m Φ e w.

#[export] Instance quiet_bind {A B} (m : eng A) (k : A → eng B) :
  Quiet m → (∀ a, Quiet (k a)) → Quiet (ebind m k).
Proof.
  intros Hm Hk Φ e w HΦ t. apply program_bind.
  apply (program_mono _ _ _ _ _ (Hm (λ _ e' w', e' = e ∧ w' = w) e w (λ _, conj eq_refl eq_refl) t)).
  intros [e' [[a|err]|]] w' t' [-> ->]; [by apply Hk|apply HΦ|apply HΦ].
Qed.
#[export] Instance quiet_try {A} (m : eng A) : Quiet m → Quiet (etry m).
Proof. intros Hm Φ e w HΦ. apply ewp_try, Hm. intros [r|]; apply HΦ. Qed.
#[export] Instance quiet_ret {A} (a : A) : Quiet (eret a).
Proof. intros Φ e w HΦ t. apply HΦ. Qed.
#[export] Instance quiet_fail {A} err : Quiet (efail (A:=A) err).
Proof. intros Φ e w HΦ t. apply HΦ. Qed.
#[export] Instance quiet_lift {A} (r : secresult A) : Quiet (elift r).
Proof. intros Φ e w HΦ t. apply HΦ. Qed.
#[export] Instance quiet_gets {A} (f : Engine → A) : Quiet (egets f).
Proof. intros Φ e w HΦ t. apply HΦ. Qed.
#[export] Instance quiet_panic {A} : Quiet (epanic (A:=A)).
Proof. intros Φ e w HΦ t. apply HΦ. Qed.

(** A call that the engine may always make and that leaves the world as it is. *)
Definition neutral {B} (c : Call B) : Prop :=
  ∀ w, allowed w c ∧ ∀ t r w' t', answers w t c r w' t' → w' = w.
Lemma quiet_ask {A} (c : Call (secresult A)) : neutral c → Quiet (ask c).
Proof.
  intros Hc Φ e w HΦ. destruct (Hc w) as [Hw Hans]. apply ewp_ask; [done|].
  intros t r w' t' ->%Hans. apply HΦ.
Qed.
End logic.
Arguments Quiet W {_ _} m.
Arguments neutral W {_ _} c.

(** ** Waiting for units *)

Section waiting.
  Context {W : Type} `{MachineLaws W}.
  Context (turns : nat) (Hturns : 10000 < Z.of_nat turns).

(** The turns left are more than the milliseconds. *)
Definition enough (fuel : nat) (deadline t : Z) : Prop := Z.max 0 (deadline - t) < Z.of_nat fuel.

Lemma enough_next fuel deadline t now t' :
  enough (S fuel) deadline t → t ≤ now → (deadline <=? now) = false → now < t'
  → enough fuel deadline t'.
Proof. unfold enough. rewrite Z.leb_gt. lia. Qed.
Lemma enough_none deadline t : enough 0 deadline t → False.
Proof. unfold enough. lia. Qed.
Lemma enough_later fuel deadline t t' : enough fuel deadline t → t ≤ t' → enough fuel deadline t'.
Proof. unfold enough. lia. Qed.

(** The calls that wait, as steps. *)
Lemma wp_clock {A} (k : option Z → prog A) Q (w : W) t :
  (∀ now, t ≤ now → now < 2 ^ 63 → wp (k (Some now)) Q w now) → (∀ t', wp (k None) Q w t')
  → wp (Ask MonotonicMillis k) Q w t.
Proof.
  intros Hk Hnone. split; [apply allowed_clock|].
  intros [now|] w' t' (-> & Ht & Hnow)%answers_clock; [|apply Hnone].
  destruct (Hnow now eq_refl) as [-> ?]. by apply Hk.
Qed.
Lemma wp_observe {A} u (k : option (secresult UnitObservation) → prog A) Q (w : W) t :
  (∀ r t', t ≤ t' → wp (k r) Q w t') → wp (Ask (ObserveUnit u) k) Q w t.
Proof. intros Hk. split; [apply allowed_observe|]. intros r w' t' [-> Ht]%answers_observe. by apply Hk. Qed.
Lemma wp_settle {A} (k : option (secresult ()) → prog A) Q (w : W) t :
  (∀ t', t < t' → wp (k (Some (Ok ()))) Q w t') → (∀ err t', wp (k (Some (Err err))) Q w t')
  → (∀ t', wp (k None) Q w t') → wp (Ask SettleStep k) Q w t.
Proof.
  intros Hok Herr Hnone. split; [apply allowed_settle|].
  intros [[[]|err]|] w' t' (-> & Ht & Hs)%answers_settle; auto.
Qed.

Lemma stable_unit_loop_wp fuel unit deadline Φ e (w : W) t :
  enough fuel deadline t → (∀ r, Φ r e w)
  → wp (stable_unit_loop fuel unit deadline e) (λ '(e', r) w' _, Φ r e' w') w t.
Proof.
  intros Hf HΦ. revert t Hf. induction fuel as [|fuel IH]; intros t Hf; [by destruct (enough_none _ _ Hf)|].
  cbn -[wp settled_state]. apply wp_clock; [|intros t'; apply HΦ]. intros t1 Ht1 _. cbn -[wp settled_state].
  destruct (deadline <=? t1) eqn:Hd; [apply HΦ|].
  cbn -[wp settled_state]. apply wp_observe. intros [[o|err]|] t2 Ht2; [|apply HΦ|apply HΦ].
  cbn -[wp settled_state]. destruct (settled_state unit o) as [[state|]|err]; [apply HΦ| |apply HΦ].
  apply wp_settle; [|intros; apply HΦ..]. intros t3 Ht3. apply IH. eapply enough_next; eauto. lia.
Qed.
Lemma stable_pair_loop_wp fuel deadline previous Φ e (w : W) t :
  enough fuel deadline t → (∀ r, Φ r e w)
  → wp (stable_pair_loop fuel deadline previous e) (λ '(e', r) w' _, Φ r e' w') w t.
Proof.
  intros Hf HΦ. revert previous t Hf.
  induction fuel as [|fuel IH]; intros previous t Hf; [by destruct (enough_none _ _ Hf)|].
  cbn -[wp settled_state]. apply wp_clock; [|intros t'; apply HΦ]. intros t1 Ht1 _. cbn -[wp settled_state].
  destruct (deadline <=? t1) eqn:Hd; [apply HΦ|].
  cbn -[wp settled_state]. apply wp_observe. intros [[o1|err]|] t2 Ht2; [|apply HΦ|apply HΦ].
  cbn -[wp settled_state]. apply wp_observe. intros [[o2|err]|] t3 Ht3; [|apply HΦ|apply HΦ].
  cbn -[wp settled_state]. destruct (settled_state _ o1) as [x|err]; [|apply HΦ].
  cbn -[wp settled_state]. destruct (settled_state _ o2) as [y|err]; [|apply HΦ].
  assert (∀ next, wp (ebind (ask SettleStep) (λ _, stable_pair_loop fuel deadline next) e)
                    (λ '(e', r) w' _, Φ r e' w') w t3) as Hnext.
  { intros next. apply wp_settle; [|intros; apply HΦ..]. intros t4 Ht4.
    apply IH. eapply enough_next; eauto. lia. }
  destruct x as [x|], y as [y|]; cbn [ebind elift pbind]; [|apply Hnext..].
  case_match; [apply HΦ|apply Hnext].
Qed.

(** What waits for a deadline it has just set. *)
Lemma deadline_wp {A} (k : Z → eng A) (Φ : option (secresult A) → Engine → W → Prop) e w :
  (∀ deadline t, enough turns deadline t → wp (k deadline e) (λ '(e', r) w' _, Φ r e' w') w t)
  → Φ None e w → ewp (ebind settle_deadline k) Φ e w.
Proof.
  intros Hk Hnone t. apply wp_clock; [|by intros]. intros t1 Ht1 Hb. cbn -[wp].
  unfold required, checked_add.
  assert ((t1 + 10000 <=? U64_MAX) = true) as -> by (apply Z.leb_le; unfold U64_MAX; lia).
  apply Hk. unfold enough. lia.
Qed.

#[export] Instance quiet_stable_unit unit : Quiet W (stable_unit turns unit).
Proof.
  intros Φ e w HΦ. apply deadline_wp; [|apply HΦ].
  intros deadline t Hf. by apply stable_unit_loop_wp.
Qed.
#[export] Instance quiet_stable_unit_pair : Quiet W (stable_unit_pair turns).
Proof.
  intros Φ e w HΦ. apply deadline_wp; [|apply HΦ].
  intros deadline t Hf. by apply stable_pair_loop_wp.
Qed.
#[export] Instance quiet_boundary name : Quiet W (boundary name).
Proof.
  intros Φ e w HΦ. apply ewp_ask; [apply allowed_boundary|]. intros t r w' t' [-> _]%answers_boundary.
  apply HΦ.
Qed.

(** ** Stopping the units *)

(** A step that goes on whatever fails, with the list of failures. *)
Definition notes (f : list bytes → eng (list bytes)) (P P' : list bytes → W → Z → Prop) : Prop :=
  ∀ fs e w t, P fs w t → wp (f fs e) (λ '(e', r) w' t', e' = e ∧
    match r with Some (Ok fs') => P' fs' w' t' | Some (Err _) => False | None => True end) w t.

Lemma notes_noting {A} what (m : eng A) (P P' : list bytes → W → Z → Prop) :
  (∀ fs e w t, P fs w t → wp (m e) (λ '(e', r) w' t', e' = e ∧
     match r with
     | Some (Ok _) => P' fs w' t'
     | Some (Err _) => ∀ failure, P' (fs ++ [failure]) w' t'
     | None => True
     end) w t)
  → notes (noting what m) P P'.
Proof.
  intros Hm fs e w t HP. unfold noting, ebind, etry. apply program_bind, program_bind.
  eapply program_mono; [by apply Hm|]. intros [e' [[a|err]|]] w' t' [-> HQ]; simpl; auto.
Qed.
Lemma notes_bind f P P' (k : list bytes → eng ()) fs Q e w t :
  notes f P P' → P fs w t
  → (∀ fs' w' t', P' fs' w' t' → wp (k fs' e) Q w' t') → (∀ w' t', Q (e, None) w' t')
  → wp (ebind (f fs) k e) Q w t.
Proof.
  intros Hf HP Hk Hn. apply program_bind. eapply program_mono; [by apply Hf|].
  intros [e' [[fs'|err]|]] w' t' [-> Hr]; simpl; [by apply Hk|done|apply Hn].
Qed.

(** The world with both units controlled. *)
Definition control_both (w : W) (socket service : unit_control) : W :=
  control (control w UkSocket socket) UkService service.

Section stopping.
  Context (w0 : W) (deadline : Z).

(** Told to stop; nothing has failed only if it was acknowledged. *)
Definition told (fs : list bytes) (c : unit_control) : Prop := c ≠ MayRun ∧ (fs = [] → c = StopDone).
Lemma told_more fs failure c : told fs c → told (fs ++ [failure]) c.
Proof. intros [? _]. split; [done|]. by intros [_ ?]%app_nil. Qed.

Definition halting (both : bool) (fs : list bytes) (w : W) (t : Z) : Prop :=
  enough turns deadline t
  ∧ if both then ∃ a b, w = control_both w0 a b ∧ told fs a ∧ told fs b
    else ∃ a, w = control w0 UkSocket a ∧ told fs a.

Lemma halting_later both fs w t t' : halting both fs w t → t ≤ t' → halting both fs w t'.
Proof. intros [? ?] ?. split; [by eapply enough_later|done]. Qed.
Lemma halting_more both fs failure w t : halting both fs w t → halting both (fs ++ [failure]) w t.
Proof. intros [? Hb]. split; [done|]. destruct both; naive_solver eauto using told_more. Qed.

Lemma notes_boundary both what name : notes (noting what (boundary name)) (halting both) (halting both).
Proof.
  apply notes_noting. intros fs e w t HP. split; [apply allowed_boundary|].
  intros r w' t' [-> Ht]%answers_boundary. destruct r as [[[]|err]|]; simpl.
  - split; [done|]. by eapply halting_later.
  - split; [done|]. intros failure. by eapply halting_more, halting_later.
  - done.
Qed.
Lemma notes_stop_socket what :
  notes (noting what (ask (StopUnit UkSocket)))
    (λ fs w t, fs = [] ∧ w = w0 ∧ enough turns deadline t) (halting false).
Proof.
  apply notes_noting. intros fs e w t (-> & -> & Ht0). split; [apply allowed_stop|].
  intros r w' t' [Ht ->]%answers_stop. pose proof (enough_later _ _ _ _ Ht0 Ht).
  destruct r as [[[]|err]|]; simpl; (split; [done|]); try done;
    try intros failure; (split; [done|]); eexists; (split; [done|]); by split.
Qed.
Lemma notes_stop_service what :
  notes (noting what (ask (StopUnit UkService))) (halting false) (halting true).
Proof.
  apply notes_noting. intros fs e w t [Ht0 (a & -> & Ha)]. split; [apply allowed_stop|].
  intros r w' t' [Ht ->]%answers_stop. pose proof (enough_later _ _ _ _ Ht0 Ht).
  destruct r as [[[]|err]|]; simpl; (split; [done|]); try done;
    try intros failure; (split; [done|]); eexists a, _; (split; [done|]).
  - split; [done|]. by split.
  - split; [by apply told_more|]. split; [done|]. by intros [_ ?]%app_nil.
Qed.
Lemma notes_settle kind : notes (settle_inactive turns kind deadline) (halting true) (halting true).
Proof.
  intros fs e w t HP. unfold settle_inactive, ebind at 1, etry. apply program_bind, program_bind.
  pose proof HP as (Ht & _).
  eapply program_mono; [eapply wp_time, (stable_unit_loop_wp _ _ _ (λ _ e' w', e' = e ∧ w' = w)); [done|done]|].
  intros [e' [[state|err]|]] w' t' [[-> ->] Ht']; simpl; [|split; [done|]; by eapply halting_more, halting_later|done].
  case_match; [|split; [done|]; by eapply halting_more, halting_later].
  apply (notes_boundary true). by eapply halting_later.
Qed.

Lemma stop_units_deadline_wp e t :
  enough turns deadline t →
  wp ((failures <~ noting (bs "socket stop: ") (ask (StopUnit UkSocket)) [];
       failures <~ noting (bs "socket boundary: ") (boundary "socket-stopped") failures;
       failures <~ noting (bs "service stop: ") (ask (StopUnit UkService)) failures;
       failures <~ noting (bs "service boundary: ") (boundary "service-stopped") failures;
       failures <~ settle_inactive turns UkSocket deadline failures;
       failures <~ settle_inactive turns UkService deadline failures;
       if bool_decide (failures = []) then eret ()
       else efail (Operation (join_with (bs "; ") failures))) e)
    (λ '(e', r) w' _, e' = e ∧
       match r with
       | Some (Ok _) => w' = control_both w0 StopDone StopDone
       | Some (Err _) => ∃ a b, w' = control_both w0 a b ∧ a ≠ MayRun ∧ b ≠ MayRun
       | None => True
       end) w0 t.
Proof.
  intros Ht. eapply notes_bind; [apply notes_stop_socket|done| |done]. intros fs1 w1 t1 H1'.
  eapply notes_bind; [apply (notes_boundary false)|done| |done]. intros fs2 w2 t2 H2'.
  eapply notes_bind; [apply notes_stop_service|done| |done]. intros fs3 w3 t3 H3'.
  eapply notes_bind; [apply (notes_boundary true)|done| |done]. intros fs4 w4 t4 H4'.
  eapply notes_bind; [apply notes_settle|done| |done]. intros fs5 w5 t5 H5'.
  eapply notes_bind; [apply notes_settle|done| |done]. intros fs6 w6 t6 [_ (a & b & -> & [Ha Ha'] & [Hb Hb'])].
  case_bool_decide; simpl; (split; [done|]); [by rewrite Ha', Hb'|eauto].
Qed.
End stopping.

Lemma stop_units_wp e (w : W) Φ :
  Φ (Some (Ok ())) e (control_both w StopDone StopDone)
  → (∀ err a b, a ≠ MayRun → b ≠ MayRun → Φ (Some (Err err)) e (control_both w a b))
  → (∀ w', Φ None e w')
  → ewp (stop_units_under_one_deadline turns) Φ e w.
Proof.
  intros Hok Herr Hnone. apply deadline_wp; [|apply Hnone]. intros deadline t Ht.
  eapply program_mono; [by apply (stop_units_deadline_wp w deadline)|].
  intros [e' [[[]|err]|]] w' t' [-> Hr]; naive_solver.
Qed.
End waiting.

(** ** Runs *)

Section runs.
  Context {W : Type} `{Machine W}.

(** A program in a world at a time; it moves by an answer to its next call. *)
Definition moves {A} (x y : W * Z * prog A) : Prop :=
  match x with
  | (w, t, Ask c k) => ∃ r w' t', answers w t c r w' t' ∧ y = (w', t', k r)
  | _ => False
  end.
(** What is seen of a program that is reached. *)
Definition reached {A} (Q : A → W → Prop) (x : W * Z * prog A) : Prop :=
  match x with
  | (w, _, Done a) => Q a w
  | (w, _, Ask c _) => allowed w c
  | (_, _, Running) => False
  end.

Lemma moves_wp {A} Q w t (p : prog A) w' t' p' :
  moves (w, t, p) (w', t', p') → wp p Q w t → wp p' Q w' t'.
Proof.
  destruct p as [a|B c k|]; simpl; try done. intros (r & w1 & t1 & Hr & [= -> -> ->]) [_ Hk]. by apply Hk.
Qed.
Lemma runs_wp {A} (Q : A → W → Prop) (x y : W * Z * prog A) :
  rtc moves x y → wp x.2 (λ a w _, Q a w) x.1.1 x.1.2 → reached Q y.
Proof.
  induction 1 as [[[w t] p]|[[w t] p] [[w1 t1] p1] z Hm _ IH]; simpl in *.
  - destruct p; simpl; tauto.
  - intros Hp. apply IH. by eapply moves_wp.
Qed.
(** No program runs forever. *)
Lemma runs_end {A} (x : W * Z * prog A) : Acc (flip moves) x.
Proof.
  destruct x as [[w t] p]. revert w t.
  induction p as [a|B c k IH|]; intros w t; constructor; unfold flip; simpl; [by intros y []| |by intros y []].
  intros y (r & w' & t' & _ & ->). apply IH.
Qed.
End runs.

(** ** The world *)

Record World := mkWorld {
  w_journal : option ObservedFile;
  w_guard : option TransactionGuardIdentityV1;
  w_guard_refused : bool;
  w_service : unit_control;
  w_socket : unit_control;
}.

Definition with_journal (w : World) (f : option ObservedFile) : World :=
  mkWorld f (w_guard w) (w_guard_refused w) (w_service w) (w_socket w).
Definition with_guard (w : World) (g : option TransactionGuardIdentityV1) (refused : bool) : World :=
  mkWorld (w_journal w) g refused (w_service w) (w_socket w).
Definition with_unit (w : World) (u : UnitKind) (c : unit_control) : World :=
  match u with
  | UkService => mkWorld (w_journal w) (w_guard w) (w_guard_refused w) c (w_socket w)
  | UkSocket => mkWorld (w_journal w) (w_guard w) (w_guard_refused w) (w_service w) c
  end.

(** Both units have acknowledged a stop, or were at least told to. *)
Definition quiesced (w : World) : Prop := w_service w = StopDone ∧ w_socket w = StopDone.
Definition stop_tried (w : World) : Prop := w_service w ≠ MayRun ∧ w_socket w ≠ MayRun.

(** No transaction: neither a journal nor a guard. *)
Definition settled (w : World) : Prop := w_journal w = None ∧ w_guard w = None.

(** The promise of a runtime, at a clock of [t] milliseconds. Only one process holds the lock, so
    the journal and the guard change by the engine's calls alone; a call that fails, or that
    unwinds, may have had its effect or not. *)
Definition engine_answers (w : World) (t : Z) {B} (c : Call B) : option B → World → Z → Prop :=
  match c in Call B return option B → World → Z → Prop with
  | PersistJournal prior b => λ r w' t', t ≤ t' ∧
      match r with
      | Some (Ok f) => of_bytes f = b ∧ w' = with_journal w (Some f)
      | _ => w' = w ∨ ∃ f, of_bytes f = b ∧ w' = with_journal w (Some f)
      end
  | LoadJournal => λ r w' t', t ≤ t' ∧ w' = w ∧ ∀ f, r = Some (Ok f) → f = w_journal w
  | RemoveJournal _ _ => λ r w' t', t ≤ t' ∧
      match r with
      | Some (Ok _) => w' = with_journal w None
      | _ => w' = w ∨ w' = with_journal w None
      end
  | CreateGuard _ _ => λ r w' t', t ≤ t' ∧
      match r with
      | Some (Ok g) => w' = with_guard w (Some g) false
      | _ => ∃ g, w' = with_guard w g true
      end
  | RemoveGuard _ _ => λ r w' t', t ≤ t' ∧
      match r with
      | Some (Ok _) => w' = with_guard w None (w_guard_refused w)
      | _ => w' = w ∨ w' = with_guard w None (w_guard_refused w)
      end
  | ReadFile path _ => λ r w' t', t ≤ t' ∧ w' = w ∧
      (path = SECURITY_TRANSACTION_GUARD_PATH → r = Some (Ok None) → w_guard w = None)
  | StopUnit u => λ r w' t', t ≤ t' ∧
      w' = with_unit w u (match r with Some (Ok _) => StopDone | _ => StopTried end)
  | StartUnit u => λ _ w' t', t ≤ t' ∧ w' = with_unit w u MayRun
  | MonotonicMillis => λ r w' t', w' = w ∧ t ≤ t' ∧ ∀ now, r = Some now → now = t' ∧ now < 2 ^ 63
  | SettleStep => λ r w' t', w' = w ∧ t ≤ t' ∧ (r = Some (Ok ()) → t < t')
  | _ => λ _ w' t', w' = w ∧ t ≤ t'
  end.

(** ** What the engine owes *)

(** The file is this journal: read as it, or written as it. *)
Definition holds {J} `{EngineJournal J} (f : ObservedFile) (j : J) : Prop :=
  ej_parse (of_bytes f) = Ok j ∨ ej_bytes j = Ok (of_bytes f).

Section owed.
  Context `{Sha256} `{SerdeJson TransactionGuardV1} `{SerdeJson UnadoptedArtifactV1}.
  Context `{SerdeJson ProvisioningJournalV1} `{SerdeJson PlaintextProvisioningJournalV1}.
  Context `{SerdeJson SupervisorJournalV1}.

(** An accepted transition to the next generation, bound to the file it replaces. *)
Definition next_of (J : Type) `{EngineJournal J} (f : ObservedFile) (b : bytes) : Prop :=
  ∃ c n : J, holds f c ∧ ej_transition c n = Ok () ∧ ej_bytes n = Ok b
    ∧ ej_generation n = ej_generation c + 1 ∧ ej_prior n = Some (atomic_identity f).
(** A journal that takes over from the supervisor's. *)
Definition takes_over (J : Type) `{EngineJournal J} (f : ObservedFile) (b : bytes) : Prop :=
  ∃ (s : SupervisorJournalV1) (n : J), holds f s ∧ ej_bytes n = Ok b
    ∧ ej_transaction_id n = s_transaction_id s ∧ ej_guard n = s_guard s
    ∧ ej_generation n = s_generation s + 1 ∧ ej_prior n = Some (atomic_identity f).
Definition begins (b : bytes) : Prop :=
  ∃ s : SupervisorJournalV1, ej_bytes s = Ok b ∧ s_phase s = SpPrepared ∧ s_generation s = 1
    ∧ s_prior_journal_identity s = None.
Definition succeeds (prior : option ObservedFile) (b : bytes) : Prop :=
  match prior with
  | None => begins b
  | Some f =>
      next_of ProvisioningJournalV1 f b ∨ next_of PlaintextProvisioningJournalV1 f b
      ∨ next_of SupervisorJournalV1 f b
      ∨ takes_over ProvisioningJournalV1 f b ∨ takes_over PlaintextProvisioningJournalV1 f b
  end.

(** A fact of the durable journal, whichever of the three it is. *)
Definition says {J} `{EngineJournal J} (w : World) (P : J → Prop) : Prop :=
  ∃ f j, w_journal w = Some f ∧ holds f j ∧ P j.
Definition recorded (w : World) (r : AtomicWriteRecordV1) : Prop :=
  says (J:=ProvisioningJournalV1) w (λ j, r ∈ ej_writes j)
  ∨ says (J:=PlaintextProvisioningJournalV1) w (λ j, r ∈ ej_writes j)
  ∨ says (J:=SupervisorJournalV1) w (λ j, r ∈ ej_writes j).
Definition transaction_is (w : World) (id : bytes) : Prop :=
  says (J:=ProvisioningJournalV1) w (λ j, ej_transaction_id j = id)
  ∨ says (J:=PlaintextProvisioningJournalV1) w (λ j, ej_transaction_id j = id)
  ∨ says (J:=SupervisorJournalV1) w (λ j, ej_transaction_id j = id).
Definition directories_are (w : World) (directories : list SecurityDirectoryRecordV1) : Prop :=
  says w (λ j, j_security_directories j = directories)
  ∨ says w (λ j, p_security_directories j = directories)
  ∨ says w (λ j, s_security_directories j = directories).
Definition quarantine_is (w : World) (d : ArtifactDescriptorIdentityV1) (q : CleanupQuarantineV1)
    : Prop :=
  says w (λ j, ca_descriptor <$> s_cleanup_artifact j = Some d ∧ s_cleanup_quarantine j = Some q).

(** The machine is closed: under the guard, both units stopped. *)
Definition closed (w : World) : Prop := is_Some (w_guard w) ∧ quiesced w.

(** A write is recorded before it is staged, staged before it is committed, and committed before
    its backup goes, each time in the durable journal; the configuration, the drop-in and the
    credential change on a closed machine only (the receipt is written after activation too). What
    is removed is recorded as the transaction's own. A key is made on a closed machine. The guard
    is taken down, and units start, under a durable journal only; units start, and the journal
    goes, without a guard only. *)
Definition engine_allowed (w : World) {B} (c : Call B) : Prop :=
  match c with
  | PersistJournal prior b => w_journal w = prior ∧ succeeds prior b
  | CreateAtomicStage plan _ =>
      recorded w (mkWriteRecord plan Planned)
      ∧ (closed w ∨ pl_target_path plan = SECURITY_RECEIPT_PATH)
  | CommitAtomicStage plan staged =>
      recorded w (mkWriteRecord plan (Staged staged))
      ∧ (closed w ∨ pl_target_path plan = SECURITY_RECEIPT_PATH)
  | ReconcileAtomicWrite plan staged =>
      closed w ∧ recorded w (mkWriteRecord plan (from_option Staged Planned staged))
  | RemoveAtomicBackup plan observation => recorded w (mkWriteRecord plan (Committed observation))
  | RemoveFileExact path expected =>
      closed w
      ∧ ((∃ plan observation, pl_target_path plan = path ∧ wo_target observation = expected
            ∧ (recorded w (mkWriteRecord plan (Committed observation))
               ∨ recorded w (mkWriteRecord plan (BackupCleaned observation))))
         ∨ says w (λ j, s_cleanup_manifest j = Some (mkManifestIdentity path expected)))
  | EnsureSecurityDirectory intent =>
      closed w ∧ says w (λ j, last (s_security_directories j) = Some intent)
  | RollbackSecurityDirectories directories | RollbackRecordedPrefix directories =>
      closed w ∧ directories_are w directories
  | GenerateKey | EncryptCredential _ _ => closed w ∧ is_Some (w_journal w)
  | QuarantineArtifact d path => closed w ∧ quarantine_is w d (mkQuarantine path QPlanned)
  | UnlinkQuarantined d path | RestoreQuarantined d path =>
      closed w ∧ quarantine_is w d (mkQuarantine path QRenamed)
  | RemoveGuard id expected => w_guard w = Some expected ∧ transaction_is w id
  | RemoveJournal id expected =>
      w_guard w = None ∧ w_journal w = Some expected ∧ transaction_is w id
  | StartUnit _ => w_guard w = None ∧ is_Some (w_journal w)
  | _ => True
  end.

#[export] Instance engine_machine : Machine World :=
  {| answers := @engine_answers; allowed := @engine_allowed; control := with_unit |}.
#[export] Instance engine_laws : MachineLaws World.
Proof. split; try done; try (simpl; tauto). intros w t B []; simpl; tauto. Qed.
End owed.

(** Neutral calls are so by computation. *)
Ltac neutral_call :=
  apply quiet_ask; intros ?w; cbv [allowed answers engine_machine engine_allowed engine_answers];
  split; [exact I|]; intros ? ? ? ?; tauto.
#[export] Hint Extern 2 (Quiet _ (ask _)) => neutral_call : typeclass_instances.
#[export] Hint Extern 2 (Quiet _ (boundary _)) => unfold boundary; neutral_call : typeclass_instances.
#[export] Hint Extern 4 (Quiet _ (match ?x with _ => _ end)) => destruct x : typeclass_instances.
Ltac head_of t := lazymatch t with ?f _ => head_of f | _ => t end.
#[export] Hint Extern 8 (Quiet _ ?m) =>
  let h := head_of m in
  lazymatch h with
  | @ebind => fail | @ask => fail | @etry => fail
  | _ => progress unfold h; cbv beta zeta
  end : typeclass_instances.
#[export] Hint Extern 4 (Quiet _ (let _ := _ in _)) => progress cbv zeta : typeclass_instances.

(** The next step of a program under a postcondition: what ends it, a quiet step, or a step with a
    lemma among the hints; errors are left to the hints. *)
Create HintDb safe discriminated.
#[export] Hint Extern 1 (_ = _) => reflexivity : safe.

(** What a machine wants owed, as its own definition. *)
Ltac reveal := cbv [allowed engine_machine].
Ltac by_quiet := apply ewp_bind, quiet; intros [[?|?]|]; simpl.
Ltac safe_leaf :=
  lazymatch goal with
  | |- ewp (eret _) _ _ _ => apply ewp_ret; simpl
  | |- ewp (efail _) _ _ _ => apply ewp_fail; simpl
  | |- ewp epanic _ _ _ => apply ewp_panic; simpl
  | |- ewp (egets _) _ _ _ => apply ewp_gets; simpl
  | |- ewp (set_armed _) _ _ _ => apply ewp_set_armed; simpl
  | |- ewp (set_guard _) _ _ _ => apply ewp_set_guard; simpl
  | |- ewp (set_journal _) _ _ _ => apply ewp_set_journal; simpl
  | |- ewp (elift _) (post _ _) _ _ => apply ewp_lift; [intros ? ?|]
  | |- ewp (match ?x with _ => _ end) _ _ _ => destruct x eqn:?
  | |- ewp _ (post _ _) _ _ =>
      first
        [ eapply ewp_mono; [solve [eauto with safe]|intros [[?|?]|] ? ? ?; simpl in *; [|done|done]]
        | apply quiet; intros [[?|?]|]; simpl
        | apply ewp_inert; [simpl; intros ? ? ? ?; tauto|reveal|intros ?|] ]
  end.
Ltac safe_step :=
  lazymatch goal with
  | H : _ ∧ _ |- _ => destruct H
  | H : ∃ _, _ |- _ => destruct H
  | H : ?x = ?y :> Engine |- _ => subst x
  | H : ?x = ?y :> World |- _ => subst x
  | H : ?x = atomic_identity _ |- _ => subst x
  | |- ewp (ebind _ _) (post _ _) _ _ => apply ewp_bind; safe_step
  | |- ewp _ _ _ _ => safe_leaf
  end.
Ltac safely := repeat (safe_step; try solve [eauto with safe]).

Section safety.
  Context `{Sha256} `{SerdeJson TransactionGuardV1} `{SerdeJson UnadoptedArtifactV1}.
  Context `{SerdeJson ProvisioningJournalV1} `{SerdeJson PlaintextProvisioningJournalV1}.
  Context `{SerdeJson SupervisorJournalV1} `{SerdeJson VerifierResultV1} `{SerdeJson ProvisioningReceiptV1}.
  Context `{ConfigEnv} `{PatchToml} `{TomlPretty}.

(** The journal and the guard are what they were. *)
Definition same_but_units (w w' : World) : Prop :=
  w_journal w' = w_journal w ∧ w_guard w' = w_guard w ∧ w_guard_refused w' = w_guard_refused w.

Section waiting_world.
  Context (turns : nat) (Hturns : 10000 < Z.of_nat turns).
Lemma stop_units_safe e w Φ :
  (∀ w', same_but_units w w' → quiesced w' → Φ (Some (Ok ())) e w')
  → (∀ err w', same_but_units w w' → stop_tried w' → Φ (Some (Err err)) e w')
  → (∀ w', Φ None e w')
  → ewp (stop_units_under_one_deadline turns) Φ e w.
Proof.
  intros Hok Herr Hnone. apply (stop_units_wp turns Hturns); [by apply Hok| |done].
  intros err a b Ha Hb. by apply Herr.
Qed.
End waiting_world.

(** ** Recording a generation *)

(** What the steps use of a journal. *)
Class JournalLaws (J : Type) `{EngineJournal J} : Prop := {
  jl_id_bind g i (j : J) : ej_transaction_id (ej_bind g i j) = ej_transaction_id j;
  jl_generation_bind g i (j : J) : ej_generation (ej_bind g i j) = g;
  jl_prior_bind g i (j : J) : ej_prior (ej_bind g i j) = i;
  jl_writes_bind g i (j : J) : ej_writes (ej_bind g i j) = ej_writes j;
  jl_id_writes p r (j : J) : ej_transaction_id (ej_with_writes p r j) = ej_transaction_id j;
  jl_generation_writes p r (j : J) : ej_generation (ej_with_writes p r j) = ej_generation j;
  jl_writes_writes p r (j : J) : ej_writes (ej_with_writes p r j) = r;
  jl_id_guard g (j : J) : ej_transaction_id (ej_with_guard g j) = ej_transaction_id j;
  jl_generation_guard g (j : J) : ej_generation (ej_with_guard g j) = ej_generation j;
  jl_generation_failed (j : J) : ej_generation (ej_with_failed j) = ej_generation j;
  jl_next f b : next_of J f b → succeeds (Some f) b;
  jl_recorded w (r : AtomicWriteRecordV1) : says (J:=J) w (λ j, r ∈ ej_writes j) → recorded w r;
  jl_transaction w id : says (J:=J) w (λ j, ej_transaction_id j = id) → transaction_is w id;
}.
#[export] Instance mode1_laws : JournalLaws ProvisioningJournalV1.
Proof. split; try done; unfold succeeds, recorded, transaction_is; tauto. Qed.
#[export] Instance plaintext_laws : JournalLaws PlaintextProvisioningJournalV1.
Proof. split; try done; unfold succeeds, recorded, transaction_is; tauto. Qed.
#[export] Instance supervisor_laws : JournalLaws SupervisorJournalV1.
Proof. split; try done; unfold succeeds, recorded, transaction_is; tauto. Qed.

(** The engine and the world agree that this is the journal. *)
Definition tracks {J} `{EngineJournal J} (e : Engine) (w : World) (j : J) : Prop :=
  ∃ f, w_journal w = Some f ∧ en_journal_observation e = Some f ∧ holds f j.
(** The engine after it has seen a file as the journal. *)
Definition observing (e : Engine) (f : ObservedFile) : Engine :=
  mkEngine (en_armed_transaction e) (en_active_guard e) (Some f).
(** A world in which a write of the journal may have happened. *)
Definition maybe_written (w w' : World) : Prop := w' = w ∨ ∃ f, w' = with_journal w (Some f).

Lemma persist_wp {J} `{EngineJournal J} (n : J) e w Φ :
  w_journal w = en_journal_observation e
  → (∀ b, ej_bytes n = Ok b → succeeds (w_journal w) b)
  → (∀ f, holds f n → Φ (Some (Ok ())) (observing e f) (with_journal w (Some f)))
  → (∀ err w', maybe_written w w' → Φ (Some (Err err)) e w')
  → (∀ w', maybe_written w w' → Φ None e w')
  → ewp (persist_journal n) Φ e w.
Proof.
  intros Hj Hs Hok Herr Hnone. apply ewp_bind_any, ewp_lift_any.
  destruct (ej_bytes n) as [b|err] eqn:Hb; [|by apply Herr; left].
  apply ewp_bind_any, ewp_gets, ewp_bind_any, ewp_ask; [by simpl; rewrite <-Hj; auto|].
  intros t r w' t' [_ Hr]. destruct r as [[f|err]|].
  - destruct Hr as [Hf ->]. apply ewp_set_journal, Hok. right. by rewrite Hf.
  - apply Herr. unfold maybe_written. naive_solver.
  - apply Hnone. unfold maybe_written. naive_solver.
Qed.

Section recording.
  Context {J : Type} `{JournalLaws J}.

Lemma record_transition_wp (c n : J) e w Φ :
  tracks e w c → ej_generation n = ej_generation c
  → (∀ f g i, holds f (ej_bind g i n)
       → Φ (Some (Ok (ej_bind g i n))) (observing e f) (with_journal w (Some f)))
  → (∀ err w', maybe_written w w' → Φ (Some (Err err)) e w')
  → (∀ w', maybe_written w w' → Φ None e w')
  → ewp (record_transition c n) Φ e w.
Proof.
  intros (f & Hw & He & Hf) Hg Hok Herr Hnone.
  assert (maybe_written w w) as Hsame by by left.
  apply ewp_bind_any, ewp_bind_any, ewp_bind_any, ewp_gets. rewrite He. apply ewp_lift_any. simpl.
  apply ewp_bind_any, ewp_lift_any. unfold bump_generation, checked_add.
  destruct (_ <=? _); simpl; [|by apply Herr]. apply ewp_ret, ewp_bind_any, ewp_lift_any.
  set (n' := ej_bind _ _ n). destruct (ej_transition c n') as [[]|err] eqn:Ht; [|by apply Herr].
  apply ewp_bind_any, persist_wp; auto using ewp_ret; [congruence| |].
  - intros b Hb. rewrite Hw. apply jl_next. exists c, n'. split_and!; auto; subst n'.
    + by rewrite jl_generation_bind, Hg.
    + by rewrite jl_prior_bind.
  - intros f' Hf'. by apply ewp_ret, Hok.
Qed.
End recording.

(** ** Where a transaction stands *)

(** Under the guard with the units stopped, under the guard, with the guard taken down, or not known. *)
Inductive stance := Closed | Guarded | Open | Anyhow.
Definition stands (k : stance) (e : Engine) (w : World) : Prop :=
  match k with
  | Anyhow => True
  | Closed => (∃ g, en_active_guard e = Some g ∧ w_guard w = Some g) ∧ quiesced w
  | Guarded => ∃ g, en_active_guard e = Some g ∧ w_guard w = Some g
  | Open => w_guard w = None
  end.
(** The invariant of a transaction: the engine is armed with the identity of the journal it tracks. *)
Definition inv {J} `{EngineJournal J} (k : stance) (e : Engine) (w : World) (j : J) : Prop :=
  tracks e w j ∧ en_armed_transaction e = Some (ej_transaction_id j) ∧ stands k e w.

(** What is left of an error: an engine that is not armed leaves no transaction behind. *)
Definition rest (e : Engine) (w : World) : Prop := en_armed_transaction e = None → settled w.

Lemma rest_armed e w x : en_armed_transaction e = Some x → rest e w.
Proof. unfold rest. congruence. Qed.
Lemma inv_rest {J} `{EngineJournal J} k e w w' (j : J) : inv k e w j → rest e w'.
Proof. intros (_ & He & _). by eapply rest_armed. Qed.
Lemma closed_stance e w : stands Closed e w → closed w.
Proof. intros [(g & _ & Hg) Hq]. split; [by exists g|done]. Qed.
Lemma closed_guarded {J} `{EngineJournal J} e w (j : J) : inv Closed e w j → inv Guarded e w j.
Proof. intros (Ht & He & Hg & _). split_and!; done. Qed.

Lemma contract_ok {A} (r : pcresult A) a : contract r = Ok a → r = Ok a.
Proof. unfold contract. destruct r; simpl; congruence. Qed.
Lemma plan_new_target id path parent target uid gid permissions timestamps b kind plan :
  plan_new id path parent target uid gid permissions timestamps b kind = Ok plan
  → pl_target_path plan = path.
Proof. unfold plan_new. intros Hp. inv_ok. by subst. Qed.

Lemma inv_closed {J} `{EngineJournal J} e w (j : J) : inv Closed e w j → closed w.
Proof. intros (_ & _ & Hk). by eapply closed_stance. Qed.

Section steps.
  Context {J : Type} `{JournalLaws J}.

Lemma inv_stands k e w (j : J) : inv k e w j → stands k e w.
Proof. by intros (_ & _ & ?). Qed.
Lemma inv_says k e w (j : J) (P : J → Prop) : inv k e w j → P j → says w P.
Proof. intros [(f & Hw & _ & Hf) _] HP. by exists f, j. Qed.
Lemma inv_recorded k e w (j : J) r : inv k e w j → r ∈ ej_writes j → recorded w r.
Proof. intros Hi Hr. by eapply jl_recorded, inv_says. Qed.
Lemma inv_transaction k e w (j : J) : inv k e w j → transaction_is w (ej_transaction_id j).
Proof. intros Hi. by eapply jl_transaction, (inv_says _ _ _ _ _ Hi). Qed.
Lemma inv_journal k e w (j : J) : inv k e w j → is_Some (w_journal w).
Proof. intros [(f & Hw & _) _]. by exists f. Qed.

Lemma record_transition_safe k (c n : J) e w :
  inv k e w c → ej_transaction_id n = ej_transaction_id c → ej_generation n = ej_generation c
  → ewp (record_transition c n)
      (post (λ n' e' w', inv k e' w' n' ∧ ∃ g i, n' = ej_bind g i n) rest) e w.
Proof.
  intros (Ht & He & Hk) Hid Hg. apply record_transition_wp; [done|done| | |].
  - intros f g i Hf. split; [|by eauto]. split_and!.
    + by exists f.
    + simpl. by rewrite jl_id_bind, Hid.
    + by destruct k.
  - intros err w' _. by eapply rest_armed.
  - intros w' _. by eapply rest_armed.
Qed.
Lemma record_step_safe k (c n : J) point e w :
  inv k e w c → ej_transaction_id n = ej_transaction_id c → ej_generation n = ej_generation c
  → ewp (record_step c n point)
      (post (λ n' e' w', inv k e' w' n' ∧ ∃ g i, n' = ej_bind g i n) rest) e w.
Proof.
  intros Hi Hid Hg. apply ewp_bind. eapply ewp_mono; [by eapply record_transition_safe|].
  intros [[n'|err]|] e' w'; simpl; try done. intros [Hi' Hn'].
  by_quiet; try by eapply inv_rest. by apply ewp_ret.
Qed.

#[local] Hint Resolve record_transition_safe record_step_safe inv_rest : safe.

Lemma prepare_atomic_plan_safe id path b uid gid permissions timestamps absent k e w (j : J) :
  inv k e w j
  → ewp (prepare_atomic_plan id path b uid gid permissions timestamps absent)
      (post (λ plan e' w', e' = e ∧ w' = w ∧ pl_target_path plan = path) rest) e w.
Proof.
  intros Hi. unfold prepare_atomic_plan. safely.
  split_and!; [done|done|]. by eapply plan_new_target, contract_ok.
Qed.
#[local] Hint Resolve prepare_atomic_plan_safe : safe.

(** The writes of a journal after a step on one of them. *)
Lemma add_plan_last plan (j : J) : mkWriteRecord plan Planned ∈ ej_writes (add_plan plan j).
Proof. unfold add_plan. rewrite jl_writes_writes. set_solver. Qed.
Lemma last_plan plan (j : J) :
  ej_writes (add_plan plan j) !! (length (ej_writes (add_plan plan j)) - 1)%nat
  = Some (record_planned plan).
Proof.
  unfold add_plan. rewrite jl_writes_writes, length_app. simpl.
  rewrite lookup_app_r by lia. by replace (_ - _ - _)%nat with 0%nat by lia.
Qed.
Lemma id_add_plan plan (j : J) : ej_transaction_id (add_plan plan j) = ej_transaction_id j.
Proof. apply jl_id_writes. Qed.
Lemma generation_add_plan plan (j : J) : ej_generation (add_plan plan j) = ej_generation j.
Proof. apply jl_generation_writes. Qed.
Lemma id_set_write i state (j : J) : ej_transaction_id (set_write_state i state j) = ej_transaction_id j.
Proof. apply jl_id_writes. Qed.
Lemma generation_set_write i state (j : J) : ej_generation (set_write_state i state j) = ej_generation j.
Proof. apply jl_generation_writes. Qed.
Lemma set_write_in i state (j : J) r :
  ej_writes j !! i = Some r → mkWriteRecord (wr_plan r) state ∈ ej_writes (set_write_state i state j).
Proof.
  intros Hr. unfold set_write_state. rewrite jl_writes_writes. apply list_elem_of_lookup. exists i.
  by rewrite list_lookup_alter_eq, Hr.
Qed.
#[local] Hint Resolve id_add_plan generation_add_plan id_set_write generation_set_write : safe.

(** The configuration, the drop-in and the credential on a closed machine only. *)
Definition may_write (k : stance) (path : bytes) : Prop := k = Closed ∨ path = SECURITY_RECEIPT_PATH.
Lemma may_write_world k path e w : stands k e w → may_write k path → closed w ∨ path = SECURITY_RECEIPT_PATH.
Proof. intros Hk [->|Hp]; [left; by eapply closed_stance|by right]. Qed.

Lemma execute_atomic_safe k (j : J) path b uid gid permissions timestamps absent e w :
  inv k e w j → may_write k path
  → ewp (execute_atomic j path b uid gid permissions timestamps absent)
      (post (λ r e' w', inv k e' w' r.1) rest) e w.
Proof.
  intros Hi Hp. unfold execute_atomic. safely.
  - split; [|eapply may_write_world; [by eapply inv_stands|by subst]].
    eapply inv_recorded; [done|]. subst. rewrite jl_writes_bind. apply add_plan_last.
  - split; [|eapply may_write_world; [by eapply inv_stands|by subst]].
    eapply inv_recorded; [done|]. subst. rewrite jl_writes_bind.
    apply (set_write_in _ _ _ (record_planned a)). by rewrite jl_writes_bind, last_plan.
Qed.
#[local] Hint Resolve execute_atomic_safe : safe.

Lemma committed_record_in records i plan observation :
  committed_atomic_record records i = Ok (plan, observation)
  → mkWriteRecord plan (Committed observation) ∈ records.
Proof.
  unfold committed_atomic_record, required. destruct (records !! i) as [[p s]|] eqn:Hr; simpl; [|done].
  destruct s; try done. intros [= <- <-]. by eapply list_elem_of_lookup_2.
Qed.
Lemma cleanup_atomic_safe k (j : J) i e w :
  inv k e w j → ewp (cleanup_atomic j i) (post (λ j' e' w', inv k e' w' j') rest) e w.
Proof.
  intros Hi. unfold cleanup_atomic. safely.
  simpl. subst. by eapply inv_recorded, committed_record_in.
Qed.

(** On a closed machine: what was begun is settled, then the backups go. *)
Lemma reconcile_write_safe (j : J) i e w :
  inv Closed e w j → ewp (reconcile_write j i) (post (λ j' e' w', inv Closed e' w' j') rest) e w.
Proof.
  intros Hi. unfold reconcile_write.
  destruct (ej_writes j !! i) as [[plan s]|] eqn:Hr; [|safely].
  assert (mkWriteRecord plan s ∈ ej_writes j) by by eapply list_elem_of_lookup_2.
  assert (closed w) by by eapply closed_stance, inv_stands.
  destruct s; simpl; safely; (split; [done|]; by eapply inv_recorded).
Qed.
Lemma each_write_safe k (step : J → nat → eng J) indices (j : J) e w :
  (∀ j i e w, inv k e w j → ewp (step j i) (post (λ j' e' w', inv k e' w' j') rest) e w)
  → inv k e w j
  → ewp (each_write step indices j) (post (λ j' e' w', inv k e' w' j') rest) e w.
Proof.
  intros Hstep. revert j e w. induction indices as [|i indices IH]; intros j e w Hi; simpl; safely.
Qed.
Lemma reconcile_atomic_records_safe (j : J) e w :
  inv Closed e w j
  → ewp (reconcile_atomic_records j) (post (λ j' e' w', inv Closed e' w' j') rest) e w.
Proof.
  intros Hi. unfold reconcile_atomic_records.
  pose proof (each_write_safe Closed) as Heach.
  pose proof cleanup_atomic_safe. pose proof reconcile_write_safe. safely.
Qed.

Lemma owned_in path identity records :
  existsb (owned_target path identity) (reverse records) = true
  → ∃ plan o, pl_target_path plan = path ∧ wo_target o = identity
      ∧ (mkWriteRecord plan (Committed o) ∈ records ∨ mkWriteRecord plan (BackupCleaned o) ∈ records).
Proof.
  intros ([plan s] & Hin & Hr)%existsb_exists.
  apply list_elem_of_In in Hin. rewrite elem_of_reverse in Hin. unfold owned_target in Hr. simpl in Hr.
  apply andb_true_iff in Hr as [Hp%bool_decide_eq_true Hs].
  destruct s as [| | |o|o]; try done; apply bool_decide_eq_true in Hs; exists plan, o; split_and!; auto.
Qed.
Lemma remove_owned_safe (j : J) path e w :
  inv Closed e w j
  → ewp (remove_transaction_owned_target path (ej_writes j))
      (post (λ _ e' w', inv Closed e' w' j) rest) e w.
Proof.
  intros Hi. unfold remove_transaction_owned_target. safely.
  simpl. split; [by eapply closed_stance, inv_stands|]. left.
  match goal with H : negb _ = false |- _ => apply negb_false_iff, owned_in in H as (plan & obs & ? & ? & Hr) end.
  exists plan, obs. split_and!; [done|done|]. destruct Hr; [left|right]; by eapply inv_recorded.
Qed.
#[local] Hint Resolve cleanup_atomic_safe remove_owned_safe : safe.
Lemma restore_snapshot_safe (j : J) path snapshot maximum e w :
  inv Closed e w j
  → ewp (restore_snapshot j path snapshot maximum) (post (λ j' e' w', inv Closed e' w' j') rest) e w.
Proof.
  intros Hi. unfold restore_snapshot. assert (may_write Closed path) by by left. safely.
Qed.

(** ** The guard, the units, the end of a transaction *)

Lemma ensure_guard_safe k (j : J) id expected e w :
  inv k e w j
  → ewp (ensure_guard id expected) (post (λ _ e' w', inv Guarded e' w' j) rest) e w.
Proof.
  intros (Ht & He & _). unfold ensure_guard. apply ewp_bind, ewp_ask; [done|].
  intros t r w' t' [_ Hr]. destruct r as [[g|err]|]; simpl; try by eapply rest_armed.
  subst w'. apply ewp_bind, ewp_set_guard, ewp_ret. split_and!; [done|done|by exists g].
Qed.
Lemma stop_units_step turns (Hturns : 10000 < Z.of_nat turns) (j : J) e w :
  inv Guarded e w j
  → ewp (stop_units_under_one_deadline turns) (post (λ _ e' w', inv Closed e' w' j) rest) e w.
Proof.
  intros ((f & Hw & Hf) & He & (g & Hg & Hwg)). apply (stop_units_safe turns Hturns); simpl; intros;
    try by eapply rest_armed.
  match goal with H : same_but_units _ _ |- _ => destruct H as (Hj & Hg' & _) end.
  split_and!; [exists f; by rewrite Hj|done|]. split; [exists g; by rewrite Hg'|done].
Qed.
Lemma remove_active_guard_safe (j : J) e w :
  inv Guarded e w j → ewp remove_active_guard (post (λ _ e' w', inv Open e' w' j) rest) e w.
Proof.
  intros Hi. pose proof Hi as (Ht & He & (g & Hg & Hwg)). unfold remove_active_guard.
  apply ewp_bind, ewp_gets. rewrite He. apply ewp_bind, ewp_lift; [|by eapply rest_armed].
  intros id [= <-]. apply ewp_bind, ewp_gets. rewrite Hg. apply ewp_bind, ewp_lift; [|by eapply rest_armed].
  intros g' [= <-]. apply ewp_ask; [split; [done|by eapply inv_transaction]|].
  intros t r w' t' [_ Hr]. destruct r as [[[]|err]|]; simpl; try by eapply rest_armed.
  subst w'. split_and!; done.
Qed.

Lemma start_unit_safe u (j : J) e w :
  inv Open e w j → ewp (ask (StartUnit u)) (post (λ _ e' w', inv Open e' w' j) rest) e w.
Proof.
  intros Hi. pose proof Hi as ((f & Hw & Hf) & He & Hg).
  apply ewp_ask; [split; [done|by eapply inv_journal]|]. intros t r w' t' [_ ->].
  assert (inv Open e (with_unit w u MayRun) j).
  { split_and!; [exists f; by destruct u|done|by destruct u]. }
  destruct r as [[[]|err]|]; simpl; [done|by eapply rest_armed..].
Qed.
#[local] Hint Resolve start_unit_safe : safe.
Lemma restore_unit_target_safe state (j : J) e w :
  inv Open e w j → ewp (restore_unit_target state) (post (λ _ e' w', inv Open e' w' j) rest) e w.
Proof. intros Hi. unfold restore_unit_target. safely. Qed.
Lemma start_controlled_safe turns (Hturns : 10000 < Z.of_nat turns) (j : J) e w :
  inv Open e w j → ewp (start_controlled turns) (post (λ _ e' w', inv Open e' w' j) rest) e w.
Proof.
  intros Hi. unfold start_controlled. pose proof (quiet_stable_unit turns Hturns). safely.
Qed.

(** Nothing is left of a transaction. *)
Definition idle (e : Engine) (w : World) : Prop := e = SecurityEngine_new ∧ settled w.

Lemma finish_transaction_safe (j : J) e w :
  inv Open e w j → ewp finish_transaction (post (λ _ e' w', idle e' w') rest) e w.
Proof.
  intros Hi. pose proof Hi as ((f & Hw & Hf & _) & He & Hg).
  unfold finish_transaction, remove_current_journal.
  apply ewp_bind, ewp_bind, ewp_gets. rewrite He. apply ewp_bind, ewp_lift; [|by eapply rest_armed].
  intros id [= <-]. apply ewp_bind, ewp_gets. rewrite Hf. apply ewp_bind, ewp_lift; [|by eapply rest_armed].
  intros f' [= <-]. apply ewp_bind, ewp_ask; [split_and!; [done|done|by eapply inv_transaction]|].
  intros t r w' t' [_ Hr]. destruct r as [[[]|err]|]; simpl; try by eapply rest_armed.
  subst w'. apply ewp_set_journal. unfold disarm. apply ewp_bind, ewp_set_armed, ewp_set_guard. done.
Qed.
End steps.

Lemma idle_rest e w : idle e w → rest e w.
Proof. by intros [_ Hs] _. Qed.
End safety.
