(* ===== verification/SecurityFlows.v ===== *)
(** * The security transaction engine: transactions are safe

    Failing closed, opening a supervised transaction, provisioning, enabling, cleaning up and
    recovering, and on top of them the four commands: whatever the runtime answers, they make only
    calls they may make, they end, and they end without a transaction or failed closed. *)

From stdpp Require Import sorting.
From S2P Require Import Prelude Bytes Storage Crypto Namespace Legacy Contracts Cache Config Paths PromptState Protocol Status Provision ProvisionAtomic Credential CredentialLayout Cleanup Journal JournalSystem Fingerprint ConfigPatch Receipt Security SecurityProvision SecurityRecover SecuritySafety.

Local Open Scope engine_scope.

#[export] Hint Resolve record_transition_safe record_step_safe execute_atomic_safe
  cleanup_atomic_safe remove_owned_safe restore_snapshot_safe reconcile_atomic_records_safe
  idle_rest : safe.

#[export] Hint Extern 1 (JournalLaws _) => exact _ : safe.
#[export] Hint Extern 1 (Quiet _ (stable_unit_pair _)) =>
  apply quiet_stable_unit_pair; assumption : typeclass_instances.
#[export] Hint Extern 1 (Quiet _ (stable_unit _ _)) =>
  apply quiet_stable_unit; assumption : typeclass_instances.

(** Steps that do not mention the journal get it from the invariant they start in. *)
Ltac from_inv lem :=
  match goal with
  | H : inv _ ?e ?w _ |- ewp _ _ ?e ?w =>
      first [lem H | let H' := constr:(closed_guarded _ _ _ H) in lem H']
  end.
#[export] Hint Extern 1 (rest ?e _) =>
  match goal with H : inv _ e _ _ |- _ => exact (inv_rest _ _ _ _ _ H) end : safe.
#[export] Hint Extern 1 (ewp (ensure_guard _ _) _ _ _) =>
  from_inv ltac:(fun H => exact (ensure_guard_safe _ _ _ _ _ _ H)) : safe.
#[export] Hint Extern 1 (ewp (stop_units_under_one_deadline _) _ _ _) =>
  from_inv ltac:(fun H => match goal with Ht : 10000 < _ |- _ => exact (stop_units_step _ Ht _ _ _ H) end) : safe.
#[export] Hint Extern 1 (ewp remove_active_guard _ _ _) =>
  from_inv ltac:(fun H => exact (remove_active_guard_safe _ _ _ H)) : safe.
#[export] Hint Extern 1 (ewp (restore_unit_target _) _ _ _) =>
  from_inv ltac:(fun H => exact (restore_unit_target_safe _ _ _ _ H)) : safe.
#[export] Hint Extern 1 (ewp (start_controlled _) _ _ _) =>
  from_inv ltac:(fun H => match goal with Ht : 10000 < _ |- _ => exact (start_controlled_safe _ Ht _ _ _ H) end) : safe.
#[export] Hint Extern 1 (ewp finish_transaction _ _ _) =>
  from_inv ltac:(fun H => exact (finish_transaction_safe _ _ _ H)) : safe.

Section flows.
  Context `{Sha256} `{SerdeJson TransactionGuardV1} `{SerdeJson UnadoptedArtifactV1}.
  Context `{SerdeJson ProvisioningJournalV1} `{SerdeJson PlaintextProvisioningJournalV1}.
  Context `{SerdeJson SupervisorJournalV1} `{SerdeJson VerifierResultV1} `{SerdeJson ProvisioningReceiptV1}.
  Context `{ConfigEnv} `{PatchToml} `{TomlPretty}.
  Context (turns : nat) (Hturns : 10000 < Z.of_nat turns).

(** ** Failing closed *)

(** All a rewrite of the journal changes. *)
Definition rewritten (e : Engine) (w : World) (e' : Engine) (w' : World) : Prop :=
  en_armed_transaction e' = en_armed_transaction e ∧ en_active_guard e' = en_active_guard e
  ∧ maybe_written w w'.

Lemma rewrite_if_wp {J} `{EngineJournal J} `{!JournalLaws J} f unchanged change otherwise e w Φ :
  w_journal w = Some f → en_journal_observation e = Some f
  → (∀ j, ej_generation (change j) = ej_generation (J:=J) j)
  → (∀ r e' w', rewritten e w e' w' → Φ r e' w') → ewp otherwise Φ e w
  → ewp (rewrite_if (J:=J) (of_bytes f) unchanged change otherwise) Φ e w.
Proof.
  intros Hw He Hg HΦ Ho. unfold rewrite_if.
  destruct (ej_parse (of_bytes f)) as [j|err] eqn:Hp; [|done].
  destruct (unchanged j); [apply ewp_ret, HΦ; by split_and!; [| |left]|].
  apply ewp_bind_any, record_transition_wp; [|done|..].
  - exists f. by split_and!; [| |left].
  - intros f' g i _. apply ewp_ret, HΦ. split_and!; [done|done|]. right. by exists f'.
  - intros err w' Hw'. by apply HΦ.
  - intros w' Hw'. by apply HΦ.
Qed.

(** The journal is loaded again before it is rewritten. *)
Lemma reloaded_wp {A} (c : option ObservedFile → secresult ObservedFile) (k : ObservedFile → eng A) e w Φ :
  (∀ o f, c o = Ok f → o = Some f)
  → (∀ r e' w', rewritten e w e' w' → Φ r e' w')
  → (∀ f, w_journal w = Some f → ewp (k f) Φ (observing e f) w)
  → ewp (loaded <~ ask LoadJournal; file <~ elift (c loaded); _ <~ set_journal (Some file); k file)
      Φ e w.
Proof.
  intros Hc HΦ Hk. assert (rewritten e w e w) as Hsame by by split_and!; [| |left].
  apply ewp_bind_any, ewp_ask; [done|]. intros t r w' t' (_ & -> & Hr).
  destruct r as [[o|err]|]; [|by apply HΦ..]. apply ewp_bind_any, ewp_lift_any.
  destruct (c o) as [f|err] eqn:Hf; [|by apply HΦ]. apply ewp_bind_any, ewp_set_journal, Hk.
  rewrite <-(Hr _ eq_refl). by apply Hc.
Qed.
Lemma rewritten_observing e w f e' w' : rewritten (observing e f) w e' w' → rewritten e w e' w'.
Proof. done. Qed.

Lemma guard_transition_wp guard e w Φ :
  (∀ r e' w', rewritten e w e' w' → Φ r e' w') → ewp (persist_guard_identity_transition guard) Φ e w.
Proof.
  intros HΦ. apply (reloaded_wp (λ o, required_certain o _)); [by intros [?|] ? [= ->]|done|].
  intros f Hf. do 3 (apply rewrite_if_wp; [done|done|intros; apply jl_generation_guard|exact HΦ|]).
  apply ewp_fail, HΦ. split_and!; [done|done|by left].
Qed.
Lemma generation_mark_failed {J} `{EngineJournal J} `{!JournalLaws J} active (j : J) :
  ej_generation (mark_failed active j) = ej_generation j.
Proof.
  unfold mark_failed. destruct active; simpl; rewrite ?jl_generation_guard; apply jl_generation_failed.
Qed.
Lemma failure_marker_wp e w Φ :
  (∀ r e' w', rewritten e w e' w' → Φ r e' w') → ewp persist_supervisor_failure_marker Φ e w.
Proof.
  intros HΦ. apply (reloaded_wp (λ o, required o _)); [by intros [?|] ? [= ->]|done|].
  intros f Hf. apply ewp_bind_any, ewp_gets.
  do 3 (apply rewrite_if_wp; [done|done|intros; apply generation_mark_failed|exact HΦ|]).
  apply ewp_fail, HΦ. split_and!; [done|done|by left].
Qed.

(** Failed closed, from a world [w]: both units were told to stop, the guard is up unless it was
    refused, and a journal was kept. *)
Definition failed_closed (w w' : World) : Prop :=
  stop_tried w' ∧ (is_Some (w_guard w') ∨ w_guard_refused w' = true)
  ∧ (is_Some (w_journal w) → is_Some (w_journal w')).

Lemma noting_ewp {A} what (m : eng A) failures e w Φ :
  ewp m (λ r e' w', match r with
                    | Some _ => ∀ fs, Φ (Some (Ok fs)) e' w'
                    | None => Φ None e' w'
                    end) e w
  → ewp (noting what m failures) Φ e w.
Proof.
  intros Hm. apply ewp_bind_any, ewp_try. eapply ewp_mono; [exact Hm|].
  intros [r|] e' w' HΦ; [|done]. by apply ewp_ret.
Qed.
Lemma fail_closed_identity_wp failures e w Φ :
  (∀ p, Φ (Some (Ok p)) e w) → Φ None e w → ewp (fail_closed_identity failures) Φ e w.
Proof.
  intros HΦ Hn. apply ewp_bind_any, ewp_gets. cbv beta zeta. case_match; [by apply ewp_ret|].
  apply ewp_bind_any, ewp_try, quiet. intros [[id|err]|]; [case_match|..]; try done; by apply ewp_ret.
Qed.
Lemma fail_closed_guard_wp id failures e w Φ :
  (∀ p e' w', en_armed_transaction e' = en_armed_transaction e
     → (is_Some (w_guard w') ∨ w_guard_refused w' = true)
     → (is_Some (w_journal w) → is_Some (w_journal w')) → Φ (Some (Ok p)) e' w')
  → (∀ e' w', Φ None e' w')
  → ewp (fail_closed_guard id failures) Φ e w.
Proof.
  intros HΦ Hn. apply ewp_bind_any, ewp_gets, ewp_bind_any, ewp_try, ewp_ask; [done|].
  intros t r w' t' [_ Hr]. destruct r as [[g|err]|]; [| |done].
  - subst w'. apply ewp_bind_any, ewp_set_guard. cbv beta. case_match; [by apply ewp_ret, HΦ; eauto|].
    apply ewp_bind_any, ewp_try, guard_transition_wp. intros r e' w' (Ha & _ & Hw).
    assert (∀ p, Φ (Some (Ok p)) e' w').
    { intros p. apply HΦ; [done| |]; destruct Hw as [->|[f ->]]; simpl; eauto. }
    destruct r as [[[]|err]|]; [by apply ewp_ret..|done].
  - destruct Hr as [g ->]. apply ewp_ret, HΦ; simpl; eauto.
Qed.

Lemma fail_closed_wp reason e w Φ :
  (∀ m e' w', en_armed_transaction e' = en_armed_transaction e → failed_closed w w'
     → Φ (Some (Ok (Uncertain (reason ++ m)))) e' w')
  → (∀ e' w', Φ None e' w')
  → ewp (fail_closed turns reason) Φ e w.
Proof.
  intros HΦ Hn. unfold fail_closed. apply ewp_bind_any, fail_closed_identity_wp; [|done].
  intros [id fs]. apply ewp_bind_any, fail_closed_guard_wp; [|done].
  intros [failed fs1] e1 w1 He1 Hg1 Hj1.
  assert (∀ w' fs, same_but_units w1 w' → stop_tried w' → ewp
    (failures <~ (if (failed : bool) then eret fs
                  else noting (bs "journal marker: ") persist_supervisor_failure_marker fs);
     eret (Uncertain (reason ++ bs "; guard and journal retained with units required inactive"
       ++ (if bool_decide (failures = []) then []
           else bs "; fail-closed best effort also reported " ++ join_with (bs ", ") failures))))
    Φ e1 w') as Hend.
  { intros w' fs' (Hj & Hg & Hr) Hs. apply ewp_bind_any. destruct failed.
    - apply ewp_ret, ewp_ret, HΦ; [done|]. split_and!; [done|by rewrite Hg, Hr|by rewrite Hj].
    - apply noting_ewp, failure_marker_wp. intros r e'' w'' (Ha & _ & Hw).
      destruct r as [r|]; [|done]. intros fs''. apply ewp_ret, HΦ; [congruence|].
      destruct Hs, Hw as [->|[f ->]]; split_and!; simpl; rewrite ?Hg, ?Hr, ?Hj; eauto; by split. }
  apply ewp_bind_any, noting_ewp, stop_units_safe; [done| | |]; simpl; auto.
  intros w' Hw [Hs1 Hs2] fs'. apply Hend; [done|]. split; congruence.
Qed.

(** Supervision: what an action leaves, or the engine failed closed. *)
Definition supervised {A} (Q : A → Engine → World → Prop) (r : option (secresult A)) (e : Engine)
    (w : World) : Prop :=
  match r with
  | Some (Ok a) => Q a e w
  | Some (Err err) =>
      match en_armed_transaction e with
      | None => settled w
      | Some _ => (∃ m, err = Uncertain m) ∧ ∃ w0, failed_closed w0 w
      end
  | None => True
  end.
Lemma supervise_safe {A} (m : eng A) Q e w :
  ewp m (post Q rest) e w → ewp (supervise turns m) (supervised Q) e w.
Proof.
  intros Hm. apply ewp_bind_any, ewp_catch. eapply ewp_mono; [exact Hm|].
  intros r e' w' HQ. apply ewp_bind_any, ewp_gets. unfold rest in HQ.
  assert (∀ reason, en_armed_transaction e' ≠ None →
    ewp (error <~ fail_closed turns reason; efail error) (supervised Q) e' w') as Hfail.
  { intros reason Ha. apply ewp_bind_any, fail_closed_wp; [|done]. intros msg e'' w'' Ha' Hc.
    apply ewp_fail. simpl. rewrite Ha'. destruct (en_armed_transaction e'); [|done]. eauto. }
  destruct r as [[a|err]|]; [by apply ewp_ret|..]; simpl in HQ; case_bool_decide as Ha; auto;
    apply ewp_fail; simpl; rewrite Ha; auto.
Qed.

(** ** Supervised transactions *)

(** What the steps of a supervisor keep. *)
Definition same_cleanup (j j' : SupervisorJournalV1) : Prop :=
  s_cleanup_artifact j' = s_cleanup_artifact j ∧ s_cleanup_manifest j' = s_cleanup_manifest j
  ∧ s_cleanup_quarantine j' = s_cleanup_quarantine j.
Abbreviation keeps k j := (λ j' e' w', inv k e' w' j' ∧ same_cleanup j j').

Lemma same_cleanup_trans j1 j2 j3 : same_cleanup j1 j2 → same_cleanup j2 j3 → same_cleanup j1 j3.
Proof. unfold same_cleanup. intuition congruence. Qed.
#[local] Hint Resolve same_cleanup_trans : safe.
#[local] Hint Extern 1 (same_cleanup _ _) => by split_and! : safe.

(** A step recorded in a supervisor's journal that keeps what a cleanup needs. *)
Lemma supervisor_step_safe k (c n : SupervisorJournalV1) point e w :
  inv k e w c → s_transaction_id n = s_transaction_id c → s_generation n = s_generation c
  → same_cleanup c n
  → ewp (record_step c n point) (post (keeps k c) rest) e w.
Proof.
  intros Hi Hid Hg Hs. eapply ewp_mono; [by eapply record_step_safe|].
  intros [[j|err]|] e' w'; simpl; [|done|done]. intros [Hi' (g & i & ->)]. by split.
Qed.
Lemma advance_supervisor_safe k j phase e w :
  inv k e w j → ewp (advance_supervisor j phase) (post (keeps k j) rest) e w.
Proof. intros Hi. by apply supervisor_step_safe. Qed.
Lemma advance_guarded_safe k j service socket id effective guard e w :
  inv k e w j
  → ewp (advance_supervisor_guarded j service socket id effective guard) (post (keeps k j) rest) e w.
Proof. intros Hi. by apply supervisor_step_safe. Qed.
#[local] Hint Resolve advance_supervisor_safe advance_guarded_safe : safe.

Lemma fulfil_intent_safe j intent e w :
  inv Closed e w j → last (s_security_directories j) = Some intent
  → ewp (fulfil_intent j intent) (post (keeps Closed j) rest) e w.
Proof.
  intros Hi Hl. unfold fulfil_intent, persist_directory_observation. pose proof supervisor_step_safe.
  safely. split; [exact (inv_closed _ _ _ Hi)|exact (inv_says _ _ _ _ _ Hi Hl)].
Qed.
#[local] Hint Resolve fulfil_intent_safe : safe.
Lemma finish_open_intent_safe j e w :
  inv Closed e w j → ewp (finish_open_intent j) (post (keeps Closed j) rest) e w.
Proof. intros Hi. unfold finish_open_intent. safely. Qed.
Lemma prepare_directories_safe missing j e w :
  inv Closed e w j → ewp (prepare_directories missing j) (post (keeps Closed j) rest) e w.
Proof.
  revert j e w. induction missing as [|[path permissions] missing IH]; intros j e w Hi; simpl; [safely|].
  apply ewp_bind, quiet. intros [[intent|err]|]; simpl; try solve [eauto with safe].
  unfold persist_directory_intent. apply ewp_bind.
  eapply ewp_mono; [by eapply record_step_safe|]. intros [[j'|err]|] e' w'; simpl; try done.
  intros [Hi' (g & i & ->)].
  assert (last (s_security_directories (ej_bind g i
    (supervisor_directories (s_security_directories j ++ [intent]) j))) = Some intent)
    by apply last_snoc.
  safely.
Qed.
#[local] Hint Resolve finish_open_intent_safe prepare_directories_safe : safe.
Lemma prepare_security_directories_safe j e w :
  inv Closed e w j → ewp (prepare_security_directories j) (post (keeps Closed j) rest) e w.
Proof.
  intros Hi. unfold prepare_security_directories. pose proof supervisor_step_safe. safely.
Qed.
Lemma reconcile_recorded_safe j e w :
  inv Closed e w j
  → ewp (reconcile_recorded_security_directories j) (post (keeps Closed j) rest) e w.
Proof. intros Hi. unfold reconcile_recorded_security_directories. safely. Qed.
Lemma rollback_supervisor_safe j e w :
  inv Closed e w j
  → ewp (rollback_supervisor_security_directories j) (post (λ _ e' w', inv Closed e' w' j) rest) e w.
Proof.
  intros Hi. unfold rollback_supervisor_security_directories.
  assert (closed w ∧ directories_are w (s_security_directories j)).
  { split; [exact (inv_closed _ _ _ Hi)|]. right. right. exact (inv_says _ _ _ _ _ Hi eq_refl). }
  safely; by split.
Qed.
#[local] Hint Resolve prepare_security_directories_safe reconcile_recorded_safe
  rollback_supervisor_safe : safe.

(** The first generation, and the guard: from nothing to a transaction. *)
Definition opened (j : SupervisorJournalV1) : stance :=
  if bool_decide (s_operation j = OpCleanupUnadopted) then Guarded else Closed.

Lemma open_transaction_safe j config dropin receipt service socket id effective e w :
  idle e w → s_phase j = SpPrepared → s_generation j = 1 → s_prior_journal_identity j = None
  → ewp (open_transaction turns j config dropin receipt service socket id effective)
      (post (keeps (opened j) j) rest) e w.
Proof.
  intros [-> [Hj Hg]] Hp Hgen Hprior. apply ewp_bind, ewp_set_armed. simpl.
  apply ewp_bind, persist_wp; simpl; [done| | |by intros; eapply rest_armed..].
  - intros b Hb. rewrite Hj. by exists j.
  - intros f Hf. by_quiet; try by eapply rest_armed. apply ewp_bind, ewp_ask; [done|].
    intros t r w' t' [_ Hr]. destruct r as [[g|err]|]; simpl; try by eapply rest_armed.
    subst w'. apply ewp_bind, ewp_set_guard. simpl.
    set (e' := mkEngine _ _ _). set (w' := with_guard _ _ _).
    assert (inv Guarded e' w' j) by by split_and!; [exists f| |exists g].
    clearbody e' w'. unfold opened. safely.
Qed.
#[local] Hint Resolve open_transaction_safe : safe.

Lemma begin_safe operation cleanup e w :
  idle e w
  → ewp (begin_supervised_transaction turns operation cleanup)
      (post (λ j e' w', inv (if bool_decide (operation = OpCleanupUnadopted) then Guarded else Closed) e' w' j
         ∧ s_cleanup_artifact j = (λ c, c.1.1) <$> cleanup
         ∧ (operation = OpCleanupUnadopted → ∃ path, s_cleanup_quarantine j = Some (mkQuarantine path QPlanned)))
         rest) e w.
Proof.
  intros Hi. unfold begin_supervised_transaction. safely;
    match goal with Hs : same_cleanup _ _ |- _ => destruct Hs as (Ha & _ & Hq) end; simpl in *;
    (split_and!; [done|by rewrite Ha|intros ->; rewrite Hq, bool_decide_eq_true_2 by done; eauto]).
Qed.
#[local] Hint Resolve begin_safe : safe.

(** ** Provisioning and enabling *)

Lemma advance_mode1_safe k j phase e w :
  inv k e w j → ewp (advance_mode1 j phase) (post (λ j' e' w', inv k e' w' j') rest) e w.
Proof. intros Hi. unfold advance_mode1. safely. Qed.
Lemma advance_plaintext_safe k j phase e w :
  inv k e w j → ewp (advance_plaintext j phase) (post (λ j' e' w', inv k e' w' j') rest) e w.
Proof. intros Hi. unfold advance_plaintext. safely. Qed.
Lemma install_safe {J} `{EngineJournal J} `{!JournalLaws J} k (j : J) path b absent e w :
  inv k e w j → may_write k path
  → ewp (install j path b absent) (post (λ r e' w', inv k e' w' r.1) rest) e w.
Proof. apply execute_atomic_safe. Qed.
Lemma may_write_closed path : may_write Closed path.
Proof. by left. Qed.
Lemma may_write_receipt k : may_write k SECURITY_RECEIPT_PATH.
Proof. by right. Qed.
#[local] Hint Resolve advance_mode1_safe advance_plaintext_safe install_safe may_write_closed
  may_write_receipt : safe.

(** The supervisor's journal gives way to that of the operation. *)
Lemma latest_identity_safe {J} `{EngineJournal J} k e w (j : J) :
  inv k e w j
  → ewp latest_journal_identity
      (post (λ i e' w', e' = e ∧ w' = w
         ∧ ∃ f, en_journal_observation e = Some f ∧ i = atomic_identity f) rest) e w.
Proof.
  intros Hi. pose proof Hi as [(f & _ & Hf & _) _]. apply ewp_bind, ewp_gets. rewrite Hf.
  apply ewp_lift; [|eauto with safe]. intros i [= <-]. eauto.
Qed.
Lemma handover_safe {J} `{EngineJournal J} `{!JournalLaws J} (s : SupervisorJournalV1) (n : J) f k e w :
  (∀ b, takes_over J f b → succeeds (Some f) b)
  → inv k e w s → en_journal_observation e = Some f
  → ej_transaction_id n = s_transaction_id s → ej_guard n = s_guard s
  → ej_generation n = s_generation s + 1 → ej_prior n = Some (atomic_identity f)
  → ewp (persist_journal n) (post (λ _ e' w', inv k e' w' n) rest) e w.
Proof.
  intros Hs Hi Hf Hid Hg Hgen Hprior. pose proof Hi as ((f' & Hw & Hf' & Hh) & He & Hk).
  assert (f' = f) as -> by congruence.
  apply persist_wp; simpl; [congruence| | |by intros; eapply rest_armed..].
  - intros b Hb. rewrite Hw. apply Hs. by exists s, n.
  - intros f' Hf''. split_and!; [by exists f'|simpl; by rewrite Hid|by destruct k].
Qed.
Lemma next_generation_ok s g : next_generation s = Ok g → g = s_generation s + 1.
Proof. unfold next_generation, required, checked_add. by destruct (_ <=? _); intros [= <-]. Qed.
Lemma mode1_handover_safe s n f k e w :
  inv k e w s → en_journal_observation e = Some f
  → j_transaction_id n = s_transaction_id s → j_guard n = s_guard s
  → next_generation s = Ok (j_generation n) → j_prior_journal_identity n = Some (atomic_identity f)
  → ewp (persist_journal n) (post (λ _ e' w', inv k e' w' n) rest) e w.
Proof.
  intros Hi Hf Hid Hg Hgen%next_generation_ok Hprior.
  eapply handover_safe; eauto. unfold succeeds. tauto.
Qed.
Lemma plaintext_handover_safe s n f k e w :
  inv k e w s → en_journal_observation e = Some f
  → p_transaction_id n = s_transaction_id s → p_guard n = s_guard s
  → next_generation s = Ok (p_generation n) → p_prior_journal_identity n = Some (atomic_identity f)
  → ewp (persist_journal n) (post (λ _ e' w', inv k e' w' n) rest) e w.
Proof.
  intros Hi Hf Hid Hg Hgen%next_generation_ok Hprior.
  eapply handover_safe; eauto. unfold succeeds. tauto.
Qed.
#[local] Hint Extern 1 (ewp latest_journal_identity _ _ _) =>
  from_inv ltac:(fun H => exact (latest_identity_safe _ _ _ _ H)) : safe.
#[local] Hint Extern 1 (next_generation _ = Ok _) => eassumption : safe.
#[local] Hint Resolve mode1_handover_safe plaintext_handover_safe : safe.

Lemma obtain_artifact_safe {J} `{EngineJournal J} existing with_key e w (j : J) :
  inv Closed e w j
  → ewp (obtain_artifact existing with_key) (post (λ _ e' w', e' = e ∧ w' = w) rest) e w.
Proof.
  intros Hi. unfold obtain_artifact.
  assert (closed w ∧ is_Some (w_journal w)).
  { split; [exact (inv_closed _ _ _ Hi)|exact (inv_journal _ _ _ _ Hi)]. }
  safely; done.
Qed.
#[local] Hint Extern 1 (ewp (obtain_artifact _ _) _ _ _) =>
  from_inv ltac:(fun H => exact (obtain_artifact_safe _ _ _ _ _ H)) : safe.

Lemma complete_disabled_safe j e w :
  inv Closed e w j
  → ewp (complete_disabled_transaction turns j) (post (λ _ e' w', idle e' w') rest) e w.
Proof. intros Hi. unfold complete_disabled_transaction. safely. Qed.
#[local] Hint Resolve complete_disabled_safe : safe.
Lemma execute_mode1_provision_safe j artifact config receipt b inspected sel generated e w :
  inv Closed e w j
  → ewp (execute_mode1_provision turns j artifact config receipt b inspected sel generated)
      (post (λ _ e' w', idle e' w') rest) e w.
Proof. intros Hi. unfold execute_mode1_provision. safely. Qed.
#[local] Hint Resolve execute_mode1_provision_safe : safe.

Lemma verify_disabled_safe config receipt artifact file service socket s e w :
  inv Closed e w s
  → ewp (verify_disabled_idempotent turns config receipt artifact file service socket s)
      (post (λ _ e' w', idle e' w') rest) e w.
Proof. intros Hi. unfold verify_disabled_idempotent. safely. Qed.
Lemma verify_enabled_safe config receipt artifact file service socket s e w :
  inv Closed e w s
  → ewp (verify_enabled_idempotent turns config receipt artifact file service socket s)
      (post (λ _ e' w', idle e' w') rest) e w.
Proof. intros Hi. unfold verify_enabled_idempotent. safely. Qed.
Lemma provision_new_safe request s config receipt artifact service socket post_service post_socket e w :
  inv Closed e w s
  → ewp (provision_new_mode1 turns request s config receipt artifact service socket post_service post_socket)
      (post (λ _ e' w', idle e' w') rest) e w.
Proof. intros Hi. unfold provision_new_mode1. safely. Qed.
#[local] Hint Resolve verify_disabled_safe verify_enabled_safe provision_new_safe : safe.
Lemma provision_mode1_safe request e w :
  idle e w → ewp (provision_mode1 turns request) (post (λ _ e' w', idle e' w') rest) e w.
Proof. intros Hi. unfold provision_mode1. safely. Qed.

Lemma execute_enable_safe j disabled enabled b config invocation e w :
  inv Closed e w j
  → ewp (execute_enable turns j disabled enabled b config invocation)
      (post (λ _ e' w', idle e' w') rest) e w.
Proof. intros Hi. unfold execute_enable. safely. Qed.
#[local] Hint Resolve execute_enable_safe : safe.
Lemma enable_mode1_safe e w :
  idle e w → ewp (enable_mode1 turns) (post (λ _ e' w', idle e' w') rest) e w.
Proof. intros Hi. unfold enable_mode1. safely. Qed.

Lemma execute_plaintext_safe j config effective prompt e w :
  inv Closed e w j
  → ewp (execute_plaintext_provision turns j config effective prompt)
      (post (λ _ e' w', idle e' w') rest) e w.
Proof. intros Hi. unfold execute_plaintext_provision. safely. Qed.
#[local] Hint Resolve execute_plaintext_safe : safe.
Lemma provision_plaintext_safe p e w :
  idle e w → ewp (provision_plaintext turns p) (post (λ _ e' w', idle e' w') rest) e w.
Proof. intros Hi. unfold provision_plaintext. safely. Qed.
End flows.

#[export] Hint Resolve same_cleanup_trans advance_supervisor_safe advance_guarded_safe fulfil_intent_safe
  finish_open_intent_safe prepare_directories_safe prepare_security_directories_safe reconcile_recorded_safe
  rollback_supervisor_safe open_transaction_safe begin_safe advance_mode1_safe
  advance_plaintext_safe install_safe may_write_closed may_write_receipt
  mode1_handover_safe plaintext_handover_safe complete_disabled_safe execute_mode1_provision_safe
  verify_disabled_safe verify_enabled_safe provision_new_safe execute_enable_safe
  execute_plaintext_safe
  provision_mode1_safe enable_mode1_safe provision_plaintext_safe : safe.
#[export] Hint Extern 1 (same_cleanup _ _) => by split_and! : safe.
#[export] Hint Extern 1 (ewp latest_journal_identity _ _ _) =>
  from_inv ltac:(fun H => exact (latest_identity_safe _ _ _ _ H)) : safe.

Section cleaning.
  Context `{Sha256} `{SerdeJson TransactionGuardV1} `{SerdeJson UnadoptedArtifactV1}.
  Context `{SerdeJson ProvisioningJournalV1} `{SerdeJson PlaintextProvisioningJournalV1}.
  Context `{SerdeJson SupervisorJournalV1} `{SerdeJson VerifierResultV1} `{SerdeJson ProvisioningReceiptV1}.
  Context `{ConfigEnv} `{PatchToml} `{TomlPretty}.
  Context (turns : nat) (Hturns : 10000 < Z.of_nat turns).

(** ** Cleaning up *)

Lemma restore_units_safe {J} `{EngineJournal J} service socket e w (j : J) :
  inv Open e w j
  → ewp (restore_units turns service socket) (post (λ _ e' w', inv Open e' w' j) rest) e w.
Proof. intros Hi. unfold restore_units. safely. Qed.
#[local] Hint Extern 1 (ewp (restore_units _ _ _) _ _ _) =>
  from_inv ltac:(fun H => exact (restore_units_safe _ _ _ _ _ H)) : safe.
Lemma finish_supervisor_units_safe j e w :
  inv Closed e w j → ewp (finish_supervisor_units turns j) (post (λ _ e' w', idle e' w') rest) e w.
Proof. intros Hi. unfold finish_supervisor_units. safely. Qed.
Lemma required_certain_ok {A} (o : option A) m a : required_certain o m = Ok a → o = Some a.
Proof. destruct o; by intros [= ->]. Qed.
Lemma remove_cleanup_manifest_safe j e w :
  inv Closed e w j
  → ewp (remove_cleanup_manifest j) (post (λ _ e' w', inv Closed e' w' j) rest) e w.
Proof.
  intros Hi. unfold remove_cleanup_manifest. safely.
  split; [exact (inv_closed _ _ _ Hi)|]. right. refine (inv_says _ _ _ _ _ Hi _).
  match goal with Hm : required_certain (s_cleanup_manifest j) _ = Ok ?m |- _ =>
    rewrite (required_certain_ok _ _ _ Hm); by destruct m end.
Qed.
#[local] Hint Resolve finish_supervisor_units_safe remove_cleanup_manifest_safe : safe.

(** The artifact of a cleanup is at this point of its way. *)
Definition quarantined (identity : CleanupArtifactIdentityV1) (path : bytes)
    (state : CleanupQuarantineStateV1) (j : SupervisorJournalV1) : Prop :=
  s_cleanup_artifact j = Some identity ∧ s_cleanup_quarantine j = Some (mkQuarantine path state).

Lemma quarantined_world identity path state k e w j :
  inv k e w j → quarantined identity path state j
  → quarantine_is w (ca_descriptor identity) (mkQuarantine path state).
Proof. intros Hi [Ha Hq]. refine (inv_says _ _ _ _ _ Hi _). by rewrite Ha. Qed.
Lemma quarantined_same identity path state j j' :
  quarantined identity path state j → same_cleanup j j' → quarantined identity path state j'.
Proof. intros [Ha Hq] (Ha' & _ & Hq'). split; congruence. Qed.
#[local] Hint Resolve quarantined_same : safe.

Lemma advance_quarantine_safe identity path state state' k j e w :
  inv k e w j → quarantined identity path state j
  → ewp (advance_cleanup_quarantine j state')
      (post (λ j' e' w', inv k e' w' j' ∧ quarantined identity path state' j') rest) e w.
Proof.
  intros Hi [Ha Hq]. unfold advance_cleanup_quarantine. rewrite Hq. safely.
  split; [done|]. simplify_eq. by split.
Qed.
#[local] Hint Resolve advance_quarantine_safe : safe.
Lemma restore_cleanup_quarantine_safe identity path j e w :
  inv Closed e w j → quarantined identity path QRenamed j
  → ewp (restore_cleanup_quarantine turns j identity) (post (λ _ e' w', idle e' w') rest) e w.
Proof.
  intros Hi Hq. unfold restore_cleanup_quarantine. pose proof Hq as [_ Hq']. rewrite Hq'.
  assert (closed w ∧ quarantine_is w (ca_descriptor identity) (mkQuarantine path QRenamed)).
  { split; [exact (inv_closed _ _ _ Hi)|by eapply quarantined_world]. }
  safely.
  match goal with Hm : required_certain (Some _) _ = Ok _ |- _ => apply required_certain_ok in Hm as [= <-] end.
  by split.
Qed.
#[local] Hint Resolve restore_cleanup_quarantine_safe : safe.

(** What a quarantine call needs. *)
Lemma quarantine_allowed identity path state e w j :
  inv Closed e w j → quarantined identity path state j
  → closed w ∧ quarantine_is w (ca_descriptor identity) (mkQuarantine path state).
Proof. intros Hi Hq. split; [exact (inv_closed _ _ _ Hi)|by eapply quarantined_world]. Qed.
#[local] Hint Extern 1 (engine_allowed _ (QuarantineArtifact _ _)) => eapply quarantine_allowed; eassumption : safe.
#[local] Hint Extern 1 (engine_allowed _ (UnlinkQuarantined _ _)) => eapply quarantine_allowed; eassumption : safe.
#[local] Hint Extern 1 (engine_allowed _ (RestoreQuarantined _ _)) => eapply quarantine_allowed; eassumption : safe.

Lemma remove_unadopted_safe identity path s e w :
  inv Closed e w s → quarantined identity path QPlanned s
  → ewp (remove_unadopted turns identity s) (post (λ _ e' w', idle e' w') rest) e w.
Proof.
  intros Hi Hq. unfold remove_unadopted. pose proof Hq as [_ Hq']. rewrite Hq'.
  apply ewp_bind, ewp_lift; [|eauto with safe]. intros q [= <-]. simpl. safely.
Qed.
#[local] Hint Resolve remove_unadopted_safe : safe.
Lemma cleanup_locked_safe request e w :
  idle e w → ewp (cleanup_locked turns request) (post (λ _ e' w', idle e' w') rest) e w.
Proof.
  intros Hi. unfold cleanup_locked. safely.
  match goal with Hq : _ = _ → ∃ _, _ |- _ => destruct (Hq eq_refl) as [path Hpath] end.
  eapply remove_unadopted_safe; [eassumption|].
  eapply quarantined_same; [|eassumption]. eapply quarantined_same; [by split|eassumption].
Qed.
#[local] Hint Resolve cleanup_locked_safe : safe.

(** ** Recovering *)

Lemma adopt_guard_safe {J} `{EngineJournal J} `{!JournalLaws J} k (j : J) guard e w :
  inv k e w j → ewp (adopt_guard j guard) (post (λ j' e' w', inv k e' w' j') rest) e w.
Proof.
  intros Hi. pose proof (jl_id_guard (Some guard) j). pose proof (jl_generation_guard (Some guard) j).
  unfold adopt_guard. safely.
Qed.
#[local] Hint Resolve adopt_guard_safe : safe.

Lemma resume_quarantined_safe identity path j e w :
  inv Closed e w j → quarantined identity path QRenamed j
  → ewp (resume_quarantined turns identity path j) (post (λ _ e' w', idle e' w') rest) e w.
Proof. intros Hi Hq. unfold resume_quarantined. safely. Qed.
#[local] Hint Resolve resume_quarantined_safe : safe.

(** The state the journal has in a case. *)
Lemma quarantine_case_state state original quarantined_ matches_original matches_quarantined :
  match quarantine_case_of state original quarantined_ matches_original matches_quarantined with
  | CaseAdvance => state = QPlanned
  | CaseAdmit | CaseUnlink | CaseRestore => state = QRenamed
  | CaseManifest => state = QRemoved
  | CaseFinish | CaseForeign => True
  end.
Proof. by destruct state, original, quarantined_, matches_original, matches_quarantined. Qed.
Lemma recover_cleanup_safe j e w :
  inv Closed e w j → ewp (recover_cleanup_supervisor turns j) (post (λ _ e' w', idle e' w') rest) e w.
Proof.
  intros Hi. unfold recover_cleanup_supervisor.
  apply ewp_bind, ewp_lift; [|eauto with safe]. intros identity Ha%required_certain_ok.
  apply ewp_bind, ewp_lift; [|eauto with safe]. intros [path state] Hq%required_certain_ok. simpl.
  assert (quarantined identity path state j) by by split.
  do 2 (by_quiet; [|by eauto with safe..]).
  pose proof (quarantine_case_state state) as Hcase.
  match goal with |- context [quarantine_case_of state ?x ?y ?u ?v] => specialize (Hcase x y u v) end.
  destruct (quarantine_case_of _ _ _ _ _); try subst state; safely.
Qed.
#[local] Hint Resolve recover_cleanup_safe : safe.
Lemma recover_supervisor_safe j e w :
  inv Anyhow e w j → ewp (recover_supervisor turns j) (post (λ _ e' w', idle e' w') rest) e w.
Proof. intros Hi. unfold recover_supervisor. safely. Qed.

End cleaning.

#[export] Hint Extern 1 (ewp (restore_units _ _ _) _ _ _) =>
  from_inv ltac:(fun H => match goal with Ht : 10000 < _ |- _ => exact (restore_units_safe _ Ht _ _ _ _ _ H) end) : safe.
#[export] Hint Resolve adopt_guard_safe recover_supervisor_safe recover_cleanup_safe cleanup_locked_safe  : safe.

Section commands.
  Context `{Sha256} `{SerdeJson TransactionGuardV1} `{SerdeJson UnadoptedArtifactV1}.
  Context `{SerdeJson ProvisioningJournalV1} `{SerdeJson PlaintextProvisioningJournalV1}.
  Context `{SerdeJson SupervisorJournalV1} `{SerdeJson VerifierResultV1} `{SerdeJson ProvisioningReceiptV1}.
  Context `{ConfigEnv} `{PatchToml} `{TomlPretty}.
  Context (turns : nat) (Hturns : 10000 < Z.of_nat turns).

Lemma mode1_directories k e w j :
  inv k e w j → directories_are w (j_security_directories j).
Proof. intros Hi. left. exact (inv_says _ _ _ _ _ Hi eq_refl). Qed.
Lemma plaintext_directories k e w j :
  inv k e w j → directories_are w (p_security_directories j).
Proof. intros Hi. right. left. exact (inv_says _ _ _ _ _ Hi eq_refl). Qed.
Lemma finish_rollback_safe {J} `{EngineJournal J} `{!JournalLaws J} service socket directories e w (j : J) :
  inv Closed e w j → directories_are w directories
  → ewp (finish_rollback_units turns service socket directories) (post (λ _ e' w', idle e' w') rest) e w.
Proof.
  intros Hi Hd. unfold finish_rollback_units. pose proof (inv_closed _ _ _ Hi). safely. by split.
Qed.
#[local] Hint Extern 1 (ewp (finish_rollback_units _ _ _ _) _ _ _) =>
  from_inv ltac:(fun H => refine (finish_rollback_safe _ _ _ _ _ _ H _)) : safe.
#[local] Hint Resolve mode1_directories plaintext_directories : safe.

Lemma quiesce_mode1_safe k j e w :
  inv k e w j → ewp (quiesce_mode1 turns j) (post (λ _ e' w', inv Closed e' w' j) rest) e w.
Proof. intros Hi. unfold quiesce_mode1. safely. Qed.
#[local] Hint Resolve quiesce_mode1_safe : safe.
Lemma write_manifest_safe j artifact inspected e w :
  inv Closed e w j
  → ewp (write_unadopted_manifest j artifact inspected) (post (λ j' e' w', inv Closed e' w' j') rest) e w.
Proof. intros Hi. unfold write_unadopted_manifest. safely. Qed.
Lemma restore_prior_safe j e w :
  inv Closed e w j → ewp (restore_mode1_prior j) (post (λ j' e' w', inv Closed e' w' j') rest) e w.
Proof. intros Hi. unfold restore_mode1_prior. safely. Qed.
Lemma finish_disabled_safe j service socket e w :
  inv Closed e w j
  → ewp (finish_disabled_units turns j service socket) (post (λ _ e' w', idle e' w') rest) e w.
Proof. intros Hi. unfold finish_disabled_units. safely. Qed.
#[local] Hint Resolve write_manifest_safe restore_prior_safe finish_disabled_safe : safe.

Lemma recover_prior_safe j e w :
  inv Closed e w j → ewp (recover_prior_state turns j) (post (λ _ e' w', idle e' w') rest) e w.
Proof. intros Hi. unfold recover_prior_state. safely. Qed.
Lemma recover_complete_safe j e w :
  inv Closed e w j → ewp (recover_complete_disabled turns j) (post (λ _ e' w', idle e' w') rest) e w.
Proof. intros Hi. unfold recover_complete_disabled. safely. Qed.
Lemma recover_disabled_safe j e w :
  inv Closed e w j → ewp (recover_disabled_state turns j) (post (λ _ e' w', idle e' w') rest) e w.
Proof. intros Hi. unfold recover_disabled_state. safely. Qed.
Lemma recover_started_safe j receipt enabled e w :
  inv Closed e w j
  → ewp (recover_started turns j receipt enabled) (post (λ _ e' w', idle e' w') rest) e w.
Proof. intros Hi. unfold recover_started. safely. Qed.
#[local] Hint Resolve recover_started_safe : safe.
Lemma recover_enabled_safe j e w :
  inv Closed e w j → ewp (recover_enabled_activation turns j) (post (λ _ e' w', idle e' w') rest) e w.
Proof. intros Hi. unfold recover_enabled_activation. safely. Qed.
#[local] Hint Resolve recover_prior_safe recover_complete_safe recover_disabled_safe
  recover_enabled_safe : safe.
Lemma recover_mode1_safe j e w :
  inv Anyhow e w j → ewp (recover_mode1 turns j) (post (λ _ e' w', idle e' w') rest) e w.
Proof. intros Hi. unfold recover_mode1. safely. Qed.

Lemma rollback_plaintext_safe j e w :
  inv Closed e w j → ewp (rollback_plaintext turns j) (post (λ _ e' w', idle e' w') rest) e w.
Proof. intros Hi. unfold rollback_plaintext. safely. Qed.
Lemma recover_activation_safe j e w :
  inv Closed e w j → ewp (recover_activation turns j) (post (λ _ e' w', idle e' w') rest) e w.
Proof. intros Hi. unfold recover_activation. safely. Qed.
#[local] Hint Resolve rollback_plaintext_safe recover_activation_safe : safe.
Lemma recover_plaintext_safe j e w :
  inv Anyhow e w j → ewp (recover_plaintext turns j) (post (λ _ e' w', idle e' w') rest) e w.
Proof. intros Hi. unfold recover_plaintext. safely. Qed.
#[local] Hint Resolve recover_supervisor_safe recover_mode1_safe recover_plaintext_safe : safe.

(** A file that was read as a journal, tracked by an engine armed with its identity. *)
Lemma adopted_inv {J} `{EngineJournal J} f (j : J) e w :
  w_journal w = Some f → en_journal_observation e = Some f → ej_parse (of_bytes f) = Ok j
  → en_armed_transaction e = Some (ej_transaction_id j) → inv Anyhow e w j.
Proof. intros Hw He Hp Ha. split_and!; [exists f|done|done]. by split_and!; [| |left]. Qed.

Lemma recover_without_journal_safe e w :
  w_journal w = None → is_Some (en_armed_transaction e)
  → ewp recover_without_journal (post (λ _ e' w', idle e' w') rest) e w.
Proof.
  intros Hw [id Ha]. unfold recover_without_journal. apply ewp_bind, ewp_set_journal. simpl.
  apply ewp_bind, ewp_ask; [done|]. intros t r w' t' (_ & -> & Hg).
  destruct r as [[[f|]|err]|]; simpl; try by eapply rest_armed.
  - apply ewp_bind, ewp_lift; [|by eapply rest_armed]. intros _ _. apply ewp_bind.
    case_match; [apply ewp_set_armed|apply ewp_ret]; apply ewp_fail; by eapply rest_armed.
  - apply ewp_bind. unfold disarm. apply ewp_bind, ewp_set_armed, ewp_set_guard, ewp_ret. simpl.
    split; [done|]. split; [done|]. by apply Hg.
Qed.
Lemma recover_locked_safe e w :
  ewp (recover_locked turns) (post (λ _ e' w', idle e' w') rest) e w.
Proof.
  apply ewp_bind, ewp_set_armed. simpl. apply ewp_bind, ewp_ask; [done|].
  intros t r w' t' (_ & -> & Hr). destruct r as [[[f|]|err]|]; simpl; try by eapply rest_armed.
  - pose proof (Hr _ eq_refl) as Hw. apply ewp_bind, ewp_set_journal. simpl.
    apply ewp_bind, ewp_lift; [|by eapply rest_armed]. intros _ _.
    repeat case_match; try (apply ewp_fail; by eapply rest_armed);
      apply ewp_bind, ewp_set_armed; simpl;
      [eapply recover_mode1_safe|eapply recover_plaintext_safe|eapply (recover_supervisor_safe turns Hturns)];
      by eapply adopted_inv.
  - by eapply recover_without_journal_safe; [rewrite (Hr _ eq_refl)|].
Qed.
#[local] Hint Resolve recover_locked_safe : safe.

Lemma after_recovery_safe action e w :
  (∀ e w, idle e w → ewp action (post (λ _ e' w', idle e' w') rest) e w)
  → ewp (after_recovery turns action) (post (λ _ e' w', idle e' w') rest) e w.
Proof. intros Ha. unfold after_recovery. safely. Qed.

(** ** The commands *)

Inductive command :=
| Provision (request : ProvisionRequest) | Enable | Recover | CleanupUnadopted (request : CleanupRequest).
Definition run (c : command) : eng SecurityOutcome :=
  match c with
  | Provision request => provision turns request
  | Enable => enable turns
  | Recover => recover turns
  | CleanupUnadopted request => cleanup_unadopted turns request
  end.

(** How a command ends, from a world [w0]: with a result, or refused before it began anything, or
    as supervision leaves it. *)
Definition ended (w0 : World) (r : option (secresult SecurityOutcome)) (e : Engine) (w : World) : Prop :=
  match r with
  | Some (Ok _) => settled w ∧ en_armed_transaction e = None
  | Some (Err err) =>
      w = w0 ∨ match en_armed_transaction e with
               | None => settled w
               | Some _ => (∃ m, err = Uncertain m) ∧ ∃ w1, failed_closed w1 w
               end
  | None => True
  end.

Lemma supervised_ended (m : eng SecurityOutcome) w0 e w :
  ewp m (post (λ _ e' w', idle e' w') rest) e w → ewp (supervise turns m) (ended w0) e w.
Proof.
  intros Hm. eapply ewp_mono; [by apply (supervise_safe turns Hturns)|].
  intros [[a|err]|] e' w'; simpl; auto. intros [-> Hs]. done.
Qed.
(** The checks before the lock change nothing. *)
Lemma guarded_ended (m : eng SecurityOutcome) {A} (c : Call (secresult A)) w :
  neutral World c → ewp m (ended w) SecurityEngine_new w
  → ewp (_ <~ ask c; m) (ended w) SecurityEngine_new w.
Proof.
  intros Hc Hm. apply ewp_bind_any. apply (quiet_ask c Hc). intros [[a|err]|]; simpl; auto.
Qed.

Lemma run_safe c w : ewp (run c) (ended w) SecurityEngine_new w.
Proof.
  destruct c as [request| | |request]; simpl.
  - apply guarded_ended; [by split; [|simpl; tauto]|]. destruct (pr_mode request) eqn:Hm.
    1,2: apply ewp_bind_any, ewp_lift_any; destruct (refused_if _ _) as [[]|err]; simpl; [|by left];
      (apply guarded_ended; [by split; [|simpl; tauto]|]); apply supervised_ended, after_recovery_safe;
      intros e' w' Hi; first [by apply provision_plaintext_safe|by apply provision_mode1_safe].
    apply ewp_fail. by left.
  - do 2 (apply guarded_ended; [by split; [|simpl; tauto]|]).
    apply supervised_ended, after_recovery_safe. intros e' w' Hi. by apply enable_mode1_safe.
  - do 2 (apply guarded_ended; [by split; [|simpl; tauto]|]). apply supervised_ended.
    pose proof recover_locked_safe. safely.
  - do 2 (apply guarded_ended; [by split; [|simpl; tauto]|]). apply supervised_ended.
    pose proof recover_locked_safe. safely.
Qed.
End commands.

(** ** Runs *)

Section runs.
  Context `{Sha256} `{SerdeJson TransactionGuardV1} `{SerdeJson UnadoptedArtifactV1}.
  Context `{SerdeJson ProvisioningJournalV1} `{SerdeJson PlaintextProvisioningJournalV1}.
  Context `{SerdeJson SupervisorJournalV1} `{SerdeJson VerifierResultV1} `{SerdeJson ProvisioningReceiptV1}.
  Context `{ConfigEnv} `{PatchToml} `{TomlPretty}.


(** C23: Failing closed reports the reason as uncertain, and does not give up on the way: whatever
    the runtime answers, unless it unwinds, the engine stays armed, both units were told to stop,
    the guard is up unless it was refused, and a durable journal is still there; a journal that is
    marked on the way is the accepted successor of the one it replaces. *)
Theorem fail_closed_complete turns reason e w t :
  10000 < Z.of_nat turns →
  ∀ x, rtc moves (w, t, fail_closed turns reason e) x
    → reached (λ '(e', r) w',
        match r with
        | Some (Ok err) => (∃ report, err = Uncertain (reason ++ report))
            ∧ en_armed_transaction e' = en_armed_transaction e ∧ failed_closed w w'
        | Some (Err _) => False
        | None => True
        end) x.
Proof.
  intros Hturns x Hx. apply (runs_wp _ _ _ Hx).
  refine (program_mono _ _ _ _ _ (fail_closed_wp turns Hturns reason e w (λ r e' w',
            match r with
            | Some (Ok err) => (∃ report, err = Uncertain (reason ++ report))
                ∧ en_armed_transaction e' = en_armed_transaction e ∧ failed_closed w w'
            | Some (Err _) => False
            | None => True
            end) _ _ t) _); [by eauto|done|by intros [e' r]].
Qed.

(** C36: A mode-1 configuration that was edited after it was provisioned is not admitted to a new
    provisioning but unwinds: the receipt no longer describes the configuration, so the state is
    not taken as provisioned; it still describes the artifact, so the state is classified as the
    idempotent one, which the code declares unreachable. *)
Theorem edited_configuration_unwinds receipt config artifact nonempty adopt e :
  observed_sha256 config ≠ selected_receipt_config_sha256 receipt
  → validate_private artifact = Ok ()
  → is_ok (inspect_systemd_credential_envelope (of_bytes artifact)) = true
  → receipt_describes receipt artifact = true
  → receipt_matches_live receipt config artifact e = Done (e, Some (Ok false))
    ∧ admit_provisioning (Some (1, MODE1_KEY_EPOCH)) (Some receipt) (Some artifact) nonempty adopt e
      = Done (e, None).
Proof.
  intros Hc Hp Hi Hd. split.
  - unfold receipt_matches_live, differs. by rewrite bool_decide_eq_false_2 by done.
  - unfold admit_provisioning, artifact_state. rewrite Hp. simpl. rewrite Hi, Hd.
    by destruct nonempty, adopt.
Qed.
End runs.

(** ** Concrete runs *)

Module SecurityDemo.
#[local] Existing Instance JournalDemo.demo_sha256.
#[local] Existing Instance JournalDemo.demo_guard_json.
#[local] Existing Instance JournalDemo.demo_manifest_json.
#[local] Existing Instance demo_config_env.
#[local] Existing Instance demo_patch_toml.
(** A serializer of the smallest document, enough for runs that read no journal. *)
Definition no_document {A} : SerdeJson A := {| to_vec _ := Some (bs "{}"); from_slice _ := None |}.
#[local] Instance demo_json1 : SerdeJson ProvisioningJournalV1 := no_document.
#[local] Instance demo_json2 : SerdeJson PlaintextProvisioningJournalV1 := no_document.
#[local] Instance demo_json3 : SerdeJson SupervisorJournalV1 := no_document.
#[local] Instance demo_json4 : SerdeJson VerifierResultV1 := no_document.
#[local] Instance demo_json5 : SerdeJson ProvisioningReceiptV1 := no_document.
#[local] Instance demo_pretty : TomlPretty := λ _, Some demo_raw.

Definition demo_turns : nat := Z.to_nat 10001.
Lemma demo_turns_enough : 10000 < Z.of_nat demo_turns.
Proof. unfold demo_turns. rewrite Z2Nat.id; done. Qed.

(** A machine without a transaction, its units running. *)
Definition quiet_world : World := mkWorld None None false MayRun MayRun.

(** The next answer of a run. *)
Definition yes {A} (a : A) : option (secresult A) := Some (Ok a).
Definition no {A} : option (secresult A) := Some (Err (Operation (bs "no"))).
Ltac answer r w t :=
  eapply rtc_l; [exists r, w, t; split; [split_and!; first [done|by intros ? [= <-]|by intros]|reflexivity]|].


(** Failing closed on a machine that refuses most of it: there is no journal, the guard goes up, no
    unit acknowledges its stop, and the clock runs out. *)
Definition guarded_world : World := mkWorld None (Some JournalDemo.guard) false MayRun MayRun.
Definition halted_world : World := mkWorld None (Some JournalDemo.guard) false StopTried StopTried.
Lemma fail_closed_complete_witness :
  failed_closed quiet_world halted_world.
Proof.
  pose proof (fail_closed_complete demo_turns (bs "disk failed")
    (mkEngine (Some JournalDemo.txn) None None) quiet_world 0 demo_turns_enough) as Hrun.
  eassert (rtc moves (quiet_world, 0, fail_closed demo_turns (bs "disk failed")
    (mkEngine (Some JournalDemo.txn) None None)) _) as Hx.
  { answer (yes JournalDemo.guard) guarded_world 0.
    answer (yes (None (A:=ObservedFile))) guarded_world 0.
    answer (Some 0) guarded_world 0.
    answer (no (A:=())) (with_unit guarded_world UkSocket StopTried) 0.
    answer (yes ()) (with_unit guarded_world UkSocket StopTried) 0.
    answer (no (A:=())) halted_world 0.
    answer (yes ()) halted_world 0.
    answer (Some 10000) halted_world 10000.
    answer (Some 10000) halted_world 10000.
    apply rtc_refl. }
  apply Hrun in Hx. apply Hx.
Defined.

(** A credential of the host key, its receipt, and a configuration with one byte more than the
    receipt's. *)
Definition demo_envelope : bytes := base64_encode (main_part KeyHost (zero_bytes 12) ++ zero_bytes 96).
Definition demo_file (b : bytes) : ObservedFile :=
  mkObserved b (mkFileMetadata 1 FoRegularFile 0 0 mode_600 1 ExactlyOne (len b)
                  (mkRestorable (mkFileTimestamp 0 0) (mkFileTimestamp 0 0))) 1 7 1 9 0 0 mode_700 2.
Definition demo_verifier : VerifierResultV1 :=
  mkVerifierResult (digest_from_bytes demo_raw)
    (mkDaemonVerifier (bs "1.0") (bs "build") HOWYD (JournalDemo.digest "1"))
    (mkReadinessResult 1 true (mkFingerprint (JournalDemo.digest "2") 0 0) 0 0 KrEmptyNotApplicable None 0).
Definition demo_receipt : ProvisioningReceiptV1 :=
  mkReceipt 1 RsProvisionedDisabled JournalDemo.txn 1 1 MODE1_CREDENTIAL_NAME
    (mkArtifactReceipt MODE1_CREDENTIAL_PATH (digest_from_bytes demo_envelope) (len demo_envelope)
       0 0 mode_600 1
       (mkPolicyMetadata SelHost KeyHost true MODE1_CREDENTIAL_NAME None false false
          (JournalDemo.digest "3") 144))
    (pp_contract demo_prepared)
    (mkUnitCredential (JournalDemo.digest "4") (digest_from_bytes MODE1_DROPIN_BYTES)
       MODE1_CREDENTIAL_SOURCE_COMPANION_NAME MODE1_CREDENTIAL_PATH)
    JournalDemo.base_units (mkVerifierReceipt demo_verifier (JournalDemo.digest "5")).

Lemma edited_configuration_unwinds_witness :
  receipt_matches_live demo_receipt (demo_file (bs "x" ++ demo_raw)) (demo_file demo_envelope)
    SecurityEngine_new = Done (SecurityEngine_new, Some (Ok false))
  ∧ admit_provisioning (Some (1, MODE1_KEY_EPOCH)) (Some demo_receipt) (Some (demo_file demo_envelope))
      true true SecurityEngine_new = Done (SecurityEngine_new, None).
Proof.
  apply (edited_configuration_unwinds demo_receipt (demo_file (bs "x" ++ demo_raw))
           (demo_file demo_envelope) true true SecurityEngine_new).
  - apply (bool_decide_eq_false_1 _). vm_compute. reflexivity.
  - vm_compute. reflexivity.
  - vm_compute. reflexivity.
  - vm_compute. reflexivity.
Defined.
End SecurityDemo.
