(* ===== verification/SecurityPresence.v ===== *)
(** * The security transaction engine: changing the presence policy

    From [crates/howy-cli/src/security/engine.rs]: [set_presence], which rewrites the configuration
    and the receipt that binds it, and keeps the sudoers override that lets sudo show the prompt.
    It keeps no journal: a failed publication is classified and rolled back. *)

From stdpp Require Import sorting.
From S2P Require Import Prelude Bytes Storage Crypto Codec Namespace Legacy Contracts Cache Config Paths PromptState Protocol Status Provision ProvisionAtomic Credential Cleanup Journal JournalSystem ConfigPatch Receipt Security SecurityProvision SecurityRecover SecuritySafety SecurityFlows.

Local Open Scope engine_scope.

Definition PAM_PROMPT_SUDOERS_PATH : bytes := bs "/etc/sudoers.d/90-howy-pam-prompt".
Definition PAM_PROMPT_SUDOERS_BYTES : bytes := bs "Defaults !pam_silent" ++ lf.
(** [0o440] *)
Definition mode_440 : Z := 288.

Record PresenceReceiptTarget := mkReceiptTarget {
  rt_file : ObservedFile; rt_bytes : bytes; rt_receipt : ProvisioningReceiptV1 }.
Record PresenceTarget := mkPresenceTarget {
  tg_config_file : ObservedFile;
  tg_config_bytes : bytes;
  tg_config_disabled : bool;
  tg_receipt : option PresenceReceiptTarget;
}.
Definition is_changed (t : PresenceTarget) : bool :=
  differs (of_bytes (tg_config_file t)) (tg_config_bytes t)
  || from_option (λ r, differs (of_bytes (rt_file r)) (rt_bytes r)) false (tg_receipt t).

Inductive ManagedSudoersOverride := SoAbsent (parent : DirectoryIdentityV1) | SoExact (file : ObservedFile).
Inductive UnjournaledAtomicPublication :=
| PubCommitted (observation : AtomicWriteObservationV1)
| PubNotCommitted (error : SecurityError)
| PubUncertain (error : SecurityError).

(** [map_err] of a step, and [expect] of an option. *)
Definition emap_err {A} (f : SecurityError → SecurityError) (m : eng A) : eng A :=
  r <~ etry m; elift (map_err f r).
Definition eexpect {A} (o : option A) : eng A := match o with Some a => eret a | None => epanic end.
Definition after (what : string) (e : SecurityError) : bytes := bs what ++ show_security_error e.

Section presence.
  Context `{Sha256} `{ConfigEnv} `{PatchToml} `{TomlPretty}.
  Context `{SerdeJson VerifierResultV1} `{SerdeJson ProvisioningReceiptV1}.
  Context (turns : nat).

(** ** The new configuration and receipt *)

Definition serialize_presence_config (c : HowyConfig) : secresult bytes :=
  serialize_config c "presence config serialization failed" "presence config is too large".
Definition build_presence_config (c : HowyConfig) (p : ProvisionPresence) : secresult bytes :=
  serialize_presence_config (apply_presence_policy c p).

(** [receipt] with another patch and verifier. *)
Definition with_patch (r : ProvisioningReceiptV1) (patch : ConfigPatchV1) (v : VerifierReceipt)
    : ProvisioningReceiptV1 :=
  mkReceipt (r_schema_version r) (r_state r) (r_transaction_id r) (r_mode r) (r_epoch r)
    (r_credential_name r) (r_artifact r) patch (r_unit_credential r) (r_effective_units r) v.
Definition output_for (v : VerifierResultV1) (config_sha256 : Sha256Digest) : VerifierResultV1 :=
  mkVerifierResult config_sha256 (vr_daemon v) (vr_readiness v).

Definition build_receipted_presence_target (c : HowyConfig) (receipt : ProvisioningReceiptV1)
    (p : ProvisionPresence) : secresult (bytes * ProvisioningReceiptV1) :=
  let off := with_activation c true (embedding_mode (security c)) in
  disabled_bytes ← serialize_presence_config (apply_presence_policy off p);
  prepared ← contract (prepare_config_enable_patch disabled_bytes);
  let config_bytes := match r_state receipt with
                      | RsProvisionedDisabled => disabled_bytes
                      | RsEnabled => pp_enabled_bytes prepared
                      end in
  let patch := pp_contract prepared in
  let config_sha256 := match r_state receipt with
                       | RsProvisionedDisabled => pt_disabled_sha256 patch
                       | RsEnabled => pt_enabled_sha256 patch
                       end in
  verifier ← contract (verifier_receipt_new (output_for (ve_output (r_verifier receipt)) config_sha256));
  let rebuilt := with_patch receipt patch verifier in
  let expected := with_patch receipt patch
    (mkVerifierReceipt
       (output_for (ve_output (r_verifier receipt)) (vr_config_sha256 (ve_output verifier)))
       (ve_output_sha256 verifier)) in
  _ ← operation_if (differs rebuilt expected)
        "presence change altered an immutable Mode 1 receipt field";
  _ ← contract (receipt_validate rebuilt);
  Ok (config_bytes, rebuilt).

(** The patch token of an enabled configuration: the disabled one applies to it. *)
Definition validate_enabled_token (b : bytes) (patch : ConfigPatchV1) : secresult () :=
  let start := pt_byte_start patch in
  enabled_end ← required (checked_add (pt_byte_end patch) 1) "config patch offset overflow";
  _ ← operation_if (differs (slice_get b start enabled_end) (Some (bs "false")))
        "enabled config does not carry the receipted patch token";
  let off := take (Z.to_nat start) b ++ bs "true" ++ drop (Z.to_nat enabled_end) b in
  enabled ← contract (apply_receipted_config_patch off patch);
  operation_if (differs enabled b) "enabled config does not round-trip through the receipted patch".

Definition validate_receipted_config (config : ObservedFile) (receipt : ProvisioningReceiptV1)
    : secresult () :=
  _ ← validate_private config;
  parsed ← parse_config (of_bytes config) "receipted config is not UTF-8" "receipted config is invalid";
  _ ← valid_config parsed;
  let s := security parsed in
  _ ← operation_if
        (differs (embedding_mode s) AeadCached || negb (cfg_key_epoch s =? r_epoch receipt)
         || differs (credential_name (cached s)) (r_credential_name receipt)
         || differs (disabled (core parsed)) (bool_decide (r_state receipt = RsProvisionedDisabled))
         || differs (observed_sha256 config) (selected_receipt_config_sha256 receipt))
        "live config does not match the receipted Mode 1 identity";
  match r_state receipt with
  | RsProvisionedDisabled =>
      _ ← contract (apply_receipted_config_patch (of_bytes config) (r_config_patch receipt)); Ok ()
  | RsEnabled => validate_enabled_token (of_bytes config) (r_config_patch receipt)
  end.

Definition require_presence_controls_clear : eng () :=
  journal <~ ask (ReadFile SECURITY_JOURNAL_PATH MAX_JOURNAL_BYTES);
  _ <~ elift (refused_if (bool_decide (is_Some journal))
                "active provisioning journal blocks presence changes");
  guard <~ ask (ReadFile SECURITY_TRANSACTION_GUARD_PATH 256);
  elift (refused_if (bool_decide (is_Some guard)) "active provisioning guard blocks presence changes").

Definition canonical_presence_receipt (file : ObservedFile) : secresult (ObservedFile * ProvisioningReceiptV1) :=
  _ ← validate_private file;
  receipt ← map_err (λ _, Refused (bs "Mode 1 receipt is malformed")) (receipt_parse (of_bytes file));
  canonical ← contract (receipt_bytes receipt);
  _ ← refused_if (differs (of_bytes file) canonical) "Mode 1 receipt is not canonical";
  Ok (file, receipt).
Definition read_canonical_presence_receipt : eng (option (ObservedFile * ProvisioningReceiptV1)) :=
  file <~ ask (ReadFile SECURITY_RECEIPT_PATH MAX_RECEIPT_BYTES);
  match file with
  | None => eret None
  | Some file => receipt <~ elift (canonical_presence_receipt file); eret (Some receipt)
  end.

Definition parse_presence_config (file : ObservedFile) : secresult HowyConfig :=
  _ ← validate_private file;
  _ ← refused_if (negb (utf8_valid (of_bytes file))) "security config is not UTF-8";
  c ← map_err (λ _, Refused (bs "security config is malformed")) (toml_config (of_bytes file));
  _ ← map_err (λ e, Refused (bs "security config is invalid: " ++ bs e)) (validate c);
  Ok c.

(** An unreceipted mode-1 configuration is the disabled bootstrap, without anything of mode 1. *)
Definition require_bootstrap (c : HowyConfig) : eng () :=
  _ <~ elift (refused_if (negb (disabled (core c))) "unreceipted Mode 1 config must be disabled");
  artifact <~ ask (ReadFile MODE1_CREDENTIAL_PATH SYSTEMD_CREDENTIAL_TEXT_SIZE_MAX);
  dropin <~ ask (ReadFile MODE1_DROPIN_PATH MAX_DROPIN_BYTES);
  namespace_nonempty <~ ask NamespaceNonempty;
  elift (refused_if (bool_decide (is_Some artifact) || bool_decide (is_Some dropin) || namespace_nonempty)
           "unreceipted Mode 1 config has a Mode 1 object or record").

Definition receipted_target (config_file : ObservedFile) (c : HowyConfig) (receipt_file : ObservedFile)
    (receipt : ProvisioningReceiptV1) (p : ProvisionPresence) : secresult PresenceTarget :=
  _ ← validate_receipted_config config_file receipt;
  built ← build_receipted_presence_target c receipt p;
  let '(config_bytes, rebuilt) := built in
  b ← contract (receipt_bytes rebuilt);
  Ok (mkPresenceTarget config_file config_bytes (disabled (core c))
        (Some (mkReceiptTarget receipt_file b rebuilt))).
Definition plain_target (config_file : ObservedFile) (c : HowyConfig) (p : ProvisionPresence)
    : secresult PresenceTarget :=
  config_bytes ← build_presence_config c p;
  Ok (mkPresenceTarget config_file config_bytes (disabled (core c)) None).

Definition prepare_presence_target (p : ProvisionPresence) : eng PresenceTarget :=
  config <~ ask (ReadFile CONFIG_FILE MAX_CONFIG_BYTES);
  config_file <~ elift (ok_or config (Refused (bs "security config is missing")));
  c <~ elift (parse_presence_config config_file);
  receipt <~ read_canonical_presence_receipt;
  match embedding_mode (security c) with
  | Plaintext =>
      _ <~ elift (refused_if (bool_decide (is_Some receipt))
                    "active Mode 1 receipt conflicts with Mode 0 config");
      elift (plain_target config_file c p)
  | AeadCached =>
      match receipt with
      | Some (receipt_file, receipt) => elift (receipted_target config_file c receipt_file receipt p)
      | None => _ <~ require_bootstrap c; elift (plain_target config_file c p)
      end
  | AeadEphemeral => efail (Refused (bs "security mode 2 does not support presence changes"))
  | ReservedFuture =>
      efail (Refused (bs "unsupported security mode does not support presence changes"))
  end.

(** ** Publications without a journal *)

Definition publish_unjournaled_atomic_classified (plan : AtomicWritePlanV1) (b : bytes)
    : eng UnjournaledAtomicPublication :=
  staged <~ etry (ask (CreateAtomicStage plan b));
  match staged with
  | Err error => eret (PubNotCommitted error)
  | Ok staged =>
      committed <~ etry (ask (CommitAtomicStage plan staged));
      match committed with
      | Ok observation => eret (PubCommitted observation)
      | Err publication_error =>
          reconciled <~ etry (ask (ReconcileAtomicWrite plan (Some staged)));
          eret (match reconciled with
                | Ok (WasCommitted observation) => PubCommitted observation
                | Ok NotCommitted => PubNotCommitted publication_error
                | Err reconciliation_error =>
                    PubUncertain (Uncertain
                      (after "atomic publication failed and could not be reconciled: " publication_error
                       ++ after "; " reconciliation_error))
                end)
      end
  end.
Definition publish_unjournaled_atomic (plan : AtomicWritePlanV1) (b : bytes)
    : eng AtomicWriteObservationV1 :=
  publication <~ publish_unjournaled_atomic_classified plan b;
  match publication with
  | PubCommitted observation => eret observation
  | PubNotCommitted error | PubUncertain error => efail error
  end.

Definition verify_presence_publication (path : bytes) (maximum : Z) (expected : bytes)
    (publication : AtomicWriteObservationV1) : eng () :=
  file <~ read_private path maximum "published presence file disappeared";
  elift (operation_if (differs (of_bytes file) expected
                       || differs (atomic_identity file) (wo_target publication))
           "published presence file bytes or metadata differ from target").

Definition prepare_presence_exchange_plan (transaction_id path : bytes) (current : ObservedFile)
    (b : bytes) : eng AtomicWritePlanV1 :=
  plan <~ prepare_atomic_plan transaction_id path b 0 0 mode_600 None false;
  _ <~ elift (operation_if (differs (pl_operation plan) Exchange
                            || differs (pl_expected_target plan) (TargetPresent (atomic_identity current)))
                "presence publication target changed while plans were prepared");
  eret plan.

(** The commit of a rollback, reconciled like a publication. *)
Definition commit_rollback (plan : AtomicWritePlanV1) (staged : AtomicFileIdentityV1)
    : eng AtomicWriteObservationV1 :=
  committed <~ etry (ask (CommitAtomicStage plan staged));
  match committed with
  | Ok observation => eret observation
  | Err error =>
      reconciled <~ etry (ask (ReconcileAtomicWrite plan (Some staged)));
      match reconciled with
      | Ok (WasCommitted observation) => eret observation
      | Ok NotCommitted => efail error
      | Err reconciliation =>
          efail (Uncertain (after "config rollback failed and could not be reconciled: " error
                            ++ after "; " reconciliation))
      end
  end.

Definition rollback_presence_config (config_plan : AtomicWritePlanV1)
    (publication : AtomicWriteObservationV1) (old_config : ObservedFile) : eng () :=
  let old_identity := atomic_identity old_config in
  _ <~ elift (uncertain_if (differs (wo_backup publication) (Some old_identity))
                "published config backup is not the exact old config");
  rollback_plan <~ elift (contract (plan_new (pl_transaction_id config_plan) CONFIG_FILE
                      (pl_parent_directory config_plan) (TargetPresent (wo_target publication)) 0 0
                      mode_600 (Some (fm_restorable_timestamps (of_metadata old_config)))
                      (of_bytes old_config) Exchange));
  _ <~ elift (uncertain_if (bool_decide (pl_staging_path rollback_plan = pl_staging_path config_plan))
                "config rollback stage unexpectedly aliases the published backup");
  rollback_stage <~ ask (CreateAtomicStage rollback_plan (of_bytes old_config));
  rollback <~ commit_rollback rollback_plan rollback_stage;
  _ <~ verify_presence_publication CONFIG_FILE MAX_CONFIG_BYTES (of_bytes old_config) rollback;
  _ <~ ask (RemoveAtomicBackup rollback_plan rollback);
  ask (RemoveFileExact (pl_staging_path config_plan) old_identity).

(** ** Configuration and receipt *)

(** The receipt goes after the configuration; if it does not, the configuration goes back. *)
Definition publish_receipt (target : PresenceTarget) (config_plan : AtomicWritePlanV1)
    (config_publication : AtomicWriteObservationV1) (receipt_plan : option AtomicWritePlanV1)
    : eng (option AtomicWriteObservationV1) :=
  match tg_receipt target, receipt_plan with
  | Some receipt, Some plan =>
      publication <~ publish_unjournaled_atomic_classified plan (rt_bytes receipt);
      match publication with
      | PubCommitted publication => eret (Some publication)
      | PubNotCommitted publication_error =>
          rollback <~ etry (rollback_presence_config config_plan config_publication (tg_config_file target));
          match rollback with
          | Ok _ => efail publication_error
          | Err rollback_error =>
              efail (Uncertain (after "receipt publication failed: " publication_error
                                ++ after "; exact old config rollback also failed: " rollback_error))
          end
      | PubUncertain error => efail error
      end
  | None, None => eret None
  | _, _ => efail (Operation (bs "presence receipt target and publication plan disagree"))
  end.

Definition verify_receipt_publication (target : PresenceTarget)
    (receipt_publication : option AtomicWriteObservationV1) : eng () :=
  match tg_receipt target, receipt_publication with
  | Some receipt, Some publication =>
      _ <~ verify_presence_publication SECURITY_RECEIPT_PATH MAX_RECEIPT_BYTES (rt_bytes receipt)
             publication;
      live <~ elift (contract (receipt_parse (rt_bytes receipt)));
      elift (operation_if (differs live (rt_receipt receipt))
               "published receipt structure differs from target")
  | _, _ => eret ()
  end.

Definition apply_presence_change (target : PresenceTarget) (config_plan : AtomicWritePlanV1)
    (receipt_plan : option AtomicWritePlanV1) : eng () :=
  _ <~ stop_units_under_one_deadline turns;
  config_publication <~ publish_unjournaled_atomic config_plan (tg_config_bytes target);
  receipt_publication <~ publish_receipt target config_plan config_publication receipt_plan;
  _ <~ verify_presence_publication CONFIG_FILE MAX_CONFIG_BYTES (tg_config_bytes target)
         config_publication;
  _ <~ verify_receipt_publication target receipt_publication;
  _ <~ match receipt_plan, receipt_publication with
       | Some plan, Some publication => ask (RemoveAtomicBackup plan publication)
       | _, _ => eret ()
       end;
  ask (RemoveAtomicBackup config_plan config_publication).

Definition restore_presence_units (service socket : StableUnitState) : eng () :=
  failures <~ (if bool_decide (rollback_target socket = Some ActiveListening)
               then noting (bs "socket start: ") (ask (StartUnit UkSocket)) [] else eret []);
  failures <~ (if bool_decide (rollback_target service = Some ActiveRunning)
               then noting (bs "service start: ") (ask (StartUnit UkService)) failures
               else eret failures);
  failures <~ noting (bs "stable state verification: ") (verify_restored_targets turns service socket)
                failures;
  if bool_decide (failures = []) then eret () else efail (Uncertain (join_with (bs "; ") failures)).

(** The activity that can be restored. *)
Definition restorable_activity (off : bool) (service socket : StableUnitState) : secresult () :=
  let active := bool_decide (rollback_target service = Some ActiveRunning) in
  _ ← refused_if (active && bool_decide (rollback_target socket = Some InactiveDead))
        "active howy.service with inactive howy.socket is unsupported";
  refused_if (off && active) "disabled config with active howy.service cannot preserve prior activity".

Definition apply_presence_target (target : PresenceTarget) (transaction_id : bytes) : eng () :=
  config_plan <~ prepare_presence_exchange_plan transaction_id CONFIG_FILE (tg_config_file target)
                   (tg_config_bytes target);
  receipt_plan <~ match tg_receipt target with
                  | Some receipt =>
                      plan <~ prepare_presence_exchange_plan transaction_id SECURITY_RECEIPT_PATH
                                (rt_file receipt) (rt_bytes receipt);
                      eret (Some plan)
                  | None => eret None
                  end;
  '(service, socket) <~ stable_unit_pair turns;
  _ <~ elift (restorable_activity (tg_config_disabled target) service socket);
  mutation <~ etry (apply_presence_change target config_plan receipt_plan);
  restoration <~ etry (restore_presence_units service socket);
  match mutation, restoration with
  | Ok _, Ok _ => eret ()
  | Err error, Ok _ => efail error
  | Ok _, Err restoration =>
      efail (Uncertain (after "presence policy was written but prior unit activity could not be restored: "
                          restoration))
  | Err error, Err restoration =>
      efail (Uncertain (show_security_error error
                        ++ after "; prior unit activity could not be restored: " restoration))
  end.

(** ** The sudoers override *)

Definition observe_managed_sudoers_override : eng ManagedSudoersOverride :=
  observation <~ ask (ObserveAtomicTarget PAM_PROMPT_SUDOERS_PATH (len PAM_PROMPT_SUDOERS_BYTES));
  let parent := to_parent_directory observation in
  _ <~ elift (operation_if
         (differs (di_path parent) (bs "/etc/sudoers.d") || differs (di_object_type parent) FoDirectory
          || negb (di_uid parent =? 0) || negb (di_gid parent =? 0)
          || negb (Z.land (di_permissions parent) mode_022 =? 0) || (di_link_count parent =? 0)
          || (di_device_id parent =? 0) || (di_inode parent =? 0))
         "managed sudoers parent metadata is unsafe");
  match to_target observation with
  | None => eret (SoAbsent parent)
  | Some f =>
      let m := of_metadata f in
      let exact :=
        bool_decide (of_bytes f = PAM_PROMPT_SUDOERS_BYTES)
        && bool_decide (fm_object_type m = FoRegularFile)
        && (fm_uid m =? 0) && (fm_gid m =? 0) && (fm_permissions m =? mode_440)
        && (fm_link_count m =? 1) && (fm_byte_length m =? len PAM_PROMPT_SUDOERS_BYTES)
        && negb (of_device_id f =? 0) && negb (of_inode f =? 0)
        && (of_parent_device_id f =? di_device_id parent) && (of_parent_inode f =? di_inode parent)
        && (of_parent_uid f =? di_uid parent) && (of_parent_gid f =? di_gid parent)
        && (of_parent_permissions f =? di_permissions parent)
        && (of_parent_link_count f =? di_link_count parent) in
      _ <~ elift (operation_if (negb exact)
             "managed sudoers path has differing content, metadata, or link state");
      eret (SoExact f)
  end.

Definition cleanup_created_sudoers_after_error (error : SecurityError)
    (created : option AtomicFileIdentityV1) : eng SecurityError :=
  match created with
  | None => eret error
  | Some created =>
      cleanup <~ etry
        (_ <~ ask (RemoveFileExact PAM_PROMPT_SUDOERS_PATH created);
         observed <~ observe_managed_sudoers_override;
         elift (uncertain_if (match observed with SoExact _ => true | SoAbsent _ => false end)
                  "newly created managed sudoers override remained after cleanup"));
      eret (match cleanup with
            | Ok _ => error
            | Err cleanup =>
                Uncertain (after "confirmation failed: " error
                  ++ after "; exact newly created managed sudoers override cleanup also failed: " cleanup)
            end)
  end.
(** [return Err(self.cleanup_created_sudoers_after_error(error, created))] *)
Definition fail_after_cleanup {A} (error : SecurityError) (created : option AtomicFileIdentityV1)
    : eng A :=
  error <~ cleanup_created_sudoers_after_error error created; efail error.

Definition valid_override_plan (plan : AtomicWritePlanV1) : bool :=
  bool_decide (pl_target_path plan = PAM_PROMPT_SUDOERS_PATH)
  && bool_decide (pl_operation plan = NoReplace)
  && bool_decide (pl_expected_target plan = TargetAbsent)
  && bool_decide (pl_backup_path plan = None)
  && (pl_uid plan =? 0) && (pl_gid plan =? 0) && (pl_permissions plan =? mode_440)
  && bool_decide (pl_timestamps plan = None)
  && (pl_byte_length plan =? len PAM_PROMPT_SUDOERS_BYTES)
  && bool_decide (pl_bytes_sha256 plan = digest_from_bytes PAM_PROMPT_SUDOERS_BYTES).

Definition create_managed_sudoers_override (transaction_id : bytes) (parent : DirectoryIdentityV1)
    : eng AtomicFileIdentityV1 :=
  plan <~ elift (contract (plan_new transaction_id PAM_PROMPT_SUDOERS_PATH parent TargetAbsent 0 0
             mode_440 None PAM_PROMPT_SUDOERS_BYTES NoReplace));
  _ <~ elift (operation_if (negb (valid_override_plan plan))
                "managed sudoers publication plan is invalid");
  publication <~ publish_unjournaled_atomic plan PAM_PROMPT_SUDOERS_BYTES;
  let identity := wo_target publication in
  verification <~ etry
    (observed <~ observe_managed_sudoers_override;
     elift (operation_if
              (negb (match observed with
                     | SoExact f => bool_decide (atomic_identity f = identity)
                     | SoAbsent _ => false
                     end))
              "created managed sudoers override failed exact verification"));
  match verification with
  | Err error => fail_after_cleanup error (Some identity)
  | Ok _ =>
      removal <~ etry (ask (RemoveAtomicBackup plan publication));
      match removal with
      | Err error => fail_after_cleanup error (Some identity)
      | Ok _ => eret identity
      end
  end.

Definition retained (e : SecurityError) : SecurityError :=
  Uncertain (after "presence is off but the differing managed sudoers path was retained: " e).
Definition remove_managed_sudoers_override : eng bool :=
  preliminary <~ emap_err retained
    (ask (ReadFile PAM_PROMPT_SUDOERS_PATH (len PAM_PROMPT_SUDOERS_BYTES)));
  match preliminary with
  | None => eret false
  | Some _ =>
      observed <~ emap_err retained observe_managed_sudoers_override;
      match observed with
      | SoAbsent _ => eret false
      | SoExact f =>
          _ <~ emap_err
                 (λ e, Uncertain (after "presence is off but exact managed sudoers override removal failed: " e))
                 (ask (RemoveFileExact PAM_PROMPT_SUDOERS_PATH (atomic_identity f)));
          left_over <~ emap_err
            (λ e, Uncertain (after "presence is off but managed sudoers override absence could not be verified: " e))
            observe_managed_sudoers_override;
          match left_over with
          | SoAbsent _ => eret true
          | SoExact _ =>
              efail (Uncertain (bs "presence is off but managed sudoers override remained after removal"))
          end
      end
  end.

(** ** The command *)

Definition confirm_message (changed created : bool) : bytes :=
  bs (match changed, created with
      | true, true => "Presence policy set to confirm; created managed sudoers override."
      | true, false =>
          "Presence policy set to confirm; retained and validated managed sudoers override."
      | false, true => "Presence policy already set to confirm; created managed sudoers override."
      | false, false =>
          "Presence policy already set to confirm; retained and validated managed sudoers override."
      end).
Definition off_message (changed removed : bool) : bytes :=
  bs (match changed, removed with
      | true, true => "Presence policy set to off; removed managed sudoers override."
      | true, false => "Presence policy set to off; managed sudoers override was absent."
      | false, true => "Presence policy already set to off; removed managed sudoers override."
      | false, false =>
          "Presence policy already set to off; managed sudoers override was absent, no changes made."
      end).

(** The part of [set_presence_confirm] whose failure takes a created override back. *)
Definition confirm_change (target : PresenceTarget) (transaction_id : option bytes) : eng bool :=
  _ <~ emap_err
         (λ e, Refused (after "full sudoers validation failed; presence was not changed: " e))
         (ask (RunCheckedCommand visudo_validation_command));
  if is_changed target then
    id <~ eexpect transaction_id;
    _ <~ apply_presence_target target id;
    eret true
  else eret false.

Definition set_presence_confirm (target : PresenceTarget) : eng SecurityOutcome :=
  sudoers <~ emap_err
    (λ e, Refused (after "managed sudoers override is unavailable or differs and was retained: " e))
    observe_managed_sudoers_override;
  transaction_id <~
    (if is_changed target || match sudoers with SoAbsent _ => true | SoExact _ => false end
     then id <~ ask NewTransactionId; eret (Some id) else eret None);
  created <~ match sudoers with
             | SoAbsent parent =>
                 id <~ eexpect transaction_id;
                 identity <~ create_managed_sudoers_override id parent;
                 eret (Some identity)
             | SoExact _ => eret None
             end;
  result <~ etry (confirm_change target transaction_id);
  changed <~ match result with
             | Ok changed => eret changed
             | Err error => fail_after_cleanup error created
             end;
  eret (mkOutcome [confirm_message changed (bool_decide (is_Some created))] None).

Definition set_presence_off (target : PresenceTarget) : eng SecurityOutcome :=
  changed <~ (if is_changed target then
                id <~ ask NewTransactionId; _ <~ apply_presence_target target id; eret true
              else eret false);
  removed <~ remove_managed_sudoers_override;
  eret (mkOutcome [off_message changed removed] None).

Definition set_presence (p : ProvisionPresence) : eng SecurityOutcome :=
  _ <~ ask RequireRoot;
  _ <~ ask AcquireLock;
  _ <~ require_presence_controls_clear;
  _ <~ ask ValidatePackageMarker;
  target <~ prepare_presence_target p;
  match p with
  | PpConfirm => set_presence_confirm target
  | PpOff => set_presence_off target
  end.
End presence.

(** ** The files *)

(** What files hold, what a staged file holds, what the last target of a commit held before it,
    and the units. *)
Record Files := mkFiles {
  f_at : bytes → option bytes;
  f_staged : AtomicFileIdentityV1 → option bytes;
  f_before : option bytes;
  f_service : unit_control;
  f_socket : unit_control;
}.
Definition put (w : Files) (path : bytes) (content : option bytes) : Files :=
  mkFiles (λ p, if bool_decide (p = path) then content else f_at w p) (f_staged w) (f_before w)
    (f_service w) (f_socket w).
Definition stage (w : Files) (id : AtomicFileIdentityV1) (content : bytes) : Files :=
  mkFiles (f_at w) (λ i, if bool_decide (i = id) then Some content else f_staged w i) (f_before w)
    (f_service w) (f_socket w).
Definition remember (w : Files) (path : bytes) : Files :=
  mkFiles (f_at w) (f_staged w) (f_at w path) (f_service w) (f_socket w).
Definition with_control (w : Files) (u : UnitKind) (c : unit_control) : Files :=
  match u with
  | UkService => mkFiles (f_at w) (f_staged w) (f_before w) c (f_socket w)
  | UkSocket => mkFiles (f_at w) (f_staged w) (f_before w) (f_service w) c
  end.

(** Only one process holds the lock, so files change by the engine's calls alone. A commit puts
    what was staged in place, or fails with it done or not; reconciling tells which, or fails. *)
Definition files_answers (w : Files) (t : Z) {B} (c : Call B) : option B → Files → Z → Prop :=
  match c in Call B return option B → Files → Z → Prop with
  | ReadFile path _ => λ r w' t', t ≤ t' ∧ w' = w ∧ ∀ f, r = Some (Ok f) → of_bytes <$> f = f_at w path
  | LoadJournal => λ r w' t', t ≤ t' ∧ w' = w
      ∧ ∀ f, r = Some (Ok f) → of_bytes <$> f = f_at w SECURITY_JOURNAL_PATH
  | ObserveAtomicTarget path _ => λ r w' t', t ≤ t' ∧ w' = w
      ∧ ∀ o, r = Some (Ok o) → of_bytes <$> to_target o = f_at w path
  | CreateAtomicStage _ b => λ r w' t', t ≤ t' ∧
      w' = match r with Some (Ok id) => stage w id b | _ => w end
  | CommitAtomicStage plan id => λ r w' t', t ≤ t' ∧
      let before := remember w (pl_target_path plan) in
      let done := put before (pl_target_path plan) (f_staged w id) in
      match r with Some (Ok _) => w' = done | _ => w' = before ∨ w' = done end
  | ReconcileAtomicWrite plan (Some id) => λ r w' t', t ≤ t' ∧
      let undone := put w (pl_target_path plan) (f_before w) in
      let done := put w (pl_target_path plan) (f_staged w id) in
      match r with
      | Some (Ok (WasCommitted _)) => w' = done
      | Some (Ok NotCommitted) => w' = undone
      | _ => w' = w ∨ w' = undone ∨ w' = done
      end
  | RemoveFileExact path _ => λ r w' t', t ≤ t' ∧
      match r with Some (Ok _) => w' = put w path None | _ => w' = w ∨ w' = put w path None end
  | StopUnit u => λ r w' t', t ≤ t' ∧
      w' = with_control w u (match r with Some (Ok _) => StopDone | _ => StopTried end)
  | StartUnit u => λ _ w' t', t ≤ t' ∧ w' = with_control w u MayRun
  | MonotonicMillis => λ r w' t', w' = w ∧ t ≤ t' ∧ ∀ now, r = Some now → now = t' ∧ now < 2 ^ 63
  | SettleStep => λ r w' t', w' = w ∧ t ≤ t' ∧ (r = Some (Ok ()) → t < t')
  | _ => λ _ w' t', w' = w ∧ t ≤ t'
  end.

(** The files that matter: the configuration, the receipt, the sudoers override, the credential and
    the drop-in, and those of a transaction. *)
Definition tracked : list bytes :=
  [CONFIG_FILE; SECURITY_RECEIPT_PATH; PAM_PROMPT_SUDOERS_PATH; MODE1_CREDENTIAL_PATH;
   MODE1_DROPIN_PATH; SECURITY_JOURNAL_PATH; SECURITY_TRANSACTION_GUARD_PATH].
(** Two of them are different, and one is among them, by computation. *)
Ltac distinct := let Heq := fresh in intros Heq; vm_compute in Heq; discriminate Heq.
Ltac tracked_path := apply (bool_decide_eq_true_1 _); vm_compute; reflexivity.
Definition no_transaction (w : Files) : Prop :=
  f_at w SECURITY_JOURNAL_PATH = None ∧ f_at w SECURITY_TRANSACTION_GUARD_PATH = None.
Definition overridden (w : Files) : Prop :=
  f_at w PAM_PROMPT_SUDOERS_PATH = Some PAM_PROMPT_SUDOERS_BYTES.
Definition both_stopped (w : Files) : Prop := f_service w = StopDone ∧ f_socket w = StopDone.

(** ** Machines of files *)

(** The machine of these files, whatever is owed to it. *)
Section owing.
  Context (owed : Files → ∀ B, Call B → Prop).
Definition files_machine : Machine Files :=
  {| answers := @files_answers; allowed := owed; control := with_control |}.
#[local] Existing Instance files_machine.

Lemma files_laws :
  (∀ w, owed w _ MonotonicMillis) → (∀ w, owed w _ SettleStep) → (∀ w u, owed w _ (ObserveUnit u))
  → (∀ w name, owed w _ (Boundary name)) → (∀ w u, owed w _ (StopUnit u)) → MachineLaws Files.
Proof.
  intros. split; try done; try (simpl; tauto). intros w t B []; simpl; try tauto. case_match; tauto.
Qed.

Lemma ewp_read path maximum Φ e w :
  owed w _ (ReadFile path maximum) → (∀ f, of_bytes <$> f = f_at w path → Φ (Some (Ok f)) e w)
  → (∀ err, Φ (Some (Err err)) e w) → Φ None e w → ewp (ask (ReadFile path maximum)) Φ e w.
Proof.
  intros Hc Hok Herr Hnone. apply ewp_ask; [done|]. intros t r w' t' (_ & -> & Hr).
  destruct r as [[f|err]|]; auto.
Qed.
Lemma ewp_load Φ e w :
  owed w _ LoadJournal → (∀ f, of_bytes <$> f = f_at w SECURITY_JOURNAL_PATH → Φ (Some (Ok f)) e w)
  → (∀ err, Φ (Some (Err err)) e w) → Φ None e w → ewp (ask LoadJournal) Φ e w.
Proof.
  intros Hc Hok Herr Hnone. apply ewp_ask; [done|]. intros t r w' t' (_ & -> & Hr).
  destruct r as [[f|err]|]; auto.
Qed.
Lemma ewp_observe path maximum Φ e w :
  owed w _ (ObserveAtomicTarget path maximum)
  → (∀ o, of_bytes <$> to_target o = f_at w path → Φ (Some (Ok o)) e w)
  → (∀ err, Φ (Some (Err err)) e w) → Φ None e w → ewp (ask (ObserveAtomicTarget path maximum)) Φ e w.
Proof.
  intros Hc Hok Herr Hnone. apply ewp_ask; [done|]. intros t r w' t' (_ & -> & Hr).
  destruct r as [[f|err]|]; auto.
Qed.
Lemma ewp_map_err {A} f (m : eng A) Φ e w :
  ewp m (λ r, Φ (map_err f <$> r)) e w → ewp (emap_err f m) Φ e w.
Proof.
  intros Hm. apply ewp_try_bind. eapply ewp_mono; [exact Hm|]. intros [r|] e' w' HΦ; [|done].
  by apply ewp_lift_any.
Qed.
End owing.

Section promises.
  Context `{Sha256} `{ConfigEnv} `{PatchToml} `{TomlPretty}.
  Context `{SerdeJson VerifierResultV1} `{SerdeJson ProvisioningReceiptV1}.
  (** The policy asked for, and the configuration and the receipt there were. *)
  Context (p : ProvisionPresence) (config0 receipt0 : option bytes).

(** The configuration and the receipt of the policy, made of those there were. *)
Definition requested (config : bytes) (receipt : option bytes) : Prop :=
  ∃ b c, config0 = Some b ∧ toml_config b = Ok c ∧ validate c = Ok ()
    ∧ match receipt0 with
      | None => build_presence_config c p = Ok config ∧ receipt = None
      | Some rb => ∃ r r', receipt_parse rb = Ok r
          ∧ build_receipted_presence_target c r p = Ok (config, r')
          ∧ ∃ b', receipt_bytes r' = Ok b' ∧ receipt = Some b'
      end.
Definition changed (w : Files) : Prop :=
  ∃ config, f_at w CONFIG_FILE = Some config ∧ requested config (f_at w SECURITY_RECEIPT_PATH).
Definition unchanged (w : Files) : Prop :=
  f_at w CONFIG_FILE = config0 ∧ f_at w SECURITY_RECEIPT_PATH = receipt0.

(** Nothing is written, removed or started during a transaction. The override is written for
    confirmation only; the configuration and the receipt change with both units stopped, and with
    the override in place if they ask for confirmation; without confirmation the override goes
    after they have changed. *)
Definition publishable (w : Files) (path : bytes) : Prop :=
  no_transaction w
  ∧ (path = PAM_PROMPT_SUDOERS_PATH ∧ p = PpConfirm
     ∨ (path = CONFIG_FILE ∨ path = SECURITY_RECEIPT_PATH)
       ∧ both_stopped w ∧ (p = PpConfirm → overridden w)).
Definition presence_allowed (w : Files) {B} (c : Call B) : Prop :=
  match c with
  | CreateAtomicStage plan _ | CommitAtomicStage plan _ | ReconcileAtomicWrite plan _ =>
      publishable w (pl_target_path plan)
  | RemoveFileExact path _ =>
      no_transaction w
      ∧ (path ∉ tracked
         ∨ path = PAM_PROMPT_SUDOERS_PATH ∧ (p = PpOff → changed w))
  | StartUnit _ => no_transaction w
  | GenerateKey | EncryptCredential _ _ | CreateGuard _ _ | RemoveGuard _ _ | PersistJournal _ _
  | RemoveJournal _ _ | EnsureSecurityDirectory _ | RollbackSecurityDirectories _
  | RollbackRecordedPrefix _ | QuarantineArtifact _ _ | RestoreQuarantined _ _
  | UnlinkQuarantined _ _ => False
  | _ => True
  end.

#[local] Instance presence_machine : Machine Files := files_machine (@presence_allowed).
#[local] Instance presence_laws : MachineLaws Files.
Proof. by apply files_laws. Qed.

(** How a change ends: as asked for and with the override that goes with it; or with an error that
    is certain and leaves both files old or both new, and the override as it was; or uncertain. *)
Definition presence_ended (override0 : option bytes) (r : option (secresult SecurityOutcome)) (w : Files)
    : Prop :=
  match r with
  | Some (Ok _) => changed w
      ∧ f_at w PAM_PROMPT_SUDOERS_PATH
        = match p with PpConfirm => Some PAM_PROMPT_SUDOERS_BYTES | PpOff => None end
  | Some (Err (Uncertain _)) | None => True
  | Some (Err _) =>
      (unchanged w ∨ changed w) ∧ f_at w PAM_PROMPT_SUDOERS_PATH = override0
  end.

(** ** Steps *)

(** Everything tracked but one file is as it was, and so are the units. *)
Definition agree_but (path : bytes) (w w' : Files) : Prop :=
  (∀ q, q ∈ tracked → q ≠ path → f_at w' q = f_at w q)
  ∧ f_service w' = f_service w ∧ f_socket w' = f_socket w.
Lemma agree_but_refl path w : agree_but path w w.
Proof. done. Qed.
Lemma agree_but_put path w w' content : agree_but path w w' → agree_but path w (put w' path content).
Proof. intros (Hq & ? & ?). split; [|done]. intros q Hin Hne. simpl. rewrite bool_decide_eq_false_2 by done. auto. Qed.
Lemma agree_but_trans path w w' w'' : agree_but path w w' → agree_but path w' w'' → agree_but path w w''.
Proof. intros (Hq & ? & ?) (Hq' & ? & ?). split; [|split; congruence]. intros q Hin Hne. by rewrite Hq', Hq. Qed.
Lemma put_at w path content : f_at (put w path content) path = content.
Proof. simpl. by rewrite bool_decide_eq_true_2. Qed.
Lemma put_other w path content q : q ≠ path → f_at (put w path content) q = f_at w q.
Proof. intros Hq. simpl. by rewrite bool_decide_eq_false_2. Qed.
Lemma stage_at w id content : f_staged (stage w id content) id = Some content.
Proof. simpl. by rewrite bool_decide_eq_true_2. Qed.

(** The paths are different ones. *)
Lemma tracked_distinct : NoDup tracked.
Proof. apply (bool_decide_eq_true_1 _). vm_compute. reflexivity. Qed.

Lemma no_transaction_but path w w' :
  agree_but path w w' → path ≠ SECURITY_JOURNAL_PATH → path ≠ SECURITY_TRANSACTION_GUARD_PATH
  → no_transaction w → no_transaction w'.
Proof.
  intros (Hq & _) Hj Hg [??]. split; rewrite Hq; try done; tracked_path.
Qed.
Lemma publishable_path w path :
  publishable w path → path ≠ SECURITY_JOURNAL_PATH ∧ path ≠ SECURITY_TRANSACTION_GUARD_PATH.
Proof. intros [_ [[-> _]|[[-> | ->] _]]]; split; distinct. Qed.
Lemma publishable_but w w' path : agree_but path w w' → publishable w path → publishable w' path.
Proof.
  intros Ha Hp. destruct (publishable_path _ _ Hp) as [Hj Hg]. destruct Hp as [Hn Hp].
  split; [by eapply no_transaction_but|]. destruct Ha as (Hq & Hs & Hk).
  destruct Hp as [?|(Hpath & [??] & Ho)]; [by left|right]. split; [done|]. split; [split; congruence|].
  intros Hc. unfold overridden. rewrite Hq; [by apply Ho|tracked_path|]. destruct Hpath as [-> | ->]; distinct.
Qed.

(** What a step that stops with an error leaves to say: the error is uncertain. *)
Definition uncertain (err : SecurityError) : Prop := ∃ m, err = Uncertain m.

(** ** Publications *)

(** A commit of what was staged, and the look at it if it fails. *)
Lemma commit_wp {A} plan id b (f : AtomicWriteObservationV1 → eng A)
    (g : SecurityError → secresult AtomicWriteReconciliation → eng A) Φ e w :
  let path := pl_target_path plan in
  publishable w path → f_staged w id = Some b
  → (∀ o w', agree_but path w w' → f_at w' path = Some b → ewp (f o) Φ e w')
  → (∀ err o w', agree_but path w w' → f_at w' path = Some b → ewp (g err (Ok (WasCommitted o))) Φ e w')
  → (∀ err w', agree_but path w w' → f_at w' path = f_at w path → ewp (g err (Ok NotCommitted)) Φ e w')
  → (∀ err err' w', agree_but path w w' → ewp (g err (Err err')) Φ e w')
  → (∀ w', Φ None e w')
  → ewp (committed <~ etry (ask (CommitAtomicStage plan id));
         match committed with
         | Ok observation => f observation
         | Err error =>
             reconciled <~ etry (ask (ReconcileAtomicWrite plan (Some id)));
             g error reconciled
         end) Φ e w.
Proof.
  intros path Hp Hs Hok Hcom Hnot Hunc Hnone. apply ewp_try_bind, ewp_ask; [exact Hp|].
  intros t r w1 t' [_ Hr]. cbv zeta in Hr. rewrite Hs in Hr.
  assert (agree_but path w w1) as Ha.
  { destruct r as [[o|err]|]; [subst w1|destruct Hr as [-> | ->]|destruct Hr as [-> | ->]];
      first [done|by apply agree_but_put]. }
  destruct r as [[o|err]|]; [subst w1; apply Hok; [done|apply put_at]| |apply Hnone].
  assert (f_staged w1 id = Some b) as Hs1 by (by destruct Hr as [-> | ->]).
  assert (f_before w1 = f_at w path) as Hb by (by destruct Hr as [-> | ->]).
  apply ewp_try_bind, ewp_ask; [by eapply publishable_but|].
  intros t1 r w2 t1' [_ Hr']. cbv zeta in Hr'. rewrite Hs1, Hb in Hr'.
  destruct r as [[[|o]|err']|]; [subst w2|subst w2| |apply Hnone].
  - apply Hnot; [by apply agree_but_put|apply put_at].
  - apply Hcom; [by apply agree_but_put|apply put_at].
  - apply Hunc. destruct Hr' as [->|[-> | ->]]; [done|by apply agree_but_put..].
Qed.
Lemma publish_classified_wp plan b Φ e w :
  let path := pl_target_path plan in
  publishable w path
  → (∀ o w', agree_but path w w' → f_at w' path = Some b → Φ (Some (Ok (PubCommitted o))) e w')
  → (∀ err w', agree_but path w w' → f_at w' path = f_at w path → Φ (Some (Ok (PubNotCommitted err))) e w')
  → (∀ err w', agree_but path w w' → uncertain err → Φ (Some (Ok (PubUncertain err))) e w')
  → (∀ w', Φ None e w')
  → ewp (publish_unjournaled_atomic_classified plan b) Φ e w.
Proof.
  intros path Hp Hcom Hnot Hunc Hnone. apply ewp_try_bind, ewp_ask; [exact Hp|].
  intros t r w1 t' [_ ->]. destruct r as [[id|err]|]; [| by apply ewp_ret, Hnot|done].
  assert (agree_but path w (stage w id b)) as Ha by done.
  eapply (commit_wp plan id b); [by eapply publishable_but|apply stage_at|..|done];
    intros; apply ewp_ret; eauto using agree_but_trans. apply Hunc; [done|by eexists].
Qed.
Lemma publish_wp plan b Φ e w :
  let path := pl_target_path plan in
  publishable w path
  → (∀ o w', agree_but path w w' → f_at w' path = Some b → Φ (Some (Ok o)) e w')
  → (∀ err w', agree_but path w w' → f_at w' path = f_at w path ∨ uncertain err
       → Φ (Some (Err err)) e w')
  → (∀ w', Φ None e w')
  → ewp (publish_unjournaled_atomic plan b) Φ e w.
Proof.
  intros path Hp Hok Herr Hnone. apply ewp_bind_any, publish_classified_wp; [done|..|done].
  - intros o w' ??. apply ewp_ret. auto.
  - intros err w' ??. apply ewp_fail. auto.
  - intros err w' ??. apply ewp_fail. auto.
Qed.

(** A plan as it is prepared for a path: its stage is none of the tracked files. *)
Definition planned_for (path : bytes) (plan : AtomicWritePlanV1) : Prop :=
  pl_target_path plan = path ∧ (path = CONFIG_FILE → pl_staging_path plan ∉ tracked).

Lemma config_stage_untracked id digest staging :
  canonical_atomic_staging_path id CONFIG_FILE digest = Ok staging → staging ∉ tracked.
Proof.
  unfold canonical_atomic_staging_path. intros Hs. inv_ok. breflect.
  match goal with Hp : parent_path CONFIG_FILE = Some _ |- _ => vm_compute in Hp; injection Hp as <- end.
  unfold tracked. rewrite !not_elem_of_cons. subst staging.
  split_and!; try (intros Heq; vm_compute in Heq; discriminate Heq). apply not_elem_of_nil.
Qed.
Lemma plan_new_for id path parent target uid gid permissions timestamps b kind plan :
  plan_new id path parent target uid gid permissions timestamps b kind = Ok plan
  → planned_for path plan.
Proof.
  intros Hp. split; [by eapply plan_new_target|]. intros ->. unfold plan_new in Hp. inv_ok. subst plan.
  simpl. by eapply config_stage_untracked.
Qed.
Lemma prepare_exchange_wp id path current b Φ e (w : Files) :
  (∀ plan, planned_for path plan → Φ (Some (Ok plan)) e w)
  → (∀ err, Φ (Some (Err err)) e w) → Φ None e w
  → ewp (prepare_presence_exchange_plan id path current b) Φ e w.
Proof.
  intros Hok Herr Hnone. unfold prepare_presence_exchange_plan, prepare_atomic_plan.
  apply ewp_bind_any, ewp_bind_any, ewp_observe; [exact I| |done|done]. intros o _.
  do 3 (apply ewp_lift_bind; [intros ? _|done]). case_match.
  apply ewp_lift_any. destruct (contract _) as [plan|] eqn:Hplan; [|done].
  apply ewp_lift_bind; [intros _ _|done]. apply ewp_ret, Hok. by eapply plan_new_for, contract_ok.
Qed.

#[local] Hint Extern 1 (Quiet Files (ask _)) =>
  apply quiet_ask; intros ?w; cbv [allowed answers presence_machine files_machine presence_allowed files_answers];
  split; [exact I|]; intros ? ? ? ?; tauto : typeclass_instances.
#[local] Instance quiet_map_err {A} f (m : eng A) : Quiet Files m → Quiet Files (emap_err f m).
Proof. intros Hm. unfold emap_err. apply _. Qed.
Lemma quiet_verify path maximum expected publication :
  Quiet Files (verify_presence_publication path maximum expected publication).
Proof. unfold verify_presence_publication, read_private, read_required. apply _. Qed.
#[local] Existing Instance quiet_verify.


Lemma commit_rollback_wp plan id b Φ e w :
  let path := pl_target_path plan in
  publishable w path → f_staged w id = Some b
  → (∀ o w', agree_but path w w' → f_at w' path = Some b → Φ (Some (Ok o)) e w')
  → (∀ err w', agree_but path w w' → Φ (Some (Err err)) e w')
  → (∀ w', Φ None e w')
  → ewp (commit_rollback plan id) Φ e w.
Proof.
  intros path Hp Hs Hok Herr Hnone. unfold commit_rollback.
  eapply (commit_wp plan id b eret); [done|done|..|done];
    intros; first [apply ewp_ret|apply ewp_fail]; eauto.
Qed.

(** Taking the configuration back. *)
Lemma rollback_config_wp plan publication old Φ e w :
  planned_for CONFIG_FILE plan → publishable w CONFIG_FILE
  → (∀ w', agree_but CONFIG_FILE w w' → f_at w' CONFIG_FILE = Some (of_bytes old) → Φ (Some (Ok ())) e w')
  → (∀ err w', agree_but CONFIG_FILE w w' → Φ (Some (Err err)) e w')
  → (∀ w', Φ None e w')
  → ewp (rollback_presence_config plan publication old) Φ e w.
Proof.
  intros [_ Hstage] Hp Hok Herr Hnone. specialize (Hstage eq_refl). unfold rollback_presence_config.
  apply ewp_lift_bind; [intros _ _|by intros; apply Herr].
  apply ewp_lift_bind; [intros rollback Hplan|by intros; apply Herr].
  destruct (plan_new_for _ _ _ _ _ _ _ _ _ _ _ (contract_ok _ _ Hplan)) as [Htarget _].
  apply ewp_lift_bind; [intros _ _|by intros; apply Herr].
  apply ewp_bind_any, ewp_ask; [simpl; by rewrite Htarget|].
  intros t r w1 t' [_ ->]. destruct r as [[id|err]|]; [|by apply Herr|done].
  apply ewp_bind_any, (commit_rollback_wp _ _ (of_bytes old)); rewrite ?Htarget;
    [by eapply publishable_but|apply stage_at| |by intros; apply Herr|done].
  intros o w2 Ha Hat. assert (agree_but CONFIG_FILE w w2) as Ha' by exact Ha.
  apply ewp_bind_any, quiet. intros [[[]|err]|]; [|by apply Herr|done].
  apply ewp_bind_any, quiet. intros [[[]|err]|]; [|by apply Herr|done].
  assert (agree_but CONFIG_FILE w (put w2 (pl_staging_path plan) None)) as Hput.
  { destruct Ha' as (Hq & Hs & Hk). split; [|done]. intros q Hin Hne. rewrite put_other; [auto|congruence]. }
  assert (CONFIG_FILE ≠ pl_staging_path plan) as Hne.
  { intros Heq. apply Hstage. rewrite <-Heq. tracked_path. }
  apply ewp_ask.
  - split; [|by left]. destruct Hp as [Hn _]. eapply no_transaction_but; [exact Ha'|..|done]; distinct.
  - intros t1 r w3 t1' [_ Hr]. destruct r as [[[]|err]|]; [subst w3| |apply Hnone].
    + apply Hok; [done|]. by rewrite put_other.
    + apply Herr. by destruct Hr as [-> | ->].
Qed.

(** ** Configuration and receipt *)

(** The files a target was prepared from, and the files it asks for. *)
Definition prior_files (target : PresenceTarget) (w : Files) : Prop :=
  f_at w CONFIG_FILE = Some (of_bytes (tg_config_file target))
  ∧ f_at w SECURITY_RECEIPT_PATH = (λ r, of_bytes (rt_file r)) <$> tg_receipt target.
Definition target_files (target : PresenceTarget) (w : Files) : Prop :=
  f_at w CONFIG_FILE = Some (tg_config_bytes target)
  ∧ f_at w SECURITY_RECEIPT_PATH = rt_bytes <$> tg_receipt target.
(** What a certain error leaves, and what any step leaves of the other files. *)
Definition either_files (target : PresenceTarget) (err : SecurityError) (w : Files) : Prop :=
  prior_files target w ∨ target_files target w ∨ uncertain err.
Definition others (w w' : Files) : Prop :=
  f_at w' PAM_PROMPT_SUDOERS_PATH = f_at w PAM_PROMPT_SUDOERS_PATH
  ∧ (no_transaction w → no_transaction w').
Lemma others_refl w : others w w.
Proof. done. Qed.
Lemma others_trans w w' w'' : others w w' → others w' w'' → others w w''.
Proof. intros [Hp Hn] [Hp' Hn']. split; [congruence|auto]. Qed.
Lemma others_config w w' : agree_but CONFIG_FILE w w' → others w w'.
Proof.
  intros Ha. split; [|eapply no_transaction_but; [exact Ha|distinct|distinct]].
  destruct Ha as (Hq & _). apply Hq; [tracked_path|distinct].
Qed.
Lemma others_receipt w w' : agree_but SECURITY_RECEIPT_PATH w w' → others w w'.
Proof.
  intros Ha. split; [|eapply no_transaction_but; [exact Ha|distinct|distinct]].
  destruct Ha as (Hq & _). apply Hq; [tracked_path|distinct].
Qed.
Lemma receipt_kept w w' :
  agree_but CONFIG_FILE w w' → f_at w' SECURITY_RECEIPT_PATH = f_at w SECURITY_RECEIPT_PATH.
Proof. intros (Hq & _). apply Hq; [tracked_path|distinct]. Qed.
Lemma config_kept w w' : agree_but SECURITY_RECEIPT_PATH w w' → f_at w' CONFIG_FILE = f_at w CONFIG_FILE.
Proof. intros (Hq & _). apply Hq; [tracked_path|distinct]. Qed.

(** The two files are published under the same conditions. *)
Definition open_to_change (w : Files) : Prop :=
  no_transaction w ∧ both_stopped w ∧ (p = PpConfirm → overridden w).
Lemma open_config w : open_to_change w → publishable w CONFIG_FILE.
Proof. intros (? & ? & ?). split; [done|right; auto]. Qed.
Lemma open_receipt w : open_to_change w → publishable w SECURITY_RECEIPT_PATH.
Proof. intros (? & ? & ?). split; [done|right; auto]. Qed.
Lemma open_others w w' :
  open_to_change w → others w w' → f_service w' = f_service w → f_socket w' = f_socket w
  → open_to_change w'.
Proof.
  unfold open_to_change, both_stopped, overridden. intros (Hn & [??] & Ho) [Hp Hn'] Hs Hk. rewrite Hp, Hs, Hk. auto.
Qed.

(** A receipt has a plan if there is one to publish. *)
Definition plans_match (target : PresenceTarget) (plan : option AtomicWritePlanV1) : Prop :=
  match tg_receipt target, plan with
  | Some _, Some plan => planned_for SECURITY_RECEIPT_PATH plan
  | None, None => True
  | _, _ => False
  end.

Lemma publish_receipt_wp target plan publication receipt_plan Φ e w :
  planned_for CONFIG_FILE plan → plans_match target receipt_plan → open_to_change w
  → f_at w CONFIG_FILE = Some (tg_config_bytes target)
  → f_at w SECURITY_RECEIPT_PATH = (λ r, of_bytes (rt_file r)) <$> tg_receipt target
  → (∀ o w', others w w' → target_files target w' → Φ (Some (Ok o)) e w')
  → (∀ err w', others w w' → either_files target err w' → Φ (Some (Err err)) e w')
  → (∀ w', Φ None e w')
  → ewp (publish_receipt target plan publication receipt_plan) Φ e w.
Proof.
  intros Hplan Hmatch Hopen Hc Hr Hok Herr Hnone. unfold publish_receipt, plans_match in *.
  destruct (tg_receipt target) as [receipt|] eqn:Htr, receipt_plan as [plan'|]; try done.
  - destruct Hmatch as [Ht _]. apply ewp_bind_any, publish_classified_wp; rewrite ?Ht;
      [by apply open_receipt|..|done].
    + intros o w' Ha Hat. apply ewp_ret, Hok; [by apply others_receipt|].
      split; [by rewrite (config_kept _ _ Ha)|by rewrite Hat, Htr].
    + intros err w' Ha Hat. pose proof (others_receipt _ _ Ha) as Ho.
      apply ewp_try_bind, rollback_config_wp; [done| |..|done].
      * apply open_config. eapply open_others; [done|done|apply Ha..].
      * intros w'' Ha' Hat'. apply ewp_fail, Herr; [eauto using others_trans, others_config|].
        left. split; [done|]. by rewrite (receipt_kept _ _ Ha'), Hat, Hr, Htr.
      * intros err' w'' Ha'. apply ewp_fail, Herr; [eauto using others_trans, others_config|].
        right; right. by eexists.
    + intros err w' Ha Hu. apply ewp_fail, Herr; [by apply others_receipt|]. by do 2 right.
  - apply ewp_ret, Hok; [done|]. split; [done|]. by rewrite Hr, Htr.
Qed.

Lemma apply_change_wp turns target plan receipt_plan Φ e w :
  10000 < Z.of_nat turns
  → planned_for CONFIG_FILE plan → plans_match target receipt_plan → no_transaction w
  → (p = PpConfirm → overridden w) → prior_files target w
  → (∀ w', others w w' → target_files target w' → Φ (Some (Ok ())) e w')
  → (∀ err w', others w w' → either_files target err w' → Φ (Some (Err err)) e w')
  → (∀ w', Φ None e w')
  → ewp (apply_presence_change turns target plan receipt_plan) Φ e w.
Proof.
  intros Hturns Hplan Hmatch Hn Ho [Hc Hr] Hok Herr Hnone. unfold apply_presence_change.
  apply ewp_bind_any, (stop_units_wp turns Hturns); [|by intros; apply Herr; [done|left]|done].
  set (w1 := control_both _ _ _). assert (open_to_change w1) as Hopen by done.
  destruct Hplan as [Ht Hs]. apply ewp_bind_any, publish_wp; rewrite ?Ht; [by apply open_config|..|done].
  - intros o w2 Ha Hat. pose proof (others_config _ _ Ha) as Ho2.
    apply ewp_bind_any, publish_receipt_wp; [done|done| |done| | | |done].
    + eapply open_others; [done|done|apply Ha..].
    + by rewrite (receipt_kept _ _ Ha).
    + intros o' w3 Ho3 Hf. assert (others w w3) as Hw3 by exact (others_trans _ _ _ Ho2 Ho3).
      apply ewp_bind_any, quiet. intros [[[]|err]|]; [|apply Herr; [done|by right; left]|done].
      apply ewp_bind_any. assert (Quiet Files (verify_receipt_publication target o')) as Hv
        by (unfold verify_receipt_publication; apply _).
      apply Hv. intros [[[]|err]|]; [|apply Herr; [done|by right; left]|done].
      apply ewp_bind_any, quiet. intros [[[]|err]|]; [|apply Herr; [done|by right; left]|done].
      apply quiet. intros [[[]|err]|]; [by apply Hok|apply Herr; [done|by right; left]|done].
    + intros err w3 Ho3 He. apply Herr; [exact (others_trans _ _ _ Ho2 Ho3)|done].
  - intros err w2 Ha He. apply Herr; [exact (others_config _ _ Ha)|].
    destruct He as [He|He]; [left|by right; right]. split; [by rewrite He|]. by rewrite (receipt_kept _ _ Ha).
Qed.

(** The units are started again, and nothing else happens. *)
Lemma start_noted_wp u what (when : bool) fs Φ e (w : Files) :
  no_transaction w
  → (∀ fs' w', f_at w' = f_at w → Φ (Some (Ok fs')) e w') → (∀ w', Φ None e w')
  → ewp (if when then noting what (ask (StartUnit u)) fs else eret fs) Φ e w.
Proof.
  intros Hn Hok Hnone. destruct when; [|by apply ewp_ret, Hok]. apply ewp_noting, ewp_ask; [done|].
  intros t r w' t' [_ ->]. destruct r as [[[]|err]|]; [| |done]; intros; apply Hok; by destruct u.
Qed.
Lemma restore_units_wp turns service socket Φ e (w : Files) :
  10000 < Z.of_nat turns → no_transaction w
  → (∀ w', f_at w' = f_at w → Φ (Some (Ok ())) e w')
  → (∀ err w', f_at w' = f_at w → uncertain err → Φ (Some (Err err)) e w')
  → (∀ w', Φ None e w')
  → ewp (restore_presence_units turns service socket) Φ e w.
Proof.
  intros Hturns Hn Hok Herr Hnone. unfold restore_presence_units.
  apply ewp_bind_any, start_noted_wp; [done| |done]. intros fs1 w1 Hw1.
  apply ewp_bind_any, start_noted_wp; [by unfold no_transaction; rewrite Hw1| |done]. intros fs2 w2 Hw2.
  assert (f_at w2 = f_at w) as Hw by congruence.
  apply ewp_bind_any, ewp_noting. unfold verify_restored_targets.
  apply ewp_bind_any, (quiet_stable_unit_pair turns Hturns).
  assert (∀ fs, ewp (if bool_decide (fs = []) then eret ()
                     else efail (Uncertain (join_with (bs "; ") fs))) Φ e w2) as Hend.
  { intros fs. case_bool_decide; [by apply ewp_ret, Hok|]. apply ewp_fail, Herr; [done|by eexists]. }
  intros [[[? ?]|err]|]; [apply ewp_lift_any|intros; apply Hend|apply Hnone].
  destruct (uncertain_if _ _); [apply Hend|intros; apply Hend].
Qed.

Lemma apply_target_wp turns target id Φ e w :
  10000 < Z.of_nat turns → no_transaction w → (p = PpConfirm → overridden w) → prior_files target w
  → (∀ w', others w w' → target_files target w' → Φ (Some (Ok ())) e w')
  → (∀ err w', others w w' → either_files target err w' → Φ (Some (Err err)) e w')
  → (∀ w', Φ None e w')
  → ewp (apply_presence_target turns target id) Φ e w.
Proof.
  intros Hturns Hn Ho Hprior Hok Herr Hnone.
  assert (∀ err, Φ (Some (Err err)) e w) as Hfail by (intros err; apply Herr; [done|by left]).
  unfold apply_presence_target. apply ewp_bind_any, prepare_exchange_wp; [|done|done]. intros plan Hplan.
  apply ewp_bind_any.
  assert (∀ Ψ : option (secresult (option AtomicWritePlanV1)) → Engine → Files → Prop,
    (∀ plan', plans_match target plan' → Ψ (Some (Ok plan')) e w)
    → (∀ err, Ψ (Some (Err err)) e w) → Ψ None e w
    → ewp (match tg_receipt target with
           | Some receipt =>
               plan <~ prepare_presence_exchange_plan id SECURITY_RECEIPT_PATH (rt_file receipt)
                         (rt_bytes receipt);
               eret (Some plan)
           | None => eret None
           end) Ψ e w) as Hreceipt.
  { unfold plans_match. intros Ψ Hp He Hu. destruct (tg_receipt target) as [receipt|]; [|by apply ewp_ret, Hp].
    apply ewp_bind_any, prepare_exchange_wp; [|done|done]. intros plan' Hplan'. by apply ewp_ret, Hp. }
  apply Hreceipt; [|done|done]. intros plan' Hplan'.
  apply ewp_bind_any, (quiet_stable_unit_pair turns Hturns). intros [[[service socket]|err]|]; [|done|done].
  apply ewp_lift_bind; [intros _ _|done].
  apply ewp_try_bind, (apply_change_wp turns); [done|done|done|done|done|done|..|done].
  - intros w1 Ho1 Hf. apply ewp_try_bind, restore_units_wp; [done|by apply Ho1|..|done].
    + intros w2 Hw2. apply ewp_ret, Hok; unfold others, target_files, no_transaction in *; by rewrite !Hw2.
    + intros err w2 Hw2 _. apply ewp_fail, Herr; [unfold others, no_transaction in *; by rewrite !Hw2|].
      right; right. by eexists.
  - intros err w1 Ho1 Hf. apply ewp_try_bind, restore_units_wp; [done|by apply Ho1|..|done].
    + intros w2 Hw2. apply ewp_fail, Herr; unfold others, either_files, prior_files, target_files, no_transaction in *;
        by rewrite !Hw2.
    + intros err' w2 Hw2 _. apply ewp_fail, Herr; [unfold others, no_transaction in *; by rewrite !Hw2|].
      right; right. by eexists.
Qed.

(** ** The override *)

(** The configuration and the receipt are as they were. *)
Definition pair_kept (w w' : Files) : Prop :=
  f_at w' CONFIG_FILE = f_at w CONFIG_FILE
  ∧ f_at w' SECURITY_RECEIPT_PATH = f_at w SECURITY_RECEIPT_PATH
  ∧ (no_transaction w → no_transaction w').
Lemma pair_kept_override w w' : agree_but PAM_PROMPT_SUDOERS_PATH w w' → pair_kept w w'.
Proof.
  intros Ha. pose proof Ha as (Hq & _). split_and!.
  - apply Hq; [tracked_path|distinct].
  - apply Hq; [tracked_path|distinct].
  - eapply no_transaction_but; [exact Ha|distinct|distinct].
Qed.

Lemma observe_override_wp Φ e w :
  (∀ parent, f_at w PAM_PROMPT_SUDOERS_PATH = None → Φ (Some (Ok (SoAbsent parent))) e w)
  → (∀ f, overridden w → Φ (Some (Ok (SoExact f))) e w)
  → (∀ err, Φ (Some (Err err)) e w) → Φ None e w
  → ewp observe_managed_sudoers_override Φ e w.
Proof.
  intros Habs Hex Herr Hnone. apply ewp_bind_any, ewp_observe; [exact I| |done|done]. intros o Ho.
  apply ewp_lift_bind; [intros _ _|done]. destruct (to_target o) as [f|]; simpl in Ho.
  - apply ewp_lift_bind; [|done]. intros [] Hexact. apply ewp_ret, Hex. unfold overridden.
    unfold operation_if in Hexact. case_match; [done|]. breflect. naive_solver congruence.
  - by apply ewp_ret, Habs.
Qed.

(** Taking a created override back keeps the error, unless that fails too. *)
Lemma cleanup_created_wp error created Φ e w :
  p = PpConfirm → no_transaction w
  → (∀ err w', pair_kept w w'
       → uncertain err ∨ err = error ∧ f_at w' PAM_PROMPT_SUDOERS_PATH
           = match created with Some _ => None | None => f_at w PAM_PROMPT_SUDOERS_PATH end
       → Φ (Some (Ok err)) e w')
  → (∀ w', Φ None e w')
  → ewp (cleanup_created_sudoers_after_error error created) Φ e w.
Proof.
  intros Hc Hn Hok Hnone. unfold cleanup_created_sudoers_after_error.
  destruct created as [id|]; [|apply ewp_ret, Hok; [done|by right]].
  apply ewp_try_bind, ewp_bind_any, ewp_ask; [split; [done|right; split; [done|]; congruence]|].
  intros t r w1 t' [_ Hr].
  assert (agree_but PAM_PROMPT_SUDOERS_PATH w w1) as Ha.
  { destruct r as [[[]|err]|]; [subst w1|destruct Hr as [-> | ->]|destruct Hr as [-> | ->]];
      first [done|by apply agree_but_put]. }
  pose proof (pair_kept_override _ _ Ha) as Hk.
  assert (∀ m, ewp (eret (Uncertain m)) Φ e w1) as Hunc
    by (intros m; apply ewp_ret, Hok; [done|left; by eexists]).
  destruct r as [[[]|err]|]; [|apply Hunc|apply Hnone].
  apply ewp_bind_any, observe_override_wp; [|intros f Hf; apply ewp_lift_any, Hunc|intros; apply Hunc|apply Hnone].
  intros parent Hnone'. apply ewp_lift_any, ewp_ret, Hok; [done|]. by right.
Qed.
Lemma fail_after_cleanup_wp {A} error created Φ e w :
  p = PpConfirm → no_transaction w
  → (∀ err w', pair_kept w w'
       → uncertain err ∨ err = error ∧ f_at w' PAM_PROMPT_SUDOERS_PATH
           = match created with Some _ => None | None => f_at w PAM_PROMPT_SUDOERS_PATH end
       → Φ (Some (Err err)) e w')
  → (∀ w', Φ None e w')
  → ewp (fail_after_cleanup (A:=A) error created) Φ e w.
Proof.
  intros Hc Hn Herr Hnone. apply ewp_bind_any, cleanup_created_wp; [done|done| |done].
  intros err w' Hk He. apply ewp_fail. auto.
Qed.

Lemma pair_kept_trans w w' w'' : pair_kept w w' → pair_kept w' w'' → pair_kept w w''.
Proof. intros (? & ? & ?) (? & ? & ?). split_and!; [congruence|congruence|auto]. Qed.

Lemma create_override_wp id parent Φ e w :
  p = PpConfirm → no_transaction w → f_at w PAM_PROMPT_SUDOERS_PATH = None
  → (∀ created w', pair_kept w w' → overridden w' → Φ (Some (Ok created)) e w')
  → (∀ err w', pair_kept w w' → uncertain err ∨ f_at w' PAM_PROMPT_SUDOERS_PATH = None
       → Φ (Some (Err err)) e w')
  → (∀ w', Φ None e w')
  → ewp (create_managed_sudoers_override id parent) Φ e w.
Proof.
  intros Hc Hn Habs Hok Herr Hnone. unfold create_managed_sudoers_override.
  apply ewp_lift_bind; [|by intros; apply Herr; [done|right]]. intros plan Hplan.
  destruct (plan_new_for _ _ _ _ _ _ _ _ _ _ _ (contract_ok _ _ Hplan)) as [Ht _].
  apply ewp_lift_bind; [intros _ _|by intros; apply Herr; [done|right]].
  apply ewp_bind_any, publish_wp; rewrite ?Ht; [split; [done|by left]|..|done].
  - intros o w1 Ha Hat. pose proof (pair_kept_override _ _ Ha) as Hk.
    assert (∀ error, ewp (fail_after_cleanup (A:=AtomicFileIdentityV1) error (Some (wo_target o))) Φ e w1) as Hfail.
    { intros error. apply fail_after_cleanup_wp; [done|by apply Hk| |done].
      intros err w' Hk' He. apply Herr; [by eapply pair_kept_trans|naive_solver]. }
    apply ewp_try_bind, ewp_bind_any, observe_override_wp.
    + intros ? _. apply ewp_lift_any. apply Hfail.
    + intros f _. apply ewp_lift_any. destruct (operation_if _ _); [|apply Hfail].
      apply ewp_try_bind, quiet. intros [[[]|err]|]; [by apply ewp_ret, Hok|apply Hfail|done].
    + intros. apply Hfail.
    + apply Hnone.
  - intros err w1 Ha He. apply Herr; [by apply pair_kept_override|].
    destruct He as [He|?]; [right; by rewrite He|by left].
Qed.

Lemma remove_override_wp Φ e w :
  p = PpOff → no_transaction w → changed w
  → (∀ removed w', pair_kept w w' → f_at w' PAM_PROMPT_SUDOERS_PATH = None → Φ (Some (Ok removed)) e w')
  → (∀ err w', uncertain err → Φ (Some (Err err)) e w')
  → (∀ w', Φ None e w')
  → ewp remove_managed_sudoers_override Φ e w.
Proof.
  intros Hp Hn Hch Hok Herr Hnone.
  apply ewp_bind_any, ewp_map_err, ewp_read; [exact I| |intros; apply Herr; by eexists|apply Hnone].
  intros [f|] Hf; [|by apply ewp_ret, Hok].
  apply ewp_bind_any, ewp_map_err, observe_override_wp; [by intros; apply ewp_ret, Hok| |intros; apply Herr; by eexists|apply Hnone].
  intros g _. apply ewp_bind_any, ewp_map_err, ewp_ask; [split; [done|by right]|].
  intros t r w1 t' [_ Hr]. destruct r as [[[]|err]|]; [subst w1|apply Herr; by eexists|apply Hnone].
  apply ewp_bind_any, ewp_map_err, observe_override_wp; [|intros; apply ewp_fail, Herr; by eexists|intros; apply Herr; by eexists|apply Hnone].
  intros ? Hput. apply ewp_ret, Hok; [|done]. by apply pair_kept_override, agree_but_put.
Qed.

(** ** The command *)

(** How a change of a target ends. *)
Definition target_ended (target : PresenceTarget) (override0 : option bytes)
    (r : option (secresult SecurityOutcome)) (w : Files) : Prop :=
  match r with
  | Some (Ok _) => target_files target w
      ∧ f_at w PAM_PROMPT_SUDOERS_PATH
        = match p with PpConfirm => Some PAM_PROMPT_SUDOERS_BYTES | PpOff => None end
  | Some (Err err) => uncertain err
      ∨ (prior_files target w ∨ target_files target w) ∧ f_at w PAM_PROMPT_SUDOERS_PATH = override0
  | None => True
  end.

Lemma unchanged_target target w : is_changed target = false → prior_files target w → target_files target w.
Proof.
  unfold is_changed, differs, prior_files, target_files. intros [Hc Hr]%orb_false_iff [-> ->].
  apply negb_false_iff, bool_decide_eq_true_1 in Hc. rewrite Hc. split; [done|].
  destruct (tg_receipt target) as [r|]; simpl in *; [|done].
  apply negb_false_iff, bool_decide_eq_true_1 in Hr. by rewrite Hr.
Qed.
Lemma files_kept target w w' :
  pair_kept w w' → (prior_files target w → prior_files target w') ∧ (target_files target w → target_files target w').
Proof. unfold prior_files, target_files. intros (-> & -> & _). done. Qed.

Lemma confirm_change_wp turns target id Φ e w :
  10000 < Z.of_nat turns → p = PpConfirm → no_transaction w → overridden w → prior_files target w
  → (is_changed target = true → is_Some id)
  → (∀ b w', others w w' → target_files target w' → Φ (Some (Ok b)) e w')
  → (∀ err w', others w w' → either_files target err w' → Φ (Some (Err err)) e w')
  → (∀ w', Φ None e w')
  → ewp (confirm_change turns target id) Φ e w.
Proof.
  intros Hturns Hp Hn Ho Hprior Hid Hok Herr Hnone. unfold confirm_change.
  apply ewp_bind_any, ewp_map_err, quiet. intros [[?|err]|]; [|apply Herr; [done|by left]|apply Hnone]. simpl.
  destruct (is_changed target) eqn:Hch; [|by apply ewp_ret, Hok, unchanged_target].
  destruct (Hid eq_refl) as [i ->]. apply ewp_bind_any, ewp_ret, ewp_bind_any.
  apply apply_target_wp; [done|done|done|done| |done|done]. intros w' Ho' Hf. by apply ewp_ret, Hok.
Qed.

Lemma set_presence_confirm_wp turns target e w :
  10000 < Z.of_nat turns → p = PpConfirm → no_transaction w → prior_files target w
  → ewp (set_presence_confirm turns target)
      (λ r _ w', target_ended target (f_at w PAM_PROMPT_SUDOERS_PATH) r w') e w.
Proof.
  intros Hturns Hp Hn Hprior. unfold set_presence_confirm.
  assert (∀ err w', pair_kept w w' → uncertain err ∨ f_at w' PAM_PROMPT_SUDOERS_PATH = f_at w PAM_PROMPT_SUDOERS_PATH
    → target_ended target (f_at w PAM_PROMPT_SUDOERS_PATH) (Some (Err err)) w') as Hstop.
  { intros err w' Hk [?|Hov]; [by left|right]. split; [left; by apply (files_kept target w w')|done]. }
  (** From where the override is in place. *)
  assert (∀ sudoers_new id created w', pair_kept w w' → overridden w'
    → (is_changed target = true → is_Some id)
    → match created with
      | Some _ => f_at w PAM_PROMPT_SUDOERS_PATH = None | None => overridden w
      end
    → ewp (result <~ etry (confirm_change turns target id);
           changed <~ match result with
                      | Ok changed => eret changed
                      | Err error => fail_after_cleanup error created
                      end;
           eret (mkOutcome [confirm_message changed sudoers_new] None))
        (λ r _ w'', target_ended target (f_at w PAM_PROMPT_SUDOERS_PATH) r w'') e w') as Hrest.
  { intros b id created w' Hk Ho Hid Hcr. destruct (files_kept target _ _ Hk) as [Hpr _].
    apply ewp_try_bind, confirm_change_wp; [done|done|by apply Hk|done|by apply Hpr|done|..|done].
    - intros b' w2 Ho2 Hf. apply ewp_bind_any, ewp_ret, ewp_ret. simpl. rewrite Hp. split; [done|].
      destruct Ho2 as [-> _]. done.
    - intros err w2 Ho2 He. apply ewp_bind_any, fail_after_cleanup_wp; [done|by apply Ho2, Hk| |done].
      intros err' w3 Hk3 He3. simpl. destruct He3 as [?|[-> Hov]]; [by left|].
      destruct (files_kept target _ _ Hk3) as [Hpr3 Htg3].
      destruct He as [?|[?|?]]; [right|right|by left]; (split; [tauto|]); rewrite Hov;
        destruct created; try done; destruct Ho2 as [-> _]; unfold overridden in *; congruence. }
  apply ewp_bind_any, ewp_map_err, observe_override_wp.
  - intros parent Habs. simpl. rewrite orb_true_r. apply ewp_bind_any, ewp_bind_any, quiet.
    intros [[id|err]|]; [|by apply Hstop; [|right]|done]. apply ewp_ret.
    apply ewp_bind_any, ewp_bind_any, ewp_ret, ewp_bind_any, create_override_wp; [done|done|done|..|done].
    + intros created w' Hk Ho. apply ewp_ret. by apply Hrest.
    + intros err w' Hk He. apply Hstop; [done|]. by rewrite Habs.
  - intros f Ho. simpl. rewrite orb_false_r. apply ewp_bind_any.
    destruct (is_changed target) eqn:Hch.
    + apply ewp_bind_any, quiet. intros [[id|err]|]; [|by apply Hstop; [|right]|done].
      apply ewp_ret, ewp_bind_any, ewp_ret. by apply Hrest.
    + apply ewp_ret, ewp_bind_any, ewp_ret. by apply Hrest.
  - intros err. by apply Hstop; [|right].
  - done.
Qed.

Lemma set_presence_off_wp turns target e w :
  10000 < Z.of_nat turns → p = PpOff → no_transaction w → prior_files target w
  → (∀ w', target_files target w' → changed w')
  → ewp (set_presence_off turns target)
      (λ r _ w', target_ended target (f_at w PAM_PROMPT_SUDOERS_PATH) r w') e w.
Proof.
  intros Hturns Hp Hn Hprior Hreq. unfold set_presence_off.
  assert (∀ b w', others w w' → target_files target w'
    → ewp (removed <~ remove_managed_sudoers_override; eret (mkOutcome [off_message b removed] None))
        (λ r _ w'', target_ended target (f_at w PAM_PROMPT_SUDOERS_PATH) r w'') e w') as Hrest.
  { intros b w' Ho Hf. apply ewp_bind_any, remove_override_wp; [done|by apply Ho|by apply Hreq| |by left|done].
    intros removed w2 Hk Habs. apply ewp_ret. simpl. rewrite Hp. split; [|done].
    by apply (files_kept target w' w2). }
  apply ewp_bind_any. destruct (is_changed target) eqn:Hch.
  - apply ewp_bind_any, quiet. intros [[id|err]|]; [|by right; split; [left|]|done].
    apply ewp_bind_any, apply_target_wp; [done|done|by rewrite Hp|done|..|done].
    + intros w' Ho Hf. apply ewp_ret. by apply Hrest.
    + intros err w' [Ho _] He. destruct He as [?|[?|?]]; [right|right|by left]; split; auto.
  - apply ewp_ret. apply Hrest; [done|by apply unchanged_target].
Qed.

Lemma parse_presence_ok file c :
  parse_presence_config file = Ok c → toml_config (of_bytes file) = Ok c ∧ validate c = Ok ().
Proof.
  unfold parse_presence_config. intros Hp. inv_ok. subst.
  destruct (toml_config _) as [c'|] eqn:Hc; [|done]. destruct (validate _) as [[]|] eqn:Hv; naive_solver.
Qed.
Lemma canonical_receipt_ok file f r :
  canonical_presence_receipt file = Ok (f, r) → f = file ∧ receipt_parse (of_bytes file) = Ok r.
Proof.
  unfold canonical_presence_receipt. intros Hp. inv_ok. simplify_eq.
  by destruct (receipt_parse _) as [r'|]; naive_solver.
Qed.

Lemma prepare_target_wp Φ e w :
  config0 = f_at w CONFIG_FILE → receipt0 = f_at w SECURITY_RECEIPT_PATH
  → (∀ target, prior_files target w → requested (tg_config_bytes target) (rt_bytes <$> tg_receipt target)
       → Φ (Some (Ok target)) e w)
  → (∀ err, Φ (Some (Err err)) e w) → Φ None e w
  → ewp (prepare_presence_target p) Φ e w.
Proof.
  intros Hc0 Hr0 Hok Herr Hnone. unfold prepare_presence_target.
  apply ewp_bind_any, ewp_read; [exact I| |done|done]. intros config Hc.
  apply ewp_lift_bind; [|done]. intros file Hf. destruct config as [file'|]; [|done]. injection Hf as ->.
  apply ewp_lift_bind; [|done]. intros c [Hparse Hv]%parse_presence_ok.
  apply ewp_bind_any. unfold read_canonical_presence_receipt.
  apply ewp_bind_any, ewp_read; [exact I| |done|done]. intros receipt Hr.
  assert (∀ config_bytes, receipt = None → plain_target file c p = Ok config_bytes
          → Φ (Some (Ok config_bytes)) e w) as Hplain.
  { intros target -> Ht. unfold plain_target in Ht. inv_ok. subst target.
    apply Hok; [by split; [rewrite <-Hc|rewrite <-Hr]|].
    exists (of_bytes file), c. rewrite Hc0, Hr0, <-Hc, <-Hr. by split_and!. }
  destruct receipt as [rf|]; simpl.
  - apply ewp_lift_bind; [|done]. intros [f r] [-> Hrp]%canonical_receipt_ok. apply ewp_ret.
    destruct (embedding_mode (security c)); try by apply ewp_fail.
    apply ewp_lift_any. destruct (receipted_target _ _ _ _ _) as [target|] eqn:Ht; [|done].
    unfold receipted_target in Ht. inv_ok. case_match. inv_ok. subst target.
    apply Hok; [by split; [rewrite <-Hc|rewrite <-Hr]|].
    exists (of_bytes file), c. rewrite Hc0, Hr0, <-Hc, <-Hr. split_and!; [done|done|done|]. simpl. subst.
    eexists r, _. split_and!; [done|done|]. eexists. by split; [eapply contract_ok|].
  - apply ewp_ret. destruct (embedding_mode (security c)); try by apply ewp_fail.
    + apply ewp_lift_bind; [intros _ _|done]. apply ewp_lift_any.
      destruct (plain_target _ _ _) eqn:Ht; [by apply Hplain|done].
    + assert (Quiet Files (require_bootstrap c)) as Hq by (unfold require_bootstrap; apply _).
      apply ewp_bind_any, Hq. intros [[[]|err]|]; [|done|done]. apply ewp_lift_any.
      destruct (plain_target _ _ _) eqn:Ht; [by apply Hplain|done].
Qed.

Lemma set_presence_wp turns e w :
  10000 < Z.of_nat turns → config0 = f_at w CONFIG_FILE → receipt0 = f_at w SECURITY_RECEIPT_PATH
  → ewp (set_presence turns p) (λ r _ w', presence_ended (f_at w PAM_PROMPT_SUDOERS_PATH) r w') e w.
Proof.
  intros Hturns Hc0 Hr0. unfold set_presence.
  assert (∀ err, presence_ended (f_at w PAM_PROMPT_SUDOERS_PATH) (Some (Err err)) w) as Hfail.
  { intros []; simpl; try done; split; try done; by left. }
  do 2 (apply ewp_bind_any, quiet; intros [[[]|err]|]; [|apply Hfail|done]).
  apply ewp_bind_any, ewp_bind_any, ewp_read; [exact I| |done|done]. intros [j|] Hj; [by apply ewp_lift_bind|].
  apply ewp_lift_bind; [intros _ _|done].
  apply ewp_bind_any, ewp_read; [exact I| |done|done]. intros [g|] Hg; [apply ewp_lift_any, Hfail|].
  apply ewp_lift_any. assert (no_transaction w) as Hn by done.
  apply ewp_bind_any, quiet. intros [[[]|err]|]; [|apply Hfail|done].
  apply ewp_bind_any, prepare_target_wp; [done|done| |done|done]. intros target Hprior Hreq.
  assert (∀ w', target_files target w' → changed w') as Hch.
  { intros w' [Hc Hr]. exists (tg_config_bytes target). by rewrite Hr. }
  assert (∀ r w', target_ended target (f_at w PAM_PROMPT_SUDOERS_PATH) r w'
          → presence_ended (f_at w PAM_PROMPT_SUDOERS_PATH) r w') as Hend.
  { intros [[a|err]|] w'; simpl; [by intros [?%Hch ?]| |done].
    intros [[m ->]|[Hf Hov]]; [done|]. assert (unchanged w' ∨ changed w') as Hu.
    { destruct Hf as [[Hc Hr]|?]; [left|by right; apply Hch]. destruct Hprior. split; congruence. }
    by destruct err. }
  destruct (decide (p = PpConfirm)) as [Hp|Hp].
  - assert (match p with PpConfirm => set_presence_confirm turns target | PpOff => set_presence_off turns target end
            = set_presence_confirm turns target) as -> by (by rewrite Hp).
    eapply ewp_mono; [by apply set_presence_confirm_wp|]. intros r e' w'. apply Hend.
  - assert (p = PpOff) as Hoff by (destruct p; congruence).
    assert (match p with PpConfirm => set_presence_confirm turns target | PpOff => set_presence_off turns target end
            = set_presence_off turns target) as -> by (by rewrite Hoff).
    eapply ewp_mono; [by apply set_presence_off_wp|]. intros r e' w'. apply Hend.
Qed.

(** C7: Changing the presence policy ([set_presence]), whatever the runtime answers, fails or
    unwinds: every run is finite, writes nothing while a journal or a guard of a transaction is
    there, writes the configuration and the receipt only with both units stopped and, when
    confirmation is asked for, with the sudoers override in place, and takes the override away for
    the policy without confirmation only once both files have changed. If it succeeds, the
    configuration and the receipt are the ones built for the policy from those there were, and the
    override is there exactly for confirmation. If it fails with an error that is not uncertain,
    both files are the old ones or both the new ones, and the override is as it was. *)
Theorem presence_change_consistent turns w t :
  10000 < Z.of_nat turns → config0 = f_at w CONFIG_FILE → receipt0 = f_at w SECURITY_RECEIPT_PATH
  → Acc (flip moves) (w, t, set_presence turns p SecurityEngine_new)
    ∧ ∀ x, rtc moves (w, t, set_presence turns p SecurityEngine_new) x
        → reached (λ '(_, r) w', presence_ended (f_at w PAM_PROMPT_SUDOERS_PATH) r w') x.
Proof.
  intros Hturns Hc0 Hr0. split; [apply runs_end|]. intros x Hx. apply (runs_wp _ _ _ Hx).
  eapply program_mono; [exact (set_presence_wp turns SecurityEngine_new w Hturns Hc0 Hr0 t)|].
  by intros [e r].
Qed.
End promises.

(** ** A concrete run *)

Module PresenceDemo.
Import SecurityDemo.
#[local] Existing Instance JournalDemo.demo_sha256.
#[local] Existing Instance demo_config_env.
#[local] Existing Instance demo_patch_toml.
#[local] Existing Instance demo_json4.
#[local] Existing Instance demo_json5.
#[local] Existing Instance demo_pretty.

(** A machine with a plaintext configuration and nothing else. *)
Definition plain_machine : Files :=
  mkFiles (λ q, if bool_decide (q = CONFIG_FILE) then Some demo_raw else None) (λ _, None) None
    MayRun MayRun.
#[local] Existing Instance presence_machine.

Lemma presence_change_consistent_witness :
  presence_ended PpOff (Some demo_raw) None None (yes (mkOutcome [off_message false false] None)) plain_machine.
Proof.
  destruct (presence_change_consistent PpOff (Some demo_raw) None demo_turns plain_machine 0 demo_turns_enough
              eq_refl eq_refl) as [_ Hrun].
  apply (Hrun (plain_machine, 0, Done (SecurityEngine_new, yes (mkOutcome [off_message false false] None)))).
  answer (yes ()) plain_machine 0.
  answer (yes ()) plain_machine 0.
  answer (yes (None (A:=ObservedFile))) plain_machine 0.
  answer (yes (None (A:=ObservedFile))) plain_machine 0.
  answer (yes ()) plain_machine 0.
  answer (yes (Some (demo_file demo_raw))) plain_machine 0.
  answer (yes (None (A:=ObservedFile))) plain_machine 0.
  answer (yes (None (A:=ObservedFile))) plain_machine 0.
  apply rtc_refl.
Defined.
End PresenceDemo.
