(* ===== verification/SecurityPackage.v ===== *)
(** * The security transaction engine: reconciling a package

    From [crates/howy-cli/src/security/engine.rs]: [package_reconcile], which a package manager runs
    after it has replaced the units and the daemon. It confirms an unprovisioned or plaintext
    machine, gives an old plaintext machine its drop-in, or rebuilds the parts of the mode-1 receipt
    that a package owns. *)

From stdpp Require Import sorting pretty.
From S2P Require Import Prelude Bytes Storage Crypto Codec Namespace Legacy Contracts Cache Config Paths PromptState Protocol Status Provision ProvisionAtomic Credential Cleanup Journal JournalSystem ConfigPatch Receipt Security SecurityProvision SecurityRecover SecuritySafety SecurityFlows SecurityPresence.

Local Open Scope engine_scope.

Inductive PackageNoReceiptState := PkBootstrap | PkMode0 | PkLegacyCandidateMode0.
#[export] Instance PackageNoReceiptState_eq_dec : EqDecision PackageNoReceiptState.
Proof. solve_decision. Defined.
Record PackageNoReceiptLive := mkNoReceiptLive {
  nl_state : PackageNoReceiptState;
  nl_config : ObservedFile;
  nl_artifact : option ObservedFile;
  nl_dropin : option ObservedFile;
  nl_namespace_nonempty : bool;
  nl_base_service : ObservedFile;
  nl_base_socket : ObservedFile;
  nl_effective_units : EffectiveUnitSetV1;
  nl_daemon : DaemonVerifierIdentityV1;
}.
#[export] Instance PackageNoReceiptLive_eq_dec : EqDecision PackageNoReceiptLive.
Proof. solve_decision. Defined.
Record PackageMode1Live := mkMode1Live {
  ml_config : ObservedFile;
  ml_artifact : ObservedFile;
  ml_dropin : ObservedFile;
  ml_base_service : ObservedFile;
  ml_base_socket : ObservedFile;
  ml_effective_units : EffectiveUnitSetV1;
  ml_unit_credential : UnitCredentialReceipt;
  ml_daemon : DaemonVerifierIdentityV1;
}.
#[export] Instance PackageMode1Live_eq_dec : EqDecision PackageMode1Live.
Proof. solve_decision. Defined.

(** [Debug] of an identity; a digest is hexadecimal text. *)
Definition object_debug (t : FileObjectType) : bytes :=
  match t with
  | FoRegularFile => bs "RegularFile" | FoDirectory => bs "Directory" | FoSymlink => bs "Symlink"
  | FoOther => bs "Other"
  end.
Definition show_number (z : Z) : bytes := bs (pretty z).
Definition identity_debug (i : AtomicFileIdentityV1) : bytes :=
  bs "AtomicFileIdentityV1 { device_id: " ++ show_number (af_device_id i)
  ++ bs ", inode: " ++ show_number (af_inode i) ++ bs ", object_type: " ++ object_debug (af_object_type i)
  ++ bs ", uid: " ++ show_number (af_uid i) ++ bs ", gid: " ++ show_number (af_gid i)
  ++ bs ", permissions: " ++ show_number (af_permissions i)
  ++ bs ", link_count: " ++ show_number (af_link_count i)
  ++ bs ", byte_length: " ++ show_number (af_byte_length i)
  ++ bs ", sha256: Sha256Digest(" ++ [Byte.x22] ++ af_sha256 i ++ [Byte.x22] ++ bs ") }".
(** [transaction={} target={} staging={}] *)
Definition plan_evidence (plan : AtomicWritePlanV1) : bytes :=
  bs "transaction=" ++ pl_transaction_id plan ++ bs " target=" ++ pl_target_path plan
  ++ bs " staging=" ++ pl_staging_path plan.

Section package.
  Context `{Sha256} `{ConfigEnv} `{PatchToml}.
  Context `{SerdeJson VerifierResultV1} `{SerdeJson ProvisioningReceiptV1}.
  Context (turns : nat).

(** ** Checks *)

Definition validate_receipted_artifact_structure (artifact : ObservedFile)
    (receipt : ProvisioningReceiptV1) : secresult () :=
  _ ← validate_private artifact;
  inspected ← contract (inspect_systemd_credential_envelope (of_bytes artifact));
  let a := r_artifact receipt in let m := of_metadata artifact in let policy := ar_credential_policy a in
  operation_if
    (differs (ar_path a) MODE1_CREDENTIAL_PATH || differs (observed_sha256 artifact) (ar_sha256 a)
     || negb (fm_byte_length m =? ar_size a) || negb (fm_uid m =? ar_uid a) || negb (fm_gid m =? ar_gid a)
     || negb (fm_permissions m =? ar_mode a) || negb (fm_link_count m =? ar_nlink a)
     || differs (ie_actual_key_id inspected) (cp_actual_key_id policy)
     || differs (ie_literal_pcr_mask inspected) (cp_literal_pcr_mask policy)
     || differs (ie_envelope_sha256 inspected) (cp_envelope_sha256 policy)
     || negb (ie_envelope_size inspected =? cp_envelope_size policy))
    "live credential artifact does not match the immutable receipt".

Definition validate_receipted_credential_policy (receipt : ProvisioningReceiptV1)
    (artifact : ObservedFile) : secresult () :=
  inspected ← contract (inspect_systemd_credential_envelope (of_bytes artifact));
  let policy := ar_credential_policy (r_artifact receipt) in
  verified ← contract (validate_systemd_credential_envelope (of_bytes artifact)
               (cp_requested_selector policy) (r_credential_name receipt)
               (mkCryptographicValidation (ie_envelope_sha256 inspected) (r_credential_name receipt)
                  SYSTEMD_CREDENTIAL_PLAINTEXT_BYTES true true));
  operation_if (differs verified policy)
    "live credential envelope does not match the immutable credential policy".

(** The receipt with the parts that a package owns. *)
Definition with_package (r : ProvisioningReceiptV1) (unit_credential : UnitCredentialReceipt)
    (effective_units : EffectiveUnitSetV1) (verifier : VerifierReceipt) : ProvisioningReceiptV1 :=
  mkReceipt (r_schema_version r) (r_state r) (r_transaction_id r) (r_mode r) (r_epoch r)
    (r_credential_name r) (r_artifact r) (r_config_patch r) unit_credential effective_units verifier.
Definition validate_package_reconcile_preservation (original rebuilt : ProvisioningReceiptV1)
    : secresult () :=
  operation_if
    (differs (with_package original (r_unit_credential rebuilt) (r_effective_units rebuilt)
                (r_verifier rebuilt)) rebuilt)
    "package reconciliation changed an immutable receipt field".

Definition validate_effective_fragment (effective : EffectiveUnitFileV1) (expected_path : bytes)
    (live : ObservedFile) : secresult () :=
  let e := ef_metadata effective in let m := of_metadata live in
  operation_if
    (differs (ef_path effective) expected_path || differs (ef_sha256 effective) (observed_sha256 live)
     || differs (em_object_type e) (fm_object_type m) || negb (em_uid e =? fm_uid m)
     || negb (em_gid e =? fm_gid m) || negb (em_permissions e =? fm_permissions m)
     || negb (em_link_count e =? fm_link_count m) || negb (em_byte_length e =? fm_byte_length m))
    "effective unit fragment does not match the live file".

Definition validate_package_mode0_config_semantics (config : ObservedFile) : secresult () :=
  parsed ← parse_config (of_bytes config) "Mode 0 config is not UTF-8" "Mode 0 config is invalid";
  _ ← valid_config parsed;
  refused_if (differs (embedding_mode (security parsed)) Plaintext) "config is not valid Mode 0".
Definition validate_package_mode0_config (config : ObservedFile) : secresult () :=
  _ ← validate_private config; validate_package_mode0_config_semantics config.
Definition validate_package_legacy_candidate_mode0_config (config : ObservedFile) : secresult () :=
  let permissions := if fm_permissions (of_metadata config) =? mode_644 then mode_644 else mode_600 in
  _ ← validate_regular config 0 0 permissions; validate_package_mode0_config_semantics config.
Definition validate_package_bootstrap_config (config : ObservedFile) : secresult () :=
  _ ← validate_private config;
  parsed ← parse_config (of_bytes config) "bootstrap config is not UTF-8" "bootstrap config is invalid";
  _ ← valid_config parsed;
  refused_if (differs (embedding_mode (security parsed)) AeadCached || negb (disabled (core parsed)))
    "config is not a valid disabled Mode 1 bootstrap".

Definition validate_package_units_without_security_dropin (units : EffectiveUnitSetV1)
    (service socket : ObservedFile) : secresult () :=
  _ ← validate_regular service 0 0 mode_644;
  _ ← validate_regular socket 0 0 mode_644;
  let s := es_service units in let k := es_socket units in
  _ ← validate_effective_fragment (eu_fragment s) BASE_SERVICE_UNIT_PATH service;
  _ ← validate_effective_fragment (eu_fragment k) BASE_SOCKET_UNIT_PATH socket;
  operation_if
    (differs (eu_unit_kind s) UkService || differs (eu_unit_kind k) UkSocket
     || differs (eu_dropins s) [] || differs (eu_dropins k) []
     || differs (eu_conditions s) required_unit_conditions
     || differs (eu_conditions k) required_unit_conditions
     || differs (eu_load_credential_encrypted s) [] || differs (eu_set_credential s) []
     || differs (eu_load_credential_encrypted k) [] || differs (eu_set_credential k) []
     || differs (eu_exec_start s) [[bs "/usr/bin/howyd"]] || differs (eu_exec_start k) []
     || differs (eu_hardening s) required_service_hardening || differs (eu_hardening k) ∅)
    "effective units are not exact unprovisioned bootstrap policy".

Definition require_package_reconcile_controls_clear : eng () :=
  journal <~ ask LoadJournal;
  _ <~ elift (refused_if (bool_decide (is_Some journal))
                "active provisioning journal blocks package reconciliation");
  guard <~ ask (ReadFile SECURITY_TRANSACTION_GUARD_PATH 256);
  elift (refused_if (bool_decide (is_Some guard))
           "active provisioning guard blocks package reconciliation").
Definition require_package_reconcile_units_inactive : eng () :=
  '(service, socket) <~ stable_unit_pair turns;
  elift (refused_if (differs (rollback_target service) (Some InactiveDead)
                     || differs (rollback_target socket) (Some InactiveDead))
           "howy.service and howy.socket must both be stopped before package reconciliation").

(** ** A machine without a receipt *)

Definition validate_mode0_live (units : EffectiveUnitSetV1) (config dropin service socket : ObservedFile)
    : secresult () :=
  _ ← validate_package_mode0_config config;
  _ ← validate_private dropin;
  _ ← refused_if (differs (of_bytes dropin) MODE0_DROPIN_BYTES)
        "explicit Mode 0 security drop-in differs from policy";
  _ ← contract (validate_mode0 units (observed_sha256 dropin));
  _ ← validate_effective_fragment (eu_fragment (es_service units)) BASE_SERVICE_UNIT_PATH service;
  _ ← validate_effective_fragment (eu_fragment (es_socket units)) BASE_SOCKET_UNIT_PATH socket;
  effective ← required (head (eu_dropins (es_service units))) "effective Mode 0 drop-in is missing";
  validate_effective_fragment effective MODE1_DROPIN_PATH dropin.

(** The state that what was observed is, or why it is none. *)
Definition no_receipt_state (allow_legacy_candidate_mode0 : bool) (config : ObservedFile)
    (artifact dropin : option ObservedFile) (namespace_nonempty : bool) (units : EffectiveUnitSetV1)
    (service socket : ObservedFile) : secresult PackageNoReceiptState :=
  if is_ok (validate_package_bootstrap_config config) then
    _ ← validate_private config;
    _ ← refused_if (bool_decide (is_Some artifact) || bool_decide (is_Some dropin) || namespace_nonempty)
          "unprovisioned bootstrap has Mode 1 object or record state";
    _ ← validate_package_units_without_security_dropin units service socket;
    Ok PkBootstrap
  else
    match dropin with
    | Some dropin => _ ← validate_mode0_live units config dropin service socket; Ok PkMode0
    | None =>
        if allow_legacy_candidate_mode0 then
          _ ← validate_package_legacy_candidate_mode0_config config;
          _ ← refused_if (bool_decide (is_Some artifact) || namespace_nonempty)
                "legacy candidate Mode 0 has Mode 1 object or record state";
          _ ← validate_package_units_without_security_dropin units service socket;
          Ok PkLegacyCandidateMode0
        else
          _ ← validate_package_mode0_config config;
          Err (Refused (bs "explicit Mode 0 security drop-in is missing"))
    end.

Definition observe_package_no_receipt_live (allow_legacy_candidate_mode0 : bool)
    : eng PackageNoReceiptLive :=
  config <~ ask (ReadFile CONFIG_FILE MAX_CONFIG_BYTES);
  config <~ elift (ok_or config (Refused (bs "package config is missing")));
  artifact <~ ask (ReadFile MODE1_CREDENTIAL_PATH SYSTEMD_CREDENTIAL_TEXT_SIZE_MAX);
  dropin <~ ask (ReadFile MODE1_DROPIN_PATH MAX_DROPIN_BYTES);
  namespace_nonempty <~ ask NamespaceNonempty;
  effective_units <~ observe_effective_units;
  base_service <~ read_required BASE_SERVICE_UNIT_PATH MAX_DROPIN_BYTES "base howy.service is missing";
  base_socket <~ read_required BASE_SOCKET_UNIT_PATH MAX_DROPIN_BYTES "base howy.socket is missing";
  state <~ elift (no_receipt_state allow_legacy_candidate_mode0 config artifact dropin
                    namespace_nonempty effective_units base_service base_socket);
  daemon <~ ask DaemonVerifierIdentity;
  eret (mkNoReceiptLive state config artifact dropin namespace_nonempty base_service base_socket
          effective_units daemon).

Definition validate_normalized_package_mode0 (initial normalized : PackageNoReceiptLive)
    (plan : AtomicWritePlanV1) (publication : AtomicWriteObservationV1) : secresult () :=
  dropin ← required (nl_dropin normalized) "normalized Mode 0 drop-in is missing";
  let parent := pl_parent_directory plan in
  operation_if
    (differs (nl_state initial) PkLegacyCandidateMode0 || bool_decide (is_Some (nl_dropin initial))
     || bool_decide (is_Some (nl_artifact initial)) || nl_namespace_nonempty initial
     || differs (nl_state normalized) PkMode0 || differs (nl_config normalized) (nl_config initial)
     || bool_decide (is_Some (nl_artifact normalized)) || nl_namespace_nonempty normalized
     || differs (nl_base_service normalized) (nl_base_service initial)
     || differs (nl_base_socket normalized) (nl_base_socket initial)
     || differs (nl_daemon normalized) (nl_daemon initial)
     || differs (of_bytes dropin) MODE0_DROPIN_BYTES
     || differs (atomic_identity dropin) (wo_target publication)
     || negb (of_parent_device_id dropin =? di_device_id parent)
     || negb (of_parent_inode dropin =? di_inode parent)
     || negb (of_parent_uid dropin =? di_uid parent) || negb (of_parent_gid dropin =? di_gid parent)
     || negb (of_parent_permissions dropin =? di_permissions parent)
     || negb (of_parent_link_count dropin =? di_link_count parent))
    "normalized Mode 0 differs from the exact legacy transition".

Definition cleanup_uncommitted_mode0_stage (plan : AtomicWritePlanV1) (staged : AtomicFileIdentityV1)
    : eng () :=
  let path := pl_staging_path plan in
  observed <~ ask (ObserveAtomicTarget path MAX_DROPIN_BYTES);
  _ <~ elift (if differs (to_parent_directory observed) (pl_parent_directory plan)
              then Err (Uncertain (bs "Mode 0 stage parent identity changed at " ++ path)) else Ok ());
  match to_target observed with
  | None => eret ()
  | Some file =>
      if bool_decide (atomic_identity file = staged) then
        _ <~ ask (RemoveFileExact path staged);
        later <~ ask (ObserveAtomicTarget path MAX_DROPIN_BYTES);
        elift (if differs (to_parent_directory later) (pl_parent_directory plan)
                  || bool_decide (is_Some (to_target later))
               then Err (Uncertain (bs "exact Mode 0 stage cleanup could not prove absence at " ++ path))
               else Ok ())
      else efail (Uncertain (bs "Mode 0 stage identity changed at " ++ path))
  end.

Definition valid_mode0_plan (plan : AtomicWritePlanV1) : bool :=
  bool_decide (pl_target_path plan = MODE1_DROPIN_PATH)
  && bool_decide (pl_operation plan = NoReplace)
  && bool_decide (pl_expected_target plan = TargetAbsent)
  && (pl_uid plan =? 0) && (pl_gid plan =? 0) && (pl_permissions plan =? mode_600)
  && bool_decide (pl_timestamps plan = None)
  && (pl_byte_length plan =? len MODE0_DROPIN_BYTES)
  && bool_decide (pl_bytes_sha256 plan = digest_from_bytes MODE0_DROPIN_BYTES).

Definition publish_package_mode0_dropin (plan : AtomicWritePlanV1) : eng AtomicWriteObservationV1 :=
  _ <~ elift (operation_if (negb (valid_mode0_plan plan)) "legacy Mode 0 publication plan is invalid");
  staged <~ ask (CreateAtomicStage plan MODE0_DROPIN_BYTES);
  committed <~ etry (ask (CommitAtomicStage plan staged));
  match committed with
  | Ok observation => eret observation
  | Err (Uncertain m) =>
      let original := after "; original failure: " (Uncertain m) in
      reconciled <~ etry (ask (ReconcileAtomicWrite plan (Some staged)));
      match reconciled with
      | Ok NotCommitted =>
          cleanup <~ etry (cleanup_uncommitted_mode0_stage plan staged);
          match cleanup with
          | Ok _ =>
              efail (Uncertain
                (bs "legacy Mode 0 publication was not committed and the exact stage was cleaned; "
                 ++ plan_evidence plan ++ original))
          | Err cleanup_error =>
              efail (Uncertain
                (bs "legacy Mode 0 publication was not committed but exact stage cleanup failed; "
                 ++ plan_evidence plan ++ original ++ after "; " cleanup_error))
          end
      | Ok (WasCommitted observation) =>
          efail (Uncertain
            (bs "legacy Mode 0 publication committed despite an error; exact target evidence was retained; "
             ++ plan_evidence plan ++ bs " target_identity=" ++ identity_debug (wo_target observation)
             ++ original))
      | Err reconciliation_error =>
          efail (Uncertain
            (bs "legacy Mode 0 publication failed and could not be reconciled; evidence was retained; "
             ++ plan_evidence plan ++ original ++ after "; " reconciliation_error))
      end
  | Err publication_error =>
      cleanup <~ etry (cleanup_uncommitted_mode0_stage plan staged);
      match cleanup with
      | Ok _ => efail publication_error
      | Err cleanup_error =>
          efail (Uncertain
            (bs "legacy Mode 0 publication failed and exact stage cleanup failed; "
             ++ plan_evidence plan ++ after "; " publication_error ++ after "; " cleanup_error))
      end
  end.

(** [if self.read_receipt_file()?.is_some() { return Err(..) }] *)
Definition require_no_receipt (message : string) : eng () :=
  receipt <~ read_receipt_file;
  elift (operation_if (bool_decide (is_Some receipt)) message).
(** The controls, the units and the marker, and that there is no receipt. *)
Definition recheck_package (message : string) : eng () :=
  _ <~ require_package_reconcile_controls_clear;
  _ <~ require_package_reconcile_units_inactive;
  _ <~ ask ValidatePackageMarker;
  require_no_receipt message.

Definition verify_normalized (initial : PackageNoReceiptLive) (plan : AtomicWritePlanV1)
    (publication : AtomicWriteObservationV1) : eng () :=
  _ <~ recheck_package "receipt appeared after legacy Mode 0 normalization";
  _ <~ ask DaemonReload;
  _ <~ require_package_reconcile_units_inactive;
  normalized <~ observe_package_no_receipt_live false;
  _ <~ elift (validate_normalized_package_mode0 initial normalized plan publication);
  _ <~ recheck_package "receipt appeared during normalized Mode 0 verification";
  verified <~ observe_package_no_receipt_live false;
  _ <~ elift (operation_if (differs verified normalized)
                "normalized Mode 0 changed during strict verification");
  elift (validate_normalized_package_mode0 initial verified plan publication).

Definition normalize_legacy_candidate_mode0 (initial : PackageNoReceiptLive) : eng SecurityOutcome :=
  _ <~ elift (refused_if (negb (fm_permissions (of_metadata (nl_config initial)) =? mode_600))
                "legacy candidate Mode 0 normalization requires root:root mode 0600 config");
  _ <~ elift (validate_package_mode0_config (nl_config initial));
  transaction_id <~ ask NewTransactionId;
  plan <~ prepare_atomic_plan transaction_id MODE1_DROPIN_PATH MODE0_DROPIN_BYTES 0 0 mode_600 None true;
  _ <~ recheck_package "receipt appeared before legacy Mode 0 normalization";
  before_publication <~ observe_package_no_receipt_live true;
  _ <~ elift (operation_if (differs before_publication initial)
                "legacy candidate Mode 0 changed before normalization");
  publication <~ publish_package_mode0_dropin plan;
  post_publication <~ etry (verify_normalized initial plan publication);
  match post_publication with
  | Err error =>
      efail (Uncertain
        (bs "exact Mode 0 drop-in committed but post-publication verification failed; "
         ++ plan_evidence plan ++ bs " target_identity=" ++ identity_debug (wo_target publication)
         ++ after "; " error))
  | Ok _ =>
      eret (mkOutcome
        [bs "Package state normalized: legacy candidate Mode 0 is now explicit Mode 0."] None)
  end.

Definition no_receipt_message (s : PackageNoReceiptState) : bytes :=
  match s with
  | PkBootstrap => bs "Package state reconciled: unprovisioned disabled bootstrap."
  | PkMode0 => bs "Package state reconciled: explicit provisioned Mode 0."
  | PkLegacyCandidateMode0 => bs "Package state reconciled: legacy candidate Mode 0."
  end.
Definition reconcile_package_no_receipt (allow normalize : bool) : eng SecurityOutcome :=
  initial <~ observe_package_no_receipt_live allow;
  _ <~ recheck_package "receipt appeared during no-receipt package validation";
  final_live <~ observe_package_no_receipt_live allow;
  _ <~ elift (operation_if (differs final_live initial)
                "no-receipt package state changed during reconciliation");
  if normalize && bool_decide (nl_state initial = PkLegacyCandidateMode0)
  then normalize_legacy_candidate_mode0 initial
  else eret (mkOutcome [no_receipt_message (nl_state initial)] None).

(** ** A machine with a receipt *)

Definition observe_package_mode1_live (receipt : ProvisioningReceiptV1) : eng PackageMode1Live :=
  config <~ read_required CONFIG_FILE MAX_CONFIG_BYTES "receipted config is missing";
  _ <~ elift (validate_receipted_config config receipt);
  artifact <~ read_required MODE1_CREDENTIAL_PATH SYSTEMD_CREDENTIAL_TEXT_SIZE_MAX
                "receipted credential is missing";
  _ <~ elift (validate_receipted_artifact_structure artifact receipt);
  dropin <~ read_private MODE1_DROPIN_PATH MAX_DROPIN_BYTES "receipted drop-in is missing";
  _ <~ elift (operation_if (differs (of_bytes dropin) MODE1_DROPIN_BYTES)
                "receipted drop-in bytes differ from installed policy");
  base_service <~ read_required BASE_SERVICE_UNIT_PATH MAX_DROPIN_BYTES "base howy.service is missing";
  base_socket <~ read_required BASE_SOCKET_UNIT_PATH MAX_DROPIN_BYTES "base howy.socket is missing";
  _ <~ elift (validate_regular base_service 0 0 mode_644);
  _ <~ elift (validate_regular base_socket 0 0 mode_644);
  units <~ observe_effective_units;
  let service := es_service units in
  _ <~ elift (contract (validate_mode1 units (observed_sha256 dropin)));
  _ <~ elift (validate_effective_fragment (eu_fragment service) BASE_SERVICE_UNIT_PATH base_service);
  _ <~ elift (validate_effective_fragment (eu_fragment (es_socket units)) BASE_SOCKET_UNIT_PATH
                base_socket);
  effective_dropin <~ elift (required (head (eu_dropins service)) "effective Mode 1 drop-in is missing");
  _ <~ elift (validate_effective_fragment effective_dropin MODE1_DROPIN_PATH dropin);
  source <~ elift (required (head (eu_set_credential service)) "effective credential source is missing");
  configured <~ elift (contract (parse_credential_source (sc_value source) Production));
  daemon <~ ask DaemonVerifierIdentity;
  eret (mkMode1Live config artifact dropin base_service base_socket units
          (mkUnitCredential (observed_sha256 base_service) (observed_sha256 dropin) (sc_name source)
             configured) daemon).

(** The receipt rebuilt from what was observed. *)
Definition rebuild_receipt (receipt : ProvisioningReceiptV1) (live : PackageMode1Live)
    : secresult (ProvisioningReceiptV1 * bytes) :=
  let output := ve_output (r_verifier receipt) in
  verifier ← contract (verifier_receipt_new
               (mkVerifierResult (selected_receipt_config_sha256 receipt) (ml_daemon live)
                  (vr_readiness output)));
  let rebuilt := with_package receipt (ml_unit_credential live) (ml_effective_units live) verifier in
  _ ← validate_package_reconcile_preservation receipt rebuilt;
  _ ← contract (receipt_validate rebuilt);
  b ← contract (receipt_bytes rebuilt);
  Ok (rebuilt, b).

(** [SecurityRuntime::publish_package_receipt] *)
Definition publish_package_receipt (plan : AtomicWritePlanV1) (b : bytes) : eng AtomicWriteObservationV1 :=
  _ <~ elift (operation_if
         (differs (pl_target_path plan) SECURITY_RECEIPT_PATH || differs (pl_operation plan) Exchange
          || match pl_expected_target plan with TargetPresent _ => false | TargetAbsent => true end
          || negb (pl_uid plan =? 0) || negb (pl_gid plan =? 0) || negb (pl_permissions plan =? mode_600))
         "package receipt publication plan is invalid");
  staged <~ ask (CreateAtomicStage plan b);
  committed <~ etry (ask (CommitAtomicStage plan staged));
  match committed with
  | Ok observation => eret observation
  | Err publication_error =>
      reconciled <~ etry (ask (ReconcileAtomicWrite plan (Some staged)));
      match reconciled with
      | Ok NotCommitted => efail publication_error
      | Ok (WasCommitted _) =>
          efail (Uncertain (after
            "receipt publication completed despite an error; prior receipt backup was retained: "
            publication_error))
      | Err reconciliation_error =>
          efail (Uncertain
            (after "receipt publication failed and could not be reconciled: " publication_error
             ++ after "; " reconciliation_error))
      end
  end.

Definition validate_published_package_receipt (expected : ProvisioningReceiptV1) (expected_bytes : bytes)
    (publication : AtomicWriteObservationV1) : eng () :=
  published <~ read_receipt_file;
  '(file, receipt) <~ elift (required published "published receipt disappeared");
  elift (operation_if
           (differs (of_bytes file) expected_bytes || differs receipt expected
            || differs (atomic_identity file) (wo_target publication))
           "published receipt metadata, bytes, structure, or atomic identity differ from reconciliation").

Definition reconcile_package_mode1 (receipt_file : ObservedFile) (receipt : ProvisioningReceiptV1)
    : eng SecurityOutcome :=
  initial <~ observe_package_mode1_live receipt;
  _ <~ elift (validate_receipted_credential_policy receipt (ml_artifact initial));
  '(rebuilt, rebuilt_bytes) <~ elift (rebuild_receipt receipt initial);
  again <~ observe_package_mode1_live receipt;
  _ <~ elift (operation_if (differs again initial)
                "package-owned Mode 1 state changed during reconciliation");
  _ <~ require_package_reconcile_controls_clear;
  _ <~ require_package_reconcile_units_inactive;
  _ <~ ask ValidatePackageMarker;
  current <~ read_receipt_file;
  '(file, current) <~ elift (required current "Mode 1 receipt disappeared");
  _ <~ elift (operation_if (differs file receipt_file || differs current receipt)
                "Mode 1 receipt changed before package publication");
  target <~ ask (ObserveAtomicTarget SECURITY_RECEIPT_PATH MAX_RECEIPT_BYTES);
  let parent := to_parent_directory target in
  expected_parent <~ elift (expected_parent_permissions SECURITY_RECEIPT_PATH);
  _ <~ elift (operation_if
         (negb (di_uid parent =? 0) || negb (di_gid parent =? 0)
          || negb (di_permissions parent =? expected_parent)
          || differs (to_target target) (Some receipt_file))
         "receipt publication target changed or has unsafe metadata");
  plan <~ elift (contract (plan_new (r_transaction_id receipt) SECURITY_RECEIPT_PATH parent
             (TargetPresent (atomic_identity receipt_file)) 0 0 mode_600 None rebuilt_bytes Exchange));
  publication <~ publish_package_receipt plan rebuilt_bytes;
  _ <~ validate_published_package_receipt rebuilt rebuilt_bytes publication;
  _ <~ ask (RemoveAtomicBackup plan publication);
  let state := match r_state rebuilt with
               | RsProvisionedDisabled => "provisioned-disabled" | RsEnabled => "enabled"
               end in
  eret (mkOutcome [bs "Package receipt reconciled: Mode 1 " ++ bs state ++ bs "."] None).

(** ** The command *)

Definition package_reconcile (allow_legacy_candidate_mode0 normalize_legacy_candidate_mode0 : bool)
    : eng SecurityOutcome :=
  _ <~ elift (refused_if (normalize_legacy_candidate_mode0 && negb allow_legacy_candidate_mode0)
                "legacy candidate Mode 0 normalization requires explicit legacy admission");
  _ <~ ask RequireRoot;
  _ <~ ask AcquireLock;
  _ <~ require_package_reconcile_controls_clear;
  _ <~ ask ValidatePackageMarker;
  _ <~ require_package_reconcile_units_inactive;
  _ <~ ask DaemonReload;
  _ <~ require_package_reconcile_units_inactive;
  receipt <~ read_receipt_file;
  match receipt with
  | None => reconcile_package_no_receipt allow_legacy_candidate_mode0 normalize_legacy_candidate_mode0
  | Some (receipt_file, receipt) =>
      canonical <~ elift (contract (receipt_bytes receipt));
      _ <~ elift (refused_if (differs (of_bytes receipt_file) canonical) "Mode 1 receipt is not canonical");
      reconcile_package_mode1 receipt_file receipt
  end.
End package.

(** ** What a package may change *)

Section promises.
  Context `{Sha256} `{ConfigEnv} `{PatchToml}.
  Context `{SerdeJson VerifierResultV1} `{SerdeJson ProvisioningReceiptV1}.
  (** The files there were, and whether an old plaintext machine is to be normalized. *)
  Context (w0 : Files) (normalize : bool).

(** The receipt in [old] with other units and another verifier, and the readiness that was
    verified. *)
Definition rebuilt_from (old new : bytes) : Prop :=
  ∃ r r' u s v, receipt_parse old = Ok r ∧ r' = with_package r u s v ∧ receipt_validate r' = Ok ()
    ∧ receipt_bytes r' = Ok new ∧ vr_readiness (ve_output v) = vr_readiness (ve_output (r_verifier r)).
(** An old plaintext machine: a plaintext configuration, and nothing of either mode. *)
Definition old_plaintext : Prop :=
  normalize = true ∧ f_at w0 MODE1_DROPIN_PATH = None ∧ f_at w0 MODE1_CREDENTIAL_PATH = None
  ∧ f_at w0 SECURITY_RECEIPT_PATH = None
  ∧ ∃ b c, f_at w0 CONFIG_FILE = Some b ∧ toml_config b = Ok c ∧ validate c = Ok ()
      ∧ embedding_mode (security c) = Plaintext.

Definition good_dropin (d : option bytes) : Prop :=
  d = f_at w0 MODE1_DROPIN_PATH ∨ old_plaintext ∧ d = Some MODE0_DROPIN_BYTES.
Definition good_receipt (r : option bytes) : Prop :=
  r = f_at w0 SECURITY_RECEIPT_PATH
  ∨ ∃ old new, f_at w0 SECURITY_RECEIPT_PATH = Some old ∧ rebuilt_from old new ∧ r = Some new.
(** Every other file is as it was. *)
Definition package_kept (w : Files) : Prop :=
  (∀ q, q ∈ tracked → q ≠ MODE1_DROPIN_PATH → q ≠ SECURITY_RECEIPT_PATH → f_at w q = f_at w0 q)
  ∧ good_dropin (f_at w MODE1_DROPIN_PATH) ∧ good_receipt (f_at w SECURITY_RECEIPT_PATH).

(** Outside a transaction, only the exact plaintext drop-in of an old plaintext machine and a rebuilt
    receipt are written, and nothing that matters is removed; no unit is started. *)
Definition writable (w : Files) (path : bytes) : Prop :=
  no_transaction w
  ∧ (path = MODE1_DROPIN_PATH ∧ old_plaintext
     ∨ path = SECURITY_RECEIPT_PATH ∧ is_Some (f_at w0 SECURITY_RECEIPT_PATH)).
Definition package_allowed (w : Files) {B} (c : Call B) : Prop :=
  match c with
  | CreateAtomicStage plan b =>
      writable w (pl_target_path plan)
      ∧ if bool_decide (pl_target_path plan = MODE1_DROPIN_PATH) then b = MODE0_DROPIN_BYTES
        else ∃ old, f_at w0 SECURITY_RECEIPT_PATH = Some old ∧ rebuilt_from old b
  | CommitAtomicStage plan _ | ReconcileAtomicWrite plan _ => writable w (pl_target_path plan)
  | RemoveFileExact path _ => path ∉ tracked
  | GenerateKey | EncryptCredential _ _ | CreateGuard _ _ | RemoveGuard _ _ | PersistJournal _ _
  | RemoveJournal _ _ | EnsureSecurityDirectory _ | RollbackSecurityDirectories _
  | RollbackRecordedPrefix _ | QuarantineArtifact _ _ | RestoreQuarantined _ _
  | UnlinkQuarantined _ _ | StartUnit _ => False
  | _ => True
  end.
#[local] Instance package_machine : Machine Files := files_machine (@package_allowed).
#[local] Instance package_laws : MachineLaws Files.
Proof. by apply files_laws. Qed.

(** ** Publications *)

#[local] Hint Extern 1 (Quiet Files (ask _)) =>
  apply quiet_ask; intros ?w;
  cbv [allowed answers package_machine files_machine package_allowed files_answers];
  split; [exact I|]; intros ? ? ? ?; tauto : typeclass_instances.

(** The files of the two publications. *)
Definition good (path : bytes) (content : option bytes) : Prop :=
  path = MODE1_DROPIN_PATH ∧ good_dropin content ∨ path = SECURITY_RECEIPT_PATH ∧ good_receipt content.
Lemma kept_put w path content : package_kept w → good path content → package_kept (put w path content).
Proof.
  intros (Hq & Hd & Hr) Hg. split_and!.
  - intros q Hin Hnd Hnr. rewrite put_other; [auto|]. destruct Hg as [[-> _]|[-> _]]; done.
  - destruct Hg as [[-> Hc]|[-> Hc]]; [by rewrite put_at|]. rewrite put_other; [done|distinct].
  - destruct Hg as [[-> Hc]|[-> Hc]]; [|by rewrite put_at]. rewrite put_other; [done|distinct].
Qed.
Lemma kept_good w path : package_kept w → writable w path → good path (f_at w path).
Proof. intros (_ & Hd & Hr) [_ [[-> _]|[-> _]]]; [by left|by right]. Qed.
Lemma writable_put w path content : writable w path → writable (put w path content) path.
Proof.
  intros [[Hj Hg] Hp]. split; [|done]. split; rewrite put_other; try done;
    destruct Hp as [[-> _]|[-> _]]; distinct.
Qed.

(** In the middle of a publication. *)
Definition publishing (path : bytes) (id : AtomicFileIdentityV1) (w : Files) : Prop :=
  package_kept w ∧ writable w path ∧ good path (f_staged w id) ∧ good path (f_before w).
Lemma publishing_put path id w content :
  publishing path id w → good path content → publishing path id (put w path content).
Proof.
  intros (Hk & Hw & Hs & Hb) Hc. split_and!; [by apply kept_put|by apply writable_put|done|done].
Qed.

Lemma ewp_commit plan id Φ e w :
  let path := pl_target_path plan in
  package_kept w → writable w path → good path (f_staged w id)
  → (∀ r w', publishing path id w' → Φ r e w')
  → ewp (ask (CommitAtomicStage plan id)) Φ e w.
Proof.
  intros path Hk Hw Hs HΦ. apply ewp_ask; [done|]. intros t r w' t' [_ Hr]. cbv zeta in Hr. apply HΦ.
  assert (publishing path id (remember w path)) as Hp by (split_and!; [done|done|done|by apply kept_good]).
  destruct r as [[o|err]|]; [subst w'|destruct Hr as [-> | ->]|destruct Hr as [-> | ->]];
    first [done|by apply publishing_put].
Qed.
Lemma ewp_reconcile plan id Φ e w :
  let path := pl_target_path plan in
  publishing path id w → (∀ r w', publishing path id w' → Φ r e w')
  → ewp (ask (ReconcileAtomicWrite plan (Some id))) Φ e w.
Proof.
  intros path Hp HΦ. pose proof Hp as (Hk & Hw & Hs & Hb). apply ewp_ask; [done|].
  intros t r w' t' [_ Hr]. cbv zeta in Hr. apply HΦ.
  destruct r as [[[|o]|err]|]; [subst w'|subst w'|destruct Hr as [->|[-> | ->]]|destruct Hr as [->|[-> | ->]]];
    first [done|by apply publishing_put].
Qed.

Lemma dropin_stage_untracked id digest staging :
  canonical_atomic_staging_path id MODE1_DROPIN_PATH digest = Ok staging → staging ∉ tracked.
Proof.
  unfold canonical_atomic_staging_path. intros Hs. inv_ok. breflect.
  match goal with Hp : parent_path MODE1_DROPIN_PATH = Some _ |- _ => vm_compute in Hp; injection Hp as <- end.
  unfold tracked. rewrite !not_elem_of_cons. subst staging.
  split_and!; try (intros Heq; vm_compute in Heq; discriminate Heq). apply not_elem_of_nil.
Qed.

(** A step that changes nothing, on the way to a state in which the files are kept. *)
Ltac pass := first
  [ apply ewp_lift_bind; [intros ? ?|by auto]
  | apply ewp_bind_any, quiet; intros [[?|?]|]; [|by auto|by auto] ].

Lemma cleanup_stage_wp plan staged Φ e w :
  pl_staging_path plan ∉ tracked → package_kept w
  → (∀ r w', package_kept w' → Φ r e w')
  → ewp (cleanup_uncommitted_mode0_stage plan staged) Φ e w.
Proof.
  intros Hs Hk HΦ. unfold cleanup_uncommitted_mode0_stage. pass. pass.
  destruct (to_target _) as [file|]; [|by apply ewp_ret, HΦ]. case_bool_decide; [|by apply ewp_fail, HΦ].
  apply ewp_bind_any, ewp_ask; [done|]. intros t r w' t' [_ Hr].
  assert (package_kept w') as Hk'.
  { assert (package_kept (put w (pl_staging_path plan) None)) as Hput.
    { destruct Hk as (Hq & Hd & Hrc). split_and!; try (intros q Hin ??); rewrite put_other; auto;
        intros Heq; apply Hs; rewrite <-Heq; first [done|tracked_path]. }
    destruct r as [[[]|err]|]; [subst w'|destruct Hr as [-> | ->]|destruct Hr as [-> | ->]]; done. }
  destruct r as [[[]|err]|]; [|by apply HΦ|by apply HΦ]. pass. by apply ewp_lift_any, HΦ.
Qed.

Lemma publish_dropin_wp plan Φ e w :
  pl_staging_path plan ∉ tracked → package_kept w → no_transaction w → old_plaintext
  → (∀ r w', package_kept w' → Φ r e w')
  → ewp (publish_package_mode0_dropin plan) Φ e w.
Proof.
  intros Hs Hk Hn Hold HΦ. unfold publish_package_mode0_dropin.
  apply ewp_lift_bind; [|by intros; apply HΦ]. intros [] Hv.
  assert (pl_target_path plan = MODE1_DROPIN_PATH) as Ht.
  { unfold operation_if, valid_mode0_plan in Hv. case_match; [done|]. breflect. tauto. }
  assert (writable w MODE1_DROPIN_PATH) as Hw by (split; [done|by left]).
  apply ewp_bind_any, ewp_ask.
  { split; rewrite Ht; [done|]. by rewrite bool_decide_eq_true_2. }
  intros t r w1 t' [_ ->]. destruct r as [[staged|err]|]; [|by apply HΦ|by apply HΦ].
  apply ewp_try_bind, ewp_commit; rewrite ?Ht; [done|done| |].
  { left. split; [done|]. right. split; [done|apply stage_at]. }
  intros r w2 Hp. pose proof Hp as (Hk2 & _).
  destruct r as [[o|[m|m|m]]|]; [by apply ewp_ret, HΦ| | | |by apply HΦ].
  1,2: apply ewp_try_bind, cleanup_stage_wp; [done|done|];
    intros [[?|?]|] w' ?; [apply ewp_fail|apply ewp_fail|]; by apply HΦ.
  apply ewp_try_bind, ewp_reconcile; rewrite ?Ht; [done|]. intros r w3 (Hk3 & _).
  destruct r as [[[|o]|err]|]; [|by apply ewp_fail, HΦ|by apply ewp_fail, HΦ|by apply HΦ].
  apply ewp_try_bind, cleanup_stage_wp; [done|done|].
  intros [[?|?]|] w' ?; [apply ewp_fail|apply ewp_fail|]; by apply HΦ.
Qed.

(** ** What is known before a publication *)

Lemma controls_clear_wp Φ e w :
  (no_transaction w → Φ (Some (Ok ())) e w) → (∀ err, Φ (Some (Err err)) e w) → Φ None e w
  → ewp require_package_reconcile_controls_clear Φ e w.
Proof.
  intros Hok Herr Hnone. apply ewp_bind_any, ewp_load; [exact I| |done|done]. intros [j|] Hj; [by apply ewp_lift_bind|].
  apply ewp_lift_bind; [intros _ _|done]. apply ewp_bind_any, ewp_read; [exact I| |done|done].
  intros [g|] Hg; apply ewp_lift_any; [apply Herr|by apply Hok].
Qed.
Lemma read_receipt_wp Φ e w :
  (f_at w SECURITY_RECEIPT_PATH = None → Φ (Some (Ok None)) e w)
  → (∀ f r, f_at w SECURITY_RECEIPT_PATH = Some (of_bytes f) → receipt_parse (of_bytes f) = Ok r
       → Φ (Some (Ok (Some (f, r)))) e w)
  → (∀ err, Φ (Some (Err err)) e w) → Φ None e w
  → ewp read_receipt_file Φ e w.
Proof.
  intros Habs Hok Herr Hnone. apply ewp_bind_any, ewp_read; [exact I| |done|done].
  intros [f|] Hf; [|by apply ewp_ret, Habs]. apply ewp_lift_bind; [intros _ _|done].
  apply ewp_lift_bind; [|done]. intros r Hr%contract_ok. by apply ewp_ret, Hok.
Qed.
Lemma inactive_quiet turns : 10000 < Z.of_nat turns → Quiet Files (require_package_reconcile_units_inactive turns).
Proof.
  intros Hturns Φ e w HΦ. apply ewp_bind_any, (quiet_stable_unit_pair turns Hturns).
  intros [[[? ?]|?]|]; [apply ewp_lift_any|..]; apply HΦ.
Qed.
Lemma recheck_wp turns message Φ e w :
  10000 < Z.of_nat turns
  → (no_transaction w → f_at w SECURITY_RECEIPT_PATH = None → Φ (Some (Ok ())) e w)
  → (∀ err, Φ (Some (Err err)) e w) → Φ None e w
  → ewp (recheck_package turns message) Φ e w.
Proof.
  intros Hturns Hok Herr Hnone. apply ewp_bind_any, controls_clear_wp; [|done|done]. intros Hn.
  apply ewp_bind_any, (inactive_quiet turns Hturns). intros [[[]|?]|]; [|done|done]. pass.
  apply ewp_bind_any, read_receipt_wp; [|intros; apply ewp_lift_any, Herr|done|done].
  intros Habs. by apply ewp_lift_any, Hok.
Qed.

(** A legacy candidate is a plaintext configuration alone. *)
Lemma legacy_state allow config artifact dropin nonempty units service socket :
  no_receipt_state allow config artifact dropin nonempty units service socket = Ok PkLegacyCandidateMode0
  → artifact = None ∧ dropin = None
    ∧ ∃ c, toml_config (of_bytes config) = Ok c ∧ validate c = Ok ()
        ∧ embedding_mode (security c) = Plaintext.
Proof.
  unfold no_receipt_state. intros Hs. case_match; [by inv_ok|].
  destruct dropin as [d|]; [by inv_ok|]. destruct allow; [|by inv_ok]. inv_ok.
  unfold validate_package_legacy_candidate_mode0_config, validate_package_mode0_config_semantics,
    parse_config, valid_config, refused_if, differs in *. inv_ok. breflect.
  match goal with Hu : validate _ = Ok ?u |- _ => destruct u end.
  split; [by apply eq_None_not_Some|]. eauto.
Qed.
Lemma observe_no_receipt_wp allow Φ e w :
  (∀ live, (nl_state live = PkLegacyCandidateMode0
      → f_at w MODE1_CREDENTIAL_PATH = None ∧ f_at w MODE1_DROPIN_PATH = None
        ∧ ∃ b c, f_at w CONFIG_FILE = Some b ∧ toml_config b = Ok c ∧ validate c = Ok ()
            ∧ embedding_mode (security c) = Plaintext)
    → Φ (Some (Ok live)) e w)
  → (∀ err, Φ (Some (Err err)) e w) → Φ None e w
  → ewp (observe_package_no_receipt_live allow) Φ e w.
Proof.
  intros Hok Herr Hnone. unfold observe_package_no_receipt_live, read_required.
  apply ewp_bind_any, ewp_read; [exact I| |done|done]. intros config Hc.
  apply ewp_lift_bind; [|done]. intros file Hf. destruct config as [file'|]; [|done]. injection Hf as ->.
  apply ewp_bind_any, ewp_read; [exact I| |done|done]. intros artifact Ha.
  apply ewp_bind_any, ewp_read; [exact I| |done|done]. intros dropin Hd. do 4 pass.
  apply ewp_lift_bind; [|done]. intros state Hs. pass. apply ewp_ret, Hok. simpl. intros ->.
  destruct (legacy_state _ _ _ _ _ _ _ _ Hs) as (-> & -> & c & Hparse & Hv & Hm).
  split_and!; [done|done|]. by exists (of_bytes file), c.
Qed.
Lemma prepare_dropin_wp id b uid gid permissions timestamps absent Φ e w :
  (∀ plan, pl_staging_path plan ∉ tracked → Φ (Some (Ok plan)) e w)
  → (∀ err, Φ (Some (Err err)) e w) → Φ None e w
  → ewp (prepare_atomic_plan id MODE1_DROPIN_PATH b uid gid permissions timestamps absent) Φ e w.
Proof.
  intros Hok Herr Hnone. unfold prepare_atomic_plan.
  apply ewp_bind_any, ewp_observe; [exact I| |done|done]. intros o _.
  do 3 (apply ewp_lift_bind; [intros ? _|done]). case_match. apply ewp_lift_any.
  destruct (contract _) as [plan|] eqn:Hp; [|done]. apply contract_ok in Hp. apply Hok.
  unfold plan_new in Hp. inv_ok. subst plan. by eapply dropin_stage_untracked.
Qed.

Lemma kept_refl : package_kept w0.
Proof. split_and!; [done|by left|by left]. Qed.

Lemma verify_normalized_quiet turns initial plan publication :
  10000 < Z.of_nat turns → Quiet Files (verify_normalized turns initial plan publication).
Proof.
  intros Hturns. pose proof (inactive_quiet turns Hturns).
  unfold verify_normalized, recheck_package, require_no_receipt, read_receipt_file,
    require_package_reconcile_controls_clear, observe_package_no_receipt_live, read_required. apply _.
Qed.

(** ** The two reconciliations *)

Lemma normalize_wp turns initial Φ e :
  10000 < Z.of_nat turns → normalize = true → nl_state initial = PkLegacyCandidateMode0
  → (∀ r w', package_kept w' → Φ r e w')
  → ewp (normalize_legacy_candidate_mode0 turns initial) Φ e w0.
Proof.
  intros Hturns Hnorm Hstate HΦ. pose proof kept_refl as Hk.
  assert (∀ r, Φ r e w0) as Hstop by auto. unfold normalize_legacy_candidate_mode0. do 3 pass.
  apply ewp_bind_any, prepare_dropin_wp; [|done|done]. intros plan Hplan.
  apply ewp_bind_any, recheck_wp; [done| |done|done]. intros Hn Habs.
  apply ewp_bind_any, observe_no_receipt_wp; [|done|done]. intros live Hlive.
  apply ewp_lift_bind; [|done]. intros [] Hsame. unfold operation_if, differs in Hsame.
  case_match; [done|]. breflect. subst live. destruct (Hlive Hstate) as (Ha & Hd & Hc).
  apply ewp_bind_any, publish_dropin_wp; [done|done|done|done|].
  intros r w1 Hk1. destruct r as [[o|err]|]; [|by apply HΦ|by apply HΦ].
  apply ewp_try_bind, (verify_normalized_quiet turns initial plan o Hturns).
  intros [[[]|err]|]; [apply ewp_ret|apply ewp_fail|]; by apply HΦ.
Qed.
Lemma no_receipt_wp turns allow Φ e :
  10000 < Z.of_nat turns → (∀ r w', package_kept w' → Φ r e w')
  → ewp (reconcile_package_no_receipt turns allow normalize) Φ e w0.
Proof.
  intros Hturns HΦ. pose proof kept_refl as Hk. assert (∀ r, Φ r e w0) as Hstop by auto.
  unfold reconcile_package_no_receipt.
  apply ewp_bind_any, observe_no_receipt_wp; [|done|done]. intros initial _.
  apply ewp_bind_any, recheck_wp; [done| |done|done]. intros _ _.
  apply ewp_bind_any, observe_no_receipt_wp; [|done|done]. intros live _. pass.
  destruct (normalize && _) eqn:Hc; [|by apply ewp_ret]. apply andb_true_iff in Hc as [Hnorm Hs].
  breflect. by apply normalize_wp.
Qed.

Lemma rebuild_from receipt live rebuilt b old :
  rebuild_receipt receipt live = Ok (rebuilt, b) → receipt_parse old = Ok receipt → rebuilt_from old b.
Proof.
  unfold rebuild_receipt, contract, verifier_receipt_new. intros Hr Hp. inv_ok. simplify_eq.
  eexists receipt, _, _, _, _. split_and!; [done|reflexivity|by destruct a1|done|done].
Qed.

Lemma publish_receipt_kept plan old b Φ e w :
  package_kept w → no_transaction w → f_at w0 SECURITY_RECEIPT_PATH = Some old → rebuilt_from old b
  → (∀ r w', package_kept w' → Φ r e w')
  → ewp (publish_package_receipt plan b) Φ e w.
Proof.
  intros Hk Hn Hold Hb HΦ. unfold publish_package_receipt.
  apply ewp_lift_bind; [|by intros; apply HΦ]. intros [] Hv.
  assert (pl_target_path plan = SECURITY_RECEIPT_PATH) as Ht.
  { unfold operation_if, differs in Hv. case_match; [done|]. breflect. tauto. }
  assert (writable w SECURITY_RECEIPT_PATH) as Hw by (split; [done|right; eauto]).
  apply ewp_bind_any, ewp_ask.
  { split; rewrite Ht; [done|]. rewrite bool_decide_eq_false_2 by distinct. eauto. }
  intros t r w1 t' [_ ->]. destruct r as [[staged|err]|]; [|by apply HΦ|by apply HΦ].
  apply ewp_try_bind, ewp_commit; rewrite ?Ht; [done|done| |].
  { right. split; [done|]. right. exists old, b. split_and!; [done|done|apply stage_at]. }
  intros r w2 Hp. pose proof Hp as (Hk2 & _).
  destruct r as [[o|err]|]; [by apply ewp_ret, HΦ| |by apply HΦ].
  apply ewp_try_bind, ewp_reconcile; rewrite ?Ht; [done|]. intros r w3 (Hk3 & _).
  destruct r as [[[|o]|err']|]; [apply ewp_fail|apply ewp_fail|apply ewp_fail|]; by apply HΦ.
Qed.

Lemma mode1_live_quiet receipt : Quiet Files (observe_package_mode1_live receipt).
Proof. unfold observe_package_mode1_live, read_private, read_required. apply _. Qed.

Lemma mode1_wp turns file receipt Φ e :
  10000 < Z.of_nat turns → f_at w0 SECURITY_RECEIPT_PATH = Some (of_bytes file)
  → receipt_parse (of_bytes file) = Ok receipt
  → (∀ r w', package_kept w' → Φ r e w')
  → ewp (reconcile_package_mode1 turns file receipt) Φ e w0.
Proof.
  intros Hturns Hat Hparse HΦ. pose proof kept_refl as Hk. assert (∀ r, Φ r e w0) as Hstop by auto.
  pose proof mode1_live_quiet. unfold reconcile_package_mode1. pass. pass.
  apply ewp_lift_bind; [|done]. intros [rebuilt b] Hb. pass. pass.
  apply ewp_bind_any, controls_clear_wp; [|done|done]. intros Hn.
  apply ewp_bind_any, (inactive_quiet turns Hturns). intros [[[]|?]|]; [|done|done]. pass.
  apply ewp_bind_any, read_receipt_wp; [by intros; apply ewp_lift_bind| |done|done]. intros f r _ _.
  apply ewp_lift_bind; [intros [? ?] _|done]. do 5 pass.
  apply ewp_bind_any. eapply publish_receipt_kept; [done|done|done|by eapply rebuild_from|].
  intros [[pub|err]|] w1 Hk1; [|by apply HΦ|by apply HΦ].
  assert (∀ r, Φ r e w1) as Hstop1 by auto. clear Hstop.
  unfold validate_published_package_receipt.
  apply ewp_bind_any, ewp_bind_any, read_receipt_wp; [|intros ? ? _ _|done|done].
  - intros _. by apply ewp_lift_bind.
  - apply ewp_lift_bind; [intros [? ?] _|done]. apply ewp_lift_any. case_match; [|done].
    pass. by apply ewp_ret.
Qed.

Lemma package_reconcile_wp turns allow e :
  10000 < Z.of_nat turns
  → ewp (package_reconcile turns allow normalize) (λ _ _ w', package_kept w') e w0.
Proof.
  intros Hturns. pose proof kept_refl as Hk. unfold package_reconcile. do 3 pass.
  apply ewp_bind_any, controls_clear_wp; [intros _|done|done]. pass.
  apply ewp_bind_any, (inactive_quiet turns Hturns). intros [[[]|?]|]; [|done|done]. pass.
  apply ewp_bind_any, (inactive_quiet turns Hturns). intros [[[]|?]|]; [|done|done].
  apply ewp_bind_any, read_receipt_wp; [intros _| |done|done].
  - by apply no_receipt_wp.
  - intros f r Hat Hparse. do 2 pass. by apply mode1_wp.
Qed.

(** C24: Reconciling a package ([package_reconcile]), whatever the runtime answers, fails or unwinds:
    every run is finite, writes nothing while a journal or a guard of a transaction is there, starts
    no unit, and ends with the configuration, the credential, the sudoers override and the
    transaction's files as they were. The drop-in is as it was, or is the exact plaintext one, which
    only a machine gets that was to be normalized and had a plaintext configuration without drop-in,
    credential and receipt. The receipt is as it was, or is the old one with other units and another
    verifier of the same readiness, and valid: neither the credential, nor its policy, the patch of the
    configuration or the state change. *)
Theorem package_reconcile_preserves turns allow t :
  10000 < Z.of_nat turns
  → Acc (flip moves) (w0, t, package_reconcile turns allow normalize SecurityEngine_new)
    ∧ ∀ x, rtc moves (w0, t, package_reconcile turns allow normalize SecurityEngine_new) x
        → reached (λ _ w', package_kept w') x.
Proof.
  intros Hturns. split; [apply runs_end|]. intros x Hx. apply (runs_wp _ _ _ Hx).
  eapply program_mono; [exact (package_reconcile_wp turns allow SecurityEngine_new Hturns t)|].
  by intros [e r].
Qed.
End promises.

(** ** A concrete run *)

Module PackageDemo.
Import SecurityDemo PresenceDemo.
#[local] Existing Instance JournalDemo.demo_sha256.
#[local] Existing Instance demo_config_env.
#[local] Existing Instance demo_patch_toml.
#[local] Existing Instance demo_json4.
#[local] Existing Instance demo_json5.
#[local] Existing Instance package_machine.

(** A run that stops at the package marker. *)
Lemma package_reconcile_preserves_witness : package_kept plain_machine true plain_machine.
Proof.
  destruct (package_reconcile_preserves plain_machine true demo_turns true 0 demo_turns_enough) as [_ Hrun].
  refine (Hrun (plain_machine, 0, Done (SecurityEngine_new, no)) _).
  answer (yes ()) plain_machine 0.
  answer (yes ()) plain_machine 0.
  answer (yes (None (A:=ObservedFile))) plain_machine 0.
  answer (yes (None (A:=ObservedFile))) plain_machine 0.
  answer (no (A:=())) plain_machine 0.
  apply rtc_refl.
Defined.
End PackageDemo.
